(* ===== verification/_CoqProject ===== *)
-Q . S2P
Prelude.v
Status.v
Interfaces.v
RingBuffer.v
StackBuffer.v
ForwardList.v
Conc.v
Spsc.v
MirroredRing.v
Heap.v
Algorithm.v
AlgorithmSort.v
HashTable.v
Hex.v
Base64.v
Bytes.v
Words.v
StringBuf.v
JsonText.v
JsonInteger.v
JsonDoc.v
JsonTree.v
JsonWriter.v
JsonParser.v
Digest.v
Sha2.v
Md5.v
Ctr.v
ChaCha20.v
XorCipher.v
Sm4.v
Camellia.v
Aes.v
Ubx.v
UbxParser.v
MqttTopic.v
MqttCodec.v
MqttCursor.v
MqttProperties.v
Checksums.v
DnsName.v
DnsResponse.v
HpackInteger.v
HpackHuffman.v
HttpHeaders.v
Hpack.v
CoapMessage.v
CoapCodec.v
Bits.v
Flags.v
IntMath.v
StringView.v
Http1Text.v
Http1Request.v
Http1Machine.v
Http1Response.v
Http1Parser.v
NmeaSentence.v
NmeaParser.v
AvlTree.v
AvlShape.v
AvlLinks.v
AvlSearch.v
AvlMap.v
Sync.v
TickTimer.v
