(* ===== verification/Prelude.v ===== *)
(** * Verification of CASTLE, an embedded C++ template library

    CASTLE (src/include) is a header-only C++17 library for targets without a heap:
    [castle/] holds fixed-capacity containers, synchronisation, events, mathematics
    and utilities, [castle_ext/] builds on them checksums, codecs, protocol
    encoders and parsers.  This development models a growing part of it as Rocq
    functions and step relations that follow the code statement by statement, and
    proves what makes each part correct.

    ** Conventions

    - Memory safety is part of every statement.  Code that reads or writes through
      pointers and array indices lives in [exec] (this file): an access outside the
      object, through a null pointer, or the destruction of an object that is not
      alive is [Undefined], so a theorem [f .. = Done r] also says that [f] commits
      no such error.
    - Loops are [for_range] (a counted loop) or [while_loop] with fuel; running out
      of fuel is [Undefined] as well, so [Done] also means termination.  The fuel is
      the length of the input or the capacity of the container plus one (twice that
      for the rebalancing pass of the AVL tree, which may visit a level twice, and
      the counter's value for the timer, log2 of the range plus two for a binary
      search): each loop makes progress in every
      iteration, and the theorems show that the fuel is never the reason to stop.
    - A w-bit unsigned integer is a [Z] in [[0, 2^w)] and every cast is a [wrap]; a
      [size_type] that counts elements of a container is a [nat].
    - A pointer argument is [None] (null) or [Some] buffer; a function that fills a
      caller's buffer returns the new contents; [wrote m 0 bs] is the buffer [m]
      whose beginning has been overwritten with [bs].
    - Error codes are [status] values (Status.v), returned beside the new state.

    ** The files

    - Prelude: the above, arithmetic of machine words, bytes and digits, tactics.
    - Status: castle/error/status.hpp.
    - Interfaces: the classes [BoundedQueue] and [BoundedMap], what a container
      promises to its clients; RingBuffer and HashTable provide instances.
    - RingBuffer: castle/container/ring_buffer.hpp.  A circular array refines a
      bounded FIFO queue; element access and the views agree with the queue.
    - StackBuffer: castle/container/stack.hpp.  A bounded stack, bulk operations included.
    - ForwardList: castle/container/forward_list.hpp.  The node pool, its links and its
      free list refine a bounded list; [remove_front_undefined] is about a value passed
      by reference into the list.
    - Conc: programs of shared-memory accesses, two threads interleaved, data races, and a
      rely-guarantee logic [wp] whose adequacy theorem covers every interleaving.  Atomic
      accesses are sequentially consistent steps: the memory orders of the code (acquire,
      release, relaxed) are not modelled, here and in Sync.
    - Spsc, MirroredRing: castle/container/spsc_buffer_desc.hpp and
      mirrored_ring_buffer.hpp in that logic: for any producer and consumer the containers
      are race free and FIFO; [spsc_cancel_reorders] and [mirrored_index_wraps] show where
      they are not.
    - StringBuf: castle/container/string.hpp and string_view.hpp.  A bounded,
      null-terminated text, searching and comparing; [insert_self_corrupts].
    - JsonText, JsonInteger, JsonDoc, JsonTree, JsonWriter, JsonParser:
      castle_ext/serialization/json.hpp.  JsonText is the texts of strings and numbers,
      against the grammar of RFC 8259, JsonInteger decimal notation at every width.  JsonDoc
      is the document, nodes linked by ids over a character store, which refines a list
      of entries; JsonTree the trees those entries spell, the grammar of values and the
      text of a tree; JsonWriter and JsonParser the recursive writer and parser: exactness,
      termination (the parser's fuel is its depth limit plus one, the writer's the number
      of nodes plus one) and the round trip.
    - Algorithm, AlgorithmSort: castle/algorithm/algorithm.hpp.  Every algorithm over one
      memory in which ranges may overlap; sorting, binary search within log2 steps.
    - Heap: castle/container/heap.hpp.  The binary heap refines a bounded priority
      multiset; draining it sorts.
    - HashTable: castle/container/hash_table.hpp and hash_set.hpp.  Open addressing
      with tombstones refines a bounded finite map, iteration visits every entry
      once, and the set built on it refines a bounded finite set.
    - AvlTree, AvlShape, AvlLinks, AvlSearch, AvlMap: castle/container/avl_tree.hpp.
      AvlTree is the code: a node pool with child, parent and free-list pointers.
      AvlShape is the pure theory of the trees the nodes spell (rotations, the
      rebalancing pass, heights), AvlLinks relates pointer manipulation to it,
      AvlSearch treats searches and iterators, AvlMap the invariant, insertion,
      erasure and the theorems: refinement of an ordered map for any strict weak
      order, iteration in key order, logarithmic searches.
    - Hex, Base64: castle_ext/codecs.  Round trips, and that the decoders accept
      exactly the canonical encodings and are memory safe on any input.
    - Bytes: castle/utility/bytes.hpp.  Byte-order accessors and rotations.
    - Words: rotations and digits as numbers, for the reference definitions below.
    - Digest, Sha2, Md5: castle_ext/crypto/hash.  The streaming text the three classes
      share over a record of what differs, the laws [HashLaws] an algorithm has to keep,
      and the equivalence with RFC 1321 and FIPS 180-4 for every cut of the message.  The
      tables of the standards are computed from their definitions (sines, roots of primes).
    - Ctr, Aes, Sm4, Camellia: castle_ext/crypto/aes.hpp, sm4.hpp, camellia.hpp.  Each
      block cipher inverts itself and is an instance of [BlockCipher], over which the
      counter mode they share is proved once.
    - ChaCha20, XorCipher: castle_ext/crypto/chacha20.hpp and xor.hpp.  Stream ciphers as
      positions of a key stream.
    - Ubx, UbxParser: castle_ext/protocols/ubx/ubx.hpp and
      castle_ext/parsers/ubx_parser/ubx_parser.hpp.  Frame codec, and the streaming
      parser: it reports only frames that are in the stream, and every frame that
      fits, in order, under any chunking of the input.
    - MqttTopic, MqttCodec, MqttCursor, MqttProperties: castle_ext/protocols/mqtt
      (topic.hpp, codec.hpp, types.hpp).  UTF-8 validation, topic validation and
      matching, remaining length, packet framing, the cursors and the MQTT 5
      properties: exactness of the validators, round trips of the codecs.
    - Checksums: castle_ext/checksums.  The CRC template computes remainders of
      polynomials over GF(2) and detects bursts; Fletcher sums are exact.
    - DnsName, DnsResponse: castle_ext/protocols/dns/message.hpp and types.hpp, with the
      endpoints of castle_ext/net/endpoint.hpp.  DnsName decodes compressed names (the loop
      stops at the 129th hop, which bounds its fuel) and encodes queries, DnsResponse parses
      responses: both are total on every packet, and exact against the wire format of
      RFC 1035, stated as inductive relations on the bytes.
    - HttpHeaders: castle_ext/protocols/http/headers.hpp with the helpers of types.hpp.  The
      header object refines a bounded list of fields under every operation.
    - HpackInteger, HpackHuffman, Hpack: castle_ext/protocols/http/hpack.hpp.  Prefixed
      integers (ten octets read, five written, the fuel of their loops), the Huffman
      tree, which is built by the code and checked against the table, and the decoder over
      any sink of headers (the class [HeaderSink]).  The format of RFC 7541 is given as
      inductive relations on the octets and on the dynamic table; the block loop consumes an
      octet a pass and the eviction loop an entry a pass, which bounds their fuel.
    - StringView: castle/container/string_view.hpp.  Parts, searches and comparisons of views.
    - Http1Text, Http1Request: castle_ext/protocols/http/http1.hpp and types.hpp.  The
      helpers with their meaning on texts, and the serializer of requests, exact with
      every error.
    - Http1Machine, Http1Response, Http1Parser: the response parser of http1.hpp.  The
      parser with its arrays (Http1Parser) simulates a machine on lists that takes a byte
      at a time (Http1Machine), whose completed runs are the responses of an inductive
      grammar (Http1Response): head blocks, interim responses, the four framings of
      a body.  The template arguments with their static assertions are the class [config];
      a pass of the feeding loop consumes a byte, which bounds its fuel.
    - NmeaSentence, NmeaParser: castle_ext/protocols/nmea/nmea.hpp and
      castle_ext/parsers/nmea_parser/nmea_parser.hpp.  Sentences are decoded and encoded as
      their text determines; the streaming parser computes a machine on lists, which on the
      streams called [regular] agrees with the documented grammar (noise, whole, truncated
      and oversized sentences), so that the callbacks are called with exactly the events of the
      stream; [lone_cr_ends_nothing] and [dollar_digit_swallowed] show why only on these.
    - CoapMessage, CoapCodec: castle_ext/protocols/coap/types.hpp and codec.hpp.  A message
      refines its contents under every operation; datagrams whose known elective options have
      valid lengths are decoded as the layout of RFC 7252, given as inductive relations on the octets,
      determines (for the others see [invalid_length_skipped]), and what is encoded
      is decoded again, less the elective options the decoder does not accept (a pass of the decoding loop consumes an octet, which bounds its fuel).
    - Bits, Flags: castle/bit at every width and signedness, shifts undefined where C++ leaves
      them so; every function is exact on the bits of its argument (the loops halve or double
      an index below 64: seven tests).  A flag word refines a set of flags within its mask.
    - IntMath: the integer functions of castle/math at every width and signedness with the
      promotions and overflows of C++.  Square roots by bisection (an interval of [2 ^ k]
      numbers takes [k + 1] passes), powers by squaring, divisors by Euclid's recursion
      (two calls halve an argument), ratios as rationals in lowest terms.
    - Sync: castle/sync/shared_mutex.hpp and semaphore.hpp as threads interleaved at
      their atomic operations: exclusion, bounds, conservation, progress.
    - TickTimer: castle/events/tick_timer.hpp: one callback run per elapsed period.

    ** Theorems about defects

    A few lemmas state where the code departs from its documentation:
    [base64_short_padded_reports_full], [mqtt_publish_flags_overflow],
    [mqtt_null_cursor_dereferenced], [mqtt_property_id_aliasing],
    [avl_clear_destroys_twice], [remove_front_undefined], [spsc_cancel_reorders],
    [mirrored_index_wraps], [insert_self_corrupts], [trailing_text_keeps_document],
    [empty_key_refused], [control_character_not_written], [preference_not_reset],
    [dot_in_label_accepted], [repeated_option_not_decoded], [invalid_length_skipped],
    [trailing_empty_segment_matches], [wrap_unsigned_below], [square_u16_undefined], [dollar_digit_swallowed],
    [lone_cr_ends_nothing], the end of
    [int_powers_exact] and the example [timer_batch_wraps].

    ** Parameters

    The order of a container's keys, the hash function and the hash table's key
    equality are arguments; what the code relies on (a strict weak order, equality
    that respects the hash) are hypotheses of the theorems, met by concrete
    instances in their witnesses.  Callbacks are observers whose calls form a trace
    (UbxParser, NmeaParser, Http1Parser) or functions on the object that calls them (TickTimer).

    ** Not modelled

    Device and socket access (castle_ext/io, castle_ext/net), clocks and threads of
    the platform, floating-point code (geodesy, filters, geometry, statistics), type-level
    machinery (traits, iterators, compiler variants), and, so far, the remaining
    containers, the other text formats (CSV, INI, XML) and the other
    protocols (HTTP/2 framing, RTCM). *)

From Stdlib Require Export ZArith Lia.
From Stdlib Require Import Permutation.
From stdpp Require Export base list numbers option strings.

Declare Scope castle_scope.
Delimit Scope castle_scope with castle.
Open Scope castle_scope.

(** ** Executions that may hit undefined behaviour

    C++ leaves an out-of-bounds array access undefined.  A routine that reads
    or writes raw buffers is translated into [exec]: [Done a] is a defined
    result and [Undefined] an access outside the buffer, so that a theorem
    stating [f .. = Done r] is also a memory-safety theorem. *)

Inductive exec (A : Type) : Type :=
| Done (a : A)
| Undefined.
Arguments Done {A} a.
Arguments Undefined {A}.

#[export] Instance exec_ret : MRet exec := @Done.
#[export] Instance exec_bind : MBind exec := fun A B f x =>
  match x with Done a => f a | Undefined => Undefined end.

(** [p[i]] as an rvalue and as an assignment target. *)
Definition load {A} (m : list A) (i : nat) : exec A :=
  match m !! i with Some v => Done v | None => Undefined end.
Definition store {A} (m : list A) (i : nat) (v : A) : exec (list A) :=
  if decide (i < length m) then Done (<[i:=v]> m) else Undefined.

(** ** Loops

    The body of a loop either leaves the enclosing function ([Return]) or
    hands over to the next iteration ([Next]). *)

Inductive ctl (R S : Type) : Type :=
| Return (r : R)
| Next (s : S).
Arguments Return {R S} r.
Arguments Next {R S} s.

(** [for (i = start; i < start + count; ++i) body]. *)
Fixpoint for_range {R S} (start count : nat)
    (body : nat -> S -> exec (ctl R S)) (s : S) : exec (ctl R S) :=
  match count with
  | 0 => Done (Next s)
  | Datatypes.S n =>
      match body start s with
      | Done (Next s') => for_range (Datatypes.S start) n body s'
      | r => r
      end
  end.

(** A loop whose every iteration proceeds keeps its invariant to the end. *)
Lemma for_range_inv {R S} (I : nat -> S -> Prop)
    (body : nat -> S -> exec (ctl R S)) start count s :
  I start s ->
  (forall i st, start <= i < start + count -> I i st ->
     exists st', body i st = Done (Next st') /\ I (Datatypes.S i) st') ->
  exists st', for_range start count body s = Done (Next st') /\ I (start + count) st'.
Proof.
  revert start s. induction count as [|n IH]; intros start s H0 Hstep; simpl.
  - exists s. rewrite Nat.add_0_r. done.
  - destruct (Hstep start s) as (s1 & Hb & H1); [lia|done|]. rewrite Hb.
    destruct (IH (Datatypes.S start) s1 H1) as (s2 & Hr & H2).
    { intros i st Hi. apply Hstep. lia. }
    exists s2. rewrite Hr. split; [done|].
    by replace (start + Datatypes.S n) with (Datatypes.S start + n) by lia.
Qed.

(** Running the first [a] iterations, then the rest. *)
Lemma for_range_split {R S} (body : nat -> S -> exec (ctl R S)) start a b s :
  for_range start (a + b) body s =
    match for_range start a body s with
    | Done (Next s') => for_range (start + a) b body s'
    | r => r
    end.
Proof.
  revert start s. induction a as [|a IH]; intros start s; simpl.
  - by rewrite Nat.add_0_r.
  - destruct (body start s) as [[r|s']|]; [done| |done]. rewrite IH.
    by replace (Datatypes.S start + a) with (start + Datatypes.S a) by lia.
Qed.

(** A loop that leaves the function at its [j]-th iteration. *)
Lemma for_range_return {R S} (I : nat -> S -> Prop) (body : nat -> S -> exec (ctl R S))
    count j s :
  j < count -> I 0 s ->
  (forall i st, i < j -> I i st -> exists st', body i st = Done (Next st') /\ I (Datatypes.S i) st') ->
  exists st, I j st /\
    for_range 0 count body s = match body j st with
                               | Done (Next s') => for_range (Datatypes.S j) (count - Datatypes.S j) body s'
                               | r => r
                               end.
Proof.
  intros Hj H0 Hstep.
  destruct (for_range_inv I body 0 j s H0) as (st & Hr & HI); [intros; apply Hstep; lia || done|].
  exists st. split; [done|].
  replace count with (j + Datatypes.S (count - Datatypes.S j)) at 1 by lia.
  rewrite for_range_split, Hr. simpl. done.
Qed.

(** [while (cond) body], with fuel; a loop cut short by its fuel has no result,
    so a theorem that a caller returns [Done] also states its termination. *)
Fixpoint while_loop {R S} (fuel : nat) (cond : S -> exec bool)
    (body : S -> exec (ctl R S)) (s : S) : exec (ctl R S) :=
  match fuel with
  | 0 => Undefined
  | Datatypes.S n =>
      match cond s with
      | Done true =>
          match body s with
          | Done (Next s') => while_loop n cond body s'
          | r => r
          end
      | Done false => Done (Next s)
      | Undefined => Undefined
      end
  end.

(** [while (first != last) { body; ++first; }], the loop over an iterator range. *)
Definition iter_loop {R S} (fuel : nat) (last : nat) (body : nat -> S -> exec (ctl R S))
    (first : nat) (s : S) : exec (ctl R S) :=
  match while_loop fuel (fun '(first, _) => Done (negb (first =? last)))
          (fun '(first, s) => match body first s with
                              | Done (Next s') => Done (Next (first + 1, s'))
                              | Done (Return r) => Done (Return r)
                              | Undefined => Undefined
                              end) (first, s) with
  | Done (Return r) => Done (Return r)
  | Done (Next st) => Done (Next st.2)
  | Undefined => Undefined
  end.

Lemma iter_loop_for_range {R S} fuel last (body : nat -> S -> exec (ctl R S)) first s :
  first <= last -> last - first < fuel ->
  iter_loop fuel last body first s = for_range first (last - first) body s.
Proof.
  unfold iter_loop. revert first s. induction fuel as [|fuel IH]; intros first s Hle Hf; [lia|].
  cbn [while_loop]. destruct (Nat.eqb_spec first last) as [->|Hne]; cbn [negb].
  - by rewrite Nat.sub_diag.
  - replace (last - first) with (Datatypes.S (last - Datatypes.S first)) by lia. cbn [for_range].
    destruct (body first s) as [[r|s']|]; [done| |done].
    replace (first + 1) with (Datatypes.S first) by lia. apply IH; lia.
Qed.

(** A counted loop without an early exit. *)
Definition for_to {S} (start count : nat) (body : nat -> S -> exec S) (s : S) : exec S :=
  match for_range start count (fun i s => match body i s with
                                          | Done s' => Done (@Next Empty_set S s')
                                          | Undefined => Undefined
                                          end) s with
  | Done (Next s') => Done s'
  | Done (Return r) => match r with end
  | Undefined => Undefined
  end.

Lemma for_to_0 {S} start (body : nat -> S -> exec S) s : for_to start 0 body s = Done s.
Proof. done. Qed.

Lemma for_to_S {S} start n (body : nat -> S -> exec S) s :
  for_to start (Datatypes.S n) body s = (s' ← body start s; for_to (Datatypes.S start) n body s').
Proof. unfold for_to. cbn [for_range mbind exec_bind]. by destruct (body start s). Qed.

Lemma for_to_inv {S} (I : nat -> S -> Prop) (body : nat -> S -> exec S) start count s :
  I start s ->
  (forall i st, start <= i < start + count -> I i st ->
     exists st', body i st = Done st' /\ I (Datatypes.S i) st') ->
  exists st', for_to start count body s = Done st' /\ I (start + count) st'.
Proof.
  revert start s. induction count as [|n IH]; intros start s H0 Hstep.
  - exists s. by rewrite Nat.add_0_r.
  - destruct (Hstep start s) as (s1 & Hb & H1); [lia|done|]. rewrite for_to_S, Hb.
    cbn [mbind exec_bind]. replace (start + Datatypes.S n) with (Datatypes.S start + n) by lia.
    apply IH; [done|]. intros i st Hi. apply Hstep. lia.
Qed.

(** A loop computes the fold of a function its body computes. *)
Lemma for_to_fold {S} (f : nat -> S -> S) (I : S -> Prop) (body : nat -> S -> exec S) start count s :
  I s ->
  (forall i st, start <= i < start + count -> I st -> body i st = Done (f i st) /\ I (f i st)) ->
  for_to start count body s = Done (fold_left (fun st i => f i st) (seq start count) s)
  /\ I (fold_left (fun st i => f i st) (seq start count) s).
Proof.
  revert start s. induction count as [|n IH]; intros start s Hs Hstep; [done|].
  destruct (Hstep start s ltac:(lia) Hs) as [Hb Hf]. rewrite for_to_S, Hb. cbn [mbind exec_bind].
  cbn [seq fold_left]. apply IH; [done|]. intros i st Hi. apply Hstep. lia.
Qed.

Lemma for_to_snoc {S} start n (body : nat -> S -> exec S) s :
  for_to start (Datatypes.S n) body s = (s' ← for_to start n body s; body (start + n) s').
Proof.
  revert start s. induction n as [|n IH]; intros start s.
  { rewrite for_to_S, Nat.add_0_r. cbn [for_to for_range mbind exec_bind]. by destruct (body start s). }
  rewrite for_to_S, (for_to_S start n). cbn [mbind exec_bind]. destruct (body start s) as [s'|]; [|done].
  cbn [mbind exec_bind]. rewrite IH. by rewrite Nat.add_succ_r.
Qed.

(** The value of a function whose loop may have returned early. *)
Definition after {R S} (l : exec (ctl R S)) (k : S -> exec R) : exec R :=
  match l with
  | Done (Return r) => Done r
  | Done (Next s) => k s
  | Undefined => Undefined
  end.

(** The state a loop leaves that never leaves the function. *)
Definition settled {S} (l : exec (ctl Empty_set S)) : exec S :=
  match l with
  | Done (Return r) => match r with end
  | Done (Next s) => Done s
  | Undefined => Undefined
  end.

(** Two offsets below [n] reach the same cell of a circular array only if equal,
    and every cell is reached. *)
Lemma mod_window_inj n h i j :
  i < n -> j < n -> (h + i) mod n = (h + j) mod n -> i = j.
Proof.
  intros Hi Hj H.
  assert (Hd := Nat.div_mod_eq (h + i) n). assert (Hd' := Nat.div_mod_eq (h + j) n).
  rewrite H in Hd.
  destruct (decide ((h + i) / n = (h + j) / n)) as [E|E]; [lia|].
  assert ((h + i) / n < (h + j) / n \/ (h + j) / n < (h + i) / n) as [L|L] by lia; nia.
Qed.

Lemma mod_window_surj n h i :
  i < n -> h < n -> exists j, j < n /\ (h + j) mod n = i.
Proof.
  intros Hi Hh. destruct (decide (h <= i)).
  - exists (i - h). split; [lia|]. rewrite Nat.mod_small; lia.
  - exists (n + i - h). split; [lia|]. replace (h + (n + i - h)) with (i + 1 * n) by lia.
    rewrite Nat.Div0.mod_add, Nat.mod_small; lia.
Qed.

(** ** Loads, stores and the region a loop has written *)

Lemma load_Done {A} (m : list A) i v : m !! i = Some v -> load m i = Done v.
Proof. unfold load. by intros ->. Qed.

Lemma load_inv {A} (m : list A) i v : load m i = Done v -> m !! i = Some v.
Proof. unfold load. destruct (m !! i); congruence. Qed.

Lemma store_Done {A} (m : list A) i v :
  i < length m -> store m i v = Done (<[i:=v]> m).
Proof. intros. unfold store. by rewrite decide_True by lia. Qed.

(** Accesses to a buffer whose elements all satisfy an invariant. *)
Lemma load_in {A} (P : A -> Prop) (m : list A) i : Forall P m -> (i < length m)%nat -> exists v, load m i = Done v /\ P v.
Proof.
  intros HP [v Hv]%lookup_lt_is_Some_2. exists v. split; [by apply load_Done|].
  rewrite Forall_lookup in HP. by eapply HP.
Qed.

Lemma store_in {A} (P : A -> Prop) (m : list A) i v :
  Forall P m -> P v -> (i < length m)%nat ->
  exists m', store m i v = Done m' /\ Forall P m' /\ length m' = length m /\ m' !! i = Some v.
Proof.
  intros HP Hv Hi. exists (<[i := v]> m). split_and!; [by apply store_Done|by apply Forall_insert|
    apply length_insert|by apply list_lookup_insert_eq].
Qed.

(** [wrote m o bs]: the buffer [m] after [bs] was stored from index [o] on. *)
Definition wrote {A} (m : list A) (o : nat) (bs : list A) : list A :=
  take o m ++ bs ++ drop (o + length bs) m.

Lemma wrote_nil {A} (m : list A) o : wrote m o [] = m.
Proof. unfold wrote. simpl. rewrite Nat.add_0_r. apply take_drop. Qed.

Lemma wrote_0 {A} (m : list A) bs : wrote m 0 bs = bs ++ drop (length bs) m.
Proof. done. Qed.

Lemma length_wrote {A} (m : list A) o bs :
  o + length bs <= length m -> length (wrote m o bs) = length m.
Proof.
  intros. unfold wrote. rewrite !length_app, length_take, length_drop. lia.
Qed.

Lemma wrote_snoc {A} (m : list A) o bs v :
  o + length bs < length m ->
  <[o + length bs := v]> (wrote m o bs) = wrote m o (bs ++ [v]).
Proof.
  intros. unfold wrote.
  assert (Ho : length (take o m) = o) by (rewrite length_take; lia).
  rewrite insert_app_r_alt by lia. rewrite Ho.
  replace (o + length bs - o) with (length bs + 0) by lia.
  rewrite insert_app_r. rewrite length_app. simpl.
  destruct (drop (o + length bs) m) as [|y r] eqn:E.
  { apply (f_equal length) in E. rewrite length_drop in E. simpl in E. lia. }
  simpl. rewrite <-app_assoc. simpl. do 2 f_equal. f_equal.
  replace (o + (length bs + 1)) with (S (o + length bs)) by lia.
  rewrite <-(skipn_skipn 1). by rewrite E.
Qed.

Lemma wrote_app {A} (m : list A) o bs bs' i :
  i = o + length bs -> i + length bs' <= length m -> wrote (wrote m o bs) i bs' = wrote m o (bs ++ bs').
Proof.
  intros -> H. unfold wrote at 1. assert (Ho : length (take o m) = o) by (rewrite length_take; lia).
  unfold wrote at 1 2. rewrite <-Ho at 1.
  rewrite !app_assoc, take_app_le by (rewrite !length_app; lia).
  rewrite take_ge by (rewrite !length_app; lia).
  unfold wrote. rewrite <-!app_assoc. do 3 f_equal.
  rewrite app_assoc, drop_app_ge by (rewrite !length_app; lia).
  rewrite drop_drop, !length_app. f_equal. lia.
Qed.

Lemma store_wrote {A} (m : list A) o bs v i :
  i = o + length bs -> i < length m ->
  store (wrote m o bs) i v = Done (wrote m o (bs ++ [v])).
Proof.
  intros -> H. rewrite store_Done by (rewrite length_wrote; lia).
  by rewrite wrote_snoc.
Qed.

Lemma take_wrote {A} (m : list A) bs :
  length bs <= length m -> take (length bs) (wrote m 0 bs) = bs.
Proof. intros. unfold wrote. simpl. by rewrite take_app_length. Qed.

(** ** Machine integers

    A w-bit unsigned value is a [Z] in [[0, 2^w)]; a cast to it is [wrap]. *)

Definition wrap (w z : Z) : Z := (z mod 2 ^ w)%Z.
Definition in_width (w z : Z) : Prop := (0 <= z < 2 ^ w)%Z.

Abbreviation u8 := (in_width 8).
Abbreviation u16 := (in_width 16).
Abbreviation u32 := (in_width 32).
Abbreviation u64 := (in_width 64).
Notation "'to_u8' z" := (wrap 8 z) (at level 10, z at level 9) : castle_scope.
Notation "'to_u16' z" := (wrap 16 z) (at level 10, z at level 9) : castle_scope.
Notation "'to_u32' z" := (wrap 32 z) (at level 10, z at level 9) : castle_scope.
Notation "'to_u64' z" := (wrap 64 z) (at level 10, z at level 9) : castle_scope.

Lemma wrap_in_width w z : (0 <= w)%Z -> in_width w (wrap w z).
Proof. intros. apply Z.mod_pos_bound. apply Z.pow_pos_nonneg; lia. Qed.

Lemma wrap_small w z : in_width w z -> wrap w z = z.
Proof. apply Z.mod_small. Qed.

#[export] Instance in_width_dec w z : Decision (in_width w z).
Proof. unfold in_width. apply _. Defined.

(** Bitwise operations stay within a width. *)
Lemma wrap_bits w z i : (0 <= w)%Z -> (0 <= i)%Z -> Z.testbit (wrap w z) i = (i <? w)%Z && Z.testbit z i.
Proof.
  intros Hw Hi. unfold wrap. destruct (Z.ltb_spec i w); cbn.
  - by rewrite Z.mod_pow2_bits_low by lia.
  - by rewrite Z.mod_pow2_bits_high by lia.
Qed.

Lemma wrap_lxor w a b : (0 <= w)%Z -> wrap w (Z.lxor a b) = Z.lxor (wrap w a) (wrap w b).
Proof.
  intros Hw. apply Z.bits_inj'. intros i Hi. rewrite Z.lxor_spec, !wrap_bits, Z.lxor_spec by lia.
  by destruct (i <? w)%Z.
Qed.

Lemma wrap_lor w a b : (0 <= w)%Z -> wrap w (Z.lor a b) = Z.lor (wrap w a) (wrap w b).
Proof.
  intros Hw. apply Z.bits_inj'. intros i Hi. rewrite Z.lor_spec, !wrap_bits, Z.lor_spec by lia.
  by destruct (i <? w)%Z.
Qed.

Lemma wrap_land w a b : (0 <= w)%Z -> wrap w (Z.land a b) = Z.land (wrap w a) (wrap w b).
Proof.
  intros Hw. apply Z.bits_inj'. intros i Hi. rewrite Z.land_spec, !wrap_bits, Z.land_spec by lia.
  by destruct (i <? w)%Z.
Qed.

Lemma lxor_in_width w a b : (0 <= w)%Z -> in_width w a -> in_width w b -> in_width w (Z.lxor a b).
Proof. intros Hw Ha Hb. rewrite <-(wrap_small w a Ha), <-(wrap_small w b Hb), <-wrap_lxor by done. by apply wrap_in_width. Qed.

Lemma lor_in_width w a b : (0 <= w)%Z -> in_width w a -> in_width w b -> in_width w (Z.lor a b).
Proof. intros Hw Ha Hb. rewrite <-(wrap_small w a Ha), <-(wrap_small w b Hb), <-wrap_lor by done. by apply wrap_in_width. Qed.

Lemma land_in_width w a b : (0 <= w)%Z -> in_width w a -> in_width w b -> in_width w (Z.land a b).
Proof. intros Hw Ha Hb. rewrite <-(wrap_small w a Ha), <-(wrap_small w b Hb), <-wrap_land by done. by apply wrap_in_width. Qed.

(** A decidable property of a small range of integers holds throughout it once
    evaluating it on every element says so. *)
Definition all_below (n : nat) (P : Z -> bool) : bool :=
  forallb (fun k => P (Z.of_nat k)) (seq 0 n).

Lemma all_below_spec n P z :
  all_below n P = true -> (0 <= z < Z.of_nat n)%Z -> P z = true.
Proof.
  intros H Hz. unfold all_below in H. rewrite forallb_forall in H.
  rewrite <-(Z2Nat.id z) by lia. apply H. apply in_seq. lia.
Qed.

Lemma all_below_decide n (P : Z -> Prop) `{!forall z, Decision (P z)} :
  all_below n (fun z => bool_decide (P z)) = true -> forall z, (0 <= z < Z.of_nat n)%Z -> P z.
Proof. intros Hall z Hz. apply (bool_decide_unpack (P z)). by rewrite (all_below_spec n _ z Hall Hz). Qed.

(** A boolean test that reflects a proposition is its decision. *)
Lemma reflect_bool_decide (b : bool) (P : Prop) `{!Decision P} :
  Bool.reflect P b -> b = bool_decide P.
Proof. intros [HP|HP]; by case_bool_decide. Qed.

(** Bit fields as arithmetic: the shifts, masks and disjoint unions the codecs
    build their words from. *)
Lemma lor_shiftl_add k a b :
  (0 <= k)%Z -> (0 <= b < 2 ^ k)%Z -> Z.lor (Z.shiftl a k) b = (a * 2 ^ k + b)%Z.
Proof.
  intros Hk Hb. rewrite <-Z.shiftl_mul_pow2 by done. symmetry.
  rewrite Z.add_nocarry_lxor; [rewrite Z.lxor_lor; [done|]|];
    (apply Z.bits_inj'; intros i Hi; rewrite Z.land_spec, Z.bits_0;
     destruct (decide (i < k)%Z);
     [rewrite Z.shiftl_spec_low by lia; done|
      rewrite <-(Z.mod_small b (2 ^ k)), Z.mod_pow2_bits_high by lia; apply andb_false_r]).
Qed.

Lemma lor_add_shiftl k a b :
  (0 <= k)%Z -> (0 <= a < 2 ^ k)%Z -> Z.lor a (Z.shiftl b k) = (a + b * 2 ^ k)%Z.
Proof. intros. rewrite Z.lor_comm, lor_shiftl_add by done. lia. Qed.

(** The signed reading of a w-bit pattern and the pattern of a signed value. *)
Definition to_signed (w z : Z) : Z := (if z <? 2 ^ (w - 1) then z else z - 2 ^ w)%Z.

Lemma to_signed_wrap w v :
  (0 < w)%Z -> (- 2 ^ (w - 1) <= v < 2 ^ (w - 1))%Z -> to_signed w (wrap w v) = v.
Proof.
  intros Hw Hv. assert (E : (2 ^ w = 2 * 2 ^ (w - 1))%Z).
  { rewrite <-Z.pow_succ_r by lia. f_equal. lia. }
  unfold to_signed, wrap. destruct (decide (0 <= v)%Z).
  - rewrite Z.mod_small by lia. destruct (Z.ltb_spec v (2 ^ (w - 1))); lia.
  - rewrite <-(Z.mod_add v 1), Z.mod_small by lia.
    destruct (Z.ltb_spec (v + 1 * 2 ^ w) (2 ^ (w - 1))); lia.
Qed.

(** ** Numbers as sequences of digits *)

(** Least significant digit first, in base [B]. *)
Fixpoint le_val (B : Z) (ds : list Z) : Z :=
  match ds with [] => 0%Z | d :: ds => (d + B * le_val B ds)%Z end.
Fixpoint le_digits (B : Z) (n : nat) (x : Z) : list Z :=
  match n with 0 => [] | S n => (x mod B)%Z :: le_digits B n (x / B)%Z end.

Lemma length_le_digits B n x : length (le_digits B n x) = n.
Proof. revert x. induction n; intros; simpl; congruence. Qed.

Lemma le_val_digits B n x :
  (0 < B)%Z -> (0 <= x < B ^ Z.of_nat n)%Z -> le_val B (le_digits B n x) = x.
Proof.
  intros HB. revert x. induction n as [|n IH]; intros x Hx; cbn [le_digits le_val].
  - simpl in Hx. lia.
  - rewrite Nat2Z.inj_succ, Z.pow_succ_r in Hx by lia.
    rewrite IH; [rewrite Z.add_comm; symmetry; apply Z_div_mod_eq_full|].
    split; [apply Z.div_pos; lia|]. apply Z.div_lt_upper_bound; lia.
Qed.

Lemma le_digits_val B ds :
  (0 < B)%Z -> Forall (fun d => 0 <= d < B)%Z ds -> le_digits B (length ds) (le_val B ds) = ds.
Proof.
  intros HB. induction 1 as [|d ds Hd _ IH]; [done|]. cbn [length le_digits le_val]. f_equal.
  - rewrite Z.mul_comm, Z.mod_add, Z.mod_small; lia.
  - rewrite Z.mul_comm, Z.div_add, Z.div_small, Z.add_0_l by lia. done.
Qed.

Lemma le_val_bound B ds :
  (0 < B)%Z -> Forall (fun d => 0 <= d < B)%Z ds -> (0 <= le_val B ds < B ^ Z.of_nat (length ds))%Z.
Proof.
  intros HB. induction 1 as [|d ds Hd _ IH]; cbn [length le_val]; [simpl; lia|].
  rewrite Nat2Z.inj_succ, Z.pow_succ_r by lia. nia.
Qed.

Lemma le_digits_range B n x : (0 < B)%Z -> Forall (fun d => 0 <= d < B)%Z (le_digits B n x).
Proof.
  intros HB. revert x. induction n; intros x; cbn [le_digits]; constructor; [|done].
  by apply Z.mod_pos_bound.
Qed.

(** ** Character constants and caller-provided buffers

    A [char] is its code; a pointer argument is null or the memory it points
    to, and dereferencing it goes through [pload] and [pstore]. *)
Definition chars (s : string) : list Z :=
  map (fun a => Z.of_N (Ascii.N_of_ascii a)) (String.list_ascii_of_string s).
Definition char (s : string) : Z := default 0%Z (chars s !! 0).
Arguments chars s%_string_scope.
Arguments char s%_string_scope.

Abbreviation ptr := (option (list Z)).
Definition is_null (p : ptr) : bool := match p with None => true | Some _ => false end.
Definition pload (p : ptr) (i : nat) : exec Z :=
  match p with Some m => load m i | None => Undefined end.
Definition pstore (p : ptr) (i : nat) (v : Z) : exec ptr :=
  match p with Some m => m' ← store m i v; Done (Some m') | None => Undefined end.

Lemma pload_app pre v post i :
  i = length pre -> pload (Some (pre ++ v :: post)) i = Done v.
Proof. intros ->. apply load_Done. by rewrite list_lookup_middle. Qed.

(** The [k]-th element of the part [mid] of a buffer. *)
Lemma load_mid {A} (pre mid post : list A) k v i :
  mid !! k = Some v -> i = length pre + k -> load (pre ++ mid ++ post) i = Done v.
Proof.
  intros Hk ->. apply load_Done. rewrite lookup_app_r, Nat.add_sub' by lia.
  by apply lookup_app_l_Some.
Qed.

Lemma pload_mid pre mid post k v i :
  mid !! k = Some v -> i = length pre + k -> pload (Some (pre ++ mid ++ post)) i = Done v.
Proof. apply load_mid. Qed.

Lemma pload_lt m i : i < length m -> exists v, pload (Some m) i = Done v.
Proof. intros [v Hv]%lookup_lt_is_Some_2. exists v. by apply load_Done. Qed.

Lemma pstore_wrote m bs v i :
  i = length bs -> i < length m ->
  pstore (Some (wrote m 0 bs)) i v = Done (Some (wrote m 0 (bs ++ [v]))).
Proof. intros. unfold pstore. by rewrite store_wrote. Qed.

(** A counted loop that rewrites every element of an array in place. *)
Lemma for_to_imap {A} (f : nat -> A -> A) (body : nat -> list A -> exec (list A)) n l :
  length l = n ->
  (forall i v st, l !! i = Some v -> st !! i = Some v -> length st = length l ->
     body i st = Done (<[i := f i v]> st)) ->
  for_to 0 n body l = Done (imap f l).
Proof.
  intros <- Hb.
  destruct (for_to_inv (fun k st => st = imap f (take k l) ++ drop k l) body 0 (length l) l) as (st & -> & ->).
  - done.
  - intros i st Hi ->. destruct (lookup_lt_is_Some_2 l i) as [v Hv]; [lia|].
    assert (Hl : length (imap f (take i l)) = i) by (rewrite length_imap, length_take; lia).
    rewrite (Hb i v).
    + eexists. split; [done|]. rewrite (take_S_r _ _ _ Hv), imap_app, (drop_S _ _ _ Hv). cbn [imap].
      rewrite <-(Nat.add_0_r i) at 1. rewrite <-Hl at 1. rewrite insert_app_r. cbn.
      rewrite <-app_assoc. cbn. rewrite length_take, Nat.min_l, Nat.add_0_r by lia. done.
    + done.
    + rewrite lookup_app_r, Hl, Nat.sub_diag, lookup_drop, Nat.add_0_r by lia. done.
    + rewrite length_app, Hl, length_drop. lia.
  - cbn [Nat.add]. by rewrite firstn_all, drop_all, app_nil_r.
Qed.

(** Folds over mapped and concatenated lists. *)
Lemma fold_left_concat {A B} (f : A -> B -> A) (ls : list (list B)) a :
  fold_left f (concat ls) a = fold_left (fun a l => fold_left f l a) ls a.
Proof. revert a. induction ls as [|l ls IH]; intros a; [done|]. cbn. by rewrite fold_left_app, IH. Qed.

Lemma fold_left_fmap {A B C} (f : A -> B -> A) (g : C -> B) (l : list C) a :
  fold_left f (g <$> l) a = fold_left (fun a x => f a (g x)) l a.
Proof. revert a. induction l as [|x l IH]; intros a; [done|]. cbn. apply IH. Qed.

(** Exchanging two elements of a list. *)
Definition list_swap {T} (l : list T) (i j : nat) : list T :=
  match l !! i, l !! j with
  | Some a, Some b => <[j := a]> (<[i := b]> l)
  | _, _ => l
  end.

Lemma list_swap_lookup {T} (l : list T) i j a b k :
  l !! i = Some a -> l !! j = Some b ->
  list_swap l i j !! k = if decide (k = j) then Some a else if decide (k = i) then Some b else l !! k.
Proof.
  intros Hi Hj. unfold list_swap. rewrite Hi, Hj.
  pose proof (lookup_lt_Some _ _ _ Hi). pose proof (lookup_lt_Some _ _ _ Hj).
  destruct (decide (k = j)) as [->|].
  { rewrite list_lookup_insert_eq; [done|by rewrite length_insert]. }
  rewrite list_lookup_insert_ne by done. destruct (decide (k = i)) as [->|].
  { by rewrite list_lookup_insert_eq. }
  by rewrite list_lookup_insert_ne.
Qed.

Lemma length_list_swap {T} (l : list T) i j : length (list_swap l i j) = length l.
Proof. unfold list_swap. destruct (l !! i), (l !! j); by rewrite ?length_insert. Qed.

Lemma list_swap_Permutation {T} (l : list T) i j : Permutation (list_swap l i j) l.
Proof.
  unfold list_swap. destruct (l !! i) as [a|] eqn:Hi; [|done].
  destruct (l !! j) as [b|] eqn:Hj; [|done].
  by apply Permutation_insert_swap.
Qed.

(** ** Orders

    What the comparison functors of the containers and algorithms have to be: a
    strict weak order. *)
Class StrictWeakOrder {T} (lt : T -> T -> bool) : Prop := {
  swo_asym : forall a b, lt a b = true -> lt b a = false;
  swo_negtrans : forall a b c, lt b a = false -> lt c b = false -> lt c a = false
}.

Lemma swo_irrefl {T} (lt : T -> T -> bool) `{!StrictWeakOrder lt} x : lt x x = false.
Proof. destruct (lt x x) eqn:E; [|done]. by rewrite (swo_asym _ _ E) in E. Qed.

(** What is not above something below [a] is below [a]. *)
Lemma swo_lt_le_trans {T} (lt : T -> T -> bool) `{!StrictWeakOrder lt} a b c :
  lt a b = true -> lt c b = false -> lt a c = true.
Proof.
  intros Hab Hcb. destruct (lt a c) eqn:Hac; [done|].
  by rewrite (swo_negtrans _ _ _ Hcb Hac) in Hab.
Qed.

Lemma swo_flip {T} (lt : T -> T -> bool) `{!StrictWeakOrder lt} :
  StrictWeakOrder (fun a b => lt b a).
Proof. split; intros; [by apply swo_asym|by eapply swo_negtrans]. Qed.

#[export] Instance Z_lt_swo : StrictWeakOrder Z.ltb.
Proof.
  split; intros *; rewrite ?Z.ltb_lt, ?Z.ltb_ge; lia.
Qed.

(** ** Automation *)

Create HintDb castle.
#[export] Hint Resolve wrap_in_width lxor_in_width lor_in_width land_in_width : castle.
#[export] Hint Extern 1 (0 <= _)%Z => lia : castle.

(** Case analysis on the boolean comparisons of the code, as propositions. *)
Ltac cmp_cases :=
  repeat match goal with
  | |- context [Z.ltb ?a ?b] => destruct (Z.ltb_spec a b)
  | |- context [Z.leb ?a ?b] => destruct (Z.leb_spec a b)
  | |- context [Z.eqb ?a ?b] => destruct (Z.eqb_spec a b)
  | |- context [Nat.ltb ?a ?b] => destruct (Nat.ltb_spec a b)
  | |- context [Nat.leb ?a ?b] => destruct (Nat.leb_spec a b)
  | |- context [Nat.eqb ?a ?b] => destruct (Nat.eqb_spec a b)
  end.

(** Run the binds whose first computation is known. *)
Ltac exec_simpl := cbn [mbind exec_bind mret exec_ret].

(** Masks by [2^k - 1] as remainders and right shifts as quotients. *)
Ltac mask_to_mod m k :=
  repeat match goal with
  | |- context [Z.land ?a m] =>
      change (Z.land a m) with (Z.land a (Z.ones k)); rewrite (Z.land_ones a k) by lia
  end.
Ltac bits_to_arith :=
  mask_to_mod 1%Z 1%Z; mask_to_mod 3%Z 2%Z; mask_to_mod 7%Z 3%Z; mask_to_mod 15%Z 4%Z; mask_to_mod 31%Z 5%Z;
  mask_to_mod 63%Z 6%Z; mask_to_mod 127%Z 7%Z; mask_to_mod 255%Z 8%Z;
  rewrite ?Z.shiftr_div_pow2 by lia.
(** Linear arithmetic over quotients and remainders by constants. *)
Ltac divlia := Z.div_mod_to_equations; lia.

(** Decide the comparisons on naturals the context settles. *)
Ltac nat_tests :=
  repeat match goal with
  | |- context [(?a <? ?b)%nat] =>
      first [rewrite (proj2 (Nat.ltb_lt a b)) by lia | rewrite (proj2 (Nat.ltb_ge a b)) by lia]
  | |- context [(?a <=? ?b)%nat] =>
      first [rewrite (proj2 (Nat.leb_le a b)) by lia | rewrite (proj2 (Nat.leb_gt a b)) by lia]
  | |- context [(?a =? ?b)%nat] =>
      first [rewrite (proj2 (Nat.eqb_eq a b)) by lia | rewrite (proj2 (Nat.eqb_neq a b)) by lia]
  end.

(** Decide the propositional tests the context settles. *)
Ltac prop_tests :=
  repeat match goal with
  | |- context [bool_decide ?P] =>
      first [rewrite (bool_decide_true P) by (done || congruence)
            |rewrite (bool_decide_false P) by (done || congruence)]
  end.
