(* ===== verification/Status.v ===== *)
(** * The common result codes (castle/error/status.hpp) *)

From S2P Require Import Prelude.

(** The [status] enumeration, constructor per enumerator.  The constructors
    carry the prefix [s_] because [empty] and [full] name operations. *)
Inductive status : Type :=
| s_ok
| s_full
| s_empty
| s_out_of_range
| s_not_found
| s_not_configured
| s_invalid_config
| s_invalid_argument
| s_invalid_callback
| s_invalid_subscription
| s_already_exists
| s_system_call_error
| s_data_loss
| s_time_out
| s_unknown_error.

#[export] Instance status_eq_dec : EqDecision status.
Proof. solve_decision. Defined.

Definition succeeded (value : status) : bool := bool_decide (value = s_ok).

(** What a codec that writes to a caller-provided buffer leaves behind: its
    status, its [output_size] reference parameter and the output memory. *)
Abbreviation codec_result := (status * nat * ptr)%type.
