(* ===== verification/Interfaces.v ===== *)
(** * What the fixed-capacity containers promise to their clients

    A container is seen by its clients through an abstraction function into a
    plain mathematical value (a list) and the laws below; the container files
    provide the instances and the clients are verified against the classes. *)

From stdpp Require Export gmap.
From S2P Require Import Prelude Status.

(** A bounded FIFO queue: [push] and [pop] never touch memory outside the
    object, keep the representation invariant and act on [q_list] as the
    textbook operations. *)
Class BoundedQueue (A Q : Type) := {
  q_ok : Q -> Prop;
  q_cap : nat;
  q_list : Q -> list A;
  q_push : Q -> A -> exec (bool * Q);
  q_pop : Q -> A -> exec (bool * A * Q);
  q_bound : forall q, q_ok q -> length (q_list q) <= q_cap;
  q_push_spec : forall q v, q_ok q ->
    exists q', q_push q v = Done (bool_decide (length (q_list q) < q_cap), q')
      /\ q_ok q'
      /\ q_list q' = if decide (length (q_list q) < q_cap)
                     then q_list q ++ [v] else q_list q;
  q_pop_spec : forall q out, q_ok q ->
    match q_list q with
    | [] => q_pop q out = Done (false, out, q)
    | v :: rest => exists q', q_pop q out = Done (true, v, q')
        /\ q_ok q' /\ q_list q' = rest
    end
}.
Arguments q_cap {A} Q {_}.

(** A bounded associative container: a representation of a finite map with at
    most [m_cap] entries.  [insert] refuses a key already present before it
    looks at the capacity. *)
Class BoundedMap (K V M : Type) `{Countable K} := {
  m_repr : M -> gmap K V -> Prop;
  m_cap : nat;
  m_insert : M -> K -> V -> exec (status * M);
  m_erase : M -> K -> exec (status * M);
  m_contains : M -> K -> exec bool;
  m_clear : M -> exec M;
  m_size : M -> nat;
  m_bound : forall t m, m_repr t m -> size m <= m_cap;
  m_size_spec : forall t m, m_repr t m -> m_size t = size m;
  m_insert_spec : forall t m k v, m_repr t m ->
    match m !! k with
    | Some _ => m_insert t k v = Done (s_already_exists, t)
    | None => if decide (size m < m_cap)
              then exists t', m_insert t k v = Done (s_ok, t') /\ m_repr t' (<[k := v]> m)
              else m_insert t k v = Done (s_full, t)
    end;
  m_erase_spec : forall t m k, m_repr t m ->
    match m !! k with
    | Some _ => exists t', m_erase t k = Done (s_ok, t') /\ m_repr t' (delete k m)
    | None => m_erase t k = Done (s_not_found, t)
    end;
  m_contains_spec : forall t m k, m_repr t m ->
    m_contains t k = Done (bool_decide (is_Some (m !! k)));
  m_clear_spec : forall t m, m_repr t m -> exists t', m_clear t = Done t' /\ m_repr t' (empty : gmap K V)
}.
Arguments m_cap {K V} M {_ _ _}.
