(* ===== verification/RingBuffer.v ===== *)
(** * The fixed-capacity ring buffer (castle/container/ring_buffer.hpp)

    [ring_buffer] is the class's four data members.  Every member function that
    reads or writes [data_] is an [exec], so the specifications below include
    that no index leaves the array. *)

From S2P Require Import Prelude Status Interfaces.

Section RingBuffer.
Context {T : Type} (N : nat) (zero : T).

Record ring_buffer : Type := mk_ring_buffer {
  data_ : list T;
  head_ : nat;
  tail_ : nat;
  size_ : nat
}.

(** The default constructor: [data_{}] value-initialises every element. *)
Definition init : ring_buffer := mk_ring_buffer (replicate N zero) 0 0 0.

Definition is_power_of_two (n : nat) : bool :=
  (0 <? n)%nat && (Nat.land n (n - 1) =? 0)%nat.

Definition wrap_index (index : nat) : nat :=
  if is_power_of_two N then Nat.land index (N - 1) else index mod N.

Definition advance (index : nat) : nat :=
  if (index + 1 =? N)%nat then 0 else index + 1.

Definition retreat (index : nat) : nat :=
  if (index =? 0)%nat then N - 1 else index - 1.

Definition capacity : nat := N.
Definition size (rb : ring_buffer) : nat := size_ rb.
Definition empty (rb : ring_buffer) : bool := (size_ rb =? 0)%nat.
Definition full (rb : ring_buffer) : bool := (size_ rb =? N)%nat.
Definition available (rb : ring_buffer) : nat := N - size_ rb.
Definition clear (rb : ring_buffer) : ring_buffer := mk_ring_buffer (data_ rb) 0 0 0.

Definition push (rb : ring_buffer) (value : T) : exec (bool * ring_buffer) :=
  if full rb then Done (false, rb)
  else
    d ← store (data_ rb) (tail_ rb) value;
    Done (true, mk_ring_buffer d (head_ rb) (advance (tail_ rb)) (size_ rb + 1)).

Definition force_push (rb : ring_buffer) (value : T) : exec (bool * ring_buffer) :=
  let evicted := full rb in
  let h := if evicted then advance (head_ rb) else head_ rb in
  let n := if evicted then size_ rb - 1 else size_ rb in
  d ← store (data_ rb) (tail_ rb) value;
  Done (evicted, mk_ring_buffer d h (advance (tail_ rb)) (n + 1)).

(** [pop(out)]: the third component is the caller's [out] afterwards. *)
Definition pop (rb : ring_buffer) (out : T) : exec (bool * T * ring_buffer) :=
  if empty rb then Done (false, out, rb)
  else
    v ← load (data_ rb) (head_ rb);
    Done (true, v, mk_ring_buffer (data_ rb) (advance (head_ rb)) (tail_ rb) (size_ rb - 1)).

(** The overload of [pop] that discards the element. *)
Definition pop_discard (rb : ring_buffer) : bool * ring_buffer :=
  if empty rb then (false, rb)
  else (true, mk_ring_buffer (data_ rb) (advance (head_ rb)) (tail_ rb) (size_ rb - 1)).

Definition peek (rb : ring_buffer) (index : nat) (out : T) : exec (bool * T) :=
  if (size_ rb <=? index)%nat then Done (false, out)
  else v ← load (data_ rb) (wrap_index (head_ rb + index)); Done (true, v).

Definition front (rb : ring_buffer) : exec T := load (data_ rb) (head_ rb).
Definition back (rb : ring_buffer) : exec T := load (data_ rb) (retreat (tail_ rb)).

(** The copying loop of [push_bulk]; [n] is [max - written]. *)
Fixpoint push_bulk_loop (n : nat) (src : list T) (written : nat) (rb : ring_buffer)
    : exec (nat * ring_buffer) :=
  match n with
  | 0 => Done (written, rb)
  | S n' =>
      if full rb then Done (written, rb)
      else
        v ← load src written;
        d ← store (data_ rb) (tail_ rb) v;
        push_bulk_loop n' src (written + 1)
          (mk_ring_buffer d (head_ rb) (advance (tail_ rb)) (size_ rb + 1))
  end.

Definition push_bulk (rb : ring_buffer) (src : option (list T)) (max : nat)
    : exec (nat * ring_buffer) :=
  match src with
  | None => Done (0, rb)
  | Some p => push_bulk_loop max p 0 rb
  end.

(** The copying loop of [pop_bulk]; [n] is [max - read]. *)
Fixpoint pop_bulk_loop (n : nat) (dst : list T) (read : nat) (rb : ring_buffer)
    : exec (nat * list T * ring_buffer) :=
  match n with
  | 0 => Done (read, dst, rb)
  | S n' =>
      if empty rb then Done (read, dst, rb)
      else
        v ← load (data_ rb) (head_ rb);
        d ← store dst read v;
        pop_bulk_loop n' d (read + 1)
          (mk_ring_buffer (data_ rb) (advance (head_ rb)) (tail_ rb) (size_ rb - 1))
  end.

(** The destination is returned with what was written to it. *)
Definition pop_bulk (rb : ring_buffer) (dst : option (list T)) (max : nat)
    : exec (nat * option (list T) * ring_buffer) :=
  match dst with
  | None => Done (0, None, rb)
  | Some p => r ← pop_bulk_loop max p 0 rb;
      let '(n, d, rb') := r in Done (n, Some d, rb')
  end.

(** The constructor from an [initializer_list]. *)
Fixpoint init_list_loop (l : list T) (rb : ring_buffer) : exec ring_buffer :=
  match l with
  | [] => Done rb
  | v :: l' =>
      if full rb then Done rb
      else r ← push rb v; init_list_loop l' (snd r)
  end.
Definition init_list (l : list T) : exec ring_buffer := init_list_loop l init.

(** ** Invariant and abstraction *)

(** The indices are in range, and the write index trails the read index by
    [size_] positions of the circle. *)
Record ring_ok (rb : ring_buffer) : Prop := {
  ok_length : length (data_ rb) = N;
  ok_head : head_ rb < N;
  ok_size : size_ rb <= N;
  ok_tail : tail_ rb = (head_ rb + size_ rb) mod N
}.

(** The queued elements, oldest first. *)
Definition contents (rb : ring_buffer) : list T :=
  (fun i => default zero (data_ rb !! ((head_ rb + i) mod N))) <$> seq 0 (size_ rb).

Lemma length_contents rb : length (contents rb) = size_ rb.
Proof. unfold contents. by rewrite length_fmap, length_seq. Qed.

Lemma contents_lookup rb i :
  i < size_ rb ->
  contents rb !! i = Some (default zero (data_ rb !! ((head_ rb + i) mod N))).
Proof.
  intros. unfold contents. rewrite list_lookup_fmap, lookup_seq_lt by lia. done.
Qed.

Hypothesis N_pos : 0 < N.

Lemma advance_mod i : i < N -> advance i = (i + 1) mod N.
Proof.
  intros. unfold advance. destruct (Nat.eqb_spec (i + 1) N) as [->|].
  - by rewrite Nat.Div0.mod_same.
  - rewrite Nat.mod_small; lia.
Qed.

Lemma retreat_advance i : i < N -> retreat (advance i) = i.
Proof.
  intros. unfold advance, retreat.
  destruct (Nat.eqb_spec (i + 1) N); simpl; [lia|].
  destruct (Nat.eqb_spec (i + 1) 0); lia.
Qed.

(** The mask of the power-of-two case is the remainder. *)
Lemma land_pred_pow2 n : (0 < n)%nat -> Nat.land n (n - 1) = 0 ->
  exists k, n = 2 ^ k.
Proof.
  intros Hn H. exists (Nat.log2 n).
  destruct (Nat.log2_spec n Hn) as [Hlo Hhi].
  destruct (decide (n = 2 ^ Nat.log2 n)) as [|Hne]; [done|exfalso].
  pose proof (Nat.pow_nonzero 2 (Nat.log2 n) ltac:(lia)).
  assert (Nat.log2 (n - 1) = Nat.log2 n) as Hlog.
  { apply Nat.log2_unique; lia. }
  assert (Hb : Nat.testbit (Nat.land n (n - 1)) (Nat.log2 n) = true).
  { rewrite Nat.land_spec, Nat.bit_log2 by lia.
    rewrite <-Hlog, Nat.bit_log2 by lia. done. }
  rewrite H in Hb. by rewrite Nat.bits_0 in Hb.
Qed.

Lemma wrap_index_mod i : wrap_index i = i mod N.
Proof.
  unfold wrap_index, is_power_of_two.
  destruct (Nat.ltb_spec 0 N); [simpl|lia].
  destruct (Nat.eqb_spec (Nat.land N (N - 1)) 0) as [E|]; [|done].
  destruct (land_pred_pow2 N) as [k Hk]; [lia|done|].
  rewrite Hk. replace (2 ^ k - 1) with (Nat.ones k) by (rewrite Nat.ones_equiv; lia).
  by rewrite Nat.land_ones.
Qed.

Lemma tail_lt rb : ring_ok rb -> tail_ rb < N.
Proof. intros [? ? ? ->]. apply Nat.mod_upper_bound. lia. Qed.

Lemma init_ok : ring_ok init.
Proof.
  split; simpl; try lia; [apply length_replicate|]. by rewrite Nat.Div0.mod_0_l.
Qed.

Lemma clear_ok rb : ring_ok rb -> ring_ok (clear rb) /\ contents (clear rb) = [].
Proof.
  intros [? ? ? ?]. split; [|done].
  split; simpl; try lia. by rewrite Nat.Div0.mod_0_l.
Qed.

(** Storing at the write index appends. *)
Lemma write_tail_contents rb v :
  ring_ok rb -> size_ rb < N ->
  contents (mk_ring_buffer (<[tail_ rb := v]> (data_ rb)) (head_ rb)
              (advance (tail_ rb)) (size_ rb + 1)) = contents rb ++ [v].
Proof.
  intros Hok Hlt. pose proof (tail_lt rb Hok) as Ht. destruct Hok as [Hl Hh Hs Hm].
  apply list_eq. intros i.
  destruct (decide (i < size_ rb + 1)) as [Hi|Hi].
  2:{ rewrite !lookup_ge_None_2; [done| |];
      rewrite ?length_app, ?length_contents; simpl; rewrite ?length_contents; simpl; lia. }
  rewrite contents_lookup by (simpl; lia). simpl.
  destruct (decide (i = size_ rb)) as [->|].
  - rewrite lookup_app_r by (rewrite length_contents; lia).
    rewrite length_contents, Nat.sub_diag. simpl.
    rewrite <-Hm, list_lookup_insert_eq by lia. done.
  - rewrite lookup_app_l by (rewrite length_contents; lia).
    rewrite contents_lookup by lia. do 2 f_equal.
    rewrite list_lookup_insert_ne; [done|]. rewrite Hm.
    intros E. apply mod_window_inj in E; lia.
Qed.

(** Advancing the read index drops the oldest element. *)
Lemma drop_head_contents rb :
  ring_ok rb -> 0 < size_ rb ->
  exists v, data_ rb !! head_ rb = Some v
    /\ contents rb = v :: contents (mk_ring_buffer (data_ rb) (advance (head_ rb))
                                      (tail_ rb) (size_ rb - 1)).
Proof.
  intros [Hl Hh Hs Hm] Hpos.
  destruct (lookup_lt_is_Some_2 (data_ rb) (head_ rb)) as [v Hv]; [lia|].
  exists v. split; [done|]. unfold contents. simpl.
  destruct (size_ rb) as [|n]; [lia|]. replace (S n - 1) with n by lia.
  simpl. f_equal.
  - rewrite Nat.add_0_r, Nat.mod_small by lia. by rewrite Hv.
  - rewrite <-fmap_S_seq, <-list_fmap_compose. apply list_fmap_ext. intros j x Hj.
    simpl. do 2 f_equal. rewrite advance_mod by lia.
    rewrite Nat.Div0.add_mod_idemp_l. f_equal. lia.
Qed.

Lemma write_tail_ok rb v :
  ring_ok rb -> size_ rb < N ->
  ring_ok (mk_ring_buffer (<[tail_ rb := v]> (data_ rb)) (head_ rb)
             (advance (tail_ rb)) (size_ rb + 1)).
Proof.
  intros Hok Hlt. pose proof (tail_lt rb Hok). destruct Hok as [Hl Hh Hs Hm].
  split; simpl; try lia; [by rewrite length_insert|].
  rewrite advance_mod, Hm by lia. rewrite Nat.Div0.add_mod_idemp_l. f_equal. lia.
Qed.

Lemma drop_head_ok rb :
  ring_ok rb -> 0 < size_ rb ->
  ring_ok (mk_ring_buffer (data_ rb) (advance (head_ rb)) (tail_ rb) (size_ rb - 1)).
Proof.
  intros [Hl Hh Hs Hm] Hpos. split; simpl; try lia.
  - rewrite advance_mod by lia. apply Nat.mod_upper_bound. lia.
  - rewrite Hm, advance_mod by lia. rewrite Nat.Div0.add_mod_idemp_l. f_equal. lia.
Qed.

Lemma full_spec rb : full rb = bool_decide (size_ rb = N).
Proof. unfold full. destruct (Nat.eqb_spec (size_ rb) N); by case_bool_decide. Qed.

Lemma empty_spec rb : empty rb = bool_decide (contents rb = []).
Proof.
  unfold empty. destruct (Nat.eqb_spec (size_ rb) 0) as [E|E]; case_bool_decide as Hn; try done.
  - destruct Hn. apply nil_length_inv. by rewrite length_contents.
  - apply (f_equal length) in Hn. by rewrite length_contents in Hn.
Qed.

(** [push] at the level of the abstract queue, on both branches. *)
Lemma ring_push_lemma rb v :
  ring_ok rb ->
  exists rb', push rb v = Done (bool_decide (size_ rb < N), rb')
    /\ ring_ok rb'
    /\ contents rb' = if decide (size_ rb < N) then contents rb ++ [v] else contents rb.
Proof.
  intros Hok. unfold push. destruct (full rb) eqn:E; unfold full in E.
  - apply Nat.eqb_eq in E. exists rb.
    rewrite bool_decide_false, decide_False by lia. done.
  - apply Nat.eqb_neq in E. pose proof (ok_size _ Hok). pose proof (tail_lt _ Hok).
    rewrite bool_decide_true, decide_True by lia.
    rewrite store_Done by (rewrite (ok_length _ Hok); lia). simpl.
    eexists. split; [done|]. split; [by apply write_tail_ok; [|lia]|].
    by apply write_tail_contents; [|lia].
Qed.

Lemma ring_pop_lemma rb out :
  ring_ok rb ->
  match contents rb with
  | [] => pop rb out = Done (false, out, rb)
  | v :: rest => exists rb', pop rb out = Done (true, v, rb')
      /\ ring_ok rb' /\ contents rb' = rest
  end.
Proof.
  intros Hok. unfold pop, empty. destruct (Nat.eqb_spec (size_ rb) 0) as [E|E].
  - assert (contents rb = []) as -> by (apply nil_length_inv; by rewrite length_contents).
    done.
  - destruct (drop_head_contents rb Hok) as (v & Hv & ->); [lia|].
    rewrite (load_Done _ _ _ Hv). simpl. eexists. split; [done|].
    split; [by apply drop_head_ok; [|lia]|done].
Qed.

(** When the buffer is full the write index coincides with the read index, and
    evicting before writing is the same as dropping the head first. *)
Lemma force_push_lemma rb v :
  ring_ok rb ->
  exists rb', force_push rb v = Done (full rb, rb')
    /\ ring_ok rb'
    /\ contents rb' = if full rb then drop 1 (contents rb) ++ [v] else contents rb ++ [v].
Proof.
  intros Hok. unfold force_push. pose proof (tail_lt _ Hok).
  rewrite store_Done by (rewrite (ok_length _ Hok); lia). simpl.
  destruct (full rb) eqn:E; unfold full in E.
  - apply Nat.eqb_eq in E. eexists. split; [done|].
    pose proof (drop_head_ok rb Hok ltac:(lia)) as Hok1.
    destruct (drop_head_contents rb Hok) as (x & _ & Hc); [lia|].
    rewrite Hc. simpl. rewrite drop_0.
    rewrite <-write_tail_contents by (simpl; try done; lia).
    split; [|done].
    apply (write_tail_ok (mk_ring_buffer (data_ rb) (advance (head_ rb))
             (tail_ rb) (size_ rb - 1)) v Hok1). simpl. lia.
  - apply Nat.eqb_neq in E. pose proof (ok_size _ Hok). eexists. split; [done|].
    split; [by apply write_tail_ok; [|lia]|]. by apply write_tail_contents; [|lia].
Qed.

Lemma pop_discard_lemma rb :
  ring_ok rb ->
  ring_ok (snd (pop_discard rb))
  /\ fst (pop_discard rb) = negb (empty rb)
  /\ contents (snd (pop_discard rb)) = drop 1 (contents rb).
Proof.
  intros Hok. unfold pop_discard, empty. destruct (Nat.eqb_spec (size_ rb) 0) as [E|E]; simpl.
  - rewrite (nil_length_inv (contents rb)) by (by rewrite length_contents). done.
  - destruct (drop_head_contents rb Hok) as (v & Hv & ->); [lia|].
    split; [by apply drop_head_ok; [|lia]|]. simpl. by rewrite drop_0.
Qed.

Lemma cell_contents rb i :
  ring_ok rb -> i < size_ rb ->
  load (data_ rb) ((head_ rb + i) mod N) = Done (default zero (contents rb !! i)).
Proof.
  intros Hok Hi. rewrite contents_lookup by done. simpl.
  destruct (lookup_lt_is_Some_2 (data_ rb) ((head_ rb + i) mod N)) as [v Hv].
  { rewrite (ok_length _ Hok). apply Nat.mod_upper_bound. lia. }
  rewrite Hv. by apply load_Done.
Qed.

Lemma peek_lemma rb i out :
  ring_ok rb ->
  peek rb i out = Done (match contents rb !! i with Some v => (true, v) | None => (false, out) end).
Proof.
  intros Hok. unfold peek. destruct (Nat.leb_spec (size_ rb) i).
  - rewrite lookup_ge_None_2; [done|]. by rewrite length_contents.
  - rewrite wrap_index_mod, cell_contents by done. simpl.
    destruct (lookup_lt_is_Some_2 (contents rb) i) as [v ->]; [|done].
    by rewrite length_contents.
Qed.

Lemma front_lemma rb :
  ring_ok rb -> 0 < size_ rb -> front rb = Done (default zero (head (contents rb))).
Proof.
  intros Hok Hpos. unfold front. pose proof (cell_contents rb 0 Hok Hpos) as H.
  rewrite Nat.add_0_r, Nat.mod_small in H by apply (ok_head _ Hok). rewrite H.
  by destruct (contents rb).
Qed.

Lemma back_lemma rb :
  ring_ok rb -> 0 < size_ rb -> back rb = Done (default zero (list.last (contents rb))).
Proof.
  intros Hok Hpos. unfold back.
  assert (retreat (tail_ rb) = (head_ rb + (size_ rb - 1)) mod N) as ->.
  { rewrite <-(retreat_advance ((head_ rb + (size_ rb - 1)) mod N)).
    - f_equal. rewrite advance_mod by (apply Nat.mod_upper_bound; lia).
      rewrite (ok_tail _ Hok), Nat.Div0.add_mod_idemp_l. f_equal. lia.
    - apply Nat.mod_upper_bound. lia. }
  rewrite cell_contents by (done || lia).
  by rewrite last_lookup, length_contents, <-Nat.sub_1_r.
Qed.

Lemma push_bulk_loop_lemma n src written rb :
  ring_ok rb -> written + n <= length src ->
  exists rb', push_bulk_loop n src written rb
      = Done (written + min n (N - size_ rb), rb')
    /\ ring_ok rb'
    /\ contents rb' = contents rb ++ take (min n (N - size_ rb)) (drop written src).
Proof.
  revert written rb. induction n as [|n IH]; intros written rb Hok Hlen.
  { exists rb. simpl. by rewrite Nat.add_0_r, take_0, app_nil_r. }
  simpl push_bulk_loop. destruct (full rb) eqn:E; unfold full in E.
  - apply Nat.eqb_eq in E. exists rb.
    replace (min (S n) (N - size_ rb)) with 0 by lia.
    by rewrite Nat.add_0_r, take_0, app_nil_r.
  - apply Nat.eqb_neq in E. pose proof (ok_size _ Hok). pose proof (tail_lt _ Hok).
    destruct (lookup_lt_is_Some_2 src written) as [v Hv]; [lia|].
    rewrite (load_Done _ _ _ Hv). exec_simpl.
    rewrite store_Done by (rewrite (ok_length _ Hok); lia). exec_simpl.
    destruct (IH (written + 1) _ (write_tail_ok rb v Hok ltac:(lia)) ltac:(lia))
      as (rb' & -> & Hok' & Hc). exists rb'. simpl size_ in *.
    replace (min (S n) (N - size_ rb)) with (S (min n (N - (size_ rb + 1)))) by lia.
    rewrite Hc, write_tail_contents, <-app_assoc by (done || lia).
    rewrite (drop_S src v written Hv), (Nat.add_1_r written), Nat.add_succ_comm. done.
Qed.

Lemma pop_bulk_loop_lemma n dst read rb (done_ : list T) :
  ring_ok rb -> length done_ = read -> read + n <= length dst ->
  exists rb', pop_bulk_loop n (wrote dst 0 done_) read rb
      = Done (read + min n (size_ rb),
              wrote dst 0 (done_ ++ take (min n (size_ rb)) (contents rb)), rb')
    /\ ring_ok rb' /\ contents rb' = drop (min n (size_ rb)) (contents rb).
Proof.
  revert read rb done_. induction n as [|n IH]; intros read rb done_ Hok Hd Hlen.
  { exists rb. simpl. by rewrite Nat.add_0_r, take_0, app_nil_r, drop_0. }
  simpl pop_bulk_loop. unfold empty. destruct (Nat.eqb_spec (size_ rb) 0) as [E|E].
  - exists rb. rewrite E. simpl. by rewrite Nat.add_0_r, take_0, app_nil_r, drop_0.
  - destruct (drop_head_contents rb Hok) as (v & Hv & Hc); [lia|].
    rewrite (load_Done _ _ _ Hv). exec_simpl.
    rewrite store_wrote by (simpl; lia). exec_simpl.
    destruct (IH (read + 1) _ (done_ ++ [v]) (drop_head_ok rb Hok ltac:(lia)))
      as (rb' & -> & Hok' & Hc'); [rewrite length_app; simpl; lia|lia|].
    exists rb'. simpl size_ in *. rewrite Hc.
    replace (min (S n) (size_ rb)) with (S (min n (size_ rb - 1))) by lia.
    rewrite <-app_assoc, (Nat.add_1_r read), Nat.add_succ_comm. done.
Qed.

(** ** The operations as a queue interface, and whole runs *)

#[export, refine] Instance ring_queue : BoundedQueue T ring_buffer := {|
  q_ok := ring_ok;
  q_cap := N;
  q_list := contents;
  q_push := push;
  q_pop := pop;
  q_pop_spec := ring_pop_lemma
|}.
Proof.
  - intros q Hok. rewrite length_contents. apply (ok_size _ Hok).
  - intros q v Hok. rewrite length_contents. by apply ring_push_lemma.
Defined.

(** Every member function that can be called without a precondition on the
    contents, with its arguments. *)
Inductive ring_op : Type :=
| OpPush (v : T)
| OpForcePush (v : T)
| OpPop (out : T)
| OpPopDiscard
| OpPeek (i : nat) (out : T)
| OpClear
| OpPushBulk (src : list T)
| OpPopBulk (dst : list T)
| OpSize
| OpFull
| OpEmpty
| OpAvailable.

(** What a caller observes: a flag, a count and the memory it passed in. *)
Record ring_obs : Type := mk_obs { o_flag : bool; o_count : nat; o_mem : list T }.

Definition run_op (rb : ring_buffer) (op : ring_op) : exec (ring_obs * ring_buffer) :=
  match op with
  | OpPush v => r ← push rb v; Done (mk_obs (fst r) 0 [], snd r)
  | OpForcePush v => r ← force_push rb v; Done (mk_obs (fst r) 0 [], snd r)
  | OpPop out => r ← pop rb out;
      let '(b, v, rb') := r in Done (mk_obs b 0 [v], rb')
  | OpPopDiscard => let '(b, rb') := pop_discard rb in Done (mk_obs b 0 [], rb')
  | OpPeek i out => r ← peek rb i out; Done (mk_obs (fst r) 0 [snd r], rb)
  | OpClear => Done (mk_obs true 0 [], clear rb)
  | OpPushBulk src => r ← push_bulk rb (Some src) (length src);
      Done (mk_obs true (fst r) [], snd r)
  | OpPopBulk dst => r ← pop_bulk rb (Some dst) (length dst);
      let '(k, d, rb') := r in Done (mk_obs true k (default [] d), rb')
  | OpSize => Done (mk_obs true (size rb) [], rb)
  | OpFull => Done (mk_obs (full rb) 0 [], rb)
  | OpEmpty => Done (mk_obs (empty rb) 0 [], rb)
  | OpAvailable => Done (mk_obs true (available rb) [], rb)
  end.

(** The bounded queue of capacity [N] on plain lists. *)
Definition spec_op (q : list T) (op : ring_op) : ring_obs * list T :=
  match op with
  | OpPush v => if decide (length q < N) then (mk_obs true 0 [], q ++ [v])
                else (mk_obs false 0 [], q)
  | OpForcePush v => if decide (length q < N) then (mk_obs false 0 [], q ++ [v])
                     else (mk_obs true 0 [], drop 1 q ++ [v])
  | OpPop out => match q with
                 | [] => (mk_obs false 0 [out], [])
                 | v :: q' => (mk_obs true 0 [v], q')
                 end
  | OpPopDiscard => (mk_obs (negb (bool_decide (q = []))) 0 [], drop 1 q)
  | OpPeek i out => (match q !! i with
                     | Some v => mk_obs true 0 [v]
                     | None => mk_obs false 0 [out]
                     end, q)
  | OpClear => (mk_obs true 0 [], [])
  | OpPushBulk src => let k := min (length src) (N - length q) in
                      (mk_obs true k [], q ++ take k src)
  | OpPopBulk dst => let k := min (length dst) (length q) in
                     (mk_obs true k (take k q ++ drop k dst), drop k q)
  | OpSize => (mk_obs true (length q) [], q)
  | OpFull => (mk_obs (bool_decide (length q = N)) 0 [], q)
  | OpEmpty => (mk_obs (bool_decide (q = [])) 0 [], q)
  | OpAvailable => (mk_obs true (N - length q) [], q)
  end.

Fixpoint run_ops (rb : ring_buffer) (ops : list ring_op) : exec (list ring_obs * ring_buffer) :=
  match ops with
  | [] => Done ([], rb)
  | op :: ops' => r ← run_op rb op; r' ← run_ops (snd r) ops';
      Done (fst r :: fst r', snd r')
  end.

Fixpoint spec_ops (q : list T) (ops : list ring_op) : list ring_obs * list T :=
  match ops with
  | [] => ([], q)
  | op :: ops' => let '(o, q') := spec_op q op in
      let '(os, q'') := spec_ops q' ops' in (o :: os, q'')
  end.

Lemma ring_run_op_refines rb op :
  ring_ok rb ->
  exists rb', run_op rb op = Done (fst (spec_op (contents rb) op), rb')
    /\ ring_ok rb' /\ contents rb' = snd (spec_op (contents rb) op).
Proof.
  intros Hok. pose proof (ok_size _ Hok) as Hsz.
  destruct op as [v|v|out| |i out| |src|dst| | | |]; simpl; rewrite ?length_contents.
  - destruct (ring_push_lemma rb v Hok) as (rb' & -> & Hok' & Hc). exists rb'. simpl.
    case_bool_decide; repeat case_decide; try lia; done.
  - destruct (force_push_lemma rb v Hok) as (rb' & -> & Hok' & Hc). exists rb'.
    rewrite full_spec in *. simpl.
    case_bool_decide; repeat case_decide; try lia; done.
  - pose proof (ring_pop_lemma rb out Hok) as H. destruct (contents rb) as [|v q] eqn:E.
    + rewrite H. exists rb. done.
    + destruct H as (rb' & -> & Hok' & Hc). exists rb'. done.
  - destruct (pop_discard_lemma rb Hok) as (Hok' & Hb & Hc).
    destruct (pop_discard rb) as [b rb']. simpl in *. exists rb'. subst b.
    by rewrite empty_spec.
  - rewrite peek_lemma by done. exists rb. by destruct (contents rb !! i).
  - exists (clear rb). destruct (clear_ok rb Hok) as [? ->]. done.
  - destruct (push_bulk_loop_lemma (length src) src 0 rb Hok) as (rb' & -> & Hok' & Hc);
      [done|]. exists rb'. rewrite drop_0 in Hc. done.
  - destruct (pop_bulk_loop_lemma (length dst) dst 0 rb [] Hok) as (rb' & Hr & Hok' & Hc);
      [done|done|]. rewrite wrote_nil in Hr. rewrite Hr. exists rb'. simpl.
    split_and!; [|done..]. unfold wrote. simpl.
    by rewrite length_take, length_contents, (Nat.min_l (_ `min` _)) by lia.
  - exists rb. done.
  - exists rb. by rewrite full_spec.
  - exists rb. by rewrite empty_spec.
  - exists rb. done.
Qed.

Lemma ring_run_ops_refines rb ops :
  ring_ok rb ->
  exists rb', run_ops rb ops = Done (fst (spec_ops (contents rb) ops), rb')
    /\ ring_ok rb' /\ contents rb' = snd (spec_ops (contents rb) ops).
Proof.
  revert rb. induction ops as [|op ops IH]; intros rb Hok; [by exists rb|].
  simpl. destruct (ring_run_op_refines rb op Hok) as (rb1 & -> & Hok1 & Hc1). exec_simpl.
  destruct (IH rb1 Hok1) as (rb2 & Hr & Hok2 & Hc2). simpl. rewrite Hr.
  exists rb2. rewrite Hc1 in *. destruct (spec_op (contents rb) op) as [o q]. simpl in *.
  by destruct (spec_ops q ops).
Qed.

End RingBuffer.

(** C1.  Refinement of the ring buffer: whatever sequence of member functions
    is called on a default-constructed [ring_buffer<T, N>] with [N > 0], no call
    accesses an element outside [data_], and the sequence of results (flags,
    counts and the bytes written through the caller's pointers) is the one of
    the bounded FIFO queue of capacity [N] on plain lists; the queue left in
    the buffer is the abstract one. *)
Theorem ring_refines_bounded_queue {T} (N : nat) (zero : T) (ops : list (@ring_op T)) :
  0 < N ->
  exists rb, run_ops N (init N zero) ops = Done (fst (spec_ops N [] ops), rb)
    /\ ring_ok N rb /\ contents N zero rb = snd (spec_ops N [] ops).
Proof. intros HN. exact (ring_run_ops_refines N zero HN (init N zero) ops (init_ok N zero HN)). Qed.

Lemma ring_refines_bounded_queue_witness :
  0 < 3 /\ exists rb, run_ops 3 (init 3 0) [OpPushBulk [1; 2; 3; 4]; OpPop 9; OpForcePush 7; OpForcePush 8; OpPeek 2 9]
    = Done ([mk_obs true 3 []; mk_obs true 0 [1]; mk_obs false 0 []; mk_obs true 0 []; mk_obs true 0 [8]], rb)
    /\ contents 3 0 rb = [3; 7; 8].
Proof.
  split; [lia|].
  destruct (ring_refines_bounded_queue 3 0
    [OpPushBulk [1; 2; 3; 4]; OpPop 9; OpForcePush 7; OpForcePush 8; OpPeek 2 9])
    as (rb & Hr & _ & Hc); [lia|].
  exists rb. split; [exact Hr | exact Hc].
Defined.

(**  [front] and [back] on a non-empty ring buffer read the oldest and the
    newest element, and [peek] reads the [i]-th oldest, with the mask of the
    power-of-two case and the remainder of the general case agreeing. *)
Theorem ring_element_access {T} (N : nat) (zero : T) rb :
  0 < N -> ring_ok N rb -> contents N zero rb <> [] ->
  front rb = Done (default zero (head (contents N zero rb)))
  /\ back N rb = Done (default zero (list.last (contents N zero rb)))
  /\ forall i out, peek N rb i out =
       Done (match contents N zero rb !! i with Some v => (true, v) | None => (false, out) end).
Proof.
  intros HN Hok Hne.
  assert (0 < size_ rb).
  { destruct (decide (size_ rb = 0)) as [E|]; [|lia]. destruct Hne.
    apply nil_length_inv. by rewrite length_contents. }
  split_and!; [by apply (front_lemma N)|by apply (back_lemma N)|].
  intros. by apply peek_lemma.
Qed.

Lemma ring_element_access_witness :
  back 4 (mk_ring_buffer [5; 6; 7; 8] 2 1 3) = Done 5.
Proof.
  refine (proj1 (proj2 (ring_element_access 4 0 (mk_ring_buffer [5; 6; 7; 8] 2 1 3) _ _ _))).
  - lia.
  - split; simpl; lia.
  - discriminate.
Defined.
