(* ===== verification/StackBuffer.v ===== *)
(** * The fixed-capacity stack (castle/container/stack.hpp)

    [stack_buffer] is an array, the index [head_] of the next free slot, which goes round,
    and a size.  Every function that touches [data_] is an [exec]. *)

From S2P Require Import Prelude RingBuffer.

Section Stack.
Context {T : Type} (N : nat) (zero : T).

Record stack_buffer : Type := mk_stack { data_ : list T; head_ : nat; size_ : nat }.

Definition wrap (index : nat) : nat :=
  if is_power_of_two N then Nat.land index (N - 1) else (index mod N)%nat.
Definition advance (index : nat) : nat := if (index + 1 =? N)%nat then 0%nat else (index + 1)%nat.
Definition retreat (index : nat) : nat := if (index =? 0)%nat then (N - 1)%nat else (index - 1)%nat.

Definition init : stack_buffer := mk_stack (replicate N zero) 0 0.
Definition empty (s : stack_buffer) : bool := (size_ s =? 0)%nat.
Definition full (s : stack_buffer) : bool := (size_ s =? N)%nat.
Definition available (s : stack_buffer) : nat := (N - size_ s)%nat.
Definition clear (s : stack_buffer) : stack_buffer := mk_stack (data_ s) 0 0.

Definition push (s : stack_buffer) (value : T) : exec (bool * stack_buffer) :=
  if full s then Done (false, s)
  else
    d ← store (data_ s) (head_ s) value;
    Done (true, mk_stack d (advance (head_ s)) (size_ s + 1)).

Definition force_push (s : stack_buffer) (value : T) : exec (bool * stack_buffer) :=
  let evicted := full s in
  if evicted then
    let h := retreat (head_ s) in
    d ← store (data_ s) h value;
    Done (evicted, mk_stack d (advance h) (size_ s))
  else
    d ← store (data_ s) (head_ s) value;
    Done (evicted, mk_stack d (advance (head_ s)) (size_ s + 1)).

(** [pop(out)]: the second component is the caller's [out] afterwards. *)
Definition pop (s : stack_buffer) (out : T) : exec (bool * T * stack_buffer) :=
  if empty s then Done (false, out, s)
  else
    let h := retreat (head_ s) in
    v ← load (data_ s) h;
    Done (true, v, mk_stack (data_ s) h (size_ s - 1)).
Definition pop_discard (s : stack_buffer) : bool * stack_buffer :=
  if empty s then (false, s) else (true, mk_stack (data_ s) (retreat (head_ s)) (size_ s - 1)).

Definition peek (s : stack_buffer) (index : nat) (out : T) : exec (bool * T) :=
  if (size_ s <=? index)%nat then Done (false, out)
  else v ← load (data_ s) (wrap (head_ s + N - size_ s + index)); Done (true, v).
Definition top (s : stack_buffer) : exec T := load (data_ s) (retreat (head_ s)).

(** The loops of [push_bulk] and [pop_bulk]: at most [max] rounds, left when the stack is
    full (empty). *)
Fixpoint push_bulk_loop (s : stack_buffer) (src : list T) (written max : nat) : exec (nat * stack_buffer) :=
  match max with
  | O => Done (written, s)
  | S max =>
      if full s then Done (written, s)
      else
        v ← load src written;
        d ← store (data_ s) (head_ s) v;
        push_bulk_loop (mk_stack d (advance (head_ s)) (size_ s + 1)) src (written + 1) max
  end.
Definition push_bulk (s : stack_buffer) (src : option (list T)) (max : nat) : exec (nat * stack_buffer) :=
  match src with None => Done (0%nat, s) | Some src => push_bulk_loop s src 0 max end.

Fixpoint pop_bulk_loop (s : stack_buffer) (dst : list T) (read max : nat) : exec (nat * list T * stack_buffer) :=
  match max with
  | O => Done (read, dst, s)
  | S max =>
      if empty s then Done (read, dst, s)
      else
        let h := retreat (head_ s) in
        v ← load (data_ s) h;
        dst ← store dst read v;
        pop_bulk_loop (mk_stack (data_ s) h (size_ s - 1)) dst (read + 1) max
  end.
Definition pop_bulk (s : stack_buffer) (dst : option (list T)) (max : nat) : exec (nat * option (list T) * stack_buffer) :=
  match dst with
  | None => Done (0%nat, None, s)
  | Some dst => '(read, dst, s) ← pop_bulk_loop s dst 0 max; Done (read, Some dst, s)
  end.

(** The constructor from an initializer list stops when the stack is full. *)
Fixpoint push_list (s : stack_buffer) (xs : list T) : exec stack_buffer :=
  match xs with
  | [] => Done s
  | x :: xs => if full s then Done s else '(_, s) ← push s x; push_list s xs
  end.
Definition stack_of_list (xs : list T) : exec stack_buffer := push_list init xs.

(** ** The elements, the bottom first *)

Definition holds (s : stack_buffer) (xs : list T) : Prop :=
  length (data_ s) = N /\ (size_ s <= N)%nat /\ head_ s = (size_ s mod N)%nat /\ xs = take (size_ s) (data_ s).

Context (HN : (0 < N)%nat).

Lemma holds_length s xs : holds s xs -> length xs = size_ s.
Proof. intros (Hl & Hs & _ & ->). rewrite length_take. lia. Qed.

Lemma holds_init : holds init [].
Proof. unfold holds, init. cbn. rewrite length_replicate, Nat.Div0.mod_0_l. split_and!; (done || lia). Qed.

Lemma head_small s xs : holds s xs -> (size_ s < N)%nat -> head_ s = size_ s.
Proof. intros (_ & _ & -> & _) H. by apply Nat.mod_small. Qed.

Lemma advance_size n : (n < N)%nat -> advance n = ((n + 1) mod N)%nat.
Proof.
  intros H. unfold advance. destruct (Nat.eqb_spec (n + 1) N) as [->|]; [by rewrite Nat.Div0.mod_same|].
  symmetry. apply Nat.mod_small. lia.
Qed.

Lemma retreat_head s xs : holds s xs -> (0 < size_ s)%nat -> retreat (head_ s) = (size_ s - 1)%nat.
Proof.
  intros (_ & Hs & -> & _) H. unfold retreat. destruct (decide (size_ s = N)) as [E|].
  - by rewrite E, Nat.Div0.mod_same.
  - rewrite Nat.mod_small by lia. by rewrite (proj2 (Nat.eqb_neq _ _)) by lia.
Qed.

(** The step shared by every function that adds an element. *)
Lemma push_step s xs v :
  holds s xs -> (size_ s < N)%nat ->
  exists d, store (data_ s) (head_ s) v = Done d /\ holds (mk_stack d (advance (head_ s)) (size_ s + 1)) (xs ++ [v]).
Proof.
  intros Hh Hlt. rewrite (head_small s xs Hh Hlt). destruct Hh as (Hl & Hs & _ & ->). exists (<[size_ s := v]> (data_ s)).
  split; [apply store_Done; lia|]. unfold holds. cbn. rewrite length_insert. split_and!; [done|lia|by apply advance_size|].
  rewrite Nat.add_1_r. erewrite take_S_r by (apply list_lookup_insert_eq; lia). by rewrite take_insert_ge by lia.
Qed.

(** The step shared by every function that takes one away. *)
Lemma pop_step s xs v :
  holds s (xs ++ [v]) ->
  load (data_ s) (retreat (head_ s)) = Done v /\ holds (mk_stack (data_ s) (retreat (head_ s)) (size_ s - 1)) xs.
Proof.
  intros Hh. pose proof (holds_length _ _ Hh) as Hlen. rewrite length_app in Hlen. cbn in Hlen.
  rewrite (retreat_head s _ Hh) by lia. destruct Hh as (Hl & Hs & _ & E).
  assert (Hv : take (size_ s) (data_ s) !! (size_ s - 1)%nat = Some v).
  { rewrite <-E. replace (size_ s - 1)%nat with (length xs) by lia. by apply list_lookup_middle. }
  rewrite lookup_take_lt in Hv by lia. split; [by apply load_Done|].
  unfold holds. cbn. split_and!; [done|lia|symmetry; apply Nat.mod_small; lia|].
  apply (f_equal (take (size_ s - 1))) in E. rewrite take_take, take_app_le, take_ge, Nat.min_l in E by lia. done.
Qed.

Lemma push_bulk_ok s xs src written max :
  holds s xs -> (written + max <= length src)%nat ->
  let n := Nat.min max (N - length xs) in
  exists s', push_bulk_loop s src written max = Done ((written + n)%nat, s') /\ holds s' (xs ++ take n (drop written src)).
Proof.
  revert s xs written. induction max as [|max IH]; intros s xs written Hh Hl; cbn [push_bulk_loop]; cbn zeta.
  { exists s. cbn. by rewrite app_nil_r, Nat.add_0_r. }
  pose proof (holds_length _ _ Hh) as Hlen. pose proof Hh as (_ & Hs & _). unfold full. destruct (Nat.eqb_spec (size_ s) N) as [E|Hne].
  { exists s. replace (N - length xs)%nat with 0%nat by lia. rewrite Nat.min_0_r, take_0, app_nil_r, Nat.add_0_r. done. }
  destruct (lookup_lt_is_Some_2 src written) as [v Hv]; [lia|]. rewrite (load_Done _ _ _ Hv). exec_simpl.
  destruct (push_step s xs v Hh) as (d & -> & Hd); [lia|]. exec_simpl.
  destruct (IH _ _ (written + 1)%nat Hd) as (s' & E & Hs'); [lia|]. rewrite length_app in E, Hs'. cbn [length] in E, Hs'.
  exists s'. replace (Nat.min (S max) (N - length xs)) with (S (Nat.min max (N - (length xs + 1)))) by lia. split.
  - rewrite E. do 2 f_equal. lia.
  - rewrite (drop_S _ _ _ Hv). cbn [take]. rewrite <-app_assoc in Hs'. by rewrite (Nat.add_1_r written) in Hs'.
Qed.

Lemma pop_bulk_ok s xs dst read max :
  holds s xs -> (read + max <= length dst)%nat ->
  let n := Nat.min max (length xs) in
  exists s', pop_bulk_loop s dst read max
    = Done ((read + n)%nat, take read dst ++ take n (reverse xs) ++ drop (read + n) dst, s') /\ holds s' (take (length xs - n) xs).
Proof.
  revert s xs dst read. induction max as [|max IH]; intros s xs dst read Hh Hl; cbn [pop_bulk_loop]; cbn zeta.
  { exists s. rewrite Nat.min_0_l, Nat.sub_0_r, Nat.add_0_r, (take_ge xs), take_0, app_nil_l, take_drop by lia. done. }
  pose proof (holds_length _ _ Hh) as Hlen. unfold empty. destruct (Nat.eqb_spec (size_ s) 0) as [E|Hne].
  { exists s. destruct xs; [|cbn in Hlen; lia]. rewrite Nat.min_0_r, Nat.add_0_r, take_0, app_nil_l, take_drop. done. }
  destruct (exists_last (l := xs)) as (ys & v & ->); [by intros ->; cbn in Hlen; lia|].
  destruct (pop_step s ys v Hh) as [-> Hp]. exec_simpl. rewrite store_Done by lia. exec_simpl.
  destruct (IH _ _ (<[read := v]> dst) (read + 1)%nat Hp) as (s' & E & Hs'); [rewrite length_insert; lia|].
  rewrite length_app. cbn [length]. rewrite reverse_snoc.
  replace (Nat.min (S max) (length ys + 1)) with (S (Nat.min max (length ys))) by lia. exists s'. split.
  - rewrite E. cbn [take app]. rewrite Nat.add_1_r. erewrite take_S_r by (apply list_lookup_insert_eq; lia).
    rewrite take_insert_ge, drop_insert_lt by lia. rewrite <-app_assoc. cbn [app].
    by replace (S read + Nat.min max (length ys))%nat with (read + S (Nat.min max (length ys)))%nat by lia.
  - replace (length ys + 1 - S (Nat.min max (length ys)))%nat with (length ys - Nat.min max (length ys))%nat by lia.
    by rewrite take_app_le by lia.
Qed.

Lemma push_list_ok s xs ys : holds s xs -> exists s', push_list s ys = Done s' /\ holds s' (xs ++ take (N - length xs) ys).
Proof.
  revert s xs. induction ys as [|y ys IH]; intros s xs Hh; cbn [push_list].
  { exists s. by rewrite take_nil, app_nil_r. }
  pose proof (holds_length _ _ Hh) as Hlen. pose proof Hh as (_ & Hs & _). unfold push, full. destruct (Nat.eqb_spec (size_ s) N) as [E|Hne].
  { exists s. replace (N - length xs)%nat with 0%nat by lia. by rewrite take_0, app_nil_r. }
  destruct (push_step s xs y Hh) as (d & -> & Hd); [lia|]. exec_simpl. destruct (IH _ _ Hd) as (s' & -> & Hs').
  exists s'. split; [done|]. rewrite length_app, <-app_assoc in Hs'. cbn in Hs'.
  replace (N - length xs)%nat with (S (N - (length xs + 1))) by lia. done.
Qed.
End Stack.

(** [stack_buffer] implements bounded stacks: no index leaves the array, and in every
    state that holds the elements [xs] (the bottom first) [push] adds one or reports a full
    stack, [force_push] on a full stack replaces the top, [pop] and [top] deliver the last
    element, [peek] the [i]-th from the bottom, the bulk operations as many as fit, and a
    stack built from a list keeps the elements that fit. *)
Theorem stack_refines_list {T} (N : nat) (zero : T) (s : stack_buffer (T := T)) (xs : list T) :
  (0 < N)%nat -> holds N s xs ->
  (length xs <= N /\ empty s = (length xs =? 0) /\ full N s = (length xs =? N) /\ available N s = N - length xs)%nat
  /\ holds N (clear s) []
  /\ (forall ys, exists s', stack_of_list N zero ys = Done s' /\ holds N s' (take N ys))
  /\ (forall v, exists s', push N s v = Done ((length xs <? N)%nat, s')
        /\ holds N s' (if (length xs <? N)%nat then xs ++ [v] else xs))
  /\ (forall v, exists s', force_push N s v = Done ((length xs =? N)%nat, s')
        /\ holds N s' (if (length xs =? N)%nat then take (N - 1) xs ++ [v] else xs ++ [v]))
  /\ (forall out, pop N s out = Done (false, out, s) /\ pop_discard N s = (false, s) /\ xs = []
        \/ exists ys v s', xs = ys ++ [v] /\ pop N s out = Done (true, v, s') /\ pop_discard N s = (true, s')
             /\ top N s = Done v /\ holds N s' ys)
  /\ (forall i out, peek N s i out = Done (match xs !! i with Some v => (true, v) | None => (false, out) end))
  /\ (push_bulk N s None 0 = Done (0%nat, s))
  /\ (forall src max, (max <= length src)%nat -> let n := Nat.min max (N - length xs) in
        exists s', push_bulk N s (Some src) max = Done (n, s') /\ holds N s' (xs ++ take n src))
  /\ (forall dst max, (max <= length dst)%nat -> let n := Nat.min max (length xs) in
        exists s', pop_bulk N s (Some dst) max = Done (n, Some (take n (reverse xs) ++ drop n dst), s')
          /\ holds N s' (take (length xs - n) xs)).
Proof.
  intros HN Hh. pose proof (holds_length N HN s xs Hh) as Hlen. pose proof Hh as (Hl & Hs & Hhd & Ex).
  split; [|split; [|split; [|split; [|split; [|split; [|split; [|split; [done|split]]]]]]]].
  - unfold empty, full, available. rewrite Hlen. done.
  - unfold holds, clear. cbn. rewrite Nat.Div0.mod_0_l. split_and!; (done || lia).
  - intros ys. destruct (push_list_ok N HN (init N zero) [] ys (holds_init N zero HN)) as (s' & E & Hs').
    exists s'. split; [exact E|]. cbn in Hs'. by rewrite Nat.sub_0_r in Hs'.
  - intros v. unfold push, full. rewrite <-Hlen. destruct (Nat.eqb_spec (length xs) N) as [E|Hne].
    + rewrite (proj2 (Nat.ltb_ge _ _)) by lia. by exists s.
    + rewrite (proj2 (Nat.ltb_lt _ _)) by lia. rewrite Hlen in Hne |- *.
      destruct (push_step N HN s xs v Hh) as (d & -> & Hd); [lia|]. exec_simpl. by eexists.
  - intros v. unfold force_push, full. rewrite <-Hlen. destruct (Nat.eqb_spec (length xs) N) as [E|Hne].
    + destruct (exists_last (l := xs)) as (ys & w & Exs); [by intros ->; cbn in E; lia|]. subst xs.
      rewrite Exs in *. destruct (pop_step N HN s ys w Hh) as [_ Hp]. rewrite length_app in *. cbn [length] in *.
      destruct (push_step N HN _ ys v Hp) as (d & Ed & Hd); [cbn; lia|]. cbn in Ed, Hd. rewrite Ed. exec_simpl.
      eexists. split; [done|]. rewrite take_app_le, take_ge by lia. by replace (length ys + 1)%nat with (size_ s - 1 + 1)%nat by lia.
    + rewrite Hlen in Hne |- *. destruct (push_step N HN s xs v Hh) as (d & -> & Hd); [lia|]. exec_simpl. by eexists.
  - intros out. unfold pop, pop_discard, empty, top. rewrite <-Hlen. destruct (Nat.eqb_spec (length xs) 0) as [E|Hne].
    + left. by destruct xs.
    + right. destruct (exists_last (l := xs)) as (ys & w & Exs); [by intros ->|]. rewrite Exs in *.
      destruct (pop_step N HN s ys w Hh) as [E Hp]. rewrite E. exec_simpl. rewrite Hlen. by eexists ys, w, _.
  - intros i out. unfold peek. destruct (Nat.leb_spec (size_ s) i) as [Hge|Hlt].
    + by rewrite lookup_ge_None_2 by lia.
    + destruct (lookup_lt_is_Some_2 xs i) as [v Hv]; [lia|]. rewrite Hv. change (wrap N) with (wrap_index N).
      rewrite wrap_index_mod by done. rewrite Ex, lookup_take_lt in Hv by done.
      assert (((head_ s + N - size_ s + i) mod N = i)%nat) as ->.
      { rewrite Hhd. destruct (decide (size_ s = N)) as [E|].
        - rewrite E, Nat.Div0.mod_same. replace (0 + N - N + i)%nat with i by lia. apply Nat.mod_small. lia.
        - rewrite (Nat.mod_small (size_ s)) by lia. replace (size_ s + N - size_ s + i)%nat with (i + 1 * N)%nat by lia.
          rewrite Nat.Div0.mod_add. apply Nat.mod_small. lia. }
      by rewrite (load_Done _ _ _ Hv).
  - intros src max Hm. destruct (push_bulk_ok N HN s xs src 0 max Hh) as (s' & E & Hs'); [lia|]. cbn zeta. by exists s'.
  - intros dst max Hm. destruct (pop_bulk_ok N HN s xs dst 0 max Hh) as (s' & E & Hs'); [lia|]. cbn zeta. unfold pop_bulk. rewrite E.
    exec_simpl. by exists s'.
Qed.

Lemma stack_refines_list_witness :
  exists s', push 2 (mk_stack [7; 0] 1 1) 8 = Done (true, s') /\ holds 2 s' [7; 8].
Proof.
  assert (Hh : holds 2 (mk_stack [7; 0] 1 1) [7]) by (unfold holds; cbn; split_and!; (done || lia)).
  destruct (stack_refines_list 2 0 (mk_stack [7; 0] 1 1) [7] ltac:(lia) Hh) as (_ & _ & _ & H & _).
  exact (H 8).
Defined.
