(* ===== verification/ForwardList.v ===== *)
(** * The singly linked list (castle/container/forward_list.hpp)

    Nodes live in the array [nodes_] and are linked by pointers, here indices into it; a
    node is on the list or on the free list.  [before_] is the sentinel in front of the
    first element.  A value is present in a node between [construct_at] and [destroy_at];
    using it at any other time is undefined. *)

From S2P Require Import Prelude Status.

Section ForwardList.
Context {T : Type} `{EqDecision T} (N : nat).

Record node : Type := mk_node { next : option nat; value : option T }.
Record flist : Type := mk_flist {
  nodes_ : list node; head_ : option nat; size_ : nat; free_head_ : option nat; before_next : option nat }.

(** A pointer to a [node_base]: [&before_] or a node. *)
Inductive nref : Type := Before | At (i : nat).

Definition set_nodes (l : flist) (ns : list node) : flist := mk_flist ns (head_ l) (size_ l) (free_head_ l) (before_next l).
Definition set_head (l : flist) (p : option nat) : flist := mk_flist (nodes_ l) p (size_ l) (free_head_ l) (before_next l).
Definition set_free (l : flist) (p : option nat) : flist := mk_flist (nodes_ l) (head_ l) (size_ l) p (before_next l).
Definition set_size (l : flist) (n : nat) : flist := mk_flist (nodes_ l) (head_ l) n (free_head_ l) (before_next l).
Definition set_before (l : flist) (p : option nat) : flist := mk_flist (nodes_ l) (head_ l) (size_ l) (free_head_ l) p.

Definition get_next (l : flist) (p : nref) : exec (option nat) :=
  match p with Before => Done (before_next l) | At i => n ← load (nodes_ l) i; Done (next n) end.
Definition set_next (l : flist) (p : nref) (v : option nat) : exec flist :=
  match p with
  | Before => Done (set_before l v)
  | At i => n ← load (nodes_ l) i; ns ← store (nodes_ l) i (mk_node v (value n)); Done (set_nodes l ns)
  end.

(** [*value_ptr(item)], [construct_at] and [destroy_at]. *)
Definition get_value (l : flist) (i : nat) : exec T :=
  n ← load (nodes_ l) i; match value n with Some v => Done v | None => Undefined end.
Definition construct_at (l : flist) (i : nat) (v : T) : exec flist :=
  n ← load (nodes_ l) i; ns ← store (nodes_ l) i (mk_node (next n) (Some v)); Done (set_nodes l ns).
Definition destroy_at (l : flist) (i : nat) : exec flist :=
  n ← load (nodes_ l) i;
  match value n with
  | Some _ => ns ← store (nodes_ l) i (mk_node (next n) None); Done (set_nodes l ns)
  | None => Undefined
  end.

Definition allocate_node (l : flist) : exec (option nat * flist) :=
  match free_head_ l with
  | None => Done (None, l)
  | Some result =>
      nx ← get_next l (At result);
      l ← set_next (set_free l nx) (At result) None;
      Done (Some result, l)
  end.

Definition release_node (l : flist) (item : nat) : exec flist :=
  l ← destroy_at l item;
  l ← set_next l (At item) (free_head_ l);
  let l := set_free l (Some item) in
  Done (if (0 <? size_ l)%nat then set_size l (size_ l - 1) else l).

Definition initialise_pool (l : flist) : exec flist :=
  l ← for_to 0 N (fun j l =>
        let i := N - j in
        l ← set_next l (At (i - 1)) (free_head_ l); Done (set_free l (Some (i - 1)%nat)))
        (set_free l None);
  Done (set_head (set_before l None) None).

Definition forward_list : exec flist :=
  initialise_pool (mk_flist (replicate N (mk_node None None)) None 0 None None).

Definition size (l : flist) : nat := size_ l.
Definition available (l : flist) : nat := N - size_ l.
Definition empty (l : flist) : bool := (size_ l =? 0)%nat.
Definition full (l : flist) : bool := (size_ l =? N)%nat.

(** Iterators are null or a [node_base]. *)
Definition iterator : Type := option nref.
Definition to_node (p : option nat) : iterator := match p with Some i => Some (At i) | None => None end.
Definition begin (l : flist) : iterator := to_node (head_ l).
Definition before_begin : iterator := Some Before.
Definition incr (l : flist) (it : iterator) : exec iterator :=
  match it with None => Done None | Some p => nx ← get_next l p; Done (to_node nx) end.
Definition deref (l : flist) (it : iterator) : exec T :=
  match it with Some (At i) => get_value l i | _ => Undefined end.
Definition front (l : flist) : exec T := deref l (begin l).

Definition emplace_after (l : flist) (position : iterator) (v : T) : exec (status * flist) :=
  match position with
  | None => Done (s_out_of_range, l)
  | Some p =>
      '(item, l) ← allocate_node l;
      match item with
      | None => Done (s_full, l)
      | Some item =>
          l ← construct_at l item v;
          nx ← get_next l p;
          l ← set_next l (At item) nx;
          l ← set_next l p (Some item);
          let l := match p with Before => set_head l (Some item) | At _ => l end in
          Done (s_ok, set_size l (size_ l + 1))
      end
  end.
Definition push_front (l : flist) (v : T) : exec (status * flist) := emplace_after l before_begin v.

Definition pop_front (l : flist) : exec (status * flist) :=
  match head_ l with
  | None => Done (s_empty, l)
  | Some item =>
      nx ← get_next l (At item);
      let l := set_head l nx in
      let l := set_before l (head_ l) in
      l ← release_node l item;
      Done (s_ok, l)
  end.

Definition erase_after (l : flist) (position : iterator) : exec (iterator * flist) :=
  match position with
  | None => Done (None, l)
  | Some p =>
      victim ← get_next l p;
      match victim with
      | None => Done (None, l)
      | Some victim =>
          nx ← get_next l (At victim);
          l ← set_next l p nx;
          let l := if bool_decide (head_ l = Some victim) then set_head l nx else l in
          nx ← get_next l (At victim);
          l ← release_node l victim;
          Done (to_node nx, l)
      end
  end.

(** A [const T&] argument: some other object, or an element of this list. *)
Inductive cref : Type := Val (v : T) | Elem (i : nat).
Definition read (l : flist) (r : cref) : exec T :=
  match r with Val v => Done v | Elem i => get_value l i end.

Definition remove_body (r : cref) (st : flist * nref * option nat) : exec (ctl Empty_set (flist * nref * option nat)) :=
  let '(l, previous, current) := st in
  match current with
  | None => Undefined
  | Some item =>
      x ← get_value l item;
      v ← read l r;
      nx ← get_next l (At item);
      if bool_decide (x = v) then
        l ← set_next l previous nx;
        let l := if bool_decide (head_ l = Some item) then set_head l nx else l in
        l ← release_node l item;
        Done (Next (l, previous, nx))
      else Done (Next (l, At item, nx))
  end.
(** The state a loop without an early exit ends in. *)
Definition finished {A} (c : ctl Empty_set A) : A := match c with Next s => s | Return e => match e with end end.
Definition has_current {A B} (st : A * B * option nat) : exec bool := Done (bool_decide (st.2 <> None)).
Definition remove (l : flist) (r : cref) : exec (status * flist) :=
  current ← get_next l Before;
  st ← while_loop (S N) has_current (remove_body r) (l, Before, current);
  let '(l, _, _) := finished st in Done (s_ok, l).

Definition reverse_body (st : flist * option nat * option nat) : exec (ctl Empty_set (flist * option nat * option nat)) :=
  let '(l, previous, current) := st in
  match current with
  | None => Undefined
  | Some c => nx ← get_next l (At c); l ← set_next l (At c) previous; Done (Next (l, Some c, nx))
  end.
Definition reverse (l : flist) : exec flist :=
  st ← while_loop (S N) has_current reverse_body (l, None, head_ l);
  let '(l, previous, _) := finished st in Done (set_before (set_head l previous) previous).

Definition clear_body (st : flist * unit * option nat) : exec (ctl Empty_set (flist * unit * option nat)) :=
  let '(l, _, current) := st in
  match current with
  | None => Undefined
  | Some item => nx ← get_next l (At item); l ← release_node l item; Done (Next (l, tt, nx))
  end.
Definition clear (l : flist) : exec flist :=
  st ← while_loop (S N) has_current clear_body (l, tt, head_ l);
  let '(l, _, _) := finished st in Done (set_before (set_head l None) None).

Definition find_body (l : flist) (r : cref) (it : iterator) : exec (ctl iterator iterator) :=
  x ← deref l it; v ← read l r;
  if bool_decide (x = v) then Done (Return it) else nx ← incr l it; Done (Next nx).
Definition find (l : flist) (r : cref) : exec iterator :=
  st ← while_loop (S N) (fun it => Done (match it with None => false | Some _ => true end)) (find_body l r) (begin l);
  match st with Return it => Done it | Next _ => Done None end.

(** ** Segments of linked nodes *)

Fixpoint seg (ns : list node) (s : option nat) (ids : list nat) (vs : list (option T)) (e : option nat) : Prop :=
  match ids, vs with
  | [], [] => s = e
  | i :: ids, v :: vs => s = Some i /\ exists nx, ns !! i = Some (mk_node nx v) /\ seg ns nx ids vs e
  | _, _ => False
  end.

Lemma seg_length ns s ids vs e : seg ns s ids vs e -> length ids = length vs.
Proof.
  revert s vs. induction ids as [|i ids IH]; intros s [|v vs] H; cbn in *; try done.
  destruct H as (_ & nx & _ & H). by rewrite (IH _ _ H).
Qed.

(** Nodes that are not on it do not matter to a segment. *)
Lemma seg_frame ns s ids vs e j n : j ∉ ids -> seg ns s ids vs e -> seg (<[j := n]> ns) s ids vs e.
Proof.
  revert s vs. induction ids as [|i ids IH]; intros s [|v vs] Hj H; cbn in *; try done.
  apply not_elem_of_cons in Hj as [Hne Hj]. destruct H as (-> & nx & Hi & H). split; [done|].
  exists nx. rewrite list_lookup_insert_ne by done. split; [done|]. by apply IH.
Qed.

Lemma seg_app ns s a b va vb e :
  length a = length va ->
  seg ns s (a ++ b) (va ++ vb) e <-> exists m, seg ns s a va m /\ seg ns m b vb e.
Proof.
  revert s va. induction a as [|i a IH]; intros s [|v va] Hl; cbn in *; try done.
  - split; [intros H; by exists s|]. by intros (m & -> & H).
  - split.
    + intros (-> & nx & Hi & H). apply IH in H as (m & Ha & Hb); [|lia]. exists m. split; [|done]. split; [done|]. by exists nx.
    + intros (m & (-> & nx & Hi & Ha) & Hb). split; [done|]. exists nx. split; [done|]. apply IH; [lia|]. by exists m.
Qed.

Lemma seg_lookup ns s ids vs e k i :
  seg ns s ids vs e -> ids !! k = Some i -> exists nx v, vs !! k = Some v /\ ns !! i = Some (mk_node nx v)
    /\ seg ns nx (drop (S k) ids) (drop (S k) vs) e /\ seg ns s (take k ids) (take k vs) (Some i).
Proof.
  revert s vs k. induction ids as [|j ids IH]; intros s [|v vs] k H Hk; cbn in *; try done.
  destruct H as (-> & nx & Hj & H). destruct k as [|k]; cbn in *.
  - injection Hk as ->. exists nx, v. by rewrite !drop_0.
  - destruct (IH _ _ _ H Hk) as (nx' & v' & Hv & Hi & Hd & Ht). exists nx', v'. split_and!; try done. by exists nx.
Qed.

(** ** The representation *)

(** [l] holds the elements [xs] in the nodes [ids]; the nodes [fs] are free. *)
Definition rep_free (l : flist) (ids fs : list nat) (xs : list T) : Prop :=
  seg (nodes_ l) (before_next l) ids (Some <$> xs) None
  /\ seg (nodes_ l) (free_head_ l) fs (replicate (length fs) None) None
  /\ head_ l = before_next l /\ size_ l = length xs
  /\ NoDup (ids ++ fs) /\ length (nodes_ l) = N /\ (length ids + length fs = N)%nat.
Definition rep (l : flist) (ids : list nat) (xs : list T) : Prop := exists fs, rep_free l ids fs xs.

Lemma rep_lengths l ids xs : rep l ids xs -> length ids = length xs /\ (length xs <= N)%nat /\ size_ l = length xs.
Proof.
  intros (fs & Hs & _ & _ & Hz & _ & _ & Hn). apply seg_length in Hs. rewrite length_fmap in Hs. split_and!; [done|lia|done].
Qed.

(** A node of a segment, for reading and for writing its link. *)
Lemma get_next_at l i n : nodes_ l !! i = Some n -> get_next l (At i) = Done (next n).
Proof. intros H. cbn. by rewrite (load_Done _ _ _ H). Qed.

Lemma set_next_at l i n v : nodes_ l !! i = Some n ->
  set_next l (At i) v = Done (set_nodes l (<[i := mk_node v (value n)]> (nodes_ l))).
Proof. intros H. cbn. rewrite (load_Done _ _ _ H). exec_simpl. by rewrite store_Done by (by eapply lookup_lt_Some). Qed.

Lemma release_at l i nx v :
  nodes_ l !! i = Some (mk_node nx (Some v)) ->
  release_node l i = Done (mk_flist (<[i := mk_node (free_head_ l) None]> (nodes_ l)) (head_ l) (size_ l - 1) (Some i) (before_next l)).
Proof.
  intros H. apply lookup_lt_Some in H as Hlt. unfold release_node, destroy_at. rewrite (load_Done _ _ _ H). exec_simpl.
  cbn [value next]. rewrite store_Done by done. exec_simpl.
  erewrite set_next_at by (cbn; by apply list_lookup_insert_eq). exec_simpl.
  cbn [free_head_ set_nodes set_free nodes_ value size_ head_ before_next]. rewrite list_insert_insert_eq.
  destruct l as [ns h [|n] f b]; cbn; [done|]. by rewrite Nat.sub_0_r.
Qed.

Lemma allocate_at l r nxf :
  free_head_ l = Some r -> nodes_ l !! r = Some (mk_node nxf None) ->
  allocate_node l = Done (Some r, mk_flist (<[r := mk_node None None]> (nodes_ l)) (head_ l) (size_ l) nxf (before_next l)).
Proof.
  intros Hf Hr. unfold allocate_node. rewrite Hf, (get_next_at _ _ _ Hr). exec_simpl.
  by rewrite (set_next_at (set_free l nxf) r (mk_node nxf None)).
Qed.

Lemma construct_ok l i n v : nodes_ l !! i = Some n ->
  construct_at l i v = Done (set_nodes l (<[i := mk_node (next n) (Some v)]> (nodes_ l))).
Proof. intros H. unfold construct_at. rewrite (load_Done _ _ _ H). exec_simpl. by rewrite store_Done by (by eapply lookup_lt_Some). Qed.

(** The iterator in front of the [k]-th element. *)
Definition before_at (ids : list nat) (k : nat) : iterator :=
  match k with O => Some Before | S k => to_node (ids !! k) end.

Lemma seg_head ns s ids vs : seg ns s ids vs None -> s = head ids.
Proof. destruct ids, vs; cbn; try done. by intros [-> _]. Qed.

Lemma seg_drop ns s ids vs k : seg ns s ids vs None -> exists s', s' = ids !! k /\ seg ns s' (drop k ids) (drop k vs) None.
Proof.
  intros H. pose proof (seg_length _ _ _ _ _ H) as Hl. rewrite <-(take_drop k ids), <-(take_drop k vs) in H.
  apply seg_app in H as (m & _ & H); [|rewrite !length_take; lia]. exists m. split; [|done].
  rewrite (seg_head _ _ _ _ H), head_lookup, lookup_drop. by rewrite Nat.add_0_r.
Qed.

Lemma get_next_before l ids vs k p :
  seg (nodes_ l) (before_next l) ids vs None -> before_at ids k = Some p -> get_next l p = Done (ids !! k).
Proof.
  intros H Hp. destruct k as [|k]; cbn in Hp.
  - injection Hp as <-. cbn. by rewrite (seg_head _ _ _ _ H), head_lookup.
  - destruct (ids !! k) as [i|] eqn:Hi; [|done]. injection Hp as <-.
    destruct (seg_lookup _ _ _ _ _ _ _ H Hi) as (nx & v & _ & Hn & Hd & _). rewrite (get_next_at _ _ _ Hn). cbn.
    by rewrite (seg_head _ _ _ _ Hd), head_lookup, lookup_drop, Nat.add_0_r.
Qed.

(** Changing the link behind position [k]: the list continues with another segment. *)
Lemma splice l ids vs k p v ids' vs' :
  seg (nodes_ l) (before_next l) ids vs None -> NoDup ids -> before_at ids k = Some p ->
  seg (nodes_ l) v ids' vs' None -> (forall i, p = At i -> i ∉ ids') ->
  exists l', set_next l p v = Done l'
    /\ seg (nodes_ l') (before_next l') (take k ids ++ ids') (take k vs ++ vs') None
    /\ (forall s fs fvs e, (forall i, p = At i -> i ∉ fs) -> seg (nodes_ l) s fs fvs e -> seg (nodes_ l') s fs fvs e)
    /\ head_ l' = head_ l /\ size_ l' = size_ l /\ free_head_ l' = free_head_ l /\ length (nodes_ l') = length (nodes_ l).
Proof.
  intros H Hnd Hp Hv Hi'. destruct k as [|k]; cbn in Hp.
  { injection Hp as <-. eexists. split; [done|]. cbn. by rewrite take_0. }
  destruct (ids !! k) as [i|] eqn:Hi; [|done]. injection Hp as <-.
  destruct (seg_lookup _ _ _ _ _ _ _ H Hi) as (nx & x & Hx & Hn & Hd & Ht).
  rewrite (set_next_at _ _ _ _ Hn). eexists. split; [done|]. cbn [nodes_ set_nodes before_next head_ size_ free_head_ value].
  rewrite length_insert. split; [|split; [|done]].
  - rewrite (take_S_r _ _ _ Hi), (take_S_r _ _ _ Hx), <-!app_assoc.
    apply seg_app; [rewrite !length_take; apply seg_length in H; lia|]. exists (Some i). split.
    + apply seg_frame; [|done]. intros Hin. apply elem_of_take in Hin as (j & Hj & Hlt).
      pose proof (NoDup_lookup _ _ _ _ Hnd Hi Hj). lia.
    + cbn. split; [done|]. exists v. split; [apply list_lookup_insert_eq; by eapply lookup_lt_Some|].
      apply seg_frame; [by apply Hi'|done].
  - intros s fs fvs e Hfs Hs. apply seg_frame; [by apply Hfs|done].
Qed.

Lemma before_at_in ids k i : before_at ids k = Some (At i) -> i ∈ ids.
Proof.
  destruct k as [|k]; cbn; [done|]. destruct (ids !! k) as [j|] eqn:E; cbn; [|done]. intros [= <-]. by eapply list_elem_of_lookup_2.
Qed.

Lemma before_at_drop ids k i : NoDup ids -> before_at ids k = Some (At i) -> i ∉ drop k ids.
Proof.
  intros Hnd. destruct k as [|k]; cbn; [done|]. destruct (ids !! k) as [j|] eqn:E; cbn; [|done]. intros [= <-] Hin.
  apply list_elem_of_lookup_1 in Hin as [n Hn]. rewrite lookup_drop in Hn. pose proof (NoDup_lookup _ _ _ _ Hnd E Hn). lia.
Qed.

(** ** Operations *)

Lemma emplace_ok l ids xs k p v :
  rep l ids xs -> (k <= length xs)%nat -> before_at ids k = Some p ->
  if (length xs <? N)%nat
  then exists l' i, emplace_after l (Some p) v = Done (s_ok, l') /\ i ∉ ids
         /\ rep l' (take k ids ++ i :: drop k ids) (take k xs ++ v :: drop k xs)
  else emplace_after l (Some p) v = Done (s_full, l).
Proof.
  intros (fs & Hs & Hf & Hh & Hz & Hnd & Hl & Hn) Hk Hp. pose proof (seg_length _ _ _ _ _ Hs) as Hlx. rewrite length_fmap in Hlx.
  unfold emplace_after. destruct (Nat.ltb_spec (length xs) N) as [Hlt|Hge].
  2:{ destruct fs; [|cbn in Hn; lia]. cbn in Hf. unfold allocate_node. by rewrite Hf. }
  destruct fs as [|r fs]; [cbn in Hn; lia|]. cbn in Hf. destruct Hf as (Hfh & nxf & Hr & Hf).
  rewrite (allocate_at l r nxf Hfh Hr). exec_simpl.
  apply lookup_lt_Some in Hr as Hrl. apply NoDup_app in Hnd as (Hndi & Hdis & Hndf). apply NoDup_cons in Hndf as [Hrf Hndf].
  assert (Hri : r ∉ ids) by (intros Hin; apply (Hdis r Hin); left).
  rewrite (construct_ok _ r (mk_node None None)) by (by apply list_lookup_insert_eq). exec_simpl.
  unfold set_nodes. cbn [nodes_ next head_ size_ free_head_ before_next]. rewrite list_insert_insert_eq.
  set (l1 := mk_flist (<[r := mk_node None (Some v)]> (nodes_ l)) (head_ l) (size_ l) nxf (before_next l)).
  assert (Hs1 : seg (nodes_ l1) (before_next l1) ids (Some <$> xs) None) by (by apply seg_frame).
  rewrite (get_next_before l1 ids _ k p Hs1 Hp). exec_simpl.
  rewrite (set_next_at l1 r (mk_node None (Some v))) by (by apply list_lookup_insert_eq). exec_simpl.
  unfold set_nodes. cbn [value nodes_ l1 head_ size_ free_head_ before_next]. rewrite list_insert_insert_eq.
  set (l2 := mk_flist (<[r := mk_node (ids !! k) (Some v)]> (nodes_ l)) (head_ l) (size_ l) nxf (before_next l)).
  assert (Hs2 : seg (nodes_ l2) (before_next l2) ids (Some <$> xs) None) by (by apply seg_frame).
  destruct (seg_drop _ _ _ _ k Hs2) as (s' & -> & Hd).
  destruct (splice l2 ids (Some <$> xs) k p (Some r) (r :: drop k ids) (Some v :: drop k (Some <$> xs)) Hs2 Hndi Hp)
    as (l3 & -> & Hs3 & Hfr & Hh3 & Hz3 & Hf3 & Hl3).
  { cbn. split; [done|]. exists (ids !! k). split; [by apply list_lookup_insert_eq|done]. }
  { intros i ->. apply not_elem_of_cons. split; [|by apply before_at_drop]. intros ->. apply Hri. by eapply before_at_in. }
  exec_simpl.
  set (l4 := match p with Before => _ | At _ => _ end). eexists (set_size l4 (size_ l4 + 1)), r. split; [done|]. split; [done|].
  assert (E4 : nodes_ l4 = nodes_ l3 /\ before_next l4 = before_next l3 /\ free_head_ l4 = free_head_ l3 /\ size_ l4 = size_ l3)
    by (unfold l4; destruct p; done).
  destruct E4 as (En & Eb & Ef & Es). exists fs. unfold rep_free. cbn [set_size nodes_ before_next free_head_ head_ size_].
  rewrite En, Eb, Ef, Es, Hf3, Hz3, Hl3. split_and!.
  - by rewrite fmap_app, fmap_cons, fmap_take, fmap_drop.
  - apply Hfr.
    + intros i ->. apply before_at_in in Hp. intros Hin. apply (Hdis i Hp). by right.
    + cbn. by apply seg_frame.
  - unfold l4. destruct p as [|i].
    + cbn. destruct k; [|cbn in Hp; by destruct (ids !! k)]. apply seg_head in Hs3. by rewrite Hs3.
    + rewrite Hh3. cbn [l2 head_]. destruct k as [|k]; [done|]. apply seg_head in Hs3. rewrite Hs3, Hh, (seg_head _ _ _ _ Hs).
      destruct ids as [|i0 ids]; [done|]. done.
  - cbn [l2 size_]. rewrite Hz, length_app, length_take. cbn. rewrite length_drop. lia.
  - rewrite <-app_assoc. cbn.
    rewrite (Permutation_middle (drop k ids) fs r) at 1. rewrite app_assoc, take_drop. apply NoDup_app. split_and!; [done|done|].
    by apply NoDup_cons.
  - cbn. by rewrite length_insert.
  - rewrite length_app. cbn in *. rewrite length_take, length_drop. lia.
Qed.

(** Taking the [k]-th node out of the list, as [erase_after] and [remove] do. *)
Lemma unlink_ok l ids xs k p i :
  rep l ids xs -> before_at ids k = Some p -> ids !! k = Some i ->
  exists l1, get_next l (At i) = Done (ids !! S k) /\ set_next l p (ids !! S k) = Done l1
    /\ let l2 := if bool_decide (head_ l1 = Some i) then set_head l1 (ids !! S k) else l1 in
       get_next l2 (At i) = Done (ids !! S k)
       /\ exists l3, release_node l2 i = Done l3 /\ rep l3 (delete k ids) (delete k xs).
Proof.
  intros (fs & Hs & Hf & Hh & Hz & Hnd & Hl & Hn) Hp Hi.
  destruct (seg_lookup _ _ _ _ _ _ _ Hs Hi) as (nx & v & Hv & Hni & Hd & _).
  assert (Enx : nx = ids !! S k) by (by rewrite (seg_head _ _ _ _ Hd), head_lookup, lookup_drop, Nat.add_0_r).
  rewrite list_lookup_fmap in Hv. apply fmap_Some in Hv as (x & Hx & ->).
  apply NoDup_app in Hnd as (Hndi & Hdis & Hndf).
  assert (Hpi : forall j, p = At j -> j <> i).
  { intros j -> ->. apply (before_at_drop ids k i Hndi Hp). apply list_elem_of_lookup. exists 0%nat. by rewrite lookup_drop, Nat.add_0_r. }
  assert (Hid : i ∉ take k ids ++ drop (S k) ids).
  { rewrite <-delete_take_drop. intros Hin. pose proof (delete_Permutation _ _ _ Hi) as HP. rewrite HP in Hndi. by apply NoDup_cons in Hndi as [? _]. }
  assert (Hif : i ∉ fs) by (apply Hdis; by eapply list_elem_of_lookup_2).
  destruct (splice l ids (Some <$> xs) k p nx (drop (S k) ids) (drop (S k) (Some <$> xs)) Hs Hndi Hp Hd) as (l1 & E1 & Hs1 & Hfr & Hh1 & Hz1 & Hf1 & Hl1).
  { intros j ->. intros Hin. apply (before_at_drop ids k j Hndi Hp). rewrite (drop_S _ _ _ Hi). by right. }
  assert (Hni1 : nodes_ l1 !! i = Some (mk_node nx (Some x))).
  { destruct (Hfr (Some i) [i] [Some x] nx) as (_ & nx' & Hni' & E); [|cbn; split; [done|by exists nx]|by cbn in E; subst].
    intros j Hj. apply not_elem_of_cons. split; [by apply Hpi|apply not_elem_of_nil]. }
  exists l1. rewrite <-Enx. split; [by rewrite (get_next_at _ _ _ Hni)|]. split; [done|]. cbn zeta.
  set (l2 := if bool_decide _ then _ else _).
  assert (E2 : nodes_ l2 = nodes_ l1 /\ before_next l2 = before_next l1 /\ free_head_ l2 = free_head_ l1 /\ size_ l2 = size_ l1)
    by (unfold l2; case_bool_decide; done).
  destruct E2 as (En & Eb & Ef & Es).
  assert (Hhead : head_ l2 = before_next l1).
  { unfold l2. rewrite Hh1, Hh, (seg_head _ _ _ _ Hs). rewrite (seg_head _ _ _ _ Hs1). destruct k as [|k].
    - rewrite head_lookup, Hi, bool_decide_true by done. cbn. by rewrite take_0, (seg_head _ _ _ _ Hd).
    - destruct ids as [|i0 ids]; [done|]. cbn. rewrite bool_decide_false; [by rewrite Hh1, Hh, (seg_head _ _ _ _ Hs)|].
      intros [= ->]. cbn in Hi. apply NoDup_cons in Hndi as [Hni0 _]. apply Hni0. by eapply list_elem_of_lookup_2. }
  split; [by rewrite (get_next_at _ i _ ltac:(rewrite En; exact Hni1))|].
  rewrite (release_at l2 i nx x) by (by rewrite En). eexists. split; [done|]. exists (i :: fs).
  unfold rep_free. cbn [nodes_ before_next free_head_ head_ size_]. rewrite En, Eb, Ef, Es, Hz1, Hz, Hf1, !delete_take_drop.
  rewrite length_insert, Hl1. apply lookup_lt_Some in Hx as Hxl, Hi as Hil. split_and!.
  - rewrite fmap_app, fmap_take, fmap_drop. by apply seg_frame.
  - cbn. split; [done|]. exists (free_head_ l). split; [apply list_lookup_insert_eq; by eapply lookup_lt_Some|].
    apply seg_frame; [done|]. apply Hfr; [|done]. intros j -> Hin. apply before_at_in in Hp. by apply (Hdis j).
  - done.
  - rewrite length_app, length_take, length_drop. lia.
  - rewrite <-Permutation_middle, app_comm_cons, <-delete_take_drop, <-(delete_Permutation _ _ _ Hi).
    by apply NoDup_app.
  - done.
  - rewrite length_app, length_take, length_drop. cbn. lia.
Qed.

Lemma erase_ok l ids xs k p :
  rep l ids xs -> before_at ids k = Some p ->
  match ids !! k with
  | None => erase_after l (Some p) = Done (None, l)
  | Some _ => exists l', erase_after l (Some p) = Done (to_node (delete k ids !! k), l') /\ rep l' (delete k ids) (delete k xs)
  end.
Proof.
  intros Hr Hp. pose proof Hr as (fs & Hs & _). unfold erase_after. rewrite (get_next_before _ _ _ _ _ Hs Hp). exec_simpl.
  destruct (ids !! k) as [i|] eqn:Hi; [|done].
  destruct (unlink_ok l ids xs k p i Hr Hp Hi) as (l1 & -> & E1 & E2 & l3 & E3 & Hr3). exec_simpl. rewrite E1. exec_simpl.
  rewrite E2. exec_simpl. rewrite E3. exec_simpl. exists l3. split; [|done]. by rewrite list_lookup_delete_ge.
Qed.

Lemma pop_ok l ids xs :
  rep l ids xs ->
  match xs with
  | [] => pop_front l = Done (s_empty, l)
  | _ :: xs' => exists l', pop_front l = Done (s_ok, l') /\ rep l' (tail ids) xs'
  end.
Proof.
  intros Hr. pose proof Hr as (fs & Hs & _ & Hh & _). pose proof (seg_length _ _ _ _ _ Hs) as Hl. rewrite length_fmap in Hl.
  unfold pop_front. rewrite Hh, (seg_head _ _ _ _ Hs). destruct ids as [|i ids], xs as [|x xs]; try done.
  cbn [head]. destruct (unlink_ok l (i :: ids) (x :: xs) 0 Before i Hr eq_refl eq_refl) as (l1 & -> & E1 & _ & l3 & E3 & Hr3).
  exec_simpl. cbn in E1. injection E1 as <-. exists l3. split; [|done]. cbn [lookup list_lookup] in *.
  cbn [set_before head_] in E3. rewrite Hh, (seg_head _ _ _ _ Hs) in E3. cbn [head] in E3. rewrite bool_decide_true in E3 by done.
  match type of E3 with ?x = _ => match goal with |- mbind _ ?y = _ => change y with x end end. by rewrite E3.
Qed.

Definition keeps (v : T) (p : nat * T) : Prop := p.2 <> v.
#[local] Instance keeps_dec v p : Decision (keeps v p).
Proof. unfold keeps. apply _. Defined.

Lemma before_at_S ids k i : ids !! k = Some i -> before_at ids (S k) = Some (At i).
Proof. intros H. cbn. by rewrite H. Qed.

Lemma before_at_delete ids k n : before_at ids k = before_at (take k ids ++ n) k \/ before_at ids k = None.
Proof.
  destruct k as [|k]; [by left|]. cbn [before_at]. destruct (ids !! k) as [i|] eqn:E; [left|by right].
  apply lookup_lt_Some in E as Hl. rewrite lookup_app_l by (rewrite length_take; lia). by rewrite lookup_take_lt, E by lia.
Qed.

Lemma remove_loop v l ids xs k p fuel :
  rep l ids xs -> before_at ids k = Some p -> (length xs - k < fuel)%nat ->
  exists l' p', while_loop fuel has_current (remove_body (Val v)) (l, p, ids !! k) = Done (Next (l', p', None))
    /\ let kept := filter (keeps v) (zip (drop k ids) (drop k xs)) in
       rep l' (take k ids ++ kept.*1) (take k xs ++ kept.*2).
Proof.
  revert l ids xs k p. induction fuel as [|fuel IH]; intros l ids xs k p Hr Hp Hf; [lia|]. cbn [while_loop has_current snd].
  destruct (rep_lengths l ids xs Hr) as (Hl & _). destruct (ids !! k) as [i|] eqn:Hi.
  2:{ rewrite bool_decide_false by tauto. exists l, p. split; [done|]. apply lookup_ge_None in Hi.
      rewrite !drop_ge, !take_ge by lia. cbn. by rewrite !app_nil_r. }
  rewrite bool_decide_true by done. apply lookup_lt_Some in Hi as Hil.
  destruct (lookup_lt_is_Some_2 xs k) as [x Hx]; [lia|].
  rewrite (drop_S _ _ _ Hi), (drop_S _ _ _ Hx). cbn [zip zip_with filter list_filter].
  pose proof Hr as (fs & Hs & _). destruct (seg_lookup _ _ _ _ _ _ _ Hs Hi) as (nx & w & Hw & Hn & _).
  rewrite list_lookup_fmap, Hx in Hw. injection Hw as <-.
  destruct (unlink_ok l ids xs k p i Hr Hp Hi) as (l1 & En & E1 & _ & l3 & E3 & Hr3).
  unfold remove_body at 1. unfold get_value. rewrite (load_Done _ _ _ Hn). exec_simpl. cbn [value read]. exec_simpl. rewrite En. exec_simpl.
  destruct (decide (x = v)) as [->|Hne].
  - rewrite bool_decide_true by done. rewrite E1. exec_simpl. rewrite E3. exec_simpl.
    assert (Hk : (k < length xs)%nat) by lia. rewrite !delete_take_drop in Hr3.
    replace (ids !! S k) with ((take k ids ++ drop (S k) ids) !! k)
      by (rewrite lookup_app_r by (rewrite length_take; lia); rewrite length_take, Nat.min_l, Nat.sub_diag, lookup_drop by lia; by rewrite Nat.add_0_r).
    destruct (IH l3 _ _ k p Hr3) as (l' & p' & -> & Hr').
    + destruct (before_at_delete ids k (drop (S k) ids)) as [<-|]; congruence.
    + rewrite length_app, length_take, length_drop. lia.
    + exists l', p'. split; [done|]. cbn zeta in *. rewrite decide_False by (unfold keeps; cbn; tauto).
      rewrite !drop_app_length', !take_app_length' in Hr' by (rewrite length_take; lia). done.
  - rewrite bool_decide_false by done. destruct (IH l ids xs (S k) (At i) Hr (before_at_S _ _ _ Hi)) as (l' & p' & -> & Hr'); [lia|].
    exists l', p'. split; [done|]. cbn zeta in *. rewrite decide_True by done. cbn [fmap list_fmap].
    by rewrite (take_S_r _ _ _ Hi), (take_S_r _ _ _ Hx), <-!app_assoc in Hr'.
Qed.

Lemma remove_ok l ids xs v :
  rep l ids xs -> exists l', remove l (Val v) = Done (s_ok, l')
    /\ rep l' (filter (keeps v) (zip ids xs)).*1 (filter (keeps v) (zip ids xs)).*2.
Proof.
  intros Hr. pose proof Hr as (fs & Hs & _). destruct (rep_lengths l ids xs Hr) as (_ & HN & _).
  unfold remove. rewrite (get_next_before l ids _ 0 Before Hs eq_refl). exec_simpl.
  destruct (remove_loop v l ids xs 0 Before (S N) Hr eq_refl) as (l' & p' & -> & Hr'); [lia|]. exec_simpl. exists l'. done.
Qed.

Lemma reverse_loop l prev cur a b va vb fs fuel :
  seg (nodes_ l) prev a va None -> seg (nodes_ l) cur b vb None -> seg (nodes_ l) (free_head_ l) fs (replicate (length fs) None) None ->
  NoDup (a ++ b ++ fs) -> (length b < fuel)%nat ->
  exists ns prev', while_loop fuel has_current reverse_body (l, prev, cur) = Done (Next (set_nodes l ns, prev', None))
    /\ seg ns prev' (list.reverse b ++ a) (list.reverse vb ++ va) None
    /\ seg ns (free_head_ l) fs (replicate (length fs) None) None /\ length ns = length (nodes_ l).
Proof.
  revert l prev cur a b va vb. induction fuel as [|fuel IH]; intros l prev cur a b va vb Ha Hb Hf Hnd Hfu; [lia|].
  cbn [while_loop has_current snd]. destruct b as [|i b], vb as [|v vb]; try done; cbn in Hb.
  { subst cur. rewrite bool_decide_false by tauto. exists (nodes_ l), prev. by destruct l. }
  destruct Hb as (-> & nx & Hi & Hb). rewrite bool_decide_true by done. unfold reverse_body at 1.
  rewrite (get_next_at _ _ _ Hi). exec_simpl. rewrite (set_next_at _ _ _ _ Hi). exec_simpl. cbn [value next].
  apply NoDup_app in Hnd as (Hna & Hdis & Hnd). apply NoDup_cons in Hnd as [Hib Hnd].
  assert (Hia : i ∉ a) by (intros Hin; apply (Hdis i Hin); left). apply not_elem_of_app in Hib as [Hib Hif].
  destruct (IH (set_nodes l (<[i := mk_node prev v]> (nodes_ l))) (Some i) nx (i :: a) b (v :: va) vb) as (ns & prev' & -> & Hs & Hf' & Hl).
  - cbn. split; [done|]. exists prev. split; [apply list_lookup_insert_eq; by eapply lookup_lt_Some|]. by apply seg_frame.
  - by apply seg_frame.
  - by apply seg_frame.
  - cbn. apply NoDup_cons. split; [by rewrite !not_elem_of_app|]. apply NoDup_app. split_and!; [done| |done].
    intros j Hj. specialize (Hdis j Hj). apply not_elem_of_cons in Hdis. tauto.
  - cbn in Hfu. lia.
  - exists ns, prev'. split; [done|]. rewrite !reverse_cons, <-!app_assoc. split_and!; [done|done|]. cbn in Hl. by rewrite length_insert in Hl.
Qed.

Lemma reverse_ok l ids xs : rep l ids xs -> exists l', reverse l = Done l' /\ rep l' (list.reverse ids) (list.reverse xs).
Proof.
  intros Hr. destruct (rep_lengths l ids xs Hr) as (Hl & HN & _). destruct Hr as (fs & Hs & Hf & Hh & Hz & Hnd & Hln & Hn).
  destruct (reverse_loop l None (head_ l) [] ids [] (Some <$> xs) fs (S N)) as (ns & prev' & E & Hs' & Hf' & Hl');
    [done|by rewrite Hh|done|done|lia|].
  unfold reverse. rewrite E. exec_simpl. eexists. split; [done|]. exists fs. rewrite !app_nil_r in Hs'.
  unfold rep_free. cbn. rewrite fmap_reverse, !length_reverse. split_and!; try done.
  - by rewrite reverse_Permutation.
  - congruence.
Qed.

Lemma clear_loop l cur ids xs fs fuel :
  seg (nodes_ l) cur ids (Some <$> xs) None -> seg (nodes_ l) (free_head_ l) fs (replicate (length fs) None) None ->
  NoDup (ids ++ fs) -> (length ids < fuel)%nat ->
  exists l', while_loop fuel has_current clear_body (l, tt, cur) = Done (Next (l', tt, None))
    /\ seg (nodes_ l') (free_head_ l') (list.reverse ids ++ fs) (replicate (length (list.reverse ids ++ fs)) None) None
    /\ size_ l' = (size_ l - length ids)%nat /\ length (nodes_ l') = length (nodes_ l).
Proof.
  revert l cur ids xs fs. induction fuel as [|fuel IH]; intros l cur ids xs fs Hs Hf Hnd Hfu; [lia|].
  cbn [while_loop has_current snd]. destruct ids as [|i ids], xs as [|x xs]; try done; cbn in Hs.
  { subst cur. rewrite bool_decide_false by tauto. exists l. cbn. by rewrite Nat.sub_0_r. }
  destruct Hs as (-> & nx & Hi & Hs). rewrite bool_decide_true by done. unfold clear_body at 1.
  rewrite (get_next_at _ _ _ Hi). exec_simpl. rewrite (release_at _ _ _ _ Hi). exec_simpl. cbn [next].
  apply NoDup_app in Hnd as (Hni & Hdis & Hnf). apply NoDup_cons in Hni as [Hin Hni].
  assert (Hif : i ∉ fs) by (apply Hdis; left). set (l1 := mk_flist _ _ _ _ _).
  destruct (IH l1 nx ids xs (i :: fs)) as (l' & -> & Hf' & Hz & Hl).
  - by apply seg_frame.
  - cbn. split; [done|]. exists (free_head_ l). split; [apply list_lookup_insert_eq; by eapply lookup_lt_Some|]. by apply seg_frame.
  - apply NoDup_app. split_and!; [done| |by apply NoDup_cons]. intros j Hj. apply not_elem_of_cons.
    split; [by intros ->|apply Hdis; by right].
  - cbn in Hfu. lia.
  - exists l'. rewrite reverse_cons, <-app_assoc. split_and!; [done|done|cbn in *; lia|]. rewrite Hl. cbn. by rewrite length_insert.
Qed.

Lemma list_clear_ok l ids xs : rep l ids xs -> exists l', clear l = Done l' /\ rep l' [] [].
Proof.
  intros Hr. destruct (rep_lengths l ids xs Hr) as (Hl & HN & _). destruct Hr as (fs & Hs & Hf & Hh & Hz & Hnd & Hln & Hn).
  destruct (clear_loop l (head_ l) ids xs fs (S N)) as (l' & E & Hf' & Hz' & Hl'); [by rewrite Hh|done|done|lia|].
  unfold clear. rewrite E. exec_simpl. eexists. split; [done|]. exists (list.reverse ids ++ fs).
  unfold rep_free. cbn. rewrite length_app, length_reverse in *. split_and!; try done; try lia.
  by rewrite reverse_Permutation.
Qed.

Lemma list_find_loop l ids xs r v k fuel :
  rep l ids xs -> read l r = Done v -> (length xs - k < fuel)%nat ->
  exists st, while_loop fuel (fun it => Done (match it with None => false | Some _ => true end)) (find_body l r) (to_node (ids !! k)) = Done st
    /\ match st with Return it => it | Next _ => None end = match list_find (eq v) (drop k xs) with Some (j, _) => to_node (ids !! (k + j)%nat) | None => None end.
Proof.
  intros Hr Hread. destruct (rep_lengths l ids xs Hr) as (Hl & _). destruct Hr as (fs & Hs & _).
  revert k. induction fuel as [|fuel IH]; intros k Hf; [lia|]. cbn [while_loop]. destruct (ids !! k) as [i|] eqn:Hi; cbn [to_node].
  2:{ apply lookup_ge_None in Hi. rewrite drop_ge by lia. by exists (Next None). }
  apply lookup_lt_Some in Hi as Hil. destruct (lookup_lt_is_Some_2 xs k) as [x Hx]; [lia|].
  destruct (seg_lookup _ _ _ _ _ _ _ Hs Hi) as (nx & w & Hw & Hn & Hd & _). rewrite list_lookup_fmap, Hx in Hw. injection Hw as <-.
  unfold find_body at 1. rewrite Hread. cbn [deref]. unfold get_value. rewrite (load_Done _ _ _ Hn). exec_simpl. cbn [value incr]. exec_simpl.
  rewrite (drop_S _ _ _ Hx). cbn [list_find]. destruct (decide (x = v)) as [->|Hne].
  - rewrite bool_decide_true, decide_True by done. exists (Return (Some (At i))). by rewrite Nat.add_0_r, Hi.
  - rewrite bool_decide_false, decide_False by done. rewrite (get_next_at _ _ _ Hn). exec_simpl. cbn [next].
    assert (nx = ids !! S k) as -> by (by rewrite (seg_head _ _ _ _ Hd), head_lookup, lookup_drop, Nat.add_0_r).
    destruct (IH (S k)) as (st & -> & E); [lia|]. exists st. split; [done|]. rewrite E.
    destruct (list_find (eq v) (drop (S k) xs)) as [[j ?]|]; cbn; [|done]. by rewrite <-plus_n_Sm.
Qed.

Lemma find_ok l ids xs r v :
  rep l ids xs -> read l r = Done v ->
  find l r = Done (match list_find (eq v) xs with Some (j, _) => to_node (ids !! j) | None => None end).
Proof.
  intros Hr Hread. destruct (rep_lengths l ids xs Hr) as (_ & HN & _). destruct (list_find_loop l ids xs r v 0 (S N) Hr Hread) as (st & E & Es); [lia|].
  destruct Hr as (fs & Hs & _ & Hh & _). unfold find, begin. rewrite Hh, (seg_head _ _ _ _ Hs), head_lookup, E. exec_simpl.
  rewrite drop_0 in Es. cbn [Nat.add] in Es. rewrite <-Es. by destruct st.
Qed.

Lemma forward_list_new : exists l, forward_list = Done l /\ rep l [] [].
Proof.
  unfold forward_list, initialise_pool.
  edestruct (for_to_inv (fun j l => length (nodes_ l) = N /\ size_ l = 0%nat /\ (forall i n, nodes_ l !! i = Some n -> value n = None)
      /\ seg (nodes_ l) (free_head_ l) (seq (N - j) j) (replicate j None) None)) as (l & -> & Hl & Hz & _ & Hs).
  - cbn. rewrite length_replicate. split_and!; try done. intros i n Hn. by apply lookup_replicate in Hn as [-> _].
  - intros j l Hj (Hl & Hz & Hv & Hs). cbn zeta.
    destruct (lookup_lt_is_Some_2 (nodes_ l) (N - j - 1)) as [n Hn]; [lia|].
    rewrite (set_next_at _ _ _ _ Hn). exec_simpl. eexists. split; [done|]. cbn [set_nodes set_free nodes_ size_ free_head_].
    rewrite length_insert. split_and!; [done|done|..].
    + intros i n'. destruct (decide (i = N - j - 1)%nat) as [->|Hne].
      * rewrite list_lookup_insert_eq by lia. intros [= <-]. by apply (Hv _ _ Hn).
      * rewrite list_lookup_insert_ne by done. apply Hv.
    + replace (N - S j)%nat with (N - j - 1)%nat by lia. cbn [seq replicate]. cbn. split; [done|]. exists (free_head_ l).
      rewrite list_lookup_insert_eq by lia. split; [by rewrite (Hv _ _ Hn)|].
      replace (S (N - j - 1)) with (N - j)%nat by lia. apply seg_frame; [|done]. rewrite elem_of_seq. lia.
  - exec_simpl. eexists. split; [done|]. exists (seq (N - N) N). cbn in Hs. unfold rep_free. cbn. rewrite length_seq.
    split_and!; try done. apply NoDup_seq.
Qed.

(** [l.remove(l.front())]: the argument is destroyed by the first match and read again. *)
Lemma remove_front_undefined l i ids x y xs :
  rep l (i :: ids) (x :: y :: xs) -> remove l (Elem i) = Undefined.
Proof.
  intros (fs & Hs & _ & Hh & _ & Hnd & Hl & Hn). cbn in Hs. destruct Hs as (Hb & nx & Hi & Hs).
  destruct ids as [|j ids]; [done|]. cbn in Hs. destruct Hs as (-> & nx' & Hj & Hs).
  assert (Hij : i <> j) by (cbn in Hnd; apply NoDup_cons in Hnd as [Hin _]; intros ->; apply Hin; left).
  unfold remove. cbn [get_next]. exec_simpl. rewrite Hb.
  assert (HN : N = S (N - 1)) by (cbn in Hn; lia). rewrite HN. cbn [while_loop has_current snd].
  rewrite bool_decide_true by done. unfold remove_body at 1. cbn [read]. unfold get_value at 1 2. rewrite (load_Done _ _ _ Hi). exec_simpl.
  cbn [value]. exec_simpl. rewrite (get_next_at _ _ _ Hi). exec_simpl. rewrite bool_decide_true by done. cbn [set_next next]. exec_simpl.
  cbn [set_before head_]. rewrite Hh, Hb, bool_decide_true by done.
  erewrite release_at by (cbn; exact Hi). exec_simpl. cbn [nodes_ set_head set_before].
  rewrite bool_decide_true by done. unfold remove_body at 1. cbn [read]. unfold get_value at 1 2. cbn [nodes_].
  rewrite (load_Done _ j (mk_node nx' (Some y))) by (by rewrite list_lookup_insert_ne). exec_simpl. cbn [value]. exec_simpl.
  by erewrite (load_Done _ i) by (apply list_lookup_insert_eq; by eapply lookup_lt_Some).
Qed.
End ForwardList.

(** C37. [forward_list] implements bounded lists over its node pool.  A new list is empty.
    In every state that holds the elements [xs] in the nodes [ids]: the size queries are
    exact, walking from [begin] visits the elements in order, and every operation does what
    it does to a list, at any position, without touching the nodes of the other elements
    (so their iterators stay valid): [emplace_after] and [push_front] insert or report a
    full list, [pop_front] and [erase_after] take one element out, [remove] all that are
    equal to a value outside the list, [reverse] turns the links round, [clear] frees every node and [find]
    returns the first element equal to a value, be it an element of the list.
    ([remove] with an element of the list itself as its argument is not covered:
    see [remove_front_undefined].) *)
Theorem forward_list_refines_list {T} `{EqDecision T} (N : nat) (l : flist (T := T)) (ids : list nat) (xs : list T) :
  rep N l ids xs ->
  (exists l0 : flist (T := T), forward_list N = Done l0 /\ rep N l0 [] [])
  /\ (size l = length xs /\ available N l = N - length xs /\ empty l = (length xs =? 0) /\ full N l = (length xs =? N))%nat
  /\ (NoDup ids /\ length ids = length xs /\ begin l = to_node (ids !! 0%nat)
      /\ forall k i x, ids !! k = Some i -> xs !! k = Some x ->
           deref l (Some (At i)) = Done x /\ incr l (Some (At i)) = Done (to_node (ids !! S k)))
  /\ (forall v, emplace_after l None v = Done (s_out_of_range, l))
  /\ (forall k p v, (k <= length xs)%nat -> before_at ids k = Some p ->
        if (length xs <? N)%nat
        then exists l' i, emplace_after l (Some p) v = Done (s_ok, l') /\ i ∉ ids
               /\ rep N l' (take k ids ++ i :: drop k ids) (take k xs ++ v :: drop k xs)
        else emplace_after l (Some p) v = Done (s_full, l))
  /\ match xs with
     | [] => pop_front l = Done (s_empty, l)
     | _ :: xs' => exists l', pop_front l = Done (s_ok, l') /\ rep N l' (tail ids) xs'
     end
  /\ (forall k p, before_at ids k = Some p ->
        match ids !! k with
        | None => erase_after l (Some p) = Done (None, l)
        | Some _ => exists l', erase_after l (Some p) = Done (to_node (delete k ids !! k), l')
                      /\ rep N l' (delete k ids) (delete k xs)
        end)
  /\ (forall v, exists l', remove N l (Val v) = Done (s_ok, l')
        /\ rep N l' (filter (keeps v) (zip ids xs)).*1 (filter (keeps v) (zip ids xs)).*2)
  /\ (exists l', reverse N l = Done l' /\ rep N l' (list.reverse ids) (list.reverse xs))
  /\ (exists l', clear N l = Done l' /\ rep (T := T) N l' [] [])
  /\ (forall r v, read l r = Done v -> find N l r = Done (match list_find (eq v) xs with Some (j, _) => to_node (ids !! j) | None => None end)).
Proof.
  intros Hr. destruct (rep_lengths N l ids xs Hr) as (Hl & HN & Hz). split; [apply forward_list_new|].
  unfold size, available, empty, full, begin. rewrite Hz. split; [done|]. split.
  { destruct Hr as (fs & Hs & _ & Hh & _ & Hnd & _). apply NoDup_app in Hnd as [Hnd _].
    split_and!; [done|done|by rewrite Hh, (seg_head _ _ _ _ Hs), head_lookup|].
    intros k i x Hi Hx. destruct (seg_lookup _ _ _ _ _ _ _ Hs Hi) as (nx & w & Hw & Hn & Hd & _).
    rewrite list_lookup_fmap, Hx in Hw. injection Hw as <-. cbn. unfold get_value. rewrite (load_Done _ _ _ Hn). cbn.
    split; [done|]. by rewrite (seg_head _ _ _ _ Hd), head_lookup, lookup_drop, Nat.add_0_r. }
  split; [done|]. split; [by intros; apply emplace_ok|]. split; [by apply (pop_ok N l ids xs)|].
  split; [by intros; apply erase_ok|]. split; [by intros v; apply remove_ok|].
  split; [by apply reverse_ok|]. split; [by eapply list_clear_ok|]. intros r v Hread. by apply find_ok.
Qed.

Lemma forward_list_refines_list_witness :
  let l := mk_flist [mk_node (Some 2%nat) (Some 7); mk_node None None; mk_node None (Some 8)] (Some 0%nat) 2 (Some 1%nat) (Some 0%nat) in
  exists l', reverse 3 l = Done l' /\ rep 3 l' [2; 0]%nat [8; 7].
Proof.
  cbn zeta. set (l := mk_flist [mk_node (Some 2%nat) (Some 7); mk_node None None; mk_node None (Some 8)] (Some 0%nat) 2 (Some 1%nat) (Some 0%nat)).
  assert (Hr : rep 3 l [0; 2]%nat [7; 8]).
  { exists [1%nat]. unfold rep_free. cbn. split_and!; try done; try (repeat (eexists || split); done).
    repeat (apply NoDup_cons; split; [rewrite ?elem_of_cons, ?elem_of_nil; lia|]). apply NoDup_nil. done. }
  destruct (forward_list_refines_list 3 l [0; 2]%nat [7; 8] Hr) as (_ & _ & _ & _ & _ & _ & _ & _ & H & _). exact H.
Defined.
