(* ===== verification/Conc.v ===== *)
(** * Two threads over a shared object

    The lock-free containers are written for one producer and one consumer.  Their
    operations are modelled as programs: trees of effects on the shared object, one
    node per access in the order of the code.  An execution is any interleaving of two
    programs.  Atomic accesses are single steps; every other access has a location, and
    two threads that are about to access the same location race.  Steps are
    sequentially consistent; the memory orders of atomic accesses are not modelled.

    Programs are verified one thread at a time: [wp] says that a program keeps an
    invariant whatever the other thread does in between, and [adequacy] that two such
    programs may run together. *)

From stdpp Require Import relations.
From S2P Require Import Prelude.

Section Programs.
Context {eff : Type -> Type}.

Inductive prog (A : Type) : Type :=
| Ret (a : A)
| Act {R : Type} (e : eff R) (k : R -> prog A).

Fixpoint prog_bind {A B} (f : A -> prog B) (p : prog A) : prog B :=
  match p with
  | Ret _ a => f a
  | Act _ e k => Act _ e (fun r => prog_bind f (k r))
  end.

Definition act {R} (e : eff R) : prog R := Act _ e (fun r => Ret _ r).
End Programs.
Arguments prog : clear implicits.
Arguments Ret {_ _} _.
Arguments Act {_ _ _} _ _.

#[export] Instance prog_mbind eff : MBind (prog eff) := fun A B f p => prog_bind f p.
#[export] Instance prog_mret eff : MRet (prog eff) := fun A a => Ret a.

Section Semantics.
Context {M : Type} {eff : Type -> Type} {loc : Type}.
(** What an effect does to the object, and the plain location it accesses, if any. *)
Context (handle : forall R, eff R -> M -> exec (R * M)) (footprint : forall R, eff R -> option loc).

(** One thread alone. *)
Fixpoint run {A} (p : prog eff A) (m : M) : exec (A * M) :=
  match p with
  | Ret a => Done (a, m)
  | Act e k => '(r, m) ← handle _ e m; run (k r) m
  end.

Lemma run_bind {A B} (f : A -> prog eff B) p m :
  run (p ≫= f) m = ('(a, m) ← run p m; run (f a) m).
Proof.
  revert m. induction p as [a|R e k IH]; intros m; cbn; [done|].
  destruct (handle R e m) as [[r m']|]; cbn; [apply IH|done].
Qed.

Lemma run_act {A R} (e : eff R) (f : R -> prog eff A) m :
  run (act e ≫= f) m = ('(r, m) ← handle _ e m; run (f r) m).
Proof. done. Qed.

(** One effect of a thread. *)
Definition advance {A} (p : prog eff A) (m : M) : option (prog eff A * M) :=
  match p with
  | Ret _ => None
  | Act e k => match handle _ e m with Done (r, m) => Some (k r, m) | Undefined => None end
  end.

Definition config (A B : Type) : Type := M * prog eff A * prog eff B.

Inductive step {A B} : config A B -> config A B -> Prop :=
| step_left m p q p' m' : advance p m = Some (p', m') -> step (m, p, q) (m', p', q)
| step_right m p q q' m' : advance q m = Some (q', m') -> step (m, p, q) (m', p, q').

(** One thread running to its end while the other waits. *)
Lemma run_left {A B} (p : prog eff A) (q : prog eff B) m a m' :
  run p m = Done (a, m') -> rtc step (m, p, q) (m', Ret a, q).
Proof.
  revert m. induction p as [x|R e k IH]; intros m; cbn [run]; [by intros [= -> ->]|].
  destruct (handle R e m) as [[r m1]|] eqn:E; [|done]. intros H. eapply rtc_l; [|by apply (IH r m1)].
  apply step_left. cbn. by rewrite E.
Qed.

Lemma run_right {A B} (p : prog eff A) (q : prog eff B) m b m' :
  run q m = Done (b, m') -> rtc step (m, p, q) (m', p, Ret b).
Proof.
  revert m. induction q as [x|R e k IH]; intros m; cbn [run]; [by intros [= -> ->]|].
  destruct (handle R e m) as [[r m1]|] eqn:E; [|done]. intros H. eapply rtc_l; [|by apply (IH r m1)].
  apply step_right. cbn. by rewrite E.
Qed.

(** The next plain access of a thread. *)
Definition next_access {A} (p : prog eff A) : option loc :=
  match p with Ret _ => None | Act e _ => footprint _ e end.

Definition race {A B} (c : config A B) : Prop :=
  exists l, next_access c.1.2 = Some l /\ next_access c.2 = Some l.

(** The next effect of a thread is undefined behaviour. *)
Definition goes_wrong {A} (p : prog eff A) (m : M) : Prop :=
  match p with Ret _ => False | Act e _ => handle _ e m = Undefined end.

Definition safe {A B} (c : config A B) : Prop :=
  ~ race c /\ ~ goes_wrong c.1.2 c.1.1 /\ ~ goes_wrong c.2 c.1.1.

(** Programs have no unbounded loops: every execution ends. *)
Lemma step_terminates {A B} (c : config A B) : sn step c.
Proof.
  destruct c as [[m p] q]. revert m q. induction p as [a|R e k IHp]; intros m q.
  - revert m. induction q as [b|R e k IHq]; intros m; constructor; intros c Hc; inversion Hc as [??? ?? H|??? ?? H];
      subst; cbn in H; try discriminate.
    destruct (handle R e m) as [[r m1]|]; simplify_eq. apply IHq.
  - revert m. induction q as [b|R' e' k' IHq]; intros m; constructor; intros c Hc; inversion Hc as [??? ?? H|??? ?? H];
      subst; cbn in H; try discriminate.
    + destruct (handle R e m) as [[r m1]|]; simplify_eq. apply IHp.
    + destruct (handle R e m) as [[r m1]|]; simplify_eq. apply IHp.
    + destruct (handle R' e' m) as [[r m1]|]; simplify_eq. apply IHq.
Qed.
End Semantics.

(** ** Verifying one thread *)

Section Wp.
Context {M : Type} {eff : Type -> Type} {loc : Type}.
Context (handle : forall R, eff R -> M -> exec (R * M)) (footprint : forall R, eff R -> option loc).

(** [I m g g'] relates the object to what this thread ([g]) and the other one ([g']) know
    of it; [perm g l] lets the thread access [l]. *)
Context {G G' : Type} (I : M -> G -> G' -> Prop) (perm : G -> loc -> Prop).

Fixpoint wp {A} (p : prog eff A) (Q : A -> G -> Prop) (g : G) : Prop :=
  match p with
  | Ret a => Q a g
  | Act e k =>
      (forall l, footprint _ e = Some l -> perm g l)
      /\ forall m g', I m g g' ->
           exists r m1 g1, handle _ e m = Done (r, m1) /\ I m1 g1 g' /\ wp (k r) Q g1
  end.

Lemma wp_bind {A B} (f : A -> prog eff B) p Q g :
  wp p (fun a g => wp (f a) Q g) g -> wp (p ≫= f) Q g.
Proof.
  revert g. induction p as [a|R e k IH]; intros g; cbn; [done|]. intros [Hp Hs]. split; [done|].
  intros m g' Hi. destruct (Hs m g' Hi) as (r & m1 & g1 & Hh & Hi1 & Hw). exists r, m1, g1. split_and!; [done..|].
  by apply IH.
Qed.

Lemma wp_assoc {A B C} (f : A -> prog eff B) (h : B -> prog eff C) p Q g :
  wp (x ← p; y ← f x; h y) Q g -> wp (y ← (x ← p; f x); h y) Q g.
Proof.
  revert g. induction p as [a|R e k IH]; intros g; cbn; [done|]. intros [Hp Hs]. split; [done|].
  intros m g' Hi. destruct (Hs m g' Hi) as (r & m1 & g1 & Hh & Hi1 & Hw). exists r, m1, g1. split_and!; [done..|].
  by apply IH.
Qed.

Lemma wp_mono {A} (p : prog eff A) (Q Q' : A -> G -> Prop) g :
  (forall a g, Q a g -> Q' a g) -> wp p Q g -> wp p Q' g.
Proof.
  intros HQ. revert g. induction p as [a|R e k IH]; intros g; cbn; [apply HQ|]. intros [Hp Hs]. split; [done|].
  intros m g' Hi. destruct (Hs m g' Hi) as (r & m1 & g1 & Hh & Hi1 & Hw). exists r, m1, g1. split_and!; [done..|].
  by apply IH.
Qed.

(** Any effect; an effect that only reads; one that changes the object. *)
Lemma wp_act {A R} (e : eff R) (f : R -> prog eff A) Q g (P : R -> G -> Prop) :
  (forall l, footprint _ e = Some l -> perm g l) ->
  (forall m g', I m g g' -> exists r m1 g1, handle _ e m = Done (r, m1) /\ I m1 g1 g' /\ P r g1) ->
  (forall r g1, P r g1 -> wp (f r) Q g1) -> wp (act e ≫= f) Q g.
Proof.
  intros Hp Hh Hf. split; [done|]. intros m g' Hi. destruct (Hh m g' Hi) as (r & m1 & g1 & Hr & Hi1 & HP).
  exists r, m1, g1. split_and!; [done..|]. by apply Hf.
Qed.

Lemma wp_read {A R} (e : eff R) (f : R -> prog eff A) Q g (P : R -> Prop) :
  (forall l, footprint _ e = Some l -> perm g l) ->
  (forall m g', I m g g' -> exists r, handle _ e m = Done (r, m) /\ P r) ->
  (forall r, P r -> wp (f r) Q g) -> wp (act e ≫= f) Q g.
Proof.
  intros Hp Hh Hf. apply (wp_act _ _ _ _ (fun r g1 => P r /\ g1 = g)); [done| |by intros r g1 [HP ->]; apply Hf].
  intros m g' Hi. destruct (Hh m g' Hi) as (r & Hr & HP). by exists r, m, g.
Qed.

Lemma wp_write {A} (e : eff unit) (f : unit -> prog eff A) Q g (P : G -> Prop) :
  (forall l, footprint _ e = Some l -> perm g l) ->
  (forall m g', I m g g' -> exists m1 g1, handle _ e m = Done (tt, m1) /\ I m1 g1 g' /\ P g1) ->
  (forall g1, P g1 -> wp (f tt) Q g1) -> wp (act e ≫= f) Q g.
Proof.
  intros Hp Hh Hf. apply (wp_act _ _ _ _ (fun _ g1 => P g1)); [done| |by intros [] g1; apply Hf].
  intros m g' Hi. destruct (Hh m g' Hi) as (m1 & g1 & Hr & Hi1 & HP). by exists tt, m1, g1.
Qed.

(** A verified program run alone. *)
Lemma wp_run {A} (p : prog eff A) Q g g' m :
  wp p Q g -> I m g g' -> exists a m1 g1, run handle p m = Done (a, m1) /\ I m1 g1 g' /\ Q a g1.
Proof.
  revert g m. induction p as [a|R e k IH]; intros g m; cbn.
  { intros HQ Hi. by exists a, m, g. }
  intros [_ Hs] Hi. destruct (Hs m g' Hi) as (r & m1 & g1 & -> & Hi1 & Hw). cbn. by eapply IH.
Qed.

Lemma wp_advance {A} (p : prog eff A) Q g g' m p' m' :
  wp p Q g -> I m g g' -> advance handle p m = Some (p', m') -> exists g1, I m' g1 g' /\ wp p' Q g1.
Proof.
  destruct p as [a|R e k]; cbn; [done|]. intros [_ Hs] Hi.
  destruct (Hs m g' Hi) as (r & m1 & g1 & -> & Hi1 & Hw). intros H. simplify_eq. by exists g1.
Qed.

Lemma wp_defined {A} (p : prog eff A) Q g g' m : wp p Q g -> I m g g' -> ~ goes_wrong handle p m.
Proof.
  destruct p as [a|R e k]; cbn; [tauto|]. intros [_ Hs] Hi E.
  destruct (Hs m g' Hi) as (r & m1 & g1 & Hh & _). by rewrite E in Hh.
Qed.

Lemma wp_access {A} (p : prog eff A) Q g l : wp p Q g -> next_access footprint p = Some l -> perm g l.
Proof. destruct p as [a|R e k]; cbn; [done|]. intros [Hp _]. apply Hp. Qed.
End Wp.

(** ** Two verified threads together *)

Section Adequacy.
Context {M : Type} {eff : Type -> Type} {loc : Type}.
Context (handle : forall R, eff R -> M -> exec (R * M)) (footprint : forall R, eff R -> option loc).
Context {G G' : Type} (I : M -> G -> G' -> Prop) (perm : G -> loc -> Prop) (perm' : G' -> loc -> Prop).
Context (exclusive : forall m g g' l, I m g g' -> perm g l -> perm' g' l -> False).

Let wp_left {A} := @wp M eff loc handle footprint G G' I perm A.
Let wp_right {A} := @wp M eff loc handle footprint G' G (fun m g' g => I m g g') perm' A.

Definition verified {A B} (Q : A -> G -> Prop) (Q' : B -> G' -> Prop) (c : config A B) : Prop :=
  exists g g', I c.1.1 g g' /\ wp_left c.1.2 Q g /\ wp_right c.2 Q' g'.

Lemma verified_step {A B} (Q : A -> G -> Prop) (Q' : B -> G' -> Prop) c c' :
  verified Q Q' c -> step handle c c' -> verified Q Q' c'.
Proof.
  intros (g & g' & Hi & Hl & Hr) Hs. destruct Hs as [m p q p' m' Ha|m p q q' m' Ha]; cbn in *.
  - destruct (wp_advance _ _ _ _ _ _ _ _ _ _ _ Hl Hi Ha) as (g1 & Hi1 & Hl1). by exists g1, g'.
  - destruct (wp_advance _ _ _ _ _ _ _ _ _ _ _ Hr Hi Ha) as (g1 & Hi1 & Hr1). by exists g, g1.
Qed.

Lemma verified_safe {A B} (Q : A -> G -> Prop) (Q' : B -> G' -> Prop) c :
  verified Q Q' c -> safe handle footprint c.
Proof.
  intros (g & g' & Hi & Hl & Hr). split_and!.
  - intros (l & Hpl & Hql). apply (exclusive _ _ _ l Hi); by eapply wp_access.
  - by eapply wp_defined.
  - by eapply (wp_defined handle footprint (fun m g' g => I m g g')).
Qed.

(** Every configuration two verified threads can reach is free of races and of undefined
    behaviour, and when both have returned their postconditions hold. *)
Lemma adequacy {A B} (Q : A -> G -> Prop) (Q' : B -> G' -> Prop) c c' :
  verified Q Q' c -> rtc (step handle) c c' ->
  safe handle footprint c'
  /\ forall m a b, c' = (m, Ret a, Ret b) -> exists g g', I m g g' /\ Q a g /\ Q' b g'.
Proof.
  intros Hv Hs. assert (Hv' : verified Q Q' c').
  { induction Hs as [|c1 c2 c3 H12 _ IH]; [done|]. apply IH. by eapply verified_step. }
  split; [by eapply verified_safe|]. intros m a b ->. destruct Hv' as (g & g' & Hi & Ha & Hb). by exists g, g'.
Qed.
End Adequacy.
