(* ===== verification/Spsc.v ===== *)
(** * The descriptor ring (castle/container/spsc_buffer_desc.hpp)

    Hands caller-owned buffers from one producer to one consumer.  Every slot carries an
    atomic state; all other members are plain.  Operations are programs of [Conc]: one
    effect per access to the object, in the order of the code.  The loads (acquire) and
    stores (release) of a state are sequentially consistent steps. *)

From stdpp Require Import relations.
From S2P Require Import Prelude Status Conc.

Inductive buffer_state : Type := free | writing | ready | reading.
Inductive descriptor_mode : Type := m_none | m_write | m_read.

#[export] Instance buffer_state_eq_dec : EqDecision buffer_state.
Proof. solve_decision. Defined.
#[export] Instance descriptor_mode_eq_dec : EqDecision descriptor_mode.
Proof. solve_decision. Defined.

Section Spsc.
Context {T : Type} (BUFFER_SIZE N_BUFFERS : nat).

(** [pbuffer] is an offset into the caller's memory. *)
Record buffer_slot : Type := mk_slot {
  pbuffer : option nat; state : buffer_state; size : nat; generation : Z }.

(** The object and the caller's memory behind [buffers_] ([None] when it is null). *)
Record spsc : Type := mk_spsc {
  buffers_ : option (list T); descriptor_items_ : list buffer_slot; write_index_ : nat; read_index_ : nat }.

Record buffer_handle : Type := mk_handle { item_ : option nat; generation_ : Z; mode_ : descriptor_mode }.
Definition no_handle : buffer_handle := mk_handle None 0 m_none.

(** ** Effects *)

Inductive eff : Type -> Type :=
| IsNull : eff bool
| GetPtr (i : nat) : eff (option nat)
| LoadState (i : nat) : eff buffer_state
| StoreState (i : nat) (s : buffer_state) : eff unit
| GetSize (i : nat) : eff nat
| SetSize (i n : nat) : eff unit
| GetGen (i : nat) : eff Z
| SetGen (i : nat) (g : Z) : eff unit
| GetWriteIndex : eff nat
| SetWriteIndex (n : nat) : eff unit
| GetReadIndex : eff nat
| SetReadIndex (n : nat) : eff unit
| ReadCell (c : nat) : eff T
| WriteCell (c : nat) (v : T) : eff unit.

(** The plain locations; [buffers_] and [pbuffer] never change after construction. *)
Inductive loc : Type := L_size (i : nat) | L_gen (i : nat) | L_write_index | L_read_index | L_cell (c : nat).

Definition set_items (m : spsc) (items : list buffer_slot) : spsc :=
  mk_spsc (buffers_ m) items (write_index_ m) (read_index_ m).

Definition on_slot {R} (m : spsc) (i : nat) (f : buffer_slot -> R * buffer_slot) : exec (R * spsc) :=
  s ← load (descriptor_items_ m) i;
  let '(r, s) := f s in
  items ← store (descriptor_items_ m) i s;
  Done (r, set_items m items).

Definition on_buffers {R} (m : spsc) (f : list T -> exec (R * list T)) : exec (R * spsc) :=
  match buffers_ m with
  | None => Undefined
  | Some b => '(r, b) ← f b; Done (r, mk_spsc (Some b) (descriptor_items_ m) (write_index_ m) (read_index_ m))
  end.

Definition handle R (e : eff R) (m : spsc) : exec (R * spsc) :=
  match e in eff R return exec (R * spsc) with
  | IsNull => Done (match buffers_ m with None => true | Some _ => false end, m)
  | GetPtr i => s ← load (descriptor_items_ m) i; Done (pbuffer s, m)
  | LoadState i => s ← load (descriptor_items_ m) i; Done (state s, m)
  | StoreState i v => on_slot m i (fun s => (tt, mk_slot (pbuffer s) v (size s) (generation s)))
  | GetSize i => s ← load (descriptor_items_ m) i; Done (size s, m)
  | SetSize i n => on_slot m i (fun s => (tt, mk_slot (pbuffer s) (state s) n (generation s)))
  | GetGen i => s ← load (descriptor_items_ m) i; Done (generation s, m)
  | SetGen i g => on_slot m i (fun s => (tt, mk_slot (pbuffer s) (state s) (size s) g))
  | GetWriteIndex => Done (write_index_ m, m)
  | SetWriteIndex n => Done (tt, mk_spsc (buffers_ m) (descriptor_items_ m) n (read_index_ m))
  | GetReadIndex => Done (read_index_ m, m)
  | SetReadIndex n => Done (tt, mk_spsc (buffers_ m) (descriptor_items_ m) (write_index_ m) n)
  | ReadCell c => on_buffers m (fun b => v ← load b c; Done (v, b))
  | WriteCell c v => on_buffers m (fun b => b ← store b c v; Done (tt, b))
  end.

Definition footprint R (e : eff R) : option loc :=
  match e with
  | IsNull | GetPtr _ | LoadState _ | StoreState _ _ => None
  | GetSize i | SetSize i _ => Some (L_size i)
  | GetGen i | SetGen i _ => Some (L_gen i)
  | GetWriteIndex | SetWriteIndex _ => Some L_write_index
  | GetReadIndex | SetReadIndex _ => Some L_read_index
  | ReadCell c | WriteCell c _ => Some (L_cell c)
  end.

Notation program := (prog eff).

(** ** Operations *)

Definition next_index (index : nat) : nat :=
  let index := S index in if (index =? N_BUFFERS)%nat then 0%nat else index.
Definition next_generation (generation : Z) : Z :=
  let generation := to_u32 (generation + 1) in if (generation =? 0)%Z then 1%Z else generation.

Definition spsc_new (buffers : option (list T)) : spsc :=
  mk_spsc buffers
    ((fun i => mk_slot (match buffers with None => None | Some _ => Some (i * BUFFER_SIZE)%nat end) free 0 0)
       <$> seq 0 N_BUFFERS) 0 0.

Definition is_valid : program bool := null ← act IsNull; Ret (negb null).

Definition writable : program bool :=
  v ← is_valid;
  if negb v then Ret false
  else i ← act GetWriteIndex; s ← act (LoadState i); Ret (bool_decide (s = free)).
Definition readable : program bool :=
  v ← is_valid;
  if negb v then Ret false
  else i ← act GetReadIndex; s ← act (LoadState i); Ret (bool_decide (s = ready)).
Definition full : program bool := w ← writable; Ret (negb w).
Definition empty : program bool := r ← readable; Ret (negb r).

Definition acquire_write : program (status * buffer_handle) :=
  v ← is_valid;
  if negb v then Ret (s_invalid_config, no_handle)
  else
    i ← act GetWriteIndex;
    s ← act (LoadState i);
    if negb (bool_decide (s = free)) then Ret (s_full, no_handle)
    else
      g ← act (GetGen i);
      _ ← act (SetGen i (next_generation g));
      _ ← act (SetSize i 0);
      _ ← act (StoreState i writing);
      g ← act (GetGen i);
      w ← act GetWriteIndex;
      _ ← act (SetWriteIndex (next_index w));
      Ret (s_ok, mk_handle (Some i) g m_write).

Definition acquire_read : program (status * buffer_handle) :=
  v ← is_valid;
  if negb v then Ret (s_invalid_config, no_handle)
  else
    i ← act GetReadIndex;
    s ← act (LoadState i);
    if negb (bool_decide (s = ready)) then Ret (s_empty, no_handle)
    else
      _ ← act (StoreState i reading);
      g ← act (GetGen i);
      r ← act GetReadIndex;
      _ ← act (SetReadIndex (next_index r));
      Ret (s_ok, mk_handle (Some i) g m_read).

(** *** Handles *)

Definition handle_is_valid (h : buffer_handle) : program bool :=
  match item_ h with
  | None => Ret false
  | Some i =>
      g ← act (GetGen i);
      if negb (generation_ h =? g)%Z then Ret false
      else
        s ← act (LoadState i);
        Ret ((bool_decide (mode_ h = m_write) && bool_decide (s = writing))
             || (bool_decide (mode_ h = m_read) && bool_decide (s = reading)))
  end.

Definition is_write (h : buffer_handle) : program bool :=
  v ← handle_is_valid h; Ret (v && bool_decide (mode_ h = m_write)).
Definition is_read (h : buffer_handle) : program bool :=
  v ← handle_is_valid h; Ret (v && bool_decide (mode_ h = m_read)).

(** The slot of a handle that was found valid. *)
Definition item (h : buffer_handle) : nat := match item_ h with Some i => i | None => 0%nat end.

Definition handle_size (h : buffer_handle) : program nat :=
  v ← handle_is_valid h; if negb v then Ret 0%nat else act (GetSize (item h)).

(** A view is a position in the caller's memory and a number of elements. *)
Definition write_view (h : buffer_handle) : program (option nat * nat) :=
  w ← is_write h;
  if negb w then Ret (None, 0%nat)
  else p ← act (GetPtr (item h)); Ret (p, BUFFER_SIZE).
Definition read_view (h : buffer_handle) : program (option nat * nat) :=
  r ← is_read h;
  if negb r then Ret (None, 0%nat)
  else p ← act (GetPtr (item h)); n ← act (GetSize (item h)); Ret (p, n).

Definition commit (h : buffer_handle) (count : nat) : program status :=
  w ← is_write h;
  if negb w then Ret s_invalid_argument
  else if (BUFFER_SIZE <? count)%nat then Ret s_out_of_range
  else _ ← act (SetSize (item h) count); _ ← act (StoreState (item h) ready); Ret s_ok.

Definition release (h : buffer_handle) : program status :=
  r ← is_read h;
  if negb r then Ret s_invalid_argument
  else _ ← act (SetSize (item h) 0); _ ← act (StoreState (item h) free); Ret s_ok.

Definition cancel (h : buffer_handle) : program status :=
  w ← is_write h;
  if negb w then Ret s_invalid_argument
  else _ ← act (SetSize (item h) 0); _ ← act (StoreState (item h) free); Ret s_ok.

Fixpoint clear_slots (i n : nat) : program unit :=
  match n with
  | O => Ret tt
  | S n =>
      _ ← act (SetSize i 0);
      g ← act (GetGen i);
      _ ← act (SetGen i (next_generation g));
      _ ← act (StoreState i free);
      clear_slots (S i) n
  end.
Definition clear : program unit :=
  _ ← clear_slots 0 N_BUFFERS; _ ← act (SetWriteIndex 0); act (SetReadIndex 0).

(** ** Clients

    The producer acquires slots and fills and commits the ones it holds, in any order; the
    consumer acquires, reads and releases.  What they return lists, in the order of
    acquisition, what was sent and what was received ([None] while a slot is held). *)

Inductive producer_command : Type := P_acquire | P_send (which : nat) (xs : list T).
Inductive consumer_command : Type := C_acquire | C_receive (which : nat).

Fixpoint write_cells (c : nat) (xs : list T) : program unit :=
  match xs with [] => Ret tt | x :: xs => _ ← act (WriteCell c x); write_cells (S c) xs end.
Fixpoint read_cells (c n : nat) : program (list T) :=
  match n with O => Ret [] | S n => x ← act (ReadCell c); xs ← read_cells (S c) n; Ret (x :: xs) end.

Definition held : Type := list (nat * buffer_handle).

Fixpoint producer (cmds : list producer_command) (hs : held) (sent : list (option (list T)))
    : program (list (option (list T))) :=
  match cmds with
  | [] => Ret sent
  | P_acquire :: cmds =>
      '(st, h) ← acquire_write;
      if bool_decide (st = s_ok) then producer cmds (hs ++ [(length sent, h)]) (sent ++ [None])
      else producer cmds hs sent
  | P_send which xs :: cmds =>
      match hs !! which with
      | None => producer cmds hs sent
      | Some (k, h) =>
          '(p, n) ← write_view h;
          match p with
          | Some c =>
              if (n <? length xs)%nat then producer cmds hs sent
              else
                _ ← write_cells c xs;
                st ← commit h (length xs);
                if bool_decide (st = s_ok) then producer cmds (delete which hs) (<[k := Some xs]> sent)
                else producer cmds hs sent
          | None => producer cmds hs sent
          end
      end
  end.

Fixpoint consumer (cmds : list consumer_command) (hs : held) (received : list (option (list T)))
    : program (list (option (list T))) :=
  match cmds with
  | [] => Ret received
  | C_acquire :: cmds =>
      '(st, h) ← acquire_read;
      if bool_decide (st = s_ok) then consumer cmds (hs ++ [(length received, h)]) (received ++ [None])
      else consumer cmds hs received
  | C_receive which :: cmds =>
      match hs !! which with
      | None => consumer cmds hs received
      | Some (k, h) =>
          '(p, n) ← read_view h;
          match p with
          | Some c =>
              xs ← read_cells c n;
              st ← release h;
              if bool_decide (st = s_ok) then consumer cmds (delete which hs) (<[k := Some xs]> received)
              else consumer cmds hs received
          | None => consumer cmds hs received
          end
      end
  end.

(** ** Tickets

    The [k]-th acquisition for writing and the [k]-th for reading use slot [k mod N_BUFFERS].
    Each thread keeps a log of its acquisitions; both logs start with [N_BUFFERS] entries
    that are already over, so that every slot always has a current ticket. *)

Inductive tick : Type := Held (g : Z) (z : bool) (xs : list T) | Sent (xs : list T).
Inductive rtick : Type := RHeld (g : Z) (xs : list T) | RClosing (g : Z) (xs : list T) | Released (xs : list T).
Definition payload (r : rtick) : list T :=
  match r with RHeld _ xs | RClosing _ xs | Released xs => xs end.
Definition is_released (r : rtick) : bool := match r with Released _ => true | _ => false end.

(** What a thread knows: its log, whether it has seen the next slot free (or ready), and
    its index. *)
Record gproducer : Type := mk_gp { wlog : list tick; claim : bool; gwi : nat }.
Record gconsumer : Type := mk_gc { rlog : list rtick; rclaim : bool; gri : nat }.

Definition tick_state (w : tick) (r : option rtick) : buffer_state :=
  match w, r with
  | Held _ _ _, _ => writing
  | Sent _, None => ready
  | Sent _, Some r => if is_released r then free else reading
  end.

Definition cells (b : list T) (j : nat) : list T := take BUFFER_SIZE (drop (j * BUFFER_SIZE) b).

Definition slot_ok (b : list T) (j : nat) (s : buffer_slot) (w : tick) (r : option rtick) : Prop :=
  pbuffer s = Some (j * BUFFER_SIZE)%nat /\ state s = tick_state w r
  /\ match w, r with
     | Held g z xs, None => generation s = g /\ (z = true -> size s = length xs) /\ take (length xs) (cells b j) = xs
     | Held _ _ _, Some _ => False
     | Sent xs, None => size s = length xs /\ take (length xs) (cells b j) = xs
     | Sent xs, Some (RHeld g _) => generation s = g /\ size s = length xs /\ take (length xs) (cells b j) = xs
     | Sent xs, Some (RClosing g _) => generation s = g
     | Sent xs, Some (Released _) => True
     end.

Definition window (n k : nat) : Prop := (k < n)%nat /\ (n <= k + N_BUFFERS)%nat.

Definition Inv (m : spsc) (gp : gproducer) (gc : gconsumer) : Prop :=
  exists b, buffers_ m = Some b /\ length b = (N_BUFFERS * BUFFER_SIZE)%nat
  /\ length (descriptor_items_ m) = N_BUFFERS
  /\ write_index_ m = gwi gp /\ read_index_ m = gri gc
  /\ (N_BUFFERS <= length (wlog gp))%nat
  /\ (forall k r, rlog gc !! k = Some r -> wlog gp !! k = Some (Sent (payload r)))
  /\ (forall k, (k + N_BUFFERS < length (wlog gp))%nat -> exists xs, rlog gc !! k = Some (Released xs))
  /\ (forall k, window (length (wlog gp)) k -> exists s w,
        descriptor_items_ m !! (k mod N_BUFFERS)%nat = Some s /\ wlog gp !! k = Some w
        /\ slot_ok b (k mod N_BUFFERS) s w (rlog gc !! k))
  /\ (claim gp = true -> exists s, descriptor_items_ m !! (length (wlog gp) mod N_BUFFERS)%nat = Some s /\ state s = free)
  /\ (rclaim gc = true -> exists xs, wlog gp !! length (rlog gc) = Some (Sent xs)).

Context (HB : (0 < BUFFER_SIZE)%nat) (HN : (0 < N_BUFFERS)%nat).

Lemma window_unique n k k' :
  window n k -> window n k' -> (k mod N_BUFFERS = k' mod N_BUFFERS)%nat -> k = k'.
Proof.
  unfold window. intros Hk Hk' E. pose proof (Nat.div_mod_eq k N_BUFFERS). pose proof (Nat.div_mod_eq k' N_BUFFERS).
  assert (Hq : forall q q', (q < q' -> N_BUFFERS * q + N_BUFFERS <= N_BUFFERS * q')%nat) by (intros q q' Hlt; nia).
  destruct (Nat.lt_trichotomy (k / N_BUFFERS) (k' / N_BUFFERS)) as [Hlt|[Heq|Hlt]].
  - apply Hq in Hlt. lia.
  - rewrite Heq in *. lia.
  - apply Hq in Hlt. lia.
Qed.

Lemma next_mod n : (N_BUFFERS <= n)%nat -> ((n - N_BUFFERS) mod N_BUFFERS = n mod N_BUFFERS)%nat.
Proof. intros H. replace n with (n - N_BUFFERS + 1 * N_BUFFERS)%nat at 2 by lia. by rewrite Nat.Div0.mod_add. Qed.

Lemma next_window n : (N_BUFFERS <= n)%nat -> window n (n - N_BUFFERS).
Proof. unfold window. lia. Qed.

Lemma next_index_mod n : (next_index (n mod N_BUFFERS) = S n mod N_BUFFERS)%nat.
Proof.
  unfold next_index. pose proof (Nat.mod_upper_bound n N_BUFFERS). pose proof (Nat.div_mod_eq n N_BUFFERS).
  destruct (Nat.eqb_spec (S (n mod N_BUFFERS)) N_BUFFERS).
  - apply (Nat.mod_unique _ _ (S (n / N_BUFFERS)) 0); nia.
  - apply (Nat.mod_unique _ _ (n / N_BUFFERS) (S (n mod N_BUFFERS))); nia.
Qed.

(** The slot of a ticket in the window. *)
Lemma Inv_slot m gp gc k :
  Inv m gp gc -> window (length (wlog gp)) k ->
  exists b s w, buffers_ m = Some b /\ length b = (N_BUFFERS * BUFFER_SIZE)%nat
    /\ descriptor_items_ m !! (k mod N_BUFFERS)%nat = Some s /\ wlog gp !! k = Some w
    /\ slot_ok b (k mod N_BUFFERS) s w (rlog gc !! k).
Proof.
  intros (b & ? & ? & _ & _ & _ & _ & _ & _ & Hk & _) Hw. destruct (Hk k Hw) as (s & w & ? & ? & ?).
  by exists b, s, w.
Qed.

(** A held slot is in the window, on either side. *)
Lemma unreleased_window m gp gc k :
  Inv m gp gc -> (k < length (wlog gp))%nat -> (forall xs, rlog gc !! k <> Some (Released xs)) ->
  window (length (wlog gp)) k.
Proof.
  intros (b & _ & _ & _ & _ & _ & _ & _ & Hold & _) Hk Hne. split; [done|].
  destruct (Nat.le_gt_cases (length (wlog gp)) (k + N_BUFFERS)); [done|].
  destruct (Hold k) as [xs Hxs]; [lia|]. by destruct (Hne xs).
Qed.

Lemma held_window m gp gc k g z xs :
  Inv m gp gc -> wlog gp !! k = Some (Held g z xs) -> window (length (wlog gp)) k /\ rlog gc !! k = None.
Proof.
  intros Hi Hk.
  assert (Hn : rlog gc !! k = None).
  { destruct (rlog gc !! k) as [r|] eqn:E; [|done]. destruct Hi as (b & _ & _ & _ & _ & _ & _ & Hr & _).
    specialize (Hr k r E). congruence. }
  split; [|done]. apply (unreleased_window m gp gc); [done|by eapply lookup_lt_Some|by rewrite Hn].
Qed.

Lemma rheld_window m gp gc k r :
  Inv m gp gc -> rlog gc !! k = Some r -> is_released r = false ->
  window (length (wlog gp)) k /\ wlog gp !! k = Some (Sent (payload r)).
Proof.
  intros Hi Hk Hne. assert (Hw : wlog gp !! k = Some (Sent (payload r))).
  { destruct Hi as (b & _ & _ & _ & _ & _ & _ & Hr & _). by apply Hr. }
  split; [|done]. apply (unreleased_window m gp gc); [done|by eapply lookup_lt_Some|]. rewrite Hk. by intros xs [= ->].
Qed.

(** Changing what one ticket says of its slot. *)
Lemma Inv_update m gp gc k b b' s' w' gp' gc' :
  Inv m gp gc -> window (length (wlog gp)) k -> buffers_ m = Some b ->
  length b' = length b -> (forall j, j <> (k mod N_BUFFERS)%nat -> cells b' j = cells b j) ->
  length (wlog gp') = length (wlog gp) -> wlog gp' !! k = Some w' -> gwi gp' = gwi gp -> gri gc' = gri gc ->
  (forall k', k' <> k -> wlog gp' !! k' = wlog gp !! k') ->
  (forall k', k' <> k -> rlog gc' !! k' = rlog gc !! k') ->
  (forall r, rlog gc' !! k = Some r -> w' = Sent (payload r)) ->
  slot_ok b' (k mod N_BUFFERS) s' w' (rlog gc' !! k) ->
  (claim gp' = true -> claim gp = true /\ (k = length (wlog gp) - N_BUFFERS -> state s' = free)%nat) ->
  (rclaim gc' = true -> exists xs, wlog gp' !! length (rlog gc') = Some (Sent xs)) ->
  Inv (mk_spsc (Some b') (<[(k mod N_BUFFERS)%nat := s']> (descriptor_items_ m)) (write_index_ m) (read_index_ m)) gp' gc'.
Proof.
  intros (b0 & E0 & Hlb & Hli & Hwi & Hri & HnW & Hr & Hold & Hwin & Hcl & Hrc) Hk Eb Hb' Hcells Hlw Hwk Hgw Hgr Hwo Hro Hrk Hok Hcl' Hrc'.
  rewrite Eb in E0. injection E0 as <-.
  assert (Hlt : (k mod N_BUFFERS < N_BUFFERS)%nat) by (apply Nat.mod_upper_bound; lia).
  exists b'. cbn [buffers_ descriptor_items_ write_index_ read_index_]. rewrite length_insert, Hlw. split_and!; try congruence.
  - intros k' r E. destruct (decide (k' = k)) as [->|Hne]; [|rewrite Hwo, Hro in * by done; by eapply Hr].
    by rewrite Hwk, (Hrk r E).
  - intros k' Hk'. rewrite Hro; [by apply Hold|]. intros ->. destruct Hk. lia.
  - intros k' Hk'. destruct (decide (k' = k)) as [->|Hne].
    + exists s', w'. rewrite list_lookup_insert_eq by lia. done.
    + destruct (Hwin k' Hk') as (s & w & Es & Ew & Hs).
      assert (Hj : (k' mod N_BUFFERS <> k mod N_BUFFERS)%nat) by (intros E; apply Hne; by eapply window_unique).
      exists s, w. rewrite list_lookup_insert_ne, Hwo, Hro by done. split_and!; [done..|].
      unfold slot_ok in *. by rewrite Hcells by done.
  - intros Hc. destruct (Hcl' Hc) as [Hc0 Hfree]. destruct (Hcl Hc0) as (s & Es & Hst).
    destruct (decide (k = length (wlog gp) - N_BUFFERS)%nat) as [E|Hne].
    + exists s'. rewrite <-(next_mod (length (wlog gp))), <-E, list_lookup_insert_eq by lia. auto.
    + exists s. rewrite list_lookup_insert_ne; [done|]. rewrite <-(next_mod (length (wlog gp))) by lia. intros E. apply Hne.
      eapply window_unique; [done|by apply next_window|done].
  - done.
Qed.

(** The producer's next slot and a new ticket for it. *)
Lemma next_slot m gp gc :
  Inv m gp gc -> exists s w,
    descriptor_items_ m !! (length (wlog gp) mod N_BUFFERS)%nat = Some s
    /\ wlog gp !! (length (wlog gp) - N_BUFFERS)%nat = Some w
    /\ (state s = free -> exists xs, rlog gc !! (length (wlog gp) - N_BUFFERS)%nat = Some (Released xs)).
Proof.
  intros Hi. assert (HnW : (N_BUFFERS <= length (wlog gp))%nat) by (destruct Hi as (?&?&?&?&?&?&?&?); done).
  destruct (Inv_slot m gp gc _ Hi (next_window _ HnW)) as (b & s & w & _ & _ & Es & Ew & _ & Hst & Hok).
  rewrite next_mod in Es by done. exists s, w. split_and!; [done..|]. rewrite Hst. unfold tick_state.
  destruct w as [|ys]; [done|]. destruct (rlog gc !! _) as [r|]; [|done]. destruct r as [| |xs]; [done|done|]. by exists xs.
Qed.

Lemma Inv_push m gp gc s :
  Inv m gp gc -> claim gp = true -> descriptor_items_ m !! (length (wlog gp) mod N_BUFFERS)%nat = Some s ->
  Inv (set_items m (<[(length (wlog gp) mod N_BUFFERS)%nat := mk_slot (pbuffer s) writing (size s) (generation s)]> (descriptor_items_ m)))
    (mk_gp (wlog gp ++ [Held (generation s) false []]) false (gwi gp)) gc.
Proof.
  intros Hi Hc Es. destruct (next_slot m gp gc Hi) as (s0 & w0 & Es0 & _ & Hrel). rewrite Es in Es0. injection Es0 as <-.
  pose proof Hi as (b & Eb & Hlb & Hli & Hwi & Hri & HnW & Hr & Hold & Hwin & Hcl & Hrc).
  destruct (Hcl Hc) as (s1 & Es1 & Hfree). rewrite Es in Es1. injection Es1 as <-. destruct (Hrel Hfree) as [ys Hys].
  assert (Hp : pbuffer s = Some (length (wlog gp) mod N_BUFFERS * BUFFER_SIZE)%nat).
  { destruct (Hwin _ (next_window _ HnW)) as (s2 & w2 & Es2 & _ & Hp2 & _). rewrite next_mod in Es2, Hp2 by done. congruence. }
  assert (Hnone : rlog gc !! length (wlog gp) = None).
  { destruct (rlog gc !! length (wlog gp)) as [r|] eqn:E; [|done]. apply Hr, lookup_lt_Some in E. lia. }
  exists b. cbn [buffers_ descriptor_items_ write_index_ read_index_ set_items wlog claim gwi].
  rewrite length_insert, length_app. cbn [length]. split_and!; try done; try lia.
  - intros k r E. apply Hr in E. by apply lookup_app_l_Some.
  - intros k Hk. destruct (decide (k = length (wlog gp) - N_BUFFERS)%nat) as [->|]; [by exists ys|apply Hold; lia].
  - intros k [Hk1 Hk2]. destruct (decide (k = length (wlog gp))) as [->|Hne].
    + eexists _, _. rewrite list_lookup_insert_eq by (rewrite Hli; apply Nat.mod_upper_bound; lia).
      rewrite list_lookup_middle, Hnone by done. split_and!; [done..|]. by split_and!.
    + assert (Hk : window (length (wlog gp)) k) by (split; lia).
      destruct (Hwin k Hk) as (s2 & w2 & Es2 & Ew2 & Hs2). exists s2, w2. split_and!; [|by apply lookup_app_l_Some|done].
      rewrite list_lookup_insert_ne; [done|]. rewrite <-(next_mod (length (wlog gp))) by done. intros E.
      assert (k = length (wlog gp) - N_BUFFERS)%nat as ->; [|lia].
      eapply window_unique; [done|by apply next_window|done].
  - intros Hrc'. destruct (Hrc Hrc') as [xs Hxs]. exists xs. by apply lookup_app_l_Some.
Qed.

(** ** Ownership *)

Definition owns_w (gp : gproducer) (j : nat) : Prop :=
  (claim gp = true /\ j = (length (wlog gp) mod N_BUFFERS)%nat)
  \/ exists k g z xs, wlog gp !! k = Some (Held g z xs) /\ j = (k mod N_BUFFERS)%nat.
Definition owns_r (gc : gconsumer) (j : nat) : Prop :=
  exists k r, rlog gc !! k = Some r /\ is_released r = false /\ j = (k mod N_BUFFERS)%nat.

Definition perm_w (gp : gproducer) (l : loc) : Prop :=
  match l with
  | L_size j | L_gen j => owns_w gp j
  | L_cell c => owns_w gp (c / BUFFER_SIZE)
  | L_write_index => True
  | L_read_index => False
  end.
Definition perm_r (gc : gconsumer) (l : loc) : Prop :=
  match l with
  | L_size j | L_gen j => owns_r gc j
  | L_cell c => owns_r gc (c / BUFFER_SIZE)
  | L_write_index => False
  | L_read_index => True
  end.

Lemma desc_owns_exclusive m gp gc j : Inv m gp gc -> owns_w gp j -> owns_r gc j -> False.
Proof.
  intros Hi Hw (k & r & Hk & Hr & ->). destruct (rheld_window m gp gc k r Hi Hk Hr) as [Hwin Hs].
  destruct (Inv_slot m gp gc k Hi Hwin) as (b & s & w & _ & _ & Es & Ew & _ & Hst & _).
  rewrite Hs in Ew. injection Ew as <-. rewrite Hk in Hst. cbn in Hst. rewrite Hr in Hst.
  destruct Hw as [[Hc E]|(k' & g & z & xs & Hk' & E)].
  - destruct Hi as (? & _ & _ & _ & _ & _ & _ & _ & _ & _ & Hcl & _). destruct (Hcl Hc) as (s' & Es' & Hf).
    rewrite <-E in Es'. congruence.
  - destruct (held_window m gp gc k' g z xs Hi Hk') as [Hwin' _]. assert (k' = k) as -> by (by eapply window_unique).
    congruence.
Qed.

Lemma perm_exclusive m gp gc l : Inv m gp gc -> perm_w gp l -> perm_r gc l -> False.
Proof. intros Hi. destruct l; cbn; try tauto; by eapply desc_owns_exclusive. Qed.

Notation wpp := (wp handle footprint Inv perm_w).
Notation wpc := (wp handle footprint (fun m gc gp => Inv m gp gc) perm_r).

(** ** The producer *)

Lemma on_slot_update m i s {R} (f : buffer_slot -> R * buffer_slot) :
  descriptor_items_ m !! i = Some s ->
  on_slot m i f = Done ((f s).1, mk_spsc (buffers_ m) (<[i := (f s).2]> (descriptor_items_ m)) (write_index_ m) (read_index_ m)).
Proof.
  intros Hs. unfold on_slot. rewrite (load_Done _ _ _ Hs). exec_simpl. destruct (f s) as [r s']. cbn.
  by rewrite store_Done by (by eapply lookup_lt_Some).
Qed.

(** Writing a plain member of the slot the producer has claimed. *)
Lemma claimed_write m gp gc s s' :
  Inv m gp gc -> claim gp = true -> descriptor_items_ m !! (length (wlog gp) mod N_BUFFERS)%nat = Some s ->
  pbuffer s' = pbuffer s -> state s' = state s ->
  Inv (mk_spsc (buffers_ m) (<[(length (wlog gp) mod N_BUFFERS)%nat := s']> (descriptor_items_ m)) (write_index_ m) (read_index_ m)) gp gc.
Proof.
  intros Hi Hc Es Hp Hst. pose proof Hi as (b & Eb & _ & _ & _ & _ & HnW & Hr & _ & _ & Hcl & Hrc).
  destruct (Hcl Hc) as (s0 & Es0 & Hfree). rewrite Es in Es0. injection Es0 as <-.
  destruct (next_slot m gp gc Hi) as (s0 & w & Es0 & Ew & Hrel). rewrite Es in Es0. injection Es0 as <-.
  destruct (Hrel Hfree) as [xs Hxs]. rewrite Eb, <-(next_mod (length (wlog gp))) by done.
  destruct (Inv_slot m gp gc _ Hi (next_window _ HnW)) as (b0 & s0 & w0 & Eb0 & _ & Es0 & Ew0 & Hok).
  rewrite next_mod in Es0 by done. rewrite Eb in Eb0. injection Eb0 as <-.
  rewrite Ew in Ew0. injection Ew0 as <-. rewrite Es in Es0. injection Es0 as <-.
  apply (Inv_update m gp gc _ b b s' w); try done.
  - by apply next_window.
  - intros r E. apply Hr in E. congruence.
  - unfold slot_ok in *. rewrite Hp, Hst. by rewrite Hxs in *.
  - intros _. split; [done|]. intros _. congruence.
Qed.

Definition after_acquire (gp : gproducer) (r : status * buffer_handle) (gp' : gproducer) : Prop :=
  (exists g, r = (s_ok, mk_handle (Some (length (wlog gp) mod N_BUFFERS)%nat) g m_write)
     /\ gp' = mk_gp (wlog gp ++ [Held g false []]) false (S (length (wlog gp)) mod N_BUFFERS)%nat)
  \/ (r = (s_full, no_handle) /\ gp' = gp).

Lemma wp_is_valid gp (f : bool -> prog eff (status * buffer_handle)) Q :
  wpp (f true) Q gp -> wpp (v ← is_valid; f v) Q gp.
Proof.
  intros H. apply (wp_read handle footprint Inv perm_w IsNull _ _ _ (fun r => r = false)); [done| |by intros r ->].
  intros m gc (b & Eb & _). cbn. rewrite Eb. by exists false.
Qed.

Lemma wp_acquire_write gp :
  claim gp = false -> gwi gp = (length (wlog gp) mod N_BUFFERS)%nat ->
  wpp acquire_write (after_acquire gp) gp.
Proof.
  intros Hc Hg. unfold acquire_write. apply wp_is_valid. cbn [negb].
  set (W := length (wlog gp)). set (j := (W mod N_BUFFERS)%nat).
  eapply (wp_read _ _ _ _ _ _ _ _ (fun i => i = j)); [by intros ? [= <-]| |intros ? ->].
  { intros m gc (b & _ & _ & _ & Hwi & _). cbn. rewrite Hwi, Hg. by exists j. }
  set (gp1 := mk_gp (wlog gp) true (gwi gp)).
  eapply (wp_act _ _ _ _ _ _ _ _ (fun s g1 => s = free /\ g1 = gp1 \/ s <> free /\ g1 = gp)); [done| |].
  { intros m gc Hi. destruct (next_slot m gp gc Hi) as (s & w & Es & _). fold W j in Es. cbn [handle]. rewrite (load_Done _ _ _ Es). exec_simpl.
    destruct (decide (state s = free)) as [E|E].
    - exists (state s), m, gp1. split_and!; [done| |by left].
      destruct Hi as (b & Eb & Hlb & Hli & Hwi & Hri & HnW & Hr & Hold & Hwin & Hcl & Hrc).
      exists b. split_and!; try done. intros _. by exists s.
    - exists (state s), m, gp. split_and!; [done..|by right]. }
  intros st g1 [[-> ->]|[Hne ->]]; [rewrite bool_decide_true by done|rewrite bool_decide_false by done; by right]. cbn [negb].
  assert (Hown : forall l, l = L_gen j \/ l = L_size j -> perm_w gp1 l) by (intros l [-> | ->]; by left).
  assert (Hslot : forall m gc, Inv m gp1 gc -> exists s, descriptor_items_ m !! j = Some s).
  { intros m gc Hi. destruct (next_slot m gp1 gc Hi) as (s & w & Es & _). by exists s. }
  eapply (wp_read _ _ _ _ _ _ _ _ (fun _ => True)); [by intros ? [= <-]; auto| |intros g0 _].
  { intros m gc Hi. destruct (Hslot m gc Hi) as [s Es]. cbn [handle]. rewrite (load_Done _ _ _ Es). by eexists. }
  eapply (wp_write _ _ _ _ _ _ _ _ (fun g1 => g1 = gp1)); [by intros ? [= <-]; auto| |intros ? ->].
  { intros m gc Hi. destruct (Hslot m gc Hi) as [s Es]. cbn [handle]. rewrite (on_slot_update _ _ _ _ Es).
    eexists _, gp1. split; [done|]. split; [|done]. by eapply (claimed_write m gp1 gc s). }
  eapply (wp_write _ _ _ _ _ _ _ _ (fun g1 => g1 = gp1)); [by intros ? [= <-]; auto| |intros ? ->].
  { intros m gc Hi. destruct (Hslot m gc Hi) as [s Es]. cbn [handle]. rewrite (on_slot_update _ _ _ _ Es).
    eexists _, gp1. split; [done|]. split; [|done]. by eapply (claimed_write m gp1 gc s). }
  eapply (wp_write _ _ _ _ _ _ _ _ (fun g1 => exists g, g1 = mk_gp (wlog gp ++ [Held g false []]) false (gwi gp))); [done| |].
  { intros m gc Hi. destruct (Hslot m gc Hi) as [s Es]. cbn [handle]. rewrite (on_slot_update _ _ _ _ Es).
    eexists _, _. split; [done|]. split; [|by eexists]. by apply (Inv_push m gp1 gc s). }
  intros ? [g ->]. set (gp2 := mk_gp (wlog gp ++ [Held g false []]) false (gwi gp)).
  assert (Hk : wlog gp2 !! W = Some (Held g false [])) by (by apply list_lookup_middle).
  eapply (wp_read _ _ _ _ _ _ _ _ (fun g' => g' = g)); [by intros ? [= <-]; right; exists W, g, false, []| |intros ? ->].
  { intros m gc Hi. destruct (held_window m gp2 gc W g false [] Hi Hk) as [Hwin Hn].
    destruct (Inv_slot m gp2 gc W Hi Hwin) as (b & s & w & _ & _ & Es & Ew & _ & _ & Hok). cbn [handle].
    rewrite Hk in Ew. injection Ew as <-. rewrite Hn in Hok. destruct Hok as [Hgen _].
    fold j in Es. rewrite (load_Done _ _ _ Es). exists g. split; [|done]. by rewrite <-Hgen. }
  eapply (wp_read _ _ _ _ _ _ _ _ (fun i => i = j)); [by intros ? [= <-]| |intros ? ->].
  { intros m gc (b & _ & _ & _ & Hwi & _). cbn. rewrite Hwi. cbn. rewrite Hg. by exists j. }
  eapply (wp_write _ _ _ _ _ _ _ _ (fun g1 => g1 = mk_gp (wlog gp ++ [Held g false []]) false (next_index j)));
    [by intros ? [= <-]| |intros ? ->].
  { intros m gc (b & Hrest). cbn. eexists _, _. split; [done|]. split; [|done]. exists b. cbn. by destruct_and! Hrest. }
  cbn. left. exists g. split; [done|]. f_equal. apply next_index_mod.
Qed.

(** A slot the producer holds, and its handle. *)
Definition w_handle (k : nat) (g : Z) : buffer_handle := mk_handle (Some (k mod N_BUFFERS)%nat) g m_write.

Lemma held_slot m gp gc k g z xs :
  Inv m gp gc -> wlog gp !! k = Some (Held g z xs) ->
  exists b s, buffers_ m = Some b /\ length b = (N_BUFFERS * BUFFER_SIZE)%nat
    /\ descriptor_items_ m !! (k mod N_BUFFERS)%nat = Some s /\ window (length (wlog gp)) k /\ rlog gc !! k = None
    /\ pbuffer s = Some (k mod N_BUFFERS * BUFFER_SIZE)%nat /\ state s = writing /\ generation s = g
    /\ (z = true -> size s = length xs) /\ take (length xs) (cells b (k mod N_BUFFERS)) = xs.
Proof.
  intros Hi Hk. destruct (held_window m gp gc k g z xs Hi Hk) as [Hwin Hn].
  destruct (Inv_slot m gp gc k Hi Hwin) as (b & s & w & Eb & Hlb & Es & Ew & Hp & Hst & Hok).
  rewrite Hk in Ew. injection Ew as <-. rewrite Hn in Hst, Hok. destruct Hok as (? & ? & ?). by exists b, s.
Qed.

Lemma wp_held_is_write {A} gp k g z xs (f : bool -> prog eff A) Q :
  wlog gp !! k = Some (Held g z xs) -> wpp (f true) Q gp -> wpp (w ← is_write (w_handle k g); f w) Q gp.
Proof.
  intros Hk Hf. unfold is_write, handle_is_valid. cbn [item_ w_handle generation_ mode_].
  eapply (wp_read _ _ _ _ _ _ _ _ (fun g' => g' = g)); [by intros ? [= <-]; right; exists k, g, z, xs| |intros ? ->].
  { intros m gc Hi. destruct (held_slot m gp gc k g z xs Hi Hk) as (b & s & _ & _ & Es & _ & _ & _ & _ & Hg & _).
    cbn [handle]. rewrite (load_Done _ _ _ Es). exists g. split; [|done]. by rewrite <-Hg. }
  cbn [prog_bind]. rewrite Z.eqb_refl. cbn [negb].
  eapply (wp_read _ _ _ _ _ _ _ _ (fun st => st = writing)); [done| |intros ? ->; exact Hf].
  intros m gc Hi. destruct (held_slot m gp gc k g z xs Hi Hk) as (b & s & _ & _ & Es & _ & _ & _ & Hst & _).
  cbn [handle]. rewrite (load_Done _ _ _ Es). exists writing. split; [|done]. by rewrite <-Hst.
Qed.

Lemma wp_held_write_view {A} gp k g z xs (f : option nat * nat -> prog eff A) Q :
  wlog gp !! k = Some (Held g z xs) -> wpp (f (Some (k mod N_BUFFERS * BUFFER_SIZE)%nat, BUFFER_SIZE)) Q gp ->
  wpp (v ← write_view (w_handle k g); f v) Q gp.
Proof.
  intros Hk Hf. unfold write_view. eapply wp_bind. eapply wp_held_is_write; [done|]. cbn [negb].
  eapply (wp_read _ _ _ _ _ _ _ _ (fun p => p = Some (k mod N_BUFFERS * BUFFER_SIZE)%nat)); [done| |intros ? ->; exact Hf].
  intros m gc Hi. destruct (held_slot m gp gc k g z xs Hi Hk) as (b & s & _ & _ & Es & _ & _ & Hp & _).
  cbn [handle item item_ w_handle]. rewrite (load_Done _ _ _ Es). eexists. split; [done|exact Hp].
Qed.

Definition set_tick (gp : gproducer) (k : nat) (w : tick) : gproducer :=
  mk_gp (<[k := w]> (wlog gp)) (claim gp) (gwi gp).

(** The producer changing a slot it holds. *)
Lemma held_update m gp gc k g z xs w' s' b b' :
  Inv m gp gc -> claim gp = false -> wlog gp !! k = Some (Held g z xs) -> buffers_ m = Some b ->
  length b' = length b -> (forall j, j <> (k mod N_BUFFERS)%nat -> cells b' j = cells b j) ->
  slot_ok b' (k mod N_BUFFERS) s' w' None ->
  Inv (mk_spsc (Some b') (<[(k mod N_BUFFERS)%nat := s']> (descriptor_items_ m)) (write_index_ m) (read_index_ m))
    (set_tick gp k w') gc.
Proof.
  intros Hi Hc Hk Eb Hlb Hcells Hok. destruct (held_window m gp gc k g z xs Hi Hk) as [Hwin Hn].
  apply lookup_lt_Some in Hk as Hkl. unfold set_tick.
  apply (Inv_update m gp gc k b b' s' w'); try done; cbn [wlog claim gwi].
  - apply length_insert.
  - by apply list_lookup_insert_eq.
  - intros k' Hk'. by rewrite list_lookup_insert_ne.
  - by rewrite Hn.
  - by rewrite Hn.
  - by rewrite Hc.
  - destruct Hi as (? & _ & _ & _ & _ & _ & _ & _ & _ & _ & _ & Hrc). intros Hrc'. destruct (Hrc Hrc') as [zs Hz].
    exists zs. rewrite list_lookup_insert_ne; [done|]. intros ->. congruence.
Qed.

(** The other slots' cells are untouched by a write to cell [i] of slot [j]. *)
Lemma cells_other (b : list T) j i v j' :
  (i < BUFFER_SIZE)%nat -> j' <> j -> cells (<[(j * BUFFER_SIZE + i)%nat := v]> b) j' = cells b j'.
Proof.
  intros Hi Hj. unfold cells. destruct (Nat.lt_trichotomy j' j) as [Hlt|[|Hlt]]; [|done|].
  - apply list_eq. intros n. destruct (Nat.lt_ge_cases n BUFFER_SIZE); [|by rewrite !lookup_take_ge].
    rewrite !lookup_take_lt, !lookup_drop by done. apply list_lookup_insert_ne. nia.
  - rewrite drop_insert_lt by nia. done.
Qed.

Lemma cells_same (b : list T) j i v :
  (i < BUFFER_SIZE)%nat -> (j < N_BUFFERS)%nat -> length b = (N_BUFFERS * BUFFER_SIZE)%nat ->
  take (S i) (cells (<[(j * BUFFER_SIZE + i)%nat := v]> b) j) = take i (cells b j) ++ [v].
Proof.
  intros Hi Hj Hb. assert (Hlt : (j * BUFFER_SIZE + i < length b)%nat) by nia.
  unfold cells. rewrite !take_take, !Nat.min_l by lia. rewrite drop_insert_ge by lia.
  replace (j * BUFFER_SIZE + i - j * BUFFER_SIZE)%nat with i by lia.
  erewrite take_S_r; [|by apply list_lookup_insert_eq; rewrite length_drop; lia].
  by rewrite take_insert_ge by lia.
Qed.

Lemma desc_wp_write_cells {A} gp k g xs ys (f : unit -> prog eff A) Q :
  wlog gp !! k = Some (Held g false ys) -> claim gp = false -> (length ys + length xs <= BUFFER_SIZE)%nat ->
  wpp (f tt) Q (set_tick gp k (Held g false (ys ++ xs))) ->
  wpp (u ← write_cells (k mod N_BUFFERS * BUFFER_SIZE + length ys) xs; f u) Q gp.
Proof.
  revert gp ys. induction xs as [|x xs IH]; intros gp ys Hk Hc Hl Hf; cbn [write_cells length] in *.
  { rewrite app_nil_r in Hf. unfold set_tick in Hf. rewrite list_insert_id in Hf by done. by destruct gp. }
  eapply (wp_write _ _ _ _ (WriteCell _ x) (fun _ => u ← write_cells _ xs; f u) _ _
            (fun g1 => g1 = set_tick gp k (Held g false (ys ++ [x])))); [| |intros ? ->].
  - intros ? [= <-]. cbn. right. exists k, g, false, ys. split; [done|].
    rewrite Nat.div_add_l, Nat.div_small by lia. lia.
  - intros m gc Hi. destruct (held_slot m gp gc k g false ys Hi Hk) as (b & s & Eb & Hlb & Es & Hwin & Hn & Hp & Hst & Hg & _ & Hys).
    assert (Hj : (k mod N_BUFFERS < N_BUFFERS)%nat) by (apply Nat.mod_upper_bound; lia).
    cbn [handle]. unfold on_buffers. rewrite Eb, store_Done by nia. exec_simpl. eexists _, _. split; [done|]. split; [|done].
    rewrite <-(list_insert_id _ _ _ Es). eapply held_update; [done..| | |].
    + apply length_insert.
    + intros j' Hj'. apply cells_other; [lia|done].
    + split_and!; [done..|]. rewrite length_app, Nat.add_1_r, cells_same by (done || lia). by rewrite Hys.
  - replace (S (k mod N_BUFFERS * BUFFER_SIZE + length ys)) with (k mod N_BUFFERS * BUFFER_SIZE + length (ys ++ [x]))%nat
      by (rewrite length_app; cbn; lia).
    apply IH; [by apply list_lookup_insert_eq; eapply lookup_lt_Some|done|rewrite length_app; cbn; lia|].
    unfold set_tick in *. cbn [wlog claim gwi]. by rewrite list_insert_insert_eq, <-app_assoc.
Qed.

Lemma wp_commit {A} gp k g xs (f : status -> prog eff A) Q :
  wlog gp !! k = Some (Held g false xs) -> claim gp = false -> (length xs <= BUFFER_SIZE)%nat ->
  wpp (f s_ok) Q (set_tick gp k (Sent xs)) -> wpp (st ← commit (w_handle k g) (length xs); f st) Q gp.
Proof.
  intros Hk Hc Hl HQ. unfold commit. apply wp_bind. eapply wp_held_is_write; [done|]. cbn [negb item item_ w_handle].
  rewrite (proj2 (Nat.ltb_ge _ _)) by done. apply lookup_lt_Some in Hk as Hkl.
  set (gp1 := set_tick gp k (Held g true xs)).
  assert (Hk1 : wlog gp1 !! k = Some (Held g true xs)) by (by apply list_lookup_insert_eq).
  eapply (wp_write _ _ _ _ _ _ _ _ (fun g1 => g1 = gp1)); [by intros ? [= <-]; right; exists k, g, false, xs| |intros ? ->].
  { intros m gc Hi. destruct (held_slot m gp gc k g false xs Hi Hk) as (b & s & Eb & Hlb & Es & Hwin & Hn & Hp & Hst & Hg & _ & Hxs).
    cbn [handle]. rewrite (on_slot_update _ _ _ _ Es), Eb. eexists _, _. split; [done|]. split; [|done].
    by eapply held_update. }
  eapply (wp_write _ _ _ _ _ _ _ _ (fun g1 => g1 = set_tick gp k (Sent xs))); [done| |intros ? ->; exact HQ].
  intros m gc Hi. destruct (held_slot m gp1 gc k g true xs Hi Hk1) as (b & s & Eb & Hlb & Es & Hwin & Hn & Hp & Hst & Hg & Hsz & Hxs).
  cbn [handle]. rewrite (on_slot_update _ _ _ _ Es), Eb. eexists _, _. split; [done|]. split; [|done].
  replace (set_tick gp k (Sent xs)) with (set_tick gp1 k (Sent xs)) by (unfold gp1, set_tick; cbn; by rewrite list_insert_insert_eq).
  eapply held_update; try done. split_and!; [done..|by apply Hsz|done].
Qed.

(** What the producer's results say of its log. *)
Definition sent_log (sent : list (option (list T))) (gp : gproducer) : Prop :=
  length (wlog gp) = (N_BUFFERS + length sent)%nat
  /\ forall k xs, sent !! k = Some (Some xs) <-> wlog gp !! (N_BUFFERS + k)%nat = Some (Sent xs) /\ (k < length sent)%nat.

Definition producer_ok (hs : held) (sent : list (option (list T))) (gp : gproducer) : Prop :=
  claim gp = false /\ gwi gp = (length (wlog gp) mod N_BUFFERS)%nat /\ sent_log sent gp
  /\ NoDup hs.*1
  /\ forall k h, (k, h) ∈ hs -> exists g, wlog gp !! (N_BUFFERS + k)%nat = Some (Held g false []) /\ h = w_handle (N_BUFFERS + k) g.

Lemma producer_acquired hs sent gp g :
  producer_ok hs sent gp ->
  producer_ok (hs ++ [(length sent, w_handle (length (wlog gp)) g)]) (sent ++ [None])
    (mk_gp (wlog gp ++ [Held g false []]) false (S (length (wlog gp)) mod N_BUFFERS)%nat).
Proof.
  intros (Hc & Hg & [Hl Hs] & Hnd & Hh). unfold producer_ok, sent_log. cbn [claim gwi wlog].
  rewrite !length_app. cbn [length]. split_and!; [done|by rewrite Nat.add_1_r|lia|..].
  - intros k xs. split.
    + intros E. apply lookup_snoc_Some in E as [[Hk E]|[_ E]]; [|done]. apply Hs in E as [E _].
      split; [by apply lookup_app_l_Some|lia].
    + intros [E Hk]. apply lookup_snoc_Some in E as [[Hk' E]|[_ E]]; [|done].
      apply lookup_app_l_Some, Hs. split; [done|lia].
  - rewrite fmap_app, NoDup_app. split_and!; [done| |apply NoDup_singleton].
    intros k Hk Hin. apply list_elem_of_fmap in Hk as ([k' h] & -> & Hk). cbn in Hin. apply list_elem_of_singleton in Hin as ->.
    destruct (Hh _ _ Hk) as (g' & E & _). apply lookup_lt_Some in E. lia.
  - intros k h Hin. apply elem_of_app in Hin as [Hin|Hin].
    + destruct (Hh _ _ Hin) as (g' & E & ->). exists g'. split; [by apply lookup_app_l_Some|done].
    + apply list_elem_of_singleton in Hin as [= -> ->]. exists g. rewrite <-Hl. split; [by apply list_lookup_middle|done].
Qed.

Lemma held_delete (hs : held) which k h :
  NoDup hs.*1 -> hs !! which = Some (k, h) ->
  NoDup (delete which hs).*1 /\ forall k' h', (k', h') ∈ delete which hs -> (k', h') ∈ hs /\ k' <> k.
Proof.
  intros Hnd Hw. pose proof (fmap_Permutation fst _ _ (delete_Permutation _ _ _ Hw)) as Hp. rewrite Hp in Hnd.
  cbn in Hnd. apply NoDup_cons in Hnd as [Hk Hnd]. split; [done|]. intros k' h' Hin.
  split; [by eapply list_elem_of_delete_inv|]. intros ->. apply Hk. apply list_elem_of_fmap. by exists (k, h').
Qed.

Lemma producer_sent hs sent gp which k h xs :
  producer_ok hs sent gp -> hs !! which = Some (k, h) ->
  producer_ok (delete which hs) (<[k := Some xs]> sent) (set_tick gp (N_BUFFERS + k) (Sent xs)).
Proof.
  intros (Hc & Hg & [Hl Hs] & Hnd & Hh) Hw. destruct (Hh k h) as (g & Hk & ->); [by eapply list_elem_of_lookup_2|].
  apply lookup_lt_Some in Hk as Hkl. unfold producer_ok, sent_log, set_tick. cbn [claim gwi wlog].
  rewrite !length_insert. split_and!; [done..| | |].
  - intros k' ys. destruct (decide (k' = k)) as [->|Hne].
    + rewrite !list_lookup_insert_eq by lia. split; [intros [= ->]; split; [done|lia]|by intros [[= ->] _]].
    + rewrite !list_lookup_insert_ne by lia. apply Hs.
  - by eapply held_delete.
  - intros k' h' Hin. destruct (held_delete _ _ _ _ Hnd Hw) as [_ Hd]. destruct (Hd k' h' Hin) as [Hin' Hne].
    destruct (Hh k' h' Hin') as (g' & E & ->). exists g'. rewrite list_lookup_insert_ne by lia. done.
Qed.

Lemma desc_wp_producer cmds hs sent gp :
  producer_ok hs sent gp -> wpp (producer cmds hs sent) (fun sent gp => exists hs, producer_ok hs sent gp) gp.
Proof.
  revert hs sent gp. induction cmds as [|[|which xs] cmds IH]; intros hs sent gp Hok; cbn [producer].
  - by exists hs.
  - apply wp_bind. eapply wp_mono; [|apply wp_acquire_write; apply Hok].
    intros [st h] gp' [(g & [= -> ->] & ->)|[[= -> ->] ->]]; cbn zeta; rewrite ?bool_decide_true by done.
    + by apply IH, producer_acquired.
    + by apply IH.
  - destruct (hs !! which) as [[k h]|] eqn:Hw; [|by apply IH].
    pose proof Hok as (Hc & _ & _ & _ & Hh). destruct (Hh k h) as (g & Hk & ->); [by eapply list_elem_of_lookup_2|].
    eapply wp_held_write_view; [done|]. destruct (Nat.ltb_spec BUFFER_SIZE (length xs)); [by apply IH|].
    pose proof (fun f => desc_wp_write_cells (A := list (option (list T))) gp (N_BUFFERS + k) g xs [] f (fun sent gp => exists hs, producer_ok hs sent gp) Hk Hc) as Hcells.
    cbn [length app] in Hcells. rewrite Nat.add_0_r in Hcells. apply Hcells; [lia|].
    apply lookup_lt_Some in Hk as Hkl.
    apply wp_commit; [by apply list_lookup_insert_eq|done|lia|]. rewrite bool_decide_true by done.
    replace (set_tick (set_tick gp (N_BUFFERS + k) _) (N_BUFFERS + k) (Sent xs)) with (set_tick gp (N_BUFFERS + k) (Sent xs))
      by (unfold set_tick; cbn; by rewrite list_insert_insert_eq).
    by eapply IH, producer_sent.
Qed.

(** ** The consumer *)

(** A slot the producer has claimed is free. *)
Lemma busy_not_claimed m gp gc k s :
  Inv m gp gc -> descriptor_items_ m !! (k mod N_BUFFERS)%nat = Some s -> state s <> free ->
  claim gp = true -> k <> (length (wlog gp) - N_BUFFERS)%nat.
Proof.
  intros (b & _ & _ & _ & _ & _ & HnW & _ & _ & _ & Hcl & _) Es Hst Hc ->. destruct (Hcl Hc) as (s' & Es' & Hf).
  rewrite next_mod in Es by done. congruence.
Qed.

(** The next slot to read is ready when its ticket has been sent. *)
Lemma next_read m gp gc :
  Inv m gp gc -> exists s,
    descriptor_items_ m !! (length (rlog gc) mod N_BUFFERS)%nat = Some s
    /\ (state s = ready <-> exists xs, wlog gp !! length (rlog gc) = Some (Sent xs)).
Proof.
  intros Hi. pose proof Hi as (b & Eb & Hlb & Hli & _ & _ & HnW & Hr & Hold & Hwin & _).
  assert (HRW : (length (rlog gc) <= length (wlog gp))%nat).
  { destruct (Nat.le_gt_cases (length (rlog gc)) (length (wlog gp))) as [|Hgt]; [done|].
    destruct (lookup_lt_is_Some_2 (rlog gc) (length (wlog gp)) Hgt) as [r E]. apply Hr, lookup_lt_Some in E. lia. }
  assert (HNone : rlog gc !! length (rlog gc) = None) by (apply lookup_ge_None; lia).
  destruct (decide (length (rlog gc) = length (wlog gp))) as [E|Hne].
  - destruct (Hwin _ (next_window _ HnW)) as (s & w & Es & Ew & _ & Hst & Hok). rewrite next_mod in Es by done.
    exists s. rewrite E. split; [done|]. destruct (lookup_lt_is_Some_2 (rlog gc) (length (wlog gp) - N_BUFFERS)) as [r Er]; [lia|].
    rewrite Er in *. split; [|intros [xs Hx]; apply lookup_lt_Some in Hx; lia].
    intros Hs. rewrite Hs in Hst. destruct w as [|ys]; [done|]. cbn in Hst. by destruct (is_released r).
  - destruct (Hwin (length (rlog gc))) as (s & w & Es & Ew & _ & Hst & Hok).
    { apply (unreleased_window m gp gc); [done|lia|by rewrite HNone]. }
    exists s. split; [done|]. rewrite HNone in *. rewrite Hst, Ew. destruct w as [|xs]; cbn; split; intros H; try done.
    + by destruct H.
    + by exists xs.
Qed.

Definition set_rtick (gc : gconsumer) (k : nat) (r : rtick) : gconsumer :=
  mk_gc (<[k := r]> (rlog gc)) (rclaim gc) (gri gc).
Definition r_handle (k : nat) (g : Z) : buffer_handle := mk_handle (Some (k mod N_BUFFERS)%nat) g m_read.

Definition after_acquire_read (gc : gconsumer) (r : status * buffer_handle) (gc' : gconsumer) : Prop :=
  (exists g xs, r = (s_ok, r_handle (length (rlog gc)) g) /\ (length xs <= BUFFER_SIZE)%nat
     /\ gc' = mk_gc (rlog gc ++ [RHeld g xs]) false (S (length (rlog gc)) mod N_BUFFERS)%nat)
  \/ (r = (s_empty, no_handle) /\ gc' = gc).

Lemma read_claimed m gp gc s :
  Inv m gp gc -> rclaim gc = true -> descriptor_items_ m !! (length (rlog gc) mod N_BUFFERS)%nat = Some s ->
  exists xs, (length xs <= BUFFER_SIZE)%nat /\
  Inv (set_items m (<[(length (rlog gc) mod N_BUFFERS)%nat := mk_slot (pbuffer s) reading (size s) (generation s)]> (descriptor_items_ m)))
    gp (mk_gc (rlog gc ++ [RHeld (generation s) xs]) false (gri gc)).
Proof.
  intros Hi Hc Es. pose proof Hi as (b & Eb & _ & _ & _ & _ & _ & _ & _ & _ & _ & Hrc). destruct (Hrc Hc) as [xs Hx].
  assert (HNone : rlog gc !! length (rlog gc) = None) by (apply lookup_ge_None; lia).
  assert (Hwin : window (length (wlog gp)) (length (rlog gc))).
  { apply (unreleased_window m gp gc); [done|by eapply lookup_lt_Some|by rewrite HNone]. }
  destruct (Inv_slot m gp gc _ Hi Hwin) as (b0 & s0 & w & Eb0 & _ & Es0 & Ew & Hp & Hst & Hok). simplify_eq.
  rewrite HNone in Hst, Hok. exists xs. split.
  { destruct Hok as [_ Hx']. rewrite <-Hx', length_take. unfold cells. rewrite length_take. lia. }
  unfold set_items. rewrite Eb.
  apply (Inv_update m gp gc _ b b _ (Sent xs)); try done; cbn [rlog rclaim gri].
  - intros k' Hk'. destruct (decide (k' < length (rlog gc))%nat); [by rewrite lookup_app_l|].
    rewrite !lookup_ge_None_2; [done| |]; rewrite ?length_app; cbn; lia.
  - intros r. rewrite list_lookup_middle by done. by intros [= <-].
  - rewrite list_lookup_middle by done. by destruct Hok.
  - intros Hcl. split; [done|]. intros E. destruct (busy_not_claimed m gp gc (length (rlog gc)) s); try done. by rewrite Hst.
Qed.

Lemma rheld_slot m gp gc k r :
  Inv m gp gc -> rlog gc !! k = Some r -> is_released r = false ->
  exists b s, buffers_ m = Some b /\ length b = (N_BUFFERS * BUFFER_SIZE)%nat
    /\ descriptor_items_ m !! (k mod N_BUFFERS)%nat = Some s /\ window (length (wlog gp)) k
    /\ wlog gp !! k = Some (Sent (payload r)) /\ pbuffer s = Some (k mod N_BUFFERS * BUFFER_SIZE)%nat /\ state s = reading
    /\ slot_ok b (k mod N_BUFFERS) s (Sent (payload r)) (Some r).
Proof.
  intros Hi Hk Hr. destruct (rheld_window m gp gc k r Hi Hk Hr) as [Hwin Hw].
  destruct (Inv_slot m gp gc k Hi Hwin) as (b & s & w & Eb & Hlb & Es & Ew & Hok). rewrite Hw in Ew. injection Ew as <-.
  rewrite Hk in Hok. exists b, s. destruct Hok as (Hp & Hst & Hok). split_and!; try done.
  rewrite Hst. cbn. by rewrite Hr.
Qed.

Lemma wp_acquire_read gc :
  rclaim gc = false -> gri gc = (length (rlog gc) mod N_BUFFERS)%nat ->
  wpc acquire_read (after_acquire_read gc) gc.
Proof.
  intros Hc Hg. unfold acquire_read. set (R := length (rlog gc)). set (j := (R mod N_BUFFERS)%nat).
  eapply (wp_read _ _ _ _ IsNull _ _ _ (fun r => r = false)); [done| |intros ? ->; cbn [prog_bind negb]].
  { intros m gp (b & Eb & _). cbn. rewrite Eb. by exists false. }
  eapply (wp_read _ _ _ _ _ _ _ _ (fun i => i = j)); [by intros ? [= <-]| |intros ? ->].
  { intros m gp (b & _ & _ & _ & _ & Hri & _). cbn. rewrite Hri, Hg. by exists j. }
  set (gc1 := mk_gc (rlog gc) true (gri gc)).
  eapply (wp_act _ _ _ _ _ _ _ _ (fun s g1 => s = ready /\ g1 = gc1 \/ s <> ready /\ g1 = gc)); [done| |].
  { intros m gp Hi. destruct (next_read m gp gc Hi) as (s & Es & Hs). fold R j in Es. cbn [handle]. rewrite (load_Done _ _ _ Es). exec_simpl.
    destruct (decide (state s = ready)) as [E|E].
    - exists (state s), m, gc1. split_and!; [done| |by left]. destruct Hi as (b & Hrest). exists b. destruct_and! Hrest.
      split_and!; try done. intros _. by apply Hs.
    - exists (state s), m, gc. split_and!; [done..|by right]. }
  intros st g1 [[-> ->]|[Hne ->]]; [rewrite bool_decide_true by done|rewrite bool_decide_false by done; by right]. cbn [negb].
  eapply (wp_write _ _ _ _ _ _ _ _ (fun g1 => exists g xs, (length xs <= BUFFER_SIZE)%nat /\ g1 = mk_gc (rlog gc ++ [RHeld g xs]) false (gri gc))); [done| |].
  { intros m gp Hi. destruct (next_read m gp gc1 Hi) as (s & Es & _). fold R j in Es. cbn [handle]. rewrite (on_slot_update _ _ _ _ Es).
    destruct (read_claimed m gp gc1 s Hi eq_refl Es) as (xs & Hlen & Hi'). eexists _, _. split; [done|]. split; [exact Hi'|by eexists _, _]. }
  intros ? (g & xs & Hlen & ->). set (gc2 := mk_gc (rlog gc ++ [RHeld g xs]) false (gri gc)).
  assert (Hk : rlog gc2 !! R = Some (RHeld g xs)) by (by apply list_lookup_middle).
  eapply (wp_read _ _ _ _ _ _ _ _ (fun g' => g' = g)); [by intros ? [= <-]; exists R, (RHeld g xs)| |intros ? ->].
  { intros m gp Hi. destruct (rheld_slot m gp gc2 R _ Hi Hk eq_refl) as (b & s & _ & _ & Es & _ & _ & _ & _ & _ & _ & Hgen & _).
    cbn [handle]. fold j in Es. rewrite (load_Done _ _ _ Es). exists g. split; [|done]. by rewrite <-Hgen. }
  eapply (wp_read _ _ _ _ _ _ _ _ (fun i => i = j)); [by intros ? [= <-]| |intros ? ->].
  { intros m gp (b & _ & _ & _ & _ & Hri & _). cbn. rewrite Hri. cbn. rewrite Hg. by exists j. }
  eapply (wp_write _ _ _ _ _ _ _ _ (fun g1 => g1 = mk_gc (rlog gc ++ [RHeld g xs]) false (next_index j)));
    [by intros ? [= <-]| |intros ? ->].
  { intros m gp (b & Hrest). cbn. eexists _, _. split; [done|]. split; [|done]. exists b. cbn. by destruct_and! Hrest. }
  cbn. left. exists g, xs. split_and!; [done..|]. f_equal. apply next_index_mod.
Qed.

Lemma wp_held_is_read {A} gc k g xs (f : bool -> prog eff A) Q :
  rlog gc !! k = Some (RHeld g xs) -> wpc (f true) Q gc -> wpc (w ← is_read (r_handle k g); f w) Q gc.
Proof.
  intros Hk Hf. unfold is_read, handle_is_valid. cbn [item_ r_handle generation_ mode_].
  eapply (wp_read _ _ _ _ _ _ _ _ (fun g' => g' = g)); [by intros ? [= <-]; exists k, (RHeld g xs)| |intros ? ->].
  { intros m gp Hi. destruct (rheld_slot m gp gc k _ Hi Hk eq_refl) as (b & s & _ & _ & Es & _ & _ & _ & _ & _ & _ & Hg & _).
    cbn [handle]. rewrite (load_Done _ _ _ Es). exists g. split; [|done]. by rewrite <-Hg. }
  cbn [prog_bind]. rewrite Z.eqb_refl. cbn [negb].
  eapply (wp_read _ _ _ _ _ _ _ _ (fun st => st = reading)); [done| |intros ? ->; exact Hf].
  intros m gp Hi. destruct (rheld_slot m gp gc k _ Hi Hk eq_refl) as (b & s & _ & _ & Es & _ & _ & _ & Hst & _).
  cbn [handle]. rewrite (load_Done _ _ _ Es). exists reading. split; [|done]. by rewrite <-Hst.
Qed.

Lemma wp_held_read_view {A} gc k g xs (f : option nat * nat -> prog eff A) Q :
  rlog gc !! k = Some (RHeld g xs) -> wpc (f (Some (k mod N_BUFFERS * BUFFER_SIZE)%nat, length xs)) Q gc ->
  wpc (v ← read_view (r_handle k g); f v) Q gc.
Proof.
  intros Hk Hf. unfold read_view. eapply wp_bind. eapply wp_held_is_read; [done|]. cbn [negb].
  eapply (wp_read _ _ _ _ _ _ _ _ (fun p => p = Some (k mod N_BUFFERS * BUFFER_SIZE)%nat)); [done| |intros ? ->].
  { intros m gp Hi. destruct (rheld_slot m gp gc k _ Hi Hk eq_refl) as (b & s & _ & _ & Es & _ & _ & Hp & _).
    cbn [handle item item_ r_handle]. rewrite (load_Done _ _ _ Es). eexists. split; [done|exact Hp]. }
  eapply (wp_read _ _ _ _ _ _ _ _ (fun n => n = length xs)); [by intros ? [= <-]; exists k, (RHeld g xs)| |intros ? ->; exact Hf].
  intros m gp Hi. destruct (rheld_slot m gp gc k _ Hi Hk eq_refl) as (b & s & _ & _ & Es & _ & _ & _ & _ & _ & _ & _ & Hn & _).
  cbn [handle item item_ r_handle]. rewrite (load_Done _ _ _ Es). eexists. split; [done|exact Hn].
Qed.

Lemma cells_lookup (b : list T) j xs i x :
  take (length xs) (cells b j) = xs -> xs !! i = Some x ->
  (i < BUFFER_SIZE)%nat /\ b !! (j * BUFFER_SIZE + i)%nat = Some x.
Proof.
  intros Hx Hi. rewrite <-Hx in Hi. unfold cells in Hi. rewrite take_take in Hi.
  apply lookup_take_Some in Hi as [Hi Hlt]. rewrite lookup_drop in Hi. split; [lia|done].
Qed.

Lemma desc_wp_read_cells {A} gc k g xs i n (f : list T -> prog eff A) Q :
  rlog gc !! k = Some (RHeld g xs) -> (length xs <= BUFFER_SIZE)%nat -> (i + n = length xs)%nat ->
  wpc (f (drop i xs)) Q gc -> wpc (u ← read_cells (k mod N_BUFFERS * BUFFER_SIZE + i) n; f u) Q gc.
Proof.
  intros Hk Hl. revert A i f Q. induction n as [|n IH]; intros A i f Q Hn Hf; cbn [read_cells].
  { rewrite drop_ge in Hf by lia. exact Hf. }
  destruct (lookup_lt_is_Some_2 xs i) as [x Hx]; [lia|]. rewrite (drop_S _ _ _ Hx) in Hf.
  apply wp_bind. eapply (wp_read _ _ _ _ _ _ _ _ (fun v => v = x)); [| |intros ? ->].
  - intros ? [= <-]. exists k, (RHeld g xs). split_and!; [done..|]. rewrite Nat.div_add_l, Nat.div_small by lia. lia.
  - intros m gp Hi. destruct (rheld_slot m gp gc k _ Hi Hk eq_refl) as (b & s & Eb & _ & _ & _ & _ & _ & _ & _ & _ & _ & _ & Hxs).
    destruct (cells_lookup _ _ _ _ _ Hxs Hx) as [_ Hb]. cbn [handle]. unfold on_buffers. rewrite Eb, (load_Done _ _ _ Hb).
    exec_simpl. exists x. split; [|done]. destruct m; cbn in *; by subst.
  - rewrite plus_n_Sm. apply (IH _ (S i) (fun ys => Ret (x :: ys)) (fun a g => wpc (f a) Q g)); [lia|exact Hf].
Qed.

(** The consumer changing a slot it holds. *)
Lemma rheld_update m gp gc k r r' s' b :
  Inv m gp gc -> rclaim gc = false -> rlog gc !! k = Some r -> is_released r = false -> payload r' = payload r ->
  buffers_ m = Some b -> slot_ok b (k mod N_BUFFERS) s' (Sent (payload r)) (Some r') ->
  Inv (mk_spsc (buffers_ m) (<[(k mod N_BUFFERS)%nat := s']> (descriptor_items_ m)) (write_index_ m) (read_index_ m))
    gp (set_rtick gc k r').
Proof.
  intros Hi Hc Hk Hr Hp Eb Hok. destruct (rheld_slot m gp gc k r Hi Hk Hr) as (b0 & s & Eb0 & _ & Es & Hwin & Hw & _ & Hst & _).
  apply lookup_lt_Some in Hk as Hkl. rewrite Eb. unfold set_rtick.
  apply (Inv_update m gp gc k b b s' (Sent (payload r))); try done; cbn [rlog rclaim gri].
  - intros k' Hk'. by rewrite list_lookup_insert_ne.
  - intros r0. rewrite list_lookup_insert_eq by done. intros [= <-]. by rewrite Hp.
  - by rewrite list_lookup_insert_eq.
  - intros Hcl. split; [done|]. intros E. destruct (busy_not_claimed m gp gc k s); try done. by rewrite Hst.
  - by rewrite Hc.
Qed.

Lemma wp_release {A} gc k g xs (f : status -> prog eff A) Q :
  rlog gc !! k = Some (RHeld g xs) -> rclaim gc = false ->
  wpc (f s_ok) Q (set_rtick gc k (Released xs)) -> wpc (st ← release (r_handle k g); f st) Q gc.
Proof.
  intros Hk Hc HQ. unfold release. apply wp_bind. eapply wp_held_is_read; [done|]. cbn [negb item item_ r_handle].
  apply lookup_lt_Some in Hk as Hkl. set (gc1 := set_rtick gc k (RClosing g xs)).
  assert (Hk1 : rlog gc1 !! k = Some (RClosing g xs)) by (by apply list_lookup_insert_eq).
  eapply (wp_write _ _ _ _ _ _ _ _ (fun g1 => g1 = gc1)); [by intros ? [= <-]; exists k, (RHeld g xs)| |intros ? ->].
  { intros m gp Hi. destruct (rheld_slot m gp gc k _ Hi Hk eq_refl) as (b & s & Eb & _ & Es & _ & _ & Hp & Hst & _ & _ & Hg & _).
    cbn [handle]. rewrite (on_slot_update _ _ _ _ Es). eexists _, _. split; [done|]. split; [|done].
    by eapply rheld_update. }
  eapply (wp_write _ _ _ _ _ _ _ _ (fun g1 => g1 = set_rtick gc k (Released xs))); [done| |intros ? ->; exact HQ].
  intros m gp Hi. destruct (rheld_slot m gp gc1 k _ Hi Hk1 eq_refl) as (b & s & Eb & _ & Es & _ & _ & Hp & _).
  cbn [handle]. rewrite (on_slot_update _ _ _ _ Es). eexists _, _. split; [done|]. split; [|done].
  replace (set_rtick gc k (Released xs)) with (set_rtick gc1 k (Released xs)) by (unfold gc1, set_rtick; cbn; by rewrite list_insert_insert_eq).
  by eapply rheld_update.
Qed.

(** What the consumer's results say of its log. *)
Definition received_log (received : list (option (list T))) (gc : gconsumer) : Prop :=
  length (rlog gc) = (N_BUFFERS + length received)%nat
  /\ (forall k, (k < N_BUFFERS)%nat -> rlog gc !! k = Some (Released []))
  /\ forall k xs, received !! k = Some (Some xs) <-> rlog gc !! (N_BUFFERS + k)%nat = Some (Released xs).

Definition consumer_ok (hs : held) (received : list (option (list T))) (gc : gconsumer) : Prop :=
  rclaim gc = false /\ gri gc = (length (rlog gc) mod N_BUFFERS)%nat /\ received_log received gc
  /\ NoDup hs.*1
  /\ forall k h, (k, h) ∈ hs -> exists g xs, rlog gc !! (N_BUFFERS + k)%nat = Some (RHeld g xs)
       /\ (length xs <= BUFFER_SIZE)%nat /\ h = r_handle (N_BUFFERS + k) g.

Lemma consumer_acquired hs received gc g xs :
  consumer_ok hs received gc -> (length xs <= BUFFER_SIZE)%nat ->
  consumer_ok (hs ++ [(length received, r_handle (length (rlog gc)) g)]) (received ++ [None])
    (mk_gc (rlog gc ++ [RHeld g xs]) false (S (length (rlog gc)) mod N_BUFFERS)%nat).
Proof.
  intros (Hc & Hg & (Hl & H0 & Hs) & Hnd & Hh) Hlen. unfold consumer_ok, received_log. cbn [rclaim gri rlog].
  rewrite !length_app. cbn [length]. split_and!; [done|by rewrite Nat.add_1_r|lia|..].
  - intros k Hk. by apply lookup_app_l_Some, H0.
  - intros k ys. split; intros E; apply lookup_snoc_Some in E as [[Hk E]|[_ E]]; try done;
      by apply lookup_app_l_Some, Hs.
  - rewrite fmap_app, NoDup_app. split_and!; [done| |apply NoDup_singleton].
    intros k Hk Hin. apply list_elem_of_fmap in Hk as ([k' h] & -> & Hk). cbn in Hin. apply list_elem_of_singleton in Hin as ->.
    destruct (Hh _ _ Hk) as (g' & ys & E & _). apply lookup_lt_Some in E. lia.
  - intros k h Hin. apply elem_of_app in Hin as [Hin|Hin].
    + destruct (Hh _ _ Hin) as (g' & ys & E & ? & ->). exists g', ys. split; [by apply lookup_app_l_Some|done].
    + apply list_elem_of_singleton in Hin as [= -> ->]. exists g, xs. rewrite <-Hl. split; [by apply list_lookup_middle|done].
Qed.

Lemma consumer_received hs received gc which k g xs :
  consumer_ok hs received gc -> hs !! which = Some (k, r_handle (N_BUFFERS + k) g) ->
  rlog gc !! (N_BUFFERS + k)%nat = Some (RHeld g xs) ->
  consumer_ok (delete which hs) (<[k := Some xs]> received) (set_rtick gc (N_BUFFERS + k) (Released xs)).
Proof.
  intros (Hc & Hg & (Hl & H0 & Hs) & Hnd & Hh) Hw Hk.
  apply lookup_lt_Some in Hk as Hkl. unfold consumer_ok, received_log, set_rtick. cbn [rclaim gri rlog].
  rewrite !length_insert. split_and!; [done..| | | |].
  - intros k' Hk'. rewrite list_lookup_insert_ne by lia. by apply H0.
  - intros k' ys. destruct (decide (k' = k)) as [->|Hne].
    + rewrite !list_lookup_insert_eq by lia. split; by intros [= ->].
    + rewrite !list_lookup_insert_ne by lia. apply Hs.
  - by eapply held_delete.
  - intros k' h' Hin. destruct (held_delete _ _ _ _ Hnd Hw) as [_ Hd]. destruct (Hd k' h' Hin) as [Hin' Hne].
    destruct (Hh k' h' Hin') as (g' & ys & E & ? & ->). exists g', ys. rewrite list_lookup_insert_ne by lia. done.
Qed.

Lemma desc_wp_consumer cmds hs received gc :
  consumer_ok hs received gc -> wpc (consumer cmds hs received) (fun received gc => exists hs, consumer_ok hs received gc) gc.
Proof.
  revert hs received gc. induction cmds as [|[|which] cmds IH]; intros hs received gc Hok; cbn [consumer].
  - by exists hs.
  - apply wp_bind. eapply wp_mono; [|apply wp_acquire_read; apply Hok].
    intros [st h] gp' [(g & xs & [= -> ->] & Hl & ->)|[[= -> ->] ->]]; cbn zeta; rewrite ?bool_decide_true by done.
    + by apply IH, consumer_acquired.
    + by apply IH.
  - destruct (hs !! which) as [[k h]|] eqn:Hw; [|by apply IH].
    pose proof Hok as (Hc & _ & _ & _ & Hh). destruct (Hh k h) as (g & xs & Hk & Hl & ->); [by eapply list_elem_of_lookup_2|].
    eapply wp_held_read_view; [done|].
    pose proof (fun f => desc_wp_read_cells (A := list (option (list T))) gc (N_BUFFERS + k) g xs 0 (length xs) f (fun received gc => exists hs, consumer_ok hs received gc) Hk Hl eq_refl) as Hcells.
    rewrite Nat.add_0_r in Hcells. apply Hcells. rewrite drop_0.
    apply (wp_release gc (N_BUFFERS + k) g xs); [done|done|]. rewrite bool_decide_true by done.
    by eapply IH, consumer_received.
Qed.

(** ** Both together *)

Definition gp_new : gproducer := mk_gp (replicate N_BUFFERS (Sent [])) false 0.
Definition gc_new : gconsumer := mk_gc (replicate N_BUFFERS (Released [])) false 0.

Lemma desc_Inv_new b : length b = (N_BUFFERS * BUFFER_SIZE)%nat -> Inv (spsc_new (Some b)) gp_new gc_new.
Proof.
  intros Hb. exists b. cbn [spsc_new buffers_ descriptor_items_ write_index_ read_index_ gp_new gc_new wlog rlog claim rclaim gwi gri].
  rewrite length_fmap, length_seq, length_replicate. split_and!; try done.
  - intros k r E. apply lookup_replicate in E as [-> E]. by apply lookup_replicate.
  - intros k Hk. lia.
  - intros k [Hk _]. rewrite Nat.mod_small by done. eexists _, _. rewrite list_lookup_fmap, lookup_seq_lt by done.
    split; [done|]. split; [by apply lookup_replicate|]. rewrite lookup_replicate_2 by done. by split_and!.
Qed.

Lemma producer_new : producer_ok [] [] gp_new.
Proof.
  unfold producer_ok, sent_log, gp_new. cbn. rewrite length_replicate, Nat.Div0.mod_same. split_and!; try done; try lia.
  - intros k xs. split; [done|]. lia.
  - constructor.
  - intros k h Hin. by apply not_elem_of_nil in Hin.
Qed.

Lemma consumer_new : consumer_ok [] [] gc_new.
Proof.
  unfold consumer_ok, received_log, gc_new. cbn. rewrite length_replicate, Nat.Div0.mod_same. split_and!; try done; try lia.
  - intros k Hk. by apply lookup_replicate.
  - intros k xs. split; [done|]. intros E. apply lookup_replicate in E. lia.
  - constructor.
  - intros k h Hin. by apply not_elem_of_nil in Hin.
Qed.

(** What remains of an acquisition once it has found its slot ends in [s_ok]. *)
Ltac run_step H := rewrite run_act in H;
  match type of H with mbind _ ?x = _ => destruct x as [[? ?]|]; cbn [mbind exec_bind] in H; [|discriminate H] end.

Lemma acquire_read_exact m gp gc :
  Inv m gp gc -> rclaim gc = false -> gri gc = (length (rlog gc) mod N_BUFFERS)%nat ->
  exists r m', run handle acquire_read m = Done (r, m')
    /\ (r.1 = s_ok <-> exists xs, wlog gp !! length (rlog gc) = Some (Sent xs)).
Proof.
  intros Hi Hc Hg.
  destruct (wp_run handle footprint (fun m gc gp => Inv m gp gc) perm_r _ _ gc gp m (wp_acquire_read gc Hc Hg) Hi)
    as (r & m' & gc' & Hrun & Hi' & Hpost).
  exists r, m'. split; [done|]. split.
  - destruct Hpost as [(g & xs & _ & _ & ->)|[-> _]]; [|done]. intros _. exists xs.
    destruct Hi' as (b & _ & _ & _ & _ & _ & _ & Hr & _). apply (Hr _ (RHeld g xs)). by apply list_lookup_middle.
  - intros Hx. destruct (next_read m gp gc Hi) as (s & Es & Hs). apply Hs in Hx.
    destruct Hi as (b & Eb & _ & _ & _ & Hri & _). unfold acquire_read, is_valid in Hrun. rewrite run_bind, run_act in Hrun.
    cbn [handle] in Hrun. rewrite Eb in Hrun. cbn [mbind exec_bind run negb] in Hrun.
    rewrite run_act in Hrun. cbn [handle mbind exec_bind] in Hrun. rewrite run_act, Hri, Hg in Hrun. cbn [handle] in Hrun.
    rewrite (load_Done _ _ _ Es) in Hrun. cbn [mbind exec_bind] in Hrun. rewrite bool_decide_true in Hrun by done.
    cbn [negb] in Hrun. do 4 run_step Hrun. by injection Hrun as <- _.
Qed.

Lemma acquire_write_exact m gp gc :
  Inv m gp gc -> claim gp = false -> gwi gp = (length (wlog gp) mod N_BUFFERS)%nat ->
  exists r m', run handle acquire_write m = Done (r, m')
    /\ (r.1 = s_ok <-> exists xs, rlog gc !! (length (wlog gp) - N_BUFFERS)%nat = Some (Released xs)).
Proof.
  intros Hi Hc Hg.
  destruct (wp_run handle footprint Inv perm_w _ _ gp gc m (wp_acquire_write gp Hc Hg) Hi)
    as (r & m' & gp' & Hrun & Hi' & Hpost).
  exists r, m'. split; [done|]. split.
  - destruct Hpost as [(g & _ & ->)|[-> _]]; [|done]. intros _.
    destruct Hi as (b0 & _ & _ & _ & _ & _ & HnW & _).
    destruct Hi' as (b & _ & _ & _ & _ & _ & _ & _ & Hold & _). apply Hold. cbn. rewrite length_app. cbn. lia.
  - intros [xs Hx]. pose proof Hi as (b & Eb & _ & _ & Hwi & _ & HnW & _).
    destruct (Inv_slot m gp gc _ Hi (next_window _ HnW)) as (b0 & s & w & _ & _ & Es & Ew & _ & Hst & Hok).
    rewrite next_mod in Es by done. rewrite Hx in Hst, Hok. destruct w as [|ys]; [done|]. cbn in Hst.
    unfold acquire_write, is_valid in Hrun. rewrite run_bind, run_act in Hrun.
    cbn [handle] in Hrun. rewrite Eb in Hrun. cbn [mbind exec_bind run negb] in Hrun.
    rewrite run_act in Hrun. cbn [handle mbind exec_bind] in Hrun. rewrite run_act, Hwi, Hg in Hrun. cbn [handle] in Hrun.
    rewrite (load_Done _ _ _ Es) in Hrun. cbn [mbind exec_bind] in Hrun. rewrite bool_decide_true in Hrun by done.
    cbn [negb] in Hrun. do 7 run_step Hrun. by injection Hrun as <- _.
Qed.
End Spsc.

(** C21. The descriptor ring hands buffers over in order between two concurrent threads.
    Whatever the producer (acquiring slots, then filling and committing the ones it holds
    in any order) and the consumer (acquiring, reading and releasing) do, and however their
    accesses interleave: no two threads are about to access the same plain location, no
    access is out of bounds, every execution ends, and when both have returned the
    [k]-th buffer received is the [k]-th acquired for writing, with its contents.  A next
    read succeeds exactly when the next buffer has been committed, and a next write exactly
    when its slot has been used by no one or has been released. *)
Theorem spsc_fifo {T} (BUFFER_SIZE N_BUFFERS : nat) (b : list T) pcmds ccmds c :
  (0 < BUFFER_SIZE)%nat -> (0 < N_BUFFERS)%nat -> length b = (N_BUFFERS * BUFFER_SIZE)%nat ->
  rtc (step handle) (spsc_new BUFFER_SIZE N_BUFFERS (Some b),
                     producer BUFFER_SIZE N_BUFFERS pcmds [] [], consumer N_BUFFERS ccmds [] []) c ->
  safe handle footprint c /\ sn (step handle) c
  /\ forall m sent received, c = (m, Ret sent, Ret received) ->
       (length received <= length sent)%nat
       /\ (forall k xs, received !! k = Some (Some xs) -> sent !! k = Some (Some xs))
       /\ (exists r m', run handle (acquire_read N_BUFFERS) m = Done (r, m')
            /\ (r.1 = s_ok <-> exists xs, sent !! length received = Some (Some xs)))
       /\ (exists r m', run handle (acquire_write N_BUFFERS) m = Done (r, m')
            /\ (r.1 = s_ok <-> (length sent < N_BUFFERS)%nat
                  \/ exists xs, received !! (length sent - N_BUFFERS)%nat = Some (Some xs))).
Proof.
  intros HB HN Hb Hs.
  destruct (fun H => adequacy handle footprint (Inv BUFFER_SIZE N_BUFFERS) (perm_w BUFFER_SIZE N_BUFFERS)
              (perm_r BUFFER_SIZE N_BUFFERS) (perm_exclusive BUFFER_SIZE N_BUFFERS HB HN)
              (fun sent gp => exists hs, producer_ok N_BUFFERS hs sent gp)
              (fun received gc => exists hs, consumer_ok BUFFER_SIZE N_BUFFERS hs received gc) _ c H Hs) as [Hsafe Hpost].
  { exists (gp_new N_BUFFERS), (gc_new N_BUFFERS). cbn [fst snd]. split_and!.
    - by apply desc_Inv_new.
    - by apply (desc_wp_producer BUFFER_SIZE N_BUFFERS HB HN), (producer_new N_BUFFERS).
    - by apply (desc_wp_consumer BUFFER_SIZE N_BUFFERS HB HN), (consumer_new BUFFER_SIZE N_BUFFERS). }
  split_and!; [done|apply step_terminates|]. intros m sent received ->.
  destruct (Hpost m sent received eq_refl) as (gp & gc & Hi & (hs & Hc & Hg & [Hl Hsl] & _) & (hs' & Hc' & Hg' & (Hl' & H0 & Hrl) & _)).
  assert (Hlog : forall k r, rlog gc !! k = Some r -> wlog gp !! k = Some (Sent (payload r))).
  { by destruct Hi as (? & _ & _ & _ & _ & _ & _ & Hr & _). }
  assert (Hlen : (length received <= length sent)%nat).
  { destruct (Nat.le_gt_cases (length (rlog gc)) (length (wlog gp))) as [|Hgt]; [lia|].
    destruct (lookup_lt_is_Some_2 _ _ Hgt) as [r E]. apply Hlog, lookup_lt_Some in E. lia. }
  split_and!.
  - done.
  - intros k xs E. apply Hrl in E as E'. apply Hsl. split; [by apply (Hlog _ _ E')|].
    apply Hlog, lookup_lt_Some in E'. lia.
  - destruct (acquire_read_exact BUFFER_SIZE N_BUFFERS HB HN m gp gc Hi Hc' Hg') as (r & m' & Hrun & Hr).
    exists r, m'. split; [done|]. rewrite Hr, Hl'. setoid_rewrite Hsl. split.
    + intros [xs E]. exists xs. split; [done|]. apply lookup_lt_Some in E. lia.
    + intros (xs & E & _). by exists xs.
  - destruct (acquire_write_exact BUFFER_SIZE N_BUFFERS HB HN m gp gc Hi Hc Hg) as (r & m' & Hrun & Hr).
    exists r, m'. split; [done|]. rewrite Hr, Hl. replace (N_BUFFERS + length sent - N_BUFFERS)%nat with (length sent) by lia.
    destruct (Nat.lt_ge_cases (length sent) N_BUFFERS) as [Hlt|Hge].
    + split; [by left|]. intros _. exists []. by apply H0.
    + setoid_rewrite Hrl. replace (N_BUFFERS + (length sent - N_BUFFERS))%nat with (length sent) by lia.
      split; [by right|]. intros [?|?]; [lia|done].
Qed.

Open Scope Z_scope.

Lemma spsc_fifo_witness :
  let p := producer 1 2 [P_acquire; P_send 0 [7]; P_acquire; P_acquire] [] [] in
  let c := consumer 2 [C_acquire; C_receive 0; C_acquire] [] [] in
  exists m, rtc (step handle) (spsc_new 1 2 (Some [0; 0]), p, c) (m, Ret [Some [7]; None], Ret [Some [7]])
    /\ exists r m', run handle (acquire_read 2) m = Done (r, m') /\ r.1 <> s_ok.
Proof.
  cbn zeta.
  eassert (Hs : rtc (step handle) (spsc_new 1 2 (Some [0; 0]), producer 1 2 [P_acquire; P_send 0 [7]; P_acquire; P_acquire] [] [],
      consumer 2 [C_acquire; C_receive 0; C_acquire] [] []) (_, Ret _, Ret _)).
  { etransitivity; [apply run_left; vm_compute; reflexivity|apply run_right; vm_compute; reflexivity]. }
  destruct (spsc_fifo 1 2 [0; 0] _ _ _ ltac:(lia) ltac:(lia) eq_refl Hs) as (_ & _ & H).
  destruct (H _ _ _ eq_refl) as (_ & _ & (r & m' & Hr & Hok) & _).
  eexists. split; [exact Hs|]. exists r, m'. split; [exact Hr|]. rewrite Hok. intros [xs Hx]. discriminate Hx.
Defined.

(** [cancel] breaks the order: the slot goes back to the pool but [write_index_] has moved
    past it, so the consumer waits at the cancelled slot although a later one is ready, and
    when the producer comes round again its newest buffer is read first. *)
Definition put (h : buffer_handle) (v : Z) : prog eff status :=
  '(p, _) ← write_view 1 h;
  match p with Some c => _ ← act (WriteCell c v); commit 1 h 1 | None => Ret s_empty end.
Definition get : prog eff (status * list Z) :=
  '(st, h) ← acquire_read 2;
  '(p, n) ← read_view h;
  match p with Some c => xs ← read_cells c n; st ← release h; Ret (st, xs) | None => Ret (st, []) end.
Definition cancel_scenario : prog eff (list (status * list Z)) :=
  '(_, h) ← acquire_write 2; _ ← cancel h;
  '(_, h) ← acquire_write 2; _ ← put h 1;
  a ← get;
  '(_, h) ← acquire_write 2; _ ← put h 2;
  b ← get; c ← get; Ret [a; b; c].

Lemma spsc_cancel_reorders :
  exists m, run handle cancel_scenario (spsc_new 1 2 (Some [0; 0])) = Done ([(s_empty, []); (s_ok, [2]); (s_ok, [1])], m).
Proof. eexists. vm_compute. reflexivity. Qed.

(** ** Stale handles *)

Section Handles.
Context {T : Type} (BUFFER_SIZE N_BUFFERS : nat).
Implicit Types (m : spsc (T := T)) (h : buffer_handle).

Definition valid h (s : buffer_slot) : bool :=
  (generation_ h =? generation s)
  && ((bool_decide (mode_ h = m_write) && bool_decide (state s = writing))
      || (bool_decide (mode_ h = m_read) && bool_decide (state s = reading))).

(** Every operation refuses the handle and changes nothing. *)
Definition refused h m : Prop :=
  (forall count, run handle (commit BUFFER_SIZE h count) m = Done (s_invalid_argument, m))
  /\ run handle (release h) m = Done (s_invalid_argument, m)
  /\ run handle (cancel h) m = Done (s_invalid_argument, m)
  /\ run handle (write_view BUFFER_SIZE h) m = Done ((None, 0%nat), m)
  /\ run handle (read_view h) m = Done ((None, 0%nat), m).

Lemma run_valid h m i s :
  item_ h = Some i -> descriptor_items_ m !! i = Some s -> run handle (handle_is_valid h) m = Done (valid h s, m).
Proof.
  intros Hi Hs. unfold handle_is_valid, valid. rewrite Hi, run_act. cbn [handle]. rewrite (load_Done _ _ _ Hs). exec_simpl.
  destruct (generation_ h =? generation s); cbn [negb andb]; [|done].
  rewrite run_act. cbn [handle]. rewrite (load_Done _ _ _ Hs). done.
Qed.

Lemma invalid_refused h m i s :
  item_ h = Some i -> descriptor_items_ m !! i = Some s -> valid h s = false -> refused h m.
Proof.
  intros Hi Hs Hv. unfold refused, commit, release, cancel, write_view, read_view, is_write, is_read.
  split_and!; [intros count|..]; rewrite !run_bind, (run_valid h m i s) by done; exec_simpl; by rewrite Hv.
Qed.

Lemma null_refused h m : item_ h = None -> refused h m.
Proof.
  intros Hi. unfold refused, commit, release, cancel, write_view, read_view, is_write, is_read, handle_is_valid.
  rewrite Hi. by split_and!.
Qed.

(** A slot that nobody owns accepts no handle. *)
Lemma unowned_refused h m i s :
  item_ h = Some i -> descriptor_items_ m !! i = Some s -> state s = free \/ state s = ready -> refused h m.
Proof.
  intros Hi Hs Hst. apply (invalid_refused h m i s); [done..|]. unfold valid.
  destruct Hst as [-> | ->]; cbn; by rewrite !andb_false_r.
Qed.

Definition with_slot m i (s : buffer_slot) : spsc :=
  mk_spsc (buffers_ m) (<[i := s]> (descriptor_items_ m)) (write_index_ m) (read_index_ m).

(** Two writes to the slot [i]. *)
Lemma run_two m i s (n : nat) (v : buffer_state) (r : status) :
  descriptor_items_ m !! i = Some s ->
  run handle (_ ← act (SetSize i n); _ ← act (StoreState i v); Ret r) m
  = Done (r, with_slot m i (mk_slot (pbuffer s) v n (generation s))).
Proof.
  intros Hs. rewrite run_act. cbn [handle]. rewrite (on_slot_update _ _ _ _ Hs). exec_simpl.
  rewrite run_act. cbn [handle]. erewrite on_slot_update; [|by apply list_lookup_insert_eq; eapply lookup_lt_Some].
  exec_simpl. unfold with_slot. cbn [fst snd descriptor_items_ buffers_ write_index_ read_index_ pbuffer generation size run].
  by rewrite list_insert_insert_eq.
Qed.

Lemma next_generation_fresh g : u32 g ->
  u32 (next_generation g) /\ next_generation g <> g /\ next_generation (next_generation g) <> g.
Proof.
  unfold next_generation, in_width. intros Hg. change (2 ^ 32) with 4294967296 in *.
  assert (H : forall z, 0 <= z < 4294967296 -> to_u32 (z + 1) = if decide (z = 4294967295) then 0 else z + 1).
  { intros z Hz. case_decide; [by subst|]. apply wrap_small. unfold in_width. lia. }
  rewrite (H g) by done. case_decide; [subst; vm_compute; intuition congruence|].
  rewrite (proj2 (Z.eqb_neq (g + 1) 0)), H by lia. case_decide; cbn; [|rewrite (proj2 (Z.eqb_neq _ _)) by lia]; lia.
Qed.

Lemma run_clear_slots m n i :
  length (descriptor_items_ m) = (i + n)%nat ->
  run handle (clear_slots i n) m
  = Done (tt, mk_spsc (buffers_ m)
      (take i (descriptor_items_ m)
       ++ ((fun s => mk_slot (pbuffer s) free 0 (next_generation (generation s))) <$> drop i (descriptor_items_ m)))
      (write_index_ m) (read_index_ m)).
Proof.
  revert m i. induction n as [|n IH]; intros m i Hl; cbn [clear_slots].
  { rewrite take_ge, drop_ge, app_nil_r by lia. by destruct m. }
  destruct (lookup_lt_is_Some_2 (descriptor_items_ m) i) as [s Hs]; [lia|].
  rewrite run_act. cbn [handle]. rewrite (on_slot_update _ _ _ _ Hs). exec_simpl.
  rewrite run_act. cbn [handle descriptor_items_]. rewrite (load_Done _ i (mk_slot (pbuffer s) (state s) 0 (generation s)))
    by (apply list_lookup_insert_eq; lia). exec_simpl.
  rewrite run_act. cbn [handle]. erewrite on_slot_update; [|cbn; by apply list_lookup_insert_eq; lia]. exec_simpl.
  cbn [descriptor_items_ buffers_ write_index_ read_index_ fst snd pbuffer state size generation]. rewrite list_insert_insert_eq.
  rewrite run_act. cbn [handle]. erewrite on_slot_update; [|cbn; by apply list_lookup_insert_eq; lia]. exec_simpl.
  cbn [descriptor_items_ buffers_ write_index_ read_index_ fst snd pbuffer state size generation]. rewrite list_insert_insert_eq.
  rewrite IH by (cbn; rewrite length_insert; lia). cbn [descriptor_items_ buffers_ write_index_ read_index_].
  do 3 f_equal. rewrite drop_insert_lt by lia. rewrite (drop_S _ _ _ Hs). cbn [fmap list_fmap].
  erewrite take_S_r by (by apply list_lookup_insert_eq; lia). rewrite take_insert_ge by lia. by rewrite <-app_assoc.
Qed.
End Handles.

(** Handles of the descriptor ring are capabilities that expire.  A null handle, a
    handle of another mode, of an older generation or of a slot in another state is
    refused by every operation without effect.  The owner of a slot that is being written
    may commit it (a count beyond the buffer is refused) or cancel it, the owner of one that
    is being read may release it, and afterwards every copy of the handle is refused; so is
    every handle after [clear], also when its slot is handed out again. *)
Theorem spsc_handles_expire {T} (BUFFER_SIZE N_BUFFERS : nat) (m : spsc (T := T)) (i : nat) (s : buffer_slot) (h : buffer_handle) :
  item_ h = Some i -> descriptor_items_ m !! i = Some s -> u32 (generation s) -> length (descriptor_items_ m) = N_BUFFERS ->
  (valid h s = false -> refused BUFFER_SIZE h m)
  /\ (valid h s = true -> mode_ h = m_write ->
      run handle (release h) m = Done (s_invalid_argument, m)
      /\ (forall count, (BUFFER_SIZE < count)%nat -> run handle (commit BUFFER_SIZE h count) m = Done (s_out_of_range, m))
      /\ (forall count, (count <= BUFFER_SIZE)%nat ->
            let m' := with_slot m i (mk_slot (pbuffer s) ready count (generation s)) in
            run handle (commit BUFFER_SIZE h count) m = Done (s_ok, m') /\ refused BUFFER_SIZE h m')
      /\ (let m' := with_slot m i (mk_slot (pbuffer s) free 0 (generation s)) in
          run handle (cancel h) m = Done (s_ok, m') /\ refused BUFFER_SIZE h m'))
  /\ (valid h s = true -> mode_ h = m_read ->
      (forall count, run handle (commit BUFFER_SIZE h count) m = Done (s_invalid_argument, m))
      /\ run handle (cancel h) m = Done (s_invalid_argument, m)
      /\ let m' := with_slot m i (mk_slot (pbuffer s) free 0 (generation s)) in
         run handle (release h) m = Done (s_ok, m') /\ refused BUFFER_SIZE h m')
  /\ exists m', run handle (clear N_BUFFERS) m = Done (tt, m')
       /\ write_index_ m' = 0%nat /\ read_index_ m' = 0%nat /\ refused BUFFER_SIZE h m'
       /\ (valid h s = true -> forall (m'' : spsc (T := T)) s', descriptor_items_ m'' !! i = Some s' ->
             generation s' = next_generation (next_generation (generation s)) -> refused BUFFER_SIZE h m'').
Proof.
  intros Hi Hs Hg Hl.
  assert (Hlt : (i < length (descriptor_items_ m))%nat) by (by eapply lookup_lt_Some).
  assert (Hitem : item h = i) by (unfold item; by rewrite Hi).
  assert (Hafter : forall st n, st = free \/ st = ready -> refused BUFFER_SIZE h (with_slot m i (mk_slot (pbuffer s) st n (generation s)))).
  { intros st n Hst. eapply unowned_refused; [done|by apply list_lookup_insert_eq|done]. }
  split; [by apply (invalid_refused BUFFER_SIZE h m i s)|]. split; [|split].
  - intros Hv Hm. unfold release, commit, cancel, is_write, is_read. rewrite Hm, Hitem.
    split; [|split; [intros count Hc|split; [intros count Hc|]]].
    + by rewrite !run_bind, (run_valid h m i s), Hv by done.
    + rewrite !run_bind, (run_valid h m i s), Hv by done. exec_simpl. cbn [run]. exec_simpl.
      change (negb (true && bool_decide (m_write = m_write))) with false. cbn iota. by rewrite (proj2 (Nat.ltb_lt _ _)).
    + cbn zeta. split; [|by apply Hafter; right]. rewrite !run_bind, (run_valid h m i s), Hv by done. exec_simpl. cbn [run].
      exec_simpl. change (negb (true && bool_decide (m_write = m_write))) with false. cbn iota.
      rewrite (proj2 (Nat.ltb_ge _ _)) by done. by apply run_two.
    + cbn zeta. split; [|by apply Hafter; left]. rewrite !run_bind, (run_valid h m i s), Hv by done. exec_simpl. cbn [run].
      exec_simpl. by apply run_two.
  - intros Hv Hm. unfold release, commit, cancel, is_write, is_read. rewrite Hm, Hitem.
    split; [intros count|split].
    + by rewrite !run_bind, (run_valid h m i s), Hv by done.
    + by rewrite !run_bind, (run_valid h m i s), Hv by done.
    + cbn zeta. split; [|by apply Hafter; left]. rewrite !run_bind, (run_valid h m i s), Hv by done. exec_simpl. cbn [run].
      exec_simpl. by apply run_two.
  - unfold clear. rewrite run_bind, run_clear_slots by done. exec_simpl. rewrite run_act. eexists. split; [done|].
    split_and!; [done..| |].
    + eapply unowned_refused; [done|cbn; rewrite take_0, drop_0; cbn; by rewrite list_lookup_fmap, Hs|by left].
    + intros Hv m'' s' Hs' Hg'. eapply invalid_refused; [done|done|]. unfold valid in *.
      destruct (next_generation_fresh _ Hg) as (_ & _ & Hne). apply andb_prop in Hv as [Hv _]. apply Z.eqb_eq in Hv.
      rewrite Hv, Hg'. by rewrite (proj2 (Z.eqb_neq _ _)).
Qed.

Lemma spsc_handles_expire_witness :
  let m := mk_spsc (Some [0; 0]) [mk_slot (Some 0%nat) writing 0 4294967295; mk_slot (Some 1%nat) free 0 0] 1 0 in
  let h := mk_handle (Some 0%nat) 4294967295 m_write in
  let m' := with_slot m 0 (mk_slot (Some 0%nat) ready 1 4294967295) in
  run handle (commit 1 h 1) m = Done (s_ok, m') /\ refused 1 h m'.
Proof.
  cbn zeta.
  set (m := mk_spsc (Some [0; 0]) [mk_slot (Some 0%nat) writing 0 4294967295; mk_slot (Some 1%nat) free 0 0] 1 0).
  set (h := mk_handle (Some 0%nat) 4294967295 m_write).
  destruct (spsc_handles_expire 1 2 m 0 (mk_slot (Some 0%nat) writing 0 4294967295) h eq_refl eq_refl
              ltac:(unfold in_width; cbn; lia) eq_refl) as (_ & H & _).
  destruct (H eq_refl eq_refl) as (_ & _ & Hc & _). exact (Hc 1%nat ltac:(lia)).
Defined.
