(* ===== verification/MirroredRing.v ===== *)
(** * The mirrored ring buffer (castle/container/mirrored_ring_buffer.hpp)

    A single-producer single-consumer queue over [2 * N] cells: every element is stored
    twice, [N] apart, so that what can be read (or written) is always contiguous.  The two
    indices count elements for ever, modulo the width of [size_type], and are atomic; the
    cells are plain.  Operations are programs of [Conc]; the loads (relaxed, acquire) and
    stores (release) of an index are sequentially consistent steps. *)

From stdpp Require Import relations gmap.
From S2P Require Import Prelude Status Conc.
Open Scope Z_scope.

Section Mirrored.
Context {T : Type} (bits : Z) (N : nat).

Record mirrored : Type := mk_mirrored { storage_ : list T; read_index_ : Z; write_index_ : Z }.

Inductive eff : Type -> Type :=
| LoadRead : eff Z
| StoreRead (v : Z) : eff unit
| LoadWrite : eff Z
| StoreWrite (v : Z) : eff unit
| ReadCell (c : nat) : eff T
| WriteCell (c : nat) (v : T) : eff unit.

Definition handle R (e : eff R) (m : mirrored) : exec (R * mirrored) :=
  match e in eff R return exec (R * mirrored) with
  | LoadRead => Done (read_index_ m, m)
  | StoreRead v => Done (tt, mk_mirrored (storage_ m) v (write_index_ m))
  | LoadWrite => Done (write_index_ m, m)
  | StoreWrite v => Done (tt, mk_mirrored (storage_ m) (read_index_ m) v)
  | ReadCell c => v ← load (storage_ m) c; Done (v, m)
  | WriteCell c v => s ← store (storage_ m) c v; Done (tt, mk_mirrored s (read_index_ m) (write_index_ m))
  end.

(** The plain locations are the cells. *)
Definition footprint R (e : eff R) : option nat :=
  match e with
  | LoadRead | StoreRead _ | LoadWrite | StoreWrite _ => None
  | ReadCell c | WriteCell c _ => Some c
  end.

Notation program := (prog eff).
Notation size_t z := (wrap bits z).

(** ** Operations *)

Definition is_power_of_two : bool := Z.land (Z.of_nat N) (Z.of_nat N - 1) =? 0.
Definition physical_index (logical_index : Z) : nat :=
  Z.to_nat (if is_power_of_two then Z.land logical_index (Z.of_nat N - 1) else logical_index mod Z.of_nat N).

Definition size : program Z :=
  read_index ← act LoadRead; write_index ← act LoadWrite; Ret (size_t (write_index - read_index)).
Definition available : program Z := n ← size; Ret (size_t (Z.of_nat N - n)).
Definition empty : program bool := n ← size; Ret (n =? 0).
Definition full : program bool := n ← available; Ret (n =? 0).
Definition clear : program unit := write_index ← act LoadWrite; act (StoreRead write_index).

Definition free_size_from (write_index : Z) : program Z :=
  read_index ← act LoadRead; Ret (size_t (Z.of_nat N - size_t (write_index - read_index))).
Definition writable_size : program (Z * Z) :=
  write_index ← act LoadWrite; n ← free_size_from write_index; Ret (write_index, n).
Definition readable_size_from (read_index : Z) : program Z :=
  write_index ← act LoadWrite; Ret (size_t (write_index - read_index)).
Definition readable_size : program (Z * Z) :=
  read_index ← act LoadRead; n ← readable_size_from read_index; Ret (read_index, n).

(** Copying [n] cells from [a] on to [b] on. *)
Fixpoint copy_cells (a b n : nat) : program unit :=
  match n with
  | O => Ret tt
  | S n => v ← act (ReadCell a); _ ← act (WriteCell b v); copy_cells (S a) (S b) n
  end.
Definition mirror_range (logical_start : Z) (count : nat) : program unit :=
  if (count =? 0)%nat then Ret tt
  else
    let start := physical_index logical_start in
    let primary_count := if (count <? N - start)%nat then count else (N - start)%nat in
    _ ← copy_cells start (start + N) primary_count;
    copy_cells N 0 (count - primary_count).

Definition commit_write (write_index : Z) (count : nat) : program unit :=
  _ ← mirror_range write_index count; act (StoreWrite (size_t (write_index + Z.of_nat count))).
Definition commit_read (read_index : Z) (count : nat) : program unit :=
  act (StoreRead (size_t (read_index + Z.of_nat count))).

(** A view is the cell it starts at and a number of elements. *)
Definition view : Type := nat * nat.

Definition write_reserve (max_reserve_size : nat) : program view :=
  '(write_index, free_size) ← writable_size;
  Ret (physical_index write_index, if Z.of_nat max_reserve_size <? free_size then max_reserve_size else Z.to_nat free_size).
Definition write_reserve_optimal (min_reserve_size : nat) : program view :=
  '(write_index, free_size) ← writable_size;
  if free_size <? Z.of_nat min_reserve_size then Ret (physical_index write_index, 0%nat)
  else Ret (physical_index write_index, Z.to_nat free_size).
Definition write_commit (reservation : view) : program status :=
  write_index ← act LoadWrite;
  if negb (reservation.1 =? physical_index write_index)%nat then Ret s_invalid_argument
  else if (reservation.2 =? 0)%nat then Ret s_ok
  else
    n ← free_size_from write_index;
    if n <? Z.of_nat reservation.2 then Ret s_full
    else _ ← commit_write write_index reservation.2; Ret s_ok.

Definition read_reserve (max_reserve_size : nat) : program view :=
  '(read_index, readable) ← readable_size;
  Ret (physical_index read_index, if Z.of_nat max_reserve_size <? readable then max_reserve_size else Z.to_nat readable).
Definition read_commit (reservation : view) : program status :=
  read_index ← act LoadRead;
  if negb (reservation.1 =? physical_index read_index)%nat then Ret s_invalid_argument
  else if (reservation.2 =? 0)%nat then Ret s_ok
  else
    n ← readable_size_from read_index;
    if n <? Z.of_nat reservation.2 then Ret s_empty
    else _ ← commit_read read_index reservation.2; Ret s_ok.

Definition push (value : T) : program status :=
  '(write_index, n) ← writable_size;
  if n =? 0 then Ret s_full
  else
    _ ← act (WriteCell (physical_index write_index) value);
    _ ← commit_write write_index 1;
    Ret s_ok.

(** [pop(out)] returns the element, [pop()] only the status. *)
Definition pop : program (status * option T) :=
  '(read_index, n) ← readable_size;
  if n =? 0 then Ret (s_empty, None)
  else
    v ← act (ReadCell (physical_index read_index));
    _ ← commit_read read_index 1;
    Ret (s_ok, Some v).
Definition pop_discard : program status :=
  '(read_index, n) ← readable_size;
  if n =? 0 then Ret s_empty else _ ← commit_read read_index 1; Ret s_ok.
Definition peek (index : nat) : program (status * option T) :=
  '(read_index, n) ← readable_size;
  if n <=? Z.of_nat index then Ret (s_out_of_range, None)
  else v ← act (ReadCell (physical_index read_index + index)); Ret (s_ok, Some v).

Fixpoint write_cells (c : nat) (xs : list T) : program unit :=
  match xs with [] => Ret tt | x :: xs => _ ← act (WriteCell c x); write_cells (S c) xs end.
Fixpoint read_cells (c n : nat) : program (list T) :=
  match n with O => Ret [] | S n => x ← act (ReadCell c); xs ← read_cells (S c) n; Ret (x :: xs) end.

(** [push_bulk(src, max_count)]: [src] are the [max_count] elements offered. *)
Definition push_bulk (src : option (list T)) : program nat :=
  match src with
  | None => Ret 0%nat
  | Some xs =>
      '(write_index, free_size) ← writable_size;
      let count := if Z.of_nat (length xs) <? free_size then length xs else Z.to_nat free_size in
      _ ← write_cells (physical_index write_index) (take count xs);
      _ ← commit_write write_index count;
      Ret count
  end.
(** [pop_bulk(dst, max_count)]: the elements stored through [dst]. *)
Definition pop_bulk (dst_null : bool) (max_count : nat) : program (list T) :=
  if dst_null then Ret []
  else
    '(read_index, readable) ← readable_size;
    let count := if Z.of_nat max_count <? readable then max_count else Z.to_nat readable in
    xs ← read_cells (physical_index read_index) count;
    _ ← commit_read read_index count;
    Ret xs.

Definition begin : program nat := read_index ← act LoadRead; Ret (physical_index read_index).
Definition end_ : program nat :=
  '(read_index, n) ← readable_size; Ret (physical_index read_index + Z.to_nat n)%nat.
Definition operator_at (index : nat) : program T := b ← begin; act (ReadCell (b + index)).
Definition front : program T := b ← begin; act (ReadCell b).
Definition back : program T := e ← end_; act (ReadCell (e - 1)).

Definition mirrored_new (zero : T) : mirrored := mk_mirrored (replicate (2 * N) zero) 0 0.

(** ** Clients *)

Inductive producer_command : Type :=
| P_push (x : T)
| P_push_bulk (xs : list T)
| P_reserve (max_reserve_size : nat) (xs : list T).   (* fill the view with elements of [xs] and commit them *)

Inductive consumer_command : Type :=
| C_pop
| C_pop_discard
| C_peek (index : nat)
| C_pop_bulk (max_count : nat)
| C_reserve (max_reserve_size : nat).

(** What was accepted, in order. *)
Fixpoint producer (cmds : list producer_command) (sent : list T) : program (list T) :=
  match cmds with
  | [] => Ret sent
  | P_push x :: cmds =>
      st ← push x; producer cmds (if bool_decide (st = s_ok) then sent ++ [x] else sent)
  | P_push_bulk xs :: cmds => n ← push_bulk (Some xs); producer cmds (sent ++ take n xs)
  | P_reserve n xs :: cmds =>
      '(c, k) ← write_reserve n;
      let ys := take k xs in
      _ ← write_cells c ys;
      st ← write_commit (c, length ys);
      producer cmds (if bool_decide (st = s_ok) then sent ++ ys else sent)
  end.

(** What was taken out, in order ([None] for an element that was discarded unread), and
    what [peek] saw: the number of elements taken out before, the index and the element. *)
Fixpoint consumer (cmds : list consumer_command) (got : list (option T)) (seen : list (nat * T))
    : program (list (option T) * list (nat * T)) :=
  match cmds with
  | [] => Ret (got, seen)
  | C_pop :: cmds =>
      '(st, v) ← pop; consumer cmds (if bool_decide (st = s_ok) then got ++ [v] else got) seen
  | C_pop_discard :: cmds =>
      st ← pop_discard; consumer cmds (if bool_decide (st = s_ok) then got ++ [None] else got) seen
  | C_peek i :: cmds =>
      '(_, v) ← peek i;
      consumer cmds got (match v with Some v => seen ++ [(length got + i, v)%nat] | None => seen end)
  | C_pop_bulk n :: cmds =>
      xs ← pop_bulk false n; consumer cmds (got ++ (Some <$> xs)) seen
  | C_reserve n :: cmds =>
      '(c, k) ← read_reserve n;
      xs ← read_cells c k;
      st ← read_commit (c, k);
      consumer cmds (if bool_decide (st = s_ok) then got ++ (Some <$> xs) else got) seen
  end.

(** ** The invariant

    The producer knows the elements it has published, a position the consumer has passed,
    and the contents of cells it owns; the consumer knows the published elements it has
    seen and how many of them it has taken out. *)

Context (Hbits : 0 < bits) (HN : (0 < N)%nat) (Hfit : 2 * Z.of_nat N < 2 ^ bits).

Record gproducer : Type := mk_gp { wl : list T; rseen : nat; known : gmap nat T }.
Record gconsumer : Type := mk_gc { rl : list T; nread : nat }.

(** Logical positions for which [physical_index] is exact. *)
Definition fits (k : nat) : Prop := is_power_of_two = true \/ Z.of_nat k < 2 ^ bits.

Definition owns_w (gp : gproducer) (c : nat) : Prop :=
  exists k, (length (wl gp) <= k < rseen gp + N)%nat /\ (c mod N = k mod N)%nat.
Definition owns_r (gc : gconsumer) (c : nat) : Prop :=
  exists k, (nread gc <= k < length (rl gc))%nat /\ (c mod N = k mod N)%nat.

Definition Inv (m : mirrored) (gp : gproducer) (gc : gconsumer) : Prop :=
  length (storage_ m) = (2 * N)%nat
  /\ write_index_ m = size_t (Z.of_nat (length (wl gp))) /\ read_index_ m = size_t (Z.of_nat (nread gc))
  /\ (rseen gp <= nread gc)%nat /\ (nread gc <= length (rl gc))%nat /\ rl gc `prefix_of` wl gp
  /\ (length (wl gp) <= rseen gp + N)%nat /\ fits (length (wl gp))
  /\ (forall k v, wl gp !! k = Some v -> (nread gc <= k)%nat ->
        storage_ m !! (k mod N)%nat = Some v /\ storage_ m !! (k mod N + N)%nat = Some v)
  /\ (forall c v, known gp !! c = Some v -> storage_ m !! c = Some v /\ owns_w gp c).

Lemma power_of_two : is_power_of_two = true -> exists e, 0 <= e < bits /\ Z.of_nat N = 2 ^ e.
Proof.
  unfold is_power_of_two. intros H. apply Z.eqb_eq in H. set (n := Z.of_nat N) in *. assert (Hn : 0 < n) by lia.
  pose proof (Z.log2_spec n Hn) as [Hlo Hhi]. pose proof (Z.log2_nonneg n) as He. exists (Z.log2 n). split.
  - split; [done|]. apply (Z.pow_lt_mono_r_iff 2); lia.
  - destruct (Z.eq_dec n (2 ^ Z.log2 n)) as [|Hne]; [done|].
    assert (Hl : Z.log2 (n - 1) = Z.log2 n) by (apply Z.log2_unique; [done|lia]).
    apply (f_equal (fun z => Z.testbit z (Z.log2 n))) in H. rewrite Z.land_spec, Z.bits_0, Z.bit_log2 in H by lia.
    assert (H1 : 0 < n - 1) by (pose proof (Z.pow_pos_nonneg 2 (Z.log2 n)); lia).
    pose proof (Z.bit_log2 (n - 1) H1) as H2. rewrite Hl in H2. by rewrite H2 in H.
Qed.

Lemma physical_fits k : fits k -> physical_index (size_t (Z.of_nat k)) = (k mod N)%nat.
Proof.
  unfold fits, physical_index. intros H. rewrite <-(Nat2Z.id (k mod N)%nat). f_equal. rewrite Nat2Z.inj_mod.
  destruct is_power_of_two eqn:E.
  - destruct (power_of_two E) as (e & He & ->). replace (2 ^ e - 1) with (Z.ones e) by (rewrite Z.ones_equiv; lia).
    rewrite Z.land_ones by lia. unfold wrap. replace bits with (e + (bits - e)) by lia. rewrite Z.pow_add_r by lia.
    rewrite Z.rem_mul_r by lia. rewrite Z.mul_comm, Z.mod_add by lia. apply Z.mod_mod. lia.
  - destruct H as [|H]; [done|]. rewrite wrap_small; [done|]. unfold in_width. lia.
Qed.

Lemma fits_le k k' : (k <= k')%nat -> fits k' -> fits k.
Proof. intros Hk [|H]; [by left|right; lia]. Qed.

(** Distances between the two indices, computed modulo the width. *)
Lemma distance a b : (b <= a)%nat -> (a - b <= N)%nat ->
  size_t (size_t (Z.of_nat a) - size_t (Z.of_nat b)) = Z.of_nat (a - b).
Proof.
  intros Hab Hn. unfold wrap. rewrite <-Zminus_mod. rewrite Z.mod_small; lia.
Qed.

Lemma mod_distinct a b : (a < b < a + N)%nat -> (a mod N <> b mod N)%nat.
Proof.
  intros Hab E. pose proof (Nat.div_mod_eq a N). pose proof (Nat.div_mod_eq b N).
  assert (Hq : forall q q', (q < q' -> N * q + N <= N * q')%nat) by (intros q q' Hlt; nia).
  destruct (Nat.lt_trichotomy (a / N) (b / N)) as [Hlt|[Heq|Hlt]].
  - apply Hq in Hlt. lia.
  - rewrite Heq in *. lia.
  - apply Hq in Hlt. lia.
Qed.

Lemma mod_upper a : (a mod N < N)%nat.
Proof. apply Nat.mod_upper_bound. lia. Qed.

Lemma mod_mirror a : ((a mod N) mod N = a mod N /\ (a mod N + N) mod N = a mod N)%nat.
Proof.
  pose proof (mod_upper a). split; [by apply Nat.mod_small|].
  replace (a mod N + N)%nat with (a mod N + 1 * N)%nat by lia. rewrite Nat.Div0.mod_add. by apply Nat.mod_small.
Qed.

Lemma ring_owns_exclusive m gp gc c : Inv m gp gc -> owns_w gp c -> owns_r gc c -> False.
Proof.
  intros (_ & _ & _ & Hs & Hr & Hp & HW & _) (k & Hk & E) (k' & Hk' & E'). apply prefix_length in Hp.
  apply (mod_distinct k' k); [lia|congruence].
Qed.

Notation wpp := (wp handle footprint Inv owns_w).
Notation wpc := (wp handle footprint (fun m gc gp => Inv m gp gc) owns_r).

(** ** The producer *)

Definition set_known (gp : gproducer) (kn : gmap nat T) : gproducer := mk_gp (wl gp) (rseen gp) kn.

Lemma Inv_write m gp gc c v :
  Inv m gp gc -> owns_w gp c -> (c < 2 * N)%nat ->
  Inv (mk_mirrored (<[c := v]> (storage_ m)) (read_index_ m) (write_index_ m)) (set_known gp (<[c := v]> (known gp))) gc.
Proof.
  intros (Hl & Hw & Hr & Hs & Hnr & Hp & HW & Hf & Hc & Hk) Ho Hlt. unfold Inv, set_known. cbn [storage_ write_index_ read_index_ wl rseen known].
  rewrite length_insert. split_and!; try done.
  - intros k x Hx Hnk. destruct (Hc k x Hx Hnk) as [H1 H2]. destruct Ho as (k' & Hk' & E).
    assert (Hne : (k mod N <> c mod N)%nat).
    { rewrite E. apply mod_distinct. apply lookup_lt_Some in Hx. lia. }
    destruct (mod_mirror k) as [M1 M2]. split; (rewrite list_lookup_insert_ne; [done|]); intros ->; congruence.
  - intros d x Hx. destruct (decide (d = c)) as [->|Hne].
    + rewrite lookup_insert_eq in Hx. injection Hx as ->. split; [|done]. apply list_lookup_insert_eq. lia.
    + rewrite lookup_insert_ne in Hx by done. destruct (Hk d x Hx). split; [|done]. by rewrite list_lookup_insert_ne.
Qed.

Lemma wp_store_cell {A} gp c v (f : unit -> prog eff A) Q :
  owns_w gp c -> (c < 2 * N)%nat -> wpp (f tt) Q (set_known gp (<[c := v]> (known gp))) ->
  wpp (_ ← act (WriteCell c v); f tt) Q gp.
Proof.
  intros Ho Hc Hf. eapply (wp_write _ _ _ _ _ _ _ _ (fun g1 => g1 = set_known gp (<[c := v]> (known gp)))); [| |intros ? ->; exact Hf].
  - by intros ? [= <-].
  - intros m gc Hi. cbn [handle]. rewrite store_Done by (destruct Hi as [-> _]; done). exec_simpl.
    eexists _, _. split; [done|]. split; [|done]. by apply Inv_write.
Qed.

Lemma wp_free_size_from gp Q :
  (forall r, (rseen gp <= r <= length (wl gp))%nat -> (length (wl gp) <= r + N)%nat ->
     Q (Z.of_nat (r + N - length (wl gp))) (mk_gp (wl gp) r (known gp))) ->
  wpp (free_size_from (size_t (Z.of_nat (length (wl gp))))) Q gp.
Proof.
  intros HQ. unfold free_size_from.
  eapply (wp_act _ _ _ _ _ _ _ _ (fun v g1 => exists r, (rseen gp <= r)%nat /\ (length (wl gp) <= r + N)%nat /\ (r <= length (wl gp))%nat
      /\ v = size_t (Z.of_nat r) /\ g1 = mk_gp (wl gp) r (known gp))); [done| |].
  { intros m gc (Hl & Hw & Hr & Hs & Hnr & Hp & HW & Hf' & Hc & Hk). cbn. rewrite Hr.
    eexists _, _, (mk_gp (wl gp) (nread gc) (known gp)). split; [done|].
    apply prefix_length in Hp as Hpl. split; [|exists (nread gc); split_and!; (done || lia)].
    unfold Inv. cbn [wl rseen known]. split_and!; try done; try lia.
    intros c v Hv. destruct (Hk c v Hv) as [? (k & Hk1 & Hk2)]. split; [done|]. exists k. cbn. split; [lia|done]. }
  intros v g1 (r & H1 & H2 & H3 & -> & ->). cbn [wp]. rewrite distance by lia.
  replace (size_t (Z.of_nat N - Z.of_nat (length (wl gp) - r))) with (Z.of_nat (r + N - length (wl gp))); [by apply HQ; lia|].
  rewrite wrap_small; [lia|]. unfold in_width. lia.
Qed.

Lemma wp_writable_size {A} gp (f : Z * Z -> prog eff A) Q :
  (forall r, (rseen gp <= r <= length (wl gp))%nat -> (length (wl gp) <= r + N)%nat ->
     wpp (f (size_t (Z.of_nat (length (wl gp))), Z.of_nat (r + N - length (wl gp)))) Q (mk_gp (wl gp) r (known gp))) ->
  wpp (v ← writable_size; f v) Q gp.
Proof.
  intros Hf. unfold writable_size. apply wp_bind.
  eapply (wp_read _ _ _ _ _ _ _ _ (fun w => w = size_t (Z.of_nat (length (wl gp))))); [done| |intros ? ->].
  { intros m gc (_ & Hw & _). cbn. rewrite Hw. by eexists. }
  apply wp_bind, wp_free_size_from. intros r Hr Hw. by apply Hf.
Qed.

(** Known contents of a range of cells. *)
Fixpoint put (c : nat) (xs : list T) (kn : gmap nat T) : gmap nat T :=
  match xs with [] => kn | x :: xs => put (S c) xs (<[c := x]> kn) end.

Lemma lookup_put_in c xs kn i x : xs !! i = Some x -> put c xs kn !! (c + i)%nat = Some x.
Proof.
  revert c kn i. induction xs as [|y xs IH]; intros c kn i Hi; [done|]. cbn [put]. destruct i as [|i]; cbn in Hi.
  - injection Hi as ->. rewrite Nat.add_0_r. clear IH. assert (H : forall d kn, (c < d)%nat -> put d xs kn !! c = kn !! c).
    { induction xs as [|z xs IH]; intros d kn' Hd; [done|]. cbn [put]. rewrite IH by lia. by apply lookup_insert_ne; lia. }
    rewrite H by lia. apply lookup_insert_eq.
  - replace (c + S i)%nat with (S c + i)%nat by lia. by apply IH.
Qed.

Lemma lookup_put_out c xs kn d : (d < c \/ c + length xs <= d)%nat -> put c xs kn !! d = kn !! d.
Proof.
  revert c kn. induction xs as [|y xs IH]; intros c kn Hd; [done|]. cbn [put length] in *. rewrite IH by lia.
  apply lookup_insert_ne. lia.
Qed.

Lemma set_known_twice gp a b : set_known (set_known gp a) b = set_known gp b.
Proof. done. Qed.

Lemma ring_wp_write_cells gp c xs Q :
  (forall d, (c <= d < c + length xs)%nat -> owns_w gp d) -> (c + length xs <= 2 * N)%nat ->
  Q tt (set_known gp (put c xs (known gp))) -> wpp (write_cells c xs) Q gp.
Proof.
  revert gp c. induction xs as [|x xs IH]; intros gp c Ho Hc Hf; cbn [write_cells length] in *.
  { by destruct gp. }
  apply (wp_store_cell gp c x (fun _ => write_cells (S c) xs)); [apply Ho; lia|lia|].
  apply IH; [intros d Hd; apply Ho; lia|lia|done].
Qed.

Lemma wp_copy_cells gp a b xs Q :
  (forall i x, xs !! i = Some x -> known gp !! (a + i)%nat = Some x) ->
  (a + length xs <= b \/ b + length xs <= a)%nat ->
  (forall d, (a <= d < a + length xs \/ b <= d < b + length xs)%nat -> owns_w gp d) -> (b + length xs <= 2 * N)%nat ->
  Q tt (set_known gp (put b xs (known gp))) -> wpp (copy_cells a b (length xs)) Q gp.
Proof.
  revert gp a b. induction xs as [|x xs IH]; intros gp a b Hk Hd Ho Hb Hf; cbn [copy_cells length] in *.
  { by destruct gp. }
  pose proof (Hk 0%nat x eq_refl) as Ha. rewrite Nat.add_0_r in Ha.
  apply (wp_read handle footprint Inv owns_w (ReadCell a) _ Q gp (fun v => v = x)).
  - intros ? [= <-]. apply Ho. lia.
  - intros m gc (_ & _ & _ & _ & _ & _ & _ & _ & _ & Hkn). cbn [handle]. rewrite (load_Done _ _ x) by (by apply Hkn). by exists x.
  - intros ? ->. apply (wp_store_cell gp b x (fun _ => copy_cells (S a) (S b) (length xs))); [apply Ho; lia|lia|].
    apply IH; [|lia| |lia|done].
    + intros i y Hi. cbn [known set_known]. apply lookup_lt_Some in Hi as Hil. rewrite lookup_insert_ne by lia.
      replace (S a + i)%nat with (a + S i)%nat by lia. by apply Hk.
    + intros d Hd'. apply Ho. lia.
Qed.

(** Cells of the region the producer may fill. *)
Lemma owns_region gp n d :
  (length (wl gp) + n <= rseen gp + N)%nat -> (length (wl gp) mod N <= d < length (wl gp) mod N + n)%nat ->
  owns_w gp d /\ owns_w gp (d + N) /\ ((N <= d)%nat -> owns_w gp (d - N)).
Proof.
  intros Hn Hd. set (k := (length (wl gp) + (d - length (wl gp) mod N))%nat).
  assert (E : (k mod N = d mod N)%nat).
  { unfold k. rewrite (Nat.div_mod_eq (length (wl gp)) N) at 1.
    replace (N * (length (wl gp) / N) + length (wl gp) mod N + (d - length (wl gp) mod N))%nat
      with (d + (length (wl gp) / N) * N)%nat by lia. apply Nat.Div0.mod_add. }
  split_and!; [|replace (d + N)%nat with (d + 1 * N)%nat by lia|intros HNd]; exists k; (split; [lia|]); rewrite E.
  - done.
  - apply Nat.Div0.mod_add.
  - replace d with (d - N + 1 * N)%nat at 2 by lia. by rewrite Nat.Div0.mod_add.
Qed.

(** What [mirror_range] achieves: every new element is known at both its cells. *)
Definition mirrored_at (kn : gmap nat T) (w : nat) (xs : list T) : Prop :=
  forall i x, xs !! i = Some x -> kn !! ((w + i) mod N)%nat = Some x /\ kn !! ((w + i) mod N + N)%nat = Some x.

Lemma mod_shift w i : (i < N)%nat ->
  ((w + i) mod N = if decide (w mod N + i < N) then w mod N + i else w mod N + i - N)%nat.
Proof.
  intros Hi. pose proof (Nat.div_mod_eq w N). pose proof (mod_upper w). case_decide.
  - symmetry. apply (Nat.mod_unique _ _ (w / N) (w mod N + i)); lia.
  - symmetry. apply (Nat.mod_unique _ _ (S (w / N)) (w mod N + i - N)); nia.
Qed.

Lemma mirrored_put (kn : gmap nat T) w xs p :
  (length xs <= N)%nat -> p = Nat.min (length xs) (N - w mod N) ->
  (forall i x, xs !! i = Some x -> kn !! (w mod N + i)%nat = Some x) ->
  mirrored_at (put 0 (drop p xs) (put (w mod N + N) (take p xs) kn)) w xs.
Proof.
  intros Hl -> Hk i x Hx. pose proof (mod_upper w) as Hw. apply lookup_lt_Some in Hx as Hi. rewrite mod_shift by lia.
  set (p := Nat.min (length xs) (N - w mod N)).
  destruct (decide (w mod N + i < N)%nat) as [Hlt|Hge].
  - assert (Hp : (i < p)%nat) by (unfold p; lia). split.
    + rewrite lookup_put_out, lookup_put_out by (rewrite ?length_drop, ?length_take; unfold p in *; lia). by apply Hk.
    + rewrite lookup_put_out by (rewrite ?length_drop; unfold p in *; lia).
      replace (w mod N + i + N)%nat with (w mod N + N + i)%nat by lia. apply lookup_put_in. by rewrite lookup_take_lt.
  - assert (Hp : p = (N - w mod N)%nat) by (unfold p; lia). split.
    + replace (w mod N + i - N)%nat with (0 + (i - p))%nat by lia. apply lookup_put_in. rewrite lookup_drop.
      by replace (p + (i - p))%nat with i by lia.
    + rewrite lookup_put_out by (rewrite ?length_drop; lia).
      rewrite lookup_put_out by (rewrite ?length_take; lia).
      replace (w mod N + i - N + N)%nat with (w mod N + i)%nat by lia. by apply Hk.
Qed.

Lemma wp_mirror_range gp xs Q :
  fits (length (wl gp)) -> (length (wl gp) + length xs <= rseen gp + N)%nat -> (length xs <= N)%nat ->
  (forall i x, xs !! i = Some x -> known gp !! (length (wl gp) mod N + i)%nat = Some x) ->
  (forall kn, mirrored_at kn (length (wl gp)) xs -> Q tt (set_known gp kn)) ->
  wpp (mirror_range (size_t (Z.of_nat (length (wl gp)))) (length xs)) Q gp.
Proof.
  intros Hfit' Hn Hl Hk Hf. unfold mirror_range. destruct (Nat.eqb_spec (length xs) 0) as [E|Hne].
  { destruct xs; [|done]. specialize (Hf (known gp)). unfold set_known in Hf. destruct gp. apply Hf. intros i x Hx. done. }
  rewrite physical_fits by done. set (w := length (wl gp)) in *. pose proof (mod_upper w) as Hw.
  set (p := Nat.min (length xs) (N - w mod N)).
  replace (if (length xs <? N - w mod N)%nat then length xs else (N - w mod N)%nat) with p
    by (unfold p; destruct (Nat.ltb_spec (length xs) (N - w mod N)); lia).
  assert (Hreg : forall d, (w mod N <= d < w mod N + length xs)%nat ->
     owns_w gp d /\ owns_w gp (d + N) /\ ((N <= d)%nat -> owns_w gp (d - N))) by (intros d Hd; by eapply owns_region).
  apply wp_bind. replace (copy_cells (w mod N) (w mod N + N) p) with (copy_cells (w mod N) (w mod N + N) (length (take p xs)))
    by (rewrite length_take; f_equal; unfold p; lia).
  apply wp_copy_cells; rewrite ?length_take.
  - intros i x Hx. apply lookup_take_Some in Hx as [Hx _]. by apply Hk.
  - unfold p; lia.
  - intros d [Hd|Hd]; [apply Hreg; unfold p in *; lia|].
    replace d with (d - N + N)%nat by lia. apply Hreg. unfold p in *; lia.
  - unfold p; lia.
  - replace (length xs - p)%nat with (length (drop p xs)) by apply length_drop.
    apply (wp_copy_cells (set_known gp (put (w mod N + N) (take p xs) (known gp))) N 0 (drop p xs));
      rewrite ?length_drop; cbn [known set_known].
    + intros i x Hx. rewrite lookup_drop in Hx. apply lookup_lt_Some in Hx as Hi.
      rewrite lookup_put_out by (rewrite length_take; unfold p in *; lia).
      replace (N + i)%nat with (w mod N + (p + i))%nat by (unfold p in *; lia). by apply Hk.
    + unfold p; lia.
    + intros d [Hd|Hd]; [apply (Hreg d)|replace d with (d + N - N)%nat by lia; apply (Hreg (d + N)%nat)]; unfold p in *; lia.
    + unfold p; lia.
    + cbn [wp]. apply Hf. by apply mirrored_put.
Qed.

Lemma wp_commit_write gp xs Q :
  fits (length (wl gp) + length xs) -> (length (wl gp) + length xs <= rseen gp + N)%nat -> (length xs <= N)%nat ->
  (forall i x, xs !! i = Some x -> known gp !! (length (wl gp) mod N + i)%nat = Some x) ->
  Q tt (mk_gp (wl gp ++ xs) (rseen gp) ∅) ->
  wpp (commit_write (size_t (Z.of_nat (length (wl gp)))) (length xs)) Q gp.
Proof.
  intros Hfw Hn Hl Hk Hf. unfold commit_write. apply wp_bind, wp_mirror_range; [|done..|].
  { by apply (fits_le _ (length (wl gp) + length xs)); [lia|]. }
  intros kn Hm. split; [done|].
  intros m gc (Hls & Hw & Hr & Hs & Hnr & Hp & HW & Hf' & Hc & Hkn). cbn [wl rseen known set_known] in *.
  cbn [handle]. eexists _, _, (mk_gp (wl gp ++ xs) (rseen gp) ∅). split; [done|]. split; [|exact Hf].
  unfold Inv. cbn [storage_ write_index_ read_index_ wl rseen known]. rewrite length_app. split_and!; try done; try lia.
  - unfold wrap. rewrite Zplus_mod_idemp_l. f_equal. lia.
  - by apply prefix_app_r.
  - intros k v Hv Hk'. apply lookup_app_Some in Hv as [Hv|[Hge Hv]]; [by apply Hc|].
    destruct (Hm _ _ Hv) as [H1 H2]. replace (length (wl gp) + (k - length (wl gp)))%nat with k in * by lia.
    split; by apply Hkn.
Qed.

(** The producer's cells from its position on. *)
Lemma wp_fill gp xs Q :
  (length (wl gp) + length xs <= rseen gp + N)%nat -> (length xs <= N)%nat ->
  (forall kn, (forall i x, xs !! i = Some x -> kn !! (length (wl gp) mod N + i)%nat = Some x) -> Q tt (set_known gp kn)) ->
  wpp (write_cells (length (wl gp) mod N) xs) Q gp.
Proof.
  intros Hn Hl HQ. pose proof (mod_upper (length (wl gp))). apply ring_wp_write_cells; [|lia|].
  - intros d Hd. by apply (owns_region gp (length xs) d).
  - apply HQ. intros i x Hx. by apply lookup_put_in.
Qed.

Definition weight (c : producer_command) : nat :=
  match c with P_push _ => 1 | P_push_bulk xs | P_reserve _ xs => length xs end.
Definition total (cmds : list producer_command) : nat := sum_list (weight <$> cmds).

Lemma wp_push gp x Q :
  fits (length (wl gp) + 1) ->
  (forall r, Q s_ok (mk_gp (wl gp ++ [x]) r ∅)) -> (forall r, Q s_full (mk_gp (wl gp) r (known gp))) ->
  wpp (push x) Q gp.
Proof.
  intros Hfw Hok Hfull. unfold push. apply wp_writable_size. intros r Hr Hw.
  destruct (Z.eqb_spec (Z.of_nat (r + N - length (wl gp))) 0) as [|Hne]; [apply Hfull|].
  rewrite physical_fits by (eapply fits_le; [|done]; lia).
  pose proof (mod_upper (length (wl gp))) as Hm.
  apply (wp_store_cell (mk_gp (wl gp) r (known gp)) (length (wl gp) mod N)%nat x
           (fun _ => _ ← commit_write (size_t (Z.of_nat (length (wl gp)))) 1; Ret s_ok)); [|lia|].
  { apply (owns_region (mk_gp (wl gp) r (known gp)) 1); cbn; lia. }
  apply wp_bind, (wp_commit_write (mk_gp (wl gp) r _) [x]); cbn [wl rseen length known]; [done|lia|lia| |apply Hok].
  intros i y Hi. apply list_lookup_singleton_Some in Hi as [-> ->]. rewrite Nat.add_0_r. apply lookup_insert_eq.
Qed.

Lemma wp_push_bulk gp xs Q :
  fits (length (wl gp) + length xs) ->
  (forall r n, Q n (mk_gp (wl gp ++ take n xs) r ∅)) -> wpp (push_bulk (Some xs)) Q gp.
Proof.
  intros Hfw Hok. unfold push_bulk. apply wp_writable_size. intros r Hr Hw.
  set (count := if _ <? _ then _ else _).
  assert (Hc : (count <= length xs /\ count <= r + N - length (wl gp))%nat).
  { unfold count. destruct (Z.ltb_spec (Z.of_nat (length xs)) (Z.of_nat (r + N - length (wl gp)))); lia. }
  rewrite physical_fits by (eapply fits_le; [|done]; lia).
  assert (Hlt : length (take count xs) = count) by (rewrite length_take; lia).
  apply wp_bind, (wp_fill (mk_gp (wl gp) r (known gp)) (take count xs)); cbn [wl rseen]; rewrite ?Hlt; [lia|lia|].
  intros kn Hkn. rewrite <-Hlt at 1.
  apply wp_bind, (wp_commit_write (mk_gp (wl gp) r kn) (take count xs)); cbn [wl rseen known]; rewrite ?Hlt; [|lia|lia|done|apply Hok].
  eapply fits_le; [|done]. lia.
Qed.

Lemma wp_write_commit gp xs Q :
  fits (length (wl gp) + length xs) -> (length (wl gp) + length xs <= rseen gp + N)%nat -> (length xs <= N)%nat ->
  (forall i x, xs !! i = Some x -> known gp !! (length (wl gp) mod N + i)%nat = Some x) ->
  (forall r kn, (xs = [] \/ kn = ∅) -> Q s_ok (mk_gp (wl gp ++ xs) r kn)) ->
  wpp (write_commit ((length (wl gp) mod N)%nat, length xs)) Q gp.
Proof.
  intros Hfw Hn Hl Hk Hok. unfold write_commit. cbn [fst snd].
  eapply (wp_read _ _ _ _ _ _ _ _ (fun w => w = size_t (Z.of_nat (length (wl gp))))); [done| |intros ? ->].
  { intros m gc (_ & Hw & _). cbn. rewrite Hw. by eexists. }
  rewrite physical_fits, Nat.eqb_refl by (eapply fits_le; [|done]; lia). cbn [negb].
  destruct (Nat.eqb_spec (length xs) 0) as [E|Hne].
  { destruct xs; [|done]. specialize (Hok (rseen gp) (known gp) (or_introl eq_refl)). rewrite app_nil_r in Hok. by destruct gp. }
  apply wp_bind, wp_free_size_from. intros r Hr Hw.
  destruct (Z.ltb_spec (Z.of_nat (r + N - length (wl gp))) (Z.of_nat (length xs))) as [|_]; [lia|].
  apply wp_bind, (wp_commit_write (mk_gp (wl gp) r (known gp))); cbn [wl rseen known]; [done|lia|done|done|]. apply Hok. by right.
Qed.

Lemma ring_wp_producer cmds sent gp :
  wl gp = sent -> fits (length sent + total cmds) ->
  wpp (producer cmds sent) (fun sent gp => wl gp = sent) gp.
Proof.
  revert sent gp. induction cmds as [|[x|xs|n xs] cmds IH]; intros sent gp E Hf; subst sent; cbn [producer].
  - done.
  - unfold total in Hf. cbn in Hf. apply wp_bind, wp_push; [eapply fits_le; [|done]; lia|intros r..].
    + rewrite bool_decide_true by done. apply IH; [done|]. rewrite length_app. cbn. eapply fits_le; [|done]. unfold total. lia.
    + rewrite bool_decide_false by done. apply IH; [done|]. eapply fits_le; [|done]. unfold total. lia.
  - unfold total in Hf. cbn in Hf. apply wp_bind, wp_push_bulk; [eapply fits_le; [|done]; lia|]. intros r n.
    apply IH; [done|]. rewrite length_app, length_take. eapply fits_le; [|done]. unfold total. lia.
  - unfold total in Hf. cbn in Hf. unfold write_reserve. apply wp_bind, wp_writable_size. intros r Hr Hw. cbn [wp].
    set (k := if _ <? _ then _ else _).
    assert (Hk : (k <= r + N - length (wl gp))%nat).
    { unfold k. destruct (Z.ltb_spec (Z.of_nat n) (Z.of_nat (r + N - length (wl gp)))); lia. }
    rewrite physical_fits by (eapply fits_le; [|done]; lia). cbn zeta.
    assert (Hlt : (length (take k xs) <= k /\ length (take k xs) <= length xs)%nat) by (rewrite length_take; lia).
    apply wp_bind, (wp_fill (mk_gp (wl gp) r (known gp)) (take k xs)); cbn [wl rseen]; [lia|lia|]. intros kn Hkn.
    apply wp_bind, (wp_write_commit (mk_gp (wl gp) r kn) (take k xs)); cbn [wl rseen known]; [|lia|lia|done|].
    { eapply fits_le; [|done]. lia. }
    intros r' kn' _. rewrite bool_decide_true by done. apply IH; [done|].
    rewrite length_app. eapply fits_le; [|done]. unfold total. lia.
Qed.

(** ** The consumer *)

Lemma wp_readable_size_from gc Q :
  (forall rl', rl gc `prefix_of` rl' -> (nread gc <= length rl' <= nread gc + N)%nat -> fits (length rl') ->
     Q (Z.of_nat (length rl' - nread gc)) (mk_gc rl' (nread gc))) ->
  wpc (readable_size_from (size_t (Z.of_nat (nread gc)))) Q gc.
Proof.
  intros HQ. unfold readable_size_from.
  eapply (wp_act _ _ _ _ _ _ _ _ (fun v g1 => exists rl', rl gc `prefix_of` rl' /\ (nread gc <= length rl' <= nread gc + N)%nat
      /\ fits (length rl') /\ v = size_t (Z.of_nat (length rl')) /\ g1 = mk_gc rl' (nread gc))); [done| |].
  { intros m gp (Hl & Hw & Hr & Hs & Hnr & Hp & HW & Hf & Hc & Hk). cbn. rewrite Hw.
    eexists _, _, (mk_gc (wl gp) (nread gc)). split; [done|]. apply prefix_length in Hp as Hpl.
    split; [|exists (wl gp); split_and!; (done || lia)].
    unfold Inv. cbn [rl nread]. split_and!; try done. lia. }
  intros v g1 (rl' & Hp & Hl & Hf & -> & ->). cbn [wp]. rewrite distance by lia. by apply HQ.
Qed.

Lemma wp_load_read {A} gc (f : Z -> prog eff A) Q :
  wpc (f (size_t (Z.of_nat (nread gc)))) Q gc -> wpc (r ← act LoadRead; f r) Q gc.
Proof.
  intros Hf. eapply (wp_read _ _ _ _ _ _ _ _ (fun r => r = size_t (Z.of_nat (nread gc)))); [done| |intros ? ->; exact Hf].
  intros m gp (_ & _ & Hr & _). cbn. rewrite Hr. by eexists.
Qed.

Lemma wp_readable_size {A} gc (f : Z * Z -> prog eff A) Q :
  (forall rl', rl gc `prefix_of` rl' -> (nread gc <= length rl' <= nread gc + N)%nat -> fits (length rl') ->
     wpc (f (size_t (Z.of_nat (nread gc)), Z.of_nat (length rl' - nread gc))) Q (mk_gc rl' (nread gc))) ->
  wpc (v ← readable_size; f v) Q gc.
Proof.
  intros Hf. unfold readable_size. apply wp_bind, wp_load_read, wp_bind, wp_readable_size_from.
  intros rl' Hp Hl Hft. by apply Hf.
Qed.

(** The [i]-th element to be read is in the [i]-th cell from the consumer's position on. *)
Lemma read_position m gp gc i v :
  Inv m gp gc -> rl gc !! (nread gc + i)%nat = Some v -> storage_ m !! (nread gc mod N + i)%nat = Some v.
Proof.
  intros (Hl & Hw & Hr & Hs & Hnr & Hp & HW & Hf & Hc & Hk) Hv. apply prefix_length in Hp as Hpl.
  apply lookup_lt_Some in Hv as Hlt. destruct Hp as [rest Hp].
  assert (Hv' : wl gp !! (nread gc + i)%nat = Some v) by (rewrite Hp; by apply lookup_app_l_Some).
  destruct (Hc _ _ Hv') as [H1 H2]; [lia|]. rewrite mod_shift in H1, H2 by lia.
  destruct (decide (nread gc mod N + i < N)%nat); [done|]. by replace (nread gc mod N + i - N + N)%nat with (nread gc mod N + i)%nat in H2 by lia.
Qed.

Lemma wp_load_cell {A} gc i v (f : T -> prog eff A) Q :
  rl gc !! (nread gc + i)%nat = Some v -> (i < N)%nat -> wpc (f v) Q gc ->
  wpc (x ← act (ReadCell (nread gc mod N + i)); f x) Q gc.
Proof.
  intros Hv Hi Hf. apply (wp_read handle footprint (fun m gc gp => Inv m gp gc) owns_r _ _ _ _ (fun x => x = v)).
  - intros ? [= <-]. exists (nread gc + i)%nat. apply lookup_lt_Some in Hv. split; [lia|].
    by rewrite Nat.Div0.add_mod_idemp_l.
  - intros m gp Hi'. cbn [handle]. rewrite (load_Done _ _ v) by (by eapply read_position). by exists v.
  - by intros ? ->.
Qed.

Lemma ring_wp_read_cells gc i n Q :
  (nread gc + i + n <= length (rl gc))%nat -> (length (rl gc) <= nread gc + N)%nat ->
  Q (take n (drop (nread gc + i) (rl gc))) gc -> wpc (read_cells (nread gc mod N + i) n) Q gc.
Proof.
  revert i Q. induction n as [|n IH]; intros i Q Hn Hl HQ; cbn [read_cells]; [done|].
  destruct (lookup_lt_is_Some_2 (rl gc) (nread gc + i)) as [v Hv]; [lia|]. rewrite (drop_S _ _ _ Hv) in HQ. cbn [take] in HQ.
  apply (wp_load_cell gc i v); [done|lia|]. apply wp_bind. rewrite plus_n_Sm. apply IH; [lia|done|].
  cbn [wp]. by rewrite <-plus_n_Sm.
Qed.

Lemma wp_commit_read gc n Q :
  (nread gc + n <= length (rl gc))%nat -> Q tt (mk_gc (rl gc) (nread gc + n)) ->
  wpc (commit_read (size_t (Z.of_nat (nread gc))) n) Q gc.
Proof.
  intros Hn HQ. unfold commit_read. split; [done|].
  intros m gp (Hl & Hw & Hr & Hs & Hnr & Hp & HW & Hf & Hc & Hk). cbn [handle].
  eexists _, _, (mk_gc (rl gc) (nread gc + n)). split; [done|]. split; [|exact HQ].
  unfold Inv. cbn [storage_ write_index_ read_index_ rl nread]. split_and!; try done; try lia.
  - unfold wrap. rewrite Zplus_mod_idemp_l. f_equal. lia.
  - intros k v Hv Hk'. apply Hc; [done|lia].
Qed.

(** What the consumer's results say. *)
Definition consumer_ok (got : list (option T)) (seen : list (nat * T)) (gc : gconsumer) : Prop :=
  length got = nread gc
  /\ (forall i v, got !! i = Some (Some v) -> rl gc !! i = Some v)
  /\ (forall k v, (k, v) ∈ seen -> rl gc !! k = Some v).

Lemma consumer_more got seen gc rl' :
  consumer_ok got seen gc -> rl gc `prefix_of` rl' -> consumer_ok got seen (mk_gc rl' (nread gc)).
Proof.
  intros (Hl & Hg & Hs) [rest ->]. split_and!; [done|..]; cbn [rl].
  - intros i v Hv. by apply lookup_app_l_Some, Hg.
  - intros k v Hv. by apply lookup_app_l_Some, Hs.
Qed.

Lemma consumer_take got seen gc n ys :
  consumer_ok got seen gc -> length ys = n -> (forall i v, ys !! i = Some (Some v) -> rl gc !! (nread gc + i)%nat = Some v) ->
  consumer_ok (got ++ ys) seen (mk_gc (rl gc) (nread gc + n)).
Proof.
  intros (Hl & Hg & Hs) Hn Hy. split_and!; [rewrite length_app; cbn; lia| |done]. cbn [rl].
  intros i v Hv. apply lookup_app_Some in Hv as [Hv|[Hge Hv]]; [by apply Hg|].
  apply Hy in Hv. by replace (nread gc + (i - length got))%nat with i in Hv by lia.
Qed.

Lemma consumer_take_front got seen gc n :
  consumer_ok got seen gc -> (nread gc + n <= length (rl gc))%nat ->
  consumer_ok (got ++ (Some <$> take n (drop (nread gc) (rl gc)))) seen (mk_gc (rl gc) (nread gc + n)).
Proof.
  intros Hok Hn. apply consumer_take; [done| |].
  - rewrite length_fmap, length_take, length_drop. lia.
  - intros j x Hx. rewrite list_lookup_fmap in Hx. apply fmap_Some in Hx as (y & Hy & [= ->]).
    apply lookup_take_Some in Hy as [Hy _]. by rewrite lookup_drop in Hy.
Qed.

(** Committing what was reserved, by then a part of what is readable. *)
Lemma wp_read_commit gc n Q :
  fits (length (rl gc)) -> (nread gc + n <= length (rl gc))%nat ->
  (forall rl', rl gc `prefix_of` rl' -> Q s_ok (mk_gc rl' (nread gc + n))) ->
  wpc (read_commit ((nread gc mod N)%nat, n)) Q gc.
Proof.
  intros Hf Hn HQ. unfold read_commit. apply wp_load_read. cbn [fst snd].
  rewrite physical_fits, Nat.eqb_refl by (eapply fits_le; [|done]; lia). cbn [negb].
  destruct (Nat.eqb_spec n 0) as [->|Hne].
  { specialize (HQ (rl gc)). rewrite Nat.add_0_r in HQ. destruct gc. by apply HQ. }
  apply wp_bind, wp_readable_size_from. intros rl' Hp Hl Hf'. apply prefix_length in Hp as Hpl.
  destruct (Z.ltb_spec (Z.of_nat (length rl' - nread gc)) (Z.of_nat n)) as [|_]; [lia|].
  apply wp_bind, (wp_commit_read (mk_gc rl' (nread gc))); [cbn; lia|]. by apply HQ.
Qed.

Lemma reserve_le (n a : nat) : ((if (Z.of_nat n <? Z.of_nat a)%Z then n else Z.to_nat (Z.of_nat a)) <= a)%nat.
Proof. destruct (Z.ltb_spec (Z.of_nat n) (Z.of_nat a)); lia. Qed.

Lemma ring_wp_consumer cmds got seen gc :
  consumer_ok got seen gc ->
  wpc (consumer cmds got seen) (fun '(got, seen) gc => consumer_ok got seen gc) gc.
Proof.
  revert got seen gc. induction cmds as [|[| |i|n|n] cmds IH]; intros got seen gc Hok; cbn [consumer]; [done|..];
    unfold pop, pop_discard, peek, pop_bulk, read_reserve; apply wp_bind, wp_readable_size; intros rl' Hp Hl Hf;
    apply (consumer_more _ _ _ _ Hok) in Hp; set (gc' := mk_gc rl' (nread gc)) in *;
    try (destruct (Z.eqb_spec (Z.of_nat (length rl' - nread gc)) 0); [by apply IH|]).
  - rewrite physical_fits by (eapply fits_le; [|done]; lia). rewrite <-(Nat.add_0_r (nread gc mod N)).
    destruct (lookup_lt_is_Some_2 rl' (nread gc + 0)) as [v Hv]; [lia|].
    apply (wp_load_cell gc' 0 v); [done|lia|].
    apply wp_bind, (wp_commit_read gc' 1); [cbn; lia|]. cbn [wp]. rewrite bool_decide_true by done.
    apply IH, (consumer_take _ _ gc'); [done..|].
    intros j x Hx. by apply list_lookup_singleton_Some in Hx as [-> [= ->]].
  - apply wp_bind, (wp_commit_read gc' 1); [cbn; lia|]. cbn [wp]. rewrite bool_decide_true by done.
    apply IH, (consumer_take _ _ gc'); [done..|].
    intros j x Hx. by apply list_lookup_singleton_Some in Hx as [-> [= ]].
  - destruct (Z.leb_spec (Z.of_nat (length rl' - nread gc)) (Z.of_nat i)); [by apply IH|].
    rewrite physical_fits by (eapply fits_le; [|done]; lia).
    destruct (lookup_lt_is_Some_2 rl' (nread gc + i)) as [v Hv]; [lia|].
    apply (wp_load_cell gc' i v); [done|lia|]. cbn [wp]. apply IH.
    destruct Hp as (Hlg & Hg & Hs). split_and!; [done..|]. intros k x Hx. apply elem_of_app in Hx as [Hx|Hx]; [by apply Hs|].
    apply list_elem_of_singleton in Hx as [= -> ->]. cbn [rl gc' nread] in *. by rewrite Hlg.
  - pose proof (reserve_le n (length rl' - nread gc)) as Hk. set (k := if _ <? _ then _ else _) in *.
    rewrite physical_fits by (eapply fits_le; [|done]; lia). rewrite <-(Nat.add_0_r (nread gc mod N)).
    apply wp_bind, (ring_wp_read_cells gc' 0 k); cbn [rl nread gc']; [lia|lia|]. rewrite Nat.add_0_r.
    apply wp_bind, (wp_commit_read gc' k); [cbn; lia|]. cbn [wp].
    apply IH, (consumer_take_front _ _ gc'); [done|cbn; lia].
  - pose proof (reserve_le n (length rl' - nread gc)) as Hk. set (k := if _ <? _ then _ else _) in *. cbn [wp].
    rewrite physical_fits by (eapply fits_le; [|done]; lia). rewrite <-(Nat.add_0_r (nread gc mod N)) at 1.
    apply wp_bind, (ring_wp_read_cells gc' 0 k); cbn [rl nread gc']; [lia|lia|]. rewrite Nat.add_0_r.
    apply wp_bind, (wp_read_commit gc' k); [done|cbn; lia|]. intros rl'' Hp''. rewrite bool_decide_true by done.
    apply IH, (consumer_more _ _ (mk_gc rl' (nread gc + k))); [|done].
    apply (consumer_take_front _ _ gc'); [done|cbn; lia].
Qed.

(** ** Both together *)

Lemma ring_Inv_new zero : Inv (mirrored_new zero) (mk_gp [] 0 ∅) (mk_gc [] 0).
Proof.
  unfold Inv, mirrored_new. cbn [storage_ read_index_ write_index_ wl rseen known rl nread length].
  rewrite length_replicate. split_and!; try done; try lia. right. cbn. lia.
Qed.

(** The buffer at rest holds [q]. *)
Definition holds (m : mirrored) (q : list T) : Prop :=
  exists xs n, Inv m (mk_gp xs n ∅) (mk_gc xs n) /\ q = drop n xs /\ (n <= length xs)%nat.

Lemma Inv_holds m gp gc : Inv m gp gc -> holds m (drop (nread gc) (wl gp)).
Proof.
  intros (Hl & Hw & Hr & Hs & Hnr & Hp & HW & Hf & Hc & Hk). apply prefix_length in Hp as Hpl.
  exists (wl gp), (nread gc). split; [|split; [done|lia]]. unfold Inv. cbn [wl rseen known rl nread].
  split_and!; try done; lia.
Qed.

(** There is room in the indices for [n] more elements. *)
Definition index_room (m : mirrored) (n : nat) : Prop :=
  is_power_of_two = true \/ write_index_ m + Z.of_nat n < 2 ^ bits.

Section AtRest.
Context (m : mirrored) (xs : list T) (n : nat).
Context (Hi : Inv m (mk_gp xs n ∅) (mk_gc xs n)) (Hn : (n <= length xs)%nat).

Lemma rest_indices :
  read_index_ m = size_t (Z.of_nat n) /\ write_index_ m = size_t (Z.of_nat (length xs)) /\ (length xs <= n + N)%nat
  /\ fits (length xs) /\ fits n.
Proof.
  destruct Hi as (_ & Hw & Hr & _ & _ & _ & HW & Hf & _). cbn in *. split_and!; try done. by apply (fits_le _ (length xs)).
Qed.

Lemma run_writable : run handle writable_size m = Done ((size_t (Z.of_nat (length xs)), Z.of_nat (n + N - length xs)), m).
Proof.
  destruct rest_indices as (Hr & Hw & HW & _). unfold writable_size, free_size_from. rewrite run_act. cbn. rewrite Hr, Hw.
  rewrite distance by lia. do 3 f_equal. rewrite wrap_small; [lia|]. unfold in_width. lia.
Qed.

Lemma run_readable : run handle readable_size m = Done ((size_t (Z.of_nat n), Z.of_nat (length xs - n)), m).
Proof.
  destruct rest_indices as (Hr & Hw & HW & _). unfold readable_size, readable_size_from. rewrite run_act. cbn. rewrite Hr, Hw.
  by rewrite distance by lia.
Qed.

Lemma rest_cell i v : drop n xs !! i = Some v -> storage_ m !! (n mod N + i)%nat = Some v.
Proof. rewrite lookup_drop. intros Hv. exact (read_position m _ _ i v Hi Hv). Qed.

Lemma rest_contiguous : take (length xs - n) (drop (n mod N) (storage_ m)) = drop n xs.
Proof.
  apply list_eq. intros i. destruct (drop n xs !! i) as [v|] eqn:E.
  - apply lookup_lt_Some in E as Hlt. rewrite length_drop in Hlt. rewrite lookup_take_lt, lookup_drop by lia. by apply rest_cell.
  - apply lookup_ge_None in E. rewrite length_drop in E. apply lookup_take_ge. lia.
Qed.

Lemma rest_views :
  (forall k, run handle (read_reserve k) m = Done ((n mod N)%nat, Nat.min k (length xs - n), m))
  /\ (forall v, v.1 <> (n mod N)%nat -> run handle (read_commit v) m = Done (s_invalid_argument, m))
  /\ (forall k, (length xs - n < k)%nat -> run handle (read_commit ((n mod N)%nat, k)) m = Done (s_empty, m))
  /\ (forall k, run handle (write_reserve k) m = Done ((length xs mod N)%nat, Nat.min k (n + N - length xs), m))
  /\ (forall v, v.1 <> (length xs mod N)%nat -> run handle (write_commit v) m = Done (s_invalid_argument, m))
  /\ (forall k, (n + N - length xs < k)%nat -> run handle (write_commit ((length xs mod N)%nat, k)) m = Done (s_full, m)).
Proof.
  destruct rest_indices as (Hr & Hw & HW & Hf & Hfn).
  assert (Hmin : forall k a, (if Z.of_nat k <? Z.of_nat a then k else Z.to_nat (Z.of_nat a)) = Nat.min k a).
  { intros k a. destruct (Z.ltb_spec (Z.of_nat k) (Z.of_nat a)); lia. }
  unfold read_reserve, write_reserve, read_commit, write_commit. split_and!; intros k.
  - rewrite run_bind, run_readable. exec_simpl. cbn [run]. by rewrite physical_fits, Hmin.
  - intros Hk. rewrite run_act. cbn [handle]. exec_simpl. rewrite Hr, physical_fits by done.
    by rewrite (proj2 (Nat.eqb_neq _ _)).
  - intros Hk. rewrite run_act. cbn [handle]. exec_simpl. rewrite Hr, physical_fits by done. cbn [fst snd].
    rewrite Nat.eqb_refl, (proj2 (Nat.eqb_neq k 0)) by lia. cbn [negb]. rewrite run_bind. unfold readable_size_from.
    rewrite run_act. cbn [handle mbind exec_bind run]. rewrite Hw, distance by lia.
    by rewrite (proj2 (Z.ltb_lt _ _)) by lia.
  - rewrite run_bind, run_writable. exec_simpl. cbn [run]. by rewrite physical_fits, Hmin.
  - intros Hk. rewrite run_act. cbn [handle]. exec_simpl. rewrite Hw, physical_fits by done.
    by rewrite (proj2 (Nat.eqb_neq _ _)).
  - intros Hk. rewrite run_act. cbn [handle]. exec_simpl. rewrite Hw, physical_fits by done. cbn [fst snd].
    rewrite Nat.eqb_refl, (proj2 (Nat.eqb_neq k 0)) by lia. cbn [negb]. rewrite run_bind. unfold free_size_from.
    rewrite run_act. cbn [handle mbind exec_bind run]. rewrite Hr, distance by lia.
    rewrite wrap_small by (unfold in_width; lia). by rewrite (proj2 (Z.ltb_lt _ _)) by lia.
Qed.

Lemma rest_elements :
  (forall i, run handle (peek i) m = Done (match drop n xs !! i with Some v => (s_ok, Some v) | None => (s_out_of_range, None) end, m))
  /\ (forall i v, drop n xs !! i = Some v -> run handle (operator_at i) m = Done (v, m))
  /\ (forall v, last (drop n xs) = Some v -> run handle back m = Done (v, m)).
Proof.
  destruct rest_indices as (Hr & Hw & HW & Hf & Hfn). split_and!.
  - intros i. unfold peek. rewrite run_bind, run_readable. exec_simpl. destruct (drop n xs !! i) as [v|] eqn:E.
    + apply lookup_lt_Some in E as Hlt. rewrite length_drop in Hlt. rewrite (proj2 (Z.leb_gt _ _)) by lia.
      rewrite physical_fits by done. rewrite run_act. cbn [handle]. by rewrite (load_Done _ _ v) by (by apply rest_cell).
    + apply lookup_ge_None in E. rewrite length_drop in E. by rewrite (proj2 (Z.leb_le _ _)) by lia.
  - intros i v E. unfold operator_at, begin. rewrite run_bind, run_act. cbn [handle mbind exec_bind run]. rewrite Hr, physical_fits by done.
    unfold act. cbn [run handle]. by rewrite (load_Done _ _ v) by (by apply rest_cell).
  - intros v E. rewrite last_lookup in E. apply lookup_lt_Some in E as Hlt. rewrite length_drop in E, Hlt.
    unfold back, end_. rewrite !run_bind, run_readable. cbn [mbind exec_bind run].
    rewrite physical_fits by done. rewrite Nat2Z.id.
    replace (n mod N + (length xs - n) - 1)%nat with (n mod N + Nat.pred (length xs - n))%nat by lia.
    unfold act. cbn [run handle]. by rewrite (load_Done _ _ v) by (by apply rest_cell).
Qed.

Lemma rest_push x : index_room m 1 ->
  exists m', run handle (push x) m = Done (if (length xs - n <? N)%nat then s_ok else s_full, m')
    /\ holds m' (if (length xs - n <? N)%nat then drop n xs ++ [x] else drop n xs).
Proof.
  intros Hroom. destruct rest_indices as (Hr & Hw & HW & Hf & Hfn).
  assert (Hf1 : fits (length xs + 1)).
  { destruct Hroom as [|Hroom]; [by left|]. destruct Hf as [|Hf]; [by left|]. right.
    rewrite Hw, wrap_small in Hroom by (unfold in_width; lia). lia. }
  unfold push. rewrite run_bind, run_writable. exec_simpl.
  destruct (Nat.ltb_spec (length xs - n) N) as [Hlt|Hge].
  - destruct (Z.eqb_spec (Z.of_nat (n + N - length xs)) 0) as [|_]; [lia|].
    pose proof (mod_upper (length xs)) as Hm. rewrite physical_fits by done.
    assert (Hwp : wpp (_ ← act (WriteCell (length xs mod N) x); _ ← commit_write (size_t (Z.of_nat (length xs))) 1; Ret s_ok)
              (fun st g => st = s_ok /\ g = mk_gp (xs ++ [x]) n ∅) (mk_gp xs n ∅)).
    { apply (wp_store_cell (mk_gp xs n ∅) (length xs mod N)%nat x
           (fun _ => _ ← commit_write (size_t (Z.of_nat (length xs))) 1; Ret s_ok)).
      - apply (owns_region (mk_gp xs n ∅) 1); cbn; lia.
      - lia.
      - apply wp_bind, (wp_commit_write (mk_gp xs n _) [x]); cbn [wl rseen length known]; [done|lia|lia| |done].
        intros i y Hiy. apply list_lookup_singleton_Some in Hiy as [-> ->]. rewrite Nat.add_0_r. apply lookup_insert_eq. }
    destruct (wp_run _ _ _ _ _ _ _ _ _ Hwp Hi) as (a & m' & g1 & -> & Hi' & Ha).
    destruct Ha as [-> ->]. exists m'. split; [done|]. apply Inv_holds in Hi'. cbn [wl nread] in Hi'. by rewrite drop_app_le in Hi' by lia.
  - destruct (Z.eqb_spec (Z.of_nat (n + N - length xs)) 0) as [_|]; [|lia]. exists m. split; [done|]. by exists xs, n.
Qed.

Lemma rest_pop :
  exists m', run handle pop m = Done (match drop n xs with [] => (s_empty, None) | v :: _ => (s_ok, Some v) end, m')
    /\ holds m' (tail (drop n xs)).
Proof.
  destruct rest_indices as (Hr & Hw & HW & Hf & Hfn). unfold pop. rewrite run_bind, run_readable. exec_simpl.
  destruct (drop n xs) as [|v q] eqn:E.
  - apply (f_equal length) in E. rewrite length_drop in E. cbn in E. rewrite E. cbn. exists m. split; [done|].
    exists xs, n. split_and!; [done| |lia]. by rewrite drop_ge by lia.
  - pose proof (f_equal length E) as El. rewrite length_drop in El. cbn in El.
    destruct (Z.eqb_spec (Z.of_nat (length xs - n)) 0) as [|_]; [lia|]. rewrite physical_fits by done. rewrite run_act. cbn [handle].
    rewrite (load_Done _ _ v) by (rewrite <-(Nat.add_0_r (n mod N)); apply rest_cell; by rewrite E). exec_simpl.
    assert (Hwp : wpc (commit_read (size_t (Z.of_nat n)) 1) (fun _ g => g = mk_gc xs (n + 1)) (mk_gc xs n)).
    { apply (wp_commit_read (mk_gc xs n) 1); [cbn; lia|done]. }
    destruct (wp_run _ _ (fun m gc gp => Inv m gp gc) _ _ _ _ _ _ Hwp Hi) as (a & m' & g1 & Hrun & Hi' & Ha).
    rewrite run_bind. cbn [nread] in Hrun. rewrite Hrun. exec_simpl. rewrite Ha in Hi'. exists m'. split; [done|].
    apply Inv_holds in Hi'. cbn [wl nread] in Hi'. rewrite <-drop_drop, E in Hi'. exact Hi'.
Qed.
End AtRest.
End Mirrored.

(** C22. The mirrored ring buffer, where its capacity is a power of two or fewer than [2 ^ bits] elements are
    offered (see [mirrored_index_wraps] for the others), is a queue between two concurrent threads.  Whatever the
    producer (single pushes, bulk pushes, reservations that are filled and committed) and
    the consumer (pops, discards, peeks, bulk pops, reservations) do, and however their
    accesses interleave: they never race on a cell, never leave the storage, and always
    finish; what was taken out is, position by position, what was accepted, peeks saw the
    element at their position, and what remains in the buffer is the rest in order. *)
Theorem mirrored_fifo {T} (bits : Z) (N : nat) (zero : T) pcmds ccmds c :
  0 < bits -> (0 < N)%nat -> 2 * Z.of_nat N < 2 ^ bits ->
  (is_power_of_two N = true \/ Z.of_nat (total pcmds) < 2 ^ bits) ->
  rtc (step handle) (mirrored_new N zero, producer bits N pcmds [], consumer bits N ccmds [] []) c ->
  safe handle footprint c /\ sn (step handle) c
  /\ forall m sent got seen, c = (m, Ret sent, Ret (got, seen)) ->
       (length got <= length sent <= length got + N)%nat
       /\ (forall k v, got !! k = Some (Some v) -> sent !! k = Some v)
       /\ (forall k v, (k, v) ∈ seen -> sent !! k = Some v)
       /\ holds bits N m (drop (length got) sent).
Proof.
  intros Hbits HN Hfit Hroom Hs.
  destruct (fun H => adequacy handle footprint (Inv bits N) (owns_w N) (owns_r N) (ring_owns_exclusive bits N Hbits HN)
              (fun sent gp => wl gp = sent) (fun '(got, seen) gc => consumer_ok got seen gc) _ c H Hs) as [Hsafe Hpost].
  { exists (mk_gp [] 0 ∅), (mk_gc [] 0). cbn [fst snd]. split_and!.
    - by apply ring_Inv_new.
    - by apply (ring_wp_producer bits N Hbits HN Hfit).
    - apply (ring_wp_consumer bits N Hbits HN Hfit). split_and!; [done|done|]. intros k v Hv. by apply not_elem_of_nil in Hv. }
  split_and!; [done|apply step_terminates|]. intros m sent got seen ->.
  destruct (Hpost m sent (got, seen) eq_refl) as (gp & gc & Hi & <- & Hl & Hg & Hseen).
  assert (Hh : holds bits N m (drop (nread gc) (wl gp))) by (by apply Inv_holds). destruct Hi as (_ & _ & _ & Hrs & Hnr & Hp & HW & _).
  apply prefix_length in Hp as Hpl. destruct Hp as [rest Hp]. rewrite <-Hl in Hh. split_and!; [lia|lia|..|done].
  - intros k v Hv. rewrite Hp. by apply lookup_app_l_Some, Hg.
  - intros k v Hv. rewrite Hp. by apply lookup_app_l_Some, Hseen.
Qed.

Lemma mirrored_fifo_witness :
  exists m, rtc (step handle) (mirrored_new 3 0,
      producer 8 3 [P_push 1; P_push_bulk [2; 3; 4]; P_reserve 2 [5]] [], consumer 8 3 [C_pop; C_peek 1; C_pop_bulk 1] [] [])
      (m, Ret [1; 2; 3], Ret ([Some 1; Some 2], [(2%nat, 3)])) /\ holds 8 3 m [3].
Proof.
  eassert (Hs : rtc (step handle) (mirrored_new 3 0,
      producer 8 3 [P_push 1; P_push_bulk [2; 3; 4]; P_reserve 2 [5]] [], consumer 8 3 [C_pop; C_peek 1; C_pop_bulk 1] [] [])
      (_, Ret _, Ret _)).
  { etransitivity; [apply run_left; vm_compute; reflexivity|apply run_right; vm_compute; reflexivity]. }
  destruct (mirrored_fifo 8 3 0 [P_push 1; P_push_bulk [2; 3; 4]; P_reserve 2 [5]] _ _ ltac:(lia) ltac:(lia) ltac:(cbn; lia) ltac:(right; cbn; lia) Hs) as (_ & _ & H).
  destruct (H _ _ _ _ eq_refl) as (_ & _ & _ & Hh). eexists. split; [exact Hs|exact Hh].
Defined.

(** At rest the mirrored ring buffer shows its contents [q] contiguously: [begin] to
    [end] are exactly the elements of [q] in order, however they wrap around; the sizes, the
    reservations, [peek], indexing, [front] and [back] agree with [q]; [push] appends while
    there is room and [pop] takes the first element; a commit of anything but the current
    position is refused, and so is one that is longer than what is free or readable;
    [clear] empties the buffer. *)
Theorem mirrored_contents {T} (bits : Z) (N : nat) (m : mirrored (T := T)) (q : list T) :
  0 < bits -> (0 < N)%nat -> 2 * Z.of_nat N < 2 ^ bits -> holds bits N m q ->
  run handle (size bits) m = Done (Z.of_nat (length q), m)
  /\ run handle (available bits N) m = Done (Z.of_nat (N - length q), m)
  /\ (length q <= N)%nat
  /\ (exists b, run handle (begin N) m = Done (b, m) /\ run handle (end_ bits N) m = Done ((b + length q)%nat, m)
        /\ take (length q) (drop b (storage_ m)) = q
        /\ (forall k, run handle (read_reserve bits N k) m = Done ((b, Nat.min k (length q)), m))
        /\ (forall v, v.1 <> b -> run handle (read_commit bits N v) m = Done (s_invalid_argument, m))
        /\ (forall k, (length q < k)%nat -> run handle (read_commit bits N (b, k)) m = Done (s_empty, m)))
  /\ (exists w, (forall k, run handle (write_reserve bits N k) m = Done ((w, Nat.min k (N - length q)), m))
        /\ (forall v, v.1 <> w -> run handle (write_commit bits N v) m = Done (s_invalid_argument, m))
        /\ (forall k, (N - length q < k)%nat -> run handle (write_commit bits N (w, k)) m = Done (s_full, m)))
  /\ (forall i, run handle (peek bits N i) m = Done (match q !! i with Some v => (s_ok, Some v) | None => (s_out_of_range, None) end, m))
  /\ (forall i v, q !! i = Some v -> run handle (operator_at N i) m = Done (v, m))
  /\ (forall v, head q = Some v -> run handle (front N) m = Done (v, m))
  /\ (forall v, last q = Some v -> run handle (back bits N) m = Done (v, m))
  /\ (forall x, index_room bits N m 1 -> exists m',
        run handle (push bits N x) m = Done (if (length q <? N)%nat then s_ok else s_full, m')
        /\ holds bits N m' (if (length q <? N)%nat then q ++ [x] else q))
  /\ (exists m', run handle (pop bits N) m = Done (match q with [] => (s_empty, None) | v :: _ => (s_ok, Some v) end, m')
        /\ holds bits N m' (tail q))
  /\ (exists m', run handle clear m = Done (tt, m') /\ holds bits N m' []).
Proof.
  intros Hbits HN Hfit (xs & n & Hi & -> & Hn).
  destruct (rest_indices bits N Hbits HN m xs n Hi Hn) as (Hr & Hw & HW & Hf & Hfn).
  assert (Hsize : run handle (size bits) m = Done (Z.of_nat (length xs - n), m)).
  { unfold size. rewrite run_act. cbn. rewrite Hr, Hw. by rewrite (distance bits N Hbits HN Hfit) by lia. }
  destruct (rest_views bits N Hbits HN Hfit m xs n Hi Hn) as (V1 & V2 & V3 & V4 & V5 & V6).
  destruct (rest_elements bits N Hbits HN Hfit m xs n Hi Hn) as (L1 & L2 & L3).
  replace (N - length (drop n xs))%nat with (n + N - length xs)%nat by (rewrite length_drop; lia).
  rewrite length_drop. split; [done|]. split.
  { unfold available. rewrite run_bind, Hsize. cbn [mbind exec_bind run]. do 2 f_equal.
    rewrite wrap_small; [lia|]. unfold in_width. lia. }
  split; [lia|]. split; [|split; [by exists (length xs mod N)%nat|]].
  { exists (n mod N)%nat. split; [|split; [|split; [by apply (rest_contiguous bits N Hbits HN Hfit m xs n Hi Hn)|done]]].
    - unfold begin. rewrite run_act. cbn. by rewrite Hr, physical_fits.
    - unfold end_. rewrite run_bind, (run_readable bits N Hbits HN Hfit m xs n Hi Hn). cbn [mbind exec_bind run].
      by rewrite physical_fits, Nat2Z.id. }
  split; [done|]. split; [done|]. split.
  { intros v Hv. rewrite head_lookup in Hv. unfold front. rewrite run_bind, <-(L2 _ _ Hv). unfold operator_at.
    rewrite run_bind. unfold begin. rewrite run_act. cbn [handle mbind exec_bind run]. by rewrite Nat.add_0_r. }
  split; [done|]. split; [by apply rest_push|]. split; [by apply rest_pop|].
  unfold clear. rewrite run_act. eexists. split; [done|].
  destruct Hi as (Hl & Hw' & Hr' & _ & _ & _ & HW' & Hf' & Hc & Hk). cbn in *. exists xs, (length xs).
  split; [|split; [by rewrite drop_all|done]]. unfold Inv. cbn [storage_ read_index_ write_index_ wl rseen known rl nread].
  split_and!; try done; try lia. intros k v Hv Hlt. apply lookup_lt_Some in Hv. lia.
Qed.

Lemma mirrored_contents_witness :
  let m := mk_mirrored [1; 2; 3; 1; 2; 3] 2 4 in
  run handle (size 8) m = Done (2, m) /\ run handle (peek 8 3 1) m = Done ((s_ok, Some 1), m)
  /\ exists m', run handle (pop 8 3) m = Done ((s_ok, Some 3), m').
Proof.
  cbn zeta. set (m := mk_mirrored [1; 2; 3; 1; 2; 3] 2 4).
  assert (Hh : holds 8 3 m [3; 1]).
  { exists [7; 8; 3; 1], 2%nat. split; [|split; [reflexivity|cbn; lia]].
    unfold Inv. cbn [storage_ read_index_ write_index_ wl rseen known rl nread].
    split_and!; try done; try (cbn; lia).
    - right. cbn. lia.
    - intros k v Hv Hk. do 4 (destruct k as [|k]; [cbn in Hv; try lia; injection Hv as <-; done|]). done. }
  destruct (mirrored_contents 8 3 m [3; 1] ltac:(lia) ltac:(lia) ltac:(cbn; lia) Hh)
    as (H1 & _ & _ & _ & _ & H2 & _ & _ & _ & _ & (m' & H3 & _) & _).
  split; [exact H1|]. split; [exact (H2 1%nat)|]. exists m'. exact H3.
Defined.

(** For a capacity that is not a power of two the positions jump when an index wraps
    around: the element stored next overwrites the one before it. *)
Lemma mirrored_index_wraps :
  let m := mk_mirrored [0; 0; 0; 0; 0; 0] 255 255 in
  exists m', run handle (a ← push 8 3 1; b ← push 8 3 2; x ← pop 8 3; y ← pop 8 3; Ret (a, b, x, y)) m
             = Done ((s_ok, s_ok, (s_ok, Some 2), (s_ok, Some 2)), m').
Proof. eexists. vm_compute. reflexivity. Qed.
