(* ===== verification/Heap.v ===== *)
(** * The fixed-capacity binary heap (castle/container/heap.hpp)

    The storage of [basic_heap<T, N, Compare>] is raw memory in which objects
    are constructed and destroyed, so a slot is an [option T]: [Some v] holds a
    live object.  Reading, assigning or destroying a dead slot, constructing
    over a live one and indexing beyond the storage are all [Undefined]; moving
    from an object leaves its (never read again) value in place. *)

From Stdlib Require Import Permutation Sorted.
From S2P Require Import Prelude Status.

Section Heap.
Context {T : Type} (N : nat) (compare_ : T -> T -> bool).

Record basic_heap : Type := mk_heap {
  size_ : nat;
  storage_ : list (option T)
}.

Definition init : basic_heap := mk_heap 0 (replicate N None).

Definition size (h : basic_heap) : nat := size_ h.
Definition empty (h : basic_heap) : bool := (size_ h =? 0)%nat.
Definition full (h : basic_heap) : bool := (size_ h =? N)%nat.
Definition available (h : basic_heap) : nat := N - size_ h.

(** [*pointer_at(index)] as a value, and as the target of an assignment. *)
Definition pointer_at (h : basic_heap) (index : nat) : exec T :=
  match storage_ h !! index with Some (Some v) => Done v | _ => Undefined end.
Definition assign (h : basic_heap) (index : nat) (v : T) : exec basic_heap :=
  _ ← pointer_at h index; Done (mk_heap (size_ h) (<[index := Some v]> (storage_ h))).

(** [memory::construct_at] and [memory::destroy_at] on a slot. *)
Definition construct_at (h : basic_heap) (index : nat) (v : T) : exec basic_heap :=
  match storage_ h !! index with
  | Some None => Done (mk_heap (size_ h) (<[index := Some v]> (storage_ h)))
  | _ => Undefined
  end.
Definition destroy_at (h : basic_heap) (index : nat) : exec basic_heap :=
  _ ← pointer_at h index; Done (mk_heap (size_ h) (<[index := None]> (storage_ h))).

Definition set_size (h : basic_heap) (n : nat) : basic_heap := mk_heap n (storage_ h).

Definition parent (index : nat) : nat := (index - 1) / 2.
Definition left (index : nat) : nat := index * 2 + 1.

Definition higher_priority (h : basic_heap) (lhs rhs : nat) : exec bool :=
  a ← pointer_at h lhs; b ← pointer_at h rhs; Done (compare_ a b).

Definition swap_values (h : basic_heap) (lhs rhs : nat) : exec basic_heap :=
  temp ← pointer_at h lhs;
  b ← pointer_at h rhs;
  h1 ← assign h lhs b;
  assign h1 rhs temp.

(** The loop of [sift_up]; running out of fuel is [Undefined]. *)
Fixpoint sift_up_loop (fuel : nat) (h : basic_heap) (index : nat) : exec basic_heap :=
  match fuel with
  | 0 => Undefined
  | S fuel' =>
      if (0 <? index)%nat then
        let p := parent index in
        hp ← higher_priority h index p;
        if negb hp then Done h
        else h' ← swap_values h index p; sift_up_loop fuel' h' p
      else Done h
  end.
Definition sift_up (h : basic_heap) (index : nat) : exec basic_heap :=
  sift_up_loop (S index) h index.

(** The loop of [sift_down]. *)
Fixpoint sift_down_loop (fuel : nat) (h : basic_heap) (index : nat) : exec basic_heap :=
  match fuel with
  | 0 => Undefined
  | S fuel' =>
      let child := left index in
      if (size_ h <=? child)%nat then Done h
      else
        let right := child + 1 in
        sel ← (if (right <? size_ h)%nat
               then hp ← higher_priority h right child; Done (if hp : bool then right else child)
               else Done child);
        hp ← higher_priority h sel index;
        if negb hp then Done h
        else h' ← swap_values h sel index; sift_down_loop fuel' h' sel
  end.
Definition sift_down (h : basic_heap) (index : nat) : exec basic_heap :=
  sift_down_loop (S (size_ h)) h index.

(** [push] (both overloads) and [emplace]. *)
Definition push (h : basic_heap) (value : T) : exec (status * basic_heap) :=
  if full h then Done (s_full, h)
  else
    h1 ← construct_at h (size_ h) value;
    let h2 := set_size h1 (size_ h + 1) in
    h3 ← sift_up h2 (size_ h2 - 1);
    Done (s_ok, h3).

Definition pop (h : basic_heap) : exec (status * basic_heap) :=
  if empty h then Done (s_empty, h)
  else
    let last := size_ h - 1 in
    h1 ← (if negb (last =? 0)%nat
          then v ← pointer_at h last; assign h 0 v
          else Done h);
    h2 ← destroy_at h1 last;
    let h3 := set_size h2 (size_ h - 1) in
    if (0 <? size_ h3)%nat then h4 ← sift_down h3 0; Done (s_ok, h4)
    else Done (s_ok, h3).

(** [pop(out)]: the caller's [out] is returned second. *)
Definition pop_out (h : basic_heap) (out : T) : exec (status * T * basic_heap) :=
  if empty h then Done (s_empty, out, h)
  else
    v ← pointer_at h 0;
    r ← pop h;
    Done (fst r, v, snd r).

Definition top (h : basic_heap) : exec T := pointer_at h 0.

Definition remove_at (h : basic_heap) (index : nat) : exec (status * basic_heap) :=
  if (size_ h <=? index)%nat then Done (s_out_of_range, h)
  else
    let last := size_ h - 1 in
    h1 ← (if negb (index =? last)%nat
          then v ← pointer_at h last; assign h index v
          else Done h);
    h2 ← destroy_at h1 last;
    let h3 := set_size h2 (size_ h - 1) in
    if (index <? size_ h3)%nat then
      up ← (if (0 <? index)%nat then higher_priority h3 index (parent index) else Done false);
      h4 ← (if up : bool then sift_up h3 index else sift_down h3 index);
      Done (s_ok, h4)
    else Done (s_ok, h3).

Definition replace_top (h : basic_heap) (value : T) : exec (status * basic_heap) :=
  if empty h then Done (s_empty, h)
  else
    h1 ← assign h 0 value;
    h2 ← sift_down h1 0;
    Done (s_ok, h2).

(** [for (i = size_; i > 0; --i) destroy_at(i - 1)]. *)
Fixpoint clear_loop (i : nat) (h : basic_heap) : exec basic_heap :=
  match i with
  | 0 => Done h
  | S j => h' ← destroy_at h j; clear_loop j h'
  end.
Definition clear (h : basic_heap) : exec basic_heap :=
  h' ← clear_loop (size_ h) h; Done (set_size h' 0).

(** The constructor from an [initializer_list]. *)
Fixpoint init_list_loop (l : list T) (h : basic_heap) : exec basic_heap :=
  match l with
  | [] => Done h
  | v :: l' => if full h then Done h else r ← push h v; init_list_loop l' (snd r)
  end.
Definition init_list (l : list T) : exec basic_heap := init_list_loop l init.

(** ** Representation: the live objects are exactly the first [size_] slots *)

Definition repr (h : basic_heap) (l : list T) : Prop :=
  size_ h = length l /\ length l <= N
  /\ storage_ h = (Some <$> l) ++ replicate (N - length l) None.

(** No element has a strictly higher priority than its parent. *)
Definition pair_ok (l : list T) (k : nat) : Prop :=
  forall a b, l !! k = Some a -> l !! parent k = Some b -> compare_ a b = false.
Definition is_heap (l : list T) : Prop := forall k, 0 < k -> pair_ok l k.

Lemma heap_repr_init : repr init [].
Proof. unfold repr. simpl. rewrite Nat.sub_0_r. split_and!; [done|lia|done]. Qed.

Lemma repr_lookup h l i v : repr h l -> l !! i = Some v -> storage_ h !! i = Some (Some v).
Proof.
  intros (Hs & Hn & ->) Hi. apply lookup_app_l_Some. by rewrite list_lookup_fmap, Hi.
Qed.

Lemma pointer_at_repr h l i v : repr h l -> l !! i = Some v -> pointer_at h i = Done v.
Proof. intros Hr Hi. unfold pointer_at. by rewrite (repr_lookup h l i v Hr Hi). Qed.

Lemma heap_assign_repr h l i v :
  repr h l -> i < length l -> exists h', assign h i v = Done h' /\ repr h' (<[i := v]> l).
Proof.
  intros Hr Hi. destruct (lookup_lt_is_Some_2 l i Hi) as [w Hw].
  unfold assign. rewrite (pointer_at_repr h l i w Hr Hw). exec_simpl.
  eexists. split; [done|]. destruct Hr as (Hs & Hn & Hst). unfold repr. simpl.
  rewrite length_insert. split_and!; [done..|].
  rewrite Hst, insert_app_l, list_fmap_insert by (by rewrite length_fmap). done.
Qed.

Lemma construct_repr h l v :
  repr h l -> length l < N ->
  exists h', construct_at h (size_ h) v = Done h' /\ size_ h' = size_ h
    /\ repr (set_size h' (size_ h + 1)) (l ++ [v]).
Proof.
  intros (Hs & Hn & Hst) Hlt. unfold construct_at. rewrite Hst, Hs.
  replace (N - length l) with (S (N - length l - 1)) by lia. simpl replicate.
  rewrite lookup_app_r, length_fmap, Nat.sub_diag by (rewrite length_fmap; lia).
  simpl. eexists. split_and!; [done|done|]. unfold repr. simpl.
  rewrite length_app. simpl. split_and!; [lia|lia|].
  replace (length l) with (length (Some <$> l) + 0) at 1 by (rewrite length_fmap; lia).
  rewrite insert_app_r, fmap_app, <-app_assoc. simpl. do 3 f_equal. lia.
Qed.

Lemma destroy_last_repr h l v :
  repr h (l ++ [v]) ->
  exists h', destroy_at h (length l) = Done h' /\ repr (set_size h' (length l)) l.
Proof.
  intros Hr. unfold destroy_at.
  rewrite (pointer_at_repr h _ (length l) v Hr) by (by rewrite list_lookup_middle).
  exec_simpl. eexists. split; [done|]. destruct Hr as (Hs & Hn & Hst).
  rewrite length_app in *. simpl in *. unfold repr. simpl. split_and!; [done|lia|].
  rewrite Hst, fmap_app, <-app_assoc. simpl.
  replace (length l) with (length (Some <$> l) + 0) at 1 by (rewrite length_fmap; lia).
  rewrite insert_app_r. simpl. f_equal.
  replace (N - length l) with (S (N - (length l + 1))) by lia. done.
Qed.

Lemma swap_values_repr h l i j :
  repr h l -> i < length l -> j < length l ->
  exists h', swap_values h i j = Done h' /\ repr h' (list_swap l i j).
Proof.
  intros Hr Hi Hj.
  destruct (lookup_lt_is_Some_2 l i Hi) as [a Ha].
  destruct (lookup_lt_is_Some_2 l j Hj) as [b Hb].
  unfold swap_values, list_swap. rewrite Ha, Hb.
  rewrite (pointer_at_repr h l i a Hr Ha), (pointer_at_repr h l j b Hr Hb). exec_simpl.
  destruct (heap_assign_repr h l i b Hr Hi) as (h1 & -> & Hr1). exec_simpl.
  destruct (heap_assign_repr h1 _ j a Hr1) as (h2 & -> & Hr2); [by rewrite length_insert|].
  by exists h2.
Qed.

Lemma higher_priority_repr h l i j a b :
  repr h l -> l !! i = Some a -> l !! j = Some b ->
  higher_priority h i j = Done (compare_ a b).
Proof.
  intros Hr Ha Hb. unfold higher_priority.
  by rewrite (pointer_at_repr h l i a Hr Ha), (pointer_at_repr h l j b Hr Hb).
Qed.

Lemma parent_spec k : 0 < k -> 2 * parent k + 1 <= k <= 2 * parent k + 2.
Proof.
  intros. unfold parent. pose proof (Nat.div_mod_eq (k - 1) 2).
  pose proof (Nat.mod_upper_bound (k - 1) 2 ltac:(lia)). lia.
Qed.

Lemma parent_lt k : 0 < k -> parent k < k.
Proof. intros H. pose proof (parent_spec k H). lia. Qed.

Context `{!StrictWeakOrder compare_}.

(** Everything is in order except possibly [i] against its parent. *)
Definition up_inv (l : list T) (i : nat) : Prop :=
  (forall k, 0 < k -> k <> i -> pair_ok l k)
  /\ (forall k a b, 0 < k -> parent k = i -> 0 < i ->
        l !! k = Some a -> l !! parent i = Some b -> compare_ a b = false).

(** Everything is in order except possibly [i] against its children. *)
Definition down_inv (l : list T) (i : nat) : Prop :=
  (forall k, 0 < k -> parent k <> i -> pair_ok l k)
  /\ (forall k a b, 0 < k -> parent k = i -> 0 < i ->
        l !! k = Some a -> l !! parent i = Some b -> compare_ a b = false).

Lemma up_inv_step l i a b :
  0 < i -> up_inv l i -> l !! i = Some a -> l !! parent i = Some b ->
  compare_ a b = true -> up_inv (list_swap l i (parent i)) (parent i).
Proof.
  intros Hi [H1 H2] Ha Hb Hab. pose proof (swo_asym _ _ Hab) as Hba.
  pose proof (parent_spec i Hi) as Hp. split.
  - intros k Hk Hkp x y. pose proof (parent_spec k Hk).
    rewrite !(list_swap_lookup l i (parent i) a b) by done. intros Hx Hy.
    repeat case_decide; simplify_eq; try done; try lia.
    + eapply swo_negtrans; [exact Hba|]. by apply (H1 k); congruence.
    + by apply (H2 k).
    + by apply (H1 k).
  - intros k x y Hk Hpk Hpos. pose proof (parent_spec k Hk). pose proof (parent_spec _ Hpos).
    rewrite !(list_swap_lookup l i (parent i) a b) by done. intros Hx Hy.
    repeat case_decide; simplify_eq; try lia.
    + by apply (H1 (parent i)); [lia|lia| |].
    + eapply swo_negtrans; [by eapply (H1 (parent i)); [lia|lia|exact Hb|]|].
      by apply (H1 k); congruence.
Qed.

Lemma sift_up_loop_spec fuel h l i :
  repr h l -> i < length l -> i < fuel -> up_inv l i ->
  exists h' l', sift_up_loop fuel h i = Done h' /\ repr h' l' /\ is_heap l'
    /\ Permutation l' l.
Proof.
  revert h l i. induction fuel as [|fuel IH]; intros h l i Hr Hi Hf Hinv; [lia|].
  simpl. destruct (Nat.ltb_spec 0 i) as [Hpos|]; cycle 1.
  { exists h, l. split_and!; try done. intros k Hk. apply Hinv; lia. }
  pose proof (parent_lt i Hpos) as Hp.
  destruct (lookup_lt_is_Some_2 l i Hi) as [a Ha].
  destruct (lookup_lt_is_Some_2 l (parent i) ltac:(lia)) as [b Hb].
  rewrite (higher_priority_repr h l i (parent i) a b) by done. exec_simpl.
  destruct (compare_ a b) eqn:Hab; simpl.
  - destruct (swap_values_repr h l i (parent i) Hr) as (h1 & -> & Hr1); [lia|lia|]. exec_simpl.
    destruct (IH h1 _ (parent i) Hr1) as (h' & l' & -> & Hr' & Hh & Hperm);
      [rewrite length_list_swap; lia|lia|by eapply up_inv_step|].
    exists h', l'. split_and!; try done. by rewrite Hperm, list_swap_Permutation.
  - exists h, l. split_and!; try done. intros k Hk.
    destruct (decide (k = i)) as [->|]; [|by apply Hinv].
    intros x y Hx Hy. by simplify_eq.
Qed.

Lemma down_inv_step l i s a b :
  down_inv l i -> 0 < s -> parent s = i -> l !! s = Some a -> l !! i = Some b ->
  compare_ a b = true ->
  (forall k x, 0 < k -> parent k = i -> l !! k = Some x -> compare_ x a = false) ->
  down_inv (list_swap l s i) s.
Proof.
  intros [H1 H2] Hs Hps Ha Hb Hab Hbest. pose proof (swo_asym _ _ Hab) as Hba.
  pose proof (parent_spec s Hs). split.
  - intros k Hk Hpk x y. pose proof (parent_spec k Hk).
    rewrite !(list_swap_lookup l s i a b) by done. intros Hx Hy.
    repeat case_decide; simplify_eq; try done; try lia.
    + by apply (Hbest k).
    + apply (H2 s); (done || lia).
    + apply (H1 k); (done || lia || congruence).
  - intros k x y Hk Hpk _. pose proof (parent_spec k Hk).
    rewrite !(list_swap_lookup l s i a b) by done. intros Hx Hy.
    repeat case_decide; simplify_eq; try lia.
    apply (H1 k); (done || lia || congruence).
Qed.

Lemma sift_down_loop_spec fuel h l i :
  repr h l -> i < length l -> length l < i + fuel -> down_inv l i ->
  exists h' l', sift_down_loop fuel h i = Done h' /\ repr h' l' /\ is_heap l'
    /\ Permutation l' l.
Proof.
  revert h l i. induction fuel as [|fuel IH]; intros h l i Hr Hi Hf Hinv; [lia|].
  simpl. pose proof (proj1 Hr) as Hsz. rewrite Hsz. unfold left.
  destruct (lookup_lt_is_Some_2 l i Hi) as [b Hb].
  destruct (Nat.leb_spec (length l) (i * 2 + 1)) as [Hle|Hgt].
  { exists h, l. split_and!; try done. intros k Hk x y Hx Hy.
    pose proof (parent_spec k Hk). pose proof (lookup_lt_Some _ _ _ Hx).
    by eapply (proj1 Hinv k); [lia|lia| |]. }
  destruct (lookup_lt_is_Some_2 l (i * 2 + 1) Hgt) as [c Hc].
  (* the selected child beats both children *)
  assert (exists sel a, (if (i * 2 + 1 + 1 <? length l)%nat
      then hp ← higher_priority h (i * 2 + 1 + 1) (i * 2 + 1);
           Done (if hp : bool then i * 2 + 1 + 1 else i * 2 + 1)
      else Done (i * 2 + 1)) = Done sel /\ 0 < sel /\ i < sel /\ parent sel = i
      /\ l !! sel = Some a
      /\ forall k x, 0 < k -> parent k = i -> l !! k = Some x -> compare_ x a = false)
    as (sel & a & -> & Hs0 & His & Hps & Ha & Hbest).
  { assert (Hc1 : parent (i * 2 + 1) = i) by (pose proof (parent_spec (i * 2 + 1)); lia).
    assert (Hc2 : parent (i * 2 + 1 + 1) = i)
      by (pose proof (parent_spec (i * 2 + 1 + 1)); lia).
    pose proof (swo_irrefl compare_) as Hirr.
    destruct (Nat.ltb_spec (i * 2 + 1 + 1) (length l)) as [Hlt|Hge].
    - destruct (lookup_lt_is_Some_2 l _ Hlt) as [d Hd].
      rewrite (higher_priority_repr h l _ _ d c) by done. exec_simpl.
      destruct (compare_ d c) eqn:Hdc.
      + exists (i * 2 + 1 + 1), d. split_and!; try done; try lia.
        intros k x Hk Hpk Hx. pose proof (parent_spec k Hk).
        assert (k = i * 2 + 1 \/ k = i * 2 + 1 + 1) as [-> | ->] by lia; simplify_eq; [|done].
        by apply swo_asym.
      + exists (i * 2 + 1), c. split_and!; try done; try lia.
        intros k x Hk Hpk Hx. pose proof (parent_spec k Hk).
        by assert (k = i * 2 + 1 \/ k = i * 2 + 1 + 1) as [-> | ->] by lia; simplify_eq.
    - exists (i * 2 + 1), c. split_and!; try done; try lia.
      intros k x Hk Hpk Hx. pose proof (parent_spec k Hk). pose proof (lookup_lt_Some _ _ _ Hx).
      assert (k = i * 2 + 1) as -> by lia. by simplify_eq. }
  exec_simpl. pose proof (lookup_lt_Some _ _ _ Ha).
  rewrite (higher_priority_repr h l sel i a b) by done. exec_simpl.
  destruct (compare_ a b) eqn:Hab; simpl.
  - destruct (swap_values_repr h l sel i Hr) as (h1 & -> & Hr1); [lia|lia|]. exec_simpl.
    destruct (IH h1 _ sel Hr1) as (h' & l' & -> & Hr' & Hh & Hperm);
      [rewrite length_list_swap; lia|rewrite length_list_swap; lia|by eapply down_inv_step|].
    exists h', l'. split_and!; try done. by rewrite Hperm, list_swap_Permutation.
  - exists h, l. split_and!; try done. intros k Hk x y Hx Hy.
    destruct (decide (parent k = i)) as [E|]; [|by eapply (proj1 Hinv k)].
    rewrite E in Hy. simplify_eq. eapply swo_negtrans; [exact Hab|by apply (Hbest k)].
Qed.

(** The root of a heap has the highest priority of all. *)
Lemma heap_root_best l v k x :
  is_heap l -> l !! 0 = Some v -> l !! k = Some x -> compare_ x v = false.
Proof.
  intros Hh Hv. revert x. induction (lt_wf k) as [k _ IH]. intros x Hx.
  destruct (decide (k = 0)) as [->|].
  - simplify_eq. by apply (swo_irrefl compare_).
  - pose proof (parent_lt k ltac:(lia)) as Hp. pose proof (lookup_lt_Some _ _ _ Hx).
    destruct (lookup_lt_is_Some_2 l (parent k) ltac:(lia)) as [y Hy].
    eapply swo_negtrans; [by eapply (IH (parent k))|]. by apply (Hh k); [lia| |].
Qed.

Lemma is_heap_snoc l v : is_heap l -> up_inv (l ++ [v]) (length l).
Proof.
  intros Hh. split.
  - intros k Hk Hne a b Ha Hb. pose proof (lookup_lt_Some _ _ _ Ha) as Hl.
    rewrite length_app in Hl. simpl in Hl. pose proof (parent_lt k Hk).
    rewrite lookup_app_l in Ha by lia. rewrite lookup_app_l in Hb by lia. by apply (Hh k).
  - intros k a b Hk Hpk Hpos Ha. pose proof (lookup_lt_Some _ _ _ Ha) as Hl.
    rewrite length_app in Hl. simpl in Hl. pose proof (parent_lt k Hk). lia.
Qed.

Lemma is_heap_prefix l v : is_heap (l ++ [v]) -> is_heap l.
Proof.
  intros Hh k Hk a b Ha Hb. apply (Hh k Hk); by apply lookup_app_l_Some.
Qed.

(** Overwriting one element of a heap leaves the others in order around it. *)
Lemma is_heap_overwrite l i v :
  is_heap l ->
  (forall k, 0 < k -> k <> i -> parent k <> i -> pair_ok (<[i := v]> l) k)
  /\ (forall k a b, 0 < k -> parent k = i -> 0 < i ->
       <[i := v]> l !! k = Some a -> <[i := v]> l !! parent i = Some b -> compare_ a b = false).
Proof.
  intros Hh. split.
  - intros k Hk Hki Hpi a b. rewrite !list_lookup_insert_ne by congruence. by apply Hh.
  - intros k a b Hk Hpk Hpos. pose proof (parent_lt k Hk). pose proof (parent_lt i Hpos).
    rewrite !list_lookup_insert_ne by lia. intros Ha Hb.
    pose proof (lookup_lt_Some _ _ _ Ha).
    destruct (lookup_lt_is_Some_2 l i ltac:(lia)) as [x Hx].
    eapply swo_negtrans; [by apply (Hh i Hpos x b)|]. apply (Hh k Hk); [done|by rewrite Hpk].
Qed.

Lemma sift_down_overwrite h l i v :
  repr h (<[i := v]> l) -> is_heap l -> i < length l ->
  (0 < i -> forall b, l !! parent i = Some b -> compare_ v b = false) ->
  exists h' l', sift_down h i = Done h' /\ repr h' l' /\ is_heap l'
    /\ Permutation l' (<[i := v]> l).
Proof.
  intros Hr Hh Hi Hup. unfold sift_down. rewrite (proj1 Hr).
  destruct (is_heap_overwrite l i v Hh) as [H1 H2].
  apply sift_down_loop_spec; [done|by rewrite length_insert|rewrite length_insert; lia|].
  split; [|done]. intros k Hk Hpk. destruct (decide (k = i)) as [->|]; [|by apply H1].
  pose proof (parent_lt i Hk). intros a b.
  rewrite list_lookup_insert_eq, list_lookup_insert_ne by lia. intros [= <-]. by apply Hup.
Qed.

(** ** The operations *)

Lemma heap_push_lemma h l v :
  repr h l -> is_heap l ->
  if decide (length l < N)
  then exists h' l', push h v = Done (s_ok, h') /\ repr h' l' /\ is_heap l'
         /\ Permutation l' (v :: l)
  else push h v = Done (s_full, h).
Proof.
  intros Hr Hh. pose proof (proj1 Hr) as Hsz. pose proof (proj1 (proj2 Hr)).
  unfold push, full. rewrite Hsz.
  destruct (Nat.eqb_spec (length l) N); case_decide; try lia; [done|].
  rewrite <-Hsz. destruct (construct_repr h l v Hr) as (h1 & -> & Hs1 & Hr1); [lia|].
  exec_simpl. simpl size_. replace (size_ h + 1 - 1) with (length l) by lia.
  destruct (sift_up_loop_spec (S (length l)) _ _ (length l) Hr1) as (h' & l' & Hd & Hr' & Hh' & Hp);
    [rewrite length_app; simpl; lia|lia|by apply is_heap_snoc|].
  unfold sift_up. rewrite Hd. exec_simpl. exists h', l'. split_and!; try done.
  by rewrite Hp, Permutation_app_comm.
Qed.

Lemma heap_pop_lemma h l :
  repr h l -> is_heap l ->
  match l with
  | [] => pop h = Done (s_empty, h)
  | v :: rest => exists h' l', pop h = Done (s_ok, h') /\ repr h' l' /\ is_heap l'
      /\ Permutation l' rest
  end.
Proof.
  intros Hr Hh. pose proof (proj1 Hr) as Hsz. unfold pop, empty. rewrite Hsz.
  destruct l as [|v rest]; [done|]. simpl. rewrite Nat.sub_0_r.
  destruct (exists_last (l := v :: rest)) as (front & w & E); [done|].
  rewrite E in *. assert (Hlen : length rest = length front).
  { apply (f_equal length) in E. rewrite length_app in E. simpl in E. lia. }
  rewrite Hlen. apply is_heap_prefix in Hh as Hhf.
  destruct (Nat.eqb_spec (length front) 0) as [E0|E0]; simpl.
  - destruct front; [|done]. simpl in *. simplify_eq.
    destruct (destroy_last_repr h [] w Hr) as (h2 & Hd & Hr2).
    simpl in Hd. rewrite Hd. exec_simpl. simpl. exists (set_size h2 0), []. split_and!; done.
  - rewrite (pointer_at_repr h _ (length front) w Hr) by (by rewrite list_lookup_middle).
    exec_simpl. destruct (heap_assign_repr h _ 0 w Hr) as (h1 & -> & Hr1).
    { rewrite length_app. lia. }
    exec_simpl. rewrite insert_app_l in Hr1 by lia.
    assert (Hl1 : length (<[0 := w]> front) = length front) by apply length_insert.
    destruct (destroy_last_repr h1 _ w Hr1) as (h2 & Hd & Hr2).
    rewrite Hl1 in Hd, Hr2. rewrite Hd. exec_simpl. simpl size_.
    destruct (Nat.ltb_spec 0 (length front)); [|lia].
    destruct (sift_down_overwrite _ front 0 w Hr2 Hhf) as (h' & l' & -> & Hr' & Hh' & Hp);
      [lia|lia|]. exec_simpl. exists h', l'. split_and!; try done.
    rewrite Hp. destruct front as [|x front]; [done|]. simpl in E |- *. simplify_eq.
    by rewrite Permutation_app_comm.
Qed.

Lemma pop_out_lemma h l out :
  repr h l -> is_heap l ->
  match l with
  | [] => pop_out h out = Done (s_empty, out, h)
  | v :: rest => exists h' l', pop_out h out = Done (s_ok, v, h') /\ repr h' l' /\ is_heap l'
      /\ Permutation l' rest /\ Forall (fun x => compare_ x v = false) l
  end.
Proof.
  intros Hr Hh. pose proof (heap_pop_lemma h l Hr Hh) as Hpop. pose proof (proj1 Hr) as Hsz.
  unfold pop_out, empty. rewrite Hsz. destruct l as [|v rest]; [done|]. simpl.
  rewrite (pointer_at_repr h _ 0 v Hr) by done. exec_simpl.
  destruct Hpop as (h' & l' & -> & Hr' & Hh' & Hp). exec_simpl.
  exists h', l'. split_and!; try done. apply Forall_lookup. intros k x Hx.
  by apply (heap_root_best (v :: rest) v k x).
Qed.

Lemma insert_Permutation_cons (l : list T) i v w :
  l !! i = Some v -> Permutation (v :: <[i := w]> l) (w :: l).
Proof.
  intros Hi. rewrite (insert_take_drop l i w) by (by eapply lookup_lt_Some).
  rewrite <-(take_drop_middle l i v Hi) at 3.
  rewrite <-!Permutation_middle. apply perm_swap.
Qed.

Lemma replace_top_lemma h l w :
  repr h l -> is_heap l ->
  match l with
  | [] => replace_top h w = Done (s_empty, h)
  | v :: rest => exists h' l', replace_top h w = Done (s_ok, h') /\ repr h' l' /\ is_heap l'
      /\ Permutation l' (w :: rest)
  end.
Proof.
  intros Hr Hh. pose proof (proj1 Hr) as Hsz. unfold replace_top, empty. rewrite Hsz.
  destruct l as [|v rest]; [done|]. simpl.
  destruct (heap_assign_repr h _ 0 w Hr) as (h1 & -> & Hr1); [simpl; lia|]. exec_simpl.
  destruct (sift_down_overwrite h1 (v :: rest) 0 w Hr1 Hh) as (h' & l' & -> & Hr' & Hh' & Hp);
    [simpl; lia|lia|]. exec_simpl. exists h', l'. done.
Qed.

Lemma sift_up_overwrite h l i v b :
  repr h (<[i := v]> l) -> is_heap l -> 0 < i < length l ->
  l !! parent i = Some b -> compare_ v b = true ->
  exists h' l', sift_up h i = Done h' /\ repr h' l' /\ is_heap l'
    /\ Permutation l' (<[i := v]> l).
Proof.
  intros Hr Hh [Hpos Hi] Hb Hvb. unfold sift_up.
  destruct (is_heap_overwrite l i v Hh) as [H1 H2].
  apply sift_up_loop_spec; [done|by rewrite length_insert|lia|].
  split; [|done]. intros k Hk Hki. destruct (decide (parent k = i)) as [E|]; [|by apply H1].
  intros x y Hx. rewrite E, list_lookup_insert_eq by lia. intros [= <-].
  pose proof (parent_lt i Hpos).
  eapply swo_negtrans; [by apply swo_asym|]. eapply (H2 k); try done.
  by rewrite list_lookup_insert_ne by lia.
Qed.

Lemma remove_at_lemma h l i :
  repr h l -> is_heap l ->
  match l !! i with
  | None => remove_at h i = Done (s_out_of_range, h)
  | Some v => exists h' l', remove_at h i = Done (s_ok, h') /\ repr h' l' /\ is_heap l'
      /\ Permutation l (v :: l')
  end.
Proof.
  intros Hr Hh. pose proof (proj1 Hr) as Hsz. unfold remove_at. rewrite Hsz.
  destruct (l !! i) as [v|] eqn:Hv; cycle 1.
  { apply lookup_ge_None in Hv. by destruct (Nat.leb_spec (length l) i); [|lia]. }
  pose proof (lookup_lt_Some _ _ _ Hv) as Hi.
  destruct (Nat.leb_spec (length l) i); [lia|].
  destruct (exists_last (l := l)) as (front & w & ->); [by destruct l|].
  rewrite length_app in *. simpl in *. replace (length front + 1 - 1) with (length front) by lia.
  apply is_heap_prefix in Hh as Hhf.
  destruct (Nat.eqb_spec i (length front)) as [->|Hne]; simpl.
  - destruct (destroy_last_repr h front w Hr) as (h2 & -> & Hr2). exec_simpl. simpl.
    destruct (Nat.ltb_spec (length front) (length front)); [lia|].
    rewrite list_lookup_middle in Hv by done. simplify_eq.
    exists (set_size h2 (length front)), front. split_and!; try done.
    by rewrite Permutation_app_comm.
  - rewrite lookup_app_l in Hv by lia.
    rewrite (pointer_at_repr h _ (length front) w Hr) by (by rewrite list_lookup_middle).
    exec_simpl. destruct (heap_assign_repr h _ i w Hr) as (h1 & -> & Hr1).
    { rewrite length_app. lia. }
    exec_simpl. rewrite insert_app_l in Hr1 by lia.
    assert (Hl1 : length (<[i := w]> front) = length front) by apply length_insert.
    destruct (destroy_last_repr h1 _ w Hr1) as (h2 & Hd & Hr2).
    rewrite Hl1 in Hd, Hr2. rewrite Hd. exec_simpl. simpl size_.
    destruct (Nat.ltb_spec i (length front)); [|lia].
    assert (Hfin : forall l', Permutation l' (<[i := w]> front) -> Permutation (front ++ [w]) (v :: l')).
    { intros l' ->. rewrite Permutation_app_comm. simpl. symmetry.
      by apply insert_Permutation_cons. }
    destruct (Nat.ltb_spec 0 i) as [Hpos|].
    + pose proof (parent_lt i Hpos).
      destruct (lookup_lt_is_Some_2 front (parent i) ltac:(lia)) as [b Hb].
      rewrite (higher_priority_repr _ _ i (parent i) w b Hr2);
        [|by rewrite list_lookup_insert_eq by lia|by rewrite list_lookup_insert_ne by lia].
      exec_simpl. destruct (compare_ w b) eqn:Hwb.
      * destruct (sift_up_overwrite _ front i w b Hr2 Hhf) as (h' & l' & -> & Hr' & Hh' & Hp);
          [lia|done|done|]. exec_simpl. exists h', l'. by split_and!; auto.
      * destruct (sift_down_overwrite _ front i w Hr2 Hhf) as (h' & l' & -> & Hr' & Hh' & Hp);
          [lia|by intros; simplify_eq|]. exec_simpl. exists h', l'. by split_and!; auto.
    + exec_simpl.
      destruct (sift_down_overwrite _ front i w Hr2 Hhf) as (h' & l' & -> & Hr' & Hh' & Hp);
        [lia|lia|]. exec_simpl. exists h', l'. by split_and!; auto.
Qed.

(** [clear_loop] never looks at [size_]. *)
Lemma clear_loop_storage i a b :
  storage_ a = storage_ b ->
  match clear_loop i a, clear_loop i b with
  | Done x, Done y => storage_ x = storage_ y
  | Undefined, Undefined => True
  | _, _ => False
  end.
Proof.
  revert a b. induction i as [|i IHi]; intros a b E; simpl; [done|].
  unfold destroy_at, pointer_at. rewrite E.
  destruct (storage_ b !! i) as [[?|]|]; simpl; try done. by apply IHi.
Qed.

Lemma clear_loop_lemma h l :
  repr h l -> exists h', clear_loop (length l) h = Done h' /\ repr (set_size h' 0) [].
Proof.
  revert h. induction l as [|v l IH] using rev_ind; intros h Hr.
  - exists h. split; [done|]. destruct Hr as (Hs & Hn & Hst). split_and!; simpl; [done|lia|done].
  - rewrite length_app. simpl. replace (length l + 1) with (S (length l)) by lia. simpl.
    destruct (destroy_last_repr h l v Hr) as (h1 & -> & Hr1). exec_simpl.
    destruct (IH _ Hr1) as (h' & Hc & Hr').
    pose proof (clear_loop_storage (length l) (set_size h1 (length l)) h1 eq_refl) as Hind.
    rewrite Hc in Hind.
    destruct (clear_loop (length l) h1) as [h''|]; [|done]. exists h''. split; [done|].
    destruct Hr' as (?&?&Hst). split_and!; simpl in *; [done|lia|congruence].
Qed.

Lemma heap_clear_lemma h l : repr h l -> exists h', clear h = Done h' /\ repr h' [].
Proof.
  intros Hr. unfold clear. rewrite (proj1 Hr).
  destruct (clear_loop_lemma h l Hr) as (h' & -> & Hr'). by exists (set_size h' 0).
Qed.

(** ** Whole runs against a priority multiset *)

Inductive heap_op : Type :=
| HPush (v : T)
| HPop (out : T)
| HRemoveAt (i : nat)
| HReplaceTop (v : T)
| HClear.

Definition run_op (h : basic_heap) (op : heap_op) : exec (status * option T * basic_heap) :=
  match op with
  | HPush v => r ← push h v; Done (fst r, None, snd r)
  | HPop out => r ← pop_out h out; let '(s, v, h') := r in Done (s, Some v, h')
  | HRemoveAt i => r ← remove_at h i; Done (fst r, None, snd r)
  | HReplaceTop v => r ← replace_top h v; Done (fst r, None, snd r)
  | HClear => h' ← clear h; Done (s_ok, None, h')
  end.

Fixpoint run_ops (h : basic_heap) (ops : list heap_op)
    : exec (list (status * option T) * basic_heap) :=
  match ops with
  | [] => Done ([], h)
  | op :: ops' => r ← run_op h op; let '(o, h') := r in
      r' ← run_ops h' ops'; Done (o :: fst r', snd r')
  end.

(** [best v m]: nothing in [m] has a strictly higher priority than [v]. *)
Definition best (v : T) (m : list T) : Prop := Forall (fun x => compare_ x v = false) m.

(** The specification on multisets (lists up to permutation): which results
    and which new contents an operation may have. *)
Inductive spec_op : list T -> heap_op -> status * option T -> list T -> Prop :=
| SPush m v m' : length m < N -> Permutation m' (v :: m) ->
    spec_op m (HPush v) (s_ok, None) m'
| SPushFull m v : length m = N -> spec_op m (HPush v) (s_full, None) m
| SPop m out v m' : Permutation m (v :: m') -> best v m ->
    spec_op m (HPop out) (s_ok, Some v) m'
| SPopEmpty out : spec_op [] (HPop out) (s_empty, Some out) []
| SRemove m i v m' : i < length m -> Permutation m (v :: m') ->
    spec_op m (HRemoveAt i) (s_ok, None) m'
| SRemoveRange m i : length m <= i -> spec_op m (HRemoveAt i) (s_out_of_range, None) m
| SReplace m w v rest m' : Permutation m (v :: rest) -> best v m ->
    Permutation m' (w :: rest) -> spec_op m (HReplaceTop w) (s_ok, None) m'
| SReplaceEmpty w : spec_op [] (HReplaceTop w) (s_empty, None) []
| SClear m : spec_op m HClear (s_ok, None) [].

Inductive spec_ops : list T -> list heap_op -> list (status * option T) -> list T -> Prop :=
| SNil m : spec_ops m [] [] m
| SCons m op o m1 ops os m2 : spec_op m op o m1 -> spec_ops m1 ops os m2 ->
    spec_ops m (op :: ops) (o :: os) m2.

Lemma heap_run_op_refines h l op :
  repr h l -> is_heap l ->
  exists o h' l', run_op h op = Done (o, h') /\ repr h' l' /\ is_heap l' /\ spec_op l op o l'.
Proof.
  intros Hr Hh. pose proof (proj1 (proj2 Hr)).
  assert (Hbest : forall v rest, l = v :: rest -> best v l).
  { intros v rest ->. apply Forall_lookup. intros k x Hx. by eapply heap_root_best. }
  destruct op as [v|out|i|w|]; simpl.
  - pose proof (heap_push_lemma h l v Hr Hh) as Hp. case_decide.
    + destruct Hp as (h' & l' & -> & ? & ? & ?). eexists _, h', l'.
      split_and!; [done..|by constructor].
    + rewrite Hp. eexists _, h, l. split_and!; [done..|constructor; lia].
  - pose proof (pop_out_lemma h l out Hr Hh) as Hp. destruct l as [|v rest].
    + rewrite Hp. eexists _, h, []. split_and!; [done..|constructor].
    + destruct Hp as (h' & l' & -> & ? & ? & Hp & Hb). eexists _, h', l'.
      split_and!; [done..|]. constructor; [by rewrite Hp|done].
  - pose proof (remove_at_lemma h l i Hr Hh) as Hp. destruct (l !! i) as [v|] eqn:E.
    + destruct Hp as (h' & l' & -> & ? & ? & ?). eexists _, h', l'.
      split_and!; [done..|]. econstructor; [by eapply lookup_lt_Some|done].
    + rewrite Hp. eexists _, h, l. split_and!; [done..|constructor].
      by apply lookup_ge_None.
  - pose proof (replace_top_lemma h l w Hr Hh) as Hp. destruct l as [|v rest].
    + rewrite Hp. eexists _, h, []. split_and!; [done..|constructor].
    + destruct Hp as (h' & l' & -> & ? & ? & Hp). eexists _, h', l'.
      split_and!; [done..|]. econstructor; [done|by eapply Hbest|done].
  - destruct (heap_clear_lemma h l Hr) as (h' & -> & ?). eexists _, h', [].
    split_and!; [done..| |constructor]. intros k Hk a b Ha. done.
Qed.

Lemma heap_run_ops_refines h l ops :
  repr h l -> is_heap l ->
  exists os h' l', run_ops h ops = Done (os, h') /\ repr h' l' /\ is_heap l'
    /\ spec_ops l ops os l'.
Proof.
  revert h l. induction ops as [|op ops IH]; intros h l Hr Hh.
  { exists [], h, l. split_and!; [done..|constructor]. }
  destruct (heap_run_op_refines h l op Hr Hh) as (o & h1 & l1 & Ho & Hr1 & Hh1 & Hs1).
  destruct (IH h1 l1 Hr1 Hh1) as (os & h2 & l2 & Hos & Hr2 & Hh2 & Hs2).
  simpl. rewrite Ho. exec_simpl. rewrite Hos.
  exists (o :: os), h2, l2. split_and!; [done..|by econstructor].
Qed.

(** Emptying the heap by repeated [pop(out)]. *)
Fixpoint drain (fuel : nat) (h : basic_heap) (out : T) : exec (list T) :=
  match fuel with
  | 0 => Undefined
  | S fuel' =>
      r ← pop_out h out;
      let '(s, v, h') := r in
      if succeeded s then vs ← drain fuel' h' v; Done (v :: vs) else Done []
  end.

Lemma drain_lemma fuel h l out :
  repr h l -> is_heap l -> length l < fuel ->
  exists vs, drain fuel h out = Done vs /\ Permutation vs l
    /\ StronglySorted (fun x y => compare_ y x = false) vs.
Proof.
  revert h l out. induction fuel as [|fuel IH]; intros h l out Hr Hh Hf; [lia|].
  simpl. pose proof (pop_out_lemma h l out Hr Hh) as Hp. destruct l as [|v rest].
  - rewrite Hp. exists []. split_and!; [done|done|constructor].
  - destruct Hp as (h' & l' & -> & Hr' & Hh' & Hp & Hb). exec_simpl. simpl.
    destruct (IH h' l' v Hr' Hh') as (vs & -> & Hvs & Hs).
    { rewrite Hp. simpl in Hf. lia. }
    exec_simpl. exists (v :: vs). split_and!; [done|by rewrite Hvs, Hp|].
    constructor; [done|]. rewrite Hvs, Hp. by inversion Hb.
Qed.

End Heap.

(** C19.  Refinement of the heap: for every strict weak order, any sequence of
    [push]/[emplace], [pop(out)], [remove_at], [replace_top] and [clear] on an
    empty [basic_heap<T, N, Compare>] runs without touching a dead or
    out-of-range slot and with every sift loop finishing, keeps the live
    objects in the first [size_] slots in heap order, and returns statuses,
    popped values and contents allowed by the specification on multisets: a pop
    yields an element no other element strictly precedes. *)
Theorem heap_refines_priority_multiset {T} (N : nat) (lt : T -> T -> bool)
    `{!StrictWeakOrder lt} (ops : list (@heap_op T)) :
  exists os h l, run_ops N lt (init N) ops = Done (os, h)
    /\ repr N h l /\ is_heap lt l /\ spec_ops N lt [] ops os l.
Proof.
  apply (heap_run_ops_refines N lt (init N) [] ops); [apply heap_repr_init|].
  intros k Hk a b Ha. done.
Qed.

Lemma heap_refines_priority_multiset_witness :
  exists os h l,
    run_ops 4 Z.ltb (init 4) [HPush 5; HPush 2; HPush 9; HPush 4; HPush 1; HRemoveAt 0; HPop 0]%Z
      = Done (os, h)
    /\ os = [(s_ok, None); (s_ok, None); (s_ok, None); (s_ok, None); (s_full, None);
             (s_ok, None); (s_ok, Some 4)]%Z
    /\ is_heap Z.ltb l.
Proof.
  destruct (heap_refines_priority_multiset 4 Z.ltb
    [HPush 5; HPush 2; HPush 9; HPush 4; HPush 1; HRemoveAt 0; HPop 0]%Z)
    as (os & h & l & Hr & _ & Hh & _).
  exists os, h, l. split; [exact Hr|]. split; [|exact Hh].
  vm_compute in Hr. injection Hr as <- _. reflexivity.
Defined.

(**  Heap sort: pushing the elements of a list that fits and popping until
    [status::empty] yields a permutation of the list in priority order, no
    later element strictly preceding an earlier one, and the loop ends within
    [size + 1] pops. *)
Theorem heap_drain_sorts {T} (N : nat) (lt : T -> T -> bool) `{!StrictWeakOrder lt}
    (l : list T) (out : T) :
  length l <= N ->
  exists h vs, init_list N lt l = Done h
    /\ drain lt (S (length l)) h out = Done vs
    /\ Permutation vs l /\ StronglySorted (fun x y => lt y x = false) vs.
Proof.
  intros Hlen.
  assert (Hload : forall todo h m, repr N h m -> is_heap lt m -> length m + length todo <= N ->
    exists h' m', init_list_loop N lt todo h = Done h' /\ repr N h' m' /\ is_heap lt m'
      /\ Permutation m' (todo ++ m)).
  { induction todo as [|v todo IH]; intros h m Hr Hh Hle; [by exists h, m|].
    simpl in *. unfold full. rewrite (proj1 Hr).
    destruct (Nat.eqb_spec (length m) N); [lia|].
    pose proof (heap_push_lemma N lt h m v Hr Hh) as Hp. rewrite decide_True in Hp by lia.
    destruct Hp as (h1 & m1 & -> & Hr1 & Hh1 & Hp1). exec_simpl. simpl snd.
    destruct (IH h1 m1 Hr1 Hh1) as (h' & m' & -> & Hr' & Hh' & Hp').
    { rewrite Hp1. simpl. lia. }
    exists h', m'. split_and!; try done. by rewrite Hp', Hp1, Permutation_middle. }
  destruct (Hload l (init N) []) as (h & m & Hl & Hr & Hh & Hp);
    [apply heap_repr_init|by intros k Hk a b Ha|simpl; lia|].
  rewrite app_nil_r in Hp.
  destruct (drain_lemma N lt (S (length l)) h m out Hr Hh) as (vs & Hd & Hvs & Hs).
  { rewrite Hp. lia. }
  exists h, vs. split_and!; try done. by rewrite Hvs.
Qed.

Lemma heap_drain_sorts_witness :
  length [3; 1; 2; 1]%Z <= 4 /\
  exists h vs, init_list 4 Z.ltb [3; 1; 2; 1]%Z = Done h
    /\ drain Z.ltb 5 h 0%Z = Done vs /\ vs = [1; 1; 2; 3]%Z.
Proof.
  split; [simpl; lia|].
  destruct (heap_drain_sorts 4 Z.ltb [3; 1; 2; 1]%Z 0%Z) as (h & vs & Hi & Hd & _);
    [simpl; lia|].
  exists h, vs. split; [exact Hi|]. split; [exact Hd|].
  vm_compute in Hi. injection Hi as <-. vm_compute in Hd. by injection Hd as <-.
Defined.
