(* ===== verification/Algorithm.v ===== *)
(** * The generic algorithms (castle/algorithm/algorithm.hpp)

    All iterators of a call are indices into one memory [m], so that source and
    destination ranges may overlap; dereferencing an index outside [m] is
    [Undefined].  Functors are pure functions, a generator carries its state.
    [sort] and the binary searches are in AlgorithmSort. *)

From S2P Require Import Prelude.

Section Algorithm.
Context {T : Type}.
Implicit Type m : list T.

(** A moved-from object is left in some state [moved v]; an object move-assigned
    to itself in some state [self_moved v]. *)
Context (moved self_moved : T -> T).

(** The assignment of the moved object at [src] to the object at [dst]. *)
Definition move_assign m (dst src : nat) : exec (list T) :=
  v ← load m src;
  if (dst =? src)%nat then store m src (self_moved v)
  else m ← store m dst v; store m src (moved v).

(** ** Queries *)

Definition fuel m : nat := S (length m).

Definition find_if m (first last : nat) (predicate : T -> bool) : exec nat :=
  after (iter_loop (fuel m) last (fun first (_ : unit) =>
           v ← load m first; if predicate v then Done (Return first) else Done (Next tt)) first tt)
    (fun _ => Done last).
Definition find_if_not m (first last : nat) (predicate : T -> bool) : exec nat :=
  after (iter_loop (fuel m) last (fun first (_ : unit) =>
           v ← load m first; if negb (predicate v) then Done (Return first) else Done (Next tt)) first tt)
    (fun _ => Done last).
Definition find {U} (eqb : T -> U -> bool) m (first last : nat) (value : U) : exec nat :=
  after (iter_loop (fuel m) last (fun first (_ : unit) =>
           v ← load m first; if eqb v value then Done (Return first) else Done (Next tt)) first tt)
    (fun _ => Done last).

Definition count_if m (first last : nat) (predicate : T -> bool) : exec nat :=
  after (iter_loop (fuel m) last (fun first result =>
           v ← load m first; Done (Next (if predicate v then result + 1 else result))) first 0)
    Done.
Definition count {U} (eqb : T -> U -> bool) m (first last : nat) (value : U) : exec nat :=
  after (iter_loop (fuel m) last (fun first result =>
           v ← load m first; Done (Next (if eqb v value then result + 1 else result))) first 0)
    Done.

Definition all_of m (first last : nat) (predicate : T -> bool) : exec bool :=
  after (iter_loop (fuel m) last (fun first (_ : unit) =>
           v ← load m first; if negb (predicate v) then Done (Return false) else Done (Next tt)) first tt)
    (fun _ => Done true).
Definition any_of m (first last : nat) (predicate : T -> bool) : exec bool :=
  after (iter_loop (fuel m) last (fun first (_ : unit) =>
           v ← load m first; if predicate v then Done (Return true) else Done (Next tt)) first tt)
    (fun _ => Done false).
Definition none_of m (first last : nat) (predicate : T -> bool) : exec bool :=
  r ← any_of m first last predicate; Done (negb r).

(** The overloads without a predicate use [==]: [predicate] is then the equality
    of [T].  The second range starts at [first2]; [equal_bounded] and
    [mismatch_bounded] are the overloads that also take [last2]. *)
Definition equal m (first1 last1 first2 : nat) (predicate : T -> T -> bool) : exec bool :=
  after (iter_loop (fuel m) last1 (fun first1 first2 =>
           a ← load m first1; b ← load m first2;
           if negb (predicate a b) then Done (Return false) else Done (Next (first2 + 1))) first1 first2)
    (fun _ => Done true).

Definition equal_bounded m (first1 last1 first2 last2 : nat) (predicate : T -> T -> bool) : exec bool :=
  after (while_loop (fuel m)
           (fun '(first1, first2) => Done (negb (first1 =? last1)%nat && negb (first2 =? last2)%nat))
           (fun '(first1, first2) =>
              a ← load m first1; b ← load m first2;
              if negb (predicate a b) then Done (Return false)
              else Done (Next (first1 + 1, first2 + 1)))
           (first1, first2))
    (fun '(first1, first2) => Done ((first1 =? last1)%nat && (first2 =? last2)%nat)).

Definition mismatch m (first1 last1 first2 : nat) (predicate : T -> T -> bool) : exec (nat * nat) :=
  after (while_loop (fuel m)
           (fun '(first1, first2) =>
              if negb (first1 =? last1)%nat
              then a ← load m first1; b ← load m first2; Done (predicate a b)
              else Done false)
           (fun '(first1, first2) => Done (Next (first1 + 1, first2 + 1)))
           (first1, first2)) Done.

Definition mismatch_bounded m (first1 last1 first2 last2 : nat) (predicate : T -> T -> bool)
    : exec (nat * nat) :=
  after (while_loop (fuel m)
           (fun '(first1, first2) =>
              if negb (first1 =? last1)%nat && negb (first2 =? last2)%nat
              then a ← load m first1; b ← load m first2; Done (predicate a b)
              else Done false)
           (fun '(first1, first2) => Done (Next (first1 + 1, first2 + 1)))
           (first1, first2)) Done.

(** ** Copying and filling *)

Definition copy m (first last destination : nat) : exec (nat * list T) :=
  after (iter_loop (fuel m) last (fun first '(destination, m) =>
           v ← load m first; m ← store m destination v; Done (Next (destination + 1, m)))
           first (destination, m)) Done.

(** A loop that counts [count_value] down to zero. *)
Definition copy_n m (first count_value destination : nat) : exec (nat * list T) :=
  r ← for_to 0 count_value (fun _ '(first, destination, m) =>
        v ← load m first; m ← store m destination v; Done (first + 1, destination + 1, m))
        (first, destination, m);
  let '(_, destination, m) := r in Done (destination, m).

Definition copy_if m (first last destination : nat) (predicate : T -> bool) : exec (nat * list T) :=
  after (iter_loop (fuel m) last (fun first '(destination, m) =>
           v ← load m first;
           if predicate v then m ← store m destination v; Done (Next (destination + 1, m))
           else Done (Next (destination, m)))
           first (destination, m)) Done.

Definition move m (first last destination : nat) : exec (nat * list T) :=
  after (iter_loop (fuel m) last (fun first '(destination, m) =>
           m ← move_assign m destination first; Done (Next (destination + 1, m)))
           first (destination, m)) Done.

Definition fill m (first last : nat) (value : T) : exec (list T) :=
  after (iter_loop (fuel m) last (fun first m => m ← store m first value; Done (Next m)) first m) Done.

Definition fill_n m (first count_value : nat) (value : T) : exec (nat * list T) :=
  for_to 0 count_value (fun _ '(first, m) => m ← store m first value; Done (first + 1, m)) (first, m).

Definition transform m (first last destination : nat) (operation : T -> T) : exec (nat * list T) :=
  after (iter_loop (fuel m) last (fun first '(destination, m) =>
           v ← load m first; m ← store m destination (operation v); Done (Next (destination + 1, m)))
           first (destination, m)) Done.

Definition transform2 m (first1 last1 first2 destination : nat) (operation : T -> T -> T)
    : exec (nat * list T) :=
  after (iter_loop (fuel m) last1 (fun first1 '(first2, destination, m) =>
           a ← load m first1; b ← load m first2; m ← store m destination (operation a b);
           Done (Next (first2 + 1, destination + 1, m)))
           first1 (first2, destination, m))
    (fun '(_, destination, m) => Done (destination, m)).

Definition generate {G} m (first last : nat) (generator : G -> T * G) (g : G) : exec (list T) :=
  after (iter_loop (fuel m) last (fun first '(g, m) =>
           let '(v, g) := generator g in m ← store m first v; Done (Next (g, m))) first (g, m))
    (fun '(_, m) => Done m).

Definition replace_if m (first last : nat) (predicate : T -> bool) (new_value : T) : exec (list T) :=
  after (iter_loop (fuel m) last (fun first m =>
           v ← load m first;
           if predicate v then m ← store m first new_value; Done (Next m) else Done (Next m)) first m)
    Done.
Definition replace (eqb : T -> T -> bool) m (first last : nat) (old_value new_value : T) : exec (list T) :=
  after (iter_loop (fuel m) last (fun first m =>
           v ← load m first;
           if eqb v old_value then m ← store m first new_value; Done (Next m) else Done (Next m)) first m)
    Done.

(** ** Compaction *)

(** The loop of [remove_if] that moves the elements to keep down to [result]. *)
Definition remove_loop m (first last result : nat) (predicate : T -> bool) : exec (nat * list T) :=
  after (iter_loop (fuel m) last (fun first '(result, m) =>
           v ← load m first;
           if negb (predicate v) then m ← move_assign m result first; Done (Next (result + 1, m))
           else Done (Next (result, m))) first (result, m)) Done.
Definition remove_if m (first last : nat) (predicate : T -> bool) : exec (nat * list T) :=
  first ← find_if m first last predicate;
  if (first =? last)%nat then Done (last, m)
  else
    let result := first in
    let first := first + 1 in
    remove_loop m first last result predicate.
Definition remove (eqb : T -> T -> bool) m (first last : nat) (value : T) : exec (nat * list T) :=
  first ← find eqb m first last value;
  if (first =? last)%nat then Done (last, m)
  else
    let result := first in
    let first := first + 1 in
    remove_loop m first last result (fun v => eqb v value).

(** Without a predicate [unique] uses [==]. *)
Definition unique m (first last : nat) (predicate : T -> T -> bool) : exec (nat * list T) :=
  if (first =? last)%nat then Done (last, m)
  else
    let result := first in
    let first := first + 1 in
    after (iter_loop (fuel m) last (fun first '(result, m) =>
             r ← load m result; v ← load m first;
             if negb (predicate r v) then
               let result := result + 1 in
               m ← move_assign m result first; Done (Next (result, m))
             else Done (Next (result, m))) first (result, m))
      (fun '(result, m) => Done (result + 1, m)).

(** ** Extremes *)

Context (compare : T -> T -> bool).

Definition min (lhs rhs : T) : T := if compare rhs lhs then rhs else lhs.
Definition max (lhs rhs : T) : T := if compare lhs rhs then rhs else lhs.
(** The overloads that use [<], which [compare] stands for. *)
Definition min_less (lhs rhs : T) : T := if compare lhs rhs then lhs else rhs.
Definition max_less (lhs rhs : T) : T := if compare lhs rhs then rhs else lhs.
Definition min3 (a b c : T) : T := min_less (min_less a b) c.
Definition max3 (a b c : T) : T := max_less (max_less a b) c.

Definition min_element m (first last : nat) : exec nat :=
  if (first =? last)%nat then Done last
  else
    after (iter_loop (fuel m) last (fun first result =>
             a ← load m first; b ← load m result;
             Done (Next (if compare a b then first else result))) (first + 1) first) Done.
Definition max_element m (first last : nat) : exec nat :=
  if (first =? last)%nat then Done last
  else
    after (iter_loop (fuel m) last (fun first result =>
             b ← load m result; a ← load m first;
             Done (Next (if compare b a then first else result))) (first + 1) first) Done.
End Algorithm.

(** ** Ranges

    [holds m first l]: the range of [m] that starts at [first] spells [l]. *)
Definition holds {T} (m : list T) (first : nat) (l : list T) : Prop :=
  forall i v, l !! i = Some v -> m !! (first + i) = Some v.

Section Ranges.
Context {T : Type}.
Implicit Types (m l : list T) (p : T -> bool).

Lemma holds_cons m first v l :
  holds m first (v :: l) <-> m !! first = Some v /\ holds m (S first) l.
Proof.
  split.
  - intros H. split; [specialize (H 0 v eq_refl); by rewrite Nat.add_0_r in H|].
    intros i w Hi. specialize (H (S i) w Hi). by rewrite Nat.add_succ_r in H.
  - intros [H0 H] [|i] w Hi; simplify_eq/=; [by rewrite Nat.add_0_r|].
    rewrite Nat.add_succ_r. by apply H.
Qed.

Lemma holds_lookup m first l i v : holds m first l -> l !! i = Some v -> m !! (first + i) = Some v.
Proof. intros H. apply H. Qed.

Lemma holds_bound m first l : holds m first l -> l <> [] -> first + length l <= length m.
Proof.
  intros H Hl. destruct (lookup_lt_is_Some_2 l (length l - 1)) as [v Hv].
  { destruct l; [done|simpl; lia]. }
  apply H, lookup_lt_Some in Hv. destruct l; [done|simpl in *; lia].
Qed.

Lemma holds_fuel m first l : holds m first l -> length l < fuel m.
Proof.
  intros Hl. unfold fuel. destruct (decide (l = [])) as [->|Hne]; [simpl; lia|].
  pose proof (holds_bound m first l Hl Hne). lia.
Qed.

Lemma holds_insert m first l d v :
  holds m first l -> d < first \/ first + length l <= d -> holds (<[d := v]> m) first l.
Proof.
  intros H Hd i w Hi. rewrite list_lookup_insert_ne; [by apply H|].
  apply lookup_lt_Some in Hi. lia.
Qed.

Lemma holds_mid (pre l post : list T) : holds (pre ++ l ++ post) (length pre) l.
Proof.
  intros i v Hi. rewrite lookup_app_r, Nat.add_sub' by lia. by apply lookup_app_l_Some.
Qed.

(** What a loop over a range computes when its body only reads. *)
Fixpoint run_list {R S} (g : nat -> T -> S -> ctl R S) (i : nat) (l : list T) (s : S) : ctl R S :=
  match l with
  | [] => Next s
  | v :: l => match g i v s with Next s' => run_list g (Datatypes.S i) l s' | r => r end
  end.

Lemma for_range_list {R S} m first l (body : nat -> S -> exec (ctl R S)) g s :
  holds m first l ->
  (forall i v s, m !! i = Some v -> body i s = Done (g i v s)) ->
  for_range first (length l) body s = Done (run_list g first l s).
Proof.
  intros Hl Hb. revert first s Hl. induction l as [|v l IH]; intros first s Hl; [done|].
  apply holds_cons in Hl as [Hv Hl]. cbn [length for_range run_list]. rewrite (Hb _ _ _ Hv).
  destruct (g first v s); [done|]. by apply IH.
Qed.

Lemma iter_loop_list {R S} m first l last (body : nat -> S -> exec (ctl R S)) g s :
  holds m first l -> last = first + length l ->
  (forall i v s, m !! i = Some v -> body i s = Done (g i v s)) ->
  iter_loop (fuel m) last body first s = Done (run_list g first l s).
Proof.
  intros Hl -> Hb. rewrite iter_loop_for_range; [|lia|].
  - rewrite Nat.add_sub'. by apply (for_range_list m).
  - rewrite Nat.add_sub'. by eapply holds_fuel.
Qed.

(** The same for loops that write: the range is a plain counted loop. *)
Lemma iter_loop_range {R S} m first l last (body : nat -> S -> exec (ctl R S)) s :
  holds m first l -> last = first + length l ->
  iter_loop (fuel m) last body first s = for_range first (length l) body s.
Proof.
  intros Hl ->. rewrite iter_loop_for_range; [by rewrite Nat.add_sub'|lia|].
  rewrite Nat.add_sub'. by eapply holds_fuel.
Qed.

(** Bodies that load one element and decide on it. *)
Ltac one_load := intros ? ? ? Hv; rewrite (load_Done _ _ _ Hv); exec_simpl.

(** ** Queries *)

(** The position of the first element that satisfies [p], the length if none does. *)
Definition index_where p l : nat :=
  match list_find (fun v => p v = true) l with Some (i, _) => i | None => length l end.

Lemma index_where_cons p v l :
  index_where p (v :: l) = if p v then 0 else S (index_where p l).
Proof.
  unfold index_where. cbn [list_find]. destruct (p v); [done|].
  rewrite decide_False by done. by destruct (list_find _ l) as [[i w]|].
Qed.

Lemma run_find p first l :
  match run_list (fun i v (_ : unit) => if p v then Return i else Next tt) first l tt with
  | Return i => i | Next _ => first + length l end = first + index_where p l.
Proof.
  revert first. induction l as [|v l IH]; intros first; [done|].
  cbn [run_list length]. rewrite index_where_cons. destruct (p v); [lia|].
  rewrite <-Nat.add_succ_comm, IH. lia.
Qed.

Lemma find_loop_spec m first l last p (body : nat -> unit -> exec (ctl nat unit)) :
  holds m first l -> last = first + length l ->
  (forall i v s, m !! i = Some v -> body i s = Done (if p v then Return i else Next tt)) ->
  after (iter_loop (fuel m) last body first tt) (fun _ => Done last) = Done (first + index_where p l).
Proof.
  intros Hl -> Hb. rewrite (iter_loop_list m first l _ _ (fun i v _ => if p v then Return i else Next tt))
    by done.
  rewrite <-run_find. cbn [after]. by destruct (run_list _ _ _ _).
Qed.

Lemma find_if_spec m first l last p :
  holds m first l -> last = first + length l ->
  find_if m first last p = Done (first + index_where p l).
Proof. intros Hl E. apply find_loop_spec; [done..|]. one_load. by destruct (p _). Qed.

Lemma find_if_not_spec m first l last p :
  holds m first l -> last = first + length l ->
  find_if_not m first last p = Done (first + index_where (fun v => negb (p v)) l).
Proof. intros Hl E. apply find_loop_spec; [done..|]. one_load. by destruct (p _). Qed.

Lemma find_spec {U} (eqb : T -> U -> bool) m first l last x :
  holds m first l -> last = first + length l ->
  find eqb m first last x = Done (first + index_where (fun v => eqb v x) l).
Proof. intros Hl E. apply find_loop_spec; [done..|]. one_load. by destruct (eqb _ _). Qed.

Lemma count_loop_spec m first l last p (body : nat -> nat -> exec (ctl nat nat)) :
  holds m first l -> last = first + length l ->
  (forall i v n, m !! i = Some v -> body i n = Done (Next (if p v then n + 1 else n))) ->
  after (iter_loop (fuel m) last body first 0) Done = Done (length (List.filter p l)).
Proof.
  intros Hl -> Hb.
  rewrite (iter_loop_list m first l _ _ (fun _ v n => Next (if p v then n + 1 else n))) by done.
  assert (H : forall first n, run_list (R := nat) (fun _ v n => Next (if p v then n + 1 else n)) first l n
                              = Next (n + length (List.filter p l))).
  { clear. induction l as [|v l IH]; intros first n; cbn [run_list List.filter]; [by rewrite Nat.add_0_r|].
    rewrite IH. destruct (p v); cbn [length]; f_equal; lia. }
  by rewrite H.
Qed.

Lemma count_if_spec m first l last p :
  holds m first l -> last = first + length l ->
  count_if m first last p = Done (length (List.filter p l)).
Proof. intros Hl E. apply count_loop_spec; [done..|]. by one_load. Qed.

Lemma count_spec {U} (eqb : T -> U -> bool) m first l last x :
  holds m first l -> last = first + length l ->
  count eqb m first last x = Done (length (List.filter (fun v => eqb v x) l)).
Proof. intros Hl E. apply count_loop_spec; [done..|]. by one_load. Qed.

Lemma any_of_spec m first l last p :
  holds m first l -> last = first + length l -> any_of m first last p = Done (existsb p l).
Proof.
  intros Hl E. unfold any_of.
  rewrite (iter_loop_list m first l _ _ (fun _ v _ => if p v then Return true else Next tt));
    [|done|done|one_load; by destruct (p _)].
  clear. revert first. induction l as [|v l IH]; intros first; cbn [run_list existsb]; [done|].
  by destruct (p v).
Qed.

Lemma all_of_spec m first l last p :
  holds m first l -> last = first + length l -> all_of m first last p = Done (forallb p l).
Proof.
  intros Hl E. unfold all_of.
  rewrite (iter_loop_list m first l _ _ (fun _ v _ => if p v then Next tt else Return false));
    [|done|done|one_load; by destruct (p _)].
  clear. revert first. induction l as [|v l IH]; intros first; cbn [run_list forallb]; [done|].
  by destruct (p v).
Qed.

Lemma none_of_spec m first l last p :
  holds m first l -> last = first + length l -> none_of m first last p = Done (negb (existsb p l)).
Proof. intros Hl E. unfold none_of. by rewrite (any_of_spec m first l). Qed.

(** The number of leading positions at which two ranges agree. *)
Fixpoint common_prefix (q : T -> T -> bool) (l1 l2 : list T) : nat :=
  match l1, l2 with
  | a :: l1, b :: l2 => if q a b then S (common_prefix q l1 l2) else 0
  | _, _ => 0
  end.

Lemma common_prefix_eq (q : T -> T -> bool) l1 l2 :
  (forall a b, q a b = true <-> a = b) ->
  (common_prefix q l1 l2 = length l1 /\ common_prefix q l1 l2 = length l2) <-> l1 = l2.
Proof.
  intros Hq. revert l2. induction l1 as [|a l1 IH]; intros [|b l2]; cbn [common_prefix length].
  - done.
  - split; [intros [_ ?]; lia|done].
  - split; [intros [? _]; lia|done].
  - specialize (IH l2). specialize (Hq a b). destruct (q a b).
    + destruct Hq as [-> _]; [|done]. split; [intros [? ?]; f_equal; apply IH; lia|].
      intros [= H]. apply IH in H. lia.
    + split; [intros [? ?]; lia|]. intros [= -> _]. exfalso. by assert (false = true) by (by apply Hq).
Qed.

Lemma mismatch_bounded_spec m first1 first2 l1 l2 (q : T -> T -> bool) :
  holds m first1 l1 -> holds m first2 l2 ->
  mismatch_bounded m first1 (first1 + length l1) first2 (first2 + length l2) q
  = Done (first1 + common_prefix q l1 l2, first2 + common_prefix q l1 l2).
Proof.
  intros H1 H2. unfold mismatch_bounded.
  pose proof (holds_fuel m first1 l1 H1) as Hf.
  revert first1 first2 l1 l2 H1 H2 Hf. generalize (fuel m) as n.
  induction n as [|n IH]; intros first1 first2 l1 l2 H1 H2 Hf; [lia|]. cbn [while_loop].
  destruct l1 as [|a l1]; [cbn [length]; nat_tests; cbn; by rewrite !Nat.add_0_r|].
  destruct l2 as [|b l2]; [cbn [length]; nat_tests; cbn; by rewrite !Nat.add_0_r|].
  cbn [length] in *. apply holds_cons in H1 as [Ha H1], H2 as [Hb H2]. nat_tests. cbn [negb andb].
  rewrite (load_Done _ _ _ Ha), (load_Done _ _ _ Hb). exec_simpl. cbn [common_prefix].
  destruct (q a b); [|cbn; by rewrite !Nat.add_0_r].
  rewrite !Nat.add_1_r, <-!Nat.add_succ_comm. apply IH; [done..|lia].
Qed.

Lemma mismatch_spec m first1 first2 l1 l2 (q : T -> T -> bool) :
  holds m first1 l1 -> holds m first2 l2 -> length l1 <= length l2 ->
  mismatch m first1 (first1 + length l1) first2 q
  = Done (first1 + common_prefix q l1 l2, first2 + common_prefix q l1 l2).
Proof.
  intros H1 H2 Hlen. unfold mismatch.
  pose proof (holds_fuel m first1 l1 H1) as Hf.
  revert first1 first2 l1 l2 H1 H2 Hlen Hf. generalize (fuel m) as n.
  induction n as [|n IH]; intros first1 first2 l1 l2 H1 H2 Hlen Hf; [lia|]. cbn [while_loop].
  destruct l1 as [|a l1]; [cbn [length]; nat_tests; cbn; by rewrite !Nat.add_0_r|].
  destruct l2 as [|b l2]; [cbn [length] in *; lia|].
  cbn [length] in *. apply holds_cons in H1 as [Ha H1], H2 as [Hb H2]. nat_tests. cbn [negb].
  rewrite (load_Done _ _ _ Ha), (load_Done _ _ _ Hb). exec_simpl. cbn [common_prefix].
  destruct (q a b); [|cbn; by rewrite !Nat.add_0_r].
  rewrite !Nat.add_1_r, <-!Nat.add_succ_comm. apply IH; [done..|lia|lia].
Qed.

Lemma equal_bounded_spec m first1 first2 l1 l2 (q : T -> T -> bool) :
  holds m first1 l1 -> holds m first2 l2 ->
  equal_bounded m first1 (first1 + length l1) first2 (first2 + length l2) q
  = Done ((common_prefix q l1 l2 =? length l1) && (common_prefix q l1 l2 =? length l2)).
Proof.
  intros H1 H2. unfold equal_bounded.
  pose proof (holds_fuel m first1 l1 H1) as Hf.
  revert first1 first2 l1 l2 H1 H2 Hf. generalize (fuel m) as n.
  induction n as [|n IH]; intros first1 first2 l1 l2 H1 H2 Hf; [lia|]. cbn [while_loop].
  destruct l1 as [|a l1].
  { cbn [length common_prefix]. rewrite Nat.add_0_r, Nat.eqb_refl. cbn. destruct l2; cbn [length]; by nat_tests. }
  destruct l2 as [|b l2].
  { cbn [length common_prefix]. rewrite Nat.add_0_r, Nat.eqb_refl, andb_false_r. cbn [after]. by nat_tests. }
  cbn [length] in *. apply holds_cons in H1 as [Ha H1], H2 as [Hb H2]. nat_tests. cbn [negb andb].
  rewrite (load_Done _ _ _ Ha), (load_Done _ _ _ Hb). exec_simpl. cbn [common_prefix].
  destruct (q a b); [|cbn; by nat_tests]. cbn [negb].
  rewrite !Nat.add_1_r, <-!Nat.add_succ_comm. rewrite IH; [done..|lia].
Qed.

Lemma equal_spec m first1 first2 l1 l2 (q : T -> T -> bool) :
  holds m first1 l1 -> holds m first2 l2 -> length l1 <= length l2 ->
  equal m first1 (first1 + length l1) first2 q = Done (common_prefix q l1 l2 =? length l1).
Proof.
  intros H1 H2 Hlen. unfold equal. rewrite (iter_loop_range m first1 l1) by done.
  revert first1 first2 l2 H1 H2 Hlen. induction l1 as [|a l1 IH]; intros first1 first2 l2 H1 H2 Hlen; [done|].
  destruct l2 as [|b l2]; [cbn [length] in *; lia|]. cbn [length for_range common_prefix] in *.
  apply holds_cons in H1 as [Ha H1], H2 as [Hb H2].
  rewrite (load_Done _ _ _ Ha), (load_Done _ _ _ Hb). exec_simpl.
  destruct (q a b); cbn [negb]; [|done]. rewrite Nat.add_1_r, (IH _ _ l2); [done|done|done|lia].
Qed.

(** ** Copying and filling *)

Lemma wrote_cons m d v (bs : list T) :
  d < length m -> wrote (<[d := v]> m) (S d) bs = wrote m d (v :: bs).
Proof.
  intros Hd. unfold wrote. rewrite drop_insert_lt by lia.
  rewrite (take_S_r _ d v) by (by rewrite list_lookup_insert_eq).
  rewrite take_insert_ge by lia. rewrite <-app_assoc. cbn [app length].
  by rewrite Nat.add_succ_r.
Qed.

(** A loop that reads the range and stores some of what it makes of each element
    from [d] on; it never overwrites what it has yet to read. *)
Lemma emit_loop_spec {R} (f : T -> option T) (body : nat -> nat * list T -> exec (ctl R (nat * list T)))
    m i l d :
  (forall i m d v, m !! i = Some v -> body i (d, m) =
     match f v with
     | Some w => m' ← store m d w; Done (Next (d + 1, m'))
     | None => Done (Next (d, m))
     end) ->
  holds m i l -> d <= i \/ i + length l <= d -> d + length (omap f l) <= length m ->
  for_range i (length l) body (d, m) = Done (Next (d + length (omap f l), wrote m d (omap f l))).
Proof.
  intros Hb. revert i d m. induction l as [|v l IH]; intros i d m Hl Hd Hroom.
  { cbn. by rewrite Nat.add_0_r, wrote_nil. }
  apply holds_cons in Hl as [Hv Hl]. cbn [length for_range]. rewrite (Hb _ _ _ _ Hv).
  cbn [length omap list_omap] in *. destruct (f v) as [w|]; cbn [length] in *.
  - rewrite store_Done by lia. exec_simpl. rewrite IH.
    + rewrite Nat.add_1_r, wrote_cons by lia. by rewrite Nat.add_succ_r.
    + apply holds_insert; [done|lia].
    + lia.
    + rewrite length_insert. change (list_omap T T f l) with (omap f l) in *. lia.
  - apply IH; [done|lia|done].
Qed.

Lemma omap_filter p l : omap (fun v => if p v then Some v else None) l = List.filter p l.
Proof. induction l as [|v l IH]; [done|]. cbn. destruct (p v); cbn; by rewrite <-IH. Qed.

Lemma omap_total (f : T -> T) l : omap (fun v => Some (f v)) l = f <$> l.
Proof. induction l as [|v l IH]; [done|]. cbn. by rewrite <-IH. Qed.

Lemma emit_iter_spec (f : T -> option T) (body : nat -> nat * list T -> exec (ctl (nat * list T) (nat * list T)))
    m first l last d :
  (forall i m d v, m !! i = Some v -> body i (d, m) =
     match f v with
     | Some w => m' ← store m d w; Done (Next (d + 1, m'))
     | None => Done (Next (d, m))
     end) ->
  holds m first l -> last = first + length l ->
  d <= first \/ last <= d -> d + length (omap f l) <= length m ->
  after (iter_loop (fuel m) last body first (d, m)) Done
  = Done (d + length (omap f l), wrote m d (omap f l)).
Proof.
  intros Hb Hl E Hd Hroom. rewrite (iter_loop_range m first l) by done.
  rewrite (emit_loop_spec f) by (done || lia). done.
Qed.

Lemma transform_spec m first l last d (f : T -> T) :
  holds m first l -> last = first + length l ->
  d <= first \/ last <= d -> d + length l <= length m ->
  transform m first last d f = Done (d + length l, wrote m d (f <$> l)).
Proof.
  intros Hl E Hd Hroom. unfold transform.
  rewrite (emit_iter_spec (fun v => Some (f v)) _ m first l);
    rewrite ?omap_total, ?length_fmap; try done.
  intros i m' d' v Hv. by rewrite (load_Done _ _ _ Hv).
Qed.

Lemma copy_spec m first l last d :
  holds m first l -> last = first + length l ->
  d <= first \/ last <= d -> d + length l <= length m ->
  copy m first last d = Done (d + length l, wrote m d l).
Proof.
  intros Hl E Hd Hroom. rewrite <-(list_fmap_id l) at 2. by apply transform_spec.
Qed.

Lemma copy_if_spec m first l last d p :
  holds m first l -> last = first + length l ->
  d <= first \/ last <= d -> d + length (List.filter p l) <= length m ->
  copy_if m first last d p = Done (d + length (List.filter p l), wrote m d (List.filter p l)).
Proof.
  intros Hl E Hd Hroom. unfold copy_if.
  rewrite (emit_iter_spec (fun v => if p v then Some v else None) _ m first l);
    rewrite ?omap_filter; try done.
  intros i m' d' v Hv. rewrite (load_Done _ _ _ Hv). exec_simpl. by destruct (p v).
Qed.

Lemma copy_n_spec m first l d :
  holds m first l -> d <= first \/ first + length l <= d -> d + length l <= length m ->
  copy_n m first (length l) d = Done (d + length l, wrote m d l).
Proof.
  intros Hl Hd Hroom. unfold copy_n.
  cut (forall k, for_to k (length l) (fun _ '(first, destination, m) =>
         v ← load m first; m ← store m destination v; Done (first + 1, destination + 1, m))
         (first, d, m) = Done (first + length l, d + length l, wrote m d l)); [by intros ->|].
  revert first d m Hl Hd Hroom. induction l as [|v l IH]; intros first d m Hl Hd Hroom k.
  { cbn. by rewrite !Nat.add_0_r, wrote_nil. }
  apply holds_cons in Hl as [Hv Hl]. cbn [length] in *. rewrite for_to_S, (load_Done _ _ _ Hv). exec_simpl.
  rewrite store_Done by lia. exec_simpl. rewrite !Nat.add_1_r, IH.
  - rewrite wrote_cons by lia. do 3 f_equal; lia.
  - apply holds_insert; [done|lia].
  - lia.
  - rewrite length_insert. lia.
Qed.

(** A loop that rewrites every element of the range in place. *)
Lemma in_place_spec {R} (f : T -> T) (body : nat -> list T -> exec (ctl R (list T))) m i l :
  (forall i m v, m !! i = Some v -> body i m = Done (Next (<[i := f v]> m))) ->
  holds m i l -> for_range i (length l) body m = Done (Next (wrote m i (f <$> l))).
Proof.
  intros Hb. revert i m. induction l as [|v l IH]; intros i m Hl; [cbn; by rewrite wrote_nil|].
  apply holds_cons in Hl as [Hv Hl]. cbn [length for_range]. rewrite (Hb _ _ _ Hv), IH.
  - rewrite wrote_cons by (by eapply lookup_lt_Some). done.
  - apply holds_insert; [done|lia].
Qed.

Lemma in_place_iter_spec (f : T -> T) (body : nat -> list T -> exec (ctl (list T) (list T))) m first l last :
  (forall i m v, m !! i = Some v -> body i m = Done (Next (<[i := f v]> m))) ->
  holds m first l -> last = first + length l ->
  after (iter_loop (fuel m) last body first m) Done = Done (wrote m first (f <$> l)).
Proof. intros Hb Hl E. rewrite (iter_loop_range m first l) by done. by rewrite (in_place_spec f). Qed.

Lemma store_lookup m i (v w : T) : m !! i = Some v -> store m i w = Done (<[i := w]> m).
Proof. intros H. apply store_Done. by eapply lookup_lt_Some. Qed.

Lemma fill_range_spec m first l last v :
  holds m first l -> last = first + length l ->
  fill m first last v = Done (wrote m first (replicate (length l) v)).
Proof.
  intros Hl E. unfold fill. rewrite (in_place_iter_spec (fun _ => v) _ m first l);
    [|intros i m' w Hw; by rewrite (store_lookup _ _ _ _ Hw)|done..].
  do 2 f_equal. clear. induction l; cbn; congruence.
Qed.

Lemma fill_n_spec m first n v :
  first + n <= length m -> fill_n m first n v = Done (first + n, wrote m first (replicate n v)).
Proof.
  cut (forall k, first + n <= length m ->
         for_to k n (fun _ '(first, m) => m ← store m first v; Done (first + 1, m)) (first, m)
         = Done (first + n, wrote m first (replicate n v))); [intros H; apply H|].
  intros k. revert first m k. induction n as [|n IH]; intros first m k H.
  { cbn. by rewrite Nat.add_0_r, wrote_nil. }
  rewrite for_to_S, store_Done by lia. exec_simpl. rewrite Nat.add_1_r, IH by (rewrite length_insert; lia).
  rewrite wrote_cons by lia. cbn [replicate]. do 2 f_equal. lia.
Qed.

Lemma replace_loop_spec m first l last p w (body : nat -> list T -> exec (ctl (list T) (list T))) :
  (forall i m v, m !! i = Some v -> body i m =
     if p v then m ← store m i w; Done (Next m) else Done (Next m)) ->
  holds m first l -> last = first + length l ->
  after (iter_loop (fuel m) last body first m) Done
  = Done (wrote m first ((fun v => if p v then w else v) <$> l)).
Proof.
  intros Hb. apply (in_place_iter_spec (fun v => if p v then w else v)). intros i m' v Hv.
  rewrite (Hb _ _ _ Hv). destruct (p v); [by rewrite (store_lookup _ _ _ _ Hv)|].
  by rewrite list_insert_id.
Qed.

Lemma replace_if_spec m first l last p w :
  holds m first l -> last = first + length l ->
  replace_if m first last p w = Done (wrote m first ((fun v => if p v then w else v) <$> l)).
Proof. apply replace_loop_spec. intros i m' v Hv. by rewrite (load_Done _ _ _ Hv). Qed.

Lemma replace_spec (eqb : T -> T -> bool) m first l last old w :
  holds m first l -> last = first + length l ->
  replace eqb m first last old w = Done (wrote m first ((fun v => if eqb v old then w else v) <$> l)).
Proof.
  apply (replace_loop_spec _ _ _ _ (fun v => eqb v old)). intros i m' v Hv. by rewrite (load_Done _ _ _ Hv).
Qed.

Lemma transform2_spec m first1 l1 last1 first2 l2 d (f : T -> T -> T) :
  holds m first1 l1 -> holds m first2 l2 -> last1 = first1 + length l1 -> length l2 = length l1 ->
  d <= first1 \/ last1 <= d -> d <= first2 \/ first2 + length l2 <= d -> d + length l1 <= length m ->
  transform2 m first1 last1 first2 d f = Done (d + length l1, wrote m d (zip_with f l1 l2)).
Proof.
  intros H1 H2 E Hlen Hd1 Hd2 Hroom. unfold transform2.
  rewrite (iter_loop_range m first1 l1) by done. subst last1.
  match goal with |- context [for_range _ _ ?b _] =>
    cut (for_range first1 (length l1) b (first2, d, m)
         = Done (Next (first2 + length l1, d + length l1, wrote m d (zip_with f l1 l2)))); [by intros ->|] end.
  revert first1 first2 l2 d m H1 H2 Hlen Hd1 Hd2 Hroom.
  induction l1 as [|a l1 IH]; intros first1 first2 [|b l2] d m H1 H2 Hlen Hd1 Hd2 Hroom; simplify_eq/=.
  { by rewrite !Nat.add_0_r, wrote_nil. }
  apply holds_cons in H1 as [Ha H1], H2 as [Hb H2].
  rewrite (load_Done _ _ _ Ha), (load_Done _ _ _ Hb). exec_simpl. rewrite store_Done by lia. exec_simpl.
  rewrite !Nat.add_1_r, (IH _ _ l2).
  - rewrite wrote_cons by lia. by rewrite !Nat.add_succ_r.
  - apply holds_insert; [done|lia].
  - apply holds_insert; [done|lia].
  - done.
  - lia.
  - lia.
  - rewrite length_insert. lia.
Qed.

(** The first [n] values of a generator. *)
Fixpoint generated {G} (generator : G -> T * G) (g : G) (n : nat) : list T :=
  match n with 0 => [] | S n => (generator g).1 :: generated generator (generator g).2 n end.

Lemma generate_spec {G} (generator : G -> T * G) g m first l last :
  holds m first l -> last = first + length l ->
  generate m first last generator g = Done (wrote m first (generated generator g (length l))).
Proof.
  intros Hl E. unfold generate. rewrite (iter_loop_range m first l) by done. clear E.
  revert g first m Hl. induction l as [|v l IH]; intros g first m Hl; [cbn; by rewrite wrote_nil|].
  apply holds_cons in Hl as [Hv Hl]. cbn [length for_range generated].
  destruct (generator g) as [w g'] eqn:Eg. rewrite (store_lookup _ _ _ _ Hv). exec_simpl.
  rewrite IH by (apply holds_insert; [done|lia]). cbn [fst snd]. rewrite wrote_cons; [done|by eapply lookup_lt_Some].
Qed.

(** ** Compaction *)

Section Moving.
Context (moved self_moved : T -> T).
Abbreviation move_assign := (move_assign moved self_moved).

Lemma move_assign_ne m d i v :
  d <> i -> m !! i = Some v -> d < length m ->
  move_assign m d i = Done (<[i := moved v]> (<[d := v]> m)).
Proof.
  intros Hne Hv Hd. unfold Algorithm.move_assign. rewrite (load_Done _ _ _ Hv). exec_simpl.
  nat_tests. rewrite store_Done by done. exec_simpl. apply store_Done.
  rewrite length_insert. by eapply lookup_lt_Some.
Qed.

(** What a loop that moves the elements satisfying [keep] down to [d] leaves behind. *)
Definition moved_to m (i n d : nat) (kept : list T) (m' : list T) : Prop :=
  length m' = length m /\ holds m' d kept
  /\ forall k, ~ (i <= k < i + n) -> ~ (d <= k < d + length kept) -> m' !! k = m !! k.

Lemma move_loop_spec {R} keep (body : nat -> nat * list T -> exec (ctl R (nat * list T))) m i l d :
  (forall i m d v, m !! i = Some v -> body i (d, m) =
     if (keep v : bool) then m' ← move_assign m d i; Done (Next (d + 1, m')) else Done (Next (d, m))) ->
  holds m i l -> d < i \/ i + length l <= d -> d + length (List.filter keep l) <= length m ->
  exists m', for_range i (length l) body (d, m) = Done (Next (d + length (List.filter keep l), m'))
    /\ moved_to m i (length l) d (List.filter keep l) m'.
Proof.
  intros Hb. revert i d m. induction l as [|v l IH]; intros i d m Hl Hd Hroom.
  { exists m. cbn. rewrite Nat.add_0_r. by split_and!. }
  apply holds_cons in Hl as [Hv Hl]. pose proof (lookup_lt_Some _ _ _ Hv) as Hi.
  cbn [length for_range List.filter] in *. rewrite (Hb _ _ _ _ Hv).
  destruct (keep v); cbn [length] in *.
  - rewrite (move_assign_ne m d i v) by (done || lia). exec_simpl.
    destruct (IH (S i) (d + 1) (<[i := moved v]> (<[d := v]> m))) as (m' & Hr & Hlen & Hh & Hout).
    { apply holds_insert; [apply holds_insert; [done|lia]|lia]. }
    { lia. }
    { rewrite !length_insert. lia. }
    exists m'. rewrite Hr. rewrite !length_insert in *. split; [do 3 f_equal; lia|].
    split_and!; [done| |].
    + apply holds_cons. rewrite Nat.add_1_r in Hh. split; [|done].
      rewrite Hout by lia. rewrite list_lookup_insert_ne by lia. apply list_lookup_insert_eq. lia.
    + intros k Hk1 Hk2. rewrite Hout by (cbn [length] in *; lia).
      rewrite !list_lookup_insert_ne by (cbn [length] in *; lia). done.
  - destruct (IH (S i) d m) as (m' & Hr & Hlen & Hh & Hout); [done|lia|done|].
    exists m'. split; [done|]. split_and!; [done..|]. intros k Hk1 Hk2. apply Hout; lia.
Qed.

Lemma filter_keeps_all l : List.filter (fun _ => true) l = l.
Proof. induction l; cbn; congruence. Qed.

Lemma move_spec m first l last d :
  holds m first l -> last = first + length l ->
  d < first \/ last <= d -> d + length l <= length m ->
  exists m', Algorithm.move moved self_moved m first last d = Done (d + length l, m')
    /\ moved_to m first (length l) d l m'.
Proof.
  intros Hl E Hd Hroom. unfold Algorithm.move. rewrite (iter_loop_range m first l) by done.
  edestruct (move_loop_spec (R := nat * list T) (fun _ => true)) as (m' & Hr & Hm);
    [|exact Hl|subst; exact Hd|by rewrite filter_keeps_all|rewrite Hr, filter_keeps_all in *; by exists m'].
  done.
Qed.

Lemma remove_loop_spec m i l last d p :
  holds m i l -> last = i + length l -> d < i -> d + length l <= length m ->
  exists m', remove_loop moved self_moved m i last d p
             = Done (d + length (List.filter (fun v => negb (p v)) l), m')
    /\ moved_to m i (length l) d (List.filter (fun v => negb (p v)) l) m'.
Proof.
  intros Hl E Hd Hroom. unfold remove_loop. rewrite (iter_loop_range m i l) by done.
  destruct (move_loop_spec (R := nat * list T) (fun v => negb (p v))
    (fun first '(result, m) =>
           v ← load m first;
           if negb (p v) then m ← move_assign m result first; Done (Next (result + 1, m))
           else Done (Next (result, m))) m i l d) as (m' & Hr & Hm).
  - intros i' m' d' v Hv. by rewrite (load_Done _ _ _ Hv).
  - done.
  - lia.
  - pose proof (List.filter_length_le (fun v => negb (p v)) l). lia.
  - rewrite Hr. by exists m'.
Qed.

(** The part of a range before its first element that satisfies [p]. *)
Lemma index_where_split p l :
  index_where p l = length l /\ List.filter (fun v => negb (p v)) l = l
  \/ exists a v b, l = a ++ v :: b /\ index_where p l = length a /\ p v = true
       /\ List.filter (fun v => negb (p v)) l = a ++ List.filter (fun v => negb (p v)) b.
Proof.
  induction l as [|v l IH]; [by left|]. rewrite index_where_cons. cbn [List.filter].
  destruct (p v) eqn:Hp; cbn [negb].
  - right. by exists [], v, l.
  - destruct IH as [[-> ->]|(a & w & b & -> & -> & Hw & ->)]; [by left|].
    right. by exists (v :: a), w, b.
Qed.

Lemma holds_app m first (a b : list T) :
  holds m first (a ++ b) <-> holds m first a /\ holds m (first + length a) b.
Proof.
  split.
  - intros H. split; intros i v Hi; [by apply H, lookup_app_l_Some|].
    rewrite <-Nat.add_assoc. apply H. by rewrite lookup_app_r, Nat.add_sub' by lia.
  - intros [Ha Hb] i v [Hi|[Hlen Hi]]%lookup_app_Some; [by apply Ha|].
    apply Hb in Hi. by replace (first + i) with (first + length a + (i - length a)) by lia.
Qed.

Lemma remove_from_spec m first l last p :
  holds m first l -> last = first + length l ->
  exists m', (if (first + index_where p l =? last)%nat then Done (last, m)
              else remove_loop moved self_moved m (first + index_where p l + 1) last (first + index_where p l) p)
             = Done (first + length (List.filter (fun v => negb (p v)) l), m')
    /\ moved_to m first (length l) first (List.filter (fun v => negb (p v)) l) m'.
Proof.
  intros Hl ->. destruct (index_where_split p l) as [[-> ->]|(a & v & b & -> & -> & Hv & ->)].
  { rewrite Nat.eqb_refl. exists m. by split_and!. }
  rewrite length_app. cbn [length]. nat_tests.
  pose proof (holds_bound m first _ Hl ltac:(by destruct a)) as Hbound.
  rewrite length_app in Hbound. cbn [length] in Hbound.
  apply holds_app in Hl as [Ha Hl]. apply holds_cons in Hl as [_ Hl].
  destruct (remove_loop_spec m (first + length a + 1) b (first + (length a + S (length b)))
    (first + length a) p) as (m' & -> & Hlen & Hh & Hout); [by rewrite Nat.add_1_r|lia|lia|lia|].
  pose proof (List.filter_length_le (fun v => negb (p v)) b).
  exists m'. rewrite length_app. split; [do 2 f_equal; lia|]. split_and!; [done| |].
  - apply holds_app. split; [|done]. intros i w Hi. rewrite Hout; [by apply Ha|..];
      apply lookup_lt_Some in Hi; lia.
  - intros k Hk1 Hk2. apply Hout; lia.
Qed.

Lemma remove_if_spec m first l last p :
  holds m first l -> last = first + length l ->
  exists m', remove_if moved self_moved m first last p
             = Done (first + length (List.filter (fun v => negb (p v)) l), m')
    /\ moved_to m first (length l) first (List.filter (fun v => negb (p v)) l) m'.
Proof.
  intros Hl E. unfold remove_if. rewrite (find_if_spec m first l) by done. exec_simpl.
  by apply remove_from_spec.
Qed.

Lemma remove_spec (eqb : T -> T -> bool) m first l last x :
  holds m first l -> last = first + length l ->
  exists m', remove moved self_moved eqb m first last x
             = Done (first + length (List.filter (fun v => negb (eqb v x)) l), m')
    /\ moved_to m first (length l) first (List.filter (fun v => negb (eqb v x)) l) m'.
Proof.
  intros Hl E. unfold remove. rewrite (find_spec eqb m first l) by done. exec_simpl.
  by apply (remove_from_spec m first l last (fun v => eqb v x)).
Qed.

(** The elements [unique] keeps: those not equivalent to the last one kept. *)
Fixpoint unique_from (q : T -> T -> bool) (r : T) (l : list T) : list T :=
  match l with
  | [] => [r]
  | v :: l => if q r v then unique_from q r l else r :: unique_from q v l
  end.

Lemma unique_from_length q r l : 1 <= length (unique_from q r l) <= S (length l).
Proof.
  revert r. induction l as [|v l IH]; intros r; cbn; [lia|].
  destruct (q r v); cbn; specialize (IH r) as H1; specialize (IH v) as H2; lia.
Qed.

Lemma unique_loop_spec {R} (q : T -> T -> bool)
    (body : nat -> nat * list T -> exec (ctl R (nat * list T))) m i l d r :
  (forall v, self_moved v = v) ->
  (forall i m d r v, m !! d = Some r -> m !! i = Some v -> body i (d, m) =
     if negb (q r v) then m' ← move_assign m (d + 1) i; Done (Next (d + 1, m')) else Done (Next (d, m))) ->
  m !! d = Some r -> holds m i l -> d < i ->
  exists d' m', for_range i (length l) body (d, m) = Done (Next (d', m'))
    /\ d' + 1 = d + length (unique_from q r l)
    /\ moved_to m i (length l) d (unique_from q r l) m'.
Proof.
  intros Hself Hb. revert i d m r. induction l as [|v l IH]; intros i d m r Hr Hl Hd.
  { exists d, m. cbn. split_and!; [done|done|]. split_and!; [done| |done].
    intros [|k] w Hk; simplify_eq/=; by rewrite Nat.add_0_r. }
  apply holds_cons in Hl as [Hv Hl]. pose proof (lookup_lt_Some _ _ _ Hv) as Hi.
  cbn [length for_range unique_from]. rewrite (Hb _ _ _ _ _ Hr Hv).
  destruct (q r v); cbn [negb].
  { destruct (IH (S i) d m r Hr Hl ltac:(lia)) as (d' & m' & Hrun & Hd' & Hlen & Hh & Hout).
    exists d', m'. split_and!; [done|done|]. split_and!; [done|done|]. intros k Hk1 Hk2. apply Hout; lia. }
  assert (exists m1, move_assign m (d + 1) i = Done m1 /\ m1 !! (d + 1) = Some v /\ length m1 = length m
          /\ forall k, k <> d + 1 -> k <> i -> m1 !! k = m !! k) as (m1 & -> & Hv1 & Hlen1 & Hout1).
  { destruct (decide (d + 1 = i)) as [<-|Hne].
    - exists m. unfold Algorithm.move_assign. rewrite (load_Done _ _ _ Hv). exec_simpl.
      rewrite Nat.eqb_refl, Hself, (store_lookup _ _ _ _ Hv), list_insert_id by done. done.
    - rewrite (move_assign_ne m (d + 1) i v) by (done || lia). eexists. split; [done|].
      rewrite !length_insert, list_lookup_insert_ne, list_lookup_insert_eq by lia. split_and!; [done..|].
      intros k H1 H2. by rewrite !list_lookup_insert_ne. }
  exec_simpl. destruct (IH (S i) (d + 1) m1 v Hv1) as (d' & m' & Hrun & Hd' & Hlen & Hh & Hout); [|lia|].
  { intros k w Hk. rewrite Hout1 by lia. by apply Hl. }
  exists d', m'. cbn [length]. split_and!; [done|lia|].
  pose proof (unique_from_length q v l). split_and!; [lia| |].
  - apply holds_cons. rewrite Nat.add_1_r in Hh. split; [|done].
    rewrite Hout, Hout1 by lia. done.
  - intros k Hk1 Hk2. cbn [length] in Hk2. rewrite Hout, Hout1 by lia. done.
Qed.

(** What [unique] keeps of a range. *)
Definition unique_list (q : T -> T -> bool) l : list T :=
  match l with [] => [] | v :: l => unique_from q v l end.

Lemma unique_spec m first l last (q : T -> T -> bool) :
  (forall v, self_moved v = v) ->
  holds m first l -> last = first + length l ->
  exists m', unique moved self_moved m first last q = Done (first + length (unique_list q l), m')
    /\ moved_to m first (length l) first (unique_list q l) m'.
Proof.
  intros Hself Hl ->. unfold unique. destruct l as [|v l].
  { cbn [length]. rewrite Nat.add_0_r, Nat.eqb_refl. exists m. cbn. rewrite Nat.add_0_r. by split_and!. }
  pose proof Hl as Hl'. apply holds_cons in Hl' as [Hv Hl']. cbn [length unique_list]. nat_tests.
  pose proof (holds_bound m first _ Hl ltac:(done)) as Hbound. cbn [length] in Hbound.
  rewrite (Nat.add_1_r first), (iter_loop_range m (S first) l) by (done || lia).
  edestruct (unique_loop_spec (R := nat * list T) q) as (d' & m' & Hrun & Hd & Hlen & Hh & Hout);
    [exact Hself| |exact Hv|exact Hl'| |rewrite Hrun].
  { intros i m' d r w Hr Hw. cbn beta iota. rewrite (load_Done _ _ _ Hr), (load_Done _ _ _ Hw). done. }
  { lia. }
  exists m'. cbn [after]. rewrite Hd. split; [done|]. split_and!; [done..|].
  intros k Hk1 Hk2. pose proof (unique_from_length q v l). apply Hout; lia.
Qed.
End Moving.
End Ranges.

(** ** Extremes *)

Section Extremes.
Context {T : Type} (compare : T -> T -> bool) `{!StrictWeakOrder compare}.
Implicit Types (m l : list T).

(** [x] at position [i] is the first of the least elements of [l]. *)
Definition first_least (lt : T -> T -> bool) l (i : nat) : Prop :=
  exists x, l !! i = Some x
    /\ (forall j y, l !! j = Some y -> lt y x = false)
    /\ (forall j y, l !! j = Some y -> j < i -> lt x y = true).

Lemma first_least_snoc l v i x :
  l !! i = Some x -> first_least compare l i ->
  first_least compare (l ++ [v]) (if compare v x then length l else i).
Proof.
  intros Hx (x' & Hx' & Hmin & Hfirst). simplify_eq.
  assert (Hi : i < length l) by (by eapply lookup_lt_Some). destruct (compare v x) eqn:Hv.
  - exists v. split_and!; [by apply list_lookup_middle| |].
    + intros j y [Hj|[_ Hj]]%lookup_app_Some.
      * apply swo_asym. eapply swo_lt_le_trans; [done|exact Hv|by eapply Hmin].
      * apply list_lookup_singleton_Some in Hj as [_ <-]. by apply (swo_irrefl compare).
    + intros j y [Hj|[? Hj]]%lookup_app_Some Hlt; [|lia].
      eapply swo_lt_le_trans; [done|exact Hv|by eapply Hmin].
  - exists x. split_and!; [by apply lookup_app_l_Some| |].
    + intros j y [Hj|[_ Hj]]%lookup_app_Some; [by eapply Hmin|].
      by apply list_lookup_singleton_Some in Hj as [_ <-].
    + intros j y [Hj|[? Hj]]%lookup_app_Some Hlt; [by eapply Hfirst|lia].
Qed.

Lemma extreme_loop_spec m first l (body : nat -> nat -> exec (ctl nat nat)) :
  (forall i r a b, m !! i = Some a -> m !! r = Some b ->
     body i r = Done (Next (if compare a b then i else r))) ->
  holds m first l -> l <> [] ->
  exists i, after (iter_loop (fuel m) (first + length l) body (first + 1) first) Done = Done (first + i)
    /\ first_least compare l i.
Proof.
  intros Hb Hl Hne. destruct l as [|v l]; [done|]. pose proof (proj1 (holds_cons _ _ _ _) Hl) as [_ Htl].
  rewrite (iter_loop_range m (first + 1) l) by (rewrite ?Nat.add_1_r; done || (cbn; lia)).
  destruct (for_range_inv (R := nat)
    (fun k r => exists i, r = first + i /\ first_least compare (take (k - first) (v :: l)) i)
    body (first + 1) (length l) first) as (r & Hr & i & -> & Hi).
  - exists 0. rewrite Nat.add_sub'. split; [lia|]. exists v. cbn [take]. split_and!; [done| |lia].
    intros j y Hj. apply list_lookup_singleton_Some in Hj as [_ <-]. by apply (swo_irrefl compare).
  - intros k r Hk (i & -> & Hi). pose proof Hi as (x & Hx & _).
    assert (Hx' : (v :: l) !! i = Some x) by (by apply lookup_take_Some in Hx as [? _]).
    destruct (lookup_lt_is_Some_2 (v :: l) (k - first)) as [w Hw]; [cbn [length]; lia|].
    rewrite (Hb k (first + i) w x); [|replace k with (first + (k - first)) by lia; by apply Hl|by apply Hl].
    eexists. split; [done|]. exists (if compare w x then k - first else i).
    split; [destruct (compare w x); lia|].
    replace (S k - first) with (S (k - first)) by lia. rewrite (take_S_r _ _ w) by done.
    pose proof (first_least_snoc _ w i x Hx Hi) as H. rewrite length_take in H.
    rewrite Nat.min_l in H by (cbn [length]; lia). exact H.
  - exists i. rewrite Hr. split; [done|]. replace (first + 1 + length l - first) with (length (v :: l)) in Hi
      by (cbn [length]; lia). by rewrite firstn_all in Hi.
Qed.
End Extremes.

Lemma min_element_spec {T} (compare : T -> T -> bool) `{!StrictWeakOrder compare} (m : list T) first l :
  holds m first l -> l <> [] ->
  exists i, min_element compare m first (first + length l) = Done (first + i) /\ first_least compare l i.
Proof.
  intros Hl Hne. unfold min_element.
  assert (length l <> 0) by (by destruct l). nat_tests. apply extreme_loop_spec; [done| |done..].
  intros i r a b Ha Hb. by rewrite (load_Done _ _ _ Ha), (load_Done _ _ _ Hb).
Qed.

Lemma max_element_spec {T} (compare : T -> T -> bool) `{!StrictWeakOrder compare} (m : list T) first l :
  holds m first l -> l <> [] ->
  exists i, max_element compare m first (first + length l) = Done (first + i)
    /\ first_least (fun a b => compare b a) l i.
Proof.
  intros Hl Hne. unfold max_element.
  assert (length l <> 0) by (by destruct l). nat_tests. pose proof (swo_flip compare).
  apply extreme_loop_spec; [done| |done..].
  intros i r a b Ha Hb. by rewrite (load_Done _ _ _ Ha), (load_Done _ _ _ Hb).
Qed.

(** ** The theorems *)

(** The queries read a range and nothing else, terminate, and answer what their
    names say: [find_if] the first element that satisfies the predicate (the end of
    the range when there is none), [count_if] their number, [all_of], [any_of] and
    [none_of] the quantifiers, [mismatch] the first position at which two ranges
    differ, [equal] whether there is none, [min_element] and [max_element] the first
    of the least or greatest elements for any strict weak order. *)
Theorem algorithm_queries {T} (compare q : T -> T -> bool) (p : T -> bool) (m : list T) first1 l1 first2 l2 :
  StrictWeakOrder compare -> holds m first1 l1 -> holds m first2 l2 ->
  let last1 := first1 + length l1 in
  let last2 := first2 + length l2 in
  find_if m first1 last1 p = Done (first1 + index_where p l1)
  /\ find_if_not m first1 last1 p = Done (first1 + index_where (fun v => negb (p v)) l1)
  /\ (forall x, find q m first1 last1 x = Done (first1 + index_where (fun v => q v x) l1))
  /\ count_if m first1 last1 p = Done (length (List.filter p l1))
  /\ (forall x, count q m first1 last1 x = Done (length (List.filter (fun v => q v x) l1)))
  /\ all_of m first1 last1 p = Done (forallb p l1)
  /\ any_of m first1 last1 p = Done (existsb p l1)
  /\ none_of m first1 last1 p = Done (negb (existsb p l1))
  /\ (let n := common_prefix q l1 l2 in
      mismatch_bounded m first1 last1 first2 last2 q = Done (first1 + n, first2 + n)
      /\ equal_bounded m first1 last1 first2 last2 q
         = Done ((n =? length l1) && (n =? length l2))
      /\ (length l1 <= length l2 ->
          mismatch m first1 last1 first2 q = Done (first1 + n, first2 + n)
          /\ equal m first1 last1 first2 q = Done (n =? length l1))
      /\ ((forall a b, q a b = true <-> a = b) -> (n = length l1 /\ n = length l2) <-> l1 = l2))
  /\ (l1 <> [] ->
      (exists i, min_element compare m first1 last1 = Done (first1 + i) /\ first_least compare l1 i)
      /\ (exists i, max_element compare m first1 last1 = Done (first1 + i)
                    /\ first_least (fun a b => compare b a) l1 i)).
Proof.
  intros Hc H1 H2. cbn zeta. split_and!.
  - by apply find_if_spec.
  - by apply find_if_not_spec.
  - intros x. by apply find_spec.
  - by apply count_if_spec.
  - intros x. by apply count_spec.
  - by apply all_of_spec.
  - by apply any_of_spec.
  - by apply none_of_spec.
  - by apply mismatch_bounded_spec.
  - by apply equal_bounded_spec.
  - intros Hlen. split; [by apply mismatch_spec|by apply equal_spec].
  - apply common_prefix_eq.
  - intros Hne. split; [by apply min_element_spec|by apply max_element_spec].
Qed.

Lemma algorithm_queries_witness :
  find_if [5; 3; 8; 3]%Z 1 4 (Z.ltb 4) = Done 2 /\ min_element Z.ltb [5; 3; 8; 3]%Z 0 4 = Done 1.
Proof.
  assert (H : holds [5; 3; 8; 3]%Z 1 [3; 8; 3]%Z) by (intros [|[|[|i]]] v Hi; done).
  assert (H0 : holds [5; 3; 8; 3]%Z 0 [5; 3; 8; 3]%Z) by (intros i v Hi; exact Hi).
  split.
  - exact (proj1 (algorithm_queries Z.ltb Z.eqb (Z.ltb 4) _ 1 _ 0 _ _ H H0)).
  - reflexivity.
Defined.

(** The copying algorithms write exactly the destination range, in order, and
    nothing else, also when it overlaps the source from below; [copy_if] and
    [transform] write the selected and the transformed elements, [replace_if],
    [fill] and [generate] rewrite the range in place; every iterator they return is
    the end of what was written. *)
Theorem algorithm_copies {T} (m : list T) first l d (p : T -> bool) (f : T -> T) (f2 : T -> T -> T)
    (eqb : T -> T -> bool) (v w : T) {G} (generator : G -> T * G) (g : G) :
  let last := first + length l in
  holds m first l -> d <= first \/ last <= d -> d + length l <= length m ->
  copy m first last d = Done (d + length l, wrote m d l)
  /\ copy_n m first (length l) d = Done (d + length l, wrote m d l)
  /\ copy_if m first last d p = Done (d + length (List.filter p l), wrote m d (List.filter p l))
  /\ transform m first last d f = Done (d + length l, wrote m d (f <$> l))
  /\ (forall first2 l2, holds m first2 l2 -> length l2 = length l ->
        d <= first2 \/ first2 + length l2 <= d ->
        transform2 m first last first2 d f2 = Done (d + length l, wrote m d (zip_with f2 l l2)))
  /\ fill m first last v = Done (wrote m first (replicate (length l) v))
  /\ fill_n m d (length l) v = Done (d + length l, wrote m d (replicate (length l) v))
  /\ generate m first last generator g = Done (wrote m first (generated generator g (length l)))
  /\ replace_if m first last p v = Done (wrote m first ((fun x => if p x then v else x) <$> l))
  /\ replace eqb m first last w v = Done (wrote m first ((fun x => if eqb x w then v else x) <$> l)).
Proof.
  intros last Hl Hd Hroom. pose proof (List.filter_length_le p l). split_and!.
  - by apply copy_spec.
  - by apply copy_n_spec.
  - apply copy_if_spec; (done || lia).
  - by apply transform_spec.
  - intros first2 l2 H2 Hlen Hd2. by apply transform2_spec.
  - by apply fill_range_spec.
  - by apply fill_n_spec.
  - by apply generate_spec.
  - by apply replace_if_spec.
  - by apply replace_spec.
Qed.

Lemma algorithm_copies_witness : copy [1; 2; 3; 4; 5]%Z 1 4 0 = Done (3, [2; 3; 4; 4; 5]%Z).
Proof.
  assert (H : holds [1; 2; 3; 4; 5]%Z 1 [2; 3; 4]%Z) by (intros [|[|[|i]]] v Hi; done).
  exact (proj1 (algorithm_copies [1; 2; 3; 4; 5]%Z 1 [2; 3; 4]%Z 0 (Z.ltb 0) Z.opp Z.add Z.eqb 0%Z 0%Z
    (fun g : unit => (0%Z, g)) tt H ltac:(left; lia) ltac:(cbn; lia))).
Defined.

(** [remove], [remove_if] and [unique] compact a range in place: the elements to
    keep (those that do not match; those not equivalent to the one kept before) end up
    at its front in their original order, the returned iterator is the end of them,
    nothing outside the range changes, and [move] carries a whole range over; whatever
    state moved-from objects are left in, and for [unique] provided an object survives
    being move-assigned to itself. *)
Theorem algorithm_compaction {T} (moved self_moved : T -> T) (m : list T) first l
    (p : T -> bool) (q eqb : T -> T -> bool) :
  let last := first + length l in
  holds m first l ->
  (exists m', remove_if moved self_moved m first last p
              = Done (first + length (List.filter (fun v => negb (p v)) l), m')
     /\ moved_to m first (length l) first (List.filter (fun v => negb (p v)) l) m')
  /\ (forall x, exists m', remove moved self_moved eqb m first last x
              = Done (first + length (List.filter (fun v => negb (eqb v x)) l), m')
     /\ moved_to m first (length l) first (List.filter (fun v => negb (eqb v x)) l) m')
  /\ ((forall v, self_moved v = v) ->
      exists m', unique moved self_moved m first last q = Done (first + length (unique_list q l), m')
     /\ moved_to m first (length l) first (unique_list q l) m')
  /\ (forall d, d < first \/ last <= d -> d + length l <= length m ->
      exists m', move moved self_moved m first last d = Done (d + length l, m')
     /\ moved_to m first (length l) d l m').
Proof.
  intros last Hl. split_and!.
  - by apply remove_if_spec.
  - intros x. by apply remove_spec.
  - intros Hself. by apply unique_spec.
  - intros d Hd Hroom. by apply move_spec.
Qed.

Lemma algorithm_compaction_witness :
  exists m', remove_if (fun _ => 0%Z) (fun v => v) [7; 1; 2; 3; 4]%Z 1 5 Z.even = Done (3, m')
    /\ take 3 m' = [7; 1; 3]%Z.
Proof.
  assert (H : holds [7; 1; 2; 3; 4]%Z 1 [1; 2; 3; 4]%Z) by (intros [|[|[|[|i]]]] v Hi; done).
  destruct (proj1 (algorithm_compaction (fun _ => 0%Z) (fun v => v) [7; 1; 2; 3; 4]%Z 1 _
    Z.even Z.eqb Z.eqb H)) as (m' & E & Hlen & Hh & Hout).
  exists m'. split; [exact E|]. injection E as <-. reflexivity.
Defined.
