(* ===== verification/AlgorithmSort.v ===== *)
(** * Sorting and binary search (castle/algorithm/algorithm.hpp)

    [sort] is a heap sort on a range of the memory [m]; the searches halve a range.
    A [difference_type] that is never negative here is a [nat]. *)

From Stdlib Require Import Permutation Sorted.
From stdpp Require Import sorting.
From S2P Require Import Prelude Algorithm.

Section Sorting.
Context {T : Type} (compare : T -> T -> bool).
Implicit Types (m l : list T).

(** [castle::swap] of two elements. *)
Definition swap m (lhs rhs : nat) : exec (list T) :=
  tmp ← load m lhs; v ← load m rhs;
  m ← store m lhs v; store m rhs tmp.

Definition heap_sift_down m (first root count : nat) : exec (list T) :=
  after (while_loop (S count)
           (fun '(root, m) => Done ((1 <? count)%nat && (0 <=? root)%nat && (root <=? (count - 2) / 2)%nat))
           (fun '(root, m) =>
              let child := root * 2 + 1 in
              child ← (if (child + 1 <? count)%nat then
                         a ← load m (first + child); b ← load m (first + child + 1);
                         Done (if compare a b then child + 1 else child)
                       else Done child);
              a ← load m (first + root); b ← load m (first + child);
              if negb (compare a b) then Done (Return m)
              else m ← swap m (first + root) (first + child); Done (Next (child, m)))
           (root, m))
    (fun '(_, m) => Done m).

(** [for (start = count / 2; start > 0; --start)] and [for (end = count; end > 1; --end)]. *)
Fixpoint build_heap m (first count start : nat) : exec (list T) :=
  match start with
  | 0 => Done m
  | S start' => m ← heap_sift_down m first (start - 1) count; build_heap m first count start'
  end.
Fixpoint extract_all m (first end_ : nat) : exec (list T) :=
  match end_ with
  | 0 => Done m
  | S end' =>
      if (1 <? end_)%nat then
        m ← swap m first (first + end_ - 1);
        m ← heap_sift_down m first 0 (end_ - 1);
        extract_all m first end'
      else Done m
  end.

Definition sort m (first last : nat) : exec (list T) :=
  let count_value := last - first in
  if (count_value <=? 1)%nat then Done m
  else
    m ← build_heap m first count_value (count_value / 2);
    extract_all m first count_value.

(** ** Binary search: the fuel is logarithmic in the length of the range *)

Context {U : Type}.

(** The loop shared by the searches; [goes_right v] skips [v] and what precedes it. *)
Definition bound_loop m (first last : nat) (goes_right : T -> bool) : exec nat :=
  let length := last - first in
  after (while_loop (Nat.log2 length + 2)
           (fun '(first, length) => Done (0 <? length)%nat)
           (fun '(first, length) =>
              let half := length / 2 in
              let middle := first + half in
              v ← load m middle;
              if goes_right v then Done (Next (middle + 1, length - (half + 1)))
              else Done (Next (first, half)))
           (first, length))
    (fun '(first, _) => Done first).

Definition lower_bound (less : T -> U -> bool) m (first last : nat) (value : U) : exec nat :=
  bound_loop m first last (fun v => less v value).
Definition upper_bound (less : U -> T -> bool) m (first last : nat) (value : U) : exec nat :=
  bound_loop m first last (fun v => negb (less value v)).
Definition binary_search (less : T -> U -> bool) (greater : U -> T -> bool)
    m (first last : nat) (value : U) : exec bool :=
  position ← lower_bound less m first last value;
  if negb (position =? last)%nat then v ← load m position; Done (negb (greater value v))
  else Done false.
End Sorting.

(** ** Heap sort *)

Section SortCorrect.
Context {T : Type} (compare : T -> T -> bool) `{!StrictWeakOrder compare}.
Implicit Types (l pre post : list T).

Definition child_of (p k : nat) : Prop := k = 2 * p + 1 \/ k = 2 * p + 2.

(** No parent from position [s] on is below one of its children. *)
Definition heap_from l (s : nat) : Prop :=
  forall p k a b, s <= p -> child_of p k -> l !! p = Some a -> l !! k = Some b -> compare a b = false.

(** The same except for [i] against its children, which are in order with what is above [i]. *)
Definition hole_at l (s i : nat) : Prop :=
  (forall p k a b, s <= p -> p <> i -> child_of p k ->
     l !! p = Some a -> l !! k = Some b -> compare a b = false)
  /\ (forall p k a b, s <= p -> child_of p i -> child_of i k ->
     l !! p = Some a -> l !! k = Some b -> compare a b = false).

Lemma swap_mid pre l post i j :
  i < length l -> j < length l ->
  swap (pre ++ l ++ post) (length pre + i) (length pre + j) = Done (pre ++ list_swap l i j ++ post).
Proof.
  intros Hi Hj. destruct (lookup_lt_is_Some_2 l i Hi) as [a Ha], (lookup_lt_is_Some_2 l j Hj) as [b Hb].
  unfold swap, list_swap. rewrite (load_mid pre l post i a (length pre + i)), (load_mid pre l post j b (length pre + j)), Ha, Hb by done.
  exec_simpl. rewrite store_Done by (rewrite !length_app; lia). exec_simpl.
  rewrite insert_app_r, insert_app_l by done.
  rewrite store_Done by (rewrite !length_app, length_insert; lia).
  by rewrite insert_app_r, insert_app_l by (by rewrite length_insert).
Qed.

Lemma hole_at_step l s i c x y :
  s <= i -> hole_at l s i -> child_of i c -> l !! i = Some x -> l !! c = Some y ->
  compare x y = true ->
  (forall k z, child_of i k -> l !! k = Some z -> compare y z = false) ->
  hole_at (list_swap l i c) s c.
Proof.
  intros Hs [H1 H2] Hc Hx Hy Hxy Hbest. pose proof (swo_asym _ _ Hxy) as Hyx.
  unfold hole_at, child_of in *. split.
  - intros p k a b Hp Hpc Hk. rewrite !(list_swap_lookup l i c x y) by done. intros Ha Hb.
    repeat case_decide; simplify_eq; try done; try lia;
      first [eapply H1; [..|done|done]; lia | eapply Hbest; [|done]; lia | eapply H2; [..|done|done]; lia].
  - intros p k a b Hp Hpc Hk. rewrite !(list_swap_lookup l i c x y) by done. intros Ha Hb.
    repeat case_decide; simplify_eq; try done; try lia.
    by eapply (H1 c k); [lia|lia|..].
Qed.

(** The child [heap_sift_down] compares with: none of the children is above it. *)
Lemma select_child pre l post i :
  i * 2 + 1 < length l ->
  exists c y, (if (i * 2 + 1 + 1 <? length l)%nat then
                 a ← load (pre ++ l ++ post) (length pre + (i * 2 + 1));
                 b ← load (pre ++ l ++ post) (length pre + (i * 2 + 1) + 1);
                 Done (if compare a b then i * 2 + 1 + 1 else i * 2 + 1)
               else Done (i * 2 + 1)) = Done c
    /\ child_of i c /\ l !! c = Some y
    /\ forall k z, child_of i k -> l !! k = Some z -> compare y z = false.
Proof.
  intros Hlt. unfold child_of. pose proof (swo_irrefl compare) as Hirr.
  destruct (lookup_lt_is_Some_2 l _ Hlt) as [a Ha].
  destruct (Nat.ltb_spec (i * 2 + 1 + 1) (length l)) as [Hlt2|Hge].
  - destruct (lookup_lt_is_Some_2 l _ Hlt2) as [b Hb].
    rewrite (load_mid pre l post _ a (length pre + (i * 2 + 1))),
      (load_mid pre l post (i * 2 + 1 + 1) b (length pre + (i * 2 + 1) + 1)) by (done || lia). exec_simpl.
    destruct (compare a b) eqn:Hab.
    + exists (i * 2 + 1 + 1), b. split_and!; [done|lia|done|]. intros k z Hk Hz.
      assert (k = i * 2 + 1 \/ k = i * 2 + 1 + 1) as [-> | ->] by lia; simplify_eq; [by apply swo_asym|done].
    + exists (i * 2 + 1), a. split_and!; [done|lia|done|]. intros k z Hk Hz.
      by assert (k = i * 2 + 1 \/ k = i * 2 + 1 + 1) as [-> | ->] by lia; simplify_eq.
  - exists (i * 2 + 1), a. split_and!; [done|lia|done|]. intros k z Hk Hz.
    pose proof (lookup_lt_Some _ _ _ Hz). assert (k = i * 2 + 1) as -> by lia. by simplify_eq.
Qed.

Lemma sift_down_spec pre l post s i :
  s <= i -> i <= length l -> hole_at l s i ->
  exists l', heap_sift_down compare (pre ++ l ++ post) (length pre) i (length l) = Done (pre ++ l' ++ post)
    /\ Permutation l l' /\ heap_from l' s.
Proof.
  intros Hs Hi Hhole. unfold heap_sift_down.
  assert (Hf : length l < i + S (length l)) by lia. revert Hf.
  generalize (S (length l)) as n. intros n. revert l i Hs Hi Hhole.
  induction n as [|n IH]; intros l i Hs Hi Hhole Hf; [lia|]. cbn [while_loop].
  destruct (decide (i * 2 + 1 < length l)) as [Hlt|Hge]; cycle 1.
  { assert (((1 <? length l)%nat && (0 <=? i)%nat && (i <=? (length l - 2) / 2)%nat) = false) as ->.
    { apply not_true_iff_false. rewrite !andb_true_iff, Nat.ltb_lt, !Nat.leb_le. intros [[? _] HH].
      pose proof (Nat.Div0.mul_div_le (length l - 2) 2). lia. }
    exists l. split_and!; [done|done|]. intros p k a b Hp Hk Ha Hb.
    apply (proj1 Hhole p k); try done. pose proof (lookup_lt_Some _ _ _ Hb). unfold child_of in Hk. lia. }
  assert (((1 <? length l)%nat && (0 <=? i)%nat && (i <=? (length l - 2) / 2)%nat) = true) as ->.
  { rewrite !andb_true_iff, Nat.ltb_lt, !Nat.leb_le. split_and!; [lia..|].
    apply Nat.div_le_lower_bound; lia. }
  cbv zeta. destruct (select_child pre l post i Hlt) as (c & y & -> & Hc & Hy & Hbest). exec_simpl.
  destruct (lookup_lt_is_Some_2 l i) as [x Hx]; [lia|].
  rewrite (load_mid pre l post i x (length pre + i)), (load_mid pre l post c y (length pre + c)) by done. exec_simpl.
  pose proof (lookup_lt_Some _ _ _ Hy).
  destruct (compare x y) eqn:Hxy; cbn [negb].
  - rewrite swap_mid by (done || lia). exec_simpl. unfold child_of in Hc.
    destruct (IH (list_swap l i c) c) as (l' & Hr & Hperm & Hheap);
      rewrite ?length_list_swap in *; [lia|lia|by eapply hole_at_step|lia|].
    exists l'. split_and!; [done| |done]. by rewrite <-Hperm, list_swap_Permutation.
  - exists l. split_and!; [done|done|]. intros p k a b Hp Hk Ha Hb.
    destruct (decide (p = i)) as [->|Hne]; [|by eapply (proj1 Hhole p k)].
    simplify_eq. eapply swo_negtrans; [by eapply Hbest|done].
Qed.

Lemma build_heap_spec pre l post start :
  start <= length l / 2 -> heap_from l start ->
  exists l', build_heap compare (pre ++ l ++ post) (length pre) (length l) start = Done (pre ++ l' ++ post)
    /\ Permutation l l' /\ heap_from l' 0.
Proof.
  revert l. induction start as [|start IH]; intros l Hle Hheap; [by exists l|].
  cbn [build_heap]. rewrite Nat.sub_succ, Nat.sub_0_r.
  assert (length l / 2 <= length l) by (apply Nat.Div0.div_le_upper_bound; lia).
  destruct (sift_down_spec pre l post start start) as (l1 & -> & Hp1 & Hh1); [done|lia| |].
  { unfold hole_at, child_of. split; [|intros; lia]. intros p k a b Hp Hne. apply Hheap. lia. }
  exec_simpl. rewrite (Permutation_length Hp1) in *.
  destruct (IH l1) as (l' & -> & Hp' & Hh'); [lia|done|].
  exists l'. split_and!; [done|by rewrite Hp1|done].
Qed.

Lemma heap_max l x k y : heap_from l 0 -> l !! 0 = Some x -> l !! k = Some y -> compare x y = false.
Proof.
  intros Hh Hx. revert y. induction (lt_wf k) as [k _ IH]. intros y Hy.
  destruct (decide (k = 0)) as [->|Hk]; [simplify_eq; by apply (swo_irrefl compare)|].
  assert (Hc : child_of ((k - 1) / 2) k).
  { unfold child_of. pose proof (Nat.div_mod_eq (k - 1) 2). pose proof (Nat.mod_upper_bound (k - 1) 2). lia. }
  destruct (lookup_lt_is_Some_2 l ((k - 1) / 2)) as [z Hz].
  { apply lookup_lt_Some in Hy. unfold child_of in Hc. lia. }
  eapply swo_negtrans; [by eapply Hh; [|exact Hc|..]; [lia|..]|]. eapply IH; [|done]. unfold child_of in Hc. lia.
Qed.

(** [a] may precede [b]. *)
Definition ordered (a b : T) : Prop := compare b a = false.

Lemma sorted_snoc l x : StronglySorted ordered l -> Forall (fun a => ordered a x) l -> StronglySorted ordered (l ++ [x]).
Proof.
  induction 1 as [|a l Hl IH Ha]; intros Hx; cbn [app]; [by repeat constructor|].
  apply Forall_cons in Hx as [Hax Hx]. constructor; [by apply IH|].
  apply Forall_app. split; [done|]. by constructor.
Qed.

Lemma extract_all_spec pre l post :
  heap_from l 0 ->
  exists l', extract_all compare (pre ++ l ++ post) (length pre) (length l) = Done (pre ++ l' ++ post)
    /\ Permutation l l' /\ StronglySorted ordered l'.
Proof.
  remember (length l) as n eqn:Hn. revert l post Hn. induction n as [|n IH]; intros l post Hn Hh.
  { destruct l; [|done]. exists []. by repeat constructor. }
  cbn [extract_all]. destruct (Nat.ltb_spec 1 (S n)) as [Hlt|Hge]; cycle 1.
  { destruct l as [|x [|z l]]; cbn in Hn; try lia. exists [x]. by repeat constructor. }
  destruct l as [|x l0]; [done|]. destruct l0 as [|z l0 _] using rev_ind; [cbn in Hn; lia|].
  assert (E : n = S (length l0)) by (cbn in Hn; rewrite length_app in Hn; cbn in Hn; lia).
  replace (length pre + S n - 1) with (length pre + n) by lia. rewrite Nat.sub_succ, Nat.sub_0_r.
  pose proof (swap_mid pre (x :: l0 ++ [z]) post 0 n) as Hswap. rewrite Nat.add_0_r in Hswap.
  rewrite Hswap by (cbn; rewrite ?length_app; cbn; lia). exec_simpl.
  assert (list_swap (x :: l0 ++ [z]) 0 n = (z :: l0) ++ [x]) as ->.
  { unfold list_swap. rewrite E. change ((x :: l0 ++ [z]) !! S (length l0)) with ((l0 ++ [z]) !! length l0).
    rewrite list_lookup_middle by done. change (z :: <[length l0 := x]> (l0 ++ [z]) = z :: l0 ++ [x]).
    f_equal. rewrite <-(Nat.add_0_r (length l0)). by rewrite insert_app_r. }
  rewrite <-app_assoc. cbn [app].
  assert (Hsub : forall k y, (z :: l0) !! S k = Some y -> (x :: l0 ++ [z]) !! S k = Some y).
  { intros k y Hk. cbn in *. by apply lookup_app_l_Some. }
  destruct (sift_down_spec pre (z :: l0) (x :: post) 0 0) as (l1 & Hr & Hp1 & Hh1); [lia|cbn; lia| |].
  { unfold hole_at, child_of. split; [|intros; lia]. intros [|p] [|k] a b _ Hne Hk Ha Hb; try lia.
    eapply (Hh (S p) (S k)); [lia|unfold child_of; lia|by apply Hsub..]. }
  replace (length (z :: l0)) with n in Hr by (cbn; lia). cbn [app] in Hr. rewrite Hr. exec_simpl.
  assert (Hx : Forall (fun a => ordered a x) (x :: l0 ++ [z])).
  { apply Forall_lookup_2. intros k y Hk. by apply (heap_max (x :: l0 ++ [z]) x k y). }
  destruct (IH l1 (x :: post)) as (l2 & -> & Hp2 & Hs2); [apply Permutation_length in Hp1; cbn in Hp1; lia|done|].
  assert (Hperm : Permutation (x :: l0 ++ [z]) (l2 ++ [x])).
  { rewrite <-Hp2, <-Hp1. cbn. rewrite (Permutation_app_comm l0 [z]). cbn. rewrite (Permutation_app_comm l0 [x]). cbn.
    apply perm_swap. }
  exists (l2 ++ [x]). rewrite <-app_assoc. split_and!; [done|done|].
  apply sorted_snoc; [done|]. rewrite Hperm in Hx. by apply Forall_app in Hx as [? _].
Qed.
End SortCorrect.

(** ** Binary search *)

Section SearchCorrect.
Context {T : Type}.
Implicit Types (m l a b : list T).

Lemma bound_loop_spec m first a b (goes_right : T -> bool) :
  holds m first (a ++ b) ->
  Forall (fun v => goes_right v = true) a -> Forall (fun v => goes_right v = false) b ->
  bound_loop m first (first + length (a ++ b)) goes_right = Done (first + length a).
Proof.
  intros Hl Ha Hb. unfold bound_loop. rewrite Nat.add_sub'.
  assert (Hn : 1 <= Nat.log2 (length (a ++ b)) + 2
               /\ length (a ++ b) < 2 ^ (Nat.log2 (length (a ++ b)) + 2 - 1)).
  { split; [lia|]. replace (_ + 2 - 1) with (S (Nat.log2 (length (a ++ b)))) by lia.
    destruct (decide (length (a ++ b) = 0)) as [->|Hz]; [cbn; lia|]. apply Nat.log2_spec. lia. }
  revert Hn. generalize (Nat.log2 (length (a ++ b)) + 2) as n. intros n [Hn1 Hn2].
  revert first a b Hl Ha Hb Hn1 Hn2. induction n as [|n IH]; intros first a b Hl Ha Hb Hn1 Hn2; [lia|].
  cbn [while_loop]. destruct (Nat.ltb_spec 0 (length (a ++ b))) as [Hpos|Hz]; cycle 1.
  { rewrite length_app in Hz. cbn [after]. do 2 f_equal. lia. }
  set (len := length (a ++ b)) in *. set (half := len / 2).
  assert (Hhalf : 2 * half <= len /\ len < 2 * half + 2).
  { unfold half. pose proof (Nat.div_mod_eq len 2). pose proof (Nat.mod_upper_bound len 2). lia. }
  assert (Hn : 1 <= n).
  { destruct n; [cbn in Hn2; lia|lia]. }
  assert (Hpow : 2 ^ (S n - 1) = 2 * 2 ^ (n - 1)).
  { replace (S n - 1) with (S (n - 1)) by lia. done. }
  destruct (lookup_lt_is_Some_2 (a ++ b) half) as [v Hv]; [lia|].
  rewrite (load_Done _ _ v) by (by apply Hl). exec_simpl. unfold len in *. rewrite length_app in *.
  destruct (goes_right v) eqn:Hg.
  - assert (Hlt : half < length a).
    { apply lookup_app_Some in Hv as [Hv|[_ Hv]]; [by eapply lookup_lt_Some|].
      rewrite Forall_lookup in Hb. rewrite (Hb _ _ Hv) in Hg. done. }
    replace (length a + length b - (half + 1)) with (length (drop (half + 1) a ++ b))
      by (rewrite length_app, length_drop; lia).
    rewrite IH.
    + rewrite length_drop. f_equal. lia.
    + rewrite <-(take_drop (half + 1) a), <-app_assoc in Hl. apply holds_app in Hl as [_ Hl].
      rewrite length_take, Nat.min_l in Hl by lia. by rewrite Nat.add_assoc in Hl.
    + by apply Forall_drop.
    + done.
    + lia.
    + rewrite length_app, length_drop. lia.
  - assert (Hge : length a <= half).
    { apply lookup_app_Some in Hv as [Hv|[? _]]; [|done].
      rewrite Forall_lookup in Ha. rewrite (Ha _ _ Hv) in Hg. done. }
    assert (E : half = length (a ++ take (half - length a) b)) by (rewrite length_app, length_take; lia).
    rewrite E. apply IH.
    + rewrite <-(take_drop (half - length a) b), app_assoc in Hl. by apply holds_app in Hl as [Hl _].
    + done.
    + by apply Forall_take.
    + lia.
    + rewrite length_app, length_take. lia.
Qed.

Context (compare : T -> T -> bool) `{!StrictWeakOrder compare}.

(** A sorted range is split in two by a predicate that is closed downwards. *)
Lemma sorted_partition l (g : T -> bool) :
  StronglySorted (ordered compare) l ->
  (forall u v, ordered compare u v -> g v = true -> g u = true) ->
  exists a b, l = a ++ b /\ Forall (fun v => g v = true) a /\ Forall (fun v => g v = false) b.
Proof.
  intros Hs Hg. induction Hs as [|v l Hl IH Hv]; [by exists [], []|]. destruct (g v) eqn:E.
  - destruct IH as (a & b & -> & Ha & Hb). exists (v :: a), b. split_and!; [done|by constructor|done].
  - exists [], (v :: l). split_and!; [done|done|]. constructor; [done|].
    eapply Forall_impl; [exact Hv|]. intros w Hw. destruct (g w) eqn:Ew; [|done]. by rewrite (Hg v w) in E.
Qed.

(** The first index at which a downward closed predicate fails on a sorted range. *)
Lemma bound_sorted m first l (g : T -> bool) :
  holds m first l -> StronglySorted (ordered compare) l ->
  (forall u v, ordered compare u v -> g v = true -> g u = true) ->
  exists k, bound_loop m first (first + length l) g = Done (first + k) /\ k <= length l
    /\ forall i v, l !! i = Some v -> (i < k <-> g v = true).
Proof.
  intros Hl Hs Hg. destruct (sorted_partition l g Hs Hg) as (a & b & -> & Ha & Hb).
  exists (length a). split; [by apply bound_loop_spec|]. split; [rewrite length_app; lia|].
  rewrite Forall_lookup in Ha, Hb.
  intros i v [Hv|[Hge Hv]]%lookup_app_Some.
  - split; [intros _; by eapply Ha|]. intros _. by eapply lookup_lt_Some.
  - split; [lia|]. intros E. by rewrite (Hb _ _ Hv) in E.
Qed.

Lemma lower_bound_spec m first l x :
  holds m first l -> StronglySorted (ordered compare) l ->
  exists lo, lower_bound compare m first (first + length l) x = Done (first + lo) /\ lo <= length l
    /\ forall i v, l !! i = Some v -> (i < lo <-> compare v x = true).
Proof.
  intros Hl Hs. apply bound_sorted; [done..|]. intros u v Huv Hv.
  destruct (compare u x) eqn:E; [done|]. by rewrite (swo_negtrans _ _ _ E Huv) in Hv.
Qed.

Lemma upper_bound_spec m first l x :
  holds m first l -> StronglySorted (ordered compare) l ->
  exists hi, upper_bound compare m first (first + length l) x = Done (first + hi) /\ hi <= length l
    /\ forall i v, l !! i = Some v -> (i < hi <-> compare x v = false).
Proof.
  intros Hl Hs.
  destruct (bound_sorted m first l (fun v => negb (compare x v))) as (hi & Hr & Hle & Hi); [done..| |].
  { intros u v Huv Hv%negb_true_iff. apply negb_true_iff. by eapply swo_negtrans. }
  exists hi. split_and!; [done..|]. intros i v Hv. by rewrite (Hi i v Hv), negb_true_iff.
Qed.

Lemma binary_search_spec m first l x :
  holds m first l -> StronglySorted (ordered compare) l ->
  exists r, binary_search compare compare m first (first + length l) x = Done r
    /\ (r = true <-> exists v, v ∈ l /\ compare v x = false /\ compare x v = false).
Proof.
  intros Hl Hs. destruct (lower_bound_spec m first l x Hl Hs) as (lo & Hlo & Hle & Hi).
  unfold binary_search. rewrite Hlo. exec_simpl.
  destruct (Nat.eqb_spec (first + lo) (first + length l)) as [E|E]; cbn [negb].
  - exists false. split; [done|]. split; [done|]. intros (v & [i Hv]%list_elem_of_lookup & H1 & _).
    pose proof (lookup_lt_Some _ _ _ Hv). rewrite (proj1 (Hi i v Hv)) in H1 by lia. done.
  - destruct (lookup_lt_is_Some_2 l lo) as [w Hw]; [lia|].
    rewrite (load_Done _ _ w) by (by apply Hl). exec_simpl. exists (negb (compare x w)). split; [done|].
    assert (Hw1 : compare w x = false).
    { destruct (compare w x) eqn:Ew; [|done]. apply (Hi lo w Hw) in Ew. lia. }
    rewrite negb_true_iff. split.
    + intros Hw2. exists w. split_and!; [by eapply list_elem_of_lookup_2|done..].
    + intros (v & [i Hv]%list_elem_of_lookup & H1 & H2).
      destruct (decide (i < lo)) as [Hlt|Hge]; [by rewrite (proj1 (Hi i v Hv) Hlt) in H1|].
      destruct (decide (i = lo)) as [->|Hne]; [by simplify_eq|].
      eapply swo_negtrans; [|exact H2]. eapply (StronglySorted_app_1_elem_of (ordered compare) (take (S lo) l) (drop (S lo) l)).
      * by rewrite take_drop.
      * apply list_elem_of_lookup_2 with lo. rewrite lookup_take_lt by lia. done.
      * apply list_elem_of_lookup_2 with (i - S lo). rewrite lookup_drop.
        by replace (S lo + (i - S lo)) with i by lia.
Qed.
End SearchCorrect.

(** ** The theorems *)

(** C31. [sort] terminates without leaving the range, permutes it, and leaves it in
    order for any strict weak order; the memory before and after the range is
    unchanged. *)
Theorem algorithm_sort_sorts {T} (compare : T -> T -> bool) (pre l post : list T) :
  StrictWeakOrder compare ->
  exists l', sort compare (pre ++ l ++ post) (length pre) (length pre + length l) = Done (pre ++ l' ++ post)
    /\ Permutation l l' /\ StronglySorted (ordered compare) l'.
Proof.
  intros Hc. unfold sort. rewrite Nat.add_sub'. destruct (Nat.leb_spec (length l) 1) as [Hle|Hgt].
  { exists l. split_and!; [done..|]. destruct l as [|x [|y l]]; cbn in *; [..|lia]; by repeat constructor. }
  destruct (build_heap_spec compare pre l post (length l / 2)) as (l1 & -> & Hp1 & Hh1); [done| |].
  { intros p k a b Hp Hk _ Hb. apply lookup_lt_Some in Hb. unfold child_of in Hk.
    pose proof (Nat.div_mod_eq (length l) 2). pose proof (Nat.mod_upper_bound (length l) 2). lia. }
  exec_simpl. rewrite (Permutation_length Hp1).
  destruct (extract_all_spec compare pre l1 post Hh1) as (l' & -> & Hp' & Hs).
  exists l'. split_and!; [done|by rewrite Hp1|done].
Qed.

Lemma algorithm_sort_sorts_witness :
  exists l', sort Z.ltb ([9] ++ [3; 1; 2] ++ [0])%Z 1 4 = Done ([9] ++ l' ++ [0])%Z
    /\ Permutation [3; 1; 2]%Z l' /\ StronglySorted (ordered Z.ltb) l'.
Proof. exact (algorithm_sort_sorts Z.ltb [9]%Z [3; 1; 2]%Z [0]%Z Z_lt_swo). Defined.

Example sort_evaluates : sort Z.ltb [9; 3; 1; 2; 1; 0]%Z 1 5 = Done [9; 1; 1; 2; 3; 0]%Z.
Proof. reflexivity. Qed.

(** On a sorted range the binary searches reach, in logarithmically many steps
    (their fuel is [log2] of its length), what a linear scan would find: [lower_bound]
    the first element that is not below the value, [upper_bound] the first one above
    it, and [binary_search] tells whether some element is equivalent to it. *)
Theorem algorithm_search_exact {T} (compare : T -> T -> bool) (m : list T) first l x :
  StrictWeakOrder compare -> holds m first l -> StronglySorted (ordered compare) l ->
  exists lo hi r,
    lower_bound compare m first (first + length l) x = Done (first + lo)
    /\ upper_bound compare m first (first + length l) x = Done (first + hi)
    /\ binary_search compare compare m first (first + length l) x = Done r
    /\ lo <= length l /\ hi <= length l
    /\ (forall i v, l !! i = Some v -> (i < lo <-> compare v x = true))
    /\ (forall i v, l !! i = Some v -> (i < hi <-> compare x v = false))
    /\ (r = true <-> exists v, v ∈ l /\ compare v x = false /\ compare x v = false).
Proof.
  intros Hc Hl Hs.
  destruct (lower_bound_spec compare m first l x Hl Hs) as (lo & H1 & H2 & H3).
  destruct (upper_bound_spec compare m first l x Hl Hs) as (hi & H4 & H5 & H6).
  destruct (binary_search_spec compare m first l x Hl Hs) as (r & H7 & H8).
  by exists lo, hi, r.
Qed.

Lemma algorithm_search_exact_witness :
  exists lo hi r,
    lower_bound Z.ltb [1; 3; 3; 8]%Z 0 4 3%Z = Done (0 + lo)
    /\ upper_bound Z.ltb [1; 3; 3; 8]%Z 0 4 3%Z = Done (0 + hi)
    /\ binary_search Z.ltb Z.ltb [1; 3; 3; 8]%Z 0 4 3%Z = Done r /\ lo = 1 /\ hi = 3 /\ r = true.
Proof.
  assert (Hs : StronglySorted (ordered Z.ltb) [1; 3; 3; 8]%Z) by (repeat constructor).
  destruct (algorithm_search_exact Z.ltb [1; 3; 3; 8]%Z 0 [1; 3; 3; 8]%Z 3%Z Z_lt_swo
    (fun i v H => H) Hs) as (lo & hi & r & H1 & H2 & H3 & _).
  exists lo, hi, r. split_and!; [exact H1|exact H2|exact H3|..].
  - by injection H1.
  - by injection H2.
  - by injection H3.
Defined.
