(* ===== verification/HashTable.v ===== *)
(** * The open-addressing hash table (castle/container/hash_table.hpp) and the
    set adaptor over a bounded map (castle/container/hash_set.hpp)

    A table is its size, the array of slot states and the array of slots; a
    slot is [Some entry] while an object lives in it.  Reading or destroying a
    dead slot and constructing over a live one are [Undefined]. *)

From S2P Require Import Prelude Status Interfaces.

(** The [uint8_t] constants [empty_state], [occupied_state], [deleted_state]. *)
Inductive slot_state : Type := empty_state | occupied_state | deleted_state.
#[export] Instance slot_state_eq_dec : EqDecision slot_state.
Proof. solve_decision. Defined.

Section HashTable.
Context {K V : Type} (N : nat) (hash_ : K -> nat) (equal_ : K -> K -> bool).

Record hash_table : Type := mk_table {
  size_ : nat;
  states_ : list slot_state;
  slots_ : list (option (K * V))
}.

Definition init : hash_table :=
  mk_table 0 (replicate N empty_state) (replicate N None).

Definition size (t : hash_table) : nat := size_ t.
Definition available (t : hash_table) : nat := N - size_ t.
Definition empty (t : hash_table) : bool := (size_ t =? 0)%nat.
Definition full (t : hash_table) : bool := (size_ t =? N)%nat.

Definition entry_ptr (t : hash_table) (index : nat) : exec (K * V) :=
  match slots_ t !! index with Some (Some e) => Done e | _ => Undefined end.

(** [construct_at] in slot [index], [states_[index] = occupied_state], [++size_]. *)
Definition occupy (t : hash_table) (index : nat) (key : K) (value : V) : exec hash_table :=
  match slots_ t !! index with
  | Some None =>
      st ← store (states_ t) index occupied_state;
      Done (mk_table (size_ t + 1) st (<[index := Some (key, value)]> (slots_ t)))
  | _ => Undefined
  end.

Definition bucket (key : K) : nat := hash_ key mod N.

(** The body of the probing loop of [find_index]. *)
Definition find_body (t : hash_table) (key : K) (start step : nat) (_ : unit)
    : exec (ctl nat unit) :=
  let index := (start + step) mod N in
  s ← load (states_ t) index;
  match s with
  | empty_state => Done (Return N)
  | occupied_state =>
      e ← entry_ptr t index;
      if equal_ (fst e) key then Done (Return index) else Done (Next tt)
  | deleted_state => Done (Next tt)
  end.

Definition find_index (t : hash_table) (key : K) : exec nat :=
  r ← for_range 0 N (find_body t key (bucket key)) tt;
  match r with
  | Return i => Done i
  | Next _ => Done N
  end.

(** The body of the loop of [insert_value]; the loop state is [first_deleted]. *)
Definition insert_body (t : hash_table) (key : K) (value : V) (start step : nat)
    (first_deleted : nat) : exec (ctl (status * hash_table) nat) :=
  let index := (start + step) mod N in
  s ← load (states_ t) index;
  match s with
  | occupied_state =>
      e ← entry_ptr t index;
      if equal_ (fst e) key then Done (Return (s_already_exists, t))
      else Done (Next first_deleted)
  | deleted_state =>
      Done (Next (if (first_deleted =? N)%nat then index else first_deleted))
  | empty_state =>
      let target := if (first_deleted =? N)%nat then index else first_deleted in
      t' ← occupy t target key value; Done (Return (s_ok, t'))
  end.

Definition insert_value (t : hash_table) (key : K) (value : V) : exec (status * hash_table) :=
  r ← for_range 0 N (insert_body t key value (bucket key)) N;
  match r with
  | Return x => Done x
  | Next first_deleted =>
      if negb (first_deleted =? N)%nat
      then t' ← occupy t first_deleted key value; Done (s_ok, t')
      else Done (s_full, t)
  end.

Definition insert (t : hash_table) (key : K) (value : V) : exec (status * hash_table) :=
  insert_value t key value.

Definition emplace (t : hash_table) (key : K) (value : V) : exec (status * hash_table) :=
  i ← find_index t key;
  if negb (i =? N)%nat then Done (s_already_exists, t) else insert_value t key value.

Definition insert_or_assign (t : hash_table) (key : K) (value : V)
    : exec (status * hash_table) :=
  existing ← find_index t key;
  if negb (existing =? N)%nat then
    e ← entry_ptr t existing;
    Done (s_ok, mk_table (size_ t) (states_ t) (<[existing := Some (fst e, value)]> (slots_ t)))
  else insert t key value.

Definition contains (t : hash_table) (key : K) : exec bool :=
  i ← find_index t key; Done (negb (i =? N)%nat).

(** [get]: the mapped value, [None] for [nullptr]. *)
Definition get (t : hash_table) (key : K) : exec (option V) :=
  i ← find_index t key;
  if (i =? N)%nat then Done None else e ← entry_ptr t i; Done (Some (snd e)).

Definition erase (t : hash_table) (key : K) : exec (status * hash_table) :=
  index ← find_index t key;
  if (index =? N)%nat then Done (s_not_found, t)
  else
    _ ← entry_ptr t index;
    st ← store (states_ t) index deleted_state;
    Done (s_ok, mk_table (size_ t - 1) st (<[index := None]> (slots_ t))).

Definition clear_body (i : nat) (t : hash_table) : exec (ctl unit hash_table) :=
  s ← load (states_ t) i;
  sl ← (if decide (s = occupied_state)
        then _ ← entry_ptr t i; Done (<[i := None]> (slots_ t))
        else Done (slots_ t));
  st ← store (states_ t) i empty_state;
  Done (Next (mk_table (size_ t) st sl)).

Definition clear (t : hash_table) : exec hash_table :=
  r ← for_range 0 N clear_body t;
  match r with
  | Next t' => Done (mk_table 0 (states_ t') (slots_ t'))
  | Return _ => Undefined
  end.

(** [first_occupied], the position of [begin()]. *)
Definition first_occupied (t : hash_table) : exec nat :=
  r ← for_range 0 N (fun i (_ : unit) =>
        s ← load (states_ t) i;
        if decide (s = occupied_state) then Done (Return i) else Done (Next tt)) tt;
  match r with Return i => Done i | Next _ => Done N end.

(** [advance_index], the increment of an iterator. *)
Definition advance_index (t : hash_table) (index : nat) : exec nat :=
  if (N <=? index)%nat then Done index
  else
    r ← for_range (index + 1) (N - (index + 1)) (fun i (_ : unit) =>
          s ← load (states_ t) i;
          if decide (s = occupied_state) then Done (Return i) else Done (Next tt)) tt;
    match r with Return i => Done i | Next _ => Done N end.

(** The entries a loop from [begin()] to [end()] visits. *)
Fixpoint iterate_from (fuel : nat) (t : hash_table) (index : nat) : exec (list (K * V)) :=
  match fuel with
  | 0 => Undefined
  | S fuel' =>
      if (index =? N)%nat then Done []
      else e ← entry_ptr t index;
           next ← advance_index t index;
           rest ← iterate_from fuel' t next;
           Done (e :: rest)
  end.
Definition iterate (t : hash_table) : exec (list (K * V)) :=
  i ← first_occupied t; iterate_from (S N) t i.

(** The constructor from an [initializer_list]. *)
Fixpoint init_list_loop (l : list (K * V)) (t : hash_table) : exec hash_table :=
  match l with
  | [] => Done t
  | e :: l' =>
      if full t then Done t
      else r ← insert t (fst e) (snd e); init_list_loop l' (snd r)
  end.
Definition init_list (l : list (K * V)) : exec hash_table := init_list_loop l init.

End HashTable.
Arguments hash_table : clear implicits.

(** ** Counting occupied slots *)

Definition occupied (l : list slot_state) : nat :=
  length (filter (fun s => s = occupied_state) l).
Definition occ1 (s : slot_state) : nat := if decide (s = occupied_state) then 1 else 0.

Lemma occupied_insert l i s s' :
  l !! i = Some s -> occupied (<[i := s']> l) + occ1 s = occupied l + occ1 s'.
Proof.
  unfold occupied, occ1. revert i. induction l as [|x l IH]; intros i Hi; [done|].
  destruct i as [|i]; simpl in *.
  - simplify_eq. rewrite !filter_cons. repeat case_decide; simpl; lia.
  - specialize (IH i Hi). rewrite !filter_cons.
    repeat case_decide; simpl in *; lia.
Qed.

Lemma occupied_le l : occupied l <= length l.
Proof. apply length_filter. Qed.

Lemma occupied_all l : occupied l = length l <-> Forall (fun s => s = occupied_state) l.
Proof.
  unfold occupied. induction l as [|x l IH]; [by split|].
  pose proof (occupied_le l) as Hle. unfold occupied in Hle.
  rewrite Forall_cons, filter_cons. case_decide; simpl; [|split; intros; [lia|tauto]].
  rewrite <-IH. split; intros; [split; [done|lia]|lia].
Qed.

(** ** Representation of a finite map *)

Section Spec.
Context {K V : Type} `{Countable K} (N : nat) (hash_ : K -> nat) (equal_ : K -> K -> bool).
Context (equal_spec : forall a b, equal_ a b = bool_decide (a = b)).
Context (N_pos : 0 < N).

Local Abbreviation table := (hash_table K V).

Record repr (t : table) (m : gmap K V) : Prop := {
  r_states : length (states_ t) = N;
  r_slots : length (slots_ t) = N;
  (** live slots are the occupied ones *)
  r_live : forall i, states_ t !! i = Some occupied_state <-> exists e, slots_ t !! i = Some (Some e);
  (** they hold exactly the entries of the map, each once *)
  r_map : forall k v, m !! k = Some v <-> exists i, slots_ t !! i = Some (Some (k, v));
  r_uniq : forall i j k v w, slots_ t !! i = Some (Some (k, v)) ->
    slots_ t !! j = Some (Some (k, w)) -> i = j;
  (** no empty slot lies between a key's bucket and its slot *)
  r_probe : forall k v s, s < N ->
    slots_ t !! ((bucket N hash_ k + s) mod N) = Some (Some (k, v)) ->
    forall s', s' < s -> states_ t !! ((bucket N hash_ k + s') mod N) <> Some empty_state;
  r_count : size_ t = occupied (states_ t);
  r_size : size_ t = base.size m
}.

Lemma table_repr_init : repr (init N) ∅.
Proof.
  split; simpl; rewrite ?length_replicate; try done.
  - intros i. split.
    + intros E. apply lookup_replicate in E as [? ?]. done.
    + intros [e E]. apply lookup_replicate in E as [? ?]. done.
  - intros k v. split; [by rewrite lookup_empty|].
    intros [i E]. apply lookup_replicate in E as [? ?]. done.
  - intros i j k v w E. apply lookup_replicate in E as [? ?]. done.
  - intros k v s Hs E. apply lookup_replicate in E as [? ?]. done.
  - clear. induction N as [|n IH]; [done|]. unfold occupied in *. simpl.
    rewrite filter_cons. case_decide; done.
Qed.

Lemma state_at t m i :
  repr t m -> exists s, states_ t !! (i mod N) = Some s /\ load (states_ t) (i mod N) = Done s.
Proof.
  intros Hr. destruct (lookup_lt_is_Some_2 (states_ t) (i mod N)) as [s Hs].
  { rewrite (r_states _ _ Hr). apply Nat.mod_upper_bound. lia. }
  exists s. split; [done|]. by apply load_Done.
Qed.

Lemma bucket_lt k : bucket N hash_ k < N.
Proof. apply Nat.mod_upper_bound. lia. Qed.

(** Where the probing sequence of a present key meets it. *)
Lemma present_step t m k v :
  repr t m -> m !! k = Some v ->
  exists s, s < N /\ slots_ t !! ((bucket N hash_ k + s) mod N) = Some (Some (k, v))
    /\ forall s', s' < s -> states_ t !! ((bucket N hash_ k + s') mod N) <> Some empty_state
        /\ forall w, slots_ t !! ((bucket N hash_ k + s') mod N) <> Some (Some (k, w)).
Proof.
  intros Hr Hm. apply (r_map _ _ Hr) in Hm as [i Hi].
  destruct (mod_window_surj N (bucket N hash_ k) i) as (s & Hs & E).
  { rewrite <-(r_slots _ _ Hr). by eapply lookup_lt_Some. }
  { apply bucket_lt. }
  exists s. rewrite E. split_and!; [done|done|]. intros s' Hlt. split.
  - by eapply (r_probe _ _ Hr k v s Hs); [rewrite E|].
  - intros w Hw. pose proof (r_uniq _ _ Hr _ _ _ _ _ Hi Hw) as E'. rewrite <-E in E'.
    apply mod_window_inj in E'; lia.
Qed.

Lemma entry_at t m i :
  repr t m -> states_ t !! i = Some occupied_state ->
  exists k v, slots_ t !! i = Some (Some (k, v)) /\ entry_ptr t i = Done (k, v) /\ m !! k = Some v.
Proof.
  intros Hr Hs. apply (r_live _ _ Hr) in Hs as [[k v] He]. exists k, v.
  unfold entry_ptr. rewrite He. split_and!; [done|done|]. apply (r_map _ _ Hr). by exists i.
Qed.

(** A probe that is neither empty nor the key moves on. *)
Lemma find_body_next t m k step :
  repr t m ->
  states_ t !! ((bucket N hash_ k + step) mod N) <> Some empty_state ->
  (forall w, slots_ t !! ((bucket N hash_ k + step) mod N) <> Some (Some (k, w))) ->
  find_body N equal_ t k (bucket N hash_ k) step tt = Done (Next tt).
Proof.
  intros Hr Hne Hnk. unfold find_body.
  destruct (state_at t m (bucket N hash_ k + step) Hr) as (s & Hs & ->). exec_simpl.
  destruct s; [congruence| |done].
  destruct (entry_at _ _ _ Hr Hs) as (k' & v' & Hsl & -> & _). exec_simpl. simpl.
  rewrite equal_spec. case_bool_decide; [|done]. subst k'. by destruct (Hnk v').
Qed.

Lemma find_index_present t m k v :
  repr t m -> m !! k = Some v ->
  exists i, find_index N hash_ equal_ t k = Done i /\ i < N
    /\ slots_ t !! i = Some (Some (k, v)) /\ states_ t !! i = Some occupied_state.
Proof.
  intros Hr Hm. destruct (present_step t m k v Hr Hm) as (s & Hs & Hsl & Hbefore).
  assert (Hst : states_ t !! ((bucket N hash_ k + s) mod N) = Some occupied_state)
    by (apply (r_live _ _ Hr); eauto).
  exists ((bucket N hash_ k + s) mod N). unfold find_index.
  destruct (for_range_return (fun _ _ => True) (find_body N equal_ t k (bucket N hash_ k)) N s tt)
    as ([] & _ & ->); [done|done| |].
  - intros i [] Hi _. exists tt. split; [|done]. destruct (Hbefore i Hi). by eapply find_body_next.
  - unfold find_body at 1. rewrite (load_Done _ _ _ Hst). exec_simpl.
    unfold entry_ptr. rewrite Hsl. exec_simpl. simpl.
    rewrite equal_spec, bool_decide_true by done. split_and!; try done.
    apply Nat.mod_upper_bound. lia.
Qed.

(** Absent keys: no slot holds the key, and the loop falls through. *)
Lemma absent_slot t m k i w :
  repr t m -> m !! k = None -> slots_ t !! i <> Some (Some (k, w)).
Proof.
  intros Hr Hm Hi. assert (m !! k = Some w) by (apply (r_map _ _ Hr); eauto). congruence.
Qed.

Lemma find_index_absent t m k :
  repr t m -> m !! k = None -> find_index N hash_ equal_ t k = Done N.
Proof.
  intros Hr Hm. unfold find_index.
  assert (Hloop : forall start count,
    for_range start count (find_body N equal_ t k (bucket N hash_ k)) tt = Done (Next tt)
    \/ for_range start count (find_body N equal_ t k (bucket N hash_ k)) tt = Done (Return N)).
  { intros start count. revert start. induction count as [|n IH]; intros start; [by left|].
    simpl. destruct (state_at t m (bucket N hash_ k + start) Hr) as (s & Hs & Hl).
    destruct (decide (s = empty_state)) as [->|Hne].
    - unfold find_body at 1 3. rewrite Hl. exec_simpl. by right.
    - rewrite (find_body_next t m k start Hr); [apply IH|congruence|].
      intros w. by eapply absent_slot. }
  by destruct (Hloop 0 N) as [-> | ->].
Qed.

(** The slot [occupy] is given: dead, and reachable without crossing an empty
    slot. *)
Definition free_target (t : table) (k : K) (i : nat) : Prop :=
  exists s, s < N /\ i = (bucket N hash_ k + s) mod N
    /\ states_ t !! i <> Some occupied_state
    /\ forall s', s' < s -> states_ t !! ((bucket N hash_ k + s') mod N) <> Some empty_state.

Lemma occupy_repr t m k v i :
  repr t m -> m !! k = None -> free_target t k i ->
  exists t', occupy t i k v = Done t' /\ repr t' (<[k := v]> m).
Proof.
  intros Hr Hm (s & Hs & Hi & Hocc & Hbefore).
  assert (HiN : i < N) by (subst i; apply Nat.mod_upper_bound; lia).
  assert (Hwin : forall s', s' < N -> (bucket N hash_ k + s') mod N = i -> s' = s).
  { subst i. intros s' Hs' E. by apply mod_window_inj in E. }
  clear Hi.
  destruct (lookup_lt_is_Some_2 (states_ t) i) as [st Hst]; [by rewrite (r_states _ _ Hr)|].
  destruct (lookup_lt_is_Some_2 (slots_ t) i) as [[e|] Hsl]; [by rewrite (r_slots _ _ Hr)| |].
  { destruct Hocc. apply (r_live _ _ Hr). eauto. }
  unfold occupy. rewrite Hsl, store_Done by (by rewrite (r_states _ _ Hr)). exec_simpl.
  eexists. split; [done|]. split; simpl; rewrite ?length_insert;
    [apply (r_states _ _ Hr)|apply (r_slots _ _ Hr)|..].
  - intros j. destruct (decide (j = i)) as [->|].
    + rewrite !list_lookup_insert_eq by (rewrite ?(r_states _ _ Hr), ?(r_slots _ _ Hr); done).
      split; eauto.
    + rewrite !list_lookup_insert_ne by done. apply (r_live _ _ Hr).
  - intros k' v'. split.
    + rewrite lookup_insert. case_decide; intros Hk'; simplify_eq.
      * exists i. by rewrite list_lookup_insert_eq by (by rewrite (r_slots _ _ Hr)).
      * apply (r_map _ _ Hr) in Hk' as [j Hj]. exists j.
        rewrite list_lookup_insert_ne by congruence. done.
    + intros [j Hj]. destruct (decide (j = i)) as [->|].
      * rewrite list_lookup_insert_eq in Hj by (by rewrite (r_slots _ _ Hr)). simplify_eq.
        apply lookup_insert_eq.
      * rewrite list_lookup_insert_ne in Hj by done.
        assert (m !! k' = Some v') by (apply (r_map _ _ Hr); eauto).
        rewrite lookup_insert_ne by congruence. done.
  - intros j j' k' v' w'.
    destruct (decide (j = i)) as [->|]; destruct (decide (j' = i)) as [->|]; try done.
    + rewrite list_lookup_insert_eq, list_lookup_insert_ne by (rewrite ?(r_slots _ _ Hr); done).
      intros E1 E2. simplify_eq. by destruct (absent_slot t m k' j' w' Hr Hm).
    + rewrite list_lookup_insert_eq, list_lookup_insert_ne by (rewrite ?(r_slots _ _ Hr); done).
      intros E1 E2. simplify_eq. by destruct (absent_slot t m k' j v' Hr Hm).
    + rewrite !list_lookup_insert_ne by done. apply (r_uniq _ _ Hr).
  - intros k' v' s' Hs' Hk' s'' Hlt.
    assert (Hne : states_ t !! ((bucket N hash_ k' + s'') mod N) <> Some empty_state).
    { destruct (decide ((bucket N hash_ k' + s') mod N = i)) as [E|Hneq].
      - rewrite E, list_lookup_insert_eq in Hk' by (by rewrite (r_slots _ _ Hr)).
        assert (k' = k) as -> by congruence. apply Hbefore. apply Hwin in E; lia.
      - rewrite list_lookup_insert_ne in Hk' by done. by eapply (r_probe _ _ Hr). }
    destruct (decide ((bucket N hash_ k' + s'') mod N = i)) as [->|].
    + by rewrite list_lookup_insert_eq by (by rewrite (r_states _ _ Hr)).
    + by rewrite list_lookup_insert_ne.
  - pose proof (occupied_insert (states_ t) i st occupied_state Hst) as Hc.
    rewrite (r_count _ _ Hr). unfold occ1 in Hc. repeat case_decide; simplify_eq; lia.
  - rewrite (r_size _ _ Hr), map_size_insert_None by done. lia.
Qed.

(** What the insertion loop knows after [step] probes of an absent key. *)
Definition insert_inv (t : table) (k : K) (step fd : nat) : Prop :=
  (forall s', s' < step -> states_ t !! ((bucket N hash_ k + s') mod N) <> Some empty_state)
  /\ (fd = N /\ (forall s', s' < step ->
         states_ t !! ((bucket N hash_ k + s') mod N) = Some occupied_state)
      \/ fd < N /\ free_target t k fd).

Lemma insert_body_occupied t m k v step fd :
  repr t m ->
  states_ t !! ((bucket N hash_ k + step) mod N) = Some occupied_state ->
  (forall w, slots_ t !! ((bucket N hash_ k + step) mod N) <> Some (Some (k, w))) ->
  insert_body N equal_ t k v (bucket N hash_ k) step fd = Done (Next fd).
Proof.
  intros Hr Hs Hnk. unfold insert_body. rewrite (load_Done _ _ _ Hs). exec_simpl.
  destruct (entry_at _ _ _ Hr Hs) as (k' & v' & Hsl & -> & _). exec_simpl. simpl.
  rewrite equal_spec. case_bool_decide; [|done]. subst k'. by destruct (Hnk v').
Qed.

Lemma insert_body_next t m k v step fd :
  repr t m -> m !! k = None -> step < N ->
  states_ t !! ((bucket N hash_ k + step) mod N) <> Some empty_state ->
  insert_inv t k step fd ->
  exists fd', insert_body N equal_ t k v (bucket N hash_ k) step fd = Done (Next fd')
    /\ insert_inv t k (S step) fd'.
Proof.
  intros Hr Hm Hlt Hne [Hbefore Hfd].
  assert (Hmore : forall P : nat -> Prop, (forall s', s' < step -> P s') -> P step ->
            forall s', s' < S step -> P s').
  { intros P HP Hstep s' Hs'. destruct (decide (s' = step)) as [->|]; [done|]. apply HP. lia. }
  destruct (state_at t m (bucket N hash_ k + step) Hr) as (s & Hs & Hl).
  destruct s; [congruence| |].
  - exists fd. split.
    { eapply insert_body_occupied; [done|done|]. intros w. by eapply absent_slot. }
    split; [by apply Hmore|]. destruct Hfd as [[-> Hocc]|Hfd]; [left|by right].
    split; [done|]. by apply Hmore.
  - unfold insert_body. rewrite Hl. exec_simpl. eexists. split; [done|].
    split; [by apply Hmore|]. right. destruct Hfd as [[-> Hocc]|[Hfd Hft]].
    + rewrite Nat.eqb_refl. split; [apply Nat.mod_upper_bound; lia|].
      exists step. by rewrite Hs.
    + destruct (Nat.eqb_spec fd N); [lia|]. done.
Qed.

Lemma insert_value_present t m k v w :
  repr t m -> m !! k = Some w ->
  insert_value N hash_ equal_ t k v = Done (s_already_exists, t).
Proof.
  intros Hr Hm. destruct (present_step t m k w Hr Hm) as (s & Hs & Hsl & Hbefore).
  assert (Hst : states_ t !! ((bucket N hash_ k + s) mod N) = Some occupied_state)
    by (apply (r_live _ _ Hr); eauto).
  unfold insert_value.
  destruct (for_range_return (fun _ _ => True)
    (insert_body N equal_ t k v (bucket N hash_ k)) N s N) as (fd & _ & ->); [done|done| |].
  - intros i fd Hi _. destruct (Hbefore i Hi) as [Hne Hnk].
    destruct (state_at t m (bucket N hash_ k + i) Hr) as (st & Hs' & Hl).
    destruct st; [congruence|exists fd; split; [by eapply insert_body_occupied|done]|].
    unfold insert_body. rewrite Hl. exec_simpl. eauto.
  - unfold insert_body at 1. rewrite (load_Done _ _ _ Hst). exec_simpl.
    unfold entry_ptr. rewrite Hsl. exec_simpl. simpl.
    by rewrite equal_spec, bool_decide_true.
Qed.

(** Either the probing meets an empty slot, or every probed slot is in use. *)
Lemma first_empty_step (t : table) k n :
  (exists s, s < n /\ states_ t !! ((bucket N hash_ k + s) mod N) = Some empty_state
     /\ forall s', s' < s -> states_ t !! ((bucket N hash_ k + s') mod N) <> Some empty_state)
  \/ (forall s, s < n -> states_ t !! ((bucket N hash_ k + s) mod N) <> Some empty_state).
Proof.
  induction n as [|n IH]; [right; lia|].
  destruct IH as [(s & Hs & He & Hb)|Hall]; [left; exists s; split_and!; auto; lia|].
  destruct (decide (states_ t !! ((bucket N hash_ k + n) mod N) = Some empty_state)) as [E|E].
  - left. exists n. split_and!; auto.
  - right. intros s Hs. destruct (decide (s = n)) as [->|]; [done|]. apply Hall. lia.
Qed.

Lemma all_occupied t m k :
  repr t m ->
  (forall s, s < N -> states_ t !! ((bucket N hash_ k + s) mod N) = Some occupied_state) ->
  base.size m = N.
Proof.
  intros Hr Hall. rewrite <-(r_size _ _ Hr), (r_count _ _ Hr), <-(r_states _ _ Hr).
  apply occupied_all, Forall_lookup. intros i s Hi.
  destruct (mod_window_surj N (bucket N hash_ k) i) as (j & Hj & <-).
  { rewrite <-(r_states _ _ Hr). by eapply lookup_lt_Some. }
  { apply bucket_lt. }
  rewrite Hall in Hi by done. by simplify_eq.
Qed.

Lemma insert_value_absent t m k v :
  repr t m -> m !! k = None ->
  if decide (base.size m < N)
  then exists t', insert_value N hash_ equal_ t k v = Done (s_ok, t') /\ repr t' (<[k := v]> m)
  else insert_value N hash_ equal_ t k v = Done (s_full, t).
Proof.
  intros Hr Hm.
  assert (Hinit : insert_inv t k 0 N) by (split; [|left; split]; intros; lia).
  assert (Hroom : forall i, free_target t k i -> base.size m < N).
  { intros i (s & Hs & -> & Hocc & _).
    assert (base.size m <= N) as Hle.
    { rewrite <-(r_size _ _ Hr), (r_count _ _ Hr), <-(r_states _ _ Hr). apply occupied_le. }
    destruct (decide (base.size m = N)) as [E|]; [|lia].
    rewrite <-(r_size _ _ Hr), (r_count _ _ Hr), <-(r_states _ _ Hr) in E.
    apply occupied_all in E. destruct (state_at t m (bucket N hash_ k + s) Hr) as (st & Hst & _).
    apply Forall_lookup_1 with (i := (bucket N hash_ k + s) mod N) (x := st) in E; [|done].
    congruence. }
  assert (Hfin : forall i, free_target t k i -> exists t',
     (t' ← occupy t i k v; Done (s_ok, t')) = Done (s_ok, t') /\ repr t' (<[k := v]> m)).
  { intros i Hi. destruct (occupy_repr t m k v i Hr Hm Hi) as (t' & -> & Hr'). by exists t'. }
  unfold insert_value.
  destruct (first_empty_step t k N) as [(s & Hs & He & Hb)|Hall].
  - destruct (for_range_return (insert_inv t k)
      (insert_body N equal_ t k v (bucket N hash_ k)) N s N Hs Hinit) as (fd & Hinv & ->).
    { intros i fd Hi Hinv. eapply insert_body_next; eauto; lia. }
    unfold insert_body at 1. rewrite (load_Done _ _ _ He). exec_simpl.
    assert (Ht : free_target t k
      (if (fd =? N)%nat then (bucket N hash_ k + s) mod N else fd)).
    { destruct (Nat.eqb_spec fd N) as [->|].
      - exists s. split_and!; try done. by rewrite He.
      - by destruct Hinv as [_ [[? _]|[_ ?]]]. }
    rewrite decide_True by (by eapply Hroom).
    destruct (Hfin _ Ht) as (t' & Hocc & Hr'). exists t'.
    destruct (occupy t _ k v) as [t''|] eqn:E; [|done]. simpl in *. by simplify_eq.
  - destruct (for_range_inv (insert_inv t k)
      (insert_body N equal_ t k v (bucket N hash_ k)) 0 N N Hinit) as (fd & -> & Hinv).
    { intros i fd Hi Hinv. eapply insert_body_next; eauto; [lia|]. apply Hall. lia. }
    simpl in Hinv. destruct Hinv as [_ [[-> Hocc]|[Hfd Ht]]]; exec_simpl.
    + rewrite Nat.eqb_refl. simpl. rewrite decide_False; [done|].
      rewrite (all_occupied t m k Hr Hocc). lia.
    + destruct (Nat.eqb_spec fd N); [lia|]. simpl.
      rewrite decide_True by (by eapply Hroom). by apply Hfin.
Qed.

Lemma bound_lemma t m : repr t m -> base.size m <= N.
Proof.
  intros Hr. rewrite <-(r_size _ _ Hr), (r_count _ _ Hr), <-(r_states _ _ Hr). apply occupied_le.
Qed.

Lemma insert_lemma t m k v :
  repr t m ->
  match m !! k with
  | Some _ => insert N hash_ equal_ t k v = Done (s_already_exists, t)
  | None => if decide (base.size m < N)
            then exists t', insert N hash_ equal_ t k v = Done (s_ok, t') /\ repr t' (<[k := v]> m)
            else insert N hash_ equal_ t k v = Done (s_full, t)
  end.
Proof.
  intros Hr. destruct (m !! k) eqn:E; unfold insert.
  - by eapply insert_value_present.
  - by apply insert_value_absent.
Qed.

Lemma emplace_insert t m k v :
  repr t m -> emplace N hash_ equal_ t k v = insert N hash_ equal_ t k v.
Proof.
  intros Hr. unfold emplace, insert. destruct (m !! k) as [w|] eqn:E.
  - destruct (find_index_present t m k w Hr E) as (i & -> & Hi & _). exec_simpl.
    destruct (Nat.eqb_spec i N); [lia|]. simpl. by erewrite insert_value_present.
  - rewrite (find_index_absent t m k Hr E). exec_simpl. by rewrite Nat.eqb_refl.
Qed.

Lemma contains_lemma t m k :
  repr t m -> contains N hash_ equal_ t k = Done (bool_decide (is_Some (m !! k))).
Proof.
  intros Hr. unfold contains. destruct (m !! k) as [w|] eqn:E.
  - destruct (find_index_present t m k w Hr E) as (i & -> & Hi & _). exec_simpl.
    destruct (Nat.eqb_spec i N); [lia|]. by rewrite bool_decide_true by eauto.
  - rewrite (find_index_absent t m k Hr E). exec_simpl.
    rewrite Nat.eqb_refl, bool_decide_false; [done|]. by intros [? ?].
Qed.

Lemma get_lemma t m k : repr t m -> get N hash_ equal_ t k = Done (m !! k).
Proof.
  intros Hr. unfold get. destruct (m !! k) as [w|] eqn:E.
  - destruct (find_index_present t m k w Hr E) as (i & -> & Hi & Hsl & _). exec_simpl.
    destruct (Nat.eqb_spec i N); [lia|]. unfold entry_ptr. by rewrite Hsl.
  - rewrite (find_index_absent t m k Hr E). exec_simpl. by rewrite Nat.eqb_refl.
Qed.

Lemma erase_repr t m k v i :
  repr t m -> m !! k = Some v -> slots_ t !! i = Some (Some (k, v)) ->
  repr (mk_table (size_ t - 1) (<[i := deleted_state]> (states_ t))
                 (<[i := None]> (slots_ t))) (delete k m).
Proof.
  intros Hr Hm Hsl. pose proof (lookup_lt_Some _ _ _ Hsl) as HiN. rewrite (r_slots _ _ Hr) in HiN.
  assert (Hst : states_ t !! i = Some occupied_state) by (apply (r_live _ _ Hr); eauto).
  split; simpl; rewrite ?length_insert;
    [apply (r_states _ _ Hr)|apply (r_slots _ _ Hr)|..].
  - intros j. destruct (decide (j = i)) as [->|].
    + rewrite !list_lookup_insert_eq by (rewrite ?(r_states _ _ Hr), ?(r_slots _ _ Hr); done).
      split; [done|]. by intros [? ?].
    + rewrite !list_lookup_insert_ne by done. apply (r_live _ _ Hr).
  - intros k' v'. split.
    + rewrite lookup_delete_Some. intros [Hne Hk']. apply (r_map _ _ Hr) in Hk' as [j Hj].
      exists j. rewrite list_lookup_insert_ne; [done|]. intros ->. congruence.
    + intros [j Hj]. destruct (decide (j = i)) as [->|].
      { by rewrite list_lookup_insert_eq in Hj by (by rewrite (r_slots _ _ Hr)). }
      rewrite list_lookup_insert_ne in Hj by done. apply lookup_delete_Some. split.
      * intros ->. pose proof (r_uniq _ _ Hr _ _ _ _ _ Hj Hsl). done.
      * apply (r_map _ _ Hr). eauto.
  - intros j j' k' v' w' Hj Hj'. apply list_lookup_insert_Some in Hj, Hj'.
    destruct Hj as [(?&?&?)|[? Hj]], Hj' as [(?&?&?)|[? Hj']]; try done.
    by eapply (r_uniq _ _ Hr).
  - intros k' v' s' Hs' Hk' s'' Hlt. apply list_lookup_insert_Some in Hk'.
    destruct Hk' as [(?&?&?)|[? Hk']]; [done|].
    pose proof (r_probe _ _ Hr k' v' s' Hs' Hk' s'' Hlt) as Hne.
    destruct (decide ((bucket N hash_ k' + s'') mod N = i)) as [->|].
    + by rewrite list_lookup_insert_eq by (by rewrite (r_states _ _ Hr)).
    + by rewrite list_lookup_insert_ne.
  - pose proof (occupied_insert (states_ t) i _ deleted_state Hst) as Hc.
    rewrite (r_count _ _ Hr). unfold occ1 in Hc. repeat case_decide; simplify_eq; lia.
  - rewrite (r_size _ _ Hr), map_size_delete_Some by (by eexists). lia.
Qed.

Lemma erase_lemma t m k :
  repr t m ->
  match m !! k with
  | Some _ => exists t', erase N hash_ equal_ t k = Done (s_ok, t') /\ repr t' (delete k m)
  | None => erase N hash_ equal_ t k = Done (s_not_found, t)
  end.
Proof.
  intros Hr. unfold erase. destruct (m !! k) as [v|] eqn:E.
  - destruct (find_index_present t m k v Hr E) as (i & -> & Hi & Hsl & Hst). exec_simpl.
    destruct (Nat.eqb_spec i N); [lia|]. unfold entry_ptr. rewrite Hsl. exec_simpl.
    rewrite store_Done by (by rewrite (r_states _ _ Hr)). exec_simpl.
    eexists. split; [done|]. by eapply erase_repr.
  - rewrite (find_index_absent t m k Hr E). exec_simpl. by rewrite Nat.eqb_refl.
Qed.

Lemma table_assign_repr t m k v w i :
  repr t m -> slots_ t !! i = Some (Some (k, v)) ->
  repr (mk_table (size_ t) (states_ t) (<[i := Some (k, w)]> (slots_ t))) (<[k := w]> m).
Proof.
  intros Hr Hsl. pose proof (lookup_lt_Some _ _ _ Hsl) as HiN. rewrite (r_slots _ _ Hr) in HiN.
  assert (Hm : m !! k = Some v) by (apply (r_map _ _ Hr); eauto).
  assert (Hcase : forall j k' v', <[i := Some (k, w)]> (slots_ t) !! j = Some (Some (k', v')) ->
            j = i /\ k' = k /\ v' = w \/ j <> i /\ slots_ t !! j = Some (Some (k', v'))).
  { intros j k' v' Hj. apply list_lookup_insert_Some in Hj as [(<-&?&_)|[? ?]];
      [left|right]; simplify_eq; auto. }
  assert (Hkey : forall j k' v', <[i := Some (k, w)]> (slots_ t) !! j = Some (Some (k', v')) ->
            exists v'', slots_ t !! j = Some (Some (k', v''))).
  { intros j k' v' Hj. apply Hcase in Hj as [(->&->&_)|[_ ?]]; eauto. }
  split; simpl; rewrite ?length_insert;
    [apply (r_states _ _ Hr)|apply (r_slots _ _ Hr)|..].
  - intros j. rewrite (r_live _ _ Hr). split.
    + intros [e He]. destruct (decide (j = i)) as [->|].
      * rewrite list_lookup_insert_eq by (by rewrite (r_slots _ _ Hr)). eauto.
      * rewrite list_lookup_insert_ne by done. eauto.
    + intros [[k' v'] He]. apply Hkey in He as [? ?]. eauto.
  - intros k' v'. rewrite lookup_insert. case_decide as Hk.
    + subst k'. split.
      * intros. simplify_eq. exists i. by rewrite list_lookup_insert_eq by (by rewrite (r_slots _ _ Hr)).
      * intros [j Hj]. apply Hcase in Hj as [(_&_&->)|[Hne Hj]]; [done|].
        by destruct Hne; eapply (r_uniq _ _ Hr).
    + rewrite (r_map _ _ Hr). split; intros [j Hj]; exists j.
      * rewrite list_lookup_insert_ne; [done|]. intros <-. congruence.
      * by apply Hcase in Hj as [(_&?&_)|[_ ?]]; [congruence|].
  - intros j j' k' v' w' Hj Hj'. apply Hkey in Hj as [? Hj], Hj' as [? Hj'].
    by eapply (r_uniq _ _ Hr).
  - intros k' v' s' Hs' Hk'. apply Hkey in Hk' as [? Hk']. by eapply (r_probe _ _ Hr).
  - apply (r_count _ _ Hr).
  - by rewrite (r_size _ _ Hr), map_size_insert, Hm.
Qed.

Lemma insert_or_assign_lemma t m k v :
  repr t m ->
  if decide (is_Some (m !! k) \/ base.size m < N)
  then exists t', insert_or_assign N hash_ equal_ t k v = Done (s_ok, t') /\ repr t' (<[k := v]> m)
  else insert_or_assign N hash_ equal_ t k v = Done (s_full, t).
Proof.
  intros Hr. unfold insert_or_assign. destruct (m !! k) as [w|] eqn:E.
  - rewrite decide_True by eauto.
    destruct (find_index_present t m k w Hr E) as (i & -> & Hi & Hsl & Hst). exec_simpl.
    destruct (Nat.eqb_spec i N); [lia|]. simpl. unfold entry_ptr. rewrite Hsl. exec_simpl.
    eexists. split; [done|]. by eapply table_assign_repr.
  - rewrite (find_index_absent t m k Hr E). exec_simpl. rewrite Nat.eqb_refl. simpl.
    pose proof (insert_lemma t m k v Hr) as Hi. rewrite E in Hi. case_decide as Hd.
    + rewrite decide_True by lia. done.
    + rewrite decide_False; [done|]. intros [[? ?]|?]; done.
Qed.

Lemma table_clear_lemma t m : repr t m -> clear N t = Done (init N).
Proof.
  intros Hr. unfold clear.
  destruct (for_range_inv (R := unit) (fun i t' =>
      length (states_ t') = N /\ length (slots_ t') = N
      /\ (forall j, j < i -> states_ t' !! j = Some empty_state /\ slots_ t' !! j = Some None)
      /\ (forall j, i <= j -> states_ t' !! j = states_ t !! j /\ slots_ t' !! j = slots_ t !! j))
    clear_body 0 N t) as (t' & -> & Hl1 & Hl2 & Hlo & _).
  - split_and!; [apply (r_states _ _ Hr)|apply (r_slots _ _ Hr)|lia|done].
  - intros i t' Hi (Hl1 & Hl2 & Hlo & Hhi). destruct (Hhi i ltac:(lia)) as [Es Ee].
    destruct (lookup_lt_is_Some_2 (states_ t') i) as [s Hs]; [lia|].
    unfold clear_body. rewrite (load_Done _ _ _ Hs). exec_simpl.
    set (sl := if decide (s = occupied_state) then <[i := None]> (slots_ t') else slots_ t').
    assert ((if decide (s = occupied_state)
             then _ ← entry_ptr t' i; Done (<[i:=None]> (slots_ t')) else Done (slots_ t')) = Done sl)
      as ->.
    { subst sl. case_decide; [|done]. subst s. rewrite Es in Hs.
      apply (r_live _ _ Hr) in Hs as [e He]. unfold entry_ptr. by rewrite Ee, He. }
    exec_simpl. rewrite store_Done by lia. exec_simpl. eexists. split; [done|]. simpl.
    assert (Hsl : length sl = N /\ sl !! i = Some None /\ forall j, j <> i -> sl !! j = slots_ t' !! j).
    { subst sl. case_decide as Hd.
      - rewrite length_insert, list_lookup_insert_eq by lia. split_and!; try done.
        intros j Hj. by rewrite list_lookup_insert_ne.
      - split_and!; try done. destruct (lookup_lt_is_Some_2 (slots_ t') i) as [[e|] He]; [lia| |done].
        destruct Hd. rewrite Ee in He. rewrite Es in Hs.
        assert (states_ t !! i = Some occupied_state) by (apply (r_live _ _ Hr); eauto). congruence. }
    destruct Hsl as (Hsl1 & Hsl2 & Hsl3). rewrite length_insert. split_and!; try done.
    + intros j Hj. destruct (decide (j = i)) as [->|].
      * by rewrite list_lookup_insert_eq by lia.
      * rewrite list_lookup_insert_ne, Hsl3 by done. apply Hlo. lia.
    + intros j Hj. rewrite list_lookup_insert_ne, Hsl3 by lia. apply Hhi. lia.
  - exec_simpl. unfold init. do 2 f_equal; apply list_eq; intros j;
      (destruct (decide (j < N));
       [rewrite lookup_replicate_2 by done; by apply Hlo
       |rewrite !lookup_ge_None_2; rewrite ?length_replicate; done || lia]).
Qed.

(** ** Iteration *)

(** The scan shared by [first_occupied] and [advance_index]. *)
Lemma scan_lemma t m start :
  repr t m -> start <= N ->
  exists r, (r' ← for_range start (N - start) (fun i (_ : unit) =>
        s ← load (states_ t) i;
        if decide (s = occupied_state) then Done (Return i) else Done (Next tt)) tt;
      match r' with Return i => Done i | Next _ => Done N end) = Done r
    /\ start <= r <= N /\ (r < N -> states_ t !! r = Some occupied_state)
    /\ omap id (drop start (slots_ t)) = omap id (drop r (slots_ t)).
Proof.
  intros Hr. remember (N - start) as n eqn:En. revert start En.
  induction n as [|n IH]; intros start En Hle; simpl.
  { exists N. split_and!; [done|lia|lia|lia|]. by replace start with N by lia. }
  destruct (lookup_lt_is_Some_2 (states_ t) start) as [s Hs]; [rewrite (r_states _ _ Hr); lia|].
  rewrite (load_Done _ _ _ Hs). exec_simpl. case_decide as Hd.
  - subst s. exists start. split_and!; try done; lia.
  - destruct (IH (S start)) as (r & Hf & Hb & Ho & Hom); [lia|lia|].
    exists r. split_and!; [done|lia|lia|done|]. rewrite <-Hom.
    destruct (lookup_lt_is_Some_2 (slots_ t) start) as [[e|] He]; [rewrite (r_slots _ _ Hr); lia| |].
    + destruct Hd. assert (states_ t !! start = Some occupied_state) by (apply (r_live _ _ Hr); eauto).
      congruence.
    + by rewrite (drop_S _ _ _ He).
Qed.

Lemma iterate_from_lemma t m fuel i :
  repr t m -> i <= N -> (i < N -> states_ t !! i = Some occupied_state) -> N < i + fuel ->
  iterate_from N fuel t i = Done (omap id (drop i (slots_ t))).
Proof.
  intros Hr. revert i. induction fuel as [|fuel IH]; intros i Hi Ho Hf; [lia|].
  simpl. destruct (Nat.eqb_spec i N) as [->|].
  { by rewrite drop_ge by (rewrite (r_slots _ _ Hr); done). }
  destruct (entry_at t m i Hr) as (k & v & Hsl & -> & _); [apply Ho; lia|]. exec_simpl.
  destruct (scan_lemma t m (i + 1) Hr) as (r & Hs & Hb & Hro & Hom); [lia|].
  unfold advance_index. destruct (Nat.leb_spec N i); [lia|]. rewrite Hs. exec_simpl.
  rewrite IH by (done || lia). exec_simpl.
  by rewrite (drop_S _ _ _ Hsl), <-Nat.add_1_r, <-Hom.
Qed.

Lemma omap_id_elem {A} (l : list (option A)) x :
  x ∈ omap id l <-> exists i, l !! i = Some (Some x).
Proof.
  rewrite list_elem_of_omap. split.
  - intros (o & Ho & E). simpl in E. subst o. by apply list_elem_of_lookup in Ho.
  - intros [i Hi]. exists (Some x). split; [|done]. by eapply list_elem_of_lookup_2.
Qed.

Lemma NoDup_omap_id {A} (l : list (option A)) :
  (forall i j x, l !! i = Some (Some x) -> l !! j = Some (Some x) -> i = j) -> NoDup (omap id l).
Proof.
  induction l as [|o l IH]; intros Hu; [constructor|].
  assert (NoDup (omap id l)).
  { apply IH. intros i j x Hi Hj. specialize (Hu (S i) (S j) x Hi Hj). lia. }
  destruct o as [x|]; [|done]. simpl. constructor; [|done].
  intros [i Hi]%omap_id_elem. by specialize (Hu 0 (S i) x eq_refl Hi).
Qed.

Lemma iterate_lemma t m :
  repr t m -> exists l, iterate N t = Done l /\ l ≡ₚ map_to_list m.
Proof.
  intros Hr. exists (omap id (slots_ t)). split.
  - unfold iterate, first_occupied.
    destruct (scan_lemma t m 0 Hr) as (r & Hs & Hb & Hro & Hom); [lia|].
    rewrite Nat.sub_0_r in Hs. rewrite Hs. exec_simpl.
    rewrite (iterate_from_lemma t m) by (done || lia). by rewrite <-Hom.
  - apply NoDup_Permutation; [|apply NoDup_map_to_list|].
    + apply NoDup_omap_id. intros i j [k v] Hi Hj. by eapply (r_uniq _ _ Hr).
    + intros [k v]. rewrite omap_id_elem, elem_of_map_to_list. by rewrite (r_map _ _ Hr).
Qed.

(** ** The table as a bounded map, and whole runs *)

#[export, refine] Instance hash_table_map : BoundedMap K V table := {|
  m_repr := repr;
  m_cap := N;
  m_insert := insert N hash_ equal_;
  m_erase := erase N hash_ equal_;
  m_contains := contains N hash_ equal_;
  m_clear := clear N;
  m_size := size;
  m_bound := bound_lemma;
  m_size_spec := r_size;
  m_insert_spec := insert_lemma;
  m_erase_spec := erase_lemma;
  m_contains_spec := contains_lemma
|}.
Proof. intros t m Hr. rewrite (table_clear_lemma t m Hr). eauto using table_repr_init. Defined.

Inductive table_op : Type :=
| TInsert (k : K) (v : V)
| TEmplace (k : K) (v : V)
| TInsertOrAssign (k : K) (v : V)
| TErase (k : K)
| TContains (k : K)
| TGet (k : K)
| TClear
| TSize.

Inductive table_obs : Type :=
| OStatus (s : status)
| OBool (b : bool)
| OValue (v : option V)
| OSize (n : nat)
| ONone.

Definition run_op (t : table) (op : table_op) : exec (table_obs * table) :=
  match op with
  | TInsert k v => r ← insert N hash_ equal_ t k v; Done (OStatus (fst r), snd r)
  | TEmplace k v => r ← emplace N hash_ equal_ t k v; Done (OStatus (fst r), snd r)
  | TInsertOrAssign k v => r ← insert_or_assign N hash_ equal_ t k v; Done (OStatus (fst r), snd r)
  | TErase k => r ← erase N hash_ equal_ t k; Done (OStatus (fst r), snd r)
  | TContains k => b ← contains N hash_ equal_ t k; Done (OBool b, t)
  | TGet k => v ← get N hash_ equal_ t k; Done (OValue v, t)
  | TClear => t' ← clear N t; Done (ONone, t')
  | TSize => Done (OSize (size t), t)
  end.

(** The same operations on a finite map of at most [N] entries. *)
Definition spec_insert (m : gmap K V) (k : K) (v : V) : table_obs * gmap K V :=
  match m !! k with
  | Some _ => (OStatus s_already_exists, m)
  | None => if decide (base.size m < N) then (OStatus s_ok, <[k := v]> m) else (OStatus s_full, m)
  end.

Definition spec_op (m : gmap K V) (op : table_op) : table_obs * gmap K V :=
  match op with
  | TInsert k v => spec_insert m k v
  | TEmplace k v => spec_insert m k v
  | TInsertOrAssign k v =>
      if decide (is_Some (m !! k) \/ base.size m < N)
      then (OStatus s_ok, <[k := v]> m) else (OStatus s_full, m)
  | TErase k => match m !! k with
                | Some _ => (OStatus s_ok, delete k m)
                | None => (OStatus s_not_found, m)
                end
  | TContains k => (OBool (bool_decide (is_Some (m !! k))), m)
  | TGet k => (OValue (m !! k), m)
  | TClear => (ONone, ∅)
  | TSize => (OSize (base.size m), m)
  end.

Fixpoint run_ops (t : table) (ops : list table_op) : exec (list table_obs * table) :=
  match ops with
  | [] => Done ([], t)
  | op :: ops' => r ← run_op t op; r' ← run_ops (snd r) ops';
      Done (fst r :: fst r', snd r')
  end.

Fixpoint spec_ops (m : gmap K V) (ops : list table_op) : list table_obs * gmap K V :=
  match ops with
  | [] => ([], m)
  | op :: ops' => let '(o, m') := spec_op m op in
      let '(os, m'') := spec_ops m' ops' in (o :: os, m'')
  end.

Lemma run_insert_refines t m k v :
  repr t m ->
  exists t', (r ← insert N hash_ equal_ t k v; Done (OStatus (fst r), snd r))
      = Done (fst (spec_insert m k v), t') /\ repr t' (snd (spec_insert m k v)).
Proof.
  intros Hr. pose proof (insert_lemma t m k v Hr) as Hi. unfold spec_insert.
  destruct (m !! k); [rewrite Hi; eauto|].
  case_decide; [destruct Hi as (t' & -> & Hr')|rewrite Hi]; eauto.
Qed.

Lemma table_run_op_refines t m op :
  repr t m ->
  exists t', run_op t op = Done (fst (spec_op m op), t') /\ repr t' (snd (spec_op m op)).
Proof.
  intros Hr. destruct op as [k v|k v|k v|k|k|k| |]; simpl.
  - by apply run_insert_refines.
  - rewrite (emplace_insert t m k v Hr). by apply run_insert_refines.
  - pose proof (insert_or_assign_lemma t m k v Hr) as Hi.
    case_decide; [destruct Hi as (t' & -> & Hr')|rewrite Hi]; eauto.
  - pose proof (erase_lemma t m k Hr) as Hi.
    destruct (m !! k); [destruct Hi as (t' & -> & Hr')|rewrite Hi]; eauto.
  - rewrite (contains_lemma t m k Hr). eauto.
  - rewrite (get_lemma t m k Hr). eauto.
  - rewrite (table_clear_lemma t m Hr). eauto using table_repr_init.
  - unfold size. rewrite (r_size _ _ Hr). eauto.
Qed.

Lemma table_run_ops_refines t m ops :
  repr t m ->
  exists t', run_ops t ops = Done (fst (spec_ops m ops), t') /\ repr t' (snd (spec_ops m ops)).
Proof.
  revert t m. induction ops as [|op ops IH]; intros t m Hr; [by exists t|].
  simpl. destruct (table_run_op_refines t m op Hr) as (t1 & -> & Hr1). exec_simpl.
  destruct (spec_op m op) as [o m1]. simpl in *.
  destruct (IH t1 m1 Hr1) as (t2 & -> & Hr2). exists t2.
  by destruct (spec_ops m1 ops).
Qed.

End Spec.

(** ** The set adaptor (hash_set.hpp), against the bounded-map interface

    [hash_set] keeps a [hash_table] whose mapped type is the empty struct
    [detail::hash_set_value]; its operations are verified for any bounded map. *)
Section HashSet.
Context {K M : Type} `{Countable K} `{!BoundedMap K unit M}.

Inductive set_op : Type :=
| SetInsert (k : K)
| SetErase (k : K)
| SetContains (k : K)
| SetClear
| SetSize.

Definition set_insert (t : M) (key : K) : exec (status * M) := m_insert t key tt.
Definition set_erase (t : M) (key : K) : exec (status * M) := m_erase t key.
Definition set_contains (t : M) (key : K) : exec bool := m_contains t key.
Definition set_clear (t : M) : exec M := m_clear t.
Definition set_size (t : M) : nat := m_size t.

Definition run_set_op (t : M) (op : set_op) : exec (@table_obs unit * M) :=
  match op with
  | SetInsert k => r ← set_insert t k; Done (OStatus (fst r), snd r)
  | SetErase k => r ← set_erase t k; Done (OStatus (fst r), snd r)
  | SetContains k => b ← set_contains t k; Done (OBool b, t)
  | SetClear => t' ← set_clear t; Done (ONone, t')
  | SetSize => Done (OSize (set_size t), t)
  end.

(** The operations on a finite set of at most [m_cap] elements. *)
Definition spec_set_op (cap : nat) (s : gset K) (op : set_op) : @table_obs unit * gset K :=
  match op with
  | SetInsert k =>
      if decide (k ∈ s) then (OStatus s_already_exists, s)
      else if decide (base.size s < cap) then (OStatus s_ok, {[k]} ∪ s)
      else (OStatus s_full, s)
  | SetErase k => if decide (k ∈ s) then (OStatus s_ok, s ∖ {[k]}) else (OStatus s_not_found, s)
  | SetContains k => (OBool (bool_decide (k ∈ s)), s)
  | SetClear => (ONone, ∅)
  | SetSize => (OSize (base.size s), s)
  end.

Definition set_repr (t : M) (s : gset K) : Prop :=
  exists m : gmap K unit, m_repr t m /\ dom m = s.

Lemma run_set_op_refines t s op :
  set_repr t s ->
  exists t', run_set_op t op = Done (fst (spec_set_op (m_cap M) s op), t')
    /\ set_repr t' (snd (spec_set_op (m_cap M) s op)).
Proof.
  intros (m & Hr & <-).
  assert (Hin : forall k, k ∈ dom m <-> is_Some (m !! k)) by (intros; apply elem_of_dom).
  destruct op as [k|k|k| |]; simpl; rewrite ?size_dom.
  - pose proof (m_insert_spec t m k tt Hr) as Hi. unfold set_insert.
    destruct (m !! k) as [u|] eqn:E.
    + rewrite decide_True by (apply Hin; eauto). rewrite Hi. exists t. split; [done|by exists m].
    + rewrite decide_False by (rewrite Hin, E; by intros [? ?]).
      case_decide; [destruct Hi as (t' & -> & Hr')|rewrite Hi].
      * exists t'. split; [done|]. exists (<[k := tt]> m). split; [done|].
        simpl. by rewrite dom_insert_L.
      * exists t. split; [done|by exists m].
  - pose proof (m_erase_spec t m k Hr) as Hi. unfold set_erase. destruct (m !! k) as [u|] eqn:E.
    + rewrite decide_True by (apply Hin; eauto). destruct Hi as (t' & -> & Hr').
      exists t'. split; [done|]. exists (delete k m). split; [done|]. by rewrite dom_delete_L.
    + rewrite decide_False by (rewrite Hin, E; by intros [? ?]). rewrite Hi.
      exists t. split; [done|by exists m].
  - unfold set_contains. rewrite (m_contains_spec t m k Hr). exists t. simpl.
    split; [|by exists m]. do 3 f_equal. apply bool_decide_ext. by rewrite Hin.
  - unfold set_clear. destruct (m_clear_spec t m Hr) as (t' & -> & Hr'). exists t'.
    split; [done|]. exists ∅. split; [done|]. apply dom_empty_L.
  - unfold set_size. rewrite (m_size_spec t m Hr). exists t. split; [done|by exists m].
Qed.

Fixpoint run_set_ops (t : M) (ops : list set_op) : exec (list (@table_obs unit) * M) :=
  match ops with
  | [] => Done ([], t)
  | op :: ops' => r ← run_set_op t op; r' ← run_set_ops (snd r) ops';
      Done (fst r :: fst r', snd r')
  end.

Fixpoint spec_set_ops (cap : nat) (s : gset K) (ops : list set_op)
    : list (@table_obs unit) * gset K :=
  match ops with
  | [] => ([], s)
  | op :: ops' => let '(o, s') := spec_set_op cap s op in
      let '(os, s'') := spec_set_ops cap s' ops' in (o :: os, s'')
  end.

Lemma run_set_ops_refines t s ops :
  set_repr t s ->
  exists t', run_set_ops t ops = Done (fst (spec_set_ops (m_cap M) s ops), t')
    /\ set_repr t' (snd (spec_set_ops (m_cap M) s ops)).
Proof.
  revert t s. induction ops as [|op ops IH]; intros t s Hr; [by exists t|].
  simpl. destruct (run_set_op_refines t s op Hr) as (t1 & -> & Hr1). exec_simpl.
  destruct (spec_set_op (m_cap M) s op) as [o s1]. simpl in *.
  destruct (IH t1 s1 Hr1) as (t2 & -> & Hr2). exists t2. by destruct (spec_set_ops (m_cap M) s1 ops).
Qed.
End HashSet.

(** C5.  Refinement of the hash table: with any hash function and a key
    equality that decides equality, any sequence of [insert], [emplace]
    ([try_emplace]), [insert_or_assign], [erase], [contains], [get], [clear] and
    [size] on an empty [hash_table<Key, T, N>] runs without reading a dead slot
    or constructing over a live one, and returns what the finite map of at most
    [N] entries returns.  In particular tombstones never hide a key, and
    insertion reports [status::full] exactly when the map has [N] entries. *)
Theorem hash_table_refines_map {K V} `{Countable K} (N : nat) (hash_ : K -> nat)
    (equal_ : K -> K -> bool) (ops : list (@table_op K V)) :
  0 < N -> (forall a b, equal_ a b = bool_decide (a = b)) ->
  exists t, run_ops N hash_ equal_ (init N) ops = Done (fst (spec_ops N ∅ ops), t)
    /\ repr N hash_ t (snd (spec_ops N ∅ ops)).
Proof. intros HN Heq. apply table_run_ops_refines; [done|done|]. apply table_repr_init. Qed.

(** Colliding keys: everything hashes to bucket 1 of 3. *)
Lemma hash_table_refines_map_witness :
  exists t, run_ops 3 (fun _ : Z => 7) Z.eqb (init 3)
      [TInsert 1 10; TInsert 2 20; TInsert 3 30; TInsert 4 40; TErase 1; TGet 3; TInsert 4 40; TGet 1]%Z
    = Done ([OStatus s_ok; OStatus s_ok; OStatus s_ok; OStatus s_full; OStatus s_ok;
             OValue (Some 30); OStatus s_ok; OValue None]%Z, t).
Proof.
  destruct (hash_table_refines_map 3 (fun _ : Z => 7) Z.eqb
    [TInsert 1 10; TInsert 2 20; TInsert 3 30; TInsert 4 40; TErase 1; TGet 3; TInsert 4 40; TGet 1]%Z)
    as (t & Hr & _).
  - lia.
  - intros a b. apply reflect_bool_decide, Z.eqb_spec.
  - exists t. exact Hr.
Defined.

(**  Iterating a hash table from [begin()] to [end()] after any sequence of
    operations terminates within [N + 1] comparisons with [end()] and visits
    every entry of the map exactly once. *)
Theorem hash_table_iteration_complete {K V} `{Countable K} (N : nat) (hash_ : K -> nat)
    (equal_ : K -> K -> bool) (ops : list (@table_op K V)) :
  0 < N -> (forall a b, equal_ a b = bool_decide (a = b)) ->
  exists os t l, run_ops N hash_ equal_ (init N) ops = Done (os, t)
    /\ iterate N t = Done l /\ l ≡ₚ map_to_list (snd (spec_ops N ∅ ops)).
Proof.
  intros HN Heq.
  destruct (table_run_ops_refines N hash_ equal_ Heq HN (init N) ∅ ops) as (t & Hrun & Hr);
    [apply table_repr_init|].
  destruct (iterate_lemma N hash_ HN t _ Hr) as (l & Hl & Hp).
  exists (fst (spec_ops N ∅ ops)), t, l. done.
Qed.

Lemma hash_table_iteration_complete_witness :
  exists os t l, run_ops 4 Z.to_nat Z.eqb (init 4)
      [TInsert 5 50; TInsert 9 90; TErase 5; TInsert 2 20]%Z = Done (os, t)
    /\ iterate 4 t = Done l /\ l = [(9, 90); (2, 20)]%Z.
Proof.
  destruct (hash_table_iteration_complete 4 Z.to_nat Z.eqb
    [TInsert 5 50; TInsert 9 90; TErase 5; TInsert 2 20]%Z) as (os & t & l & Hr & Hi & _).
  - lia.
  - intros a b. apply reflect_bool_decide, Z.eqb_spec.
  - exists os, t, l. split; [exact Hr|]. split; [exact Hi|].
    vm_compute in Hr. injection Hr as _ <-. vm_compute in Hi. by injection Hi as <-.
Defined.

(**  [hash_set] refines a finite set: for every bounded map that honours
    the interface, any sequence of [insert], [erase], [contains], [clear] and
    [size] behaves as on the finite set of the stored keys; the hash table
    discharges the interface. *)
Theorem hash_set_refines_gset {K M} `{Countable K} `{!BoundedMap K unit M} (t : M)
    (s : gset K) (ops : list (@set_op K)) :
  set_repr t s ->
  exists t', run_set_ops t ops = Done (fst (spec_set_ops (m_cap M) s ops), t')
    /\ set_repr t' (snd (spec_set_ops (m_cap M) s ops)).
Proof. apply run_set_ops_refines. Qed.

Lemma hash_set_refines_gset_witness :
  exists t', run_set_ops (M := hash_table Z unit)
      (BoundedMap0 := hash_table_map 2 Z.to_nat Z.eqb
         (fun a b => reflect_bool_decide _ (a = b) (Z.eqb_spec a b)) Nat.lt_0_2)
      (init 2) [SetInsert 7; SetInsert 7; SetErase 3; SetContains 7; SetSize]%Z
    = Done ([OStatus s_ok; OStatus s_already_exists; OStatus s_not_found; OBool true; OSize 1], t').
Proof.
  destruct (hash_set_refines_gset (M := hash_table Z unit)
    (BoundedMap0 := hash_table_map 2 Z.to_nat Z.eqb
         (fun a b => reflect_bool_decide _ (a = b) (Z.eqb_spec a b)) Nat.lt_0_2)
    (init 2) ∅ [SetInsert 7; SetInsert 7; SetErase 3; SetContains 7; SetSize]%Z) as (t' & Hr & _).
  - exists ∅. split; [apply table_repr_init|apply dom_empty_L].
  - exists t'. exact Hr.
Defined.
