(* ===== verification/Hex.v ===== *)
(** * Hexadecimal codec (castle_ext/codecs/hex.hpp)

    [hex_encode] and [hex_decode] over caller-provided buffers, the text a byte
    sequence stands for, and the round trips.  The input and the output buffer
    do not overlap; sizes are below [SIZE_MAX / 2], the largest object size, so
    that [2 * input_size] does not wrap. *)

From S2P Require Import Prelude Status.
Open Scope Z_scope.

Definition hex_encoded_size (input_size : nat) : nat := (input_size * 2)%nat.

Definition hex_value (c : Z) : Z :=
  if (char "0" <=? c) && (c <=? char "9") then to_u8 (c - char "0")
  else if (char "A" <=? c) && (c <=? char "F") then to_u8 (c - char "A") + 10
  else if (char "a" <=? c) && (c <=? char "f") then to_u8 (c - char "a") + 10
  else 255.

Definition hex_alphabet (uppercase : bool) : list Z :=
  if uppercase then chars "0123456789ABCDEF" else chars "0123456789abcdef".

Definition hex_encode_body (input : ptr) (alphabet : list Z) (i : nat) (output : ptr)
    : exec (ctl codec_result ptr) :=
  b ← pload input i;
  hi ← load alphabet (Z.to_nat (Z.land (Z.shiftr b 4) 15));
  output ← pstore output (2 * i) hi;
  lo ← load alphabet (Z.to_nat (Z.land b 15));
  output ← pstore output (2 * i + 1) lo;
  Done (Next output).

Definition hex_encode (input : ptr) (input_size : nat) (output : ptr)
    (output_capacity : nat) (uppercase : bool) : exec codec_result :=
  if is_null input && negb (input_size =? 0)%nat then Done (s_invalid_argument, 0%nat, output)
  else if is_null output && negb (output_capacity =? 0)%nat
  then Done (s_invalid_argument, 0%nat, output)
  else
    let required := hex_encoded_size input_size in
    if (output_capacity <? required)%nat then Done (s_full, 0%nat, output)
    else if negb (required =? 0)%nat && is_null output
    then Done (s_invalid_argument, 0%nat, output)
    else after (for_range 0 input_size (hex_encode_body input (hex_alphabet uppercase)) output)
           (fun output => Done (s_ok, required, output)).

Definition hex_decode_body (input : ptr) (i : nat) (output : ptr)
    : exec (ctl codec_result ptr) :=
  c0 ← pload input (2 * i);
  c1 ← pload input (2 * i + 1);
  let high := hex_value c0 in
  let low := hex_value c1 in
  if (high =? 255) || (low =? 255) then Done (Return (s_invalid_argument, 0%nat, output))
  else output ← pstore output i (to_u8 (Z.lor (Z.shiftl high 4) low));
       Done (Next output).

Definition hex_decode (input : ptr) (input_size : nat) (output : ptr)
    (output_capacity : nat) : exec codec_result :=
  if is_null input && negb (input_size =? 0)%nat then Done (s_invalid_argument, 0%nat, output)
  else if is_null output && negb (output_capacity =? 0)%nat
  then Done (s_invalid_argument, 0%nat, output)
  else if negb (Nat.land input_size 1 =? 0)%nat then Done (s_invalid_argument, 0%nat, output)
  else
    let required := (input_size / 2)%nat in
    if (output_capacity <? required)%nat then Done (s_full, 0%nat, output)
    else if negb (required =? 0)%nat && is_null output
    then Done (s_invalid_argument, 0%nat, output)
    else after (for_range 0 required (hex_decode_body input) output)
           (fun output => Done (s_ok, required, output)).

(** ** The text of a byte sequence *)

Definition hex_digit (uppercase : bool) (d : Z) : Z :=
  if d <? 10 then char "0" + d else (if uppercase then char "A" else char "a") + (d - 10).
Definition hex_pair (uppercase : bool) (b : Z) : list Z :=
  [hex_digit uppercase (b / 16); hex_digit uppercase (b mod 16)].
Definition hex_text (uppercase : bool) (bs : list Z) : list Z := flat_map (hex_pair uppercase) bs.

(** The value of a text: [None] unless it is a sequence of digit pairs. *)
Fixpoint hex_parse (cs : list Z) : option (list Z) :=
  match cs with
  | [] => Some []
  | [_] => None
  | c0 :: c1 :: rest =>
      if (hex_value c0 =? 255) || (hex_value c1 =? 255) then None
      else (cons (hex_value c0 * 16 + hex_value c1)) <$> hex_parse rest
  end.

Lemma length_hex_text up bs : length (hex_text up bs) = hex_encoded_size (length bs).
Proof. unfold hex_text, hex_encoded_size. induction bs; simpl in *; lia. Qed.

Lemma hex_text_snoc up bs b : hex_text up (bs ++ [b]) = hex_text up bs ++ hex_pair up b.
Proof. unfold hex_text. rewrite flat_map_app. simpl. done. Qed.

Lemma hex_alphabet_digit up d :
  0 <= d < 16 -> load (hex_alphabet up) (Z.to_nat d) = Done (hex_digit up d).
Proof.
  intros Hd. apply load_Done. revert d Hd.
  apply (all_below_decide 16 (fun d => hex_alphabet up !! Z.to_nat d = Some (hex_digit up d))).
  by destruct up.
Qed.

Lemma hex_value_digit up d : 0 <= d < 16 -> hex_value (hex_digit up d) = d.
Proof.
  revert d. apply (all_below_decide 16 (fun d => hex_value (hex_digit up d) = d)). by destruct up.
Qed.

Lemma hex_value_range c : 0 <= hex_value c < 16 \/ hex_value c = 255.
Proof.
  unfold hex_value. change (char "0") with 48. change (char "9") with 57.
  change (char "A") with 65. change (char "F") with 70. change (char "a") with 97.
  change (char "f") with 102.
  destruct (_ && _) eqn:E1; [left; unfold wrap; rewrite Z.mod_small; lia|].
  destruct ((65 <=? c) && _) eqn:E2; [left; unfold wrap; rewrite Z.mod_small; lia|].
  destruct ((97 <=? c) && _) eqn:E3; [left; unfold wrap; rewrite Z.mod_small; lia|by right].
Qed.

(** ** Encoding *)

Lemma hex_encode_loop up post out bs pre :
  Forall u8 bs -> (hex_encoded_size (length pre + length bs) <= length out)%nat ->
  for_range (length pre) (length bs) (hex_encode_body (Some (pre ++ bs ++ post)) (hex_alphabet up))
    (Some (wrote out 0 (hex_text up pre)))
  = Done (Next (Some (wrote out 0 (hex_text up (pre ++ bs))))).
Proof.
  unfold hex_encoded_size. revert pre. induction bs as [|b bs IH]; intros pre Hb Hlen.
  { by rewrite app_nil_r. }
  apply Forall_cons in Hb as [Hb Hbs]. assert (HL := length_hex_text up pre).
  unfold hex_encoded_size in HL. cbn [length] in *. cbn [for_range].
  replace (hex_encode_body (Some (pre ++ (b :: bs) ++ post)) (hex_alphabet up) (length pre)
    (Some (wrote out 0 (hex_text up pre)))) with
    (Done (Next (Some (wrote out 0 (hex_text up (pre ++ [b])))) : ctl codec_result ptr)).
  - specialize (IH (pre ++ [b])). rewrite length_app, <-!app_assoc in IH. simpl in IH.
    rewrite <-(Nat.add_1_r (length pre)). apply IH; [done|lia].
  - unfold hex_encode_body. simpl (_ ++ post). rewrite pload_app by done. exec_simpl. destruct Hb.
    bits_to_arith. rewrite !hex_alphabet_digit by divlia. exec_simpl.
    rewrite pstore_wrote by lia. exec_simpl.
    rewrite pstore_wrote by (rewrite ?length_app; simpl; lia). exec_simpl.
    rewrite hex_text_snoc, <-app_assoc. unfold hex_pair. simpl.
    by rewrite (Z.mod_small (b / 16)) by divlia.
Qed.

Lemma hex_encode_spec up bs post out cap :
  Forall u8 bs -> (cap <= length out)%nat ->
  hex_encode (Some (bs ++ post)) (length bs) (Some out) cap up =
    Done (if decide (hex_encoded_size (length bs) <= cap)%nat
          then (s_ok, hex_encoded_size (length bs), Some (wrote out 0 (hex_text up bs)))
          else (s_full, 0%nat, Some out)).
Proof.
  intros Hb Hcap. unfold hex_encode. simpl. rewrite andb_false_r.
  case_decide; cmp_cases; try lia; [|done].
  pose proof (hex_encode_loop up post out bs [] Hb ltac:(simpl; lia)) as L.
  change (hex_text up []) with (@nil Z) in L. rewrite wrote_nil in L. simpl in L. by rewrite L.
Qed.

(** ** Decoding *)

Lemma hex_parse_text up bs : Forall u8 bs -> hex_parse (hex_text up bs) = Some bs.
Proof.
  induction 1 as [|b bs Hb Hbs IH]; [done|]. destruct Hb. cbn.
  fold (hex_text up bs). rewrite IH, !hex_value_digit by divlia.
  cmp_cases; simpl; [divlia..|]. do 2 f_equal. divlia.
Qed.

(** What the loop leaves behind: all the bytes, or the failure with the bytes of
    the pairs before the bad one written. *)
Definition hex_decode_end (lim : nat) (out : list Z) (done : list Z) (r : option (list Z))
    (res : ctl codec_result ptr) : Prop :=
  match r with
  | Some bs => res = Next (Some (wrote out 0 (done ++ bs)))
  | None => exists part, (length done + length part <= lim)%nat /\
      res = Return (s_invalid_argument, 0%nat, Some (wrote out 0 (done ++ part)))
  end.

Lemma hex_decode_loop lim post out n cs : (lim <= length out)%nat -> forall pre bs,
  length cs = (2 * n)%nat -> length pre = (2 * length bs)%nat -> (length bs + n <= lim)%nat ->
  exists res, for_range (length bs) n (hex_decode_body (Some (pre ++ cs ++ post)))
      (Some (wrote out 0 bs)) = Done res
    /\ hex_decode_end lim out bs (hex_parse cs) res.
Proof.
  intros Hlim. revert cs. induction n as [|n IH]; intros cs pre bs Hcs Hpre Hout.
  { destruct cs; [|simpl in *; lia]. eexists; split; [done|]. simpl. by rewrite app_nil_r. }
  destruct cs as [|c0 [|c1 cs]]; [simpl in *; lia..|]. cbn [for_range length] in *.
  assert (HB : hex_decode_body (Some (pre ++ (c0 :: c1 :: cs) ++ post)) (length bs)
      (Some (wrote out 0 bs)) =
    Done (if (hex_value c0 =? 255) || (hex_value c1 =? 255)
          then Return (s_invalid_argument, 0%nat, Some (wrote out 0 bs))
          else Next (Some (wrote out 0 (bs ++ [hex_value c0 * 16 + hex_value c1]))))).
  { unfold hex_decode_body.
    rewrite (pload_mid pre (c0 :: c1 :: cs) post 0 c0 (2 * length bs)) by (done || lia). exec_simpl.
    rewrite (pload_mid pre (c0 :: c1 :: cs) post 1 c1 (2 * length bs + 1)) by (done || lia). exec_simpl.
    destruct (_ || _) eqn:E; [done|]. apply orb_false_iff in E as [E0 E1].
    apply Z.eqb_neq in E0, E1. rewrite pstore_wrote by lia. exec_simpl.
    destruct (hex_value_range c0), (hex_value_range c1); try lia.
    rewrite lor_shiftl_add by lia. unfold wrap. by rewrite Z.mod_small by lia. }
  rewrite HB. simpl. destruct (_ || _).
  { eexists; split; [done|]. exists []. rewrite app_nil_r. simpl. split; [lia|done]. }
  destruct (IH cs (pre ++ [c0; c1]) (bs ++ [hex_value c0 * 16 + hex_value c1]))
    as (res & Hres & Hend); rewrite ?length_app; simpl in *; [lia..|].
  exists res. split.
  { rewrite <-Hres, <-app_assoc, length_app. simpl. by rewrite Nat.add_1_r. }
  unfold hex_decode_end in *. destruct (hex_parse cs) as [r|]; simpl.
  - by rewrite Hend, <-app_assoc.
  - destruct Hend as (part & Hp & ->). rewrite length_app in Hp. simpl in Hp.
    exists (hex_value c0 * 16 + hex_value c1 :: part). simpl. rewrite <-app_assoc.
    split; [lia|done].
Qed.

Lemma hex_parse_even cs bs : hex_parse cs = Some bs -> length cs = (2 * length bs)%nat.
Proof.
  remember (length cs) as n eqn:Hn. revert cs bs Hn.
  induction (lt_wf n) as [n _ IH]; intros [|c0 [|c1 cs]] bs Hn H; simpl in *; simplify_eq; [done|].
  destruct (_ || _); [done|]. destruct (hex_parse cs) as [r|] eqn:E; simplify_eq/=.
  rewrite (IH (length cs) ltac:(lia) cs r eq_refl E). lia.
Qed.

(** The outcome of a decode, on every branch. *)
Inductive hex_decoded (cs : list Z) (cap : nat) (out : list Z) : codec_result -> Prop :=
| hex_odd : Nat.odd (length cs) -> hex_decoded cs cap out (s_invalid_argument, 0%nat, Some out)
| hex_no_room : Nat.even (length cs) -> (cap < length cs / 2)%nat ->
    hex_decoded cs cap out (s_full, 0%nat, Some out)
| hex_bad part : Nat.even (length cs) -> (length cs / 2 <= cap)%nat -> hex_parse cs = None ->
    (length part <= length cs / 2)%nat ->
    hex_decoded cs cap out (s_invalid_argument, 0%nat, Some (wrote out 0 part))
| hex_good bs : hex_parse cs = Some bs -> (length bs <= cap)%nat ->
    hex_decoded cs cap out (s_ok, length bs, Some (wrote out 0 bs)).

Lemma hex_decode_spec cs post out cap :
  (cap <= length out)%nat ->
  exists r, hex_decode (Some (cs ++ post)) (length cs) (Some out) cap = Done r
    /\ hex_decoded cs cap out r.
Proof.
  intros Hcap. unfold hex_decode. cbn [is_null andb]. rewrite andb_false_r.
  change (Nat.land (length cs) 1) with (Nat.land (length cs) (Nat.ones 1)).
  rewrite Nat.land_ones. change (2 ^ 1)%nat with 2%nat. rewrite <-Nat.bit0_mod.
  rewrite Nat.bit0_odd. destruct (Nat.odd (length cs)) eqn:Ho; cbn [Nat.b2n Nat.eqb negb].
  { eexists; split; [done|]. apply hex_odd. by rewrite Ho. }
  assert (He : Nat.even (length cs)) by (rewrite <-Nat.negb_odd, Ho; done).
  destruct (Nat.ltb_spec cap (length cs / 2)); [eexists; split; [done|]; by apply hex_no_room|].
  assert (Hn : length cs = (2 * (length cs / 2))%nat).
  { apply Is_true_true in He. apply Nat.even_spec in He as [k ->].
    rewrite Nat.mul_comm, Nat.div_mul; lia. }
  destruct (hex_decode_loop (length cs / 2) post out (length cs / 2) cs ltac:(lia) [] [] Hn eq_refl ltac:(simpl; lia))
    as (res & Hres & Hend). rewrite wrote_nil in Hres. cbn [app length] in Hres. rewrite Hres.
  unfold hex_decode_end in Hend. destruct (hex_parse cs) as [bs|] eqn:Hp.
  - rewrite Hend. cbn [after]. apply hex_parse_even in Hp as Hl.
    replace (length cs / 2)%nat with (length bs) in * by lia.
    eexists; split; [done|]. by apply hex_good.
  - destruct Hend as (part & Hlen & ->). cbn [after app length] in *. eexists; split; [done|].
    by apply hex_bad.
Qed.

(** Upper-case letters folded to lower case. *)
Definition hex_lower (c : Z) : Z := if (char "A" <=? c) && (c <=? char "Z") then c + 32 else c.

Lemma hex_lower_digit c : hex_value c <> 255 -> hex_lower c = hex_digit false (hex_value c).
Proof.
  unfold hex_value, hex_lower, hex_digit. change (char "0") with 48. change (char "9") with 57.
  change (char "A") with 65. change (char "F") with 70. change (char "a") with 97.
  change (char "f") with 102. change (char "Z") with 90.
  intros H. unfold wrap in *.
  destruct (_ && _) eqn:E1; [rewrite Z.mod_small by lia; cmp_cases; simpl; lia|].
  destruct ((65 <=? c) && (c <=? 70)) eqn:E2; [rewrite Z.mod_small by lia; cmp_cases; simpl; lia|].
  destruct ((97 <=? c) && _) eqn:E3; [rewrite Z.mod_small by lia; cmp_cases; simpl; lia|done].
Qed.

Lemma hex_value_lower c : hex_value (hex_lower c) = hex_value c.
Proof.
  destruct (decide (0 <= c < 91)) as [Hc|Hc].
  - revert c Hc. apply (all_below_decide 91 (fun c => hex_value (hex_lower c) = hex_value c)). done.
  - unfold hex_lower. change (char "A") with 65. change (char "Z") with 90.
    by cmp_cases; try lia.
Qed.

Lemma hex_parse_lower cs : hex_parse (map hex_lower cs) = hex_parse cs.
Proof.
  remember (length cs) as n eqn:Hn. revert cs Hn.
  induction (lt_wf n) as [n _ IH]; intros [|c0 [|c1 cs]] Hn; [done..|].
  cbn [map hex_parse]. by rewrite !hex_value_lower, (IH (length cs) ltac:(simpl in *; lia) cs eq_refl).
Qed.

Lemma hex_parse_canonical cs bs :
  hex_parse cs = Some bs -> Forall u8 bs /\ map hex_lower cs = hex_text false bs.
Proof.
  remember (length cs) as n eqn:Hn. revert cs bs Hn.
  induction (lt_wf n) as [n _ IH]; intros [|c0 [|c1 cs]] bs Hn H; cbn in H; simplify_eq; [done|].
  destruct (_ || _) eqn:E; [done|]. apply orb_false_iff in E as [E0 E1].
  apply Z.eqb_neq in E0, E1.
  destruct (hex_parse cs) as [r|] eqn:Er; simplify_eq/=.
  destruct (IH (length cs) ltac:(lia) cs r eq_refl Er) as [Hu Ht].
  destruct (hex_value_range c0), (hex_value_range c1); try lia.
  split; [constructor; [unfold in_width; lia|done]|].
  rewrite Ht, (hex_lower_digit c0), (hex_lower_digit c1) by done.
  unfold hex_text. cbn [flat_map hex_pair app].
  by rewrite Z.div_add_l, (Z.div_small (hex_value c1)), Z.add_0_r,
    (Z.add_comm (_ * 16)), Z.mod_add, (Z.mod_small (hex_value c1)) by lia.
Qed.

(** ** Properties *)

(**  Round trip of the hexadecimal codec, in either letter case: encoding
    bytes into a buffer that holds [2n] characters succeeds, and decoding what
    it wrote returns [ok] and exactly those bytes, both without an access
    outside the buffers. *)
Theorem hex_roundtrip (uppercase : bool) (bs out1 out2 : list Z) :
  Forall u8 bs -> (hex_encoded_size (length bs) <= length out1)%nat ->
  (length bs <= length out2)%nat ->
  exists text, hex_encode (Some bs) (length bs) (Some out1) (length out1) uppercase
      = Done (s_ok, hex_encoded_size (length bs), Some text)
    /\ hex_decode (Some text) (hex_encoded_size (length bs)) (Some out2) (length out2)
      = Done (s_ok, length bs, Some (wrote out2 0 bs)).
Proof.
  intros Hb H1 H2. exists (wrote out1 0 (hex_text uppercase bs)).
  pose proof (hex_encode_spec uppercase bs [] out1 (length out1) Hb ltac:(lia)) as E.
  rewrite app_nil_r, decide_True in E by done. split; [exact E|].
  rewrite (wrote_0 out1), <-(length_hex_text uppercase).
  destruct (hex_decode_spec (hex_text uppercase bs)
    (drop (length (hex_text uppercase bs)) out1) out2 (length out2) ltac:(lia))
    as (r & -> & Hr). assert (Hp := hex_parse_text uppercase bs Hb).
  assert (Hl := length_hex_text uppercase bs). unfold hex_encoded_size in *.
  assert (Hd : (length (hex_text uppercase bs) / 2 = length bs)%nat)
    by (rewrite Hl, Nat.div_mul; lia).
  assert (Hodd : Nat.odd (length (hex_text uppercase bs)) = false)
    by (rewrite Hl, Nat.odd_mul; apply andb_false_r).
  inversion Hr; simplify_eq; try lia; try congruence; try done;
    by rewrite Hodd in *.
Qed.

Lemma hex_roundtrip_witness :
  exists text, hex_encode (Some [202; 254]) 2 (Some [0; 0; 0; 0; 7]) 5 true = Done (s_ok, 4%nat, Some text)
    /\ hex_decode (Some text) 4 (Some [9; 9; 9]) 3 = Done (s_ok, 2%nat, Some [202; 254; 9]).
Proof.
  apply (hex_roundtrip true [202; 254] [0; 0; 0; 0; 7] [9; 9; 9]).
  - repeat constructor; unfold in_width; lia.
  - vm_compute. lia.
  - simpl. lia.
Defined.

(**  The decoder is exact: on any text and any output buffer it is memory
    safe, and it reports [ok] precisely for the texts that are the encoding of
    some bytes up to letter case; then it has written those bytes and nothing
    beyond them.  Otherwise the text is odd, does not fit ([full]) or has a
    character that is no digit, and the reported size is 0. *)
Theorem hex_decode_exact (cs post out : list Z) (cap : nat) :
  (cap <= length out)%nat ->
  exists r, hex_decode (Some (cs ++ post)) (length cs) (Some out) cap = Done r
    /\ hex_decoded cs cap out r
    /\ forall n out', r = (s_ok, n, out') <-> exists bs, Forall u8 bs /\ length bs = n
         /\ (n <= cap)%nat /\ map hex_lower cs = hex_text false bs
         /\ out' = Some (wrote out 0 bs).
Proof.
  intros Hcap. destruct (hex_decode_spec cs post out cap Hcap) as (r & E & Hr).
  exists r. split; [done|]. split; [done|]. intros n out'. split.
  - intros ->. inversion Hr; simplify_eq. destruct (hex_parse_canonical cs bs) as [Hu Ht]; [done|].
    by exists bs.
  - intros (bs & Hu & <- & Hc & Ht & ->).
    assert (Hp : hex_parse cs = Some bs) by (rewrite <-hex_parse_lower, Ht; by apply hex_parse_text).
    assert (Hl := hex_parse_even _ _ Hp).
    assert (Hd : (length cs / 2 = length bs)%nat) by (rewrite Hl, Nat.mul_comm, Nat.div_mul; lia).
    assert (Hodd : Nat.odd (length cs) = false) by (rewrite Hl, Nat.odd_mul; done).
    inversion Hr; simplify_eq; try lia; try congruence; try done;
      by rewrite Hodd in *.
Qed.

Lemma hex_decode_exact_witness :
  exists n out', hex_decode (Some (chars "cAfE" ++ [])) 4 (Some [0; 0; 0]) 3 = Done (s_ok, n, out').
Proof.
  destruct (hex_decode_exact (chars "cAfE") [] [0; 0; 0] 3 ltac:(simpl; lia)) as (r & E & _ & H).
  exists 2%nat, (Some [202; 254; 0]). etransitivity; [exact E|]. f_equal. apply H.
  exists [202; 254]. repeat split; [repeat constructor; unfold in_width; lia|lia].
Defined.
