(* ===== verification/Base64.v ===== *)
(** * Base64 codec (castle_ext/codecs/base64.hpp)

    RFC 4648 Base64 with the standard and the URL-safe alphabet, optional
    padding and a decoder that rejects every non-canonical text.  Buffers are
    caller-provided and do not overlap; [size_type] has 64 bits and the one place
    where its arithmetic can wrap, the capacity a padded text needs, is computed
    in [Z] with its wrap-around. *)

From S2P Require Import Prelude Status.
Open Scope Z_scope.

Definition base64_encoded_size (input_size : nat) (padding : bool) : nat :=
  let groups := (input_size / 3)%nat in
  let remainder := (input_size mod 3)%nat in
  if (remainder =? 0)%nat then (groups * 4)%nat
  else (groups * 4 + (if padding then 4 else remainder + 1))%nat.

Definition base64_decoded_size (input_size : nat) : nat :=
  ((input_size / 4) * 3 +
   (if (input_size mod 4 =? 0)%nat then 0 else input_size mod 4 - 1))%nat.

Definition base64_value (c : Z) (url_safe : bool) : Z :=
  if (char "A" <=? c) && (c <=? char "Z") then c - char "A"
  else if (char "a" <=? c) && (c <=? char "z") then c - char "a" + 26
  else if (char "0" <=? c) && (c <=? char "9") then c - char "0" + 52
  else if c =? char "+" then (if url_safe then -1 else 62)
  else if c =? char "-" then (if url_safe then 62 else -1)
  else if c =? char "/" then (if url_safe then -1 else 63)
  else if c =? char "_" then (if url_safe then 63 else -1)
  else -1.

Definition base64_char (value : Z) (url_safe : bool) : Z :=
  if value <? 26 then to_u8 (char "A" + value)
  else if value <? 52 then to_u8 (char "a" + (value - 26))
  else if value <? 62 then to_u8 (char "0" + (value - 52))
  else if value =? 62 then (if url_safe then char "-" else char "+")
  else (if url_safe then char "_" else char "/").

(** The state of both loops: [input_index], [output_index] and the output. *)
Definition codec_state : Type := nat * nat * ptr.

(** [output[output_index++] = v]. *)
Definition emit (v : Z) (st : nat * ptr) : exec (nat * ptr) :=
  let '(output_index, output) := st in
  output ← pstore output output_index v;
  Done ((output_index + 1)%nat, output).

Definition base64_encode_cond (input_size : nat) (st : codec_state) : exec bool :=
  let '(input_index, _, _) := st in Done (input_index + 3 <=? input_size)%nat.

Definition base64_encode_body (input : ptr) (url_safe : bool) (st : codec_state)
    : exec (ctl codec_result codec_state) :=
  let '(input_index, output_index, output) := st in
  i0 ← pload input input_index;
  i1 ← pload input (input_index + 1);
  i2 ← pload input (input_index + 2);
  let block := Z.lor (Z.lor (Z.shiftl i0 16) (Z.shiftl i1 8)) i2 in
  o ← emit (base64_char (Z.land (Z.shiftr block 18) 63) url_safe) (output_index, output);
  o ← emit (base64_char (Z.land (Z.shiftr block 12) 63) url_safe) o;
  o ← emit (base64_char (Z.land (Z.shiftr block 6) 63) url_safe) o;
  o ← emit (base64_char (Z.land block 63) url_safe) o;
  Done (Next ((input_index + 3)%nat, o.1, o.2)).

Definition base64_encode_tail (input : ptr) (input_size : nat) (padding url_safe : bool)
    (st : codec_state) : exec codec_result :=
  let '(input_index, output_index, output) := st in
  let remaining := (input_size - input_index)%nat in
  o ← (if negb (remaining =? 0)%nat then
         b0 ← pload input input_index;
         b1 ← (if (remaining =? 2)%nat then pload input (input_index + 1) else Done 0);
         let c0 := Z.shiftr b0 2 in
         let c1 := Z.lor (Z.shiftl (Z.land b0 3) 4) (Z.shiftr b1 4) in
         o ← emit (base64_char c0 url_safe) (output_index, output);
         o ← emit (base64_char c1 url_safe) o;
         if (remaining =? 2)%nat then
           o ← emit (base64_char (Z.shiftl (Z.land b1 15) 2) url_safe) o;
           if padding then emit (char "=") o else Done o
         else if padding then
           o ← emit (char "=") o; emit (char "=") o
         else Done o
       else Done (output_index, output));
  Done (s_ok, o.1, o.2).

Definition base64_encode (input : ptr) (input_size : nat) (output : ptr)
    (output_capacity : nat) (padding url_safe : bool) : exec codec_result :=
  if is_null input && negb (input_size =? 0)%nat then Done (s_invalid_argument, 0%nat, output)
  else if is_null output && negb (output_capacity =? 0)%nat
  then Done (s_invalid_argument, 0%nat, output)
  else
    let required := base64_encoded_size input_size padding in
    if (output_capacity <? required)%nat then Done (s_full, 0%nat, output)
    else if negb (required =? 0)%nat && is_null output
    then Done (s_invalid_argument, 0%nat, output)
    else after (while_loop (S input_size) (base64_encode_cond input_size)
                  (base64_encode_body input url_safe) (0%nat, 0%nat, output))
           (base64_encode_tail input input_size padding url_safe).

(** ** Decoding *)

(** The three bytes a group of four values carries. *)
Definition byte0 (v0 v1 : Z) : Z := to_u8 (Z.lor (Z.shiftl v0 2) (Z.shiftr v1 4)).
Definition byte1 (v1 v2 : Z) : Z := to_u8 (Z.lor (Z.shiftl v1 4) (Z.shiftr v2 2)).
Definition byte2 (v2 v3 : Z) : Z := to_u8 (Z.lor (Z.shiftl v2 6) v3).

(** Lines 379-391: the last group of an unpadded text with two characters. *)
Definition base64_decode_two (output_capacity : nat) (allow_unpadded has_partial : bool)
    (padded_groups group remaining : nat) (v0 v1 : Z) (st : codec_state)
    : exec (ctl codec_result codec_state) :=
  let '(input_index, output_index, output) := st in
  if negb (remaining =? 2)%nat || negb (group + 1 =? padded_groups)%nat || negb has_partial
     || negb allow_unpadded
  then Done (Return (s_invalid_argument, 0%nat, output))
  else if negb (Z.land v1 15 =? 0) then Done (Return (s_invalid_argument, 0%nat, output))
  else if (output_capacity <? output_index + 1)%nat then Done (Return (s_full, 0%nat, output))
  else o ← emit (byte0 v0 v1) (output_index, output);
       Done (Next (input_index, o.1, o.2)).

Definition base64_decode_body (input : ptr) (input_size output_capacity : nat)
    (url_safe allow_unpadded has_partial : bool) (padded_groups : nat)
    (group : nat) (st : codec_state) : exec (ctl codec_result codec_state) :=
  let '(input_index, output_index, output) := st in
  let invalid output := Done (Return (s_invalid_argument, 0%nat, output)) in
  let full := Done (Return (s_full, 0%nat, output)) in
  let remaining := (input_size - input_index)%nat in
  if (remaining <? 2)%nat then invalid output else
  c0 ← pload input input_index;
  c1 ← pload input (input_index + 1);
  let v0 := base64_value c0 url_safe in
  let v1 := base64_value c1 url_safe in
  if (v0 <? 0) || (v1 <? 0) then invalid output else
  let two ii := base64_decode_two output_capacity allow_unpadded has_partial padded_groups
                  group remaining v0 v1 (ii, output_index, output) in
  if (2 <? remaining)%nat then
    c2 ← pload input (input_index + 2);
    if negb (c2 =? char "=") then
      let v2 := base64_value c2 url_safe in
      if v2 <? 0 then invalid output else
      c3 ← (if (3 <? remaining)%nat then c3 ← pload input (input_index + 3); Done (Some c3)
            else Done None);
      let input_index := (input_index + if (3 <? remaining)%nat then 4 else 3)%nat in
      let p3 := bool_decide (c3 = Some (char "=")) in
      match (if p3 then None else c3) with
      | Some c3 =>
          let v3 := base64_value c3 url_safe in
          if v3 <? 0 then invalid output
          else if (output_capacity <? output_index + 3)%nat then full
          else o ← emit (byte0 v0 v1) (output_index, output);
               o ← emit (byte1 v1 v2) o;
               o ← emit (byte2 v2 v3) o;
               Done (Next (input_index, o.1, o.2))
      | None =>
          if p3 || (remaining =? 3)%nat then
            if negb (Z.land v2 3 =? 0) then invalid output
            else if (output_capacity <? output_index + 2)%nat then full
            else o ← emit (byte0 v0 v1) (output_index, output);
                 o ← emit (byte1 v1 v2) o;
                 if p3 && (input_index <? input_size)%nat then invalid o.2
                 else Done (Next (input_index, o.1, o.2))
          else two input_index
      end
    else
      let input_index := (input_index + 3)%nat in
      bad ← (if negb (remaining =? 4)%nat || (input_size <=? input_index)%nat then Done true
             else c3 ← pload input input_index; Done (negb (c3 =? char "=")));
      if (bad : bool) then invalid output
      else if negb (Z.land v1 15 =? 0) then invalid output
      else if (output_capacity <? output_index + 1)%nat then full
      else o ← emit (byte0 v0 v1) (output_index, output);
           Done (Next ((input_index + 1)%nat, o.1, o.2))
  else two (input_index + 2)%nat.

(** [decoded_capacity_needed], a [size_type]. *)
Definition base64_needed (input : ptr) (input_size : nat) : exec Z :=
  last ← pload input (input_size - 1);
  if last =? char "=" then
    last2 ← (if (2 <=? input_size)%nat then pload input (input_size - 2) else Done 0);
    Done (to_u64 (Z.of_nat ((input_size / 4) * 3) - (if last2 =? char "=" then 2 else 1)))
  else Done (Z.of_nat (base64_decoded_size input_size)).

Definition base64_decode (input : ptr) (input_size : nat) (output : ptr)
    (output_capacity : nat) (url_safe allow_unpadded : bool) : exec codec_result :=
  if is_null input && negb (input_size =? 0)%nat then Done (s_invalid_argument, 0%nat, output)
  else if is_null output && negb (output_capacity =? 0)%nat
  then Done (s_invalid_argument, 0%nat, output)
  else if (input_size =? 0)%nat then Done (s_ok, 0%nat, output)
  else
    let groups := (input_size / 4)%nat in
    let remainder := (input_size mod 4)%nat in
    let has_partial := negb (remainder =? 0)%nat in
    if has_partial && (negb allow_unpadded || (remainder =? 1)%nat)
    then Done (s_invalid_argument, 0%nat, output)
    else
      let padded_groups := (if has_partial then groups + 1 else groups)%nat in
      needed ← base64_needed input input_size;
      if Z.of_nat output_capacity <? needed then Done (s_full, 0%nat, output)
      else if negb (needed =? 0) && is_null output
      then Done (s_invalid_argument, 0%nat, output)
      else after (for_range 0 padded_groups
                    (base64_decode_body input input_size output_capacity url_safe allow_unpadded
                       has_partial padded_groups) (0%nat, 0%nat, output))
             (fun '(_, output_index, output) => Done (s_ok, output_index, output)).

(** ** The text of a byte sequence and the bytes of a text *)

Fixpoint b64_text (padding url_safe : bool) (bs : list Z) : list Z :=
  let c v := base64_char v url_safe in
  match bs with
  | [] => []
  | [b0] => [c (b0 / 4); c (b0 mod 4 * 16)] ++ (if padding then [char "="; char "="] else [])
  | [b0; b1] => [c (b0 / 4); c (b0 mod 4 * 16 + b1 / 16); c (b1 mod 16 * 4)]
                ++ (if padding then [char "="] else [])
  | b0 :: b1 :: b2 :: bs =>
      [c (b0 / 4); c (b0 mod 4 * 16 + b1 / 16); c (b1 mod 16 * 4 + b2 / 64); c (b2 mod 64)]
      ++ b64_text padding url_safe bs
  end.

Fixpoint b64_parse (url_safe allow_unpadded : bool) (cs : list Z) : option (list Z) :=
  let v c := base64_value c url_safe in
  let ok c := 0 <=? v c in
  match cs with
  | [] => Some []
  | [c0; c1] =>
      if allow_unpadded && ok c0 && ok c1 && (Z.land (v c1) 15 =? 0)
      then Some [byte0 (v c0) (v c1)] else None
  | [c0; c1; c2] =>
      if allow_unpadded && ok c0 && ok c1 && negb (c2 =? char "=") && ok c2
         && (Z.land (v c2) 3 =? 0)
      then Some [byte0 (v c0) (v c1); byte1 (v c1) (v c2)] else None
  | c0 :: c1 :: c2 :: c3 :: rest =>
      if ok c0 && ok c1 then
        if c2 =? char "=" then
          if bool_decide (rest = []) && (c3 =? char "=") && (Z.land (v c1) 15 =? 0)
          then Some [byte0 (v c0) (v c1)] else None
        else if ok c2 then
          if c3 =? char "=" then
            if bool_decide (rest = []) && (Z.land (v c2) 3 =? 0)
            then Some [byte0 (v c0) (v c1); byte1 (v c1) (v c2)] else None
          else if ok c3 then
            app [byte0 (v c0) (v c1); byte1 (v c1) (v c2); byte2 (v c2) (v c3)]
              <$> b64_parse url_safe allow_unpadded rest
          else None
        else None
      else None
  | _ => None
  end.

(** ** Encoding writes the text *)

Lemma emit_wrote out bs v :
  (length bs < length out)%nat ->
  emit v (length bs, Some (wrote out 0 bs))
  = Done (length (bs ++ [v]), Some (wrote out 0 (bs ++ [v]))).
Proof.
  intros. unfold emit. rewrite pstore_wrote by done. exec_simpl. by rewrite length_app.
Qed.

(** Run every [emit] of the goal. *)
Ltac run_emits :=
  repeat (rewrite emit_wrote by (rewrite ?length_app; cbn [length]; lia); exec_simpl).

Lemma length_b64_text pad url bs :
  length (b64_text pad url bs) = base64_encoded_size (length bs) pad.
Proof.
  unfold base64_encoded_size. remember (length bs) as n eqn:Hn. revert bs Hn.
  induction (lt_wf n) as [n _ IH]; intros [|b0 [|b1 [|b2 bs]]] Hn; cbn [length] in *; subst;
    [done|by destruct pad..|].
  cbn [b64_text app length]. rewrite (IH (length bs)) by (done || lia).
  replace (S (S (S (length bs)))) with (length bs + 1 * 3)%nat by lia.
  rewrite Nat.div_add, Nat.Div0.mod_add by lia.
  destruct (_ =? _)%nat; lia.
Qed.

Lemma block_fields b0 b1 b2 :
  u8 b0 -> u8 b1 -> u8 b2 ->
  let block := Z.lor (Z.lor (Z.shiftl b0 16) (Z.shiftl b1 8)) b2 in
  Z.land (Z.shiftr block 18) 63 = b0 / 4
  /\ Z.land (Z.shiftr block 12) 63 = b0 mod 4 * 16 + b1 / 16
  /\ Z.land (Z.shiftr block 6) 63 = b1 mod 16 * 4 + b2 / 64
  /\ Z.land block 63 = b2 mod 64.
Proof.
  unfold in_width. intros H0 H1 H2. cbv zeta.
  rewrite <-Z.lor_assoc, (lor_shiftl_add 8), lor_shiftl_add by lia. bits_to_arith. repeat split; divlia.
Qed.

Lemma tail_fields b0 b1 :
  u8 b0 -> u8 b1 ->
  Z.shiftr b0 2 = b0 / 4
  /\ Z.lor (Z.shiftl (Z.land b0 3) 4) (Z.shiftr b1 4) = b0 mod 4 * 16 + b1 / 16
  /\ Z.shiftl (Z.land b1 15) 2 = b1 mod 16 * 4.
Proof.
  unfold in_width. intros H0 H1. bits_to_arith.
  rewrite lor_shiftl_add by divlia. rewrite Z.shiftl_mul_pow2 by lia. done.
Qed.

Lemma base64_encode_loop pad url post out bs : forall pre txt fuel,
  Forall u8 bs -> (length bs < fuel)%nat ->
  (length txt + length (b64_text pad url bs) <= length out)%nat ->
  after (while_loop fuel (base64_encode_cond (length pre + length bs))
           (base64_encode_body (Some (pre ++ bs ++ post)) url)
           (length pre, length txt, Some (wrote out 0 txt)))
    (base64_encode_tail (Some (pre ++ bs ++ post)) (length pre + length bs) pad url)
  = Done (s_ok, length (txt ++ b64_text pad url bs),
          Some (wrote out 0 (txt ++ b64_text pad url bs))).
Proof.
  remember (length bs) as n eqn:Hn. revert bs Hn.
  induction (lt_wf n) as [n _ IH]; intros bs Hn pre txt [|fuel] Hb Hf Hout; [lia|].
  cbn [while_loop]. unfold base64_encode_cond at 1.
  destruct (Nat.leb_spec (length pre + 3) (length pre + n)) as [Hge|Hlt].
  - destruct bs as [|b0 [|b1 [|b2 bs]]]; simpl in Hn; try lia.
    apply Forall_cons in Hb as [H0 [H1 [H2 Hb]%Forall_cons]%Forall_cons].
    cbn [b64_text app length] in Hout. unfold base64_encode_body at 1.
    rewrite (pload_mid pre _ post 0 b0 (length pre)) by (done || lia). exec_simpl.
    rewrite (pload_mid pre _ post 1 b1 (length pre + 1)) by done. exec_simpl.
    rewrite (pload_mid pre _ post 2 b2 (length pre + 2)) by done. exec_simpl.
    destruct (block_fields b0 b1 b2 H0 H1 H2) as (-> & -> & -> & ->). run_emits.
    cbn [fst snd]. rewrite <-!app_assoc.
    specialize (IH (length bs) ltac:(lia) bs eq_refl (pre ++ [b0; b1; b2])).
    rewrite length_app, <-!app_assoc in IH. simpl (length [_; _; _]) in IH.
    replace (length pre + n)%nat with (length pre + 3 + length bs)%nat by lia.
    cbn [app] in *. rewrite IH; [by rewrite <-app_assoc|done|lia|].
    rewrite length_app. cbn [length]. lia.
  - cbn [after]. unfold base64_encode_tail. rewrite Nat.add_sub'.
    destruct bs as [|b0 [|b1 [|b2 bs]]]; simpl in Hn; subst n; try lia.
    + simpl. by rewrite app_nil_r.
    + apply Forall_cons in Hb as [H0 _]. cbn [Nat.eqb negb].
      rewrite (pload_mid pre _ post 0 b0 (length pre)) by (done || lia). exec_simpl.
      destruct (tail_fields b0 0 H0 ltac:(done)) as (-> & -> & _).
      change (0 / 16) with 0. rewrite Z.add_0_r. cbn [b64_text app length] in Hout.
      destruct pad; cbn [length] in Hout; run_emits; cbn [fst snd]; by rewrite <-!app_assoc.
    + apply Forall_cons in Hb as [H0 [H1 _]%Forall_cons]. cbn [Nat.eqb negb].
      rewrite (pload_mid pre _ post 0 b0 (length pre)) by (done || lia). exec_simpl.
      rewrite (pload_mid pre _ post 1 b1 (length pre + 1)) by done. exec_simpl.
      destruct (tail_fields b0 b1 H0 H1) as (-> & -> & ->). cbn [b64_text app length] in Hout.
      destruct pad; cbn [length] in Hout; run_emits; cbn [fst snd]; by rewrite <-!app_assoc.
Qed.

Lemma base64_encode_spec pad url bs post out cap :
  Forall u8 bs -> (cap <= length out)%nat ->
  base64_encode (Some (bs ++ post)) (length bs) (Some out) cap pad url =
    Done (if decide (base64_encoded_size (length bs) pad <= cap)%nat
          then (s_ok, base64_encoded_size (length bs) pad, Some (wrote out 0 (b64_text pad url bs)))
          else (s_full, 0%nat, Some out)).
Proof.
  intros Hb Hcap. unfold base64_encode. cbn [is_null andb].
  case_decide; destruct (Nat.ltb_spec cap (base64_encoded_size (length bs) pad));
    try lia; [|done]. rewrite andb_false_r.
  pose proof (base64_encode_loop pad url post out bs [] [] (S (length bs)) Hb ltac:(lia)) as L.
  rewrite wrote_nil, length_b64_text in L. cbn [app length plus] in L.
  etransitivity; [apply L; lia|]. by rewrite length_b64_text.
Qed.

(** ** Decoding parses the text *)

(** What the group loop leaves behind, for the parse [r] of the rest of the
    text: every byte written, or a failure with some of them written, which is
    due to the text or to the capacity. *)
Definition b64_loop_end (cap : nat) (out dn : list Z) (r : option (list Z))
    (res : ctl codec_result codec_state) : Prop :=
  (exists bs ii, r = Some bs /\ (length (dn ++ bs) <= cap)%nat
     /\ res = Next (ii, length (dn ++ bs), Some (wrote out 0 (dn ++ bs))))
  \/ (exists st part, (st = s_invalid_argument \/ st = s_full)
     /\ (length (dn ++ part) <= cap)%nat
     /\ res = Return (st, 0%nat, Some (wrote out 0 (dn ++ part)))
     /\ forall bs, r = Some bs -> (cap < length (dn ++ bs))%nat).

(** A failure that leaves the bytes written so far. *)
Lemma b64_end_fail cap out dn r st :
  (st = s_invalid_argument \/ st = s_full) -> (length dn <= cap)%nat ->
  (forall bs, r = Some bs -> (cap < length (dn ++ bs))%nat) ->
  b64_loop_end cap out dn r (Return (st, 0%nat, Some (wrote out 0 dn))).
Proof. intros Hst Hl Hr. right. exists st, []. rewrite !app_nil_r. done. Qed.

(** Bytes already written move from the parse to the done part. *)
Lemma b64_end_app cap out dn bs r res :
  b64_loop_end cap out (dn ++ bs) r res -> b64_loop_end cap out dn (app bs <$> r) res.
Proof.
  intros [(bs' & ii & -> & Hl & ->)|(st & part & Hst & Hl & -> & Hr)].
  - left. exists (bs ++ bs'), ii. by rewrite app_assoc.
  - right. exists st, (bs ++ part). rewrite app_assoc. repeat split; try done.
    destruct r as [r|]; [|done]. simpl. intros ? [= <-]. rewrite app_assoc. by apply Hr.
Qed.

Section DecodeGroup.
Context (url au : bool) (out : list Z) (cap : nat) (Hcap : (cap <= length out)%nat).
Context (pre cs post dn : list Z) (Hdn : (length dn <= cap)%nat).
Context (partial : bool) (groups group : nat).

Abbreviation body := (base64_decode_body (Some (pre ++ cs ++ post)) (length pre + length cs)
  cap url au partial groups group (length pre, length dn, Some (wrote out 0 dn))).

(** Load the [k]-th character of the group. *)
Ltac load_char k c i := rewrite (pload_mid pre _ post k c i) by (done || lia); exec_simpl.

Ltac fail_end := eexists; split; [reflexivity|]; apply b64_end_fail; [tauto|done|].

Ltac fail_left := eexists; split; [reflexivity|]; left;
  eexists; split; [reflexivity|]; apply b64_end_fail; [tauto|done|].

Lemma decode_two c0 c1 :
  cs = [c0; c1] -> partial = true -> (group + 1)%nat = groups ->
  exists res, body = Done res /\ b64_loop_end cap out dn (b64_parse url au cs) res.
Proof using Hcap Hdn.
  intros -> -> <-. unfold base64_decode_body. cbn [length]. rewrite Nat.add_sub'. nat_tests.
  load_char 0%nat c0 (length pre). load_char 1%nat c1 (length pre + 1)%nat.
  cbn [b64_parse]. rewrite !(Z.leb_antisym _ 0).
  destruct (base64_value c0 url <? 0); [fail_end; simpl; rewrite andb_false_r; done|].
  destruct (base64_value c1 url <? 0); [fail_end; simpl; rewrite !andb_false_r; done|].
  cbn [orb negb]. unfold base64_decode_two. nat_tests. cbn [negb orb].
  destruct au; [|by fail_end]. cbn [andb negb]. destruct (_ =? 0); [|by fail_end].
  cbn [negb]. destruct (Nat.ltb_spec cap (length dn + 1)).
  { fail_end. intros ? [= <-]. rewrite length_app. simpl. lia. }
  run_emits. eexists; split; [done|]. left. eexists _, _. split; [done|].
  split; [rewrite length_app; simpl; lia|done].
Qed.

Lemma decode_three c0 c1 c2 :
  cs = [c0; c1; c2] -> au = true ->
  exists res, body = Done res /\ b64_loop_end cap out dn (b64_parse url au cs) res.
Proof using Hcap Hdn.
  intros -> Hau. unfold base64_decode_body. cbn [length]. rewrite Nat.add_sub'. nat_tests.
  load_char 0%nat c0 (length pre). load_char 1%nat c1 (length pre + 1)%nat.
  cbn [b64_parse]. rewrite !(Z.leb_antisym _ 0), Hau.
  destruct (base64_value c0 url <? 0); [by fail_end|].
  destruct (base64_value c1 url <? 0); [by fail_end|]. cbn [orb negb andb].
  load_char 2%nat c2 (length pre + 2)%nat.
  destruct (c2 =? char "="); cbn [negb andb orb]; exec_simpl; [by fail_end|].
  destruct (base64_value c2 url <? 0); [by fail_end|]. cbn [negb andb orb].
  rewrite bool_decide_false by done. cbn [orb andb].
  destruct (_ =? 0); [|by fail_end]. cbn [negb]. destruct (Nat.ltb_spec cap (length dn + 2)).
  { fail_end. intros ? [= <-]. rewrite length_app. simpl. lia. }
  run_emits. cbn [fst snd]. rewrite <-app_assoc. eexists; split; [done|]. left.
  eexists _, _. split; [done|]. split; [rewrite length_app; simpl; lia|done].
Qed.

(** A group of four characters: the loop stops, or hands the rest over. *)
Lemma decode_four c0 c1 c2 c3 rest :
  cs = c0 :: c1 :: c2 :: c3 :: rest ->
  exists res, body = Done res /\
    ((exists r, res = Return r /\ b64_loop_end cap out dn (b64_parse url au cs) res) \/
     (exists bs, res = Next ((length pre + 4)%nat, length (dn ++ bs), Some (wrote out 0 (dn ++ bs)))
        /\ (length (dn ++ bs) <= cap)%nat
        /\ b64_parse url au cs = app bs <$> b64_parse url au rest)).
Proof using Hcap Hdn.
  intros ->. unfold base64_decode_body. cbn [length]. rewrite Nat.add_sub'. nat_tests.
  load_char 0%nat c0 (length pre). load_char 1%nat c1 (length pre + 1)%nat.
  cbn [b64_parse]. rewrite !(Z.leb_antisym _ 0).
  destruct (base64_value c0 url <? 0); [by fail_left|].
  destruct (base64_value c1 url <? 0); [by fail_left|]. cbn [orb negb andb].
  load_char 2%nat c2 (length pre + 2)%nat.
  destruct (c2 =? char "="); cbn [negb andb orb].
  - (* the group ends with two padding characters *)
    destruct rest as [|c4 rest]; cbn [length].
    + nat_tests. cbn [negb orb]. load_char 3%nat c3 (length pre + 3)%nat.
      rewrite bool_decide_true by done. cbn [andb].
      destruct (c3 =? char "="); [|by fail_left]. cbn [negb andb].
      destruct (_ =? 0); [|by fail_left]. cbn [negb].
      destruct (Nat.ltb_spec cap (length dn + 1)).
      { fail_left. intros ? [= <-]. rewrite length_app. simpl. lia. }
      run_emits. eexists; split; [done|]. right.
      exists [byte0 (base64_value c0 url) (base64_value c1 url)]. split; [|split; [|done]].
      { simpl. do 3 f_equal. lia. }
      rewrite length_app. simpl. lia.
    + nat_tests. cbn [negb orb]. exec_simpl. rewrite bool_decide_false by done. by fail_left.
  - destruct (base64_value c2 url <? 0); [by fail_left|]. cbn [negb].
    load_char 3%nat c3 (length pre + 3)%nat.
    destruct (Z.eqb_spec c3 (char "=")) as [->|Hc3].
    + rewrite bool_decide_true by done. cbn [orb].
      destruct (_ =? 0); cbn [negb andb]; [|rewrite andb_false_r; by fail_left].
      rewrite andb_true_r. destruct (Nat.ltb_spec cap (length dn + 2)).
      { fail_left. case_bool_decide; [|done]. intros ? [= <-]. rewrite length_app. simpl. lia. }
      run_emits. cbn [fst snd]. rewrite <-app_assoc. cbn [app].
      destruct rest as [|c4 rest]; cbn [length]; nat_tests.
      * rewrite bool_decide_true by done. eexists; split; [done|]. right.
        eexists. split; [reflexivity|]. split; [|done]. rewrite length_app. simpl. lia.
      * rewrite bool_decide_false by done. eexists; split; [done|]. left. eexists; split; [done|]. right.
        eexists _, _. split; [by left|]. split; [|split; [reflexivity|done]].
        rewrite length_app. simpl. lia.
    + rewrite bool_decide_false by congruence.
      destruct (base64_value c3 url <? 0); [by fail_left|]. cbn [negb].
      destruct (Nat.ltb_spec cap (length dn + 3)).
      { fail_left. destruct (b64_parse url au rest); [|done].
        intros ? [= <-]. rewrite length_app. simpl. lia. }
      run_emits. cbn [fst snd]. rewrite <-!app_assoc. cbn [app]. eexists; split; [done|]. right.
      eexists. split; [reflexivity|]. split; [rewrite length_app; simpl; lia|done].
Qed.
End DecodeGroup.

(** The group loop from the [k]-th group of the text on. *)
Lemma base64_decode_loop url au out cap post groups partial k : (cap <= length out)%nat ->
  forall cs pre dn group r, (length dn <= cap)%nat ->
  length cs = (4 * k + r)%nat ->
  (r = 0%nat /\ partial = false /\ groups = (group + k)%nat
   \/ (r = 2%nat \/ r = 3%nat) /\ partial = true /\ au = true /\ groups = (group + k + 1)%nat) ->
  exists res, for_range group (groups - group)
      (base64_decode_body (Some (pre ++ cs ++ post)) (length pre + length cs) cap url au partial groups)
      (length pre, length dn, Some (wrote out 0 dn)) = Done res
    /\ b64_loop_end cap out dn (b64_parse url au cs) res.
Proof.
  intros Hcap. induction k as [|k IH]; intros cs pre dn group r Hdn Hlen Hg.
  - destruct Hg as [(-> & -> & ->)|(Hr & -> & -> & ->)].
    + destruct cs; [|simpl in *; lia]. rewrite Nat.add_0_r, Nat.sub_diag. eexists; split; [done|].
      left. exists [], (length pre). rewrite app_nil_r. done.
    + replace (group + 0 + 1 - group)%nat with 1%nat by lia. cbn [for_range].
      destruct cs as [|c0 [|c1 [|c2 [|c3 cs]]]]; simpl in Hlen; try lia.
      * destruct (decode_two url true out cap Hcap pre [c0; c1] post dn Hdn true (group + 0 + 1) group
          c0 c1) as (res & -> & He); [done|done|lia|].
        exists res. by destruct res.
      * destruct (decode_three url true out cap Hcap pre [c0; c1; c2] post dn Hdn true
          (group + 0 + 1) group c0 c1 c2) as (res & -> & He); [done|done|].
        exists res. by destruct res.
  - replace (groups - group)%nat with (S (groups - S group)) by lia. cbn [for_range].
    destruct cs as [|c0 [|c1 [|c2 [|c3 cs]]]]; simpl in Hlen; try lia.
    destruct (decode_four url au out cap Hcap pre (c0 :: c1 :: c2 :: c3 :: cs) post dn Hdn partial
      groups group c0 c1 c2 c3 cs eq_refl) as (res & -> & [(x & -> & He)|(bs & -> & Hbs & Hp)]).
    { exists (Return x). done. }
    destruct (IH cs (pre ++ [c0; c1; c2; c3]) (dn ++ bs) (S group) r Hbs) as (res & Hres & He);
      [lia|intuition lia|].
    exists res. rewrite Hp. split; [|by apply b64_end_app].
    rewrite <-Hres, (length_app pre), <-app_assoc. cbn [length app].
    replace (length pre + 4 + length cs)%nat with (length pre + S (S (S (S (length cs)))))%nat by lia.
    done.
Qed.

(** ** The parse and the text determine each other *)

Lemma base64_value_char v url : 0 <= v < 64 -> base64_value (base64_char v url) url = v.
Proof.
  revert v. apply (all_below_decide 64 (fun v => base64_value (base64_char v url) url = v)).
  by destruct url.
Qed.

Lemma base64_char_not_pad v url : 0 <= v < 64 -> base64_char v url <> char "=".
Proof.
  revert v. apply (all_below_decide 64 (fun v => base64_char v url <> char "=")).
  by destruct url.
Qed.

(** Only the characters of the alphabet have a value. *)
Lemma base64_char_value c url :
  0 <= base64_value c url ->
  base64_value c url < 64 /\ base64_char (base64_value c url) url = c.
Proof.
  destruct (decide (0 <= c < 128)) as [Hc|Hc].
  - revert c Hc. apply (all_below_decide 128 (fun c => 0 <= base64_value c url ->
      base64_value c url < 64 /\ base64_char (base64_value c url) url = c)).
    by destruct url.
  - assert (base64_value c url = -1); [|lia].
    unfold base64_value. change (char "A") with 65. change (char "Z") with 90.
    change (char "a") with 97. change (char "z") with 122. change (char "0") with 48.
    change (char "9") with 57. change (char "+") with 43. change (char "-") with 45.
    change (char "/") with 47. change (char "_") with 95.
    replace (_ && _) with false by lia. replace (_ && _) with false by lia.
    replace (_ && _) with false by lia. by cmp_cases; try lia.
Qed.

Lemma byte_fields v0 v1 v2 v3 :
  0 <= v0 < 64 -> 0 <= v1 < 64 -> 0 <= v2 < 64 -> 0 <= v3 < 64 ->
  byte0 v0 v1 = v0 * 4 + v1 / 16 /\ byte1 v1 v2 = v1 mod 16 * 16 + v2 / 4
  /\ byte2 v2 v3 = v2 mod 4 * 64 + v3.
Proof.
  intros. unfold byte0, byte1, byte2, wrap. rewrite !Z.shiftr_div_pow2 by lia.
  rewrite !lor_shiftl_add by divlia. repeat split; divlia.
Qed.

(** The sextets of three bytes and back. *)
Lemma sextets b0 b1 b2 :
  u8 b0 -> u8 b1 -> u8 b2 ->
  let v0 := b0 / 4 in let v1 := b0 mod 4 * 16 + b1 / 16 in
  let v2 := b1 mod 16 * 4 + b2 / 64 in let v3 := b2 mod 64 in
  (0 <= v0 < 64 /\ 0 <= v1 < 64 /\ 0 <= v2 < 64 /\ 0 <= v3 < 64)
  /\ byte0 v0 v1 = b0 /\ byte1 v1 v2 = b1 /\ byte2 v2 v3 = b2.
Proof.
  unfold in_width. intros H0 H1 H2. cbv zeta.
  assert (Hr : (0 <= b0 / 4 < 64 /\ 0 <= b0 mod 4 * 16 + b1 / 16 < 64
    /\ 0 <= b1 mod 16 * 4 + b2 / 64 < 64 /\ 0 <= b2 mod 64 < 64)) by (repeat split; divlia).
  split; [done|]. destruct Hr as (R0 & R1 & R2 & R3).
  destruct (byte_fields _ _ _ _ R0 R1 R2 R3) as (-> & -> & ->). repeat split; divlia.
Qed.

(** A sextet whose unused low bits are clear. *)
Lemma spare_bits k m v : 0 <= k -> m = Z.ones k -> Z.land (v * 2 ^ k) m =? 0.
Proof. intros Hk ->. rewrite Z.land_ones, Z_mod_mult by done. done. Qed.

Lemma b64_parse_text pad url au bs :
  Forall u8 bs -> pad || au -> b64_parse url au (b64_text pad url bs) = Some bs.
Proof.
  intros Hb Hpad. remember (length bs) as n eqn:Hn. revert bs Hn Hb.
  induction (lt_wf n) as [n _ IH]; intros [|b0 [|b1 [|b2 bs]]] Hn Hb; [done|..].
  - apply Forall_cons in Hb as [H0 _].
    destruct (sextets b0 0 0 H0) as ((R0 & R1 & _) & E & _); [done..|].
    change (0 / 16) with 0 in *. rewrite Z.add_0_r in *.
    assert (Hs := spare_bits 4 15 (b0 mod 4) ltac:(lia) eq_refl).
    destruct pad, au; simpl in Hpad; try done; cbn [b64_text app b64_parse];
      rewrite !base64_value_char, E, ?(Z.eqb_refl (char "=")) by done;
      rewrite (proj2 (Z.leb_le _ _) (proj1 R0)), (proj2 (Z.leb_le _ _) (proj1 R1));
      change (2 ^ 4) with 16 in Hs; destruct (_ =? 0); done.
  - apply Forall_cons in Hb as [H0 [H1 _]%Forall_cons].
    destruct (sextets b0 b1 0 H0 H1) as ((R0 & R1 & R2 & _) & E0 & E1 & _); [done|].
    change (0 / 64) with 0 in *. rewrite Z.add_0_r in *.
    assert (Hs := spare_bits 2 3 (b1 mod 16) ltac:(lia) eq_refl).
    destruct pad, au; simpl in Hpad; try done; cbn [b64_text app b64_parse];
      rewrite !base64_value_char, E0, E1, ?(Z.eqb_refl (char "=")) by done;
      rewrite (proj2 (Z.eqb_neq _ _) (base64_char_not_pad _ url R2));
      rewrite (proj2 (Z.leb_le _ _) (proj1 R0)), (proj2 (Z.leb_le _ _) (proj1 R1)),
        (proj2 (Z.leb_le _ _) (proj1 R2));
      change (2 ^ 2) with 4 in Hs; destruct (_ =? 0); done.
  - apply Forall_cons in Hb as [H0 [H1 [H2 Hb]%Forall_cons]%Forall_cons].
    destruct (sextets b0 b1 b2 H0 H1 H2) as ((R0 & R1 & R2 & R3) & E0 & E1 & E2).
    cbn [b64_text app b64_parse]. rewrite !base64_value_char, E0, E1, E2 by done.
    rewrite (proj2 (Z.eqb_neq _ _) (base64_char_not_pad _ url R2)),
      (proj2 (Z.eqb_neq _ _) (base64_char_not_pad _ url R3)).
    rewrite (proj2 (Z.leb_le _ _) (proj1 R0)), (proj2 (Z.leb_le _ _) (proj1 R1)),
      (proj2 (Z.leb_le _ _) (proj1 R2)), (proj2 (Z.leb_le _ _) (proj1 R3)). cbn [andb].
    simpl in Hn. by rewrite (IH (length bs) ltac:(lia) bs eq_refl Hb).
Qed.

(** The bytes of four sextets and back. *)
Lemma sextets_of_bytes v0 v1 v2 v3 :
  0 <= v0 < 64 -> 0 <= v1 < 64 -> 0 <= v2 < 64 -> 0 <= v3 < 64 ->
  let b0 := byte0 v0 v1 in let b1 := byte1 v1 v2 in let b2 := byte2 v2 v3 in
  (u8 b0 /\ u8 b1 /\ u8 b2)
  /\ b0 / 4 = v0 /\ b0 mod 4 * 16 + b1 / 16 = v1 /\ b1 mod 16 * 4 + b2 / 64 = v2
  /\ b2 mod 64 = v3.
Proof.
  intros H0 H1 H2 H3. cbv zeta. unfold in_width.
  destruct (byte_fields v0 v1 v2 v3 H0 H1 H2 H3) as (-> & -> & ->).
  repeat split; divlia.
Qed.

(** Groups of one and of two bytes: their unused bits are clear, so that the
    bytes that would follow are zero. *)
Lemma group_of_one url c0 c1 :
  0 <= base64_value c0 url -> 0 <= base64_value c1 url ->
  Z.land (base64_value c1 url) 15 = 0 ->
  let b0 := byte0 (base64_value c0 url) (base64_value c1 url) in
  u8 b0 /\ c0 = base64_char (b0 / 4) url /\ c1 = base64_char (b0 mod 4 * 16) url.
Proof.
  intros H0 H1 Hs. apply base64_char_value in H0 as L0, H1 as L1.
  change 15 with (Z.ones 4) in Hs. rewrite Z.land_ones in Hs by lia.
  destruct (sextets_of_bytes (base64_value c0 url) (base64_value c1 url) 0 0) as
    ((U & _) & E0 & E1 & _); [lia..|]. cbv zeta. split; [done|].
  destruct (byte_fields (base64_value c0 url) (base64_value c1 url) 0 0) as (_ & F1 & _); [lia..|].
  change (2 ^ 4) with 16 in Hs. rewrite F1, Hs in E1. change ((0 * 16 + 0 / 4) / 16) with 0 in E1.
  rewrite Z.add_0_r in E1. rewrite E0, E1. split; symmetry; tauto.
Qed.

Lemma group_of_two url c0 c1 c2 :
  0 <= base64_value c0 url -> 0 <= base64_value c1 url -> 0 <= base64_value c2 url ->
  Z.land (base64_value c2 url) 3 = 0 ->
  let b0 := byte0 (base64_value c0 url) (base64_value c1 url) in
  let b1 := byte1 (base64_value c1 url) (base64_value c2 url) in
  (u8 b0 /\ u8 b1) /\ c0 = base64_char (b0 / 4) url
  /\ c1 = base64_char (b0 mod 4 * 16 + b1 / 16) url /\ c2 = base64_char (b1 mod 16 * 4) url.
Proof.
  intros H0 H1 H2 Hs. apply base64_char_value in H0 as L0, H1 as L1, H2 as L2.
  change 3 with (Z.ones 2) in Hs. rewrite Z.land_ones in Hs by lia.
  destruct (sextets_of_bytes (base64_value c0 url) (base64_value c1 url) (base64_value c2 url) 0) as
    ((U0 & U1 & _) & E0 & E1 & E2 & _); [lia..|]. cbv zeta. split; [done|].
  destruct (byte_fields (base64_value c0 url) (base64_value c1 url) (base64_value c2 url) 0)
    as (_ & _ & F2); [lia..|].
  change (2 ^ 2) with 4 in Hs. rewrite F2, Hs in E2. change ((0 * 64 + 0) / 64) with 0 in E2.
  rewrite Z.add_0_r in E2. rewrite E0, E1, E2. repeat split; symmetry; tauto.
Qed.

Lemma group_of_three url c0 c1 c2 c3 :
  0 <= base64_value c0 url -> 0 <= base64_value c1 url -> 0 <= base64_value c2 url ->
  0 <= base64_value c3 url ->
  let b0 := byte0 (base64_value c0 url) (base64_value c1 url) in
  let b1 := byte1 (base64_value c1 url) (base64_value c2 url) in
  let b2 := byte2 (base64_value c2 url) (base64_value c3 url) in
  (u8 b0 /\ u8 b1 /\ u8 b2) /\ c0 = base64_char (b0 / 4) url
  /\ c1 = base64_char (b0 mod 4 * 16 + b1 / 16) url
  /\ c2 = base64_char (b1 mod 16 * 4 + b2 / 64) url /\ c3 = base64_char (b2 mod 64) url.
Proof.
  intros H0 H1 H2 H3. apply base64_char_value in H0 as L0, H1 as L1, H2 as L2, H3 as L3.
  destruct (sextets_of_bytes (base64_value c0 url) (base64_value c1 url) (base64_value c2 url)
    (base64_value c3 url)) as (U & E0 & E1 & E2 & E3); [lia..|]. cbv zeta. split; [done|].
  rewrite E0, E1, E2, E3. repeat split; symmetry; tauto.
Qed.

(** The tests of a group as propositions. *)
Ltac group_tests :=
  repeat match goal with
  | H : (if ?b then _ else _) = Some _ |- _ => destruct b eqn:?; [|discriminate H]
  | H : _ && _ = true |- _ => apply andb_true_iff in H as [? ?]
  | H : (_ <=? _) = true |- _ => apply Z.leb_le in H
  | H : (_ =? _) = true |- _ => apply Z.eqb_eq in H
  | H : bool_decide _ = true |- _ => apply bool_decide_eq_true in H
  end.

Lemma b64_text_parse url au cs bs :
  b64_parse url au cs = Some bs ->
  Forall u8 bs /\ exists pad, cs = b64_text pad url bs /\ pad || au.
Proof.
  remember (length cs) as n eqn:Hn. revert cs bs Hn.
  induction (lt_wf n) as [n _ IH]; intros [|c0 [|c1 [|c2 [|c3 cs]]]] bs Hn H;
    cbn [b64_parse] in H; simplify_eq.
  - split; [done|]. by exists true.
  - group_tests. destruct (group_of_one url c0 c1) as (U & E0 & E1); [done..|]. simplify_eq.
    split; [by constructor|]. exists false. cbn [b64_text app]. by rewrite <-E0, <-E1.
  - group_tests. destruct (group_of_two url c0 c1 c2) as ((U0 & U1) & E0 & E1 & E2); [done..|].
    simplify_eq. split; [repeat (apply Forall_cons_2; [done|]); done|]. exists false. cbn [b64_text app].
    by rewrite <-E0, <-E1, <-E2.
  - destruct (_ && _) eqn:E01; [|done]. destruct (c2 =? _) eqn:P2.
    { group_tests. destruct (group_of_one url c0 c1) as (U & E0 & E1); [done..|]. simplify_eq.
      split; [by constructor|]. exists true. cbn [b64_text app]. by rewrite <-E0, <-E1. }
    destruct (0 <=? base64_value c2 url) eqn:V2; [|done]. destruct (c3 =? _) eqn:P3.
    { group_tests. destruct (group_of_two url c0 c1 c2) as ((U0 & U1) & E0 & E1 & E2); [done..|].
      simplify_eq. split; [repeat (apply Forall_cons_2; [done|]); done|]. exists true. cbn [b64_text app].
      by rewrite <-E0, <-E1, <-E2. }
    group_tests. destruct (group_of_three url c0 c1 c2 c3) as ((U0 & U1 & U2) & E0 & E1 & E2 & E3); [done..|].
    destruct (b64_parse url au cs) as [r|] eqn:Er; [|done].
    destruct (IH (length cs) ltac:(simpl; lia) cs r eq_refl Er) as (Hr & pad & Hcs & Hpad).
    injection H as <-. split; [repeat (apply Forall_cons_2; [done|]); done|]. exists pad.
    cbn [b64_text app]. rewrite <-E0, <-E1, <-E2, <-E3, <-Hcs. done.
Qed.

(** ** The capacity a text needs *)

Lemma b64_text_app pad url bs1 bs2 k :
  length bs1 = (3 * k)%nat ->
  b64_text pad url (bs1 ++ bs2) = b64_text pad url bs1 ++ b64_text pad url bs2.
Proof.
  revert bs1. induction k as [|k IH]; intros bs1 H.
  { by destruct bs1. }
  destruct bs1 as [|b0 [|b1 [|b2 bs1]]]; cbn [length] in H; try lia.
  cbn [app b64_text]. by rewrite IH by lia.
Qed.

Lemma needed_last cs l1 l2 n post :
  (cs ++ [l1; l2]) = n ->
  base64_needed (Some (n ++ post)) (length n) =
    Done (if l2 =? char "=" then
            to_u64 (Z.of_nat ((length n / 4) * 3) - (if l1 =? char "=" then 2 else 1))
          else Z.of_nat (base64_decoded_size (length n))).
Proof.
  intros <-. unfold base64_needed. rewrite !length_app. cbn [length].
  rewrite <-app_assoc. nat_tests.
  rewrite (pload_mid cs [l1; l2] post 1 l2 (length cs + 2 - 1)) by (done || lia). exec_simpl.
  destruct (l2 =? _); [|done].
  rewrite (pload_mid cs [l1; l2] post 0 l1 (length cs + 2 - 2)) by (done || lia). done.
Qed.

Lemma quads k r n : (r < 4)%nat -> n = (4 * k + r)%nat -> (n / 4 = k /\ n mod 4 = r)%nat.
Proof.
  intros Hr ->. rewrite (Nat.mul_comm 4), Nat.div_add_l, Nat.div_small by lia.
  rewrite (Nat.add_comm (k * 4)), Nat.Div0.mod_add, Nat.mod_small by lia. lia.
Qed.

Lemma base64_needed_group pad url hd tl k post :
  length hd = (3 * k)%nat -> (1 <= length tl <= 3)%nat -> Forall u8 tl ->
  Z.of_nat (3 * k + length tl) < 2 ^ 64 ->
  base64_needed (Some (b64_text pad url (hd ++ tl) ++ post)) (length (b64_text pad url (hd ++ tl)))
  = Done (Z.of_nat (3 * k + length tl)).
Proof.
  intros Hk Htl Hb Hsz. rewrite (b64_text_app pad url hd tl k Hk).
  assert (Hh : length (b64_text pad url hd) = (4 * k)%nat).
  { rewrite length_b64_text, Hk. unfold base64_encoded_size.
    rewrite Nat.mul_comm, Nat.div_mul, Nat.Div0.mod_mul by lia. simpl. lia. }
  generalize dependent (b64_text pad url hd). intros T HT.
  assert (NP := fun v H => proj2 (Z.eqb_neq _ _) (base64_char_not_pad v url H)).
  assert (HW : to_u64 (Z.of_nat (3 * k + length tl)) = Z.of_nat (3 * k + length tl))
    by (apply wrap_small; unfold in_width; lia).
  destruct tl as [|b0 [|b1 [|b2 [|b3 tl]]]]; cbn [length] in *; try lia.
  - apply Forall_cons in Hb as [H0 _].
    destruct (sextets b0 0 0 H0) as ((_ & R1 & _) & _); [done..|].
    change (0 / 16) with 0 in R1. rewrite Z.add_0_r in R1. destruct pad; cbn [b64_text app].
    + rewrite (needed_last (T ++ [_; _]) (char "=") (char "=")) by (by rewrite <-app_assoc).
      rewrite length_app, HT. cbn [length]. rewrite Z.eqb_refl, (proj1 (quads (k + 1) 0 (4 * k + 4) ltac:(lia) ltac:(lia))).
      rewrite <-HW. do 2 f_equal. lia.
    + rewrite (needed_last T _ _ (T ++ [_; _])), NP by done.
      rewrite length_app, HT. cbn [length]. unfold base64_decoded_size.
      destruct (quads k 2 (4 * k + 2)) as [-> ->]; [lia..|]. simpl (_ =? _)%nat. do 2 f_equal. lia.
  - apply Forall_cons in Hb as [H0 [H1 _]%Forall_cons].
    destruct (sextets b0 b1 0 H0 H1) as ((_ & R1 & R2 & _) & _); [done|].
    change (0 / 64) with 0 in R2. rewrite Z.add_0_r in R2. destruct pad; cbn [b64_text app].
    + rewrite (needed_last (T ++ [_; _]) _ (char "=")) by (by rewrite <-app_assoc).
      rewrite length_app, HT. cbn [length].
      rewrite Z.eqb_refl, NP, (proj1 (quads (k + 1) 0 (4 * k + 4) ltac:(lia) ltac:(lia))) by done.
      rewrite <-HW. do 2 f_equal. lia.
    + rewrite (needed_last (T ++ [_]) _ _ (T ++ [_; _; _])), NP by (done || by rewrite <-app_assoc).
      rewrite length_app, HT. cbn [length]. unfold base64_decoded_size.
      destruct (quads k 3 (4 * k + 3)) as [-> ->]; [lia..|]. simpl (_ =? _)%nat. do 2 f_equal. lia.
  - apply Forall_cons in Hb as [H0 [H1 [H2 _]%Forall_cons]%Forall_cons].
    destruct (sextets b0 b1 b2 H0 H1 H2) as ((_ & _ & _ & R3) & _). cbn [b64_text app].
    rewrite (needed_last (T ++ [_; _]) _ _ (T ++ [_; _; _; _])), NP by (done || by rewrite <-app_assoc).
    rewrite length_app, HT. cbn [length]. unfold base64_decoded_size.
    destruct (quads (k + 1) 0 (4 * k + 4)) as [-> ->]; [lia..|]. simpl (_ =? _)%nat. do 2 f_equal. lia.
Qed.

(** The capacity test asks for exactly the bytes of the text. *)
Lemma base64_needed_text pad url bs post :
  Forall u8 bs -> bs <> [] -> Z.of_nat (length bs) < 2 ^ 64 ->
  base64_needed (Some (b64_text pad url bs ++ post)) (length (b64_text pad url bs))
  = Done (Z.of_nat (length bs)).
Proof.
  intros Hb Hne Hsz. set (k := ((length bs - 1) / 3)%nat).
  assert (Hk : (3 * k < length bs <= 3 * k + 3)%nat).
  { assert (1 <= length bs)%nat by (destruct bs; simpl; [done|lia]).
    assert (D := Nat.div_mod_eq (length bs - 1) 3).
    assert (M := Nat.mod_upper_bound (length bs - 1) 3 ltac:(lia)). unfold k. lia. }
  clearbody k. rewrite <-(take_drop (3 * k) bs).
  rewrite (base64_needed_group pad url _ _ k).
  - f_equal. rewrite length_app, length_take, length_drop. lia.
  - rewrite length_take. lia.
  - rewrite length_drop. lia.
  - by apply Forall_drop.
  - rewrite length_drop. lia.
Qed.

(** ** The whole decoder *)

(** The outcome of a decode in terms of the parse of the text. *)
Definition b64_decoded (url au : bool) (cs : list Z) (cap : nat) (out : list Z)
    (r : codec_result) : Prop :=
  match b64_parse url au cs with
  | Some bs => r = if decide (length bs <= cap)%nat
                   then (s_ok, length bs, Some (wrote out 0 bs)) else (s_full, 0%nat, Some out)
  | None => exists st part, (st = s_invalid_argument \/ st = s_full)
      /\ (length part <= cap)%nat /\ r = (st, 0%nat, Some (wrote out 0 part))
  end.

Lemma b64_decoded_fail url au cs cap out st :
  (st = s_invalid_argument \/ st = s_full) -> b64_parse url au cs = None ->
  b64_decoded url au cs cap out (st, 0%nat, Some out).
Proof.
  intros Hst Hp. unfold b64_decoded. rewrite Hp. exists st, []. rewrite wrote_nil.
  split; [done|]. split; [simpl; lia|done].
Qed.

(** The lengths of the texts that parse. *)
Lemma b64_parse_shape url au cs bs :
  b64_parse url au cs = Some bs ->
  (length bs <= length cs)%nat /\ (length cs mod 4 <> 1)%nat
  /\ (au = false -> (length cs mod 4 = 0)%nat).
Proof.
  intros Hp. apply b64_text_parse in Hp as (_ & pad & -> & Hpad). rewrite length_b64_text.
  unfold base64_encoded_size. assert (M := Nat.mod_upper_bound (length bs) 3 ltac:(lia)).
  assert (D := Nat.div_mod_eq (length bs) 3).
  destruct (Nat.eqb_spec (length bs mod 3) 0) as [E|E].
  - rewrite Nat.Div0.mod_mul. split; [lia|]. split; [lia|done].
  - rewrite (Nat.add_comm (_ * 4)), Nat.Div0.mod_add. destruct pad; simpl in Hpad.
    + change (4 mod 4)%nat with 0%nat. split; [lia|]. split; [lia|done].
    + rewrite (Nat.mod_small (length bs mod 3 + 1) 4) by lia. destruct au; [|done]. split; [lia|]. split; [lia|done].
Qed.

Lemma base64_needed_total cs post :
  cs <> [] -> exists needed, base64_needed (Some (cs ++ post)) (length cs) = Done needed.
Proof.
  intros Hne. assert (1 <= length cs)%nat by (destruct cs; simpl; [done|lia]).
  unfold base64_needed.
  destruct (pload_lt (cs ++ post) (length cs - 1)) as [l1 ->]; [rewrite length_app; lia|].
  destruct (pload_lt (cs ++ post) (length cs - 2)) as [l2 E2]; [rewrite length_app; lia|].
  exec_simpl. rewrite E2. destruct (l1 =? _), (2 <=? length cs)%nat; by eexists.
Qed.

(** A text accepted by the length tests is a number of whole groups and a rest. *)
Lemma b64_group_count n au :
  negb (n mod 4 =? 0)%nat && (negb au || (n mod 4 =? 1)%nat) = false ->
  exists k r, n = (4 * k + r)%nat
    /\ let partial := negb (n mod 4 =? 0)%nat in
       let groups := (if partial then n / 4 + 1 else n / 4)%nat in
       (r = 0%nat /\ partial = false /\ groups = (0 + k)%nat
        \/ (r = 2%nat \/ r = 3%nat) /\ partial = true /\ au = true /\ groups = (0 + k + 1)%nat).
Proof.
  intros H. exists (n / 4)%nat, (n mod 4)%nat. split; [apply Nat.div_mod_eq|]. cbv zeta.
  assert (M := Nat.mod_upper_bound n 4 ltac:(lia)).
  destruct (Nat.eqb_spec (n mod 4) 0), (Nat.eqb_spec (n mod 4) 1), au; simpl in H; try done.
  all: try (left; done). all: right; cbn [negb]; repeat split; try done; lia.
Qed.

Lemma base64_decode_spec url au cs post out cap :
  (cap <= length out)%nat -> Z.of_nat (length cs) < 2 ^ 64 ->
  exists r, base64_decode (Some (cs ++ post)) (length cs) (Some out) cap url au = Done r
    /\ b64_decoded url au cs cap out r.
Proof.
  intros Hcap Hsz. unfold base64_decode. cbn [is_null andb].
  destruct (Nat.eqb_spec (length cs) 0) as [H0|H0].
  { destruct cs; [|done]. eexists; split; [done|]. unfold b64_decoded. cbn [b64_parse length].
    rewrite decide_True by lia. by rewrite wrote_nil. }
  destruct (negb (length cs mod 4 =? 0)%nat && _) eqn:Hpart.
  { eexists; split; [done|]. apply b64_decoded_fail; [tauto|].
    destruct (b64_parse url au cs) as [bs|] eqn:Hp; [|done].
    destruct (b64_parse_shape url au cs bs Hp) as (_ & N1 & Nu). exfalso.
    destruct (Nat.eqb_spec (length cs mod 4) 0), (Nat.eqb_spec (length cs mod 4) 1), au;
      simpl in Hpart; try done; lia || by apply Nu in eq_refl. }
  destruct (b64_group_count _ _ Hpart) as (k & r & Hlen & Hg).
  destruct (base64_needed_total cs post) as [needed Hn]; [by destruct cs|].
  rewrite Hn. exec_simpl. rewrite andb_false_r.
  assert (Hfit : forall bs, b64_parse url au cs = Some bs -> needed = Z.of_nat (length bs)).
  { intros bs Hp. destruct (b64_parse_shape _ _ _ _ Hp) as [Hl _].
    apply b64_text_parse in Hp as (Hb & pad & -> & _).
    rewrite base64_needed_text in Hn; [congruence|done|by destruct bs|lia]. }
  destruct (Z.ltb_spec (Z.of_nat cap) needed) as [Hov|Hok].
  { eexists; split; [done|]. unfold b64_decoded.
    destruct (b64_parse url au cs) as [bs|]; [rewrite decide_False; [done|]|].
    - specialize (Hfit bs eq_refl). lia.
    - exists s_full, []. rewrite wrote_nil. split; [tauto|]. split; [simpl; lia|done]. }
  cbv zeta in Hg.
  destruct (base64_decode_loop url au out cap post _ _ k Hcap cs [] [] 0 r ltac:(simpl; lia) Hlen Hg)
    as (res & Hres & [(bs & ii & Hp & Hl & ->)|(st & part & Hst & Hl & -> & Hbig)]);
    rewrite wrote_nil, Nat.sub_0_r in Hres; cbn [app length Nat.add] in *;
    apply (f_equal (fun l => after l (fun '(_, oi, o) => Done (s_ok, oi, o)))) in Hres.
  - exists (s_ok, length bs, Some (wrote out 0 bs)). split; [exact Hres|].
    unfold b64_decoded. by rewrite Hp, decide_True.
  - exists (st, 0%nat, Some (wrote out 0 part)). split; [exact Hres|].
    unfold b64_decoded. destruct (b64_parse url au cs) as [bs|] eqn:Hp; [|by exists st, part].
    specialize (Hfit bs eq_refl). specialize (Hbig bs eq_refl). lia.
Qed.

(** ** Properties *)

(**  Round trip of Base64, for both alphabets, with and without padding:
    the encoder writes exactly [base64_encoded_size] characters, and decoding
    them (allowing unpadded text if none was written) gives back the bytes, with
    an output buffer that need hold no more than those. *)
Theorem base64_roundtrip (padding url_safe allow_unpadded : bool) (bs out1 out2 : list Z) :
  Forall u8 bs -> padding || allow_unpadded ->
  (base64_encoded_size (length bs) padding <= length out1)%nat ->
  Z.of_nat (length out1) < 2 ^ 64 -> (length bs <= length out2)%nat ->
  exists text,
    base64_encode (Some bs) (length bs) (Some out1) (length out1) padding url_safe
      = Done (s_ok, base64_encoded_size (length bs) padding, Some text)
    /\ base64_decode (Some text) (base64_encoded_size (length bs) padding)
         (Some out2) (length out2) url_safe allow_unpadded
      = Done (s_ok, length bs, Some (wrote out2 0 bs)).
Proof.
  intros Hb Hpad H1 Hsz H2. exists (wrote out1 0 (b64_text padding url_safe bs)).
  pose proof (base64_encode_spec padding url_safe bs [] out1 (length out1) Hb ltac:(lia)) as E.
  rewrite app_nil_r, decide_True in E by done. split; [exact E|].
  rewrite (wrote_0 out1), <-(length_b64_text padding url_safe).
  destruct (base64_decode_spec url_safe allow_unpadded (b64_text padding url_safe bs)
    (drop (length (b64_text padding url_safe bs)) out1) out2 (length out2)) as (r & -> & Hr);
    [lia|rewrite length_b64_text; lia|].
  unfold b64_decoded in Hr. rewrite b64_parse_text, decide_True in Hr by done. by rewrite Hr.
Qed.

Lemma base64_roundtrip_witness :
  exists text,
    base64_encode (Some [251; 255]) 2 (Some [0; 0; 0; 0]) 4 false true = Done (s_ok, 3%nat, Some text)
    /\ base64_decode (Some text) 3 (Some [9; 9]) 2 true true = Done (s_ok, 2%nat, Some [251; 255]).
Proof.
  apply (base64_roundtrip false true true [251; 255] [0; 0; 0; 0] [9; 9]);
    [repeat constructor; unfold in_width; lia|done|vm_compute; lia|simpl; lia|simpl; lia].
Defined.

(**  The Base64 decoder accepts exactly the canonical texts: on any input it
    is memory safe, writes at most [output_capacity] bytes and reports [ok] iff
    the input is the encoding of some bytes (padded, or unpadded where that is
    allowed), which it has then written.  In particular a text with stray
    characters, misplaced padding or non-zero unused bits is never accepted, so
    two different texts with the same padding never decode to the same bytes. *)
Theorem base64_decode_canonical (url_safe allow_unpadded : bool) (cs post out : list Z) (cap : nat) :
  (cap <= length out)%nat -> Z.of_nat (length cs) < 2 ^ 64 ->
  exists st n out', base64_decode (Some (cs ++ post)) (length cs) (Some out) cap url_safe allow_unpadded
      = Done (st, n, Some (wrote out 0 out')) /\ (length out' <= cap)%nat
    /\ (st = s_ok <-> exists bs padding, Forall u8 bs /\ (length bs <= cap)%nat
          /\ padding || allow_unpadded /\ cs = b64_text padding url_safe bs)
    /\ (st = s_ok -> n = length out' /\ Forall u8 out' /\
          exists padding, padding || allow_unpadded /\ cs = b64_text padding url_safe out').
Proof.
  intros Hcap Hsz.
  destruct (base64_decode_spec url_safe allow_unpadded cs post out cap Hcap Hsz) as (r & -> & Hr).
  unfold b64_decoded in Hr. destruct (b64_parse url_safe allow_unpadded cs) as [bs|] eqn:Hp.
  - destruct (b64_text_parse _ _ _ _ Hp) as (Hu & pad & Ht & Hpad). case_decide as Hl; subst r.
    + exists s_ok, (length bs), bs. split; [done|]. split; [done|]. split; [|by eauto].
      split; [|done]. intros _. by exists bs, pad.
    + exists s_full, 0%nat, []. rewrite wrote_nil. split; [done|]. split; [simpl; lia|].
      split; [|done]. split; [done|]. intros (bs' & pad' & Hu' & Hl' & Hpad' & Ht').
      rewrite Ht', b64_parse_text in Hp by done. congruence.
  - destruct Hr as (st & part & Hst & Hl & ->). exists st, 0%nat, part. split; [done|].
    split; [done|]. split; [|by destruct Hst as [-> | ->]]. split; [by destruct Hst as [-> | ->]|].
    intros (bs' & pad' & Hu' & Hl' & Hpad' & Ht'). by rewrite Ht', b64_parse_text in Hp.
Qed.

Lemma base64_decode_canonical_witness :
  exists st n out', base64_decode (Some (chars "QQ==" ++ [7])) 4 (Some [0; 0]) 2 false false
      = Done (st, n, Some (wrote [0; 0] 0 out')) /\ (length out' <= 2)%nat.
Proof.
  destruct (base64_decode_canonical false false (chars "QQ==") [7] [0; 0] 2 ltac:(simpl; lia)
    ltac:(vm_compute; done)) as (st & n & out' & E & Hl & _). by exists st, n, out'.
Defined.

(**  A text of two or three characters that ends in a padding character is
    the encoding of nothing, but the decoder does not call it malformed: the
    subtraction in the capacity test wraps around below zero, and the answer is
    [full] however large the buffer is. *)
Theorem base64_short_padded_reports_full (url_safe : bool) (cs out : list Z) :
  (length cs = 2 \/ length cs = 3)%nat -> list.last cs = Some (char "=") ->
  Z.of_nat (length out) < 2 ^ 64 - 2 ->
  base64_decode (Some cs) (length cs) (Some out) (length out) url_safe true
    = Done (s_full, 0%nat, Some out)
  /\ forall bs padding, Forall u8 bs -> cs <> b64_text padding url_safe bs.
Proof.
  intros Hlen Hlast Hout.
  assert (Hneed : base64_needed (Some cs) (length cs) = Done (2 ^ 64 - 1)
               \/ base64_needed (Some cs) (length cs) = Done (2 ^ 64 - 2)).
  { destruct cs as [|c0 [|c1 [|c2 [|c3 cs]]]]; cbn [length] in Hlen; try lia;
      injection Hlast as ->; unfold base64_needed; change (char "=") with 61; exec_simpl;
      [destruct (Z.eqb_spec c0 61)|destruct (Z.eqb_spec c1 61)]; [right|left|right|left]; subst;
      cbn; rewrite ?(proj2 (Z.eqb_neq _ _)) by done; reflexivity. }
  assert (E : base64_decode (Some cs) (length cs) (Some out) (length out) url_safe true
    = Done (s_full, 0%nat, Some out)).
  { unfold base64_decode. cbn [is_null andb].
    destruct Hneed as [-> | ->], Hlen as [-> | ->]; exec_simpl; cbn [Nat.eqb Nat.modulo Nat.divmod
      fst snd Nat.sub negb andb orb]; by rewrite (proj2 (Z.ltb_lt _ _)) by lia. }
  split; [done|]. intros bs pad Hb Ht.
  assert (Hp : b64_parse url_safe true cs = Some bs) by (rewrite Ht; apply b64_parse_text; [done|by destruct pad]).
  clear E Hneed Ht. destruct cs as [|c0 [|c1 [|c2 [|c3 cs]]]]; cbn [length] in Hlen; try lia;
    injection Hlast as ->; cbn [b64_parse] in Hp.
  - change (base64_value (char "=") url_safe) with (-1) in Hp. change (0 <=? -1) with false in Hp.
    by rewrite andb_false_r in Hp.
  - rewrite Z.eqb_refl in Hp. cbn [negb] in Hp. by rewrite andb_false_r in Hp.
Qed.

Lemma base64_short_padded_reports_full_witness :
  base64_decode (Some (chars "==")) 2 (Some [0; 0; 0]) 3 false true = Done (s_full, 0%nat, Some [0; 0; 0]).
Proof.
  apply (base64_short_padded_reports_full false (chars "==") [0; 0; 0]);
    [left; reflexivity|reflexivity|simpl; lia].
Defined.
