(* ===== verification/Bytes.v ===== *)
(** * Byte-order primitives (castle/utility/bytes.hpp)

    A pointer argument [p] is a buffer and an offset, so that [&output[4]] is
    [(output, 4)]; a reader or writer of [n] bytes is undefined unless the
    buffer has them. *)

From S2P Require Import Prelude.
Open Scope Z_scope.

Section Readers.
Context (p : list Z) (o : nat).

Definition read_le8 : exec Z := load p o.
Definition read_be8 : exec Z := load p o.
Definition read_le16 : exec Z :=
  b0 ← load p o; b1 ← load p (o + 1);
  Done (to_u16 (Z.lor b0 (Z.shiftl b1 8))).
Definition read_be16 : exec Z :=
  b0 ← load p o; b1 ← load p (o + 1);
  Done (to_u16 (Z.lor (Z.shiftl b0 8) b1)).
Definition read_le32 : exec Z :=
  b0 ← load p o; b1 ← load p (o + 1); b2 ← load p (o + 2); b3 ← load p (o + 3);
  Done (Z.lor (Z.lor (Z.lor b0 (Z.shiftl b1 8)) (Z.shiftl b2 16)) (Z.shiftl b3 24)).
Definition read_be32 : exec Z :=
  b0 ← load p o; b1 ← load p (o + 1); b2 ← load p (o + 2); b3 ← load p (o + 3);
  Done (Z.lor (Z.lor (Z.lor (Z.shiftl b0 24) (Z.shiftl b1 16)) (Z.shiftl b2 8)) b3).
Definition read_le64 : exec Z :=
  b0 ← load p o; b1 ← load p (o + 1); b2 ← load p (o + 2); b3 ← load p (o + 3);
  b4 ← load p (o + 4); b5 ← load p (o + 5); b6 ← load p (o + 6); b7 ← load p (o + 7);
  Done (Z.lor (Z.lor (Z.lor (Z.lor (Z.lor (Z.lor (Z.lor b0 (Z.shiftl b1 8)) (Z.shiftl b2 16))
    (Z.shiftl b3 24)) (Z.shiftl b4 32)) (Z.shiftl b5 40)) (Z.shiftl b6 48)) (Z.shiftl b7 56)).
Definition read_be64 : exec Z :=
  b0 ← load p o; b1 ← load p (o + 1); b2 ← load p (o + 2); b3 ← load p (o + 3);
  b4 ← load p (o + 4); b5 ← load p (o + 5); b6 ← load p (o + 6); b7 ← load p (o + 7);
  Done (Z.lor (Z.lor (Z.lor (Z.lor (Z.lor (Z.lor (Z.lor (Z.shiftl b0 56) (Z.shiftl b1 48))
    (Z.shiftl b2 40)) (Z.shiftl b3 32)) (Z.shiftl b4 24)) (Z.shiftl b5 16)) (Z.shiftl b6 8)) b7).

Definition read_le8s : exec Z := v ← read_le8; Done (to_signed 8 v).
Definition read_be8s : exec Z := v ← read_be8; Done (to_signed 8 v).
Definition read_le16s : exec Z := v ← read_le16; Done (to_signed 16 v).
Definition read_be16s : exec Z := v ← read_be16; Done (to_signed 16 v).
Definition read_le32s : exec Z := v ← read_le32; Done (to_signed 32 v).
Definition read_be32s : exec Z := v ← read_be32; Done (to_signed 32 v).
Definition read_le64s : exec Z := v ← read_le64; Done (to_signed 64 v).
Definition read_be64s : exec Z := v ← read_be64; Done (to_signed 64 v).
End Readers.

Section Writers.
Context (p : list Z) (o : nat) (value : Z).

Definition write_le8 : exec (list Z) := store p o value.
Definition write_be8 : exec (list Z) := store p o value.
Definition write_le16 : exec (list Z) :=
  p ← store p o (to_u8 value); store p (o + 1) (to_u8 (Z.shiftr value 8)).
Definition write_be16 : exec (list Z) :=
  p ← store p o (to_u8 (Z.shiftr value 8)); store p (o + 1) (to_u8 value).
Definition write_le32 : exec (list Z) :=
  p ← store p o (to_u8 value); p ← store p (o + 1) (to_u8 (Z.shiftr value 8));
  p ← store p (o + 2) (to_u8 (Z.shiftr value 16)); store p (o + 3) (to_u8 (Z.shiftr value 24)).
Definition write_be32 : exec (list Z) :=
  p ← store p o (to_u8 (Z.shiftr value 24)); p ← store p (o + 1) (to_u8 (Z.shiftr value 16));
  p ← store p (o + 2) (to_u8 (Z.shiftr value 8)); store p (o + 3) (to_u8 value).
Definition write_le64 : exec (list Z) :=
  p ← store p o (to_u8 value); p ← store p (o + 1) (to_u8 (Z.shiftr value 8));
  p ← store p (o + 2) (to_u8 (Z.shiftr value 16)); p ← store p (o + 3) (to_u8 (Z.shiftr value 24));
  p ← store p (o + 4) (to_u8 (Z.shiftr value 32)); p ← store p (o + 5) (to_u8 (Z.shiftr value 40));
  p ← store p (o + 6) (to_u8 (Z.shiftr value 48)); store p (o + 7) (to_u8 (Z.shiftr value 56)).
Definition write_be64 : exec (list Z) :=
  p ← store p o (to_u8 (Z.shiftr value 56)); p ← store p (o + 1) (to_u8 (Z.shiftr value 48));
  p ← store p (o + 2) (to_u8 (Z.shiftr value 40)); p ← store p (o + 3) (to_u8 (Z.shiftr value 32));
  p ← store p (o + 4) (to_u8 (Z.shiftr value 24)); p ← store p (o + 5) (to_u8 (Z.shiftr value 16));
  p ← store p (o + 6) (to_u8 (Z.shiftr value 8)); store p (o + 7) (to_u8 value).
End Writers.

Definition write_le8s p o (value : Z) : exec (list Z) := write_le8 p o (to_u8 value).
Definition write_be8s p o (value : Z) : exec (list Z) := write_be8 p o (to_u8 value).
Definition write_le16s p o (value : Z) : exec (list Z) := write_le16 p o (to_u16 value).
Definition write_be16s p o (value : Z) : exec (list Z) := write_be16 p o (to_u16 value).
Definition write_le32s p o (value : Z) : exec (list Z) := write_le32 p o (to_u32 value).
Definition write_be32s p o (value : Z) : exec (list Z) := write_be32 p o (to_u32 value).
Definition write_le64s p o (value : Z) : exec (list Z) := write_le64 p o (to_u64 value).
Definition write_be64s p o (value : Z) : exec (list Z) := write_be64 p o (to_u64 value).

(** A shift by the width of its operand or more is undefined. *)
Definition shift (w : Z) (v : Z) : exec Z := if v <? w then Done v else Undefined.

Definition rotl32 (value count : Z) : exec Z :=
  c ← shift 32 count; d ← shift 32 (to_u32 (32 - count));
  Done (to_u32 (Z.lor (to_u32 (Z.shiftl value c)) (Z.shiftr value d))).
Definition rotr32 (value count : Z) : exec Z :=
  c ← shift 32 count; d ← shift 32 (to_u32 (32 - count));
  Done (to_u32 (Z.lor (Z.shiftr value c) (to_u32 (Z.shiftl value d)))).
Definition rotr64 (value count : Z) : exec Z :=
  c ← shift 64 count; d ← shift 64 (to_u32 (64 - count));
  Done (to_u64 (Z.lor (Z.shiftr value c) (to_u64 (Z.shiftl value d)))).

Definition secure_zero (address : list Z) (size : nat) : exec (list Z) :=
  after (for_range 0 size (fun i bytes => bytes ← store bytes i 0; Done (Next bytes)) address)
    Done.

(** ** What the readers and writers do *)

Definition byte : Z -> Prop := fun d => 0 <= d < 256.
Definition le_bytes (n : nat) (v : Z) : list Z := le_digits 256 n v.

(** Run the stores of a writer on a buffer that has room. *)
Ltac store_byte := rewrite store_wrote by (rewrite ?length_app; cbn [length]; lia); exec_simpl.
Ltac bytes_bound := unfold byte in *; lia.

Section ReadValues.
Context (pre post : list Z) (b0 b1 b2 b3 b4 b5 b6 b7 : Z).
Context (H0 : byte b0) (H1 : byte b1) (H2 : byte b2) (H3 : byte b3).
Context (H4 : byte b4) (H5 : byte b5) (H6 : byte b6) (H7 : byte b7).

(** The load of the first and of the [k]-th byte of the part [bs]. *)
Ltac read_first bs :=
  rewrite (load_mid pre bs post 0 _ (length pre) eq_refl) by lia; exec_simpl.
Ltac read_all bs :=
  read_first bs;
  repeat match goal with
  | |- context [load _ (length pre + ?k)] =>
      rewrite (load_mid pre bs post k _ (length pre + k) eq_refl eq_refl); exec_simpl
  end.

Lemma read_le16_val :
  read_le16 (pre ++ [b0; b1] ++ post) (length pre) = Done (le_val 256 [b0; b1]).
Proof using H0 H1.
  unfold read_le16. read_all [b0; b1].
  rewrite (lor_add_shiftl 8) by bytes_bound.
  rewrite wrap_small by (unfold in_width; bytes_bound). cbn [le_val]. f_equal. lia.
Qed.

Lemma read_be16_val :
  read_be16 (pre ++ [b0; b1] ++ post) (length pre) = Done (le_val 256 (reverse [b0; b1])).
Proof using H0 H1.
  unfold read_be16. read_all [b0; b1].
  rewrite <-?Z.lor_assoc, (lor_shiftl_add 8) by bytes_bound.
  rewrite wrap_small by (unfold in_width; bytes_bound). cbn [le_val reverse rev_append]. f_equal. lia.
Qed.

Lemma read_le32_val :
  read_le32 (pre ++ [b0; b1; b2; b3] ++ post) (length pre) = Done (le_val 256 [b0; b1; b2; b3]).
Proof using H0 H1 H2 H3.
  unfold read_le32. read_all [b0; b1; b2; b3].
  rewrite (lor_add_shiftl 8), (lor_add_shiftl 16), (lor_add_shiftl 24) by bytes_bound.
  cbn [le_val]. f_equal. lia.
Qed.

Lemma read_be32_val :
  read_be32 (pre ++ [b0; b1; b2; b3] ++ post) (length pre) = Done (le_val 256 (reverse [b0; b1; b2; b3])).
Proof using H0 H1 H2 H3.
  unfold read_be32. read_all [b0; b1; b2; b3].
  rewrite <-?Z.lor_assoc, (lor_shiftl_add 8), (lor_shiftl_add 16), (lor_shiftl_add 24) by bytes_bound.
  cbn [le_val reverse rev_append]. f_equal. lia.
Qed.

Lemma read_le64_val :
  read_le64 (pre ++ [b0; b1; b2; b3; b4; b5; b6; b7] ++ post) (length pre) = Done (le_val 256 [b0; b1; b2; b3; b4; b5; b6; b7]).
Proof using H0 H1 H2 H3 H4 H5 H6 H7.
  unfold read_le64. read_all [b0; b1; b2; b3; b4; b5; b6; b7].
  rewrite (lor_add_shiftl 8), (lor_add_shiftl 16), (lor_add_shiftl 24), (lor_add_shiftl 32), (lor_add_shiftl 40), (lor_add_shiftl 48), (lor_add_shiftl 56) by bytes_bound.
  cbn [le_val]. f_equal. lia.
Qed.

Lemma read_be64_val :
  read_be64 (pre ++ [b0; b1; b2; b3; b4; b5; b6; b7] ++ post) (length pre) = Done (le_val 256 (reverse [b0; b1; b2; b3; b4; b5; b6; b7])).
Proof using H0 H1 H2 H3 H4 H5 H6 H7.
  unfold read_be64. read_all [b0; b1; b2; b3; b4; b5; b6; b7].
  rewrite <-?Z.lor_assoc, (lor_shiftl_add 8), (lor_shiftl_add 16), (lor_shiftl_add 24), (lor_shiftl_add 32), (lor_shiftl_add 40), (lor_shiftl_add 48), (lor_shiftl_add 56) by bytes_bound.
  cbn [le_val reverse rev_append]. f_equal. lia.
Qed.

End ReadValues.

Section WriteValues.
Context (m : list Z) (o : nat) (v : Z).

(** The stores of a writer, and the shifts as digits of the value. *)
Ltac write_all :=
  intros H; unfold le_bytes; rewrite <-(wrote_nil m o) at 1;
  rewrite store_wrote by (cbn [length]; lia); exec_simpl; repeat store_byte;
  cbn [le_digits reverse rev_append app];
  rewrite ?Z.div_div, !Z.shiftr_div_pow2 by lia; reflexivity.

Lemma write_le16_bytes :
  (o + 2 <= length m)%nat -> write_le16 m o v = Done (wrote m o (le_bytes 2 v)).
Proof. unfold write_le16. write_all. Qed.

Lemma write_be16_bytes :
  (o + 2 <= length m)%nat -> write_be16 m o v = Done (wrote m o (reverse (le_bytes 2 v))).
Proof. unfold write_be16. write_all. Qed.

Lemma write_le32_bytes :
  (o + 4 <= length m)%nat -> write_le32 m o v = Done (wrote m o (le_bytes 4 v)).
Proof. unfold write_le32. write_all. Qed.

Lemma write_be32_bytes :
  (o + 4 <= length m)%nat -> write_be32 m o v = Done (wrote m o (reverse (le_bytes 4 v))).
Proof. unfold write_be32. write_all. Qed.

Lemma write_le64_bytes :
  (o + 8 <= length m)%nat -> write_le64 m o v = Done (wrote m o (le_bytes 8 v)).
Proof. unfold write_le64. write_all. Qed.

Lemma write_be64_bytes :
  (o + 8 <= length m)%nat -> write_be64 m o v = Done (wrote m o (reverse (le_bytes 8 v))).
Proof. unfold write_be64. write_all. Qed.

End WriteValues.

(** The accessors of the header with the number of bytes they touch. *)
Definition accessor : Type :=
  nat * (list Z -> nat -> Z -> exec (list Z)) * (list Z -> nat -> exec Z).
Definition le_accessors : list accessor :=
  [(1%nat, write_le8, read_le8); (2%nat, write_le16, read_le16);
   (4%nat, write_le32, read_le32); (8%nat, write_le64, read_le64)].
Definition be_accessors : list accessor :=
  [(1%nat, write_be8, read_be8); (2%nat, write_be16, read_be16);
   (4%nat, write_be32, read_be32); (8%nat, write_be64, read_be64)].
Definition signed_accessors : list accessor :=
  [(1%nat, write_le8s, read_le8s); (2%nat, write_le16s, read_le16s);
   (4%nat, write_le32s, read_le32s); (8%nat, write_le64s, read_le64s);
   (1%nat, write_be8s, read_be8s); (2%nat, write_be16s, read_be16s);
   (4%nat, write_be32s, read_be32s); (8%nat, write_be64s, read_be64s)].

(** What writing then reading back amounts to: the value returns and no byte
    outside the written window changes. *)
Definition writes_back (n : nat) (m : list Z) (o : nat) (v v' : Z)
    (w : list Z -> nat -> Z -> exec (list Z)) (r : list Z -> nat -> exec Z) : Prop :=
  exists m', w m o v = Done m' /\ length m' = length m
    /\ (forall i, (i < o \/ o + n <= i)%nat -> m' !! i = m !! i) /\ r m' o = Done v'.

Lemma wrote_outside {A} (m : list A) o bs i :
  (o + length bs <= length m)%nat -> (i < o \/ o + length bs <= i)%nat ->
  wrote m o bs !! i = m !! i.
Proof.
  intros Hl Hi. unfold wrote. destruct (decide (i < o)%nat).
  - rewrite lookup_app_l by (rewrite length_take; lia). by rewrite lookup_take_lt.
  - rewrite lookup_app_r; rewrite length_take; [|lia]. rewrite lookup_app_r by lia.
    rewrite lookup_drop. f_equal. lia.
Qed.

(** A writer of the bytes [bs] and a reader whose value of them is [v]. *)
Lemma writes_back_intro n m o v v' w r bs :
  length bs = n -> (o + n <= length m)%nat -> w m o v = Done (wrote m o bs) ->
  (forall pre post, length pre = o -> r (pre ++ bs ++ post) o = Done v') ->
  writes_back n m o v v' w r.
Proof.
  intros Hn Hl Hw Hr. exists (wrote m o bs). split; [done|]. split; [apply length_wrote; lia|].
  split; [intros; apply wrote_outside; lia|]. apply Hr. rewrite length_take. lia.
Qed.

Lemma le_bytes_val n v :
  in_width (8 * Z.of_nat n) v -> le_val 256 (le_bytes n v) = v.
Proof.
  intros H. apply le_val_digits; [lia|]. unfold in_width in H. by rewrite Z.pow_mul_r in H by lia.
Qed.

Lemma le_bytes_bytes n v : Forall byte (le_bytes n v).
Proof. by apply le_digits_range. Qed.

(** One case per accessor of a list of them. *)
Ltac accessor_cases H :=
  unfold le_accessors, be_accessors, signed_accessors in H;
  rewrite ?elem_of_cons, elem_of_nil in H; destruct_or! H; simplify_eq.
(** The bytes of a list whose length is a constant. *)
Ltac byte_list bs Hb :=
  repeat (destruct bs as [|? bs]; [discriminate|]); try (destruct bs; [|discriminate]);
  rewrite ?Forall_cons in Hb; destruct_and! Hb.

Lemma le_reader_val n w r pre bs post :
  (n, w, r) ∈ le_accessors -> length bs = n -> Forall byte bs ->
  r (pre ++ bs ++ post) (length pre) = Done (le_val 256 bs).
Proof.
  intros Hin Hn Hb. accessor_cases Hin.
  - byte_list bs Hb. unfold read_le8. rewrite (load_mid pre [z] post 0 z) by (done || lia).
    cbn [le_val]. f_equal. lia.
  - byte_list bs Hb. by apply read_le16_val.
  - byte_list bs Hb. by apply read_le32_val.
  - byte_list bs Hb. by apply read_le64_val.
Qed.

Lemma be_reader_val n w r pre bs post :
  (n, w, r) ∈ be_accessors -> length bs = n -> Forall byte bs ->
  r (pre ++ bs ++ post) (length pre) = Done (le_val 256 (reverse bs)).
Proof.
  intros Hin Hn Hb. accessor_cases Hin.
  - byte_list bs Hb. unfold read_be8. rewrite (load_mid pre [z] post 0 z) by (done || lia).
    cbn. f_equal. lia.
  - byte_list bs Hb. by apply read_be16_val.
  - byte_list bs Hb. by apply read_be32_val.
  - byte_list bs Hb. by apply read_be64_val.
Qed.

Lemma store_one m o v :
  (o + 1 <= length m)%nat -> u8 v -> store m o v = Done (wrote m o (le_bytes 1 v)).
Proof.
  intros H Hv. rewrite <-(wrote_nil m o) at 1. rewrite store_wrote by (simpl; lia).
  unfold le_bytes. cbn. by rewrite Z.mod_small.
Qed.

Lemma le_writer_bytes n w r m o v :
  (n, w, r) ∈ le_accessors -> (o + n <= length m)%nat -> in_width (8 * Z.of_nat n) v ->
  w m o v = Done (wrote m o (le_bytes n v)).
Proof.
  intros Hin Hl Hv. accessor_cases Hin;
    [by apply store_one|by apply write_le16_bytes|by apply write_le32_bytes|by apply write_le64_bytes].
Qed.

Lemma be_writer_bytes n w r m o v :
  (n, w, r) ∈ be_accessors -> (o + n <= length m)%nat -> in_width (8 * Z.of_nat n) v ->
  w m o v = Done (wrote m o (reverse (le_bytes n v))).
Proof.
  intros Hin Hl Hv. accessor_cases Hin;
    [by apply store_one|by apply write_be16_bytes|by apply write_be32_bytes|by apply write_be64_bytes].
Qed.

Lemma unsigned_writes_back n w r m o v :
  (n, w, r) ∈ le_accessors ++ be_accessors -> (o + n <= length m)%nat ->
  in_width (8 * Z.of_nat n) v -> writes_back n m o v v w r.
Proof.
  intros [Hin|Hin]%elem_of_app Hl Hv; assert (Hb := le_bytes_val n v Hv).
  - apply (writes_back_intro n m o v v w r (le_bytes n v)); [apply length_le_digits|done| |].
    + by eapply le_writer_bytes.
    + intros pre post <-. erewrite le_reader_val by eauto using length_le_digits, le_bytes_bytes.
      by rewrite Hb.
  - apply (writes_back_intro n m o v v w r (reverse (le_bytes n v)));
      [rewrite length_reverse; apply length_le_digits|done| |].
    + by eapply be_writer_bytes.
    + intros pre post <-. erewrite be_reader_val; [by rewrite reverse_involutive, Hb|done| |].
      * rewrite length_reverse. apply length_le_digits.
      * apply Forall_reverse, le_bytes_bytes.
Qed.

(** A signed accessor is the unsigned one with the casts around it. *)
Definition signed_of (a : accessor) : accessor :=
  let '(n, w, r) := a in
  (n, fun m o v => w m o (wrap (8 * Z.of_nat n) v),
   fun m o => x ← r m o; Done (to_signed (8 * Z.of_nat n) x)).

Lemma signed_accessors_casts : signed_accessors = signed_of <$> (le_accessors ++ be_accessors).
Proof. reflexivity. Qed.

Lemma signed_writes_back n w r m o v :
  (n, w, r) ∈ signed_accessors -> (0 < n)%nat -> (o + n <= length m)%nat ->
  - 2 ^ (8 * Z.of_nat n - 1) <= v < 2 ^ (8 * Z.of_nat n - 1) -> writes_back n m o v v w r.
Proof.
  rewrite signed_accessors_casts. intros (((n' & w') & r') & [= <- -> ->] & Hin)%list_elem_of_fmap Hn Hl Hv.
  destruct (unsigned_writes_back n w' r' m o (wrap (8 * Z.of_nat n) v)) as (m' & E & L & F & R);
    [done|done|apply wrap_in_width; lia|].
  exists m'. split; [done|]. split; [done|]. split; [done|].
  rewrite R. exec_simpl. f_equal. apply to_signed_wrap; [lia|done].
Qed.

(** ** Rotations *)

Lemma rotate_bits w v c :
  0 < c < w -> in_width w v ->
  let r := wrap w (Z.lor (wrap w (Z.shiftl v c)) (Z.shiftr v (w - c))) in
  in_width w r /\ forall i, 0 <= i < w -> Z.testbit r i = Z.testbit v ((i - c) mod w).
Proof.
  intros Hc Hv. cbv zeta. split; [apply wrap_in_width; lia|]. intros i Hi. unfold wrap.
  rewrite Z.mod_pow2_bits_low, Z.lor_spec, Z.mod_pow2_bits_low, Z.shiftl_spec, Z.shiftr_spec by lia.
  destruct (decide (c <= i)).
  - rewrite (Z.mod_small (i - c)) by lia. replace (Z.testbit v (i + (w - c))) with false;
      [by rewrite orb_false_r|]. rewrite <-(Z.mod_small v (2 ^ w)) by done.
    by rewrite Z.mod_pow2_bits_high by lia.
  - rewrite (Z.testbit_neg_r v (i - c)) by lia. cbn [orb].
    rewrite <-(Z.mod_add (i - c) 1), Z.mod_small by lia. f_equal. lia.
Qed.

Lemma rotl32_bits v c :
  0 < c < 32 -> u32 v -> exists r, rotl32 v c = Done r /\ u32 r
    /\ forall i, 0 <= i < 32 -> Z.testbit r i = Z.testbit v ((i - c) mod 32).
Proof.
  intros Hc Hv. unfold rotl32, shift. rewrite (wrap_small 32 (32 - c)) by (unfold in_width; lia).
  rewrite !(proj2 (Z.ltb_lt _ _)) by lia. exec_simpl. eexists. split; [done|].
  by apply rotate_bits.
Qed.

(** A right rotation by [c] is a left rotation by [w - c]. *)
Lemma rotr_bits w v c :
  0 < c < w -> in_width w v ->
  let r := wrap w (Z.lor (Z.shiftr v c) (wrap w (Z.shiftl v (w - c)))) in
  in_width w r /\ forall i, 0 <= i < w -> Z.testbit r i = Z.testbit v ((i + c) mod w).
Proof.
  intros Hc Hv. cbv zeta. rewrite Z.lor_comm.
  destruct (rotate_bits w v (w - c) ltac:(lia) Hv) as [R B]. cbv zeta in *.
  replace (w - (w - c)) with c in * by lia. split; [done|]. intros i Hi. rewrite B by done.
  f_equal. rewrite <-(Z.mod_add (i - (w - c)) 1) by lia. f_equal. lia.
Qed.

Lemma rotr32_bits v c :
  0 < c < 32 -> u32 v -> exists r, rotr32 v c = Done r /\ u32 r
    /\ forall i, 0 <= i < 32 -> Z.testbit r i = Z.testbit v ((i + c) mod 32).
Proof.
  intros Hc Hv. unfold rotr32, shift. rewrite (wrap_small 32 (32 - c)) by (unfold in_width; lia).
  rewrite !(proj2 (Z.ltb_lt _ _)) by lia. exec_simpl. eexists. split; [done|]. by apply rotr_bits.
Qed.

Lemma rotr64_bits v c :
  0 < c < 64 -> u64 v -> exists r, rotr64 v c = Done r /\ u64 r
    /\ forall i, 0 <= i < 64 -> Z.testbit r i = Z.testbit v ((i + c) mod 64).
Proof.
  intros Hc Hv. unfold rotr64, shift. rewrite (wrap_small 32 (64 - c)) by (unfold in_width; lia).
  rewrite !(proj2 (Z.ltb_lt _ _)) by lia. exec_simpl. eexists. split; [done|]. by apply rotr_bits.
Qed.

(** Patterns of [w] bits are equal when their bits are. *)
Lemma bits_eq w a b :
  in_width w a -> in_width w b -> (forall i, 0 <= i < w -> Z.testbit a i = Z.testbit b i) -> a = b.
Proof.
  intros Ha Hb H. apply Z.bits_inj'. intros i Hi. destruct (decide (i < w)); [by apply H|].
  rewrite <-(Z.mod_small a (2 ^ w)), <-(Z.mod_small b (2 ^ w)) by done.
  destruct (decide (0 <= w)); [by rewrite !Z.mod_pow2_bits_high by lia|].
  unfold in_width in Ha. rewrite Z.pow_neg_r in Ha; lia.
Qed.

(** ** Wiping *)

Lemma secure_zero_wipes m n :
  (n <= length m)%nat -> secure_zero m n = Done (wrote m 0 (replicate n 0)).
Proof.
  intros Hn. unfold secure_zero.
  destruct (for_range_inv (R := list Z) (fun i b => b = wrote m 0 (replicate i 0))
    (fun i bytes => bytes ← store bytes i 0; Done (Next bytes)) 0 n m) as (b & E & ->).
  - cbn [replicate]. by rewrite wrote_nil.
  - intros i st Hi ->. eexists. rewrite store_wrote by (rewrite ?length_replicate; lia).
    split; [reflexivity|]. by rewrite <-replicate_S_end.
  - by rewrite E.
Qed.

(** ** Properties *)

(**  Every accessor of the header is its own inverse pair: writing a value
    of its width and reading it back returns the value, and no byte outside the
    written window changes.  This covers both byte orders, the four widths and
    the signed variants. *)
Theorem bytes_roundtrip (n : nat) w r (m : list Z) (o : nat) (v : Z) :
  (o + n <= length m)%nat ->
  ((n, w, r) ∈ le_accessors ++ be_accessors -> in_width (8 * Z.of_nat n) v -> writes_back n m o v v w r)
  /\ ((n, w, r) ∈ signed_accessors -> (0 < n)%nat ->
      - 2 ^ (8 * Z.of_nat n - 1) <= v < 2 ^ (8 * Z.of_nat n - 1) -> writes_back n m o v v w r).
Proof.
  intros Hl. split; intros.
  - by apply unsigned_writes_back.
  - by apply signed_writes_back.
Qed.

Lemma bytes_roundtrip_witness :
  writes_back 4 [1; 2; 3; 4; 5; 6] 1 (-123456) (-123456) write_be32s read_be32s.
Proof.
  apply (bytes_roundtrip 4 write_be32s read_be32s [1; 2; 3; 4; 5; 6] 1 (-123456) ltac:(simpl; lia));
    [unfold signed_accessors; do 6 right; left|lia|lia].
Defined.

(**  Byte order: a little-endian reader returns the value of the bytes with
    the first byte least significant and a big-endian reader the value of the
    reversed bytes, and the writers store exactly those bytes. *)
Theorem bytes_byte_order (n : nat) w r (pre bs post : list Z) :
  length bs = n -> Forall byte bs ->
  ((n, w, r) ∈ le_accessors ->
     r (pre ++ bs ++ post) (length pre) = Done (le_val 256 bs)
     /\ forall m o, (o + n <= length m)%nat -> w m o (le_val 256 bs) = Done (wrote m o bs))
  /\ ((n, w, r) ∈ be_accessors ->
     r (pre ++ bs ++ post) (length pre) = Done (le_val 256 (reverse bs))
     /\ forall m o, (o + n <= length m)%nat -> w m o (le_val 256 (reverse bs)) = Done (wrote m o bs)).
Proof.
  intros Hn Hb.
  assert (W : forall l, length l = n -> Forall byte l ->
    in_width (8 * Z.of_nat n) (le_val 256 l) /\ le_bytes n (le_val 256 l) = l).
  { intros l <- Hl. split; [|by apply le_digits_val]. unfold in_width.
    rewrite Z.pow_mul_r by lia. by apply le_val_bound. }
  split; intros Hin; (split; [by eapply le_reader_val || by eapply be_reader_val|intros m o Hl]).
  - destruct (W bs Hn Hb) as [Hw Hv]. erewrite le_writer_bytes by done. by rewrite Hv.
  - destruct (W (reverse bs)) as [Hw Hv]; [by rewrite length_reverse|by apply Forall_reverse|].
    erewrite be_writer_bytes by done. by rewrite Hv, reverse_involutive.
Qed.

Lemma bytes_byte_order_witness :
  read_be16 ([9] ++ [1; 2] ++ []) 1 = Done 258 /\ write_be16 [0; 0; 0] 1 258 = Done [0; 1; 2].
Proof.
  destruct (bytes_byte_order 2 write_be16 read_be16 [9] [1; 2] []) as [_ H];
    [done|repeat constructor; lia|].
  destruct H as [R W]; [right; left|]. split; [exact R|exact (W [0; 0; 0] 1%nat ltac:(simpl; lia))].
Defined.

(**  The rotations, on the documented range of counts: every bit moves to
    its rotated position, and [rotr32] undoes [rotl32]. *)
Theorem rotations_correct (v c : Z) :
  u32 v -> 0 < c < 32 ->
  exists l, rotl32 v c = Done l /\ rotr32 l c = Done v
    /\ (forall i, 0 <= i < 32 -> Z.testbit l i = Z.testbit v ((i - c) mod 32))
    /\ (exists r, rotr32 v c = Done r
          /\ forall i, 0 <= i < 32 -> Z.testbit r i = Z.testbit v ((i + c) mod 32))
    /\ (exists r, rotr64 v c = Done r
          /\ forall i, 0 <= i < 64 -> Z.testbit r i = Z.testbit v ((i + c) mod 64)).
Proof.
  intros Hv Hc. destruct (rotl32_bits v c Hc Hv) as (l & El & Hl & Bl). exists l. split; [done|].
  destruct (rotr32_bits v c Hc Hv) as (r & Er & _ & Br).
  destruct (rotr32_bits l c Hc Hl) as (u & Eu & Hu & Bu).
  destruct (rotr64_bits v c) as (q & Eq & _ & Bq); [lia|unfold in_width in *; lia|].
  split; [|by eauto 10]. rewrite Eu. f_equal. apply (bits_eq 32); [done|done|].
  intros i Hi. rewrite Bu, Bl by (done || apply Z.mod_pos_bound; lia). f_equal.
  rewrite Zminus_mod_idemp_l, Z.add_simpl_r, Z.mod_small; lia.
Qed.

Lemma rotations_correct_witness : exists l, rotl32 2147483649 4 = Done l /\ rotr32 l 4 = Done 2147483649.
Proof.
  destruct (rotations_correct 2147483649 4) as (l & E & R & _); [unfold in_width; lia|lia|].
  by exists l.
Defined.
