(* ===== verification/Words.v ===== *)
(** * Machine words of the cryptographic code

    What rotations and byte strings of words are as numbers: the reference
    definitions of the hash functions and the stream cipher are written with
    [ROTL], [ROTR] and the little-endian digits of Prelude.v. *)

From S2P Require Import Prelude Bytes.
Open Scope Z_scope.

(** ** Rotations as arithmetic *)

Definition ROTL (w c x : Z) : Z := (x * 2 ^ c) mod 2 ^ w + x / 2 ^ (w - c).
Definition ROTR (w c x : Z) : Z := ROTL w (w - c) x.

Lemma rotate_value w c x :
  0 < c < w -> in_width w x ->
  wrap w (Z.lor (wrap w (Z.shiftl x c)) (Z.shiftr x (w - c))) = ROTL w c x /\ in_width w (ROTL w c x).
Proof.
  intros Hc Hx. unfold ROTL.
  assert (Hp : 2 ^ w = 2 ^ (w - c) * 2 ^ c) by (rewrite <-Z.pow_add_r by lia; f_equal; lia).
  assert (E : (x * 2 ^ c) mod 2 ^ w = (x mod 2 ^ (w - c)) * 2 ^ c) by (rewrite Hp; apply Z.mul_mod_distr_r; lia).
  assert (0 < 2 ^ c) by (apply Z.pow_pos_nonneg; lia). assert (0 < 2 ^ (w - c)) by (apply Z.pow_pos_nonneg; lia).
  assert (Hd : 0 <= x / 2 ^ (w - c) < 2 ^ c).
  { unfold in_width in Hx. split; [apply Z.div_pos; lia|apply Z.div_lt_upper_bound; lia]. }
  pose proof (Z.mod_pos_bound x (2 ^ (w - c)) ltac:(lia)).
  assert (Hr : in_width w ((x * 2 ^ c) mod 2 ^ w + x / 2 ^ (w - c))) by (unfold in_width; rewrite E, Hp; nia).
  split; [|done]. rewrite Z.shiftl_mul_pow2, Z.shiftr_div_pow2 by lia. unfold wrap at 2.
  rewrite E in Hr |- *. rewrite <-(Z.shiftl_mul_pow2 (x mod _)) at 1 by lia. rewrite lor_shiftl_add by lia. by apply wrap_small.
Qed.

Lemma rotl32_value x c : 0 < c < 32 -> u32 x -> rotl32 x c = Done (ROTL 32 c x) /\ u32 (ROTL 32 c x).
Proof.
  intros Hc Hx. destruct (rotate_value 32 c x Hc Hx) as [E Hr]. split; [|done]. unfold rotl32, shift.
  rewrite (wrap_small 32 (32 - c)) by (unfold in_width; lia). rewrite !(proj2 (Z.ltb_lt _ _)) by lia. exec_simpl. by rewrite E.
Qed.

Lemma rotr32_value x c : 0 < c < 32 -> u32 x -> rotr32 x c = Done (ROTR 32 c x) /\ u32 (ROTR 32 c x).
Proof.
  intros Hc Hx. destruct (rotate_value 32 (32 - c) x) as [E Hr]; [lia|done|]. split; [|done]. unfold rotr32, shift.
  rewrite (wrap_small 32 (32 - c)) by (unfold in_width; lia). rewrite !(proj2 (Z.ltb_lt _ _)) by lia. exec_simpl.
  rewrite Z.lor_comm. replace (Z.shiftr x c) with (Z.shiftr x (32 - (32 - c))) by (f_equal; lia). by rewrite E.
Qed.

Lemma rotr64_value x c : 0 < c < 64 -> u64 x -> rotr64 x c = Done (ROTR 64 c x) /\ u64 (ROTR 64 c x).
Proof.
  intros Hc Hx. destruct (rotate_value 64 (64 - c) x) as [E Hr]; [lia|done|]. split; [|done]. unfold rotr64, shift.
  rewrite (wrap_small 32 (64 - c)) by (unfold in_width; lia). rewrite !(proj2 (Z.ltb_lt _ _)) by lia. exec_simpl.
  rewrite Z.lor_comm. replace (Z.shiftr x c) with (Z.shiftr x (64 - (64 - c))) by (f_equal; lia). by rewrite E.
Qed.

Lemma shiftr_width w x c : 0 <= c -> in_width w x -> in_width w (Z.shiftr x c).
Proof.
  unfold in_width. intros Hc Hx. rewrite Z.shiftr_div_pow2 by done. assert (0 < 2 ^ c) by (apply Z.pow_pos_nonneg; lia).
  split; [apply Z.div_pos; lia|]. apply Z.div_lt_upper_bound; nia.
Qed.

(** ** Digits *)

Lemma le_digits_app B n m x : 0 < B -> le_digits B (n + m) x = le_digits B n x ++ le_digits B m (x / B ^ Z.of_nat n).
Proof.
  intros HB. revert x. induction n as [|n IH]; intros x; cbn [le_digits Nat.add app].
  - by rewrite Z.div_1_r.
  - f_equal. rewrite IH, Z.div_div, Nat2Z.inj_succ, Z.pow_succ_r by lia. done.
Qed.

Lemma le_digits_wrap B n x : 0 < B -> le_digits B n (x mod B ^ Z.of_nat n) = le_digits B n x.
Proof.
  intros HB. revert x. induction n as [|n IH]; intros x; cbn [le_digits]; [done|].
  rewrite Nat2Z.inj_succ, Z.pow_succ_r by lia. rewrite Z.rem_mul_r by lia.
  rewrite (Z.mul_comm B (_ mod _)) at 1. rewrite Z.mod_add, Z.mod_mod by lia. f_equal.
  rewrite Z.mul_comm, Z.div_add, (Z.div_small (x mod B)), Z.add_0_l by (apply Z.mod_pos_bound || lia; lia). apply IH.
Qed.

Lemma le_bytes_u64 x : le_bytes 8 (to_u64 x) = le_bytes 8 x.
Proof. apply (le_digits_wrap 256 8 x). lia. Qed.

(** As an equation, so that no conversion has to run the loops. *)
Lemma bind_Done {A B} (f : A -> exec B) x : (Done x ≫= f) = f x.
Proof. reflexivity. Qed.

Lemma bind_eq {A B} (m : exec A) (f : A -> exec B) x : m = Done x -> (m ≫= f) = f x.
Proof. by intros ->. Qed.

(** Run the first statement of a sequence by a lemma about it. *)
Ltac run_first H := refine (eq_trans (bind_eq _ _ _ H) _); cbv beta.

(** ** Strings of words *)

Lemma length_join_const {A B} (f : A -> list B) n (l : list A) :
  Forall (fun x => length (f x) = n) l -> length (mjoin (f <$> l)) = (n * length l)%nat.
Proof.
  induction 1 as [|x l E _ IH]; cbn [length]; [cbn; lia|].
  change (mjoin (f <$> x :: l)) with (f x ++ mjoin (f <$> l)). rewrite length_app, IH, E. lia.
Qed.

Lemma length_le_bytes n v : length (le_bytes n v) = n.
Proof. apply length_le_digits. Qed.

Lemma length_join_le_bytes n (ws : list Z) : length (mjoin (le_bytes n <$> ws)) = (n * length ws)%nat.
Proof. apply length_join_const, Forall_true. intros w. apply length_le_bytes. Qed.

(** ** Fields of big-endian data *)

(** The unsigned number of [n] bytes at [at_], the most significant first. *)
Definition field (data : list Z) (at_ n : nat) : Z := le_val 256 (reverse (take n (drop at_ data))).

Lemma field_read n w r data at_ : (n, w, r) ∈ be_accessors -> Forall byte data -> (at_ + n <= length data)%nat -> r data at_ = Done (field data at_ n).
Proof.
  intros Hin Hb Hl. pose proof (be_reader_val n w r (take at_ data) (take n (drop at_ data)) (drop n (drop at_ data)) Hin) as H.
  rewrite !take_drop, length_take, length_take, length_drop, !Nat.min_l in H by lia. rewrite H; [done|done|by apply Forall_take, Forall_drop].
Qed.

Lemma read_be16_field data at_ : Forall byte data -> (at_ + 2 <= length data)%nat -> read_be16 data at_ = Done (field data at_ 2).
Proof. apply (field_read 2 write_be16). apply list_elem_of_In. cbn. auto. Qed.

Lemma read_be32_field data at_ : Forall byte data -> (at_ + 4 <= length data)%nat -> read_be32 data at_ = Done (field data at_ 4).
Proof. apply (field_read 4 write_be32). apply list_elem_of_In. cbn. auto. Qed.

Lemma field_width data at_ n : Forall byte data -> 0 <= field data at_ n < 256 ^ Z.of_nat n.
Proof.
  intros Hb. unfold field. set (l := reverse _). assert (Hl : Forall byte l) by (by apply Forall_reverse, Forall_take, Forall_drop).
  pose proof (le_val_bound 256 l) as H. assert (length l <= n)%nat by (subst l; rewrite length_reverse, length_take; lia).
  assert (256 ^ Z.of_nat (length l) <= 256 ^ Z.of_nat n) by (apply Z.pow_le_mono_r; lia).
  enough (0 <= le_val 256 l < 256 ^ Z.of_nat (length l)) by lia. apply H; [lia|]. done.
Qed.

(** A number in two bytes, the most significant first. *)
Definition be16 (v : Z) : list Z := reverse (le_bytes 2 v).

Lemma length_be16 v : length (be16 v) = 2%nat.
Proof. done. Qed.

Lemma be16_bytes v : Forall byte (be16 v).
Proof. apply Forall_reverse, le_bytes_bytes. Qed.

Lemma field_be16 data at_ v post : in_width 16 v -> drop at_ data = be16 v ++ post -> field data at_ 2 = v.
Proof.
  intros Hv E. unfold field. rewrite E. rewrite take_app_le by (by rewrite length_be16). rewrite take_ge by (by rewrite length_be16).
  unfold be16. rewrite reverse_involutive. by apply le_val_digits.
Qed.
