(* ===== verification/StringBuf.v ===== *)
(** * Strings (castle/container/string.hpp and string_view.hpp)

    [basic_string<char, N>] is an array of [N + 1] characters, its length, and a
    terminating null behind the characters in use.  A [string_view] argument is
    characters elsewhere in memory or a part of the string itself, so that
    arguments may overlap the string: assigning and appending allow for it, inserting does not. *)

From S2P Require Import Prelude Status Bytes Words.
Open Scope Z_scope.

(** ** Views *)

(** [npos] is [None]. *)
Definition substr (v : list Z) (offset : nat) (count : option nat) : list Z :=
  if (length v <? offset)%nat then []
  else
    let available := (length v - offset)%nat in
    let count := match count with
                 | Some c => if (available <? c)%nat then available else c
                 | None => available
                 end in
    take count (drop offset v).

(** [memchr(p, value, n)] over the bytes [v], as an offset. *)
Fixpoint memchr (v : list Z) (value : Z) : option nat :=
  match v with
  | [] => None
  | c :: v => if c =? value then Some 0%nat else S <$> memchr v value
  end.

(** The sign of [memcmp] on the first [n] bytes of both. *)
Fixpoint memcmp (a b : list Z) (n : nat) : Z :=
  match n, a, b with
  | S n, x :: a, y :: b => if x =? y then memcmp a b n else if x <? y then -1 else 1
  | _, _, _ => 0
  end.

Definition view_find_char (v : list Z) (value : Z) (offset : nat) : option nat :=
  if (length v <=? offset)%nat then None
  else (fun i => offset + i)%nat <$> memchr (drop offset v) value.

(** The loop of [find(basic_string_view)]; the fuel is the length of the text. *)
Fixpoint view_find_loop (fuel : nat) (v value : list Z) (last_start i : nat) : exec (option nat) :=
  match fuel with
  | O => Undefined
  | S fuel =>
      if (i <=? last_start)%nat then
        first ← load value 0;
        match memchr (take (last_start - i + 1) (drop i v)) first with
        | None => Done None
        | Some k =>
            let i := (i + k)%nat in
            if memcmp (drop i v) value (length value) =? 0 then Done (Some i)
            else view_find_loop fuel v value last_start (i + 1)
        end
      else Done None
  end.
Definition view_find (v value : list Z) (offset : nat) : exec (option nat) :=
  if (length value =? 0)%nat then Done (if (offset <=? length v)%nat then Some offset else None)
  else if (length v <? length value)%nat || (length v - length value <? offset)%nat then Done None
  else view_find_loop (length v + 2) v value (length v - length value) offset.

Definition view_compare (v other : list Z) : Z :=
  let common := if (length v <? length other)%nat then length v else length other in
  let result := memcmp v other common in
  if negb (result =? 0) then result
  else if (length v <? length other)%nat then -1
  else if (length other <? length v)%nat then 1
  else 0.

Definition starts_with (v prefix : list Z) : bool :=
  (length prefix <=? length v)%nat && (view_compare (substr v 0 (Some (length prefix))) prefix =? 0).
Definition ends_with (v suffix : list Z) : bool :=
  (length suffix <=? length v)%nat
  && (view_compare (substr v (length v - length suffix) (Some (length suffix))) suffix =? 0).

(** ** The string *)

Record basic_string : Type := mk_string { data_ : list Z; size_ : nat }.

(** A view: the characters of another object, or [len] characters of the string itself. *)
Inductive view_arg : Type :=
| Other (chars : list Z)
| Own (off len : nat).
Definition view_size (v : view_arg) : nat := match v with Other cs => length cs | Own _ len => len end.
(** [view[i]], read from the string's memory as it is then. *)
Definition view_at (v : view_arg) (data : list Z) (i : nat) : exec Z :=
  match v with Other cs => load cs i | Own off _ => load data (off + i) end.

Section String.
Context (N : nat).

Definition clear (s : basic_string) : exec basic_string := d ← store (data_ s) 0 0; Done (mk_string d 0).
Definition string_new (junk : list Z) : exec basic_string := clear (mk_string junk 0).

(** [copy_chars(data_ + off, src, count)]. *)
Definition copy_chars (data : list Z) (off : nat) (src : view_arg) (count : nat) : exec (list Z) :=
  for_to 0 count (fun i d => v ← view_at src d i; store d (off + i) v) data.

(** The new length and its terminator. *)
Definition set_size (data : list Z) (n : nat) : exec basic_string := d ← store data n 0; Done (mk_string d n).

(** The length of a null-terminated text, giving up behind [limit] characters. *)
Definition text_length (text : list Z) (limit : nat) : exec (option nat) :=
  after (while_loop (S (S limit)) (fun n => c ← load text n; Done (negb (c =? 0)))
           (fun n => if (limit <? n + 1)%nat then Done (Return None) else Done (Next (n + 1)%nat)) 0%nat)
    (fun n => Done (Some n)).

Definition assign_text (s : basic_string) (text : ptr) : exec (status * basic_string) :=
  match text with
  | None => s ← clear s; Done (s_invalid_argument, s)
  | Some text =>
      l ← text_length text N;
      match l with
      | None => Done (s_full, s)
      | Some n => d ← copy_chars (data_ s) 0 (Other text) n; s ← set_size d n; Done (s_ok, s)
      end
  end.
Definition assign_view (s : basic_string) (view : view_arg) : exec (status * basic_string) :=
  if (N <? view_size view)%nat then Done (s_full, s)
  else d ← copy_chars (data_ s) 0 view (view_size view); s ← set_size d (view_size view); Done (s_ok, s).

Definition full (s : basic_string) : bool := (size_ s =? N)%nat.
Definition empty (s : basic_string) : bool := (size_ s =? 0)%nat.
Definition available (s : basic_string) : nat := (N - size_ s)%nat.

Definition push_back (s : basic_string) (value : Z) : exec (status * basic_string) :=
  if full s then Done (s_full, s)
  else d ← store (data_ s) (size_ s) value; s ← set_size d (size_ s + 1); Done (s_ok, s).
Definition pop_back (s : basic_string) : exec (status * basic_string) :=
  if empty s then Done (s_empty, s) else s ← set_size (data_ s) (size_ s - 1); Done (s_ok, s).

Definition append_text (s : basic_string) (text : ptr) : exec (status * basic_string) :=
  match text with
  | None => Done (s_invalid_argument, s)
  | Some text =>
      l ← text_length text (N - size_ s);
      match l with
      | None => Done (s_full, s)
      | Some n => d ← copy_chars (data_ s) (size_ s) (Other text) n; s ← set_size d (size_ s + n); Done (s_ok, s)
      end
  end.
Definition append_view (s : basic_string) (view : view_arg) : exec (status * basic_string) :=
  if (N - size_ s <? view_size view)%nat then Done (s_full, s)
  else
    d ← copy_chars (data_ s) (size_ s) view (view_size view);
    s ← set_size d (size_ s + view_size view); Done (s_ok, s).

(** The characters behind [position] move up, from the last one on. *)
Definition shift_up (position len : nat) (n : nat) (data : list Z) : exec (list Z) :=
  for_to 0 n (fun j d => let i := (position + n - j)%nat in v ← load d (i - 1); store d (i + len - 1) v) data.
Definition insert (s : basic_string) (position : nat) (view : view_arg) : exec (status * basic_string) :=
  if (size_ s <? position)%nat then Done (s_out_of_range, s)
  else if (N - size_ s <? view_size view)%nat then Done (s_full, s)
  else
    d ← shift_up position (view_size view) (size_ s - position) (data_ s);
    d ← copy_chars d position view (view_size view);
    s ← set_size d (size_ s + view_size view); Done (s_ok, s).

Definition erase (s : basic_string) (position : nat) (count : option nat) : exec (status * basic_string) :=
  if (size_ s <? position)%nat then Done (s_out_of_range, s)
  else
    let rest := (size_ s - position)%nat in
    let count := match count with Some c => if (rest <? c)%nat then rest else c | None => rest end in
    d ← for_to 0 (rest - count) (fun j d => v ← load d (position + j + count); store d (position + j) v) (data_ s);
    s ← set_size d (size_ s - count); Done (s_ok, s).

Definition resize (s : basic_string) (count : nat) (value : Z) : exec (status * basic_string) :=
  if (N <? count)%nat then Done (s_full, s)
  else
    d ← (if (size_ s <? count)%nat then for_to (size_ s) (count - size_ s) (fun i d => store d i value) (data_ s)
         else Done (data_ s));
    s ← set_size d count; Done (s_ok, s).

Definition view (s : basic_string) : list Z := take (size_ s) (data_ s).
Definition find_char (s : basic_string) (value : Z) (offset : nat) : option nat := view_find_char (view s) value offset.
Definition find (s : basic_string) (value : list Z) (offset : nat) : exec (option nat) := view_find (view s) value offset.
Definition compare (s : basic_string) (other : list Z) : Z := view_compare (view s) other.

Definition string_of_text (junk : list Z) (text : ptr) : exec basic_string :=
  s ← string_new junk; '(r, s) ← assign_text s text; if succeeded r then Done s else clear s.
Definition string_of_view (junk : list Z) (v : list Z) : exec basic_string :=
  s ← string_new junk; '(r, s) ← assign_view s (Other v); if succeeded r then Done s else clear s.
(** Copy construction, and assignment from another object. *)
Definition copy_from (s other : basic_string) : exec basic_string :=
  d ← copy_chars (data_ s) 0 (Other (data_ other)) (size_ other); set_size d (size_ other).
End String.

(** ** Moving characters *)

Lemma for_to_ext {S} (f g : nat -> S -> exec S) start n s :
  (forall i st, f i st = g i st) -> for_to start n f s = for_to start n g s.
Proof.
  intros H. revert start s. induction n as [|n IH]; intros start s; [done|]. rewrite !for_to_S, H.
  destruct (g start s) as [s'|]; [|done]. cbn [mbind exec_bind]. apply IH.
Qed.

(** A forward copy inside one array, from a range it does not clobber. *)
Lemma move_chars (data : list Z) src dst n :
  (dst <= src \/ src + n <= dst)%nat -> (src + n <= length data)%nat -> (dst + n <= length data)%nat ->
  for_to 0 n (fun i d => v ← load d (src + i); store d (dst + i) v) data = Done (wrote data dst (take n (drop src data))).
Proof.
  intros Hf Hs Hd. set (body := fun (i : nat) (d : list Z) => _).
  destruct (for_to_inv (fun i d => d = wrote data dst (take i (drop src data))) body 0 n data) as (d & -> & ->).
  - rewrite take_0. symmetry. apply wrote_nil.
  - intros i d Hi ->. unfold body. destruct (lookup_lt_is_Some_2 data (src + i)) as [v Hv]; [lia|].
    assert (Hl : length (take i (drop src data)) = i) by (rewrite length_take, length_drop; lia).
    rewrite (load_Done _ _ v), bind_Done by (rewrite wrote_outside by (rewrite Hl; lia); done).
    rewrite store_wrote by (rewrite ?Hl; lia). eexists. split; [done|]. by rewrite <-(take_S_r _ _ v) by (by rewrite lookup_drop).
  - by rewrite Nat.add_0_l.
Qed.

Lemma copy_other (data cs : list Z) off n :
  (n <= length cs)%nat -> (off + n <= length data)%nat -> copy_chars data off (Other cs) n = Done (wrote data off (take n cs)).
Proof.
  intros Hn Ho. unfold copy_chars. cbn [view_at]. set (body := fun (i : nat) (d : list Z) => _).
  destruct (for_to_inv (fun i d => d = wrote data off (take i cs)) body 0 n data) as (d & -> & ->).
  - rewrite take_0. symmetry. apply wrote_nil.
  - intros i d Hi ->. unfold body. destruct (lookup_lt_is_Some_2 cs i) as [v Hv]; [lia|].
    rewrite (load_Done _ _ _ Hv), bind_Done, store_wrote by (rewrite ?length_take; lia). eexists. split; [done|].
    by rewrite (take_S_r _ _ _ Hv).
  - by rewrite Nat.add_0_l.
Qed.

(** Writing in front of what was written. *)
Lemma wrote_front {A} (m : list A) o b1 b2 i :
  i = (o + length b1)%nat -> (i + length b2 <= length m)%nat -> wrote (wrote m i b2) o b1 = wrote m o (b1 ++ b2).
Proof.
  intros -> H. unfold wrote at 1. unfold wrote at 1 2.
  rewrite take_app_le, take_take, Nat.min_l by (rewrite ?length_take; lia).
  rewrite drop_app_length' by (rewrite length_take; lia). unfold wrote. rewrite <-app_assoc. do 3 f_equal.
  rewrite length_app. f_equal. lia.
Qed.

Lemma shift_up_ok (data : list Z) position len n :
  (position + n + len <= length data)%nat ->
  shift_up position len n data = Done (wrote data (position + len) (take n (drop position data))).
Proof.
  intros Hl. unfold shift_up. set (mid := take n (drop position data)). set (body := fun (j : nat) (d : list Z) => _).
  assert (Hm : length mid = n) by (unfold mid; rewrite length_take, length_drop; lia).
  destruct (for_to_inv (fun j d => d = wrote data (position + len + (n - j)) (drop (n - j) mid)) body 0 n data) as (d & -> & ->).
  - rewrite Nat.sub_0_r, drop_ge by lia. symmetry. apply wrote_nil.
  - intros j d Hj ->. unfold body. cbv zeta. destruct (lookup_lt_is_Some_2 mid (n - S j)) as [v Hv]; [lia|].
    assert (Hd : data !! (position + n - j - 1)%nat = Some v).
    { unfold mid in Hv. rewrite lookup_take_lt, lookup_drop in Hv by lia. rewrite <-Hv. f_equal. lia. }
    rewrite (load_Done _ _ v), bind_Done by (rewrite wrote_outside by (rewrite length_drop; lia); done).
    replace (position + n - j + len - 1)%nat with (position + len + (n - S j))%nat by lia.
    assert (Hdr : drop (n - S j) mid = v :: drop (n - j) mid).
    { rewrite (drop_S _ _ _ Hv). do 2 f_equal. lia. }
    rewrite Hdr. eexists. split; [|done]. rewrite store_Done by (rewrite length_wrote; rewrite ?length_drop; lia). f_equal.
    pose proof (wrote_front data (position + len + (n - S j)) [v] (drop (n - j) mid) (position + len + (n - j))) as Hw.
    cbn [app length] in Hw. rewrite <-Hw by (rewrite ?length_drop; lia). unfold wrote at 2.
    rewrite Nat.add_1_r. apply insert_take_drop. rewrite length_wrote; rewrite ?length_drop; lia.
  - by rewrite Nat.add_0_l, Nat.sub_diag, Nat.add_0_r, drop_0.
Qed.

(** ** The characters of a string *)

Definition holds (N : nat) (s : basic_string) (cs : list Z) : Prop :=
  length (data_ s) = S N /\ (length cs <= N)%nat /\ size_ s = length cs
  /\ exists junk, data_ s = cs ++ 0 :: junk.

(** What a view spells while the string holds [cs]. *)
Definition view_chars (v : view_arg) (cs : list Z) : list Z :=
  match v with Other l => l | Own o n => take n (drop o cs) end.
Definition view_ok (v : view_arg) (cs : list Z) : Prop :=
  match v with Other _ => True | Own o n => (o + n <= length cs)%nat end.

Section Holds.
Context (N : nat).

Lemma holds_view s cs : holds N s cs -> view s = cs.
Proof. intros (_ & _ & Hs & junk & E). unfold view. by rewrite Hs, E, take_app_length. Qed.

Lemma holds_size s cs : holds N s cs -> size_ s = length cs /\ (length cs <= N)%nat.
Proof. intros (_ & Hl & Hs & _). done. Qed.

Lemma set_size_ok data cs :
  length data = S N -> (length cs <= N)%nat -> take (length cs) data = cs ->
  exists s, set_size data (length cs) = Done s /\ holds N s cs.
Proof.
  intros Hd Hl Ht. unfold set_size. rewrite store_Done, bind_Done by lia. eexists. split; [done|].
  split_and!; cbn [data_ size_]; [by rewrite length_insert|done|done|]. exists (drop (S (length cs)) data).
  rewrite insert_take_drop by lia. by rewrite Ht.
Qed.

Lemma string_clear_ok s : length (data_ s) = S N -> exists s', clear s = Done s' /\ holds N s' [].
Proof. intros Hl. apply (set_size_ok (data_ s) []); [done|cbn; lia|done]. Qed.

(** Writing [bs] behind the first [o] characters and cutting the string off there. *)
Lemma wrote_prefix (data cs bs : list Z) o :
  (o + length bs <= length data)%nat -> (o <= length cs)%nat -> take (length cs) data = cs ->
  take (length (take o cs ++ bs)) (wrote data o bs) = take o cs ++ bs.
Proof.
  intros Hl Ho Ht. unfold wrote. rewrite app_assoc.
  assert (E : take o data = take o cs) by (rewrite <-Ht, take_take, Nat.min_l by lia; done).
  rewrite E. apply take_app_length.
Qed.

Lemma holds_prefix s cs : holds N s cs -> length (data_ s) = S N /\ take (length cs) (data_ s) = cs.
Proof. intros (Hd & _ & _ & junk & E). split; [done|]. by rewrite E, take_app_length. Qed.

(** Copying a view to offset [o]: its characters, if it does not overlap from below. *)
Lemma copy_view s cs v o :
  holds N s cs -> view_ok v cs -> (o + view_size v <= S N)%nat ->
  match v with Other _ => True | Own src n => o <= src \/ src + n <= o end%nat ->
  copy_chars (data_ s) o v (view_size v) = Done (wrote (data_ s) o (view_chars v cs)) /\ length (view_chars v cs) = view_size v.
Proof.
  intros Hh Hv Ho Hf. destruct (holds_prefix s cs Hh) as [Hd Ht]. destruct (holds_size s cs Hh) as [_ Hl].
  destruct v as [l|src n]; cbn [view_size view_chars view_ok] in *.
  - rewrite copy_other by lia. by rewrite take_ge.
  - unfold copy_chars. cbn [view_at]. rewrite move_chars by lia. split; [|rewrite length_take, length_drop; lia]. do 2 f_equal.
    rewrite <-Ht, !take_drop_commute, !take_take. f_equal. f_equal. lia.
Qed.

Lemma text_length_ok cs rest limit :
  Forall (fun c => c <> 0) cs -> (length cs <= limit)%nat -> text_length (cs ++ 0 :: rest) limit = Done (Some (length cs)).
Proof.
  intros Hc Hl. unfold text_length.
  assert (Hloop : forall k fuel, (k <= length cs)%nat -> (length cs - k < fuel)%nat ->
    while_loop fuel (fun n => c ← load (cs ++ 0 :: rest) n; Done (negb (c =? 0)))
      (fun n => if (limit <? n + 1)%nat then Done (Return (@None nat)) else Done (Next (n + 1)%nat)) k = Done (Next (length cs))).
  { intros k fuel. remember (length cs - k)%nat as m eqn:Em. revert k fuel Em. induction m as [|m IH]; intros k fuel Em Hk Hf;
      (destruct fuel as [|fuel]; [lia|]); cbn [while_loop].
    - assert (k = length cs) as -> by lia. rewrite (load_Done _ _ 0) by (by apply list_lookup_middle). done.
    - destruct (lookup_lt_is_Some_2 cs k) as [c Hk']; [lia|]. rewrite (load_Done _ _ c) by (by apply lookup_app_l_Some). exec_simpl.
      rewrite Forall_lookup in Hc. rewrite (proj2 (Z.eqb_neq _ _)) by (by eapply Hc). cbn [negb].
      rewrite (proj2 (Nat.ltb_ge _ _)) by lia. apply IH; lia. }
  rewrite Hloop by lia. done.
Qed.

Lemma text_length_long cs rest limit :
  Forall (fun c => c <> 0) cs -> length cs = S limit -> text_length (cs ++ rest) limit = Done None.
Proof.
  intros Hc Hl. unfold text_length.
  assert (Hloop : forall k fuel, (k <= limit)%nat -> (limit - k < fuel)%nat ->
    while_loop fuel (fun n => c ← load (cs ++ rest) n; Done (negb (c =? 0)))
      (fun n => if (limit <? n + 1)%nat then Done (Return (@None nat)) else Done (Next (n + 1)%nat)) k = Done (Return None)).
  { intros k fuel. remember (limit - k)%nat as m eqn:Em. revert k fuel Em. induction m as [|m IH]; intros k fuel Em Hk Hf;
      (destruct fuel as [|fuel]; [lia|]); cbn [while_loop];
      (destruct (lookup_lt_is_Some_2 cs k) as [c Hk']; [lia|]); rewrite (load_Done _ _ c) by (by apply lookup_app_l_Some); exec_simpl;
      rewrite Forall_lookup in Hc; rewrite (proj2 (Z.eqb_neq _ _)) by (by eapply Hc); cbn [negb].
    - by rewrite (proj2 (Nat.ltb_lt _ _)) by lia.
    - rewrite (proj2 (Nat.ltb_ge _ _)) by lia. apply IH; [lia..|]. lia. }
  rewrite Hloop by lia. done.
Qed.

Lemma push_back_ok s cs c :
  holds N s cs -> if decide (length cs < N)%nat
    then exists s', push_back N s c = Done (s_ok, s') /\ holds N s' (cs ++ [c])
    else push_back N s c = Done (s_full, s).
Proof.
  intros Hh. destruct (holds_size s cs Hh) as [Hs Hl]. destruct (holds_prefix s cs Hh) as [Hd Ht]. unfold push_back, full. rewrite Hs.
  case_decide; [rewrite (proj2 (Nat.eqb_neq _ _)) by lia|by rewrite (proj2 (Nat.eqb_eq _ _)) by lia].
  rewrite store_Done, bind_Done by lia.
  destruct (set_size_ok (<[length cs := c]> (data_ s)) (cs ++ [c])) as (s' & E & Hs').
  - by rewrite length_insert.
  - rewrite length_app. cbn. lia.
  - rewrite length_app. cbn [length]. rewrite Nat.add_1_r. erewrite take_S_r by (apply list_lookup_insert_eq; lia).
    by rewrite take_insert_ge, Ht by lia.
  - rewrite length_app in E. cbn [length] in E. rewrite E, bind_Done. by exists s'.
Qed.

Lemma append_view_ok s cs v :
  holds N s cs -> view_ok v cs -> if decide (length cs + view_size v <= N)%nat
    then exists s', append_view N s v = Done (s_ok, s') /\ holds N s' (cs ++ view_chars v cs)
    else append_view N s v = Done (s_full, s).
Proof.
  intros Hh Hv. destruct (holds_size s cs Hh) as [Hs Hl]. destruct (holds_prefix s cs Hh) as [Hd Ht]. unfold append_view. rewrite Hs.
  case_decide; [rewrite (proj2 (Nat.ltb_ge _ _)) by lia|by rewrite (proj2 (Nat.ltb_lt _ _)) by lia].
  destruct (copy_view s cs v (length cs) Hh Hv) as [-> Hn]; [lia|by destruct v; cbn in *; [|lia]|]. rewrite bind_Done.
  destruct (set_size_ok (wrote (data_ s) (length cs) (view_chars v cs)) (cs ++ view_chars v cs)) as (s' & E & Hs').
  - rewrite length_wrote; lia.
  - rewrite length_app. lia.
  - pose proof (wrote_prefix (data_ s) cs (view_chars v cs) (length cs)) as Hp. rewrite (take_ge cs) in Hp by lia. apply Hp; [lia|lia|done].
  - rewrite length_app, Hn in E. rewrite E, bind_Done. by exists s'.
Qed.

Lemma assign_view_ok s cs v :
  holds N s cs -> view_ok v cs -> if decide (view_size v <= N)%nat
    then exists s', assign_view N s v = Done (s_ok, s') /\ holds N s' (view_chars v cs)
    else assign_view N s v = Done (s_full, s).
Proof.
  intros Hh Hv. destruct (holds_prefix s cs Hh) as [Hd Ht]. unfold assign_view.
  case_decide; [rewrite (proj2 (Nat.ltb_ge _ _)) by lia|by rewrite (proj2 (Nat.ltb_lt _ _)) by lia].
  destruct (copy_view s cs v 0 Hh Hv) as [-> Hn]; [lia|destruct v; [done|lia]|]. rewrite bind_Done.
  destruct (set_size_ok (wrote (data_ s) 0 (view_chars v cs)) (view_chars v cs)) as (s' & E & Hs').
  - rewrite length_wrote; lia.
  - lia.
  - apply take_wrote. lia.
  - rewrite Hn in E. rewrite E, bind_Done. by exists s'.
Qed.

Lemma assign_text_ok s cs text rest :
  holds N s cs -> Forall (fun c => c <> 0) text ->
  ((length text <= N)%nat -> exists s', assign_text N s (Some (text ++ 0 :: rest)) = Done (s_ok, s') /\ holds N s' text)
  /\ ((N < length text)%nat -> assign_text N s (Some (text ++ 0 :: rest)) = Done (s_full, s)).
Proof.
  intros Hh Hc. destruct (holds_prefix s cs Hh) as [Hd Ht]. split; intros Hl; unfold assign_text.
  - rewrite text_length_ok, bind_Done, copy_other, bind_Done by (rewrite ?length_app; done || lia).
    rewrite take_app_length. destruct (set_size_ok (wrote (data_ s) 0 text) text) as (s' & -> & Hs'); [rewrite length_wrote; lia|lia|apply take_wrote; lia|].
    by exists s'.
  - rewrite <-(take_drop (S N) text), <-app_assoc. rewrite text_length_long, bind_Done; [done|by apply Forall_take|rewrite length_take; lia].
Qed.

Lemma append_text_ok s cs text rest :
  holds N s cs -> Forall (fun c => c <> 0) text ->
  ((length cs + length text <= N)%nat -> exists s', append_text N s (Some (text ++ 0 :: rest)) = Done (s_ok, s') /\ holds N s' (cs ++ text))
  /\ ((N < length cs + length text)%nat -> append_text N s (Some (text ++ 0 :: rest)) = Done (s_full, s)).
Proof.
  intros Hh Hc. destruct (holds_size s cs Hh) as [Hs Hn]. destruct (holds_prefix s cs Hh) as [Hd Ht].
  split; intros Hl; unfold append_text; rewrite Hs.
  - rewrite text_length_ok, bind_Done, copy_other, bind_Done by (rewrite ?length_app; done || lia).
    rewrite take_app_length. destruct (set_size_ok (wrote (data_ s) (length cs) text) (cs ++ text)) as (s' & E & Hs').
    + rewrite length_wrote; lia.
    + rewrite length_app. lia.
    + pose proof (wrote_prefix (data_ s) cs text (length cs)) as Hp. rewrite (take_ge cs) in Hp by lia. apply Hp; [lia|lia|done].
    + rewrite length_app in E. rewrite E, bind_Done. by exists s'.
  - rewrite <-(take_drop (S (N - length cs)) text), <-app_assoc.
    rewrite text_length_long, bind_Done; [done|by apply Forall_take|rewrite length_take; lia].
Qed.

Lemma insert_ok s cs position (l : list Z) :
  holds N s cs -> (position <= length cs)%nat -> (length cs + length l <= N)%nat ->
  exists s', insert N s position (Other l) = Done (s_ok, s') /\ holds N s' (take position cs ++ l ++ drop position cs).
Proof.
  intros Hh Hp Hl. destruct (holds_size s cs Hh) as [Hs Hn]. destruct (holds_prefix s cs Hh) as [Hd Ht].
  unfold insert. cbn [view_size]. rewrite Hs, !(proj2 (Nat.ltb_ge _ _)) by lia.
  rewrite shift_up_ok, bind_Done by lia.
  assert (Em : take (length cs - position) (drop position (data_ s)) = drop position cs).
  { rewrite <-Ht at 2. rewrite skipn_firstn_comm. done. }
  rewrite Em, copy_other, bind_Done by (rewrite ?length_wrote, ?length_drop; rewrite ?length_drop; lia).
  rewrite (take_ge l), wrote_front by (rewrite ?length_drop; lia).
  destruct (set_size_ok (wrote (data_ s) position (l ++ drop position cs)) (take position cs ++ l ++ drop position cs)) as (s' & E & Hs').
  - rewrite length_wrote; rewrite ?length_app, ?length_drop; lia.
  - rewrite !length_app, length_take, length_drop. lia.
  - apply wrote_prefix; [rewrite length_app, length_drop; lia|lia|done].
  - rewrite !length_app, length_take, length_drop in E.
    replace (position `min` length cs + (length l + (length cs - position)))%nat with (length cs + length l)%nat in E by lia.
    rewrite E, bind_Done. by exists s'.
Qed.

Lemma string_erase_ok s cs position count :
  holds N s cs -> (position <= length cs)%nat ->
  let n := match count with Some c => Nat.min c (length cs - position) | None => (length cs - position)%nat end in
  exists s', erase s position count = Done (s_ok, s') /\ holds N s' (take position cs ++ drop (position + n) cs).
Proof.
  intros Hh Hp. destruct (holds_size s cs Hh) as [Hs Hn]. destruct (holds_prefix s cs Hh) as [Hd Ht].
  cbn zeta. unfold erase. rewrite Hs, (proj2 (Nat.ltb_ge _ _)) by lia.
  assert (Hc : match count with Some c => if (length cs - position <? c)%nat then (length cs - position)%nat else c | None => (length cs - position)%nat end
               = match count with Some c => Nat.min c (length cs - position) | None => (length cs - position)%nat end).
  { destruct count as [c|]; [|done]. destruct (Nat.ltb_spec (length cs - position) c); lia. }
  rewrite Hc. set (n := match count with Some c => Nat.min c _ | None => _ end). clear Hc.
  assert (Hle : (n <= length cs - position)%nat) by (unfold n; destruct count; lia). clearbody n.
  rewrite (for_to_ext _ (fun j d => v ← load d (position + n + j); store d (position + j) v)).
  2:{ intros j d. by replace (position + j + n)%nat with (position + n + j)%nat by lia. }
  rewrite move_chars, bind_Done by lia.
  assert (Em : take (length cs - position - n) (drop (position + n) (data_ s)) = drop (position + n) cs).
  { rewrite <-Ht at 2. rewrite skipn_firstn_comm. f_equal. lia. }
  rewrite Em.
  destruct (set_size_ok (wrote (data_ s) position (drop (position + n) cs)) (take position cs ++ drop (position + n) cs)) as (s' & E & Hs').
  - rewrite length_wrote; rewrite ?length_drop; lia.
  - rewrite length_app, length_take, length_drop. lia.
  - apply wrote_prefix; [rewrite length_drop; lia|lia|done].
  - rewrite length_app, length_take, length_drop in E.
    replace (position `min` length cs + (length cs - (position + n)))%nat with (length cs - n)%nat in E by lia.
    rewrite E, bind_Done. by exists s'.
Qed.

Lemma resize_ok s cs count c :
  holds N s cs -> (count <= N)%nat ->
  exists s', resize N s count c = Done (s_ok, s') /\ holds N s' (take count cs ++ replicate (count - length cs) c).
Proof.
  intros Hh Hc. destruct (holds_size s cs Hh) as [Hs Hn]. destruct (holds_prefix s cs Hh) as [Hd Ht].
  unfold resize. rewrite Hs, (proj2 (Nat.ltb_ge _ _)) by lia. destruct (Nat.ltb_spec (length cs) count) as [Hlt|Hge].
  - set (body := fun (i : nat) (d : list Z) => _).
    destruct (for_to_inv (fun i d => d = wrote (data_ s) (length cs) (replicate (i - length cs) c)) body (length cs) (count - length cs) (data_ s))
      as (d & -> & ->).
    + rewrite Nat.sub_diag. symmetry. apply wrote_nil.
    + intros i d Hi ->. unfold body. eexists. split; [|done]. rewrite store_wrote by (rewrite ?length_replicate; lia).
      rewrite <-replicate_S_end. do 3 f_equal. lia.
    + rewrite bind_Done. replace (length cs + (count - length cs) - length cs)%nat with (count - length cs)%nat by lia.
      rewrite take_ge by lia. pose proof (wrote_prefix (data_ s) cs (replicate (count - length cs) c) (length cs)) as Hp.
      rewrite (take_ge cs) in Hp by lia.
      destruct (set_size_ok (wrote (data_ s) (length cs) (replicate (count - length cs) c)) (cs ++ replicate (count - length cs) c)) as (s' & E & Hs').
      * rewrite length_wrote; rewrite ?length_replicate; lia.
      * rewrite length_app, length_replicate. lia.
      * apply Hp; [rewrite length_replicate; lia|lia|done].
      * rewrite length_app, length_replicate in E. replace (length cs + (count - length cs))%nat with count in E by lia.
        rewrite E, bind_Done. by exists s'.
  - rewrite bind_Done. replace (count - length cs)%nat with 0%nat by lia. cbn [replicate]. rewrite app_nil_r.
    destruct (set_size_ok (data_ s) (take count cs)) as (s' & E & Hs').
    + done.
    + rewrite length_take. lia.
    + rewrite length_take, Nat.min_l by lia. transitivity (take count (take (length cs) (data_ s))); [|by rewrite Ht].
      by rewrite take_take, Nat.min_l by lia.
    + rewrite length_take, Nat.min_l in E by lia. rewrite E, bind_Done. by exists s'.
Qed.

Lemma pop_back_ok s cs c : holds N s (cs ++ [c]) -> exists s', pop_back s = Done (s_ok, s') /\ holds N s' cs.
Proof.
  intros Hh. destruct (holds_size s _ Hh) as [Hs Hn]. destruct (holds_prefix s _ Hh) as [Hd Ht]. rewrite length_app in *. cbn [length] in *.
  unfold pop_back, empty. rewrite Hs, (proj2 (Nat.eqb_neq _ _)) by lia.
  destruct (set_size_ok (data_ s) cs Hd) as (s' & E & Hs').
  - lia.
  - apply (f_equal (take (length cs))) in Ht. rewrite take_take, Nat.min_l, take_app_length in Ht by lia. done.
  - rewrite Nat.add_sub, E, bind_Done. by exists s'.
Qed.
End Holds.

(** ** Searching and comparing *)

Lemma memchr_ok v c :
  match memchr v c with
  | Some i => v !! i = Some c /\ forall j, (j < i)%nat -> v !! j <> Some c
  | None => forall j, v !! j <> Some c
  end.
Proof.
  induction v as [|x v IH]; cbn [memchr]; [done|]. destruct (Z.eqb_spec x c) as [->|Hne].
  { split; [done|]. intros j Hj. lia. }
  destruct (memchr v c) as [i|]; cbn [fmap option_fmap option_map].
  - destruct IH as [Hi Hj]. split; [done|]. intros [|j] Hlt; cbn; [congruence|]. apply Hj. lia.
  - intros [|j]; cbn; [congruence|apply IH].
Qed.

Lemma memcmp_0 a b n : (n <= length a)%nat -> (n <= length b)%nat -> memcmp a b n = 0 <-> take n a = take n b.
Proof.
  revert a b. induction n as [|n IH]; intros a b Ha Hb; [by destruct a|]. destruct a as [|x a], b as [|y b]; cbn in Ha, Hb; try lia.
  cbn [memcmp take]. destruct (Z.eqb_spec x y) as [->|Hne]; [|split; [destruct (x <? y); lia|congruence]].
  rewrite IH by lia. split; congruence.
Qed.

(** [value] is found at [i]. *)
Definition occurs (v value : list Z) (i : nat) : Prop := (i + length value <= length v)%nat /\ take (length value) (drop i v) = value.

Definition first_from (v value : list Z) (offset : nat) (r : option nat) : Prop :=
  match r with
  | Some i => (offset <= i)%nat /\ occurs v value i /\ forall j, (offset <= j < i)%nat -> ~ occurs v value j
  | None => forall j, (offset <= j)%nat -> ~ occurs v value j
  end.

(** An occurrence begins with the first character of the text looked for. *)
Lemma occurs_first v c value j : occurs v (c :: value) j -> v !! j = Some c.
Proof.
  intros [Hl Ht]. apply (f_equal (fun l => l !! 0%nat)) in Ht. cbn [length] in *. rewrite lookup_take_lt, lookup_drop, Nat.add_0_r in Ht by lia. done.
Qed.

Lemma view_find_loop_ok fuel v c value offset i :
  (length (c :: value) <= length v)%nat -> (offset <= i)%nat -> (length v + 1 - i < fuel)%nat ->
  (forall j, (offset <= j < i)%nat -> ~ occurs v (c :: value) j) ->
  exists r, view_find_loop fuel v (c :: value) (length v - length (c :: value)) i = Done r /\ first_from v (c :: value) offset r.
Proof.
  intros Hlen. set (w := c :: value) in *. revert i. induction fuel as [|fuel IH]; intros i Hi Hf Hno; [lia|]. cbn [view_find_loop].
  destruct (Nat.leb_spec i (length v - length w)) as [Hle|Hgt].
  2:{ exists None. split; [done|]. intros j Hj Ho. pose proof Ho as [Hl _]. destruct (decide (j < i)%nat); [|lia]. exact (Hno j ltac:(lia) Ho). }
  change (load w 0) with (Done c). rewrite bind_Done.
  set (last := (length v - length w)%nat) in *. pose proof (memchr_ok (take (last - i + 1) (drop i v)) c) as Hm.
  assert (Hskip : forall k, (forall j, (j < k)%nat -> take (last - i + 1) (drop i v) !! j <> Some c) -> (k <= last - i + 1)%nat ->
    forall j, (offset <= j < i + k)%nat -> ~ occurs v w j).
  { intros k Hk Hkl j Hj Ho. destruct (decide (j < i)%nat); [exact (Hno j ltac:(lia) Ho)|].
    apply (Hk (j - i)%nat); [lia|]. rewrite lookup_take_lt, lookup_drop by lia.
    replace (i + (j - i))%nat with j by lia. by eapply occurs_first. }
  destruct (memchr _ c) as [k|].
  - destruct Hm as [Hk Hbefore]. assert (Hkl : (k < last - i + 1)%nat).
    { apply lookup_lt_Some in Hk. rewrite length_take in Hk. lia. }
    destruct (Z.eqb_spec (memcmp (drop (i + k) v) w (length w)) 0) as [E|E].
    + rewrite memcmp_0, (take_ge w) in E by (rewrite ?length_drop; lia). eexists. split; [done|].
      split; [lia|]. split; [by split; [lia|]|]. apply Hskip; [done|lia].
    + apply IH; [lia..|]. intros j Hj Ho. destruct (decide (j = i + k)%nat) as [->|Hne]; [|exact (Hskip k Hbefore ltac:(lia) j ltac:(lia) Ho)].
      apply E. destruct Ho as [Hol Hot]. rewrite memcmp_0, (take_ge w) by (rewrite ?length_drop; lia). done.
  - exists None. split; [done|]. intros j Hj Ho. destruct (decide (j < i)%nat); [exact (Hno j ltac:(lia) Ho)|].
    apply (Hm (j - i)%nat). pose proof Ho as [Hol _]. rewrite lookup_take_lt, lookup_drop by lia.
    replace (i + (j - i))%nat with j by lia. by eapply occurs_first.
Qed.

Lemma view_find_ok v value offset : exists r, view_find v value offset = Done r /\ first_from v value offset r.
Proof.
  unfold view_find. destruct (Nat.eqb_spec (length value) 0) as [Hz|Hz].
  { destruct value; [|done]. eexists. split; [done|]. destruct (Nat.leb_spec offset (length v)).
    - split; [lia|]. split; [split; [cbn; lia|done]|]. intros j Hj. lia.
    - intros j Hj [Hl _]. cbn in Hl. lia. }
  destruct (Nat.ltb_spec (length v) (length value)) as [Hs|Hs]; cbn [orb].
  { exists None. split; [done|]. intros j _ [Hl _]. lia. }
  destruct (Nat.ltb_spec (length v - length value) offset) as [Ho|Ho].
  { exists None. split; [done|]. intros j Hj [Hl _]. lia. }
  destruct value as [|c value]; [done|]. apply view_find_loop_ok; [done|done|lia|]. intros j Hj. lia.
Qed.

(** Lexicographic order of unsigned characters, a proper prefix first. *)
Fixpoint lex (a b : list Z) : Z :=
  match a, b with
  | [], [] => 0
  | [], _ :: _ => -1
  | _ :: _, [] => 1
  | x :: a, y :: b => if x =? y then lex a b else if x <? y then -1 else 1
  end.

Lemma view_compare_lex a b : view_compare a b = lex a b.
Proof.
  unfold view_compare. revert b. induction a as [|x a IH]; intros [|y b]; [done..|]. specialize (IH b). cbn [length lex] in *.
  change (S (length a) <? S (length b))%nat with (length a <? length b)%nat.
  change (S (length b) <? S (length a))%nat with (length b <? length a)%nat.
  destruct (Z.eqb_spec x y) as [->|Hne].
  - rewrite <-IH. destruct (length a <? length b)%nat; cbn [memcmp]; by rewrite Z.eqb_refl.
  - destruct (length a <? length b)%nat; cbn [memcmp]; rewrite (proj2 (Z.eqb_neq x y)) by done; by destruct (x <? y).
Qed.

Lemma lex_eq a b : lex a b = 0 <-> a = b.
Proof.
  revert b. induction a as [|x a IH]; intros [|y b]; cbn [lex]; [done..|]. destruct (Z.eqb_spec x y) as [->|Hne].
  - rewrite IH. split; congruence.
  - split; [destruct (x <? y); lia|congruence].
Qed.

Lemma lex_antisym a b : lex b a = - lex a b.
Proof.
  revert b. induction a as [|x a IH]; intros [|y b]; cbn [lex]; [done..|]. rewrite (Z.eqb_sym y x).
  destruct (Z.eqb_spec x y); [by apply IH|]. destruct (Z.ltb_spec x y), (Z.ltb_spec y x); lia.
Qed.

Lemma starts_with_ok v prefix : starts_with v prefix = true <-> exists rest, v = prefix ++ rest.
Proof.
  unfold starts_with. rewrite andb_true_iff, Nat.leb_le, Z.eqb_eq, view_compare_lex, lex_eq. unfold substr.
  rewrite (proj2 (Nat.ltb_ge _ _)), Nat.sub_0_r, drop_0 by lia. split.
  - intros [Hl E]. rewrite (proj2 (Nat.ltb_ge _ _)) in E by lia. exists (drop (length prefix) v). rewrite <-E at 1. by rewrite take_drop.
  - intros [rest ->]. rewrite length_app. split; [lia|]. rewrite (proj2 (Nat.ltb_ge _ _)) by lia. apply take_app_length.
Qed.

Lemma ends_with_ok v suffix : ends_with v suffix = true <-> exists rest, v = rest ++ suffix.
Proof.
  unfold ends_with. rewrite andb_true_iff, Nat.leb_le, Z.eqb_eq, view_compare_lex, lex_eq. unfold substr.
  rewrite (proj2 (Nat.ltb_ge _ _)) by lia. split.
  - intros [Hl E]. replace (length v - (length v - length suffix))%nat with (length suffix) in E by lia.
    rewrite Nat.ltb_irrefl, take_ge in E by (rewrite length_drop; lia). exists (take (length v - length suffix) v). rewrite <-E at 2. by rewrite take_drop.
  - intros [rest ->]. rewrite length_app. split; [lia|]. rewrite Nat.add_sub. replace (length rest + length suffix - length rest)%nat with (length suffix) by lia.
    by rewrite Nat.ltb_irrefl, drop_app_length, take_ge by lia.
Qed.

(** ** The theorems *)

(** C36. A [basic_string] is a bounded, null-terminated text: no access leaves its array, and
    in every state that holds the characters [cs] each operation does to the text what its
    name says or reports why not (full, empty, out of range, null) and changes nothing;
    arguments may be parts of the string itself when assigning and appending.  [insert] is covered for
    views into other memory only (a view into the string itself is corrupted: see [insert_self_corrupts]). *)
Theorem string_refines_text (N : nat) (s : basic_string) (cs : list Z) :
  (0 < N)%nat -> holds N s cs ->
  (view s = cs /\ size_ s = length cs /\ (length cs <= N)%nat /\ data_ s !! length cs = Some 0)
  /\ (exists s', clear s = Done s' /\ holds N s' [])
  /\ (forall c, if decide (length cs < N)%nat
        then exists s', push_back N s c = Done (s_ok, s') /\ holds N s' (cs ++ [c]) else push_back N s c = Done (s_full, s))
  /\ (cs = [] /\ pop_back s = Done (s_empty, s)
      \/ exists cs' c s', cs = cs' ++ [c] /\ pop_back s = Done (s_ok, s') /\ holds N s' cs')
  /\ (forall v, view_ok v cs -> if decide (view_size v <= N)%nat
        then exists s', assign_view N s v = Done (s_ok, s') /\ holds N s' (view_chars v cs) else assign_view N s v = Done (s_full, s))
  /\ (forall v, view_ok v cs -> if decide (length cs + view_size v <= N)%nat
        then exists s', append_view N s v = Done (s_ok, s') /\ holds N s' (cs ++ view_chars v cs) else append_view N s v = Done (s_full, s))
  /\ (forall text rest, Forall (fun c => c <> 0) text ->
        ((length text <= N)%nat -> exists s', assign_text N s (Some (text ++ 0 :: rest)) = Done (s_ok, s') /\ holds N s' text)
        /\ ((N < length text)%nat -> assign_text N s (Some (text ++ 0 :: rest)) = Done (s_full, s))
        /\ ((length cs + length text <= N)%nat ->
              exists s', append_text N s (Some (text ++ 0 :: rest)) = Done (s_ok, s') /\ holds N s' (cs ++ text))
        /\ ((N < length cs + length text)%nat -> append_text N s (Some (text ++ 0 :: rest)) = Done (s_full, s)))
  /\ ((exists s', assign_text N s None = Done (s_invalid_argument, s') /\ holds N s' [])
      /\ append_text N s None = Done (s_invalid_argument, s))
  /\ (forall position l, match decide (position <= length cs)%nat, decide (length cs + length l <= N)%nat with
        | left _, left _ => exists s', insert N s position (Other l) = Done (s_ok, s')
                              /\ holds N s' (take position cs ++ l ++ drop position cs)
        | left _, right _ => insert N s position (Other l) = Done (s_full, s)
        | right _, _ => insert N s position (Other l) = Done (s_out_of_range, s)
        end)
  /\ (forall position count, if decide (position <= length cs)%nat
        then let n := match count with Some c => Nat.min c (length cs - position) | None => (length cs - position)%nat end in
             exists s', erase s position count = Done (s_ok, s') /\ holds N s' (take position cs ++ drop (position + n) cs)
        else erase s position count = Done (s_out_of_range, s))
  /\ (forall count c, if decide (count <= N)%nat
        then exists s', resize N s count c = Done (s_ok, s') /\ holds N s' (take count cs ++ replicate (count - length cs) c)
        else resize N s count c = Done (s_full, s)).
Proof.
  intros HN Hh. destruct (holds_size N s cs Hh) as [Hs Hl]. destruct (holds_prefix N s cs Hh) as [Hd _].
  split; [|split; [|split; [|split; [|split; [|split; [|split; [|split; [|split; [|split]]]]]]]]].
  - split_and!; [by eapply holds_view|done|done|]. destruct Hh as (_ & _ & _ & junk & ->). by apply list_lookup_middle.
  - by apply string_clear_ok.
  - intros c. by apply push_back_ok.
  - destruct (decide (cs = [])) as [->|Hne].
    + left. unfold pop_back, empty. by rewrite Hs.
    + right. destruct (exists_last Hne) as (cs' & c & ->). destruct (pop_back_ok N s cs' c Hh) as (s' & E & Hs'). by exists cs', c, s'.
  - intros v Hv. by apply assign_view_ok.
  - intros v Hv. by apply append_view_ok.
  - intros text rest Ht. destruct (assign_text_ok N s cs text rest Hh Ht), (append_text_ok N s cs text rest Hh Ht). done.
  - split; [|done]. destruct (string_clear_ok N s Hd) as (s' & E & Hs'). exists s'. unfold assign_text. by rewrite E.
  - intros position l. repeat case_decide.
    + by apply insert_ok.
    + unfold insert. cbn [view_size]. rewrite Hs, (proj2 (Nat.ltb_ge _ _)), (proj2 (Nat.ltb_lt _ _)) by lia. done.
    + unfold insert. by rewrite Hs, (proj2 (Nat.ltb_lt _ _)) by lia.
  - intros position count. case_decide; [by apply string_erase_ok|]. unfold erase. by rewrite Hs, (proj2 (Nat.ltb_lt _ _)) by lia.
  - intros count c. case_decide; [by apply resize_ok|]. unfold resize. by rewrite (proj2 (Nat.ltb_lt _ _)) by lia.
Qed.

Lemma string_refines_text_witness :
  exists s s', string_new (replicate 9 7) = Done s /\ push_back 8 s 65 = Done (s_ok, s') /\ holds 8 s' [65].
Proof.
  assert (Hh : holds 8 (mk_string (0 :: replicate 8 7) 0) []) by (split; [reflexivity|split; [cbn; lia|split; [reflexivity|by exists (replicate 8 7)]]]).
  destruct (string_refines_text 8 _ [] ltac:(lia) Hh) as (_ & _ & Hp & _). specialize (Hp 65).
  destruct (decide (length (@nil Z) < 8)%nat) as [_|Hn]; [|cbn in Hn; lia]. destruct Hp as (s' & E & Hs').
  exists (mk_string (0 :: replicate 8 7) 0), s'. split; [reflexivity|]. split; [exact E|exact Hs'].
Defined.

(** Searching finds the first occurrence at or behind the offset and ends; comparison is
    lexicographic, so it is zero exactly on equal texts and changes sign when its
    arguments are exchanged; prefixes and suffixes are recognised. *)
Lemma string_search_exact (v w : list Z) (offset : nat) :
  (exists r, view_find v w offset = Done r /\ first_from v w offset r)
  /\ first_from v [0] offset (view_find_char v 0 offset)
  /\ view_compare v w = lex v w /\ (view_compare v w = 0 <-> v = w) /\ view_compare w v = - view_compare v w
  /\ (starts_with v w = true <-> exists rest, v = w ++ rest) /\ (ends_with v w = true <-> exists rest, v = rest ++ w).
Proof.
  split; [apply view_find_ok|]. split.
  - unfold view_find_char. destruct (Nat.leb_spec (length v) offset) as [Hle|Hgt].
    { intros j Hj [Hl _]. cbn in Hl. lia. }
    pose proof (memchr_ok (drop offset v) 0) as Hm. destruct (memchr (drop offset v) 0) as [i|]; cbn [fmap option_fmap option_map].
    + destruct Hm as [Hi Hbefore]. rewrite lookup_drop in Hi. split; [lia|]. split.
      * split; [apply lookup_lt_Some in Hi; cbn; lia|]. cbn [length]. by rewrite (drop_S _ _ _ Hi).
      * intros j Hj Ho. apply (Hbefore (j - offset)%nat); [lia|]. rewrite lookup_drop.
        replace (offset + (j - offset))%nat with j by lia. by eapply occurs_first.
    + intros j Hj Ho. apply (Hm (j - offset)%nat). rewrite lookup_drop. replace (offset + (j - offset))%nat with j by lia.
      by eapply occurs_first.
  - rewrite !view_compare_lex. split_and!; [done|apply lex_eq|apply lex_antisym|apply starts_with_ok|apply ends_with_ok].
Qed.

(** Inserting a part of the string into itself reads characters that were already
    overwritten: of ab with itself inserted at 1 the result is aaab, not aabb. *)
Lemma insert_self_corrupts :
  exists s s', string_of_view 8 (replicate 9 0) (chars "ab") = Done s
    /\ insert 8 s 1 (Own 0 2) = Done (s_ok, s') /\ view s' = chars "aaab".
Proof. eexists _, _. split; [reflexivity|]. split; [reflexivity|reflexivity]. Qed.
