(* ===== verification/JsonText.v ===== *)
(** * Texts of JSON (castle_ext/serialization/json.hpp, namespace detail)

    Character classes, the string decoder and the string writer, the number grammar,
    and the conversion of integers.  The references are the grammar of RFC 8259
    (restricted, as the code is, to escapes outside the surrogate range) and decimal
    notation. *)

From S2P Require Import Prelude Status Bytes Words StringBuf.
Open Scope Z_scope.

Abbreviation c_quote := 34.
Abbreviation c_plus := 43.
Abbreviation c_comma := 44.
Abbreviation c_minus := 45.
Abbreviation c_dot := 46.
Abbreviation c_slash := 47.
Abbreviation c_0 := 48.
Abbreviation c_9 := 57.
Abbreviation c_colon := 58.
Abbreviation c_A := 65.
Abbreviation c_E := 69.
Abbreviation c_open := 91.
Abbreviation c_backslash := 92.
Abbreviation c_close := 93.
Abbreviation c_a := 97.
Abbreviation c_e := 101.
Abbreviation c_obrace := 123.
Abbreviation c_cbrace := 125.

Inductive error_code : Type :=
| e_none
| e_unexpected_end
| e_unexpected_token
| e_invalid_string
| e_invalid_escape
| e_invalid_unicode_escape
| e_invalid_number
| e_invalid_literal
| e_depth_exceeded
| e_capacity
| e_output_full
| e_invalid_argument.

Record result : Type := mk_result { r_status : status; r_code : error_code; r_offset : nat; r_line : nat; r_column : nat }.
Definition result_ok : result := mk_result s_ok e_none 0 1 1.
Definition r_succeeded (r : result) : bool := succeeded (r_status r).
(** A result of which the code sets the status, the code and the offset. *)
Definition error_at (s : status) (c : error_code) (offset : nat) : result := mk_result s c offset 1 1.

Definition is_space (c : Z) : bool := (c =? 32) || (c =? 9) || (c =? 13) || (c =? 10).
Definition is_digit (c : Z) : bool := (c_0 <=? c) && (c <=? c_9).
Definition is_hex (c : Z) : bool := ((c_0 <=? c) && (c <=? c_9)) || ((c_a <=? c) && (c <=? 102)) || ((c_A <=? c) && (c <=? 70)).
Definition hex_value (c : Z) : Z :=
  if (c_0 <=? c) && (c <=? c_9) then to_u8 (c - c_0)
  else if (c_a <=? c) && (c <=? 102) then to_u8 (c - c_a + 10)
  else to_u8 (c - c_A + 10).
Definition is_control (c : Z) : bool := c <? 32.
Definition is_number_delimiter (c : Z) : bool := is_space c || (c =? c_comma) || (c =? c_close) || (c =? c_cbrace).

(** ** Writing into strings *)

(** [if (out.f() != ok) return full;] and the rest. *)
Definition must (f g : basic_string -> exec (status * basic_string)) (out : basic_string) : exec (status * basic_string) :=
  '(s, out) ← f out; if succeeded s then g out else Done (s_full, out).
Definition put (N : nat) (c : Z) (out : basic_string) : exec (status * basic_string) := push_back N out c.
Definition done_ok (out : basic_string) : exec (status * basic_string) := Done (s_ok, out).

Section Text.
Context (N : nat).

Definition append_utf8 (code_unit : Z) (output : basic_string) : exec (bool * basic_string) :=
  if (0xD800 <=? code_unit) && (code_unit <=? 0xDFFF) then Done (false, output)
  else
    let push c k out := '(s, out) ← push_back N out c; if succeeded s then k out else Done (false, out) in
    let last out := Done (true, out) in
    if code_unit <=? 0x7F then push (to_u8 code_unit) last output
    else if code_unit <=? 0x7FF then
      push (to_u8 (Z.lor 0xC0 (Z.shiftr code_unit 6))) (push (to_u8 (Z.lor 0x80 (Z.land code_unit 0x3F))) last) output
    else
      push (to_u8 (Z.lor 0xE0 (Z.shiftr code_unit 12)))
        (push (to_u8 (Z.lor 0x80 (Z.land (Z.shiftr code_unit 6) 0x3F)))
          (push (to_u8 (Z.lor 0x80 (Z.land code_unit 0x3F))) last)) output.

Definition simple_escape (escape : Z) : option Z :=
  if escape =? c_quote then Some c_quote
  else if escape =? c_backslash then Some c_backslash
  else if escape =? c_slash then Some c_slash
  else if escape =? 98 then Some 8
  else if escape =? 102 then Some 12
  else if escape =? 110 then Some 10
  else if escape =? 114 then Some 13
  else if escape =? 116 then Some 9
  else None.

(** The four digits of a unicode escape: the code, or the offset of a bad digit. *)
Definition hex_digits (source : list Z) (position : nat) : exec (ctl nat Z) :=
  for_range 0 4 (fun i code =>
    c ← load source (position + i);
    if negb (is_hex c) then Done (Return (position + i)%nat)
    else Done (Next (to_u16 (Z.lor (Z.shiftl code 4) (hex_value c))))) 0.

Definition decode_body (source : list Z) (st : nat * basic_string)
    : exec (ctl (result * nat * basic_string) (nat * basic_string)) :=
  let '(position, output) := st in
  c ← load source position;
  let position := (position + 1)%nat in
  if c =? c_quote then Done (Return (result_ok, position, output))
  else if is_control c then Done (Return (error_at s_invalid_argument e_invalid_string (position - 1), position, output))
  else if negb (c =? c_backslash) then
    '(s, output) ← push_back N output c;
    if negb (succeeded s) then Done (Return (error_at s_full e_capacity (position - 1), position, output))
    else Done (Next (position, output))
  else if (length source <=? position)%nat then
    Done (Return (error_at s_invalid_argument e_unexpected_end position, position, output))
  else
    escape ← load source position;
    let position := (position + 1)%nat in
    match simple_escape escape with
    | Some decoded =>
        '(s, output) ← push_back N output decoded;
        if negb (succeeded s) then Done (Return (error_at s_full e_capacity (position - 1), position, output))
        else Done (Next (position, output))
    | None =>
        if escape =? 117 then
          if (length source <? position + 4)%nat then
            Done (Return (error_at s_invalid_argument e_invalid_unicode_escape (position - 2), position, output))
          else
            h ← hex_digits source position;
            match h with
            | Return bad => Done (Return (error_at s_invalid_argument e_invalid_unicode_escape bad, position, output))
            | Next code =>
                let position := (position + 4)%nat in
                '(fine, output) ← append_utf8 code output;
                if negb fine then
                  Done (Return (error_at s_invalid_argument e_invalid_unicode_escape (position - 4), position, output))
                else Done (Next (position, output))
            end
        else Done (Return (error_at s_invalid_argument e_invalid_escape (position - 1), position, output))
    end.

(** [decode_string]: the result, the position and the output it leaves. *)
Definition decode_string (source : list Z) (position : nat) (output : basic_string) : exec (result * nat * basic_string) :=
  output ← clear output;
  if (length source <=? position)%nat then Done (error_at s_invalid_argument e_invalid_string position, position, output)
  else
    c ← load source position;
    if negb (c =? c_quote) then Done (error_at s_invalid_argument e_invalid_string position, position, output)
    else
      after (while_loop (S (length source)) (fun '(position, _) => Done (position <? length source)%nat)
               (decode_body source) ((position + 1)%nat, output))
        (fun '(position, output) => Done (error_at s_invalid_argument e_unexpected_end position, position, output)).

Definition escaped_form (c : Z) : option (list Z) :=
  if c =? c_quote then Some [c_backslash; c_quote]
  else if c =? c_backslash then Some [c_backslash; c_backslash]
  else if c =? 8 then Some [c_backslash; 98]
  else if c =? 12 then Some [c_backslash; 102]
  else if c =? 10 then Some [c_backslash; 110]
  else if c =? 13 then Some [c_backslash; 114]
  else if c =? 9 then Some [c_backslash; 116]
  else None.

Fixpoint escape_loop (value : list Z) (output : basic_string) : exec (status * basic_string) :=
  match value with
  | [] => push_back N output c_quote
  | c :: value =>
      match escaped_form c with
      | Some e =>
          '(s, output) ← append_view N output (Other e);
          if negb (succeeded s) then Done (s_full, output) else escape_loop value output
      | None =>
          if c <? 32 then Done (s_invalid_argument, output)
          else
            '(s, output) ← push_back N output c;
            if negb (succeeded s) then Done (s_full, output) else escape_loop value output
      end
  end.
Definition append_escaped (output : basic_string) (value : list Z) : exec (status * basic_string) :=
  must (put N c_quote) (escape_loop value) output.
End Text.

(** ** Numbers *)

Definition digits_from (text : list Z) (i : nat) : exec nat :=
  after (while_loop (S (length text))
           (fun i => if (i <? length text)%nat then c ← load text i; Done (is_digit c) else Done false)
           (fun i => Done (Next (i + 1)%nat)) i) Done.

(** [i < text.size() && p(text[i])]. *)
Definition at_char (text : list Z) (i : nat) (p : Z -> bool) : exec bool :=
  if (i <? length text)%nat then c ← load text i; Done (p c) else Done false.

(** The fraction and the exponent, which [valid_number] reads behind the integer. *)
Definition valid_exponent (text : list Z) (i : nat) : exec bool :=
  e ← at_char text i (fun c => (c =? c_e) || (c =? c_E));
  if e : bool then
    let i := (i + 1)%nat in
    sign ← at_char text i (fun c => (c =? c_plus) || (c =? c_minus));
    let i := if sign : bool then (i + 1)%nat else i in
    d ← at_char text i is_digit;
    if negb d then Done false
    else i ← digits_from text i; Done (i =? length text)%nat
  else Done (i =? length text)%nat.
Definition valid_fraction (text : list Z) (i : nat) : exec bool :=
  dot ← at_char text i (fun c => c =? c_dot);
  if dot : bool then
    let i := (i + 1)%nat in
    d ← at_char text i is_digit;
    if negb d then Done false
    else i ← digits_from text i; valid_exponent text i
  else valid_exponent text i.
Definition valid_number (text : list Z) : exec bool :=
  if (length text =? 0)%nat then Done false
  else
    c ← load text 0;
    let i := if c =? c_minus then 1%nat else 0%nat in
    if (i =? length text)%nat then Done false
    else
      c ← load text i;
      if c =? c_0 then
        let i := (i + 1)%nat in
        d ← at_char text i is_digit;
        if d : bool then Done false else valid_fraction text i
      else if (c <? 49) || (c_9 <? c) then Done false
      else i ← digits_from text i; valid_fraction text i.

(** [parse_integer<T>] for a [T] of [bits] bits; [output] is what the caller's variable
    holds afterwards.  The result of the unary minus is a value of [int] at least as wide
    as [T]; the two cases keep it in the range of [T]. *)
Definition parse_integer (signed : bool) (bits : Z) (text : list Z) (output : Z) : exec (status * Z) :=
  if (length text =? 0)%nat then Done (s_invalid_argument, output)
  else
    c ← load text 0;
    let negative := c =? c_minus in
    let i := if negative then 1%nat else 0%nat in
    if c =? c_plus then Done (s_invalid_argument, output)
    else if (i =? length text)%nat || (negative && negb signed) then Done (s_invalid_argument, output)
    else
      after (for_range i (length text - i) (fun i magnitude =>
               c ← load text i;
               if negb (is_digit c) then Done (Return (s_invalid_argument, output))
               else
                 let digit := c - c_0 in
                 if (2 ^ 64 - 1 - digit) / 10 <? magnitude then Done (Return (s_out_of_range, output))
                 else Done (Next (to_u64 (magnitude * 10 + digit)))) 0)
        (fun magnitude =>
           let max_unsigned := 2 ^ bits - 1 in
           if negb negative then
             if (max_unsigned <? magnitude) || (signed && (Z.shiftr max_unsigned 1 <? magnitude))
             then Done (s_out_of_range, output)
             else Done (s_ok, if signed then to_signed bits (wrap bits magnitude) else wrap bits magnitude)
           else
             let minimum_magnitude := Z.shiftr max_unsigned 1 + 1 in
             if minimum_magnitude <? magnitude then Done (s_out_of_range, output)
             else if magnitude =? minimum_magnitude
             then Done (s_ok, - to_signed bits (wrap bits (magnitude - 1)) - 1)
             else Done (s_ok, - to_signed bits (wrap bits magnitude))).

(** [format_integer<T>]: the digits, least significant first, then the text. *)
Definition max_integer_str_len : nat := 32.

Definition format_digits (magnitude : Z) (digits : list Z) : exec (list Z * nat) :=
  after (while_loop (S max_integer_str_len) (fun '(_, _, more) => Done more)
           (fun '(magnitude, (digits, count), _) =>
              digits ← store digits count (c_0 + magnitude mod 10);
              Done (Next (magnitude / 10, (digits, (count + 1)%nat), negb (magnitude / 10 =? 0))))
           (magnitude, (digits, 0%nat), true))
    (fun '(_, r, _) => Done r).
Fixpoint put_digits (digits : list Z) (count : nat) (output : basic_string) : exec (status * basic_string) :=
  match count with
  | O => Done (s_ok, output)
  | S count => d ← load digits count; must (put max_integer_str_len d) (put_digits digits count) output
  end.
Definition format_integer (signed : bool) (bits : Z) (value : Z) (junk : list Z) (output : basic_string) : exec (status * basic_string) :=
  output ← clear output;
  let negative := signed && (value <? 0) in
  let magnitude := if negative then wrap bits (wrap bits (- (value + 1)) + 1) else wrap bits value in
  '(digits, count) ← format_digits magnitude junk;
  if negative then must (put max_integer_str_len c_minus) (put_digits digits count) output
  else put_digits digits count output.

(** ** What a writer does to a text *)

(** [f] appends [t] when it fits, and fails, leaving some text, when it does not or when
    there is nothing to write ([None]). *)
Definition writes (N : nat) (f : basic_string -> exec (status * basic_string)) (t : option (list Z)) : Prop :=
  forall s cs, holds N s cs ->
    match t with
    | Some text => if decide (length cs + length text <= N)%nat
        then exists s', f s = Done (s_ok, s') /\ holds N s' (cs ++ text)
        else exists e s' cs', f s = Done (e, s') /\ e <> s_ok /\ holds N s' cs'
    | None => exists e s' cs', f s = Done (e, s') /\ e <> s_ok /\ holds N s' cs'
    end.

Definition opt_app (a b : option (list Z)) : option (list Z) :=
  match a, b with Some a, Some b => Some (a ++ b) | _, _ => None end.

Section Writers.
Context (N : nat).

Lemma writes_put c : writes N (put N c) (Some [c]).
Proof.
  intros s cs Hs. pose proof (push_back_ok N s cs c Hs) as Hp. cbn [length]. unfold put. repeat case_decide; try lia.
  - done.
  - exists s_full, s, cs. done.
Qed.

Lemma writes_append text : writes N (fun out => append_view N out (Other text)) (Some text).
Proof.
  intros s cs Hs. pose proof (append_view_ok N s cs (Other text) Hs I) as Hp. cbn [view_size view_chars] in Hp.
  case_decide; [done|]. exists s_full, s, cs. done.
Qed.

Lemma writes_done : writes N done_ok (Some []).
Proof.
  intros s cs Hs. cbn [length]. destruct (holds_size N s cs Hs). rewrite decide_True by lia. exists s. by rewrite app_nil_r.
Qed.

(** Writers in sequence; an error of the first is turned into another one. *)
Lemma writes_seq f g t1 t2 h (e : status -> status) :
  writes N f t1 -> writes N g t2 -> (forall x, x <> s_ok -> e x <> s_ok) ->
  (forall s, h s = ('(x, s') ← f s; if succeeded x then g s' else Done (e x, s'))) -> writes N h (opt_app t1 t2).
Proof.
  intros Hf Hg He Hh s cs Hs. rewrite Hh. specialize (Hf s cs Hs). destruct t1 as [a|]; cbn [opt_app].
  - case_decide as Ha.
    + destruct Hf as (s1 & -> & H1). exec_simpl. unfold succeeded. rewrite bool_decide_eq_true_2 by done.
      specialize (Hg s1 (cs ++ a) H1). destruct t2 as [b|]; [|done]. rewrite !length_app in *.
      repeat case_decide; try lia; [|done]. by rewrite <-app_assoc in Hg.
    + destruct Hf as (x & s1 & cs1 & -> & Hx & H1). exec_simpl. unfold succeeded. rewrite bool_decide_eq_false_2 by done.
      destruct t2 as [b|]; [rewrite length_app, decide_False by lia|]; exists (e x), s1, cs1; auto.
  - destruct Hf as (x & s1 & cs1 & -> & Hx & H1). exec_simpl. unfold succeeded. rewrite bool_decide_eq_false_2 by done.
    exists (e x), s1, cs1. auto.
Qed.

Lemma writes_must f g t1 t2 : writes N f t1 -> writes N g t2 -> writes N (must f g) (opt_app t1 t2).
Proof. intros Hf Hg. by eapply (writes_seq f g _ _ _ (fun _ => s_full)). Qed.

Lemma writes_eq f t t' : writes N f t -> t = t' -> writes N f t'.
Proof. by intros ? <-. Qed.
End Writers.

(** The text of a string: quotes, and every character as it is or escaped. *)
Definition escape_char (c : Z) : option (list Z) :=
  match escaped_form c with Some e => Some e | None => if c <? 32 then None else Some [c] end.
Fixpoint escape_chars (value : list Z) : option (list Z) :=
  match value with [] => Some [] | c :: value => opt_app (escape_char c) (escape_chars value) end.
Definition quoted (value : list Z) : option (list Z) :=
  opt_app (Some [c_quote]) (opt_app (escape_chars value) (Some [c_quote])).

Lemma opt_app_assoc a b c : opt_app a (opt_app b c) = opt_app (opt_app a b) c.
Proof. destruct a, b, c; cbn; [by rewrite app_assoc|done..]. Qed.

Lemma append_escaped_writes N value : writes N (fun out => append_escaped N out value) (quoted value).
Proof.
  unfold append_escaped, quoted. apply writes_must; [apply writes_put|].
  induction value as [|c value IH]; cbn [escape_loop escape_chars].
  { apply (writes_eq N _ (Some [c_quote])); [apply writes_put|done]. }
  rewrite <-opt_app_assoc. unfold escape_char. destruct (escaped_form c) as [e|].
  - apply (writes_seq N _ _ _ _ _ (fun _ => s_full) (writes_append N e) IH); [done|]. intros s.
    destruct (append_view N s (Other e)) as [[x s']|]; [|done]. exec_simpl. by destruct (succeeded x).
  - destruct (c <? 32).
    + intros s cs Hs. exists s_invalid_argument, s, cs. destruct (opt_app (escape_chars value) (Some [c_quote])); done.
    + apply (writes_seq N _ _ _ _ _ (fun _ => s_full) (writes_put N c) IH); [done|]. intros s. unfold put.
      destruct (push_back N s c) as [[x s']|]; [|done]. exec_simpl. by destruct (succeeded x).
Qed.

(** ** The grammar of strings *)

(** The UTF-8 form of a code point below 2^16. *)
Definition utf8 (c : Z) : list Z :=
  if c <? 0x80 then [c]
  else if c <? 0x800 then [0xC0 + c / 64; 0x80 + c mod 64]
  else [0xE0 + c / 4096; 0x80 + (c / 64) mod 64; 0x80 + c mod 64].
Definition hex_number (hs : list Z) : Z := fold_left (fun n h => 16 * n + hex_value h) hs 0.
Definition surrogate (c : Z) : bool := (0xD800 <=? c) && (c <=? 0xDFFF).

(** A character of a string: its text, and the bytes it stands for. *)
Inductive char_text : list Z -> list Z -> Prop :=
| CT_plain c : 32 <= c -> c <> c_quote -> c <> c_backslash -> char_text [c] [c]
| CT_escape e d : simple_escape e = Some d -> char_text [c_backslash; e] [d]
| CT_unicode h1 h2 h3 h4 :
    forallb is_hex [h1; h2; h3; h4] = true -> surrogate (hex_number [h1; h2; h3; h4]) = false ->
    char_text [c_backslash; 117; h1; h2; h3; h4] (utf8 (hex_number [h1; h2; h3; h4])).
Inductive string_text : list Z -> list Z -> Prop :=
| ST_nil : string_text [] []
| ST_cons t d ts ds : char_text t d -> string_text ts ds -> string_text (t ++ ts) (d ++ ds).

(** The character at the head of a text, as a function. *)
Definition next_char (l : list Z) : option (nat * list Z) :=
  match l with
  | [] => None
  | c :: l =>
      if (c =? c_quote) || is_control c then None
      else if negb (c =? c_backslash) then Some (1%nat, [c])
      else match l with
           | [] => None
           | e :: l =>
               match simple_escape e with
               | Some d => Some (2%nat, [d])
               | None =>
                   if e =? 117 then
                     match l with
                     | h1 :: h2 :: h3 :: h4 :: _ =>
                         if forallb is_hex [h1; h2; h3; h4] && negb (surrogate (hex_number [h1; h2; h3; h4]))
                         then Some (6%nat, utf8 (hex_number [h1; h2; h3; h4])) else None
                     | _ => None
                     end
                   else None
               end
           end
  end.

Lemma next_char_complete t d rest : char_text t d -> next_char (t ++ rest) = Some (length t, d).
Proof.
  intros [c Hc Hq Hb|e d' He|h1 h2 h3 h4 Hh Hs]; cbn [app length next_char].
  - unfold is_control. rewrite !(proj2 (Z.eqb_neq _ _)), (proj2 (Z.ltb_ge _ _)) by lia. done.
  - cbn [Z.eqb Pos.eqb orb is_control Z.ltb Z.compare Pos.compare Pos.compare_cont negb]. by rewrite He.
  - cbn. cbn in Hh. rewrite Hh. cbn in Hs. by rewrite Hs.
Qed.

Lemma next_char_sound l n d : next_char l = Some (n, d) -> (0 < n <= length l)%nat /\ char_text (take n l) d.
Proof.
  destruct l as [|c l]; cbn [next_char]; [done|]. destruct (Z.eqb_spec c c_quote) as [|Hq]; cbn [orb]; [done|].
  unfold is_control. destruct (Z.ltb_spec c 32) as [|Hc]; [done|].
  destruct (Z.eqb_spec c c_backslash) as [->|Hb]; cbn [negb].
  2:{ intros [= <- <-]. cbn. split; [lia|]. by constructor. }
  destruct l as [|e l]; [done|]. destruct (simple_escape e) as [d'|] eqn:He.
  { intros [= <- <-]. cbn. split; [lia|]. by constructor. }
  destruct (Z.eqb_spec e 117) as [->|]; [|done]. destruct l as [|h1 [|h2 [|h3 [|h4 l]]]]; [done..|].
  destruct (forallb is_hex [h1; h2; h3; h4]) eqn:Hh; cbn [andb]; [|done].
  destruct (surrogate (hex_number [h1; h2; h3; h4])) eqn:Hs; cbn [negb]; [done|].
  intros [= <- <-]. cbn [take length]. split; [lia|]. by constructor.
Qed.

(** ** The decoder follows the grammar *)

Lemma json_hex_value_range c : is_hex c = true -> 0 <= hex_value c < 16.
Proof.
  unfold is_hex, hex_value. rewrite !orb_true_iff, !andb_true_iff, !Z.leb_le. intros H.
  destruct (Z.leb_spec c_0 c), (Z.leb_spec c c_9); cbn [andb]; try (rewrite wrap_small by (unfold in_width; lia); lia);
    destruct (Z.leb_spec c_a c), (Z.leb_spec c 102); cbn [andb]; rewrite wrap_small by (unfold in_width; lia); lia.
Qed.

Lemma hex_step n h : 0 <= n < 4096 -> is_hex h = true -> to_u16 (Z.lor (Z.shiftl n 4) (hex_value h)) = 16 * n + hex_value h.
Proof.
  intros Hn Hh. pose proof (json_hex_value_range h Hh). rewrite lor_shiftl_add by lia. change (2 ^ 4) with 16.
  rewrite wrap_small by (unfold in_width; lia). lia.
Qed.

Lemma hex_digits_ok pre h1 h2 h3 h4 rest :
  forallb is_hex [h1; h2; h3; h4] = true ->
  hex_digits (pre ++ h1 :: h2 :: h3 :: h4 :: rest) (length pre) = Done (Next (hex_number [h1; h2; h3; h4]))
  /\ 0 <= hex_number [h1; h2; h3; h4] < 65536.
Proof.
  cbn [forallb]. rewrite !andb_true_iff. intros (H1 & H2 & H3 & H4 & _).
  pose proof (json_hex_value_range h1 H1). pose proof (json_hex_value_range h2 H2). pose proof (json_hex_value_range h3 H3). pose proof (json_hex_value_range h4 H4).
  split; [|unfold hex_number; cbn [fold_left]; lia]. unfold hex_digits. cbn [for_range].
  assert (Hl : forall k v, (h1 :: h2 :: h3 :: h4 :: rest) !! k = Some v -> load (pre ++ h1 :: h2 :: h3 :: h4 :: rest) (length pre + k) = Done v).
  { intros k v Hv. apply load_Done. by rewrite lookup_app_r, Nat.add_sub' by lia. }
  rewrite (Hl 0%nat h1) by done. exec_simpl. rewrite H1. cbn [negb]. rewrite hex_step by (done || lia).
  rewrite (Hl 1%nat h2) by done. exec_simpl. rewrite H2. cbn [negb]. rewrite hex_step by (done || lia).
  rewrite (Hl 2%nat h3) by done. exec_simpl. rewrite H3. cbn [negb]. rewrite hex_step by (done || lia).
  rewrite (Hl 3%nat h4) by done. exec_simpl. rewrite H4. cbn [negb]. rewrite hex_step by (done || lia). done.
Qed.

(** Four characters of which one is no digit. *)
Lemma hex_digits_bad source position :
  (position + 4 <= length source)%nat -> forallb is_hex (take 4 (drop position source)) = false ->
  exists bad, hex_digits source position = Done (Return bad).
Proof.
  intros Hl Hh. unfold hex_digits. set (body := fun (i : nat) (code : Z) => _).
  assert (Hstep : forall n start code, (start + n <= 4)%nat -> forallb is_hex (take n (drop (position + start) source)) = false ->
    exists bad, for_range start n body code = Done (Return bad)).
  { induction n as [|n IH]; intros start code Hn Hf; [done|]. cbn [for_range].
    destruct (lookup_lt_is_Some_2 source (position + start)) as [c Hc]; [lia|]. unfold body at 1. rewrite (load_Done _ _ _ Hc). exec_simpl.
    rewrite (drop_S _ _ _ Hc) in Hf. cbn [take forallb] in Hf. destruct (is_hex c); cbn [negb andb] in *; [|by eexists].
    apply IH; [lia|]. by rewrite <-plus_n_Sm. }
  destruct (Hstep 4%nat 0%nat 0) as [bad E]; [lia|by rewrite Nat.add_0_r|]. by exists bad.
Qed.

(** The bytes [append_utf8] pushes. *)
Definition utf8_pushed (code : Z) : list Z :=
  if code <=? 0x7F then [to_u8 code]
  else if code <=? 0x7FF then [to_u8 (Z.lor 0xC0 (Z.shiftr code 6)); to_u8 (Z.lor 0x80 (Z.land code 0x3F))]
  else [to_u8 (Z.lor 0xE0 (Z.shiftr code 12)); to_u8 (Z.lor 0x80 (Z.land (Z.shiftr code 6) 0x3F)); to_u8 (Z.lor 0x80 (Z.land code 0x3F))].

Lemma json_continuation_byte x : 0 <= x -> to_u8 (Z.lor 0x80 (Z.land x 0x3F)) = 0x80 + x mod 64.
Proof.
  intros Hx. change 0x3F with (Z.ones 6). rewrite Z.land_ones by lia. change (2 ^ 6) with 64. change 0x80 with (Z.shiftl 2 6) at 1.
  pose proof (Z.mod_pos_bound x 64 ltac:(lia)). rewrite lor_shiftl_add, wrap_small by (unfold in_width; lia). reflexivity.
Qed.

(** A lead byte: [high] above [k] bits of payload. *)
Lemma lead_byte high k x : 0 <= k -> 0 <= x < 2 ^ k -> 0 <= high * 2 ^ k -> high * 2 ^ k + x < 256 -> to_u8 (Z.lor (Z.shiftl high k) x) = high * 2 ^ k + x.
Proof. intros. rewrite lor_shiftl_add by lia. apply wrap_small. unfold in_width. lia. Qed.

Lemma utf8_pushed_ok code : 0 <= code < 65536 -> utf8_pushed code = utf8 code.
Proof.
  intros Hc. unfold utf8_pushed, utf8.
  destruct (Z.leb_spec code 0x7F), (Z.ltb_spec code 0x80); try lia; [by rewrite wrap_small by (unfold in_width; lia)|].
  assert (H6 : Z.shiftr code 6 = code / 64) by (by rewrite Z.shiftr_div_pow2 by lia).
  assert (H12 : Z.shiftr code 12 = code / 4096) by (by rewrite Z.shiftr_div_pow2 by lia). rewrite H6, ?H12.
  destruct (Z.leb_spec code 0x7FF), (Z.ltb_spec code 0x800); try lia.
  - assert (0 <= code / 64 < 32) by divlia. rewrite json_continuation_byte by lia. f_equal.
    apply (lead_byte 3 6); lia.
  - assert (0 <= code / 4096 < 16) by divlia. assert (0 <= code / 64) by divlia. rewrite !json_continuation_byte by lia. f_equal.
    apply (lead_byte 14 4); lia.
Qed.

Fixpoint push_all (N : nat) (bs : list Z) (out : basic_string) : exec (bool * basic_string) :=
  match bs with
  | [] => Done (true, out)
  | b :: bs => '(s, out) ← push_back N out b; if succeeded s then push_all N bs out else Done (false, out)
  end.

Lemma push_all_ok N bs s cs :
  holds N s cs ->
  if bool_decide (length cs + length bs <= N)%nat then exists s', push_all N bs s = Done (true, s') /\ holds N s' (cs ++ bs)
  else exists s' cs', push_all N bs s = Done (false, s') /\ holds N s' cs'.
Proof.
  revert s cs. induction bs as [|b bs IH]; intros s cs Hs; cbn [push_all length].
  { destruct (holds_size N s cs Hs). rewrite bool_decide_eq_true_2 by lia. exists s. by rewrite app_nil_r. }
  pose proof (push_back_ok N s cs b Hs) as Hp. case_decide.
  - destruct Hp as (s1 & -> & H1). exec_simpl. change (succeeded s_ok) with true. cbn iota.
    specialize (IH s1 _ H1). rewrite length_app, <-app_assoc in IH. cbn [length app] in IH.
    repeat case_bool_decide; try lia; done.
  - rewrite Hp. exec_simpl. change (succeeded s_full) with false. cbn iota.
    rewrite bool_decide_eq_false_2 by lia. by exists s, cs.
Qed.

Lemma append_utf8_ok N code s cs :
  holds N s cs -> 0 <= code < 65536 ->
  if negb (surrogate code) && bool_decide (length cs + length (utf8 code) <= N)%nat
  then exists s', append_utf8 N code s = Done (true, s') /\ holds N s' (cs ++ utf8 code)
  else exists s' cs', append_utf8 N code s = Done (false, s') /\ holds N s' cs'.
Proof.
  intros Hs Hc. assert (E : append_utf8 N code s = if surrogate code then Done (false, s) else push_all N (utf8_pushed code) s).
  { unfold append_utf8, surrogate, utf8_pushed. by repeat case_match. }
  rewrite E. destruct (surrogate code); cbn [negb andb]; [by exists s, cs|]. rewrite <-utf8_pushed_ok by done. by apply push_all_ok.
Qed.

(** One turn of the decoder, by the head of the text that is left. *)
Lemma decode_body_ok N source position s cs :
  holds N s cs -> (position < length source)%nat ->
  match drop position source with
  | c :: _ =>
      if c =? c_quote then decode_body N source (position, s) = Done (Return (result_ok, (position + 1)%nat, s))
      else match next_char (drop position source) with
           | Some (n, d) =>
               if bool_decide (length cs + length d <= N)%nat
               then exists s', decode_body N source (position, s) = Done (Next ((position + n)%nat, s')) /\ holds N s' (cs ++ d)
               else exists r p s' cs', decode_body N source (position, s) = Done (Return (r, p, s')) /\ r_succeeded r = false /\ holds N s' cs'
           | None => exists r p s' cs', decode_body N source (position, s) = Done (Return (r, p, s')) /\ r_succeeded r = false /\ holds N s' cs'
           end
  | [] => False
  end.
Proof.
  intros Hs Hp. destruct (lookup_lt_is_Some_2 source position Hp) as [c Hc]. rewrite (drop_S _ _ _ Hc).
  unfold decode_body. rewrite (load_Done _ _ _ Hc). exec_simpl. cbn [next_char].
  destruct (c =? c_quote) eqn:Hq; [done|]. cbn [orb]. destruct (is_control c); [by eexists _, _, s, cs|].
  destruct (c =? c_backslash); cbn [negb].
  2:{ pose proof (push_back_ok N s cs c Hs) as Hb. cbn [length]. case_decide; case_bool_decide; try lia.
      - destruct Hb as (s1 & -> & H1). exec_simpl. by exists s1.
      - rewrite Hb. exec_simpl. by eexists _, _, s, cs. }
  destruct (Nat.leb_spec (length source) (position + 1)) as [Hend|Hmore].
  { rewrite drop_ge by lia. by eexists _, _, s, cs. }
  destruct (lookup_lt_is_Some_2 source (position + 1) Hmore) as [e He]. rewrite Nat.add_1_r in He.
  rewrite (drop_S _ _ _ He), !Nat.add_1_r, (load_Done _ _ _ He). exec_simpl. destruct (simple_escape e) as [d|].
  { pose proof (push_back_ok N s cs d Hs) as Hb. cbn [length]. case_decide; case_bool_decide; try lia.
    - destruct Hb as (s1 & -> & H1). exec_simpl. exists s1. by replace (position + 2)%nat with (S (S position)) by lia.
    - rewrite Hb. exec_simpl. by eexists _, _, s, cs. }
  destruct (e =? 117); [|by eexists _, _, s, cs].
  destruct (Nat.ltb_spec (length source) (S (S position) + 4)) as [Hshort|Hlong].
  { destruct (drop (S (S position)) source) as [|h1 [|h2 [|h3 [|h4 l]]]] eqn:E; [by eexists _, _, s, cs..|].
    apply (f_equal length) in E. rewrite length_drop in E. cbn in E. lia. }
  pose proof (take_drop (S (S position)) source) as Hsplit. pose proof (length_take_le source (S (S position)) ltac:(lia)) as Hlt.
  pose proof (hex_digits_bad source (S (S position)) ltac:(lia)) as Hbad.
  destruct (drop (S (S position)) source) as [|h1 [|h2 [|h3 [|h4 l]]]] eqn:E;
    try (apply (f_equal length) in E; rewrite length_drop in E; cbn in E; lia).
  cbn [take] in Hbad. destruct (forallb is_hex [h1; h2; h3; h4]) eqn:Hh; cbn [andb].
  2:{ destruct (Hbad Hh) as [bad ->]. exec_simpl. by eexists _, _, s, cs. }
  destruct (hex_digits_ok (take (S (S position)) source) h1 h2 h3 h4 l Hh) as [Hd Hr]. rewrite Hsplit, Hlt in Hd. rewrite Hd. exec_simpl.
  pose proof (append_utf8_ok N _ s cs Hs Hr) as Ha. destruct (surrogate (hex_number [h1; h2; h3; h4])); cbn [negb andb] in *.
  { destruct Ha as (s' & cs' & -> & Hs'). exec_simpl. by eexists _, _, s', cs'. }
  case_bool_decide.
  - destruct Ha as (s' & -> & Hs'). exec_simpl. exists s'. by replace (S (S position) + 4)%nat with (position + 6)%nat by lia.
  - destruct Ha as (s' & cs' & -> & Hs'). exec_simpl. by eexists _, _, s', cs'.
Qed.

Section Decode.
Context (N : nat) (source : list Z).

Let loop (fuel : nat) (st : nat * basic_string) :=
  while_loop fuel (fun '(position, _) => Done (position <? length source)%nat) (decode_body N source) st.

(** What a run of the decoder has read. *)
Definition decoded (position : nat) (cs : list Z) (r : result) (p : nat) (s' : basic_string) : Prop :=
  (exists cs', holds N s' cs')
  /\ (r_succeeded r = true -> r = result_ok /\ exists body d post, drop position source = body ++ c_quote :: post
        /\ string_text body d /\ p = (position + length body + 1)%nat /\ holds N s' (cs ++ d)).

Lemma decode_loop_sound fuel position s cs :
  holds N s cs -> (length source - position < fuel)%nat ->
  exists p s' cs', (loop fuel (position, s) = Done (Next (p, s')) /\ holds N s' cs')
    \/ (exists r, loop fuel (position, s) = Done (Return (r, p, s')) /\ decoded position cs r p s').
Proof.
  revert position s cs. induction fuel as [|fuel IH]; intros position s cs Hs Hf; [lia|]. unfold loop in *. cbn [while_loop].
  destruct (Nat.ltb_spec position (length source)) as [Hlt|Hge].
  2:{ exists position, s, cs. by left. }
  pose proof (decode_body_ok N source position s cs Hs Hlt) as Hb. destruct (drop position source) as [|c l] eqn:E; [done|].
  destruct (Z.eqb_spec c c_quote) as [->|Hne].
  { rewrite Hb. exists (position + 1)%nat, s, cs. right. exists result_ok. split; [done|]. split; [by exists cs|]. intros _. split; [done|].
    exists [], [], l. rewrite E, app_nil_r. split; [done|]. split; [constructor|]. split; [cbn; lia|done]. }
  destruct (next_char (c :: l)) as [[n d]|] eqn:En.
  2:{ destruct Hb as (r & p & s' & cs' & -> & Hr & Hs'). exists p, s', cs'. right. exists r. split; [done|]. split; [by exists cs'|].
      rewrite Hr. done. }
  case_bool_decide.
  2:{ destruct Hb as (r & p & s' & cs' & -> & Hr & Hs'). exists p, s', cs'. right. exists r. split; [done|]. split; [by exists cs'|].
      rewrite Hr. done. }
  destruct Hb as (s1 & -> & H1). destruct (next_char_sound _ _ _ En) as [Hn Hct]. rewrite <-E in Hn, Hct.
  assert (Hld : length (drop position source) = (length source - position)%nat) by apply length_drop.
  destruct (IH (position + n)%nat s1 (cs ++ d) H1) as (p & s' & cs' & [[-> Hs']|(r & -> & Hd)]); [lia| |].
  - exists p, s', cs'. by left.
  - exists p, s', cs'. right. exists r. split; [done|]. destruct Hd as [Hx Hd]. split; [done|]. intros Hr.
    destruct (Hd Hr) as (-> & body & d' & post & Eb & Hb & -> & Hh). split; [done|].
    exists (take n (drop position source) ++ body), (d ++ d'), post. rewrite <-app_assoc, <-Eb, <-drop_drop, take_drop.
    split; [done|]. split; [by constructor|]. rewrite length_app, length_take, app_assoc. split; [lia|done].
Qed.

Lemma decode_loop_complete fuel position s cs body d post :
  holds N s cs -> drop position source = body ++ c_quote :: post -> string_text body d -> (length cs + length d <= N)%nat ->
  (length source - position < fuel)%nat ->
  exists s', loop fuel (position, s) = Done (Return (result_ok, (position + length body + 1)%nat, s')) /\ holds N s' (cs ++ d).
Proof.
  intros Hs E Hb. revert fuel position s cs Hs E. induction Hb as [|t dt ts ds Ht Hts IH]; intros fuel position s cs Hs E Hl Hf;
    (destruct fuel as [|fuel]; [lia|]); unfold loop in *; cbn [while_loop];
    assert (Hlt : (position < length source)%nat)
      by (apply (f_equal length) in E; rewrite length_drop, ?length_app in E; cbn in E; lia);
    rewrite (proj2 (Nat.ltb_lt _ _)) by done; pose proof (decode_body_ok N source position s cs Hs Hlt) as Hb; rewrite E in Hb.
  - cbn [app] in Hb. rewrite Z.eqb_refl in Hb. rewrite Hb. exists s. rewrite app_nil_r. split; [|done].
    by replace (position + length (@nil Z) + 1)%nat with (position + 1)%nat by (cbn; lia).
  - rewrite <-app_assoc in Hb, E. rewrite (next_char_complete _ _ _ Ht) in Hb. rewrite length_app in Hl.
    destruct t as [|c t]; [inversion Ht|]. cbn [app] in Hb.
    assert (Hq : (c =? c_quote) = false) by (apply Z.eqb_neq; intros ->; inversion Ht; lia). rewrite Hq, bool_decide_eq_true_2 in Hb by lia.
    destruct Hb as (s1 & -> & H1).
    destruct (IH fuel (position + length (c :: t))%nat s1 (cs ++ dt) H1) as (s' & -> & Hs').
    + rewrite <-drop_drop, E. apply (drop_app_length (c :: t)).
    + rewrite length_app. lia.
    + apply (f_equal length) in E. rewrite length_drop, !length_app in E. cbn in E |- *. lia.
    + exists s'. rewrite <-app_assoc in Hs'. split; [|done]. do 4 f_equal. rewrite length_app. lia.
Qed.

Lemma decode_string_sound position s cs :
  holds N s cs ->
  exists r p s', decode_string N source position s = Done (r, p, s') /\ (exists cs', holds N s' cs')
    /\ (r_succeeded r = true -> r = result_ok /\ exists body d post, drop position source = c_quote :: body ++ c_quote :: post
          /\ string_text body d /\ p = (position + length body + 2)%nat /\ holds N s' d).
Proof.
  intros Hs. destruct (holds_prefix N s cs Hs) as [Hd _]. destruct (string_clear_ok N s Hd) as (s0 & E0 & H0).
  unfold decode_string. rewrite E0. exec_simpl. destruct (Nat.leb_spec (length source) position) as [|Hlt].
  { eexists _, _, s0. split; [done|]. split; [by exists []|done]. }
  destruct (lookup_lt_is_Some_2 source position Hlt) as [c Hc]. rewrite (load_Done _ _ _ Hc). exec_simpl.
  destruct (Z.eqb_spec c c_quote) as [->|]; cbn [negb]; [|eexists _, _, s0; split; [done|]; split; [by exists []|done]].
  destruct (decode_loop_sound (S (length source)) (position + 1) s0 [] H0) as (p & s' & cs' & [[E Hs']|(r & E & Hx & Hr)]); [lia| |].
  - unfold loop in E. rewrite E. eexists _, p, s'. split; [done|]. split; [by exists cs'|done].
  - unfold loop in E. rewrite E. exists r, p, s'. split; [done|]. split; [done|]. intros Hok.
    destruct (Hr Hok) as (-> & body & d & post & Eb & Hb & -> & Hh). split; [done|]. exists body, d, post.
    rewrite (drop_S _ _ _ Hc), <-Nat.add_1_r, Eb. split; [done|]. split; [done|]. split; [lia|done].
Qed.

Lemma decode_string_complete position s cs body d post :
  holds N s cs -> drop position source = c_quote :: body ++ c_quote :: post -> string_text body d -> (length d <= N)%nat ->
  exists s', decode_string N source position s = Done (result_ok, (position + length body + 2)%nat, s') /\ holds N s' d.
Proof.
  intros Hs E Hb Hl. destruct (holds_prefix N s cs Hs) as [Hd _]. destruct (string_clear_ok N s Hd) as (s0 & E0 & H0).
  unfold decode_string. rewrite E0. exec_simpl.
  assert (Hc : source !! position = Some c_quote) by (rewrite <-(Nat.add_0_r position), <-lookup_drop, E; done).
  rewrite (proj2 (Nat.leb_gt _ _)) by (by eapply lookup_lt_Some). rewrite (load_Done _ _ _ Hc). exec_simpl. cbn [Z.eqb Pos.eqb negb].
  destruct (decode_loop_complete (S (length source)) (position + 1) s0 [] body d post H0) as (s' & El & Hs'); [|done|done|lia|].
  - rewrite (drop_S _ _ _ Hc) in E. injection E as E. by rewrite Nat.add_1_r.
  - unfold loop in El. rewrite El. exists s'. split; [|done]. cbn [after]. do 3 f_equal. lia.
Qed.
End Decode.

(** Escaping produces a text of the value. *)
Lemma escape_chars_text value text : escape_chars value = Some text -> string_text text value.
Proof.
  revert text. induction value as [|c value IH]; intros text; cbn [escape_chars]; [intros [= <-]; constructor|].
  destruct (escape_char c) as [e|] eqn:Ee; [|done]. destruct (escape_chars value) as [t|]; [|done]. intros [= <-].
  apply (ST_cons e [c] t value); [|by apply IH]. unfold escape_char, escaped_form in Ee.
  repeat match type of Ee with
         | context [if ?a =? ?b then _ else _] => destruct (Z.eqb_spec a b) as [->|]; [injection Ee as <-; by constructor|]
         end.
  destruct (Z.ltb_spec c 32); [done|]. injection Ee as <-. by constructor.
Qed.

(** ** The grammar of numbers *)

Definition all_digits (l : list Z) : Prop := Forall (fun c => is_digit c = true) l.
Definition some_digits (l : list Z) : Prop := l <> [] /\ all_digits l.
Definition integer_part (l : list Z) : Prop :=
  l = [c_0] \/ exists c r, l = c :: r /\ 49 <= c <= c_9 /\ all_digits r.
Definition fraction_part (l : list Z) : Prop := l = [] \/ exists ds, l = c_dot :: ds /\ some_digits ds.
Definition exponent_part (l : list Z) : Prop :=
  l = [] \/ exists e sign ds, l = e :: sign ++ ds /\ (e = c_e \/ e = c_E)
                          /\ (sign = [] \/ sign = [c_plus] \/ sign = [c_minus]) /\ some_digits ds.
Definition number_text (l : list Z) : Prop :=
  exists sign i f e, l = sign ++ i ++ f ++ e /\ (sign = [] \/ sign = [c_minus])
                     /\ integer_part i /\ fraction_part f /\ exponent_part e.

(** A text that does not go on with a digit. *)
Definition no_digit (l : list Z) : Prop := forall c, head l = Some c -> is_digit c = false.

Lemma span_unique ds rest ds' rest' :
  all_digits ds -> no_digit rest -> all_digits ds' -> no_digit rest' -> ds ++ rest = ds' ++ rest' -> ds = ds' /\ rest = rest'.
Proof.
  unfold all_digits, no_digit. intros Hd Hr Hd' Hr'.
  revert ds' Hd'. induction Hd as [|c ds Hc Hd IH]; intros ds' Hd' E.
  - destruct ds' as [|c' ds']; [done|]. inversion Hd'; subst. cbn in E. subst rest.
    specialize (Hr c' eq_refl). congruence.
  - destruct ds' as [|c' ds']; cbn in E; [subst; specialize (Hr' c eq_refl); congruence|].
    injection E as <- E. inversion Hd'; subst. destruct (IH ds') as [-> ->]; done.
Qed.

Section Numbers.
Context (text : list Z).

Lemma at_char_ok i p : at_char text i p = Done (match head (drop i text) with Some c => p c | None => false end).
Proof.
  unfold at_char. destruct (Nat.ltb_spec i (length text)) as [Hlt|Hge].
  - destruct (lookup_lt_is_Some_2 text i Hlt) as [c Hc]. by rewrite (load_Done _ _ _ Hc), (drop_S _ _ _ Hc).
  - by rewrite drop_ge.
Qed.

Lemma digits_from_ok i : (i <= length text)%nat ->
  exists ds rest, drop i text = ds ++ rest /\ all_digits ds /\ no_digit rest /\ digits_from text i = Done (i + length ds)%nat.
Proof.
  intros Hi. unfold digits_from.
  assert (H : forall fuel i, (i <= length text)%nat -> (length text - i < fuel)%nat ->
    exists ds rest, drop i text = ds ++ rest /\ all_digits ds /\ no_digit rest /\
      while_loop (R := nat) fuel (fun i => if (i <? length text)%nat then c ← load text i; Done (is_digit c) else Done false)
        (fun i => Done (Next (i + 1)%nat)) i = Done (Next (i + length ds)%nat)).
  2:{ destruct (H (S (length text)) i Hi) as (ds & rest & E & Hd & Hr & ->); [lia|]. by exists ds, rest. }
  clear i Hi. induction fuel as [|fuel IH]; intros i Hi Hf; [lia|]. cbn [while_loop].
  change (if (i <? length text)%nat then c ← load text i; Done (is_digit c) else Done false) with (at_char text i is_digit).
  rewrite at_char_ok. destruct (drop i text) as [|c l] eqn:E; cbn [head mbind exec_bind].
  { exists [], []. rewrite Nat.add_0_r. split; [done|]. split; [constructor|]. done. }
  destruct (is_digit c) eqn:Ec.
  2:{ exists [], (c :: l). rewrite Nat.add_0_r. split; [done|]. split; [constructor|]. split; [|done]. by intros ? [= <-]. }
  assert (Hlt : (i < length text)%nat).
  { apply (f_equal length) in E. rewrite length_drop in E. cbn in E. lia. }
  destruct (IH (i + 1)%nat) as (ds & rest & E1 & Hd & Hr & IHe); [lia|lia|].
  exists (c :: ds), rest. cbn [mbind exec_bind]. rewrite IHe. rewrite <-drop_drop, E in E1. cbn in E1. rewrite skipn_0 in E1.
  rewrite E1. split; [done|]. split; [by constructor|]. split; [done|]. do 2 f_equal. cbn [length]. lia.
Qed.

Lemma at_end i : (i <= length text)%nat -> (i =? length text)%nat = true <-> drop i text = [].
Proof.
  intros Hi. rewrite Nat.eqb_eq. split; [intros ->; apply drop_all|]. intros E. apply (f_equal length) in E.
  rewrite length_drop in E. cbn in E. lia.
Qed.

Lemma drop_next i c l : drop i text = c :: l -> (i < length text)%nat /\ drop (i + 1) text = l.
Proof.
  intros E. split.
  - apply (f_equal length) in E. rewrite length_drop in E. cbn in E. lia.
  - rewrite <-drop_drop, E. done.
Qed.

(** At least one digit, then [k]. *)
Lemma digits_then_ok i (k : nat -> exec bool) (Q : list Z -> Prop) :
  (i <= length text)%nat -> (forall l, Q l -> no_digit l) ->
  (forall j, (j <= length text)%nat -> exists b, k j = Done b /\ (b = true <-> Q (drop j text))) ->
  exists b, (d ← at_char text i is_digit; if negb d then Done false else j ← digits_from text i; k j) = Done b
    /\ (b = true <-> exists ds l, drop i text = ds ++ l /\ some_digits ds /\ Q l).
Proof.
  intros Hi Hq Hk. rewrite at_char_ok. exec_simpl. destruct (digits_from_ok i Hi) as (ds & rest & E & Hd & Hr & ->).
  destruct (head (drop i text)) as [c|] eqn:Eh.
  2:{ exists false. split; [done|]. split; [done|]. intros (ds' & l & E' & [Hn _] & _). rewrite E' in Eh. by destruct ds'. }
  destruct (is_digit c) eqn:Ec; cbn [negb].
  - exec_simpl. destruct (Hk (i + length ds)%nat) as (b & -> & Hb).
    { apply (f_equal length) in E. rewrite length_drop, length_app in E. lia. }
    exists b. split; [done|]. rewrite Hb, <-drop_drop, E, drop_app_length. split.
    + intros Hl. exists ds, rest. split; [done|]. split; [|done]. split; [|done]. intros ->. cbn in E. rewrite E in Eh.
      specialize (Hr c Eh). congruence.
    + intros (ds' & l & E' & [_ Hd'] & Hl). by destruct (span_unique ds rest ds' l Hd Hr Hd' (Hq l Hl) E') as [-> ->].
  - exists false. split; [done|]. split; [done|]. intros (ds' & l & E' & [Hn Hd'] & _). rewrite E' in Eh.
    destruct ds' as [|c' ds']; [done|]. injection Eh as ->. inversion Hd'; congruence.
Qed.

Definition nothing (l : list Z) : Prop := l = [].

Lemma nothing_no_digit l : nothing l -> no_digit l. Proof. by intros -> c. Qed.

Lemma exponent_no_digit l : exponent_part l -> no_digit l.
Proof. intros [->|(e & sign & ds & -> & He & _)] c Hc; [done|]. injection Hc as <-. by destruct He as [->| ->]. Qed.

Lemma end_ok j : (j <= length text)%nat -> exists b, Done (j =? length text)%nat = Done b /\ (b = true <-> nothing (drop j text)).
Proof. intros Hj. eexists. split; [done|]. by apply at_end. Qed.

Lemma valid_exponent_ok i : (i <= length text)%nat ->
  exists b, valid_exponent text i = Done b /\ (b = true <-> exponent_part (drop i text)).
Proof.
  intros Hi. unfold valid_exponent. rewrite (at_char_ok i). exec_simpl.
  destruct (drop i text) as [|e l] eqn:E; cbn [head].
  { exists (i =? length text)%nat. split; [done|]. rewrite at_end by done. rewrite E. split; [by left|done]. }
  destruct (drop_next i e l E) as [Hlt En].
  destruct ((e =? c_e) || (e =? c_E)) eqn:Ee.
  2:{ exists (i =? length text)%nat. split; [done|]. rewrite at_end by done. rewrite E. split; [done|].
      intros [|(e' & sign & ds & [= <- ->] & He & _)]; [done|]. exfalso. by destruct He as [->| ->]. }
  apply orb_true_iff in Ee. rewrite !Z.eqb_eq in Ee. rewrite (at_char_ok (i + 1)). exec_simpl. rewrite En.
  set (sign := match head l with Some c => _ | None => false end).
  destruct (digits_then_ok (if sign then (i + 1 + 1)%nat else (i + 1)%nat) (fun j => Done (j =? length text)%nat) nothing)
    as (b & -> & Hb).
  { subst sign. destruct l as [|s l]; [cbn; lia|]. cbn [head]. destruct (drop_next (i + 1) s l En). case_match; lia. }
  { apply nothing_no_digit. }
  { apply end_ok. }
  exists b. split; [done|]. rewrite Hb. subst sign. clear Hb b. split.
  - intros (ds & r & Ed & Hd & ->). rewrite app_nil_r in Ed. right. destruct l as [|s l]; cbn [head] in Ed.
    { rewrite En in Ed. exists e, [], ds. subst ds. split; [done|]. auto. }
    destruct ((s =? c_plus) || (s =? c_minus)) eqn:Es; [|rewrite En in Ed; exists e, [], ds; subst ds; auto].
    apply orb_true_iff in Es. rewrite !Z.eqb_eq in Es. destruct (drop_next (i + 1) s l En) as [_ En2]. rewrite En2 in Ed. subst l.
    exists e, [s], ds. split; [done|]. split; [done|]. split; [|done]. destruct Es as [->| ->]; auto.
  - intros [|(e' & sg & ds & [= <- ->] & _ & Hs & Hd)]; [done|]. exists ds, []. rewrite app_nil_r. split; [|done].
    destruct Hs as [->|[->| ->]]; cbn [app head]; cbn [app] in En.
    + destruct ds as [|d ds]; [by destruct Hd|]. destruct Hd as [_ Hd]. cbn [head].
      replace ((d =? c_plus) || (d =? c_minus)) with false; [done|]. inversion Hd as [|? ? Hx]; subst. unfold is_digit in Hx.
      symmetry. apply orb_false_iff. rewrite !Z.eqb_neq. lia.
    + by destruct (drop_next (i + 1) _ _ En).
    + by destruct (drop_next (i + 1) _ _ En).
Qed.

Definition fraction_exponent (l : list Z) : Prop := exists f e, l = f ++ e /\ fraction_part f /\ exponent_part e.

Lemma fraction_no_digit l : fraction_exponent l -> no_digit l.
Proof.
  intros (f & e & -> & [->|(ds & -> & _)] & He); [by apply exponent_no_digit|]. by intros c [= <-].
Qed.

Lemma valid_fraction_ok i : (i <= length text)%nat ->
  exists b, valid_fraction text i = Done b /\ (b = true <-> fraction_exponent (drop i text)).
Proof.
  intros Hi. unfold valid_fraction. rewrite (at_char_ok i). exec_simpl.
  assert (Hplain : (forall l, drop i text <> c_dot :: l) -> exponent_part (drop i text) <-> fraction_exponent (drop i text)).
  { intros Hno. split; [intros H; exists [], (drop i text); split; [done|]; by split; [left|]|].
    intros (f & e & E & [->|(ds & -> & _)] & He); [by rewrite E|]. by destruct (Hno (ds ++ e)). }
  destruct (drop i text) as [|c l] eqn:E; cbn [head].
  { destruct (valid_exponent_ok i Hi) as (b & -> & Hb). exists b. split; [done|]. rewrite Hb, E. by apply Hplain. }
  destruct (Z.eqb_spec c c_dot) as [->|Hc].
  2:{ destruct (valid_exponent_ok i Hi) as (b & -> & Hb). exists b. split; [done|]. rewrite Hb, E. apply Hplain. congruence. }
  destruct (drop_next i _ l E) as [Hlt En].
  destruct (digits_then_ok (i + 1) (valid_exponent text) exponent_part) as (b & -> & Hb);
    [lia|apply exponent_no_digit|apply valid_exponent_ok|].
  exists b. split; [done|]. rewrite Hb, En. split.
  - intros (ds & e & -> & Hd & He). exists (c_dot :: ds), e. split; [done|]. split; [|done]. right. by exists ds.
  - intros (f & e & Ef & [->|(ds & -> & Hd)] & He); [|injection Ef as ->; by exists ds, e].
    cbn in Ef. subst e. by destruct He as [|(? & ? & ? & [= <- _] & [?|?] & _)].
Qed.

(** The digits of the integer part. *)
Lemma valid_integer_ok i : (i <= length text)%nat ->
  exists b, (if (i =? length text)%nat then Done false
     else c ← load text i;
          if c =? c_0 then d ← at_char text (i + 1) is_digit; if d : bool then Done false else valid_fraction text (i + 1)
          else if (c <? 49) || (c_9 <? c) then Done false else j ← digits_from text i; valid_fraction text j) = Done b
    /\ (b = true <-> exists ip fe, drop i text = ip ++ fe /\ integer_part ip /\ fraction_exponent fe).
Proof.
  intros Hi. destruct (Nat.eqb_spec i (length text)) as [->|Hne].
  { exists false. split; [done|]. split; [done|]. rewrite drop_all. by intros (ip & fe & E & [->|(? & ? & -> & _)] & _). }
  destruct (lookup_lt_is_Some_2 text i) as [c Hc]; [lia|]. rewrite (load_Done _ _ _ Hc). exec_simpl.
  pose proof (drop_S _ _ _ Hc) as E. destruct (drop_next i _ _ E) as [Hlt En].
  destruct (Z.eqb_spec c c_0) as [->|Hc0].
  - rewrite at_char_ok. exec_simpl. destruct (valid_fraction_ok (i + 1)) as (b & -> & Hb); [lia|].
    assert (Hz : forall ip fe, drop i text = ip ++ fe -> integer_part ip -> ip = [c_0] /\ drop (i + 1) text = fe).
    { intros ip fe Ei [->|(d & r & -> & Hd & _)]; rewrite E in Ei; injection Ei; [|lia]. intros <-. by rewrite En. }
    destruct (match head _ with Some c => _ | None => false end) eqn:Ed.
    + exists false. split; [done|]. split; [done|]. intros (ip & fe & Ei & Hip & Hfe). destruct (Hz ip fe Ei Hip) as [-> Hdr].
      apply fraction_no_digit in Hfe. unfold no_digit in Hfe. rewrite <-Hdr in Hfe. destruct (head _); [|done]. rewrite Hfe in Ed; done.
    + exists b. split; [done|]. rewrite Hb. split.
      * intros Hf. exists [c_0], (drop (i + 1) text). rewrite En in *. split; [done|]. by split; [left|].
      * intros (ip & fe & Ei & Hip & Hfe). by destruct (Hz ip fe Ei Hip) as [-> ->].
  - destruct ((c <? 49) || (c_9 <? c)) eqn:Er.
    + exists false. split; [done|]. split; [done|]. intros (ip & fe & Ei & [->|(d & r & -> & Hd & _)] & _); rewrite E in Ei; injection Ei; lia.
    + destruct (digits_from_ok i) as (ds & rest & Ed & Hd & Hr & ->); [lia|]. exec_simpl.
      assert (Hdc : is_digit c = true) by (unfold is_digit; lia).
      destruct ds as [|d ds]; [cbn in Ed; rewrite E in Ed; subst rest; specialize (Hr c eq_refl); congruence|].
      assert (d = c) as -> by (rewrite E in Ed; by injection Ed).
      destruct (valid_fraction_ok (i + length (c :: ds))) as (b & -> & Hb).
      { apply (f_equal length) in Ed. rewrite length_drop, length_app in Ed. lia. }
      exists b. split; [done|]. rewrite Hb, <-drop_drop, Ed, drop_app_length. split.
      * intros Hf. exists (c :: ds), rest. split; [done|]. split; [|done]. right. exists c, ds. inversion Hd. split; [done|]. split; [lia|done].
      * intros (ip & fe & Ei & Hip & Hfe). assert (Hda : all_digits ip).
        { destruct Hip as [->|(x & r & -> & Hx & Hall)]; constructor; [done|constructor| |done]. unfold is_digit. lia. }
        by destruct (span_unique _ _ ip fe Hd Hr Hda (fraction_no_digit _ Hfe) Ei) as [<- <-].
Qed.

(** [valid_number] decides the grammar. *)
Lemma valid_number_exact : exists b, valid_number text = Done b /\ (b = true <-> number_text text).
Proof.
  unfold valid_number. destruct (Nat.eqb_spec (length text) 0) as [H0|H0].
  { exists false. split; [done|]. split; [done|]. apply length_zero_iff_nil in H0. rewrite H0.
    intros (sign & i & f & e & E & _ & [->|(? & ? & -> & _)] & _); by destruct sign. }
  destruct text as [|c0 l0] eqn:E0; [done|]. rewrite <-E0 in *. rewrite (load_Done text 0 c0) by (by rewrite E0). exec_simpl.
  destruct (valid_integer_ok (if c0 =? c_minus then 1%nat else 0%nat)) as (b & Hv & Hb); [case_match; lia|].
  exists b. split; [exact Hv|]. rewrite Hb. rewrite E0. split.
  - intros (ip & fe & E & Hip & (f & e & -> & Hf & He)). destruct (Z.eqb_spec c0 c_minus) as [->|]; cbn in E.
    + rewrite skipn_0 in E. exists [c_minus], ip, f, e. rewrite E. auto.
    + exists [], ip, f, e. rewrite E. auto.
  - intros (sign & ip & f & e & E & Hs & Hip & Hf & He). exists ip, (f ++ e). split; [|split; [done|by exists f, e]].
    destruct Hs as [->| ->]; cbn [app] in E.
    + destruct (Z.eqb_spec c0 c_minus) as [->|]; [|done]. exfalso. destruct Hip as [->|(d & r & -> & Hd & _)]; injection E; lia.
    + injection E as -> ->. cbn. by rewrite skipn_0.
Qed.
End Numbers.
