(* ===== verification/JsonInteger.v ===== *)
(** * Integers in JSON (castle_ext/serialization/json.hpp, [parse_integer] and [format_integer])

    The references are decimal notation and the range of the integer type: what the
    code reads is the value of the digits when it lies in the range, and what it writes
    is a number of the grammar that reads back as the value. *)

From S2P Require Import Prelude Status Bytes Words StringBuf JsonText.
Open Scope Z_scope.

(** The value of decimal digits behind those of [m]. *)
Definition decimal (m : Z) (cs : list Z) : Z := fold_left (fun m c => m * 10 + (c - c_0)) cs m.

(** The values of a type of [bits] bits. *)
Definition in_type (signed : bool) (bits v : Z) : Prop :=
  if signed then - 2 ^ (bits - 1) <= v < 2 ^ (bits - 1) else 0 <= v < 2 ^ bits.
#[export] Instance in_type_dec signed bits v : Decision (in_type signed bits v).
Proof. destruct signed; unfold in_type; apply _. Defined.

Lemma decimal_app m a b : decimal m (a ++ b) = decimal (decimal m a) b.
Proof. apply fold_left_app. Qed.

Lemma decimal_ge m cs : all_digits cs -> 0 <= m -> m <= decimal m cs.
Proof.
  intros H. revert m. induction H as [|c cs Hc H IH]; intros m Hm; cbn; [lia|].
  unfold is_digit in Hc. specialize (IH (m * 10 + (c - c_0))). unfold decimal in IH. lia.
Qed.

(** ** Reading *)

Lemma overflow_check m d : 0 <= d <= 9 -> ((2 ^ 64 - 1 - d) / 10 <? m) = true <-> 2 ^ 64 <= m * 10 + d.
Proof. intros Hd. rewrite Z.ltb_lt. split; intros H; [|]; Z.to_euclidean_division_equations; lia. Qed.

Definition read_body (text : list Z) (output : Z) (i : nat) (magnitude : Z) : exec (ctl (status * Z) Z) :=
  c ← load text i;
  if negb (is_digit c) then Done (Return (s_invalid_argument, output))
  else
    let digit := c - c_0 in
    if (2 ^ 64 - 1 - digit) / 10 <? magnitude then Done (Return (s_out_of_range, output))
    else Done (Next (to_u64 (magnitude * 10 + digit))).

Lemma read_loop_ok text output n i m : (i + n = length text)%nat -> 0 <= m < 2 ^ 64 ->
  exists r, for_range i n (read_body text output) m = Done r /\
    ((exists e, r = Return (e, output) /\ ~ all_digits (drop i text) /\ e <> s_ok)
     \/ (all_digits (drop i text) /\
         r = if 2 ^ 64 <=? decimal m (drop i text) then Return (s_out_of_range, output) else Next (decimal m (drop i text)))).
Proof.
  revert i m. induction n as [|n IH]; intros i m Hn Hm; cbn [for_range].
  - exists (Next m). split; [done|]. right. rewrite drop_ge by lia. split; [constructor|]. cbn.
    by rewrite (proj2 (Z.leb_gt _ _)) by lia.
  - destruct (lookup_lt_is_Some_2 text i) as [c Hc]; [lia|]. unfold read_body at 1. rewrite (load_Done _ _ _ Hc), (drop_S _ _ _ Hc).
    exec_simpl. destruct (is_digit c) eqn:Ed; cbn [negb].
    2:{ eexists. split; [done|]. left. eexists. split; [done|]. split; [|done]. inversion 1. congruence. }
    assert (Hr : 0 <= c - c_0 <= 9) by (unfold is_digit in Ed; lia).
    assert (Hall : all_digits (c :: drop (S i) text) <-> all_digits (drop (S i) text)).
    { split; [by inversion 1|]. by constructor. }
    destruct (_ <? m) eqn:Eo.
    + apply overflow_check in Eo; [|done]. eexists. split; [done|].
      destruct (Forall_dec (fun c => is_digit c = true) (drop (S i) text)) as [Ha|Ha].
      * right. rewrite Hall. split; [done|]. cbn [decimal fold_left].
        pose proof (decimal_ge (m * 10 + (c - c_0)) _ Ha ltac:(lia)) as Hge. unfold decimal in Hge. by rewrite (proj2 (Z.leb_le _ _)) by lia.
      * left. eexists. split; [done|]. by rewrite Hall.
    + assert (m * 10 + (c - c_0) < 2 ^ 64).
      { apply Z.nle_gt. intros Hx. apply (overflow_check m (c - c_0) Hr) in Hx. congruence. }
      rewrite wrap_small by (unfold in_width; lia).
      destruct (IH (S i) (m * 10 + (c - c_0))) as (r & -> & Hor); [lia|lia|]. exists r. split; [done|]. setoid_rewrite Hall. exact Hor.
Qed.

(** [text] is the decimal notation of [x], with a minus where the type has a sign. *)
Definition denotes (signed : bool) (text : list Z) (x : Z) : Prop :=
  exists (negative : bool) ds, text = (if negative then [c_minus] else []) ++ ds /\ some_digits ds
    /\ (negative = true -> signed = true) /\ x = if negative then - decimal 0 ds else decimal 0 ds.

(** What a call of [parse_integer] has to do. *)
Definition reads (signed : bool) (bits : Z) (text : list Z) (output : Z) (s : status) (v : Z) : Prop :=
  (forall x, denotes signed text x -> if decide (in_type signed bits x) then s = s_ok /\ v = x else s = s_out_of_range)
  /\ (s = s_ok -> denotes signed text v /\ in_type signed bits v)
  /\ (s <> s_ok -> v = output).

Lemma reads_nothing signed bits text output s :
  (forall x, ~ denotes signed text x) -> s <> s_ok -> reads signed bits text output s output.
Proof. intros Hd Hs. split; [|by split]. by intros x Hx%Hd. Qed.

Lemma minus_no_digit ds ds' : some_digits ds -> ds <> c_minus :: ds'.
Proof. intros [_ H] ->. by inversion H. Qed.

Lemma reads_value signed bits (negative : bool) ds output s v :
  some_digits ds -> (negative = true -> signed = true) ->
  let x := if negative then - decimal 0 ds else decimal 0 ds in
  (if decide (in_type signed bits x) then s = s_ok /\ v = x else s = s_out_of_range /\ v = output) ->
  reads signed bits ((if negative then [c_minus] else []) ++ ds) output s v.
Proof.
  intros Hd Hn x Hs.
  assert (Hx : denotes signed ((if negative then [c_minus] else []) ++ ds) x) by (by exists negative, ds).
  split; [|case_decide; destruct Hs as [-> ->]; by split].
  intros y (neg & ds' & E & Hd' & _ & ->). assert (neg = negative /\ ds' = ds) as [-> ->].
  { destruct negative, neg; cbn in E; [by simplify_eq|by destruct (minus_no_digit ds' ds Hd')| |by simplify_eq].
    by destruct (minus_no_digit ds ds' Hd). }
  fold x. case_decide; [done|]. by destruct Hs.
Qed.

Section Read.
Context (signed : bool) (bits : Z) (Hbits : 0 < bits <= 64).

Lemma half_type : Z.shiftr (2 ^ bits - 1) 1 = 2 ^ (bits - 1) - 1 /\ 2 ^ bits = 2 * 2 ^ (bits - 1) /\ 2 ^ bits <= 2 ^ 64 /\ 0 < 2 ^ (bits - 1).
Proof.
  assert (E : 2 ^ bits = 2 * 2 ^ (bits - 1)) by (rewrite <-Z.pow_succ_r by lia; f_equal; lia).
  assert (0 < 2 ^ (bits - 1)) by (apply Z.pow_pos_nonneg; lia).
  split; [|split; [done|]; split; [apply Z.pow_le_mono_r; lia|done]].
  rewrite Z.shiftr_div_pow2 by lia. change (2 ^ 1) with 2. Z.to_euclidean_division_equations. lia.
Qed.

Lemma parse_integer_exact text output :
  exists s v, parse_integer signed bits text output = Done (s, v) /\ reads signed bits text output s v.
Proof.
  destruct half_type as (Hh & Hw & Hb & Hp). unfold parse_integer.
  destruct text as [|c text]; cbn [length Nat.eqb].
  { eexists _, _. split; [done|]. apply reads_nothing; [|done]. intros x (neg & ds & E & [Hn _] & _). by destruct neg, ds. }
  rewrite (load_Done (c :: text) 0 c) by done. exec_simpl. destruct (Z.eqb_spec c c_plus) as [->|Hplus].
  { eexists _, _. split; [done|]. apply reads_nothing; [|done]. intros x (neg & ds & E & [Hn Hd] & _).
    destruct neg; [done|]. cbn in E. subst ds. by inversion Hd. }
  set (i := if c =? c_minus then 1%nat else 0%nat).
  destruct ((i =? S (length text))%nat || ((c =? c_minus) && negb signed)) eqn:Ei.
  { eexists _, _. split; [done|]. apply reads_nothing; [|done]. intros x (neg & ds & E & [Hn Hd] & Hs & _).
    subst i. destruct (Z.eqb_spec c c_minus) as [->|Hm].
    - destruct neg; [|cbn in E; subst ds; by inversion Hd]. injection E as ->. rewrite (Hs eq_refl) in Ei. destruct ds; [done|].
      by cbn in Ei.
    - by cbn in Ei. }
  destruct (read_loop_ok (c :: text) output (S (length text) - i) i 0) as (r & Hr & Hor);
    [subst i; cbn [length]; case_match; lia|lia|].
  change (fun (i : nat) (magnitude : Z) => _) with (read_body (c :: text) output). rewrite Hr. clear Hr.
  assert (Ht : c :: text = (if c =? c_minus then [c_minus] else []) ++ drop i (c :: text)).
  { subst i. destruct (Z.eqb_spec c c_minus) as [->|]; done. }
  assert (Hne : drop i (c :: text) <> []).
  { intros Hx%(f_equal length). rewrite length_drop in Hx. cbn in Hx. apply orb_false_iff in Ei as [Ei _].
    apply Nat.eqb_neq in Ei. subst i. case_match; lia. }
  destruct Hor as [(e & -> & Hd & He)|[Hd ->]].
  { eexists _, _. split; [done|]. apply reads_nothing; [|done]. intros x (neg & ds & E & [_ Hds] & _). apply Hd. rewrite Ht in E.
    destruct (c =? c_minus) eqn:Em; destruct neg; cbn [app] in E.
    - injection E as <-. exact Hds.
    - subst ds. by inversion Hds.
    - exfalso. apply Z.eqb_neq in Em. subst i. cbn [drop] in E. by injection E.
    - by subst ds. }
  set (ds := drop i (c :: text)) in *. pose proof (decimal_ge 0 ds Hd ltac:(lia)) as Hge.
  assert (Hneg : (c =? c_minus) = true -> signed = true).
  { intros Em. rewrite Em in Ei. destruct signed; [done|]. by rewrite andb_true_r, orb_true_r in Ei. }
  rewrite Ht. assert (Hlim : forall x, in_type signed bits x -> - 2 ^ 63 <= x < 2 ^ 64).
  { intros x. unfold in_type. assert (2 ^ (bits - 1) <= 2 ^ 63) by (apply Z.pow_le_mono_r; lia). destruct signed; lia. }
  destruct (Z.leb_spec (2 ^ 64) (decimal 0 ds)) as [Hbig|Hsmall]; cbn [after].
  { eexists _, _. split; [done|]. apply reads_value; [done|done|]. cbn zeta. rewrite decide_False; [done|].
    intros Hx%Hlim. case_match; lia. }
  assert (Hds : some_digits ds) by done.
  destruct (c =? c_minus) eqn:Em; cbn [negb].
  - rewrite (Hneg eq_refl), Hh in *. destruct (Z.ltb_spec (2 ^ (bits - 1) - 1 + 1) (decimal 0 ds)).
    { eexists _, _. split; [done|]. apply (reads_value _ _ true); [done|done|]. cbn zeta. rewrite decide_False; [done|]. unfold in_type. lia. }
    destruct (Z.eqb_spec (decimal 0 ds) (2 ^ (bits - 1) - 1 + 1)) as [Em'|Em'];
      (eexists _, _; split; [done|]; apply (reads_value _ _ true); [done|done|]; cbn zeta);
      (rewrite decide_True by (unfold in_type; lia)); (split; [done|]); rewrite to_signed_wrap; lia.
  - destruct ((2 ^ bits - 1 <? decimal 0 ds) || (signed && (Z.shiftr (2 ^ bits - 1) 1 <? decimal 0 ds))) eqn:Er;
      (eexists _, _; split; [done|]; apply (reads_value _ _ false); [done|done|]; cbn zeta).
    + rewrite decide_False; [done|]. unfold in_type. rewrite Hh in Er. destruct signed; lia.
    + rewrite Hh in Er. assert (in_type signed bits (decimal 0 ds)) by (unfold in_type; destruct signed; lia).
      rewrite decide_True by done. split; [done|]. destruct signed; [apply to_signed_wrap|apply wrap_small]; unfold in_type, in_width in *; lia.
Qed.
End Read.

(** ** Writing *)

(** The digits of [m], least significant first. *)
Definition digit_at (m : Z) : Z := c_0 + m mod 10.
Fixpoint units_first (k : nat) (m : Z) : list Z :=
  match k with
  | O => []
  | S k => digit_at m :: if m / 10 =? 0 then [] else units_first k (m / 10)
  end.

Lemma digit_at_digit m : is_digit (digit_at m) = true.
Proof. unfold is_digit, digit_at. pose proof (Z.mod_pos_bound m 10). lia. Qed.

(** They are the decimal notation of [m], without leading zeros. *)
Lemma units_first_ok k m : 0 <= m < 10 ^ Z.of_nat k -> k <> O ->
  decimal 0 (rev (units_first k m)) = m /\ integer_part (rev (units_first k m)) /\ (length (units_first k m) <= k)%nat.
Proof.
  revert m. induction k as [|k IH]; intros m Hm Hk; [done|]. cbn [units_first rev length].
  pose proof (Z.mod_pos_bound m 10 ltac:(lia)) as Hmod. pose proof (Z.div_mod m 10 ltac:(lia)) as Hdm.
  destruct (Z.eqb_spec (m / 10) 0) as [E|E].
  - cbn. unfold digit_at. split; [lia|]. split; [|lia]. destruct (Z.eq_dec m 0) as [->|Hne]; [by left|].
    right. exists (c_0 + m mod 10), []. split; [done|]. split; [lia|constructor].
  - assert (0 < m / 10) by (pose proof (Z.div_pos m 10 ltac:(lia) ltac:(lia)); lia).
    assert (m / 10 < 10 ^ Z.of_nat k).
    { apply Z.div_lt_upper_bound; [lia|]. rewrite <-Z.pow_succ_r, <-Nat2Z.inj_succ by lia. lia. }
    destruct (IH (m / 10)) as (Hd & Hi & Hl); [lia| |].
    { intros ->. change (10 ^ Z.of_nat 0) with 1 in *. lia. }
    rewrite decimal_app, Hd. split; [cbn; unfold digit_at; lia|]. split; [|lia].
    destruct Hi as [Hz|(c & r & Hc & Hr & Hall)].
    { exfalso. rewrite Hz in Hd. cbn in Hd. lia. }
    right. exists c, (r ++ [digit_at m]). rewrite Hc. split; [done|]. split; [done|]. apply Forall_app. split; [done|].
    constructor; [apply digit_at_digit|constructor].
Qed.

Lemma format_digits_ok k fuel m digits count :
  0 <= m < 10 ^ Z.of_nat k -> k <> O -> (k < fuel)%nat -> (count + k <= length digits)%nat ->
  exists digits', while_loop (R := list Z * nat) fuel (fun '(_, _, more) => Done more)
      (fun '(magnitude, (digits, count), _) =>
         digits ← store digits count (c_0 + magnitude mod 10);
         Done (Next (magnitude / 10, (digits, (count + 1)%nat), negb (magnitude / 10 =? 0))))
      (m, (digits, count), true)
    = Done (Next (0, (digits', (count + length (units_first k m))%nat), false))
    /\ take (count + length (units_first k m)) digits' = take count digits ++ units_first k m.
Proof.
  revert fuel m digits count. induction k as [|k IH]; intros fuel m digits count Hm Hk Hf Hl; [done|].
  destruct fuel as [|fuel]; [lia|]. cbn [while_loop units_first]. rewrite store_Done by lia. exec_simpl.
  fold (digit_at m). set (digits1 := <[count:=digit_at m]> digits).
  assert (Ht : take (count + 1) digits1 = take count digits ++ [digit_at m]).
  { subst digits1. rewrite Nat.add_1_r, (take_S_r _ _ (digit_at m)) by (apply list_lookup_insert_eq; lia).
    by rewrite take_insert_ge. }
  destruct (Z.eqb_spec (m / 10) 0) as [E|E]; cbn [negb length].
  - exists digits1. split; [|done]. destruct fuel; [lia|]. cbn [while_loop]. by rewrite E.
  - pose proof (Z.div_pos m 10 ltac:(lia) ltac:(lia)).
    assert (m / 10 < 10 ^ Z.of_nat k).
    { apply Z.div_lt_upper_bound; [lia|]. rewrite <-Z.pow_succ_r, <-Nat2Z.inj_succ by lia. lia. }
    destruct (IH fuel (m / 10) digits1 (count + 1)%nat) as (digits' & -> & Hd); [lia| |lia|subst digits1; rewrite length_insert; lia|].
    { intros ->. change (10 ^ Z.of_nat 0) with 1 in *. lia. }
    exists digits'. rewrite <-Nat.add_assoc in Hd |- *. split; [done|]. cbn [Nat.add] in Hd |- *. rewrite Hd, Ht, <-app_assoc. done.
Qed.

Lemma put_digits_writes digits count : (count <= length digits)%nat ->
  writes max_integer_str_len (put_digits digits count) (Some (rev (take count digits))).
Proof.
  induction count as [|count IH]; intros Hc; [apply writes_done|].
  destruct (lookup_lt_is_Some_2 digits count) as [d Hd]; [lia|]. rewrite (take_S_r _ _ _ Hd), rev_app_distr.
  change (Some (rev [d] ++ rev (take count digits))) with (opt_app (Some [d]) (Some (rev (take count digits)))).
  intros s cs Hs. cbn [put_digits]. rewrite (load_Done _ _ _ Hd). exec_simpl.
  by apply (writes_must max_integer_str_len (put max_integer_str_len d)); [apply writes_put|apply IH; lia|].
Qed.

(** The text of an integer. *)
Definition integer_text (v : Z) : list Z :=
  if v <? 0 then c_minus :: rev (units_first 20 (- v)) else rev (units_first 20 v).

Lemma integer_text_denotes signed bits v : 0 < bits <= 64 -> in_type signed bits v ->
  denotes signed (integer_text v) v /\ number_text (integer_text v) /\ (length (integer_text v) <= 21)%nat.
Proof.
  intros Hb Hv. assert (Hlim : - 2 ^ 63 <= v < 2 ^ 64).
  { assert (2 ^ bits <= 2 ^ 64) by (apply Z.pow_le_mono_r; lia).
    assert (2 ^ (bits - 1) <= 2 ^ 63) by (apply Z.pow_le_mono_r; lia). unfold in_type in Hv. destruct signed; lia. }
  assert (H : forall m, 0 <= m < 2 ^ 64 -> decimal 0 (rev (units_first 20 m)) = m
    /\ integer_part (rev (units_first 20 m)) /\ (length (units_first 20 m) <= 20)%nat).
  { intros m Hm. apply units_first_ok; [|done]. change (10 ^ Z.of_nat 20) with 100000000000000000000. lia. }
  assert (Hsome : forall ds, integer_part ds -> some_digits ds).
  { intros ds [->|(c & r & -> & Hc & Hr)]; (split; [done|]); constructor; [done|constructor| |done]. unfold is_digit. lia. }
  unfold integer_text. destruct (Z.ltb_spec v 0).
  - destruct (H (- v)) as (Hd & Hi & Hl); [lia|]. cbn [length]. rewrite length_rev. split_and!; [| |lia].
    + exists true, (rev (units_first 20 (- v))). split; [done|]. split; [auto|]. rewrite Hd. split; [|lia].
      intros _. unfold in_type in Hv. destruct signed; [done|lia].
    + exists [c_minus], (rev (units_first 20 (- v))), [], []. rewrite !app_nil_r. unfold fraction_part, exponent_part. auto 10.
  - destruct (H v) as (Hd & Hi & Hl); [lia|]. rewrite length_rev. split_and!; [| |lia].
    + exists false, (rev (units_first 20 v)). split; [done|]. split; [auto|]. by rewrite Hd.
    + exists [], (rev (units_first 20 v)), [], []. rewrite !app_nil_r. unfold fraction_part, exponent_part. auto 10.
Qed.

(** [format_integer] writes the decimal notation of every value of the type. *)
Lemma format_integer_ok signed bits v junk out cs :
  0 < bits <= 64 -> in_type signed bits v -> length junk = max_integer_str_len -> holds max_integer_str_len out cs ->
  exists out', format_integer signed bits v junk out = Done (s_ok, out') /\ holds max_integer_str_len out' (integer_text v).
Proof.
  intros Hb Hv Hj Ho. destruct (integer_text_denotes signed bits v Hb Hv) as (_ & _ & Hlen).
  destruct (holds_prefix _ out cs Ho) as [Hdir _]. destruct (string_clear_ok _ out Hdir) as (out0 & E0 & H0).
  unfold format_integer. rewrite E0. exec_simpl. clear E0 Hdir Ho.
  assert (Hlim : 2 ^ bits = 2 * 2 ^ (bits - 1) /\ 2 ^ bits <= 2 ^ 64).
  { split; [rewrite <-Z.pow_succ_r by lia; f_equal; lia|apply Z.pow_le_mono_r; lia]. }
  set (negative := signed && (v <? 0)).
  assert (Em : (if negative then wrap bits (wrap bits (- (v + 1)) + 1) else wrap bits v) = Z.abs v /\ negative = (v <? 0) /\ Z.abs v < 2 ^ 64).
  { subst negative. unfold in_type in Hv. destruct signed; cbn [andb].
    - destruct (Z.ltb_spec v 0); (split; [|lia]); rewrite ?(wrap_small _ (- (v + 1))), wrap_small; unfold in_width; lia.
    - rewrite wrap_small by (unfold in_width; lia). destruct (Z.ltb_spec v 0); lia. }
  destruct Em as (-> & En & Hm). clearbody negative. subst negative.
  destruct (format_digits_ok 20 (S max_integer_str_len) (Z.abs v) junk 0) as (digits & Hd & Ht);
    [change (10 ^ Z.of_nat 20) with 100000000000000000000; lia|done|unfold max_integer_str_len; lia|rewrite Hj; unfold max_integer_str_len; lia|].
  unfold format_digits. rewrite Hd. clear Hd. cbn [after Nat.add] in *. exec_simpl.
  set (count := length (units_first 20 (Z.abs v))) in *. change (take 0 junk ++ units_first 20 (Z.abs v)) with (units_first 20 (Z.abs v)) in Ht.
  pose proof (put_digits_writes digits count) as Hw. rewrite Ht in Hw.
  assert (Hcl : (count <= length digits)%nat).
  { pose proof (f_equal length Ht) as Hx. rewrite length_take in Hx. fold count in Hx. lia. }
  specialize (Hw Hcl).
  assert (Hfit : (length (@nil Z) + length (integer_text v) <= max_integer_str_len)%nat) by (unfold max_integer_str_len; cbn [length]; lia).
  unfold integer_text in *. destruct (Z.ltb_spec v 0).
  - rewrite Z.abs_neq in * by lia.
    specialize (writes_must max_integer_str_len (put max_integer_str_len c_minus) _ _ _ (writes_put max_integer_str_len c_minus) Hw out0 [] H0) as Hx.
    cbn [opt_app app] in Hx. by rewrite decide_True in Hx by done.
  - rewrite Z.abs_eq in * by lia. specialize (Hw out0 [] H0). cbn [app] in Hw. by rewrite decide_True in Hw by done.
Qed.

(** Integers of every width survive the text: [format_integer] writes every value
    of the type as a number of the JSON grammar, within its buffer of 32 characters, and
    [parse_integer] reads that text back as the value.  On any text, [parse_integer]
    stores a value exactly when the text is the decimal notation of one of the type
    (overflow included), reports [out_of_range] on the others, and leaves the output
    alone on every error. *)
Theorem json_integer_roundtrip signed bits v junk out cs text output :
  0 < bits <= 64 -> in_type signed bits v -> length junk = max_integer_str_len -> holds max_integer_str_len out cs ->
  (exists out' t, format_integer signed bits v junk out = Done (s_ok, out') /\ holds max_integer_str_len out' t
     /\ valid_number t = Done true /\ parse_integer signed bits t output = Done (s_ok, v))
  /\ exists s x, parse_integer signed bits text output = Done (s, x) /\ reads signed bits text output s x.
Proof.
  intros Hb Hv Hj Ho. split; [|by apply parse_integer_exact].
  destruct (format_integer_ok signed bits v junk out cs Hb Hv Hj Ho) as (out' & -> & Ho').
  destruct (integer_text_denotes signed bits v Hb Hv) as (Hden & Hnum & _). exists out', (integer_text v). split; [done|]. split; [done|].
  destruct (valid_number_exact (integer_text v)) as (b & -> & Hbn). split; [f_equal; by apply Hbn|].
  destruct (parse_integer_exact signed bits Hb (integer_text v) output) as (s & x & -> & Hr & _).
  specialize (Hr v Hden). rewrite decide_True in Hr by done. by destruct Hr as [-> ->].
Qed.

Lemma json_integer_roundtrip_witness :
  exists out' t, format_integer true 8 (-128) (replicate max_integer_str_len 0) (mk_string (replicate 33 0) 0) = Done (s_ok, out')
     /\ holds max_integer_str_len out' t /\ valid_number t = Done true /\ parse_integer true 8 t 5 = Done (s_ok, -128).
Proof.
  refine (proj1 (json_integer_roundtrip true 8 (-128) _ _ [] [c_minus; 49; 50; 57] 5 _ _ _ _)).
  - done.
  - unfold in_type. cbn. lia.
  - reflexivity.
  - split; [reflexivity|]. split; [cbn; lia|]. split; [reflexivity|]. by exists (replicate 32 0).
Defined.
