(* ===== verification/JsonDoc.v ===== *)
(** * The JSON document (castle_ext/serialization/json.hpp, [document])

    A document is an array of nodes linked by ids (parent, first and last child, next
    sibling) and a store of the characters of keys and scalars.  Its abstract state is
    the list of its entries: kind, parent, key and text of every node, in the order of
    the ids.  The links are a function of the parents. *)

From S2P Require Import Prelude Status Bytes Words StringBuf JsonText JsonInteger.
Open Scope nat_scope.

Inductive kind_t : Type := k_null | k_boolean | k_number | k_string | k_array | k_object.
#[export] Instance kind_t_eq_dec : EqDecision kind_t.
Proof. solve_decision. Defined.

(** A [node_id]; [None] is [npos]. *)
Definition node_id : Type := option nat.
Definition npos : node_id := None.

Record node : Type := mk_node {
  n_kind : kind_t; n_parent : node_id; n_first_child : node_id; n_last_child : node_id; n_next_sibling : node_id;
  n_key_offset : nat; n_key_size : nat; n_value_offset : nat; n_value_size : nat }.

Record document : Type := mk_document { nodes_ : list node; node_count_ : nat; storage_ : list Z; used_ : nat }.

Definition node0 : node := mk_node k_null npos npos npos npos 0 0 0 0.

Definition with_first_child (n : node) (i : nat) : node :=
  mk_node (n_kind n) (n_parent n) (Some i) (n_last_child n) (n_next_sibling n) (n_key_offset n) (n_key_size n) (n_value_offset n) (n_value_size n).
Definition with_last_child (n : node) (i : nat) : node :=
  mk_node (n_kind n) (n_parent n) (n_first_child n) (Some i) (n_next_sibling n) (n_key_offset n) (n_key_size n) (n_value_offset n) (n_value_size n).
Definition with_next_sibling (n : node) (i : nat) : node :=
  mk_node (n_kind n) (n_parent n) (n_first_child n) (n_last_child n) (Some i) (n_key_offset n) (n_key_size n) (n_value_offset n) (n_value_size n).

(** [document() = default]: no nodes, and storage of zeros. *)
Definition new_document (MaxNodes MaxStringBytes : nat) : document :=
  mk_document (replicate MaxNodes node0) 0 (replicate MaxStringBytes 0%Z) 0.

Definition true_text : list Z := [116; 114; 117; 101]%Z.
Definition false_text : list Z := [102; 97; 108; 115; 101]%Z.
Definition null_text : list Z := [110; 117; 108; 108]%Z.

Section Document.
Context (MaxNodes MaxStringBytes : nat).
Implicit Types d : document.

Definition clear d : document := mk_document (nodes_ d) 0 (storage_ d) 0.
Definition size d : nat := node_count_ d.
Definition capacity : nat := MaxNodes.
Definition bytes_used d : nat := used_ d.
Definition bytes_capacity : nat := MaxStringBytes.
Definition empty d : bool := node_count_ d =? 0.
Definition full d : bool := node_count_ d =? MaxNodes.
Definition root d : node_id := if node_count_ d =? 0 then npos else Some 0.

Definition valid d (id : node_id) : bool :=
  match id with None => false | Some i => i <? node_count_ d end.

(** [valid(id) ? nodes_[id].f : otherwise]. *)
Definition node_field {A} d (id : node_id) (f : node -> A) (otherwise : A) : exec A :=
  match id with
  | Some i => if i <? node_count_ d then n ← load (nodes_ d) i; Done (f n) else Done otherwise
  | None => Done otherwise
  end.
Definition kind d id : exec kind_t := node_field d id n_kind k_null.
Definition parent d id : exec node_id := node_field d id n_parent npos.
Definition first_child d id : exec node_id := node_field d id n_first_child npos.
Definition next_sibling d id : exec node_id := node_field d id n_next_sibling npos.

(** The characters a view of the store spells; a view past the store has none. *)
Definition view d (offset length : nat) : exec (list Z) :=
  if length =? 0 then Done []
  else if offset + length <=? List.length (storage_ d) then Done (take length (drop offset (storage_ d))) else Undefined.

(** [nodes_[id]], which [key] and [scalar] read without looking at the id. *)
Definition node_at d (id : node_id) : exec node := match id with Some i => load (nodes_ d) i | None => Undefined end.
Definition key d id : exec (list Z) := n ← node_at d id; view d (n_key_offset n) (n_key_size n).
Definition scalar d id : exec (list Z) := n ← node_at d id; view d (n_value_offset n) (n_value_size n).
Definition string d id : exec (list Z) := k ← kind d id; if bool_decide (k = k_string) then scalar d id else Done [].

(** [detail::equal] on views. *)
Definition equal (a b : list Z) : exec bool :=
  if negb (List.length a =? List.length b) then Done false
  else
    after (for_range 0 (List.length a) (fun i (_ : unit) =>
             x ← load a i; y ← load b i; if negb (x =? y)%Z then Done (Return false) else Done (Next tt)) tt)
      (fun _ => Done true).

Definition find d (object : node_id) (name : list Z) : exec node_id :=
  if negb (valid d object) then Done npos
  else
    k ← kind d object;
    if negb (bool_decide (k = k_object)) then Done npos
    else
      child ← first_child d object;
      after (while_loop (S (node_count_ d)) (fun child => Done (bool_decide (child <> npos)))
               (fun child =>
                  k ← key d child;
                  same ← equal k name;
                  if same : bool then Done (Return child)
                  else child ← next_sibling d child; Done (Next child)) child)
        (fun _ => Done npos).

Definition at_ d (array : node_id) (index : nat) : exec node_id :=
  if negb (valid d array) then Done npos
  else
    k ← kind d array;
    if negb (bool_decide (k = k_array)) then Done npos
    else
      child ← first_child d array;
      after (while_loop (S (node_count_ d)) (fun '(child, _) => Done (bool_decide (child <> npos)))
               (fun '(child, i) =>
                  if i =? index then Done (Return child)
                  else child ← next_sibling d child; Done (Next (child, i + 1))) (child, 0))
        (fun _ => Done npos).

(** [store]: the status, the offset and size it sets, and the document. *)
Definition store d (value : list Z) (offset length : nat) : exec (status * nat * nat * document) :=
  if MaxStringBytes - used_ d <? List.length value then Done (s_full, offset, length, d)
  else
    after (for_range 0 (List.length value) (fun i storage =>
             c ← load value i; storage ← Prelude.store storage (used_ d + i) c; Done (Next storage)) (storage_ d))
      (fun storage => Done (s_ok, used_ d, List.length value,
                            mk_document (nodes_ d) (node_count_ d) storage (used_ d + List.length value))).

Definition set_node d (i : nat) (f : node -> node) : exec document :=
  n ← load (nodes_ d) i;
  nodes ← Prelude.store (nodes_ d) i (f n);
  Done (mk_document nodes (node_count_ d) (storage_ d) (used_ d)).

(** Linking a new node behind the children of its parent. *)
Definition link_child d (parent_id out : nat) : exec document :=
  p ← load (nodes_ d) parent_id;
  d ← match n_first_child p with
      | None => set_node d parent_id (fun n => with_first_child n out)
      | Some _ => p ← load (nodes_ d) parent_id;
                  match n_last_child p with
                  | Some l => set_node d l (fun n => with_next_sibling n out)
                  | None => Undefined
                  end
      end;
  set_node d parent_id (fun n => with_last_child n out).

(** The second half of [add_node], behind its guards: the texts, the node and its links. *)
Definition place_node d (out : node_id) (value_type : kind_t) (parent_id : node_id) (key_name value : list Z)
    : exec (status * node_id * document) :=
  if node_count_ d =? MaxNodes then Done (s_full, out, d)
  else
    '(s, key_offset, key_size, d) ← store d key_name 0 0;
    if negb (succeeded s) then Done (s, out, d)
    else
      '(s, value_offset, value_size, d) ← store d value 0 0;
      if negb (succeeded s) then
        Done (s, out, mk_document (nodes_ d) (node_count_ d) (storage_ d) (used_ d - key_size))
      else
        let new := node_count_ d in
        let candidate := mk_node value_type parent_id npos npos npos key_offset key_size value_offset value_size in
        nodes ← Prelude.store (nodes_ d) new candidate;
        let d := mk_document nodes (new + 1) (storage_ d) (used_ d) in
        match parent_id with
        | Some p => d ← link_child d p new; Done (s_ok, Some new, d)
        | None => Done (s_ok, Some new, d)
        end.

(** [add_node]: the status, the id in [out] and the document. *)
Definition add_node d (out : node_id) (value_type : kind_t) (parent_id : node_id) (key_name value : list Z)
    : exec (status * node_id * document) :=
  if bool_decide (parent_id <> npos) && negb (valid d parent_id) then Done (s_invalid_argument, out, d)
  else
    let value := if bool_decide (value_type = k_object) || bool_decide (value_type = k_array) then [] else value in
    if bool_decide (parent_id = npos) && negb (node_count_ d =? 0) then Done (s_already_exists, out, d)
    else
      pk ← kind d parent_id;
      if bool_decide (parent_id <> npos) && bool_decide (pk = k_object) && (List.length key_name =? 0)
      then Done (s_invalid_argument, out, d)
      else if bool_decide (parent_id <> npos) && bool_decide (pk = k_array) && negb (List.length key_name =? 0)
      then Done (s_invalid_argument, out, d)
      else place_node d out value_type parent_id key_name value.

Definition set_null d out parent_id key_name := add_node d out k_null parent_id key_name [].
Definition set_bool d out (value : bool) parent_id key_name :=
  add_node d out k_boolean parent_id key_name (if value then true_text else false_text).
Definition set_string d out value parent_id key_name := add_node d out k_string parent_id key_name value.
Definition set_number d out value parent_id key_name : exec (status * node_id * document) :=
  v ← valid_number value;
  if negb v then Done (s_invalid_argument, out, d) else add_node d out k_number parent_id key_name value.
Definition make_object d out parent_id key_name := add_node d out k_object parent_id key_name [].
Definition make_array d out parent_id key_name := add_node d out k_array parent_id key_name [].

(** [set_integer<T>]; [junk] and [digits] are what the memory of its string and of the
    buffer of digits holds before. *)
Definition set_integer d out (signed : bool) (bits value : Z) parent_id key_name (junk digits : list Z)
    : exec (status * node_id * document) :=
  encoded ← string_new junk;
  '(s, encoded) ← format_integer signed bits value digits encoded;
  if negb (succeeded s) then Done (s, out, d)
  else set_number d out (take (StringBuf.size_ encoded) (StringBuf.data_ encoded)) parent_id key_name.

Definition append d (parent_id out : node_id) (value_type : kind_t) (value key_name : list Z) : exec (status * node_id * document) :=
  pk ← kind d parent_id;
  if negb (valid d parent_id) || (negb (bool_decide (pk = k_array)) && negb (bool_decide (pk = k_object)))
  then Done (s_invalid_argument, out, d)
  else if bool_decide (pk = k_object) && (List.length key_name =? 0) then Done (s_invalid_argument, out, d)
  else add_node d out value_type parent_id key_name value.

Definition get_integer d id (signed : bool) (bits output : Z) : exec (status * Z) :=
  k ← kind d id;
  if negb (valid d id) || negb (bool_decide (k = k_number)) then Done (s_invalid_argument, output)
  else text ← scalar d id; parse_integer signed bits text output.
Definition get_bool d id (output : bool) : exec (status * bool) :=
  k ← kind d id;
  if negb (valid d id) || negb (bool_decide (k = k_boolean)) then Done (s_invalid_argument, output)
  else text ← scalar d id; same ← equal text true_text; Done (s_ok, same).
Definition get_string d id : exec (status * list Z) :=
  k ← kind d id;
  if negb (valid d id) || negb (bool_decide (k = k_string)) then Done (s_invalid_argument, [])
  else text ← scalar d id; Done (s_ok, text).
End Document.

(** ** The abstract document *)

Record entry : Type := mk_entry { e_kind : kind_t; e_parent : node_id; e_key : list Z; e_value : list Z }.

Implicit Types es : list entry.

(** The ids, from [b] on, of the entries whose parent is [p]. *)
Fixpoint with_parent (p : node_id) (b : nat) es : list nat :=
  match es with
  | [] => []
  | e :: es => (if decide (e_parent e = p) then [b] else []) ++ with_parent p (S b) es
  end.
Definition children es (i : nat) : list nat := with_parent (Some i) 0 es.
(** The next entry with the parent of entry [i]. *)
Definition next_of es (i : nat) : node_id :=
  match es !! i with Some e => head (with_parent (e_parent e) (S i) (drop (S i) es)) | None => None end.

Definition bytes_of es : nat := sum_list_with (fun e => length (e_key e) + length (e_value e)) es.

(** A parent is an earlier entry; only the first has none. *)
Definition parents_ok es : Prop :=
  forall i e, es !! i = Some e -> match e_parent e with Some p => p < i | None => i = 0 end.

(** [len] characters at [off] of the used store spell [text]. *)
Definition spelled (d : document) (off len : nat) (text : list Z) : Prop :=
  len = length text /\ off + len <= used_ d /\ take len (drop off (storage_ d)) = text.

Definition node_ok (d : document) es (i : nat) (e : entry) (n : node) : Prop :=
  n_kind n = e_kind e /\ n_parent n = e_parent e
  /\ n_first_child n = head (children es i) /\ n_last_child n = last (children es i) /\ n_next_sibling n = next_of es i
  /\ spelled d (n_key_offset n) (n_key_size n) (e_key e) /\ spelled d (n_value_offset n) (n_value_size n) (e_value e).

Record represents (MaxNodes MaxStringBytes : nat) (d : document) es : Prop := {
  rep_nodes : length (nodes_ d) = MaxNodes;
  rep_storage : length (storage_ d) = MaxStringBytes;
  rep_count : node_count_ d = length es;
  rep_fits : length es <= MaxNodes;
  rep_used : used_ d = bytes_of es;
  rep_bytes : bytes_of es <= MaxStringBytes;
  rep_parents : parents_ok es;
  rep_node : forall i e, es !! i = Some e -> exists n, nodes_ d !! i = Some n /\ node_ok d es i e n }.

(** *** Children of a list that grows *)

Lemma with_parent_app p b es es' : with_parent p b (es ++ es') = with_parent p b es ++ with_parent p (b + length es) es'.
Proof.
  revert b. induction es as [|e es IH]; intros b; cbn [app with_parent length]; [by rewrite Nat.add_0_r|].
  by rewrite IH, app_assoc, Nat.add_succ_r.
Qed.

Lemma with_parent_bounds p b es i : i ∈ with_parent p b es -> b <= i < b + length es.
Proof.
  revert b. induction es as [|e es IH]; intros b; cbn [with_parent length]; [by rewrite elem_of_nil|].
  rewrite elem_of_app. intros [H|H%IH]; [|lia]. case_decide; [|by rewrite elem_of_nil in H].
  apply list_elem_of_singleton in H. lia.
Qed.

Lemma children_snoc es e i :
  children (es ++ [e]) i = children es i ++ if decide (e_parent e = Some i) then [length es] else [].
Proof. unfold children. rewrite with_parent_app. cbn [with_parent Nat.add]. by rewrite app_nil_r. Qed.

Lemma children_at es e p i : es !! i = Some e -> e_parent e = Some p ->
  exists pre, children es p = pre ++ i :: with_parent (Some p) (S i) (drop (S i) es).
Proof.
  intros He Hp. exists (with_parent (Some p) 0 (take i es)). unfold children.
  rewrite <-(take_drop_middle es i e He) at 1. rewrite with_parent_app, length_take_le by (apply lookup_lt_Some in He; lia).
  cbn [with_parent]. by rewrite decide_True.
Qed.

Lemma next_of_snoc es e i x : es !! i = Some x ->
  next_of (es ++ [e]) i = match next_of es i with
                          | Some j => Some j
                          | None => if decide (e_parent e = e_parent x) then Some (length es) else None
                          end.
Proof.
  intros Hx. pose proof (lookup_lt_Some _ _ _ Hx). unfold next_of. rewrite lookup_app_l, Hx by done.
  rewrite drop_app_le by lia. rewrite with_parent_app, length_drop. replace (S i + (length es - S i)) with (length es) by lia.
  destruct (with_parent (e_parent x) (S i) (drop (S i) es)) as [|j l]; cbn [app head with_parent]; [|done]. by case_decide.
Qed.

(** The last child of a parent is the child with no next sibling. *)
Lemma last_child_iff es i x p : es !! i = Some x -> e_parent x = Some p -> last (children es p) = Some i <-> next_of es i = None.
Proof.
  intros Hx Hp. destruct (children_at es x p i Hx Hp) as [pre ->]. unfold next_of. rewrite Hx, Hp.
  destruct (with_parent (Some p) (S i) (drop (S i) es)) as [|j l] eqn:E; cbn [head].
  - by rewrite last_snoc.
  - split; [|done]. intros Hl. exfalso. rewrite last_app_cons, last_cons_cons in Hl. apply last_Some_elem_of in Hl. rewrite <-E in Hl.
    apply with_parent_bounds in Hl. lia.
Qed.

(** *** Adding an entry *)

Section Refinement.
Context (MaxNodes MaxStringBytes : nat).
Abbreviation represents := (represents MaxNodes MaxStringBytes).
Implicit Types d : document.

Lemma store_ok d value o l : used_ d <= MaxStringBytes -> length (storage_ d) = MaxStringBytes ->
  store MaxStringBytes d value o l =
    if decide (used_ d + length value <= MaxStringBytes)
    then Done (s_ok, used_ d, length value,
               mk_document (nodes_ d) (node_count_ d) (wrote (storage_ d) (used_ d) value) (used_ d + length value))
    else Done (s_full, o, l, d).
Proof.
  intros Hu Hs. unfold store. case_decide; [rewrite (proj2 (Nat.ltb_ge _ _)) by lia|by rewrite (proj2 (Nat.ltb_lt _ _)) by lia].
  match goal with |- context [for_range _ _ ?b _] => set (body := b) end.
  destruct (for_range_inv (R := status * nat * nat * document)
              (fun i st => st = wrote (storage_ d) (used_ d) (take i value)) body 0 (length value) (storage_ d)) as (st & -> & ->).
  - rewrite take_0. symmetry. apply wrote_nil.
  - intros i st Hi ->. unfold body. destruct (lookup_lt_is_Some_2 value i) as [v Hv]; [lia|].
    rewrite (load_Done _ _ _ Hv), bind_Done, store_wrote by (rewrite ?length_take; lia). eexists. split; [done|].
    by rewrite (take_S_r _ _ _ Hv).
  - cbn [after Nat.add]. by rewrite take_ge.
Qed.

Lemma spelled_ext d d' off len text : spelled d off len text -> used_ d <= used_ d' ->
  take (used_ d) (storage_ d') = take (used_ d) (storage_ d) -> spelled d' off len text.
Proof.
  intros (-> & Hb & Ht) Hu Hs. split; [done|]. split; [lia|].
  assert (H : forall st : list Z, take (length text) (drop off st) = take (length text) (drop off (take (used_ d) st))).
  { intros st. rewrite skipn_firstn_comm, take_take. f_equal. lia. }
  by rewrite H, Hs, <-H.
Qed.

Lemma take_wrote_below {A} (m bs : list A) o k : k <= o -> o <= length m -> take k (wrote m o bs) = take k m.
Proof. intros Hk Ho. unfold wrote. rewrite take_app_le by (rewrite length_take; lia). rewrite take_take. f_equal. lia. Qed.

(** The change [link_child] makes to the node with id [i]. *)
Definition linked es (p new i : nat) (n : node) : node :=
  if decide (i = p) then with_last_child (if children es p is [] then with_first_child n new else n) new
  else if decide (last (children es p) = Some i) then with_next_sibling n new else n.

Lemma set_node_ok d i f n : nodes_ d !! i = Some n ->
  set_node d i f = Done (mk_document (<[i := f n]> (nodes_ d)) (node_count_ d) (storage_ d) (used_ d)).
Proof. intros Hn. unfold set_node. rewrite (load_Done _ _ _ Hn), bind_Done, store_Done by (by eapply lookup_lt_Some). done. Qed.

Lemma link_child_ok d es p n : nodes_ d !! p = Some n ->
  n_first_child n = head (children es p) -> n_last_child n = last (children es p) ->
  (forall l, last (children es p) = Some l -> l <> p /\ is_Some (nodes_ d !! l)) ->
  exists d', link_child d p (length es) = Done d' /\ node_count_ d' = node_count_ d /\ storage_ d' = storage_ d
    /\ used_ d' = used_ d /\ length (nodes_ d') = length (nodes_ d)
    /\ forall i, nodes_ d' !! i = linked es p (length es) i <$> nodes_ d !! i.
Proof.
  intros Hn Hf Hl Hlast. unfold link_child, linked. rewrite (load_Done _ _ _ Hn), bind_Done, Hf.
  destruct (children es p) as [|c cs] eqn:Ec; cbn [head].
  - rewrite (set_node_ok _ _ _ _ Hn), bind_Done.
    assert (Hp : p < length (nodes_ d)) by (by eapply lookup_lt_Some).
    erewrite (set_node_ok _ p) by (cbn [nodes_]; by apply list_lookup_insert_eq).
    eexists. split; [done|]. cbn [nodes_ node_count_ storage_ used_]. rewrite !length_insert. split_and!; [done..|].
    intros i. rewrite list_insert_insert_eq. destruct (decide (i = p)) as [->|Hi].
    + by rewrite list_lookup_insert_eq, Hn.
    + rewrite list_lookup_insert_ne by done. by destruct (nodes_ d !! i).
  - rewrite ?bind_Done, Hl.
    destruct (last (c :: cs)) as [l|] eqn:El; [|by apply last_None in El].
    destruct (Hlast l eq_refl) as [Hlp [m Hm]]. rewrite (set_node_ok _ _ _ _ Hm), bind_Done.
    rewrite (set_node_ok _ p _ n) by (cbn [nodes_]; by rewrite list_lookup_insert_ne).
    eexists. split; [done|]. cbn [nodes_ node_count_ storage_ used_]. rewrite !length_insert. split_and!; [done..|].
    assert (Hp : p < length (nodes_ d)) by (by eapply lookup_lt_Some).
    assert (Hll : l < length (nodes_ d)) by (by eapply lookup_lt_Some).
    intros i. destruct (decide (i = p)) as [->|Hi].
    + rewrite list_lookup_insert_eq by (rewrite length_insert; done). by rewrite Hn.
    + rewrite list_lookup_insert_ne by done. destruct (decide (i = l)) as [->|Hil].
      * rewrite list_lookup_insert_eq, Hm by done. cbn. by rewrite decide_True.
      * rewrite list_lookup_insert_ne by done. destruct (nodes_ d !! i); [|done]. cbn. by rewrite decide_False by congruence.
Qed.

(** What [add_node] answers, from the abstract state; [Some e] is the entry it adds. *)
Definition add_spec es (k : kind_t) (parent : node_id) (key value : list Z) : status + entry :=
  let value := if bool_decide (k = k_object) || bool_decide (k = k_array) then [] else value in
  let e := mk_entry k parent key value in
  let room := if length es =? MaxNodes then inl s_full
              else if decide (bytes_of es + length key + length value <= MaxStringBytes) then inr e else inl s_full in
  match parent with
  | None => if length es =? 0 then room else inl s_already_exists
  | Some p =>
      match es !! p with
      | None => inl s_invalid_argument
      | Some x => if bool_decide (e_kind x = k_object) && (length key =? 0) then inl s_invalid_argument
                  else if bool_decide (e_kind x = k_array) && negb (length key =? 0) then inl s_invalid_argument else room
      end
  end.

Lemma node_field_ok {A} d es i e (f : node -> A) (g : entry -> A) other :
  represents d es -> es !! i = Some e -> (forall n, node_ok d es i e n -> f n = g e) -> node_field d (Some i) f other = Done (g e).
Proof.
  intros Hr He Hf. destruct (rep_node _ _ _ _ Hr i e He) as (n & Hn & Hok). unfold node_field.
  rewrite (rep_count _ _ _ _ Hr), (proj2 (Nat.ltb_lt _ _)) by (by eapply lookup_lt_Some).
  rewrite (load_Done _ _ _ Hn), bind_Done. f_equal. by apply Hf.
Qed.

Lemma kind_ok d es i e : represents d es -> es !! i = Some e -> kind d (Some i) = Done (e_kind e).
Proof. intros Hr He. eapply (node_field_ok _ _ _ _ _ e_kind); [done|done|]. by intros n (-> & _). Qed.

Lemma bytes_of_snoc es e : bytes_of (es ++ [e]) = bytes_of es + length (e_key e) + length (e_value e).
Proof. unfold bytes_of. rewrite sum_list_with_app. cbn. lia. Qed.

Lemma no_children es n : parents_ok es -> length es <= n -> children es n = [].
Proof.
  intros Hp Hn. unfold children. assert (H : forall b, (forall i e, es !! i = Some e -> e_parent e <> Some n) -> with_parent (Some n) b es = []).
  { clear. intros b. revert b. induction es as [|e es IH]; intros b H; [done|]. cbn [with_parent].
    rewrite decide_False by (apply (H 0 e); done). cbn. apply IH. intros i x Hx. by apply (H (S i) x). }
  apply H. intros i e He Hx. specialize (Hp i e He). rewrite Hx in Hp. apply lookup_lt_Some in He. lia.
Qed.

Lemma child_bounds es p i : i ∈ children es p -> i < length es.
Proof. intros H%with_parent_bounds. lia. Qed.

Lemma with_parent_elem p b es i : i ∈ with_parent p b es -> exists e, es !! (i - b) = Some e /\ e_parent e = p.
Proof.
  revert b. induction es as [|e es IH]; intros b; cbn [with_parent]; [by rewrite elem_of_nil|]. rewrite elem_of_app. intros [H|H].
  - case_decide; [|by rewrite elem_of_nil in H]. apply list_elem_of_singleton in H as ->. exists e. by rewrite Nat.sub_diag.
  - pose proof (with_parent_bounds _ _ _ _ H) as Hb. destruct (IH _ H) as (x & Hx & Hp). exists x. split; [|done].
    by replace (i - b) with (S (i - S b)) by lia.
Qed.

Lemma child_elem es p i : i ∈ children es p -> exists e, es !! i = Some e /\ e_parent e = Some p.
Proof. intros (e & He & Hp)%with_parent_elem. exists e. by rewrite Nat.sub_0_r in He. Qed.

(** A link change leaves the rest of the node. *)
Lemma linked_fields es p new i n :
  let n' := linked es p new i n in
  n_kind n' = n_kind n /\ n_parent n' = n_parent n /\ n_key_offset n' = n_key_offset n /\ n_key_size n' = n_key_size n
  /\ n_value_offset n' = n_value_offset n /\ n_value_size n' = n_value_size n
  /\ n_first_child n' = (if decide (i = p) then (if children es p is [] then Some new else n_first_child n) else n_first_child n)
  /\ n_last_child n' = (if decide (i = p) then Some new else n_last_child n)
  /\ n_next_sibling n' = (if decide (i = p) then n_next_sibling n
                          else if decide (last (children es p) = Some i) then Some new else n_next_sibling n).
Proof. unfold linked. repeat case_decide; destruct (children es p); done. Qed.

Definition relink es (e : entry) (i : nat) (n : node) : node :=
  match e_parent e with Some p => linked es p (length es) i n | None => n end.

(** The links of an older node, after one more entry. *)
Lemma relink_old d d' es e i x n : parents_ok es -> es !! i = Some x -> node_ok d es i x n ->
  match e_parent e with Some p => p < length es | None => es = [] end ->
  used_ d <= used_ d' -> take (used_ d) (storage_ d') = take (used_ d) (storage_ d) ->
  node_ok d' (es ++ [e]) i x (relink es e i n).
Proof.
  intros Hpar Hx (Hk & Hp & Hf & Hl & Hs & Hkey & Hval) Hpe Hu Ht.
  destruct (e_parent e) as [p|] eqn:Ee; [|by subst es].
  unfold relink, node_ok. rewrite Ee. destruct (linked_fields es p (length es) i n) as (-> & -> & -> & -> & -> & -> & -> & -> & ->).
  split_and!; [done|done| | | |by eapply spelled_ext|by eapply spelled_ext].
  - rewrite children_snoc, Ee, Hf. destruct (decide (i = p)) as [->|Hne].
    + rewrite decide_True by done. by destruct (children es p).
    + rewrite decide_False by congruence. by rewrite app_nil_r.
  - rewrite children_snoc, Ee, Hl. destruct (decide (i = p)) as [->|Hne].
    + rewrite decide_True by done. by rewrite last_snoc.
    + rewrite decide_False by congruence. by rewrite app_nil_r.
  - rewrite (next_of_snoc _ _ _ _ Hx), Ee, Hs. specialize (Hpar i x Hx). destruct (decide (i = p)) as [->|Hne].
    + destruct (next_of es p); [done|]. rewrite decide_False; [done|]. intros E. rewrite <-E in Hpar. lia.
    + destruct (decide (Some p = e_parent x)) as [E|E].
      * pose proof (last_child_iff es i x p Hx (eq_sym E)) as Hlast. destruct (next_of es i) as [j|] eqn:En.
        -- rewrite decide_False; [done|]. intros Hc%Hlast. done.
        -- rewrite decide_True; [|by apply Hlast]. by rewrite decide_True.
      * rewrite decide_False; [by destruct (next_of es i); rewrite ?decide_False|]. intros Hc. apply last_Some_elem_of in Hc.
        destruct (child_elem es p i Hc) as (y & Hy & Hyp). congruence.
Qed.

Lemma represents_add d d' es e cand :
  represents d es -> length es < MaxNodes -> bytes_of (es ++ [e]) <= MaxStringBytes ->
  match e_parent e with Some p => p < length es | None => es = [] end ->
  length (nodes_ d') = MaxNodes -> length (storage_ d') = MaxStringBytes -> node_count_ d' = S (length es) ->
  used_ d' = bytes_of (es ++ [e]) -> take (used_ d) (storage_ d') = take (used_ d) (storage_ d) ->
  (forall i, nodes_ d' !! i = relink es e i <$> <[length es := cand]> (nodes_ d) !! i) ->
  n_kind cand = e_kind e -> n_parent cand = e_parent e -> n_first_child cand = None -> n_last_child cand = None -> n_next_sibling cand = None ->
  spelled d' (n_key_offset cand) (n_key_size cand) (e_key e) -> spelled d' (n_value_offset cand) (n_value_size cand) (e_value e) ->
  represents d' (es ++ [e]).
Proof.
  intros Hr Hfit Hby Hpe Hln Hls Hcnt Hu Ht Hlook Ck Cp Cf Cl Cn Ckey Cval.
  pose proof (rep_parents _ _ _ _ Hr) as Hpar. pose proof (rep_used _ _ _ _ Hr) as Hu0.
  assert (Hpar' : parents_ok (es ++ [e])).
  { intros i x [Hx|[Hi Hx]]%lookup_app_Some; [by apply Hpar|]. apply list_lookup_singleton_Some in Hx as [Hi0 <-].
    destruct (e_parent e); [lia|]. subst es. cbn in *. lia. }
  split; [done|done|rewrite Hcnt, length_app; cbn; lia|rewrite length_app; cbn; lia|done|done|done|].
  intros i x Hx. rewrite Hlook. apply lookup_app_Some in Hx as [Hx|[Hi Hx]].
  - destruct (rep_node _ _ _ _ Hr i x Hx) as (n & Hn & Hok). pose proof (lookup_lt_Some _ _ _ Hx).
    rewrite list_lookup_insert_ne, Hn by lia. eexists. split; [done|]. eapply relink_old; try done.
    rewrite Hu, Hu0, bytes_of_snoc. lia.
  - apply list_lookup_singleton_Some in Hx as [Hi0 <-]. assert (i = length es) as -> by lia.
    rewrite list_lookup_insert_eq by (rewrite (rep_nodes _ _ _ _ Hr); lia). eexists. split; [done|].
    assert (relink es e (length es) cand = cand) as ->.
    { unfold relink, linked. destruct (e_parent e) as [p|]; [|done]. rewrite decide_False by lia. rewrite decide_False; [done|].
      intros Hc%last_Some_elem_of%child_bounds. lia. }
    assert (Hno : children (es ++ [e]) (length es) = []).
    { rewrite children_snoc, no_children by done. rewrite decide_False; [done|]. intros E. rewrite E in Hpe. lia. }
    unfold node_ok. rewrite Hno. split_and!; try done. unfold next_of. rewrite list_lookup_middle by done.
    rewrite drop_ge by (rewrite length_app; cbn; lia). done.
Qed.

(** Placing a node: refused for lack of room, or one more entry. *)
Lemma place_node_ok d es out k parent key v : represents d es ->
  match parent with Some p => p < length es | None => es = [] end ->
  if (length es =? MaxNodes) || negb (bool_decide (bytes_of es + length key + length v <= MaxStringBytes))
  then exists d', place_node MaxNodes MaxStringBytes d out k parent key v = Done (s_full, out, d') /\ represents d' es
  else exists d', place_node MaxNodes MaxStringBytes d out k parent key v = Done (s_ok, Some (length es), d')
         /\ represents d' (es ++ [mk_entry k parent key v]).
Proof.
  intros Hr Hp. pose proof (rep_count _ _ _ _ Hr) as Hc. pose proof (rep_used _ _ _ _ Hr) as Hu.
  pose proof (rep_bytes _ _ _ _ Hr) as Hb. pose proof (rep_storage _ _ _ _ Hr) as Hs. pose proof (rep_fits _ _ _ _ Hr) as Hfit.
  unfold place_node. rewrite Hc. destruct (Nat.eqb_spec (length es) MaxNodes); cbn [orb]; [by exists d|].
  rewrite store_ok by lia. destruct (decide (used_ d + length key <= MaxStringBytes)) as [Hk|Hk].
  2:{ exec_simpl. rewrite bool_decide_eq_false_2 by lia. by exists d. }
  exec_simpl. change (succeeded s_ok) with true. cbn [negb].
  rewrite store_ok; cbn [used_ storage_ nodes_ node_count_]; [|lia|rewrite length_wrote; lia].
  destruct (decide (used_ d + length key + length v <= MaxStringBytes)) as [Hv|Hv].
  2:{ exec_simpl. rewrite bool_decide_eq_false_2 by lia. cbn [negb]. eexists. split; [done|].
      split; cbn [used_ storage_ nodes_ node_count_]; rewrite ?Nat.add_sub; try apply Hr; [rewrite length_wrote; lia|].
      intros i e He. destruct (rep_node _ _ _ _ Hr i e He) as (nd & Hn & Hok). exists nd. split; [done|].
      destruct Hok as (? & ? & ? & ? & ? & ? & ?). split_and!; try done; (eapply spelled_ext; [done|cbn; lia|]); cbn; apply take_wrote_below; lia. }
  exec_simpl. change (succeeded s_ok) with true. cbn [negb]. rewrite bool_decide_eq_true_2 by lia. cbn [negb].
  cbn [used_ storage_ nodes_ node_count_]. rewrite wrote_app by lia. rewrite Hc. rewrite store_Done by (rewrite (rep_nodes _ _ _ _ Hr); lia). exec_simpl.
  set (cand := mk_node _ _ _ _ _ _ _ _ _). set (e := mk_entry k parent key v).
  set (storage := wrote (storage_ d) (used_ d) (key ++ v)). set (used := used_ d + length key + length v).
  assert (Hbs : bytes_of (es ++ [e]) = used) by (rewrite bytes_of_snoc, <-Hu; done).
  assert (Hls : length storage = MaxStringBytes) by (subst storage; rewrite length_wrote; rewrite ?length_app; lia).
  assert (Hdrop : drop (used_ d) storage = key ++ v ++ drop (used_ d + length (key ++ v)) (storage_ d)).
  { subst storage. unfold wrote. rewrite drop_app_ge by (rewrite length_take; lia). rewrite length_take.
    replace (used_ d - used_ d `min` length (storage_ d)) with 0 by lia. by rewrite drop_0, <-app_assoc. }
  assert (Hkey : take (length key) (drop (used_ d) storage) = key) by (rewrite Hdrop; apply take_app_length).
  assert (Hval : take (length v) (drop (used_ d + length key) storage) = v).
  { rewrite <-drop_drop, Hdrop, drop_app_length. apply take_app_length. }
  assert (Hadd : forall d', length (nodes_ d') = MaxNodes -> node_count_ d' = length es + 1 -> storage_ d' = storage -> used_ d' = used ->
    (forall i, nodes_ d' !! i = relink es e i <$> <[length es := cand]> (nodes_ d) !! i) -> represents d' (es ++ [e])).
  { intros d' H1 H2 H3 H4 H5. eapply (represents_add d d' es e cand); rewrite ?H3, ?H4; try done; try lia.
    - by apply take_wrote_below; lia.
    - split; [done|]. rewrite H3, H4. cbn. split; [lia|done].
    - split; [done|]. rewrite H3, H4. cbn. split; [lia|done]. }
  destruct parent as [p|].
  - destruct (lookup_lt_is_Some_2 es p Hp) as [x Hx]. destruct (rep_node _ _ _ _ Hr p x Hx) as (nd & Hn & _ & _ & Hf & Hl & _).
    edestruct (link_child_ok (mk_document (<[length es:=cand]> (nodes_ d)) (length es + 1) storage used) es p nd) as (d' & -> & H2 & H3 & H4 & H5 & H6).
    + cbn. rewrite list_lookup_insert_ne by lia. done.
    + done.
    + done.
    + intros l (y & Hy & Hyp)%last_Some_elem_of%child_elem. pose proof (rep_parents _ _ _ _ Hr l y Hy) as Hlt. rewrite Hyp in Hlt.
      split; [lia|]. cbn. apply lookup_lt_is_Some_2. rewrite length_insert, (rep_nodes _ _ _ _ Hr). apply lookup_lt_Some in Hy. lia.
    + exec_simpl. exists d'. split; [done|]. apply Hadd; try done. by rewrite H5; cbn; rewrite length_insert, (rep_nodes _ _ _ _ Hr).
  - eexists. split; [done|]. apply Hadd; cbn; try done; [by rewrite length_insert, (rep_nodes _ _ _ _ Hr)|].
    intros i. unfold relink. cbn. by destruct (_ !! i).
Qed.

(** [add_node] refuses, leaving the contents, or appends one entry. *)
Lemma add_node_ok d es out k parent key value : represents d es ->
  match add_spec es k parent key value with
  | inl s => s <> s_ok /\ exists d', add_node MaxNodes MaxStringBytes d out k parent key value = Done (s, out, d') /\ represents d' es
  | inr e => exists d', add_node MaxNodes MaxStringBytes d out k parent key value = Done (s_ok, Some (length es), d')
               /\ represents d' (es ++ [e])
  end.
Proof.
  intros Hr. pose proof (rep_count _ _ _ _ Hr) as Hc. unfold add_spec, add_node. set (v := if _ || _ then [] else value).
  pose proof (place_node_ok d es out k parent key v Hr) as Hpl.
  assert (Hroom : match parent with Some p => p < length es | None => es = [] end ->
    match (if length es =? MaxNodes then inl s_full
           else if decide (bytes_of es + length key + length v <= MaxStringBytes) then inr (mk_entry k parent key v) else inl s_full) with
    | inl s => s <> s_ok /\ exists d', place_node MaxNodes MaxStringBytes d out k parent key v = Done (s, out, d') /\ represents d' es
    | inr e => exists d', place_node MaxNodes MaxStringBytes d out k parent key v = Done (s_ok, Some (length es), d') /\ represents d' (es ++ [e])
    end).
  { intros Hp%Hpl. destruct (length es =? MaxNodes); cbn [orb] in Hp; [done|]. case_decide as Hd.
    - by rewrite bool_decide_eq_true_2 in Hp.
    - by rewrite bool_decide_eq_false_2 in Hp. }
  destruct parent as [p|].
  - rewrite (bool_decide_eq_true_2 (Some p <> npos)) by done. cbn [andb valid]. rewrite Hc.
    destruct (es !! p) as [x|] eqn:Hx.
    + rewrite (proj2 (Nat.ltb_lt _ _)) by (by eapply lookup_lt_Some). cbn [negb]. rewrite (bool_decide_eq_false_2 (Some p = npos)) by done.
      cbn [andb]. rewrite (kind_ok _ _ _ _ Hr Hx). exec_simpl. destruct (bool_decide (e_kind x = k_object) && _); [by split; [|exists d]|].
      destruct (bool_decide (e_kind x = k_array) && _); [by split; [|exists d]|]. apply Hroom. by eapply lookup_lt_Some.
    + rewrite (proj2 (Nat.ltb_ge _ _)) by (by apply lookup_ge_None). by split; [|exists d].
  - rewrite (bool_decide_eq_false_2 (None <> npos)) by (by intros []). rewrite (bool_decide_eq_true_2 (None = npos)) by done. cbn [andb].
    rewrite Hc. destruct es as [|x es]; cbn [length Nat.eqb negb]; [|by split; [|exists d]]. by apply Hroom.
Qed.

(** *** Reading *)

Lemma view_ok d off len text : spelled d off len text -> used_ d <= length (storage_ d) -> view d off len = Done text.
Proof.
  intros (-> & Hb & Ht) Hu. unfold view. destruct (Nat.eqb_spec (length text) 0) as [H0|H0].
  - by apply length_zero_iff_nil in H0 as ->.
  - by rewrite (proj2 (Nat.leb_le _ _)), Ht by lia.
Qed.

Section Read.
Context (d : document) (es : list entry) (Hr : represents d es).

Lemma node_at_ok i e : es !! i = Some e -> exists n, node_at d (Some i) = Done n /\ node_ok d es i e n.
Proof. intros He. destruct (rep_node _ _ _ _ Hr i e He) as (n & Hn & Hok). exists n. split; [by apply load_Done|done]. Qed.

Lemma used_le : used_ d <= length (storage_ d).
Proof. rewrite (rep_used _ _ _ _ Hr), (rep_storage _ _ _ _ Hr). apply Hr. Qed.

Lemma key_ok i e : es !! i = Some e -> key d (Some i) = Done (e_key e).
Proof.
  intros (n & Hn & _ & _ & _ & _ & _ & Hk & _)%node_at_ok. unfold key. rewrite Hn, bind_Done. apply view_ok; [done|apply used_le].
Qed.

Lemma scalar_ok i e : es !! i = Some e -> scalar d (Some i) = Done (e_value e).
Proof.
  intros (n & Hn & _ & _ & _ & _ & _ & _ & Hv)%node_at_ok. unfold scalar. rewrite Hn, bind_Done. apply view_ok; [done|apply used_le].
Qed.

Lemma parent_ok i e : es !! i = Some e -> parent d (Some i) = Done (e_parent e).
Proof. intros He. eapply (node_field_ok _ _ _ _ _ e_parent); [done|done|]. by intros n (_ & -> & _). Qed.

Lemma first_child_ok i e : es !! i = Some e -> first_child d (Some i) = Done (head (children es i)).
Proof.
  intros He. apply (node_field_ok _ _ _ _ _ (fun _ => head (children es i)) _ Hr He). by intros n (_ & _ & -> & _).
Qed.

Lemma next_sibling_ok i e : es !! i = Some e -> next_sibling d (Some i) = Done (next_of es i).
Proof.
  intros He. apply (node_field_ok _ _ _ _ _ (fun _ => next_of es i) _ Hr He). by intros n (_ & _ & _ & _ & -> & _).
Qed.

Lemma valid_ok id : valid d id = match id with Some i => bool_decide (is_Some (es !! i)) | None => false end.
Proof.
  destruct id as [i|]; [|done]. cbn. rewrite (rep_count _ _ _ _ Hr). destruct (es !! i) as [e|] eqn:He.
  - rewrite bool_decide_eq_true_2 by done. apply Nat.ltb_lt. by eapply lookup_lt_Some.
  - rewrite bool_decide_eq_false_2 by (intros []; done). apply Nat.ltb_ge. by apply lookup_ge_None.
Qed.
End Read.

Lemma with_parent_NoDup p b es : NoDup (with_parent p b es).
Proof.
  revert b. induction es as [|e es IH]; intros b; cbn [with_parent]; [constructor|]. case_decide; [|apply IH].
  cbn. constructor; [|apply IH]. intros Hin%with_parent_bounds. lia.
Qed.

(** The siblings are chained in the order of the children. *)
Lemma next_of_child es p pre i post : children es p = pre ++ i :: post -> next_of es i = head post.
Proof.
  intros E. destruct (child_elem es p i) as (e & He & Hp); [rewrite E; apply elem_of_app; right; left|].
  destruct (children_at es e p i He Hp) as (pre' & E'). unfold next_of. rewrite He, Hp.
  pose proof (with_parent_NoDup (Some p) 0 es) as Hnd. fold (children es p) in Hnd.
  rewrite E in E'. rewrite E in Hnd. revert E' Hnd. generalize (with_parent (Some p) (S i) (drop (S i) es)). clear.
  intros post' E Hnd. revert pre' E. induction pre as [|x pre IH]; intros [|y pre'] E; cbn in *; simplify_eq; try done.
  - apply NoDup_cons in Hnd as [Hn _]. destruct Hn. apply elem_of_app. right. left.
  - apply NoDup_cons in Hnd as [Hn _]. destruct Hn. apply elem_of_app. right. left.
  - apply NoDup_cons in Hnd as [_ Hnd]. by eapply IH.
Qed.

Lemma equal_ok a b : equal a b = Done (bool_decide (a = b)).
Proof.
  unfold equal. destruct (Nat.eqb_spec (length a) (length b)) as [Hl|Hl]; cbn [negb].
  2:{ rewrite bool_decide_eq_false_2; [done|]. by intros ->. }
  match goal with |- context [for_range _ _ ?f _] => set (body := f) end.
  assert (H : forall n i, i + n = length a ->
    for_range i n body tt = Done (if bool_decide (drop i a = drop i b) then Next tt else Return false)).
  2:{ rewrite (H (length a) 0) by lia. rewrite !drop_0. by case_bool_decide. }
  induction n as [|n IH]; intros i Hi; cbn [for_range].
  - rewrite !drop_ge by lia. by rewrite bool_decide_eq_true_2.
  - destruct (lookup_lt_is_Some_2 a i) as [x Hx]; [lia|]. destruct (lookup_lt_is_Some_2 b i) as [y Hy]; [lia|].
    unfold body at 1. rewrite (load_Done _ _ _ Hx), (load_Done _ _ _ Hy). exec_simpl. rewrite (drop_S _ _ _ Hx), (drop_S _ _ _ Hy).
    destruct (Z.eqb_spec x y) as [->|Hne]; cbn [negb]; [|by rewrite bool_decide_eq_false_2 by congruence].
    rewrite IH by lia. repeat case_bool_decide; congruence.
Qed.

Section Search.
Context (d : document) (es : list entry) (Hr : represents d es).

Definition key_is (name : list Z) (i : nat) : Prop := e_key <$> es !! i = Some name.
#[export] Instance key_is_dec name i : Decision (key_is name i) := decide (e_key <$> es !! i = Some name).

Definition find_spec (id : node_id) (name : list Z) : node_id :=
  match id with
  | Some i => match es !! i with
              | Some e => if decide (e_kind e = k_object) then head (filter (key_is name) (children es i)) else None
              | None => None
              end
  | None => None
  end.
Definition at_spec (id : node_id) (index : nat) : node_id :=
  match id with
  | Some i => match es !! i with
              | Some e => if decide (e_kind e = k_array) then children es i !! index else None
              | None => None
              end
  | None => None
  end.

Lemma children_length p : length (children es p) <= length es.
Proof.
  clear Hr. unfold children. generalize 0. induction es as [|e l IH]; intros b; cbn [with_parent]; [done|]. rewrite length_app.
  specialize (IH (S b)). cbn [length]. case_decide; cbn; lia.
Qed.

Lemma doc_find_ok id name : find d id name = Done (find_spec id name).
Proof.
  unfold find, find_spec. rewrite (valid_ok _ _ Hr). destruct id as [i|]; [|done]. destruct (es !! i) as [e|] eqn:He.
  2:{ by rewrite bool_decide_eq_false_2 by (intros []; done). }
  rewrite bool_decide_eq_true_2 by done. cbn [negb]. rewrite (kind_ok _ _ _ _ Hr He), bind_Done.
  case_decide as Hk; [rewrite bool_decide_eq_true_2 by done|by rewrite bool_decide_eq_false_2]. cbn [negb].
  rewrite (first_child_ok _ _ Hr _ _ He), bind_Done. rewrite (rep_count _ _ _ _ Hr).
  match goal with |- context [while_loop _ ?c ?b _] => set (cond := c); set (body := b) end.
  assert (H : forall l pre fuel, children es i = pre ++ l -> length l < fuel ->
    while_loop fuel cond body (head l) = Done (match head (filter (key_is name) l) with Some j => Return (Some j) | None => Next None end)).
  2:{ rewrite (H (children es i) [] (S (length es))); [|done|pose proof (children_length i); lia]. by destruct (head _). }
  induction l as [|j l IH]; intros pre fuel E Hf; (destruct fuel as [|fuel]; [lia|]); cbn [while_loop head].
  - unfold cond. rewrite bool_decide_eq_false_2; [done|]. by intros [].
  - unfold cond. rewrite bool_decide_eq_true_2 by done. unfold body at 1. destruct (child_elem es i j) as (x & Hx & _); [rewrite E; apply elem_of_app; right; left|].
    rewrite (key_ok _ _ Hr _ _ Hx), bind_Done, equal_ok, bind_Done. rewrite filter_cons. destruct (decide (key_is name j)) as [Hy|Hn].
    + rewrite bool_decide_eq_true_2; [done|]. unfold key_is in Hy. rewrite Hx in Hy. by injection Hy.
    + rewrite bool_decide_eq_false_2 by (intros <-; apply Hn; unfold key_is; by rewrite Hx). rewrite (next_sibling_ok _ _ Hr _ _ Hx), bind_Done.
      rewrite (next_of_child es i pre j l E). apply (IH (pre ++ [j])); [by rewrite <-app_assoc|cbn in Hf; lia].
Qed.

Lemma at_ok id index : at_ d id index = Done (at_spec id index).
Proof.
  unfold at_, at_spec. rewrite (valid_ok _ _ Hr). destruct id as [i|]; [|done]. destruct (es !! i) as [e|] eqn:He.
  2:{ by rewrite bool_decide_eq_false_2 by (intros []; done). }
  rewrite bool_decide_eq_true_2 by done. cbn [negb]. rewrite (kind_ok _ _ _ _ Hr He), bind_Done.
  case_decide as Hk; [rewrite bool_decide_eq_true_2 by done|by rewrite bool_decide_eq_false_2]. cbn [negb].
  rewrite (first_child_ok _ _ Hr _ _ He), bind_Done. rewrite (rep_count _ _ _ _ Hr).
  match goal with |- context [while_loop _ ?c ?b _] => set (cond := c); set (body := b) end.
  assert (H : forall l pre fuel, children es i = pre ++ l -> length pre <= index -> length l < fuel ->
    exists n, while_loop fuel cond body (@pair node_id nat (head l) (length pre))
              = Done (match l !! (index - length pre) with Some j => Return (Some j) | None => Next (None, n) end)).
  2:{ destruct (H (children es i) [] (S (length es))) as (n & Hw); [done|cbn; lia|pose proof (children_length i); lia|].
      cbn [length] in Hw. rewrite Hw, Nat.sub_0_r. by destruct (children es i !! index). }
  induction l as [|j l IH]; intros pre fuel E Hp Hf; (destruct fuel as [|fuel]; [lia|]); cbn [while_loop head].
  - unfold cond. rewrite bool_decide_eq_false_2 by (by intros []). by eexists.
  - unfold cond. rewrite bool_decide_eq_true_2 by done. unfold body at 1. destruct (child_elem es i j) as (x & Hx & _); [rewrite E; apply elem_of_app; right; left|].
    destruct (Nat.eqb_spec (length pre) index) as [<-|Hne].
    + rewrite Nat.sub_diag. by exists 0.
    + rewrite (next_sibling_ok _ _ Hr _ _ Hx), bind_Done. rewrite (next_of_child es i pre j l E).
      destruct (IH (pre ++ [j]) fuel) as (n & Hw); [by rewrite <-app_assoc|rewrite length_app; cbn; lia|cbn in Hf; lia|].
      rewrite length_app in Hw. cbn [length] in Hw. exists n. etrans; [exact Hw|]. by replace (index - length pre) with (S (index - (length pre + 1))) by lia.
Qed.
End Search.
End Refinement.

(** ** The document as an abstract machine *)

Inductive doc_op : Type :=
| Op_clear | Op_size | Op_root
| Op_set_null (parent : node_id) (key : list Z)
| Op_set_bool (value : bool) (parent : node_id) (key : list Z)
| Op_set_string (value : list Z) (parent : node_id) (key : list Z)
| Op_set_number (value : list Z) (parent : node_id) (key : list Z)
| Op_set_integer (signed : bool) (bits value : Z) (junk digits : list Z) (parent : node_id) (key : list Z)
| Op_make_object (parent : node_id) (key : list Z)
| Op_make_array (parent : node_id) (key : list Z)
| Op_append (parent : node_id) (k : kind_t) (value key : list Z)
| Op_kind (id : node_id) | Op_parent (id : node_id) | Op_first_child (id : node_id) | Op_next_sibling (id : node_id)
| Op_key (id : node_id) | Op_scalar (id : node_id)
| Op_find (id : node_id) (name : list Z) | Op_at (id : node_id) (index : nat)
| Op_get_bool (id : node_id) (output : bool) | Op_get_string (id : node_id).

Inductive doc_out : Type :=
| Out_none
| Out_nat (n : nat)
| Out_id (id : node_id)
| Out_add (s : status) (id : node_id)
| Out_kind (k : kind_t)
| Out_text (text : list Z)
| Out_bool (s : status) (b : bool)
| Out_string (s : status) (text : list Z).

Section Machine.
Context (MaxNodes MaxStringBytes : nat).
Abbreviation represents := (represents MaxNodes MaxStringBytes).

Definition added (r : exec (status * node_id * document)) : exec (doc_out * document) :=
  '(s, id, d) ← r; Done (Out_add s id, d).
Definition reading {A} (d : document) (f : A -> doc_out) (r : exec A) : exec (doc_out * document) :=
  a ← r; Done (f a, d).

(** An operation on a document; the variable that takes a new id is [npos] before. *)
Definition run_op (op : doc_op) (d : document) : exec (doc_out * document) :=
  match op with
  | Op_clear => Done (Out_none, clear d)
  | Op_size => Done (Out_nat (size d), d)
  | Op_root => Done (Out_id (root d), d)
  | Op_set_null p k => added (set_null MaxNodes MaxStringBytes d npos p k)
  | Op_set_bool v p k => added (set_bool MaxNodes MaxStringBytes d npos v p k)
  | Op_set_string v p k => added (set_string MaxNodes MaxStringBytes d npos v p k)
  | Op_set_number v p k => added (set_number MaxNodes MaxStringBytes d npos v p k)
  | Op_set_integer sg bits v junk digits p k => added (set_integer MaxNodes MaxStringBytes d npos sg bits v p k junk digits)
  | Op_make_object p k => added (make_object MaxNodes MaxStringBytes d npos p k)
  | Op_make_array p k => added (make_array MaxNodes MaxStringBytes d npos p k)
  | Op_append p kd v k => added (append MaxNodes MaxStringBytes d p npos kd v k)
  | Op_kind id => reading d Out_kind (kind d id)
  | Op_parent id => reading d Out_id (parent d id)
  | Op_first_child id => reading d Out_id (first_child d id)
  | Op_next_sibling id => reading d Out_id (next_sibling d id)
  | Op_key id => reading d Out_text (key d id)
  | Op_scalar id => reading d Out_text (scalar d id)
  | Op_find id name => reading d Out_id (find d id name)
  | Op_at id index => reading d Out_id (at_ d id index)
  | Op_get_bool id b => reading d (fun '(s, b) => Out_bool s b) (get_bool d id b)
  | Op_get_string id => reading d (fun '(s, t) => Out_string s t) (get_string d id)
  end.

(** The same operation on the entries. *)
Definition spec_add es (k : kind_t) (p : node_id) (key value : list Z) : doc_out * list entry :=
  match add_spec MaxNodes MaxStringBytes es k p key value with
  | inl s => (Out_add s npos, es)
  | inr e => (Out_add s_ok (Some (length es)), es ++ [e])
  end.
Definition spec_field {A} es (id : node_id) (f : nat -> entry -> A) (otherwise : A) : A :=
  match id with Some i => match es !! i with Some e => f i e | None => otherwise end | None => otherwise end.
Definition kind_at es (id : node_id) : kind_t := spec_field es id (fun _ => e_kind) k_null.
(** Numbers are checked by the grammar. *)
Definition is_number (text : list Z) : bool := match valid_number text with Done b => b | Undefined => false end.

Definition spec_op (op : doc_op) es : doc_out * list entry :=
  match op with
  | Op_clear => (Out_none, [])
  | Op_size => (Out_nat (length es), es)
  | Op_root => (Out_id (if es is [] then None else Some 0), es)
  | Op_set_null p k => spec_add es k_null p k []
  | Op_set_bool v p k => spec_add es k_boolean p k (if v then true_text else false_text)
  | Op_set_string v p k => spec_add es k_string p k v
  | Op_set_number v p k => if is_number v then spec_add es k_number p k v else (Out_add s_invalid_argument npos, es)
  | Op_set_integer _ _ v _ _ p k => spec_add es k_number p k (integer_text v)
  | Op_make_object p k => spec_add es k_object p k []
  | Op_make_array p k => spec_add es k_array p k []
  | Op_append p kd v k =>
      if bool_decide (kind_at es p = k_array \/ kind_at es p = k_object) then spec_add es kd p k v
      else (Out_add s_invalid_argument npos, es)
  | Op_kind id => (Out_kind (kind_at es id), es)
  | Op_parent id => (Out_id (spec_field es id (fun _ => e_parent) None), es)
  | Op_first_child id => (Out_id (spec_field es id (fun i _ => head (children es i)) None), es)
  | Op_next_sibling id => (Out_id (spec_field es id (fun i _ => next_of es i) None), es)
  | Op_key id => (Out_text (spec_field es id (fun _ => e_key) []), es)
  | Op_scalar id => (Out_text (spec_field es id (fun _ => e_value) []), es)
  | Op_find id name => (Out_id (find_spec es id name), es)
  | Op_at id index => (Out_id (at_spec es id index), es)
  | Op_get_bool id b =>
      (if bool_decide (kind_at es id = k_boolean)
       then Out_bool s_ok (bool_decide (spec_field es id (fun _ => e_value) [] = true_text)) else Out_bool s_invalid_argument b, es)
  | Op_get_string id =>
      (if bool_decide (kind_at es id = k_string) then Out_string s_ok (spec_field es id (fun _ => e_value) [])
       else Out_string s_invalid_argument [], es)
  end.

(** What a caller has to respect: [key] and [scalar] need an id of the document, an integer is of its type. *)
Definition op_ok es (op : doc_op) : Prop :=
  match op with
  | Op_key id | Op_scalar id => exists i, id = Some i /\ i < length es
  | Op_set_integer sg bits v junk digits _ _ =>
      (0 < bits <= 64)%Z /\ in_type sg bits v /\ length junk = S max_integer_str_len /\ length digits = max_integer_str_len
  | _ => True
  end.

Fixpoint run_ops (ops : list doc_op) (d : document) : exec (list doc_out * document) :=
  match ops with
  | [] => Done ([], d)
  | op :: ops => '(o, d) ← run_op op d; '(os, d) ← run_ops ops d; Done (o :: os, d)
  end.
Fixpoint spec_ops (ops : list doc_op) es : list doc_out * list entry :=
  match ops with
  | [] => ([], es)
  | op :: ops => let '(o, es) := spec_op op es in let '(os, es) := spec_ops ops es in (o :: os, es)
  end.
Fixpoint ops_ok es (ops : list doc_op) : Prop :=
  match ops with [] => True | op :: ops => op_ok es op /\ ops_ok (snd (spec_op op es)) ops end.

(** A document has one abstract state. *)
Lemma represents_fun d es es' : represents d es -> represents d es' -> es = es'.
Proof.
  intros Hr Hr'. apply (list_eq_same_length _ _ (length es)); [by rewrite <-(rep_count _ _ _ _ Hr), (rep_count _ _ _ _ Hr')|done|].
  intros i x y _ Hx Hy. destruct (rep_node _ _ _ _ Hr i x Hx) as (n & Hn & Hk & Hp & _ & _ & _ & (_ & _ & Hkey) & (_ & _ & Hval)).
  destruct (rep_node _ _ _ _ Hr' i y Hy) as (n' & Hn' & Hk' & Hp' & _ & _ & _ & (_ & _ & Hkey') & (_ & _ & Hval')).
  rewrite Hn in Hn'. injection Hn' as <-. destruct x, y. cbn in *. congruence.
Qed.

Lemma represents_clear d es : represents d es -> represents (clear d) [].
Proof.
  intros Hr. split; cbn [clear nodes_ storage_ node_count_ used_]; try apply Hr; try done; cbn; try lia.
Qed.

Lemma new_document_ok : represents (new_document MaxNodes MaxStringBytes) [].
Proof. split; cbn; try done; try lia; apply length_replicate. Qed.

(** The outcome of one operation. *)
Definition step_ok (r : exec (doc_out * document)) (s : doc_out * list entry) : Prop :=
  exists d', r = Done (fst s, d') /\ represents d' (snd s).

Lemma added_ok d es k p key value : represents d es ->
  step_ok (added (add_node MaxNodes MaxStringBytes d npos k p key value)) (spec_add es k p key value).
Proof.
  intros Hr. pose proof (add_node_ok MaxNodes MaxStringBytes d es npos k p key value Hr) as H. unfold spec_add, added.
  destruct (add_spec _ _ es k p key value) as [s|e]; [destruct H as [_ H]|]; destruct H as (d' & -> & H'); exec_simpl; by exists d'.
Qed.

Lemma reading_ok {A} d es (f : A -> doc_out) r a : represents d es -> r = Done a -> step_ok (reading d f r) (f a, es).
Proof. intros Hr ->. unfold reading. exec_simpl. by exists d. Qed.

Lemma field_ok {A} d es id (f : node -> A) (g : nat -> entry -> A) other : represents d es ->
  (forall i e n, node_ok d es i e n -> f n = g i e) -> node_field d id f other = Done (spec_field es id g other).
Proof.
  intros Hr Hf. unfold spec_field. destruct id as [i|]; [|done]. destruct (es !! i) as [e|] eqn:He.
  - apply (node_field_ok MaxNodes MaxStringBytes d es i e f (g i)); auto.
  - unfold node_field. rewrite (rep_count _ _ _ _ Hr), (proj2 (Nat.ltb_ge _ _)); [done|]. by apply lookup_ge_None.
Qed.

Lemma kind_at_ok d es id : represents d es -> kind d id = Done (kind_at es id).
Proof. intros Hr. apply field_ok; [done|]. by intros i e n (-> & _). Qed.

Lemma set_number_ok d es value p key : represents d es ->
  step_ok (added (set_number MaxNodes MaxStringBytes d npos value p key)) (spec_op (Op_set_number value p key) es).
Proof.
  intros Hr. unfold set_number. cbn [spec_op]. unfold is_number. destruct (valid_number_exact value) as (b & -> & _).
  exec_simpl. destruct b; [by apply added_ok|]. by exists d.
Qed.

Lemma set_integer_ok d es sg bits v junk digits p key : represents d es -> op_ok es (Op_set_integer sg bits v junk digits p key) ->
  step_ok (added (set_integer MaxNodes MaxStringBytes d npos sg bits v p key junk digits)) (spec_add es k_number p key (integer_text v)).
Proof.
  intros Hr (Hb & Hv & Hj & Hd). unfold set_integer, string_new.
  destruct (string_clear_ok max_integer_str_len (mk_string junk 0) Hj) as (s0 & -> & H0). rewrite bind_Done.
  destruct (format_integer_ok sg bits v digits s0 [] Hb Hv Hd H0) as (out & -> & Ho). rewrite bind_Done.
  change (succeeded s_ok) with true. cbn [negb]. destruct (holds_size _ _ _ Ho) as [-> _]. destruct (holds_prefix _ _ _ Ho) as [_ ->].
  pose proof (set_number_ok d es (integer_text v) p key Hr) as H. cbn [spec_op] in H.
  destruct (integer_text_denotes sg bits v Hb Hv) as (_ & Hn & _). unfold is_number in H.
  destruct (valid_number_exact (integer_text v)) as (b & Eb & Hbn). rewrite Eb in H. by rewrite (proj2 Hbn Hn) in H.
Qed.

Lemma append_ok d es p kd v k : represents d es ->
  step_ok (added (append MaxNodes MaxStringBytes d p npos kd v k)) (spec_op (Op_append p kd v k) es).
Proof.
  intros Hr. unfold append. rewrite (kind_at_ok d es p Hr), bind_Done, (valid_ok _ _ _ _ Hr). cbn [spec_op].
  unfold kind_at, spec_field. destruct p as [i|]; [|by exists d]. destruct (es !! i) as [e|] eqn:He.
  2:{ rewrite (bool_decide_eq_false_2 (is_Some None)) by (by intros []). by exists d. }
  rewrite (bool_decide_eq_true_2 (is_Some _)) by done. cbn [negb orb].
  destruct (decide (e_kind e = k_array)) as [Ha|Ha].
  - rewrite (bool_decide_eq_true_2 (_ = k_array)), (bool_decide_eq_false_2 (_ = k_object)) by congruence. cbn [negb andb].
    rewrite bool_decide_eq_true_2 by (by left). by apply added_ok.
  - rewrite (bool_decide_eq_false_2 (_ = k_array)) by done. cbn [negb andb]. destruct (decide (e_kind e = k_object)) as [Ho|Ho].
    + rewrite (bool_decide_eq_true_2 (_ = k_object)) by done. cbn [negb andb]. rewrite bool_decide_eq_true_2 by (by right).
      destruct (Nat.eqb_spec (length k) 0) as [Hk|Hk]; [|by apply added_ok]. unfold spec_add, add_spec. rewrite He, Ho.
      rewrite (proj2 (Nat.eqb_eq _ _) Hk). by exists d.
    + rewrite (bool_decide_eq_false_2 (_ = k_object)) by done. rewrite bool_decide_eq_false_2 by (by intros [|]). by exists d.
Qed.

(** A getter of nodes of kind [k]. *)
Lemma getter_ok {A} d es id k (good : list Z -> exec A) (g : list Z -> A) bad : represents d es -> k <> k_null ->
  (forall t, good t = Done (g t)) ->
  (kd ← kind d id; if negb (valid d id) || negb (bool_decide (kd = k)) then Done bad else t ← scalar d id; good t)
  = Done (if bool_decide (kind_at es id = k) then g (spec_field es id (fun _ => e_value) []) else bad).
Proof.
  intros Hr Hk Hg. rewrite (kind_at_ok d es id Hr), bind_Done, (valid_ok _ _ _ _ Hr). unfold kind_at, spec_field.
  destruct id as [i|]; [|cbn [negb orb]; by rewrite bool_decide_eq_false_2]. destruct (es !! i) as [e|] eqn:He.
  - rewrite (bool_decide_eq_true_2 (is_Some _)) by done. cbn [negb orb]. case_bool_decide; [|done]. cbn [negb].
    by rewrite (scalar_ok _ _ _ _ Hr _ _ He), bind_Done.
  - rewrite (bool_decide_eq_false_2 (is_Some None)) by (by intros []). cbn [negb orb]. by rewrite bool_decide_eq_false_2.
Qed.

(** What [set_integer] stored is what [get_integer] returns. *)
Lemma get_integer_back d es i e sg bits v output : represents d es -> es !! i = Some e -> e_kind e = k_number -> e_value e = integer_text v ->
  (0 < bits <= 64)%Z -> in_type sg bits v -> get_integer d (Some i) sg bits output = Done (s_ok, v).
Proof.
  intros Hr He Hk Hv Hb Ht. unfold get_integer. rewrite (kind_ok _ _ _ _ _ _ Hr He), bind_Done, (valid_ok _ _ _ _ Hr), He, Hk.
  rewrite !bool_decide_eq_true_2 by done. cbn [negb orb]. rewrite (scalar_ok _ _ _ _ Hr _ _ He), bind_Done, Hv.
  destruct (integer_text_denotes sg bits v Hb Ht) as (Hden & _).
  destruct (parse_integer_exact sg bits Hb (integer_text v) output) as (s & x & -> & Hrd & _). specialize (Hrd v Hden).
  rewrite decide_True in Hrd by done. by destruct Hrd as [-> ->].
Qed.

Lemma run_op_ok op d es : represents d es -> op_ok es op -> step_ok (run_op op d) (spec_op op es).
Proof.
  intros Hr Hop. destruct op; cbn [run_op spec_op]; try (by apply added_ok).
  - exists (clear d). split; [done|]. by eapply represents_clear.
  - exists d. unfold size. by rewrite (rep_count _ _ _ _ Hr).
  - exists d. unfold root. rewrite (rep_count _ _ _ _ Hr). by destruct es.
  - by apply set_number_ok.
  - by apply set_integer_ok.
  - by apply append_ok.
  - by apply (reading_ok d es), kind_at_ok.
  - apply (reading_ok d es); [done|]. apply field_ok; [done|]. by intros i e n (_ & -> & _).
  - apply (reading_ok d es); [done|]. apply (field_ok d es id n_first_child); [done|]. by intros i e n (_ & _ & -> & _).
  - apply (reading_ok d es); [done|]. apply (field_ok d es id n_next_sibling); [done|]. by intros i e n (_ & _ & _ & _ & -> & _).
  - destruct Hop as (i & -> & Hi). destruct (lookup_lt_is_Some_2 es i Hi) as [e He]. unfold spec_field. rewrite He.
    apply (reading_ok d es); [done|]. by eapply key_ok.
  - destruct Hop as (i & -> & Hi). destruct (lookup_lt_is_Some_2 es i Hi) as [e He]. unfold spec_field. rewrite He.
    apply (reading_ok d es); [done|]. by eapply scalar_ok.
  - apply (reading_ok d es); [done|]. by eapply doc_find_ok.
  - apply (reading_ok d es); [done|]. by eapply at_ok.
  - unfold reading, get_bool. rewrite (getter_ok d es id k_boolean _ (fun t => (s_ok, bool_decide (t = true_text))));
      [|done|done|intros t; by rewrite equal_ok]. exists d. rewrite bind_Done. by case_bool_decide.
  - unfold reading, get_string. rewrite (getter_ok d es id k_string _ (fun t => (s_ok, t))); [|done..].
    exists d. rewrite bind_Done. by case_bool_decide.
Qed.

(** C28. The JSON document implements a list of entries: every sequence of its
    operations on a new document (setters, [append], [clear], navigation, [find], [at] and
    the getters), in which [key] and [scalar] are given ids of nodes of the document (they do not check
    the id, the others do), returns, with every access to the node array and the store in bounds,
    exactly what the list gives: a setter appends one entry or is refused with the
    specified status and leaves the contents; the child, sibling and parent links are
    those of the entries' parents, in insertion order. *)
Theorem json_document_refines_entries ops :
  ops_ok [] ops ->
  exists d, run_ops ops (new_document MaxNodes MaxStringBytes) = Done (fst (spec_ops ops []), d) /\ represents d (snd (spec_ops ops [])).
Proof.
  assert (H : forall es d, represents d es -> ops_ok es ops ->
    exists d', run_ops ops d = Done (fst (spec_ops ops es), d') /\ represents d' (snd (spec_ops ops es))).
  2:{ intros Hok. apply H; [apply new_document_ok|done]. }
  induction ops as [|op ops IH]; intros es d Hr Hok; cbn [run_ops spec_ops]; [by exists d|].
  destruct Hok as [Hop Hops]. destruct (run_op_ok op d es Hr Hop) as (d1 & -> & H1). rewrite bind_Done.
  destruct (spec_op op es) as [o es1]. cbn [fst snd] in *. destruct (IH es1 d1 H1 Hops) as (d2 & -> & H2).
  rewrite bind_Done. destruct (spec_ops ops es1) as [os es2]. by exists d2.
Qed.
End Machine.

Lemma json_document_refines_entries_witness :
  exists d, run_ops 3 8 [Op_make_object npos []; Op_set_bool true (Some 0) [97%Z]; Op_set_null (Some 0) []; Op_find (Some 0) [97%Z];
                         Op_get_bool (Some 1) false; Op_set_string [97; 98; 99; 100]%Z (Some 0) [98%Z]] (new_document 3 8)
            = Done ([Out_add s_ok (Some 0); Out_add s_ok (Some 1); Out_add s_invalid_argument npos; Out_id (Some 1);
                     Out_bool s_ok true; Out_add s_full npos], d)
            /\ represents 3 8 d [mk_entry k_object None [] []; mk_entry k_boolean (Some 0) [97%Z] true_text].
Proof. refine (json_document_refines_entries 3 8 _ _). cbn. tauto. Defined.
