(* ===== verification/JsonTree.v ===== *)
(** * JSON values: trees, their entries, and the grammar of RFC 8259

    The reference model of the parser and the writer of json.hpp: a value is a tree; its
    entries in preorder are what a document holds; the grammar relates texts to trees;
    [print] is the text a writer should produce. *)

From S2P Require Import Prelude Status Bytes Words StringBuf JsonText JsonDoc.
Open Scope nat_scope.

(** A node with its text and its children under their keys (empty in an array). *)
Inductive tree : Type := Tree (k : kind_t) (value : list Z) (kids : list (list Z * tree)).

Section TreeInd.
Context (P : tree -> Prop) (Hstep : forall k v kids, Forall (fun c => P (snd c)) kids -> P (Tree k v kids)).
Fixpoint tree_ind' (t : tree) : P t :=
  match t with
  | Tree k v kids =>
      Hstep k v kids ((fix go l := match l return Forall (fun c => P (snd c)) l with
                                   | [] => Forall_nil_2 _
                                   | c :: l => Forall_cons_2 _ _ _ (tree_ind' (snd c)) (go l)
                                   end) kids)
  end.
End TreeInd.

Fixpoint tree_size (t : tree) : nat := let '(Tree _ _ kids) := t in S (sum_list_with (fun c => tree_size (snd c)) kids).
Definition kids_size (l : list (list Z * tree)) : nat := sum_list_with (fun c => tree_size (snd c)) l.

(** The characters a tree keeps in the store. *)
Fixpoint tree_bytes (t : tree) : nat :=
  let '(Tree _ v kids) := t in length v + sum_list_with (fun c => length (fst c) + tree_bytes (snd c)) kids.
Definition kids_bytes (l : list (list Z * tree)) : nat := sum_list_with (fun c => length (fst c) + tree_bytes (snd c)) l.

(** The entries of a tree whose root gets the id [b], and of a list of trees. *)
Fixpoint flatten (b : nat) (p : node_id) (key : list Z) (t : tree) : list entry :=
  match t with
  | Tree k v kids =>
      mk_entry k p key v ::
      (fix go c l := match l with
                     | [] => []
                     | (key, t) :: l => flatten c (Some b) key t ++ go (c + tree_size t) l
                     end) (S b) kids
  end.
Fixpoint flatten_list (b p : nat) (l : list (list Z * tree)) : list entry :=
  match l with
  | [] => []
  | (key, t) :: l => flatten b (Some p) key t ++ flatten_list (b + tree_size t) p l
  end.

Lemma flatten_tree b p key k v kids : flatten b p key (Tree k v kids) = mk_entry k p key v :: flatten_list (S b) b kids.
Proof.
  cbn [flatten]. f_equal. generalize (S b) as c. induction kids as [|[key' t] kids IH]; intros c; [done|]. cbn [flatten_list]. by rewrite IH.
Qed.

Lemma length_flatten b p key t : length (flatten b p key t) = tree_size t.
Proof.
  revert b p key. induction t as [k v kids IH] using tree_ind'; intros b p key. rewrite flatten_tree. cbn [length tree_size]. f_equal.
  generalize (S b) as c. induction IH as [|[key' t] kids Ht _ IHk]; intros c; [done|]. cbn [flatten_list sum_list_with snd] in *.
  by rewrite length_app, Ht, IHk.
Qed.

Lemma length_flatten_list b p l : length (flatten_list b p l) = kids_size l.
Proof.
  revert b. induction l as [|[key t] l IH]; intros b; [done|]. cbn [flatten_list kids_size sum_list_with snd].
  by rewrite length_app, length_flatten, IH.
Qed.

Lemma flatten_list_snoc b p l key t :
  flatten_list b p (l ++ [(key, t)]) = flatten_list b p l ++ flatten (b + kids_size l) (Some p) key t.
Proof.
  revert b. induction l as [|[key' t'] l IH]; intros b; cbn [app flatten_list]; [by rewrite app_nil_r; cbn; rewrite Nat.add_0_r|].
  rewrite IH, <-app_assoc. do 2 f_equal. cbn [kids_size sum_list_with snd]. f_equal. unfold kids_size. lia.
Qed.

Lemma bytes_of_app es es' : bytes_of (es ++ es') = bytes_of es + bytes_of es'.
Proof. apply sum_list_with_app. Qed.

Lemma bytes_of_flatten b p key t : bytes_of (flatten b p key t) = length key + tree_bytes t.
Proof.
  revert b p key. induction t as [k v kids IH] using tree_ind'; intros b p key. rewrite flatten_tree. cbn [tree_bytes]. fold (kids_bytes kids).
  change (bytes_of (mk_entry k p key v :: ?l)) with (length key + length v + bytes_of l). rewrite <-Nat.add_assoc. f_equal. f_equal.
  generalize (S b) as c. induction IH as [|[key' t] kids Ht _ IHk]; intros c; [done|]. cbn [flatten_list kids_bytes sum_list_with fst snd] in *.
  rewrite bytes_of_app, Ht, IHk. unfold kids_bytes. lia.
Qed.

Lemma bytes_of_flatten_list b p l : bytes_of (flatten_list b p l) = kids_bytes l.
Proof.
  revert b. induction l as [|[key t] l IH]; intros b; [done|]. cbn [flatten_list kids_bytes sum_list_with fst snd].
  by rewrite bytes_of_app, bytes_of_flatten, IH.
Qed.

(** ** The tree of a document *)

Fixpoint tree_of (fuel : nat) (es : list entry) (i : nat) : tree :=
  match fuel with
  | O => Tree k_null [] []
  | S fuel =>
      match es !! i with
      | None => Tree k_null [] []
      | Some e => Tree (e_kind e) (e_value e)
                    ((fun j => (default [] (e_key <$> es !! j), tree_of fuel es j)) <$> children es i)
      end
  end.

(** The roots of a list of trees laid out from [b]. *)
Fixpoint roots (b : nat) (l : list (list Z * tree)) : list nat :=
  match l with [] => [] | (_, t) :: l => b :: roots (b + tree_size t) l end.

(** Inside a subtree, nodes have parents inside it. *)
Lemma with_parent_flatten q b p key t : p <> Some q -> (q < b \/ b + tree_size t <= q) -> with_parent (Some q) b (flatten b p key t) = [].
Proof.
  revert b p key. induction t as [k v kids IH] using tree_ind'; intros b p key Hp Hq. rewrite flatten_tree. cbn [with_parent e_parent].
  rewrite decide_False by done. cbn [app]. cbn [tree_size] in Hq. fold (kids_size kids) in Hq.
  assert (H : forall c, b < c -> (q < b \/ c + kids_size kids <= q) -> with_parent (Some q) c (flatten_list c b kids) = []).
  2:{ apply H; lia. }
  clear Hp Hq. induction IH as [|[key' t] kids Ht _ IHk]; intros c Hc Hq; [done|]. cbn [flatten_list kids_size sum_list_with snd] in *.
  fold (kids_size kids) in *. rewrite with_parent_app, length_flatten, Ht by (congruence || (intros [= ->]; lia) || lia). cbn [app].
  apply IHk; lia.
Qed.

Lemma with_parent_kids b c l : b < c -> with_parent (Some b) c (flatten_list c b l) = roots c l.
Proof.
  revert c. induction l as [|[key t] l IH]; intros c Hc; [done|]. cbn [flatten_list roots]. rewrite with_parent_app, length_flatten, IH by lia.
  destruct t as [k v kids]. rewrite flatten_tree. cbn [with_parent e_parent]. rewrite decide_True by done. cbn [app]. f_equal.
  assert (H : with_parent (Some b) (S c) (flatten_list (S c) c kids) = []); [|by rewrite H].
  generalize (S c) as x, (Nat.lt_succ_diag_r c). induction kids as [|[key' t] kids IHk]; intros x Hx; [done|]. cbn [flatten_list].
  rewrite with_parent_app, length_flatten, IHk, with_parent_flatten; [done|intros [= ->]; lia|lia|lia].
Qed.

(** Entries of which none hangs under the ids from [lo] to [hi]. *)
Definition outside (lo hi : nat) (l : list entry) : Prop :=
  Forall (fun e => forall p, e_parent e = Some p -> p < lo \/ hi <= p) l.

Lemma with_parent_outside lo hi b q l : outside lo hi l -> lo <= q < hi -> with_parent (Some q) b l = [].
Proof.
  intros H Hq. revert b. induction H as [|e l He _ IH]; intros b; [done|]. cbn [with_parent].
  rewrite decide_False by (intros Hp%He; lia). apply IH.
Qed.

Lemma outside_weaken lo hi lo' hi' l : outside lo hi l -> lo <= lo' -> hi' <= hi -> outside lo' hi' l.
Proof. intros H Hl Hh. eapply Forall_impl; [exact H|]. intros e He p Hp%He. lia. Qed.

Lemma flatten_outside lo hi b p key t :
  (forall q, p = Some q -> q < lo \/ hi <= q) -> hi <= b \/ b + tree_size t <= lo -> outside lo hi (flatten b p key t).
Proof.
  revert b p key. induction t as [k v kids IH] using tree_ind'; intros b p key Hp Hb. rewrite flatten_tree. constructor; [done|].
  cbn [tree_size] in Hb. fold (kids_size kids) in Hb.
  assert (H : forall c, b < c -> hi <= b \/ c + kids_size kids <= lo -> outside lo hi (flatten_list c b kids)); [|apply H; lia].
  clear Hp Hb. induction IH as [|[key' t] kids Ht _ IHk]; intros c Hc Hb; [constructor|]. cbn [flatten_list kids_size sum_list_with snd] in *.
  fold (kids_size kids) in *. apply Forall_app. split; [|apply IHk; lia]. apply Ht; [|lia]. intros q [= <-]. lia.
Qed.

Lemma flatten_list_outside lo hi b p l :
  p < lo \/ hi <= p -> hi <= b \/ b + kids_size l <= lo -> outside lo hi (flatten_list b p l).
Proof.
  intros Hp. revert b. induction l as [|[key t] l IH]; intros b Hb; [constructor|]. cbn [flatten_list kids_size sum_list_with snd] in *.
  fold (kids_size l) in *. apply Forall_app. split; [|apply IH; lia]. apply flatten_outside; [|lia]. by intros q [= <-].
Qed.

(** A tree whose entries lie at [b] in a document is read back there. *)
Lemma tree_of_flatten t fuel pre p key post :
  tree_size t <= fuel -> (forall q, p = Some q -> q < length pre) ->
  outside (length pre) (length pre + tree_size t) pre -> outside (length pre) (length pre + tree_size t) post ->
  tree_of fuel (pre ++ flatten (length pre) p key t ++ post) (length pre) = t.
Proof.
  revert fuel pre p key post. induction t as [k v kids IH] using tree_ind'; intros fuel pre p key post Hf Hp Hpre Hpost.
  cbn [tree_size] in *. fold (kids_size kids) in *. destruct fuel as [|fuel]; [lia|]. set (b := length pre) in *.
  rewrite flatten_tree. set (e := mk_entry k p key v). set (es := pre ++ (e :: flatten_list (S b) b kids) ++ post).
  assert (He : es !! b = Some e) by (subst es; cbn [app]; by apply list_lookup_middle).
  assert (Hc : children es b = roots (S b) kids).
  { unfold children. subst es. rewrite with_parent_app, (with_parent_outside b (b + S (kids_size kids))) by (done || lia).
    rewrite with_parent_app, (with_parent_outside b (b + S (kids_size kids)) _ _ post) by (done || lia). rewrite app_nil_r. cbn [app with_parent Nat.add].
    fold b. rewrite decide_False by (intros Hx%Hp; lia). cbn [app]. apply with_parent_kids. lia. }
  cbn [tree_of]. rewrite He, Hc. cbn [e_kind e_value e]. f_equal.
  enough (H : forall dn l, kids = dn ++ l ->
    (fun j => (default [] (e_key <$> es !! j), tree_of fuel es j)) <$> roots (S b + kids_size dn) l = l).
  { specialize (H [] kids eq_refl). by rewrite Nat.add_0_r in H. }
  intros dn l. revert dn. induction l as [|[key' t] l IHl]; intros dn E; [done|]. cbn [roots fmap list_fmap].
  set (c := S b + kids_size dn).
  assert (Hsz : kids_size kids = kids_size dn + tree_size t + kids_size l).
  { rewrite E. unfold kids_size. rewrite sum_list_with_app. cbn. lia. }
  assert (Hes : es = (pre ++ e :: flatten_list (S b) b dn) ++ flatten c (Some b) key' t ++ flatten_list (c + tree_size t) b l ++ post).
  { subst es. rewrite E. assert (Hx : forall x, flatten_list x b (dn ++ (key', t) :: l)
      = flatten_list x b dn ++ flatten (x + kids_size dn) (Some b) key' t ++ flatten_list (x + kids_size dn + tree_size t) b l).
    { clear. induction dn as [|[a u] dn IHd]; intros x; cbn [app flatten_list kids_size sum_list_with snd]; [by rewrite Nat.add_0_r|].
      rewrite IHd, <-!app_assoc. fold (kids_size dn). by rewrite Nat.add_assoc. }
    rewrite Hx. cbn [app]. rewrite <-?app_assoc. cbn [app]. by rewrite <-?app_assoc. }
  assert (Hlen : length (pre ++ e :: flatten_list (S b) b dn) = c).
  { rewrite length_app. cbn [length]. rewrite length_flatten_list. subst c b. lia. }
  rewrite E, Forall_app in IH. destruct IH as [_ IH]. inversion IH as [|? ? Ht _]; subst. cbn [snd] in Ht.
  f_equal.
  - f_equal.
    + rewrite Hes, lookup_app_r, Hlen, Nat.sub_diag by (rewrite Hlen; done). destruct t as [k' v' kids']. by rewrite flatten_tree.
    + rewrite Hes, <-Hlen at 1. rewrite <-Hlen. apply Ht.
      * lia.
      * intros q [= <-]. rewrite Hlen. subst c. lia.
      * rewrite Hlen. apply Forall_app. split; [eapply outside_weaken; [exact Hpre|subst c; lia..]|].
        constructor; [intros q Hq%Hp; subst c b; lia|]. apply flatten_list_outside; subst c; lia.
      * rewrite Hlen. apply Forall_app. split; [apply flatten_list_outside; subst c; lia|]. eapply outside_weaken; [exact Hpost|subst c; lia..].
  - specialize (IHl (dn ++ [(key', t)])). rewrite <-app_assoc in IHl. specialize (IHl eq_refl).
    replace (S b + kids_size (dn ++ [(key', t)])) with (c + tree_size t) in IHl; [exact IHl|].
    unfold kids_size. rewrite sum_list_with_app. cbn. subst c. unfold kids_size. lia.
Qed.

(** ** The grammar *)

Definition spaces (l : list Z) : Prop := Forall (fun c => is_space c = true) l.
Definition is_container (k : kind_t) : bool := bool_decide (k = k_object) || bool_decide (k = k_array).
Definition opener (k : kind_t) : Z := if bool_decide (k = k_object) then c_obrace else c_open.
Definition closer (k : kind_t) : Z := if bool_decide (k = k_object) then c_cbrace else c_close.

(** What precedes a member of an object (an element of an array has nothing there). *)
Inductive key_text : kind_t -> list Z -> list Z -> Prop :=
| KT_element : key_text k_array [] []
| KT_member body key w : string_text body key -> spaces w -> key_text k_object (c_quote :: body ++ c_quote :: w ++ [c_colon]) key.

(** [value_text l t]: the text [l] is the value [t], without space around it. *)
Inductive value_text : list Z -> tree -> Prop :=
| V_null : value_text null_text (Tree k_null [] [])
| V_bool (b : bool) : value_text (if b then true_text else false_text) (Tree k_boolean (if b then true_text else false_text) [])
| V_number l : number_text l -> value_text l (Tree k_number l [])
| V_string body s : string_text body s -> value_text (c_quote :: body ++ [c_quote]) (Tree k_string s [])
| V_empty k w : is_container k = true -> spaces w -> value_text (opener k :: w ++ [closer k]) (Tree k [] [])
| V_items k l kids : is_container k = true -> items_text k l kids -> value_text (opener k :: l ++ [closer k]) (Tree k [] kids)
with items_text : kind_t -> list Z -> list (list Z * tree) -> Prop :=
| I_one k w1 kt key w2 l t w3 :
    spaces w1 -> key_text k kt key -> spaces w2 -> value_text l t -> spaces w3 -> items_text k (w1 ++ kt ++ w2 ++ l ++ w3) [(key, t)]
| I_more k w1 kt key w2 l t w3 rest kids :
    spaces w1 -> key_text k kt key -> spaces w2 -> value_text l t -> spaces w3 -> items_text k rest kids ->
    items_text k (w1 ++ kt ++ w2 ++ l ++ w3 ++ c_comma :: rest) ((key, t) :: kids).
Scheme value_text_mind := Minimality for value_text Sort Prop with items_text_mind := Minimality for items_text Sort Prop.
Combined Scheme value_items_ind from value_text_mind, items_text_mind.

(** The trees that are JSON values a document can hold: no empty keys. *)
Inductive json_value : tree -> Prop :=
| J_null : json_value (Tree k_null [] [])
| J_bool (b : bool) : json_value (Tree k_boolean (if b then true_text else false_text) [])
| J_number l : number_text l -> json_value (Tree k_number l [])
| J_string s : json_value (Tree k_string s [])
| J_container k kids : is_container k = true ->
    Forall (fun c => (if bool_decide (k = k_object) then fst c <> [] else fst c = []) /\ json_value (snd c)) kids -> json_value (Tree k [] kids).

(** The nesting of containers. *)
Fixpoint height (t : tree) : nat :=
  let '(Tree k _ kids) := t in if is_container k then S (max_list_with (fun c => height (snd c)) kids) else 0.
Definition kids_height (l : list (list Z * tree)) : nat := max_list_with (fun c => height (snd c)) l.

(** ** The text a writer should produce *)

Section Print.
Context (pretty : bool) (width : nat).

Definition newline : list Z := if pretty then [10%Z] else [].
Definition indent (depth : nat) : list Z := if pretty then replicate (depth * width) 32%Z else [].
Definition member_text (k : kind_t) (key : list Z) : option (list Z) :=
  if bool_decide (k = k_object) then opt_app (quoted key) (Some (c_colon :: if pretty then [32%Z] else [])) else Some [].

Fixpoint print (depth : nat) (t : tree) : option (list Z) :=
  match t with
  | Tree k_null _ _ => Some null_text
  | Tree (k_boolean | k_number) v _ => Some v
  | Tree k_string v _ => quoted v
  | Tree k _ [] => Some [opener k; closer k]
  | Tree k _ kids =>
      opt_app (Some (opener k :: newline))
        (opt_app ((fix go (first : bool) l :=
                     match l with
                     | [] => Some []
                     | (key, t) :: l =>
                         opt_app (Some (if first then [] else c_comma :: newline))
                           (opt_app (Some (indent (S depth)))
                              (opt_app (member_text k key) (opt_app (print (S depth) t) (go false l))))
                     end) true kids)
           (Some (newline ++ indent depth ++ [closer k])))
  end.
Fixpoint print_items (k : kind_t) (depth : nat) (first : bool) (l : list (list Z * tree)) : option (list Z) :=
  match l with
  | [] => Some []
  | (key, t) :: l =>
      opt_app (Some (if first then [] else c_comma :: newline))
        (opt_app (Some (indent (S depth))) (opt_app (member_text k key) (opt_app (print (S depth) t) (print_items k depth false l))))
  end.

Lemma print_tree depth k v kids :
  print depth (Tree k v kids) =
    match k with
    | k_null => Some null_text
    | k_boolean | k_number => Some v
    | k_string => quoted v
    | _ => if kids is [] then Some [opener k; closer k]
           else opt_app (Some (opener k :: newline)) (opt_app (print_items k depth true kids) (Some (newline ++ indent depth ++ [closer k])))
    end.
Proof.
  destruct k; try done; (destruct kids as [|[key t] kids]; [done|]); cbn [print print_items]; do 6 f_equal;
    (induction kids as [|[key' t'] kids IH]; [done|]); cbn [print_items]; by rewrite <-IH.
Qed.

Lemma newline_spaces : spaces newline.
Proof. unfold newline. destruct pretty; repeat constructor. Qed.

Lemma indent_spaces depth : spaces (indent depth).
Proof. unfold indent. destruct pretty; [|constructor]. by apply Forall_replicate. Qed.

Lemma opt_app_Some a b t : opt_app a b = Some t -> exists x y, a = Some x /\ b = Some y /\ t = x ++ y.
Proof. destruct a, b; cbn; try done. intros [= <-]. eauto. Qed.

Lemma quoted_text s t : quoted s = Some t -> exists body, t = c_quote :: body ++ [c_quote] /\ string_text body s.
Proof.
  unfold quoted. intros (x & y & [= <-] & Hy & ->)%opt_app_Some. apply opt_app_Some in Hy as (body & q & Hb & [= <-] & ->).
  exists body. split; [done|]. by apply escape_chars_text.
Qed.

Lemma member_text_ok k key t : is_container k = true -> (if bool_decide (k = k_object) then True else key = []) -> member_text k key = Some t ->
  exists kt w, t = kt ++ w /\ key_text k kt key /\ spaces w.
Proof.
  intros Hk Hkey. unfold member_text. destruct (bool_decide (k = k_object)) eqn:E.
  - apply bool_decide_eq_true in E as ->. intros (x & y & (body & -> & Hb)%quoted_text & [= <-] & ->)%opt_app_Some.
    exists (c_quote :: body ++ c_quote :: [] ++ [c_colon]), (if pretty then [32%Z] else []). split; [|split; [apply KT_member; [done|constructor]|]].
    + cbn [app]. rewrite <-!app_assoc. cbn [app]. by rewrite <-?app_assoc.
    + destruct pretty; repeat constructor.
  - intros [= <-]. exists [], []. split; [done|]. subst key. unfold is_container in Hk. rewrite E in Hk. apply bool_decide_eq_true in Hk as ->.
    split; constructor.
Qed.

Lemma spaces_app a b : spaces a -> spaces b -> spaces (a ++ b).
Proof. intros. by apply Forall_app. Qed.

(** Printed members are members, whatever space surrounds them. *)
Lemma print_items_text k depth kids : is_container k = true -> kids <> [] ->
  Forall (fun c => (if bool_decide (k = k_object) then True else fst c = [])
                   /\ forall l, print (S depth) (snd c) = Some l -> value_text l (snd c)) kids ->
  forall first l, print_items k depth first kids = Some l ->
  exists l', l = (if first then [] else c_comma :: newline) ++ l' /\ forall w0 w, spaces w0 -> spaces w -> items_text k (w0 ++ l' ++ w) kids.
Proof.
  intros Hk Hne H. induction H as [|[key t] kids [Hkey Ht] Hkids IH]; [done|]. cbn [fst snd] in *. intros first l. cbn [print_items].
  intros (s1 & r1 & [= <-] & Hr1 & ->)%opt_app_Some. apply opt_app_Some in Hr1 as (s2 & r2 & [= <-] & Hr2 & ->).
  apply opt_app_Some in Hr2 as (s3 & r3 & Hm & Hr3 & ->). apply opt_app_Some in Hr3 as (s4 & r4 & Hp & Hr4 & ->).
  destruct (member_text_ok k key s3 Hk Hkey Hm) as (kt & w2 & -> & Hkt & Hw2).
  eexists. split; [done|]. intros w0 w Hw0 Hw. destruct kids as [|c kids].
  - cbn in Hr4. injection Hr4 as <-. rewrite app_nil_r.
    replace (w0 ++ (indent (S depth) ++ (kt ++ w2) ++ s4) ++ w) with ((w0 ++ indent (S depth)) ++ kt ++ w2 ++ s4 ++ w) by (by rewrite <-!app_assoc).
    constructor; auto using spaces_app, indent_spaces.
  - destruct (IH ltac:(done) false r4 Hr4) as (l' & -> & Hl').
    replace (w0 ++ (indent (S depth) ++ (kt ++ w2) ++ s4 ++ (c_comma :: newline) ++ l') ++ w)
      with ((w0 ++ indent (S depth)) ++ kt ++ w2 ++ s4 ++ [] ++ c_comma :: newline ++ l' ++ w).
    + apply I_more; auto using spaces_app, indent_spaces, newline_spaces. constructor.
    + rewrite <-?app_assoc. cbn [app]. by rewrite <-?app_assoc.
Qed.

(** What is printed of a JSON value is a text of it. *)
Lemma print_text t : json_value t -> forall depth l, print depth t = Some l -> value_text l t.
Proof.
  induction t as [k v kids IH] using tree_ind'; intros Hj depth l. rewrite print_tree. inversion Hj as [|b|? Hn|?|? ? Hk Hkids]; subst.
  - intros [= <-]. constructor.
  - intros [= <-]. constructor.
  - intros [= <-]. by constructor.
  - intros (body & -> & Hb)%quoted_text. by constructor.
  - destruct kids as [|c kids].
    + assert (match k with k_null => Some null_text | k_boolean | k_number => Some [] | k_string => quoted [] | _ => Some [opener k; closer k] end
        = Some [opener k; closer k]) as -> by (by destruct k). intros [= <-]. apply (V_empty k []); [done|constructor].
    + intros Hl. assert (Hl' : opt_app (Some (opener k :: newline)) (opt_app (print_items k depth true (c :: kids)) (Some (newline ++ indent depth ++ [closer k]))) = Some l)
        by (by destruct k). apply opt_app_Some in Hl' as (s1 & r1 & [= <-] & Hr1 & ->). apply opt_app_Some in Hr1 as (items & s2 & Hi & [= <-] & ->).
      destruct (print_items_text k depth (c :: kids)) with (first := true) (l := items) as (l' & -> & Hl'); [done|done| |done|].
      { apply Forall_forall. intros x Hx. rewrite Forall_forall in IH, Hkids. destruct (Hkids x Hx) as [Hkx Hjx]. split.
        - by destruct (bool_decide (k = k_object)).
        - intros l'. by apply IH. }
      cbn [app]. replace (opener k :: newline ++ l' ++ newline ++ indent depth ++ [closer k])
        with (opener k :: (newline ++ l' ++ newline ++ indent depth) ++ [closer k]) by (by rewrite <-!app_assoc).
      apply V_items; [done|]. apply Hl'; auto using spaces_app, newline_spaces, indent_spaces.
Qed.
End Print.
