(* ===== verification/JsonWriter.v ===== *)
(** * Writing JSON (castle_ext/serialization/json.hpp, [serialize])

    The recursive writer over the links of a document.  It writes the text [print] of
    the document's tree, or fails and leaves an empty output. *)

From S2P Require Import Prelude Status Bytes Words StringBuf JsonText JsonDoc JsonTree.
Open Scope nat_scope.

(** [if (b) { f }]. *)
Definition when (b : bool) (f : basic_string -> exec (status * basic_string)) (out : basic_string) : exec (status * basic_string) :=
  if b then f out else done_ok out.

Section Writer.
Context (N : nat) (d : document) (pretty : bool) (width : nat).

Definition write_indent (depth : nat) (out : basic_string) : exec (status * basic_string) :=
  after (for_range 0 (depth * width) (fun _ out =>
           '(s, out) ← push_back N out 32%Z; if negb (succeeded s) then Done (Return (s_full, out)) else Done (Next out)) out)
    (fun out => Done (s_ok, out)).

(** What the loop of [serialize_node] writes for one child; [node] is the recursive call. *)
Definition write_child (node : node_id -> basic_string -> exec (status * basic_string)) (object first : bool) (depth : nat)
    (child : node_id) : basic_string -> exec (status * basic_string) :=
  must (when (negb first) (must (put N c_comma) (when pretty (put N 10%Z))))
    (must (when pretty (write_indent (depth + 1)))
      (must (when object (fun out => name ← key d child;
                            must (fun out => append_escaped N out name) (must (put N c_colon) (when pretty (put N 32%Z))) out))
        (node child))).

Fixpoint serialize_node (fuel : nat) (depth : nat) (id : node_id) (out : basic_string) : exec (status * basic_string) :=
  match fuel with
  | O => Undefined
  | S fuel =>
      k ← kind d id;
      if bool_decide (k = k_null) then append_view N out (Other null_text)
      else if bool_decide (k = k_boolean) || bool_decide (k = k_number) then t ← scalar d id; append_view N out (Other t)
      else if bool_decide (k = k_string) then t ← string d id; append_escaped N out t
      else
        let object := bool_decide (k = k_object) in
        must (put N (if object then c_obrace else c_open)) (fun out =>
          child ← first_child d id;
          if bool_decide (child = npos) then push_back N out (if object then c_cbrace else c_close)
          else
            must (when pretty (put N 10%Z)) (fun out =>
              after (while_loop (S (node_count_ d)) (fun '(child, _, _) => Done (bool_decide (child <> npos)))
                       (fun '(child, first, out) =>
                          '(s, out) ← write_child (serialize_node fuel (depth + 1)) object first depth child out;
                          if negb (succeeded s) then Done (Return (s, out))
                          else child ← next_sibling d child; Done (Next (child, false, out)))
                       (child, true, out))
                (fun '(_, _, out) =>
                   must (when pretty (must (put N 10%Z) (write_indent depth)))
                     (put N (if object then c_cbrace else c_close)) out)) out) out
  end.

(** [serialize]: the result and the output; the recursion is no deeper than the nodes. *)
Definition serialize (output : basic_string) : exec (result * basic_string) :=
  output ← StringBuf.clear output;
  if bool_decide (root d = npos) then Done (mk_result s_empty e_none 0 1 1, output)
  else
    '(s, output) ← serialize_node (S (node_count_ d)) 0 (root d) output;
    if negb (succeeded s) then output ← StringBuf.clear output; Done (mk_result s e_output_full 0 1 1, output)
    else Done (result_ok, output).
End Writer.

(** ** The writer writes [print] *)

Section Writes.
Context (N MaxNodes MaxStringBytes : nat) (d : document) (es : list entry) (Hr : represents MaxNodes MaxStringBytes d es).
Context (pretty : bool) (width : nat).

Lemma writes_ext f g t : (forall out, f out = g out) -> writes N f t -> writes N g t.
Proof. intros E H s cs Hs. rewrite <-E. by apply H. Qed.

(** Writing with a value that is read first. *)
Lemma writes_read {A} (r : exec A) (k : A -> basic_string -> exec (status * basic_string)) a t :
  r = Done a -> writes N (k a) t -> writes N (fun out => x ← r; k x out) t.
Proof. intros ->. done. Qed.

Lemma writes_when b f t : writes N f (Some t) -> writes N (when b f) (Some (if b then t else [])).
Proof. intros H. destruct b; [exact H|apply writes_done]. Qed.

Lemma write_indent_writes depth : writes N (write_indent N width depth) (Some (replicate (depth * width) 32%Z)).
Proof.
  assert (H : forall n i, writes N (fun out => after (for_range i n (fun _ out =>
      '(s, out) ← push_back N out 32%Z; if negb (succeeded s) then Done (Return (s_full, out)) else Done (Next out)) out)
        (fun out => Done (s_ok, out))) (Some (replicate n 32%Z))); [|apply H].
  induction n as [|n IH]; intros i; [apply writes_done|]. cbn [replicate].
  eapply writes_eq; [|change (Some (32%Z :: replicate n 32%Z)) with (opt_app (Some [32%Z]) (Some (replicate n 32%Z))); reflexivity].
  eapply (writes_seq N (put N 32%Z) _ _ _ _ (fun _ => s_full)); [apply writes_put|apply (IH (S i))|done|].
  intros s. cbn [for_range]. unfold put. destruct (push_back N s 32%Z) as [[x s']|]; [|done]. exec_simpl. by destruct (succeeded x).
Qed.

Lemma write_child_writes node object first depth j x t :
  es !! j = Some x -> writes N (node (Some j)) t ->
  writes N (write_child N d pretty width node object first depth (Some j))
    (opt_app (Some (if first then [] else c_comma :: newline pretty))
      (opt_app (Some (indent pretty width (S depth)))
        (opt_app (if object then opt_app (quoted (e_key x)) (Some (c_colon :: if pretty then [32%Z] else [])) else Some []) t))).
Proof.
  intros Hx Hn. unfold write_child. apply writes_must; [|apply writes_must; [|apply writes_must; [|done]]].
  - eapply writes_eq; [apply (writes_when _ _ (c_comma :: newline pretty))|by destruct first].
    eapply writes_eq; [apply writes_must; [apply writes_put|apply writes_when, writes_put]|]. done.
  - eapply writes_eq; [apply writes_when, write_indent_writes|]. unfold indent. by rewrite Nat.add_1_r.
  - destruct object; [|apply writes_done].
    intros s cs Hs. cbn [when]. rewrite (key_ok _ _ _ _ Hr _ _ Hx), bind_Done. revert s cs Hs.
    apply (writes_must N (fun out => append_escaped N out (e_key x))); [apply append_escaped_writes|].
    eapply writes_eq; [apply writes_must; [apply writes_put|apply writes_when, writes_put]|]. done.
Qed.

Lemma writes_closer k depth :
  writes N (must (when pretty (must (put N 10%Z) (write_indent N width depth))) (put N (closer k)))
    (Some (newline pretty ++ indent pretty width depth ++ [closer k])).
Proof.
  eapply writes_eq; [apply writes_must; [apply (writes_when _ _ (10%Z :: replicate (depth * width) 32%Z))|apply writes_put]|].
  { apply (writes_must N (put N 10%Z) (write_indent N width depth) (Some [10%Z]) (Some (replicate (depth * width) 32%Z)));
      [apply writes_put|apply write_indent_writes]. }
  cbn [opt_app]. unfold newline, indent. destruct pretty; cbn [app]; [|done]. by rewrite <-?app_assoc.
Qed.

(** The loop over the children from [l] on, and what follows it. *)
Lemma loop_writes k fuel depth i (tail : basic_string -> exec (status * basic_string)) tail_text l pre n first :
  (forall j x, es !! j = Some x -> j ∈ l -> writes N (serialize_node N d pretty width fuel (depth + 1) (Some j))
                                   (print pretty width (S depth) (tree_of fuel es j))) ->
  writes N tail (Some tail_text) -> children es i = pre ++ l -> length l < n ->
  writes N (fun out =>
      after (while_loop n (fun '(child, _, _) => Done (bool_decide (child <> npos)))
               (fun '(child, first, out) =>
                  '(s, out) ← write_child N d pretty width (serialize_node N d pretty width fuel (depth + 1)) (bool_decide (k = k_object)) first depth child out;
                  if negb (succeeded s) then Done (Return (s, out))
                  else child ← next_sibling d child; Done (Next (child, false, out)))
               (head l : node_id, first, out))
        (fun '(_, _, out) => tail out))
    (opt_app (print_items pretty width k depth first ((fun j => (default [] (e_key <$> es !! j), tree_of fuel es j)) <$> l)) (Some tail_text)).
Proof.
  intros Hn Ht. revert pre n first. induction l as [|j l IH]; intros pre n first E Hl; (destruct n as [|n]; [lia|]).
  - eapply writes_ext; [|exact Ht]. intros out. cbn [while_loop head]. rewrite bool_decide_eq_false_2; [done|]. by intros [].
  - assert (Hj : j ∈ children es i) by (rewrite E; apply elem_of_app; right; left).
    destruct (child_elem es i j Hj) as (x & Hx & _). cbn [fmap list_fmap print_items]. rewrite Hx. cbn [default fmap option_fmap option_map from_option].
    eapply writes_eq; [|rewrite <-!opt_app_assoc; unfold member_text; reflexivity]. rewrite 3!opt_app_assoc.
    eapply (writes_seq N (write_child N d pretty width (serialize_node N d pretty width fuel (depth + 1)) (bool_decide (k = k_object)) first depth (Some j))
              _ _ _ _ id); [| | by intros|].
    + eapply writes_eq; [apply write_child_writes; [exact Hx|eapply Hn; [exact Hx|left]]|]. by rewrite <-!opt_app_assoc.
    + eapply (IH ltac:(intros; eapply Hn; [eassumption|by right]) (pre ++ [j]) n false); [by rewrite <-app_assoc|cbn in Hl; lia].
    + intros s. cbn [while_loop head]. rewrite bool_decide_eq_true_2 by done.
      destruct (write_child _ _ _ _ _ _ _ _ _ s) as [[e s']|]; [|done]. exec_simpl. destruct (succeeded e); [|done]. cbn [negb].
      by rewrite (next_sibling_ok _ _ _ _ Hr _ _ Hx), bind_Done, (next_of_child es i pre j l E).
Qed.

Lemma kind_of_print k (A B C D : option (list Z)) :
  (if bool_decide (k = k_null) then A else if bool_decide (k = k_boolean) || bool_decide (k = k_number) then B
   else if bool_decide (k = k_string) then C else D)
  = match k with k_null => A | k_boolean | k_number => B | k_string => C | _ => D end.
Proof. by destruct k. Qed.

(** [serialize_node] writes the tree of the node. *)
Lemma serialize_node_writes fuel depth i e : es !! i = Some e -> length es - i < fuel ->
  writes N (serialize_node N d pretty width fuel depth (Some i)) (print pretty width depth (tree_of fuel es i)).
Proof.
  revert depth i e. induction fuel as [|fuel IH]; intros depth i e He Hf; [lia|]. cbn [tree_of]. rewrite He, print_tree, <-kind_of_print.
  cbn [serialize_node]. refine (writes_read _ _ _ _ (kind_ok _ _ _ _ _ _ Hr He) _). cbv beta.
  destruct (bool_decide (e_kind e = k_null)); [apply writes_append|].
  destruct (bool_decide (e_kind e = k_boolean) || _).
  { refine (writes_read _ _ _ _ (scalar_ok _ _ _ _ Hr _ _ He) _). apply writes_append. }
  destruct (bool_decide (e_kind e = k_string)) eqn:Ek.
  { refine (writes_read _ _ (e_value e) _ _ _); [|apply append_escaped_writes]. unfold string.
    by rewrite (kind_ok _ _ _ _ _ _ Hr He), bind_Done, Ek, (scalar_ok _ _ _ _ Hr _ _ He). }
  fold (opener (e_kind e)) (closer (e_kind e)). clear Ek.
  assert (Hkid : forall j x, es !! j = Some x -> j ∈ children es i ->
    writes N (serialize_node N d pretty width fuel (depth + 1) (Some j)) (print pretty width (S depth) (tree_of fuel es j))).
  { intros j x Hx Hj. rewrite Nat.add_1_r. destruct (child_elem es i j Hj) as (y & Hy & Hp).
    pose proof (rep_parents _ _ _ _ Hr j y Hy) as Hlt. rewrite Hp in Hlt. apply (IH _ _ y Hy). apply lookup_lt_Some in Hy. lia. }
  pose proof (children_length es i) as Hlen. destruct (children es i) as [|j l] eqn:Ec; cbn [fmap list_fmap].
  - change (Some [opener (e_kind e); closer (e_kind e)]) with (opt_app (Some [opener (e_kind e)]) (Some [closer (e_kind e)])).
    refine (writes_must N _ _ _ _ (writes_put N _) _). refine (writes_read _ _ _ _ (first_child_ok _ _ _ _ Hr _ _ He) _). rewrite Ec. cbn [head].
    rewrite (bool_decide_eq_true_2 (None = npos)) by done. apply writes_put.
  - change (Some (opener (e_kind e) :: newline pretty)) with (opt_app (Some [opener (e_kind e)]) (Some (newline pretty))).
    rewrite <-opt_app_assoc. refine (writes_must N _ _ _ _ (writes_put N _) _).
    refine (writes_read _ _ _ _ (first_child_ok _ _ _ _ Hr _ _ He) _). rewrite Ec. cbn [head].
    rewrite (bool_decide_eq_false_2 (Some j = npos)) by done. refine (writes_must N _ _ _ _ (writes_when _ _ _ (writes_put N _)) _).
    rewrite (rep_count _ _ _ _ Hr).
    apply (loop_writes (e_kind e) fuel depth i _ _ (j :: l) [] (S (length es)) true); [done|apply writes_closer|done|lia].
Qed.
End Writes.

(** The value a document holds. *)
Definition document_tree (es : list entry) : tree := tree_of (S (length es)) es 0.

(** The outcome of a call that should write [text] ([None]: it cannot be written). *)
Definition wrote_text (N : nat) (text : option (list Z)) (r : result) (out : basic_string) : Prop :=
  match text with
  | Some t => if decide (length t <= N) then r = result_ok /\ holds N out t
              else r_succeeded r = false /\ r_code r = e_output_full /\ holds N out []
  | None => r_succeeded r = false /\ r_code r = e_output_full /\ holds N out []
  end.

Lemma serialize_ok N MaxNodes MaxStringBytes d es pretty width output cs :
  represents MaxNodes MaxStringBytes d es -> holds N output cs ->
  exists r out, serialize N d pretty width output = Done (r, out)
    /\ if es is [] then r_status r = s_empty /\ holds N out [] else wrote_text N (print pretty width 0 (document_tree es)) r out.
Proof.
  intros Hr Ho. destruct (holds_prefix N output cs Ho) as [Hl _]. destruct (string_clear_ok N output Hl) as (out0 & E0 & H0).
  unfold serialize. rewrite E0, bind_Done. unfold root. rewrite (rep_count _ _ _ _ Hr). destruct es as [|e es']; cbn [length Nat.eqb].
  { rewrite (bool_decide_eq_true_2 (npos = npos)) by done. by eexists _, _. }
  rewrite (bool_decide_eq_false_2 (Some 0 = npos)) by done. set (es := e :: es') in *.
  pose proof (serialize_node_writes N MaxNodes MaxStringBytes d es Hr pretty width (S (length es)) 0 0 e eq_refl ltac:(lia) out0 [] H0) as Hw.
  fold (document_tree es) in Hw. change (S (length es')) with (length es). unfold wrote_text.
  assert (Hfail : (exists s s' cs', serialize_node N d pretty width (S (length es)) 0 (Some 0) out0 = Done (s, s') /\ s <> s_ok /\ holds N s' cs') ->
    exists r out, ('(s, output) ← serialize_node N d pretty width (S (length es)) 0 (Some 0) out0;
       if negb (succeeded s) then output ← StringBuf.clear output; Done (mk_result s e_output_full 0 1 1, output) else Done (result_ok, output)) = Done (r, out)
      /\ r_succeeded r = false /\ r_code r = e_output_full /\ holds N out []).
  { intros (s & s' & cs' & -> & Hs & Hh). rewrite bind_Done. assert (Hsf : succeeded s = false) by (by apply bool_decide_eq_false).
    rewrite Hsf. cbn [negb]. destruct (holds_prefix N s' cs' Hh) as [Hl' _]. destruct (string_clear_ok N s' Hl') as (out1 & -> & H1).
    rewrite bind_Done. by eexists _, _. }
  destruct (print pretty width 0 (document_tree es)) as [t|]; [|by apply Hfail]. cbn [length Nat.add] in Hw.
  case_decide; [|by apply Hfail]. destruct Hw as (s' & -> & Hs'). rewrite bind_Done. by exists result_ok, s'.
Qed.


