(* ===== verification/JsonParser.v ===== *)
(** * Parsing JSON (castle_ext/serialization/json.hpp, [detail::parser], [parse])

    The recursive-descent parser, over the document of JsonDoc and the texts of JsonText.
    It accepts exactly the texts of the grammar of JsonTree that respect the limits of the
    document, and builds their tree. *)

From S2P Require Import Prelude Status Bytes Words StringBuf JsonText JsonDoc JsonTree JsonWriter.
Open Scope nat_scope.

Record parser : Type := mk_parser { doc_ : document; position_ : nat; depth_ : nat }.

Definition with_doc (p : parser) (d : document) : parser := mk_parser d (position_ p) (depth_ p).
Definition with_position (p : parser) (i : nat) : parser := mk_parser (doc_ p) i (depth_ p).
Definition advance (p : parser) : parser := with_position p (position_ p + 1).
Definition deeper (p : parser) : parser := mk_parser (doc_ p) (position_ p) (depth_ p + 1).
Definition shallower (p : parser) : parser := mk_parser (doc_ p) (position_ p) (depth_ p - 1).

(** Line and column behind a text. *)
Definition line_column (l : list Z) : nat * nat :=
  foldl (fun '(line, column) c => if (c =? 10)%Z then (line + 1, 1) else (line, column + 1)) (1, 1) l.

Section Parser.
Context (MaxNodes MaxStringBytes MaxDepth : nat) (source : list Z).
(** What the memory of the local string at a position holds before it is constructed. *)
Context (junk : nat -> list Z).

(** A parsing function: the result, the id it leaves in [out] and the parser. *)
Definition parsed : Type := result * node_id * parser.

Definition fail (p : parser) (code : error_code) : result :=
  let '(line, column) := line_column (take (position_ p) source) in
  mk_result s_invalid_argument code (position_ p) line column.

Definition capacity_result (p : parser) (s : status) : result := mk_result s e_capacity (position_ p) 1 1.

(** [s == ok ? result() : capacity_result(s)] behind a setter of the document. *)
Definition set_result (p : parser) (r : exec (status * node_id * document)) : exec parsed :=
  '(s, out, d) ← r;
  let p := with_doc p d in
  Done (if succeeded s then result_ok else capacity_result p s, out, p).

Definition skip_space (p : parser) : exec parser :=
  after (while_loop (S (length source)) (fun p => at_char source (position_ p) is_space) (fun p => Done (Next (advance p))) p) Done.

(** A string at the position, decoded into a local string; its characters when it succeeds. *)
Definition read_string (p : parser) : exec (result * list Z * parser) :=
  text ← string_new (junk (position_ p));
  '(r, position, text) ← decode_string MaxStringBytes source (position_ p) text;
  Done (r, take (StringBuf.size_ text) (StringBuf.data_ text), with_position p position).

Definition parse_string_value (out parent : node_id) (key_name : list Z) (p : parser) : exec parsed :=
  '(r, value, p) ← read_string p;
  if negb (r_succeeded r) then Done (r, out, p)
  else set_result p (set_string MaxNodes MaxStringBytes (doc_ p) out value parent key_name).

Definition parse_literal (literal : list Z) (kind : kind_t) (out parent : node_id) (key_name : list Z) (p : parser) : exec parsed :=
  if length source <? position_ p + length literal then Done (fail p e_unexpected_end, out, p)
  else
    after (for_range 0 (length literal) (fun i (_ : unit) =>
             c ← load source (position_ p + i); l ← load literal i;
             if negb (c =? l)%Z then Done (Return (fail p e_invalid_literal, out, p)) else Done (Next tt)) tt)
      (fun _ =>
         let p := with_position p (position_ p + length literal) in
         set_result p
           (if bool_decide (kind = k_boolean)
            then l ← load literal 0; set_bool MaxNodes MaxStringBytes (doc_ p) out (l =? 116)%Z parent key_name
            else set_null MaxNodes MaxStringBytes (doc_ p) out parent key_name)).

Definition number_char (c : Z) : bool :=
  is_digit c || (c =? c_minus)%Z || (c =? c_plus)%Z || (c =? c_dot)%Z || (c =? c_e)%Z || (c =? c_E)%Z.

(** The characters of a number, up to a delimiter. *)
Definition number_loop (out : node_id) (fuel : nat) (p : parser) : exec (ctl parsed parser) :=
  while_loop fuel (fun p => at_char source (position_ p) (fun c => negb (is_number_delimiter c)))
    (fun p => c ← load source (position_ p);
              if negb (number_char c) then Done (Return (fail p e_invalid_number, out, p)) else Done (Next (advance p))) p.

Definition parse_number (out parent : node_id) (key_name : list Z) (p : parser) : exec parsed :=
  let start := position_ p in
  after (number_loop out (S (length source)) p)
    (fun p =>
       let number := take (position_ p - start) (drop start source) in
       v ← valid_number number;
       if negb v then Done (fail p e_invalid_number, out, p)
       else set_result p (set_number MaxNodes MaxStringBytes (doc_ p) out number parent key_name)).

(** The key of a member, its colon included, or the result that ends the object. *)
Definition parse_key (p : parser) : exec (ctl (result * parser) (list Z * parser)) :=
  c ← load source (position_ p);
  if negb (c =? c_quote)%Z then Done (Return (fail p e_unexpected_token, p))
  else
    '(kr, name, p) ← read_string p;
    if negb (r_succeeded kr) then Done (Return (kr, p))
    else
      p ← skip_space p;
      colon ← at_char source (position_ p) (fun c => (c =? c_colon)%Z);
      if negb colon then Done (Return (fail p e_unexpected_token, p)) else Done (Next (name, advance p)).
(** An element of an array has no key. *)
Definition no_key (p : parser) : exec (ctl (result * parser) (list Z * parser)) := Done (Next ([], p)).

(** A pass of the loop of [parse_object] or [parse_array]; [value] is [parse_value]. *)
Definition item_body (before : parser -> exec (ctl (result * parser) (list Z * parser)))
    (value : node_id -> node_id -> list Z -> parser -> exec parsed) (close : Z) (out : node_id) (p : parser)
    : exec (ctl parsed parser) :=
  k ← before p;
  match k with
  | Return (r, p) => Done (Return (r, out, shallower p))
  | Next (name, p) =>
      '(vr, child, p) ← value npos out name p;
      if negb (r_succeeded vr) then Done (Return (vr, out, shallower p))
      else
        p ← skip_space p;
        closing ← at_char source (position_ p) (fun c => (c =? close)%Z);
        if closing : bool then Done (Return (result_ok, out, shallower (advance p)))
        else
          comma ← at_char source (position_ p) (fun c => (c =? c_comma)%Z);
          if negb comma then Done (Return (fail p e_unexpected_token, out, shallower p))
          else p ← skip_space (advance p); Done (Next p)
  end.

(** [parse_object] and [parse_array]: the same code, but for the setter, the key in front of
    a value and the closing bracket. *)
Definition parse_container (make : document -> node_id -> node_id -> list Z -> exec (status * node_id * document))
    (before : parser -> exec (ctl (result * parser) (list Z * parser)))
    (close : Z) (value : node_id -> node_id -> list Z -> parser -> exec parsed)
    (out parent : node_id) (key_name : list Z) (p : parser) : exec parsed :=
  let p := deeper (advance p) in
  if MaxDepth <? depth_ p then Done (fail p e_depth_exceeded, out, shallower p)
  else
    '(s, out, d) ← make (doc_ p) out parent key_name;
    let p := with_doc p d in
    if negb (succeeded s) then Done (capacity_result p s, out, shallower p)
    else
      p ← skip_space p;
      closing ← at_char source (position_ p) (fun c => (c =? close)%Z);
      if closing : bool then Done (result_ok, out, shallower (advance p))
      else
        after (while_loop (S (length source)) (fun p => Done (position_ p <? length source)) (item_body before value close out) p)
          (fun p => Done (fail p e_unexpected_end, out, shallower p)).

Definition parse_object := parse_container (make_object MaxNodes MaxStringBytes) parse_key c_cbrace.
Definition parse_array := parse_container (make_array MaxNodes MaxStringBytes) no_key c_close.

(** [parse_value]; the fuel bounds the nesting, which the parser limits to [MaxDepth]. *)
Fixpoint parse_value (fuel : nat) (out parent : node_id) (key_name : list Z) (p : parser) : exec parsed :=
  match fuel with
  | O => Undefined
  | S fuel =>
      p ← skip_space p;
      if length source <=? position_ p then Done (fail p e_unexpected_end, out, p)
      else
        c ← load source (position_ p);
        if (c =? c_obrace)%Z then parse_object (parse_value fuel) out parent key_name p
        else if (c =? c_open)%Z then parse_array (parse_value fuel) out parent key_name p
        else if (c =? c_quote)%Z then parse_string_value out parent key_name p
        else if (c =? 116)%Z then parse_literal true_text k_boolean out parent key_name p
        else if (c =? 102)%Z then parse_literal false_text k_boolean out parent key_name p
        else if (c =? 110)%Z then parse_literal null_text k_null out parent key_name p
        else if (c =? c_minus)%Z || is_digit c then parse_number out parent key_name p
        else Done (fail p e_unexpected_token, out, p)
  end.

Definition run (p : parser) : exec (result * parser) :=
  let p := with_doc p (JsonDoc.clear (doc_ p)) in
  p ← skip_space p;
  '(r, root, p) ← parse_value (S MaxDepth) npos npos [] p;
  if negb (r_succeeded r) then Done (r, with_doc p (JsonDoc.clear (doc_ p)))
  else
    p ← skip_space p;
    if negb (position_ p =? length source) then Done (fail p e_unexpected_token, p) else Done (r, p).

Definition parse (d : document) : exec (result * document) :=
  '(r, p) ← run (mk_parser d 0 0); Done (r, doc_ p).
End Parser.

(** ** Scanning *)

Definition no_space (l : list Z) : Prop := forall c, head l = Some c -> is_space c = false.

Lemma spaces_unique w rest w' rest' :
  spaces w -> no_space rest -> spaces w' -> no_space rest' -> w ++ rest = w' ++ rest' -> w = w' /\ rest = rest'.
Proof.
  unfold spaces, no_space. intros Hw Hr Hw' Hr'. revert w' Hw'. induction Hw as [|c w Hc Hw IH]; intros w' Hw' E.
  - destruct w' as [|c' w']; [done|]. inversion Hw'; subst. cbn in E. subst rest. specialize (Hr c' eq_refl). congruence.
  - destruct w' as [|c' w']; cbn in E; [subst; specialize (Hr' c eq_refl); congruence|].
    injection E as <- E. inversion Hw'; subst. destruct (IH w') as [-> ->]; done.
Qed.

Section Proofs.
Context (MaxNodes MaxStringBytes MaxDepth : nat) (source : list Z) (junk : nat -> list Z).
Context (Hjunk : forall i, length (junk i) = S MaxStringBytes).
Abbreviation rep := (represents MaxNodes MaxStringBytes).

Lemma drop_cons_pos i c l : drop i source = c :: l -> i < length source /\ drop (i + 1) source = l.
Proof. apply drop_next. Qed.

Lemma skip_space_ok p : position_ p <= length source ->
  exists w, skip_space source p = Done (with_position p (position_ p + length w)) /\ spaces w
    /\ drop (position_ p) source = w ++ drop (position_ p + length w) source /\ no_space (drop (position_ p + length w) source)
    /\ position_ p + length w <= length source.
Proof.
  unfold skip_space. intros Hp0.
  assert (H : forall fuel p, position_ p <= length source -> length source - position_ p < fuel ->
    exists w, while_loop (R := parser) fuel (fun p => at_char source (position_ p) is_space) (fun p => Done (Next (advance p))) p
                = Done (Next (with_position p (position_ p + length w))) /\ spaces w
      /\ drop (position_ p) source = w ++ drop (position_ p + length w) source /\ no_space (drop (position_ p + length w) source)
      /\ position_ p + length w <= length source).
  2:{ destruct (H (S (length source)) p Hp0) as (w & -> & Hw); [lia|]. by exists w. }
  clear p Hp0. induction fuel as [|fuel IH]; intros p Hp Hf; [lia|]. cbn [while_loop]. rewrite at_char_ok.
  assert (Hstop : no_space (drop (position_ p) source) ->
    exists w, @Done (ctl parser parser) (Next p) = Done (Next (with_position p (position_ p + length w))) /\ spaces w
      /\ drop (position_ p) source = w ++ drop (position_ p + length w) source /\ no_space (drop (position_ p + length w) source)
      /\ position_ p + length w <= length source).
  { intros Hn. exists []. cbn [length app]. rewrite Nat.add_0_r. split; [by destruct p|]. split; [constructor|]. done. }
  destruct (drop (position_ p) source) as [|c l] eqn:E; cbn [head]; [by apply Hstop|].
  destruct (is_space c) eqn:Ec; [|by apply Hstop; intros ? [= <-]]. clear Hstop.
  destruct (drop_cons_pos _ _ _ E) as [Hlt El].
  destruct (IH (advance p)) as (w & -> & Hw & Ew & Hn & Hle); [cbn; lia|cbn; lia|]. exists (c :: w). cbn [position_ advance with_position length] in *.
  replace (position_ p + S (length w)) with (position_ p + 1 + length w) by lia. rewrite El in Ew. rewrite Ew at 1.
  split; [done|]. split; [by constructor|]. done.
Qed.

(** Where the space in front of something else is known. *)
Lemma skip_space_to p w rest : drop (position_ p) source = w ++ rest -> position_ p <= length source -> spaces w -> no_space rest ->
  skip_space source p = Done (with_position p (position_ p + length w)) /\ drop (position_ p + length w) source = rest
  /\ position_ p + length w <= length source.
Proof.
  intros E Hp Hw Hr. destruct (skip_space_ok p Hp) as (w' & -> & Hw' & E' & Hn & Hle). rewrite E in E'.
  by destruct (spaces_unique w rest w' _ Hw Hr Hw' Hn E') as [-> <-].
Qed.

(** ** What is accepted is grammatical *)

(** [p'] stands behind the text [l] that follows [p]. *)
Definition consumed (p : parser) (l : list Z) (p' : parser) : Prop :=
  drop (position_ p) source = l ++ drop (position_ p') source /\ position_ p' = position_ p + length l /\ position_ p' <= length source.

Lemma consumed_app p l p' l' p'' : consumed p l p' -> consumed p' l' p'' -> consumed p (l ++ l') p''.
Proof. intros (E & Hp & _) (E' & Hp' & Hl). split; [by rewrite E, E', app_assoc|]. rewrite length_app. split; [lia|done]. Qed.

Lemma consumed_pos p p0 l p' p1 : consumed p l p' -> position_ p0 = position_ p -> position_ p1 = position_ p' -> consumed p0 l p1.
Proof. unfold consumed. by intros H -> ->. Qed.

Lemma consumed_char p c l : drop (position_ p) source = c :: l -> consumed p [c] (advance p).
Proof. intros E. destruct (drop_cons_pos _ _ _ E) as [Hlt El]. cbn. unfold consumed. cbn. rewrite E, El. split; [done|]. lia. Qed.

Lemma consumed_drop p l : position_ p + length l <= length source -> take (length l) (drop (position_ p) source) = l ->
  consumed p l (with_position p (position_ p + length l)).
Proof. intros Hl E. split; [|done]. cbn. rewrite <-(take_drop (length l) (drop (position_ p) source)) at 1. by rewrite E, drop_drop. Qed.

Lemma head_char p f : match head (drop (position_ p) source) with Some c => f c | None => false end = true ->
  exists c l, drop (position_ p) source = c :: l /\ f c = true.
Proof. destruct (drop (position_ p) source) as [|c l]; [done|]. intros H. by exists c, l. Qed.

(** The rules of [add_node] for the key under its parent. *)
Definition key_fits (es : list entry) (parent : node_id) (key : list Z) : Prop :=
  forall q x, parent = Some q -> es !! q = Some x -> (e_kind x = k_object -> key <> []) /\ (e_kind x = k_array -> key = []).

Lemma add_spec_inr es k parent key value e : add_spec MaxNodes MaxStringBytes es k parent key value = inr e ->
  e = mk_entry k parent key (if is_container k then [] else value) /\ key_fits es parent key.
Proof.
  unfold add_spec. fold (is_container k). set (v := if is_container k then [] else value).
  assert (Hroom : (if length es =? MaxNodes then inl s_full
     else if decide (bytes_of es + length key + length v <= MaxStringBytes) then inr (mk_entry k parent key v) else inl s_full) = inr e -> e = mk_entry k parent key v).
  { destruct (length es =? MaxNodes); [done|]. case_decide; [|done]. by intros [= <-]. }
  destruct parent as [q|].
  - destruct (es !! q) as [x|] eqn:Hx; [|done]. destruct (bool_decide (e_kind x = k_object) && (length key =? 0)) eqn:E1; [done|].
    destruct (bool_decide (e_kind x = k_array) && negb (length key =? 0)) eqn:E2; [done|]. intros He. split; [by apply Hroom|].
    intros q' y [= <-] Hy. rewrite Hx in Hy. injection Hy as <-. split; intros Hk; rewrite Hk in *.
    + rewrite bool_decide_eq_true_2 in E1 by done. cbn in E1. by intros ->.
    + rewrite (bool_decide_eq_true_2 (k_array = k_array)) in E2 by done. cbn in E2. destruct key; done.
  - destruct (length es =? 0); [|done]. intros He. split; [by apply Hroom|done].
Qed.

(** The outcome of parsing a value under [parent], whose texts are [Text]. *)
Definition sound (Text : list Z -> tree -> Prop) (p : parser) (es : list entry) (parent : node_id) (key : list Z) (x : exec parsed) : Prop :=
  exists r out p', x = Done (r, out, p') /\ depth_ p' = depth_ p /\ exists es', rep (doc_ p') es'
    /\ (r_succeeded r = true -> r = result_ok /\ out = Some (length es) /\ exists l t, Text l t /\ consumed p l p'
         /\ es' = es ++ flatten (length es) parent key t /\ key_fits es parent key /\ json_value t /\ depth_ p + height t <= MaxDepth).

Lemma sound_fail Text p es parent key r out p' es' :
  r_succeeded r = false -> depth_ p' = depth_ p -> rep (doc_ p') es' -> sound Text p es parent key (Done (r, out, p')).
Proof. intros Hr Hd He. exists r, out, p'. split; [done|]. split; [done|]. exists es'. split; [done|]. by rewrite Hr. Qed.

Lemma fail_failed p code : r_succeeded (fail source p code) = false.
Proof. unfold fail. by destruct (line_column _). Qed.

Lemma capacity_failed p s : s <> s_ok -> r_succeeded (capacity_result p s) = false.
Proof. intros Hs. unfold r_succeeded, succeeded. by apply bool_decide_eq_false. Qed.

Lemma set_scalar_sound p p1 es out parent key k value l :
  rep (doc_ p1) es -> depth_ p1 = depth_ p -> consumed p l p1 -> depth_ p <= MaxDepth -> is_container k = false ->
  value_text l (Tree k value []) -> json_value (Tree k value []) ->
  sound value_text p es parent key (set_result p1 (add_node MaxNodes MaxStringBytes (doc_ p1) out k parent key value)).
Proof.
  intros Hr Hd Hc Hdep Hk Ht Hj. pose proof (add_node_ok MaxNodes MaxStringBytes (doc_ p1) es out k parent key value Hr) as H.
  destruct (add_spec _ _ es k parent key value) as [s|e] eqn:Ea.
  - destruct H as (Hs & d' & -> & H'). unfold set_result. rewrite bind_Done. assert (succeeded s = false) as -> by (by apply bool_decide_eq_false).
    eapply sound_fail; [by apply capacity_failed|done|exact H'].
  - destruct H as (d' & -> & H'). unfold set_result. rewrite bind_Done. change (succeeded s_ok) with true.
    destruct (add_spec_inr _ _ _ _ _ _ Ea) as [-> Hf]. rewrite Hk in H'.
    eexists _, _, _. split; [done|]. split; [done|]. eexists. split; [exact H'|]. intros _. split; [done|]. split; [done|].
    exists l, (Tree k value []). split; [done|]. split; [by eapply consumed_pos|]. split; [done|]. split; [done|]. split; [done|].
    cbn [height]. rewrite Hk. lia.
Qed.

Lemma string_new_ok i : exists s, string_new (junk i) = Done s /\ holds MaxStringBytes s [].
Proof. unfold string_new. apply string_clear_ok. apply Hjunk. Qed.

Lemma read_string_sound p : exists r text p', read_string MaxStringBytes source junk p = Done (r, text, p') /\ depth_ p' = depth_ p /\ doc_ p' = doc_ p
  /\ (r_succeeded r = true -> exists body, consumed p (c_quote :: body ++ [c_quote]) p' /\ string_text body text).
Proof.
  unfold read_string. destruct (string_new_ok (position_ p)) as (s0 & -> & H0). rewrite bind_Done.
  destruct (decode_string_sound MaxStringBytes source (position_ p) s0 [] H0) as (r & i & s' & -> & _ & Hr). rewrite bind_Done.
  eexists _, _, _. split; [done|]. split; [done|]. split; [done|]. intros Hok.
  destruct (Hr Hok) as (-> & body & d & post & E & Hb & -> & Hh). exists body.
  destruct (holds_size _ _ _ Hh) as [-> _]. destruct (holds_prefix _ _ _ Hh) as [_ ->]. split; [|done].
  assert (Hl : length (drop (position_ p) source) = length body + 2 + length post) by (rewrite E; cbn [length]; rewrite length_app; cbn [length]; lia).
  rewrite length_drop in Hl. split; [|cbn; rewrite length_app; cbn; lia]. cbn [position_ with_position].
  rewrite <-Nat.add_assoc, <-drop_drop, E. replace (c_quote :: body ++ c_quote :: post) with ((c_quote :: body ++ [c_quote]) ++ post).
  - f_equal. rewrite drop_app_ge by (cbn [length]; rewrite length_app; cbn; lia). cbn [length]. rewrite length_app. cbn [length].
    replace (length body + 2 - S (length body + 1)) with 0 by lia. done.
  - cbn [app]. by rewrite <-app_assoc.
Qed.

Lemma parse_string_value_sound p es out parent key : rep (doc_ p) es -> depth_ p <= MaxDepth ->
  sound value_text p es parent key (parse_string_value MaxNodes MaxStringBytes source junk out parent key p).
Proof.
  intros Hr Hd. unfold parse_string_value. destruct (read_string_sound p) as (r & text & p' & -> & Hd' & Hdoc & Hok). rewrite bind_Done.
  destruct (r_succeeded r) eqn:Er; cbn [negb]; [|eapply sound_fail; [done|done|by rewrite Hdoc]].
  destruct (Hok eq_refl) as (body & Hc & Hb). eapply set_scalar_sound; [by rewrite Hdoc|done|done|done|done|by constructor|constructor].
Qed.

Lemma literal_loop_ok p (out : node_id) (literal : list Z) : position_ p + length literal <= length source ->
  for_range 0 (length literal) (fun i (_ : unit) =>
    c ← load source (position_ p + i); l ← load literal i;
    if negb (c =? l)%Z then Done (Return (fail source p e_invalid_literal, out, p)) else Done (Next tt)) tt
  = Done (if bool_decide (take (length literal) (drop (position_ p) source) = literal) then Next tt else Return (fail source p e_invalid_literal, out, p)).
Proof.
  intros Hl. match goal with |- for_range _ _ ?b _ = _ => set (body := b) end.
  assert (H : forall n i, i + n = length literal -> for_range i n body tt
    = Done (if bool_decide (take n (drop (position_ p + i) source) = drop i literal) then Next tt else Return (fail source p e_invalid_literal, out, p))).
  2:{ rewrite (H (length literal) 0) by lia. by rewrite Nat.add_0_r, drop_0. }
  induction n as [|n IH]; intros i Hi; cbn [for_range].
  - change (take 0 (drop (position_ p + i) source)) with (@nil Z). rewrite (drop_ge literal) by lia. by rewrite bool_decide_eq_true_2.
  - destruct (lookup_lt_is_Some_2 literal i) as [x Hx]; [lia|]. destruct (lookup_lt_is_Some_2 source (position_ p + i)) as [y Hy]; [lia|].
    unfold body at 1. rewrite (load_Done _ _ _ Hx), (load_Done _ _ _ Hy). exec_simpl. rewrite (drop_S _ _ _ Hx), (drop_S _ _ _ Hy). cbn [take].
    destruct (Z.eqb_spec y x) as [->|Hne]; cbn [negb]; [|by rewrite bool_decide_eq_false_2 by congruence].
    rewrite IH, <-Nat.add_succ_r by lia. repeat case_bool_decide; congruence.
Qed.

(** The value of a literal. *)
Definition literal_tree (literal : list Z) (k : kind_t) : tree := Tree k (if bool_decide (k = k_boolean) then literal else []) [].

Definition is_literal (literal : list Z) (k : kind_t) : Prop :=
  (k = k_boolean /\ (literal = true_text \/ literal = false_text)) \/ (k = k_null /\ literal = null_text).

Lemma literal_value literal k : is_literal literal k -> value_text literal (literal_tree literal k) /\ json_value (literal_tree literal k) /\ is_container k = false.
Proof.
  unfold literal_tree. intros [[-> [-> | ->]]|[-> ->]]; cbn.
  - split; [apply (V_bool true)|]. split; [apply (J_bool true)|done].
  - split; [apply (V_bool false)|]. split; [apply (J_bool false)|done].
  - split; [constructor|]. split; [constructor|done].
Qed.

Lemma set_literal literal k p out parent key : is_literal literal k ->
  (if bool_decide (k = k_boolean)
   then l ← load literal 0; set_bool MaxNodes MaxStringBytes (doc_ p) out (l =? 116)%Z parent key
   else set_null MaxNodes MaxStringBytes (doc_ p) out parent key)
  = add_node MaxNodes MaxStringBytes (doc_ p) out k parent key (if bool_decide (k = k_boolean) then literal else []).
Proof. by intros [[-> [-> | ->]]|[-> ->]]. Qed.

Lemma parse_literal_sound literal k p es out parent key : is_literal literal k -> rep (doc_ p) es -> depth_ p <= MaxDepth ->
  sound value_text p es parent key (parse_literal MaxNodes MaxStringBytes source literal k out parent key p).
Proof.
  intros Hk Hr Hd. unfold parse_literal. destruct (Nat.ltb_spec (length source) (position_ p + length literal)) as [Hlt|Hle].
  { eapply sound_fail; [apply fail_failed|done|done]. }
  rewrite literal_loop_ok by done. case_bool_decide as E; cbn [after]; [|eapply sound_fail; [apply fail_failed|done|done]].
  destruct (literal_value literal k Hk) as (Ht & Hj & Hc). rewrite set_literal by done.
  eapply set_scalar_sound; [exact Hr|done|by apply consumed_drop|done|done|exact Ht|exact Hj].
Qed.

Definition delimited (l : list Z) : Prop := forall c, head l = Some c -> is_number_delimiter c = true.

Lemma number_loop_sound out fuel p : position_ p <= length source -> length source - position_ p < fuel ->
  exists x, number_loop source out fuel p = Done x /\
    ((exists r p', x = Return (r, out, p') /\ r_succeeded r = false /\ depth_ p' = depth_ p /\ doc_ p' = doc_ p)
     \/ exists l, x = Next (with_position p (position_ p + length l)) /\ consumed p l (with_position p (position_ p + length l))).
Proof.
  revert p. unfold number_loop. induction fuel as [|fuel IH]; intros p Hp Hf; [lia|]. cbn [while_loop]. rewrite at_char_ok.
  assert (Hstop : exists l, @Next parsed parser p = Next (with_position p (position_ p + length l)) /\ consumed p l (with_position p (position_ p + length l))).
  { exists []. cbn [length]. rewrite Nat.add_0_r. split; [by destruct p|]. split; [done|]. cbn. lia. }
  destruct (drop (position_ p) source) as [|c l] eqn:E; cbn [head]; [by eexists; split; [|right]|].
  destruct (is_number_delimiter c); cbn [negb]; [by eexists; split; [|right]|]. clear Hstop.
  assert (Hc : source !! position_ p = Some c) by (rewrite <-(Nat.add_0_r (position_ p)), <-lookup_drop, E; done).
  rewrite (load_Done _ _ _ Hc), bind_Done. destruct (number_char c); cbn [negb].
  2:{ eexists. split; [done|]. left. eexists _, p. split; [done|]. split; [apply fail_failed|done]. }
  destruct (drop_cons_pos _ _ _ E) as [Hlt El]. destruct (IH (advance p)) as (x & -> & Hx); [cbn; lia|cbn; lia|].
  exists x. split; [done|]. destruct Hx as [(r & p' & -> & Hr & Hd & Hdoc)|(l' & -> & Hcons)]; [left; by exists r, p'|right].
  exists (c :: l'). pose proof (consumed_app _ _ _ _ _ (consumed_char p c l E) Hcons) as Hcc. cbn [app advance with_position position_ length] in *.
  replace (position_ p + S (length l')) with (position_ p + 1 + length l') by lia. done.
Qed.

Lemma number_char_in l : number_text l -> Forall (fun c => number_char c = true /\ is_number_delimiter c = false) l.
Proof.
  assert (Hd : forall ds, all_digits ds -> Forall (fun c => number_char c = true /\ is_number_delimiter c = false) ds).
  { intros ds H. eapply Forall_impl; [exact H|]. intros c Hc. unfold number_char, is_number_delimiter, is_space, is_digit in *. lia. }
  intros (sign & i & f & e & -> & Hs & Hi & Hf & He). apply Forall_app. split; [destruct Hs as [->| ->]; repeat constructor; done|].
  apply Forall_app. split; [|apply Forall_app; split].
  - destruct Hi as [->|(c & r & -> & Hc & Hr)]; [repeat constructor|]. constructor; [|by apply Hd].
    unfold number_char, is_number_delimiter, is_space, is_digit. lia.
  - destruct Hf as [->|(ds & -> & _ & Hds)]; [constructor|]. constructor; [done|by apply Hd].
  - destruct He as [->|(c & sg & ds & -> & Hc & Hsg & _ & Hds)]; [constructor|]. constructor; [by destruct Hc as [->| ->]|].
    apply Forall_app. split; [|by apply Hd]. destruct Hsg as [->|[->| ->]]; repeat constructor; done.
Qed.

Lemma number_loop_complete out l fuel p rest : drop (position_ p) source = l ++ rest -> delimited rest ->
  Forall (fun c => number_char c = true /\ is_number_delimiter c = false) l -> length l < fuel ->
  number_loop source out fuel p = Done (Next (with_position p (position_ p + length l))).
Proof.
  intros E Hr Hl. revert fuel p E. unfold number_loop. induction Hl as [|c l [Hn Hd] Hl IH]; intros fuel p E Hf; (destruct fuel as [|fuel]; [lia|]);
    cbn [while_loop]; rewrite at_char_ok, E.
  - cbn [app length]. rewrite Nat.add_0_r. destruct (head rest) as [c|] eqn:Eh; [rewrite (Hr c Eh)|]; by destruct p.
  - cbn [app head]. rewrite Hd. cbn [negb].
    assert (Hc : source !! position_ p = Some c) by (rewrite <-(Nat.add_0_r (position_ p)), <-lookup_drop, E; done).
    rewrite (load_Done _ _ _ Hc), bind_Done, Hn. cbn [negb]. destruct (drop_cons_pos _ _ _ E) as [Hlt El].
    rewrite IH; [|done|cbn in Hf; lia]. do 2 f_equal. cbn [length advance with_position position_ doc_ depth_]. unfold with_position. cbn. f_equal. lia.
Qed.

Lemma parse_number_sound p es out parent key : rep (doc_ p) es -> depth_ p <= MaxDepth -> position_ p <= length source ->
  sound value_text p es parent key (parse_number MaxNodes MaxStringBytes source out parent key p).
Proof.
  intros Hr Hd Hp. unfold parse_number.
  destruct (number_loop_sound out (S (length source)) p Hp) as (x & -> & Hx); [lia|].
  destruct Hx as [(r & p' & -> & Hf & Hdp & Hdoc)|(l & -> & Hc)]; cbn [after].
  { eapply sound_fail; [done|done|by rewrite Hdoc]. }
  cbn [position_ with_position doc_]. rewrite Nat.add_sub'. destruct Hc as (E & _ & Hle). cbn in E, Hle.
  assert (take (length l) (drop (position_ p) source) = l) as -> by (rewrite E; apply take_app_length).
  unfold set_number. destruct (valid_number_exact l) as (b & -> & Hb). rewrite bind_Done.
  destruct b; cbn [negb]; rewrite ?bind_Done; cbn [negb]; [|eapply sound_fail; [apply fail_failed|done|exact Hr]].
  eapply (set_scalar_sound p (with_position p (position_ p + length l))); [exact Hr|done| |done|done|constructor; by apply Hb|constructor; by apply Hb]. by split.
Qed.

(** *** Containers *)

Definition spaced_text (l : list Z) (t : tree) : Prop := exists w l', l = w ++ l' /\ spaces w /\ value_text l' t.

Definition before_sound (k : kind_t) (before : parser -> exec (ctl (result * parser) (list Z * parser))) : Prop :=
  forall p, position_ p < length source -> exists x, before p = Done x /\
    match x with
    | Return (r, p') => r_succeeded r = false /\ doc_ p' = doc_ p /\ depth_ p' = depth_ p
    | Next (name, p') => doc_ p' = doc_ p /\ depth_ p' = depth_ p /\ exists kt, key_text k kt name /\ consumed p kt p'
    end.

Lemma no_key_sound : before_sound k_array no_key.
Proof.
  intros p Hp. eexists. split; [done|]. split; [done|]. split; [done|]. exists []. split; [constructor|]. split; [done|]. cbn. lia.
Qed.

Lemma skip_consumed p w : spaces w -> drop (position_ p) source = w ++ drop (position_ p + length w) source -> position_ p + length w <= length source ->
  consumed p w (with_position p (position_ p + length w)).
Proof. done. Qed.

Lemma parse_key_sound : before_sound k_object (parse_key MaxStringBytes source junk).
Proof.
  intros p Hp. unfold parse_key. destruct (lookup_lt_is_Some_2 source (position_ p) Hp) as [c Hc]. rewrite (load_Done _ _ _ Hc), bind_Done.
  destruct (c =? c_quote)%Z; cbn [negb]; [|by eexists; split; [done|]; split; [apply fail_failed|]].
  destruct (read_string_sound p) as (r & text & p1 & -> & Hd & Hdoc & Hok). rewrite bind_Done.
  destruct (r_succeeded r) eqn:Er; cbn [negb]; [|by eexists; split].
  destruct (Hok eq_refl) as (body & Hcons & Hb). pose proof Hcons as (_ & _ & Hle).
  destruct (skip_space_ok p1 Hle) as (w & -> & Hw & Ew & _ & Hle'). rewrite bind_Done, at_char_ok, bind_Done. cbn [position_ with_position].
  destruct (match head (drop (position_ p1 + length w) source) with Some c => _ | None => false end) eqn:Eh; cbn [negb];
    [|by eexists; split; [done|]; split; [apply fail_failed|]].
  destruct (drop (position_ p1 + length w) source) as [|q l] eqn:El; [done|]. apply Z.eqb_eq in Eh as ->.
  eexists. split; [done|]. split; [done|]. split; [done|]. exists (c_quote :: body ++ c_quote :: w ++ [c_colon]). split; [by constructor|].
  replace (c_quote :: body ++ c_quote :: w ++ [c_colon]) with ((c_quote :: body ++ [c_quote]) ++ w ++ [c_colon])
    by (cbn [app]; by rewrite <-app_assoc).
  eapply consumed_app; [exact Hcons|]. eapply consumed_app; [apply (skip_consumed p1 w); [done|by rewrite El|done]|].
  by eapply consumed_char.
Qed.

Definition good_kid (k : kind_t) (dep : nat) (c : list Z * tree) : Prop :=
  (if bool_decide (k = k_object) then fst c <> [] else fst c = []) /\ json_value (snd c) /\ dep + height (snd c) <= MaxDepth.

Lemma items_lead k w l kids : spaces w -> items_text k l kids -> items_text k (w ++ l) kids.
Proof.
  intros Hw. inversion 1; subst; rewrite app_assoc; constructor; auto using spaces_app.
Qed.

Section Items.
Context (k : kind_t) (Hk : is_container k = true) (before : parser -> exec (ctl (result * parser) (list Z * parser))) (Hbefore : before_sound k before).
Context (dep : nat) (value : node_id -> node_id -> list Z -> parser -> exec parsed).
Context (Hvalue : forall p es parent key out, rep (doc_ p) es -> depth_ p = S dep -> position_ p <= length source ->
           sound spaced_text p es parent key (value out parent key p)).
Context (es : list entry) (parent : node_id) (key : list Z).
Let b := length es.
Let e := mk_entry k parent key [].
Let held (kids : list (list Z * tree)) : list entry := es ++ e :: flatten_list (S b) b kids.

(** What the loop leaves when it returns. *)
Definition items_out (p : parser) (kids : list (list Z * tree)) (x : parsed) : Prop :=
  let '(r, out, p') := x in
  out = Some (length es) /\ depth_ p' = dep /\ exists es', rep (doc_ p') es' /\
    (r_succeeded r = true -> r = result_ok /\ exists l more, items_text k l more /\ consumed p (l ++ [closer k]) p'
       /\ es' = es ++ mk_entry k parent key [] :: flatten_list (S (length es)) (length es) (kids ++ more) /\ Forall (good_kid k (S dep)) more).

Lemma items_out_fail p kids r p' es' : r_succeeded r = false -> depth_ p' = S dep -> rep (doc_ p') es' ->
  items_out p kids (r, Some b, shallower p').
Proof. intros Hr Hd He. split; [done|]. split; [cbn; lia|]. exists es'. split; [done|]. by rewrite Hr. Qed.

Lemma held_snoc kids name t : held kids ++ flatten (length (held kids)) (Some b) name t = held (kids ++ [(name, t)]).
Proof.
  unfold held. rewrite flatten_list_snoc, <-app_assoc. cbn [app]. rewrite !length_app. cbn [length]. rewrite length_flatten_list.
  do 4 f_equal. fold b. lia.
Qed.

Lemma held_at kids : held kids !! b = Some e.
Proof. unfold held. by apply list_lookup_middle. Qed.

Lemma kid_key kids name : key_fits (held kids) (Some b) name -> if bool_decide (k = k_object) then name <> [] else name = [].
Proof.
  intros H. destruct (H b e eq_refl (held_at kids)) as [Ho Ha]. cbn [e_kind e] in *. unfold is_container in Hk.
  case_bool_decide; [by apply Ho|]. apply Ha. by case_bool_decide.
Qed.

(** One pass: it ends the container, or a comma leads to the next pass. *)
Lemma item_body_sound p kids : rep (doc_ p) (held kids) -> depth_ p = S dep -> position_ p < length source ->
  exists x, item_body source before value (closer k) (Some b) p = Done x /\
    match x with
    | Return y => items_out p kids y
    | Next p' => depth_ p' = S dep /\ position_ p < position_ p' <= length source /\ exists kt name w1 l t w2 w3,
        key_text k kt name /\ spaces w1 /\ value_text l t /\ spaces w2 /\ spaces w3 /\ consumed p (kt ++ w1 ++ l ++ w2 ++ c_comma :: w3) p'
        /\ rep (doc_ p') (held (kids ++ [(name, t)])) /\ good_kid k (S dep) (name, t)
    end.
Proof.
  intros Hr Hd Hp. unfold item_body. destruct (Hbefore p Hp) as ([[r p1]|[name p1]] & -> & H1); rewrite bind_Done.
  { destruct H1 as (Hf & Hdoc & Hd1). eexists. split; [done|]. eapply items_out_fail; [done|lia|by rewrite Hdoc]. }
  destruct H1 as (Hdoc & Hd1 & kt & Hkt & Hc1). pose proof Hc1 as (_ & _ & Hle1).
  destruct (Hvalue p1 (held kids) (Some b) name npos) as (vr & child & p2 & -> & Hd2 & es2 & Hr2 & Hok); [by rewrite Hdoc|lia|done|].
  rewrite bind_Done. destruct (r_succeeded vr) eqn:Ev; cbn [negb].
  2:{ eexists. split; [done|]. eapply items_out_fail; [done|lia|exact Hr2]. }
  destruct (Hok eq_refl) as (_ & _ & l0 & t & (w1 & l & -> & Hw1 & Hl) & Hc2 & -> & Hkf & Hj & Hh). clear Hok.
  pose proof Hc2 as (_ & _ & Hle2). rewrite held_snoc in Hr2.
  assert (Hgood : good_kid k (S dep) (name, t)).
  { split; [by apply (kid_key kids)|]. split; [done|]. cbn [snd]. lia. }
  destruct (skip_space_ok p2 Hle2) as (w2 & -> & Hw2 & E2 & _ & Hle3). rewrite bind_Done, !at_char_ok. cbn [position_ with_position]. rewrite bind_Done.
  assert (Hc3 : consumed p (kt ++ w1 ++ l ++ w2) (with_position p2 (position_ p2 + length w2))).
  { rewrite (app_assoc w1), app_assoc. eapply consumed_app; [eapply consumed_app; [exact Hc1|exact Hc2]|]. by apply skip_consumed. }
  set (p3 := with_position p2 (position_ p2 + length w2)) in *. change (position_ p2 + length w2) with (position_ p3). change (position_ p2 + length w2) with (position_ p3) in Hle3.
  destruct (drop (position_ p3) source) as [|c rest] eqn:E3; cbn [head].
  { rewrite bind_Done. cbn [negb]. eexists. split; [done|]. eapply items_out_fail; [apply fail_failed|cbn; lia|exact Hr2]. }
  destruct (Z.eqb_spec c (closer k)) as [->|Hclose].
  { eexists. split; [done|]. split; [done|]. split; [cbn; lia|]. eexists. split; [exact Hr2|]. intros _. split; [done|].
    exists ([] ++ kt ++ w1 ++ l ++ w2), [(name, t)]. split; [constructor; try done; constructor|].
    split; [|split; [done|by constructor; [|constructor]]].
    cbn [app]. rewrite <-!app_assoc. rewrite (app_assoc l), (app_assoc w1), (app_assoc kt). eapply consumed_app; [exact Hc3|].
    eapply consumed_pos; [eapply consumed_char; exact E3|done|done]. }
  rewrite bind_Done. destruct (Z.eqb_spec c c_comma) as [->|Hcomma]; cbn [negb].
  2:{ eexists. split; [done|]. eapply items_out_fail; [apply fail_failed|cbn; lia|exact Hr2]. }
  pose proof (consumed_char p3 _ _ E3) as Hc4. pose proof Hc4 as (_ & _ & Hle4).
  destruct (skip_space_ok (advance p3) Hle4) as (w3 & -> & Hw3 & E4 & _ & Hle5). rewrite bind_Done.
  eexists. split; [done|]. split; [cbn; lia|].
  assert (Hc5 : consumed p (kt ++ w1 ++ l ++ w2 ++ c_comma :: w3) (with_position (advance p3) (position_ (advance p3) + length w3))).
  { replace (kt ++ w1 ++ l ++ w2 ++ c_comma :: w3) with ((kt ++ w1 ++ l ++ w2) ++ [c_comma] ++ w3) by (by rewrite <-!app_assoc).
    eapply consumed_app; [exact Hc3|]. eapply consumed_app; [exact Hc4|]. by apply skip_consumed. }
  split; [destruct Hc5 as (_ & Hpos & Hl5); rewrite !length_app in Hpos; cbn [length] in Hpos; lia|].
  exists kt, name, w1, l, t, w2, w3. auto 10.
Qed.

Lemma items_loop_sound fuel p kids : rep (doc_ p) (held kids) -> depth_ p = S dep -> position_ p <= length source -> length source - position_ p < fuel ->
  exists x, while_loop fuel (fun p => Done (position_ p <? length source)) (item_body source before value (closer k) (Some b)) p = Done x /\
    match x with
    | Next p' => depth_ p' = S dep /\ exists es', rep (doc_ p') es'
    | Return y => items_out p kids y
    end.
Proof.
  revert p kids. induction fuel as [|fuel IH]; intros p kids Hr Hd Hp Hf; [lia|]. cbn [while_loop].
  destruct (Nat.ltb_spec (position_ p) (length source)) as [Hlt|Hge]; [|eexists; split; [done|]; split; [done|by eexists]].
  destruct (item_body_sound p kids Hr Hd Hlt) as ([y|p1] & -> & H1); [by eexists|].
  destruct H1 as (Hd1 & Hp1 & kt & name & w1 & l & t & w2 & w3 & Hkt & Hw1 & Hl & Hw2 & Hw3 & Hc & Hr1 & Hg).
  destruct (IH p1 (kids ++ [(name, t)]) Hr1 Hd1) as (x & -> & Hx); [lia|lia|]. exists x. split; [done|].
  destruct x as [[[r out] p']|p']; [|done]. destruct Hx as (Ho & Hdp & es' & Hr' & Hok). split; [done|]. split; [done|]. exists es'. split; [done|].
  intros Hs. destruct (Hok Hs) as (-> & l' & more & Hi & Hc' & -> & Hgood). split; [done|].
  exists ([] ++ kt ++ w1 ++ l ++ w2 ++ c_comma :: w3 ++ l'), ((name, t) :: more). split; [|split; [|split; [|by constructor]]].
  - apply I_more; try done; [constructor|]. by apply items_lead.
  - cbn [app]. replace ((kt ++ w1 ++ l ++ w2 ++ c_comma :: w3 ++ l') ++ [closer k]) with ((kt ++ w1 ++ l ++ w2 ++ c_comma :: w3) ++ l' ++ [closer k]).
    + by eapply consumed_app.
    + rewrite <-!app_assoc. cbn [app]. by rewrite <-!app_assoc.
  - by rewrite <-app_assoc.
Qed.
End Items.

Lemma good_kids k dep kids : is_container k = true -> Forall (good_kid k (S dep)) kids -> S dep <= MaxDepth ->
  json_value (Tree k [] kids) /\ dep + height (Tree k [] kids) <= MaxDepth.
Proof.
  intros Hk H Hd. split.
  - constructor; [done|]. eapply Forall_impl; [exact H|]. by intros c (? & ? & _).
  - cbn [height]. rewrite Hk. fold (kids_height kids). enough (S dep + kids_height kids <= MaxDepth) by lia.
    unfold kids_height. induction H as [|c kids (_ & _ & Hc) _ IH]; cbn [max_list_with]; lia.
Qed.

Lemma parse_container_sound k make before value out parent key p es c rest :
  is_container k = true -> (forall d out parent key, make d out parent key = add_node MaxNodes MaxStringBytes d out k parent key []) ->
  before_sound k before ->
  (S (depth_ p) <= MaxDepth -> forall p1 es parent key out, rep (doc_ p1) es -> depth_ p1 = S (depth_ p) -> position_ p1 <= length source ->
     sound spaced_text p1 es parent key (value out parent key p1)) ->
  rep (doc_ p) es -> drop (position_ p) source = c :: rest -> c = opener k ->
  sound value_text p es parent key (parse_container MaxDepth source make before (closer k) value out parent key p).
Proof.
  intros Hk Hmake Hbefore Hvalue Hr E ->. unfold parse_container. set (p1 := deeper (advance p)).
  assert (Hc1 : consumed p [opener k] p1) by (eapply consumed_pos; [by eapply consumed_char|done|done]). pose proof Hc1 as (_ & _ & Hle1).
  destruct (Nat.ltb_spec MaxDepth (depth_ p1)) as [Hlt|Hdep].
  { eapply sound_fail; [apply fail_failed|cbn; lia|exact Hr]. }
  assert (Hd1 : depth_ p1 = S (depth_ p)) by (cbn; lia). rewrite Hd1 in Hdep. specialize (Hvalue Hdep). rewrite Hmake.
  pose proof (add_node_ok MaxNodes MaxStringBytes (doc_ p1) es out k parent key [] Hr) as H.
  destruct (add_spec _ _ es k parent key []) as [s|e] eqn:Ea.
  { destruct H as (Hs & d' & -> & H'). rewrite bind_Done. assert (succeeded s = false) as -> by (by apply bool_decide_eq_false). cbn [negb].
    eapply sound_fail; [by apply capacity_failed|cbn; lia|exact H']. }
  destruct H as (d' & -> & H'). rewrite bind_Done. change (succeeded s_ok) with true. cbn [negb].
  destruct (add_spec_inr _ _ _ _ _ _ Ea) as [-> Hf]. assert ((if is_container k then [] else []) = @nil Z) as Hnil by (by case_match). rewrite Hnil in H'.
  set (p2 := with_doc p1 d'). destruct (skip_space_ok p2 Hle1) as (w & -> & Hw & Ew & _ & Hle2). rewrite bind_Done, at_char_ok, bind_Done.
  set (p3 := with_position p2 (position_ p2 + length w)). change (position_ p2 + length w) with (position_ p3) in Hle2.
  assert (Hc3 : consumed p ([opener k] ++ w) p3).
  { eapply consumed_app; [exact Hc1|]. eapply (consumed_pos p2 p1); [by apply skip_consumed|done|done]. }
  destruct (match head (drop (position_ p3) source) with Some c => (c =? closer k)%Z | None => false end) eqn:Eh.
  - destruct (head_char p3 _ Eh) as (c & l & Ec & ->%Z.eqb_eq). eexists _, _, _. split; [done|]. split; [cbn; lia|].
    eexists. split; [exact H'|]. intros _. split; [done|]. split; [done|].
    destruct (good_kids k (depth_ p) []) as [Hj Hh]; [done|constructor|done|].
    exists (opener k :: w ++ [closer k]), (Tree k [] []). split; [by constructor|]. split; [|by rewrite flatten_tree].
    change (opener k :: w ++ [closer k]) with ([opener k] ++ w ++ [closer k]). rewrite app_assoc. eapply consumed_app; [exact Hc3|].
    eapply consumed_pos; [by eapply consumed_char|done|done].
  - destruct (items_loop_sound k Hk before Hbefore (depth_ p) value Hvalue es parent key (S (length source)) p3 []) as (x & -> & Hx);
      [exact H'|done|done|lia|]. destruct x as [[[r out'] p']|p']; cbn [after].
    + destruct Hx as (-> & Hd' & es' & Hr' & Hok). exists r, (Some (length es)), p'. split; [done|]. split; [done|]. exists es'. split; [done|].
      intros Hs. destruct (Hok Hs) as (-> & l & more & Hi & Hc & -> & Hg). cbn [app] in *. split; [done|]. split; [done|].
      destruct (good_kids k (depth_ p) more Hk Hg Hdep) as [Hj Hh].
      exists (opener k :: (w ++ l) ++ [closer k]), (Tree k [] more). split; [constructor; [done|by apply items_lead]|].
      split; [|by rewrite flatten_tree]. change (opener k :: (w ++ l) ++ [closer k]) with ([opener k] ++ (w ++ l) ++ [closer k]).
      rewrite <-app_assoc, app_assoc. by eapply consumed_app.
    + destruct Hx as (Hd' & es' & Hr'). eapply sound_fail; [apply fail_failed|cbn; lia|exact Hr'].
Qed.

Lemma parse_value_sound fuel p es out parent key : rep (doc_ p) es -> position_ p <= length source -> depth_ p <= MaxDepth -> MaxDepth < depth_ p + fuel ->
  sound spaced_text p es parent key (parse_value MaxNodes MaxStringBytes MaxDepth source junk fuel out parent key p).
Proof.
  revert p es out parent key. induction fuel as [|fuel IH]; intros p es out parent key Hr Hp Hd Hf; [lia|]. cbn [parse_value].
  destruct (skip_space_ok p Hp) as (w & -> & Hw & Ew & _ & Hle). rewrite bind_Done. set (p1 := with_position p (position_ p + length w)).
  assert (Hlift : forall x, sound value_text p1 es parent key x -> sound spaced_text p es parent key x).
  { intros x (r & out' & p' & -> & Hdp & es' & Hr' & Hok). exists r, out', p'. split; [done|]. split; [done|]. exists es'. split; [done|].
    intros Hs. destruct (Hok Hs) as (-> & -> & l & t & Ht & Hc & Hrest). split; [done|]. split; [done|]. exists (w ++ l), t.
    split; [by exists w, l|]. split; [|done]. eapply consumed_app; [|exact Hc]. by apply skip_consumed. }
  apply Hlift. clear Hlift. destruct (Nat.leb_spec (length source) (position_ p1)) as [Hge|Hlt].
  { eapply sound_fail; [apply fail_failed|done|exact Hr]. }
  destruct (lookup_lt_is_Some_2 source (position_ p1) Hlt) as [c Hc]. rewrite (load_Done _ _ _ Hc), bind_Done. pose proof (drop_S _ _ _ Hc) as E.
  assert (Hvalue : S (depth_ p1) <= MaxDepth -> forall p2 es parent key out, rep (doc_ p2) es -> depth_ p2 = S (depth_ p1) -> position_ p2 <= length source ->
    sound spaced_text p2 es parent key (parse_value MaxNodes MaxStringBytes MaxDepth source junk fuel out parent key p2)).
  { intros Hs p2 es2 parent2 key2 out2 Hr2 Hd2 Hp2. apply IH; [done|done|lia|cbn in *; lia]. }
  destruct (Z.eqb_spec c c_obrace) as [->|_].
  { eapply (parse_container_sound k_object); [done|done|apply parse_key_sound|exact Hvalue|exact Hr|exact E|done]. }
  destruct (Z.eqb_spec c c_open) as [->|_].
  { eapply (parse_container_sound k_array); [done|done|apply no_key_sound|exact Hvalue|exact Hr|exact E|done]. }
  destruct (Z.eqb_spec c c_quote) as [->|_]; [by apply parse_string_value_sound|].
  destruct (Z.eqb_spec c 116) as [->|_]; [apply parse_literal_sound; [left; by auto|done|done]|].
  destruct (Z.eqb_spec c 102) as [->|_]; [apply parse_literal_sound; [left; by auto|done|done]|].
  destruct (Z.eqb_spec c 110) as [->|_]; [apply parse_literal_sound; [by right|done|done]|].
  destruct ((c =? c_minus)%Z || is_digit c); [by apply parse_number_sound|].
  eapply sound_fail; [apply fail_failed|done|exact Hr].
Qed.

(** ** What is grammatical and within the limits is accepted *)

Definition parent_fits (es : list entry) (parent : node_id) : Prop := match parent with Some q => q < length es | None => es = [] end.

Lemma add_spec_ok es k parent key value : parent_fits es parent -> key_fits es parent key -> length es < MaxNodes ->
  bytes_of es + length key + (if is_container k then 0 else length value) <= MaxStringBytes ->
  add_spec MaxNodes MaxStringBytes es k parent key value = inr (mk_entry k parent key (if is_container k then [] else value)).
Proof.
  intros Hp Hk Hn Hb. unfold add_spec. fold (is_container k). set (v := if is_container k then [] else value).
  assert (Hv : length v = if is_container k then 0 else length value) by (subst v; by case_match).
  assert (Hroom : (if length es =? MaxNodes then inl s_full
     else if decide (bytes_of es + length key + length v <= MaxStringBytes) then inr (mk_entry k parent key v) else inl s_full) = inr (mk_entry k parent key v)).
  { rewrite (proj2 (Nat.eqb_neq _ _)), decide_True by lia. done. }
  destruct parent as [q|]; cbn in Hp.
  - destruct (lookup_lt_is_Some_2 es q Hp) as [x Hx]. rewrite Hx. destruct (Hk q x eq_refl Hx) as [Ho Ha].
    destruct (decide (e_kind x = k_object)) as [E|E].
    + specialize (Ho E). rewrite E. cbn. destruct key; [done|]. exact Hroom.
    + rewrite (bool_decide_eq_false_2 (e_kind x = k_object)) by done. cbn [andb].
      destruct (decide (e_kind x = k_array)) as [E'|E']; [rewrite (Ha E') in *; rewrite andb_false_r; exact Hroom|].
      rewrite (bool_decide_eq_false_2 (e_kind x = k_array)) by done. exact Hroom.
  - by subst es.
Qed.

(** Room for [t] under [key] behind the entries [es], [dep] containers deep. *)
Definition room (dep : nat) (es : list entry) (key : list Z) (t : tree) : Prop :=
  dep + height t <= MaxDepth /\ length es + tree_size t <= MaxNodes /\ bytes_of es + length key + tree_bytes t <= MaxStringBytes.

Definition complete (p : parser) (es : list entry) (parent : node_id) (key : list Z) (n : nat) (t : tree) (x : exec parsed) : Prop :=
  exists p', x = Done (result_ok, Some (length es), p') /\ depth_ p' = depth_ p /\ position_ p' = position_ p + n
    /\ rep (doc_ p') (es ++ flatten (length es) parent key t).

Lemma set_scalar_complete p es out parent key k value n :
  rep (doc_ p) es -> is_container k = false -> parent_fits es parent -> key_fits es parent key -> room (depth_ p) es key (Tree k value []) ->
  complete p es parent key n (Tree k value [])
    (set_result (with_position p (position_ p + n)) (add_node MaxNodes MaxStringBytes (doc_ p) out k parent key value)).
Proof.
  intros Hr Hk Hp Hf (_ & Hn & Hb). pose proof (add_node_ok MaxNodes MaxStringBytes (doc_ p) es out k parent key value Hr) as H.
  cbn [tree_size tree_bytes sum_list_with] in *. rewrite add_spec_ok in H; [|done|done|lia|rewrite Hk; lia]. rewrite Hk in H.
  destruct H as (d' & -> & H'). unfold set_result. rewrite bind_Done. change (succeeded s_ok) with true.
  eexists. split; [done|]. split; [done|]. by split.
Qed.

Lemma read_string_complete p body text rest : drop (position_ p) source = c_quote :: body ++ c_quote :: rest -> string_text body text ->
  length text <= MaxStringBytes -> read_string MaxStringBytes source junk p = Done (result_ok, text, with_position p (position_ p + length body + 2)).
Proof.
  intros E Hb Hl. unfold read_string. destruct (string_new_ok (position_ p)) as (s0 & -> & H0). rewrite bind_Done.
  destruct (decode_string_complete MaxStringBytes source (position_ p) s0 [] body text rest H0 E Hb Hl) as (s' & -> & Hh). rewrite bind_Done.
  destruct (holds_size _ _ _ Hh) as [-> _]. by destruct (holds_prefix _ _ _ Hh) as [_ ->].
Qed.

Definition before_complete (k : kind_t) (before : parser -> exec (ctl (result * parser) (list Z * parser))) : Prop :=
  forall p kt name rest, key_text k kt name -> drop (position_ p) source = kt ++ rest -> position_ p <= length source -> length name <= MaxStringBytes ->
    before p = Done (Next (name, with_position p (position_ p + length kt))).

Lemma no_key_complete : before_complete k_array no_key.
Proof. intros p kt name rest Hk E _ _. inversion Hk; subst. cbn [length]. rewrite Nat.add_0_r. by destruct p. Qed.

Lemma parse_key_complete : before_complete k_object (parse_key MaxStringBytes source junk).
Proof.
  intros p kt name rest Hk E Hp Hl. inversion Hk as [|body ? w Hb Hw]; subst. unfold parse_key.
  assert (E' : drop (position_ p) source = c_quote :: body ++ c_quote :: w ++ c_colon :: rest).
  { rewrite E. cbn [app]. rewrite <-!app_assoc. cbn [app]. by rewrite <-!app_assoc. }
  assert (Hc : source !! position_ p = Some c_quote) by (rewrite <-(Nat.add_0_r (position_ p)), <-lookup_drop, E'; done).
  rewrite (load_Done _ _ _ Hc), bind_Done. cbn [Z.eqb Pos.eqb negb]. rewrite (read_string_complete p body name _ E' Hb Hl), bind_Done.
  change (r_succeeded result_ok) with true. cbn [negb]. set (p1 := with_position p (position_ p + length body + 2)).
  assert (E1 : drop (position_ p1) source = w ++ c_colon :: rest).
  { cbn. rewrite <-Nat.add_assoc, <-drop_drop, E'. replace (c_quote :: body ++ c_quote :: w ++ c_colon :: rest) with ((c_quote :: body ++ [c_quote]) ++ w ++ c_colon :: rest).
    - rewrite drop_app_ge by (cbn [length]; rewrite length_app; cbn; lia). cbn [length]. rewrite length_app. cbn [length].
      replace (length body + 2 - S (length body + 1)) with 0 by lia. done.
    - cbn [app]. by rewrite <-app_assoc. }
  assert (Hp1 : position_ p1 <= length source).
  { pose proof (f_equal length E') as Hx. rewrite length_drop in Hx. cbn [length] in Hx. rewrite length_app in Hx. cbn [length] in Hx. cbn. lia. }
  destruct (skip_space_to p1 w (c_colon :: rest) E1 Hp1 Hw) as (-> & E2 & _); [by intros c [= <-]|]. rewrite bind_Done, at_char_ok, bind_Done.
  cbn [position_ with_position]. change (position_ p + length body + 2) with (position_ p1). rewrite E2. cbn [head Z.eqb Pos.eqb negb].
  do 3 f_equal. cbn. unfold advance, with_position. cbn. f_equal. rewrite !length_app. cbn [length]. rewrite length_app. cbn. lia.
Qed.

Lemma value_head l t : value_text l t ->
  exists c l', l = c :: l' /\ is_space c = false /\ c <> c_close /\ c <> c_cbrace.
Proof.
  inversion 1 as [|b|? Hn|body s Hb|k w Hk|k l' kids Hk]; subst.
  - by eexists _, _.
  - destruct b; by eexists _, _.
  - destruct Hn as (sign & i & f & e & -> & Hs & Hi & _). destruct Hs as [->| ->]; [|by eexists _, _].
    destruct Hi as [->|(c & r & -> & Hc & _)]; [by eexists _, _|]. eexists _, _. split; [done|]. unfold is_space. lia.
  - by eexists _, _.
  - eexists _, _. split; [done|]. unfold opener. by case_bool_decide.
  - eexists _, _. split; [done|]. unfold opener. by case_bool_decide.
Qed.

Lemma delimited_spaces w c rest : spaces w -> is_number_delimiter c = true -> delimited (w ++ c :: rest).
Proof.
  intros Hw Hc x. destruct Hw as [|y w Hy Hw]; cbn; intros [= <-]; [done|]. unfold is_number_delimiter. by rewrite Hy.
Qed.

(** A parser of values that accepts what is grammatical and has room, [dep] containers deep. *)
Definition value_complete (dep : nat) (value : node_id -> node_id -> list Z -> parser -> exec parsed) : Prop :=
  forall p es parent key out w l t rest, rep (doc_ p) es -> depth_ p = dep -> position_ p <= length source ->
    drop (position_ p) source = w ++ l ++ rest -> spaces w -> value_text l t -> json_value t -> delimited rest ->
    parent_fits es parent -> key_fits es parent key -> room dep es key t ->
    complete p es parent key (length w + length l) t (value out parent key p).

Lemma room_list dep b key_ es e kids name t more :
  S dep + kids_height ((name, t) :: more) <= MaxDepth ->
  length es + S (kids_size (kids ++ (name, t) :: more)) <= MaxNodes ->
  bytes_of es + length key_ + kids_bytes (kids ++ (name, t) :: more) <= MaxStringBytes -> e_key e = key_ -> e_value e = [] ->
  room (S dep) (es ++ e :: flatten_list (S b) b kids) name t /\ length name <= MaxStringBytes.
Proof.
  intros Hh Hn Hb Hek Hev. unfold kids_height, kids_size, kids_bytes in *. cbn [max_list_with snd] in Hh.
  rewrite sum_list_with_app in Hn, Hb. cbn [sum_list_with fst snd] in Hn, Hb. unfold room.
  rewrite bytes_of_app, length_app. change (bytes_of (e :: ?l)) with (length (e_key e) + length (e_value e) + bytes_of l).
  rewrite Hek, Hev. cbn [length]. rewrite length_flatten_list, bytes_of_flatten_list. unfold kids_size, kids_bytes. lia.
Qed.

Section ItemsComplete.
Context (k : kind_t) (Hk : is_container k = true) (before : parser -> exec (ctl (result * parser) (list Z * parser))) (Hbefore : before_complete k before).
Context (dep : nat) (value : node_id -> node_id -> list Z -> parser -> exec parsed) (Hvalue : value_complete (S dep) value).
Context (es : list entry) (parent : node_id) (key : list Z).
Let b := length es.
Let e := mk_entry k parent key [].
Let held (kids : list (list Z * tree)) : list entry := es ++ e :: flatten_list (S b) b kids.

Lemma closer_delimiter : is_number_delimiter (closer k) = true /\ is_space (closer k) = false /\ closer k <> c_comma.
Proof. unfold closer. by case_bool_decide. Qed.

(** The first half of a pass: the key, the value and the space behind it. *)
Definition item_step (out : node_id) (p : parser) : exec (ctl parsed parser) :=
  k0 ← before p;
  match k0 with
  | Return (r, p) => Done (Return (r, out, shallower p))
  | Next (name, p) =>
      '(vr, _, p) ← value npos out name p;
      if negb (r_succeeded vr) then Done (Return (vr, out, shallower p))
      else p ← skip_space source p; Done (Next p)
  end.

Lemma item_value p kids kt name w2 l t w3 c rest :
  rep (doc_ p) (held kids) -> depth_ p = S dep -> position_ p <= length source ->
  drop (position_ p) source = kt ++ w2 ++ l ++ w3 ++ c :: rest -> key_text k kt name -> spaces w2 -> value_text l t -> json_value t -> spaces w3 ->
  is_number_delimiter c = true -> is_space c = false -> (if bool_decide (k = k_object) then name <> [] else name = []) ->
  length name <= MaxStringBytes -> room (S dep) (held kids) name t ->
  exists p', item_step (Some b) p = Done (Next p')
    /\ depth_ p' = S dep /\ position_ p' = position_ p + length (kt ++ w2 ++ l ++ w3) /\ drop (position_ p') source = c :: rest
    /\ position_ p' <= length source /\ rep (doc_ p') (held (kids ++ [(name, t)])).
Proof.
  intros Hr Hd Hp E Hkt Hw2 Hl Hj Hw3 Hc Hcs Hname Hnl Hroom. unfold item_step. rewrite (Hbefore p kt name _ Hkt E Hp Hnl), bind_Done.
  set (p1 := with_position p (position_ p + length kt)).
  assert (E1 : drop (position_ p1) source = w2 ++ l ++ w3 ++ c :: rest) by (cbn; by rewrite <-drop_drop, E, drop_app_length).
  pose proof (f_equal length E) as Hlen. rewrite length_drop, !length_app in Hlen. cbn [length] in Hlen.
  destruct (Hvalue p1 (held kids) (Some b) name npos w2 l t (w3 ++ c :: rest)) as (p2 & -> & Hd2 & Hp2 & Hr2); try done.
  - cbn. lia.
  - by apply delimited_spaces.
  - unfold held, parent_fits. rewrite length_app. cbn. subst b. lia.
  - intros q x [= <-] Hx. unfold held in Hx. rewrite list_lookup_middle in Hx by done. injection Hx as <-. cbn [e_kind e].
    unfold is_container in Hk. destruct (bool_decide (k = k_object)) eqn:Eo; [apply bool_decide_eq_true in Eo|apply bool_decide_eq_false in Eo]; (split; intros ?; [done || congruence|done || congruence]).
  - rewrite bind_Done. change (r_succeeded result_ok) with true. cbn [negb].
    assert (E2 : drop (position_ p2) source = w3 ++ c :: rest).
    { rewrite Hp2, <-!drop_drop, E1, drop_app_length. apply drop_app_length. }
    destruct (skip_space_to p2 w3 (c :: rest) E2) as (-> & E3 & Hle); [rewrite Hp2; cbn; lia|done|by intros ? [= <-]|].
    rewrite bind_Done. eexists. split; [done|]. split; [cbn; rewrite Hd2; exact Hd|]. split; [cbn; rewrite Hp2, !length_app; cbn; lia|].
    split; [done|]. split; [done|]. cbn [doc_ with_position].
    unfold held, e, b in Hr2 |- *. by rewrite (held_snoc k es parent key) in Hr2.
Qed.

(** [item_body] is that, and then what the next character asks for. *)
Lemma item_body_eq out p : item_body source before value (closer k) out p =
  (x ← item_step out p;
   match x with
   | Return y => Done (Return y)
   | Next p =>
      closing ← at_char source (position_ p) (fun c => (c =? closer k)%Z);
      if closing : bool then Done (Return (result_ok, out, shallower (advance p)))
      else
        comma ← at_char source (position_ p) (fun c => (c =? c_comma)%Z);
        if negb comma then Done (Return (fail source p e_unexpected_token, out, shallower p))
        else p ← skip_space source (advance p); Done (Next p)
   end).
Proof.
  unfold item_body, item_step. destruct (before p) as [[[r p1]|[name p1]]|]; [done| |done]. exec_simpl.
  destruct (value npos out name p1) as [[[vr c] p2]|]; [|done]. exec_simpl. destruct (r_succeeded vr); [|done]. cbn [negb].
  by destruct (skip_space source p2).
Qed.

(** The first item of a list: its space, what it is, and the character that ends it. *)
Lemma items_head l name t more rest : items_text k l ((name, t) :: more) ->
  exists w1 kt w2 l1 w3 c rest', spaces w1 /\ key_text k kt name /\ spaces w2 /\ value_text l1 t /\ spaces w3 /\ (w2 = [] \/ kt <> [])
    /\ l ++ closer k :: rest = w1 ++ kt ++ w2 ++ l1 ++ w3 ++ c :: rest'
    /\ ((c = closer k /\ more = [] /\ length l = length (w1 ++ kt ++ w2 ++ l1 ++ w3))
        \/ (c = c_comma /\ exists l2, items_text k l2 more /\ rest' = l2 ++ closer k :: rest
            /\ length l = length (w1 ++ kt ++ w2 ++ l1 ++ w3) + 1 + length l2)).
Proof.
  inversion 1 as [? w1 kt ? w2 l1 ? w3 Hw1 Hkt Hw2 Hl1 Hw3|? w1 kt ? w2 l1 ? w3 l2 ? Hw1 Hkt Hw2 Hl1 Hw3 Hi2]; subst;
    (destruct kt as [|x kt]; [exists (w1 ++ w2), [], [], l1, w3|exists w1, (x :: kt), w2, l1, w3]); eexists _, _;
    (split; [by auto using spaces_app|]); (split; [done|]); (split; [done || constructor|]); (split; [done|]); (split; [done|]); (split; [by auto|]).
  1, 2: split; [by rewrite <-?app_assoc; cbn [app]; rewrite <-?app_assoc|]; left; split; [done|]; split; [done|]; by rewrite !length_app; cbn [length]; lia.
  1, 2: split; [by rewrite <-?app_assoc; cbn [app]; rewrite <-?app_assoc|]; right; split; [done|]; exists l2; split; [done|]; split; [done|];
    rewrite !length_app; cbn [length]; lia.
Qed.

Lemma item_start kt name w2 l1 t post : key_text k kt name -> value_text l1 t -> w2 = [] \/ kt <> [] ->
  forall x, head (kt ++ w2 ++ l1 ++ post) = Some x -> is_space x = false /\ x <> closer k.
Proof.
  intros Hkt Hl1 Hor x Hx. inversion Hkt; subst; cbn [app] in Hx.
  - destruct Hor as [->|]; [|done]. cbn [app] in Hx. destruct (value_head l1 t Hl1) as (y & l' & -> & Hy & Hy1 & Hy2). injection Hx as <-.
    unfold closer. split; [done|]. by case_bool_decide.
  - injection Hx as <-. split; [done|]. unfold closer. by case_bool_decide.
Qed.

Lemma items_loop_complete more : forall l fuel p kids rest,
  items_text k l more -> rep (doc_ p) (held kids) -> depth_ p = S dep -> position_ p <= length source ->
  drop (position_ p) source = l ++ closer k :: rest ->
  Forall (fun c => (if bool_decide (k = k_object) then fst c <> [] else fst c = []) /\ json_value (snd c)) more ->
  S dep + kids_height more <= MaxDepth -> length es + S (kids_size (kids ++ more)) <= MaxNodes ->
  bytes_of es + length key + kids_bytes (kids ++ more) <= MaxStringBytes -> length source - position_ p < fuel ->
  exists p1 p', skip_space source p = Done p1 /\ (forall c, head (drop (position_ p1) source) = Some c -> c <> closer k)
    /\ while_loop fuel (fun p => Done (position_ p <? length source)) (item_body source before value (closer k) (Some b)) p1
        = Done (Return (result_ok, Some b, p'))
    /\ depth_ p' = dep /\ position_ p' = position_ p + length l + 1 /\ rep (doc_ p') (held (kids ++ more)).
Proof.
  destruct closer_delimiter as (Hcd & Hcs & Hcc). induction more as [|[name t] more IH]; intros l fuel p kids rest Hi Hr Hd Hp E Hall Hh Hn Hb Hf; [inversion Hi|].
  inversion Hall as [|? ? [Hname Hj] Hall']; subst. cbn [fst snd] in Hname, Hj.
  destruct (room_list dep b key es e kids name t more Hh Hn Hb eq_refl eq_refl) as [Hroom Hnl].
  destruct (items_head l name t more rest Hi) as (w1 & kt & w2 & l1 & w3 & c & rest' & Hw1 & Hkt & Hw2 & Hl1 & Hw3 & Hor & Ehead & Hend).
  rewrite Ehead in E. clear Ehead.
  assert (Hc : is_number_delimiter c = true /\ is_space c = false) by (destruct Hend as [[-> _]|[-> _]]; done). destruct Hc as [Hc1 Hc2].
  pose proof (item_start kt name w2 l1 t (w3 ++ c :: rest') Hkt Hl1 Hor) as Hstart.
  destruct (skip_space_to p w1 (kt ++ w2 ++ l1 ++ w3 ++ c :: rest') E Hp Hw1) as (-> & E1 & Hle1); [intros x Hx; apply (Hstart x Hx)|].
  set (p1 := with_position p (position_ p + length w1)). change (position_ p + length w1) with (position_ p1) in E1, Hle1.
  destruct (item_value p1 kids kt name w2 l1 t w3 c rest' Hr Hd Hle1 E1 Hkt Hw2 Hl1 Hj Hw3 Hc1 Hc2 Hname Hnl Hroom) as (p2 & Hbody & Hd2 & Hp2 & E2 & Hle2 & Hr2).
  exists p1. destruct fuel as [|fuel]; [lia|]. cbn [while_loop].
  assert (Hlt : position_ p1 < length source).
  { pose proof (f_equal length E1) as Hx. rewrite length_drop, !length_app in Hx. cbn [length] in Hx. lia. }
  rewrite (proj2 (Nat.ltb_lt _ _)) by done. rewrite item_body_eq, Hbody, bind_Done, !at_char_ok, E2. cbn [head]. rewrite bind_Done.
  destruct Hend as [(-> & -> & Hlen)|(-> & l2 & Hi2 & -> & Hlen)].
  - rewrite Z.eqb_refl. eexists. split; [done|]. split; [intros x; rewrite E1; intros Hx%Hstart; apply Hx|]. split; [done|].
    split; [cbn; lia|]. split; [|exact Hr2]. cbn. rewrite Hp2, Hlen. cbn. rewrite (length_app w1). lia.
  - rewrite (proj2 (Z.eqb_neq _ _)) by done. rewrite bind_Done. cbn [Z.eqb Pos.eqb negb].
    destruct (consumed_char p2 _ _ E2) as (_ & _ & Hle3). destruct (drop_cons_pos _ _ _ E2) as [Hlt2 E3].
    destruct (IH l2 fuel (advance p2) (kids ++ [(name, t)]) rest) as (p3 & p' & -> & _ & Hw & Hd' & Hp' & Hr'); try done.
    + unfold kids_height in *. cbn [max_list_with snd] in Hh. lia.
    + rewrite <-app_assoc. exact Hn.
    + rewrite <-app_assoc. exact Hb.
    + cbn. cbn in Hp2. lia.
    + rewrite bind_Done. exists p'. split; [done|]. split; [intros x; rewrite E1; intros Hx%Hstart; apply Hx|]. split; [exact Hw|].
      split; [done|]. rewrite <-app_assoc in Hr'. split; [|exact Hr']. rewrite Hp', Hlen. cbn. rewrite Hp2. cbn. rewrite (length_app w1). lia.
Qed.
End ItemsComplete.

Lemma parse_container_complete k make before value out parent key p es l kids rest :
  is_container k = true -> (forall d out parent key, make d out parent key = add_node MaxNodes MaxStringBytes d out k parent key []) ->
  before_complete k before -> value_complete (S (depth_ p)) value ->
  rep (doc_ p) es -> position_ p <= length source ->
  drop (position_ p) source = (opener k :: l ++ [closer k]) ++ rest -> (kids = [] /\ spaces l \/ items_text k l kids) -> json_value (Tree k [] kids) ->
  parent_fits es parent -> key_fits es parent key -> room (depth_ p) es key (Tree k [] kids) ->
  complete p es parent key (length (opener k :: l ++ [closer k])) (Tree k [] kids)
    (parse_container MaxDepth source make before (closer k) value out parent key p).
Proof.
  intros Hk Hmake Hbefore Hvalue Hr Hp E Hl Hj Hpf Hkf (Hh & Hn & Hb). cbn [height tree_size tree_bytes length] in *. rewrite Hk in Hh.
  fold (kids_height kids) in Hh. fold (kids_size kids) in Hn. fold (kids_bytes kids) in Hb.
  assert (E' : drop (position_ p) source = opener k :: l ++ closer k :: rest) by (rewrite E; cbn [app]; by rewrite <-app_assoc).
  unfold parse_container. set (p1 := deeper (advance p)). destruct (consumed_char p _ _ E') as (_ & _ & Hle1).
  destruct (drop_cons_pos _ _ _ E') as [_ E1]. rewrite (proj2 (Nat.ltb_ge _ _)) by (cbn; lia). rewrite Hmake.
  pose proof (add_node_ok MaxNodes MaxStringBytes (doc_ p1) es out k parent key [] Hr) as H. rewrite add_spec_ok in H; [|done|done|lia|rewrite Hk; lia].
  destruct H as (d' & -> & H'). rewrite bind_Done. change (succeeded s_ok) with true. cbn [negb].
  assert ((if is_container k then [] else []) = @nil Z) as Hnil by (by case_match). rewrite Hnil in H'. set (p2 := with_doc p1 d').
  change (position_ p + 1) with (position_ p2) in E1. unfold complete. rewrite flatten_tree.
  destruct (closer_delimiter k) as (_ & Hcs & _). rewrite length_app. cbn [length].
  destruct Hl as [[-> Hl]|Hi].
  - destruct (skip_space_to p2 l (closer k :: rest) E1 Hle1 Hl) as (-> & E2 & _); [by intros c [= <-]|].
    rewrite bind_Done, at_char_ok, bind_Done. cbn [position_ with_position]. rewrite E2. cbn [head]. rewrite Z.eqb_refl.
    eexists. split; [done|]. split; [cbn; lia|]. split; [cbn; lia|exact H'].
  - inversion Hj as [| | | |? ? _ Hall]; subst; try done.
    destruct (items_loop_complete k Hk before Hbefore (depth_ p) value Hvalue es parent key kids l (S (length source)) p2 [] rest)
      as (p3 & p' & -> & Hhead & Hw & Hd' & Hp' & Hr'); try done; try (cbn; lia).
    rewrite bind_Done, at_char_ok, bind_Done.
    assert (match head (drop (position_ p3) source) with Some c => (c =? closer k)%Z | None => false end = false) as ->.
    { destruct (head (drop (position_ p3) source)) as [c|]; [|done]. apply Z.eqb_neq. by apply Hhead. }
    cbn [app] in Hr'. eapply (eq_ind_r (fun x => exists p', after x _ = _ /\ _)); [|exact Hw]. cbn [after].
    exists p'. split; [done|]. split; [done|]. split; [rewrite Hp'; cbn; lia|exact Hr'].
Qed.

Lemma parse_value_complete fuel dep : dep <= MaxDepth -> MaxDepth < dep + fuel ->
  value_complete dep (parse_value MaxNodes MaxStringBytes MaxDepth source junk fuel).
Proof.
  revert dep. induction fuel as [|fuel IH]; intros dep Hdep Hf p es parent key out w l t rest Hr Hd Hp E Hw Hl Hj Hrest Hpf Hkf Hroom; [lia|].
  cbn [parse_value]. destruct (value_head l t Hl) as (c & l' & El & Hcs & _ & _).
  destruct (skip_space_to p w (l ++ rest) E Hp Hw) as (-> & E1 & Hle); [rewrite El; by intros x [= <-]|]. rewrite bind_Done.
  set (p1 := with_position p (position_ p + length w)). change (position_ p + length w) with (position_ p1) in E1, Hle.
  assert (Hlift : forall x, complete p1 es parent key (length l) t x -> complete p es parent key (length w + length l) t x).
  { intros x (p' & -> & H1 & H2 & H3). exists p'. split; [done|]. split; [done|]. split; [rewrite H2; cbn; lia|done]. }
  apply Hlift. clear Hlift.
  assert (Hlt : position_ p1 < length source) by (pose proof (f_equal length E1) as Hx; rewrite length_drop, El in Hx; cbn in Hx |- *; lia).
  rewrite (proj2 (Nat.leb_gt _ _)) by done.
  assert (Hc : source !! position_ p1 = Some c) by (rewrite <-(Nat.add_0_r (position_ p1)), <-lookup_drop, E1, El; done).
  rewrite (load_Done _ _ _ Hc), bind_Done. rewrite <-Hd in Hroom. change (depth_ p) with (depth_ p1) in Hroom.
  assert (Hscalar : forall k value, is_container k = false -> t = Tree k value [] ->
    complete p1 es parent key (length l) t (set_result (with_position p1 (position_ p1 + length l)) (add_node MaxNodes MaxStringBytes (doc_ p1) out k parent key value))).
  { intros k value Hk ->. by apply set_scalar_complete. }
  assert (Hlit : forall literal k, is_literal literal k -> l = literal -> t = literal_tree literal k ->
    complete p1 es parent key (length l) t (parse_literal MaxNodes MaxStringBytes source literal k out parent key p1)).
  { intros literal k Hk -> Ht. unfold parse_literal.
    assert (Hx : position_ p1 + length literal <= length source) by (pose proof (f_equal length E1) as Hx; rewrite length_drop, length_app in Hx; lia).
    rewrite (proj2 (Nat.ltb_ge _ _)) by done. rewrite literal_loop_ok by done.
    rewrite bool_decide_eq_true_2 by (by rewrite E1, take_app_length). cbn [after]. rewrite set_literal by done.
    apply Hscalar; [by destruct (literal_value literal k Hk) as (_ & _ & ?)|done]. }
  assert (Hcont : forall k l2 kids, is_container k = true -> l = opener k :: l2 ++ [closer k] -> (kids = [] /\ spaces l2 \/ items_text k l2 kids) -> t = Tree k [] kids ->
    value_complete (S (depth_ p1)) (parse_value MaxNodes MaxStringBytes MaxDepth source junk fuel)).
  { intros k l2 kids Hk _ _ ->. destruct Hroom as (Hh & _). cbn [height] in Hh. rewrite Hk in Hh. apply IH; cbn in *; lia. }
  assert (Hcl : head l = Some c) by (by rewrite El). clear El l'.
  inversion Hl as [|bb|ln Hn|body s Hb|k w' Hk Hw'|k l2 kids Hk Hi]; subst t; try subst l.
  - injection Hcl as <-. cbn [Z.eqb Pos.eqb]. apply Hlit; [by right|done|done].
  - destruct bb; injection Hcl as <-; cbn [Z.eqb Pos.eqb]; (apply Hlit; [left; by auto|done|done]).
  - assert (Hcn : ((c =? c_minus)%Z || is_digit c) = true).
    { destruct Hn as (sign & i & f & e & En & Hs & Hi & _). rewrite En in Hcl. destruct Hs as [->| ->]; [|injection Hcl as <-; done].
      destruct Hi as [->|(x & r & -> & Hx & _)]; injection Hcl as <-; [done|]. unfold is_digit. lia. }
    assert (Hother : (c =? c_obrace)%Z = false /\ (c =? c_open)%Z = false /\ (c =? c_quote)%Z = false /\ (c =? 116)%Z = false
                     /\ (c =? 102)%Z = false /\ (c =? 110)%Z = false) by (unfold is_digit in Hcn; lia).
    destruct Hother as (-> & -> & -> & -> & -> & ->). rewrite Hcn. unfold parse_number.
    rewrite (number_loop_complete out ln (S (length source)) p1 rest); [|exact E1|done|by apply number_char_in|].
    2:{ pose proof (f_equal length E1) as Hx. rewrite length_drop, length_app in Hx. lia. }
    cbn [after]. cbn [position_ with_position]. rewrite Nat.add_sub', E1, take_app_length. unfold set_number.
    destruct (valid_number_exact ln) as (b & Eb & Hbn). rewrite Eb, bind_Done, (proj2 Hbn Hn). cbn [negb].
    rewrite bind_Done. cbn [negb]. by apply Hscalar.
  - injection Hcl as <-. cbn [Z.eqb Pos.eqb]. unfold parse_string_value.
    assert (E2 : drop (position_ p1) source = c_quote :: body ++ c_quote :: rest) by (rewrite E1; cbn [app]; by rewrite <-app_assoc).
    destruct Hroom as (_ & _ & Hbytes). cbn [tree_bytes] in Hbytes.
    rewrite (read_string_complete p1 body s rest E2 Hb), bind_Done by lia. change (r_succeeded result_ok) with true. cbn [negb].
    replace (position_ p1 + length body + 2) with (position_ p1 + length (c_quote :: body ++ [c_quote])) by (cbn [length]; rewrite length_app; cbn; lia).
    by apply Hscalar.
  - injection Hcl as <-. pose proof (Hcont k w' [] Hk eq_refl (or_introl (conj eq_refl Hw')) eq_refl) as Hv. unfold is_container in Hk.
    destruct (bool_decide_reflect (k = k_object)) as [->|Ho]; [|destruct (bool_decide_reflect (k = k_array)) as [->|]; [|done]];
      cbn [Z.eqb Pos.eqb opener]; (eapply parse_container_complete; [done|done|apply parse_key_complete || apply no_key_complete|exact Hv|exact Hr|done|exact E1|by left|done|done|done|done]).
  - injection Hcl as <-. pose proof (Hcont k l2 kids Hk eq_refl (or_intror Hi) eq_refl) as Hv. unfold is_container in Hk.
    destruct (bool_decide_reflect (k = k_object)) as [->|Ho]; [|destruct (bool_decide_reflect (k = k_array)) as [->|]; [|done]];
      cbn [Z.eqb Pos.eqb opener]; (eapply parse_container_complete; [done|done|apply parse_key_complete || apply no_key_complete|exact Hv|exact Hr|done|exact E1|by right|done|done|done|done]).
Qed.
End Proofs.

(** ** Whole texts *)

(** [source] is a text of [t], with space around it. *)
Definition json_text (source : list Z) (t : tree) : Prop :=
  exists w l w', source = w ++ l ++ w' /\ spaces w /\ value_text l t /\ spaces w'.

(** The entries of a document that holds exactly [t]. *)
Definition document_of (t : tree) : list entry := flatten 0 None [] t.

Lemma document_of_tree t : document_tree (document_of t) = t.
Proof.
  unfold document_tree, document_of. rewrite length_flatten.
  pose proof (tree_of_flatten t (S (tree_size t)) [] None [] []) as H. cbn [app length] in H. rewrite app_nil_r in H.
  apply H; [lia|done|constructor|constructor].
Qed.

Section Whole.
Context (MaxNodes MaxStringBytes MaxDepth : nat) (source : list Z) (junk : nat -> list Z).
Context (Hjunk : forall i, length (junk i) = S MaxStringBytes).
Abbreviation rep := (represents MaxNodes MaxStringBytes).

Lemma parse_total_sound d es0 : rep d es0 ->
  exists r d' es, parse MaxNodes MaxStringBytes MaxDepth source junk d = Done (r, d') /\ rep d' es
    /\ (r_succeeded r = true -> r = result_ok /\ exists t, json_text source t /\ json_value t /\ height t <= MaxDepth /\ es = document_of t).
Proof.
  intros Hr. unfold parse, run. cbn [doc_]. set (p0 := with_doc (mk_parser d 0 0) (JsonDoc.clear d)).
  assert (H0 : rep (doc_ p0) []) by (by eapply represents_clear). assert (Hle0 : position_ p0 <= length source) by (cbn; lia).
  destruct (skip_space_ok source p0 Hle0) as (w & -> & Hw & Ew & _ & Hle). rewrite bind_Done.
  set (p1 := with_position p0 (position_ p0 + length w)).
  destruct (parse_value_sound MaxNodes MaxStringBytes MaxDepth source junk Hjunk (S MaxDepth) p1 [] npos npos []) as (r & out & p2 & -> & Hd2 & es2 & Hr2 & Hok);
    [done|done|cbn; lia|cbn; lia|]. rewrite bind_Done. destruct (r_succeeded r) eqn:Er; cbn [negb].
  2:{ rewrite bind_Done. eexists _, _, []. split; [done|]. split; [by eapply represents_clear|]. by rewrite Er. }
  destruct (Hok eq_refl) as (-> & _ & l0 & t & (w1 & l & -> & Hw1 & Hl) & (E2 & _ & Hle2) & -> & _ & Hj & Hh). clear Hok.
  destruct (skip_space_ok source p2 Hle2) as (w2 & -> & Hw2 & E3 & _ & Hle3). rewrite bind_Done. cbn [position_ with_position].
  destruct (Nat.eqb_spec (position_ p2 + length w2) (length source)) as [He|He]; cbn [negb]; rewrite bind_Done.
  - eexists _, _, _. split; [done|]. split; [exact Hr2|]. intros _. split; [done|]. exists t. cbn [app length] in *.
    split; [|by split; [|split; [cbn in Hh; lia|]]]. exists (w ++ w1), l, w2. split; [|by auto using spaces_app].
    rewrite <-(drop_0 source). change 0 with (position_ p0). rewrite Ew. change (position_ p0 + length w) with (position_ p1). rewrite E2, E3.
    rewrite (drop_ge source) by lia. by rewrite app_nil_r, <-!app_assoc.
  - eexists _, _, _. split; [done|]. split; [exact Hr2|]. by rewrite fail_failed.
Qed.

Lemma parse_complete d es0 t : rep d es0 -> json_text source t -> json_value t -> room MaxNodes MaxStringBytes MaxDepth 0 [] [] t ->
  exists d', parse MaxNodes MaxStringBytes MaxDepth source junk d = Done (result_ok, d') /\ rep d' (document_of t).
Proof.
  intros Hr (w & l & w' & Es & Hw & Hl & Hw') Hj Hroom. unfold parse, run. cbn [doc_]. set (p0 := with_doc (mk_parser d 0 0) (JsonDoc.clear d)).
  assert (H0 : rep (doc_ p0) []) by (by eapply represents_clear). assert (Hle0 : position_ p0 <= length source) by (cbn; lia).
  destruct (value_head l t Hl) as (c & l' & El & Hcs & _).
  assert (E0 : drop (position_ p0) source = w ++ l ++ w') by (cbn; by rewrite drop_0).
  destruct (skip_space_to source p0 w (l ++ w') E0 Hle0 Hw) as (-> & E1 & Hle1); [rewrite El; by intros x [= <-]|]. rewrite bind_Done.
  set (p1 := with_position p0 (position_ p0 + length w)). change (position_ p0 + length w) with (position_ p1) in E1, Hle1.
  destruct (parse_value_complete MaxNodes MaxStringBytes MaxDepth source junk Hjunk (S MaxDepth) 0 ltac:(lia) ltac:(lia) p1 [] npos [] npos [] l t w')
    as (p2 & -> & _ & Hp2 & Hr2); try done.
  { constructor. }
  { intros x Hx. destruct Hw' as [|y w' Hy _]; [done|]. injection Hx as <-. unfold is_number_delimiter. by rewrite Hy. }
  rewrite bind_Done. change (r_succeeded result_ok) with true. cbn [negb].
  assert (E2 : drop (position_ p2) source = w' ++ []) by (rewrite Hp2, app_nil_r; cbn [length Nat.add]; by rewrite <-drop_drop, E1, drop_app_length).
  pose proof (f_equal length E1) as Hlen. rewrite length_drop, length_app in Hlen.
  destruct (skip_space_to source p2 w' [] E2) as (-> & E3 & Hle3); [cbn [length Nat.add] in Hp2; lia|done|by intros x|]. rewrite bind_Done.
  cbn [position_ with_position]. rewrite (proj2 (Nat.eqb_eq _ _)) by (cbn [length Nat.add] in Hp2; lia). cbn [negb]. rewrite bind_Done.
  eexists. split; [done|]. exact Hr2.
Qed.
End Whole.

(** C6. The JSON parser terminates on every input, whatever the document held before, with
    every read of the text and every access to the document in bounds, and leaves a
    well-formed document.  If it reports success then the text is a JSON text (RFC 8259 grammar,
    escapes outside the surrogate range) and the document holds exactly the tree of that text;
    conversely every text of a value that respects the limits (nesting [MaxDepth], [MaxNodes]
    nodes, [MaxStringBytes] characters of keys and scalars, no empty keys) is accepted. *)
Theorem json_parse_exact MaxNodes MaxStringBytes MaxDepth source junk d es0 :
  (forall i, length (junk i) = S MaxStringBytes) -> represents MaxNodes MaxStringBytes d es0 ->
  exists r d' es, parse MaxNodes MaxStringBytes MaxDepth source junk d = Done (r, d') /\ represents MaxNodes MaxStringBytes d' es
    /\ (r_succeeded r = true -> json_text source (document_tree es) /\ json_value (document_tree es) /\ height (document_tree es) <= MaxDepth)
    /\ (forall t, json_text source t -> json_value t -> room MaxNodes MaxStringBytes MaxDepth 0 [] [] t -> r = result_ok /\ document_tree es = t).
Proof.
  intros Hj Hr. destruct (parse_total_sound MaxNodes MaxStringBytes MaxDepth source junk Hj d es0 Hr) as (r & d' & es & Hp & Hr' & Hok).
  pose proof (fun t => parse_complete MaxNodes MaxStringBytes MaxDepth source junk Hj d es0 t Hr) as Hc. rewrite Hp in Hc.
  destruct (r_succeeded r) eqn:Er.
  - destruct (Hok eq_refl) as (-> & t & Ht & Hv & Hh & ->). exists result_ok, d', (document_of t). rewrite document_of_tree. split; [done|]. split; [done|].
    split; [done|]. intros t2 H1 H2 H3. destruct (Hc t2 H1 H2 H3) as (d2 & [= <-] & Hr2). split; [done|].
    rewrite <-(document_of_tree t), <-(document_of_tree t2). f_equal. by eapply represents_fun.
  - exists r, d', es. split; [done|]. split; [done|]. split; [by rewrite Er|]. intros t2 H1 H2 H3. destruct (Hc t2 H1 H2 H3) as (d2 & [= ->] & _). done.
Qed.

Lemma json_parse_exact_witness :
  exists r d' es, parse 2 1 1 [91; 49; 93]%Z (fun _ => [0; 0]%Z) (new_document 2 1) = Done (r, d') /\ represents 2 1 d' es
    /\ r = result_ok /\ document_tree es = Tree k_array [] [([], Tree k_number [49%Z] [])].
Proof.
  destruct (json_parse_exact 2 1 1 [91; 49; 93]%Z (fun _ => [0; 0]%Z) (new_document 2 1) []) as (r & d' & es & Hp & Hr & _ & Hc).
  - reflexivity.
  - apply new_document_ok.
  - exists r, d', es. split; [exact Hp|]. split; [exact Hr|].
    assert (Hn : number_text [49%Z]).
    { exists [], [49%Z], [], []. split; [reflexivity|]. split; [by left|]. split; [|split; by left].
      right. exists 49%Z, []. split; [reflexivity|]. split; [lia|constructor]. }
    apply Hc.
    + exists [], [91; 49; 93]%Z, []. split; [reflexivity|]. split; [constructor|]. split; [|constructor].
      apply (V_items k_array [49%Z]); [reflexivity|]. apply (I_one k_array [] [] [] [] [49%Z] _ []); try constructor. exact Hn.
    + apply J_container; [reflexivity|]. constructor; [|constructor]. split; [reflexivity|]. by apply J_number.
    + unfold room. split; [|split]; vm_compute; lia.
Defined.

(** C7. JSON round trip: the text [serialize] leaves for a document that holds a JSON value,
    compact or indented, is accepted by [parse], and the document it builds, in any
    document with room for the value, holds the same tree: nesting, order, keys, kinds and the
    characters of every string, escapes included. *)
Theorem json_roundtrip N MaxNodes MaxStringBytes d es pretty width output cs text MaxNodes' MaxStringBytes' MaxDepth' junk d2 es2 :
  represents MaxNodes MaxStringBytes d es -> es <> [] -> holds N output cs -> json_value (document_tree es) ->
  print pretty width 0 (document_tree es) = Some text -> length text <= N ->
  (forall i, length (junk i) = S MaxStringBytes') -> represents MaxNodes' MaxStringBytes' d2 es2 ->
  room MaxNodes' MaxStringBytes' MaxDepth' 0 [] [] (document_tree es) ->
  exists out d', serialize N d pretty width output = Done (result_ok, out) /\ holds N out text
    /\ parse MaxNodes' MaxStringBytes' MaxDepth' text junk d2 = Done (result_ok, d')
    /\ exists es', represents MaxNodes' MaxStringBytes' d' es' /\ document_tree es' = document_tree es.
Proof.
  intros Hr Hne Ho Hj Hp Hl Hjunk Hr2 Hroom. destruct (serialize_ok N MaxNodes MaxStringBytes d es pretty width output cs Hr Ho) as (r & out & -> & Hw).
  destruct es as [|e es]; [done|]. unfold wrote_text in Hw. rewrite Hp in Hw. rewrite decide_True in Hw by done. destruct Hw as [-> Hh].
  destruct (parse_complete MaxNodes' MaxStringBytes' MaxDepth' text junk Hjunk d2 es2 (document_tree (e :: es)) Hr2) as (d' & Hpar & Hr'); [|done|done|].
  { exists [], text, []. rewrite app_nil_r. split; [done|]. split; [constructor|]. split; [by eapply print_text|constructor]. }
  exists out, d'. split; [done|]. split; [done|]. split; [done|]. eexists. split; [exact Hr'|]. apply document_of_tree.
Qed.

Lemma json_roundtrip_witness :
  exists out d', serialize 6 (mk_document [mk_node k_string None None None None 0 0 0 1] 1 [34%Z] 1) false 2 (mk_string (replicate 7 0%Z) 0) = Done (result_ok, out)
    /\ holds 6 out [34; 92; 34; 34]%Z /\ parse 1 3 1 [34; 92; 34; 34]%Z (fun _ => [0; 0; 0; 0]%Z) (new_document 1 3) = Done (result_ok, d')
    /\ exists es', represents 1 3 d' es' /\ document_tree es' = document_tree [mk_entry k_string None [] [34%Z]].
Proof.
  refine (json_roundtrip 6 1 1 _ [mk_entry k_string None [] [34%Z]] false 2 _ [] _ 1 3 1 _ _ [] _ _ _ _ _ _ _ _ _).
  - split; try reflexivity; try (cbn; lia).
    + intros [|i] e He; [injection He as <-; reflexivity|destruct i; discriminate He].
    + intros [|i] e He; [injection He as <-|destruct i; discriminate He]. eexists. split; [reflexivity|].
      split; [reflexivity|]. split; [reflexivity|]. split; [reflexivity|]. split; [reflexivity|]. split; [reflexivity|].
      split; (split; [reflexivity|]; split; [cbn; lia|reflexivity]).
  - discriminate.
  - split; [reflexivity|]. split; [cbn; lia|]. split; [reflexivity|]. by exists (replicate 6 0%Z).
  - apply J_string.
  - reflexivity.
  - cbn. lia.
  - reflexivity.
  - apply new_document_ok.
  - unfold room. split; [|split]; vm_compute; lia.
Defined.

(** *** Error reports *)

(** The line is one more than the line feeds before the error, the column one more than the
    characters since the last of them. *)
Lemma fail_position p source code before line :
  take (position_ p) source = before ++ line -> (before = [] \/ last before = Some 10%Z) -> ~ 10%Z ∈ line ->
  r_line (fail source p code) = S (length (filter (fun c => c = 10%Z) before)) /\ r_column (fail source p code) = S (length line)
  /\ r_offset (fail source p code) = position_ p.
Proof.
  intros E Hb Hl. unfold fail, line_column. rewrite E, foldl_app.
  assert (H : forall l n c, foldl (fun '(line, column) x => if (x =? 10)%Z then (line + 1, 1) else (line, column + 1)) (n, c) l
    = (n + length (filter (fun c => c = 10%Z) l), snd (foldl (fun '(line, column) x => if (x =? 10)%Z then (line + 1, 1) else (line, column + 1)) (n, c) l))).
  { clear. induction l as [|x l IH]; intros n c; cbn [foldl]; [cbn; f_equal; lia|]. rewrite filter_cons.
    destruct (Z.eqb_spec x 10) as [->|Hx]; rewrite IH; [rewrite decide_True by done|rewrite decide_False by done]; cbn [snd length]; f_equal; lia. }
  assert (Hc : forall l n c, ~ 10%Z ∈ l -> foldl (fun '(line, column) x => if (x =? 10)%Z then (line + 1, 1) else (line, column + 1)) (n, c) l = (n, c + length l)).
  { clear. induction l as [|x l IH]; intros n c Hl; cbn [foldl length]; [f_equal; lia|]. rewrite not_elem_of_cons in Hl. destruct Hl as [Hx Hl].
    rewrite (proj2 (Z.eqb_neq _ _)) by done. rewrite IH by done. f_equal. lia. }
  rewrite (H before). rewrite Hc by done. cbn [r_line r_column r_offset]. split; [lia|]. split; [|done]. cut (forall c,
    snd (foldl (fun '(line, column) x => if (x =? 10)%Z then (line + 1, 1) else (line, column + 1)) (1, c) before) = (if before is [] then c else 1)).
  { intros ->. destruct before; lia. }
  intros c. destruct Hb as [->|Hb]; [done|]. destruct before as [|x l] using rev_ind; [done|]. rewrite last_snoc in Hb. injection Hb as ->.
  rewrite foldl_snoc. destruct (foldl _ _ l) as [a b]. cbn. by destruct l.
Qed.

(** After a value, text that does not belong to it is reported, but the document keeps the value. *)
Lemma trailing_text_keeps_document :
  exists d', parse 1 1 1 [49; 32; 50]%Z (fun _ => [0; 0]%Z) (new_document 1 1) = Done (mk_result s_invalid_argument e_unexpected_token 2 1 3, d')
    /\ size d' = 1.
Proof. eexists. split; [vm_compute; reflexivity|reflexivity]. Qed.

(** An empty key, which the grammar allows, is reported as a lack of capacity. *)
Lemma empty_key_refused :
  exists d', parse 4 4 4 [123; 34; 34; 58; 49; 125]%Z (fun _ => replicate 5 0%Z) (new_document 4 4)
    = Done (mk_result s_invalid_argument e_capacity 5 1 1, d').
Proof. eexists. vm_compute. reflexivity. Qed.

(** A control character given by an escape is parsed, and then cannot be written. *)
Lemma control_character_not_written :
  (exists d', parse 1 4 1 [34; 92; 117; 48; 48; 48; 49; 34]%Z (fun _ => replicate 5 0%Z) (new_document 1 4) = Done (result_ok, d') /\
     exists out, serialize 20 d' false 2 (mk_string (replicate 21 0%Z) 0) = Done (mk_result s_invalid_argument e_output_full 0 1 1, out)).
Proof. eexists. split; [vm_compute; reflexivity|]. eexists. vm_compute. reflexivity. Qed.
