(* ===== verification/Digest.v ===== *)
(** * The shape the hash functions share (castle_ext/crypto/hash)

    [md5], [sha256] and [sha512] share the text of [reset], [update], [digest],
    [final] and [calculate]: a buffer collects the message block by block and
    [digest] pads a copy of the object.  The text is modelled once, over a record
    [algorithm] of the constants and functions in which the classes differ; the
    class [HashLaws] states what an algorithm has to promise, and every algorithm
    that does computes the padded, block-wise hash of its standard however the
    message is cut into pieces. *)

From S2P Require Import Prelude Status Bytes Words.
Open Scope Z_scope.

(** What the three classes differ in; [C] is the type of the bit counter. *)
Record algorithm (C : Type) : Type := mk_algorithm {
  block_size : nat;
  length_offset : nat;            (* 56 or 112: where the length field begins *)
  digest_size : nat;
  word_size : nat;                (* bytes of a state word *)
  initial : list Z;
  no_bits : C;
  count_bits : C -> nat -> C;
  transform : list Z -> list Z -> exec (list Z);      (* state, block *)
  write_length : list Z -> C -> exec (list Z);
  write_word : list Z -> nat -> Z -> exec (list Z)
}.
Arguments mk_algorithm {C}.
Arguments block_size {C}. Arguments length_offset {C}. Arguments digest_size {C}. Arguments word_size {C}.
Arguments initial {C}. Arguments no_bits {C}. Arguments count_bits {C}. Arguments transform {C}.
Arguments write_length {C}. Arguments write_word {C}.

(** The members of the classes. *)
Record hasher (C : Type) : Type := mk_hasher {
  state_ : list Z;
  bit_count_ : C;
  buffer_ : list Z;
  buffer_size_ : nat
}.
Arguments mk_hasher {C}. Arguments state_ {C}. Arguments bit_count_ {C}. Arguments buffer_ {C}. Arguments buffer_size_ {C}.

Section Digest.
Context {C : Type} (a : algorithm C).

(** [reset] does not touch the buffer. *)
Definition reset (h : hasher C) : hasher C := mk_hasher (initial a) (no_bits a) (buffer_ h) 0.
(** The constructor: the bytes the buffer happens to hold are arbitrary. *)
Definition hasher_new (junk : list Z) : hasher C := mk_hasher (initial a) (no_bits a) junk 0.

(** One turn of the loop of [update]; [offset] is how far [data] has advanced. *)
Definition update_body (data : ptr) (st : hasher C * nat * nat) : exec (ctl (status * hasher C) (hasher C * nat * nat)) :=
  let '(h, offset, size) := st in
  let take := if (size <? block_size a - buffer_size_ h)%nat then size else (block_size a - buffer_size_ h)%nat in
  buffer ← for_to 0 take (fun i buffer => v ← pload data (offset + i); store buffer (buffer_size_ h + i) v) (buffer_ h);
  let buffer_size := (buffer_size_ h + take)%nat in
  if (buffer_size =? block_size a)%nat then
    state ← transform a (state_ h) buffer;
    Done (Next (mk_hasher state (bit_count_ h) buffer 0, offset + take, size - take)%nat)
  else Done (Next (mk_hasher (state_ h) (bit_count_ h) buffer buffer_size, offset + take, size - take)%nat).

Definition update (h : hasher C) (data : ptr) (size : nat) : exec (status * hasher C) :=
  if is_null data && negb (size =? 0)%nat then Done (s_invalid_argument, h)
  else
    let h := mk_hasher (state_ h) (count_bits a (bit_count_ h) size) (buffer_ h) (buffer_size_ h) in
    after (while_loop (S size) (fun '(_, _, size) => Done (negb (size =? 0)%nat)) (update_body data) (h, 0%nat, size))
      (fun '(h, _, _) => Done (s_ok, h)).

(** [while (buffer_size_ < limit) buffer_[buffer_size_++] = 0U]. *)
Definition zero_fill (limit : nat) (buffer : list Z) (buffer_size : nat) : exec (list Z * nat) :=
  after (while_loop (S limit) (fun '(_, n) => Done (n <? limit)%nat)
           (fun '(b, n) => b ← store b n 0; Done (Next (b, (n + 1)%nat))) (buffer, buffer_size))
    Done.

(** [digest] works on a copy of the object; [result] is the array it declares. *)
Definition digest (h : hasher C) (result : list Z) : exec (list Z) :=
  buffer ← store (buffer_ h) (buffer_size_ h) 128;
  let n := (buffer_size_ h + 1)%nat in
  '(state, buffer, n) ←
    (if (length_offset a <? n)%nat then
       '(buffer, _) ← zero_fill (block_size a) buffer n;
       state ← transform a (state_ h) buffer;
       Done (state, buffer, 0%nat)
     else Done (state_ h, buffer, n));
  '(buffer, _) ← zero_fill (length_offset a) buffer n;
  buffer ← write_length a buffer (bit_count_ h);
  state ← transform a state buffer;
  for_to 0 (digest_size a / word_size a) (fun i result =>
    w ← load state i; write_word a result (word_size a * i) w) result.

Definition final_ (h : hasher C) (result : list Z) (output : ptr) (output_capacity : nat) : exec (status * ptr) :=
  if is_null output && negb (output_capacity =? 0)%nat then Done (s_invalid_argument, output)
  else if (output_capacity <? digest_size a)%nat then Done (s_full, output)
  else if is_null output then Done (s_invalid_argument, output)
  else
    result ← digest h result;
    output ← for_to 0 (digest_size a) (fun i output => v ← load result i; pstore output i v) output;
    Done (s_ok, output).

Definition calculate (junk result : list Z) (data : ptr) (size : nat) : exec (list Z) :=
  '(_, value) ← update (hasher_new junk) data size;
  digest value result.

(** A client that feeds a message piece by piece. *)
Fixpoint update_all (h : hasher C) (pieces : list (list Z)) : exec (hasher C) :=
  match pieces with
  | [] => Done h
  | p :: pieces => '(_, h) ← update h (Some p) (length p); update_all h pieces
  end.

(** ** The standards' definition *)

(** [len] is the length of the message in bytes. *)
Definition zeros (len : nat) : nat := ((length_offset a + block_size a - (len + 1) mod block_size a) mod block_size a)%nat.
Definition padded (length_field : Z -> list Z) (msg : list Z) : list Z :=
  msg ++ [128] ++ replicate (zeros (length msg)) 0 ++ length_field (8 * Z.of_nat (length msg)).

Fixpoint absorb (compress : list Z -> list Z -> list Z) (n : nat) (state : list Z) (bytes : list Z) : list Z :=
  match n with
  | O => state
  | S n => absorb compress n (compress state (take (block_size a) bytes)) (drop (block_size a) bytes)
  end.

Definition hash_of (compress : list Z -> list Z -> list Z) (length_field : Z -> list Z)
    (word_bytes : Z -> list Z) (msg : list Z) : list Z :=
  let p := padded length_field msg in
  mjoin (word_bytes <$> absorb compress (length p / block_size a) (initial a) p).

(** What an algorithm promises: [transform] computes [compress] on states that
    satisfy [wf], the counter holds [count_of] the length in bits, and numbers are
    written as their standard's bytes. *)
Class HashLaws (compress : list Z -> list Z -> list Z) (wf : list Z -> Prop) (count_of : Z -> C)
    (length_field : Z -> list Z) (word_bytes : Z -> list Z) : Prop := {
  law_sizes : (0 < length_offset a < block_size a /\ 0 < word_size a)%nat;
  law_initial : wf (initial a);
  law_words : forall st, wf st -> (digest_size a = word_size a * length st)%nat;
  law_transform : forall st b, wf st -> length b = block_size a -> Forall byte b ->
    transform a st b = Done (compress st b) /\ wf (compress st b);
  law_no_bits : no_bits a = count_of 0;
  law_count_bits : forall n size, 0 <= n -> u64 (Z.of_nat size) -> count_bits a (count_of n) size = count_of (n + 8 * Z.of_nat size);
  law_field : forall n, length (length_field n) = (block_size a - length_offset a)%nat /\ Forall byte (length_field n);
  law_length : forall b n, length b = block_size a -> write_length a b (count_of n) = Done (wrote b (length_offset a) (length_field n));
  law_word : forall st w, wf st -> w ∈ st -> length (word_bytes w) = word_size a /\
    forall b o, (o + word_size a <= length b)%nat -> write_word a b o w = Done (wrote b o (word_bytes w))
}.
End Digest.

(** ** Loops over buffers *)

Lemma digest_copy_loop (data buffer : list Z) o off n :
  (off + n <= length data)%nat -> (o + n <= length buffer)%nat ->
  for_to 0 n (fun i b => v ← pload (Some data) (off + i); store b (o + i) v) buffer
  = Done (wrote buffer o (take n (drop off data))).
Proof.
  intros Hd Hb. set (body := fun (i : nat) (b : list Z) => _).
  destruct (for_to_inv (fun i b => b = wrote buffer o (take i (drop off data))) body 0 n buffer) as (st & -> & ->).
  - by rewrite take_0, wrote_nil.
  - intros i b Hi ->. unfold body. destruct (lookup_lt_is_Some_2 data (off + i)) as [v Hv]; [lia|].
    cbn [pload]. rewrite (load_Done _ _ _ Hv). exec_simpl. eexists. split; [|done].
    rewrite store_wrote by (rewrite ?length_take, ?length_drop; lia).
    rewrite <-(take_S_r _ _ v) by (by rewrite lookup_drop). done.
  - by rewrite Nat.add_0_l.
Qed.

Lemma zero_fill_ok limit buffer n :
  (n <= limit <= length buffer)%nat ->
  zero_fill limit buffer n = Done (wrote buffer n (replicate (limit - n) 0), limit).
Proof.
  intros Hn. unfold zero_fill.
  assert (Hloop : forall k fuel zs, (n + length zs + k = limit)%nat -> (k < fuel)%nat -> zs = replicate (length zs) 0 ->
    while_loop fuel (fun '(_, n) => Done (n <? limit)%nat)
      (fun '(b, n) => b ← store b n 0; Done (@Next (list Z * nat) _ (b, (n + 1)%nat))) (wrote buffer n zs, (n + length zs)%nat)
    = Done (Next (wrote buffer n (replicate (limit - n) 0), limit))).
  { induction k as [|k IH]; intros fuel zs Hk Hf Hz; (destruct fuel as [|fuel]; [lia|]); cbn [while_loop].
    - rewrite (proj2 (Nat.ltb_ge _ _)) by lia. replace (limit - n)%nat with (length zs) by lia.
      rewrite <-Hz. do 3 f_equal. lia.
    - rewrite (proj2 (Nat.ltb_lt _ _)) by lia. rewrite store_wrote by lia. exec_simpl.
      replace (n + length zs + 1)%nat with (n + length (zs ++ [0%Z]))%nat by (rewrite length_app; cbn; lia).
      apply IH; [rewrite length_app; cbn; lia|lia|]. rewrite Hz at 1. rewrite length_app. cbn [length].
      by rewrite replicate_add. }
  specialize (Hloop (limit - n)%nat (S limit) []). cbn [length] in Hloop. rewrite wrote_nil, Nat.add_0_r in Hloop.
  by rewrite Hloop by (done || lia).
Qed.

(** Writing behind the part of a buffer that is in use. *)
Lemma wrote_behind {A} (used junk bs : list A) n :
  n = length used -> wrote (used ++ junk) n bs = used ++ bs ++ drop (length bs) junk.
Proof.
  intros ->. unfold wrote. rewrite take_app_length. do 2 f_equal.
  rewrite drop_app_ge by lia. f_equal. lia.
Qed.

(** ** Every lawful algorithm computes its hash *)

Section Laws.
Context {C : Type} (a : algorithm C) (compress : list Z -> list Z -> list Z) (wf : list Z -> Prop)
  (count_of : Z -> C) (length_field word_bytes : Z -> list Z).
Context `{HL : !HashLaws a compress wf count_of length_field word_bytes}.

Lemma absorb_app k n st whole rest :
  length whole = (k * block_size a)%nat ->
  absorb a compress (k + n) st (whole ++ rest) = absorb a compress n (absorb a compress k st whole) rest.
Proof.
  revert st whole. induction k as [|k IH]; intros st whole Hw; cbn [absorb Nat.add].
  - by destruct whole; [|cbn in Hw; lia].
  - cbn [Nat.mul] in Hw. rewrite take_app_le, drop_app_le by lia. apply IH. rewrite length_drop. lia.
Qed.

Lemma absorb_wf k st bytes :
  wf st -> Forall byte bytes -> length bytes = (k * block_size a)%nat -> wf (absorb a compress k st bytes).
Proof.
  revert st bytes. induction k as [|k IH]; intros st bytes Hst Hb Hl; cbn [absorb]; [done|]. cbn [Nat.mul] in Hl.
  apply IH; [|by apply Forall_drop|rewrite length_drop; lia].
  refine (proj2 (law_transform a (HashLaws := HL) _ _ Hst _ _)); [rewrite length_take; lia|by apply Forall_take].
Qed.

(** The object has seen [msg]: whole blocks are absorbed, the rest is buffered.
    The bit counter, which runs ahead during [update], is kept apart. *)
Definition collects (h : hasher C) (msg : list Z) : Prop :=
  exists k whole tail junk, msg = whole ++ tail /\ length whole = (k * block_size a)%nat
    /\ (length tail < block_size a)%nat /\ buffer_size_ h = length tail
    /\ buffer_ h = tail ++ junk /\ (length tail + length junk = block_size a)%nat
    /\ state_ h = absorb a compress k (initial a) whole.
Definition has_seen (h : hasher C) (msg : list Z) : Prop :=
  Forall byte msg /\ collects h msg /\ bit_count_ h = count_of (8 * Z.of_nat (length msg)).

Lemma has_seen_new junk : length junk = block_size a -> has_seen (hasher_new a junk) [].
Proof.
  intros Hj. destruct (law_sizes a (HashLaws := HL)) as [Hs _]. split; [done|]. split; [|exact (law_no_bits a (HashLaws := HL))].
  exists 0%nat, [], [], junk. cbn. split_and!; (done || lia).
Qed.

Lemma has_seen_reset h msg : has_seen h msg -> has_seen (reset a h) [].
Proof.
  intros (_ & (k & whole & tail & junk & _ & _ & _ & _ & E & Hl & _) & _). apply (has_seen_new (buffer_ h)).
  by rewrite E, length_app.
Qed.

(** One turn of the loop takes at least a byte and keeps what was collected. *)
Lemma update_body_ok h msg pre rest :
  Forall byte msg -> Forall byte rest -> collects h msg -> (0 < length rest)%nat ->
  exists h' now later, rest = now ++ later /\ (length now > 0)%nat /\ collects h' (msg ++ now) /\ bit_count_ h' = bit_count_ h
    /\ update_body a (Some (pre ++ rest)) (h, length pre, length rest)
       = Done (Next (h', length (pre ++ now), length later)).
Proof.
  intros Hmb Hrb (k & whole & tail & junk & -> & Hw & Ht & Hn & Hb & Hj & Hst) Hr. unfold update_body.
  set (n := if (length rest <? block_size a - buffer_size_ h)%nat then length rest else (block_size a - buffer_size_ h)%nat).
  assert (Hnle : (0 < n <= length rest)%nat /\ (length tail + n <= block_size a)%nat).
  { unfold n. rewrite Hn. destruct (Nat.ltb_spec (length rest) (block_size a - length tail)); lia. }
  rewrite digest_copy_loop by (rewrite ?Hb, ?length_app; lia). exec_simpl.
  rewrite drop_app_length. rewrite Hb, (wrote_behind tail) by done.
  assert (Htk : length (take n rest) = n) by (rewrite length_take; lia). rewrite Htk.
  destruct (Nat.eqb_spec (buffer_size_ h + n) (block_size a)) as [E|E].
  - rewrite (drop_ge junk), app_nil_r by lia. apply Forall_app in Hmb as [Hwb Htb].
    destruct (law_transform a (HashLaws := HL) (state_ h) (tail ++ take n rest)) as [-> _]; [|rewrite length_app; lia|
      apply Forall_app; split; [done|by apply Forall_take]|].
    { rewrite Hst. apply absorb_wf; [exact (law_initial a (HashLaws := HL))|done..]. }
    exec_simpl. exists (mk_hasher (compress (state_ h) (tail ++ take n rest)) (bit_count_ h) (tail ++ take n rest) 0),
      (take n rest), (drop n rest). rewrite take_drop, length_app, length_drop, Htk.
    split_and!; [done|lia| |done|done].
    exists (k + 1)%nat, (whole ++ tail ++ take n rest), [], (tail ++ take n rest). cbn.
    rewrite app_nil_r, <-!app_assoc, !length_app. split_and!; try (done || lia).
    rewrite absorb_app by done. cbn [absorb]. rewrite (take_ge (tail ++ _)) by (rewrite length_app; lia). by rewrite Hst.
  - exec_simpl. exists (mk_hasher (state_ h) (bit_count_ h) (tail ++ take n rest ++ drop n junk) (buffer_size_ h + n)),
      (take n rest), (drop n rest). rewrite take_drop, length_app, length_drop, Htk.
    split_and!; [done|lia| |done|done].
    exists k, whole, (tail ++ take n rest), (drop n junk). cbn.
    rewrite <-!app_assoc, !length_app, length_drop. split_and!; (done || lia).
Qed.

Lemma update_loop_ok fuel h msg pre rest :
  Forall byte msg -> Forall byte rest -> collects h msg -> (length rest < fuel)%nat ->
  exists h' off, collects h' (msg ++ rest) /\ bit_count_ h' = bit_count_ h
    /\ while_loop fuel (fun '(_, _, size) => Done (negb (size =? 0)%nat)) (update_body a (Some (pre ++ rest))) (h, length pre, length rest)
       = Done (Next (h', off, 0%nat)).
Proof.
  revert h msg pre rest. induction fuel as [|fuel IH]; intros h msg pre rest Hmb Hrb Hc Hf; [lia|]. cbn [while_loop].
  destruct (Nat.eqb_spec (length rest) 0) as [Hz|Hnz]; cbn [negb].
  { destruct rest; [|done]. rewrite app_nil_r. by exists h, (length pre). }
  destruct (update_body_ok h msg pre rest) as (h1 & now & later & -> & Hnow & Hc1 & Hb1 & ->); [done..|lia|].
  rewrite (app_assoc pre). apply Forall_app in Hrb as [Hnb Hlb]. rewrite length_app in Hf.
  destruct (IH h1 (msg ++ now) (pre ++ now) later) as (h2 & off & Hc2 & Hb2 & ->); [by apply Forall_app|done..|lia|].
  exists h2, off. rewrite <-app_assoc in Hc2. by rewrite Hb2.
Qed.

Lemma update_ok h msg piece :
  has_seen h msg -> Forall byte piece -> u64 (Z.of_nat (length piece)) ->
  exists h', update a h (Some piece) (length piece) = Done (s_ok, h') /\ has_seen h' (msg ++ piece).
Proof.
  intros (Hb & Hc & Hn) Hp Hl. unfold update. cbn [is_null andb].
  destruct (update_loop_ok (S (length piece)) (mk_hasher (state_ h) (count_bits a (bit_count_ h) (length piece)) (buffer_ h) (buffer_size_ h))
    msg [] piece) as (h' & off & Hc' & Hn' & E); [done..|lia|]. cbn [app length] in E. rewrite E. cbn [after].
  exists h'. split; [done|]. split; [by apply Forall_app|]. split; [done|]. rewrite Hn'. cbn [bit_count_].
  rewrite Hn. rewrite (law_count_bits a (HashLaws := HL)) by (done || lia). f_equal. rewrite length_app. lia.
Qed.

Lemma update_all_ok h msg pieces :
  has_seen h msg -> Forall (fun p => Forall byte p /\ u64 (Z.of_nat (length p))) pieces ->
  exists h', update_all a h pieces = Done h' /\ has_seen h' (msg ++ mjoin pieces).
Proof.
  revert h msg. induction pieces as [|p ps IH]; intros h msg Hh Hp; cbn [update_all].
  { exists h. cbn. by rewrite app_nil_r. }
  apply Forall_cons in Hp as [[Hpb Hpl] Hp]. destruct (update_ok h msg p Hh Hpb Hpl) as (h1 & -> & H1). exec_simpl.
  destruct (IH h1 _ H1 Hp) as (h2 & -> & H2). exists h2. by rewrite <-app_assoc in H2.
Qed.

(** ** The digest *)

Lemma zeros_fits k t :
  (t < block_size a)%nat ->
  zeros a (k * block_size a + t)
  = (if t + 1 <=? length_offset a then length_offset a - (t + 1) else block_size a - (t + 1) + length_offset a)%nat.
Proof.
  intros Ht. destruct (law_sizes a (HashLaws := HL)) as [Hs _]. unfold zeros.
  replace (k * block_size a + t + 1)%nat with (t + 1 + k * block_size a)%nat by lia.
  rewrite Nat.Div0.mod_add. destruct (Nat.eq_dec (t + 1)%nat (block_size a)) as [E|E].
  - rewrite E, Nat.Div0.mod_same. rewrite (proj2 (Nat.leb_gt _ _)) by lia.
    rewrite Nat.sub_0_r, <-(Nat.mul_1_l (block_size a)) at 1. rewrite Nat.Div0.mod_add, Nat.mod_small; lia.
  - rewrite (Nat.mod_small (t + 1)%nat) by lia. destruct (Nat.leb_spec (t + 1)%nat (length_offset a)).
    + replace (length_offset a + block_size a - (t + 1))%nat with (length_offset a - (t + 1) + 1 * block_size a)%nat by lia.
      rewrite Nat.Div0.mod_add, Nat.mod_small; lia.
    + rewrite Nat.mod_small; lia.
Qed.

(** The words of the state, in order. *)
Lemma write_words st (result : list Z) :
  wf st -> length result = digest_size a ->
  for_to 0 (digest_size a / word_size a) (fun i result => w ← load st i; write_word a result (word_size a * i) w) result
  = Done (mjoin (word_bytes <$> st)).
Proof.
  intros Hst Hl. destruct (law_sizes a (HashLaws := HL)) as [_ Hw]. pose proof (law_words a (HashLaws := HL) st Hst) as Hd.
  assert (Hlen : forall i, length (mjoin (word_bytes <$> take i st)) = (word_size a * Nat.min i (length st))%nat).
  { intros i. rewrite (length_join_const _ (word_size a)), length_take; [done|].
    apply Forall_take, Forall_forall. intros w Hin. by apply (law_word a (HashLaws := HL) st). }
  rewrite Hd, Nat.mul_comm, Nat.div_mul by lia. set (body := fun (i : nat) (r : list Z) => _).
  destruct (for_to_inv (fun i r => r = wrote result 0 (mjoin (word_bytes <$> take i st))) body 0 (length st) result)
    as (r & -> & ->).
  - rewrite take_0. symmetry. apply (wrote_nil result 0).
  - intros i r Hi ->. destruct (lookup_lt_is_Some_2 st i) as [w Hv]; [lia|]. unfold body.
    rewrite (load_Done _ _ _ Hv). exec_simpl.
    destruct (law_word a (HashLaws := HL) st w Hst) as [Hwl Hww]; [by eapply list_elem_of_lookup_2|].
    assert (Hb : (word_size a * i + word_size a <= length result)%nat) by (rewrite Hl, Hd; nia).
    rewrite Hww by (rewrite length_wrote; rewrite ?Hlen; nia). eexists. split; [done|].
    rewrite wrote_app by (rewrite ?Hlen, ?Hwl; nia). f_equal.
    rewrite (take_S_r _ _ _ Hv), fmap_app, join_app. cbn. by rewrite app_nil_r.
  - rewrite Nat.add_0_l, take_ge by lia. rewrite wrote_0, drop_ge, app_nil_r; [done|].
    pose proof (Hlen (length st)) as E. rewrite take_ge, Nat.min_id in E by lia. lia.
Qed.

Lemma transform_absorbs k whole b :
  Forall byte whole -> Forall byte b -> length whole = (k * block_size a)%nat -> length b = block_size a ->
  transform a (absorb a compress k (initial a) whole) b = Done (absorb a compress (k + 1) (initial a) (whole ++ b)).
Proof.
  intros Hw Hb Hl Hlb. rewrite absorb_app by done. cbn [absorb]. rewrite (take_ge b) by lia.
  refine (proj1 (law_transform a (HashLaws := HL) _ _ _ Hlb Hb)). by apply absorb_wf; [exact (law_initial a (HashLaws := HL))|..].
Qed.

Lemma digest_ok h msg result :
  has_seen h msg -> length result = digest_size a ->
  digest a h result = Done (hash_of a compress length_field word_bytes msg).
Proof.
  intros (Hb & (k & whole & tail & junk & -> & Hw & Ht & Hn & Hbuf & Hj & Hst) & Hbits) Hr.
  destruct (law_sizes a (HashLaws := HL)) as [Hs Hws]. set (B := block_size a) in *. set (L := length_offset a) in *.
  destruct (law_field a (HashLaws := HL) (8 * Z.of_nat (length (whole ++ tail)))) as [Hfl Hfb]. fold B L in Hfl.
  set (field := length_field (8 * Z.of_nat (length (whole ++ tail)))) in *.
  pose proof Hb as [Hwb Htb]%Forall_app. assert (H80 : Forall byte [128]) by (repeat constructor; unfold byte; lia).
  assert (Hz : forall n, Forall byte (replicate n 0)) by (intros n; apply Forall_replicate; unfold byte; lia).
  destruct junk as [|j junk]; [cbn in Hj; lia|]. cbn [length] in Hj.
  unfold digest. fold B L. rewrite Hbuf, Hn. rewrite store_Done by (rewrite length_app; cbn; lia). exec_simpl.
  rewrite insert_app_r_alt, Nat.sub_diag by lia. cbn [insert list_insert].
  change (tail ++ 128 :: junk) with (tail ++ [128] ++ junk). rewrite app_assoc.
  assert (Hp : forall zs, zs = zeros a (length (whole ++ tail)) ->
    padded a length_field (whole ++ tail) = whole ++ tail ++ [128] ++ replicate zs 0 ++ field).
  { intros zs ->. unfold padded. by rewrite <-app_assoc. }
  rewrite (length_app whole), Hw, zeros_fits in Hp by done. fold B L in Hp.
  assert (Hfin : forall n p, padded a length_field (whole ++ tail) = p -> length p = (n * B)%nat -> Forall byte p ->
    for_to 0 (digest_size a / word_size a) (fun i result => w ← load (absorb a compress n (initial a) p) i;
      write_word a result (word_size a * i) w) result = Done (hash_of a compress length_field word_bytes (whole ++ tail))).
  { intros n p Ep Hpl Hpb. rewrite write_words; [|by apply absorb_wf; [exact (law_initial a (HashLaws := HL))|..]|done].
    unfold hash_of. rewrite Ep, Hpl, Nat.div_mul by (unfold B; lia). done. }
  destruct (Nat.ltb_spec L (length tail + 1)) as [Hgt|Hle].
  - rewrite zero_fill_ok by (rewrite !length_app; cbn; lia). exec_simpl.
    rewrite wrote_behind by (rewrite length_app; done). rewrite length_replicate, (drop_ge junk), app_nil_r by lia.
    rewrite (proj2 (Nat.leb_gt _ _)) in Hp by lia. specialize (Hp _ eq_refl).
    set (b1 := (tail ++ [128]) ++ replicate (B - (length tail + 1)) 0).
    assert (Hb1 : length b1 = B) by (unfold b1; rewrite !length_app, length_replicate; cbn; lia).
    assert (Hb1b : Forall byte b1) by (unfold b1; by rewrite !Forall_app).
    rewrite Hst, transform_absorbs by done. exec_simpl.
    rewrite zero_fill_ok by lia. exec_simpl. rewrite Nat.sub_0_r, wrote_0, length_replicate.
    rewrite Hbits, (law_length a (HashLaws := HL)) by (rewrite length_app, length_replicate, length_drop; fold B; lia).
    fold L field. rewrite wrote_behind by (by rewrite length_replicate). exec_simpl.
    rewrite drop_drop, (drop_ge b1), app_nil_r by lia.
    rewrite transform_absorbs;
      [|by apply Forall_app|by apply Forall_app|rewrite length_app; fold B; lia|rewrite length_app, length_replicate; fold B; lia].
    exec_simpl. apply Hfin.
    + rewrite Hp. unfold b1. rewrite replicate_add, <-!app_assoc. done.
    + rewrite !length_app, length_replicate. lia.
    + by rewrite !Forall_app.
  - exec_simpl. rewrite zero_fill_ok by (rewrite !length_app; cbn; lia). exec_simpl.
    rewrite wrote_behind by (rewrite length_app; done). rewrite length_replicate.
    rewrite (proj2 (Nat.leb_le _ _)) in Hp by lia. specialize (Hp _ eq_refl).
    rewrite Hbits, (law_length a (HashLaws := HL)) by (rewrite !length_app, length_replicate, length_drop; cbn; fold B; lia).
    fold L field. rewrite (app_assoc (tail ++ [128])), wrote_behind by (rewrite !length_app, length_replicate; cbn; lia).
    exec_simpl. rewrite drop_drop, (drop_ge junk), app_nil_r by lia.
    rewrite Hst, transform_absorbs;
      [|done|by rewrite !Forall_app|done|rewrite !length_app, length_replicate; cbn; fold B; lia].
    exec_simpl. apply Hfin.
    + rewrite Hp, <-!app_assoc. done.
    + rewrite !length_app, length_replicate. cbn. lia.
    + by rewrite !Forall_app.
Qed.

Lemma hash_length msg :
  Forall byte msg -> length (hash_of a compress length_field word_bytes msg) = digest_size a.
Proof.
  intros Hb. destruct (law_sizes a (HashLaws := HL)) as [Hs _]. unfold hash_of. cbn zeta.
  set (p := padded a length_field msg).
  destruct (law_field a (HashLaws := HL) (8 * Z.of_nat (length msg))) as [Hfl Hfb].
  assert (Hp : exists n, length p = (n * block_size a)%nat).
  { pose proof (zeros_fits (length msg / block_size a) (length msg mod block_size a)) as Hz.
    rewrite (Nat.mul_comm _ (block_size a)), <-Nat.div_mod_eq in Hz. pose proof (Nat.mod_upper_bound (length msg) (block_size a)).
    pose proof (Nat.div_mod_eq (length msg) (block_size a)). unfold p, padded.
    rewrite !length_app, length_replicate, Hfl, Hz by lia. cbn [length].
    destruct (Nat.leb_spec (length msg mod block_size a + 1)%nat (length_offset a));
      [exists (length msg / block_size a + 1)%nat|exists (length msg / block_size a + 2)%nat]; lia. }
  destruct Hp as [n Hn]. rewrite Hn, Nat.div_mul by lia.
  assert (Hwf : wf (absorb a compress n (initial a) p)).
  { apply absorb_wf; [exact (law_initial a (HashLaws := HL))| |done]. unfold p, padded. rewrite !Forall_app.
    split_and!; [done|repeat constructor; unfold byte; lia|apply Forall_replicate; unfold byte; lia|done]. }
  rewrite (length_join_const _ (word_size a)); [by rewrite (law_words a (HashLaws := HL) _ Hwf)|].
  apply Forall_forall. intros w Hw. by apply (law_word a (HashLaws := HL) _ w Hwf).
Qed.

Lemma final_ok h msg result output :
  has_seen h msg -> length result = digest_size a -> (digest_size a <= length output)%nat ->
  final_ a h result (Some output) (length output)
  = Done (s_ok, Some (wrote output 0 (hash_of a compress length_field word_bytes msg))).
Proof.
  intros Hh Hr Ho. pose proof (hash_length msg (proj1 Hh)) as Hl. unfold final_. cbn [is_null andb].
  rewrite (proj2 (Nat.ltb_ge _ _)) by lia. rewrite (digest_ok h msg) by done. exec_simpl.
  set (d := hash_of a compress length_field word_bytes msg) in *. set (body := fun (i : nat) (o : ptr) => _).
  destruct (for_to_inv (fun i o => o = Some (wrote output 0 (take i d))) body 0 (digest_size a) (Some output)) as (o & -> & ->).
  - rewrite take_0. by rewrite (wrote_nil output 0).
  - intros i o Hi ->. unfold body. destruct (lookup_lt_is_Some_2 d i) as [v Hv]; [lia|].
    rewrite (load_Done _ _ _ Hv). exec_simpl. rewrite (take_S_r _ _ _ Hv). eexists. split; [|done].
    apply pstore_wrote; [rewrite length_take; lia|lia].
  - exec_simpl. rewrite Nat.add_0_l, take_ge by lia. done.
Qed.
End Laws.

(** ** The standards' construction, apart from any class *)

(** The message is padded to blocks of [B] octets with its length behind the [L]-th, and the blocks are
    absorbed in turn, from the initial value [iv] on. *)
Section Standard.
Context (B L : nat) (iv : list Z) (compress : list Z -> list Z -> list Z) (length_field : Z -> list Z) (word_bytes : Z -> list Z).

Definition padding (msg : list Z) : list Z :=
  128 :: replicate ((L + B - (length msg + 1) mod B) mod B)%nat 0 ++ length_field (8 * Z.of_nat (length msg)).
Fixpoint absorb_blocks (compress : list Z -> list Z -> list Z) (n : nat) (state bytes : list Z) : list Z :=
  match n with
  | O => state
  | S n => absorb_blocks compress n (compress state (take B bytes)) (drop B bytes)
  end.
Definition standard_hash (msg : list Z) : list Z :=
  let p := msg ++ padding msg in
  mjoin (word_bytes <$> absorb_blocks compress (length p / B) iv p).
End Standard.

(** ** What a hash class promises *)

Definition bytes_piece (p : list Z) : Prop := Forall byte p /\ u64 (Z.of_nat (length p)).

(** However a message is cut into pieces, on a new object or after [reset], the
    digest is the hash of the message, it leaves the object as it was, and the
    entry points that take pointers report null and short buffers. *)
Definition computes {C} (a : algorithm C) (hash : list Z -> list Z) : Prop :=
  (forall junk before pieces result,
     length junk = block_size a -> Forall bytes_piece before -> Forall bytes_piece pieces -> length result = digest_size a ->
     let msg := mjoin pieces in
     exists h0 h1 h2,
       update_all a (hasher_new a junk) before = Done h0
       /\ update_all a (hasher_new a junk) pieces = Done h1 /\ update_all a (reset a h0) pieces = Done h2
       /\ digest a h1 result = Done (hash msg) /\ digest a h2 result = Done (hash msg)
       /\ (u64 (Z.of_nat (length msg)) -> calculate a junk result (Some msg) (length msg) = Done (hash msg))
       /\ (forall out, (digest_size a <= length out)%nat -> final_ a h1 result (Some out) (length out)
             = Done (s_ok, Some (wrote out 0 (hash msg)))))
  /\ (forall h size, (0 < size)%nat -> update a h None size = Done (s_invalid_argument, h))
  /\ (forall h result cap, final_ a h result None cap = Done (if (cap =? 0)%nat then s_full else s_invalid_argument, None))
  /\ (forall h result out cap, (cap < digest_size a)%nat -> final_ a h result (Some out) cap = Done (s_full, Some out)).

Lemma hash_of_standard {C} (a : algorithm C) compress length_field word_bytes :
  hash_of a compress length_field word_bytes = standard_hash (block_size a) (length_offset a) (initial a) compress length_field word_bytes.
Proof. reflexivity. Qed.

Lemma lawful_computes {C} (a : algorithm C) compress wf count_of length_field word_bytes :
  HashLaws a compress wf count_of length_field word_bytes -> (0 < digest_size a)%nat ->
  computes a (standard_hash (block_size a) (length_offset a) (initial a) compress length_field word_bytes).
Proof.
  intros HL Hd. rewrite <-hash_of_standard. split; [|split_and!].
  - intros junk before pieces result Hj Hb Hp Hr. cbn zeta.
    pose proof (has_seen_new a compress wf count_of length_field word_bytes junk Hj) as Hn.
    destruct (update_all_ok a compress wf count_of length_field word_bytes _ _ before Hn Hb) as (h0 & E0 & H0).
    destruct (update_all_ok a compress wf count_of length_field word_bytes _ _ pieces Hn Hp) as (h1 & E1 & H1).
    destruct (update_all_ok a compress wf count_of length_field word_bytes _ _ pieces
      (has_seen_reset a compress wf count_of length_field word_bytes _ _ H0) Hp) as (h2 & E2 & H2).
    exists h0, h1, h2. cbn [app] in H1, H2. split_and!; [done..| | | |].
    + by apply (digest_ok a compress wf count_of length_field word_bytes).
    + by apply (digest_ok a compress wf count_of length_field word_bytes).
    + intros Hl. unfold calculate.
      destruct (update_ok a compress wf count_of length_field word_bytes _ _ (mjoin pieces) Hn (proj1 H1) Hl) as (h & -> & Hh).
      exec_simpl. by apply (digest_ok a compress wf count_of length_field word_bytes).
    + intros out Ho. by apply (final_ok a compress wf count_of length_field word_bytes).
  - intros h size Hs. unfold update. cbn [is_null]. by rewrite (proj2 (Nat.eqb_neq _ _)) by lia.
  - intros h result cap. unfold final_. cbn [is_null andb]. destruct (Nat.eqb_spec cap 0) as [->|]; cbn [negb]; [|done].
    by rewrite (proj2 (Nat.ltb_lt _ _)) by lia.
  - intros h result out cap Hc. unfold final_. cbn [is_null andb]. by rewrite (proj2 (Nat.ltb_lt _ _)) by lia.
Qed.
