(* ===== verification/Sha2.v ===== *)
(** * SHA-256 and SHA-512 (castle_ext/crypto/hash/sha256.hpp, sha512.hpp)

    The two classes have the same text at two word widths.  [sha2] is that text over
    the width, the number of rounds and the functions that differ; the modules
    [Sha256] and [Sha512] are the classes.  The reference definition follows FIPS
    180-4: the message schedule as a recurrence, the rounds as a fold. *)

From S2P Require Import Prelude Status Bytes Words Digest.
Open Scope Z_scope.

(** ** The shared text *)

(** The registers [a] to [h]. *)
Definition registers : Type := Z * Z * Z * Z * Z * Z * Z * Z.

Section Sha2.
Context (width : Z) (bytes : nat) (rounds : nat) (k : list Z).
Context (read : list Z -> nat -> exec Z) (big_sigma0 big_sigma1 small_sigma0 small_sigma1 : Z -> exec Z).

Definition add (x y : Z) : Z := wrap width (x + y).
Definition choose (e f g : Z) : Z := Z.lxor (Z.land e f) (Z.land (wrap width (Z.lnot e)) g).
Definition majority (a b c : Z) : Z := Z.lxor (Z.lxor (Z.land a b) (Z.land a c)) (Z.land b c).

Definition schedule_body (i : nat) (w : list Z) : exec (list Z) :=
  w2 ← load w (i - 2); s1 ← small_sigma1 w2; w7 ← load w (i - 7);
  w15 ← load w (i - 15); s0 ← small_sigma0 w15; w16 ← load w (i - 16);
  store w i (add (add (add s1 w7) s0) w16).

Definition round_body (w : list Z) (i : nat) (r : registers) : exec registers :=
  let '(a, b, c, d, e, f, g, h) := r in
  s1 ← big_sigma1 e; ki ← load k i; wi ← load w i;
  let t1 := add (add (add (add h s1) (choose e f g)) ki) wi in
  s0 ← big_sigma0 a;
  let t2 := add s0 (majority a b c) in
  let h := g in let g := f in let f := e in let e := add d t1 in
  let d := c in let c := b in let b := a in let a := add t1 t2 in
  Done (a, b, c, d, e, f, g, h).

(** [state_[i] += v]. *)
Definition add_to (state : list Z) (i : nat) (v : Z) : exec (list Z) :=
  x ← load state i; store state i (add x v).

(** [w0] is what the array [w] happens to hold when it is declared. *)
Definition transform (w0 : list Z) (state : list Z) (block : list Z) : exec (list Z) :=
  w ← for_to 0 16 (fun i w => v ← read block (bytes * i); store w i v) w0;
  w ← for_to 16 (rounds - 16) schedule_body w;
  a ← load state 0; b ← load state 1; c ← load state 2; d ← load state 3;
  e ← load state 4; f ← load state 5; g ← load state 6; h ← load state 7;
  '(a, b, c, d, e, f, g, h) ← for_to 0 rounds (round_body w) (a, b, c, d, e, f, g, h);
  state ← add_to state 0 a; state ← add_to state 1 b; state ← add_to state 2 c; state ← add_to state 3 d;
  state ← add_to state 4 e; state ← add_to state 5 f; state ← add_to state 6 g; add_to state 7 h.
End Sha2.

(** [n] words of [bytes] bytes, the most significant one first. *)
Definition big_endian_words (bytes n : nat) (v : Z) : list Z := reverse (le_digits (256 ^ Z.of_nat bytes) n v).

(** ** The classes *)

Module Sha256.
(** Each row of the table as one number. *)
Definition sha256_k : list Z := Eval vm_compute in mjoin (big_endian_words 4 4 <$>
  [0x428a2f9871374491b5c0fbcfe9b5dba5;
   0x3956c25b59f111f1923f82a4ab1c5ed5;
   0xd807aa9812835b01243185be550c7dc3;
   0x72be5d7480deb1fe9bdc06a7c19bf174;
   0xe49b69c1efbe47860fc19dc6240ca1cc;
   0x2de92c6f4a7484aa5cb0a9dc76f988da;
   0x983e5152a831c66db00327c8bf597fc7;
   0xc6e00bf3d5a7914706ca635114292967;
   0x27b70a852e1b21384d2c6dfc53380d13;
   0x650a7354766a0abb81c2c92e92722c85;
   0xa2bfe8a1a81a664bc24b8b70c76c51a3;
   0xd192e819d6990624f40e3585106aa070;
   0x19a4c1161e376c082748774c34b0bcb5;
   0x391c0cb34ed8aa4a5b9cca4f682e6ff3;
   0x748f82ee78a5636f84c878148cc70208;
   0x90befffaa4506cebbef9a3f7c67178f2]).
Definition big_sigma0 (x : Z) : exec Z := p ← rotr32 x 2; q ← rotr32 x 13; r ← rotr32 x 22; Done (Z.lxor (Z.lxor p q) r).
Definition big_sigma1 (x : Z) : exec Z := p ← rotr32 x 6; q ← rotr32 x 11; r ← rotr32 x 25; Done (Z.lxor (Z.lxor p q) r).
Definition small_sigma0 (x : Z) : exec Z := p ← rotr32 x 7; q ← rotr32 x 18; Done (Z.lxor (Z.lxor p q) (Z.shiftr x 3)).
Definition small_sigma1 (x : Z) : exec Z := p ← rotr32 x 17; q ← rotr32 x 19; Done (Z.lxor (Z.lxor p q) (Z.shiftr x 10)).
Definition initial : list Z := [0x6a09e667; 0xbb67ae85; 0x3c6ef372; 0xa54ff53a; 0x510e527f; 0x9b05688c; 0x1f83d9ab; 0x5be0cd19].
Definition count_bits (bit_count_ : Z) (size : nat) : Z := to_u64 (bit_count_ + to_u64 (Z.shiftl (to_u64 (Z.of_nat size)) 3)).
Definition transform (w0 : list Z) : list Z -> list Z -> exec (list Z) :=
  transform 32 4 64 sha256_k read_be32 big_sigma0 big_sigma1 small_sigma0 small_sigma1 w0.
Definition sha256 (w0 : list Z) : algorithm Z :=
  mk_algorithm 64 56 32 4 initial 0 count_bits (transform w0) (fun b n => write_be64 b 56 n) write_be32.
End Sha256.

Module Sha512.
(** Each row of the table as one number. *)
Definition sha512_k : list Z := Eval vm_compute in mjoin (big_endian_words 8 4 <$>
  [0x428a2f98d728ae227137449123ef65cdb5c0fbcfec4d3b2fe9b5dba58189dbbc;
   0x3956c25bf348b53859f111f1b605d019923f82a4af194f9bab1c5ed5da6d8118;
   0xd807aa98a303024212835b0145706fbe243185be4ee4b28c550c7dc3d5ffb4e2;
   0x72be5d74f27b896f80deb1fe3b1696b19bdc06a725c71235c19bf174cf692694;
   0xe49b69c19ef14ad2efbe4786384f25e30fc19dc68b8cd5b5240ca1cc77ac9c65;
   0x2de92c6f592b02754a7484aa6ea6e4835cb0a9dcbd41fbd476f988da831153b5;
   0x983e5152ee66dfaba831c66d2db43210b00327c898fb213fbf597fc7beef0ee4;
   0xc6e00bf33da88fc2d5a79147930aa72506ca6351e003826f142929670a0e6e70;
   0x27b70a8546d22ffc2e1b21385c26c9264d2c6dfc5ac42aed53380d139d95b3df;
   0x650a73548baf63de766a0abb3c77b2a881c2c92e47edaee692722c851482353b;
   0xa2bfe8a14cf10364a81a664bbc423001c24b8b70d0f89791c76c51a30654be30;
   0xd192e819d6ef5218d69906245565a910f40e35855771202a106aa07032bbd1b8;
   0x19a4c116b8d2d0c81e376c085141ab532748774cdf8eeb9934b0bcb5e19b48a8;
   0x391c0cb3c5c95a634ed8aa4ae3418acb5b9cca4f7763e373682e6ff3d6b2b8a3;
   0x748f82ee5defb2fc78a5636f43172f6084c87814a1f0ab728cc702081a6439ec;
   0x90befffa23631e28a4506cebde82bde9bef9a3f7b2c67915c67178f2e372532b;
   0xca273eceea26619cd186b8c721c0c207eada7dd6cde0eb1ef57d4f7fee6ed178;
   0x06f067aa72176fba0a637dc5a2c898a6113f9804bef90dae1b710b35131c471b;
   0x28db77f523047d8432caab7b40c724933c9ebe0a15c9bebc431d67c49c100d4c;
   0x4cc5d4becb3e42b6597f299cfc657e2a5fcb6fab3ad6faec6c44198c4a475817]).
Definition big_sigma0 (x : Z) : exec Z := p ← rotr64 x 28; q ← rotr64 x 34; r ← rotr64 x 39; Done (Z.lxor (Z.lxor p q) r).
Definition big_sigma1 (x : Z) : exec Z := p ← rotr64 x 14; q ← rotr64 x 18; r ← rotr64 x 41; Done (Z.lxor (Z.lxor p q) r).
Definition small_sigma0 (x : Z) : exec Z := p ← rotr64 x 1; q ← rotr64 x 8; Done (Z.lxor (Z.lxor p q) (Z.shiftr x 7)).
Definition small_sigma1 (x : Z) : exec Z := p ← rotr64 x 19; q ← rotr64 x 61; Done (Z.lxor (Z.lxor p q) (Z.shiftr x 6)).
Definition initial : list Z := [0x6a09e667f3bcc908; 0xbb67ae8584caa73b; 0x3c6ef372fe94f82b; 0xa54ff53a5f1d36f1;
   0x510e527fade682d1; 0x9b05688c2b3e6c1f; 0x1f83d9abfb41bd6b; 0x5be0cd19137e2179].
(** The counter has two words, the low one first. *)
Definition count_bits (count : Z * Z) (size : nat) : Z * Z :=
  let '(old_low, high) := count in
  let byte_count := to_u64 (Z.of_nat size) in
  let bits_low := to_u64 (Z.shiftl byte_count 3) in
  let low := to_u64 (old_low + bits_low) in
  let high := to_u64 (high + Z.shiftr byte_count 61) in
  (low, if low <? old_low then to_u64 (high + 1) else high).
Definition write_length (b : list Z) (count : Z * Z) : exec (list Z) :=
  b ← write_be64 b 112 count.2; write_be64 b 120 count.1.
Definition transform (w0 : list Z) : list Z -> list Z -> exec (list Z) :=
  transform 64 8 80 sha512_k read_be64 big_sigma0 big_sigma1 small_sigma0 small_sigma1 w0.
Definition sha512 (w0 : list Z) : algorithm (Z * Z) :=
  mk_algorithm 128 112 64 8 initial (0, 0) count_bits (transform w0) write_length write_be64.
End Sha512.

(** ** FIPS 180-4 *)

Section Fips.
Context (width : Z) (bytes rounds : nat) (k : list Z) (S0 S1 s0 s1 : Z -> Z).
Let sum (x y : Z) : Z := (x + y) mod 2 ^ width.

Definition Ch (x y z : Z) : Z := Z.lxor (Z.land x y) (Z.ldiff z x).
Definition Maj (x y z : Z) : Z := Z.lxor (Z.lxor (Z.land x y) (Z.land x z)) (Z.land y z).

(** The words of a block, the most significant byte first. *)
Definition message_word (block : list Z) (i : nat) : Z := le_val 256 (reverse (take bytes (drop (bytes * i) block))).

(** [W 0 .. W (15 + n)]. *)
Fixpoint W (n : nat) (block : list Z) : list Z :=
  match n with
  | O => message_word block <$> seq 0 16
  | S n =>
      let ws := W n block in
      let t := (16 + n)%nat in
      ws ++ [sum (sum (sum (s1 (ws !!! (t - 2)%nat)) (ws !!! (t - 7)%nat)) (s0 (ws !!! (t - 15)%nat))) (ws !!! (t - 16)%nat)]
  end.

Definition fips_round (kt wt : Z) (r : registers) : registers :=
  let '(a, b, c, d, e, f, g, h) := r in
  let T1 := sum (sum (sum (sum h (S1 e)) (Ch e f g)) kt) wt in
  let T2 := sum (S0 a) (Maj a b c) in
  (sum T1 T2, a, b, c, sum d T1, e, f, g).

Definition compress (H : list Z) (block : list Z) : list Z :=
  match H with
  | [a; b; c; d; e; f; g; h] =>
      let ws := W (rounds - 16) block in
      let '(a', b', c', d', e', f', g', h') :=
        fold_left (fun r t => fips_round (k !!! t) (ws !!! t) r) (seq 0 rounds) (a, b, c, d, e, f, g, h) in
      [sum a a'; sum b b'; sum c c'; sum d d'; sum e e'; sum f f'; sum g g'; sum h h']
  | _ => H
  end.
End Fips.

(** The shared text refines the standard, for functions that compute [S0] .. [s1]. *)

Section Refines.
Context (width : Z) (bytes rounds : nat) (k : list Z).
Context (read : list Z -> nat -> exec Z) (big_sigma0 big_sigma1 small_sigma0 small_sigma1 : Z -> exec Z)
  (S0 S1 s0 s1 : Z -> Z).
Context (Hwidth : width = 8 * Z.of_nat bytes) (Hbytes : (0 < bytes)%nat) (Hrounds : (16 <= rounds)%nat).
Context (Hkl : length k = rounds).
Context (Hread : forall pre bs post, length bs = bytes -> Forall byte bs ->
  read (pre ++ bs ++ post) (length pre) = Done (le_val 256 (reverse bs))).
Context (HS0 : forall x, in_width width x -> big_sigma0 x = Done (S0 x) /\ in_width width (S0 x))
  (HS1 : forall x, in_width width x -> big_sigma1 x = Done (S1 x) /\ in_width width (S1 x))
  (Hs0 : forall x, in_width width x -> small_sigma0 x = Done (s0 x) /\ in_width width (s0 x))
  (Hs1 : forall x, in_width width x -> small_sigma1 x = Done (s1 x) /\ in_width width (s1 x)).

Lemma add_width x y : in_width width (add width x y).
Proof. apply wrap_in_width. lia. Qed.

Lemma choose_Ch e f g : in_width width e -> in_width width f -> in_width width g -> choose width e f g = Ch e f g.
Proof.
  intros _ _ Hg. unfold choose, Ch. f_equal. apply Z.bits_inj'. intros i Hi.
  rewrite <-(wrap_small width g Hg), Z.land_spec, Z.ldiff_spec, !wrap_bits, Z.lnot_spec by lia.
  destruct (i <? width), (Z.testbit e i), (Z.testbit g i); done.
Qed.

Lemma read_word block i :
  (i < 16)%nat -> length block = (bytes * 16)%nat -> Forall byte block ->
  read block (bytes * i) = Done (message_word bytes block i) /\ in_width width (message_word bytes block i).
Proof.
  intros Hi Hl Hb. unfold message_word. set (bs := take bytes (drop (bytes * i) block)).
  assert (Hbl : length bs = bytes) by (unfold bs; rewrite length_take, length_drop; nia).
  assert (Hbb : Forall byte bs) by (by apply Forall_take, Forall_drop). split.
  - assert (Hsplit : block = take (bytes * i) block ++ bs ++ drop bytes (drop (bytes * i) block)) by (unfold bs; by rewrite !take_drop).
    pose proof (Hread (take (bytes * i) block) bs (drop bytes (drop (bytes * i) block)) Hbl Hbb) as Hr.
    rewrite <-Hsplit, length_take, Nat.min_l in Hr by nia. exact Hr.
  - unfold in_width. rewrite Hwidth, Z.pow_mul_r by lia. rewrite <-Hbl, <-(length_reverse bs).
    apply (le_val_bound 256); [lia|by apply Forall_reverse].
Qed.

Lemma length_W n block : length (W width bytes s0 s1 n block) = (16 + n)%nat.
Proof. induction n as [|n IH]; cbn [W]; [by rewrite length_fmap, length_seq|]. rewrite length_app, IH. cbn. lia. Qed.

Lemma W_width n block :
  length block = (bytes * 16)%nat -> Forall byte block -> Forall (in_width width) (W width bytes s0 s1 n block).
Proof.
  intros Hl Hb. induction n as [|n IH]; cbn [W].
  - apply Forall_fmap, Forall_seq. intros i Hi. by apply read_word; [lia|..].
  - apply Forall_app. split; [done|]. constructor; [|done]. apply wrap_in_width. lia.
Qed.

(** A word the schedule has already produced. *)
Lemma load_W w0 n block i :
  (i < 16 + n <= length w0)%nat -> length block = (bytes * 16)%nat -> Forall byte block ->
  load (wrote w0 0 (W width bytes s0 s1 n block)) i = Done (W width bytes s0 s1 n block !!! i)
  /\ in_width width (W width bytes s0 s1 n block !!! i).
Proof.
  intros Hi Hl Hb. destruct (lookup_lt_is_Some_2 (W width bytes s0 s1 n block) i) as [v Hv]; [rewrite length_W; lia|].
  rewrite (list_lookup_total_correct _ _ _ Hv). split.
  - apply load_Done. rewrite wrote_0. by apply lookup_app_l_Some.
  - eapply Forall_lookup_1; [by apply W_width|exact Hv].
Qed.

Lemma schedule_ok w0 block :
  length w0 = rounds -> length block = (bytes * 16)%nat -> Forall byte block ->
  (w ← for_to 0 16 (fun i w => v ← read block (bytes * i); store w i v) w0;
   for_to 16 (rounds - 16) (schedule_body width small_sigma0 small_sigma1) w)
  = Done (W width bytes s0 s1 (rounds - 16) block).
Proof.
  intros Hw Hl Hb. set (body := fun (i : nat) (w : list Z) => _).
  destruct (for_to_inv (fun i w => w = wrote w0 0 (message_word bytes block <$> seq 0 i)) body 0 16 w0) as (w1 & -> & ->).
  - symmetry. apply (wrote_nil w0 0).
  - intros i w Hi ->. unfold body. destruct (read_word block i) as [-> _]; [lia|done..|]. exec_simpl.
    rewrite store_wrote by (rewrite ?length_fmap, ?length_seq; lia). eexists. split; [done|].
    by rewrite seq_S, fmap_app.
  - exec_simpl. change (message_word bytes block <$> seq 0 (0 + 16)) with (W width bytes s0 s1 0 block).
    destruct (for_to_inv (fun i w => w = wrote w0 0 (W width bytes s0 s1 (i - 16) block))
      (schedule_body width small_sigma0 small_sigma1) 16 (rounds - 16) (wrote w0 0 (W width bytes s0 s1 0 block))) as (w1 & -> & ->); [done| |].
    + intros i w Hi ->. set (n := (i - 16)%nat). assert (Hin : i = (16 + n)%nat) by lia. unfold schedule_body.
      destruct (load_W w0 n block (i - 2)) as [-> H2]; [lia|done..|]. exec_simpl. destruct (Hs1 _ H2) as [-> _]. exec_simpl.
      destruct (load_W w0 n block (i - 7)) as [-> _]; [lia|done..|]. exec_simpl.
      destruct (load_W w0 n block (i - 15)) as [-> H15]; [lia|done..|]. exec_simpl. destruct (Hs0 _ H15) as [-> _]. exec_simpl.
      destruct (load_W w0 n block (i - 16)) as [-> _]; [lia|done..|]. exec_simpl.
      rewrite store_wrote by (rewrite ?length_W; lia). eexists. split; [done|]. f_equal.
      replace (S i - 16)%nat with (S n) by lia. cbn [W]. by rewrite <-Hin.
    + rewrite Nat.add_sub_swap, Nat.sub_diag, Nat.add_0_l by lia. f_equal. rewrite wrote_0, drop_ge, app_nil_r; [done|].
      rewrite length_W. lia.
Qed.

Definition registers_ok (r : registers) : Prop :=
  let '(a, b, c, d, e, f, g, h) := r in
  in_width width a /\ in_width width b /\ in_width width c /\ in_width width d
  /\ in_width width e /\ in_width width f /\ in_width width g /\ in_width width h.

Lemma round_ok ws i r :
  (i < rounds)%nat -> length ws = rounds -> registers_ok r ->
  round_body width k big_sigma0 big_sigma1 ws i r = Done (fips_round width S0 S1 (k !!! i) (ws !!! i) r)
  /\ registers_ok (fips_round width S0 S1 (k !!! i) (ws !!! i) r).
Proof.
  intros Hi Hw Hr. destruct r as [[[[[[[a b] c] d] e] f] g] h]. destruct Hr as (Ha & Hb & Hc & Hd & He & Hf & Hg & Hh).
  destruct (lookup_lt_is_Some_2 k i) as [ki Ek]; [lia|]. destruct (lookup_lt_is_Some_2 ws i) as [wi Ew]; [lia|].
  rewrite (list_lookup_total_correct _ _ _ Ek), (list_lookup_total_correct _ _ _ Ew).
  unfold round_body. destruct (HS1 e He) as [-> _]. exec_simpl. rewrite (load_Done _ _ _ Ek), (load_Done _ _ _ Ew). exec_simpl.
  destruct (HS0 a Ha) as [-> _]. exec_simpl. rewrite choose_Ch by done. split; [done|].
  cbn. split_and!; (done || apply add_width).
Qed.

Definition words_ok (st : list Z) : Prop := length st = 8%nat /\ Forall (in_width width) st.

Lemma transform_ok w0 st block :
  length w0 = rounds -> words_ok st -> length block = (bytes * 16)%nat -> Forall byte block ->
  transform width bytes rounds k read big_sigma0 big_sigma1 small_sigma0 small_sigma1 w0 st block
  = Done (compress width bytes rounds k S0 S1 s0 s1 st block)
  /\ words_ok (compress width bytes rounds k S0 S1 s0 s1 st block).
Proof.
  intros Hw [Hst Hsw] Hl Hb. unfold transform.
  pose proof (schedule_ok w0 block Hw Hl Hb) as Hs.
  destruct (for_to 0 16 _ w0) as [w1|] eqn:E1; [|discriminate]. exec_simpl. cbn [mbind exec_bind] in Hs. rewrite Hs. exec_simpl.
  do 8 (destruct st as [|? st]; [discriminate|]). destruct st; [|discriminate]. cbn [load lookup list_lookup]. exec_simpl.
  set (ws := W width bytes s0 s1 (rounds - 16) block).
  assert (Hws : length ws = rounds) by (unfold ws; rewrite length_W; lia).
  rewrite !Forall_cons in Hsw. destruct_and! Hsw.
  destruct (for_to_fold (fun i r => fips_round width S0 S1 (k !!! i) (ws !!! i) r) registers_ok
    (round_body width k big_sigma0 big_sigma1 ws) 0 rounds (z, z0, z1, z2, z3, z4, z5, z6)) as [-> Hr].
  - done.
  - intros i r Hi Hr. apply round_ok; [lia|done..].
  - cbn [compress]. fold ws. set (r := fold_left _ _ _) in *. clearbody r.
    destruct r as [[[[[[[a b] c] d] e] f] g] h]. exec_simpl. cbn. split; [done|]. split; [done|].
    repeat constructor; apply add_width.
Qed.
End Refines.

(** ** The constants of the standard *)

(** The first eighty primes. *)
Definition primes : list Z := List.filter (fun p => forallb (fun d => negb (p mod d =? 0)) (seqZ 2 (p - 2))) (seqZ 2 408).

(** The greatest [r] of [b] bits and beyond [r0] with [r ^ 3 <= n]. *)
Fixpoint cube_root (b : nat) (r0 n : Z) : Z :=
  match b with
  | O => r0
  | S b => let r := r0 + 2 ^ Z.of_nat b in cube_root b (if r * r * r <=? n then r else r0) n
  end.

(** The first [w] bits of the fractional parts of the roots. *)
Definition square_root_fraction (w p : Z) : Z := Z.sqrt (p * 2 ^ (2 * w)) mod 2 ^ w.
Definition cube_root_fraction (w p : Z) : Z := cube_root (Z.to_nat w + 3) 0 (p * 2 ^ (3 * w)) mod 2 ^ w.

(** ** The laws of the two classes *)

Module Fips256.
Definition S0 (x : Z) : Z := Z.lxor (Z.lxor (ROTR 32 2 x) (ROTR 32 13 x)) (ROTR 32 22 x).
Definition S1 (x : Z) : Z := Z.lxor (Z.lxor (ROTR 32 6 x) (ROTR 32 11 x)) (ROTR 32 25 x).
Definition s0 (x : Z) : Z := Z.lxor (Z.lxor (ROTR 32 7 x) (ROTR 32 18 x)) (x / 2 ^ 3).
Definition s1 (x : Z) : Z := Z.lxor (Z.lxor (ROTR 32 17 x) (ROTR 32 19 x)) (x / 2 ^ 10).
(** The constants are parts of the roots of the first primes. *)
Definition K : list Z := cube_root_fraction 32 <$> take 64 primes.
Definition H0 : list Z := square_root_fraction 32 <$> take 8 primes.
Definition compress : list Z -> list Z -> list Z := compress 32 4 64 K S0 S1 s0 s1.
Definition length_field (n : Z) : list Z := reverse (le_bytes 8 n).
Definition word_bytes (w : Z) : list Z := reverse (le_bytes 4 w).
End Fips256.

Module Fips512.
Definition S0 (x : Z) : Z := Z.lxor (Z.lxor (ROTR 64 28 x) (ROTR 64 34 x)) (ROTR 64 39 x).
Definition S1 (x : Z) : Z := Z.lxor (Z.lxor (ROTR 64 14 x) (ROTR 64 18 x)) (ROTR 64 41 x).
Definition s0 (x : Z) : Z := Z.lxor (Z.lxor (ROTR 64 1 x) (ROTR 64 8 x)) (x / 2 ^ 7).
Definition s1 (x : Z) : Z := Z.lxor (Z.lxor (ROTR 64 19 x) (ROTR 64 61 x)) (x / 2 ^ 6).
Definition K : list Z := cube_root_fraction 64 <$> take 80 primes.
Definition H0 : list Z := square_root_fraction 64 <$> take 8 primes.
Definition compress : list Z -> list Z -> list Z := compress 64 8 80 K S0 S1 s0 s1.
Definition length_field (n : Z) : list Z := reverse (le_bytes 16 n).
Definition word_bytes (w : Z) : list Z := reverse (le_bytes 8 w).
End Fips512.

Lemma fips256_constants : Fips256.K = Sha256.sha256_k /\ Fips256.H0 = Sha256.initial.
Proof. split; vm_compute; reflexivity. Qed.

Lemma fips512_constants : Fips512.K = Sha512.sha512_k /\ Fips512.H0 = Sha512.initial.
Proof. split; vm_compute; reflexivity. Qed.

(** Two rotations and a third word, rotated or shifted, xored together. *)
Ltac sigma_ok rot :=
  let x := fresh "x" in let Hx := fresh "Hx" in intros x Hx;
  repeat match goal with
  | |- context [?r x (Zpos ?c)] =>
      lazymatch r with
      | rotr32 => let E := fresh in destruct (rotr32_value x (Zpos c) ltac:(lia) Hx) as [E ?]; rewrite E; exec_simpl
      | rotr64 => let E := fresh in destruct (rotr64_value x (Zpos c) ltac:(lia) Hx) as [E ?]; rewrite E; exec_simpl
      end
  end;
  rewrite ?Z.shiftr_div_pow2 by lia; split; [done|];
  rewrite <-?Z.shiftr_div_pow2 by lia; auto using shiftr_width with castle.

Lemma sha256_transform_ok w0 st block :
  length w0 = 64%nat -> words_ok 32 st -> length block = 64%nat -> Forall byte block ->
  Sha256.transform w0 st block = Done (Fips256.compress st block) /\ words_ok 32 (Fips256.compress st block).
Proof.
  intros Hw Hst Hl Hb. unfold Fips256.compress. rewrite (proj1 fips256_constants). apply transform_ok; [done|lia|lia|done| | | | | |done..].
  - intros pre bs post Hbl Hbb. by apply (be_reader_val 4 write_be32); [unfold be_accessors; repeat constructor|..].
  - unfold Sha256.big_sigma0, Fips256.S0. sigma_ok rotr32.
  - unfold Sha256.big_sigma1, Fips256.S1. sigma_ok rotr32.
  - unfold Sha256.small_sigma0, Fips256.s0. sigma_ok rotr32.
  - unfold Sha256.small_sigma1, Fips256.s1. sigma_ok rotr32.
Qed.

Lemma sha512_transform_ok w0 st block :
  length w0 = 80%nat -> words_ok 64 st -> length block = 128%nat -> Forall byte block ->
  Sha512.transform w0 st block = Done (Fips512.compress st block) /\ words_ok 64 (Fips512.compress st block).
Proof.
  intros Hw Hst Hl Hb. unfold Fips512.compress. rewrite (proj1 fips512_constants). apply transform_ok; [done|lia|lia|done| | | | | |done..].
  - intros pre bs post Hbl Hbb. by apply (be_reader_val 8 write_be64); [unfold be_accessors; repeat constructor|..].
  - unfold Sha512.big_sigma0, Fips512.S0. sigma_ok rotr64.
  - unfold Sha512.big_sigma1, Fips512.S1. sigma_ok rotr64.
  - unfold Sha512.small_sigma0, Fips512.s0. sigma_ok rotr64.
  - unfold Sha512.small_sigma1, Fips512.s1. sigma_ok rotr64.
Qed.

Lemma words_written w bytes st x :
  w = 8 * Z.of_nat bytes -> words_ok w st -> x ∈ st -> in_width (8 * Z.of_nat bytes) x.
Proof. intros -> [_ Hst] Hx. by eapply Forall_forall in Hst. Qed.

Definition count256 (n : Z) : Z := to_u64 n.
Definition count512 (n : Z) : Z * Z := (to_u64 n, to_u64 (n / 2 ^ 64)).

Lemma count_bits256 n size : Sha256.count_bits (count256 n) size = count256 (n + 8 * Z.of_nat size).
Proof.
  unfold Sha256.count_bits, count256, wrap. rewrite Z.shiftl_mul_pow2 by lia. change (2 ^ 3) with 8.
  rewrite Z.mul_mod_idemp_l, <-Zplus_mod by lia. f_equal. lia.
Qed.

(** The two-word counter carries. *)
Lemma count_bits512 n size :
  0 <= n -> u64 (Z.of_nat size) -> Sha512.count_bits (count512 n) size = count512 (n + 8 * Z.of_nat size).
Proof.
  intros Hn Hs. set (s := Z.of_nat size) in *. unfold Sha512.count_bits, count512. fold s. rewrite (wrap_small 64 s Hs).
  rewrite Z.shiftl_mul_pow2, Z.shiftr_div_pow2 by lia. unfold wrap, in_width in *. change (2 ^ 3) with 8.
  assert (E : 8 * s = 2 ^ 64 * (s / 2 ^ 61) + (s * 8) mod 2 ^ 64).
  { replace (s * 8) with (8 * s) by lia. change (2 ^ 64) with (8 * 2 ^ 61) at 2. rewrite Z.mul_mod_distr_l by lia.
    pose proof (Z.div_mod s (2 ^ 61)). lia. }
  pose proof (Z.mod_pos_bound (s * 8) (2 ^ 64) ltac:(lia)). pose proof (Z.mod_pos_bound n (2 ^ 64) ltac:(lia)).
  pose proof (Z.div_mod n (2 ^ 64) ltac:(lia)). set (b := (s * 8) mod 2 ^ 64) in *. set (l := n mod 2 ^ 64) in *.
  replace (n + 8 * s) with (l + b + (n / 2 ^ 64 + s / 2 ^ 61) * 2 ^ 64) by lia. rewrite Z.mod_add, Z.div_add by lia.
  destruct (Z.lt_ge_cases (l + b) (2 ^ 64)) as [Hlt|Hge].
  - rewrite (Z.mod_small (l + b)), (Z.div_small (l + b)), Z.add_0_l by lia. rewrite (proj2 (Z.ltb_ge _ _)) by lia.
    by rewrite Z.add_mod_idemp_l by lia.
  - assert (Hm : (l + b) mod 2 ^ 64 = l + b - 2 ^ 64) by (symmetry; apply (Z.mod_unique _ _ 1); lia).
    assert (Hd : (l + b) / 2 ^ 64 = 1) by (symmetry; apply (Z.div_unique _ _ _ (l + b - 2 ^ 64)); lia).
    rewrite Hm, Hd, (proj2 (Z.ltb_lt _ _)) by lia. f_equal.
    rewrite Z.add_mod_idemp_l by lia. rewrite <-Z.add_assoc, Z.add_mod_idemp_l by lia. f_equal. lia.
Qed.

#[export] Instance sha256_laws w0 :
  length w0 = 64%nat -> HashLaws (Sha256.sha256 w0) Fips256.compress (words_ok 32) count256 Fips256.length_field Fips256.word_bytes.
Proof.
  intros Hw. split; cbn [block_size length_offset digest_size word_size initial no_bits count_bits Digest.transform write_length write_word Sha256.sha256].
  - lia.
  - by apply (bool_decide_unpack _).
  - by intros st [-> _].
  - intros st b. by apply sha256_transform_ok.
  - done.
  - intros n size _ _. apply count_bits256.
  - intros n. unfold Fips256.length_field. split; [by rewrite length_reverse|apply Forall_reverse, le_bytes_bytes].
  - intros b n Hb. rewrite write_be64_bytes by lia. unfold count256. by rewrite le_bytes_u64.
  - intros st w Hst Hin. split; [unfold Fips256.word_bytes; by rewrite length_reverse|]. intros b o. by apply write_be32_bytes.
Qed.

#[export] Instance sha512_laws w0 :
  length w0 = 80%nat -> HashLaws (Sha512.sha512 w0) Fips512.compress (words_ok 64) count512 Fips512.length_field Fips512.word_bytes.
Proof.
  intros Hw. split; cbn [block_size length_offset digest_size word_size initial no_bits count_bits Digest.transform write_length write_word Sha512.sha512].
  - lia.
  - by apply (bool_decide_unpack _).
  - by intros st [-> _].
  - intros st b. by apply sha512_transform_ok.
  - done.
  - apply count_bits512.
  - intros n. unfold Fips512.length_field. split; [by rewrite length_reverse|apply Forall_reverse, le_bytes_bytes].
  - intros b n Hb. unfold Sha512.write_length, count512. cbn [fst snd]. rewrite write_be64_bytes by lia. exec_simpl.
    rewrite write_be64_bytes by (rewrite length_wrote; rewrite ?length_reverse; cbn; lia).
    rewrite wrote_app by (rewrite ?length_reverse; cbn; lia). f_equal. f_equal. rewrite !le_bytes_u64, <-reverse_app.
    unfold Fips512.length_field. f_equal. symmetry. apply (le_digits_app 256 8 8). lia.
  - intros st w Hst Hin. split; [unfold Fips512.word_bytes; by rewrite length_reverse|]. intros b o. by apply write_be64_bytes.
Qed.

(** ** The classes compute their standard's hash *)

Definition fips256 : list Z -> list Z :=
  standard_hash 64 56 Fips256.H0 Fips256.compress Fips256.length_field Fips256.word_bytes.
Definition fips512 : list Z -> list Z :=
  standard_hash 128 112 Fips512.H0 Fips512.compress Fips512.length_field Fips512.word_bytes.

Lemma sha256_computes (w0 : list Z) : length w0 = 64%nat -> computes (Sha256.sha256 w0) fips256.
Proof. intros Hw. unfold fips256. rewrite (proj2 fips256_constants). apply (lawful_computes (Sha256.sha256 w0) Fips256.compress _ _ Fips256.length_field Fips256.word_bytes (sha256_laws w0 Hw)). cbn. lia. Qed.

Lemma sha512_computes (w0 : list Z) : length w0 = 80%nat -> computes (Sha512.sha512 w0) fips512.
Proof. intros Hw. unfold fips512. rewrite (proj2 fips512_constants). apply (lawful_computes (Sha512.sha512 w0) Fips512.compress _ _ Fips512.length_field Fips512.word_bytes (sha512_laws w0 Hw)). cbn. lia. Qed.

(** The test vectors of the standard. *)
Example sha256_abc :
  calculate (Sha256.sha256 (replicate 64 0)) (replicate 64 0) (replicate 32 0) (Some (chars "abc")) 3
  = Done (reverse (le_bytes 32 0xba7816bf8f01cfea414140de5dae2223b00361a396177a9cb410ff61f20015ad)).
Proof. vm_compute. reflexivity. Qed.

Example sha512_abc :
  calculate (Sha512.sha512 (replicate 80 0)) (replicate 128 0) (replicate 64 0) (Some (chars "abc")) 3
  = Done (reverse (le_bytes 64
      0xddaf35a193617abacc417349ae20413112e6fa4e89a97ea20a9eeee64b55d39a2192992a274fc1a836ba3c23a3feebbd454d4423643ce80e2a9ac94fa54ca49f)).
Proof. vm_compute. reflexivity. Qed.
