(* ===== verification/Md5.v ===== *)
(** * MD5 (castle_ext/crypto/hash/md5.hpp)

    The class over the shared text of Digest.v, and RFC 1321 as its reference: the
    four auxiliary functions, the order in which a round picks its words, the table of
    sines, and the sixty-four steps as a fold. *)

From S2P Require Import Prelude Status Bytes Words Digest Sha2.
Open Scope Z_scope.

Module Md5.
Definition k_values : list Z :=
  [0xd76aa478; 0xe8c7b756; 0x242070db; 0xc1bdceee; 0xf57c0faf; 0x4787c62a; 0xa8304613; 0xfd469501;
   0x698098d8; 0x8b44f7af; 0xffff5bb1; 0x895cd7be; 0x6b901122; 0xfd987193; 0xa679438e; 0x49b40821;
   0xf61e2562; 0xc040b340; 0x265e5a51; 0xe9b6c7aa; 0xd62f105d; 0x02441453; 0xd8a1e681; 0xe7d3fbc8;
   0x21e1cde6; 0xc33707d6; 0xf4d50d87; 0x455a14ed; 0xa9e3e905; 0xfcefa3f8; 0x676f02d9; 0x8d2a4c8a;
   0xfffa3942; 0x8771f681; 0x6d9d6122; 0xfde5380c; 0xa4beea44; 0x4bdecfa9; 0xf6bb4b60; 0xbebfbc70;
   0x289b7ec6; 0xeaa127fa; 0xd4ef3085; 0x04881d05; 0xd9d4d039; 0xe6db99e5; 0x1fa27cf8; 0xc4ac5665;
   0xf4292244; 0x432aff97; 0xab9423a7; 0xfc93a039; 0x655b59c3; 0x8f0ccc92; 0xffeff47d; 0x85845dd1;
   0x6fa87e4f; 0xfe2ce6e0; 0xa3014314; 0x4e0811a1; 0xf7537e82; 0xbd3af235; 0x2ad7d2bb; 0xeb86d391].
Definition s_values : list Z :=
  [7; 12; 17; 22; 7; 12; 17; 22; 7; 12; 17; 22; 7; 12; 17; 22;
   5; 9; 14; 20; 5; 9; 14; 20; 5; 9; 14; 20; 5; 9; 14; 20;
   4; 11; 16; 23; 4; 11; 16; 23; 4; 11; 16; 23; 4; 11; 16; 23;
   6; 10; 15; 21; 6; 10; 15; 21; 6; 10; 15; 21; 6; 10; 15; 21].
Definition k (i : nat) : exec Z := load k_values i.
Definition s (i : nat) : exec Z := load s_values i.

Definition left_rotate (value count : Z) : exec Z :=
  c ← shift 32 count; d ← shift 32 (to_u32 (32 - count));
  Done (to_u32 (Z.lor (to_u32 (Z.shiftl value c)) (Z.shiftr value d))).

Definition registers : Type := Z * Z * Z * Z.

(** The function of the round and the index of its word. *)
Definition select (i : nat) (b c d : Z) : Z * nat :=
  if (i <? 16)%nat then (Z.lor (Z.land b c) (Z.land (to_u32 (Z.lnot b)) d), i)
  else if (i <? 32)%nat then (Z.lor (Z.land d b) (Z.land (to_u32 (Z.lnot d)) c), Nat.land (5 * i + 1) 15)
  else if (i <? 48)%nat then (Z.lxor (Z.lxor b c) d, Nat.land (3 * i + 5) 15)
  else (Z.lxor c (Z.lor b (to_u32 (Z.lnot d))), Nat.land (7 * i) 15).

Definition round_body (words : list Z) (i : nat) (r : registers) : exec registers :=
  let '(a, b, c, d) := r in
  let '(f, g) := select i b c d in
  let temp := d in
  let d := c in let c := b in
  ki ← k i; w ← load words g; si ← s i;
  x ← left_rotate (to_u32 (to_u32 (to_u32 (a + f) + ki) + w)) si;
  let b := to_u32 (b + x) in
  let a := temp in
  Done (a, b, c, d).

Definition add_to (state : list Z) (i : nat) (v : Z) : exec (list Z) :=
  x ← load state i; store state i (to_u32 (x + v)).

(** [words0] is what the array [words] happens to hold when it is declared. *)
Definition transform (words0 : list Z) (state : list Z) (block : list Z) : exec (list Z) :=
  a ← load state 0; b ← load state 1; c ← load state 2; d ← load state 3;
  words ← for_to 0 16 (fun i words => v ← read_le32 block (4 * i); store words i v) words0;
  '(a, b, c, d) ← for_to 0 64 (round_body words) (a, b, c, d);
  state ← add_to state 0 a; state ← add_to state 1 b; state ← add_to state 2 c; add_to state 3 d.

Definition initial : list Z := [0x67452301; 0xefcdab89; 0x98badcfe; 0x10325476].
Definition count_bits (bit_count_ : Z) (size : nat) : Z := to_u64 (bit_count_ + to_u64 (Z.shiftl (to_u64 (Z.of_nat size)) 3)).
Definition md5 (words0 : list Z) : algorithm Z :=
  mk_algorithm 64 56 16 4 initial 0 count_bits (transform words0) (fun b n => write_le64 b 56 n) write_le32.
End Md5.

(** ** RFC 1321 *)

Module Rfc1321.
Definition F (x y z : Z) : Z := Z.lor (Z.land x y) (Z.ldiff z x).
Definition G (x y z : Z) : Z := Z.lor (Z.land x z) (Z.ldiff y z).
Definition H (x y z : Z) : Z := Z.lxor (Z.lxor x y) z.
Definition I (x y z : Z) : Z := Z.lxor y (Z.lor x (2 ^ 32 - 1 - z)).

Definition auxiliary (i : nat) : Z -> Z -> Z -> Z :=
  match (i / 16)%nat with O => F | 1%nat => G | 2%nat => H | _ => I end.
Definition word_index (i : nat) : nat :=
  match (i / 16)%nat with
  | O => i
  | 1%nat => (5 * i + 1) mod 16
  | 2%nat => (3 * i + 5) mod 16
  | _ => (7 * i) mod 16
  end%nat.

Definition sum (x y : Z) : Z := (x + y) mod 2 ^ 32.

(** [1 - x^2 / (2k (2k + 1)) * (1 - ..)] as a fraction, [n] levels deep: for [k = 1] the series of [sin x / x]. *)
Fixpoint sine_series (n : nat) (k x : Z) : Z * Z :=
  match n with
  | O => (1, 1)
  | S n => let '(p, q) := sine_series n (k + 1) x in let d := 2 * k * (2 * k + 1) in (d * q - x * x * p, d * q)
  end.
(** [T[x]], the integer part of [2 ^ 32 * |sin x|]: the rest of the series is below [2 ^ -100] for [x <= 64]. *)
Definition sine_word (x : Z) : Z := let '(p, q) := sine_series 120 1 x in 2 ^ 32 * Z.abs (x * p) / q.
Definition T : list Z := sine_word <$> seqZ 1 64.

(** The rotations: each round has four, which its steps use in turn. *)
Definition rotations : list Z :=
  mjoin ((fun l => mjoin (replicate 4 l)) <$> [[7; 12; 17; 22]; [5; 9; 14; 20]; [4; 11; 16; 23]; [6; 10; 15; 21]]).
(** The words A to D, low-order octets first. *)
Definition initial : list Z :=
  le_val 256 <$> [[0x01; 0x23; 0x45; 0x67]; [0x89; 0xab; 0xcd; 0xef]; [0xfe; 0xdc; 0xba; 0x98]; [0x76; 0x54; 0x32; 0x10]].

Definition message_word (block : list Z) (i : nat) : Z := le_val 256 (take 4 (drop (4 * i) block)).

(** [a = b + ((a + f(b, c, d) + X[g] + T[i]) <<< s)], then the registers change places. *)
Definition step (block : list Z) (r : Md5.registers) (i : nat) : Md5.registers :=
  let '(a, b, c, d) := r in
  (d, sum b (ROTL 32 (rotations !!! i)
        (sum (sum (sum a (auxiliary i b c d)) (T !!! i)) (message_word block (word_index i)))), b, c).

Definition steps (n : nat) (block : list Z) (r : Md5.registers) : Md5.registers := fold_left (step block) (seq 0 n) r.

Definition compress (st : list Z) (block : list Z) : list Z :=
  match st with
  | [a; b; c; d] =>
      let '(a', b', c', d') := steps 64 block (a, b, c, d) in
      [sum a a'; sum b b'; sum c c'; sum d d']
  | _ => st
  end.
Definition length_field (n : Z) : list Z := le_bytes 8 n.
Definition word_bytes (w : Z) : list Z := le_bytes 4 w.
End Rfc1321.

(** ** The class refines the RFC *)

Lemma rfc1321_constants : Rfc1321.T = Md5.k_values /\ Rfc1321.rotations = Md5.s_values /\ Rfc1321.initial = Md5.initial.
Proof. split_and!; vm_compute; reflexivity. Qed.

Lemma left_rotate_value x c : 0 < c < 32 -> u32 x -> Md5.left_rotate x c = Done (ROTL 32 c x) /\ u32 (ROTL 32 c x).
Proof. apply rotl32_value. Qed.

Lemma lnot32 z : u32 z -> to_u32 (Z.lnot z) = 2 ^ 32 - 1 - z.
Proof. intros Hz. unfold Z.lnot, wrap, in_width in *. symmetry. apply (Z.mod_unique _ _ (-1)); lia. Qed.

Lemma land_lnot32 x z : u32 z -> Z.land (to_u32 (Z.lnot x)) z = Z.ldiff z x.
Proof.
  intros Hz. apply Z.bits_inj'. intros i Hi.
  rewrite <-(wrap_small 32 z Hz), Z.land_spec, Z.ldiff_spec, !wrap_bits, Z.lnot_spec by lia.
  destruct (i <? 32), (Z.testbit x i), (Z.testbit z i); done.
Qed.

Lemma select_ok i b c d :
  (i < 64)%nat -> u32 b -> u32 c -> u32 d -> Md5.select i b c d = (Rfc1321.auxiliary i b c d, Rfc1321.word_index i).
Proof.
  intros Hi Hb Hc Hd. unfold Md5.select, Rfc1321.auxiliary, Rfc1321.word_index.
  assert (Hm : forall n, Nat.land n 15 = (n mod 16)%nat) by (intros n; apply (Nat.land_ones n 4)). rewrite !Hm.
  assert (Hq : (i = 16 * (i / 16) + i mod 16 /\ i mod 16 < 16)%nat) by (split; [apply Nat.div_mod_eq|apply Nat.mod_upper_bound; lia]).
  destruct (Nat.ltb_spec i 16); [replace (i / 16)%nat with 0%nat by lia|
  destruct (Nat.ltb_spec i 32); [replace (i / 16)%nat with 1%nat by lia|
  destruct (Nat.ltb_spec i 48); [replace (i / 16)%nat with 2%nat by lia|replace (i / 16)%nat with 3%nat by lia]]];
    unfold Rfc1321.F, Rfc1321.G, Rfc1321.H, Rfc1321.I; rewrite ?land_lnot32, ?lnot32 by done; [done| |done..].
  by rewrite Z.land_comm.
Qed.

Definition md5_registers_ok (r : Md5.registers) : Prop :=
  let '(a, b, c, d) := r in u32 a /\ u32 b /\ u32 c /\ u32 d.

Lemma word_index_lt i : (i < 64)%nat -> (Rfc1321.word_index i < 16)%nat.
Proof.
  intros Hi. unfold Rfc1321.word_index. destruct (i / 16)%nat as [|[|[|]]] eqn:E;
    [|apply Nat.mod_upper_bound; lia..]. apply Nat.div_small_iff in E; lia.
Qed.

Lemma s_values_range i : (i < 64)%nat -> 0 < Md5.s_values !!! i < 32.
Proof.
  intros Hi. assert (Hs : Forall (fun c => 0 < c < 32) Md5.s_values) by (by apply (bool_decide_unpack _)).
  destruct (lookup_lt_is_Some_2 Md5.s_values i) as [v Hv]; [done|]. rewrite (list_lookup_total_correct _ _ _ Hv).
  by eapply Forall_lookup_1 in Hs.
Qed.

Lemma md5_round_ok block i r :
  (i < 64)%nat -> md5_registers_ok r ->
  Md5.round_body (Rfc1321.message_word block <$> seq 0 16) i r = Done (Rfc1321.step block r i)
  /\ md5_registers_ok (Rfc1321.step block r i).
Proof.
  intros Hi Hr. destruct r as [[[a b] c] d]. destruct Hr as (Ha & Hb & Hc & Hd). unfold Md5.round_body.
  rewrite select_ok by done. unfold Md5.k, Md5.s.
  destruct (lookup_lt_is_Some_2 Md5.k_values i) as [ki Ek]; [done|]. rewrite (load_Done _ _ _ Ek). exec_simpl.
  rewrite (load_Done (Rfc1321.message_word block <$> seq 0 16) _ (Rfc1321.message_word block (Rfc1321.word_index i))). 2:{
    rewrite list_lookup_fmap, lookup_seq_lt by (by apply word_index_lt). done. }
  exec_simpl. pose proof (s_values_range i Hi) as Hs.
  destruct (lookup_lt_is_Some_2 Md5.s_values i) as [si Es]; [done|]. rewrite (load_Done _ _ _ Es). exec_simpl.
  rewrite (list_lookup_total_correct _ _ _ Es) in Hs.
  destruct (left_rotate_value (to_u32 (to_u32 (to_u32 (a + Rfc1321.auxiliary i b c d) + ki)
    + Rfc1321.message_word block (Rfc1321.word_index i))) si Hs) as [-> _]; [by apply wrap_in_width|].
  exec_simpl. unfold Rfc1321.step. destruct rfc1321_constants as (-> & -> & _). rewrite (list_lookup_total_correct _ _ _ Ek), (list_lookup_total_correct _ _ _ Es).
  split; [done|]. split_and!; [done|by apply wrap_in_width|done..].
Qed.

Definition md5_words_ok (st : list Z) : Prop := length st = 4%nat /\ Forall u32 st.

Lemma md5_words words0 block :
  length words0 = 16%nat -> length block = 64%nat -> Forall byte block ->
  for_to 0 16 (fun i words => v ← read_le32 block (4 * i); store words i v) words0
  = Done (Rfc1321.message_word block <$> seq 0 16).
Proof.
  intros Hw Hl Hb. set (body := fun (i : nat) (w : list Z) => _).
  destruct (for_to_inv (fun i w => w = wrote words0 0 (Rfc1321.message_word block <$> seq 0 i)) body 0 16 words0) as (w1 & -> & ->).
  - symmetry. apply (wrote_nil words0 0).
  - intros i w Hi ->. unfold body. set (bs := take 4 (drop (4 * i) block)).
    pose proof (le_reader_val 4 write_le32 read_le32 (take (4 * i) block) bs (drop 4 (drop (4 * i) block))) as Hr.
    unfold bs in Hr. rewrite !take_drop, (length_take block), Nat.min_l in Hr by lia.
    rewrite Hr; [|unfold le_accessors; by repeat constructor|rewrite length_take, length_drop; lia|by apply Forall_take, Forall_drop].
    exec_simpl. rewrite store_wrote by (rewrite ?length_fmap, ?length_seq; lia). eexists. split; [done|].
    by rewrite seq_S, fmap_app.
  - rewrite Nat.add_0_l, wrote_0, drop_ge, app_nil_r; [done|]. rewrite length_fmap, length_seq. lia.
Qed.

Lemma md5_rounds_ok n block r :
  (n <= 64)%nat -> md5_registers_ok r ->
  for_to 0 n (Md5.round_body (Rfc1321.message_word block <$> seq 0 16)) r = Done (Rfc1321.steps n block r)
  /\ md5_registers_ok (Rfc1321.steps n block r).
Proof.
  intros Hn Hr. apply (for_to_fold (fun i r => Rfc1321.step block r i)); [done|].
  intros i st Hi Hst. apply md5_round_ok; [lia|done].
Qed.

(** The four additions at the end of [transform]. *)
Lemma md5_add_state z z0 z1 z2 a b c d :
  (state ← Md5.add_to [z; z0; z1; z2] 0 a; state ← Md5.add_to state 1 b; state ← Md5.add_to state 2 c; Md5.add_to state 3 d)
  = Done [to_u32 (z + a); to_u32 (z0 + b); to_u32 (z1 + c); to_u32 (z2 + d)].
Proof. reflexivity. Qed.

Lemma md5_loads words0 z z0 z1 z2 block :
  Md5.transform words0 [z; z0; z1; z2] block =
  (words ← for_to 0 16 (fun i words => v ← read_le32 block (4 * i); store words i v) words0;
   '(a, b, c, d) ← for_to 0 64 (Md5.round_body words) (z, z0, z1, z2);
   state ← Md5.add_to [z; z0; z1; z2] 0 a; state ← Md5.add_to state 1 b; state ← Md5.add_to state 2 c; Md5.add_to state 3 d).
Proof. reflexivity. Qed.

Lemma md5_transform_ok words0 st block :
  length words0 = 16%nat -> md5_words_ok st -> length block = 64%nat -> Forall byte block ->
  Md5.transform words0 st block = Done (Rfc1321.compress st block) /\ md5_words_ok (Rfc1321.compress st block).
Proof.
  intros Hw [Hst Hsw] Hl Hb.
  do 4 (destruct st as [|? st]; [discriminate|]). destruct st; [|discriminate].
  rewrite md5_loads, md5_words, bind_Done by done. rewrite !Forall_cons in Hsw. destruct_and! Hsw.
  destruct (md5_rounds_ok 64 block (z, z0, z1, z2)) as [-> _]; [lia|done|]. rewrite bind_Done. unfold Rfc1321.compress.
  generalize (Rfc1321.steps 64 block (z, z0, z1, z2)). intros [[[a b] c] d]. rewrite md5_add_state. split; [done|]. split; [done|].
  repeat constructor; by apply wrap_in_width.
Qed.

#[export] Instance md5_laws words0 :
  length words0 = 16%nat ->
  HashLaws (Md5.md5 words0) Rfc1321.compress md5_words_ok count256 Rfc1321.length_field Rfc1321.word_bytes.
Proof.
  intros Hw. split; cbn [block_size length_offset digest_size word_size initial no_bits count_bits Digest.transform write_length write_word Md5.md5].
  - lia.
  - by apply (bool_decide_unpack _).
  - by intros st [-> _].
  - intros st b. by apply md5_transform_ok.
  - done.
  - intros n size _ _. apply count_bits256.
  - intros n. unfold Rfc1321.length_field. split; [done|apply le_bytes_bytes].
  - intros b n Hb. rewrite write_le64_bytes by lia. unfold count256. by rewrite le_bytes_u64.
  - intros st w Hst Hin. split; [done|]. intros b o. by apply write_le32_bytes.
Qed.

Definition rfc1321 : list Z -> list Z :=
  standard_hash 64 56 Rfc1321.initial Rfc1321.compress Rfc1321.length_field Rfc1321.word_bytes.

Lemma md5_computes (words0 : list Z) : length words0 = 16%nat -> computes (Md5.md5 words0) rfc1321.
Proof. intros Hw. unfold rfc1321. rewrite (proj2 (proj2 rfc1321_constants)). apply (lawful_computes (Md5.md5 words0) Rfc1321.compress _ _ Rfc1321.length_field Rfc1321.word_bytes (md5_laws words0 Hw)). cbn. lia. Qed.

Example md5_message_digest :
  calculate (Md5.md5 (replicate 16 0)) (replicate 64 0) (replicate 16 0) (Some (chars "message digest")) 14
  = Done (reverse (le_bytes 16 0xf96b697d7cb7938d525a2f31aaf161d0)).
Proof. vm_compute. reflexivity. Qed.

(** ** The theorem about the three classes *)

(** C39. [md5], [sha256] and [sha512] compute RFC 1321's and FIPS 180-4's hashes: however a
    message is cut into calls of [update], on a new object or after [reset], [digest],
    [final] and [calculate] deliver the hash of the whole message (the length counted modulo
    2^64, for [sha512] modulo 2^128), never leave a buffer, whatever the uninitialised
    arrays [w] hold, and report null pointers and short buffers. *)
Theorem hashes_compute (w16 w64 w80 : list Z) :
  length w16 = 16%nat -> length w64 = 64%nat -> length w80 = 80%nat ->
  computes (Md5.md5 w16) rfc1321 /\ computes (Sha256.sha256 w64) fips256 /\ computes (Sha512.sha512 w80) fips512.
Proof. intros H16 H64 H80. split_and!; [by apply md5_computes|by apply sha256_computes|by apply sha512_computes]. Qed.

Lemma hashes_compute_witness :
  exists h, update_all (Sha256.sha256 (replicate 64 0)) (hasher_new (Sha256.sha256 (replicate 64 0)) (replicate 64 0)) [chars "ab"; chars "c"] = Done h
    /\ digest (Sha256.sha256 (replicate 64 0)) h (replicate 32 0) = Done (fips256 (chars "abc")).
Proof.
  destruct (hashes_compute (replicate 16 0) (replicate 64 0) (replicate 80 0) eq_refl eq_refl eq_refl) as (_ & [H _] & _).
  destruct (H (replicate 64 0) [] [chars "ab"; chars "c"] (replicate 32 0)) as (h0 & h & h2 & _ & E & _ & Ed & _).
  - reflexivity.
  - constructor.
  - apply (bool_decide_unpack (Forall (fun p => Forall (fun d => 0 <= d < 256) p /\ 0 <= Z.of_nat (length p) < 2 ^ 64) _)). vm_compute. exact I.
  - reflexivity.
  - exists h. split; [exact E|exact Ed].
Defined.
