(* ===== verification/Ctr.v ===== *)
(** * Block ciphers and counter mode (castle_ext/crypto)

    [aes], [sm4] and [camellia] share the text of [crypt_ctr], which encrypts
    successive counter blocks and adds them to the data.  It is modelled once,
    over the interface [BlockCipher]; each cipher provides its instance. *)

From S2P Require Import Prelude Status Bytes.
Open Scope Z_scope.

(** ** Xor of buffers *)

(** [data[off + i] = data[off + i] ^ key[koff + i]] for [i < take]. *)
Definition xor_bytes (data : list Z) (off : nat) (key : list Z) (koff take : nat) : exec (list Z) :=
  for_to 0 take (fun i data =>
    d ← load data (off + i)%nat; k ← load key (koff + i)%nat;
    store data (off + i)%nat (to_u8 (Z.lxor d k))) data.

Lemma lxor_byte a b : byte a -> byte b -> byte (Z.lxor a b).
Proof.
  intros Ha Hb. by apply (lxor_in_width 8).
Qed.

Lemma byte_u8 a : byte a -> to_u8 a = a.
Proof. intros H. apply wrap_small. exact H. Qed.

Lemma xor_bytes_spec pre mid post kpre km kpost off koff take :
  Forall byte mid -> Forall byte km -> length mid = take -> length km = take ->
  off = length pre -> koff = length kpre ->
  xor_bytes (pre ++ mid ++ post) off (kpre ++ km ++ kpost) koff take
  = Done (pre ++ zip_with Z.lxor mid km ++ post).
Proof.
  intros Hm Hk Hlm Hlk -> ->. unfold xor_bytes.
  set (body := fun (i : nat) (data : list Z) => _).
  destruct (for_to_inv (fun i st => exists a b ka kb, mid = a ++ b /\ km = ka ++ kb /\ length a = i /\ length ka = i
     /\ st = pre ++ (zip_with Z.lxor a ka ++ b) ++ post) body 0 take (pre ++ mid ++ post))
    as (st & -> & a & b & ka & kb & Em & Ek & Ea & Eka & Est).
  - exists [], mid, [], km. done.
  - intros i st Hi (a & b & ka & kb & -> & -> & Ha & Hka & ->).
    destruct b as [|d b]; [rewrite length_app in Hlm; cbn in Hlm; lia|].
    destruct kb as [|k kb]; [rewrite length_app in Hlk; cbn in Hlk; lia|].
    assert (Hz : length (zip_with Z.lxor a ka) = i) by (rewrite length_zip_with; lia).
    unfold body. rewrite (load_mid pre _ post i d) by (rewrite ?list_lookup_middle; done).
    exec_simpl. rewrite (load_mid kpre _ kpost i k) by (rewrite ?list_lookup_middle; done). exec_simpl.
    apply Forall_app in Hm as [_ Hm], Hk as [_ Hk]. apply Forall_cons in Hm as [Hd _], Hk as [Hk _].
    rewrite byte_u8 by (by apply lxor_byte).
    rewrite store_Done by (rewrite !length_app; cbn; lia).
    rewrite insert_app_r, insert_app_l by (rewrite length_app; cbn; lia).
    eexists. split; [done|]. exists (a ++ [d]), b, (ka ++ [k]), kb.
    rewrite !length_app, <-!app_assoc. cbn [length app]. split_and!; [done|done|lia|lia|].
    rewrite zip_with_app by lia. rewrite <-(Nat.add_0_r i), <-Hz, insert_app_r.
    cbn [zip_with]. by rewrite <-!app_assoc.
  - cbn in *. destruct b as [|d b]; [|rewrite Em, length_app in Hlm; cbn in Hlm; lia].
    destruct kb as [|k kb]; [|rewrite Ek, length_app in Hlk; cbn in Hlk; lia].
    rewrite !app_nil_r in *. by subst.
Qed.

Lemma zip_lxor_bytes a b : Forall byte a -> Forall byte b -> Forall byte (zip_with Z.lxor a b).
Proof.
  intros Ha. revert b. induction Ha as [|x a Hx Ha IH]; intros [|y b] Hb; cbn; [done..|].
  apply Forall_cons in Hb as [Hy Hb]. constructor; [by apply lxor_byte|by apply IH].
Qed.

(** Adding the same stream twice. *)
Lemma zip_lxor_involutive a k :
  (length a <= length k)%nat -> zip_with Z.lxor (zip_with Z.lxor a k) k = a.
Proof.
  revert k. induction a as [|x a IH]; intros [|y k] H; cbn in *; [done|done|lia|].
  rewrite Z.lxor_assoc, Z.lxor_nilpotent, Z.lxor_0_r, IH by lia. done.
Qed.

(** ** Blocks of 16 bytes as big-endian words *)

Definition be_bytes (n : nat) (v : Z) : list Z := reverse (le_bytes n v).

Lemma length_be_bytes_of n v : length (be_bytes n v) = n.
Proof. unfold be_bytes. rewrite length_reverse. apply length_le_digits. Qed.

Lemma be_bytes_bytes n v : Forall byte (be_bytes n v).
Proof. apply Forall_reverse, le_bytes_bytes. Qed.

Lemma be_bytes_exists n bs :
  length bs = n -> Forall byte bs -> exists v, in_width (8 * Z.of_nat n) v /\ bs = be_bytes n v.
Proof.
  intros <- Hb. apply Forall_reverse in Hb. exists (le_val 256 (reverse bs)). split.
  - unfold in_width. rewrite Z.pow_mul_r, <-(length_reverse bs) by lia. by apply (le_val_bound 256).
  - unfold be_bytes, le_bytes. rewrite <-(length_reverse bs).
    rewrite (le_digits_val 256 (reverse bs)) by (done || lia). by rewrite reverse_involutive.
Qed.

Lemma block_words32 b :
  length b = 16%nat -> Forall byte b ->
  exists w0 w1 w2 w3, u32 w0 /\ u32 w1 /\ u32 w2 /\ u32 w3
    /\ b = be_bytes 4 w0 ++ be_bytes 4 w1 ++ be_bytes 4 w2 ++ be_bytes 4 w3.
Proof.
  intros Hl Hb.
  assert (Hw : forall o, (o + 4 <= 16)%nat -> exists w, u32 w /\ take 4 (drop o b) = be_bytes 4 w).
  { intros o Ho. destruct (be_bytes_exists 4 (take 4 (drop o b))) as (w & Hw & E);
      [rewrite length_take, length_drop; lia|by apply Forall_take, Forall_drop|by exists w]. }
  destruct (Hw 0%nat ltac:(lia)) as (w0 & H0 & E0), (Hw 4%nat ltac:(lia)) as (w1 & H1 & E1),
    (Hw 8%nat ltac:(lia)) as (w2 & H2 & E2), (Hw 12%nat ltac:(lia)) as (w3 & H3 & E3).
  exists w0, w1, w2, w3. split_and!; [done..|]. rewrite <-E0, <-E1, <-E2, <-E3.
  do 16 (destruct b as [|? b]; [discriminate|]). by destruct b.
Qed.

Lemma block_words64 b :
  length b = 16%nat -> Forall byte b ->
  exists w0 w1, u64 w0 /\ u64 w1 /\ b = be_bytes 8 w0 ++ be_bytes 8 w1.
Proof.
  intros Hl Hb.
  destruct (be_bytes_exists 8 (take 8 b)) as (w0 & H0 & E0); [rewrite length_take; lia|by apply Forall_take|].
  destruct (be_bytes_exists 8 (drop 8 b)) as (w1 & H1 & E1); [rewrite length_drop; lia|by apply Forall_drop|].
  exists w0, w1. split_and!; [done..|]. by rewrite <-E0, <-E1, take_drop.
Qed.

Lemma read_be32_word pre w post o :
  u32 w -> o = length pre -> read_be32 (pre ++ be_bytes 4 w ++ post) o = Done w.
Proof.
  intros Hw ->. rewrite (be_reader_val 4 write_be32).
  - unfold be_bytes. rewrite reverse_involutive. f_equal. by apply le_bytes_val.
  - unfold be_accessors. by repeat constructor.
  - apply length_be_bytes_of.
  - apply be_bytes_bytes.
Qed.

Lemma read_be64_word pre w post o :
  u64 w -> o = length pre -> read_be64 (pre ++ be_bytes 8 w ++ post) o = Done w.
Proof.
  intros Hw ->. rewrite (be_reader_val 8 write_be64).
  - unfold be_bytes. rewrite reverse_involutive. f_equal. by apply le_bytes_val.
  - unfold be_accessors. by repeat constructor.
  - apply length_be_bytes_of.
  - apply be_bytes_bytes.
Qed.

Lemma read_block32 w0 w1 w2 w3 :
  u32 w0 -> u32 w1 -> u32 w2 -> u32 w3 ->
  let b := be_bytes 4 w0 ++ be_bytes 4 w1 ++ be_bytes 4 w2 ++ be_bytes 4 w3 in
  read_be32 b 0 = Done w0 /\ read_be32 b 4 = Done w1 /\ read_be32 b 8 = Done w2 /\ read_be32 b 12 = Done w3.
Proof.
  intros H0 H1 H2 H3 b. unfold b. split_and!.
  - by apply (read_be32_word []).
  - by apply (read_be32_word (be_bytes 4 w0)).
  - rewrite app_assoc. by apply (read_be32_word (be_bytes 4 w0 ++ be_bytes 4 w1)).
  - rewrite <-(app_nil_r (be_bytes 4 w3)), !app_assoc, <-(app_assoc _ (be_bytes 4 w3)).
    by apply (read_be32_word ((be_bytes 4 w0 ++ be_bytes 4 w1) ++ be_bytes 4 w2)).
Qed.

Lemma read_block64 w0 w1 :
  u64 w0 -> u64 w1 ->
  read_be64 (be_bytes 8 w0 ++ be_bytes 8 w1) 0 = Done w0 /\ read_be64 (be_bytes 8 w0 ++ be_bytes 8 w1) 8 = Done w1.
Proof.
  intros H0 H1. split; [by apply (read_be64_word [])|].
  rewrite <-(app_nil_r (be_bytes 8 w1)). by apply (read_be64_word (be_bytes 8 w0)).
Qed.

Lemma wrote_full {A} (m bs : list A) : length bs = length m -> wrote m 0 bs = bs.
Proof. intros H. rewrite wrote_0, drop_ge by lia. apply app_nil_r. Qed.

Lemma write_block32 out w0 w1 w2 w3 :
  length out = 16%nat ->
  (o ← write_be32 out 0 w0; o ← write_be32 o 4 w1; o ← write_be32 o 8 w2; write_be32 o 12 w3)
  = Done (be_bytes 4 w0 ++ be_bytes 4 w1 ++ be_bytes 4 w2 ++ be_bytes 4 w3).
Proof.
  intros Hl. fold (be_bytes 4).
  rewrite write_be32_bytes by lia. exec_simpl. change (reverse (le_bytes 4 w0)) with (be_bytes 4 w0).
  rewrite write_be32_bytes by (rewrite length_wrote; rewrite ?length_be_bytes_of; lia). exec_simpl.
  change (reverse (le_bytes 4 w1)) with (be_bytes 4 w1).
  rewrite wrote_app by (rewrite ?length_be_bytes_of; lia).
  rewrite write_be32_bytes by (rewrite length_wrote; rewrite ?length_app, ?length_be_bytes_of; lia). exec_simpl.
  change (reverse (le_bytes 4 w2)) with (be_bytes 4 w2).
  rewrite wrote_app by (rewrite ?length_app, ?length_be_bytes_of; lia).
  rewrite write_be32_bytes by (rewrite length_wrote; rewrite ?length_app, ?length_be_bytes_of; lia).
  change (reverse (le_bytes 4 w3)) with (be_bytes 4 w3).
  rewrite wrote_app by (rewrite ?length_app, ?length_be_bytes_of; lia).
  rewrite wrote_full by (rewrite !length_app, !length_be_bytes_of; lia). by rewrite <-!app_assoc.
Qed.

Lemma write_block64 out w0 w1 :
  length out = 16%nat ->
  (o ← write_be64 out 0 w0; write_be64 o 8 w1) = Done (be_bytes 8 w0 ++ be_bytes 8 w1).
Proof.
  intros Hl. rewrite write_be64_bytes by lia. exec_simpl. change (reverse (le_bytes 8 w0)) with (be_bytes 8 w0).
  rewrite write_be64_bytes by (rewrite length_wrote; rewrite ?length_be_bytes_of; lia).
  change (reverse (le_bytes 8 w1)) with (be_bytes 8 w1).
  rewrite wrote_app by (rewrite ?length_be_bytes_of; lia).
  by rewrite wrote_full by (rewrite !length_app, !length_be_bytes_of; lia).
Qed.

(** ** Substitution tables and rotations are total *)

Lemma table_load tab v :
  length tab = 256%nat -> Forall byte tab -> byte v ->
  exists s, load tab (Z.to_nat v) = Done s /\ byte s.
Proof.
  unfold byte. intros Hl Hb Hv. destruct (lookup_lt_is_Some_2 tab (Z.to_nat v)) as [s Hs]; [lia|].
  exists s. split; [by apply load_Done|]. rewrite Forall_lookup in Hb. by eapply Hb.
Qed.

Lemma land_byte v : byte (Z.land v 255).
Proof. change 255 with (Z.ones 8). rewrite Z.land_ones by lia. apply Z.mod_pos_bound. lia. Qed.

Lemma byte_width w v : 8 <= w -> byte v -> in_width w v.
Proof.
  unfold byte, in_width. intros Hw Hv. assert (2 ^ 8 <= 2 ^ w) by (apply Z.pow_le_mono_r; lia). lia.
Qed.

Lemma rotl32_total v c : 0 < c < 32 -> exists r, rotl32 v c = Done r /\ u32 r.
Proof.
  intros Hc. unfold rotl32, shift. rewrite (proj2 (Z.ltb_lt c 32)) by lia. exec_simpl.
  rewrite (wrap_small 32 (32 - c)) by (unfold in_width; lia).
  rewrite (proj2 (Z.ltb_lt (32 - c) 32)) by lia. exec_simpl.
  eexists. split; [done|]. by apply wrap_in_width.
Qed.

(** ** The interface of a block cipher *)

(** [encrypt_block(input, output)] computes [E] on blocks of 16 bytes; a null
    argument is ignored. *)
Class BlockCipher (encrypt_block : ptr -> ptr -> exec ptr) (E : list Z -> list Z) : Prop := {
  bc_encrypt : forall b out, length b = 16%nat -> Forall byte b -> length out = 16%nat ->
    encrypt_block (Some b) (Some out) = Done (Some (E b));
  bc_block : forall b, length b = 16%nat -> Forall byte b -> length (E b) = 16%nat /\ Forall byte (E b)
}.

(** The counter block: twelve fixed bytes and a 32-bit big-endian counter. *)
Definition counter_at (nonce : list Z) (c : Z) : list Z := nonce ++ be_bytes 4 c.

Class Increments (increment : list Z -> exec (list Z)) : Prop :=
  increments : forall nonce c, length nonce = 12%nat -> 0 <= c < 2 ^ 32 - 1 ->
    increment (counter_at nonce c) = Done (counter_at nonce (c + 1)).

(** [increment_ctr_counter] of [sm4] and [camellia]. *)
Definition increment_ctr_counter (counter_block : list Z) : exec (list Z) :=
  c ← read_be32 counter_block 12; write_be32 counter_block 12 (to_u32 (c + 1)).

#[export] Instance increment_ctr_counter_ok : Increments increment_ctr_counter.
Proof.
  intros nonce c Hn Hc. unfold increment_ctr_counter, counter_at.
  rewrite <-(app_nil_r (be_bytes 4 c)), read_be32_word by (done || (unfold in_width; lia)). exec_simpl.
  rewrite wrap_small by (unfold in_width; lia).
  rewrite write_be32_bytes by (rewrite !length_app, length_be_bytes_of; cbn; lia). f_equal.
  change (reverse (le_bytes 4 (c + 1))) with (be_bytes 4 (c + 1)). unfold wrote.
  rewrite take_app_length' by done. rewrite drop_ge, !app_nil_r; [done|].
  rewrite !length_app, !length_be_bytes_of. cbn. lia.
Qed.

(** ** [crypt_ctr] *)

Section Ctr.
Context (encrypt_block : ptr -> ptr -> exec ptr) (increment_counter : list Z -> exec (list Z)).

Definition ctr_state : Type := nat * nat * ptr * list Z * ptr.

Definition ctr_body (st : ctr_state) : exec (ctl (status * ptr * ptr) ctr_state) :=
  let '(offset, size, data, counter, keystream) := st in
  keystream ← encrypt_block (Some counter) keystream;
  let take := if (size <? 16)%nat then size else 16%nat in
  d ← match data, keystream with
      | Some d, Some k => xor_bytes d offset k 0 take
      | _, _ => Undefined
      end;
  counter ← increment_counter counter;
  Done (Next ((offset + take)%nat, (size - take)%nat, Some d, counter, keystream)).

(** [keystream] starts out indeterminate; [junk] are the bytes it happens to hold. *)
Definition crypt_ctr (junk : list Z) (data : ptr) (size : nat) (counter_block : ptr)
    : exec (status * ptr * ptr) :=
  if (is_null data && negb (size =? 0)%nat) || is_null counter_block
  then Done (s_invalid_argument, data, counter_block)
  else
    let block_count := (size / 16)%nat in
    let block_count := if negb (size mod 16 =? 0)%nat then (block_count + 1)%nat else block_count in
    match counter_block with
    | None => Undefined
    | Some counter =>
        initial_counter ← read_be32 counter 12;
        if 4294967295 - initial_counter <? Z.of_nat block_count
        then Done (s_out_of_range, data, counter_block)
        else
          after (while_loop (S size) (fun '(_, size, _, _, _) => Done (negb (size =? 0)%nat)) ctr_body
                   (0%nat, size, data, counter, Some junk))
            (fun '(_, _, data, counter, _) => Done (s_ok, data, Some counter))
    end.

(** ** What counter mode computes *)

Context (E : list Z -> list Z).

Fixpoint ctr_xor (blocks : nat) (nonce : list Z) (c : Z) (data : list Z) : list Z :=
  match blocks with
  | O => []
  | S n => zip_with Z.lxor (take 16 data) (E (counter_at nonce c))
           ++ ctr_xor n nonce (c + 1) (drop 16 data)
  end.

Definition blocks (size : nat) : nat := ((size + 15) / 16)%nat.

Context `{!BlockCipher encrypt_block E} `{!Increments increment_counter}.

Lemma length_counter_at nonce c : length nonce = 12%nat -> length (counter_at nonce c) = 16%nat.
Proof. intros H. unfold counter_at. by rewrite length_app, length_be_bytes_of, H. Qed.

Lemma counter_at_bytes nonce c : Forall byte nonce -> Forall byte (counter_at nonce c).
Proof. intros H. apply Forall_app. split; [done|]. apply be_bytes_bytes. Qed.

Lemma read_counter nonce c :
  length nonce = 12%nat -> 0 <= c < 2 ^ 32 -> read_be32 (counter_at nonce c) 12 = Done c.
Proof.
  intros Hn Hc. unfold counter_at. rewrite <-(app_nil_r (be_bytes 4 c)). by apply read_be32_word.
Qed.

Lemma blocks_step (n : nat) : (0 < n)%nat -> blocks n = S (blocks (n - Nat.min n 16)).
Proof.
  intros H. unfold blocks. destruct (Nat.le_gt_cases n 16) as [Hle|Hgt].
  - rewrite Nat.min_l, Nat.sub_diag by lia. cbn [Nat.add]. change (15 / 16)%nat with 0%nat.
    symmetry. apply (Nat.div_unique (n + 15) 16 1 (n - 1)); lia.
  - rewrite Nat.min_r by lia. replace (n + 15)%nat with (n - 16 + 15 + 1 * 16)%nat by lia.
    rewrite Nat.div_add by lia. lia.
Qed.

Lemma blocks_count (n : nat) : (if negb (n mod 16 =? 0)%nat then n / 16 + 1 else n / 16)%nat = blocks n.
Proof.
  unfold blocks. pose proof (Nat.div_mod_eq n 16). pose proof (Nat.mod_upper_bound n 16).
  destruct (Nat.eqb_spec (n mod 16) 0) as [E0|E0]; cbn [negb].
  - apply (Nat.div_unique _ _ _ 15); lia.
  - apply (Nat.div_unique _ _ _ (n mod 16 - 1)); lia.
Qed.

Lemma ctr_loop pre rest post nonce c fuel keystream :
  length nonce = 12%nat -> Forall byte nonce -> Forall byte rest -> length keystream = 16%nat ->
  0 <= c -> c + Z.of_nat (blocks (length rest)) < 2 ^ 32 -> (length rest < fuel)%nat ->
  exists off keystream',
  while_loop fuel (fun '(_, size, _, _, _) => Done (negb (size =? 0)%nat)) ctr_body
    (length pre, length rest, Some (pre ++ rest ++ post), counter_at nonce c, Some keystream)
  = Done (Next (off, 0%nat, Some (pre ++ ctr_xor (blocks (length rest)) nonce c rest ++ post),
                counter_at nonce (c + Z.of_nat (blocks (length rest))), Some keystream')).
Proof.
  intros Hn Hnb. revert pre rest c keystream. induction fuel as [|fuel IH];
    intros pre rest c keystream Hr Hks Hc Hb Hf; [lia|]. cbn [while_loop].
  destruct (Nat.eqb_spec (length rest) 0) as [Hz|Hnz]; cbn [negb].
  { destruct rest; [|done]. cbn [length]. change (blocks 0) with 0%nat. cbn [ctr_xor Z.of_nat].
    rewrite Z.add_0_r. by eexists _, _. }
  set (n := Nat.min (length rest) 16).
  assert (Hlt : length (take n rest) = n) by (rewrite length_take; unfold n; lia).
  assert (Htk : take 16 rest = take n rest).
  { unfold n. destruct (Nat.le_gt_cases 16 (length rest)).
    - by rewrite Nat.min_r. - rewrite Nat.min_l by lia. rewrite !take_ge by lia. done. }
  assert (Hdr : drop 16 rest = drop n rest).
  { unfold n. destruct (Nat.le_gt_cases 16 (length rest)).
    - by rewrite Nat.min_r. - rewrite Nat.min_l by lia. rewrite !drop_ge by lia. done. }
  destruct (bc_block (counter_at nonce c)) as [HEl HEb]; [by apply length_counter_at|by apply counter_at_bytes|].
  rewrite blocks_step in Hb |- * by lia. fold n in Hb |- *.
  unfold ctr_body at 1. rewrite bc_encrypt by (done || by apply length_counter_at || by apply counter_at_bytes).
  exec_simpl.
  assert ((if (length rest <? 16)%nat then length rest else 16%nat) = n) as ->.
  { unfold n. destruct (Nat.ltb_spec (length rest) 16); lia. }
  pose proof (xor_bytes_spec pre (take n rest) (drop n rest ++ post) [] (take n (E (counter_at nonce c)))
    (drop n (E (counter_at nonce c))) (length pre) 0 n) as Hx. cbn [app] in Hx.
  rewrite (app_assoc (take n rest)), !take_drop in Hx.
  rewrite Hx by (try apply Forall_take; rewrite ?length_take; done || unfold n; lia).
  exec_simpl. rewrite increments by (done || lia). exec_simpl.
  assert (Hzip : zip_with Z.lxor (take n rest) (take n (E (counter_at nonce c)))
                 = zip_with Z.lxor (take 16 rest) (E (counter_at nonce c))).
  { rewrite Htk. rewrite <-(take_drop n (E (counter_at nonce c))) at 2.
    rewrite zip_with_app_r, (length_take (E _)), HEl, Nat.min_l by (unfold n; lia).
    rewrite (take_ge (take n rest)), (drop_ge (take n rest)) by lia. cbn. by rewrite app_nil_r. }
  assert (Hzl : length (zip_with Z.lxor (take n rest) (take n (E (counter_at nonce c)))) = n).
  { rewrite length_zip_with, Hlt, length_take. unfold n. lia. }
  replace (length rest - n)%nat with (length (drop n rest)) by (rewrite length_drop; done).
  replace (length pre + n)%nat with (length (pre ++ zip_with Z.lxor (take n rest) (take n (E (counter_at nonce c)))))
    by (rewrite length_app; lia).
  rewrite (app_assoc pre).
  destruct (IH (pre ++ zip_with Z.lxor (take n rest) (take n (E (counter_at nonce c)))) (drop n rest) (c + 1)
    (E (counter_at nonce c))) as (off & ks' & Hloop); try done.
  - by apply Forall_drop.
  - lia.
  - rewrite length_drop. lia.
  - rewrite length_drop. unfold n in *. lia.
  - rewrite length_drop in Hloop |- *. rewrite Hloop. exists off, ks'. do 2 f_equal.
    cbn [ctr_xor]. rewrite Hdr, <-Hzip, <-!app_assoc. by replace (c + 1 + Z.of_nat (blocks (length rest - n)))
      with (c + Z.of_nat (S (blocks (length rest - n)))) by lia.
Qed.

Lemma ctr_xor_length n nonce c data :
  length nonce = 12%nat -> Forall byte nonce -> (length data <= 16 * n)%nat ->
  length (ctr_xor n nonce c data) = length data.
Proof.
  intros Hn Hb. revert c data. induction n as [|n IH]; intros c data Hl; cbn [ctr_xor]; [cbn; lia|].
  destruct (bc_block (counter_at nonce c)) as [HEl HEb]; [by apply length_counter_at|by apply counter_at_bytes|].
  rewrite length_app, length_zip_with, length_take, HEl, IH, length_drop by (rewrite ?length_drop; lia). lia.
Qed.

Lemma ctr_xor_bytes n nonce c data :
  length nonce = 12%nat -> Forall byte nonce -> Forall byte data -> Forall byte (ctr_xor n nonce c data).
Proof.
  intros Hn Hb. revert c data. induction n as [|n IH]; intros c data Hd; cbn [ctr_xor]; [done|].
  destruct (bc_block (counter_at nonce c)) as [HEl HEb]; [by apply length_counter_at|by apply counter_at_bytes|].
  apply Forall_app. split; [apply zip_lxor_bytes; [by apply Forall_take|done]|apply IH; by apply Forall_drop].
Qed.

Lemma ctr_xor_involutive n nonce c data :
  length nonce = 12%nat -> Forall byte nonce -> (length data <= 16 * n)%nat ->
  ctr_xor n nonce c (ctr_xor n nonce c data) = data.
Proof.
  intros Hn Hb. revert c data. induction n as [|n IH]; intros c data Hl; cbn [ctr_xor].
  { by destruct data; [|cbn in Hl; lia]. }
  destruct (bc_block (counter_at nonce c)) as [HEl HEb]; [by apply length_counter_at|by apply counter_at_bytes|].
  set (z := zip_with Z.lxor (take 16 data) (E (counter_at nonce c))).
  assert (Hz : length z = Nat.min 16 (length data)).
  { unfold z. rewrite length_zip_with, length_take, HEl. lia. }
  destruct (Nat.le_gt_cases 16 (length data)) as [Hge|Hlt].
  - rewrite take_app_length', drop_app_length' by lia. rewrite IH by (rewrite length_drop; lia).
    unfold z. rewrite zip_lxor_involutive by (rewrite length_take; lia). by rewrite take_drop.
  - assert (Hrest : ctr_xor n nonce (c + 1) (drop 16 data) = []).
    { apply length_zero_iff_nil. rewrite ctr_xor_length by (done || rewrite length_drop; lia). rewrite length_drop. lia. }
    rewrite Hrest, app_nil_r, (take_ge z), (drop_ge z) by lia. unfold z.
    rewrite zip_lxor_involutive, (take_ge data) by (rewrite ?length_take; lia).
    rewrite <-(drop_ge data 16), Hrest by lia. by rewrite app_nil_r.
Qed.

Lemma ctr_xor_app n1 n2 nonce c a b :
  length a = (16 * n1)%nat ->
  ctr_xor (n1 + n2) nonce c (a ++ b) = ctr_xor n1 nonce c a ++ ctr_xor n2 nonce (c + Z.of_nat n1) b.
Proof.
  revert c a. induction n1 as [|n1 IH]; intros c a Ha; cbn [ctr_xor Nat.add].
  { destruct a; [|cbn in Ha; lia]. cbn. by rewrite Z.add_0_r. }
  rewrite take_app_le, drop_app_le by lia. rewrite IH by (rewrite length_drop; lia).
  rewrite app_assoc. do 2 f_equal. lia.
Qed.

Lemma blocks_mul n : (blocks (16 * n) = n)%nat.
Proof. unfold blocks. symmetry. apply (Nat.div_unique _ _ _ 15); lia. Qed.

Lemma blocks_cover n : (n <= 16 * blocks n)%nat.
Proof. unfold blocks. pose proof (Nat.div_mod_eq (n + 15) 16). pose proof (Nat.mod_upper_bound (n + 15) 16). lia. Qed.

Lemma blocks_add n m : (blocks (16 * n + m) = n + blocks m)%nat.
Proof. unfold blocks. replace (16 * n + m + 15)%nat with (m + 15 + n * 16)%nat by lia. rewrite Nat.div_add by lia. lia. Qed.

Lemma crypt_ctr_spec junk data nonce c :
  length nonce = 12%nat -> Forall byte nonce -> Forall byte data -> length junk = 16%nat ->
  0 <= c < 2 ^ 32 ->
  crypt_ctr junk (Some data) (length data) (Some (counter_at nonce c))
  = if decide (c + Z.of_nat (blocks (length data)) < 2 ^ 32)
    then Done (s_ok, Some (ctr_xor (blocks (length data)) nonce c data),
               Some (counter_at nonce (c + Z.of_nat (blocks (length data)))))
    else Done (s_out_of_range, Some data, Some (counter_at nonce c)).
Proof.
  intros Hn Hnb Hd Hj Hc. unfold crypt_ctr. cbn [is_null andb orb].
  rewrite read_counter by done. exec_simpl. rewrite blocks_count.
  case_decide; [rewrite (proj2 (Z.ltb_ge _ _)) by lia|by rewrite (proj2 (Z.ltb_lt _ _)) by lia].
  destruct (ctr_loop [] data [] nonce c (S (length data)) junk) as (off & ks & Hl); [done..|lia|done|lia|].
  cbn [app length] in Hl. rewrite !app_nil_r in Hl. by rewrite Hl.
Qed.
End Ctr.

(** ** What counter mode promises for any block cipher *)

Definition ctr_mode (encrypt_block : ptr -> ptr -> exec ptr) (increment : list Z -> exec (list Z)) : Prop :=
  let crypt data c nonce := crypt_ctr encrypt_block increment (replicate 16 0)
                              (Some data) (length data) (Some (counter_at nonce c)) in
  forall data nonce c,
    length nonce = 12%nat -> Forall byte nonce -> Forall byte data -> 0 <= c < 2 ^ 32 ->
    let c' := c + Z.of_nat (blocks (length data)) in
    (2 ^ 32 <= c' -> crypt data c nonce = Done (s_out_of_range, Some data, Some (counter_at nonce c)))
    /\ (c' < 2 ^ 32 -> exists out,
          crypt data c nonce = Done (s_ok, Some out, Some (counter_at nonce c'))
          /\ length out = length data
          /\ crypt out c nonce = Done (s_ok, Some data, Some (counter_at nonce c'))
          /\ forall n a b, data = a ++ b -> length a = (16 * n)%nat ->
               exists a' b', out = a' ++ b'
                 /\ crypt a c nonce = Done (s_ok, Some a', Some (counter_at nonce (c + Z.of_nat n)))
                 /\ crypt b (c + Z.of_nat n) nonce = Done (s_ok, Some b', Some (counter_at nonce c'))).

Lemma ctr_mode_ok encrypt_block increment E :
  BlockCipher encrypt_block E -> Increments increment -> ctr_mode encrypt_block increment.
Proof.
  intros HE Hi. unfold ctr_mode. cbn zeta. intros data nonce c Hn Hnb Hd Hc.
  assert (Hspec : forall data c, Forall byte data -> 0 <= c < 2 ^ 32 -> c + Z.of_nat (blocks (length data)) < 2 ^ 32 ->
    crypt_ctr encrypt_block increment (replicate 16 0) (Some data) (length data) (Some (counter_at nonce c))
    = Done (s_ok, Some (ctr_xor E (blocks (length data)) nonce c data),
            Some (counter_at nonce (c + Z.of_nat (blocks (length data)))))).
  { intros d c0 Hd0 Hc0 Hlt. by rewrite (crypt_ctr_spec _ _ E), decide_True. }
  split.
  { intros Hge. rewrite (crypt_ctr_spec _ _ E) by done. by rewrite decide_False by lia. }
  intros Hlt. exists (ctr_xor E (blocks (length data)) nonce c data).
  assert (Hlen : length (ctr_xor E (blocks (length data)) nonce c data) = length data)
    by (eapply ctr_xor_length; [done..|apply blocks_cover]).
  split_and!; [by apply Hspec|done| |].
  - rewrite Hspec; rewrite ?Hlen; [|by eapply ctr_xor_bytes|done..].
    erewrite ctr_xor_involutive; [done|done..|apply blocks_cover].
  - intros n a b -> Ha. apply Forall_app in Hd as [Hda Hdb].
    rewrite length_app, Ha, blocks_add in *.
    exists (ctr_xor E n nonce c a), (ctr_xor E (blocks (length b)) nonce (c + Z.of_nat n) b).
    split_and!; [by apply ctr_xor_app| |].
    + rewrite <-Ha, Hspec; rewrite ?Ha, ?blocks_mul; (done || lia).
    + rewrite Hspec by (done || lia). by rewrite Nat2Z.inj_add, Z.add_assoc.
Qed.
