(* ===== verification/ChaCha20.v ===== *)
(** * ChaCha20 (castle_ext/crypto/chacha20.hpp)

    The state of the cipher, the block function and the buffered key stream.  The
    reference is RFC 8439: the stream is the concatenation of the blocks of all
    counter values, and an object stands at a position of it. *)

From S2P Require Import Prelude Status Bytes Words Ctr.
Open Scope Z_scope.

Record chacha20 : Type := mk_chacha20 {
  state_ : list Z;
  keystream_ : list Z;
  keystream_size_ : nat;
  counter_exhausted_ : bool
}.

Definition block_size : nat := 64.

Definition quarter_round (a b c d : Z) : exec (Z * Z * Z * Z) :=
  let a := to_u32 (a + b) in let d := Z.lxor d a in d ← rotl32 d 16;
  let c := to_u32 (c + d) in let b := Z.lxor b c in b ← rotl32 b 12;
  let a := to_u32 (a + b) in let d := Z.lxor d a in d ← rotl32 d 8;
  let c := to_u32 (c + d) in let b := Z.lxor b c in b ← rotl32 b 7;
  Done (a, b, c, d).

(** [quarter_round(working[i], working[j], working[k], working[l])]. *)
Definition quarter_round_at (i j k l : nat) (w : list Z) : exec (list Z) :=
  a ← load w i; b ← load w j; c ← load w k; d ← load w l;
  '(a, b, c, d) ← quarter_round a b c d;
  w ← store w i a; w ← store w j b; w ← store w k c; store w l d.

Definition double_round (w : list Z) : exec (list Z) :=
  w ← quarter_round_at 0 4 8 12 w; w ← quarter_round_at 1 5 9 13 w;
  w ← quarter_round_at 2 6 10 14 w; w ← quarter_round_at 3 7 11 15 w;
  w ← quarter_round_at 0 5 10 15 w; w ← quarter_round_at 1 6 11 12 w;
  w ← quarter_round_at 2 7 8 13 w; quarter_round_at 3 4 9 14 w.

(** [working0] is what the array [working] happens to hold when it is declared. *)
Definition generate_block (working0 : list Z) (s : chacha20) : exec chacha20 :=
  working ← for_to 0 16 (fun i w => v ← load (state_ s) i; store w i v) working0;
  working ← for_to 0 10 (fun _ w => double_round w) working;
  keystream ← for_to 0 16 (fun i ks => w ← load working i; v ← load (state_ s) i; write_le32 ks (4 * i) (to_u32 (w + v))) (keystream_ s);
  counter ← load (state_ s) 12;
  if counter =? 4294967295 then Done (mk_chacha20 (state_ s) keystream 0 true)
  else
    state ← store (state_ s) 12 (to_u32 (counter + 1));
    Done (mk_chacha20 state keystream 0 (counter_exhausted_ s)).

Definition reset (s : chacha20) (key nonce : ptr) (counter : Z) : exec (status * chacha20) :=
  match key, nonce with
  | Some key, Some nonce =>
      st ← store (state_ s) 0 0x61707865; st ← store st 1 0x3320646e; st ← store st 2 0x79622d32; st ← store st 3 0x6b206574;
      st ← for_to 0 8 (fun i st => v ← read_le32 key (4 * i); store st (4 + i) v) st;
      st ← store st 12 counter;
      v ← read_le32 nonce 0; st ← store st 13 v;
      v ← read_le32 nonce 4; st ← store st 14 v;
      v ← read_le32 nonce 8; st ← store st 15 v;
      Done (s_ok, mk_chacha20 st (keystream_ s) 0 false)
  | _, _ => Done (s_invalid_argument, s)
  end.

(** The constructors; [s] is the uninitialised object. *)
Definition chacha20_new (s : chacha20) (key nonce : ptr) (counter : Z) : exec chacha20 :=
  '(_, s) ← (if is_null key || is_null nonce
             then reset s (Some (replicate 32 0)) (Some (replicate 12 0)) counter
             else reset s key nonce counter);
  Done s.
Definition chacha20_default (s : chacha20) : exec chacha20 :=
  '(_, s) ← reset s (Some (replicate 32 0)) (Some (replicate 12 0)) 0; Done s.

Definition set_counter (s : chacha20) (counter : Z) : exec (status * chacha20) :=
  st ← store (state_ s) 12 counter; Done (s_ok, mk_chacha20 st (keystream_ s) 0 false).
Definition counter (s : chacha20) : exec Z := load (state_ s) 12.

Definition crypt_body (working0 : list Z) (st : chacha20 * list Z * nat * nat)
    : exec (ctl (status * ptr * chacha20) (chacha20 * list Z * nat * nat)) :=
  let '(s, data, offset, size) := st in
  s ← (if (keystream_size_ s =? 0)%nat then generate_block working0 s else Done s);
  let available := (block_size - keystream_size_ s)%nat in
  let take := if (size <? available)%nat then size else available in
  data ← xor_bytes data offset (keystream_ s) (keystream_size_ s) take;
  let n := (keystream_size_ s + take)%nat in
  Done (Next (mk_chacha20 (state_ s) (keystream_ s) (if (n =? block_size)%nat then 0%nat else n) (counter_exhausted_ s),
              data, (offset + take)%nat, (size - take)%nat)).

Definition crypt (working0 : list Z) (s : chacha20) (data : ptr) (size : nat) : exec (status * ptr * chacha20) :=
  if is_null data && negb (size =? 0)%nat then Done (s_invalid_argument, data, s)
  else
    let cached_bytes := if (keystream_size_ s =? 0)%nat then 0%nat else (block_size - keystream_size_ s)%nat in
    let bytes_after_cache := if (cached_bytes <? size)%nat then (size - cached_bytes)%nat else 0%nat in
    let blocks_needed := (bytes_after_cache / block_size)%nat in
    let blocks_needed := if negb (bytes_after_cache mod block_size =? 0)%nat then (blocks_needed + 1)%nat else blocks_needed in
    c ← load (state_ s) 12;
    if negb (blocks_needed =? 0)%nat && (counter_exhausted_ s || (to_u32 (4294967295 - c) <? Z.of_nat (blocks_needed - 1)))
    then Done (s_out_of_range, data, s)
    else
      match data with
      | None => Done (s_ok, None, s)
      | Some bytes =>
          after (while_loop (S size) (fun '(_, _, _, size) => Done (negb (size =? 0)%nat)) (crypt_body working0) (s, bytes, 0%nat, size))
            (fun '(s, bytes, _, _) => Done (s_ok, Some bytes, s))
      end.

(** ** RFC 8439 *)

Definition sum (x y : Z) : Z := (x + y) mod 2 ^ 32.

Definition QUARTERROUND (i j k l : nat) (w : list Z) : list Z :=
  let a := w !!! i in let b := w !!! j in let c := w !!! k in let d := w !!! l in
  let a := sum a b in let d := ROTL 32 16 (Z.lxor d a) in
  let c := sum c d in let b := ROTL 32 12 (Z.lxor b c) in
  let a := sum a b in let d := ROTL 32 8 (Z.lxor d a) in
  let c := sum c d in let b := ROTL 32 7 (Z.lxor b c) in
  <[l := d]> (<[k := c]> (<[j := b]> (<[i := a]> w))).

Definition inner_block (w : list Z) : list Z :=
  QUARTERROUND 3 4 9 14 (QUARTERROUND 2 7 8 13 (QUARTERROUND 1 6 11 12 (QUARTERROUND 0 5 10 15
  (QUARTERROUND 3 7 11 15 (QUARTERROUND 2 6 10 14 (QUARTERROUND 1 5 9 13 (QUARTERROUND 0 4 8 12 w))))))).

(** The initial words: constants, key, counter, nonce. *)
Definition word_at (bytes : list Z) (i : nat) : Z := le_val 256 (take 4 (drop (4 * i) bytes)).
Definition initial_state (key nonce : list Z) (c : Z) : list Z :=
  [0x61707865; 0x3320646e; 0x79622d32; 0x6b206574] ++ (word_at key <$> seq 0 8) ++ [c] ++ (word_at nonce <$> seq 0 3).

Definition inner_blocks (n : nat) (w : list Z) : list Z := fold_left (fun w _ => inner_block w) (seq 0 n) w.
Definition chacha20_block (st : list Z) : list Z :=
  mjoin (le_bytes 4 <$> zip_with sum (inner_blocks 10 st) st).

(** Byte [p] of the key stream, and a stretch of it. *)
Definition stream (key nonce : list Z) (p : nat) : Z :=
  chacha20_block (initial_state key nonce (Z.of_nat (p / 64))) !!! (p mod 64)%nat.
Definition stretch (key nonce : list Z) (p n : nat) : list Z := stream key nonce <$> seq p n.

Definition rfc_key : list Z := Z.of_nat <$> seq 0 32.
Definition rfc_nonce : list Z := [0; 0; 0; 9; 0; 0; 0; 74; 0; 0; 0; 0].
Definition blank : chacha20 := mk_chacha20 (replicate 16 0) (replicate 64 0) 7 true.

(** The test vector of section 2.3.2 of the RFC. *)
Example chacha20_rfc_block :
  (s ← chacha20_new blank (Some rfc_key) (Some rfc_nonce) 1; '(_, d, _) ← crypt (replicate 16 0) s (Some (replicate 64 0)) 64; Done d)
  = Done (Some (reverse (le_bytes 64
      0x10f1e7e4d13b5915500fdd1fa32071c4c7d1f4c733c068030422aa9ac3d46c4ed2826446079faa0914c2d705d98b02a2b5129cd1de164eb9cbd083e8a2503c4e))).
Proof. vm_compute. reflexivity. Qed.

(** ** The block function *)

Definition words16 (w : list Z) : Prop := length w = 16%nat /\ Forall u32 w.

Lemma quarter_round_at_ok i j k l w :
  words16 w -> (i < 16)%nat -> (j < 16)%nat -> (k < 16)%nat -> (l < 16)%nat ->
  quarter_round_at i j k l w = Done (QUARTERROUND i j k l w) /\ words16 (QUARTERROUND i j k l w).
Proof.
  intros [Hl Hw] Hi Hj Hk Hll.
  assert (Hload : forall n, (n < 16)%nat -> load w n = Done (w !!! n) /\ u32 (w !!! n)).
  { intros n Hn. destruct (lookup_lt_is_Some_2 w n) as [v Hv]; [lia|]. rewrite (list_lookup_total_correct _ _ _ Hv).
    split; [by apply load_Done|by eapply Forall_lookup_1 in Hw]. }
  assert (Hrot : forall x y c, u32 x -> u32 y -> 0 < c < 32 ->
    rotl32 (Z.lxor x y) c = Done (ROTL 32 c (Z.lxor x y)) /\ u32 (ROTL 32 c (Z.lxor x y))).
  { intros x y c Hx Hy Hc. apply rotl32_value; auto with castle. }
  unfold quarter_round_at, QUARTERROUND.
  destruct (Hload i Hi) as [-> Ha], (Hload j Hj) as [-> Hb], (Hload k Hk) as [-> Hc], (Hload l Hll) as [-> Hd]. exec_simpl.
  unfold quarter_round. cbv zeta. change (fun x y => sum x y) with (fun x y => to_u32 (x + y)). unfold sum.
  repeat match goal with
  | |- context [rotl32 (Z.lxor ?x (wrap 32 ?y)) ?c] =>
      destruct (Hrot x (to_u32 y) c) as [-> ?]; [done|by apply wrap_in_width|lia|]; exec_simpl
  end.
  rewrite !store_Done by (rewrite ?length_insert; lia). exec_simpl.
  rewrite !store_Done by (rewrite ?length_insert; lia). exec_simpl.
  rewrite !store_Done by (rewrite ?length_insert; lia). exec_simpl.
  rewrite !store_Done by (rewrite ?length_insert; lia). split; [done|]. split; [by rewrite !length_insert|].
  repeat (apply Forall_insert; [|done || by apply wrap_in_width]). done.
Qed.

Lemma double_round_ok w : words16 w -> double_round w = Done (inner_block w) /\ words16 (inner_block w).
Proof.
  intros Hw. unfold double_round, inner_block.
  repeat (match goal with
  | |- context [quarter_round_at ?i ?j ?k ?l ?v] =>
      let E := fresh in let H := fresh in
      destruct (quarter_round_at_ok i j k l v) as [E H]; [done|lia..|]; rewrite E; rewrite ?bind_Done; clear E
  end). done.
Qed.

Lemma inner_blocks_ok n w :
  words16 w -> for_to 0 n (fun _ w => double_round w) w = Done (inner_blocks n w) /\ words16 (inner_blocks n w).
Proof. intros Hw. apply (for_to_fold (fun _ => inner_block)); [done|]. intros _ st _ Hst. by apply double_round_ok. Qed.

Lemma length_chacha20_block st : words16 st -> length (chacha20_block st) = 64%nat.
Proof.
  intros Hst. destruct (inner_blocks_ok 10 st Hst) as [_ [Hl _]]. unfold chacha20_block.
  rewrite length_join_le_bytes, length_zip_with, Hl, (proj1 Hst). done.
Qed.

Lemma chacha20_block_bytes st : Forall byte (chacha20_block st).
Proof.
  unfold chacha20_block. apply Forall_join, Forall_fmap, Forall_true. intros w. apply le_bytes_bytes.
Qed.

(** The loop that serialises the sums. *)
Lemma serialise_ok (working st keystream : list Z) :
  words16 working -> words16 st -> length keystream = 64%nat ->
  for_to 0 16 (fun i ks => w ← load working i; v ← load st i; write_le32 ks (4 * i) (to_u32 (w + v))) keystream
  = Done (mjoin (le_bytes 4 <$> zip_with sum working st)).
Proof.
  intros [Hw _] [Hs _] Hk. set (body := fun (i : nat) (ks : list Z) => _). set (ws := zip_with sum working st).
  assert (Hws : length ws = 16%nat) by (unfold ws; rewrite length_zip_with; lia).
  assert (Hj : forall i, (i <= 16)%nat -> length (mjoin (le_bytes 4 <$> take i ws)) = (4 * i)%nat).
  { intros i Hi. rewrite length_join_le_bytes, length_take. lia. }
  destruct (for_to_inv (fun i ks => ks = wrote keystream 0 (mjoin (le_bytes 4 <$> take i ws))) body 0 16 keystream) as (ks & -> & ->).
  - rewrite take_0. symmetry. apply (wrote_nil keystream 0).
  - intros i ks Hi ->. unfold body. destruct (lookup_lt_is_Some_2 working i) as [w Ew]; [lia|].
    destruct (lookup_lt_is_Some_2 st i) as [v Ev]; [lia|]. rewrite (load_Done working _ _ Ew), bind_Done, (load_Done st _ _ Ev), bind_Done.
    rewrite write_le32_bytes by (rewrite length_wrote; rewrite ?Hj; lia). eexists. split; [done|].
    rewrite wrote_app; [|rewrite Hj; lia|rewrite length_le_bytes; lia]. f_equal.
    rewrite (take_S_r ws i (sum w v)); [rewrite fmap_app, join_app; change (mjoin (le_bytes 4 <$> [sum w v])) with (le_bytes 4 (sum w v) ++ []); by rewrite app_nil_r|].
    unfold ws. by rewrite lookup_zip_with, Ew, Ev.
  - pose proof (Hj 16%nat ltac:(lia)) as H16. rewrite Nat.add_0_l, (take_ge ws) in * by lia.
    rewrite wrote_0, drop_ge, app_nil_r by lia. done.
Qed.

Lemma serialise_block st keystream :
  words16 st -> length keystream = 64%nat ->
  for_to 0 16 (fun i ks => w ← load (inner_blocks 10 st) i; v ← load st i; write_le32 ks (4 * i) (to_u32 (w + v))) keystream
  = Done (chacha20_block st).
Proof. intros Hst Hk. unfold chacha20_block. apply serialise_ok; [by apply inner_blocks_ok|done..]. Qed.

Lemma copy_state_ok (st working0 : list Z) :
  length st = 16%nat -> length working0 = 16%nat -> for_to 0 16 (fun i w => v ← load st i; store w i v) working0 = Done st.
Proof.
  intros Hs Hw. set (body := fun (i : nat) (w : list Z) => _).
  destruct (for_to_inv (fun i w => w = wrote working0 0 (take i st)) body 0 16 working0) as (w & -> & ->).
  - rewrite take_0. symmetry. apply (wrote_nil working0 0).
  - intros i w Hi ->. unfold body. destruct (lookup_lt_is_Some_2 st i) as [v Ev]; [lia|]. rewrite (load_Done _ _ _ Ev), bind_Done.
    rewrite store_wrote by (rewrite ?length_take; lia). eexists. split; [done|]. by rewrite (take_S_r _ _ _ Ev).
  - rewrite take_ge, wrote_0, drop_ge, app_nil_r by lia. done.
Qed.

(** ** Where an object stands in the stream *)

Lemma div_mod_64 n : (n = 64 * (n / 64) + n mod 64 /\ n mod 64 < 64)%nat.
Proof. split; [apply Nat.div_mod_eq|apply Nat.mod_upper_bound; lia]. Qed.

Lemma div_64 n q r : (n = 64 * q + r -> r < 64 -> n / 64 = q /\ n mod 64 = r)%nat.
Proof. intros. split; [symmetry; apply (Nat.div_unique _ _ _ r); lia|symmetry; apply (Nat.mod_unique _ _ q); lia]. Qed.

Section Stream.
Context (key nonce : list Z).
Context (Hkey : length key = 32%nat) (Hkeyb : Forall byte key) (Hnonce : length nonce = 12%nat) (Hnonceb : Forall byte nonce).

Lemma word_at_u32 bytes i : Forall byte bytes -> (4 * i + 4 <= length bytes)%nat -> u32 (word_at bytes i).
Proof.
  intros Hb Hl. unfold word_at. assert (Hn : length (take 4 (drop (4 * i) bytes)) = 4%nat) by (rewrite length_take, length_drop; lia).
  pose proof (le_val_bound 256 (take 4 (drop (4 * i) bytes)) ltac:(lia)) as Hv. rewrite Hn in Hv. apply Hv. by apply Forall_take, Forall_drop.
Qed.

Lemma initial_state_words c : u32 c -> words16 (initial_state key nonce c).
Proof.
  intros Hc. unfold initial_state. split; [by rewrite !length_app, !length_fmap, !length_seq|]. rewrite !Forall_app. split_and!.
  - by apply (bool_decide_unpack _).
  - apply Forall_fmap, Forall_seq. intros i Hi. apply word_at_u32; [done|lia].
  - by rewrite Forall_singleton.
  - apply Forall_fmap, Forall_seq. intros i Hi. apply word_at_u32; [done|lia].
Qed.

Lemma initial_state_counter c c' :
  initial_state key nonce c !! 12%nat = Some c /\ <[12%nat := c']> (initial_state key nonce c) = initial_state key nonce c'.
Proof.
  unfold initial_state. rewrite !app_assoc. set (pre := _ ++ (word_at key <$> seq 0 8)).
  assert (Hp : length pre = 12%nat) by (unfold pre; rewrite length_app, length_fmap, length_seq; done).
  rewrite <-!app_assoc. split.
  - rewrite lookup_app_r, Hp, Nat.sub_diag by lia. done.
  - rewrite insert_app_r_alt, Hp, Nat.sub_diag by lia. done.
Qed.

Lemma generate_block_ok working0 s c :
  length working0 = 16%nat -> length (keystream_ s) = 64%nat -> u32 c -> state_ s = initial_state key nonce c ->
  generate_block working0 s = Done (
    if c =? 2 ^ 32 - 1 then mk_chacha20 (initial_state key nonce c) (chacha20_block (initial_state key nonce c)) 0 true
    else mk_chacha20 (initial_state key nonce (c + 1)) (chacha20_block (initial_state key nonce c)) 0 (counter_exhausted_ s)).
Proof.
  intros Hw Hk Hc Hs. pose proof (initial_state_words c Hc) as Hst. unfold generate_block. rewrite Hs.
  destruct (inner_blocks_ok 10 _ Hst) as [Hin _]. destruct (initial_state_counter c (c + 1)) as [E1 E2].
  run_first (copy_state_ok _ working0 (proj1 Hst) Hw). run_first Hin. run_first (serialise_block _ _ Hst Hk).
  generalize (chacha20_block (initial_state key nonce c)). intros block.
  run_first (load_Done _ _ _ E1). change 4294967295 with (2 ^ 32 - 1). destruct (Z.eqb_spec c (2 ^ 32 - 1)) as [|Hne]; [reflexivity|].
  unfold in_width in Hc. rewrite wrap_small by (unfold in_width; lia).
  rewrite store_Done, bind_Done, E2 by (rewrite (proj1 Hst); lia). reflexivity.
Qed.

#[local] Opaque chacha20_block initial_state.

(** The object will deliver byte [pos] of the stream next.  A block is generated
    when its first byte is needed, so the next counter is [pos] over 64 rounded up;
    after the last block the counter stays and [counter_exhausted_] is set. *)
Definition stands_at (s : chacha20) (pos : nat) : Prop :=
  let q := Z.of_nat ((pos + 63) / 64) in
  length (keystream_ s) = 64%nat /\ q <= 2 ^ 32 /\ keystream_size_ s = (pos mod 64)%nat
  /\ state_ s = initial_state key nonce (Z.min q (2 ^ 32 - 1)) /\ counter_exhausted_ s = (q =? 2 ^ 32)
  /\ ((pos mod 64 <> 0)%nat -> keystream_ s = chacha20_block (initial_state key nonce (Z.of_nat (pos / 64)))).

Lemma stretch_block pos n :
  (pos mod 64 + n <= 64)%nat -> u32 (Z.of_nat (pos / 64)) ->
  stretch key nonce pos n = take n (drop (pos mod 64) (chacha20_block (initial_state key nonce (Z.of_nat (pos / 64))))).
Proof.
  intros Hn Hc. pose proof (length_chacha20_block _ (initial_state_words _ Hc)) as Hl. pose proof (div_mod_64 pos).
  apply list_eq. intros i. unfold stretch. rewrite list_lookup_fmap. destruct (decide (i < n)%nat) as [Hi|Hi].
  - rewrite lookup_seq_lt, lookup_take_lt, lookup_drop by lia. cbn [fmap option_fmap option_map]. unfold stream.
    destruct (div_64 (pos + i) (pos / 64) (pos mod 64 + i)) as [-> ->]; [lia..|]. symmetry. apply list_lookup_lookup_total_lt. lia.
  - rewrite lookup_seq_ge, lookup_ge_None_2 by (rewrite ?length_take; lia). done.
Qed.

Lemma stretch_app pos n m : stretch key nonce pos (n + m) = stretch key nonce pos n ++ stretch key nonce (pos + n) m.
Proof. unfold stretch. by rewrite seq_app, fmap_app. Qed.

(** The object holds the block of byte [pos], and the counter is past it. *)
Definition loaded (s : chacha20) (pos : nat) : Prop :=
  let q := Z.of_nat (pos / 64 + 1) in
  keystream_ s = chacha20_block (initial_state key nonce (Z.of_nat (pos / 64))) /\ keystream_size_ s = (pos mod 64)%nat
  /\ state_ s = initial_state key nonce (Z.min q (2 ^ 32 - 1)) /\ counter_exhausted_ s = (q =? 2 ^ 32).

Lemma refill_ok working0 s pos :
  length working0 = 16%nat -> stands_at s pos -> Z.of_nat pos < 2 ^ 38 ->
  exists s', (if (keystream_size_ s =? 0)%nat then generate_block working0 s else Done s) = Done s' /\ loaded s' pos.
Proof.
  intros Hw (Hl & Hq & Hn & Hst & Hex & Hks) Hp. pose proof (div_mod_64 pos). rewrite Hn.
  destruct (Nat.eqb_spec (pos mod 64) 0) as [E|E].
  - destruct (div_64 (pos + 63) (pos / 64) 63) as [Eq _]; [lia..|]. rewrite Eq in *. set (c := Z.of_nat (pos / 64)) in *.
    rewrite Z.min_l in Hst by lia. rewrite (generate_block_ok working0 s c Hw Hl ltac:(unfold in_width; lia) Hst).
    unfold loaded. rewrite Nat2Z.inj_add. fold c. destruct (Z.eqb_spec c (2 ^ 32 - 1)) as [Ec|Ec].
    + eexists. split; [done|]. cbn [keystream_ keystream_size_ state_ counter_exhausted_].
      rewrite Z.min_r by lia. rewrite (proj2 (Z.eqb_eq _ _)) by lia. rewrite <-Ec.
      split_and!; [reflexivity|lia|reflexivity..].
    + eexists. split; [done|]. cbn [keystream_ keystream_size_ state_ counter_exhausted_].
      rewrite Z.min_l by lia. split_and!; [done|lia|done|]. rewrite Hex, !(proj2 (Z.eqb_neq _ _)) by lia. done.
  - exists s. split; [done|]. destruct (div_64 (pos + 63) (pos / 64 + 1) (pos mod 64 - 1)) as [Eq _]; [lia..|]. rewrite Eq in *.
    split_and!; [by apply Hks|done..].
Qed.

(** One turn of the loop encrypts up to the end of the block. *)
Lemma crypt_body_ok working0 s pos pre rest :
  length working0 = 16%nat -> stands_at s pos -> Forall byte rest -> (0 < length rest)%nat -> Z.of_nat (pos + length rest) <= 2 ^ 38 ->
  exists s' now later, rest = now ++ later /\ (0 < length now)%nat /\ stands_at s' (pos + length now)
    /\ crypt_body working0 (s, pre ++ rest, length pre, length rest)
       = Done (Next (s', (pre ++ zip_with Z.lxor now (stretch key nonce pos (length now))) ++ later, (length pre + length now)%nat, length later)).
Proof.
  intros Hw Hs Hb Hr Hp. destruct (refill_ok working0 s pos Hw Hs) as (s1 & Eg & Hks & Hn & Hst & Hex); [lia|]. pose proof (div_mod_64 pos).
  set (n := Nat.min (64 - pos mod 64) (length rest)).
  assert (Hc : u32 (Z.of_nat (pos / 64))) by (unfold in_width; lia).
  pose proof (length_chacha20_block _ (initial_state_words _ Hc)) as Hl. set (block := chacha20_block _) in *.
  assert (Hbl : Forall byte block) by apply chacha20_block_bytes.
  assert (Hln : length (take n rest) = n) by (rewrite length_take; lia).
  assert (Hstr : stretch key nonce pos n = take n (drop (pos mod 64) block)) by (apply stretch_block; [lia|done]).
  unfold crypt_body. rewrite Eg, bind_Done, Hks, Hn. unfold block_size.
  replace (if (length rest <? 64 - pos mod 64)%nat then length rest else (64 - pos mod 64)%nat) with n
    by (unfold n; destruct (Nat.ltb_spec (length rest) (64 - pos mod 64)); lia).
  pose proof (xor_bytes_spec pre (take n rest) (drop n rest) (take (pos mod 64) block) (take n (drop (pos mod 64) block))
    (drop n (drop (pos mod 64) block)) (length pre) (pos mod 64) n) as Hx. rewrite !take_drop, <-Hstr in Hx.
  rewrite Hx; [|by apply Forall_take|rewrite Hstr; by apply Forall_take, Forall_drop|done|
    unfold stretch; by rewrite length_fmap, length_seq|done|rewrite length_take; lia].
  rewrite bind_Done. eexists _, (take n rest), (drop n rest). rewrite take_drop, length_drop, Hln. split_and!; [done|lia| |by rewrite <-app_assoc].
  unfold stands_at. cbn [keystream_ keystream_size_ state_ counter_exhausted_].
  destruct (div_64 (pos + n + 63) (pos / 64 + 1) (pos mod 64 + n - 1)) as [-> _]; [lia..|].
  destruct (Nat.eqb_spec (pos mod 64 + n) 64) as [E|E].
  - destruct (div_64 (pos + n) (pos / 64 + 1) 0) as [_ ->]; [lia..|].
    split_and!; [exact Hl|lia|reflexivity|exact Hst|exact Hex|intros []; reflexivity].
  - destruct (div_64 (pos + n) (pos / 64) (pos mod 64 + n)) as [-> ->]; [lia..|].
    split_and!; [exact Hl|lia|reflexivity|exact Hst|exact Hex|intros _; reflexivity].
Qed.

Lemma crypt_loop_ok working0 fuel s pos pre rest :
  length working0 = 16%nat -> stands_at s pos -> Forall byte rest -> (length rest < fuel)%nat -> Z.of_nat (pos + length rest) <= 2 ^ 38 ->
  exists s' off, stands_at s' (pos + length rest)
    /\ while_loop fuel (fun '(_, _, _, size) => Done (negb (size =? 0)%nat)) (crypt_body working0) (s, pre ++ rest, length pre, length rest)
       = Done (Next (s', pre ++ zip_with Z.lxor rest (stretch key nonce pos (length rest)), off, 0%nat)).
Proof.
  intros Hw. revert s pos pre rest. induction fuel as [|fuel IH]; intros s pos pre rest Hs Hb Hf Hp; [lia|]. cbn [while_loop].
  destruct (Nat.eqb_spec (length rest) 0) as [Hz|Hnz]; cbn [negb].
  { destruct rest; [|done]. exists s, (length pre). cbn [length]. by rewrite Nat.add_0_r. }
  destruct (crypt_body_ok working0 s pos pre rest) as (s1 & now & later & -> & Hn & Hs1 & ->); [done..|lia|done|].
  apply Forall_app in Hb as [Hnb Hlb]. rewrite length_app in *.
  assert (Hl : length (stretch key nonce pos (length now)) = length now) by (unfold stretch; by rewrite length_fmap, length_seq).
  replace (length pre + length now)%nat with (length (pre ++ zip_with Z.lxor now (stretch key nonce pos (length now))))
    by (rewrite length_app, length_zip_with; lia).
  destruct (IH s1 (pos + length now)%nat (pre ++ zip_with Z.lxor now (stretch key nonce pos (length now))) later) as (s2 & off & Hs2 & ->);
    [done..|lia|lia|]. exists s2, off. rewrite Nat.add_assoc. split; [done|].
  by rewrite <-app_assoc, stretch_app, zip_with_app by done.
Qed.

Lemma crypt_ok working0 s pos data :
  length working0 = 16%nat -> stands_at s pos -> Forall byte data ->
  (Z.of_nat (pos + length data) <= 2 ^ 38 -> exists s', stands_at s' (pos + length data)
     /\ crypt working0 s (Some data) (length data) = Done (s_ok, Some (zip_with Z.lxor data (stretch key nonce pos (length data))), s'))
  /\ (2 ^ 38 < Z.of_nat (pos + length data) -> crypt working0 s (Some data) (length data) = Done (s_out_of_range, Some data, s)).
Proof.
  intros Hw Hs Hb. pose proof Hs as (Hl & Hq & Hn & Hst & Hex & Hks). pose proof (div_mod_64 pos). pose proof (div_mod_64 (pos + 63)).
  set (q := ((pos + 63) / 64)%nat) in *. set (cached := if (pos mod 64 =? 0)%nat then 0%nat else (64 - pos mod 64)%nat).
  set (left := if (cached <? length data)%nat then (length data - cached)%nat else 0%nat).
  set (needed := if negb (left mod 64 =? 0)%nat then (left / 64 + 1)%nat else (left / 64)%nat).
  assert (Hc : (64 * q = pos + cached)%nat) by (unfold cached; destruct (Nat.eqb_spec (pos mod 64) 0); lia).
  assert (Hneed : (left <= 64 * needed < left + 64)%nat).
  { unfold needed. pose proof (div_mod_64 left). destruct (Nat.eqb_spec (left mod 64) 0); cbn [negb]; lia. }
  assert (Hleft : (left = length data - cached)%nat) by (unfold left; destruct (Nat.ltb_spec cached (length data)); lia).
  assert (Hcond : crypt working0 s (Some data) (length data) =
    if negb (needed =? 0)%nat && (counter_exhausted_ s || (2 ^ 32 - 1 - Z.min (Z.of_nat q) (2 ^ 32 - 1) <? Z.of_nat (needed - 1)))
    then Done (s_out_of_range, Some data, s)
    else after (while_loop (S (length data)) (fun '(_, _, _, size) => Done (negb (size =? 0)%nat)) (crypt_body working0)
                 (s, data, 0%nat, length data)) (fun '(s, bytes, _, _) => Done (s_ok, Some bytes, s))).
  { unfold crypt. cbn [is_null andb]. rewrite Hn, Hst. fold cached. unfold block_size. fold left. fold needed.
    destruct (initial_state_counter (Z.min (Z.of_nat q) (2 ^ 32 - 1)) 0) as [E _]. rewrite (load_Done _ _ _ E), bind_Done.
    rewrite wrap_small by (unfold in_width; lia). reflexivity. }
  rewrite Hcond, Hex. split.
  - intros Hp. assert (Hno : negb (needed =? 0)%nat && ((Z.of_nat q =? 2 ^ 32)
        || (2 ^ 32 - 1 - Z.min (Z.of_nat q) (2 ^ 32 - 1) <? Z.of_nat (needed - 1))) = false).
    { destruct (Nat.eqb_spec needed 0); [reflexivity|]. cbn [negb andb]. apply orb_false_iff. rewrite Z.eqb_neq, Z.ltb_ge. lia. }
    rewrite Hno. destruct (crypt_loop_ok working0 (S (length data)) s pos [] data Hw Hs Hb) as (s' & off & Hs' & E); [lia|done|].
    cbn [app length] in E. rewrite E. by exists s'.
  - intros Hp. destruct (Nat.eqb_spec needed 0) as [E|E]; [lia|]. cbn [negb andb].
    destruct (Z.eqb_spec (Z.of_nat q) (2 ^ 32)); [reflexivity|]. cbn [orb]. rewrite (proj2 (Z.ltb_lt _ _)) by lia. reflexivity.
Qed.
End Stream.

(** ** Seeking *)

Lemma stands_at_counter key nonce st ks c :
  length key = 32%nat -> length nonce = 12%nat -> length ks = 64%nat -> u32 c -> st = initial_state key nonce c ->
  stands_at key nonce (mk_chacha20 st ks 0 false) (64 * Z.to_nat c).
Proof.
  unfold in_width. intros Hk Hn Hl Hc ->. unfold stands_at. cbn [keystream_ keystream_size_ state_ counter_exhausted_].
  destruct (div_64 (64 * Z.to_nat c + 63)%nat (Z.to_nat c) 63) as [-> _]; [lia..|].
  destruct (div_64 (64 * Z.to_nat c)%nat (Z.to_nat c) 0) as [_ ->]; [lia..|]. rewrite Z2Nat.id, Z.min_l by lia.
  split_and!; [exact Hl|lia|reflexivity|reflexivity|symmetry; apply Z.eqb_neq; lia|intros []; reflexivity].
Qed.

Lemma set_counter_ok key nonce s pos c :
  length key = 32%nat -> Forall byte key -> length nonce = 12%nat -> Forall byte nonce -> stands_at key nonce s pos -> u32 c ->
  exists s', set_counter s c = Done (s_ok, s') /\ stands_at key nonce s' (64 * Z.to_nat c).
Proof.
  intros Hk Hkb Hn Hnb (Hl & _ & _ & Hst & _) Hc. unfold set_counter. rewrite Hst.
  assert (H16 : words16 (initial_state key nonce (Z.min (Z.of_nat ((pos + 63) / 64)) (2 ^ 32 - 1)))).
  { apply initial_state_words; [done..|]. unfold in_width. lia. }
  rewrite store_Done, bind_Done by (rewrite (proj1 H16); lia). eexists. split; [reflexivity|].
  apply stands_at_counter; [done..|]. by apply initial_state_counter.
Qed.

Lemma read_le32_at bytes i :
  Forall byte bytes -> (4 * i + 4 <= length bytes)%nat -> read_le32 bytes (4 * i) = Done (word_at bytes i).
Proof.
  intros Hb Hl. set (bs := take 4 (drop (4 * i) bytes)).
  pose proof (le_reader_val 4 write_le32 read_le32 (take (4 * i) bytes) bs (drop 4 (drop (4 * i) bytes))) as Hr.
  unfold bs in Hr. rewrite !take_drop, (length_take bytes), Nat.min_l in Hr by lia.
  apply Hr; [unfold le_accessors; by repeat constructor|rewrite length_take, length_drop; lia|by apply Forall_take, Forall_drop].
Qed.

Lemma reset_ok s key nonce c :
  length (state_ s) = 16%nat -> length (keystream_ s) = 64%nat ->
  length key = 32%nat -> Forall byte key -> length nonce = 12%nat -> Forall byte nonce -> u32 c ->
  exists s', reset s (Some key) (Some nonce) c = Done (s_ok, s') /\ stands_at key nonce s' (64 * Z.to_nat c).
Proof.
  intros Hs Hl Hk Hkb Hn Hnb Hc. unfold reset.
  set (consts := [0x61707865; 0x3320646e; 0x79622d32; 0x6b206574]). assert (H4 : length consts = 4%nat) by reflexivity.
  set (body := fun (i : nat) (st : list Z) => _).
  assert (Hloop : for_to 0 8 body (wrote (state_ s) 0 consts) = Done (wrote (state_ s) 0 (consts ++ (word_at key <$> seq 0 8)))).
  { destruct (for_to_inv (fun i st => st = wrote (state_ s) 0 (consts ++ (word_at key <$> seq 0 i))) body 0 8 (wrote (state_ s) 0 consts))
      as (st & -> & ->); [done| |done].
    intros i st Hi ->. unfold body. rewrite read_le32_at, bind_Done by (done || lia).
    rewrite store_wrote by (rewrite ?length_app, ?length_fmap, ?length_seq, ?H4; lia).
    eexists. split; [reflexivity|]. by rewrite seq_S, fmap_app, app_assoc. }
  assert (Hfirst : forall v, store (state_ s) 0 v = Done (wrote (state_ s) 0 [v])).
  { intros v. pose proof (store_wrote (state_ s) 0 [] v 0 eq_refl ltac:(lia)) as E. by rewrite wrote_nil in E. }
  rewrite Hfirst, bind_Done. do 3 (rewrite store_wrote, bind_Done by (cbn [length app]; lia)). cbn [app]. fold consts.
  rewrite Hloop, bind_Done.
  set (words := consts ++ (word_at key <$> seq 0 8)). assert (Hlen : length words = 12%nat) by reflexivity.
  rewrite store_wrote, bind_Done by lia.
  change (read_le32 nonce 0) with (read_le32 nonce (4 * 0)). change (read_le32 nonce 4) with (read_le32 nonce (4 * 1)).
  change (read_le32 nonce 8) with (read_le32 nonce (4 * 2)).
  rewrite (read_le32_at nonce 0), (read_le32_at nonce 1), (read_le32_at nonce 2) by (done || lia).
  do 3 (rewrite bind_Done; rewrite store_wrote, bind_Done by (rewrite ?length_app, ?Hlen; cbn [length]; lia)).
  eexists. split; [reflexivity|]. apply stands_at_counter; [done..|].
  rewrite wrote_0, drop_ge, app_nil_r by (rewrite !length_app, Hlen; cbn [length]; lia). reflexivity.
Qed.

Lemma stretch_bytes key nonce pos n : Forall byte (stretch key nonce pos n).
Proof.
  unfold stretch. apply Forall_fmap, Forall_true. intros p. unfold compose, stream. rewrite list_lookup_total_alt.
  destruct (_ !! _) eqn:E; [|cbn; unfold byte; lia]. cbn. eapply Forall_lookup_1; [apply chacha20_block_bytes|exact E].
Qed.

(** ** The theorem *)

(** C40. [chacha20] delivers RFC 8439's key stream: a new or reset object stands at the
    first byte of block [counter] and [set_counter] seeks, whatever was buffered.  From any
    position [crypt] adds the next bytes of the stream to the data and moves on, so pieces
    of any sizes continue one another and decrypting is encrypting; a request past the last
    block, byte 2^38, is refused and changes nothing; null arguments are refused. *)
Theorem chacha20_stream (key nonce working0 : list Z) (s : chacha20) (pos : nat) :
  length key = 32%nat -> Forall byte key -> length nonce = 12%nat -> Forall byte nonce -> length working0 = 16%nat ->
  stands_at key nonce s pos ->
  (forall junk c, length (state_ junk) = 16%nat -> length (keystream_ junk) = 64%nat -> u32 c ->
     exists s', chacha20_new junk (Some key) (Some nonce) c = Done s' /\ reset junk (Some key) (Some nonce) c = Done (s_ok, s')
       /\ counter s' = Done c /\ stands_at key nonce s' (64 * Z.to_nat c))
  /\ (forall c, u32 c -> exists s', set_counter s c = Done (s_ok, s') /\ stands_at key nonce s' (64 * Z.to_nat c))
  /\ (forall data, Forall byte data -> Z.of_nat (pos + length data) <= 2 ^ 38 -> exists s' out,
        crypt working0 s (Some data) (length data) = Done (s_ok, Some out, s') /\ stands_at key nonce s' (pos + length data)
        /\ out = zip_with Z.lxor data (stretch key nonce pos (length data))
        /\ exists s2, crypt working0 s (Some out) (length out) = Done (s_ok, Some data, s2) /\ stands_at key nonce s2 (pos + length data))
  /\ (forall data, Forall byte data -> 2 ^ 38 < Z.of_nat (pos + length data) ->
        crypt working0 s (Some data) (length data) = Done (s_out_of_range, Some data, s))
  /\ (forall size, (0 < size)%nat -> crypt working0 s None size = Done (s_invalid_argument, None, s))
  /\ (forall k n c, k = None \/ n = None -> reset s k n c = Done (s_invalid_argument, s)).
Proof.
  intros Hk Hkb Hn Hnb Hw Hs. split; [|split; [|split; [|split; [|split]]]].
  - intros junk c Hj Hjk Hc. destruct (reset_ok junk key nonce c) as (s' & E & Hs'); [done..|]. exists s'.
    unfold chacha20_new. cbn [is_null orb]. rewrite E, bind_Done. split_and!; [reflexivity|reflexivity| |exact Hs'].
    destruct Hs' as (_ & _ & _ & Hst & _). unfold counter. rewrite Hst.
    destruct (div_64 (64 * Z.to_nat c + 63) (Z.to_nat c) 63) as [-> _]; [lia..|]. unfold in_width in Hc.
    rewrite Z2Nat.id, Z.min_l by lia. apply load_Done. by apply initial_state_counter.
  - intros c Hc. by eapply set_counter_ok.
  - intros data Hd Hp. destruct (crypt_ok key nonce Hk Hkb Hn Hnb working0 s pos data Hw Hs Hd) as [(s' & Hs' & E) _]; [done|].
    assert (Hl : length (stretch key nonce pos (length data)) = length data) by (unfold stretch; by rewrite length_fmap, length_seq).
    exists s', (zip_with Z.lxor data (stretch key nonce pos (length data))). split_and!; [exact E|exact Hs'|reflexivity|].
    assert (Hlo : length (zip_with Z.lxor data (stretch key nonce pos (length data))) = length data) by (rewrite length_zip_with; lia).
    destruct (crypt_ok key nonce Hk Hkb Hn Hnb working0 s pos (zip_with Z.lxor data (stretch key nonce pos (length data))) Hw Hs)
      as [(s2 & Hs2 & E2) _]; [apply zip_lxor_bytes; [done|apply stretch_bytes]|by rewrite Hlo|].
    rewrite E2, Hlo in *. exists s2. split; [|exact Hs2]. by rewrite zip_lxor_involutive by lia.
  - intros data Hd Hp. by apply (crypt_ok key nonce Hk Hkb Hn Hnb working0 s pos data).
  - intros size Hsz. unfold crypt. cbn [is_null]. by rewrite (proj2 (Nat.eqb_neq _ _)) by lia.
  - intros k n c [-> | ->]; [done|by destruct k].
Qed.

Lemma chacha20_stream_witness :
  exists s, chacha20_new blank (Some rfc_key) (Some rfc_nonce) 1 = Done s
    /\ exists s' out, crypt (replicate 16 0) s (Some (chars "Ladies and Gentlemen")) 20 = Done (s_ok, Some out, s')
         /\ exists s2, crypt (replicate 16 0) s (Some out) 20 = Done (s_ok, Some (chars "Ladies and Gentlemen"), s2).
Proof.
  assert (Hk : Forall byte rfc_key) by (apply (bool_decide_unpack (Forall (fun d => 0 <= d < 256) rfc_key)); vm_compute; exact I).
  assert (Hn : Forall byte rfc_nonce) by (apply (bool_decide_unpack (Forall (fun d => 0 <= d < 256) rfc_nonce)); vm_compute; exact I).
  assert (Hd : Forall byte (chars "Ladies and Gentlemen"))
    by (apply (bool_decide_unpack (Forall (fun d => 0 <= d < 256) (chars "Ladies and Gentlemen"))); vm_compute; exact I).
  destruct (reset_ok blank rfc_key rfc_nonce 1) as (s & E & Hs); [reflexivity|reflexivity|reflexivity|exact Hk|reflexivity|exact Hn|
    unfold in_width; lia|].
  destruct (chacha20_stream rfc_key rfc_nonce (replicate 16 0) s 64 eq_refl Hk eq_refl Hn eq_refl Hs) as (_ & _ & Hc & _).
  destruct (Hc _ Hd) as (s' & out & E1 & _ & Eo & s2 & E2 & _); [cbn; lia|].
  exists s. split; [unfold chacha20_new; cbn [is_null orb]; rewrite E; reflexivity|]. exists s', out. split; [exact E1|].
  exists s2. assert (Hl : length out = 20%nat) by (rewrite Eo, length_zip_with; reflexivity). rewrite Hl in E2. exact E2.
Defined.
