(* ===== verification/XorCipher.v ===== *)
(** * The repeating-key XOR cipher (castle_ext/crypto/xor.hpp)

    Input and output are ranges of one memory, so that in-place calls and
    overlapping ranges are what they are in the code; a pointer into it is an
    address or null. *)

From S2P Require Import Prelude Status Bytes Words Ctr.
Open Scope Z_scope.

Definition address : Type := option nat.

Definition xor_apply (mem : list Z) (input output : nat) (size : nat) (key : list Z) (key_size position : nat)
    : exec (list Z * nat) :=
  for_to 0 size (fun i '(mem, position) =>
    a ← load mem (input + i); k ← load key position;
    mem ← store mem (output + i) (to_u8 (Z.lxor a k));
    let position := (position + 1)%nat in
    Done (mem, if (position =? key_size)%nat then 0%nat else position)) (mem, position).

(** The call with addresses that may be null when [size] is zero. *)
Definition apply_at (mem : list Z) (input output : address) (size : nat) (key : list Z) (key_size position : nat)
    : exec (list Z * nat) :=
  match input, output with
  | Some i, Some o => xor_apply mem i o size key key_size position
  | _, _ => if (size =? 0)%nat then Done (mem, position) else Undefined
  end.

Definition null_at (a : address) : bool := match a with None => true | Some _ => false end.

Definition xor_encrypt (mem : list Z) (input output : address) (size : nat) (key : ptr) (key_size : nat) : exec (status * list Z) :=
  match key with
  | None => Done (s_invalid_argument, mem)
  | Some key =>
      if (key_size =? 0)%nat then Done (s_invalid_argument, mem)
      else if negb (size =? 0)%nat && (null_at input || null_at output) then Done (s_invalid_argument, mem)
      else '(mem, _) ← apply_at mem input output size key key_size 0; Done (s_ok, mem)
  end.
Definition xor_encrypt_in_place (mem : list Z) (data : address) (size : nat) (key : ptr) (key_size : nat) : exec (status * list Z) :=
  xor_encrypt mem data data size key key_size.
Definition xor_decrypt (mem : list Z) (input output : address) (size : nat) (key : ptr) (key_size : nat) : exec (status * list Z) :=
  xor_encrypt mem input output size key key_size.
Definition xor_decrypt_in_place (mem : list Z) (data : address) (size : nat) (key : ptr) (key_size : nat) : exec (status * list Z) :=
  xor_encrypt mem data data size key key_size.

(** ** [xor_cipher<MaxKeySize>] *)

Record xor_cipher : Type := mk_xor_cipher { key_ : list Z; key_size_ : nat; position_ : nat }.

Section XorCipher.
Context (MaxKeySize : nat).

Definition set_key (s : xor_cipher) (key : ptr) (key_size : nat) : exec (status * xor_cipher) :=
  match key with
  | None => Done (s_invalid_argument, s)
  | Some key =>
      if (key_size =? 0)%nat then Done (s_invalid_argument, s)
      else if (MaxKeySize <? key_size)%nat then Done (s_out_of_range, s)
      else
        k ← for_to 0 key_size (fun i k => v ← load key i; store k i v) (key_ s);
        Done (s_ok, mk_xor_cipher k key_size 0)
  end.

(** [key_()] value-initialises the array. *)
Definition xor_cipher_default : xor_cipher := mk_xor_cipher (replicate MaxKeySize 0) 0 0.
Definition xor_cipher_new (key : ptr) (key_size : nat) : exec xor_cipher :=
  '(_, s) ← set_key xor_cipher_default key key_size; Done s.

Definition clear (s : xor_cipher) : exec xor_cipher :=
  k ← secure_zero (key_ s) MaxKeySize; Done (mk_xor_cipher k 0 0).
Definition reset (s : xor_cipher) : xor_cipher := mk_xor_cipher (key_ s) (key_size_ s) 0.
Definition seek (s : xor_cipher) (offset : nat) : status * xor_cipher :=
  if (key_size_ s =? 0)%nat then (s_not_configured, s)
  else (s_ok, mk_xor_cipher (key_ s) (key_size_ s) (offset mod key_size_ s)).
Definition configured (s : xor_cipher) : bool := negb (key_size_ s =? 0)%nat.

Definition encrypt (s : xor_cipher) (mem : list Z) (input output : address) (size : nat) : exec (status * list Z * xor_cipher) :=
  if (key_size_ s =? 0)%nat then Done (s_not_configured, mem, s)
  else if negb (size =? 0)%nat && (null_at input || null_at output) then Done (s_invalid_argument, mem, s)
  else
    '(mem, position) ← apply_at mem input output size (key_ s) (key_size_ s) (position_ s);
    Done (s_ok, mem, mk_xor_cipher (key_ s) (key_size_ s) position).
Definition encrypt_in_place (s : xor_cipher) (mem : list Z) (data : address) (size : nat) : exec (status * list Z * xor_cipher) :=
  encrypt s mem data data size.
Definition decrypt (s : xor_cipher) (mem : list Z) (input output : address) (size : nat) : exec (status * list Z * xor_cipher) :=
  encrypt s mem input output size.
Definition decrypt_in_place (s : xor_cipher) (mem : list Z) (data : address) (size : nat) : exec (status * list Z * xor_cipher) :=
  encrypt s mem data data size.
End XorCipher.

(** ** What the cipher adds *)

(** [n] bytes of the repeated key [k] from offset [p] on. *)
Definition pad (k : list Z) (p n : nat) : list Z := (fun i => k !!! (i mod length k)%nat) <$> seq p n.

Lemma length_pad k p n : length (pad k p n) = n.
Proof. unfold pad. by rewrite length_fmap, length_seq. Qed.

Lemma pad_snoc k p n : pad k p (S n) = pad k p n ++ [k !!! ((p + n) mod length k)%nat].
Proof. unfold pad. by rewrite seq_S, fmap_app. Qed.

Lemma pad_app k p n m : pad k p (n + m) = pad k p n ++ pad k (p + n) m.
Proof. unfold pad. by rewrite seq_app, fmap_app. Qed.

Lemma pad_bytes k p n : Forall byte k -> Forall byte (pad k p n).
Proof.
  intros Hk. apply Forall_fmap, Forall_true. intros i. unfold compose. rewrite list_lookup_total_alt.
  destruct (k !! _) eqn:E; [by eapply Forall_lookup_1 in Hk|]. cbn. unfold byte. lia.
Qed.

Lemma succ_mod p n : (0 < n)%nat -> (if (p mod n + 1 =? n)%nat then 0 else p mod n + 1)%nat = (S p mod n)%nat.
Proof.
  intros Hn. pose proof (Nat.mod_upper_bound p n ltac:(lia)). replace (S p) with (p + 1)%nat by lia.
  rewrite <-Nat.Div0.add_mod_idemp_l. destruct (Nat.eqb_spec (p mod n + 1) n) as [->|]; [by rewrite Nat.Div0.mod_same|].
  symmetry. apply Nat.mod_small. lia.
Qed.

(** Ranges for which the loop reads each byte before overwriting it. *)
Definition forward (input output size : nat) : Prop := (output <= input \/ input + size <= output)%nat.

Lemma xor_apply_ok mem input output size key k p :
  forward input output size -> (input + size <= length mem)%nat -> (output + size <= length mem)%nat ->
  Forall byte mem -> Forall byte k -> (0 < length k)%nat -> take (length k) key = k ->
  xor_apply mem input output size key (length k) (p mod length k)
  = Done (wrote mem output (zip_with Z.lxor (take size (drop input mem)) (pad k p size)), ((p + size) mod length k)%nat).
Proof.
  intros Hf Hi Ho Hm Hkb Hk Ht. unfold xor_apply. set (body := fun (i : nat) (st : list Z * nat) => _).
  set (out i := zip_with Z.lxor (take i (drop input mem)) (pad k p i)).
  assert (Hlo : forall i, (i <= size)%nat -> length (out i) = i).
  { intros i His. unfold out. rewrite length_zip_with, length_take, length_drop, length_pad. lia. }
  destruct (for_to_inv (fun i st => st = (wrote mem output (out i), ((p + i) mod length k)%nat)) body 0 size (mem, (p mod length k)%nat))
    as (st & -> & ->).
  - unfold out. rewrite Nat.add_0_r. f_equal. symmetry. apply (wrote_nil mem output).
  - intros i st Hlt ->. unfold body. destruct (lookup_lt_is_Some_2 mem (input + i)) as [a Ha]; [lia|].
    assert (Hload : wrote mem output (out i) !! (input + i)%nat = Some a).
    { rewrite wrote_outside by (rewrite Hlo by lia; unfold forward in Hf; lia). done. }
    rewrite (load_Done _ _ _ Hload), bind_Done.
    destruct (lookup_lt_is_Some_2 k ((p + i) mod length k)) as [v Hv]; [by apply Nat.mod_upper_bound; lia|].
    rewrite (load_Done key _ v), bind_Done.
    2:{ rewrite <-(lookup_take_lt key (length k)) by (apply Nat.mod_upper_bound; lia). by rewrite Ht. }
    rewrite store_wrote, bind_Done by (rewrite ?Hlo; lia). rewrite succ_mod by done. eexists. split; [done|].
    f_equal; [|f_equal; lia]. f_equal. unfold out. rewrite pad_snoc, (list_lookup_total_correct _ _ _ Hv).
    rewrite (take_S_r _ _ a) by (by rewrite lookup_drop). rewrite zip_with_app by (rewrite length_take, length_drop, length_pad; lia).
    rewrite byte_u8; [done|]. apply lxor_byte; [by eapply Forall_lookup_1 in Hm|by eapply Forall_lookup_1 in Hkb].
  - done.
Qed.

(** The object holds the key [k] and stands at offset [p] of its repetition. *)
Definition keyed (MaxKeySize : nat) (s : xor_cipher) (k : list Z) (p : nat) : Prop :=
  length (key_ s) = MaxKeySize /\ key_size_ s = length k /\ (0 < length k <= MaxKeySize)%nat /\ Forall byte k
  /\ take (length k) (key_ s) = k /\ position_ s = (p mod length k)%nat.

Lemma encrypt_ok M s k p mem i o n :
  keyed M s k p -> forward i o n -> (i + n <= length mem)%nat -> (o + n <= length mem)%nat -> Forall byte mem ->
  let s' := mk_xor_cipher (key_ s) (key_size_ s) ((p + n) mod length k) in
  encrypt s mem (Some i) (Some o) n = Done (s_ok, wrote mem o (zip_with Z.lxor (take n (drop i mem)) (pad k p n)), s')
  /\ keyed M s' k (p + n).
Proof.
  intros (Hl & Hn & Hk & Hkb & Ht & Hp) Hf Hi Ho Hm. unfold encrypt. rewrite Hn, (proj2 (Nat.eqb_neq _ _)) by lia.
  cbn [null_at orb andb]. rewrite andb_false_r. cbn [apply_at]. rewrite Hp, (xor_apply_ok _ _ _ _ _ k), bind_Done by (done || lia). done.
Qed.

Lemma set_key_stores M s key n :
  length (key_ s) = M -> (0 < n <= M)%nat -> (n <= length key)%nat -> Forall byte key ->
  exists s', set_key M s (Some key) n = Done (s_ok, s') /\ keyed M s' (take n key) 0.
Proof.
  intros Hl Hn Hk Hb. unfold set_key. rewrite (proj2 (Nat.eqb_neq _ _)), (proj2 (Nat.ltb_ge _ _)) by lia.
  set (body := fun (i : nat) (k : list Z) => _).
  destruct (for_to_inv (fun i k => k = wrote (key_ s) 0 (take i key)) body 0 n (key_ s)) as (k & -> & ->).
  - rewrite take_0. symmetry. apply (wrote_nil (key_ s) 0).
  - intros i k Hi ->. unfold body. destruct (lookup_lt_is_Some_2 key i) as [v Hv]; [lia|].
    rewrite (load_Done _ _ _ Hv), bind_Done, store_wrote by (rewrite ?length_take; lia). eexists. split; [done|].
    by rewrite (take_S_r _ _ _ Hv).
  - rewrite Nat.add_0_l, bind_Done. eexists. split; [done|].
    assert (Hln : length (take n key) = n) by (rewrite length_take; lia). unfold keyed. cbn [key_ key_size_ position_]. rewrite Hln.
    split_and!; [rewrite length_wrote; lia|done|lia|lia|by apply Forall_take| |by rewrite Nat.Div0.mod_0_l].
    pose proof (take_wrote (key_ s) (take n key)) as E. rewrite Hln in E. apply E. lia.
Qed.

(** The range a call leaves behind, and the bytes it leaves alone. *)
Lemma take_drop_wrote {A} (m : list A) o bs :
  (o + length bs <= length m)%nat -> take (length bs) (drop o (wrote m o bs)) = bs.
Proof.
  intros H. unfold wrote. rewrite drop_app_length' by (rewrite length_take; lia). apply take_app_length.
Qed.

Lemma wrote_same {A} (m : list A) o bs bs' : length bs = length bs' -> (o + length bs <= length m)%nat ->
  wrote (wrote m o bs) o bs' = wrote m o bs'.
Proof.
  intros Hl H. unfold wrote at 1. rewrite <-Hl. unfold wrote at 1. rewrite take_app_length' by (rewrite length_take; lia).
  unfold wrote. rewrite Hl. do 2 f_equal. rewrite !drop_app_ge by (rewrite ?length_take; lia). rewrite length_take, drop_drop. f_equal. lia.
Qed.

Lemma wrote_self {A} (m : list A) o n : (o + n <= length m)%nat -> wrote m o (take n (drop o m)) = m.
Proof.
  intros H. unfold wrote. rewrite length_take, length_drop, Nat.min_l by lia. rewrite <-drop_drop, take_drop. apply take_drop.
Qed.

(** Two calls on adjacent ranges are one call. *)
Lemma in_place_pieces M s k p mem o n m :
  keyed M s k p -> Forall byte mem -> (o + (n + m) <= length mem)%nat ->
  let after n := mk_xor_cipher (key_ s) (key_size_ s) ((p + n) mod length k) in
  let mem1 := wrote mem o (zip_with Z.lxor (take n (drop o mem)) (pad k p n)) in
  let mem2 := wrote mem o (zip_with Z.lxor (take (n + m) (drop o mem)) (pad k p (n + m))) in
  encrypt_in_place s mem (Some o) n = Done (s_ok, mem1, after n)
  /\ encrypt_in_place (after n) mem1 (Some (o + n)%nat) m = Done (s_ok, mem2, after (n + m)%nat)
  /\ encrypt_in_place s mem (Some o) (n + m) = Done (s_ok, mem2, after (n + m)%nat).
Proof.
  intros Hs Hm Ho. cbn zeta. unfold encrypt_in_place. assert (Hf : forall i n, forward i i n) by (intros; left; lia).
  assert (Hkb : Forall byte k) by apply Hs.
  destruct (encrypt_ok M s k p mem o o n Hs (Hf _ _)) as [E1 H1]; [lia|lia|done|].
  destruct (encrypt_ok M s k p mem o o (n + m) Hs (Hf _ _)) as [E3 _]; [lia|lia|done|]. split_and!; [done| |done].
  set (z := zip_with Z.lxor (take n (drop o mem)) (pad k p n)) in *.
  assert (Hz : length z = n) by (unfold z; rewrite length_zip_with, length_take, length_drop, length_pad; lia).
  assert (Hzb : Forall byte (wrote mem o z)).
  { unfold wrote. rewrite !Forall_app. split_and!; [by apply Forall_take| |by apply Forall_drop].
    apply zip_lxor_bytes; [by apply Forall_take, Forall_drop|by apply pad_bytes]. }
  destruct (encrypt_ok M _ k (p + n) (wrote mem o z) (o + n) (o + n) m H1 (Hf _ _)) as [E2 _]; [rewrite length_wrote; lia..|done|].
  rewrite E2. cbn [key_ key_size_]. rewrite Nat.add_assoc. do 3 f_equal.
  assert (Hd : drop (o + n) (wrote mem o z) = drop (o + n) mem).
  { unfold wrote. rewrite app_assoc, drop_app_length' by (rewrite length_app, length_take; lia). by rewrite Hz. }
  rewrite Hd, wrote_app by (rewrite ?length_zip_with, ?length_take, ?length_drop, ?length_pad; lia). f_equal.
  unfold z. rewrite pad_app, <-(take_drop n (take (n + m) (drop o mem))), take_take, Nat.min_l by lia.
  rewrite zip_with_app by (rewrite length_take, length_drop, length_pad; lia). f_equal. f_equal.
  rewrite skipn_firstn_comm, drop_drop. f_equal. lia.
Qed.

(** Adding the same pad again restores the memory. *)
Lemma in_place_undone M s k p mem o n :
  keyed M s k p -> Forall byte mem -> (o + n <= length mem)%nat ->
  decrypt_in_place (mk_xor_cipher (key_ s) (length k) (p mod length k))
    (wrote mem o (zip_with Z.lxor (take n (drop o mem)) (pad k p n))) (Some o) n
  = Done (s_ok, mem, mk_xor_cipher (key_ s) (length k) ((p + n) mod length k)).
Proof.
  intros (Hl & Hn & Hk & Hkb & Ht & Hp) Hm Ho. set (z := zip_with _ _ _).
  assert (Hz : length z = n) by (unfold z; rewrite length_zip_with, length_take, length_drop, length_pad; lia).
  assert (Hzb : Forall byte (wrote mem o z)).
  { unfold wrote. rewrite !Forall_app. split_and!; [by apply Forall_take| |by apply Forall_drop].
    apply zip_lxor_bytes; [by apply Forall_take, Forall_drop|by apply pad_bytes]. }
  unfold decrypt_in_place. destruct (encrypt_ok M (mk_xor_cipher (key_ s) (length k) (p mod length k)) k p (wrote mem o z) o o n)
    as [-> _]; [done|left; lia|rewrite length_wrote; lia..|done|]. cbn [key_ key_size_]. do 3 f_equal.
  assert (Hz2 : length (zip_with Z.lxor z (pad k p n)) = n) by (rewrite length_zip_with, length_pad; lia).
  pose proof (take_drop_wrote mem o z) as Htd. rewrite Hz in Htd. rewrite Htd by lia. rewrite wrote_same by lia.
  unfold z. rewrite zip_lxor_involutive by (rewrite length_take, length_drop, length_pad; lia). by apply wrote_self.
Qed.

(** The XOR cipher streams: a configured object adds the repetition of its key, from
    where it stands, to each byte and writes nothing else, in place or from a range it
    does not clobber; a message may be cut anywhere, seeking to where encryption began
    and decrypting in place restores the memory; keys that do not fit, null pointers and
    unconfigured objects are refused without effect, and [clear] wipes the key. *)
Theorem xor_cipher_streams (M : nat) (s : xor_cipher) (k : list Z) (p : nat) (mem : list Z) :
  keyed M s k p -> Forall byte mem ->
  (forall i o n, forward i o n -> (i + n <= length mem)%nat -> (o + n <= length mem)%nat ->
     exists s', encrypt s mem (Some i) (Some o) n
       = Done (s_ok, wrote mem o (zip_with Z.lxor (take n (drop i mem)) (pad k p n)), s') /\ keyed M s' k (p + n))
  /\ (forall o n m, (o + (n + m) <= length mem)%nat -> exists s1 mem1 s2 mem2,
        encrypt_in_place s mem (Some o) n = Done (s_ok, mem1, s1)
        /\ encrypt_in_place s1 mem1 (Some (o + n)%nat) m = Done (s_ok, mem2, s2)
        /\ encrypt_in_place s mem (Some o) (n + m) = Done (s_ok, mem2, s2)
        /\ exists s3 s4, seek s2 p = (s_ok, s3) /\ decrypt_in_place s3 mem2 (Some o) (n + m) = Done (s_ok, mem, s4))
  /\ (forall i o n, (0 < n)%nat -> i = None \/ o = None -> encrypt s mem i o n = Done (s_invalid_argument, mem, s))
  /\ (forall key n, n = 0%nat \/ key = None -> set_key M s key n = Done (s_invalid_argument, s))
  /\ (forall key n, (M < n)%nat -> set_key M s (Some key) n = Done (s_out_of_range, s))
  /\ (forall key n, (0 < n <= M)%nat -> (n <= length key)%nat -> Forall byte key ->
        exists s', set_key M s (Some key) n = Done (s_ok, s') /\ keyed M s' (take n key) 0)
  /\ (exists s', clear M s = Done s' /\ key_ s' = replicate M 0 /\ configured s' = false
        /\ (forall o, seek s' o = (s_not_configured, s'))
        /\ forall i o n, encrypt s' mem i o n = Done (s_not_configured, mem, s')).
Proof.
  intros Hs Hm. pose proof Hs as (Hl & Hn & Hk & Hkb & Ht & Hp). split; [|split; [|split; [|split; [|split; [|split]]]]].
  - intros i o n Hf Hi Ho. eexists. by apply encrypt_ok.
  - intros o n m Ho. destruct (in_place_pieces M s k p mem o n m Hs Hm Ho) as (E1 & E2 & E3).
    eexists _, _, _, _. split_and!; [exact E1|exact E2|exact E3|]. eexists _, _. split.
    { unfold seek. cbn [key_size_ key_]. rewrite (proj2 (Nat.eqb_neq _ _)) by lia. reflexivity. }
    rewrite Hn. apply (in_place_undone M s k p); [done..|lia].
  - intros i o n Hz [-> | ->]; unfold encrypt; rewrite Hn, !(proj2 (Nat.eqb_neq _ _)) by lia; [done|]. by rewrite orb_true_r.
  - intros key n [-> | ->]; [by destruct key|done].
  - intros key n HM. unfold set_key. rewrite (proj2 (Nat.eqb_neq _ _)) by lia. by rewrite (proj2 (Nat.ltb_lt _ _)) by lia.
  - intros key n H1 H2 H3. by apply set_key_stores.
  - unfold clear. rewrite secure_zero_wipes, bind_Done by lia. eexists. split; [done|]. cbn [key_].
    rewrite wrote_0, drop_ge, app_nil_r by (rewrite length_replicate; lia). done.
Qed.

Lemma xor_cipher_streams_witness :
  exists s, xor_cipher_new 32 (Some (chars "key")) 3 = Done s /\ keyed 32 s (chars "key") 0
    /\ exists s1 mem1, encrypt_in_place s (chars "secret message") (Some 0%nat) 6 = Done (s_ok, mem1, s1)
    /\ mem1 = [24; 0; 26; 25; 0; 13] ++ chars " message".
Proof.
  assert (Hb : Forall byte (chars "secret message")) by (apply (bool_decide_unpack (Forall (fun d => 0 <= d < 256) _)); vm_compute; exact I).
  assert (Hkb : Forall byte (chars "key")) by (apply (bool_decide_unpack (Forall (fun d => 0 <= d < 256) _)); vm_compute; exact I).
  assert (Hs : keyed 32 (mk_xor_cipher (chars "key" ++ replicate 29 0) 3 0) (chars "key") 0).
  { unfold keyed. split; [reflexivity|split; [reflexivity|split; [cbn; lia|split; [exact Hkb|split; reflexivity]]]]. }
  exists (mk_xor_cipher (chars "key" ++ replicate 29 0) 3 0). split; [reflexivity|]. split; [exact Hs|].
  destruct (xor_cipher_streams 32 _ (chars "key") 0 (chars "secret message") Hs Hb) as (H & _).
  destruct (H 0%nat 0%nat 6%nat) as (s' & E & _); [left; lia|cbn; lia|cbn; lia|]. eexists s', _. split; [exact E|reflexivity].
Defined.
