(* ===== verification/Sm4.v ===== *)
(** * The SM4 block cipher (castle_ext/crypto/sm4.hpp)

    The cipher object is its [round_keys_] array.  Local arrays start out
    indeterminate in the code and as zeros here: every element is written before
    it is read.  Wiping locals with [secure_zero] has no effect on the results. *)

From S2P Require Import Prelude Status Bytes Ctr.
Open Scope Z_scope.

Definition sm4_sbox : list Z :=
  [214; 144; 233; 254; 204; 225; 61; 183; 22; 182; 20; 194; 40; 251; 44; 5;
   43; 103; 154; 118; 42; 190; 4; 195; 170; 68; 19; 38; 73; 134; 6; 153;
   156; 66; 80; 244; 145; 239; 152; 122; 51; 84; 11; 67; 237; 207; 172; 98;
   228; 179; 28; 169; 201; 8; 232; 149; 128; 223; 148; 250; 117; 143; 63; 166;
   71; 7; 167; 252; 243; 115; 23; 186; 131; 89; 60; 25; 230; 133; 79; 168;
   104; 107; 129; 178; 113; 100; 218; 139; 248; 235; 15; 75; 112; 86; 157; 53;
   30; 36; 14; 94; 99; 88; 209; 162; 37; 34; 124; 59; 1; 33; 120; 135;
   212; 0; 70; 87; 159; 211; 39; 82; 76; 54; 2; 231; 160; 196; 200; 158;
   234; 191; 138; 210; 64; 199; 56; 181; 163; 247; 242; 206; 249; 97; 21; 161;
   224; 174; 93; 164; 155; 52; 26; 85; 173; 147; 50; 48; 245; 140; 177; 227;
   29; 246; 226; 46; 130; 102; 202; 96; 192; 41; 35; 171; 13; 83; 78; 111;
   213; 219; 55; 69; 222; 253; 142; 47; 3; 255; 106; 114; 109; 108; 91; 81;
   141; 27; 175; 146; 187; 221; 188; 127; 17; 217; 92; 65; 31; 16; 90; 216;
   10; 193; 49; 136; 165; 205; 123; 189; 45; 116; 208; 18; 184; 229; 180; 176;
   137; 105; 151; 74; 12; 150; 119; 126; 101; 185; 241; 9; 197; 110; 198; 132;
   24; 240; 125; 236; 58; 220; 77; 32; 121; 238; 95; 62; 215; 203; 57; 72].
Definition sm4_fk : list Z :=
  [2746333894; 1453994832; 1736282519; 2993693404].
Definition sm4_ck : list Z :=
  [462357; 472066609; 943670861; 1415275113;
   1886879365; 2358483617; 2830087869; 3301692121;
   3773296373; 4228057617; 404694573; 876298825;
   1347903077; 1819507329; 2291111581; 2762715833;
   3234320085; 3705924337; 4177462797; 337322537;
   808926789; 1280531041; 1752135293; 2223739545;
   2695343797; 3166948049; 3638552301; 4110090761;
   269950501; 741554753; 1213159005; 1684763257].

Definition sm4_tau (value : Z) : exec Z :=
  s3 ← load sm4_sbox (Z.to_nat (Z.land (Z.shiftr value 24) 255));
  s2 ← load sm4_sbox (Z.to_nat (Z.land (Z.shiftr value 16) 255));
  s1 ← load sm4_sbox (Z.to_nat (Z.land (Z.shiftr value 8) 255));
  s0 ← load sm4_sbox (Z.to_nat (Z.land value 255));
  Done (Z.lor (Z.lor (Z.lor (to_u32 (Z.shiftl s3 24)) (to_u32 (Z.shiftl s2 16))) (to_u32 (Z.shiftl s1 8))) s0).

Definition sm4_l (value : Z) : exec Z :=
  r2 ← rotl32 value 2; r10 ← rotl32 value 10; r18 ← rotl32 value 18; r24 ← rotl32 value 24;
  Done (Z.lxor (Z.lxor (Z.lxor (Z.lxor value r2) r10) r18) r24).
Definition sm4_l_key (value : Z) : exec Z :=
  r13 ← rotl32 value 13; r23 ← rotl32 value 23;
  Done (Z.lxor (Z.lxor value r13) r23).
Definition sm4_t (value : Z) : exec Z := t ← sm4_tau value; sm4_l t.
Definition sm4_t_key (value : Z) : exec Z := t ← sm4_tau value; sm4_l_key t.

Definition rounds : nat := 32.

Definition set_key_body (i : nat) (st : list Z * list Z) : exec (list Z * list Z) :=
  let '(k, round_keys_) := st in
  k0 ← load k i; k1 ← load k (i + 1); k2 ← load k (i + 2); k3 ← load k (i + 3); ck ← load sm4_ck i;
  t ← sm4_t_key (Z.lxor (Z.lxor (Z.lxor k1 k2) k3) ck);
  k ← store k (i + 4) (Z.lxor k0 t);
  k4 ← load k (i + 4);
  round_keys_ ← store round_keys_ i k4;
  Done (k, round_keys_).

Definition set_key (round_keys_ : list Z) (key : ptr) : exec (status * list Z) :=
  match key with
  | None => Done (s_invalid_argument, round_keys_)
  | Some key =>
      let k := replicate 36 0 in
      w ← read_be32 key 0; f ← load sm4_fk 0; k ← store k 0 (Z.lxor w f);
      w ← read_be32 key 4; f ← load sm4_fk 1; k ← store k 1 (Z.lxor w f);
      w ← read_be32 key 8; f ← load sm4_fk 2; k ← store k 2 (Z.lxor w f);
      w ← read_be32 key 12; f ← load sm4_fk 3; k ← store k 3 (Z.lxor w f);
      r ← for_to 0 rounds set_key_body (k, round_keys_);
      Done (s_ok, r.2)
  end.

(** The constructors; a null key counts as zeros. *)
Definition sm4_new (key : ptr) : exec (list Z) :=
  r ← set_key (replicate rounds 0) (Some (match key with Some k => k | None => replicate 16 0 end));
  Done r.2.

Definition crypt_round (round_keys_ : list Z) (decrypt : bool) (i : nat) (x : list Z) : exec (list Z) :=
  let key_index := if decrypt then (rounds - 1 - i)%nat else i in
  x0 ← load x i; x1 ← load x (i + 1); x2 ← load x (i + 2); x3 ← load x (i + 3);
  rk ← load round_keys_ key_index;
  t ← sm4_t (Z.lxor (Z.lxor (Z.lxor x1 x2) x3) rk);
  store x (i + 4) (Z.lxor x0 t).

Definition crypt_block (round_keys_ : list Z) (input output : ptr) (decrypt : bool) : exec ptr :=
  match input, output with
  | Some input, Some output =>
      let x := replicate 36 0 in
      w ← read_be32 input 0; x ← store x 0 w;
      w ← read_be32 input 4; x ← store x 1 w;
      w ← read_be32 input 8; x ← store x 2 w;
      w ← read_be32 input 12; x ← store x 3 w;
      x ← for_to 0 rounds (crypt_round round_keys_ decrypt) x;
      x35 ← load x 35; x34 ← load x 34; x33 ← load x 33; x32 ← load x 32;
      o ← (o ← write_be32 output 0 x35; o ← write_be32 o 4 x34; o ← write_be32 o 8 x33; write_be32 o 12 x32);
      Done (Some o)
  | _, _ => Done output
  end.

Definition encrypt_block (round_keys_ : list Z) (input output : ptr) : exec ptr :=
  crypt_block round_keys_ input output false.
Definition decrypt_block (round_keys_ : list Z) (input output : ptr) : exec ptr :=
  crypt_block round_keys_ input output true.

Definition crypt_ctr (round_keys_ : list Z) (data : ptr) (size : nat) (counter_block : ptr)
    : exec (status * ptr * ptr) :=
  Ctr.crypt_ctr (encrypt_block round_keys_) increment_ctr_counter (replicate 16 0) data size counter_block.

(** The test vector of GB/T 32907: key and plain text 0123456789ABCDEFFEDCBA9876543210. *)
Definition vector : list Z := [1; 35; 69; 103; 137; 171; 205; 239; 254; 220; 186; 152; 118; 84; 50; 16].
Example sm4_vector :
  (rk ← sm4_new (Some vector); encrypt_block rk (Some vector) (Some (replicate 16 0)))
  = Done (Some [104; 30; 223; 52; 210; 6; 150; 94; 134; 179; 233; 79; 83; 110; 66; 70]).
Proof. vm_compute. reflexivity. Qed.

(** ** The round function is total on words *)

Lemma sm4_sbox_ok : length sm4_sbox = 256%nat /\ Forall byte sm4_sbox.
Proof. split; [done|]. apply (bool_decide_unpack (Forall (fun d => 0 <= d < 256) sm4_sbox)). vm_compute. exact I. Qed.

Lemma sm4_tau_total v : exists r, sm4_tau v = Done r /\ u32 r.
Proof.
  destruct sm4_sbox_ok as [Hl Hb]. unfold sm4_tau.
  destruct (table_load sm4_sbox (Z.land (Z.shiftr v 24) 255)) as (s3 & -> & H3); [done..|apply land_byte|].
  destruct (table_load sm4_sbox (Z.land (Z.shiftr v 16) 255)) as (s2 & -> & H2); [done..|apply land_byte|].
  destruct (table_load sm4_sbox (Z.land (Z.shiftr v 8) 255)) as (s1 & -> & H1); [done..|apply land_byte|].
  destruct (table_load sm4_sbox (Z.land v 255)) as (s0 & -> & H0); [done..|apply land_byte|].
  exec_simpl. eexists. split; [done|]. apply (byte_width 32) in H0; [|lia]. auto 6 with castle.
Qed.

Lemma sm4_t_total v : exists r, sm4_t v = Done r /\ u32 r.
Proof.
  unfold sm4_t, sm4_l. destruct (sm4_tau_total v) as (t & -> & Ht). exec_simpl.
  destruct (rotl32_total t 2) as (r2 & -> & H2); [lia|]. exec_simpl.
  destruct (rotl32_total t 10) as (r10 & -> & H10); [lia|]. exec_simpl.
  destruct (rotl32_total t 18) as (r18 & -> & H18); [lia|]. exec_simpl.
  destruct (rotl32_total t 24) as (r24 & -> & H24); [lia|]. exec_simpl.
  eexists. split; [done|]. auto 6 with castle.
Qed.

Lemma sm4_t_key_total v : exists r, sm4_t_key v = Done r /\ u32 r.
Proof.
  unfold sm4_t_key, sm4_l_key. destruct (sm4_tau_total v) as (t & -> & Ht). exec_simpl.
  destruct (rotl32_total t 13) as (r2 & -> & H2); [lia|]. exec_simpl.
  destruct (rotl32_total t 23) as (r10 & -> & H10); [lia|]. exec_simpl.
  eexists. split; [done|]. auto 6 with castle.
Qed.

(** The value of [sm4_t]. *)
Definition T (v : Z) : Z := match sm4_t v with Done r => r | Undefined => 0 end.

Lemma sm4_t_T v : sm4_t v = Done (T v) /\ u32 (T v).
Proof. unfold T. destruct (sm4_t_total v) as (r & -> & Hr). done. Qed.

(** ** The key schedule *)

Definition schedule (rk : list Z) : Prop := length rk = 32%nat /\ Forall u32 rk.

Lemma sm4_fk_ck : Forall u32 sm4_fk /\ Forall u32 sm4_ck.
Proof.
  split; [apply (bool_decide_unpack (Forall (fun d => 0 <= d < 4294967296) sm4_fk))
         |apply (bool_decide_unpack (Forall (fun d => 0 <= d < 4294967296) sm4_ck))]; vm_compute; exact I.
Qed.

Lemma set_key_body_ok i k rk :
  (i < 32)%nat -> length k = 36%nat -> Forall u32 k -> schedule rk ->
  exists k' rk', set_key_body i (k, rk) = Done (k', rk') /\ length k' = 36%nat /\ Forall u32 k' /\ schedule rk'.
Proof.
  intros Hi Hk Hku [Hrl Hru]. unfold set_key_body.
  destruct (load_in u32 k i) as (k0 & -> & H0); [done|lia|]. exec_simpl.
  destruct (load_in u32 k (i + 1)) as (k1 & -> & H1); [done|lia|]. exec_simpl.
  destruct (load_in u32 k (i + 2)) as (k2 & -> & H2); [done|lia|]. exec_simpl.
  destruct (load_in u32 k (i + 3)) as (k3 & -> & H3); [done|lia|]. exec_simpl.
  destruct (load_in u32 sm4_ck i) as (ck & -> & Hc); [apply sm4_fk_ck|cbn; lia|]. exec_simpl.
  destruct (sm4_t_key_total (Z.lxor (Z.lxor (Z.lxor k1 k2) k3) ck)) as (t & -> & Ht). exec_simpl.
  destruct (store_in u32 k (i + 4) (Z.lxor k0 t)) as (k' & -> & Hk' & Hlk & Hget); [done|auto with castle|lia|].
  exec_simpl. rewrite (load_Done _ _ _ Hget). exec_simpl.
  destruct (store_in u32 rk i (Z.lxor k0 t)) as (rk' & -> & Hrk' & Hlr & _); [done|auto with castle|lia|].
  exec_simpl. exists k', rk'. split_and!; [done|lia|done|]. split; [lia|done].
Qed.

Lemma sm4_set_key_ok rk key :
  schedule rk -> length key = 16%nat -> Forall byte key ->
  exists rk', set_key rk (Some key) = Done (s_ok, rk') /\ schedule rk'.
Proof.
  intros Hrk Hl Hb. destruct (block_words32 key Hl Hb) as (w0 & w1 & w2 & w3 & H0 & H1 & H2 & H3 & ->).
  destruct (read_block32 w0 w1 w2 w3) as (R0 & R1 & R2 & R3); [done..|].
  unfold set_key. rewrite R0, R1, R2, R3. exec_simpl.
  assert (Hf : Forall u32 sm4_fk) by apply sm4_fk_ck. unfold sm4_fk in *. rewrite !Forall_cons in Hf.
  destruct Hf as (F0 & F1 & F2 & F3 & _). cbn [load lookup list_lookup]. exec_simpl.
  set (k := replicate 36 0). assert (Hk : Forall u32 k) by (apply Forall_replicate; done).
  destruct (store_in u32 k 0 (Z.lxor w0 2746333894)) as (k1 & -> & Hk1 & L1 & _); [done|auto with castle|cbn; lia|].
  exec_simpl.
  destruct (store_in u32 k1 1 (Z.lxor w1 1453994832)) as (k2 & -> & Hk2 & L2 & _); [done|auto with castle|rewrite L1; cbn; lia|].
  exec_simpl.
  destruct (store_in u32 k2 2 (Z.lxor w2 1736282519)) as (k3 & -> & Hk3 & L3 & _); [done|auto with castle|rewrite L2, L1; cbn; lia|].
  exec_simpl.
  destruct (store_in u32 k3 3 (Z.lxor w3 2993693404)) as (k4 & -> & Hk4 & L4 & _); [done|auto with castle|rewrite L3, L2, L1; cbn; lia|].
  exec_simpl.
  destruct (for_to_inv (fun _ st => length st.1 = 36%nat /\ Forall u32 st.1 /\ schedule st.2) set_key_body
    0 rounds (k4, rk)) as ([k' rk'] & -> & _ & _ & Hs); cbn [fst snd] in *.
  - split_and!; [by rewrite L4, L3, L2, L1|done|done].
  - intros i [k5 rk5] Hi (A1 & A2 & A3). destruct (set_key_body_ok i k5 rk5) as (k6 & rk6 & E6 & B1 & B2 & B3);
      [unfold rounds in Hi; lia|done..|]. by exists (k6, rk6).
  - exec_simpl. by exists rk'.
Qed.

(** ** A round as a permutation of four words *)

Definition words : Type := Z * Z * Z * Z.
Definition step (s : words) (rk : Z) : words :=
  let '(a, b, c, d) := s in (b, c, d, Z.lxor a (T (Z.lxor (Z.lxor (Z.lxor b c) d) rk))).
Definition flip_words (s : words) : words := let '(a, b, c, d) := s in (d, c, b, a).

(** Undoing a round is the same round on the reversed words. *)
Lemma step_flip s k : step (flip_words (step s k)) k = flip_words s.
Proof.
  destruct s as [[[a b] c] d]. cbn [step flip_words]. f_equal.
  replace (Z.lxor (Z.lxor (Z.lxor d c) b) k) with (Z.lxor (Z.lxor (Z.lxor b c) d) k).
  - by rewrite Z.lxor_assoc, Z.lxor_nilpotent, Z.lxor_0_r.
  - f_equal. by rewrite (Z.lxor_comm (Z.lxor b c) d), (Z.lxor_comm b c), <-Z.lxor_assoc.
Qed.

Lemma steps_flip ks s :
  fold_left step (reverse ks) (flip_words (fold_left step ks s)) = flip_words s.
Proof.
  revert s. induction ks as [|k ks IH] using rev_ind; intros s; [done|].
  rewrite fold_left_app, reverse_app. cbn [reverse rev_append fold_left app].
  by rewrite step_flip, IH.
Qed.

Definition words_ok (s : words) : Prop :=
  let '(a, b, c, d) := s in u32 a /\ u32 b /\ u32 c /\ u32 d.

Lemma steps_ok ks s : words_ok s -> words_ok (fold_left step ks s).
Proof.
  revert s. induction ks as [|k ks IH]; intros s Hs; [done|]. cbn [fold_left]. apply IH.
  destruct s as [[[a b] c] d]. destruct Hs as (Ha & Hb & Hc & Hd). cbn.
  split_and!; [done..|]. apply lxor_in_width; [lia|done|apply sm4_t_T].
Qed.

Definition key_order (rk : list Z) (decrypt : bool) : list Z := if decrypt then reverse rk else rk.

(** The window of four words the round [i] works on. *)
Definition window (x : list Z) (i : nat) (s : words) : Prop :=
  let '(a, b, c, d) := s in
  x !! i = Some a /\ x !! (i + 1)%nat = Some b /\ x !! (i + 2)%nat = Some c /\ x !! (i + 3)%nat = Some d.

Lemma crypt_round_ok rk decrypt i x s :
  length rk = 32%nat -> (i < 32)%nat -> length x = 36%nat -> window x i s ->
  exists k x', key_order rk decrypt !! i = Some k /\ crypt_round rk decrypt i x = Done x'
    /\ length x' = 36%nat /\ window x' (S i) (step s k).
Proof.
  intros Hrk Hi Hx Hw. destruct s as [[[a b] c] d]. destruct Hw as (Ha & Hb & Hc & Hd).
  unfold crypt_round. rewrite (load_Done _ _ _ Ha), (load_Done _ _ _ Hb), (load_Done _ _ _ Hc), (load_Done _ _ _ Hd).
  exec_simpl.
  assert (exists k, key_order rk decrypt !! i = Some k
            /\ load rk (if decrypt then (rounds - 1 - i)%nat else i) = Done k) as (k & Hk & ->).
  { unfold key_order, rounds. destruct decrypt.
    - destruct (lookup_lt_is_Some_2 rk (32 - 1 - i)%nat) as [k Hk]; [lia|]. exists k.
      split; [|by apply load_Done]. rewrite reverse_lookup by lia. rewrite Hrk. by replace (32 - S i)%nat with (32 - 1 - i)%nat by lia.
    - destruct (lookup_lt_is_Some_2 rk i) as [k Hk]; [lia|]. exists k. split; [done|by apply load_Done]. }
  exec_simpl. destruct (sm4_t_T (Z.lxor (Z.lxor (Z.lxor b c) d) k)) as [-> _]. exec_simpl.
  rewrite store_Done by lia. exists k. eexists. split_and!; [done|done|by rewrite length_insert|].
  cbn [step window]. replace (S i) with (i + 1)%nat by lia.
  replace (i + 1 + 1)%nat with (i + 2)%nat by lia. replace (i + 1 + 2)%nat with (i + 3)%nat by lia.
  replace (i + 1 + 3)%nat with (i + 4)%nat by lia.
  rewrite list_lookup_insert_eq by lia. rewrite !list_lookup_insert_ne by lia. done.
Qed.

(** The bytes of four words, and the block a permutation of words makes of them. *)
Definition block_of (s : words) : list Z :=
  let '(a, b, c, d) := s in be_bytes 4 a ++ be_bytes 4 b ++ be_bytes 4 c ++ be_bytes 4 d.

Lemma crypt_block_words rk decrypt s out :
  length rk = 32%nat -> words_ok s -> length out = 16%nat ->
  crypt_block rk (Some (block_of s)) (Some out) decrypt
  = Done (Some (block_of (flip_words (fold_left step (key_order rk decrypt) s)))).
Proof.
  intros Hrk Hs Hout. destruct s as [[[w0 w1] w2] w3]. pose proof Hs as (H0 & H1 & H2 & H3).
  unfold crypt_block. cbn [block_of]. destruct (read_block32 w0 w1 w2 w3) as (-> & -> & -> & ->); [done..|].
  exec_simpl. cbv zeta. set (x0 := replicate 36 0).
  rewrite (store_Done x0) by (cbn; lia). exec_simpl.
  rewrite (store_Done (<[0%nat:=w0]> x0)) by (cbn; lia). exec_simpl.
  rewrite (store_Done (<[1%nat:=w1]> _)) by (cbn; lia). exec_simpl.
  rewrite (store_Done (<[2%nat:=w2]> _)) by (cbn; lia). exec_simpl.
  destruct (for_to_inv (fun i x => length x = 36%nat /\ window x i (fold_left step (take i (key_order rk decrypt)) (w0, w1, w2, w3)))
    (crypt_round rk decrypt) 0 rounds (<[3%nat:=w3]> (<[2%nat:=w2]> (<[1%nat:=w1]> (<[0%nat:=w0]> x0)))))
    as (x & -> & Hx & Hw).
  - done.
  - intros i x Hi [Hx Hw]. destruct (crypt_round_ok rk decrypt i x _ Hrk ltac:(unfold rounds in Hi; lia) Hx Hw)
      as (k & x' & Hk & Hr & Hx' & Hw'). exists x'. split_and!; [done..|].
    by rewrite (take_S_r _ _ k), fold_left_app.
  - cbn [Nat.add] in Hw. unfold rounds in Hw. rewrite take_ge in Hw.
    2: { unfold key_order. destruct decrypt; rewrite ?length_reverse; lia. }
    destruct (fold_left step (key_order rk decrypt) (w0, w1, w2, w3)) as [[[a b] c] d].
    destruct Hw as (Ha & Hb & Hc & Hd). cbn [Nat.add] in Hb, Hc, Hd. exec_simpl.
    rewrite (load_Done _ _ _ Ha), (load_Done _ _ _ Hb), (load_Done _ _ _ Hc), (load_Done _ _ _ Hd). exec_simpl.
    rewrite write_block32 by done. done.
Qed.

Lemma block_of_words b :
  length b = 16%nat -> Forall byte b -> exists s, words_ok s /\ b = block_of s.
Proof.
  intros Hl Hb. destruct (block_words32 b Hl Hb) as (w0 & w1 & w2 & w3 & H0 & H1 & H2 & H3 & ->).
  by exists (w0, w1, w2, w3).
Qed.

Lemma sm4_block_of_block s : length (block_of s) = 16%nat /\ Forall byte (block_of s).
Proof.
  destruct s as [[[a b] c] d]. cbn [block_of]. rewrite !length_app, !length_be_bytes_of. split; [done|].
  rewrite !Forall_app. auto using be_bytes_bytes.
Qed.

(** The permutation of blocks under a key schedule. *)
Definition E (rk : list Z) (b : list Z) : list Z :=
  match crypt_block rk (Some b) (Some (replicate 16 0)) false with Done (Some o) => o | _ => [] end.

Lemma E_words rk s : length rk = 32%nat -> words_ok s -> E rk (block_of s) = block_of (flip_words (fold_left step rk s)).
Proof. intros Hrk Hs. unfold E. by rewrite crypt_block_words. Qed.

#[export] Instance sm4_block_cipher rk : schedule rk -> BlockCipher (encrypt_block rk) (E rk).
Proof.
  intros [Hrk _]. split.
  - intros b out Hl Hb Ho. destruct (block_of_words b Hl Hb) as (s & Hs & ->).
    unfold encrypt_block. by rewrite E_words, crypt_block_words.
  - intros b Hl Hb. destruct (block_of_words b Hl Hb) as (s & Hs & ->). rewrite E_words by done. apply sm4_block_of_block.
Qed.

(** SM4 is invertible and its counter mode is sound: under every key of 16 bytes
    the key schedule succeeds, decrypting an encrypted block and encrypting a decrypted
    one give back the block, and [crypt_ctr] is an involution from a given counter that
    can be resumed at any block boundary and refuses to wrap the counter. *)
Theorem sm4_roundtrip key :
  length key = 16%nat -> Forall byte key ->
  exists rk, sm4_new (Some key) = Done rk /\ schedule rk
    /\ (forall b out out', length b = 16%nat -> Forall byte b -> length out = 16%nat -> length out' = 16%nat ->
          exists c, length c = 16%nat /\ Forall byte c
            /\ encrypt_block rk (Some b) (Some out) = Done (Some c)
            /\ decrypt_block rk (Some c) (Some out') = Done (Some b))
    /\ (forall b out out', length b = 16%nat -> Forall byte b -> length out = 16%nat -> length out' = 16%nat ->
          exists p, length p = 16%nat /\ Forall byte p
            /\ decrypt_block rk (Some b) (Some out) = Done (Some p)
            /\ encrypt_block rk (Some p) (Some out') = Done (Some b))
    /\ ctr_mode (encrypt_block rk) increment_ctr_counter.
Proof.
  intros Hl Hb. destruct (sm4_set_key_ok (replicate 32 0) key) as (rk & E1 & Hrk); [|done..|].
  { split; [done|]. by apply Forall_replicate. }
  exists rk. unfold sm4_new, rounds. rewrite E1. exec_simpl. destruct Hrk as [Hrl Hru]. split_and!; [done|done|..].
  - intros b out out' Hbl Hbb Ho Ho'. destruct (block_of_words b Hbl Hbb) as (s & Hs & ->).
    set (s' := flip_words (fold_left step rk s)).
    assert (Hs' : words_ok s').
    { unfold s'. pose proof (steps_ok rk s Hs) as H. destruct (fold_left step rk s) as [[[? ?] ?] ?].
      cbn in *. tauto. }
    exists (block_of s'). destruct (sm4_block_of_block s') as [? ?]. split_and!; [done..| |].
    + unfold encrypt_block. by rewrite crypt_block_words.
    + unfold decrypt_block. rewrite crypt_block_words by done. unfold key_order, s'. rewrite steps_flip.
      by destruct s as [[[? ?] ?] ?].
  - intros b out out' Hbl Hbb Ho Ho'. destruct (block_of_words b Hbl Hbb) as (s & Hs & ->).
    set (s' := flip_words (fold_left step (reverse rk) s)).
    assert (Hs' : words_ok s').
    { unfold s'. pose proof (steps_ok (reverse rk) s Hs) as H. destruct (fold_left step (reverse rk) s) as [[[? ?] ?] ?].
      cbn in *. tauto. }
    exists (block_of s'). destruct (sm4_block_of_block s') as [? ?]. split_and!; [done..| |].
    + unfold decrypt_block. by rewrite crypt_block_words.
    + unfold encrypt_block. rewrite crypt_block_words by done. unfold key_order, s'.
      rewrite <-(reverse_involutive rk) at 1. rewrite steps_flip. by destruct s as [[[? ?] ?] ?].
  - by eapply ctr_mode_ok; [apply sm4_block_cipher|apply _].
Qed.

Lemma sm4_roundtrip_witness :
  exists rk c, sm4_new (Some vector) = Done rk
    /\ encrypt_block rk (Some vector) (Some (replicate 16 0)) = Done (Some c)
    /\ decrypt_block rk (Some c) (Some (replicate 16 0)) = Done (Some vector).
Proof.
  assert (Hb : Forall byte vector) by (repeat constructor; unfold byte; lia).
  destruct (sm4_roundtrip vector eq_refl Hb) as (rk & H1 & _ & H2 & _).
  destruct (H2 vector (replicate 16 0) (replicate 16 0) eq_refl Hb eq_refl eq_refl) as (c & _ & _ & H3 & H4).
  exists rk, c. split; [exact H1|]. split; [exact H3|exact H4].
Defined.
