(* ===== verification/Camellia.v ===== *)
(** * The Camellia block cipher (castle_ext/crypto/camellia.hpp)

    [KeyBits] is 128, 192 or 256.  A pair of 64-bit words is a [Z * Z], high word
    first. *)

From S2P Require Import Prelude Status Bytes Ctr.
Open Scope Z_scope.

Definition camellia_sbox1 : list Z :=
  [112; 130; 44; 236; 179; 39; 192; 229; 228; 133; 87; 53; 234; 12; 174; 65;
   35; 239; 107; 147; 69; 25; 165; 33; 237; 14; 79; 78; 29; 101; 146; 189;
   134; 184; 175; 143; 124; 235; 31; 206; 62; 48; 220; 95; 94; 197; 11; 26;
   166; 225; 57; 202; 213; 71; 93; 61; 217; 1; 90; 214; 81; 86; 108; 77;
   139; 13; 154; 102; 251; 204; 176; 45; 116; 18; 43; 32; 240; 177; 132; 153;
   223; 76; 203; 194; 52; 126; 118; 5; 109; 183; 169; 49; 209; 23; 4; 215;
   20; 88; 58; 97; 222; 27; 17; 28; 50; 15; 156; 22; 83; 24; 242; 34;
   254; 68; 207; 178; 195; 181; 122; 145; 36; 8; 232; 168; 96; 252; 105; 80;
   170; 208; 160; 125; 161; 137; 98; 151; 84; 91; 30; 149; 224; 255; 100; 210;
   16; 196; 0; 72; 163; 247; 117; 219; 138; 3; 230; 218; 9; 63; 221; 148;
   135; 92; 131; 2; 205; 74; 144; 51; 115; 103; 246; 243; 157; 127; 191; 226;
   82; 155; 216; 38; 200; 55; 198; 59; 129; 150; 111; 75; 19; 190; 99; 46;
   233; 121; 167; 140; 159; 110; 188; 142; 41; 245; 249; 182; 47; 253; 180; 89;
   120; 152; 6; 106; 231; 70; 113; 186; 212; 37; 171; 66; 136; 162; 141; 250;
   114; 7; 185; 85; 248; 238; 172; 10; 54; 73; 42; 104; 60; 56; 241; 164;
   64; 40; 211; 123; 187; 201; 67; 193; 21; 227; 173; 244; 119; 199; 128; 158].
Definition camellia_sigma : list Z :=
  [11573800789038895243; 13149077528002589618;
   14334736817860870846; 6124705990439038748;
   1217423232700263709; 12706493768495710717].

Definition camellia_rotl8 (value count : Z) : Z :=
  to_u8 (Z.lor (to_u32 (Z.shiftl value count)) (Z.shiftr value (8 - count))).

(** A shift of a 64-bit word by its width or more is undefined. *)
Definition shl64 (v n : Z) : exec Z := n ← shift 64 n; Done (to_u64 (Z.shiftl v n)).
Definition shr64 (v n : Z) : exec Z := n ← shift 64 n; Done (Z.shiftr v n).

Definition camellia_rotl128 (x : Z * Z) (count : Z) : exec (Z * Z) :=
  let '(hi, lo) := x in
  let count := count mod 128 in
  if count =? 0 then Done (hi, lo)
  else if count <? 64 then
    a ← shl64 hi count; b ← shr64 lo (64 - count);
    c ← shl64 lo count; d ← shr64 hi (64 - count);
    Done (Z.lor a b, Z.lor c d)
  else
    let shift := count - 64 in
    if shift =? 0 then Done (lo, hi)
    else
      a ← shl64 lo shift; b ← shr64 hi (64 - shift);
      c ← shl64 hi shift; d ← shr64 lo (64 - shift);
      Done (Z.lor a b, Z.lor c d).

Definition camellia_f (input key : Z) : exec Z :=
  let x := Z.lxor input key in
  let sbox i := load camellia_sbox1 (Z.to_nat i) in
  t1 ← sbox (Z.land (Z.shiftr x 56) 255);
  t2 ← sbox (Z.land (Z.shiftr x 48) 255); let t2 := camellia_rotl8 t2 1 in
  t3 ← sbox (Z.land (Z.shiftr x 40) 255); let t3 := camellia_rotl8 t3 7 in
  let t4_index := to_u8 (Z.lor (Z.shiftl (Z.land (Z.shiftr x 32) 255) 1) (Z.shiftr (Z.land (Z.shiftr x 32) 255) 7)) in
  t4 ← sbox t4_index;
  t5 ← sbox (Z.land (Z.shiftr x 24) 255); let t5 := camellia_rotl8 t5 1 in
  t6 ← sbox (Z.land (Z.shiftr x 16) 255); let t6 := camellia_rotl8 t6 7 in
  let t7_index := to_u8 (Z.lor (Z.shiftl (Z.land (Z.shiftr x 8) 255) 1) (Z.shiftr (Z.land (Z.shiftr x 8) 255) 7)) in
  t7 ← sbox t7_index;
  t8 ← sbox (Z.land x 255);
  let y1 := to_u8 (Z.lxor (Z.lxor (Z.lxor (Z.lxor (Z.lxor t1 t3) t4) t6) t7) t8) in
  let y2 := to_u8 (Z.lxor (Z.lxor (Z.lxor (Z.lxor (Z.lxor t1 t2) t4) t5) t7) t8) in
  let y3 := to_u8 (Z.lxor (Z.lxor (Z.lxor (Z.lxor (Z.lxor t1 t2) t3) t5) t6) t8) in
  let y4 := to_u8 (Z.lxor (Z.lxor (Z.lxor (Z.lxor (Z.lxor t2 t3) t4) t5) t6) t7) in
  let y5 := to_u8 (Z.lxor (Z.lxor (Z.lxor (Z.lxor t1 t2) t6) t7) t8) in
  let y6 := to_u8 (Z.lxor (Z.lxor (Z.lxor (Z.lxor t2 t3) t5) t7) t8) in
  let y7 := to_u8 (Z.lxor (Z.lxor (Z.lxor (Z.lxor t3 t4) t5) t6) t8) in
  let y8 := to_u8 (Z.lxor (Z.lxor (Z.lxor (Z.lxor t1 t4) t5) t6) t7) in
  Done (Z.lor (Z.lor (Z.lor (Z.lor (Z.lor (Z.lor (Z.lor
    (to_u64 (Z.shiftl y1 56)) (to_u64 (Z.shiftl y2 48))) (to_u64 (Z.shiftl y3 40))) (to_u64 (Z.shiftl y4 32)))
    (to_u64 (Z.shiftl y5 24))) (to_u64 (Z.shiftl y6 16))) (to_u64 (Z.shiftl y7 8))) y8).

Definition camellia_fl (input key : Z) : exec Z :=
  let x1 := to_u32 (Z.shiftr input 32) in
  let x2 := to_u32 input in
  let k1 := to_u32 (Z.shiftr key 32) in
  let k2 := to_u32 key in
  r ← rotl32 (Z.land x1 k1) 1;
  let x2 := Z.lxor x2 r in
  let x1 := Z.lxor x1 (Z.lor x2 k2) in
  Done (Z.lor (to_u64 (Z.shiftl x1 32)) x2).

Definition camellia_flinv (input key : Z) : exec Z :=
  let y1 := to_u32 (Z.shiftr input 32) in
  let y2 := to_u32 input in
  let k1 := to_u32 (Z.shiftr key 32) in
  let k2 := to_u32 key in
  let y1 := Z.lxor y1 (Z.lor y2 k2) in
  r ← rotl32 (Z.land y1 k1) 1;
  let y2 := Z.lxor y2 r in
  Done (Z.lor (to_u64 (Z.shiftl y1 32)) y2).

Record camellia : Type := mk_camellia { kw_ : list Z; k_ : list Z; ke_ : list Z }.

Definition rounds (KeyBits : Z) : nat := if KeyBits =? 128 then 18 else 24.
Definition key_size (KeyBits : Z) : nat := Z.to_nat (KeyBits / 8).

(** The rotation of [x] by [count] stored in [out[i]], [out[i + 1]]. *)
Definition set_pair_from_rotation (x : Z * Z) (count : Z) (out : list Z) (i : nat) : exec (list Z) :=
  p ← camellia_rotl128 x count;
  out ← store out i p.1; store out (i + 1) p.2.

Definition make_intermediate_keys (kl kr : Z * Z) : exec ((Z * Z) * (Z * Z)) :=
  let d1 := Z.lxor kl.1 kr.1 in
  let d2 := Z.lxor kl.2 kr.2 in
  s ← load camellia_sigma 0; f ← camellia_f d1 s; let d2 := Z.lxor d2 f in
  s ← load camellia_sigma 1; f ← camellia_f d2 s; let d1 := Z.lxor d1 f in
  let d1 := Z.lxor d1 kl.1 in
  let d2 := Z.lxor d2 kl.2 in
  s ← load camellia_sigma 2; f ← camellia_f d1 s; let d2 := Z.lxor d2 f in
  s ← load camellia_sigma 3; f ← camellia_f d2 s; let d1 := Z.lxor d1 f in
  let ka := (d1, d2) in
  let d1 := Z.lxor ka.1 kr.1 in
  let d2 := Z.lxor ka.2 kr.2 in
  s ← load camellia_sigma 4; f ← camellia_f d1 s; let d2 := Z.lxor d2 f in
  s ← load camellia_sigma 5; f ← camellia_f d2 s; let d1 := Z.lxor d1 f in
  Done (ka, (d1, d2)).

(** The right half of the key. *)
Definition right_key (KeyBits : Z) (key : list Z) : exec (Z * Z) :=
  if KeyBits =? 192 then v ← read_be64 key 16; Done (v, to_u64 (Z.lnot v))
  else if KeyBits =? 256 then hi ← read_be64 key 16; lo ← read_be64 key 24; Done (hi, lo)
  else Done (0, 0).

Definition schedule128 (c : camellia) (kl ka : Z * Z) : exec camellia :=
  let '(mk_camellia kw_ k_ ke_) := c in
  k_ ← set_pair_from_rotation ka 0 k_ 0;
  k_ ← set_pair_from_rotation kl 15 k_ 2;
  k_ ← set_pair_from_rotation ka 15 k_ 4;
  ke_ ← set_pair_from_rotation ka 30 ke_ 0;
  k_ ← set_pair_from_rotation kl 45 k_ 6;
  k_ ← set_pair_from_rotation ka 45 k_ 8;
  p ← camellia_rotl128 kl 60;
  k_ ← store k_ 9 p.2;
  k_ ← set_pair_from_rotation ka 60 k_ 10;
  ke_ ← set_pair_from_rotation kl 77 ke_ 2;
  k_ ← set_pair_from_rotation kl 94 k_ 12;
  k_ ← set_pair_from_rotation ka 94 k_ 14;
  k_ ← set_pair_from_rotation kl 111 k_ 16;
  kw_ ← set_pair_from_rotation ka 111 kw_ 2;
  k_ ← for_to 18 6 (fun i k_ => store k_ i 0) k_;
  ke_ ← for_to 4 2 (fun i ke_ => store ke_ i 0) ke_;
  Done (mk_camellia kw_ k_ ke_).

Definition schedule256 (c : camellia) (kl kr ka kb : Z * Z) : exec camellia :=
  let '(mk_camellia kw_ k_ ke_) := c in
  k_ ← set_pair_from_rotation kb 0 k_ 0;
  k_ ← set_pair_from_rotation kr 15 k_ 2;
  k_ ← set_pair_from_rotation ka 15 k_ 4;
  ke_ ← set_pair_from_rotation kr 30 ke_ 0;
  k_ ← set_pair_from_rotation kb 30 k_ 6;
  k_ ← set_pair_from_rotation kl 45 k_ 8;
  k_ ← set_pair_from_rotation ka 45 k_ 10;
  ke_ ← set_pair_from_rotation kl 60 ke_ 2;
  k_ ← set_pair_from_rotation kr 60 k_ 12;
  k_ ← set_pair_from_rotation kb 60 k_ 14;
  k_ ← set_pair_from_rotation kl 77 k_ 16;
  ke_ ← set_pair_from_rotation ka 77 ke_ 4;
  k_ ← set_pair_from_rotation kr 94 k_ 18;
  k_ ← set_pair_from_rotation ka 94 k_ 20;
  k_ ← set_pair_from_rotation kl 111 k_ 22;
  kw_ ← set_pair_from_rotation kb 111 kw_ 2;
  Done (mk_camellia kw_ k_ ke_).

Definition set_key (KeyBits : Z) (c : camellia) (key : ptr) : exec (status * camellia) :=
  match key with
  | None => Done (s_invalid_argument, c)
  | Some key =>
      kl_hi ← read_be64 key 0; kl_lo ← read_be64 key 8;
      let kl := (kl_hi, kl_lo) in
      kr ← right_key KeyBits key;
      r ← make_intermediate_keys kl kr;
      let '(ka, kb) := r in
      kw ← store (kw_ c) 0 kl_hi; kw ← store kw 1 kl_lo;
      let c := mk_camellia kw (k_ c) (ke_ c) in
      c ← (if KeyBits =? 128 then schedule128 c kl ka else schedule256 c kl kr ka kb);
      Done (s_ok, c)
  end.

(** The constructors: members start out indeterminate (zeros here) and are all
    written by [set_key]; a null key counts as zeros. *)
Definition camellia_new (KeyBits : Z) (key : ptr) : exec camellia :=
  r ← set_key KeyBits (mk_camellia (replicate 4 0) (replicate 24 0) (replicate 6 0))
        (Some (match key with Some k => k | None => replicate (key_size KeyBits) 0 end));
  Done r.2.

Definition crypt_round (c : camellia) (R : nat) (decrypt : bool) (stage round : nat) (d : Z * Z) : exec (Z * Z) :=
  let '(d1, d2) := d in
  let logical_round := (stage * 6 + round)%nat in
  let key_index := if decrypt then (R - 1 - logical_round)%nat else logical_round in
  if Nat.even round then
    k ← load (k_ c) key_index; f ← camellia_f d1 k; Done (d1, Z.lxor d2 f)
  else
    k ← load (k_ c) key_index; f ← camellia_f d2 k; Done (Z.lxor d1 f, d2).

Definition crypt_stage (c : camellia) (R : nat) (decrypt : bool) (stage : nat) (d : Z * Z) : exec (Z * Z) :=
  let stage_count := (R / 6)%nat in
  d ← for_to 0 6 (crypt_round c R decrypt stage) d;
  let '(d1, d2) := d in
  if (stage + 1 <? stage_count)%nat then
    let fl_stage := if decrypt then (stage_count - 2 - stage)%nat else stage in
    if decrypt then
      k ← load (ke_ c) (2 * fl_stage + 1); d1 ← camellia_fl d1 k;
      k ← load (ke_ c) (2 * fl_stage); d2 ← camellia_flinv d2 k;
      Done (d1, d2)
    else
      k ← load (ke_ c) (2 * fl_stage); d1 ← camellia_fl d1 k;
      k ← load (ke_ c) (2 * fl_stage + 1); d2 ← camellia_flinv d2 k;
      Done (d1, d2)
  else Done (d1, d2).

Definition crypt_block (KeyBits : Z) (c : camellia) (input output : ptr) (decrypt : bool) : exec ptr :=
  match input, output with
  | Some input, Some output =>
      let R := rounds KeyBits in
      d1 ← read_be64 input 0; d2 ← read_be64 input 8;
      whitening1 ← load (kw_ c) (if decrypt then 2 else 0);
      whitening2 ← load (kw_ c) (if decrypt then 3 else 1);
      d ← for_to 0 (R / 6) (crypt_stage c R decrypt) (Z.lxor d1 whitening1, Z.lxor d2 whitening2);
      let '(d1, d2) := d in
      d ← (if decrypt then
             w1 ← load (kw_ c) 1; w2 ← load (kw_ c) 0; Done (Z.lxor d1 w1, Z.lxor d2 w2)
           else
             w2 ← load (kw_ c) 2; w1 ← load (kw_ c) 3; Done (Z.lxor d1 w1, Z.lxor d2 w2));
      let '(d1, d2) := d in
      o ← (o ← write_be64 output 0 d2; write_be64 o 8 d1);
      Done (Some o)
  | _, _ => Done output
  end.

Definition encrypt_block (KeyBits : Z) (c : camellia) (input output : ptr) : exec ptr :=
  crypt_block KeyBits c input output false.
Definition decrypt_block (KeyBits : Z) (c : camellia) (input output : ptr) : exec ptr :=
  crypt_block KeyBits c input output true.

Definition crypt_ctr (KeyBits : Z) (c : camellia) (data : ptr) (size : nat) (counter_block : ptr)
    : exec (status * ptr * ptr) :=
  Ctr.crypt_ctr (encrypt_block KeyBits c) increment_ctr_counter (replicate 16 0) data size counter_block.

(** The test vectors of RFC 3713. *)
Definition plain : list Z := [1; 35; 69; 103; 137; 171; 205; 239; 254; 220; 186; 152; 118; 84; 50; 16].
Definition key256 : list Z := plain ++ [0; 17; 34; 51; 68; 85; 102; 119; 136; 153; 170; 187; 204; 221; 238; 255].
Definition encrypt_with (KeyBits : Z) (key : list Z) : exec ptr :=
  c ← camellia_new KeyBits (Some key); encrypt_block KeyBits c (Some plain) (Some (replicate 16 0)).
Example camellia_vector128 : encrypt_with 128 plain
  = Done (Some [103; 103; 49; 56; 84; 150; 105; 115; 8; 87; 6; 86; 72; 234; 190; 67]).
Proof. vm_compute. reflexivity. Qed.
Example camellia_vector192 : encrypt_with 192 (take 24 key256)
  = Done (Some [180; 153; 52; 1; 179; 233; 150; 248; 78; 229; 206; 231; 215; 155; 9; 185]).
Proof. vm_compute. reflexivity. Qed.
Example camellia_vector256 : encrypt_with 256 key256
  = Done (Some [154; 204; 35; 125; 255; 22; 215; 108; 32; 239; 124; 145; 158; 58; 117; 9]).
Proof. vm_compute. reflexivity. Qed.

(** ** Totality *)

Lemma camellia_sbox_ok : length camellia_sbox1 = 256%nat /\ Forall byte camellia_sbox1.
Proof.
  split; [done|]. apply (bool_decide_unpack (Forall (fun d => 0 <= d < 256) camellia_sbox1)). vm_compute. exact I.
Qed.

Lemma camellia_sigma_ok : Forall u64 camellia_sigma.
Proof.
  apply (bool_decide_unpack (Forall (fun d => 0 <= d < 18446744073709551616) camellia_sigma)). vm_compute. exact I.
Qed.

(** One look-up of the table, at a masked or at a truncated index. *)
Ltac sbox_step :=
  match goal with
  | |- context [load camellia_sbox1 (Z.to_nat ?i)] =>
      let s := fresh "s" in let H := fresh "Hs" in
      destruct (table_load camellia_sbox1 i) as (s & -> & H);
      [apply camellia_sbox_ok|apply camellia_sbox_ok|first [apply land_byte|by apply (wrap_in_width 8)]|]; exec_simpl
  end.

Lemma camellia_f_total x k : exists r, camellia_f x k = Done r /\ u64 r.
Proof.
  unfold camellia_f. cbv zeta. do 8 sbox_step. eexists. split; [done|].
  assert (Hlast : forall z, u64 (to_u8 z)) by (intros z; apply byte_width; [lia|by apply (wrap_in_width 8)]).
  auto 10 with castle.
Qed.

(** The value of [camellia_f]. *)
Definition F (x k : Z) : Z := match camellia_f x k with Done r => r | Undefined => 0 end.

Lemma camellia_f_F x k : camellia_f x k = Done (F x k) /\ u64 (F x k).
Proof. unfold F. destruct (camellia_f_total x k) as (r & -> & Hr). done. Qed.

Lemma shl64_total v n : n < 64 -> exists r, shl64 v n = Done r /\ u64 r.
Proof.
  intros Hn. unfold shl64, shift. rewrite (proj2 (Z.ltb_lt n 64)) by done. exec_simpl.
  eexists. split; [done|]. by apply wrap_in_width.
Qed.

Lemma shiftr_in_width w v n : 0 <= n -> in_width w v -> in_width w (Z.shiftr v n).
Proof.
  unfold in_width. intros Hn Hv. rewrite Z.shiftr_div_pow2 by done.
  assert (1 <= 2 ^ n) by (apply (Z.pow_le_mono_r 2 0); lia).
  split; [apply Z.div_pos; lia|]. apply Z.div_lt_upper_bound; [lia|]. nia.
Qed.

Lemma shr64_total v n : 0 <= n < 64 -> u64 v -> exists r, shr64 v n = Done r /\ u64 r.
Proof.
  intros Hn Hv. unfold shr64, shift. rewrite (proj2 (Z.ltb_lt n 64)) by lia. exec_simpl.
  eexists. split; [done|]. apply shiftr_in_width; [lia|done].
Qed.

Definition pair_ok (x : Z * Z) : Prop := u64 x.1 /\ u64 x.2.

Lemma camellia_rotl128_total x count : pair_ok x -> exists r, camellia_rotl128 x count = Done r /\ pair_ok r.
Proof.
  destruct x as [hi lo]. intros [Hh Hl]. cbn [fst snd] in *. unfold camellia_rotl128.
  pose proof (Z.mod_pos_bound count 128 ltac:(lia)). set (n := count mod 128) in *.
  destruct (Z.eqb_spec n 0); [by eexists|]. destruct (Z.ltb_spec n 64).
  - destruct (shl64_total hi n) as (a & -> & Ha); [lia|]. exec_simpl.
    destruct (shr64_total lo (64 - n)) as (b & -> & Hb); [lia|done|]. exec_simpl.
    destruct (shl64_total lo n) as (c & -> & Hc); [lia|]. exec_simpl.
    destruct (shr64_total hi (64 - n)) as (d & -> & Hd); [lia|done|]. exec_simpl.
    eexists. split; [done|]. split; cbn [fst snd]; auto with castle.
  - destruct (Z.eqb_spec (n - 64) 0); [by eexists|].
    destruct (shl64_total lo (n - 64)) as (a & -> & Ha); [lia|]. exec_simpl.
    destruct (shr64_total hi (64 - (n - 64))) as (b & -> & Hb); [lia|done|]. exec_simpl.
    destruct (shl64_total hi (n - 64)) as (c & -> & Hc); [lia|]. exec_simpl.
    destruct (shr64_total lo (64 - (n - 64))) as (d & -> & Hd); [lia|done|]. exec_simpl.
    eexists. split; [done|]. split; cbn [fst snd]; auto with castle.
Qed.

(** An array of [n] 64-bit words. *)
Definition words64 (n : nat) (m : list Z) : Prop := length m = n /\ Forall u64 m.

Lemma set_pair_ok n x count out i :
  pair_ok x -> words64 n out -> (i + 1 < n)%nat ->
  exists out', set_pair_from_rotation x count out i = Done out' /\ words64 n out'.
Proof.
  intros Hx [Hl Hu] Hi. unfold set_pair_from_rotation.
  destruct (camellia_rotl128_total x count Hx) as (p & -> & Hp1 & Hp2). exec_simpl.
  destruct (store_in u64 out i p.1) as (o1 & -> & Hu1 & L1 & _); [done..|lia|]. exec_simpl.
  destruct (store_in u64 o1 (i + 1) p.2) as (o2 & -> & Hu2 & L2 & _); [done..|lia|].
  exists o2. split_and!; [done|]. split; [congruence|done].
Qed.

Lemma store_words n m i v : words64 n m -> u64 v -> (i < n)%nat -> exists m', store m i v = Done m' /\ words64 n m'.
Proof.
  intros [Hl Hu] Hv Hi. destruct (store_in u64 m i v) as (m' & -> & Hu' & L & _); [done..|lia|].
  exists m'. split; [done|]. split; [congruence|done].
Qed.

Lemma zero_words start count m n :
  words64 n m -> (start + count <= n)%nat ->
  exists m', for_to start count (fun i m => store m i 0) m = Done m' /\ words64 n m'.
Proof.
  intros Hm Hn. destruct (for_to_inv (fun _ m => words64 n m) (fun i m => store m i 0) start count m)
    as (m' & -> & Hm'); [done| |by exists m'].
  intros i m1 Hi Hm1. apply store_words; [done|done|lia].
Qed.

Definition keys_ok (c : camellia) : Prop := words64 4 (kw_ c) /\ words64 24 (k_ c) /\ words64 6 (ke_ c).

(** Run one step of the key schedule. *)
Ltac pair_step :=
  match goal with
  | Hm : words64 ?n ?m |- context [set_pair_from_rotation ?x ?r ?m ?i] =>
      let m' := fresh "m" in let H := fresh "Hm" in
      destruct (set_pair_ok n x r m i) as (m' & -> & H); [done|exact Hm|lia|]; clear Hm; exec_simpl
  end.

Lemma schedule128_ok c kl ka :
  keys_ok c -> pair_ok kl -> pair_ok ka -> exists c', schedule128 c kl ka = Done c' /\ keys_ok c'.
Proof.
  destruct c as [kw k ke]. intros (Hw & Hk & He) Hkl Hka. cbn [kw_ k_ ke_] in *. unfold schedule128.
  destruct (camellia_rotl128_total kl 60 Hkl) as (p & -> & Hp1 & Hp2). exec_simpl. repeat pair_step.
  match goal with Hm : words64 24 ?m |- _ => destruct (store_words 24 m 9 p.2) as (k9 & -> & Hk9); [done|done|lia|]; clear Hm end.
  exec_simpl. repeat pair_step.
  match goal with Hm : words64 24 ?m |- _ => destruct (zero_words 18 6 m 24) as (k10 & -> & Hk10); [done|lia|]; clear Hm end.
  exec_simpl.
  match goal with Hm : words64 6 ?m |- _ => destruct (zero_words 4 2 m 6) as (ke10 & -> & Hke10); [done|lia|]; clear Hm end.
  exec_simpl. eexists. split; [done|]. by split_and!.
Qed.

Lemma schedule256_ok c kl kr ka kb :
  keys_ok c -> pair_ok kl -> pair_ok kr -> pair_ok ka -> pair_ok kb ->
  exists c', schedule256 c kl kr ka kb = Done c' /\ keys_ok c'.
Proof.
  destruct c as [kw k ke]. intros (Hw & Hk & He) Hkl Hkr Hka Hkb. cbn [kw_ k_ ke_] in *. unfold schedule256.
  repeat pair_step. eexists. split; [done|]. by split_and!.
Qed.

Lemma make_intermediate_ok kl kr :
  pair_ok kl -> pair_ok kr ->
  exists ka kb, make_intermediate_keys kl kr = Done (ka, kb) /\ pair_ok ka /\ pair_ok kb.
Proof.
  intros [H1 H2] [H3 H4]. unfold make_intermediate_keys. cbv zeta. cbn [load lookup list_lookup camellia_sigma]. exec_simpl.
  repeat match goal with |- context [camellia_f ?x ?k] => rewrite (proj1 (camellia_f_F x k)); exec_simpl end.
  pose proof (fun x k => proj2 (camellia_f_F x k)) as HF.
  eexists _, _. split; [done|]. unfold pair_ok. cbn [fst snd]. auto 12 with castle.
Qed.

Definition key_bits (KeyBits : Z) : Prop := KeyBits = 128 \/ KeyBits = 192 \/ KeyBits = 256.

(** Reading a 64-bit word anywhere in a buffer of bytes. *)
Lemma read_be64_total m o :
  Forall byte m -> (o + 8 <= length m)%nat -> exists v, read_be64 m o = Done v /\ u64 v.
Proof.
  intros Hb Hl. destruct (be_bytes_exists 8 (take 8 (drop o m))) as (v & Hv & E);
    [rewrite length_take, length_drop; lia|by apply Forall_take, Forall_drop|].
  exists v. split; [|done]. rewrite <-(take_drop o m), <-(take_drop 8 (drop o m)), E.
  apply read_be64_word; [done|]. rewrite length_take. lia.
Qed.

Lemma camellia_set_key_ok KeyBits c key :
  key_bits KeyBits -> keys_ok c -> length key = key_size KeyBits -> Forall byte key ->
  exists c', set_key KeyBits c (Some key) = Done (s_ok, c') /\ keys_ok c'.
Proof.
  intros HK (Hw & Hk & He) Hl Hb. unfold set_key.
  assert (Hlen : (16 <= length key)%nat) by (rewrite Hl; destruct HK as [->|[->| ->]]; [change (key_size 128) with 16%nat|change (key_size 192) with 24%nat|change (key_size 256) with 32%nat]; lia).
  destruct (read_be64_total key 0) as (kh & -> & Hkh); [done|lia|]. exec_simpl.
  destruct (read_be64_total key 8) as (klo & -> & Hkl); [done|lia|]. exec_simpl.
  assert (exists kr, right_key KeyBits key = Done kr /\ pair_ok kr) as (kr & -> & Hkr).
  { unfold right_key. destruct HK as [->|[->| ->]]; cbn [Z.eqb Pos.eqb].
    - by eexists.
    - destruct (read_be64_total key 16) as (v & -> & Hv); [done|rewrite Hl; change (key_size 192) with 24%nat; lia|]. exec_simpl.
      eexists. split; [done|]. split; [done|]. by apply wrap_in_width.
    - destruct (read_be64_total key 16) as (v & -> & Hv); [done|rewrite Hl; change (key_size 256) with 32%nat; lia|]. exec_simpl.
      destruct (read_be64_total key 24) as (v' & -> & Hv'); [done|rewrite Hl; change (key_size 256) with 32%nat; lia|]. exec_simpl.
      by eexists. }
  exec_simpl. assert (Hkl' : pair_ok (kh, klo)) by done.
  destruct (make_intermediate_ok (kh, klo) kr) as (ka & kb & -> & Hka & Hkb); [done..|]. exec_simpl.
  destruct (store_words 4 (kw_ c) 0 kh) as (w1 & -> & Hw1); [done|done|lia|]. exec_simpl.
  destruct (store_words 4 w1 1 klo) as (w2 & -> & Hw2); [done|done|lia|]. exec_simpl.
  assert (Hc : keys_ok (mk_camellia w2 (k_ c) (ke_ c))) by done.
  destruct (KeyBits =? 128).
  - destruct (schedule128_ok _ (kh, klo) ka Hc) as (c' & -> & Hc'); [done..|]. by exists c'.
  - destruct (schedule256_ok _ (kh, klo) kr ka kb Hc) as (c' & -> & Hc'); [done..|]. by exists c'.
Qed.

(** ** The FL layer *)

Lemma split64 x : u64 x -> Z.lor (to_u64 (Z.shiftl (to_u32 (Z.shiftr x 32)) 32)) (to_u32 x) = x.
Proof.
  intros Hx. unfold wrap. unfold in_width in Hx. rewrite Z.shiftr_div_pow2, Z.shiftl_mul_pow2 by lia.
  assert (0 <= x / 2 ^ 32 < 2 ^ 32) by (split; [apply Z.div_pos; lia|apply Z.div_lt_upper_bound; lia]).
  rewrite (Z.mod_small (x / 2 ^ 32)), (Z.mod_small (_ * _)) by lia.
  rewrite <-Z.shiftl_mul_pow2 by lia. rewrite lor_shiftl_add by (lia || apply Z.mod_pos_bound; lia).
  rewrite (Z.mul_comm (x / 2 ^ 32)). symmetry. apply Z_div_mod_eq_full.
Qed.

Lemma join64 a b : u32 a -> u32 b ->
  let x := Z.lor (to_u64 (Z.shiftl a 32)) b in
  u64 x /\ to_u32 (Z.shiftr x 32) = a /\ to_u32 x = b.
Proof.
  unfold in_width. intros Ha Hb. cbv zeta.
  assert (Z.lor (to_u64 (Z.shiftl a 32)) b = a * 2 ^ 32 + b) as ->.
  { unfold wrap. rewrite Z.mod_small by (rewrite Z.shiftl_mul_pow2; lia). by apply lor_shiftl_add. }
  split; [lia|]. unfold wrap. rewrite Z.shiftr_div_pow2 by lia. split.
  - rewrite Z.div_add_l, Z.div_small, Z.add_0_r by lia. by apply Z.mod_small.
  - rewrite Z.add_comm, Z.mod_add by lia. by apply Z.mod_small.
Qed.

(** [camellia_fl] and [camellia_flinv] undo each other. *)
Lemma camellia_fl_inv x k : u64 x -> exists y, camellia_fl x k = Done y /\ u64 y /\ camellia_flinv y k = Done x.
Proof.
  intros Hx. unfold camellia_fl, camellia_flinv. cbv zeta.
  set (x1 := to_u32 (Z.shiftr x 32)). set (x2 := to_u32 x).
  set (k1 := to_u32 (Z.shiftr k 32)). set (k2 := to_u32 k).
  assert (H1 : u32 x1 /\ u32 x2 /\ u32 k2) by (unfold x1, x2, k2; auto with castle).
  destruct H1 as (H1 & H2 & Hk2).
  destruct (rotl32_total (Z.land x1 k1) 1) as (r & Hr & Hru); [lia|]. rewrite Hr. exec_simpl.
  set (a := Z.lxor x1 (Z.lor (Z.lxor x2 r) k2)).
  destruct (join64 a (Z.lxor x2 r)) as (Hj & J1 & J2); [unfold a; auto with castle..|].
  eexists. split; [done|]. split; [done|]. rewrite J1, J2.
  assert (Z.lxor a (Z.lor (Z.lxor x2 r) k2) = x1) as ->.
  { unfold a. by rewrite Z.lxor_assoc, Z.lxor_nilpotent, Z.lxor_0_r. }
  rewrite Hr. exec_simpl. rewrite Z.lxor_assoc, Z.lxor_nilpotent, Z.lxor_0_r. f_equal. by apply split64.
Qed.

Lemma camellia_flinv_inv y k : u64 y -> exists x, camellia_flinv y k = Done x /\ u64 x /\ camellia_fl x k = Done y.
Proof.
  intros Hy. unfold camellia_fl, camellia_flinv. cbv zeta.
  set (y1 := to_u32 (Z.shiftr y 32)). set (y2 := to_u32 y).
  set (k1 := to_u32 (Z.shiftr k 32)). set (k2 := to_u32 k).
  assert (H1 : u32 y1 /\ u32 y2 /\ u32 k2) by (unfold y1, y2, k2; auto with castle).
  destruct H1 as (H1 & H2 & Hk2). set (a := Z.lxor y1 (Z.lor y2 k2)).
  assert (Ha : u32 a) by (unfold a; auto with castle).
  destruct (rotl32_total (Z.land a k1) 1) as (r & Hr & Hru); [lia|]. rewrite Hr. exec_simpl.
  destruct (join64 a (Z.lxor y2 r)) as (Hj & J1 & J2); [auto with castle..|].
  eexists. split; [done|]. split; [done|]. rewrite J1, J2, Hr. exec_simpl.
  rewrite (Z.lxor_assoc y2 r r), Z.lxor_nilpotent, Z.lxor_0_r.
  assert (Z.lxor a (Z.lor y2 k2) = y1) as ->.
  { unfold a. by rewrite Z.lxor_assoc, Z.lxor_nilpotent, Z.lxor_0_r. }
  f_equal. by apply split64.
Qed.

Definition FL (x k : Z) : Z := match camellia_fl x k with Done r => r | Undefined => 0 end.
Definition FLINV (x k : Z) : Z := match camellia_flinv x k with Done r => r | Undefined => 0 end.

Lemma FL_ok x k : u64 x -> camellia_fl x k = Done (FL x k) /\ u64 (FL x k) /\ FLINV (FL x k) k = x.
Proof. intros Hx. unfold FLINV, FL. destruct (camellia_fl_inv x k Hx) as (y & -> & Hy & ->). done. Qed.

Lemma FLINV_ok x k : u64 x -> camellia_flinv x k = Done (FLINV x k) /\ u64 (FLINV x k) /\ FL (FLINV x k) k = x.
Proof. intros Hx. unfold FLINV, FL. destruct (camellia_flinv_inv x k Hx) as (y & -> & Hy & ->). done. Qed.

#[local] Opaque camellia_f camellia_fl camellia_flinv F FL FLINV.

(** ** The network as a list of invertible operations on two words *)

Inductive layer : Type :=
| Rnd (even : bool) (k : Z)
| FLs (ka kb : Z).

Definition apply_layer (s : Z * Z) (o : layer) : Z * Z :=
  let '(d1, d2) := s in
  match o with
  | Rnd true k => (d1, Z.lxor d2 (F d1 k))
  | Rnd false k => (Z.lxor d1 (F d2 k), d2)
  | FLs ka kb => (FL d1 ka, FLINV d2 kb)
  end.

(** The layer that undoes another one on exchanged words. *)
Definition undo (o : layer) : layer :=
  match o with Rnd e k => Rnd (negb e) k | FLs ka kb => FLs kb ka end.
Definition swap (s : Z * Z) : Z * Z := (s.2, s.1).

Lemma apply_layer_ok s o : pair_ok s -> pair_ok (apply_layer s o).
Proof.
  destruct s as [d1 d2]. intros [H1 H2]. cbn [fst snd] in *. pose proof (fun x k => proj2 (camellia_f_F x k)) as HF.
  destruct o as [[] k|ka kb]; cbn [apply_layer]; split; cbn [fst snd]; auto with castle.
  - by apply FL_ok. - by apply FLINV_ok.
Qed.

Lemma undo_layer s o : pair_ok s -> apply_layer (swap (apply_layer s o)) (undo o) = swap s.
Proof.
  destruct s as [d1 d2]. intros [H1 H2]. cbn [fst snd] in *.
  destruct o as [[] k|ka kb]; cbn [apply_layer undo swap negb fst snd]; unfold swap; cbn [fst snd].
  - by rewrite Z.lxor_assoc, Z.lxor_nilpotent, Z.lxor_0_r.
  - by rewrite Z.lxor_assoc, Z.lxor_nilpotent, Z.lxor_0_r.
  - destruct (FL_ok d1 ka H1) as (_ & _ & ->). destruct (FLINV_ok d2 kb H2) as (_ & _ & ->). done.
Qed.

Lemma apply_layers_ok os s : pair_ok s -> pair_ok (fold_left apply_layer os s).
Proof. revert s. induction os as [|o os IH]; intros s Hs; [done|]. cbn. by apply IH, apply_layer_ok. Qed.

Lemma undo_layers os s :
  pair_ok s -> fold_left apply_layer (undo <$> reverse os) (swap (fold_left apply_layer os s)) = swap s.
Proof.
  revert s. induction os as [|o os IH] using rev_ind; intros s Hs; [done|].
  rewrite fold_left_app, reverse_app, fmap_app. cbn [fmap list_fmap fold_left].
  rewrite fold_left_app. cbn [reverse rev_append fmap list_fmap fold_left].
  rewrite undo_layer by (by apply apply_layers_ok). by apply IH.
Qed.

(** The layers of the code: stage by stage, with the keys it looks up. *)
Definition round_layer (c : camellia) (R : nat) (decrypt : bool) (stage round : nat) : layer :=
  let r := (stage * 6 + round)%nat in
  Rnd (Nat.even round) (nth (if decrypt then (R - 1 - r)%nat else r) (k_ c) 0).
(** The layer between two stages. *)
Definition fl_layer (c : camellia) (n : nat) (decrypt : bool) (stage : nat) : layer :=
  if decrypt then FLs (nth (2 * (n - 2 - stage) + 1) (ke_ c) 0) (nth (2 * (n - 2 - stage)) (ke_ c) 0)
  else FLs (nth (2 * stage) (ke_ c) 0) (nth (2 * stage + 1) (ke_ c) 0).

Definition stage_layers (c : camellia) (R : nat) (decrypt : bool) (stage : nat) : list layer :=
  (round_layer c R decrypt stage <$> seq 0 6) ++
  (if (stage + 1 <? R / 6)%nat then
     [fl_layer c (R / 6) decrypt stage]
   else []).
Definition layers (c : camellia) (R : nat) (decrypt : bool) : list layer :=
  concat (stage_layers c R decrypt <$> seq 0 (R / 6)).

Lemma layers_reversed KeyBits c :
  layers c (rounds KeyBits) true = undo <$> reverse (layers c (rounds KeyBits) false).
Proof. unfold rounds. destruct (KeyBits =? 128); reflexivity. Qed.

Lemma load_nth m i : (i < length m)%nat -> load m i = Done (nth i m 0).
Proof. intros [v Hv]%lookup_lt_is_Some_2. rewrite (load_Done _ _ _ Hv). f_equal. symmetry. by apply nth_lookup_Some. Qed.

Lemma crypt_round_layer c R decrypt stage round d :
  keys_ok c -> (R <= 24)%nat -> (stage * 6 + round < R)%nat ->
  crypt_round c R decrypt stage round d = Done (apply_layer d (round_layer c R decrypt stage round)).
Proof.
  intros (_ & [Hk _] & _) HR Hr. destruct d as [d1 d2]. unfold crypt_round, round_layer.
  rewrite load_nth by (rewrite Hk; destruct decrypt; lia).
  destruct (Nat.even round); exec_simpl; by rewrite (proj1 (camellia_f_F _ _)).
Qed.

Lemma crypt_rounds_layers c R decrypt stage d :
  keys_ok c -> R = 18%nat \/ R = 24%nat -> (stage < R / 6)%nat ->
  for_to 0 6 (crypt_round c R decrypt stage) d
  = Done (fold_left apply_layer (round_layer c R decrypt stage <$> seq 0 6) d).
Proof.
  intros Hc HR Hs. rewrite fold_left_fmap.
  assert (H6 : R = (6 * (R / 6))%nat) by (by destruct HR as [->| ->]).
  apply (for_to_fold (fun round d => apply_layer d (round_layer c R decrypt stage round)) (fun _ => True)); [done|].
  intros i st Hi _. split; [|done]. apply crypt_round_layer; [done|lia|lia].
Qed.

Lemma fl_stage_layer c n (decrypt : bool) stage d :
  length (ke_ c) = 6%nat -> (n <= 4)%nat -> (stage + 1 < n)%nat -> pair_ok d ->
  (let '(d1, d2) := d in
   let fl_stage := if decrypt then (n - 2 - stage)%nat else stage in
   if decrypt then
     k ← load (ke_ c) (2 * fl_stage + 1); d1 ← camellia_fl d1 k;
     k ← load (ke_ c) (2 * fl_stage); d2 ← camellia_flinv d2 k; Done (d1, d2)
   else
     k ← load (ke_ c) (2 * fl_stage); d1 ← camellia_fl d1 k;
     k ← load (ke_ c) (2 * fl_stage + 1); d2 ← camellia_flinv d2 k; Done (d1, d2))
  = Done (apply_layer d (fl_layer c n decrypt stage)).
Proof.
  intros He Hn Hs. destruct d as [d1 d2]. intros [H1 H2]. cbn [fst snd] in *. unfold fl_layer.
  destruct decrypt; cbv zeta; cbn [apply_layer]; rewrite !load_nth by (rewrite He; lia); exec_simpl;
    rewrite (proj1 (FL_ok _ _ H1)); exec_simpl; by rewrite (proj1 (FLINV_ok _ _ H2)).
Qed.

Lemma crypt_stage_layers c R decrypt stage d :
  keys_ok c -> R = 18%nat \/ R = 24%nat -> (stage < R / 6)%nat -> pair_ok d ->
  crypt_stage c R decrypt stage d = Done (fold_left apply_layer (stage_layers c R decrypt stage) d).
Proof.
  intros Hc HR Hs Hd. unfold crypt_stage, stage_layers. rewrite crypt_rounds_layers by done. exec_simpl.
  rewrite fold_left_app. pose proof (apply_layers_ok (round_layer c R decrypt stage <$> seq 0 6) d Hd) as Hd'.
  generalize dependent (fold_left apply_layer (round_layer c R decrypt stage <$> seq 0 6) d). intros d' Hd'.
  assert (R / 6 <= 4)%nat by (destruct HR as [->| ->]; cbn; lia).
  destruct (Nat.ltb_spec (stage + 1) (R / 6)); [|by destruct d'].
  apply fl_stage_layer; [apply Hc|done..].
Qed.

Lemma rounds_cases KeyBits : rounds KeyBits = 18%nat \/ rounds KeyBits = 24%nat.
Proof. unfold rounds. destruct (KeyBits =? 128); auto. Qed.

(** Adding two words of whitening. *)
Definition whiten (s : Z * Z) (a b : Z) : Z * Z := (Z.lxor s.1 a, Z.lxor s.2 b).
Definition block_of (s : Z * Z) : list Z := be_bytes 8 s.1 ++ be_bytes 8 s.2.
Definition kw (c : camellia) (i : nat) : Z := nth i (kw_ c) 0.

(** The block permutation: whitening, layers, whitening, exchange. *)
Definition permute (KeyBits : Z) (c : camellia) (decrypt : bool) (s : Z * Z) : Z * Z :=
  let d := fold_left apply_layer (layers c (rounds KeyBits) decrypt)
             (if decrypt then whiten s (kw c 2) (kw c 3) else whiten s (kw c 0) (kw c 1)) in
  swap (if decrypt then whiten d (kw c 1) (kw c 0) else whiten d (kw c 3) (kw c 2)).

Lemma kw_ok c i : keys_ok c -> u64 (kw c i).
Proof.
  intros ([Hl Hu] & _). unfold kw. destruct (decide (i < 4)%nat).
  - rewrite <-Hl in l. apply lookup_lt_is_Some_2 in l as [v Hv]. rewrite (nth_lookup_Some _ _ _ _ Hv).
    rewrite Forall_lookup in Hu. by eapply Hu.
  - rewrite nth_overflow by lia. done.
Qed.

Lemma whiten_ok s a b : pair_ok s -> u64 a -> u64 b -> pair_ok (whiten s a b).
Proof. intros [? ?] ? ?. split; cbn; auto with castle. Qed.

Lemma permute_ok KeyBits c decrypt s : keys_ok c -> pair_ok s -> pair_ok (permute KeyBits c decrypt s).
Proof.
  intros Hc Hs. pose proof (fun i => kw_ok c i Hc) as Hw. unfold permute.
  destruct decrypt.
  - destruct (whiten_ok (fold_left apply_layer (layers c (rounds KeyBits) true) (whiten s (kw c 2) (kw c 3))) (kw c 1) (kw c 0))
      as [? ?]; [by apply apply_layers_ok, whiten_ok|done..|]. done.
  - destruct (whiten_ok (fold_left apply_layer (layers c (rounds KeyBits) false) (whiten s (kw c 0) (kw c 1))) (kw c 3) (kw c 2))
      as [? ?]; [by apply apply_layers_ok, whiten_ok|done..|]. done.
Qed.

Lemma whiten_twice s a b : whiten (whiten s a b) a b = s.
Proof. destruct s. unfold whiten. cbn. by rewrite !Z.lxor_assoc, !Z.lxor_nilpotent, !Z.lxor_0_r. Qed.

Lemma whiten_swap s a b : whiten (swap s) a b = swap (whiten s b a).
Proof. done. Qed.

Lemma permute_inverse KeyBits c decrypt s :
  keys_ok c -> pair_ok s -> permute KeyBits c (negb decrypt) (permute KeyBits c decrypt s) = s.
Proof.
  intros Hc Hs. pose proof (fun i => kw_ok c i Hc) as Hw. unfold permute. destruct decrypt; cbn [negb].
  - rewrite !whiten_swap, whiten_twice.
    assert (layers c (rounds KeyBits) false = undo <$> reverse (layers c (rounds KeyBits) true)) as ->.
    { rewrite layers_reversed, <-fmap_reverse, reverse_involutive, <-list_fmap_compose.
      rewrite <-(list_fmap_id (layers c (rounds KeyBits) false)) at 1. apply list_fmap_ext.
      intros i [[] k|ka kb] _; done. }
    rewrite undo_layers by (by apply whiten_ok). rewrite whiten_swap, whiten_twice. by destruct s.
  - rewrite !whiten_swap, whiten_twice, layers_reversed.
    rewrite undo_layers by (by apply whiten_ok). rewrite whiten_swap, whiten_twice. by destruct s.
Qed.

Lemma crypt_block_permute KeyBits c decrypt s out :
  keys_ok c -> pair_ok s -> length out = 16%nat ->
  crypt_block KeyBits c (Some (block_of s)) (Some out) decrypt = Done (Some (block_of (permute KeyBits c decrypt s))).
Proof.
  intros Hc Hs Ho. pose proof Hs as [H1 H2]. unfold crypt_block.
  destruct (read_block64 s.1 s.2 H1 H2) as [R1 R2].
  change (block_of s) with (be_bytes 8 s.1 ++ be_bytes 8 s.2). rewrite R1, R2. exec_simpl.
  pose proof (fun i => kw_ok c i Hc) as Hw. assert (Hlw : length (kw_ c) = 4%nat) by apply Hc.
  rewrite !load_nth by (rewrite Hlw; destruct decrypt; lia). exec_simpl.
  set (s0 := if decrypt then whiten s (kw c 2) (kw c 3) else whiten s (kw c 0) (kw c 1)).
  assert (Hs0 : pair_ok s0) by (unfold s0; destruct decrypt; by apply whiten_ok).
  replace (Z.lxor s.1 _, Z.lxor s.2 _) with s0 by (unfold s0; by destruct decrypt).
  destruct (for_to_fold (fun stage d => fold_left apply_layer (stage_layers c (rounds KeyBits) decrypt stage) d) pair_ok
    (crypt_stage c (rounds KeyBits) decrypt) 0 (rounds KeyBits / 6) s0) as [-> _]; [done| |].
  { intros i st Hi Hst. split; [apply crypt_stage_layers; (done || apply rounds_cases || lia)|by apply apply_layers_ok]. }
  exec_simpl.
  assert (fold_left (fun st i => fold_left apply_layer (stage_layers c (rounds KeyBits) decrypt i) st)
            (seq 0 (rounds KeyBits / 6)) s0 = fold_left apply_layer (layers c (rounds KeyBits) decrypt) s0) as ->.
  { unfold layers. rewrite fold_left_concat. by rewrite fold_left_fmap. }
  unfold permute. fold s0. set (d := fold_left apply_layer (layers c (rounds KeyBits) decrypt) s0).
  destruct d as [d1 d2]. destruct decrypt; exec_simpl; by rewrite write_block64.
Qed.

Lemma block_of_pair b : length b = 16%nat -> Forall byte b -> exists s, pair_ok s /\ b = block_of s.
Proof. intros Hl Hb. destruct (block_words64 b Hl Hb) as (w0 & w1 & H0 & H1 & ->). by exists (w0, w1). Qed.

Lemma camellia_block_of_block s : length (block_of s) = 16%nat /\ Forall byte (block_of s).
Proof. unfold block_of. rewrite length_app, !length_be_bytes_of, Forall_app. auto using be_bytes_bytes. Qed.

Definition E (KeyBits : Z) (c : camellia) (b : list Z) : list Z :=
  match crypt_block KeyBits c (Some b) (Some (replicate 16 0)) false with Done (Some o) => o | _ => [] end.

Lemma camellia_block_cipher KeyBits c : keys_ok c -> BlockCipher (encrypt_block KeyBits c) (E KeyBits c).
Proof.
  intros Hc. split; intros b.
  - intros out Hl Hb Ho. destruct (block_of_pair b Hl Hb) as (s & Hs & ->).
    unfold encrypt_block, E. by rewrite !crypt_block_permute.
  - intros Hl Hb. destruct (block_of_pair b Hl Hb) as (s & Hs & ->). unfold E.
    rewrite crypt_block_permute by done. apply camellia_block_of_block.
Qed.

(** Camellia is invertible for all three key sizes and its counter mode is sound:
    the key schedule succeeds and leaves 34 well-formed subkeys, encryption and
    decryption undo each other on every block, and [crypt_ctr] is an involution from a
    given counter that can be resumed at any block boundary and refuses to wrap the
    counter. *)
Theorem camellia_roundtrip KeyBits key :
  key_bits KeyBits -> length key = key_size KeyBits -> Forall byte key ->
  exists c, camellia_new KeyBits (Some key) = Done c /\ keys_ok c
    /\ (forall decrypt b out out', length b = 16%nat -> Forall byte b -> length out = 16%nat -> length out' = 16%nat ->
          exists b', length b' = 16%nat /\ Forall byte b'
            /\ crypt_block KeyBits c (Some b) (Some out) decrypt = Done (Some b')
            /\ crypt_block KeyBits c (Some b') (Some out') (negb decrypt) = Done (Some b))
    /\ ctr_mode (encrypt_block KeyBits c) increment_ctr_counter.
Proof.
  intros HK Hl Hb.
  destruct (camellia_set_key_ok KeyBits (mk_camellia (replicate 4 0) (replicate 24 0) (replicate 6 0)) key) as (c & E1 & Hc);
    [done|by repeat split; apply Forall_replicate|done..|].
  exists c. unfold camellia_new. rewrite E1. exec_simpl. split_and!; [done|done|..].
  - intros decrypt b out out' Hbl Hbb Ho Ho'. destruct (block_of_pair b Hbl Hbb) as (s & Hs & ->).
    exists (block_of (permute KeyBits c decrypt s)). destruct (camellia_block_of_block (permute KeyBits c decrypt s)) as [? ?].
    split_and!; [done..| |].
    + by apply crypt_block_permute.
    + rewrite crypt_block_permute by (done || by apply permute_ok). by rewrite permute_inverse.
  - by eapply ctr_mode_ok; [apply camellia_block_cipher|apply _].
Qed.

Lemma camellia_roundtrip_witness :
  exists c b, camellia_new 192 (Some (take 24 key256)) = Done c
    /\ encrypt_block 192 c (Some plain) (Some (replicate 16 0)) = Done (Some b)
    /\ decrypt_block 192 c (Some b) (Some (replicate 16 0)) = Done (Some plain).
Proof.
  assert (Hb : Forall byte plain) by (repeat constructor; unfold byte; lia).
  assert (Hk : Forall byte (take 24 key256)) by (repeat constructor; unfold byte; lia).
  destruct (camellia_roundtrip 192 (take 24 key256) ltac:(right; left; reflexivity) eq_refl Hk) as (c & H1 & _ & H2 & _).
  destruct (H2 false plain (replicate 16 0) (replicate 16 0) eq_refl Hb eq_refl eq_refl) as (b & _ & _ & H3 & H4).
  exists c, b. split; [exact H1|]. split; [exact H3|exact H4].
Defined.
