(* ===== verification/Aes.v ===== *)
(** * The AES block cipher (castle_ext/crypto/aes.hpp)

    [KeyBits] is 128, 192 or 256.  The cipher object is its [round_keys_] array; a
    state is an array of 16 bytes.  Local arrays start out indeterminate in the code
    and as zeros here: every element is written before it is read. *)

From Stdlib Require Import Btauto.
From S2P Require Import Prelude Status Bytes Ctr.
Open Scope Z_scope.

Definition aes_sbox : list Z :=
  [99; 124; 119; 123; 242; 107; 111; 197; 48; 1; 103; 43; 254; 215; 171; 118;
   202; 130; 201; 125; 250; 89; 71; 240; 173; 212; 162; 175; 156; 164; 114; 192;
   183; 253; 147; 38; 54; 63; 247; 204; 52; 165; 229; 241; 113; 216; 49; 21;
   4; 199; 35; 195; 24; 150; 5; 154; 7; 18; 128; 226; 235; 39; 178; 117;
   9; 131; 44; 26; 27; 110; 90; 160; 82; 59; 214; 179; 41; 227; 47; 132;
   83; 209; 0; 237; 32; 252; 177; 91; 106; 203; 190; 57; 74; 76; 88; 207;
   208; 239; 170; 251; 67; 77; 51; 133; 69; 249; 2; 127; 80; 60; 159; 168;
   81; 163; 64; 143; 146; 157; 56; 245; 188; 182; 218; 33; 16; 255; 243; 210;
   205; 12; 19; 236; 95; 151; 68; 23; 196; 167; 126; 61; 100; 93; 25; 115;
   96; 129; 79; 220; 34; 42; 144; 136; 70; 238; 184; 20; 222; 94; 11; 219;
   224; 50; 58; 10; 73; 6; 36; 92; 194; 211; 172; 98; 145; 149; 228; 121;
   231; 200; 55; 109; 141; 213; 78; 169; 108; 86; 244; 234; 101; 122; 174; 8;
   186; 120; 37; 46; 28; 166; 180; 198; 232; 221; 116; 31; 75; 189; 139; 138;
   112; 62; 181; 102; 72; 3; 246; 14; 97; 53; 87; 185; 134; 193; 29; 158;
   225; 248; 152; 17; 105; 217; 142; 148; 155; 30; 135; 233; 206; 85; 40; 223;
   140; 161; 137; 13; 191; 230; 66; 104; 65; 153; 45; 15; 176; 84; 187; 22].
Definition aes_inv_sbox : list Z :=
  [82; 9; 106; 213; 48; 54; 165; 56; 191; 64; 163; 158; 129; 243; 215; 251;
   124; 227; 57; 130; 155; 47; 255; 135; 52; 142; 67; 68; 196; 222; 233; 203;
   84; 123; 148; 50; 166; 194; 35; 61; 238; 76; 149; 11; 66; 250; 195; 78;
   8; 46; 161; 102; 40; 217; 36; 178; 118; 91; 162; 73; 109; 139; 209; 37;
   114; 248; 246; 100; 134; 104; 152; 22; 212; 164; 92; 204; 93; 101; 182; 146;
   108; 112; 72; 80; 253; 237; 185; 218; 94; 21; 70; 87; 167; 141; 157; 132;
   144; 216; 171; 0; 140; 188; 211; 10; 247; 228; 88; 5; 184; 179; 69; 6;
   208; 44; 30; 143; 202; 63; 15; 2; 193; 175; 189; 3; 1; 19; 138; 107;
   58; 145; 17; 65; 79; 103; 220; 234; 151; 242; 207; 206; 240; 180; 230; 115;
   150; 172; 116; 34; 231; 173; 53; 133; 226; 249; 55; 232; 28; 117; 223; 110;
   71; 241; 26; 113; 29; 41; 197; 137; 111; 183; 98; 14; 170; 24; 190; 27;
   252; 86; 62; 75; 198; 210; 121; 32; 154; 219; 192; 254; 120; 205; 90; 244;
   31; 221; 168; 51; 136; 7; 199; 49; 177; 18; 16; 89; 39; 128; 236; 95;
   96; 81; 127; 169; 25; 181; 74; 13; 45; 229; 122; 159; 147; 201; 156; 239;
   160; 224; 59; 77; 174; 42; 245; 176; 200; 235; 187; 60; 131; 83; 153; 97;
   23; 43; 4; 126; 186; 119; 214; 38; 225; 105; 20; 99; 85; 33; 12; 125].

Definition block_size : nat := 16.
Definition key_size (KeyBits : nat) : nat := (KeyBits / 8)%nat.
Definition rounds (KeyBits : nat) : nat := (KeyBits / 32 + 6)%nat.

Definition xtime (value : Z) : Z :=
  to_u8 (Z.lxor (Z.shiftl value 1) (if negb (Z.land value 128 =? 0) then 27 else 0)).

Definition multiply_body (st : Z * Z * Z) : Z * Z * Z :=
  let '(result, x, y) := st in
  let result := if negb (Z.land y 1 =? 0) then to_u8 (Z.lxor result x) else result in
  (result, xtime x, to_u8 (Z.shiftr y 1)).
Definition multiply (a b : Z) : Z := (Nat.iter 8 multiply_body (0, a, b)).1.1.

Definition rcon (index : nat) : Z := Nat.iter (index - 1) xtime 1.

Definition sub_bytes (state : list Z) : exec (list Z) :=
  for_to 0 block_size (fun i state =>
    v ← load state i; s ← load aes_sbox (Z.to_nat v); store state i s) state.
Definition inv_sub_bytes (state : list Z) : exec (list Z) :=
  for_to 0 block_size (fun i state =>
    v ← load state i; s ← load aes_inv_sbox (Z.to_nat v); store state i s) state.

(** The loop that copies [tmp] back into [state]. *)
Definition copy_block (src dst : list Z) : exec (list Z) :=
  for_to 0 block_size (fun i dst => v ← load src i; store dst i v) dst.

Definition shift_rows (state : list Z) : exec (list Z) :=
  tmp ← for_to 0 4 (fun row tmp => for_to 0 4 (fun col tmp =>
          v ← load state (row + 4 * ((col + row) mod 4))%nat; store tmp (row + 4 * col)%nat v) tmp)
        (replicate block_size 0);
  copy_block tmp state.
Definition inv_shift_rows (state : list Z) : exec (list Z) :=
  tmp ← for_to 0 4 (fun row tmp => for_to 0 4 (fun col tmp =>
          v ← load state (row + 4 * ((col + 4 - row) mod 4))%nat; store tmp (row + 4 * col)%nat v) tmp)
        (replicate block_size 0);
  copy_block tmp state.

Definition mix_column (col : nat) (state : list Z) : exec (list Z) :=
  let a := (4 * col)%nat in
  a0 ← load state a; a1 ← load state (a + 1); a2 ← load state (a + 2); a3 ← load state (a + 3);
  state ← store state a (to_u8 (Z.lxor (Z.lxor (Z.lxor (xtime a0) (Z.lxor (xtime a1) a1)) a2) a3));
  state ← store state (a + 1) (to_u8 (Z.lxor (Z.lxor (Z.lxor a0 (xtime a1)) (Z.lxor (xtime a2) a2)) a3));
  state ← store state (a + 2) (to_u8 (Z.lxor (Z.lxor (Z.lxor a0 a1) (xtime a2)) (Z.lxor (xtime a3) a3)));
  store state (a + 3) (to_u8 (Z.lxor (Z.lxor (Z.lxor (Z.lxor (xtime a0) a0) a1) a2) (xtime a3))).
Definition mix_columns (state : list Z) : exec (list Z) := for_to 0 4 mix_column state.

Definition inv_mix_column (col : nat) (state : list Z) : exec (list Z) :=
  let a := (4 * col)%nat in
  a0 ← load state a; a1 ← load state (a + 1); a2 ← load state (a + 2); a3 ← load state (a + 3);
  state ← store state a
    (to_u8 (Z.lxor (Z.lxor (Z.lxor (multiply a0 14) (multiply a1 11)) (multiply a2 13)) (multiply a3 9)));
  state ← store state (a + 1)
    (to_u8 (Z.lxor (Z.lxor (Z.lxor (multiply a0 9) (multiply a1 14)) (multiply a2 11)) (multiply a3 13)));
  state ← store state (a + 2)
    (to_u8 (Z.lxor (Z.lxor (Z.lxor (multiply a0 13) (multiply a1 9)) (multiply a2 14)) (multiply a3 11)));
  store state (a + 3)
    (to_u8 (Z.lxor (Z.lxor (Z.lxor (multiply a0 11) (multiply a1 13)) (multiply a2 9)) (multiply a3 14))).
Definition inv_mix_columns (state : list Z) : exec (list Z) := for_to 0 4 inv_mix_column state.

Definition add_round_key (round_keys_ state : list Z) (round : nat) : exec (list Z) :=
  for_to 0 block_size (fun i state =>
    v ← load state i; k ← load round_keys_ (round * block_size + i)%nat;
    store state i (to_u8 (Z.lxor v k))) state.

(** ** Key expansion *)

Definition expand_word (KeyBits word : nat) (round_keys_ : list Z) : exec (list Z) :=
  let key_words := (key_size KeyBits / 4)%nat in
  let base := (4 * (word - 1))%nat in
  let sbox v := load aes_sbox (Z.to_nat v) in
  t0 ← load round_keys_ base; t1 ← load round_keys_ (base + 1);
  t2 ← load round_keys_ (base + 2); t3 ← load round_keys_ (base + 3);
  temp ← (if (word mod key_words =? 0)%nat then
            s0 ← sbox t1; s1 ← sbox t2; s2 ← sbox t3; s3 ← sbox t0;
            Done [to_u8 (Z.lxor s0 (rcon (word / key_words))); s1; s2; s3]
          else if (KeyBits =? 256)%nat && (word mod key_words =? 4)%nat then
            s0 ← sbox t0; s1 ← sbox t1; s2 ← sbox t2; s3 ← sbox t3; Done [s0; s1; s2; s3]
          else Done [t0; t1; t2; t3]);
  for_to 0 4 (fun byte round_keys_ =>
    k ← load round_keys_ (4 * (word - key_words) + byte)%nat; t ← load temp byte;
    store round_keys_ (4 * word + byte)%nat (to_u8 (Z.lxor k t))) round_keys_.

Definition expand_key (KeyBits : nat) (round_keys_ key : list Z) : exec (list Z) :=
  let words := (4 * (rounds KeyBits + 1))%nat in
  let key_words := (key_size KeyBits / 4)%nat in
  round_keys_ ← for_to 0 (key_size KeyBits) (fun i rk => v ← load key i; store rk i v) round_keys_;
  for_to key_words (words - key_words) (expand_word KeyBits) round_keys_.

Definition set_key (KeyBits : nat) (round_keys_ : list Z) (key : ptr) : exec (status * list Z) :=
  match key with
  | None => Done (s_invalid_argument, round_keys_)
  | Some key => rk ← expand_key KeyBits round_keys_ key; Done (s_ok, rk)
  end.

(** The constructors; a null key counts as zeros. *)
Definition aes_new (KeyBits : nat) (key : ptr) : exec (list Z) :=
  expand_key KeyBits (replicate (16 * (rounds KeyBits + 1)) 0)
    (match key with Some k => k | None => replicate (key_size KeyBits) 0 end).

(** ** Blocks *)

Definition encrypt_round (round_keys_ : list Z) (round : nat) (state : list Z) : exec (list Z) :=
  state ← sub_bytes state; state ← shift_rows state; state ← mix_columns state;
  add_round_key round_keys_ state round.

Definition encrypt_block (KeyBits : nat) (round_keys_ : list Z) (input output : ptr) : exec ptr :=
  match input, output with
  | Some input, Some output =>
      state ← copy_block input (replicate block_size 0);
      state ← add_round_key round_keys_ state 0;
      state ← for_to 1 (rounds KeyBits - 1) (encrypt_round round_keys_) state;
      state ← sub_bytes state;
      state ← shift_rows state;
      state ← add_round_key round_keys_ state (rounds KeyBits);
      output ← copy_block state output;
      Done (Some output)
  | _, _ => Done output
  end.

(** The round counts down from [rounds] to 2: iteration [i] is round [rounds - i]. *)
Definition decrypt_round (KeyBits : nat) (round_keys_ : list Z) (i : nat) (state : list Z) : exec (list Z) :=
  let round := (rounds KeyBits - i)%nat in
  state ← inv_shift_rows state; state ← inv_sub_bytes state;
  state ← add_round_key round_keys_ state (round - 1);
  inv_mix_columns state.

Definition decrypt_block (KeyBits : nat) (round_keys_ : list Z) (input output : ptr) : exec ptr :=
  match input, output with
  | Some input, Some output =>
      state ← copy_block input (replicate block_size 0);
      state ← add_round_key round_keys_ state (rounds KeyBits);
      state ← for_to 0 (rounds KeyBits - 1) (decrypt_round KeyBits round_keys_) state;
      state ← inv_shift_rows state;
      state ← inv_sub_bytes state;
      state ← add_round_key round_keys_ state 0;
      output ← copy_block state output;
      Done (Some output)
  | _, _ => Done output
  end.

(** [for (i = block_size; i > 12; --i)]: increment a byte, stop unless it wrapped. *)
Definition increment_body (j : nat) (counter : list Z) : exec (ctl (list Z) (list Z)) :=
  let i := (block_size - j)%nat in
  v ← load counter (i - 1);
  let v := to_u8 (v + 1) in
  counter ← store counter (i - 1) v;
  if negb (v =? 0) then Done (Return counter) else Done (Next counter).
Definition increment_counter (counter : list Z) : exec (list Z) :=
  after (for_range 0 4 increment_body counter) Done.

Definition crypt_ctr (KeyBits : nat) (round_keys_ : list Z) (data : ptr) (size : nat) (counter_block : ptr)
    : exec (status * ptr * ptr) :=
  Ctr.crypt_ctr (encrypt_block KeyBits round_keys_) increment_counter (replicate 16 0) data size counter_block.

(** The test vectors of FIPS 197, appendix C. *)
Definition plain : list Z := [0; 17; 34; 51; 68; 85; 102; 119; 136; 153; 170; 187; 204; 221; 238; 255].
Definition test_key (n : nat) : list Z := Z.of_nat <$> seq 0 n.
Definition encrypt_with (KeyBits : nat) : exec ptr :=
  rk ← aes_new KeyBits (Some (test_key (key_size KeyBits)));
  encrypt_block KeyBits rk (Some plain) (Some (replicate 16 0)).
Example aes_vector128 : encrypt_with 128
  = Done (Some [105; 196; 224; 216; 106; 123; 4; 48; 216; 205; 183; 128; 112; 180; 197; 90]).
Proof. vm_compute. reflexivity. Qed.
Example aes_vector192 : encrypt_with 192
  = Done (Some [221; 169; 124; 164; 134; 76; 223; 224; 110; 175; 112; 160; 236; 13; 113; 145]).
Proof. vm_compute. reflexivity. Qed.
Example aes_vector256 : encrypt_with 256
  = Done (Some [142; 162; 183; 202; 81; 103; 69; 191; 234; 252; 73; 144; 75; 73; 96; 137]).
Proof. vm_compute. reflexivity. Qed.

(** ** The field: [xtime] is linear *)

Lemma land_128 v : negb (Z.land v 128 =? 0) = Z.testbit v 7.
Proof.
  destruct (Z.testbit v 7) eqn:Hv.
  - apply negb_true_iff, Z.eqb_neq. intros H. apply (f_equal (fun z => Z.testbit z 7)) in H.
    rewrite Z.land_spec, Hv, Z.bits_0 in H. done.
  - apply negb_false_iff, Z.eqb_eq. apply Z.bits_inj'. intros i Hi. rewrite Z.land_spec, Z.bits_0.
    change 128 with (2 ^ 7). rewrite Z.pow2_bits_eqb by lia. destruct (Z.eqb_spec 7 i) as [<-|]; [by rewrite Hv|].
    apply andb_false_r.
Qed.

Lemma wrap_idem w z : wrap w (wrap w z) = wrap w z.
Proof. apply Zmod_mod. Qed.

Lemma xtime_lxor a b : xtime (Z.lxor a b) = Z.lxor (xtime a) (xtime b).
Proof.
  unfold xtime. rewrite !land_128, Z.lxor_spec, <-wrap_lxor by lia. f_equal. rewrite Z.shiftl_lxor.
  apply Z.bits_inj'. intros i Hi. rewrite !Z.lxor_spec.
  destruct (Z.testbit a 7), (Z.testbit b 7); cbn [xorb]; rewrite ?Z.bits_0; btauto.
Qed.

Lemma xtime_wrap a : xtime (to_u8 a) = xtime a.
Proof.
  unfold xtime. rewrite !land_128, wrap_bits by lia. cbn [Z.ltb Z.compare Pos.compare Pos.compare_cont andb].
  rewrite !wrap_lxor by lia. f_equal. apply Z.bits_inj'. intros i Hi.
  rewrite !wrap_bits, !Z.shiftl_spec by lia.
  destruct (Z.ltb_spec i 8); [|done]. cbn [andb]. destruct (decide (i = 0)) as [->|]; [by rewrite !Z.testbit_neg_r by lia|].
  rewrite wrap_bits by lia. by rewrite (proj2 (Z.ltb_lt (i - 1) 8)) by lia.
Qed.

Lemma wrap_xtime a : to_u8 (xtime a) = xtime a.
Proof. unfold xtime. apply wrap_idem. Qed.

(** One column through [mix_columns] and through [inv_mix_columns]. *)
Definition mix0 (a0 a1 a2 a3 : Z) : Z := to_u8 (Z.lxor (Z.lxor (Z.lxor (xtime a0) (Z.lxor (xtime a1) a1)) a2) a3).
Definition mix1 (a0 a1 a2 a3 : Z) : Z := to_u8 (Z.lxor (Z.lxor (Z.lxor a0 (xtime a1)) (Z.lxor (xtime a2) a2)) a3).
Definition mix2 (a0 a1 a2 a3 : Z) : Z := to_u8 (Z.lxor (Z.lxor (Z.lxor a0 a1) (xtime a2)) (Z.lxor (xtime a3) a3)).
Definition mix3 (a0 a1 a2 a3 : Z) : Z :=
  to_u8 (Z.lxor (Z.lxor (Z.lxor (Z.lxor (xtime a0) a0) a1) a2) (xtime a3)).
Definition unmix (k0 k1 k2 k3 a0 a1 a2 a3 : Z) : Z :=
  to_u8 (Z.lxor (Z.lxor (Z.lxor (multiply a0 k0) (multiply a1 k1)) (multiply a2 k2)) (multiply a3 k3)).

Lemma multiply_14 x : multiply x 14 = Z.lxor (Z.lxor (xtime x) (xtime (xtime x))) (xtime (xtime (xtime x))).
Proof.
  change (multiply x 14) with (to_u8 (Z.lxor (to_u8 (Z.lxor (to_u8 (Z.lxor 0 (xtime x))) (xtime (xtime x)))) (xtime (xtime (xtime x))))).
  by rewrite !wrap_lxor, !wrap_idem, !wrap_xtime, Z.lxor_0_l by lia.
Qed.
Lemma multiply_9 x : multiply x 9 = Z.lxor (to_u8 x) (xtime (xtime (xtime x))).
Proof.
  change (multiply x 9) with (to_u8 (Z.lxor (to_u8 (Z.lxor 0 x)) (xtime (xtime (xtime x))))).
  by rewrite !wrap_lxor, !wrap_idem, !wrap_xtime, Z.lxor_0_l by lia.
Qed.
Lemma multiply_11 x : multiply x 11 = Z.lxor (Z.lxor (to_u8 x) (xtime x)) (xtime (xtime (xtime x))).
Proof.
  change (multiply x 11) with (to_u8 (Z.lxor (to_u8 (Z.lxor (to_u8 (Z.lxor 0 x)) (xtime x))) (xtime (xtime (xtime x))))).
  by rewrite !wrap_lxor, !wrap_idem, !wrap_xtime, Z.lxor_0_l by lia.
Qed.
Lemma multiply_13 x : multiply x 13 = Z.lxor (Z.lxor (to_u8 x) (xtime (xtime x))) (xtime (xtime (xtime x))).
Proof.
  change (multiply x 13) with (to_u8 (Z.lxor (to_u8 (Z.lxor (to_u8 (Z.lxor 0 x)) (xtime (xtime x)))) (xtime (xtime (xtime x))))).
  by rewrite !wrap_lxor, !wrap_idem, !wrap_xtime, Z.lxor_0_l by lia.
Qed.

#[local] Opaque xtime multiply.

(** The matrices of the two transformations are inverse to each other. *)
Lemma unmix_mix a0 a1 a2 a3 :
  byte a0 -> byte a1 -> byte a2 -> byte a3 ->
  let m0 := mix0 a0 a1 a2 a3 in let m1 := mix1 a0 a1 a2 a3 in
  let m2 := mix2 a0 a1 a2 a3 in let m3 := mix3 a0 a1 a2 a3 in
  unmix 14 11 13 9 m0 m1 m2 m3 = a0 /\ unmix 9 14 11 13 m0 m1 m2 m3 = a1
  /\ unmix 13 9 14 11 m0 m1 m2 m3 = a2 /\ unmix 11 13 9 14 m0 m1 m2 m3 = a3.
Proof.
  intros H0 H1 H2 H3. cbv zeta. unfold unmix.
  rewrite !multiply_14, !multiply_11, !multiply_13, !multiply_9. unfold mix0, mix1, mix2, mix3.
  rewrite !xtime_wrap, !xtime_lxor, !wrap_lxor, !wrap_idem, !wrap_xtime by lia.
  rewrite !(byte_u8 a0), !(byte_u8 a1), !(byte_u8 a2), !(byte_u8 a3) by done.
  split_and!; apply Z.bits_inj'; intros i Hi; rewrite !Z.lxor_spec; btauto.
Qed.

(** ** States *)

Definition is_state (s : list Z) : Prop := length s = 16%nat /\ Forall byte s.

(** A state element by element. *)
Ltac state_cases s Hs :=
  let Hl := fresh in destruct Hs as [Hl Hs];
  do 16 (destruct s as [|? s]; [discriminate|]); destruct s; [|discriminate]; clear Hl;
  rewrite !Forall_cons in Hs; destruct_and! Hs.

Lemma copy_block_ok src dst : length src = 16%nat -> length dst = 16%nat -> copy_block src dst = Done src.
Proof.
  intros Hs Hd. unfold copy_block, block_size.
  rewrite (for_to_imap (fun i _ => nth i src 0)).
  - f_equal. apply list_eq. intros i. rewrite list_lookup_imap.
    destruct (decide (i < 16)%nat) as [Hi|Hi].
    + destruct (lookup_lt_is_Some_2 dst i) as [v ->]; [lia|]. cbn.
      destruct (lookup_lt_is_Some_2 src i) as [w Hw]; [lia|]. rewrite Hw. f_equal. by apply nth_lookup_Some.
    + rewrite !lookup_ge_None_2 by lia. done.
  - done.
  - intros i v st Hv Hst Hlen. apply lookup_lt_Some in Hv.
    destruct (lookup_lt_is_Some_2 src i) as [w Hw]; [lia|].
    rewrite (load_Done _ _ _ Hw). exec_simpl. rewrite store_Done by lia.
    by rewrite (nth_lookup_Some _ _ _ _ Hw).
Qed.

(** The substitution with a table and its inverse. *)
Definition lookup_table (tab : list Z) (v : Z) : Z := nth (Z.to_nat v) tab 0.

Lemma substitute_ok tab s :
  length tab = 256%nat -> Forall byte tab -> is_state s ->
  for_to 0 16 (fun i state => v ← load state i; w ← load tab (Z.to_nat v); store state i w) s
  = Done (lookup_table tab <$> s) /\ is_state (lookup_table tab <$> s).
Proof.
  intros Ht Htb [Hl Hb].
  assert (Hload : forall v, byte v -> load tab (Z.to_nat v) = Done (lookup_table tab v) /\ byte (lookup_table tab v)).
  { intros v Hv. destruct (table_load tab v Ht Htb Hv) as (w & Hw & Hwb). unfold lookup_table.
    rewrite Hw. apply load_inv in Hw. by rewrite (nth_lookup_Some _ _ _ _ Hw). }
  rewrite Forall_lookup in Hb. split.
  - rewrite (for_to_imap (fun _ => lookup_table tab)); [f_equal; exact (imap_const (lookup_table tab) s)|done|].
    intros i v st Hv Hst Hlen. rewrite (load_Done _ _ _ Hst). exec_simpl.
    rewrite (proj1 (Hload v (Hb _ _ Hv))). exec_simpl. apply store_Done. by eapply lookup_lt_Some.
  - split; [by rewrite length_fmap|]. apply Forall_fmap, Forall_lookup. intros i v Hv. by apply Hload, (Hb i).
Qed.

Lemma sboxes_inverse :
  (length aes_sbox = 256%nat /\ Forall byte aes_sbox) /\ (length aes_inv_sbox = 256%nat /\ Forall byte aes_inv_sbox)
  /\ forall v, byte v -> lookup_table aes_inv_sbox (lookup_table aes_sbox v) = v
                         /\ lookup_table aes_sbox (lookup_table aes_inv_sbox v) = v.
Proof.
  split_and!; [done|..|done| |].
  - apply (bool_decide_unpack (Forall (fun d => 0 <= d < 256) aes_sbox)). vm_compute. exact I.
  - apply (bool_decide_unpack (Forall (fun d => 0 <= d < 256) aes_inv_sbox)). vm_compute. exact I.
  - intros v Hv.
    apply (all_below_decide 256 (fun v => lookup_table aes_inv_sbox (lookup_table aes_sbox v) = v
                         /\ lookup_table aes_sbox (lookup_table aes_inv_sbox v) = v)); [vm_compute; reflexivity|exact Hv].
Qed.

(** Each transformation of a state succeeds and is undone by its inverse. *)
Lemma sub_bytes_ok s :
  is_state s -> exists s', sub_bytes s = Done s' /\ is_state s' /\ inv_sub_bytes s' = Done s.
Proof.
  intros Hs. destruct sboxes_inverse as ([Hl Hb] & [Hl' Hb'] & Hinv).
  destruct (substitute_ok aes_sbox s Hl Hb Hs) as [Hrun Hs']. eexists. split; [exact Hrun|]. split; [done|].
  destruct (substitute_ok aes_inv_sbox _ Hl' Hb' Hs') as [Hrun' _]. unfold inv_sub_bytes, block_size. rewrite Hrun'.
  f_equal. rewrite <-list_fmap_compose. rewrite <-(list_fmap_id s) at 2. apply list_fmap_ext.
  intros i v Hv. destruct Hs as [_ Hsb]. rewrite Forall_lookup in Hsb. by apply Hinv, (Hsb i).
Qed.

Lemma shift_rows_ok s :
  is_state s -> exists s', shift_rows s = Done s' /\ is_state s' /\ inv_shift_rows s' = Done s.
Proof.
  intros Hs. state_cases s Hs. eexists. split; [reflexivity|]. split; [|reflexivity].
  split; [done|]. by repeat first [apply Forall_nil_2|apply Forall_cons_2].
Qed.

Lemma mix_columns_ok s :
  is_state s -> exists s', mix_columns s = Done s' /\ is_state s' /\ inv_mix_columns s' = Done s.
Proof.
  intros Hs. state_cases s Hs.
  exists [mix0 z z0 z1 z2; mix1 z z0 z1 z2; mix2 z z0 z1 z2; mix3 z z0 z1 z2;
          mix0 z3 z4 z5 z6; mix1 z3 z4 z5 z6; mix2 z3 z4 z5 z6; mix3 z3 z4 z5 z6;
          mix0 z7 z8 z9 z10; mix1 z7 z8 z9 z10; mix2 z7 z8 z9 z10; mix3 z7 z8 z9 z10;
          mix0 z11 z12 z13 z14; mix1 z11 z12 z13 z14; mix2 z11 z12 z13 z14; mix3 z11 z12 z13 z14].
  split; [reflexivity|]. split.
  { split; [done|]. repeat first [apply Forall_nil_2|apply Forall_cons_2]; apply (wrap_in_width 8); lia. }
  assert (Hinv : forall b0 b1 b2 b3 b4 b5 b6 b7 b8 b9 b10 b11 b12 b13 b14 b15,
    inv_mix_columns [b0; b1; b2; b3; b4; b5; b6; b7; b8; b9; b10; b11; b12; b13; b14; b15]
    = Done [unmix 14 11 13 9 b0 b1 b2 b3; unmix 9 14 11 13 b0 b1 b2 b3; unmix 13 9 14 11 b0 b1 b2 b3; unmix 11 13 9 14 b0 b1 b2 b3;
            unmix 14 11 13 9 b4 b5 b6 b7; unmix 9 14 11 13 b4 b5 b6 b7; unmix 13 9 14 11 b4 b5 b6 b7; unmix 11 13 9 14 b4 b5 b6 b7;
            unmix 14 11 13 9 b8 b9 b10 b11; unmix 9 14 11 13 b8 b9 b10 b11; unmix 13 9 14 11 b8 b9 b10 b11; unmix 11 13 9 14 b8 b9 b10 b11;
            unmix 14 11 13 9 b12 b13 b14 b15; unmix 9 14 11 13 b12 b13 b14 b15; unmix 13 9 14 11 b12 b13 b14 b15; unmix 11 13 9 14 b12 b13 b14 b15])
    by reflexivity.
  rewrite Hinv.
  destruct (unmix_mix z z0 z1 z2) as (-> & -> & -> & ->); [done..|].
  destruct (unmix_mix z3 z4 z5 z6) as (-> & -> & -> & ->); [done..|].
  destruct (unmix_mix z7 z8 z9 z10) as (-> & -> & -> & ->); [done..|].
  destruct (unmix_mix z11 z12 z13 z14) as (-> & -> & -> & ->); [done..|]. done.
Qed.

Definition keys_ok (KeyBits : nat) (rk : list Z) : Prop :=
  length rk = (16 * (rounds KeyBits + 1))%nat /\ Forall byte rk.

Lemma add_round_key_ok KeyBits rk s r :
  keys_ok KeyBits rk -> is_state s -> (r <= rounds KeyBits)%nat ->
  exists s', add_round_key rk s r = Done s' /\ is_state s' /\ add_round_key rk s' r = Done s.
Proof.
  intros [Hkl Hkb] [Hl Hb] Hr. rewrite Forall_lookup in Hkb.
  set (f := fun i v => Z.lxor v (nth (r * 16 + i) rk 0)).
  assert (Hkey : forall i, (i < 16)%nat -> load rk (r * block_size + i) = Done (nth (r * 16 + i) rk 0)
                           /\ byte (nth (r * 16 + i) rk 0)).
  { intros i Hi. unfold block_size. destruct (lookup_lt_is_Some_2 rk (r * 16 + i)) as [k Hk]; [lia|].
    rewrite (load_Done _ _ _ Hk), (nth_lookup_Some _ _ _ _ Hk). split; [done|]. by eapply Hkb. }
  assert (Hrun : forall s, is_state s -> add_round_key rk s r = Done (imap f s) /\ is_state (imap f s)).
  { intros s0 [Hl0 Hb0]. rewrite Forall_lookup in Hb0. split.
    - unfold add_round_key, block_size. apply for_to_imap; [done|]. intros i v st Hv Hst Hlen.
      pose proof (lookup_lt_Some _ _ _ Hv) as Hi. rewrite Hl0 in Hi. destruct (Hkey i Hi) as [Hk Hkb'].
      rewrite (load_Done _ _ _ Hst). exec_simpl. unfold block_size in Hk. rewrite Hk. exec_simpl.
      rewrite byte_u8 by (apply lxor_byte; [by eapply Hb0|done]). apply store_Done. lia.
    - split; [by rewrite length_imap|]. apply Forall_lookup. intros i w Hw. rewrite list_lookup_imap in Hw.
      destruct (s0 !! i) as [v|] eqn:Hv; [|done]. cbn in Hw. injection Hw as <-.
      pose proof (lookup_lt_Some _ _ _ Hv) as Hi. apply lxor_byte; [by eapply Hb0|apply Hkey; lia]. }
  destruct (Hrun s (conj Hl Hb)) as [Hr1 Hs1]. exists (imap f s). split; [done|]. split; [done|].
  destruct (Hrun _ Hs1) as [-> _]. f_equal. apply list_eq. intros i. rewrite !list_lookup_imap.
  destruct (s !! i) as [v|]; [|done]. cbn. f_equal. unfold f.
  by rewrite Z.lxor_assoc, Z.lxor_nilpotent, Z.lxor_0_r.
Qed.

(** ** Rounds *)

Definition sub_shift (state : list Z) : exec (list Z) := state ← sub_bytes state; shift_rows state.

Lemma sub_shift_ok s :
  is_state s -> exists t, sub_shift s = Done t /\ is_state t
    /\ exists u, inv_shift_rows t = Done u /\ inv_sub_bytes u = Done s.
Proof.
  intros Hs. destruct (sub_bytes_ok s Hs) as (u & E1 & Hu & I1). destruct (shift_rows_ok u Hu) as (t & E2 & Ht & I2).
  exists t. unfold sub_shift. rewrite E1. exec_simpl. split; [done|]. split; [done|]. by exists u.
Qed.

#[local] Opaque sub_bytes shift_rows mix_columns add_round_key inv_sub_bytes inv_shift_rows inv_mix_columns copy_block.

Lemma encrypt_round_ok KeyBits rk s r :
  keys_ok KeyBits rk -> is_state s -> (r <= rounds KeyBits)%nat ->
  exists s', encrypt_round rk r s = Done s' /\ is_state s'
    /\ forall t i, sub_shift s' = Done t -> (i + r + 1 = rounds KeyBits)%nat ->
         decrypt_round KeyBits rk i t = sub_shift s.
Proof.
  intros Hk Hs Hr. destruct (sub_shift_ok s Hs) as (t & E1 & Ht & _).
  destruct (mix_columns_ok t Ht) as (m & E2 & Hm & I2).
  destruct (add_round_key_ok KeyBits rk m r Hk Hm Hr) as (s' & E3 & Hs' & I3). exists s'. split_and!.
  - unfold encrypt_round. unfold sub_shift in E1. destruct (sub_bytes s) as [a|]; [|done]. exec_simpl.
    cbn [mbind exec_bind] in E1. rewrite E1. exec_simpl. rewrite E2. exec_simpl. done.
  - done.
  - intros t' i Et Hi. destruct (sub_shift_ok s' Hs') as (t'' & Et' & _ & u & Eu & Ev).
    rewrite Et in Et'. injection Et' as <-. unfold decrypt_round. rewrite Eu. exec_simpl. rewrite Ev. exec_simpl.
    replace (rounds KeyBits - i - 1)%nat with r by lia. rewrite I3. exec_simpl. by rewrite E1.
Qed.

Lemma rounds_ok KeyBits rk s n :
  keys_ok KeyBits rk -> is_state s -> (n < rounds KeyBits)%nat ->
  exists s', for_to 1 n (encrypt_round rk) s = Done s' /\ is_state s'
    /\ forall t, sub_shift s' = Done t ->
         for_to (rounds KeyBits - 1 - n) n (decrypt_round KeyBits rk) t = sub_shift s.
Proof.
  intros Hk Hs. induction n as [|n IH]; intros Hn.
  { exists s. split; [done|]. split; [done|]. by intros t ->. }
  destruct IH as (s1 & E1 & Hs1 & D1); [lia|].
  destruct (encrypt_round_ok KeyBits rk s1 (1 + n) Hk Hs1) as (s2 & E2 & Hs2 & D2); [lia|].
  exists s2. split; [|split; [done|]].
  - rewrite for_to_snoc, E1. exec_simpl. exact E2.
  - intros t Et. rewrite for_to_S, (D2 t) by (done || lia).
    destruct (sub_shift_ok s1 Hs1) as (t1 & Et1 & _). rewrite Et1. exec_simpl.
    replace (S (rounds KeyBits - 1 - S n)) with (rounds KeyBits - 1 - n)%nat by lia. by apply D1.
Qed.

Definition key_bits (KeyBits : nat) : Prop := KeyBits = 128%nat \/ KeyBits = 192%nat \/ KeyBits = 256%nat.

Lemma encrypt_decrypt KeyBits rk b :
  key_bits KeyBits -> keys_ok KeyBits rk -> is_state b ->
  exists c, is_state c
    /\ (forall out, length out = 16%nat -> encrypt_block KeyBits rk (Some b) (Some out) = Done (Some c))
    /\ (forall out, length out = 16%nat -> decrypt_block KeyBits rk (Some c) (Some out) = Done (Some b)).
Proof.
  intros HK Hk Hb.
  assert (HR : (2 <= rounds KeyBits)%nat) by (destruct HK as [-> | [-> | ->]]; cbn; lia).
  destruct (add_round_key_ok KeyBits rk b 0 Hk Hb) as (s0 & E0 & Hs0 & I0); [lia|].
  destruct (rounds_ok KeyBits rk s0 (rounds KeyBits - 1) Hk Hs0) as (s1 & E1 & Hs1 & D1); [lia|].
  destruct (sub_shift_ok s1 Hs1) as (t & Et & Ht & _).
  destruct (sub_shift_ok s0 Hs0) as (t0 & Et0 & _ & u & Eu & Ev).
  destruct (add_round_key_ok KeyBits rk t (rounds KeyBits) Hk Ht) as (c & Ec & Hc & Ic); [lia|].
  specialize (D1 t Et). rewrite Nat.sub_diag, Et0 in D1.
  exists c. destruct Hb as [Hbl Hbb]. split; [done|]. split; intros out Ho.
  - unfold encrypt_block. rewrite copy_block_ok by done. exec_simpl. rewrite E0. exec_simpl. rewrite E1. exec_simpl.
    unfold sub_shift in Et. destruct (sub_bytes s1) as [a|]; [|done]. cbn [mbind exec_bind] in Et |- *.
    rewrite Et. exec_simpl. rewrite Ec. exec_simpl. by rewrite copy_block_ok by (done || apply Hc).
  - unfold decrypt_block. rewrite copy_block_ok by (done || apply Hc). exec_simpl. rewrite Ic. exec_simpl. rewrite D1. exec_simpl.
    rewrite Eu. exec_simpl. rewrite Ev. exec_simpl. rewrite I0. exec_simpl. by rewrite copy_block_ok by done.
Qed.

(** ** The key schedule *)

Lemma xtime_byte v : byte (xtime v).
Proof. rewrite <-wrap_xtime. by apply (wrap_in_width 8). Qed.

Lemma rcon_byte i : byte (rcon i).
Proof. unfold rcon. destruct (i - 1)%nat; cbn [Nat.iter nat_rect]; [unfold byte; lia|apply xtime_byte]. Qed.

Lemma keys_load KeyBits rk i :
  keys_ok KeyBits rk -> (i < 16 * (rounds KeyBits + 1))%nat -> exists v, load rk i = Done v /\ byte v.
Proof.
  intros [Hl Hb] Hi. destruct (lookup_lt_is_Some_2 rk i) as [v Hv]; [lia|]. exists v.
  split; [by apply load_Done|]. rewrite Forall_lookup in Hb. by eapply Hb.
Qed.

Lemma keys_store KeyBits rk i v :
  keys_ok KeyBits rk -> byte v -> (i < 16 * (rounds KeyBits + 1))%nat ->
  exists rk', store rk i v = Done rk' /\ keys_ok KeyBits rk'.
Proof.
  intros [Hl Hb] Hv Hi. exists (<[i:=v]> rk). split; [apply store_Done; lia|].
  split; [by rewrite length_insert|by apply Forall_insert].
Qed.

Lemma sbox_load v : byte v -> exists s, load aes_sbox (Z.to_nat v) = Done s /\ byte s.
Proof. destruct sboxes_inverse as ([Hl Hb] & _). by apply table_load. Qed.

Lemma expand_word_ok KeyBits rk word :
  key_bits KeyBits -> keys_ok KeyBits rk -> (key_size KeyBits / 4 <= word < 4 * (rounds KeyBits + 1))%nat ->
  exists rk', expand_word KeyBits word rk = Done rk' /\ keys_ok KeyBits rk'.
Proof.
  intros HK Hk Hw. assert (H0 : (1 <= key_size KeyBits / 4)%nat) by (destruct HK as [-> | [-> | ->]]; cbn; lia).
  unfold expand_word. set (kw := (key_size KeyBits / 4)%nat) in *. set (base := (4 * (word - 1))%nat).
  destruct (keys_load KeyBits rk base Hk ltac:(lia)) as (t0 & -> & Ht0),
    (keys_load KeyBits rk (base + 1) Hk ltac:(lia)) as (t1 & -> & Ht1),
    (keys_load KeyBits rk (base + 2) Hk ltac:(lia)) as (t2 & -> & Ht2),
    (keys_load KeyBits rk (base + 3) Hk ltac:(lia)) as (t3 & -> & Ht3). exec_simpl.
  destruct (sbox_load t0 Ht0) as (s0 & -> & Hs0), (sbox_load t1 Ht1) as (s1 & -> & Hs1),
    (sbox_load t2 Ht2) as (s2 & -> & Hs2), (sbox_load t3 Ht3) as (s3 & -> & Hs3). exec_simpl.
  set (temp := if (word mod kw =? 0)%nat then _ else _).
  assert (Ht : exists ws, temp = Done ws /\ length ws = 4%nat /\ Forall byte ws).
  { unfold temp. repeat case_match; eexists; (split; [reflexivity|]); (split; [reflexivity|]);
      repeat first [apply Forall_nil_2|apply Forall_cons_2]; try done. by apply (wrap_in_width 8). }
  destruct Ht as (ws & -> & Hwl & Hwb). exec_simpl. rewrite Forall_lookup in Hwb.
  edestruct (for_to_inv (fun _ st => keys_ok KeyBits st)) as (st & -> & Hst); [exact Hk| |by exists st].
  intros i st Hi Hst. cbn beta.
  destruct (keys_load KeyBits st (4 * (word - kw) + i) Hst ltac:(lia)) as (k & -> & Hkb).
  exec_simpl. destruct (lookup_lt_is_Some_2 ws i) as [t Htl]; [lia|]. rewrite (load_Done _ _ _ Htl). exec_simpl.
  apply keys_store; [done|by apply (wrap_in_width 8)|lia].
Qed.

Lemma expand_key_ok KeyBits rk key :
  key_bits KeyBits -> keys_ok KeyBits rk -> length key = key_size KeyBits -> Forall byte key ->
  exists rk', expand_key KeyBits rk key = Done rk' /\ keys_ok KeyBits rk'.
Proof.
  intros HK Hk Hl Hb. rewrite Forall_lookup in Hb.
  assert (Hsz : (key_size KeyBits < 16 * (rounds KeyBits + 1)
                 /\ key_size KeyBits / 4 <= 4 * (rounds KeyBits + 1))%nat)
    by (destruct HK as [-> | [-> | ->]]; cbn; lia).
  unfold expand_key.
  edestruct (for_to_inv (fun _ st => keys_ok KeyBits st)) as (rk1 & -> & Hk1); [exact Hk| |].
  { intros i st Hi Hst. cbn beta. destruct (lookup_lt_is_Some_2 key i) as [v Hv]; [lia|].
    rewrite (load_Done _ _ _ Hv). exec_simpl. apply keys_store; [done|by eapply Hb|lia]. }
  exec_simpl. edestruct (for_to_inv (fun _ st => keys_ok KeyBits st)) as (rk2 & -> & Hk2); [exact Hk1| |by exists rk2].
  intros i st Hi Hst. apply expand_word_ok; [done..|lia].
Qed.

(** ** The counter *)

Lemma be_bytes_digits d0 d1 d2 d3 :
  byte d0 -> byte d1 -> byte d2 -> byte d3 ->
  be_bytes 4 (d0 + 256 * (d1 + 256 * (d2 + 256 * d3))) = [d3; d2; d1; d0].
Proof.
  intros H0 H1 H2 H3. pose proof (le_digits_val 256 [d0; d1; d2; d3]) as H.
  cbn [le_val length] in H. rewrite Z.mul_0_r, Z.add_0_r in H. unfold be_bytes, le_bytes.
  rewrite H; [done|lia|]. by repeat first [apply Forall_nil_2|apply Forall_cons_2].
Qed.

Lemma increment_body_at pre d post j :
  byte d -> (length pre + j = 15)%nat ->
  increment_body j (pre ++ d :: post)
  = if decide (d = 255) then Done (Next (pre ++ 0 :: post)) else Done (Return (pre ++ (d + 1) :: post)).
Proof.
  unfold byte. intros Hd Hj. unfold increment_body, block_size.
  replace (16 - j - 1)%nat with (length pre) by lia.
  rewrite (load_Done _ _ d) by (by apply list_lookup_middle). exec_simpl.
  rewrite store_Done by (rewrite length_app; cbn; lia). exec_simpl.
  rewrite <-(Nat.add_0_r (length pre)), insert_app_r. cbn [insert list_insert].
  case_decide as E; [by subst|]. rewrite wrap_small by (unfold in_width; lia).
  by rewrite (proj2 (Z.eqb_neq _ _)) by lia.
Qed.

#[local] Opaque increment_body.

#[export] Instance increment_counter_ok : Increments increment_counter.
Proof.
  intros nonce c Hn Hc.
  assert (Hd : exists d0 d1 d2 d3, byte d0 /\ byte d1 /\ byte d2 /\ byte d3
                 /\ c = d0 + 256 * (d1 + 256 * (d2 + 256 * d3))).
  { exists (c mod 256), (c / 256 mod 256), (c / 256 / 256 mod 256), (c / 256 / 256 / 256).
    unfold byte. split_and!; Z.to_euclidean_division_equations; lia. }
  destruct Hd as (d0 & d1 & d2 & d3 & H0 & H1 & H2 & H3 & ->).
  assert (Hnext : forall e0 e1 e2 e3, byte e0 -> byte e1 -> byte e2 -> byte e3 ->
    d0 + 256 * (d1 + 256 * (d2 + 256 * d3)) + 1 = e0 + 256 * (e1 + 256 * (e2 + 256 * e3)) ->
    Done (nonce ++ [e3; e2; e1; e0]) = Done (counter_at nonce (d0 + 256 * (d1 + 256 * (d2 + 256 * d3)) + 1))).
  { intros e0 e1 e2 e3 ???? ->. unfold counter_at. by rewrite be_bytes_digits. }
  unfold counter_at at 1. rewrite be_bytes_digits by done. unfold increment_counter, for_range.
  pose proof (fun d post => increment_body_at (nonce ++ [d3; d2; d1]) d post 0) as B0.
  pose proof (fun d post => increment_body_at (nonce ++ [d3; d2]) d post 1) as B1.
  pose proof (fun d post => increment_body_at (nonce ++ [d3]) d post 2) as B2.
  pose proof (fun d post => increment_body_at nonce d post 3) as B3.
  setoid_rewrite length_app in B0. setoid_rewrite length_app in B1. setoid_rewrite length_app in B2.
  setoid_rewrite <-app_assoc in B0. setoid_rewrite <-app_assoc in B1. setoid_rewrite <-app_assoc in B2.
  cbn [app length] in *. unfold byte in *.
  rewrite B0 by lia. case_decide; cbn [after]; rewrite <-?app_assoc; cbn [app]; [|apply Hnext; lia].
  rewrite B1 by lia. case_decide; cbn [after]; rewrite <-?app_assoc; cbn [app]; [|apply Hnext; lia].
  rewrite B2 by lia. case_decide; cbn [after]; rewrite <-?app_assoc; cbn [app]; [|apply Hnext; lia].
  rewrite B3 by lia. case_decide; cbn [after]; [lia|apply Hnext; lia].
Qed.

(** ** The cipher *)

Definition E (KeyBits : nat) (rk b : list Z) : list Z :=
  match encrypt_block KeyBits rk (Some b) (Some (replicate 16 0)) with Done (Some c) => c | _ => [] end.

#[export] Instance aes_block_cipher KeyBits rk :
  key_bits KeyBits -> keys_ok KeyBits rk -> BlockCipher (encrypt_block KeyBits rk) (E KeyBits rk).
Proof.
  intros HK Hk. split.
  - intros b out Hl Hb Ho. destruct (encrypt_decrypt KeyBits rk b HK Hk (conj Hl Hb)) as (c & _ & Ec & _).
    unfold E. by rewrite !Ec.
  - intros b Hl Hb. destruct (encrypt_decrypt KeyBits rk b HK Hk (conj Hl Hb)) as (c & Hc & Ec & _).
    unfold E. by rewrite Ec.
Qed.

(** AES decrypts what it encrypts, for the three key sizes: under every key the key
    schedule stays inside its array and succeeds (also when an object is re-keyed), every
    encrypted block decrypts to the block it came from, and [crypt_ctr] is an involution
    from a given counter that can be resumed at any block boundary and refuses to wrap
    the counter. *)
Theorem aes_roundtrip KeyBits key :
  key_bits KeyBits -> length key = key_size KeyBits -> Forall byte key ->
  exists rk, aes_new KeyBits (Some key) = Done rk /\ keys_ok KeyBits rk
    /\ (forall key', length key' = key_size KeyBits -> Forall byte key' ->
          exists rk', set_key KeyBits rk (Some key') = Done (s_ok, rk') /\ keys_ok KeyBits rk')
    /\ forall rk, keys_ok KeyBits rk ->
         (forall b out out', length b = 16%nat -> Forall byte b -> length out = 16%nat -> length out' = 16%nat ->
            exists c, length c = 16%nat /\ Forall byte c
              /\ encrypt_block KeyBits rk (Some b) (Some out) = Done (Some c)
              /\ decrypt_block KeyBits rk (Some c) (Some out') = Done (Some b))
         /\ ctr_mode (encrypt_block KeyBits rk) increment_counter.
Proof.
  intros HK Hl Hb.
  destruct (expand_key_ok KeyBits (replicate (16 * (rounds KeyBits + 1)) 0) key) as (rk & E1 & Hrk); [done| |done..|].
  { split; [apply length_replicate|by apply Forall_replicate]. }
  exists rk. split_and!; [done|done|..].
  - intros key' Hl' Hb'. destruct (expand_key_ok KeyBits rk key') as (rk' & E2 & Hrk'); [done..|].
    exists rk'. cbn [set_key]. by rewrite E2.
  - intros rk0 Hrk0. split.
    + intros b out out' Hbl Hbb Ho Ho'.
      destruct (encrypt_decrypt KeyBits rk0 b HK Hrk0 (conj Hbl Hbb)) as (c & [Hcl Hcb] & Ec & Dc).
      exists c. split_and!; [done|done|by apply Ec|by apply Dc].
    + by eapply ctr_mode_ok; [apply aes_block_cipher|apply _].
Qed.

Lemma aes_roundtrip_witness :
  exists rk c, aes_new 256 (Some (test_key 32)) = Done rk
    /\ encrypt_block 256 rk (Some plain) (Some (replicate 16 0)) = Done (Some c)
    /\ decrypt_block 256 rk (Some c) (Some (replicate 16 0)) = Done (Some plain).
Proof.
  assert (Hb : Forall byte plain) by (repeat constructor; unfold byte; lia).
  assert (Hk : Forall byte (test_key 32)) by (repeat constructor; unfold byte; lia).
  destruct (aes_roundtrip 256 (test_key 32) ltac:(right; right; reflexivity) eq_refl Hk) as (rk & H1 & H2 & _ & H3).
  destruct (proj1 (H3 rk H2) plain (replicate 16 0) (replicate 16 0) eq_refl Hb eq_refl eq_refl) as (c & _ & _ & H4 & H5).
  exists rk, c. split; [exact H1|]. split; [exact H4|exact H5].
Defined.
