(* ===== verification/Ubx.v ===== *)
(** * UBX framing (castle_ext/protocols/ubx/ubx.hpp)

    The frame layout, the running checksum, the frame encoder and the frame
    decoder.  An [array_view] is a pointer and a size; the payload view of a
    decoded message points into the frame, so it is the frame's bytes from
    offset 6 on. *)

From S2P Require Import Prelude Status Bytes.
Open Scope Z_scope.

Definition UBX_SYNC_CHAR_1 : Z := 181.
Definition UBX_SYNC_CHAR_2 : Z := 98.
Definition UBX_FRAME_INDEX_SYNC_1 : nat := 0.
Definition UBX_FRAME_INDEX_SYNC_2 : nat := 1.
Definition UBX_FRAME_INDEX_CLASS : nat := 2.
Definition UBX_FRAME_INDEX_ID : nat := 3.
Definition UBX_FRAME_INDEX_LENGTH : nat := 4.
Definition UBX_FRAME_INDEX_PAYLOAD : nat := 6.
Definition UBX_CHECKSUM_SIZE : nat := 2.
Definition UBX_FRAME_OVERHEAD : nat := UBX_FRAME_INDEX_PAYLOAD + UBX_CHECKSUM_SIZE.
Definition UBX_MAX_PAYLOAD_LEN : Z := 65535.

Record array_view : Type := mk_view { data : ptr; size : nat }.

Record message_header : Type := mk_header {
  msg_class : Z;
  msg_id : Z;
  payload_length : Z
}.
Definition no_header : message_header := mk_header 0 0 0.

Record checksum : Type := mk_checksum { ck_a : Z; ck_b : Z }.
#[export] Instance checksum_eq_dec : EqDecision checksum.
Proof. solve_decision. Defined.
#[export] Instance message_header_eq_dec : EqDecision message_header.
Proof. solve_decision. Defined.

Record message_view : Type := mk_message {
  header : message_header;
  payload : array_view;
  check : checksum
}.
Definition no_message : message_view := mk_message no_header (mk_view None 0) (mk_checksum 0 0).

Definition message_is (m : message_view) (msg_class_value msg_id_value : Z) : bool :=
  (msg_class (header m) =? msg_class_value) && (msg_id (header m) =? msg_id_value).
Definition message_key (m : message_view) : Z :=
  to_u16 (Z.lor (Z.shiftl (msg_class (header m)) 8) (msg_id (header m))).

(** [checksum_accumulator]: its state is the checksum so far. *)
Definition accumulator_reset : checksum := mk_checksum 0 0.
Definition accumulator_update (acc : checksum) (value : Z) : checksum :=
  let a := to_u8 (ck_a acc + value) in mk_checksum a (to_u8 (ck_b acc + a)).

Definition accumulate_body (v : array_view) (index : nat) (acc : checksum)
    : exec (ctl checksum checksum) :=
  b ← pload (data v) index; Done (Next (accumulator_update acc b)).

Definition compute_checksum (v : array_view) : exec checksum :=
  after (for_range 0 (size v) (accumulate_body v) accumulator_reset) Done.

Definition compute_frame_checksum (cls id len : Z) (pl : array_view) : exec checksum :=
  let acc := accumulator_update accumulator_reset cls in
  let acc := accumulator_update acc id in
  let acc := accumulator_update acc (to_u8 (Z.land len 255)) in
  let acc := accumulator_update acc (to_u8 (Z.land (Z.shiftr len 8) 255)) in
  after (for_range 0 (size pl) (accumulate_body pl) acc) Done.

Definition frame_size (payload_length : nat) : nat := payload_length + UBX_FRAME_OVERHEAD.

Definition copy_body (pl : array_view) (index : nat) (output : list Z)
    : exec (ctl codec_result (list Z)) :=
  b ← pload (data pl) index;
  output ← store output (UBX_FRAME_INDEX_PAYLOAD + index) b;
  Done (Next output).

Definition encode_frame (cls id : Z) (pl : array_view) (output : ptr)
    (output_capacity : nat) : exec codec_result :=
  if UBX_MAX_PAYLOAD_LEN <? Z.of_nat (size pl) then Done (s_out_of_range, 0%nat, output)
  else if (0 <? size pl)%nat && is_null (data pl) then Done (s_invalid_argument, 0%nat, output)
  else
    match output with
    | None => Done (s_invalid_argument, 0%nat, output)
    | Some output =>
        let required := frame_size (size pl) in
        if (output_capacity <? required)%nat then Done (s_full, 0%nat, Some output)
        else
          output ← store output UBX_FRAME_INDEX_SYNC_1 UBX_SYNC_CHAR_1;
          output ← store output UBX_FRAME_INDEX_SYNC_2 UBX_SYNC_CHAR_2;
          output ← store output UBX_FRAME_INDEX_CLASS cls;
          output ← store output UBX_FRAME_INDEX_ID id;
          output ← write_le16 output UBX_FRAME_INDEX_LENGTH (to_u16 (Z.of_nat (size pl)));
          after (for_range 0 (size pl) (copy_body pl) output) (fun output =>
          ck ← compute_frame_checksum cls id (to_u16 (Z.of_nat (size pl))) pl;
          let ck_a_index := (UBX_FRAME_INDEX_PAYLOAD + size pl)%nat in
          output ← store output ck_a_index (ck_a ck);
          output ← store output (ck_a_index + 1) (ck_b ck);
          Done (s_ok, required, Some output))
    end.

(** The frame view is not null; [&frame[6]] is the buffer from offset 6 on. *)
Definition decode_frame (frame : list Z) : exec (bool * message_view) :=
  if (length frame <? UBX_FRAME_OVERHEAD)%nat then Done (false, no_message)
  else
    s1 ← load frame UBX_FRAME_INDEX_SYNC_1;
    s2 ← load frame UBX_FRAME_INDEX_SYNC_2;
    if negb (s1 =? UBX_SYNC_CHAR_1) || negb (s2 =? UBX_SYNC_CHAR_2) then Done (false, no_message)
    else
      len ← read_le16 frame UBX_FRAME_INDEX_LENGTH;
      let expected_size := frame_size (Z.to_nat len) in
      if negb (length frame =? expected_size)%nat then Done (false, no_message)
      else
        let pl := mk_view (if len =? 0 then None else Some (drop UBX_FRAME_INDEX_PAYLOAD frame))
                    (Z.to_nat len) in
        cls ← load frame UBX_FRAME_INDEX_CLASS;
        id ← load frame UBX_FRAME_INDEX_ID;
        expected ← compute_frame_checksum cls id len pl;
        let ck_a_index := (UBX_FRAME_INDEX_PAYLOAD + Z.to_nat len)%nat in
        let ck_b_index := (ck_a_index + 1)%nat in
        a ← load frame ck_a_index;
        b ← load frame ck_b_index;
        if negb (a =? ck_a expected) || negb (b =? ck_b expected) then Done (false, no_message)
        else Done (true, mk_message (mk_header cls id len) pl (mk_checksum a b)).

(** The size in bytes of a configuration value, from its key. *)
Definition value_byte_size (key_id : Z) : Z :=
  let c := Z.land (Z.shiftr key_id 28) 15 in
  if c =? 1 then 1 else if c =? 2 then 1 else if c =? 3 then 2
  else if c =? 4 then 4 else if c =? 5 then 8 else 0.

(** ** The bytes of a frame *)

Definition fletcher (acc : checksum) (bs : list Z) : checksum := fold_left accumulator_update bs acc.

Definition len_bytes (n : nat) : list Z := le_bytes 2 (Z.of_nat n).
Definition frame_body (cls id : Z) (pl : list Z) : list Z := [cls; id] ++ len_bytes (length pl) ++ pl.
Definition frame_bytes (cls id : Z) (pl : list Z) : list Z :=
  let ck := fletcher accumulator_reset (frame_body cls id pl) in
  [UBX_SYNC_CHAR_1; UBX_SYNC_CHAR_2] ++ frame_body cls id pl ++ [ck_a ck; ck_b ck].

Ltac ubx_sizes :=
  unfold frame_size, UBX_FRAME_OVERHEAD, UBX_FRAME_INDEX_PAYLOAD, UBX_CHECKSUM_SIZE,
    UBX_FRAME_INDEX_SYNC_1, UBX_FRAME_INDEX_SYNC_2, UBX_FRAME_INDEX_CLASS, UBX_FRAME_INDEX_ID,
    UBX_FRAME_INDEX_LENGTH in *.

Lemma length_frame_bytes cls id pl : length (frame_bytes cls id pl) = frame_size (length pl).
Proof.
  ubx_sizes. unfold frame_bytes, frame_body, len_bytes, le_bytes.
  rewrite !length_app, length_le_digits. simpl. lia.
Qed.

Lemma accumulate_loop pre bs post acc :
  for_range (length pre) (length bs)
    (accumulate_body (mk_view (Some (pre ++ bs ++ post)) (length pre + length bs))) acc
  = Done (Next (fletcher acc bs)).
Proof.
  revert pre acc. induction bs as [|b bs IH]; intros pre acc; [done|].
  cbn [length for_range]. unfold accumulate_body at 1. cbn [data].
  rewrite (pload_mid pre (b :: bs) post 0 b) by (done || lia). exec_simpl.
  specialize (IH (pre ++ [b]) (accumulator_update acc b)).
  rewrite length_app, <-app_assoc in IH. cbn [length app] in IH.
  rewrite <-(Nat.add_1_r (length pre)).
  replace (length pre + S (length bs))%nat with (length pre + 1 + length bs)%nat by lia. exact IH.
Qed.

Lemma fletcher_app acc bs bs' : fletcher acc (bs ++ bs') = fletcher (fletcher acc bs) bs'.
Proof. apply fold_left_app. Qed.

(** The checksum of a frame, from the payload in memory. *)
Lemma compute_frame_checksum_spec cls id pl post :
  Z.of_nat (length pl) <= UBX_MAX_PAYLOAD_LEN ->
  compute_frame_checksum cls id (Z.of_nat (length pl)) (mk_view (Some (pl ++ post)) (length pl))
  = Done (fletcher accumulator_reset (frame_body cls id pl)).
Proof.
  unfold UBX_MAX_PAYLOAD_LEN. intros Hl. unfold compute_frame_checksum. cbn [size].
  rewrite (accumulate_loop [] pl post). cbn [after]. f_equal.
  unfold frame_body. rewrite fletcher_app, fletcher_app. f_equal.
  unfold len_bytes, le_bytes. cbn [fletcher fold_left le_digits]. unfold wrap.
  bits_to_arith. rewrite !Zmod_mod. done.
Qed.

(** The payload of a view that may be null when it is empty. *)
Lemma compute_frame_checksum_null cls id :
  compute_frame_checksum cls id 0 (mk_view None 0)
  = Done (fletcher accumulator_reset (frame_body cls id [])).
Proof. done. Qed.

Lemma copy_loop pl post out : forall bs pre,
  pl = pre ++ bs -> (6 + length pl <= length out)%nat ->
  forall hd, length hd = 6%nat ->
  for_range (length pre) (length bs) (copy_body (mk_view (Some (pl ++ post)) (length pl)))
    (wrote out 0 (hd ++ pre))
  = Done (Next (wrote out 0 (hd ++ pl))).
Proof.
  induction bs as [|b bs IH]; intros pre Hpl Hout hd Hhd.
  { rewrite app_nil_r in Hpl. by subst. }
  cbn [length for_range]. unfold copy_body at 1. cbn [data].
  rewrite Hpl, <-app_assoc at 1. rewrite (pload_mid pre (b :: bs) post 0 b) by (done || lia). exec_simpl.
  assert (length pl = length pre + S (length bs))%nat by (by rewrite Hpl, length_app).
  rewrite store_wrote by (rewrite ?length_app; unfold UBX_FRAME_INDEX_PAYLOAD; lia). exec_simpl.
  specialize (IH (pre ++ [b])). rewrite length_app, Nat.add_1_r in IH.
  rewrite <-app_assoc. apply IH; [by rewrite <-app_assoc|done|done].
Qed.

Lemma encode_frame_spec cls id pl post out cap :
  Z.of_nat (length pl) <= UBX_MAX_PAYLOAD_LEN -> (cap <= length out)%nat ->
  encode_frame cls id (mk_view (Some (pl ++ post)) (length pl)) (Some out) cap =
    Done (if decide (frame_size (length pl) <= cap)%nat
          then (s_ok, frame_size (length pl), Some (wrote out 0 (frame_bytes cls id pl)))
          else (s_full, 0%nat, Some out)).
Proof.
  intros Hl Hcap. unfold encode_frame. cbn [size data is_null].
  rewrite (proj2 (Z.ltb_ge _ _)) by done. rewrite andb_false_r.
  case_decide as Hfit; destruct (Nat.ltb_spec cap (frame_size (length pl))) as [Hc|Hc];
    try lia; [|done]. ubx_sizes.
  rewrite <-(wrote_nil out 0) at 1.
  do 4 (rewrite store_wrote by (rewrite ?length_app; cbn; lia); exec_simpl).
  rewrite write_le16_bytes by (rewrite length_wrote; cbn; lia). exec_simpl.
  rewrite wrap_small by (unfold in_width, UBX_MAX_PAYLOAD_LEN in *; lia).
  rewrite wrote_app by (cbn; lia). rewrite <-!app_assoc. cbn [app].
  change (le_bytes 2 (Z.of_nat (length pl))) with (len_bytes (length pl)).
  pose proof (copy_loop pl post out pl [] eq_refl ltac:(lia)
    ([UBX_SYNC_CHAR_1; UBX_SYNC_CHAR_2; cls; id] ++ len_bytes (length pl)) eq_refl) as L.
  rewrite app_nil_r in L. cbn [app length] in L. rewrite L. cbn [after].
  rewrite compute_frame_checksum_spec by done. exec_simpl.
  do 2 (rewrite store_wrote by (rewrite ?length_app; cbn; rewrite ?length_app; cbn; lia); exec_simpl).
  unfold frame_bytes, frame_body. cbn [app]. by rewrite <-!app_assoc.
Qed.

(** ** Decoding *)

(** The message a frame decodes to; its view ends with the checksum bytes of the
    frame, which lie beyond the view's size. *)
Definition frame_checksum (cls id : Z) (pl : list Z) : checksum :=
  fletcher accumulator_reset (frame_body cls id pl).
Definition frame_message (cls id : Z) (pl : list Z) : message_view :=
  let ck := frame_checksum cls id pl in
  mk_message (mk_header cls id (Z.of_nat (length pl)))
    (mk_view (if Z.of_nat (length pl) =? 0 then None else Some (pl ++ [ck_a ck; ck_b ck]))
       (length pl)) ck.

(** The bytes a view shows. *)
Definition view_bytes (v : array_view) : list Z :=
  match data v with Some d => take (size v) d | None => [] end.

Lemma frame_message_payload cls id pl : view_bytes (payload (frame_message cls id pl)) = pl.
Proof.
  unfold view_bytes, frame_message. cbn [payload data size]. destruct pl; [done|].
  rewrite (proj2 (Z.eqb_neq _ _)) by (cbn [length]; lia). by rewrite take_app_length.
Qed.

(** The decoder on a frame long enough for its fixed fields. *)
Lemma decode_frame_fields cls id l0 l1 pl a b :
  byte l0 -> byte l1 -> Z.of_nat (length pl) = le_val 256 [l0; l1] ->
  decode_frame (UBX_SYNC_CHAR_1 :: UBX_SYNC_CHAR_2 :: cls :: id :: l0 :: l1 :: pl ++ [a; b]) =
    Done (if bool_decide (mk_checksum a b = frame_checksum cls id pl)
          then (true, frame_message cls id pl) else (false, no_message)).
Proof.
  intros H0 H1 Hlen. unfold decode_frame. rewrite (proj2 (Nat.ltb_ge _ _))
    by (ubx_sizes; cbn [length]; rewrite length_app; cbn; lia).
  assert (LF := load_Done (UBX_SYNC_CHAR_1 :: UBX_SYNC_CHAR_2 :: cls :: id :: l0 :: l1 :: pl ++ [a; b])).
  rewrite (LF UBX_FRAME_INDEX_SYNC_1 _ eq_refl). exec_simpl.
  rewrite (LF UBX_FRAME_INDEX_SYNC_2 _ eq_refl). exec_simpl.
  rewrite !Z.eqb_refl. cbn [negb orb].
  pose proof (read_le16_val [UBX_SYNC_CHAR_1; UBX_SYNC_CHAR_2; cls; id] (pl ++ [a; b]) l0 l1 H0 H1) as R.
  cbn [app length] in R. unfold UBX_FRAME_INDEX_LENGTH. rewrite R. exec_simpl.
  rewrite <-Hlen, Nat2Z.id. rewrite (proj2 (Nat.eqb_eq _ _))
    by (ubx_sizes; cbn [length]; rewrite length_app; cbn; lia). cbn [negb].
  assert (C : compute_frame_checksum cls id (Z.of_nat (length pl))
    (mk_view (if Z.of_nat (length pl) =? 0 then None else Some (pl ++ [a; b])) (length pl))
    = Done (frame_checksum cls id pl)).
  { destruct pl as [|x pl]; [done|]. rewrite (proj2 (Z.eqb_neq _ _)) by (cbn [length]; lia).
    apply compute_frame_checksum_spec. unfold byte, UBX_MAX_PAYLOAD_LEN in *. cbn [le_val] in Hlen. lia. }
  rewrite (LF UBX_FRAME_INDEX_CLASS _ eq_refl). exec_simpl.
  rewrite (LF UBX_FRAME_INDEX_ID _ eq_refl). exec_simpl. ubx_sizes. cbn [skipn].
  rewrite drop_0, C. exec_simpl.
  pose proof (load_mid (UBX_SYNC_CHAR_1 :: UBX_SYNC_CHAR_2 :: cls :: id :: l0 :: l1 :: pl) [a; b] [])
    as L. rewrite app_nil_r in L. cbn [app length] in L.
  rewrite (L 0%nat a (6 + length pl)%nat) by (done || lia). exec_simpl.
  rewrite (L 1%nat b (6 + length pl + 1)%nat) by (done || lia). exec_simpl.
  case_bool_decide as E.
  - rewrite <-E. cbn [ck_a ck_b]. rewrite !Z.eqb_refl. cbn [negb orb]. unfold frame_message.
    by rewrite <-E.
  - destruct (Z.eqb_spec a (ck_a (frame_checksum cls id pl))) as [Ea|]; [|done].
    destruct (Z.eqb_spec b (ck_b (frame_checksum cls id pl))) as [Eb|]; [|done].
    destruct E. rewrite Ea, Eb. by destruct (frame_checksum cls id pl).
Qed.

(** The fixed fields of a frame that is long enough, and its rest. *)
Lemma frame_split (frame : list Z) :
  (8 <= length frame)%nat -> Forall byte frame ->
  exists s1 s2 cls id l0 l1 pl a b,
    frame = s1 :: s2 :: cls :: id :: l0 :: l1 :: pl ++ [a; b]
    /\ (byte l0 /\ byte l1) /\ (byte cls /\ byte id) /\ Forall byte pl.
Proof.
  intros Hl Hb. destruct frame as [|s1 [|s2 [|cls [|id [|l0 [|l1 rest]]]]]]; cbn [length] in Hl; try lia.
  destruct rest as [|b rest] using rev_ind; [cbn in Hl; lia|clear IHrest].
  destruct rest as [|a rest] using rev_ind; [cbn in Hl; lia|clear IHrest].
  exists s1, s2, cls, id, l0, l1, rest, a, b. rewrite <-app_assoc. split; [done|].
  rewrite !Forall_cons, !Forall_app in Hb. tauto.
Qed.

Lemma frame_bytes_fields cls id pl :
  frame_bytes cls id pl = UBX_SYNC_CHAR_1 :: UBX_SYNC_CHAR_2 :: cls :: id
    :: Z.of_nat (length pl) mod 256 :: Z.of_nat (length pl) / 256 mod 256
    :: pl ++ [ck_a (frame_checksum cls id pl); ck_b (frame_checksum cls id pl)].
Proof. done. Qed.

Lemma frame_bytes_decode cls id pl :
  Z.of_nat (length pl) <= UBX_MAX_PAYLOAD_LEN ->
  decode_frame (frame_bytes cls id pl) = Done (true, frame_message cls id pl).
Proof.
  unfold UBX_MAX_PAYLOAD_LEN. intros Hl. rewrite frame_bytes_fields, decode_frame_fields.
  - rewrite bool_decide_true by (by destruct (frame_checksum cls id pl)). done.
  - unfold byte. apply Z.mod_pos_bound. lia.
  - unfold byte. apply Z.mod_pos_bound. lia.
  - cbn [le_val]. divlia.
Qed.

Lemma decode_frame_reject s1 s2 cls id l0 l1 pl a b :
  byte l0 -> byte l1 ->
  ~ (s1 = UBX_SYNC_CHAR_1 /\ s2 = UBX_SYNC_CHAR_2) \/ Z.of_nat (length pl) <> le_val 256 [l0; l1] ->
  decode_frame (s1 :: s2 :: cls :: id :: l0 :: l1 :: pl ++ [a; b]) = Done (false, no_message).
Proof.
  intros H0 H1 Hbad. unfold decode_frame. rewrite (proj2 (Nat.ltb_ge _ _))
    by (ubx_sizes; cbn [length]; rewrite length_app; cbn; lia).
  assert (LF := load_Done (s1 :: s2 :: cls :: id :: l0 :: l1 :: pl ++ [a; b])).
  rewrite (LF UBX_FRAME_INDEX_SYNC_1 _ eq_refl). exec_simpl.
  rewrite (LF UBX_FRAME_INDEX_SYNC_2 _ eq_refl). exec_simpl.
  destruct (Z.eqb_spec s1 UBX_SYNC_CHAR_1); [|done]. destruct (Z.eqb_spec s2 UBX_SYNC_CHAR_2); [|done].
  cbn [negb orb]. destruct Hbad as [Hs|Hlen]; [tauto|].
  pose proof (read_le16_val [s1; s2; cls; id] (pl ++ [a; b]) l0 l1 H0 H1) as R.
  cbn [app length] in R. unfold UBX_FRAME_INDEX_LENGTH. rewrite R. exec_simpl.
  unfold byte in *. cbn [le_val] in *. rewrite (proj2 (Nat.eqb_neq _ _)); [done|].
  ubx_sizes. cbn [length]. rewrite length_app. cbn. lia.
Qed.

(** The decoder succeeds on encoded frames only. *)
Lemma decode_frame_sound frame :
  Forall byte frame ->
  exists ok m, decode_frame frame = Done (ok, m) /\
    (ok = true -> exists cls id pl, (byte cls /\ byte id /\ Forall byte pl)
       /\ Z.of_nat (length pl) <= UBX_MAX_PAYLOAD_LEN
       /\ frame = frame_bytes cls id pl /\ m = frame_message cls id pl).
Proof.
  intros Hb. destruct (decide (8 <= length frame)%nat) as [Hl|Hl]; cycle 1.
  { exists false, no_message. unfold decode_frame. ubx_sizes. nat_tests. done. }
  destruct (frame_split frame Hl Hb) as (s1 & s2 & cls & id & l0 & l1 & pl & a & b & -> & [B0 B1] & [Bc Bi] & Bp).
  destruct (decide ((s1 = UBX_SYNC_CHAR_1 /\ s2 = UBX_SYNC_CHAR_2)
    /\ Z.of_nat (length pl) = le_val 256 [l0; l1])) as [[[-> ->] Hlen]|Hs]; cycle 1.
  { exists false, no_message. rewrite decode_frame_reject; [done|done|done|].
    destruct (decide (Z.of_nat (length pl) = le_val 256 [l0; l1])); tauto. }
  rewrite decode_frame_fields by done. case_bool_decide as Hc; [|by eexists _, _].
  eexists _, _. split; [done|]. intros _. exists cls, id, pl.
  split; [done|]. split; [unfold byte, UBX_MAX_PAYLOAD_LEN in *; cbn [le_val] in Hlen; lia|].
  split; [|done]. rewrite frame_bytes_fields, <-Hc, Hlen. cbn [ck_a ck_b le_val].
  unfold byte in *. do 4 f_equal. f_equal; [divlia|]. f_equal. divlia.
Qed.

(** ** Properties *)

(**  UBX frames round trip: with room in the output, [encode_frame] writes
    the frame of exactly [frame_size] bytes and touches nothing after it, and
    [decode_frame] accepts that frame and returns the class, the id, the length,
    the payload and the checksum that were encoded. *)
Theorem ubx_frame_roundtrip (cls id : Z) (pl post out : list Z) :
  Z.of_nat (length pl) <= UBX_MAX_PAYLOAD_LEN -> (frame_size (length pl) <= length out)%nat ->
  exists m,
    encode_frame cls id (mk_view (Some (pl ++ post)) (length pl)) (Some out) (length out)
      = Done (s_ok, frame_size (length pl), Some (wrote out 0 (frame_bytes cls id pl)))
    /\ decode_frame (take (frame_size (length pl)) (wrote out 0 (frame_bytes cls id pl))) = Done (true, m)
    /\ header m = mk_header cls id (Z.of_nat (length pl))
    /\ view_bytes (payload m) = pl /\ check m = frame_checksum cls id pl.
Proof.
  intros Hl Hout. exists (frame_message cls id pl).
  rewrite encode_frame_spec, decide_True by lia. split; [done|].
  rewrite <-(length_frame_bytes cls id), take_wrote by (rewrite length_frame_bytes; lia).
  rewrite frame_bytes_decode by done. by rewrite frame_message_payload.
Qed.

Lemma ubx_frame_roundtrip_witness :
  exists m,
    encode_frame 6 138 (mk_view (Some ([1; 2; 3] ++ [4])) 3) (Some (replicate 12 0)) 12
      = Done (s_ok, 11%nat, Some (frame_bytes 6 138 [1; 2; 3] ++ [0]))
    /\ decode_frame (frame_bytes 6 138 [1; 2; 3]) = Done (true, m) /\ view_bytes (payload m) = [1; 2; 3].
Proof.
  destruct (ubx_frame_roundtrip 6 138 [1; 2; 3] [4] (replicate 12 0)) as (m & E & D & _ & V & _);
    [vm_compute; discriminate|vm_compute; lia|]. exists m. split; [exact E|]. split; [exact D|exact V].
Defined.

(**  The UBX decoder is memory safe on every byte string and accepts only
    encoded frames: an accepted string is byte for byte the encoding of the
    message returned, with a valid length field and checksum, so encoding that
    message again reproduces it. *)
Theorem ubx_decode_canonical (frame : list Z) :
  Forall byte frame ->
  exists ok m, decode_frame frame = Done (ok, m) /\
    (ok = true -> frame = frame_bytes (msg_class (header m)) (msg_id (header m)) (view_bytes (payload m))
       /\ payload_length (header m) = Z.of_nat (length (view_bytes (payload m)))
       /\ check m = frame_checksum (msg_class (header m)) (msg_id (header m)) (view_bytes (payload m))).
Proof.
  intros Hb. destruct (decode_frame_sound frame Hb) as (ok & m & E & H). exists ok, m.
  split; [done|]. intros Hok. destruct (H Hok) as (cls & id & pl & _ & _ & -> & ->).
  by rewrite frame_message_payload.
Qed.

Lemma ubx_decode_canonical_witness :
  exists ok m, decode_frame [181; 98; 5; 1; 2; 0; 6; 1; 15; 56] = Done (ok, m).
Proof.
  destruct (ubx_decode_canonical [181; 98; 5; 1; 2; 0; 6; 1; 15; 56]) as (ok & m & E & _);
    [repeat constructor; lia|]. by exists ok, m.
Defined.
