(* ===== verification/UbxParser.v ===== *)
(** * Streaming UBX parser (castle_ext/parsers/ubx_parser/ubx_parser.hpp)

    The byte-at-a-time state machine.  A callback that is installed is an
    observer: the events it receives are the trace a call returns, in order.
    The message view handed to the callback shows the parser's own payload
    buffer, so an event carries the bytes the view shows at that moment. *)

From S2P Require Import Prelude Status Bytes Ubx.
Open Scope Z_scope.

Inductive parse_state : Type :=
| wait_sync_1
| wait_sync_2
| wait_class
| wait_id
| wait_length_low
| wait_length_high
| read_payload
| wait_checksum_a
| wait_checksum_b.
#[export] Instance parse_state_eq_dec : EqDecision parse_state.
Proof. solve_decision. Defined.

Inductive parser_error_code : Type :=
| e_none
| e_invalid_sync
| e_payload_too_large
| e_checksum_mismatch
| e_invalid_argument.

Record parse_error : Type := mk_error { err_code : parser_error_code; err_header : message_header }.

Inductive event : Type :=
| ev_message (h : message_header) (bytes : list Z) (received : checksum)
| ev_error (e : parse_error).

Record ubx_parser : Type := mk_parser {
  state_ : parse_state;
  header_ : message_header;
  checksum_ : checksum;
  payload_ : list Z;
  payload_size_ : nat;
  received_ck_a_ : Z;
  received_ck_b_ : Z;
  frames_decoded_ : Z;
  frames_discarded_ : Z;
  message_callback_ : bool;
  error_callback_ : bool
}.

Section Parser.
Context (MaxPayload : nat).

Definition init : ubx_parser :=
  mk_parser wait_sync_1 no_header accumulator_reset (replicate MaxPayload 0) 0 0 0 0 0 false false.

Definition set_message_callback (on : bool) (p : ubx_parser) : ubx_parser :=
  mk_parser (state_ p) (header_ p) (checksum_ p) (payload_ p) (payload_size_ p) (received_ck_a_ p)
    (received_ck_b_ p) (frames_decoded_ p) (frames_discarded_ p) on (error_callback_ p).
Definition set_error_callback (on : bool) (p : ubx_parser) : ubx_parser :=
  mk_parser (state_ p) (header_ p) (checksum_ p) (payload_ p) (payload_size_ p) (received_ck_a_ p)
    (received_ck_b_ p) (frames_decoded_ p) (frames_discarded_ p) (message_callback_ p) on.

(** Assignments to [state_], [header_] and [checksum_]. *)
Definition goto (s : parse_state) (p : ubx_parser) : ubx_parser :=
  mk_parser s (header_ p) (checksum_ p) (payload_ p) (payload_size_ p) (received_ck_a_ p)
    (received_ck_b_ p) (frames_decoded_ p) (frames_discarded_ p) (message_callback_ p) (error_callback_ p).
Definition set_header (h : message_header) (p : ubx_parser) : ubx_parser :=
  mk_parser (state_ p) h (checksum_ p) (payload_ p) (payload_size_ p) (received_ck_a_ p)
    (received_ck_b_ p) (frames_decoded_ p) (frames_discarded_ p) (message_callback_ p) (error_callback_ p).
Definition set_checksum (c : checksum) (p : ubx_parser) : ubx_parser :=
  mk_parser (state_ p) (header_ p) c (payload_ p) (payload_size_ p) (received_ck_a_ p)
    (received_ck_b_ p) (frames_decoded_ p) (frames_discarded_ p) (message_callback_ p) (error_callback_ p).
Definition set_payload (m : list Z) (n : nat) (p : ubx_parser) : ubx_parser :=
  mk_parser (state_ p) (header_ p) (checksum_ p) m n (received_ck_a_ p)
    (received_ck_b_ p) (frames_decoded_ p) (frames_discarded_ p) (message_callback_ p) (error_callback_ p).
Definition set_received (a b : Z) (p : ubx_parser) : ubx_parser :=
  mk_parser (state_ p) (header_ p) (checksum_ p) (payload_ p) (payload_size_ p) a b
    (frames_decoded_ p) (frames_discarded_ p) (message_callback_ p) (error_callback_ p).
Definition set_counters (d e : Z) (p : ubx_parser) : ubx_parser :=
  mk_parser (state_ p) (header_ p) (checksum_ p) (payload_ p) (payload_size_ p) (received_ck_a_ p)
    (received_ck_b_ p) d e (message_callback_ p) (error_callback_ p).
Definition update_checksum (b : Z) (p : ubx_parser) : ubx_parser :=
  set_checksum (accumulator_update (checksum_ p) b) p.

Definition reset_frame (p : ubx_parser) : ubx_parser :=
  set_payload (payload_ p) 0 (set_checksum accumulator_reset (set_header no_header (goto wait_sync_1 p))).

Definition reset (p : ubx_parser) : ubx_parser := set_counters 0 0 (reset_frame p).

Definition emit_error (code : parser_error_code) (p : ubx_parser) : ubx_parser * list event :=
  let error := mk_error code (header_ p) in
  let p := set_counters (frames_decoded_ p) (to_u64 (frames_discarded_ p + 1)) p in
  let p := reset_frame p in
  (p, if error_callback_ p then [ev_error error] else []).

Definition on_frame_complete (p : ubx_parser) : ubx_parser * list event :=
  let received := mk_checksum (received_ck_a_ p) (received_ck_b_ p) in
  let message := ev_message (header_ p) (take (payload_size_ p) (payload_ p)) received in
  let p := set_counters (to_u64 (frames_decoded_ p + 1)) (frames_discarded_ p) p in
  let p := reset_frame p in
  (p, if message_callback_ p then [message] else []).

Definition process_byte (p : ubx_parser) (b : Z) : exec (ubx_parser * list event) :=
  match state_ p with
  | wait_sync_1 =>
      Done (if b =? UBX_SYNC_CHAR_1 then goto wait_sync_2 p else p, [])
  | wait_sync_2 =>
      Done (if b =? UBX_SYNC_CHAR_2 then set_checksum accumulator_reset (goto wait_class p)
            else if b =? UBX_SYNC_CHAR_1 then goto wait_sync_2 p
            else goto wait_sync_1 p, [])
  | wait_class =>
      let h := header_ p in
      let p := set_header (mk_header b (msg_id h) (payload_length h)) p in
      Done (goto wait_id (update_checksum b p), [])
  | wait_id =>
      let h := header_ p in
      let p := set_header (mk_header (msg_class h) b (payload_length h)) p in
      Done (goto wait_length_low (update_checksum b p), [])
  | wait_length_low =>
      let h := header_ p in
      let p := set_header (mk_header (msg_class h) (msg_id h) (to_u16 b)) p in
      Done (goto wait_length_high (update_checksum b p), [])
  | wait_length_high =>
      let h := header_ p in
      let len := to_u16 (Z.lor (payload_length h) (to_u16 (Z.shiftl b 8))) in
      let p := set_header (mk_header (msg_class h) (msg_id h) len) p in
      let p := update_checksum b p in
      if to_u16 (Z.of_nat MaxPayload) <? len then Done (emit_error e_payload_too_large p)
      else
        let p := set_payload (payload_ p) 0 p in
        Done (goto (if len =? 0 then wait_checksum_a else read_payload) p, [])
  | read_payload =>
      m ← store (payload_ p) (payload_size_ p) b;
      let p := set_payload m (payload_size_ p + 1) p in
      let p := update_checksum b p in
      Done (if Z.of_nat (payload_size_ p) =? payload_length (header_ p)
            then goto wait_checksum_a p else p, [])
  | wait_checksum_a =>
      Done (goto wait_checksum_b (set_received b (received_ck_b_ p) p), [])
  | wait_checksum_b =>
      let p := set_received (received_ck_a_ p) b p in
      if negb (ck_a (checksum_ p) =? received_ck_a_ p) || negb (ck_b (checksum_ p) =? received_ck_b_ p)
      then Done (emit_error e_checksum_mismatch p)
      else Done (on_frame_complete p)
  end.

Definition feed_body (data : ptr) (index : nat) (st : ubx_parser * list event)
    : exec (ctl (ubx_parser * list event) (ubx_parser * list event)) :=
  let '(p, evs) := st in
  b ← pload data index;
  r ← process_byte p b;
  Done (Next (r.1, evs ++ r.2)).

Definition feed (p : ubx_parser) (data : ptr) (size : nat) : exec (ubx_parser * list event) :=
  if is_null data && negb (size =? 0)%nat then Done (emit_error e_invalid_argument p)
  else after (for_range 0 size (feed_body data) (p, [])) Done.

(** Feeding the bytes of a list one by one. *)
Fixpoint feed_bytes (p : ubx_parser) (bs : list Z) : exec (ubx_parser * list event) :=
  match bs with
  | [] => Done (p, [])
  | b :: bs =>
      r ← process_byte p b;
      s ← feed_bytes r.1 bs;
      Done (s.1, r.2 ++ s.2)
  end.
End Parser.

(** ** Feeding in chunks *)

Section ParserFacts.
Context (MaxPayload : nat) (Hmax : Z.of_nat MaxPayload <= UBX_MAX_PAYLOAD_LEN).

Abbreviation process_byte := (process_byte MaxPayload).
Abbreviation feed_bytes := (feed_bytes MaxPayload).
Abbreviation feed := (feed MaxPayload).

Lemma feed_bytes_app p bs bs' :
  feed_bytes p (bs ++ bs') =
    (r ← feed_bytes p bs; s ← feed_bytes r.1 bs'; Done (s.1, r.2 ++ s.2)).
Proof.
  revert p. induction bs as [|b bs IH]; intros p; cbn [app UbxParser.feed_bytes].
  - exec_simpl. cbn [fst snd]. destruct (feed_bytes p bs') as [[p' evs]|]; done.
  - destruct (process_byte p b) as [[p1 e1]|]; [|done]. exec_simpl. cbn [fst snd]. rewrite IH.
    destruct (feed_bytes p1 bs) as [[p2 e2]|]; [|done]. exec_simpl. cbn [fst snd].
    destruct (feed_bytes p2 bs') as [[p3 e3]|]; [|done]. exec_simpl. cbn [fst snd].
    by rewrite app_assoc.
Qed.

(** [feed] is the byte-at-a-time loop over its buffer. *)
Lemma feed_loop pre bs post : forall p evs,
  for_range (length pre) (length bs) (feed_body MaxPayload (Some (pre ++ bs ++ post))) (p, evs)
  = (r ← feed_bytes p bs; Done (Next (r.1, evs ++ r.2))).
Proof.
  revert pre. induction bs as [|b bs IH]; intros pre p evs; cbn [length for_range UbxParser.feed_bytes].
  { exec_simpl. cbn [fst snd]. by rewrite app_nil_r. }
  unfold feed_body at 1. rewrite (pload_mid pre (b :: bs) post 0 b) by (done || lia). exec_simpl.
  destruct (process_byte p b) as [[p1 e1]|]; [|done]. exec_simpl. cbn [fst snd].
  specialize (IH (pre ++ [b]) p1 (evs ++ e1)). rewrite length_app, <-app_assoc, Nat.add_1_r in IH.
  cbn [app] in IH. cbn [app]. rewrite IH.
  destruct (feed_bytes p1 bs) as [[p2 e2]|]; [|done]. exec_simpl. cbn [fst snd].
  by rewrite app_assoc.
Qed.

Lemma feed_spec p bs post : feed p (Some (bs ++ post)) (length bs) = feed_bytes p bs.
Proof.
  unfold UbxParser.feed. cbn [is_null andb].
  pose proof (feed_loop [] bs post p []) as L. cbn [app length] in L. rewrite L. destruct (feed_bytes p bs) as [[p' evs]|]; done.
Qed.

(** ** What the state remembers of the input

    [tracks p w]: the input consumed so far ends with [w], a prefix of a frame,
    and the fields of [p] hold what that prefix says. *)
Definition tracks (p : ubx_parser) (w : list Z) : Prop :=
  length (payload_ p) = MaxPayload /\
  let h := header_ p in
  match state_ p with
  | wait_sync_1 => w = []
  | wait_sync_2 => w = [UBX_SYNC_CHAR_1]
  | wait_class => w = [UBX_SYNC_CHAR_1; UBX_SYNC_CHAR_2] /\ checksum_ p = accumulator_reset
  | wait_id => exists cls, w = [UBX_SYNC_CHAR_1; UBX_SYNC_CHAR_2; cls] /\ msg_class h = cls
      /\ checksum_ p = fletcher accumulator_reset [cls]
  | wait_length_low => exists cls id, w = [UBX_SYNC_CHAR_1; UBX_SYNC_CHAR_2; cls; id]
      /\ (msg_class h = cls /\ msg_id h = id) /\ checksum_ p = fletcher accumulator_reset [cls; id]
  | wait_length_high => exists cls id l0, w = [UBX_SYNC_CHAR_1; UBX_SYNC_CHAR_2; cls; id; l0]
      /\ byte l0 /\ h = mk_header cls id l0 /\ checksum_ p = fletcher accumulator_reset [cls; id; l0]
  | read_payload | wait_checksum_a | wait_checksum_b => exists cls id len pl ck,
      w = [UBX_SYNC_CHAR_1; UBX_SYNC_CHAR_2; cls; id] ++ len_bytes len ++ pl ++ ck
      /\ h = mk_header cls id (Z.of_nat len) /\ (len <= MaxPayload)%nat
      /\ take (payload_size_ p) (payload_ p) = pl /\ payload_size_ p = length pl
      /\ checksum_ p = fletcher accumulator_reset ([cls; id] ++ len_bytes len ++ pl)
      /\ match state_ p with
         | read_payload => ck = [] /\ (length pl < len)%nat
         | wait_checksum_a => ck = [] /\ length pl = len
         | _ => ck = [received_ck_a_ p] /\ length pl = len
         end
  end.

(** The message events of a trace. *)
Definition is_message (e : event) : bool :=
  match e with ev_message _ _ _ => true | ev_error _ => false end.
Definition messages (evs : list event) : list event := List.filter is_message evs.

(** The event of a frame. *)
Definition frame_event (cls id : Z) (pl : list Z) : event :=
  ev_message (mk_header cls id (Z.of_nat (length pl))) pl (frame_checksum cls id pl).

(** One byte: no access outside the payload buffer, and either the byte completes
    a frame, which is reported, or no message is reported and what the state
    remembers is still a suffix of the input. *)
Definition step_ok (p : ubx_parser) (w : list Z) (b : Z) (p' : ubx_parser) (evs : list event) : Prop :=
  (message_callback_ p' = message_callback_ p /\ error_callback_ p' = error_callback_ p) /\
  ((exists x w', w ++ [b] = x ++ w' /\ tracks p' w' /\ messages evs = [])
   \/ (exists cls id pl, w ++ [b] = frame_bytes cls id pl /\ (length pl <= MaxPayload)%nat
        /\ tracks p' [] /\ evs = if message_callback_ p then [frame_event cls id pl] else [])).

Lemma emit_error_ok p w b code :
  length (payload_ p) = MaxPayload ->
  exists p' evs, emit_error code p = (p', evs) /\ step_ok p w b p' evs.
Proof.
  intros Hl. eexists _, _. split; [reflexivity|]. split; [done|]. left. exists (w ++ [b]), [].
  rewrite app_nil_r. split; [done|]. split; [done|]. cbn. by destruct (error_callback_ p).
Qed.

Lemma length_field l0 b :
  byte l0 -> byte b -> to_u16 (Z.lor l0 (to_u16 (Z.shiftl b 8))) = l0 + 256 * b
    /\ 0 <= l0 + 256 * b <= UBX_MAX_PAYLOAD_LEN /\ len_bytes (Z.to_nat (l0 + 256 * b)) = [l0; b].
Proof.
  unfold byte, UBX_MAX_PAYLOAD_LEN. intros H0 Hb.
  rewrite (wrap_small 16 (Z.shiftl b 8)) by (unfold in_width; rewrite Z.shiftl_mul_pow2; lia).
  rewrite lor_add_shiftl by lia. rewrite wrap_small by (unfold in_width; lia).
  split; [lia|]. split; [lia|]. unfold len_bytes, le_bytes. rewrite Z2Nat.id by lia. cbn [le_digits].
  f_equal; [divlia|]. f_equal. divlia.
Qed.

(** Close a step whose byte extends the remembered prefix. *)
Ltac extends := split; [done|]; left; eexists [], _; split; [exact (eq_sym (app_nil_l _))|].

Lemma step_sync p w b :
  tracks p w -> state_ p = wait_sync_1 \/ state_ p = wait_sync_2 ->
  exists p' evs, process_byte p b = Done (p', evs) /\ step_ok p w b p' evs.
Proof.
  intros [Hl Ht] Hs. unfold UbxParser.process_byte.
  destruct Hs as [Es|Es]; rewrite Es in Ht |- *; cbv beta iota zeta in Ht; eexists _, _; (split; [reflexivity|]); subst w.
  - destruct (Z.eqb_spec b UBX_SYNC_CHAR_1) as [->|]; [by extends|].
    split; [done|]. left. exists [b], []. unfold tracks. by rewrite Es.
  - destruct (Z.eqb_spec b UBX_SYNC_CHAR_2) as [->|]; [by extends|].
    destruct (Z.eqb_spec b UBX_SYNC_CHAR_1) as [->|].
    + split; [done|]. left. exists [UBX_SYNC_CHAR_1], [UBX_SYNC_CHAR_1]. done.
    + split; [done|]. left. exists [UBX_SYNC_CHAR_1; b], []. done.
Qed.

Lemma step_header p w b :
  tracks p w -> byte b ->
  state_ p = wait_class \/ state_ p = wait_id \/ state_ p = wait_length_low ->
  exists p' evs, process_byte p b = Done (p', evs) /\ step_ok p w b p' evs.
Proof.
  intros [Hl Ht] Hb Hs. unfold UbxParser.process_byte.
  destruct Hs as [Es|[Es|Es]]; rewrite Es in Ht |- *; cbv beta iota zeta in Ht; eexists _, _; (split; [reflexivity|]).
  - destruct Ht as [-> Hc]. extends. split; [|done]. split; [done|]. exists b. cbn. by rewrite Hc.
  - destruct Ht as (cls & -> & Hh & Hc). extends. split; [|done]. split; [done|].
    exists cls, b. cbn. by rewrite Hc.
  - destruct Ht as (cls & id & -> & [Hh Hi] & Hc). extends. split; [|done]. split; [done|].
    exists cls, id, b. cbn. rewrite Hc, Hh, Hi.
    rewrite wrap_small by (unfold in_width, byte in *; lia). done.
Qed.

Lemma step_length p w b :
  tracks p w -> byte b -> state_ p = wait_length_high ->
  exists p' evs, process_byte p b = Done (p', evs) /\ step_ok p w b p' evs.
Proof using Hmax.
  intros [Hl Ht] Hb Es. unfold UbxParser.process_byte. rewrite Es in Ht |- *. cbv beta iota zeta in Ht.
  destruct Ht as (cls & id & l0 & -> & H0 & Hh & Hc). rewrite Hh. cbn [payload_length msg_class msg_id].
  destruct (length_field l0 b H0 Hb) as (-> & Hr & Hlb).
  rewrite (wrap_small 16 (Z.of_nat MaxPayload)) by (unfold in_width, UBX_MAX_PAYLOAD_LEN in *; lia).
  destruct (Z.ltb_spec (Z.of_nat MaxPayload) (l0 + 256 * b)) as [Hbig|Hfit].
  { destruct (emit_error_ok (update_checksum b (set_header (mk_header cls id (l0 + 256 * b)) p))
      [UBX_SYNC_CHAR_1; UBX_SYNC_CHAR_2; cls; id; l0] b e_payload_too_large) as (p' & evs & E & H); [done|]. exists p', evs. split; [by rewrite E|exact H]. }
  eexists _, _. split; [reflexivity|]. extends. split; [|done]. split; [done|].
  unfold tracks. cbn [state_ goto set_payload update_checksum set_checksum set_header header_ checksum_
    payload_ payload_size_ received_ck_a_].
  destruct (Z.eqb_spec (l0 + 256 * b) 0) as [Hz|Hz];
    exists cls, id, (Z.to_nat (l0 + 256 * b)), [], [];
    rewrite Hlb, Z2Nat.id, Hc, !app_nil_r by lia; cbn [app length]; repeat split; try done; lia.
Qed.

Lemma step_payload p w b :
  tracks p w -> state_ p = read_payload ->
  exists p' evs, process_byte p b = Done (p', evs) /\ step_ok p w b p' evs.
Proof.
  intros [Hl Ht] Es. unfold UbxParser.process_byte. rewrite Es in Ht |- *. cbv beta iota zeta in Ht.
  destruct Ht as (cls & id & len & pl & ck & -> & Hh & Hlen & Hpl & Hsz & Hc & -> & Hlt).
  assert (Htk : take (payload_size_ p + 1) (<[payload_size_ p := b]> (payload_ p)) = pl ++ [b]).
  { rewrite Nat.add_1_r, (take_S_r _ _ b) by (apply list_lookup_insert_eq; lia).
    by rewrite take_insert_ge, Hpl by lia. }
  rewrite store_Done by lia. exec_simpl.
  cbn [payload_size_ set_payload update_checksum set_checksum header_]. rewrite Hh.
  cbn [payload_length].
  destruct (Z.eqb_spec (Z.of_nat (payload_size_ p + 1)) (Z.of_nat len)) as [He|He].
  all: eexists _, _; split; [reflexivity|]; extends; split; [|done];
    (split; [by rewrite <-Hl, <-(length_insert (payload_ p) (payload_size_ p) b)|]).
  all: cbn [state_ goto set_payload update_checksum set_checksum header_ payload_ payload_size_ checksum_].
  all: rewrite ?Es; exists cls, id, len, (pl ++ [b]), [].
  all: rewrite ?app_nil_r, ?length_app, <-?app_assoc, ?Hh, ?Htk, ?Hc; cbn [length].
  all: repeat split; try done; try lia.
  all: by rewrite !app_assoc, (fletcher_app _ _ [b]).
Qed.

Lemma step_check p w b :
  tracks p w -> state_ p = wait_checksum_a \/ state_ p = wait_checksum_b ->
  exists p' evs, process_byte p b = Done (p', evs) /\ step_ok p w b p' evs.
Proof.
  intros [Hl Ht] Hs. unfold UbxParser.process_byte.
  destruct Hs as [Es|Es]; rewrite Es in Ht |- *; cbv beta iota zeta in Ht;
    destruct Ht as (cls & id & len & pl & ck & -> & Hh & Hlen & Hpl & Hsz & Hc & -> & Hlt).
  - eexists _, _. split; [reflexivity|]. extends. split; [|done]. split; [done|].
    exists cls, id, len, pl, [b]. split; [|done]. by rewrite app_nil_r, <-!app_assoc.
  - cbn [set_received checksum_ received_ck_a_ received_ck_b_].
    destruct (decide (checksum_ p = mk_checksum (received_ck_a_ p) b)) as [E|E].
    + rewrite E. cbn [ck_a ck_b]. rewrite !Z.eqb_refl. cbn [negb orb].
      eexists _, _. split; [reflexivity|]. split; [done|]. right.
      assert (Hck : mk_checksum (received_ck_a_ p) b = frame_checksum cls id pl).
      { rewrite <-E, Hc. unfold frame_checksum, frame_body. by rewrite Hlt. }
      exists cls, id, pl. split; [|split; [lia|split; [done|]]].
      * unfold frame_bytes. fold (frame_checksum cls id pl). rewrite <-Hck. unfold frame_body.
        rewrite <-!app_assoc. cbn [app ck_a ck_b]. by rewrite Hlt.
      * cbn. destruct (message_callback_ p); [|done]. unfold frame_event. by rewrite Hpl, Hh, Hck, Hlt.
    + destruct (emit_error_ok (set_received (received_ck_a_ p) b p)
        ([UBX_SYNC_CHAR_1; UBX_SYNC_CHAR_2; cls; id] ++ len_bytes len ++ pl ++ [received_ck_a_ p]) b
        e_checksum_mismatch) as (p' & evs & Ee & H); [done|].
      exists p', evs. split; [|exact H]. rewrite Ee.
      destruct (Z.eqb_spec (ck_a (checksum_ p)) (received_ck_a_ p)) as [Ea|]; [|done].
      destruct (Z.eqb_spec (ck_b (checksum_ p)) b) as [Eb|]; [|done].
      destruct E. rewrite <-Ea, <-Eb. by destruct (checksum_ p).
Qed.

Lemma step_lemma p w b :
  tracks p w -> byte b ->
  exists p' evs, process_byte p b = Done (p', evs) /\ step_ok p w b p' evs.
Proof using Hmax.
  intros Ht Hb. destruct (state_ p) eqn:Es.
  1-2: apply step_sync; tauto. 1-3: apply step_header; tauto.
  - by apply step_length.
  - by apply step_payload.
  - apply step_check; tauto.
  - apply step_check; tauto.
Qed.

(** ** Streams *)

(** [carries s evs]: the stream is [junk ++ frame ++ junk ++ frame ++ ...], with
    the frames of the events [evs] in order. *)
Inductive carries : list Z -> list event -> Prop :=
| carries_none s : carries s []
| carries_frame junk cls id pl s evs :
    (length pl <= MaxPayload)%nat -> carries s evs ->
    carries (junk ++ frame_bytes cls id pl ++ s) (frame_event cls id pl :: evs).

Lemma carries_prepend x s evs : carries s evs -> carries (x ++ s) evs.
Proof.
  destruct 1; [constructor|]. rewrite app_assoc. by constructor.
Qed.

Lemma messages_app e1 e2 : messages (e1 ++ e2) = messages e1 ++ messages e2.
Proof. apply List.filter_app. Qed.

Lemma feed_sound p w bs :
  tracks p w -> message_callback_ p = true -> Forall byte bs ->
  exists p' w' evs, feed_bytes p bs = Done (p', evs) /\ tracks p' w'
    /\ message_callback_ p' = true /\ carries (w ++ bs) (messages evs).
Proof using Hmax.
  intros Ht Hcb Hb. revert p w Ht Hcb.
  induction Hb as [|b bs Hb _ IH]; intros p w Ht Hcb; cbn [UbxParser.feed_bytes].
  { exists p, w, []. split; [done|]. split; [done|]. split; [done|]. constructor. }
  destruct (step_lemma p w b Ht Hb) as (p1 & e1 & -> & [Hm _] & Hs). exec_simpl. cbn [fst snd].
  assert (Hs' : exists w1, tracks p1 w1 /\
    forall evs, carries (w1 ++ bs) (messages evs) -> carries (w ++ b :: bs) (messages (e1 ++ evs))).
  { destruct Hs as [(x & w1 & E & Ht1 & Hn)|(cls & id & pl & E & Hl & Ht1 & ->)].
    - exists w1. split; [done|]. intros evs Hc. rewrite messages_app, Hn, cons_middle, app_assoc, E, <-app_assoc.
      by apply carries_prepend.
    - exists []. split; [done|]. intros evs Hc. rewrite Hcb, cons_middle, app_assoc, E.
      by apply (carries_frame []). }
  destruct Hs' as (w1 & Ht1 & Hadd).
  destruct (IH p1 w1 Ht1 ltac:(congruence)) as (p2 & w2 & e2 & -> & Ht2 & Hc2 & Hca).
  exec_simpl. cbn [fst snd]. exists p2, w2, (e1 ++ e2). auto.
Qed.

(** ** Completeness: a frame that fits is always recognised *)

Definition in_frame (p : ubx_parser) (s : parse_state) (cls id : Z) (len : nat) (pl : list Z) : Prop :=
  (state_ p = s /\ header_ p = mk_header cls id (Z.of_nat len))
  /\ checksum_ p = fletcher accumulator_reset ([cls; id] ++ len_bytes len ++ pl)
  /\ (payload_size_ p = length pl /\ take (length pl) (payload_ p) = pl)
  /\ length (payload_ p) = MaxPayload /\ message_callback_ p = true.

(** Idle, with a message callback installed. *)
Definition idle (p : ubx_parser) : Prop :=
  state_ p = wait_sync_1 /\ length (payload_ p) = MaxPayload /\ message_callback_ p = true.

(** One step of [feed_bytes] with the next state given. *)
Lemma feed_step p b p1 bs p' :
  process_byte p b = Done (p1, []) -> feed_bytes p1 bs = Done (p', []) ->
  feed_bytes p (b :: bs) = Done (p', []).
Proof. intros E1 E2. cbn [UbxParser.feed_bytes]. rewrite E1. exec_simpl. cbn [fst]. by rewrite E2. Qed.

(** The last byte of the length field, for a payload that fits. *)
Lemma accept_length p cls id len l0 l1 :
  state_ p = wait_length_high -> header_ p = mk_header cls id l0 ->
  checksum_ p = fletcher accumulator_reset [cls; id; l0] ->
  length (payload_ p) = MaxPayload -> message_callback_ p = true ->
  byte l0 -> byte l1 -> l0 + 256 * l1 = Z.of_nat len -> (len <= MaxPayload)%nat ->
  exists p', process_byte p l1 = Done (p', [])
    /\ in_frame p' (if (len =? 0)%nat then wait_checksum_a else read_payload) cls id len [].
Proof using Hmax.
  intros Hs Hh Hc Hl Hm B0 B1 Hv Hlen.
  destruct (length_field l0 l1 B0 B1) as (Hf & _ & Hlb). rewrite Hv, Nat2Z.id in Hlb. rewrite Hv in Hf.
  unfold UbxParser.process_byte. rewrite Hs, Hh. cbn [payload_length msg_class msg_id]. rewrite Hf.
  rewrite (wrap_small 16 (Z.of_nat MaxPayload)) by (unfold in_width, UBX_MAX_PAYLOAD_LEN in *; lia).
  rewrite (proj2 (Z.ltb_ge _ _)) by lia. eexists. split; [reflexivity|]. unfold in_frame. rewrite Hlb.
  cbn [app fletcher fold_left] in Hc.
  cbn [state_ goto set_payload update_checksum set_checksum set_header header_ checksum_ payload_
    payload_size_ message_callback_ app length]. rewrite Hc.
  destruct (Z.eqb_spec (Z.of_nat len) 0), (Nat.eqb_spec len 0); try lia; done.
Qed.

Lemma accept_header p cls id len :
  idle p -> (len <= MaxPayload)%nat ->
  exists p', feed_bytes p ([UBX_SYNC_CHAR_1; UBX_SYNC_CHAR_2; cls; id] ++ len_bytes len) = Done (p', [])
    /\ in_frame p' (if (len =? 0)%nat then wait_checksum_a else read_payload) cls id len [].
Proof using Hmax.
  intros (Hs & Hl & Hm) Hlen. unfold len_bytes, le_bytes. cbn [le_digits app].
  assert (B0 : byte (Z.of_nat len mod 256)) by (apply Z.mod_pos_bound; lia).
  assert (B1 : byte (Z.of_nat len / 256 mod 256)) by (apply Z.mod_pos_bound; lia).
  assert (Hv : Z.of_nat len mod 256 + 256 * (Z.of_nat len / 256 mod 256) = Z.of_nat len)
    by (unfold UBX_MAX_PAYLOAD_LEN in *; divlia).
  generalize dependent (Z.of_nat len mod 256). intros l0 B0 Hv.
  generalize dependent (Z.of_nat len / 256 mod 256). intros l1 B1 Hv.
  set (q := set_checksum accumulator_reset (goto wait_class (goto wait_sync_2 p))).
  set (q1 := goto wait_id (update_checksum cls (set_header (mk_header cls (msg_id (header_ q))
    (payload_length (header_ q))) q))).
  set (q2 := goto wait_length_low (update_checksum id (set_header (mk_header cls id
    (payload_length (header_ q1))) q1))).
  set (q3 := goto wait_length_high (update_checksum l0 (set_header (mk_header cls id l0) q2))).
  destruct (accept_length q3 cls id len l0 l1) as (p' & E & Hp'); [done..|].
  exists p'. split; [|done].
  eapply feed_step; [unfold UbxParser.process_byte; by rewrite Hs|].
  eapply feed_step; [reflexivity|]. eapply (feed_step _ _ q1); [reflexivity|].
  eapply (feed_step _ _ q2); [reflexivity|]. eapply (feed_step _ _ q3).
  - unfold UbxParser.process_byte. cbn [state_ q2 goto].
    rewrite wrap_small by (unfold in_width, byte in *; lia). reflexivity.
  - eapply feed_step; [exact E|reflexivity].
Qed.

Lemma accept_payload cls id len rest : forall p dn,
  in_frame p read_payload cls id len dn -> rest <> [] -> (length dn + length rest = len)%nat ->
  (len <= MaxPayload)%nat ->
  exists p', feed_bytes p rest = Done (p', []) /\ in_frame p' wait_checksum_a cls id len (dn ++ rest).
Proof.
  induction rest as [|b rest IH]; intros p dn ((Hs & Hh) & Hc & (Hn & Ht) & Hl & Hm) Hne Hlen Hmx; [done|].
  cbn [UbxParser.feed_bytes length] in *.
  assert (Htk : take (length dn + 1) (<[payload_size_ p := b]> (payload_ p)) = dn ++ [b]).
  { rewrite Hn, Nat.add_1_r, (take_S_r _ _ b) by (apply list_lookup_insert_eq; lia).
    by rewrite take_insert_ge, Ht by lia. }
  set (p1 := update_checksum b (set_payload (<[payload_size_ p := b]> (payload_ p)) (payload_size_ p + 1) p)).
  assert (Hp1 : forall q s, state_ q = s -> q = goto s p1 -> in_frame q s cls id len (dn ++ [b])).
  { intros q s _ ->. unfold in_frame, p1.
    cbn [state_ goto update_checksum set_checksum set_payload header_ checksum_ payload_ payload_size_
      message_callback_]. rewrite length_app, Hc, length_insert, Hn in *. cbn [length]. rewrite Htk.
    repeat split; try done. by rewrite !app_assoc, (fletcher_app _ _ [b]). }
  assert (Hgo : p1 = goto read_payload p1) by (unfold p1, goto, update_checksum, set_checksum, set_payload;
    cbn [state_]; by rewrite Hs).
  assert (E : process_byte p b = Done (if decide (length dn + 1 = len)%nat then goto wait_checksum_a p1
                                       else p1, [])).
  { unfold UbxParser.process_byte. rewrite Hs, store_Done by lia. exec_simpl. fold p1.
    cbn [payload_size_ header_ p1 set_payload update_checksum set_checksum]. rewrite Hh, Hn.
    cbn [payload_length]. destruct (Z.eqb_spec (Z.of_nat (length dn + 1)) (Z.of_nat len)); case_decide; done || lia. }
  rewrite E. exec_simpl. cbn [fst snd]. clear E. case_decide as He.
  - destruct rest; [|cbn in *; lia]. cbn [UbxParser.feed_bytes]. exec_simpl.
    eexists. split; [reflexivity|]. by apply Hp1.
  - destruct (IH p1 (dn ++ [b])) as (p' & E & Hp').
    + by apply Hp1; [rewrite Hgo|].
    + destruct rest; [cbn in *; lia|done].
    + rewrite length_app. cbn. lia.
    + done.
    + exists p'. rewrite <-app_assoc in Hp'. rewrite E. done.
Qed.

Lemma accept_checksum p cls id pl :
  in_frame p wait_checksum_a cls id (length pl) pl ->
  let ck := frame_checksum cls id pl in
  exists p', feed_bytes p [ck_a ck; ck_b ck] = Done (p', [frame_event cls id pl]) /\ idle p'.
Proof.
  intros ((Hs & Hh) & Hc & (Hn & Ht) & Hl & Hm). cbv zeta. cbn [UbxParser.feed_bytes].
  fold (frame_body cls id pl) in Hc. fold (frame_checksum cls id pl) in Hc.
  unfold frame_event. generalize dependent (frame_checksum cls id pl). intros [a b] Hc.
  cbn [ck_a ck_b]. set (p1 := goto wait_checksum_b (set_received a (received_ck_b_ p) p)).
  assert (E1 : process_byte p a = Done (p1, [])) by (unfold UbxParser.process_byte; by rewrite Hs).
  rewrite E1. exec_simpl. cbn [fst snd].
  unfold UbxParser.process_byte, p1. cbn [state_ goto set_received checksum_ received_ck_a_ received_ck_b_].
  rewrite Hc. cbn [ck_a ck_b]. rewrite !Z.eqb_refl. cbn [negb orb]. exec_simpl.
  unfold on_frame_complete. cbn. rewrite Hm, Hn, Ht, Hh. eexists. split; [reflexivity|]. done.
Qed.

Lemma accept_frame p cls id pl :
  idle p -> (length pl <= MaxPayload)%nat ->
  exists p', feed_bytes p (frame_bytes cls id pl) = Done (p', [frame_event cls id pl]) /\ idle p'.
Proof using Hmax.
  intros Hi Hl. destruct (accept_header p cls id (length pl) Hi Hl) as (p1 & E1 & H1).
  assert (H2 : exists p2, feed_bytes p1 pl = Done (p2, []) /\ in_frame p2 wait_checksum_a cls id (length pl) pl).
  { destruct pl as [|b pl]; [by exists p1|]. by apply (accept_payload _ _ _ _ _ []). }
  destruct H2 as (p2 & E2 & H2). destruct (accept_checksum p2 cls id pl H2) as (p3 & E3 & H3).
  exists p3. split; [|done]. unfold frame_bytes, frame_body. fold (frame_body cls id pl).
  fold (frame_checksum cls id pl).
  replace ([UBX_SYNC_CHAR_1; UBX_SYNC_CHAR_2] ++ ([cls; id] ++ len_bytes (length pl) ++ pl) ++ _)
    with (([UBX_SYNC_CHAR_1; UBX_SYNC_CHAR_2; cls; id] ++ len_bytes (length pl)) ++ pl
          ++ [ck_a (frame_checksum cls id pl); ck_b (frame_checksum cls id pl)])
    by (by rewrite <-!app_assoc).
  rewrite feed_bytes_app, E1. exec_simpl. cbn [fst snd]. rewrite feed_bytes_app, E2. exec_simpl.
  cbn [fst snd]. by rewrite E3.
Qed.

(** Bytes other than the first sync character leave an idle parser as it is. *)
Lemma skip_junk p junk :
  idle p -> UBX_SYNC_CHAR_1 ∉ junk -> feed_bytes p junk = Done (p, []).
Proof.
  intros (Hs & _). induction junk as [|b junk IH]; intros Hj; [done|].
  apply not_elem_of_cons in Hj as [Hb Hj]. cbn [UbxParser.feed_bytes].
  assert (E : process_byte p b = Done (p, [])).
  { unfold UbxParser.process_byte. rewrite Hs. by rewrite (proj2 (Z.eqb_neq _ _)) by done. }
  rewrite E. exec_simpl. cbn [fst snd]. by rewrite IH.
Qed.

(** ** Calls of [feed], one per received chunk *)

Fixpoint feed_chunks (p : ubx_parser) (chunks : list (list Z)) : exec (ubx_parser * list event) :=
  match chunks with
  | [] => Done (p, [])
  | c :: chunks =>
      r ← feed p (Some c) (length c);
      s ← feed_chunks r.1 chunks;
      Done (s.1, r.2 ++ s.2)
  end.

Lemma feed_chunks_bytes p chunks : feed_chunks p chunks = feed_bytes p (concat chunks).
Proof.
  revert p. induction chunks as [|c chunks IH]; intros p; cbn [feed_chunks concat]; [done|].
  rewrite feed_bytes_app. pose proof (feed_spec p c []) as F. rewrite app_nil_r in F. rewrite F.
  destruct (feed_bytes p c) as [[p1 e1]|]; [|done]. exec_simpl. cbn [fst snd]. by rewrite IH.
Qed.

(** A stream of frames between stretches of noise. *)
Definition segment : Type := list Z * (Z * Z * list Z).
Definition stream (segs : list segment) (last : list Z) : list Z :=
  flat_map (fun '(junk, (cls, id, pl)) => junk ++ frame_bytes cls id pl) segs ++ last.
Definition clean (segs : list segment) : Prop :=
  Forall (fun '(junk, (cls, id, pl)) => (UBX_SYNC_CHAR_1 ∉ junk) /\ (length pl <= MaxPayload)%nat) segs.

Lemma feed_stream segs last : forall p,
  idle p -> clean segs -> UBX_SYNC_CHAR_1 ∉ last ->
  exists p', feed_bytes p (stream segs last)
      = Done (p', map (fun '(_, (cls, id, pl)) => frame_event cls id pl) segs) /\ idle p'.
Proof using Hmax.
  unfold stream. induction segs as [|[junk [[cls id] pl]] segs IH]; intros p Hi Hc Hl.
  { exists p. split; [by apply skip_junk|done]. }
  apply Forall_cons in Hc as [[Hj Hpl] Hc]. cbn [flat_map map].
  destruct (accept_frame p cls id pl Hi Hpl) as (p1 & E1 & H1).
  destruct (IH p1 H1 Hc Hl) as (p2 & E2 & H2). exists p2. split; [|done].
  rewrite <-!app_assoc, feed_bytes_app, skip_junk by done. exec_simpl. cbn [fst snd].
  rewrite feed_bytes_app, E1. exec_simpl. cbn [fst snd]. by rewrite E2.
Qed.
End ParserFacts.

(** A parser in its initial state with a message callback installed. *)
Definition listening (MaxPayload : nat) (with_errors : bool) : ubx_parser :=
  set_message_callback true (set_error_callback with_errors (init MaxPayload)).

Lemma listening_idle MaxPayload e : idle MaxPayload (listening MaxPayload e).
Proof. unfold idle. cbn. by rewrite length_replicate. Qed.

(** ** Properties *)

(** C23.  The UBX parser is sound and memory safe on every input: whatever bytes
    arrive, in whatever chunks, no access leaves the payload buffer, and every
    message reported is a frame that occurs in the stream byte for byte, with a
    payload that fits and a matching checksum; the frames are disjoint and
    reported in the order of the stream. *)
Theorem ubx_parser_sound (MaxPayload : nat) (with_errors : bool) (chunks : list (list Z)) :
  Z.of_nat MaxPayload <= UBX_MAX_PAYLOAD_LEN -> Forall (Forall byte) chunks ->
  exists p evs, feed_chunks MaxPayload (listening MaxPayload with_errors) chunks = Done (p, evs)
    /\ carries MaxPayload (concat chunks) (messages evs).
Proof.
  intros Hmax Hb. rewrite feed_chunks_bytes.
  destruct (feed_sound MaxPayload Hmax (listening MaxPayload with_errors) [] (concat chunks))
    as (p & w & evs & E & _ & _ & Hc).
  - split; [cbn; by rewrite length_replicate|done].
  - done.
  - by apply Forall_concat.
  - by exists p, evs.
Qed.

Lemma ubx_parser_sound_witness :
  exists p evs, feed_chunks 8 (listening 8 true) [[1; 181; 181; 98; 5]; [1; 2; 0; 6; 1; 15; 56; 7]]
      = Done (p, evs) /\ carries 8 [1; 181; 181; 98; 5; 1; 2; 0; 6; 1; 15; 56; 7] (messages evs).
Proof.
  apply (ubx_parser_sound 8 true [[1; 181; 181; 98; 5]; [1; 2; 0; 6; 1; 15; 56; 7]]);
    [vm_compute; discriminate|repeat constructor; lia].
Defined.

(** C24.  The UBX parser misses nothing: of a stream of frames whose payloads fit,
    separated by noise without the first sync character and cut into chunks in
    any way, it reports exactly the frames, in order, no error, and it is idle
    again at the end. *)
Theorem ubx_parser_complete (MaxPayload : nat) (with_errors : bool) (segs : list segment)
    (last : list Z) (chunks : list (list Z)) :
  Z.of_nat MaxPayload <= UBX_MAX_PAYLOAD_LEN -> clean MaxPayload segs ->
  UBX_SYNC_CHAR_1 ∉ last -> concat chunks = stream segs last ->
  exists p, feed_chunks MaxPayload (listening MaxPayload with_errors) chunks
      = Done (p, map (fun '(_, (cls, id, pl)) => frame_event cls id pl) segs)
    /\ state_ p = wait_sync_1.
Proof.
  intros Hmax Hc Hl Hs. rewrite feed_chunks_bytes, Hs.
  destruct (feed_stream MaxPayload Hmax segs last (listening MaxPayload with_errors)
    (listening_idle _ _) Hc Hl) as (p & E & H & _). by exists p.
Qed.

Lemma ubx_parser_complete_witness :
  exists p, feed_chunks 4 (listening 4 true)
      [[1] ++ frame_bytes 5 1 [6; 1]; frame_bytes 10 4 [] ++ [2; 3]]
      = Done (p, [frame_event 5 1 [6; 1]; frame_event 10 4 []]) /\ state_ p = wait_sync_1.
Proof.
  apply (ubx_parser_complete 4 true [([1], (5, 1, [6; 1])); ([], (10, 4, []))] [2; 3]
    [[1] ++ frame_bytes 5 1 [6; 1]; frame_bytes 10 4 [] ++ [2; 3]]).
  - vm_compute. discriminate.
  - repeat constructor; cbn; try lia; rewrite ?elem_of_cons, ?elem_of_nil; unfold UBX_SYNC_CHAR_1; lia.
  - rewrite !elem_of_cons, elem_of_nil. unfold UBX_SYNC_CHAR_1. lia.
  - reflexivity.
Defined.
