(* ===== verification/MqttTopic.v ===== *)
(** * MQTT topic names and filters (castle_ext/protocols/mqtt/topic.hpp)

    UTF-8 validation, the validators of topic names and of topic filters, and the
    matcher, as the loops of the source over a [string_view] (a pointer and a
    size), against specifications on code points and on topic levels. *)

From S2P Require Import Prelude Status.
Open Scope Z_scope.

Record string_view : Type := mk_sv { sv_data : ptr; sv_size : nat }.
Definition sv_empty (v : string_view) : bool := (sv_size v =? 0)%nat.
Definition sv_at (v : string_view) (i : nat) : exec Z := pload (sv_data v) i.

(** ** [detail::valid_utf8] *)

Definition utf8_continuation (v : string_view) (_ : nat) (st : Z * nat) : exec (ctl bool (Z * nat)) :=
  let '(cp, i) := st in
  next ← sv_at v i;
  if negb (Z.land next 192 =? 128) then Done (Return false)
  else Done (Next (Z.lor (Z.shiftl cp 6) (Z.land next 63), (i + 1)%nat)).

(** The lead byte: the bits it carries, the continuation bytes that follow and
    the smallest code point that needs them. *)
Definition utf8_lead (cp : Z) : option (Z * nat * Z) :=
  if Z.land cp 224 =? 192 then Some (Z.land cp 31, 1%nat, 128)
  else if Z.land cp 240 =? 224 then Some (Z.land cp 15, 2%nat, 2048)
  else if Z.land cp 248 =? 240 then Some (Z.land cp 7, 3%nat, 65536)
  else None.

Definition utf8_rejected (cp minimum : Z) : bool :=
  (cp <? minimum) || (1114111 <? cp) || ((55296 <=? cp) && (cp <=? 57343))
  || ((64976 <=? cp) && (cp <=? 65007)) || (Z.land cp 65535 =? 65534) || (Z.land cp 65535 =? 65535).

Definition utf8_body (v : string_view) (i : nat) : exec (ctl bool nat) :=
  cp ← sv_at v i;
  let i := (i + 1)%nat in
  if (cp =? 0) || (cp =? 65535) || (cp =? 65534) then Done (Return false)
  else if cp <? 128 then Done (Next i)
  else
    match utf8_lead cp with
    | None => Done (Return false)
    | Some (cp, continuation, minimum) =>
        if (sv_size v <? i + continuation)%nat then Done (Return false)
        else
          match for_range 0 continuation (utf8_continuation v) (cp, i) with
          | Done (Next (cp, i)) =>
              if utf8_rejected cp minimum then Done (Return false) else Done (Next i)
          | Done (Return r) => Done (Return r)
          | Undefined => Undefined
          end
    end.

Definition valid_utf8 (v : string_view) : exec bool :=
  if is_null (sv_data v) && negb (sv_empty v) then Done false
  else after (while_loop (S (sv_size v)) (fun i => Done (i <? sv_size v)%nat) (utf8_body v) 0%nat)
         (fun _ => Done true).

(** ** The validators *)

Definition name_body (topic : string_view) (i : nat) (_ : unit) : exec (ctl status unit) :=
  c ← sv_at topic i;
  if (c =? char "+") || (c =? char "#") then Done (Return s_invalid_argument) else Done (Next tt).

Definition validate_topic_name (topic : string_view) : exec status :=
  if sv_empty topic then Done s_invalid_argument else
  ok ← valid_utf8 topic;
  if negb ok then Done s_invalid_argument
  else after (for_range 0 (sv_size topic) (name_body topic) tt) (fun _ => Done s_ok).

Definition filter_level_body (filter : string_view) (level_size i j : nat) (_ : unit)
    : exec (ctl status unit) :=
  c ← sv_at filter j;
  if (c =? char "+") && negb (level_size =? 1)%nat then Done (Return s_invalid_argument)
  else if (c =? char "#") && negb ((level_size =? 1)%nat && (i =? sv_size filter)%nat)
  then Done (Return s_invalid_argument)
  else Done (Next tt).

Definition filter_body (filter : string_view) (i level_start : nat) : exec (ctl status nat) :=
  at_end ← (if (i =? sv_size filter)%nat then Done true
            else c ← sv_at filter i; Done (c =? char "/"));
  if (at_end : bool) then
    let level_size := (i - level_start)%nat in
    match for_range level_start (i - level_start) (filter_level_body filter level_size i) tt with
    | Done (Next _) => Done (Next (i + 1)%nat)
    | Done (Return r) => Done (Return r)
    | Undefined => Undefined
    end
  else Done (Next level_start).

Definition validate_topic_filter (filter : string_view) : exec status :=
  if sv_empty filter then Done s_invalid_argument else
  ok ← valid_utf8 filter;
  if negb ok then Done s_invalid_argument
  else after (for_range 0 (S (sv_size filter)) (filter_body filter) 0%nat) (fun _ => Done s_ok).

(** ** The matcher *)

(** [while (e < v.size() && v[e] != '/') ++e]. *)
Definition scan_level (v : string_view) (e : nat) : exec (ctl bool nat) :=
  while_loop (S (sv_size v))
    (fun e => if (e <? sv_size v)%nat then c ← sv_at v e; Done (negb (c =? char "/")) else Done false)
    (fun e => Done (Next (e + 1)%nat)) e.

Definition compare_body (filter topic : string_view) (fi ti k : nat) (_ : unit) : exec (ctl bool unit) :=
  a ← sv_at filter (fi + k);
  b ← sv_at topic (ti + k);
  if negb (a =? b) then Done (Return false) else Done (Next tt).

Definition match_body (filter topic : string_view) (st : nat * nat)
    : exec (ctl bool (nat * nat)) :=
  let '(fi, ti) := st in
  c ← sv_at filter fi;
  if c =? char "#" then Done (Return true) else
  match scan_level filter fi, scan_level topic ti with
  | Done (Next f_end), Done (Next t_end) =>
      let f_len := (f_end - fi)%nat in
      let t_len := (t_end - ti)%nat in
      let plus := (f_len =? 1)%nat && (c =? char "+") in
      level ← (if plus then Done (Next tt)
               else if negb (f_len =? t_len)%nat then Done (Return false)
               else for_range 0 f_len (compare_body filter topic fi ti) tt);
      match level with
      | Return r => Done (Return r)
      | Next _ =>
          let f_more := (f_end <? sv_size filter)%nat in
          let t_more := (t_end <? sv_size topic)%nat in
          if negb f_more then Done (Return (negb t_more))
          else if negb t_more then
            (if (f_end + 2 =? sv_size filter)%nat
             then c ← sv_at filter (f_end + 1); Done (Return (c =? char "#"))
             else Done (Return false))
          else Done (Next ((f_end + 1)%nat, (t_end + 1)%nat))
      end
  | _, _ => Undefined
  end.

Definition topic_matches (filter topic : string_view) : exec bool :=
  fs ← validate_topic_filter filter;
  if negb (succeeded fs) then Done false else
  ts ← validate_topic_name topic;
  if negb (succeeded ts) then Done false else
  t0 ← sv_at topic 0;
  dollar ← (if t0 =? char "$" then f0 ← sv_at filter 0; Done (negb (f0 =? char "$")) else Done false);
  if (dollar : bool) then Done false
  else after (while_loop (S (sv_size filter)) (fun '(fi, _) => Done (fi <? sv_size filter)%nat)
                (match_body filter topic) (0%nat, 0%nat))
         (fun '(_, ti) => Done (ti =? sv_size topic)%nat).

(** ** Specification: code points and levels *)

(** The code points MQTT text may hold: no U+0000, no surrogate, no
    non-character. *)
Definition text_point (cp : Z) : Prop :=
  0 < cp <= 1114111 /\ ~ (55296 <= cp <= 57343) /\ ~ (64976 <= cp <= 65007)
  /\ cp mod 65536 <> 65534 /\ cp mod 65536 <> 65535.

Definition utf8_encode (cp : Z) : list Z :=
  if cp <? 128 then [cp]
  else if cp <? 2048 then [192 + cp / 64; 128 + cp mod 64]
  else if cp <? 65536 then [224 + cp / 4096; 128 + cp / 64 mod 64; 128 + cp mod 64]
  else [240 + cp / 262144; 128 + cp / 4096 mod 64; 128 + cp / 64 mod 64; 128 + cp mod 64].

Definition utf8_text (s : list Z) : Prop :=
  exists cps, Forall text_point cps /\ s = flat_map utf8_encode cps.

(** The levels of a topic: its parts between the separators. *)
Fixpoint levels (s : list Z) : list (list Z) :=
  match s with
  | [] => [[]]
  | c :: s =>
      match levels s with
      | [] => [[c]]
      | l :: ls => if c =? char "/" then [] :: l :: ls else (c :: l) :: ls
      end
  end.

(** A level of a filter: a wildcard stands alone, and [#] is the last level. *)
Definition level_ok (is_last : bool) (l : list Z) : bool :=
  forallb (fun c => negb ((c =? char "+") && negb (length l =? 1)%nat)
                 && negb ((c =? char "#") && negb ((length l =? 1)%nat && is_last))) l.
Fixpoint filter_levels_ok (ls : list (list Z)) : bool :=
  match ls with
  | [] => true
  | [l] => level_ok true l
  | l :: ls => level_ok false l && filter_levels_ok ls
  end.

(** Matching level by level: [+] matches one level, a final [#] any number of
    them, none included. *)
Fixpoint match_levels (fs ts : list (list Z)) : bool :=
  match fs, ts with
  | [], [] => true
  | f :: fs', [] => bool_decide (f = chars "#") && bool_decide (fs' = [])
  | [], _ :: _ => false
  | f :: fs', t :: ts' =>
      bool_decide (f = chars "#")
      || ((bool_decide (f = chars "+") || bool_decide (f = t)) && match_levels fs' ts')
  end.

(** ** UTF-8 *)

Definition sv_of (s : list Z) : string_view := mk_sv (Some s) (length s).

Lemma sv_at_mid pre mid post k v i :
  mid !! k = Some v -> i = (length pre + k)%nat -> sv_at (sv_of (pre ++ mid ++ post)) i = Done v.
Proof. apply pload_mid. Qed.

(** What a byte's bits say, as ranges. *)
Lemma lead_byte_ranges c :
  u8 c -> 128 <= c ->
  utf8_lead c = if c <? 192 then None else if c <? 224 then Some (c - 192, 1%nat, 128)
                else if c <? 240 then Some (c - 224, 2%nat, 2048)
                else if c <? 248 then Some (c - 240, 3%nat, 65536) else None.
Proof.
  intros Hu. revert c Hu. apply (all_below_decide 256 (fun c => 128 <= c -> utf8_lead c =
    if c <? 192 then None else if c <? 224 then Some (c - 192, 1%nat, 128)
    else if c <? 240 then Some (c - 224, 2%nat, 2048)
    else if c <? 248 then Some (c - 240, 3%nat, 65536) else None)). done.
Qed.

Lemma continuation_byte c :
  u8 c -> (Z.land c 192 =? 128) = ((128 <=? c) && (c <? 192))
    /\ (128 <= c < 192 -> Z.land c 63 = c - 128).
Proof.
  intros Hu. revert c Hu. apply (all_below_decide 256 (fun c =>
    (Z.land c 192 =? 128) = ((128 <=? c) && (c <? 192)) /\ (128 <= c < 192 -> Z.land c 63 = c - 128))).
  done.
Qed.

(** The continuation loop on bytes [cs]: it fails, or folds their six bits in. *)
Definition is_cont (c : Z) : bool := (128 <=? c) && (c <? 192).
Definition cont_value (cp : Z) (cs : list Z) : Z := fold_left (fun a c => a * 64 + (c - 128)) cs cp.

Lemma continuation_loop post cs : forall pre cp k,
  Forall u8 cs -> 0 <= cp ->
  for_range k (length cs) (utf8_continuation (sv_of (pre ++ cs ++ post))) (cp, length pre)
  = Done (if forallb is_cont cs then Next (cont_value cp cs, (length pre + length cs)%nat)
          else Return false).
Proof.
  induction cs as [|c cs IH]; intros pre cp k Hu Hcp.
  { cbn. by rewrite Nat.add_0_r. }
  apply Forall_cons in Hu as [Hc Hu]. destruct (continuation_byte c Hc) as [E1 E2].
  cbn [length for_range]. unfold utf8_continuation at 1.
  rewrite (sv_at_mid pre (c :: cs) post 0 c) by (done || lia). exec_simpl.
  rewrite E1. cbn [forallb]. change ((128 <=? c) && (c <? 192)) with (is_cont c).
  destruct (is_cont c) eqn:Ec; [|done]. unfold is_cont in Ec. cbn [negb andb].
  rewrite E2, lor_shiftl_add by lia. specialize (IH (pre ++ [c]) (cp * 64 + (c - 128)) (S k) Hu ltac:(lia)).
  rewrite length_app, <-app_assoc in IH. cbn [length app] in IH. cbn [app].
  change (2 ^ 6) with 64. rewrite IH. cbn [cont_value fold_left].
  by replace (length pre + 1 + length cs)%nat with (length pre + S (length cs))%nat by lia.
Qed.

Lemma utf8_rejected_spec cp minimum :
  0 <= cp -> utf8_rejected cp minimum = false <->
  minimum <= cp <= 1114111 /\ ~ (55296 <= cp <= 57343) /\ ~ (64976 <= cp <= 65007)
  /\ cp mod 65536 <> 65534 /\ cp mod 65536 <> 65535.
Proof.
  intros H. unfold utf8_rejected. change 65535 with (Z.ones 16). rewrite Z.land_ones by lia.
  change (2 ^ 16) with 65536. change (Z.ones 16) with 65535.
  rewrite !orb_false_iff, !andb_false_iff, !Z.ltb_ge, !Z.leb_gt, !Z.eqb_neq. lia.
Qed.

(** A lead byte and as many bytes as it announces. *)
Lemma utf8_body_multi pre c cs post bits minimum :
  u8 c -> 128 <= c -> utf8_lead c = Some (bits, length cs, minimum) -> 0 <= bits -> Forall u8 cs ->
  utf8_body (sv_of (pre ++ (c :: cs) ++ post)) (length pre)
  = Done (if forallb is_cont cs && negb (utf8_rejected (cont_value bits cs) minimum)
          then Next (length pre + length (c :: cs))%nat else Return false).
Proof.
  intros Hu Hc Hlead Hb Hcs. unfold utf8_body. unfold in_width in Hu.
  rewrite (sv_at_mid pre (c :: cs) post 0 c) by (done || lia). exec_simpl.
  rewrite !(proj2 (Z.eqb_neq _ _)), (proj2 (Z.ltb_ge _ _)), Hlead by lia. cbn [orb].
  rewrite (proj2 (Nat.ltb_ge _ _)) by (cbn; rewrite !length_app; cbn; rewrite !length_app; lia).
  pose proof (continuation_loop post cs (pre ++ [c]) bits 0 Hcs Hb) as L.
  rewrite length_app, <-app_assoc in L. cbn [length app] in L. cbn [app]. rewrite L.
  destruct (forallb is_cont cs); [|done]. cbn [andb].
  destruct (utf8_rejected _ _); [done|]. cbn [negb length]. do 2 f_equal. lia.
Qed.

(** The arithmetic of one encoded character. *)
Ltac utf8_arith :=
  match goal with
  | |- utf8_lead _ = _ =>
      rewrite lead_byte_ranges by (unfold in_width; divlia); cbn [length];
      cmp_cases; try divlia; do 3 f_equal; lia
  | |- Forall _ _ => repeat (apply Forall_cons_2; [unfold in_width; divlia|]); done
  | |- forallb _ _ = true =>
      unfold is_cont; cbn [forallb]; rewrite !andb_true_iff, !Z.leb_le, !Z.ltb_lt; repeat split; divlia
  | |- _ => unfold in_width, cont_value; cbn [fold_left]; divlia
  end.

(** One character: the loop body accepts the encodings of text code points and
    nothing else, and moves behind them. *)
Lemma utf8_body_encode pre cp s :
  text_point cp ->
  utf8_body (sv_of (pre ++ utf8_encode cp ++ s)) (length pre)
  = Done (Next (length pre + length (utf8_encode cp))%nat).
Proof.
  intros [Hrange Hok].
  assert (M : forall c cs bits minimum, utf8_encode cp = c :: cs -> u8 c -> 128 <= c ->
    utf8_lead c = Some (bits, length cs, minimum) -> 0 <= bits -> Forall u8 cs -> minimum <= cp ->
    forallb is_cont cs = true -> cont_value bits cs = cp ->
    utf8_body (sv_of (pre ++ utf8_encode cp ++ s)) (length pre)
    = Done (Next (length pre + length (utf8_encode cp))%nat)).
  { intros c cs bits mn -> Hu Hc Hl Hb Hf Hmn Hcont Hv. rewrite (utf8_body_multi _ _ _ _ bits mn) by done.
    rewrite Hcont, Hv, (proj2 (utf8_rejected_spec cp mn ltac:(lia))) by (split; [lia|done]). done. }
  unfold utf8_encode in M |- *.
  destruct (Z.ltb_spec cp 128); [|destruct (Z.ltb_spec cp 2048); [|destruct (Z.ltb_spec cp 65536)]].
  - unfold utf8_body. rewrite (sv_at_mid pre [cp] s 0 cp) by (done || lia). exec_simpl.
    rewrite !(proj2 (Z.eqb_neq _ _)), (proj2 (Z.ltb_lt _ _)) by lia. done.
  - apply (M _ _ (cp / 64) 128 eq_refl); utf8_arith.
  - apply (M _ _ (cp / 4096) 2048 eq_refl); utf8_arith.
  - apply (M _ _ (cp / 262144) 65536 eq_refl); utf8_arith.
Qed.

Lemma cont_value_nonneg cs : forall bits,
  0 <= bits -> forallb is_cont cs = true -> 0 <= cont_value bits cs.
Proof.
  induction cs as [|c cs IH]; intros bits Hb Hf; [done|].
  cbn [forallb] in Hf. apply andb_true_iff in Hf as [Hc Hf]. unfold is_cont in Hc.
  apply IH; [lia|done].
Qed.

(** The bytes of an accepted character are the encoding of its code point. *)
Lemma encode_of_bytes c cs bits mn :
  u8 c -> 128 <= c -> utf8_lead c = Some (bits, length cs, mn) -> forallb is_cont cs = true ->
  mn <= cont_value bits cs <= 1114111 -> utf8_encode (cont_value bits cs) = c :: cs /\ 0 <= bits /\ 0 < mn.
Proof.
  intros Hu Hc Hl Hf Hr. rewrite lead_byte_ranges in Hl by done. unfold in_width in Hu.
  unfold utf8_encode, cont_value in *.
  destruct (Z.ltb_spec c 192); [done|]. destruct (Z.ltb_spec c 224);
    [|destruct (Z.ltb_spec c 240); [|destruct (Z.ltb_spec c 248); [|done]]];
    injection Hl as <- Hn <-.
  - destruct cs as [|c1 [|]]; try done. cbn [forallb fold_left] in *. unfold is_cont in Hf.
    split; [|lia]. rewrite (proj2 (Z.ltb_ge _ _)), (proj2 (Z.ltb_lt _ _)) by lia.
    f_equal; [divlia|]. f_equal. divlia.
  - destruct cs as [|c1 [|c2 [|]]]; try done. cbn [forallb fold_left] in *. unfold is_cont in Hf.
    split; [|lia]. rewrite (proj2 (Z.ltb_ge _ 128)), (proj2 (Z.ltb_ge _ 2048)), (proj2 (Z.ltb_lt _ _)) by lia.
    f_equal; [divlia|]. f_equal; [divlia|]. f_equal. divlia.
  - destruct cs as [|c1 [|c2 [|c3 [|]]]]; try done. cbn [forallb fold_left] in *. unfold is_cont in Hf.
    split; [|lia]. rewrite (proj2 (Z.ltb_ge _ 128)), (proj2 (Z.ltb_ge _ 2048)), (proj2 (Z.ltb_ge _ 65536)) by lia.
    f_equal; [divlia|]. f_equal; [divlia|]. f_equal; [divlia|]. f_equal. divlia.
Qed.

Lemma lead_bits c bits n mn : u8 c -> 128 <= c -> utf8_lead c = Some (bits, n, mn) -> 0 <= bits /\ 0 < mn.
Proof.
  intros Hu Hc. rewrite lead_byte_ranges by done. unfold in_width in Hu.
  cmp_cases; intros [= <- <- <-]; lia.
Qed.

Lemma utf8_body_accepts pre c s :
  Forall u8 (c :: s) ->
  utf8_body (sv_of (pre ++ c :: s)) (length pre) = Done (Return false) \/
  exists cp rest, text_point cp /\ c :: s = utf8_encode cp ++ rest.
Proof.
  intros [Hc Hs]%Forall_cons. destruct (decide (c < 128)) as [Hlow|Hhigh].
  { destruct (decide (c = 0)) as [->|Hz].
    - left. unfold utf8_body. by rewrite (sv_at_mid pre [0] s 0 0) by (done || lia).
    - right. exists c, s. unfold in_width in Hc. split; [unfold text_point; rewrite Z.mod_small; lia|].
      unfold utf8_encode. by rewrite (proj2 (Z.ltb_lt _ _)) by lia. }
  assert (Hhd : forall s', utf8_body (sv_of (pre ++ c :: s')) (length pre)
    = match utf8_lead c with
      | None => Done (Return false)
      | Some (cp, n, mn) =>
          if (sv_size (sv_of (pre ++ c :: s')) <? length pre + 1 + n)%nat then Done (Return false)
          else match for_range 0 n (utf8_continuation (sv_of (pre ++ c :: s'))) (cp, (length pre + 1)%nat) with
               | Done (Next (cp, i)) =>
                   if utf8_rejected cp mn then Done (Return false) else Done (Next i)
               | Done (Return r) => Done (Return r)
               | Undefined => Undefined
               end
      end).
  { intros s'. unfold utf8_body. rewrite (sv_at_mid pre [c] s' 0 c) by (done || lia). exec_simpl.
    unfold in_width in Hc. by rewrite !(proj2 (Z.eqb_neq _ _)), (proj2 (Z.ltb_ge _ _)) by lia. }
  destruct (utf8_lead c) as [[[bits n] mn]|] eqn:Hl; [|left; by rewrite Hhd].
  destruct (decide (length s < n)%nat) as [Hshort|Hlong].
  { left. rewrite Hhd. by rewrite (proj2 (Nat.ltb_lt _ _)) by (cbn; rewrite length_app; cbn; lia). }
  clear Hhd. destruct (lead_bits c bits n mn Hc ltac:(lia) Hl) as [Hb Hmn].
  assert (exists cs rest, s = cs ++ rest /\ length cs = n) as (cs & rest & -> & <-).
  { exists (take n s), (drop n s). rewrite take_drop, length_take. split; [done|lia]. }
  apply Forall_app in Hs as [Hcs _].
  pose proof (utf8_body_multi pre c cs rest bits mn Hc ltac:(lia) Hl Hb Hcs) as B. cbn [app] in B.
  destruct (forallb is_cont cs) eqn:Ef; [|by left].
  destruct (utf8_rejected (cont_value bits cs) mn) eqn:Er; [by left|right].
  apply utf8_rejected_spec in Er as [Hr Hok]; [|by apply cont_value_nonneg].
  destruct (encode_of_bytes c cs bits mn Hc ltac:(lia) Hl Ef Hr) as [He _].
  exists (cont_value bits cs), rest. rewrite He. split; [split; [lia|done]|done].
Qed.

Lemma length_utf8_encode cp : (1 <= length (utf8_encode cp))%nat.
Proof. unfold utf8_encode. repeat case_match; simpl; lia. Qed.

Lemma utf8_text_cons cp rest : text_point cp -> utf8_text rest -> utf8_text (utf8_encode cp ++ rest).
Proof. intros Hc (cps & Hf & ->). exists (cp :: cps). split; [by constructor|done]. Qed.

(** The first character of a text is determined by its bytes. *)
Lemma utf8_text_uncons c s cp rest :
  text_point cp -> c :: s = utf8_encode cp ++ rest -> utf8_text (c :: s) -> utf8_text rest.
Proof.
  intros Hcp E (cps & Hf & E'). destruct cps as [|cp' cps]; [done|].
  apply Forall_cons in Hf as [Hcp' Hf]. cbn [flat_map] in E'.
  pose proof (utf8_body_encode [] cp rest Hcp) as B.
  pose proof (utf8_body_encode [] cp' (flat_map utf8_encode cps) Hcp') as B'.
  rewrite <-E in B. rewrite <-E', B in B'. injection B' as HL. rewrite E in E'.
  apply app_inj_1 in E' as [_ ->]; [|done]. by exists cps.
Qed.

(** The whole loop, from any position on a character boundary. *)
Lemma utf8_loop s : forall pre fuel,
  Forall u8 s -> (length s < fuel)%nat ->
  exists r, while_loop fuel (fun i => Done (i <? sv_size (sv_of (pre ++ s)))%nat)
      (utf8_body (sv_of (pre ++ s))) (length pre) = Done r
    /\ (r = Return false /\ ~ utf8_text s \/ (exists i, r = Next i) /\ utf8_text s).
Proof.
  remember (length s) as n eqn:Hn. revert s Hn.
  induction (lt_wf n) as [n _ IH]; intros s Hn pre [|fuel] Hu Hf; [lia|]. cbn [while_loop].
  destruct s as [|c s].
  { rewrite app_nil_r. cbn [sv_of sv_size]. nat_tests. eexists; split; [done|]. right.
    split; [by eexists|]. exists []. done. }
  rewrite (proj2 (Nat.ltb_lt _ _)) by (cbn; rewrite length_app; cbn; lia).
  destruct (utf8_body_accepts pre c s Hu) as [Hbad|(cp & rest & Hcp & E)].
  { rewrite Hbad. eexists; split; [done|]. left. split; [done|]. intros (cps & Hc & E).
    destruct cps as [|cp cps]; [done|]. apply Forall_cons in Hc as [Hcp _]. cbn [flat_map] in E.
    rewrite E, utf8_body_encode in Hbad by done. done. }
  assert (L := length_utf8_encode cp).
  assert (HL : length (c :: s) = (length (utf8_encode cp) + length rest)%nat) by (by rewrite E, length_app).
  destruct (IH (length rest) ltac:(lia) rest eq_refl (pre ++ utf8_encode cp) fuel) as (r & Er & Hr).
  { rewrite E in Hu. by apply Forall_app in Hu as [_ Hu]. }
  { lia. }
  exists r. split.
  - rewrite E, utf8_body_encode by done. rewrite <-Er, length_app, app_assoc. done.
  - destruct Hr as [[-> Hno]|[Hex Hyes]]; [left|right]; split; try done.
    + intros Ht. by eapply Hno, utf8_text_uncons.
    + rewrite E. by apply utf8_text_cons.
Qed.

Lemma valid_utf8_spec s :
  Forall u8 s -> exists b, valid_utf8 (sv_of s) = Done b /\ (b = true <-> utf8_text s).
Proof.
  intros Hu. unfold valid_utf8. cbn [sv_of sv_data is_null andb].
  destruct (utf8_loop s [] (S (length s)) Hu ltac:(lia)) as (r & Er & Hr). cbn [app length] in Er.
  cbn [sv_of sv_size] in *. rewrite Er.
  destruct Hr as [[-> Hno]|[[i ->] Hyes]]; eexists; (split; [reflexivity|]); [|done].
  split; [done|tauto].
Qed.

(** ** Validators *)

(** A loop that leaves at the first bad character. *)
Lemma scan_for {R} (bad : Z -> bool) (e : R) (body : nat -> unit -> exec (ctl R unit)) post rest : forall pre,
  (forall i c, sv_at (sv_of (pre ++ rest ++ post)) i = Done c ->
     body i tt = Done (if bad c then Return e else Next tt)) ->
  for_range (length pre) (length rest) body tt = Done (if existsb bad rest then Return e else Next tt).
Proof.
  induction rest as [|c rest IH]; intros pre Hbody; [done|]. cbn [length for_range existsb].
  rewrite (Hbody (length pre) c) by (apply sv_at_mid with (k := 0%nat); done || lia).
  destruct (bad c); [done|]. cbn [orb]. specialize (IH (pre ++ [c])).
  rewrite length_app, Nat.add_1_r, <-app_assoc in IH. apply IH. exact Hbody.
Qed.

Definition is_wildcard (c : Z) : bool := (c =? char "+") || (c =? char "#").
Definition topic_name_ok (s : list Z) : Prop := s <> [] /\ utf8_text s /\ existsb is_wildcard s = false.
Definition topic_filter_ok (s : list Z) : Prop := s <> [] /\ utf8_text s /\ filter_levels_ok (levels s) = true.

(** A validator answers [ok] or [invalid_argument], the former iff [P]. *)
Definition validates (r : exec status) (P : Prop) : Prop :=
  r = Done s_ok /\ P \/ r = Done s_invalid_argument /\ ~ P.

Lemma validate_topic_name_spec s : Forall u8 s -> validates (validate_topic_name (sv_of s)) (topic_name_ok s).
Proof.
  intros Hu. unfold validates, topic_name_ok, validate_topic_name, sv_empty. cbn [sv_of sv_size].
  destruct s as [|c s]; [right; split; [done|tauto]|]. cbn [length Nat.eqb].
  change (mk_sv (Some (c :: s)) (S (length s))) with (sv_of (c :: s)).
  destruct (valid_utf8_spec (c :: s) Hu) as (b & -> & Hb). exec_simpl.
  destruct b; cbn [negb]; [|right; split; [done|]; intros (_ & H & _); by apply Hb in H].
  pose proof (scan_for is_wildcard s_invalid_argument (name_body (sv_of (c :: s))) [] (c :: s) []) as L.
  cbn [length] in L. rewrite L.
  - destruct (existsb is_wildcard (c :: s)); [right|left]; (split; [done|]); [intros (_ & _ & H); done|].
    split; [done|]. split; [by apply Hb|done].
  - intros i x Hx. cbn [app] in Hx. rewrite app_nil_r in Hx. unfold name_body. rewrite Hx. exec_simpl.
    unfold is_wildcard. by destruct (_ || _).
Qed.

(** The character test of the filter validator. *)
Definition level_bad (is_last : bool) (n : nat) (c : Z) : bool :=
  ((c =? char "+") && negb (n =? 1)%nat) || ((c =? char "#") && negb ((n =? 1)%nat && is_last)).

Lemma level_ok_bad is_last l : level_ok is_last l = negb (existsb (level_bad is_last (length l)) l).
Proof.
  unfold level_ok, level_bad. generalize (length l) at 1 2 3 4 as n. intros n.
  induction l as [|c l IH]; [done|]. cbn [forallb existsb]. rewrite IH, !negb_orb. done.
Qed.

(** The current level extended by the rest of the filter. *)
Definition join_first (cur : list Z) (ls : list (list Z)) : list (list Z) :=
  match ls with [] => [cur] | l :: ls => (cur ++ l) :: ls end.

Lemma levels_nonempty s : exists l ls, levels s = l :: ls.
Proof.
  induction s as [|c s (l & ls & IH)]; [by eexists _, _|]. cbn [levels]. rewrite IH.
  destruct (c =? char "/"); by eexists _, _.
Qed.

(** The check of one level. *)
Lemma filter_level_loop pre cur post i is_last :
  is_last = (i =? sv_size (sv_of (pre ++ cur ++ post)))%nat ->
  for_range (length pre) (length cur)
    (filter_level_body (sv_of (pre ++ cur ++ post)) (length cur) i) tt
  = Done (if level_ok is_last cur then Next tt else Return s_invalid_argument).
Proof.
  intros Hl. rewrite level_ok_bad.
  rewrite (scan_for (level_bad is_last (length cur)) s_invalid_argument _ post cur pre).
  - by destruct (existsb _ _).
  - intros j c Hc. unfold filter_level_body. rewrite Hc. exec_simpl. rewrite <-Hl. unfold level_bad.
    by repeat destruct (_ && _).
Qed.

Lemma sv_size_of s : sv_size (sv_of s) = length s.
Proof. done. Qed.

Lemma levels_sep rest : levels (char "/" :: rest) = [] :: levels rest.
Proof. cbn [levels]. destruct (levels_nonempty rest) as (l & ls & ->). by rewrite Z.eqb_refl. Qed.

Lemma join_levels_char cur c rest :
  c <> char "/" -> join_first cur (levels (c :: rest)) = join_first (cur ++ [c]) (levels rest).
Proof.
  intros Hc. cbn [levels]. destruct (levels_nonempty rest) as (l & ls & ->).
  rewrite (proj2 (Z.eqb_neq _ _)) by done. cbn [join_first]. by rewrite <-app_assoc.
Qed.

Lemma filter_loop rest : forall pre cur,
  exists r, for_range (length pre + length cur) (S (length rest))
      (filter_body (sv_of (pre ++ cur ++ rest))) (length pre) = Done r
    /\ (if filter_levels_ok (join_first cur (levels rest)) then exists k, r = Next k
        else r = Return s_invalid_argument).
Proof.
  induction rest as [|c rest IH]; intros pre cur; cbn [length for_range]; unfold filter_body at 1.
  - rewrite (proj2 (Nat.eqb_eq _ _)) by (rewrite sv_size_of, !length_app; cbn; lia).
    exec_simpl. rewrite Nat.add_sub', (filter_level_loop _ _ _ _ true)
      by (symmetry; apply Nat.eqb_eq; rewrite sv_size_of, !length_app; cbn; lia).
    cbn [levels join_first filter_levels_ok]. rewrite app_nil_r. destruct (level_ok true cur); eauto.
  - rewrite (proj2 (Nat.eqb_neq _ _)) by (rewrite sv_size_of, !length_app; cbn; lia).
    pose proof (sv_at_mid (pre ++ cur) (c :: rest) [] 0 c (length pre + length cur) eq_refl
        ltac:(rewrite length_app; lia)) as Hat. rewrite app_nil_r, <-app_assoc in Hat. rewrite Hat.
    exec_simpl. destruct (Z.eqb_spec c (char "/")) as [->|Hc].
    + rewrite Nat.add_sub', (filter_level_loop _ _ _ _ false)
        by (symmetry; apply Nat.eqb_neq; rewrite sv_size_of, !length_app; cbn; lia).
      rewrite levels_sep. destruct (levels_nonempty rest) as (l & ls & Hls). rewrite Hls.
      cbn [join_first]. rewrite app_nil_r. cbn [filter_levels_ok].
      destruct (level_ok false cur); [|by eexists]. cbn [andb].
      destruct (IH (pre ++ cur ++ [char "/"]) []) as (r & Er & Hr). exists r.
      rewrite Hls in Hr. cbn [join_first app] in Hr. split; [|exact Hr].
      assert (E1 : length (pre ++ cur ++ [char "/"]) = S (length pre + length cur))
        by (rewrite !length_app; cbn; lia).
      rewrite E1, <-!app_assoc, Nat.add_0_r in Er. by rewrite Nat.add_1_r.
    + destruct (IH pre (cur ++ [c])) as (r & Er & Hr). exists r. rewrite join_levels_char by done.
      split; [|exact Hr]. rewrite length_app, <-app_assoc, Nat.add_assoc, Nat.add_1_r in Er. exact Er.
Qed.

Lemma validate_topic_filter_spec s :
  Forall u8 s -> validates (validate_topic_filter (sv_of s)) (topic_filter_ok s).
Proof.
  intros Hu. unfold validates, topic_filter_ok, validate_topic_filter, sv_empty. rewrite sv_size_of.
  destruct s as [|c s]; [right; split; [done|tauto]|]. cbn [length Nat.eqb].
  destruct (valid_utf8_spec (c :: s) Hu) as (b & -> & Hb). exec_simpl.
  destruct b; cbn [negb]; [|right; split; [done|]; intros (_ & H & _); by apply Hb in H].
  destruct (filter_loop (c :: s) [] []) as (r & Er & Hr). cbn [app length Nat.add] in Er. rewrite Er.
  assert (Hj : join_first [] (levels (c :: s)) = levels (c :: s))
    by (by destruct (levels_nonempty (c :: s)) as (l & ls & ->)). rewrite Hj in Hr.
  destruct (filter_levels_ok (levels (c :: s))).
  - destruct Hr as [k ->]. left. split; [done|]. split; [done|]. split; [by apply Hb|done].
  - subst r. right. split; [done|]. intros (_ & _ & H). done.
Qed.

(** ** Matching *)

Definition no_sep (l : list Z) : Prop := char "/" ∉ l.

(** The boundary of a level: the end of the text or a separator. *)
Definition boundary (post : list Z) : Prop := post = [] \/ exists s, post = char "/" :: s.
Definition rest_levels (post : list Z) : list (list Z) :=
  match post with [] => [] | _ :: s => levels s end.

(** The first level of a topic and what follows it. *)
Lemma levels_split s :
  exists l post, s = l ++ post /\ no_sep l /\ boundary post /\ levels s = l :: rest_levels post.
Proof.
  unfold no_sep, boundary. induction s as [|c s (l & post & Hs & Hl & Hb & IH)].
  { exists [], []. split; [done|]. split; [apply not_elem_of_nil|]. split; [by left|done]. }
  destruct (decide (c = char "/")) as [->|Hc].
  { exists [], (char "/" :: s). split; [done|]. split; [apply not_elem_of_nil|].
    split; [right; by eexists|]. by rewrite levels_sep. }
  exists (c :: l), post. split; [by rewrite Hs|]. split; [apply not_elem_of_cons; split; [congruence|done]|].
  split; [done|]. cbn [levels]. by rewrite IH, (proj2 (Z.eqb_neq _ _)) by done.
Qed.

Lemma scan_level_spec pre l post :
  no_sep l -> boundary post ->
  scan_level (sv_of (pre ++ l ++ post)) (length pre) = Done (Next (length pre + length l)%nat).
Proof.
  intros Hl Hb. unfold scan_level. set (v := sv_of (pre ++ l ++ post)).
  assert (Hv : sv_size v = (length pre + (length l + length post))%nat)
    by (unfold v; rewrite sv_size_of, !length_app; done).
  assert (G : forall m k fuel, (k + m = length l)%nat -> (m < fuel)%nat ->
    while_loop (R := bool) fuel
      (fun e => if (e <? sv_size v)%nat then c ← sv_at v e; Done (negb (c =? char "/")) else Done false)
      (fun e => Done (Next (e + 1)%nat)) (length pre + k)%nat
    = Done (Next (length pre + length l)%nat)).
  { intros m. induction m as [|m IH]; intros k [|fuel] Hk Hf; try lia; cbn [while_loop]; rewrite Hv.
    - replace k with (length l) by lia. destruct Hb as [->|[s ->]]; cbn [length]; nat_tests; [done|].
      pose proof (sv_at_mid (pre ++ l) (char "/" :: s) [] 0 (char "/") (length pre + length l) eq_refl
        ltac:(rewrite length_app; lia)) as Hat. rewrite app_nil_r, <-app_assoc in Hat.
      unfold v. rewrite Hat. exec_simpl. by rewrite Z.eqb_refl.
    - nat_tests. destruct (lookup_lt_is_Some_2 l k ltac:(lia)) as [c Hc].
      unfold v at 1. rewrite (sv_at_mid pre l post k c) by done. exec_simpl.
      rewrite (proj2 (Z.eqb_neq _ _)) by (intros ->; apply Hl; by eapply list_elem_of_lookup_2).
      cbn [negb]. rewrite <-Nat.add_assoc, <-Hv. apply IH; lia. }
  specialize (G (length l) 0%nat (S (sv_size v)) eq_refl ltac:(lia)). by rewrite Nat.add_0_r in G.
Qed.

Lemma compare_loop fpre f fpost tpre t tpost :
  length f = length t ->
  for_range 0 (length f)
    (compare_body (sv_of (fpre ++ f ++ fpost)) (sv_of (tpre ++ t ++ tpost)) (length fpre) (length tpre)) tt
  = Done (if bool_decide (f = t) then Next tt else Return false).
Proof.
  intros Hlen. set (F := sv_of _). set (T := sv_of (tpre ++ t ++ tpost)).
  assert (G : forall f2 t2 f1 t1, length f1 = length t1 -> f = f1 ++ f2 -> t = t1 ++ t2 -> length f2 = length t2 ->
    for_range (length f1) (length f2) (compare_body F T (length fpre) (length tpre)) tt
    = Done (if bool_decide (f2 = t2) then Next tt else Return false)).
  { intros f2. induction f2 as [|a f2 IH]; intros [|b t2] f1 t1 H1 Ef Et H2; try discriminate; [done|].
    cbn [length for_range]. unfold compare_body at 1.
    unfold F at 1. rewrite (sv_at_mid fpre f fpost (length f1) a) by (done || subst f; by rewrite list_lookup_middle).
    exec_simpl. unfold T at 1.
    rewrite (sv_at_mid tpre t tpost (length f1) b) by (done || subst t; by rewrite list_lookup_middle).
    exec_simpl. destruct (Z.eqb_spec a b) as [->|Hab]; cbn [negb].
    - specialize (IH t2 (f1 ++ [b]) (t1 ++ [b])). rewrite !length_app, Nat.add_1_r in IH. rewrite IH.
      + by do 2 case_bool_decide; simplify_eq.
      + cbn. lia.
      + by rewrite <-app_assoc.
      + by rewrite <-app_assoc.
      + by injection H2.
    - rewrite bool_decide_false by congruence. done. }
  by apply (G f t [] []).
Qed.

(** What follows a pair of matching levels. *)
Definition after_level (fpost tpost : list Z) (next : nat * nat) : ctl bool (nat * nat) :=
  match fpost, tpost with
  | [], _ => Return (bool_decide (tpost = []))
  | _ :: frest, [] => Return (bool_decide (frest = chars "#"))
  | _ :: _, _ :: _ => Next next
  end.

Lemma match_ends fpre l fpost tsize t_end tpost next :
  (t_end + length tpost = tsize)%nat ->
  (let f_end := (length fpre + length l)%nat in
   let filter := sv_of (fpre ++ l ++ fpost) in
   if negb (f_end <? sv_size filter)%nat then Done (Return (negb (t_end <? tsize)%nat))
   else if negb (t_end <? tsize)%nat then
     if (f_end + 2 =? sv_size filter)%nat
     then c ← sv_at filter (f_end + 1); Done (Return (c =? char "#"))
     else Done (Return false)
   else Done (Next next)) = Done (after_level fpost tpost next).
Proof.
  intros Ht. cbv zeta. rewrite sv_size_of, !length_app. unfold after_level.
  destruct fpost as [|fc frest].
  { cbn [length]. nat_tests. cbn [negb]. destruct tpost; cbn [length] in *; nat_tests; by prop_tests. }
  cbn [length]. nat_tests. cbn [negb]. destruct tpost; cbn [length] in *; nat_tests; cbn [negb]; [|done].
  destruct frest as [|c [|c' frest]]; cbn [length]; nat_tests; [by prop_tests| |by prop_tests].
  pose proof (sv_at_mid (fpre ++ l) [fc; c] [] 1 c (length fpre + length l + 1) eq_refl
    ltac:(rewrite length_app; lia)) as Hat. rewrite app_nil_r, <-app_assoc in Hat. rewrite Hat. exec_simpl.
  destruct (Z.eqb_spec c (char "#")) as [->|]; [done|]. rewrite bool_decide_false; [done|].
  intros [= ->]. done.
Qed.

(** One level on each side, the filter's not being [#]. *)
Lemma match_step fpre l fpost tpre t tpost c :
  no_sep l -> boundary fpost -> no_sep t -> boundary tpost ->
  (l ++ fpost) !! 0%nat = Some c -> c <> char "#" ->
  match_body (sv_of (fpre ++ l ++ fpost)) (sv_of (tpre ++ t ++ tpost)) (length fpre, length tpre)
  = Done (if bool_decide (l = chars "+") || bool_decide (l = t)
          then after_level fpost tpost
                 ((length fpre + length l + 1)%nat, (length tpre + length t + 1)%nat)
          else Return false).
Proof.
  intros Hl Hfb Ht Htb Hc Hne. unfold match_body.
  pose proof (sv_at_mid fpre (l ++ fpost) [] 0 c (length fpre) Hc ltac:(lia)) as Hat.
  rewrite app_nil_r in Hat. rewrite Hat. exec_simpl. rewrite (proj2 (Z.eqb_neq _ _)) by done.
  rewrite !scan_level_spec, !Nat.add_sub' by done.
  assert (Hplus : (length l =? 1)%nat && (c =? char "+") = bool_decide (l = chars "+")).
  { destruct l as [|x [|y l]]; cbn [length Nat.eqb andb]; [by rewrite bool_decide_false| |by rewrite bool_decide_false].
    injection Hc as ->. destruct (Z.eqb_spec c (char "+")) as [->|]; [done|].
    rewrite bool_decide_false; [done|]. intros [= ->]. done. }
  assert (Hlev : (if bool_decide (l = chars "+") then Done (Next tt)
                  else if negb (length l =? length t)%nat then Done (Return false)
                  else for_range 0 (length l) (compare_body (sv_of (fpre ++ l ++ fpost))
                         (sv_of (tpre ++ t ++ tpost)) (length fpre) (length tpre)) tt)
    = Done (if bool_decide (l = chars "+") || bool_decide (l = t) then Next tt else Return false)).
  { destruct (bool_decide (l = chars "+")); [done|]. cbn [orb].
    destruct (Nat.eqb_spec (length l) (length t)) as [El|El]; cbn [negb].
    - by rewrite compare_loop.
    - rewrite bool_decide_false by congruence. done. }
  rewrite Hplus, Hlev. exec_simpl. destruct (_ || _); [|done].
  rewrite (sv_size_of (tpre ++ _)). apply match_ends. rewrite !length_app. lia.
Qed.

(** A level that starts with [#] is the last one, and nothing else. *)
Lemma hash_level frest :
  filter_levels_ok (levels (char "#" :: frest)) = true -> levels (char "#" :: frest) = [chars "#"].
Proof.
  destruct (levels_split (char "#" :: frest)) as (l & post & E & Hl & Hb & ->).
  destruct l as [|x l]; [destruct Hb as [->|[s ->]]; done|]. injection E as <- _.
  unfold boundary in Hb. destruct post as [|p post]; cbn [rest_levels filter_levels_ok].
  - destruct l; [done|]. unfold level_ok. change (char "#") with 35. change (char "+") with 43. by cbn.
  - destruct (levels_nonempty post) as (y & ys & ->). unfold level_ok at 1.
    change (char "#") with 35. change (char "+") with 43. cbn [forallb].
    change (35 =? 43) with false. rewrite Z.eqb_refl, andb_false_r. by cbn.
Qed.

(** The end of the filter on a separator: its last level is empty. *)
Lemma match_empty_level tpre trest :
  match_levels [[]] (levels trest) = (length tpre =? length (tpre ++ trest))%nat.
Proof.
  destruct (levels_split trest) as (t & post & -> & _ & Hb & ->). rewrite !length_app. cbn [match_levels].
  destruct t; cbn [length]; prop_tests; [|nat_tests; done].
  destruct Hb as [->|[s ->]]; cbn [rest_levels length orb andb]; nat_tests; [done|].
  destruct (levels_nonempty s) as (y & ys & ->). done.
Qed.

(** The loop goes on behind a pair of matching levels. *)
Lemma match_rest fpost tpost next :
  boundary fpost -> boundary tpost ->
  match after_level fpost tpost next with
  | Return r => match_levels (rest_levels fpost) (rest_levels tpost) = r
  | Next _ => exists fs ts, fpost = char "/" :: fs /\ tpost = char "/" :: ts
  end.
Proof.
  intros Hf Ht. unfold after_level. destruct Hf as [->|[fs ->]], Ht as [->|[ts ->]]; cbn [rest_levels]; prop_tests.
  - done.
  - by destruct (levels_nonempty ts) as (y & ys & ->).
  - destruct (levels_split fs) as (l & post & -> & _ & Hb & ->). cbn [match_levels].
    destruct Hb as [->|[s ->]]; cbn [rest_levels].
    + rewrite app_nil_r. prop_tests. by rewrite andb_true_r.
    + destruct (levels_nonempty s) as (y & ys & ->). prop_tests. rewrite andb_false_r, bool_decide_false; [done|].
      change (chars "#") with [35]. change (char "/") with 47. destruct l as [|x [|]]; done.
  - by eexists _, _.
Qed.

(** The matching loop computes [match_levels]. *)
Lemma match_loop frest : forall fpre tpre trest fuel,
  filter_levels_ok (levels frest) = true -> (length frest < fuel)%nat ->
  after (while_loop fuel (fun '(fi, _) => Done (fi <? sv_size (sv_of (fpre ++ frest)))%nat)
           (match_body (sv_of (fpre ++ frest)) (sv_of (tpre ++ trest))) (length fpre, length tpre))
    (fun '(_, ti) => Done (ti =? sv_size (sv_of (tpre ++ trest)))%nat)
  = Done (match_levels (levels frest) (levels trest)).
Proof.
  remember (length frest) as n eqn:Hn. revert frest Hn.
  induction (lt_wf n) as [n _ IH]; intros frest Hn fpre tpre trest [|fuel] Hok Hf; [lia|].
  cbn [while_loop]. rewrite !sv_size_of. destruct frest as [|c frest].
  { rewrite app_nil_r. nat_tests. cbn [after levels]. by rewrite (match_empty_level tpre). }
  cbn [length] in *. rewrite (proj2 (Nat.ltb_lt _ _)) by (rewrite length_app; cbn; lia).
  destruct (decide (c = char "#")) as [->|Hc].
  { unfold match_body. pose proof (sv_at_mid fpre (char "#" :: frest) [] 0 (char "#") (length fpre) eq_refl
      ltac:(lia)) as Hat. rewrite app_nil_r in Hat. rewrite Hat. exec_simpl. rewrite Z.eqb_refl. cbn [after].
    rewrite hash_level by done. destruct (levels_nonempty trest) as (x & xs & ->). done. }
  destruct (levels_split (c :: frest)) as (l & fpost & El & Hl & Hfb & Hlev).
  destruct (levels_split trest) as (t & tpost & -> & Ht & Htb & ->).
  assert (Hnh : l <> chars "#") by (intros ->; injection El as -> _; done).
  rewrite Hlev in *. rewrite El in *.
  rewrite (match_step fpre l fpost tpre t tpost c) by (done || by rewrite <-El).
  cbn [match_levels]. rewrite (bool_decide_false (l = chars "#")) by done. cbn [orb].
  destruct (bool_decide (l = chars "+") || bool_decide (l = t)); [|done]. cbn [andb].
  pose proof (match_rest fpost tpost ((length fpre + length l + 1)%nat, (length tpre + length t + 1)%nat) Hfb Htb) as Hrest.
  destruct (after_level _ _ _) as [r|next] eqn:Ea; [by rewrite Hrest|].
  destruct Hrest as (fs & ts & -> & ->). injection Ea as <-. cbn [rest_levels].
  assert (Hlen : S (length frest) = (length l + S (length fs))%nat)
    by (apply (f_equal length) in El; rewrite length_app in El; exact El).
  destruct (levels_nonempty fs) as (y & ys & Hys).
  specialize (IH (length fs) ltac:(lia) fs eq_refl (fpre ++ l ++ [char "/"]) (tpre ++ t ++ [char "/"]) ts fuel).
  rewrite !length_app, <-!app_assoc in IH. cbn [length app] in IH. rewrite !Nat.add_assoc in IH.
  rewrite !sv_size_of in IH. apply IH; [|lia].
  cbn [rest_levels] in Hok. rewrite Hys in Hok |- *. cbn [filter_levels_ok] in Hok.
  by apply andb_true_iff in Hok as [_ Hok].
Qed.

(** The rule on topics of the broker: a leading [$] is matched by a leading [$]
    only. *)
Definition dollar_rule (f t : list Z) : Prop := t !! 0%nat = Some (char "$") -> f !! 0%nat = Some (char "$").

Lemma topic_matches_valid f t :
  topic_filter_ok f -> topic_name_ok t ->
  validate_topic_filter (sv_of f) = Done s_ok -> validate_topic_name (sv_of t) = Done s_ok ->
  exists b, topic_matches (sv_of f) (sv_of t) = Done b
    /\ (b = true <-> dollar_rule f t /\ match_levels (levels f) (levels t) = true).
Proof.
  intros (Hf & _ & Hlev) (Ht & _) Ef Et. unfold topic_matches. rewrite Ef. exec_simpl.
  change (negb (succeeded s_ok)) with false. cbn match. rewrite Et. exec_simpl.
  change (negb (succeeded s_ok)) with false. cbn match.
  destruct f as [|f0 f]; [done|]. destruct t as [|t0 t]; [done|]. unfold dollar_rule. cbn [lookup list_lookup].
  change (sv_at (sv_of (t0 :: t)) 0) with (Done t0). exec_simpl.
  change (sv_at (sv_of (f0 :: f)) 0) with (Done f0). exec_simpl.
  pose proof (match_loop (f0 :: f) [] [] (t0 :: t) (S (length (f0 :: f))) Hlev ltac:(lia)) as L.
  cbn [app length] in L. cbn [sv_of sv_size] in L |- *. cbn [length] in L |- *.
  destruct (Z.eqb_spec t0 (char "$")) as [->|Ht0]; [destruct (Z.eqb_spec f0 (char "$")) as [->|Hf0]|]; exec_simpl; cbn [negb].
  - eexists. split; [exact L|]. split; [done|tauto].
  - eexists. split; [done|]. split; [done|]. intros [Hd _]. specialize (Hd eq_refl). congruence.
  - eexists. split; [exact L|]. split; [|tauto]. intros ->. split; [|done]. congruence.
Qed.

(** ** Properties *)

(**  UTF-8 validation is exact and memory safe: [valid_utf8] accepts a byte
    string iff it is the shortest-form UTF-8 encoding of code points that are
    neither U+0000 nor a surrogate nor a non-character. *)
Theorem mqtt_valid_utf8_exact (s : list Z) :
  Forall u8 s -> exists b, valid_utf8 (sv_of s) = Done b /\ (b = true <-> utf8_text s).
Proof. apply valid_utf8_spec. Qed.

Lemma mqtt_valid_utf8_exact_witness :
  exists b, valid_utf8 (sv_of [206; 177; 47; 240; 159; 153; 130]) = Done b
    /\ (b = true <-> utf8_text [206; 177; 47; 240; 159; 153; 130]).
Proof.
  apply (mqtt_valid_utf8_exact [206; 177; 47; 240; 159; 153; 130]).
  repeat constructor; unfold in_width; lia.
Defined.

(**  The topic validators are exact: a name is accepted iff it is non-empty
    valid text without wildcards, a filter iff it is non-empty valid text in
    which every [+] and [#] is a level of its own and [#] the last one; both
    answer [invalid_argument] otherwise. *)
Theorem mqtt_validators_exact (s : list Z) :
  Forall u8 s ->
  validates (validate_topic_name (sv_of s)) (topic_name_ok s)
  /\ validates (validate_topic_filter (sv_of s)) (topic_filter_ok s).
Proof. intros Hs. split; [by apply validate_topic_name_spec|by apply validate_topic_filter_spec]. Qed.

Lemma mqtt_validators_exact_witness :
  validates (validate_topic_filter (sv_of (chars "a/+/#"))) (topic_filter_ok (chars "a/+/#")).
Proof.
  apply (mqtt_validators_exact (chars "a/+/#")). vm_compute chars.
  repeat constructor; unfold in_width; lia.
Defined.

(**  Topic matching is matching of levels: for every filter and topic the
    matcher terminates without an access out of range and says yes iff both are
    valid, the rule on a leading [$] holds, and the levels match one by one,
    where [+] stands for any single level and a final [#] for any number of
    levels, none included. *)
Theorem mqtt_topic_matches_levels (f t : list Z) :
  Forall u8 f -> Forall u8 t ->
  exists b, topic_matches (sv_of f) (sv_of t) = Done b
    /\ (b = true <-> topic_filter_ok f /\ topic_name_ok t /\ dollar_rule f t
                     /\ match_levels (levels f) (levels t) = true).
Proof.
  intros Hf Ht.
  destruct (validate_topic_filter_spec f Hf) as [[Ef Pf]|[Ef Pf]];
    [destruct (validate_topic_name_spec t Ht) as [[Et Pt]|[Et Pt]]|].
  - destruct (topic_matches_valid f t Pf Pt Ef Et) as (b & E & Hb). exists b. tauto.
  - exists false. unfold topic_matches. rewrite Ef. exec_simpl. cbn. rewrite Et. split; [done|]. split; [done|tauto].
  - exists false. unfold topic_matches. rewrite Ef. split; [done|]. split; [done|tauto].
Qed.

Lemma mqtt_topic_matches_levels_witness :
  exists b, topic_matches (sv_of (chars "sport/+/#")) (sv_of (chars "sport/tennis")) = Done b
    /\ (b = true <-> topic_filter_ok (chars "sport/+/#") /\ topic_name_ok (chars "sport/tennis")
          /\ dollar_rule (chars "sport/+/#") (chars "sport/tennis")
          /\ match_levels (levels (chars "sport/+/#")) (levels (chars "sport/tennis")) = true).
Proof.
  apply (mqtt_topic_matches_levels (chars "sport/+/#") (chars "sport/tennis")); vm_compute chars;
    repeat constructor; unfold in_width; lia.
Defined.
