(* ===== verification/MqttCodec.v ===== *)
(** * MQTT packet codec (castle_ext/protocols/mqtt/codec.hpp, types.hpp)

    Remaining Length, the fixed header and packet framing.  [input + n] is the
    buffer from offset [n] on.  Sizes are naturals: a [size_type] sum below is
    bounded by the size of a buffer plus five. *)

From S2P Require Import Prelude Status Bytes.
Open Scope Z_scope.

Inductive packet_type : Type :=
| reserved | connect | connack | publish | puback | pubrec | pubrel | pubcomp
| subscribe | suback | unsubscribe | unsuback | pingreq | pingresp | disconnect | auth.
#[export] Instance packet_type_eq_dec : EqDecision packet_type.
Proof. solve_decision. Defined.

Definition packet_types : list packet_type :=
  [reserved; connect; connack; publish; puback; pubrec; pubrel; pubcomp;
   subscribe; suback; unsubscribe; unsuback; pingreq; pingresp; disconnect; auth].
(** [static_cast] from the enumeration and to it. *)
Definition packet_type_code (t : packet_type) : Z :=
  match t with
  | reserved => 0 | connect => 1 | connack => 2 | publish => 3 | puback => 4 | pubrec => 5
  | pubrel => 6 | pubcomp => 7 | subscribe => 8 | suback => 9 | unsubscribe => 10 | unsuback => 11
  | pingreq => 12 | pingresp => 13 | disconnect => 14 | auth => 15
  end.
Definition packet_type_of (z : Z) : packet_type := nth (Z.to_nat z) packet_types reserved.

Record packet_view : Type := mk_packet {
  pk_type : packet_type;
  pk_flags : Z;
  pk_remaining_length : Z;
  pk_header_size : nat;
  pk_packet_size : nat;
  pk_body : ptr
}.
Definition no_packet : packet_view := mk_packet reserved 0 0 0 0 None.

Definition maximum_remaining_length : Z := 268435455.

(** ** Remaining Length *)

(** The loop variables: [value], [written] and the output array. *)
Definition encode_length_body (st : Z * nat * list Z) : exec (ctl unit (Z * nat * list Z)) :=
  let '(value, written, output) := st in
  let digit := to_u8 (value mod 128) in
  let value := value / 128 in
  let digit := if negb (value =? 0) then Z.lor digit 128 else digit in
  output ← store output written digit;
  Done (Next (value, (written + 1)%nat, output)).
Definition encode_length_cond (st : Z * nat * list Z) : exec bool :=
  let '(value, written, _) := st in Done (negb (value =? 0) && (written <? 4)%nat).

(** [do body while (cond)]. *)
Definition do_while {R S} (fuel : nat) (cond : S -> exec bool) (body : S -> exec (ctl R S)) (s : S)
    : exec (ctl R S) :=
  match body s with
  | Done (Next s) => while_loop fuel cond body s
  | r => r
  end.

Definition encode_remaining_length (value : Z) (output : ptr) : exec codec_result :=
  match output with
  | None => Done (s_invalid_argument, 0%nat, None)
  | Some output =>
      if maximum_remaining_length <? value then Done (s_out_of_range, 0%nat, Some output)
      else
        match do_while 5 encode_length_cond encode_length_body (value, 0%nat, output) with
        | Done (Next (_, written, output)) => Done (s_ok, written, Some output)
        | _ => Undefined
        end
  end.

Definition decode_length_min_body (_ : nat) (minimum : Z) : exec (ctl unit Z) :=
  Done (Next (to_u32 (minimum * 128))).

(** The loop variables: [value], [consumed] and [multiplier]. *)
Definition decode_length_body (input : ptr) (size i : nat) (st : Z * nat * Z)
    : exec (ctl (status * Z * nat) (Z * nat * Z)) :=
  let '(value, consumed, multiplier) := st in
  if (size <=? i)%nat then Done (Return (s_empty, value, consumed))
  else
    digit ← pload input i;
    let value := to_u32 (value + Z.land digit 127 * multiplier) in
    let consumed := (consumed + 1)%nat in
    if Z.land digit 128 =? 0 then
      if maximum_remaining_length <? value then Done (Return (s_out_of_range, value, consumed))
      else if negb (i =? 0)%nat then
        match for_range 0 i decode_length_min_body 1 with
        | Done (Next minimum) =>
            if value <? minimum then Done (Return (s_invalid_argument, value, consumed))
            else Done (Return (s_ok, value, consumed))
        | _ => Undefined
        end
      else Done (Return (s_ok, value, consumed))
    else Done (Next (value, consumed, to_u32 (multiplier * 128))).

Definition decode_remaining_length (input : ptr) (size : nat) : exec (status * Z * nat) :=
  if is_null input && negb (size =? 0)%nat then Done (s_invalid_argument, 0, 0%nat)
  else after (for_range 0 4 (decode_length_body input size) (0, 0%nat, 1))
         (fun '(value, consumed, _) => Done (s_invalid_argument, value, consumed)).

(** ** Packets *)

Definition valid_fixed_header (type : packet_type) (flags : Z) : bool :=
  if bool_decide (type = publish) then
    let quality := to_u8 (Z.land (Z.shiftr flags 1) 3) in
    negb (quality =? 3) && negb ((quality =? 0) && negb (Z.land flags 8 =? 0))
  else if bool_decide (type = pubrel) || bool_decide (type = subscribe) || bool_decide (type = unsubscribe)
  then (flags =? 2) || (flags =? 10)
  else flags =? 0.

Definition inspect_packet (input : ptr) (size maximum_packet_size : nat)
    : exec (status * packet_view) :=
  match input with
  | None => Done (s_invalid_argument, no_packet)
  | Some m =>
      if (maximum_packet_size <? 2)%nat then Done (s_invalid_argument, no_packet)
      else if (size <? 2)%nat then Done (s_empty, no_packet)
      else
        b0 ← load m 0;
        let type_value := to_u8 (Z.shiftr b0 4) in
        let flags := to_u8 (Z.land b0 15) in
        if (type_value =? 0) || negb (valid_fixed_header (packet_type_of type_value) flags)
        then Done (s_invalid_argument, no_packet)
        else
          r ← decode_remaining_length (Some (drop 1 m)) (size - 1);
          let '(result, remaining, length_bytes) := r in
          if negb (succeeded result) then Done (result, no_packet)
          else
            let header_size := (1 + length_bytes)%nat in
            if (Z.of_nat maximum_packet_size <? remaining)
               || (maximum_packet_size - Z.to_nat remaining <? header_size)%nat
            then Done (s_out_of_range, no_packet)
            else
              let packet_size := (header_size + Z.to_nat remaining)%nat in
              if (size <? packet_size)%nat then Done (s_empty, no_packet)
              else Done (s_ok, mk_packet (packet_type_of type_value) flags remaining header_size
                                 packet_size (Some (drop header_size m)))
  end.

(** [for (i < n) output[at + i] = src[i]]. *)
Definition copy_to (src : ptr) (at_ i : nat) (output : list Z) : exec (ctl codec_result (list Z)) :=
  b ← pload src i;
  output ← store output (at_ + i) b;
  Done (Next output).

Definition encode_packet (type : packet_type) (flags : Z) (body : ptr) (body_size : nat)
    (output : ptr) (capacity : nat) : exec codec_result :=
  match output with
  | None => Done (s_invalid_argument, 0%nat, None)
  | Some out =>
      if is_null body && negb (body_size =? 0)%nat then Done (s_invalid_argument, 0%nat, output)
      else if negb (valid_fixed_header type flags) then Done (s_invalid_argument, 0%nat, output)
      else if maximum_remaining_length <? Z.of_nat body_size then Done (s_out_of_range, 0%nat, output)
      else
        r ← encode_remaining_length (Z.of_nat body_size) (Some [0; 0; 0; 0]);
        let '(result, length_size, len) := r in
        if negb (succeeded result) then Done (result, 0%nat, output)
        else if (capacity <? 1 + length_size)%nat || (capacity - 1 - length_size <? body_size)%nat
        then Done (s_full, 0%nat, output)
        else
          out ← store out 0 (to_u8 (Z.lor (Z.shiftl (packet_type_code type) 4) flags));
          after (for_range 0 length_size (copy_to len 1) out) (fun out =>
          after (for_range 0 body_size (copy_to body (1 + length_size)) out) (fun out =>
          Done (s_ok, (1 + length_size + body_size)%nat, Some out)))
  end.

(** ** Specification of the variable byte integer *)

Fixpoint varint_digits (fuel : nat) (v : Z) : list Z :=
  match fuel with
  | 0%nat => []
  | S n => if v <? 128 then [v] else (128 + v mod 128) :: varint_digits n (v / 128)
  end.
Definition varint (v : Z) : list Z := varint_digits 4 v.

Lemma length_varint_digits k v : (length (varint_digits k v) <= k)%nat.
Proof. revert v. induction k; intros v; cbn; [lia|]. destruct (v <? 128); cbn; [lia|]. specialize (IHk (v / 128)). lia. Qed.

(** One digit of the encoder. *)
Lemma encode_length_step out ds v :
  0 <= v -> (length ds < length out)%nat ->
  encode_length_body (v, length ds, wrote out 0 ds)
  = Done (Next (v / 128, length (ds ++ [if v <? 128 then v else 128 + v mod 128]),
                wrote out 0 (ds ++ [if v <? 128 then v else 128 + v mod 128]))).
Proof.
  intros Hv Hl. unfold encode_length_body.
  assert (Hm : 0 <= v mod 128 < 128) by (apply Z.mod_pos_bound; lia).
  rewrite (wrap_small 8 (v mod 128)) by (unfold in_width; lia).
  assert (Hd : (if negb (v / 128 =? 0) then Z.lor (v mod 128) 128 else v mod 128)
    = if v <? 128 then v else 128 + v mod 128).
  { destruct (Z.ltb_spec v 128).
    - rewrite Z.div_small, Z.mod_small by lia. done.
    - rewrite (proj2 (Z.eqb_neq _ _)) by divlia. cbn [negb].
      change 128 with (Z.shiftl 1 7) at 2. rewrite lor_add_shiftl by lia. lia. }
  rewrite Hd, store_wrote by lia. exec_simpl. by rewrite length_app.
Qed.

Lemma encode_length_loop out k : forall v ds fuel,
  (4 <= length out)%nat -> 0 <= v < 128 ^ Z.of_nat (S k) -> (length ds + S k = 4)%nat -> (k < fuel)%nat ->
  exists v', do_while (R := unit) fuel encode_length_cond encode_length_body (v, length ds, wrote out 0 ds)
    = Done (Next (v', length (ds ++ varint_digits (S k) v), wrote out 0 (ds ++ varint_digits (S k) v))).
Proof.
  induction k as [|k IH]; intros v ds [|fuel] Hout Hv Hds Hf; try lia; unfold do_while;
    rewrite encode_length_step by lia; cbn [while_loop encode_length_cond varint_digits].
  - change (128 ^ Z.of_nat 1) with 128 in Hv. rewrite (proj2 (Z.ltb_lt v 128)) by lia.
    rewrite Z.div_small by lia. cbn. by eexists.
  - rewrite Nat2Z.inj_succ, Z.pow_succ_r in Hv by lia. destruct (Z.ltb_spec v 128).
    + rewrite Z.div_small by lia. cbn. by eexists.
    + rewrite (proj2 (Z.eqb_neq _ _)) by divlia. rewrite length_app. cbn [length negb andb]. nat_tests.
      destruct (IH (v / 128) (ds ++ [128 + v mod 128]) fuel) as (v' & E); [lia| |rewrite length_app; cbn; lia|lia|].
      { split; [divlia|]. apply Z.div_lt_upper_bound; lia. }
      exists v'. rewrite length_app, <-app_assoc in E. cbn [length app] in E. exact E.
Qed.

Lemma encode_remaining_length_spec v out :
  (4 <= length out)%nat -> 0 <= v ->
  encode_remaining_length v (Some out) =
    Done (if decide (v <= maximum_remaining_length)
          then (s_ok, length (varint v), Some (wrote out 0 (varint v)))
          else (s_out_of_range, 0%nat, Some out)).
Proof.
  intros Hout Hv. unfold encode_remaining_length.
  destruct (Z.ltb_spec maximum_remaining_length v); case_decide; try lia; [done|].
  destruct (encode_length_loop out 3 v [] 5 Hout) as (v' & E);
    [unfold maximum_remaining_length in *; lia|done|lia|].
  rewrite wrote_nil in E. cbn [length app] in E. rewrite E. done.
Qed.

(** The decoder as a function of the bytes. *)
Fixpoint varint_parse (k i : nat) (acc : Z) (rest : list Z) : status * Z * nat :=
  match k with
  | 0%nat => (s_invalid_argument, acc, i)
  | S k =>
      match rest with
      | [] => (s_empty, acc, i)
      | b :: rest =>
          let acc' := acc + b mod 128 * 128 ^ Z.of_nat i in
          if b <? 128 then
            (if negb (i =? 0)%nat && (acc' <? 128 ^ Z.of_nat i) then s_invalid_argument else s_ok,
             acc', (i + 1)%nat)
          else varint_parse k (i + 1) acc' rest
      end
  end.

Lemma decode_min_loop i : forall k m,
  0 <= m -> m * 128 ^ Z.of_nat i < 2 ^ 32 ->
  for_range k i decode_length_min_body m = Done (Next (m * 128 ^ Z.of_nat i)).
Proof.
  induction i as [|i IH]; intros k m Hm Hb; cbn [for_range]; [cbn; f_equal; f_equal; lia|].
  rewrite Nat2Z.inj_succ, Z.pow_succ_r in Hb |- * by lia.
  assert (0 < 128 ^ Z.of_nat i) by (apply Z.pow_pos_nonneg; lia).
  unfold decode_length_min_body at 1. rewrite wrap_small by (unfold in_width; nia).
  rewrite IH by nia. do 2 f_equal. lia.
Qed.

Lemma digit_bits b : u8 b -> Z.land b 127 = b mod 128 /\ (Z.land b 128 =? 0) = (b <? 128).
Proof.
  revert b. apply (all_below_decide 256 (fun b => Z.land b 127 = b mod 128 /\ (Z.land b 128 =? 0) = (b <? 128))).
  done.
Qed.

Lemma decode_length_loop post k rest : forall pre acc,
  (length pre + k = 4)%nat -> Forall u8 rest -> 0 <= acc < 128 ^ Z.of_nat (length pre) ->
  exists c, for_range (length pre) k
      (decode_length_body (Some (pre ++ rest ++ post)) (length pre + length rest))
      (acc, length pre, 128 ^ Z.of_nat (length pre)) = Done c
    /\ (match c with Return r => r | Next (value, consumed, _) => (s_invalid_argument, value, consumed) end)
       = varint_parse k (length pre) acc rest.
Proof.
  revert rest. induction k as [|k IH]; intros rest pre acc Hk Hu Hacc; cbn [for_range varint_parse].
  { eexists. split; [reflexivity|]. done. }
  unfold decode_length_body at 1. destruct rest as [|b rest].
  { cbn [length]. nat_tests. eexists. split; [reflexivity|]. done. }
  apply Forall_cons in Hu as [Hb Hu]. destruct (digit_bits b Hb) as [E1 E2]. cbn [length]. nat_tests.
  rewrite (pload_mid pre (b :: rest) post 0 b) by (done || lia). exec_simpl. rewrite E1, E2.
  assert (Hm : 0 <= b mod 128 < 128) by (apply Z.mod_pos_bound; lia).
  assert (Hp : 0 < 128 ^ Z.of_nat (length pre) <= 2097152).
  { split; [apply Z.pow_pos_nonneg; lia|]. change 2097152 with (128 ^ 3). apply Z.pow_le_mono_r; lia. }
  set (acc' := acc + b mod 128 * 128 ^ Z.of_nat (length pre)).
  assert (Ha' : 0 <= acc' < 128 * 128 ^ Z.of_nat (length pre)) by (unfold acc'; nia).
  rewrite (wrap_small 32 acc') by (unfold in_width; lia).
  destruct (b <? 128).
  - rewrite (proj2 (Z.ltb_ge _ acc')) by (unfold maximum_remaining_length; lia).
    destruct (Nat.eqb_spec (length pre) 0) as [H0|H0]; cbn [negb andb].
    + eexists. split; [reflexivity|]. done.
    + rewrite decode_min_loop, Z.mul_1_l by lia.
      destruct (acc' <? 128 ^ Z.of_nat (length pre)); eexists; (split; [reflexivity|]); done.
  - specialize (IH rest (pre ++ [b]) acc'). rewrite length_app, <-app_assoc in IH. cbn [length app] in IH.
    rewrite Nat.add_1_r in *. rewrite Nat2Z.inj_succ, Z.pow_succ_r in IH by lia.
    destruct IH as (c & E & Hc); [lia|done|done|].
    exists c. split; [|done]. rewrite <-E. rewrite wrap_small by (unfold in_width; lia).
    rewrite Z.mul_comm. f_equal. cbn. f_equal. lia.
Qed.

Lemma decode_remaining_length_spec bs post :
  Forall u8 bs ->
  decode_remaining_length (Some (bs ++ post)) (length bs) = Done (varint_parse 4 0 0 bs).
Proof.
  intros Hu. unfold decode_remaining_length. cbn [is_null andb].
  destruct (decode_length_loop post 4 bs [] 0 eq_refl Hu ltac:(cbn; lia)) as (c & E & Hc).
  cbn [app length Nat.add] in E. change (128 ^ Z.of_nat 0) with 1 in E. rewrite E.
  change (length []) with 0%nat in Hc. rewrite <-Hc. by destruct c as [r|[[v n] m]].
Qed.

(** The parser accepts exactly the encodings. *)
Lemma varint_parse_encode k : forall i acc w rest,
  0 <= acc < 128 ^ Z.of_nat i -> 0 <= w < 128 ^ Z.of_nat k -> (0 < k)%nat -> (i = 0%nat \/ 0 < w) ->
  varint_parse k i acc (varint_digits k w ++ rest)
  = (s_ok, acc + w * 128 ^ Z.of_nat i, (i + length (varint_digits k w))%nat).
Proof.
  induction k as [|k IH]; intros i acc w rest Hacc Hw Hk Hi; [lia|]. cbn [varint_digits].
  assert (Hp : 0 < 128 ^ Z.of_nat i) by (apply Z.pow_pos_nonneg; lia).
  rewrite Nat2Z.inj_succ, Z.pow_succ_r in Hw by lia.
  destruct (Z.ltb_spec w 128) as [Hlt|Hge]; cbn [app varint_parse].
  - rewrite (proj2 (Z.ltb_lt w 128)), Z.mod_small by lia. cbn [length].
    destruct (Nat.eqb_spec i 0) as [->|H0]; cbn [negb andb]; [done|].
    rewrite (proj2 (Z.ltb_ge _ _)) by nia. done.
  - assert (Hm : 0 <= w mod 128 < 128) by (apply Z.mod_pos_bound; lia).
    rewrite (proj2 (Z.ltb_ge _ 128)) by lia.
    replace ((128 + w mod 128) mod 128) with (w mod 128) by divlia.
    destruct (decide (k = 0%nat)) as [->|Hk0]; [cbn in Hw; lia|].
    rewrite IH.
    + cbn [length]. rewrite Nat.add_1_r, Nat2Z.inj_succ, Z.pow_succ_r by lia.
      assert (E := Z_div_mod_eq_full w 128). f_equal; [f_equal; nia|lia].
    + rewrite Nat.add_1_r, Nat2Z.inj_succ, Z.pow_succ_r by lia. nia.
    + split; [divlia|]. apply Z.div_lt_upper_bound; lia.
    + lia.
    + right. divlia.
Qed.

Lemma varint_parse_ok k : forall i acc bs v n,
  0 <= acc < 128 ^ Z.of_nat i -> Forall u8 bs -> varint_parse k i acc bs = (s_ok, v, n) ->
  exists w rest, bs = varint_digits k w ++ rest /\ 0 <= w < 128 ^ Z.of_nat k
    /\ (i = 0%nat \/ 0 < w) /\ v = acc + w * 128 ^ Z.of_nat i /\ n = (i + length (varint_digits k w))%nat.
Proof.
  induction k as [|k IH]; intros i acc bs v n Hacc Hu H; cbn [varint_parse] in H; [done|].
  destruct bs as [|b bs]; [done|]. apply Forall_cons in Hu as [Hb Hu]. unfold in_width in Hb.
  assert (Hp : 0 < 128 ^ Z.of_nat i) by (apply Z.pow_pos_nonneg; lia).
  assert (Hpk : 0 < 128 ^ Z.of_nat k) by (apply Z.pow_pos_nonneg; lia).
  assert (Hm : 0 <= b mod 128 < 128) by (apply Z.mod_pos_bound; lia).
  rewrite Nat2Z.inj_succ, Z.pow_succ_r by lia.
  destruct (Z.ltb_spec b 128) as [Hlt|Hge].
  - exists b, bs. cbn [varint_digits]. rewrite (proj2 (Z.ltb_lt b 128)) by lia.
    rewrite Z.mod_small in H by lia.
    destruct (Nat.eqb_spec i 0) as [->|H0]; cbn [negb andb] in H.
    + injection H as <- <-. split; [done|]. split; [nia|]. split; [by left|]. cbn. lia.
    + destruct (Z.ltb_spec (acc + b * 128 ^ Z.of_nat i) (128 ^ Z.of_nat i)); [done|]. injection H as <- <-.
      split; [done|]. split; [nia|]. split; [right; nia|]. done.
  - apply IH in H as (w & rest & -> & Hw & Hi & -> & ->); [| |done].
    + exists (b - 128 + 128 * w), rest. cbn [varint_digits].
      destruct Hi as [Hi|Hi]; [lia|]. rewrite (proj2 (Z.ltb_ge _ 128)) by lia.
      assert (E1 : (b - 128 + 128 * w) mod 128 = b - 128)
        by (rewrite (Z.mul_comm 128), Z.mod_add, Z.mod_small; lia).
      assert (E2 : (b - 128 + 128 * w) / 128 = w)
        by (rewrite (Z.mul_comm 128), Z.div_add, Z.div_small; lia).
      rewrite E1, E2. split; [cbn [app]; f_equal; lia|]. split; [nia|]. split; [right; lia|].
      cbn [length]. rewrite Nat.add_1_r, Nat2Z.inj_succ, Z.pow_succ_r by lia.
      assert (b mod 128 = b - 128) by divlia.
      split; [nia|lia].
    + rewrite Nat.add_1_r, Nat2Z.inj_succ, Z.pow_succ_r by lia. nia.
Qed.

Lemma varint_bounds v : 0 <= v -> Forall u8 (varint v) /\ (1 <= length (varint v) <= 4)%nat.
Proof.
  intros Hv. unfold varint. split.
  - generalize 4%nat. intros k. revert v Hv. induction k as [|k IH]; intros v Hv; cbn [varint_digits]; [constructor|].
    destruct (Z.ltb_spec v 128); constructor; [unfold in_width; lia|constructor|unfold in_width; divlia|].
    apply IH. divlia.
  - split; [|apply length_varint_digits]. cbn [varint_digits]. destruct (v <? 128); cbn; lia.
Qed.

Lemma varint_decode v post :
  0 <= v <= maximum_remaining_length ->
  varint_parse 4 0 0 (varint v ++ post) = (s_ok, v, length (varint v)).
Proof.
  unfold maximum_remaining_length. intros Hv. unfold varint.
  rewrite varint_parse_encode by (cbn; lia). cbn [Nat.add]. do 2 f_equal. cbn. lia.
Qed.

(** A proper prefix of an encoding is incomplete. *)
Lemma varint_parse_prefix k : forall i acc w bs rest,
  varint_digits k w = bs ++ rest -> rest <> [] -> 0 <= w -> exists v n, varint_parse k i acc bs = (s_empty, v, n).
Proof.
  induction k as [|k IH]; intros i acc w bs rest E Hne Hw; cbn [varint_digits varint_parse] in *.
  { destruct bs; simplify_eq; destruct rest; done. }
  destruct bs as [|b bs]; [by eexists _, _|]. destruct (Z.ltb_spec w 128).
  - destruct bs; destruct rest; done.
  - injection E as <- E. rewrite (proj2 (Z.ltb_ge _ 128)) by divlia. eapply IH; [done|done|divlia].
Qed.

(** ** Packets *)

Definition fixed_byte (type : packet_type) (flags : Z) : Z :=
  to_u8 (Z.lor (Z.shiftl (packet_type_code type) 4) flags).
Definition packet_bytes (type : packet_type) (flags : Z) (body : list Z) : list Z :=
  fixed_byte type flags :: varint (Z.of_nat (length body)) ++ body.

Lemma length_packet_bytes type flags body :
  length (packet_bytes type flags body)
  = (1 + length (varint (Z.of_nat (length body))) + length body)%nat.
Proof. unfold packet_bytes. cbn [length]. rewrite length_app. lia. Qed.

(** The copying loops append to what has been written. *)
Lemma copy_to_loop out post at_ ds bs : forall pre,
  length ds = at_ -> (length ds + length pre + length bs <= length out)%nat ->
  for_range (length pre) (length bs) (copy_to (Some (pre ++ bs ++ post)) at_) (wrote out 0 (ds ++ pre))
  = Done (Next (wrote out 0 (ds ++ pre ++ bs))).
Proof.
  induction bs as [|b bs IH]; intros pre Hds Hout; cbn [length for_range].
  { by rewrite app_nil_r. }
  unfold copy_to at 1. rewrite (pload_mid pre (b :: bs) post 0 b) by (done || lia). exec_simpl.
  cbn [length] in Hout. rewrite store_wrote by (rewrite ?length_app; lia). exec_simpl.
  specialize (IH (pre ++ [b])). rewrite length_app, <-!app_assoc in IH. cbn [length app] in IH.
  rewrite Nat.add_1_r in IH. rewrite <-app_assoc. apply IH; [done|lia].
Qed.

Lemma encode_packet_spec type flags body post out cap :
  valid_fixed_header type flags = true -> (cap <= length out)%nat ->
  Z.of_nat (length body) <= maximum_remaining_length ->
  encode_packet type flags (Some (body ++ post)) (length body) (Some out) cap =
    Done (if decide (length (packet_bytes type flags body) <= cap)%nat
          then (s_ok, length (packet_bytes type flags body), Some (wrote out 0 (packet_bytes type flags body)))
          else (s_full, 0%nat, Some out)).
Proof.
  intros Hv Hcap Hlen. unfold encode_packet. cbn [is_null andb].
  rewrite Hv. cbn [negb]. rewrite (proj2 (Z.ltb_ge _ _)) by done.
  rewrite encode_remaining_length_spec, decide_True by (cbn; lia). exec_simpl.
  change (negb (succeeded s_ok)) with false. cbv iota.
  destruct (varint_bounds (Z.of_nat (length body)) ltac:(lia)) as [_ Hb].
  rewrite length_packet_bytes. set (n := length (varint (Z.of_nat (length body)))) in *.
  case_decide as Hfit.
  2: { replace ((cap <? 1 + n)%nat || (cap - 1 - n <? length body)%nat) with true; [done|].
       symmetry. destruct (Nat.ltb_spec cap (1 + n)); [done|]. cbn [orb]. apply Nat.ltb_lt. lia. }
  nat_tests. cbn [orb]. rewrite <-(wrote_nil out 0) at 1.
  rewrite store_wrote by (cbn; lia). exec_simpl. fold (fixed_byte type flags). cbn [app].
  pose proof (copy_to_loop out (drop n [0; 0; 0; 0]) 1 [fixed_byte type flags]
    (varint (Z.of_nat (length body))) [] eq_refl ltac:(cbn [length]; lia)) as L1.
  rewrite (wrote_0 [0; 0; 0; 0]). cbn [app length] in L1. fold n in L1 |- *. rewrite L1.
  cbn [after].
  pose proof (copy_to_loop out post (1 + n) (fixed_byte type flags :: varint (Z.of_nat (length body)))
    body [] eq_refl ltac:(cbn [length]; lia)) as L2.
  rewrite app_nil_r in L2. cbn [app length] in L2. rewrite L2. cbn [after]. done.
Qed.

Lemma packet_type_of_code t : packet_type_of (packet_type_code t) = t.
Proof. by destruct t. Qed.

Lemma fixed_byte_fields type flags :
  0 <= flags < 16 ->
  u8 (fixed_byte type flags) /\ to_u8 (Z.shiftr (fixed_byte type flags) 4) = packet_type_code type
  /\ to_u8 (Z.land (fixed_byte type flags) 15) = flags.
Proof.
  intros Hf. assert (Hc : 0 <= packet_type_code type < 16) by (destruct type; cbn; lia).
  unfold fixed_byte. rewrite lor_shiftl_add by lia. change (2 ^ 4) with 16.
  rewrite (wrap_small 8 (_ * 16 + _)) by (unfold in_width; lia). bits_to_arith.
  unfold in_width, wrap. change (2 ^ 8) with 256. change (2 ^ 4) with 16. repeat split; divlia.
Qed.

(** The header of a stream that starts with the fixed byte of a packet. *)
Lemma inspect_start type flags bs post max :
  0 <= flags < 16 -> type <> reserved -> valid_fixed_header type flags = true ->
  (2 <= max)%nat -> bs <> [] -> Forall u8 bs ->
  inspect_packet (Some (fixed_byte type flags :: bs ++ post)) (S (length bs)) max =
    (let '(result, remaining, length_bytes) := varint_parse 4 0 0 bs in
     if negb (succeeded result) then Done (result, no_packet)
     else
       let header_size := (1 + length_bytes)%nat in
       if (Z.of_nat max <? remaining) || (max - Z.to_nat remaining <? header_size)%nat
       then Done (s_out_of_range, no_packet)
       else
         let packet_size := (header_size + Z.to_nat remaining)%nat in
         if (S (length bs) <? packet_size)%nat then Done (s_empty, no_packet)
         else Done (s_ok, mk_packet type flags remaining header_size packet_size
                            (Some (drop header_size (fixed_byte type flags :: bs ++ post))))).
Proof.
  intros Hf Ht Hv Hmax Hne Hu. unfold inspect_packet.
  assert (1 <= length bs)%nat by (destruct bs; [done|cbn; lia]). nat_tests.
  change (load (fixed_byte type flags :: bs ++ post) 0) with (Done (fixed_byte type flags)). exec_simpl.
  destruct (fixed_byte_fields type flags Hf) as (_ & -> & ->). rewrite packet_type_of_code, Hv.
  rewrite (proj2 (Z.eqb_neq _ _)) by (by destruct type). cbn [negb orb Nat.sub].
  cbn [skipn]. rewrite drop_0, Nat.sub_0_r, decode_remaining_length_spec by done. done.
Qed.

Lemma inspect_complete type flags body rest post max :
  0 <= flags < 16 -> type <> reserved -> valid_fixed_header type flags = true ->
  Z.of_nat (length body) <= maximum_remaining_length -> Forall u8 (body ++ rest) ->
  (length (packet_bytes type flags body) <= max)%nat ->
  exists p, inspect_packet (Some ((packet_bytes type flags body ++ rest) ++ post))
      (length (packet_bytes type flags body ++ rest)) max = Done (s_ok, p)
    /\ pk_type p = type /\ pk_flags p = flags /\ pk_remaining_length p = Z.of_nat (length body)
    /\ pk_packet_size p = length (packet_bytes type flags body) /\ pk_body p = Some (body ++ rest ++ post).
Proof.
  intros Hf Ht Hv Hl Hu Hmax. unfold packet_bytes. cbn [app length]. rewrite <-!app_assoc.
  destruct (varint_bounds (Z.of_nat (length body)) ltac:(lia)) as [Hvu Hvl].
  rewrite length_packet_bytes in Hmax.
  pose proof (inspect_start type flags (varint (Z.of_nat (length body)) ++ body ++ rest) post max Hf Ht Hv
    ltac:(lia)) as I.
  rewrite varint_decode, <-!app_assoc in I by lia. rewrite I; clear I.
  - change (negb (succeeded s_ok)) with false. cbv iota zeta. rewrite Nat2Z.id.
    rewrite (proj2 (Z.ltb_ge _ _)) by lia. rewrite !length_app. nat_tests. cbn [orb].
    eexists. split; [reflexivity|]. cbn [pk_type pk_flags pk_remaining_length pk_packet_size pk_body].
    split; [done|]. split; [done|]. split; [done|]. split; [lia|].
    cbn [Nat.add skipn]. by rewrite drop_app_length.
  - destruct (varint (Z.of_nat (length body))); [cbn in Hvl; lia|done].
  - rewrite Forall_app. done.
Qed.

(** Two ways of cutting a list in two: one of the left parts is a prefix of the other. *)
Lemma app_cut {A} (a b c d : list A) :
  a ++ b = c ++ d -> (length c <= length a)%nat -> exists e, a = c ++ e /\ d = e ++ b.
Proof.
  intros E Hl. exists (drop (length c) a). split.
  - apply (f_equal (take (length c))) in E. rewrite take_app_length, take_app_le in E by lia.
    rewrite <-E at 1. by rewrite take_drop.
  - apply (f_equal (drop (length c))) in E. by rewrite drop_app_length, drop_app_le in E by lia.
Qed.

Lemma inspect_incomplete type flags body s rest post max :
  0 <= flags < 16 -> type <> reserved -> valid_fixed_header type flags = true ->
  Z.of_nat (length body) <= maximum_remaining_length -> Forall u8 body ->
  (length (packet_bytes type flags body) <= max)%nat ->
  packet_bytes type flags body = s ++ rest -> rest <> [] ->
  inspect_packet (Some (s ++ post)) (length s) max = Done (s_empty, no_packet).
Proof.
  intros Hf Ht Hv Hl Hu Hmax E Hne. rewrite length_packet_bytes in Hmax.
  destruct (varint_bounds (Z.of_nat (length body)) ltac:(lia)) as [Hvu Hvl].
  destruct s as [|b s]; [unfold inspect_packet; cbn [length]; by nat_tests|].
  unfold packet_bytes in E. injection E as <- E.
  destruct s as [|b1 s]; [unfold inspect_packet; cbn [length]; by nat_tests|].
  set (t := b1 :: s) in *. change (length (fixed_byte type flags :: t)) with (S (length t)).
  cbn [app]. rewrite inspect_start; [|done|done|done|lia|done|].
  2: { assert (Hall : Forall u8 (t ++ rest)) by (rewrite <-E, Forall_app; done).
       by apply Forall_app in Hall as [? _]. }
  destruct (decide (length t < length (varint (Z.of_nat (length body))))%nat) as [Hsh|Hlg].
  - destruct (app_cut _ _ _ _ E ltac:(lia)) as (r2 & Ev & _).
    destruct (varint_parse_prefix 4 0 0 (Z.of_nat (length body)) t r2 Ev) as (v & n & ->); [|lia|done].
    intros ->. rewrite app_nil_r in Ev. rewrite Ev in Hsh. lia.
  - destruct (app_cut _ _ _ _ (eq_sym E) ltac:(lia)) as (bs2 & -> & Eb).
    assert (length bs2 < length body)%nat.
    { rewrite Eb, length_app. destruct rest; [done|]. cbn. lia. }
    rewrite varint_decode by lia. change (negb (succeeded s_ok)) with false. cbv iota zeta.
    rewrite Nat2Z.id, (proj2 (Z.ltb_ge _ _)) by lia. rewrite length_app. nat_tests. done.
Qed.

(** ** Properties *)

(**  Remaining Length is encoded and decoded exactly: a value up to
    268435455 is written as its minimal base-128 form of at most four bytes and
    nothing else of the array changes, larger values are refused; the decoder
    answers [ok] iff the input starts with such a form, and then returns its
    value and length, so every accepted length has one encoding. *)
Theorem mqtt_remaining_length_exact (v : Z) (out bs post : list Z) :
  0 <= v -> (4 <= length out)%nat -> Forall u8 bs ->
  encode_remaining_length v (Some out) =
    Done (if decide (v <= maximum_remaining_length)
          then (s_ok, length (varint v), Some (wrote out 0 (varint v))) else (s_out_of_range, 0%nat, Some out))
  /\ exists st v' n, decode_remaining_length (Some (bs ++ post)) (length bs) = Done (st, v', n)
     /\ (forall w, (st = s_ok /\ v' = w /\ n = length (varint w)) <->
           (0 <= w <= maximum_remaining_length /\ exists rest, bs = varint w ++ rest)).
Proof.
  intros Hv Hout Hu. split; [by apply encode_remaining_length_spec|].
  rewrite decode_remaining_length_spec by done.
  destruct (varint_parse 4 0 0 bs) as [[st v'] n] eqn:E. exists st, v', n. split; [done|].
  intros w. split.
  - intros (-> & -> & ->). apply varint_parse_ok in E as (x & rest & -> & Hx & _ & -> & _); [|cbn; lia|done].
    replace (0 + x * 128 ^ Z.of_nat 0) with x by (cbn; lia).
    unfold maximum_remaining_length. split; [cbn in Hx; lia|]. by exists rest.
  - intros (Hw & rest & ->). rewrite varint_decode in E by done. by injection E as <- <- <-.
Qed.

Lemma mqtt_remaining_length_exact_witness :
  encode_remaining_length 321 (Some [0; 0; 0; 0]) = Done (s_ok, 2%nat, Some [193; 2; 0; 0])
  /\ exists st v n, decode_remaining_length (Some ([193; 2; 7] ++ [])) 3 = Done (st, v, n).
Proof.
  destruct (mqtt_remaining_length_exact 321 [0; 0; 0; 0] [193; 2; 7] []) as [E (st & v & n & D & _)];
    [lia|cbn; lia|repeat constructor; unfold in_width; lia|].
  split; [exact E|by exists st, v, n].
Defined.

(**  Packets round trip through a byte stream: with room, [encode_packet]
    writes the fixed header, the length and the body, and [inspect_packet] on
    that packet followed by any further bytes returns the type, the flags, the
    length and a body that is the encoded one followed by those bytes. *)
Theorem mqtt_packet_roundtrip (type : packet_type) (flags : Z) (body more out : list Z) (max : nat) :
  type <> reserved -> 0 <= flags < 16 -> valid_fixed_header type flags = true ->
  Z.of_nat (length body) <= maximum_remaining_length -> Forall u8 (body ++ more) ->
  (length (packet_bytes type flags body) <= length out)%nat ->
  (length (packet_bytes type flags body) <= max)%nat ->
  exists p, encode_packet type flags (Some body) (length body) (Some out) (length out)
      = Done (s_ok, length (packet_bytes type flags body), Some (wrote out 0 (packet_bytes type flags body)))
    /\ inspect_packet (Some (packet_bytes type flags body ++ more))
         (length (packet_bytes type flags body ++ more)) max = Done (s_ok, p)
    /\ pk_type p = type /\ pk_flags p = flags /\ pk_remaining_length p = Z.of_nat (length body)
    /\ pk_packet_size p = length (packet_bytes type flags body) /\ pk_body p = Some (body ++ more).
Proof.
  intros Ht Hf Hv Hl Hu Hout Hmax.
  destruct (inspect_complete type flags body more [] max Hf Ht Hv Hl Hu Hmax) as (p & E & Hp).
  rewrite !app_nil_r in *. exists p. split; [|done].
  pose proof (encode_packet_spec type flags body [] out (length out) Hv ltac:(lia) Hl) as C.
  rewrite app_nil_r, decide_True in C by done. exact C.
Qed.

Lemma mqtt_packet_roundtrip_witness :
  exists p, encode_packet publish 2 (Some [0; 1; 97; 0; 9; 5]) 6 (Some (replicate 10 0)) 10
      = Done (s_ok, 8%nat, Some ([50; 6; 0; 1; 97; 0; 9; 5] ++ [0; 0]))
    /\ inspect_packet (Some ([50; 6; 0; 1; 97; 0; 9; 5] ++ [192])) 9 64 = Done (s_ok, p)
    /\ pk_body p = Some ([0; 1; 97; 0; 9; 5] ++ [192]).
Proof.
  destruct (mqtt_packet_roundtrip publish 2 [0; 1; 97; 0; 9; 5] [192] (replicate 10 0) 64)
    as (p & E & I & _ & _ & _ & _ & B);
    [done|lia|reflexivity|vm_compute; discriminate|repeat constructor; unfold in_width; lia|vm_compute; lia
    |vm_compute; lia|]. exists p. split; [exact E|]. split; [exact I|exact B].
Defined.

(**  Reassembly from a stream: on every proper prefix of a packet that the
    receiver would accept, [inspect_packet] answers [empty] (more bytes needed)
    and never an error, wherever the stream was cut. *)
Theorem mqtt_partial_packet_is_empty (type : packet_type) (flags : Z) (body s rest post : list Z) (max : nat) :
  type <> reserved -> 0 <= flags < 16 -> valid_fixed_header type flags = true ->
  Z.of_nat (length body) <= maximum_remaining_length -> Forall u8 body ->
  (length (packet_bytes type flags body) <= max)%nat ->
  packet_bytes type flags body = s ++ rest -> rest <> [] ->
  inspect_packet (Some (s ++ post)) (length s) max = Done (s_empty, no_packet).
Proof. intros. by eapply inspect_incomplete. Qed.

Lemma mqtt_partial_packet_is_empty_witness :
  inspect_packet (Some ([48; 3; 0] ++ [])) 3 64 = Done (s_empty, no_packet).
Proof.
  apply (mqtt_partial_packet_is_empty publish 0 [0; 1; 97] [48; 3; 0] [1; 97] [] 64);
    [done|lia|reflexivity|vm_compute; discriminate|repeat constructor; unfold in_width; lia|vm_compute; lia
    |reflexivity|done].
Defined.

(**  The flag check of a publish packet looks at three of the eight bits of
    its argument: for flags of 16 and more, which no packet can carry,
    [valid_fixed_header] says yes and [encode_packet] writes the fixed byte of
    another packet type. *)
Theorem mqtt_publish_flags_overflow :
  valid_fixed_header publish 64 = true
  /\ encode_packet publish 64 (Some []) 0 (Some [0; 0]) 2 = Done (s_ok, 2%nat, Some [112; 0])
  /\ inspect_packet (Some [112; 0]) 2 16
     = Done (s_ok, mk_packet pubcomp 0 0 2 2 (Some [])).
Proof. split; [reflexivity|]. split; reflexivity. Qed.
