(* ===== verification/MqttCursor.v ===== *)
(** * MQTT packet cursors (castle_ext/protocols/mqtt/codec.hpp)

    [packet_writer], the fixed-capacity output cursor, and [packet_reader], the
    bounds-checked input cursor.  A pointer [output_ + size_] is the buffer with
    the offset [size_]; an access through a null pointer is undefined. *)

From S2P Require Import Prelude Status Bytes MqttCodec.
Open Scope Z_scope.

(** ** Writer *)

Record packet_writer : Type := mk_writer {
  output_ : ptr;
  capacity_ : nat;
  size_ : nat;
  result_ : status
}.

Definition writer_new (output : ptr) (capacity : nat) : packet_writer :=
  mk_writer output capacity 0
    (if is_null output && negb (capacity =? 0)%nat then s_invalid_argument else s_ok).

(** [return result_ = s]. *)
Definition writer_fail (s : status) (w : packet_writer) : exec (status * packet_writer) :=
  Done (s, mk_writer (output_ w) (capacity_ w) (size_ w) s).
(** The output after a store, [size_] advanced, [return result_]. *)
Definition writer_done (m : ptr) (n : nat) (w : packet_writer) : exec (status * packet_writer) :=
  Done (result_ w, mk_writer m (capacity_ w) n (result_ w)).

Definition put_u8 (value : Z) (w : packet_writer) : exec (status * packet_writer) :=
  if negb (succeeded (result_ w)) then Done (result_ w, w)
  else if (capacity_ w <=? size_ w)%nat then writer_fail s_full w
  else m ← pstore (output_ w) (size_ w) value; writer_done m (size_ w + 1) w.

Definition put_u16 (value : Z) (w : packet_writer) : exec (status * packet_writer) :=
  if (capacity_ w - size_ w <? 2)%nat then writer_fail s_full w
  else match output_ w with
       | Some m => m ← write_be16 m (size_ w) value; writer_done (Some m) (size_ w + 2) w
       | None => Undefined
       end.

Definition put_u32 (value : Z) (w : packet_writer) : exec (status * packet_writer) :=
  if (capacity_ w - size_ w <? 4)%nat then writer_fail s_full w
  else match output_ w with
       | Some m => m ← write_be32 m (size_ w) value; writer_done (Some m) (size_ w + 4) w
       | None => Undefined
       end.

Definition put_bytes_body (bytes : ptr) (at_ i : nat) (output : ptr) : exec (ctl unit ptr) :=
  b ← pload bytes i; output ← pstore output (at_ + i) b; Done (Next output).

Definition put_bytes (bytes : ptr) (count : nat) (w : packet_writer) : exec (status * packet_writer) :=
  if is_null bytes && negb (count =? 0)%nat then writer_fail s_invalid_argument w
  else if (capacity_ w - size_ w <? count)%nat then writer_fail s_full w
  else match for_range 0 count (put_bytes_body bytes (size_ w)) (output_ w) with
       | Done (Next output) => writer_done output (size_ w + count) w
       | _ => Undefined
       end.

(** [put_utf8] and [put_binary] have the same body. *)
Definition put_binary (value : ptr) (count : nat) (w : packet_writer) : exec (status * packet_writer) :=
  if 65535 <? Z.of_nat count then writer_fail s_out_of_range w
  else
    r ← put_u16 (to_u16 (Z.of_nat count)) w;
    if succeeded r.1 then put_bytes value count r.2 else Done r.
Definition put_utf8 (value : ptr) (count : nat) (w : packet_writer) : exec (status * packet_writer) :=
  put_binary value count w.

Definition put_varint (value : Z) (w : packet_writer) : exec (status * packet_writer) :=
  r ← encode_remaining_length value (Some [0; 0; 0; 0]);
  let '(st, count, encoded) := r in
  if succeeded st then put_bytes encoded count w else writer_fail st w.

Definition writer_set_size (value : nat) (w : packet_writer) : packet_writer :=
  if (value <=? capacity_ w)%nat then mk_writer (output_ w) (capacity_ w) value (result_ w) else w.

(** ** Reader *)

Record packet_reader : Type := mk_reader {
  input_ : ptr;
  rsize_ : nat;
  position_ : nat;
  rresult_ : status
}.

Definition reader_new (input : ptr) (size : nat) : packet_reader :=
  mk_reader input size 0
    (if is_null input && negb (size =? 0)%nat then s_invalid_argument else s_ok).

Definition remaining (r : packet_reader) : nat :=
  if (position_ r <=? rsize_ r)%nat then (rsize_ r - position_ r)%nat else 0%nat.
Definition current (r : packet_reader) : ptr :=
  match input_ r with None => None | Some m => Some (drop (position_ r) m) end.

Definition reader_fail (s : status) (r : packet_reader) : packet_reader :=
  mk_reader (input_ r) (rsize_ r) (position_ r) s.
Definition advance (n : nat) (r : packet_reader) : packet_reader :=
  mk_reader (input_ r) (rsize_ r) (position_ r + n) (rresult_ r).

(** A getter with an output reference returns the status, the new value of the
    reference and the reader. *)
Definition get_u8 (value : Z) (r : packet_reader) : exec (status * Z * packet_reader) :=
  if (remaining r <? 1)%nat then Done (s_invalid_argument, value, reader_fail s_invalid_argument r)
  else v ← pload (input_ r) (position_ r); Done (rresult_ r, v, advance 1 r).

Definition get_u16 (value : Z) (r : packet_reader) : exec (status * Z * packet_reader) :=
  if (remaining r <? 2)%nat then Done (s_invalid_argument, value, reader_fail s_invalid_argument r)
  else match input_ r with
       | Some m => v ← read_be16 m (position_ r); Done (rresult_ r, v, advance 2 r)
       | None => Undefined
       end.

Definition get_u32 (value : Z) (r : packet_reader) : exec (status * Z * packet_reader) :=
  if (remaining r <? 4)%nat then Done (s_invalid_argument, value, reader_fail s_invalid_argument r)
  else match input_ r with
       | Some m => v ← read_be32 m (position_ r); Done (rresult_ r, v, advance 4 r)
       | None => Undefined
       end.

Definition get_copy_body (r : packet_reader) (i : nat) (output : ptr) : exec (ctl unit ptr) :=
  b ← pload (input_ r) (position_ r + i); output ← pstore output i b; Done (Next output).

(** The text getter terminates its output with a NUL. *)
Definition get_utf8 (output : ptr) (capacity : nat) (r : packet_reader)
    : exec (status * ptr * nat * packet_reader) :=
  g ← get_u16 0 r;
  let '(st, count, r) := g in
  if negb (succeeded st) then Done (rresult_ r, output, 0%nat, r)
  else
    let count := Z.to_nat count in
    if (capacity <=? count)%nat || (remaining r <? count)%nat
       || (is_null output && negb (capacity =? 0)%nat)
    then
      let e := if (capacity <=? count)%nat then s_out_of_range else s_invalid_argument in
      Done (e, output, 0%nat, reader_fail e r)
    else
      match for_range 0 count (get_copy_body r) output with
      | Done (Next output) =>
          output ← pstore output count 0;
          Done (rresult_ r, output, count, advance count r)
      | _ => Undefined
      end.

Definition get_binary (output : ptr) (capacity : nat) (r : packet_reader)
    : exec (status * ptr * nat * packet_reader) :=
  g ← get_u16 0 r;
  let '(st, count, r) := g in
  if negb (succeeded st) then Done (rresult_ r, output, 0%nat, r)
  else
    let count := Z.to_nat count in
    if (capacity <? count)%nat || (remaining r <? count)%nat
       || (is_null output && negb (count =? 0)%nat)
    then
      let e := if (capacity <? count)%nat then s_out_of_range else s_invalid_argument in
      Done (e, output, 0%nat, reader_fail e r)
    else
      match for_range 0 count (get_copy_body r) output with
      | Done (Next output) => Done (rresult_ r, output, count, advance count r)
      | _ => Undefined
      end.

Definition get_varint (r : packet_reader) : exec (status * Z * packet_reader) :=
  d ← decode_remaining_length (current r) (remaining r);
  let '(st, value, used) := d in
  if negb (succeeded st) then Done (st, value, reader_fail st r)
  else Done (rresult_ r, value, advance used r).

Definition skip (count : nat) (r : packet_reader) : status * packet_reader :=
  if (remaining r <? count)%nat then (s_invalid_argument, reader_fail s_invalid_argument r)
  else (rresult_ r, advance count r).

(** ** What a put appends and a get consumes *)

(** A writer that has written [ds] without an error. *)
Definition wr (out : list Z) (cap : nat) (ds : list Z) : packet_writer :=
  mk_writer (Some (wrote out 0 ds)) cap (length ds) s_ok.

(** [f] appends [bs] if they fit and reports [full] otherwise. *)
Definition puts (f : packet_writer -> exec (status * packet_writer)) (bs : list Z) : Prop :=
  forall out cap ds, (length ds <= cap)%nat -> (cap <= length out)%nat ->
  ((length ds + length bs <= cap)%nat -> f (wr out cap ds) = Done (s_ok, wr out cap (ds ++ bs)))
  /\ ((cap < length ds + length bs)%nat -> exists w, f (wr out cap ds) = Done (s_full, w)).

Definition be_bytes (n : nat) (v : Z) : list Z := reverse (le_bytes n v).
Lemma length_be_bytes n v : length (be_bytes n v) = n.
Proof. unfold be_bytes. rewrite length_reverse. apply length_le_digits. Qed.

Lemma puts_u8 v : puts (put_u8 v) [v].
Proof.
  intros out cap ds Hd Hc. unfold put_u8, wr. cbn [result_ capacity_ size_ output_ length].
  change (negb (succeeded s_ok)) with false. cbv iota. split; intros H; nat_tests.
  - rewrite pstore_wrote by lia. exec_simpl. unfold writer_done. cbn [result_ capacity_].
    by rewrite length_app.
  - by eexists.
Qed.

Lemma puts_u16 v : puts (put_u16 v) (be_bytes 2 v).
Proof.
  intros out cap ds Hd Hc. unfold put_u16, wr. cbn [capacity_ size_ output_]. rewrite length_be_bytes.
  split; intros H; nat_tests.
  - rewrite write_be16_bytes by (rewrite length_wrote; lia). exec_simpl. unfold writer_done. cbn [result_ capacity_].
    rewrite wrote_app by (rewrite ?length_reverse; unfold le_bytes; rewrite ?length_le_digits; lia).
    unfold be_bytes. by rewrite length_app, length_reverse.
  - by eexists.
Qed.

Lemma puts_u32 v : puts (put_u32 v) (be_bytes 4 v).
Proof.
  intros out cap ds Hd Hc. unfold put_u32, wr. cbn [capacity_ size_ output_]. rewrite length_be_bytes.
  split; intros H; nat_tests.
  - rewrite write_be32_bytes by (rewrite length_wrote; lia). exec_simpl. unfold writer_done. cbn [result_ capacity_].
    rewrite wrote_app by (rewrite ?length_reverse; unfold le_bytes; rewrite ?length_le_digits; lia).
    unfold be_bytes. by rewrite length_app, length_reverse.
  - by eexists.
Qed.

Lemma put_bytes_loop out ds post bs : forall pre,
  (length ds + length pre + length bs <= length out)%nat ->
  for_range (length pre) (length bs) (put_bytes_body (Some (pre ++ bs ++ post)) (length ds))
    (Some (wrote out 0 (ds ++ pre))) = Done (Next (Some (wrote out 0 (ds ++ pre ++ bs)))).
Proof.
  induction bs as [|b bs IH]; intros pre Hout; cbn [length for_range].
  { by rewrite app_nil_r. }
  unfold put_bytes_body at 1. rewrite (pload_mid pre (b :: bs) post 0 b) by (done || lia). exec_simpl.
  cbn [length] in Hout. rewrite pstore_wrote by (rewrite ?length_app; lia). exec_simpl.
  specialize (IH (pre ++ [b])). rewrite length_app, <-!app_assoc in IH. cbn [length app] in IH.
  rewrite Nat.add_1_r in IH. rewrite <-app_assoc. apply IH. lia.
Qed.

Lemma puts_bytes bs post : puts (put_bytes (Some (bs ++ post)) (length bs)) bs.
Proof.
  intros out cap ds Hd Hc. unfold put_bytes, wr. cbn [capacity_ size_ output_ is_null andb].
  split; intros H; nat_tests; [|by eexists].
  pose proof (put_bytes_loop out ds post bs [] ltac:(cbn; lia)) as L. rewrite app_nil_r in L.
  cbn [app length] in L. rewrite L. unfold writer_done. cbn [result_ capacity_]. by rewrite length_app.
Qed.

(** Two puts in a row. *)
Lemma puts_seq f g bs bs' :
  puts f bs -> puts g bs' ->
  puts (fun w => r ← f w; if succeeded r.1 then g r.2 else Done r) (bs ++ bs').
Proof.
  intros Hf Hg out cap ds Hd Hc. rewrite length_app.
  destruct (Hf out cap ds Hd Hc) as [F1 F2].
  destruct (decide (length ds + length bs <= cap)%nat) as [Hfit|Hov].
  - rewrite F1 by done. exec_simpl. cbn [fst snd]. change (succeeded s_ok) with true. cbv iota.
    destruct (Hg out cap (ds ++ bs)) as [G1 G2]; rewrite ?length_app; [lia|lia|].
    rewrite app_assoc. rewrite length_app in *. split; intros H; [apply G1|apply G2]; lia.
  - destruct F2 as [w ->]; [lia|]. exec_simpl. split; [lia|]. intros _. by exists w.
Qed.

Lemma puts_binary bs post :
  Z.of_nat (length bs) <= 65535 ->
  puts (put_binary (Some (bs ++ post)) (length bs)) (be_bytes 2 (Z.of_nat (length bs)) ++ bs).
Proof.
  intros Hl. unfold put_binary. rewrite (proj2 (Z.ltb_ge _ _)) by done.
  rewrite wrap_small by (unfold in_width; lia). apply puts_seq; [apply puts_u16|apply puts_bytes].
Qed.

Lemma puts_varint v : 0 <= v <= maximum_remaining_length -> puts (put_varint v) (varint v).
Proof.
  intros Hv out cap ds Hd Hc. unfold put_varint.
  rewrite encode_remaining_length_spec, decide_True by (cbn; lia). exec_simpl.
  change (succeeded s_ok) with true. cbv iota. rewrite wrote_0. by apply puts_bytes.
Qed.

(** A reader in front of [rest]; [post] lies beyond its size. *)
Definition rd (pre rest post : list Z) : packet_reader :=
  mk_reader (Some (pre ++ rest ++ post)) (length pre + length rest) (length pre) s_ok.

Lemma rd_remaining pre rest post : remaining (rd pre rest post) = length rest.
Proof. unfold remaining, rd. cbn [position_ rsize_]. nat_tests. lia. Qed.

Lemma rd_current pre rest post : current (rd pre rest post) = Some (rest ++ post).
Proof. unfold current, rd. cbn [input_ position_]. by rewrite drop_app_length. Qed.

Lemma rd_advance pre bs rest post n :
  length bs = n -> advance n (rd pre (bs ++ rest) post) = rd (pre ++ bs) rest post.
Proof.
  intros <-. unfold advance, rd. cbn [input_ rsize_ position_ rresult_].
  rewrite !length_app, <-!app_assoc. f_equal. lia.
Qed.

Lemma get_u8_rd pre b rest post x :
  get_u8 x (rd pre (b :: rest) post) = Done (s_ok, b, rd (pre ++ [b]) rest post).
Proof.
  unfold get_u8. rewrite rd_remaining. cbn [length]. nat_tests. cbn [rd input_ position_ rresult_].
  rewrite (pload_mid pre (b :: rest) post 0 b) by (done || lia). exec_simpl.
  f_equal. f_equal. by apply (rd_advance pre [b]).
Qed.

(** A big-endian field in the middle of the input. *)
Lemma get_u16_rd pre v rest post x :
  u16 v -> get_u16 x (rd pre (be_bytes 2 v ++ rest) post) = Done (s_ok, v, rd (pre ++ be_bytes 2 v) rest post).
Proof.
  intros Hv. unfold get_u16. rewrite rd_remaining, length_app, length_be_bytes. nat_tests.
  cbn [rd input_ position_ rresult_]. rewrite <-app_assoc.
  pose proof (be_reader_val 2 write_be16 read_be16 pre (be_bytes 2 v) (rest ++ post)) as R.
  rewrite R; [|unfold be_accessors; right; left|apply length_be_bytes|apply Forall_reverse, le_bytes_bytes].
  exec_simpl. unfold be_bytes at 1. rewrite reverse_involutive, le_bytes_val by done.
  f_equal. f_equal. apply (rd_advance pre (be_bytes 2 v)). apply length_be_bytes.
Qed.

Lemma get_u32_rd pre v rest post x :
  u32 v -> get_u32 x (rd pre (be_bytes 4 v ++ rest) post) = Done (s_ok, v, rd (pre ++ be_bytes 4 v) rest post).
Proof.
  intros Hv. unfold get_u32. rewrite rd_remaining, length_app, length_be_bytes. nat_tests.
  cbn [rd input_ position_ rresult_]. rewrite <-app_assoc.
  pose proof (be_reader_val 4 write_be32 read_be32 pre (be_bytes 4 v) (rest ++ post)) as R.
  rewrite R; [|unfold be_accessors; do 2 right; left|apply length_be_bytes|apply Forall_reverse, le_bytes_bytes].
  exec_simpl. unfold be_bytes at 1. rewrite reverse_involutive, le_bytes_val by done.
  f_equal. f_equal. apply (rd_advance pre (be_bytes 4 v)). apply length_be_bytes.
Qed.

Lemma get_varint_rd pre v rest post :
  0 <= v <= maximum_remaining_length -> Forall u8 rest ->
  get_varint (rd pre (varint v ++ rest) post) = Done (s_ok, v, rd (pre ++ varint v) rest post).
Proof.
  intros Hv Hu. unfold get_varint. rewrite rd_remaining, rd_current. destruct (varint_bounds v ltac:(lia)) as [Hvu _].
  rewrite decode_remaining_length_spec by (rewrite Forall_app; done).
  rewrite varint_decode by done. exec_simpl. change (negb (succeeded s_ok)) with false. cbv iota.
  f_equal. f_equal. by apply rd_advance.
Qed.

Lemma get_copy_loop out pre rest post bs : forall done,
  (length done + length bs <= length out)%nat ->
  for_range (length done) (length bs) (get_copy_body (rd pre (done ++ bs ++ rest) post))
    (Some (wrote out 0 done)) = Done (Next (Some (wrote out 0 (done ++ bs)))).
Proof.
  induction bs as [|b bs IH]; intros dn Hout; cbn [length for_range].
  { by rewrite app_nil_r. }
  unfold get_copy_body at 1. cbn [rd input_ position_].
  rewrite (pload_mid pre (dn ++ (b :: bs) ++ rest) post (length dn) b)
    by (done || (cbn [app]; by rewrite list_lookup_middle)). exec_simpl.
  cbn [length] in Hout. rewrite pstore_wrote by lia. exec_simpl.
  specialize (IH (dn ++ [b])). rewrite length_app, <-!app_assoc in IH. cbn [length app] in IH.
  rewrite Nat.add_1_r in IH. apply IH. lia.
Qed.

Definition blob (bs : list Z) : list Z := be_bytes 2 (Z.of_nat (length bs)) ++ bs.

(** The length prefix and the tests of the two blob getters. *)
Lemma get_binary_rd pre bs rest post out :
  Z.of_nat (length bs) <= 65535 -> (length bs <= length out)%nat ->
  get_binary (Some out) (length out) (rd pre (blob bs ++ rest) post)
  = Done (s_ok, Some (wrote out 0 bs), length bs, rd (pre ++ blob bs) rest post).
Proof.
  intros Hl Ho. unfold get_binary, blob. rewrite <-app_assoc, get_u16_rd by (unfold in_width; lia).
  exec_simpl. change (negb (succeeded s_ok)) with false. cbv iota zeta. rewrite Nat2Z.id, rd_remaining, length_app.
  cbn [is_null andb]. nat_tests. cbn [orb].
  pose proof (get_copy_loop out (pre ++ be_bytes 2 (Z.of_nat (length bs))) rest post bs [] ltac:(cbn; lia)) as L.
  rewrite wrote_nil in L. cbn [app length] in L. rewrite L. cbn [rresult_ rd]. f_equal. f_equal.
  rewrite (app_assoc pre). by apply rd_advance.
Qed.

Lemma get_utf8_rd pre bs rest post out :
  Z.of_nat (length bs) <= 65535 -> (length bs < length out)%nat ->
  get_utf8 (Some out) (length out) (rd pre (blob bs ++ rest) post)
  = Done (s_ok, Some (wrote out 0 (bs ++ [0])), length bs, rd (pre ++ blob bs) rest post).
Proof.
  intros Hl Ho. unfold get_utf8, blob. rewrite <-app_assoc, get_u16_rd by (unfold in_width; lia).
  exec_simpl. change (negb (succeeded s_ok)) with false. cbv iota zeta. rewrite Nat2Z.id, rd_remaining, length_app.
  cbn [is_null andb]. nat_tests. cbn [orb].
  pose proof (get_copy_loop out (pre ++ be_bytes 2 (Z.of_nat (length bs))) rest post bs [] ltac:(cbn; lia)) as L.
  rewrite wrote_nil in L. cbn [app length] in L. rewrite L, pstore_wrote by done. exec_simpl.
  cbn [rresult_ rd]. f_equal. f_equal. rewrite (app_assoc pre). by apply rd_advance.
Qed.

(** ** Sequences of fields *)

Inductive field : Type :=
| f_u8 (v : Z)
| f_u16 (v : Z)
| f_u32 (v : Z)
| f_varint (v : Z)
| f_binary (bs : list Z)
| f_text (bs : list Z).

Definition field_bytes (f : field) : list Z :=
  match f with
  | f_u8 v => [v]
  | f_u16 v => be_bytes 2 v
  | f_u32 v => be_bytes 4 v
  | f_varint v => varint v
  | f_binary bs | f_text bs => blob bs
  end.

(** The values the field can carry; a text of [cap] characters needs room for its
    terminator. *)
Definition field_ok (cap : nat) (f : field) : Prop :=
  match f with
  | f_u8 v => u8 v
  | f_u16 v => u16 v
  | f_u32 v => u32 v
  | f_varint v => 0 <= v <= maximum_remaining_length
  | f_binary bs => Forall u8 bs /\ Z.of_nat (length bs) <= 65535 /\ (length bs <= cap)%nat
  | f_text bs => Forall u8 bs /\ Z.of_nat (length bs) <= 65535 /\ (length bs < cap)%nat
  end.

Definition put_field (f : field) (w : packet_writer) : exec (status * packet_writer) :=
  match f with
  | f_u8 v => put_u8 v w
  | f_u16 v => put_u16 v w
  | f_u32 v => put_u32 v w
  | f_varint v => put_varint v w
  | f_binary bs => put_binary (Some bs) (length bs) w
  | f_text bs => put_utf8 (Some bs) (length bs) w
  end.

(** Read a field of the kind of [like], with buffers of [cap] characters. *)
Definition get_field (cap : nat) (like : field) (r : packet_reader) : exec (status * field * packet_reader) :=
  match like with
  | f_u8 _ => g ← get_u8 0 r; let '(st, v, r) := g in Done (st, f_u8 v, r)
  | f_u16 _ => g ← get_u16 0 r; let '(st, v, r) := g in Done (st, f_u16 v, r)
  | f_u32 _ => g ← get_u32 0 r; let '(st, v, r) := g in Done (st, f_u32 v, r)
  | f_varint _ => g ← get_varint r; let '(st, v, r) := g in Done (st, f_varint v, r)
  | f_binary _ =>
      g ← get_binary (Some (replicate cap 0)) cap r;
      let '(st, m, n, r) := g in Done (st, f_binary (take n (default [] m)), r)
  | f_text _ =>
      g ← get_utf8 (Some (replicate cap 0)) cap r;
      let '(st, m, n, r) := g in Done (st, f_text (take n (default [] m)), r)
  end.

Fixpoint put_fields (fs : list field) (w : packet_writer) : exec (status * packet_writer) :=
  match fs with
  | [] => Done (result_ w, w)
  | f :: fs => r ← put_field f w; if succeeded r.1 then put_fields fs r.2 else Done r
  end.
Fixpoint get_fields (cap : nat) (likes : list field) (r : packet_reader)
    : exec (status * list field * packet_reader) :=
  match likes with
  | [] => Done (rresult_ r, [], r)
  | f :: fs =>
      g ← get_field cap f r;
      let '(st, v, r) := g in
      if succeeded st then
        h ← get_fields cap fs r; let '(st, vs, r) := h in Done (st, v :: vs, r)
      else Done (st, [v], r)
  end.

Lemma puts_field cap f : field_ok cap f -> puts (put_field f) (field_bytes f).
Proof.
  intros Hf. destruct f; cbn [put_field field_bytes field_ok] in *.
  - apply puts_u8.
  - apply puts_u16.
  - apply puts_u32.
  - by apply puts_varint.
  - pose proof (puts_binary bs []) as P. rewrite app_nil_r in P. apply P. tauto.
  - pose proof (puts_binary bs []) as P. rewrite app_nil_r in P. apply P. tauto.
Qed.

Lemma puts_fields cap fs :
  Forall (field_ok cap) fs -> puts (put_fields fs) (flat_map field_bytes fs).
Proof.
  induction 1 as [|f fs Hf _ IH]; cbn [put_fields flat_map].
  - intros out c ds Hd Hc. rewrite app_nil_r. cbn [length]. split; [done|lia].
  - by apply puts_seq; [eapply puts_field|].
Qed.

Lemma be_bytes_u8 n v : Forall u8 (be_bytes n v).
Proof. apply Forall_reverse, le_bytes_bytes. Qed.

Lemma field_bytes_u8 cap f : field_ok cap f -> Forall u8 (field_bytes f).
Proof.
  destruct f; cbn [field_ok field_bytes]; unfold blob; intros H.
  - by constructor.
  - apply be_bytes_u8.
  - apply be_bytes_u8.
  - apply varint_bounds. lia.
  - apply Forall_app. split; [apply be_bytes_u8|tauto].
  - apply Forall_app. split; [apply be_bytes_u8|tauto].
Qed.

Lemma get_field_rd cap f pre rest post :
  field_ok cap f -> Forall u8 rest ->
  get_field cap f (rd pre (field_bytes f ++ rest) post) = Done (s_ok, f, rd (pre ++ field_bytes f) rest post).
Proof.
  intros Hf Hu. destruct f; cbn [get_field field_bytes field_ok app] in *.
  - by rewrite get_u8_rd.
  - by rewrite get_u16_rd.
  - by rewrite get_u32_rd.
  - by rewrite get_varint_rd.
  - pose proof (get_binary_rd pre bs rest post (replicate cap 0)) as G. rewrite length_replicate in G.
    rewrite G by tauto. exec_simpl. cbn [default from_option id]. rewrite take_wrote; [done|].
    rewrite length_replicate. tauto.
  - pose proof (get_utf8_rd pre bs rest post (replicate cap 0)) as G. rewrite length_replicate in G.
    rewrite G by tauto. exec_simpl. cbn [default from_option id].
    rewrite wrote_0, <-app_assoc, take_app_length. done.
Qed.

Lemma get_fields_rd cap fs : forall pre rest post,
  Forall (field_ok cap) fs -> Forall u8 rest ->
  get_fields cap fs (rd pre (flat_map field_bytes fs ++ rest) post)
  = Done (s_ok, fs, rd (pre ++ flat_map field_bytes fs) rest post).
Proof.
  induction fs as [|f fs IH]; intros pre rest post Hf Hu; cbn [get_fields flat_map].
  { by rewrite app_nil_r. }
  apply Forall_cons in Hf as [Hf Hfs]. rewrite <-app_assoc, get_field_rd; [|done|].
  - exec_simpl. change (succeeded s_ok) with true. cbv iota. rewrite IH by done. exec_simpl.
    by rewrite <-app_assoc.
  - apply Forall_app. split; [|done]. apply Forall_flat_map. eapply Forall_impl; [exact Hfs|].
    intros x Hx. by eapply field_bytes_u8.
Qed.

(** ** Properties *)

(**  The cursors are inverse to each other: any sequence of integers, variable
    byte integers, binary data and texts written with [packet_writer] into a
    buffer that holds their encodings is read back by [packet_reader] as the same
    sequence, and the reader ends where the writer did. *)
Theorem mqtt_cursor_roundtrip (cap : nat) (fs : list field) (out : list Z) :
  Forall (field_ok cap) fs -> (length (flat_map field_bytes fs) <= length out)%nat ->
  exists w r, put_fields fs (writer_new (Some out) (length out)) = Done (s_ok, w)
    /\ size_ w = length (flat_map field_bytes fs)
    /\ get_fields cap fs (reader_new (output_ w) (size_ w)) = Done (s_ok, fs, r)
    /\ remaining r = 0%nat.
Proof.
  intros Hf Hl. destruct (puts_fields cap fs Hf out (length out) []) as [P _]; [cbn; lia|done|].
  exists (wr out (length out) (flat_map field_bytes fs)), (rd (flat_map field_bytes fs) [] (drop (length (flat_map field_bytes fs)) out)).
  pose proof (get_fields_rd cap fs [] [] (drop (length (flat_map field_bytes fs)) out) Hf) as G.
  rewrite app_nil_r in G. split; [|split; [done|split; [|by rewrite rd_remaining]]].
  - unfold writer_new, wr in *. rewrite wrote_nil in P. cbn [is_null andb length app] in *. by apply P.
  - unfold reader_new. cbn [wr output_ size_ is_null andb]. rewrite wrote_0. apply G. constructor.
Qed.

Lemma mqtt_cursor_roundtrip_witness :
  exists w r, put_fields [f_u16 10; f_text (chars "abc"); f_varint 300] (writer_new (Some (replicate 12 0)) 12)
      = Done (s_ok, w)
    /\ get_fields 8 [f_u16 10; f_text (chars "abc"); f_varint 300] (reader_new (output_ w) (size_ w))
      = Done (s_ok, [f_u16 10; f_text (chars "abc"); f_varint 300], r).
Proof.
  destruct (mqtt_cursor_roundtrip 8 [f_u16 10; f_text (chars "abc"); f_varint 300] (replicate 12 0))
    as (w & r & P & _ & G & _); [|vm_compute; lia|].
  - repeat constructor; cbn; unfold in_width, maximum_remaining_length; try lia.
  - exists w, r. split; [exact P|exact G].
Defined.

(**  A cursor made from a null pointer with a non-zero size records
    [invalid_argument], but only [put_u8] looks at the record: the other writers
    and every reader go on to dereference the null pointer. *)
Theorem mqtt_null_cursor_dereferenced (v : Z) :
  let w := writer_new None 8 in
  let r := reader_new None 8 in
  result_ w = s_invalid_argument /\ rresult_ r = s_invalid_argument
  /\ put_u8 v w = Done (s_invalid_argument, w)
  /\ put_u16 v w = Undefined /\ put_u32 v w = Undefined
  /\ get_u8 v r = Undefined /\ get_u16 v r = Undefined /\ get_u32 v r = Undefined.
Proof. repeat split. Qed.
