(* ===== verification/MqttProperties.v ===== *)
(** * MQTT 5 properties (castle_ext/protocols/mqtt/types.hpp, codec.hpp)

    The bounded property list with its builders, its encoder and its decoder.
    An entry's strings are NUL-terminated character arrays; only the fields its
    identifier calls for are meaningful, the others keep what they held. *)

From S2P Require Import Prelude Status Bytes MqttCodec MqttCursor.
Open Scope Z_scope.

Inductive property_id : Type :=
| payload_format_indicator | message_expiry_interval | content_type | response_topic
| correlation_data | subscription_identifier | session_expiry_interval
| assigned_client_identifier | server_keep_alive | authentication_method
| authentication_data | request_problem_information | will_delay_interval
| request_response_information | response_information | server_reference | reason_string
| receive_maximum | topic_alias_maximum | topic_alias | maximum_qos | retain_available
| user_property | maximum_packet_size | wildcard_subscription_available
| subscription_identifier_available | shared_subscription_available.
#[export] Instance property_id_eq_dec : EqDecision property_id.
Proof. solve_decision. Defined.

Definition property_code (id : property_id) : Z :=
  match id with
  | payload_format_indicator => 1 | message_expiry_interval => 2 | content_type => 3
  | response_topic => 8 | correlation_data => 9 | subscription_identifier => 11
  | session_expiry_interval => 17 | assigned_client_identifier => 18 | server_keep_alive => 19
  | authentication_method => 21 | authentication_data => 22 | request_problem_information => 23
  | will_delay_interval => 24 | request_response_information => 25 | response_information => 26
  | server_reference => 28 | reason_string => 31 | receive_maximum => 33
  | topic_alias_maximum => 34 | topic_alias => 35 | maximum_qos => 36 | retain_available => 37
  | user_property => 38 | maximum_packet_size => 39 | wildcard_subscription_available => 40
  | subscription_identifier_available => 41 | shared_subscription_available => 42
  end.
Definition property_ids : list property_id :=
  [payload_format_indicator; message_expiry_interval; content_type; response_topic;
   correlation_data; subscription_identifier; session_expiry_interval;
   assigned_client_identifier; server_keep_alive; authentication_method;
   authentication_data; request_problem_information; will_delay_interval;
   request_response_information; response_information; server_reference; reason_string;
   receive_maximum; topic_alias_maximum; topic_alias; maximum_qos; retain_available;
   user_property; maximum_packet_size; wildcard_subscription_available;
   subscription_identifier_available; shared_subscription_available].

(** [static_cast<property_id>(id)]: the enumeration is based on [uint8_t], so the
    cast keeps the low byte; [None] is a value without an enumerator. *)
Definition property_id_of (id : Z) : option property_id :=
  list_find (fun p => property_code p = to_u8 id) property_ids ≫= (fun x => Some x.2).
Definition property_known (id : Z) : bool :=
  match property_id_of id with Some _ => true | None => false end.

Definition property_is_byte (id : property_id) : bool :=
  match id with
  | payload_format_indicator | request_problem_information | request_response_information
  | maximum_qos | retain_available | wildcard_subscription_available
  | subscription_identifier_available | shared_subscription_available => true
  | _ => false
  end.
Definition property_is_u16 (id : property_id) : bool :=
  match id with
  | receive_maximum | topic_alias_maximum | topic_alias | server_keep_alive => true
  | _ => false
  end.
Definition property_is_u32 (id : property_id) : bool :=
  match id with
  | message_expiry_interval | session_expiry_interval | will_delay_interval
  | maximum_packet_size => true
  | _ => false
  end.
Definition property_is_varint (id : property_id) : bool :=
  match id with subscription_identifier => true | _ => false end.
Definition property_is_binary (id : property_id) : bool :=
  match id with correlation_data | authentication_data => true | _ => false end.
Definition property_is_string (id : property_id) : bool :=
  match id with
  | content_type | response_topic | assigned_client_identifier | authentication_method
  | response_information | server_reference | reason_string => true
  | _ => false
  end.
Definition property_is_pair (id : property_id) : bool :=
  match id with user_property => true | _ => false end.

Record property : Type := mk_property {
  p_id : property_id;
  p_integer : Z;
  p_string : list Z;
  p_binary : list Z;
  p_binary_size : nat;
  p_user : list Z
}.

Record property_list : Type := mk_plist { entries : list property; count : nat }.

Section Properties.
Context (Count StrCap BinCap : nat).

Definition property_new : property :=
  mk_property reason_string 0 (replicate StrCap 0) (replicate BinCap 0) 0 (replicate StrCap 0).
Definition plist_new : property_list := mk_plist (replicate Count property_new) 0.
Definition plist_clear (l : property_list) : property_list := mk_plist (entries l) 0.
Definition plist_full (l : property_list) : bool := (count l =? Count)%nat.

Definition set_id (id : property_id) (p : property) : property :=
  mk_property id (p_integer p) (p_string p) (p_binary p) (p_binary_size p) (p_user p).
Definition set_integer (v : Z) (p : property) : property :=
  mk_property (p_id p) v (p_string p) (p_binary p) (p_binary_size p) (p_user p).
Definition set_string (s : list Z) (p : property) : property :=
  mk_property (p_id p) (p_integer p) s (p_binary p) (p_binary_size p) (p_user p).
Definition set_binary (b : list Z) (n : nat) (p : property) : property :=
  mk_property (p_id p) (p_integer p) (p_string p) b n (p_user p).
Definition set_user (s : list Z) (p : property) : property :=
  mk_property (p_id p) (p_integer p) (p_string p) (p_binary p) (p_binary_size p) s.

(** [entries[count]] replaced by [p]; [push] also does [++count]. *)
Definition put_entry (p : property) (l : property_list) : exec property_list :=
  es ← store (entries l) (count l) p; Done (mk_plist es (count l)).
Definition push_entry (p : property) (l : property_list) : exec (status * property_list) :=
  es ← store (entries l) (count l) p; Done (s_ok, mk_plist es (count l + 1)).

Definition fill_body (src : ptr) (i : nat) (dst : list Z) : exec (ctl unit (list Z)) :=
  b ← pload src i; dst ← store dst i b; Done (Next dst).
(** [for (i < n) dst[i] = src[i]]. *)
Definition fill (src : ptr) (n : nat) (dst : list Z) : exec (list Z) :=
  match for_range 0 n (fill_body src) dst with Done (Next dst) => Done dst | _ => Undefined end.
(** The same, then [dst[n] = 0]. *)
Definition fill_string (src : ptr) (n : nat) (dst : list Z) : exec (list Z) :=
  dst ← fill src n dst; store dst n 0.

Definition add_integer (id : property_id) (value : Z) (l : property_list)
    : exec (status * property_list) :=
  if plist_full l then Done (s_full, l)
  else p ← load (entries l) (count l); push_entry (set_integer value (set_id id p)) l.

Definition add_string (id : property_id) (value : ptr) (size : nat) (l : property_list)
    : exec (status * property_list) :=
  if plist_full l then Done (s_full, l)
  else if is_null value || (StrCap <=? size)%nat then Done (s_out_of_range, l)
  else p ← load (entries l) (count l);
       s ← fill_string value size (p_string p);
       push_entry (set_string s (set_id id p)) l.

Definition add_binary (id : property_id) (value : ptr) (size : nat) (l : property_list)
    : exec (status * property_list) :=
  if plist_full l then Done (s_full, l)
  else if (is_null value && negb (size =? 0)%nat) || (BinCap <? size)%nat then Done (s_out_of_range, l)
  else p ← load (entries l) (count l);
       b ← fill value size (p_binary p);
       push_entry (set_binary b size (set_id id p)) l.

Definition add_user_property (key : ptr) (ksize : nat) (value : ptr) (vsize : nat) (l : property_list)
    : exec (status * property_list) :=
  if plist_full l then Done (s_full, l)
  else if is_null key || is_null value || (StrCap <=? ksize)%nat || (StrCap <=? vsize)%nat
  then Done (s_out_of_range, l)
  else p ← load (entries l) (count l);
       k ← fill_string key ksize (p_string p);
       v ← fill_string value vsize (p_user p);
       push_entry (set_user v (set_string k (set_id user_property p))) l.

(** ** Encoder *)

(** [string_view(text)]: the characters before the terminator. *)
Fixpoint c_length (m : list Z) : exec nat :=
  match m with
  | [] => Undefined
  | c :: m => if c =? 0 then Done 0%nat else n ← c_length m; Done (S n)
  end.

Definition put_c_string (m : list Z) (w : packet_writer) : exec (status * packet_writer) :=
  n ← c_length m; put_utf8 (Some m) n w.

(** The value of one property, after its identifier. *)
Definition encode_value (item : property) (w : packet_writer) : exec (status * packet_writer) :=
  if property_is_byte (p_id item) then put_u8 (to_u8 (p_integer item)) w
  else if property_is_u16 (p_id item) then put_u16 (to_u16 (p_integer item)) w
  else if property_is_u32 (p_id item) then put_u32 (p_integer item) w
  else if property_is_varint (p_id item) then put_varint (p_integer item) w
  else if property_is_binary (p_id item) then put_binary (Some (p_binary item)) (p_binary_size item) w
  else if property_is_pair (p_id item) then
    r ← put_c_string (p_string item) w;
    if succeeded r.1 then put_c_string (p_user item) r.2 else Done r
  else if property_is_string (p_id item) then put_c_string (p_string item) w
  else Done (s_invalid_argument, w).

Definition encode_property (item : property) (w : packet_writer) : exec (status * packet_writer) :=
  r ← put_varint (to_u8 (property_code (p_id item))) w;
  if negb (succeeded r.1) then Done r else encode_value item r.2.

Definition encode_properties_body (l : property_list) (i : nat) (w : packet_writer)
    : exec (ctl status packet_writer) :=
  item ← load (entries l) i;
  r ← encode_property item w;
  if negb (succeeded r.1) then Done (Return r.1) else Done (Next r.2).

Definition encode_properties (l : property_list) (output : ptr) (capacity : nat)
    : exec codec_result :=
  match output with
  | None => Done (s_invalid_argument, 0%nat, None)
  | Some out =>
      if (Count <? count l)%nat then Done (s_invalid_argument, 0%nat, output)
      else if (capacity <? 4)%nat then Done (s_full, 0%nat, output)
      else
        let body := replicate (Count * (StrCap * 2 + BinCap + 12) + 1) 0 in
        match for_range 0 (count l) (encode_properties_body l) (writer_new (Some body) (length body)) with
        | Done (Return e) => Done (e, 0%nat, output)
        | Done (Next writer) =>
            r ← put_varint (to_u32 (Z.of_nat (size_ writer))) (writer_new output capacity);
            r ← (if succeeded r.1 then put_bytes (output_ writer) (size_ writer) r.2 else Done r);
            Done (r.1, if succeeded r.1 then size_ r.2 else 0%nat, output_ r.2)
        | Undefined => Undefined
        end
  end.

(** ** Decoder *)

(** The value of one property, into [item]. *)
Definition decode_value (id : property_id) (item : property) (r : packet_reader)
    : exec (status * property * packet_reader) :=
  if property_is_byte id then
    g ← get_u8 0 r;
    let '(st, value, r) := g in
    let item := set_integer value item in
    if succeeded st && (1 <? value) then Done (s_invalid_argument, item, r) else Done (st, item, r)
  else if property_is_u16 id then
    g ← get_u16 0 r;
    let '(st, value, r) := g in
    let item := set_integer value item in
    if succeeded st && (value =? 0)
       && (bool_decide (id = receive_maximum) || bool_decide (id = topic_alias))
    then Done (s_invalid_argument, item, r) else Done (st, item, r)
  else if property_is_u32 id then
    g ← get_u32 (p_integer item) r;
    let '(st, value, r) := g in Done (st, set_integer value item, r)
  else if property_is_varint id then
    g ← get_varint r;
    let '(st, value, r) := g in
    let item := set_integer value item in
    if succeeded st && (value =? 0) then Done (s_invalid_argument, item, r) else Done (st, item, r)
  else if property_is_binary id then
    g ← get_binary (Some (p_binary item)) BinCap r;
    let '(st, m, n, r) := g in Done (st, set_binary (default [] m) n item, r)
  else if property_is_string id || property_is_pair id then
    g ← get_utf8 (Some (p_string item)) StrCap r;
    let '(st, m, _, r) := g in
    let item := set_string (default [] m) item in
    if succeeded st && property_is_pair id then
      g ← get_utf8 (Some (p_user item)) StrCap r;
      let '(st, m, _, r) := g in Done (st, set_user (default [] m) item, r)
    else Done (st, item, r)
  else Done (s_invalid_argument, item, r).

(** An early return: a status, or [reader.skip(property_length)]. *)
Inductive early : Type := leave (s : status) | leave_skip.

Definition decode_properties_body (ignore_unknown : bool) (st : packet_reader * property_list)
    : exec (ctl (early * property_list) (packet_reader * property_list)) :=
  let '(props, out) := st in
  g ← get_varint props;
  let '(result, raw_id, props) := g in
  match (if succeeded result then property_id_of raw_id else None) with
  | None => Done (Return (if ignore_unknown then leave_skip else leave s_invalid_argument, out))
  | Some id =>
      if plist_full out then Done (Return (leave s_full, out))
      else
        item ← load (entries out) (count out);
        d ← decode_value id (set_id id item) props;
        let '(result, item, props) := d in
        out ← put_entry item out;
        if negb (succeeded result) then Done (Return (leave result, out))
        else Done (Next (props, mk_plist (entries out) (count out + 1)))
  end.

Definition decode_properties (reader : packet_reader) (output : property_list) (ignore_unknown : bool)
    : exec (status * property_list * packet_reader) :=
  let output := plist_clear output in
  g ← get_varint reader;
  let '(result, property_length, reader) := g in
  if negb (succeeded result) then Done (result, output, reader)
  else if Z.of_nat (remaining reader) <? property_length then Done (s_invalid_argument, output, reader)
  else
    let len := Z.to_nat property_length in
    match while_loop (S len) (fun '(props, _) => Done (negb (remaining props =? 0)%nat))
            (decode_properties_body ignore_unknown) (reader_new (current reader) len, output) with
    | Done (Return (leave s, output)) => Done (s, output, reader)
    | Done (Return (leave_skip, output)) => let '(s, reader) := skip len reader in Done (s, output, reader)
    | Done (Next (_, output)) => let '(s, reader) := skip len reader in Done (s, output, reader)
    | Undefined => Undefined
    end.
End Properties.

(** ** Items: what an entry says *)

Inductive value : Type :=
| v_int (n : Z)
| v_text (s : list Z)
| v_binary (b : list Z)
| v_pair (k v : list Z).
Abbreviation item := (property_id * value)%type.

Definition value_bytes (it : item) : list Z :=
  match it.2 with
  | v_int n =>
      if property_is_byte it.1 then [n]
      else if property_is_u16 it.1 then be_bytes 2 n
      else if property_is_u32 it.1 then be_bytes 4 n
      else varint n
  | v_text s => blob s
  | v_binary b => blob b
  | v_pair k v => blob k ++ blob v
  end.
Definition item_bytes (it : item) : list Z := varint (property_code it.1) ++ value_bytes it.

Section Items.
Context (Count StrCap BinCap : nat).

(** A text an entry can hold: no terminator inside, room for one after it. *)
Definition text_ok (s : list Z) : Prop :=
  Forall u8 s /\ (0 ∉ s) /\ Z.of_nat (length s) <= 65535 /\ (length s < StrCap)%nat.

(** The values MQTT 5 permits for each identifier. *)
Definition item_ok (it : item) : Prop :=
  match it.2 with
  | v_int n =>
      if property_is_byte it.1 then 0 <= n <= 1
      else if property_is_u16 it.1 then
        u16 n /\ (n = 0 -> it.1 <> receive_maximum /\ it.1 <> topic_alias)
      else if property_is_u32 it.1 then u32 n
      else property_is_varint it.1 = true /\ 0 < n <= maximum_remaining_length
  | v_text s => property_is_string it.1 = true /\ text_ok s
  | v_binary b =>
      property_is_binary it.1 = true /\ Forall u8 b /\ Z.of_nat (length b) <= 65535 /\ (length b <= BinCap)%nat
  | v_pair k v => property_is_pair it.1 = true /\ text_ok k /\ text_ok v
  end.

Definition c_string (m s : list Z) : Prop := exists junk, m = s ++ 0 :: junk.

Definition holds (p : property) (it : item) : Prop :=
  p_id p = it.1 /\
  match it.2 with
  | v_int n => p_integer p = n
  | v_text s => c_string (p_string p) s
  | v_binary b => p_binary_size p = length b /\ exists junk, p_binary p = b ++ junk
  | v_pair k v => c_string (p_string p) k /\ c_string (p_user p) v
  end.

(** The arrays of an entry have their declared sizes. *)
Definition shaped (p : property) : Prop :=
  length (p_string p) = StrCap /\ length (p_binary p) = BinCap /\ length (p_user p) = StrCap.

(** The list says exactly [its]. *)
Definition says (l : property_list) (its : list item) : Prop :=
  length (entries l) = Count /\ Forall shaped (entries l) /\ count l = length its
  /\ Forall2 holds (take (count l) (entries l)) its.

Lemma says_new : says (plist_new Count StrCap BinCap) [].
Proof.
  split; [apply length_replicate|]. split; [|by split].
  apply Forall_replicate. repeat split; cbn; apply length_replicate.
Qed.

Lemma says_clear l its : says l its -> says (plist_clear l) [].
Proof. intros (He & Hs & _). by repeat split. Qed.

Lemma says_room l its : says l its -> (length its <= Count)%nat.
Proof.
  intros (He & _ & Hc & H2). apply Forall2_length in H2. rewrite length_take in H2. lia.
Qed.

Lemma says_next l its :
  says l its -> (length its < Count)%nat ->
  plist_full Count l = false /\ exists p, load (entries l) (count l) = Done p /\ shaped p.
Proof.
  intros (He & Hs & Hc & _) Hr. unfold plist_full. split; [apply Nat.eqb_neq; lia|].
  destruct (lookup_lt_is_Some_2 (entries l) (count l)) as [p Hp]; [lia|].
  exists p. unfold load. rewrite Hp. split; [done|]. by eapply Forall_lookup_1.
Qed.

Lemma says_push l its it p :
  says l its -> (length its < Count)%nat -> shaped p -> holds p it ->
  store (entries l) (count l) p = Done (<[count l:=p]> (entries l))
  /\ says (mk_plist (<[count l:=p]> (entries l)) (count l + 1)) (its ++ [it]).
Proof.
  intros (He & Hs & Hc & H2) Hr Hp Hh. unfold store. rewrite decide_True by lia. split; [done|].
  repeat split; cbn.
  - by rewrite length_insert.
  - by apply Forall_insert.
  - rewrite length_app. cbn. lia.
  - rewrite Nat.add_1_r. erewrite take_S_r by (apply list_lookup_insert_eq; lia).
    rewrite take_insert_ge by lia. apply Forall2_app; [done|]. by constructor.
Qed.

Lemma push_entry_says l its it p :
  says l its -> (length its < Count)%nat -> shaped p -> holds p it ->
  exists l', push_entry p l = Done (s_ok, l') /\ says l' (its ++ [it]).
Proof.
  intros Hl Hr Hp Hh. destruct (says_push l its it p Hl Hr Hp Hh) as [E S].
  unfold push_entry. rewrite E. exec_simpl. eexists. split; [done|exact S].
Qed.

(** ** Builders *)

Lemma fill_spec bs post dst :
  (length bs <= length dst)%nat -> fill (Some (bs ++ post)) (length bs) dst = Done (wrote dst 0 bs).
Proof.
  intros Hl. unfold fill.
  enough (forall pre, (length pre + length bs <= length dst)%nat ->
    for_range (R:=unit) (length pre) (length bs) (fill_body (Some (pre ++ bs ++ post))) (wrote dst 0 pre)
    = Done (Next (wrote dst 0 (pre ++ bs)))) as L.
  { specialize (L [] Hl). rewrite wrote_nil in L. cbn [length app] in L. by rewrite L. }
  clear Hl. induction bs as [|b bs IH]; intros pre Hd; cbn [length for_range]; [by rewrite app_nil_r|].
  unfold fill_body at 1. rewrite (pload_mid pre (b :: bs) post 0 b) by (done || lia). exec_simpl.
  cbn [length] in Hd. rewrite store_wrote by lia. exec_simpl.
  specialize (IH (pre ++ [b])). rewrite length_app, <-!app_assoc in IH. cbn [length app] in IH.
  rewrite Nat.add_1_r in IH. apply IH. lia.
Qed.

Lemma fill_string_spec s dst :
  (length s < length dst)%nat ->
  exists m, fill_string (Some s) (length s) dst = Done m /\ c_string m s /\ length m = length dst.
Proof.
  intros Hl. unfold fill_string. pose proof (fill_spec s [] dst ltac:(lia)) as F. rewrite app_nil_r in F.
  rewrite F. exec_simpl. exists (wrote dst 0 (s ++ [0])). rewrite store_wrote by lia.
  rewrite length_wrote, wrote_0 by (rewrite length_app; cbn; lia). split; [done|]. split; [|done].
  eexists. by rewrite <-app_assoc.
Qed.

(** The builder for an item. *)
Definition add_item (it : item) (l : property_list) : exec (status * property_list) :=
  match it.2 with
  | v_int n => add_integer Count it.1 n l
  | v_text s => add_string Count StrCap it.1 (Some s) (length s) l
  | v_binary b => add_binary Count BinCap it.1 (Some b) (length b) l
  | v_pair k v => add_user_property Count StrCap (Some k) (length k) (Some v) (length v) l
  end.
Fixpoint add_items (its : list item) (l : property_list) : exec (status * property_list) :=
  match its with
  | [] => Done (s_ok, l)
  | it :: its => r ← add_item it l; if succeeded r.1 then add_items its r.2 else Done r
  end.

Lemma add_item_says l its it :
  says l its -> (length its < Count)%nat -> item_ok it ->
  exists l', add_item it l = Done (s_ok, l') /\ says l' (its ++ [it]).
Proof.
  intros Hl Hr Hi. destruct (says_next l its Hl Hr) as (Hf & p & Hp & Hs1 & Hs2 & Hs3).
  destruct it as [id [n|s|b|k v]]; cbn [item_ok add_item fst snd] in *.
  - unfold add_integer. rewrite Hf, Hp. exec_simpl. by apply (push_entry_says l its).
  - destruct Hi as (_ & _ & _ & _ & Hi). unfold add_string. rewrite Hf. cbn [is_null orb]. nat_tests.
    rewrite Hp. exec_simpl. destruct (fill_string_spec s (p_string p)) as (m & -> & Hm & Hlm); [lia|]. exec_simpl.
    apply (push_entry_says l its); try done. repeat split; cbn; congruence.
  - destruct Hi as (_ & _ & _ & Hi). unfold add_binary. rewrite Hf. cbn [is_null orb andb]. nat_tests.
    rewrite Hp. exec_simpl. pose proof (fill_spec b [] (p_binary p) ltac:(lia)) as F. rewrite app_nil_r in F.
    rewrite F. exec_simpl. apply (push_entry_says l its); try done.
    + repeat split; cbn; rewrite ?length_wrote; lia.
    + repeat split; cbn. rewrite wrote_0. by eexists.
  - destruct Hi as (Hid & (_ & _ & _ & Hk) & _ & _ & _ & Hv). destruct id; try done.
    unfold add_user_property. rewrite Hf. cbn [is_null orb]. nat_tests. cbn [orb]. rewrite Hp. exec_simpl.
    destruct (fill_string_spec k (p_string p)) as (m & -> & Hm & Hlm); [lia|]. exec_simpl.
    destruct (fill_string_spec v (p_user p)) as (m' & -> & Hm' & Hlm'); [lia|]. exec_simpl.
    apply (push_entry_says l its); try done. repeat split; cbn; congruence.
Qed.

Lemma add_items_says its : forall l before,
  says l before -> (length before + length its <= Count)%nat -> Forall item_ok its ->
  exists l', add_items its l = Done (s_ok, l') /\ says l' (before ++ its).
Proof.
  induction its as [|it its IH]; intros l before Hl Hr Hok; cbn [add_items length] in *.
  { rewrite app_nil_r. by exists l. }
  apply Forall_cons in Hok as [Hit Hok].
  destruct (add_item_says l before it) as (l1 & -> & H1); [done|lia|done|]. exec_simpl.
  destruct (IH l1 (before ++ [it])) as (l2 & E & H2); [done|rewrite length_app; cbn; lia|done|].
  exists l2. rewrite <-app_assoc in H2. split; [exact E|exact H2].
Qed.
End Items.

(** ** Encoder *)

Lemma property_code_bounds id : 0 < property_code id < 128.
Proof. by destruct id. Qed.

Lemma property_id_of_code id : property_id_of (property_code id) = Some id.
Proof. by destruct id. Qed.

Lemma varint_code id : length (varint (property_code id)) = 1%nat.
Proof. by destruct id. Qed.

Lemma code_varint_ok id : 0 <= property_code id <= maximum_remaining_length.
Proof. pose proof (property_code_bounds id). unfold maximum_remaining_length. lia. Qed.

(** [if (!succeeded(r)) return r; return g]. *)
Lemma puts_then f g bs bs' :
  puts f bs -> puts g bs' ->
  puts (fun w => r ← f w; if negb (succeeded r.1) then Done r else g r.2) (bs ++ bs').
Proof.
  intros Hf Hg out cap ds Hd Hc.
  pose proof (puts_seq f g bs bs' Hf Hg out cap ds Hd Hc) as P.
  assert (E : forall w, (r ← f w; if negb (succeeded r.1) then Done r else g r.2)
                      = (r ← f w; if succeeded r.1 then g r.2 else Done r)).
  { intros w. destruct (f w) as [r|]; [|done]. exec_simpl. by destruct (succeeded r.1). }
  by rewrite E.
Qed.

Lemma c_length_spec s junk : 0 ∉ s -> c_length (s ++ 0 :: junk) = Done (length s).
Proof.
  induction s as [|c s IH]; intros Hs; cbn [c_length app length]; [done|].
  apply not_elem_of_cons in Hs as [Hc Hs]. rewrite (proj2 (Z.eqb_neq _ _)) by congruence.
  rewrite IH by done. done.
Qed.

Section EncodeDecode.
Context (Count StrCap BinCap : nat).
#[local] Abbreviation iok := (item_ok StrCap BinCap).

Lemma puts_c_string m s : text_ok StrCap s -> c_string m s -> puts (put_c_string m) (blob s).
Proof.
  intros (_ & Hz & Hl & _) [junk ->]. unfold put_c_string. rewrite c_length_spec by done.
  apply (puts_binary s (0 :: junk) Hl).
Qed.

Lemma puts_property p it : iok it -> holds p it -> puts (encode_property p) (item_bytes it).
Proof.
  intros Hok [Hid Hh]. unfold encode_property, item_bytes. rewrite Hid.
  pose proof (code_varint_ok it.1). pose proof (property_code_bounds it.1).
  rewrite (wrap_small 8 (property_code it.1)) by (unfold in_width; lia).
  apply puts_then; [by apply puts_varint|]. unfold encode_value. rewrite Hid.
  destruct it as [id [n|s|b|k v]]; unfold item_ok, value_bytes in *; cbn [fst snd] in *.
  - subst n. destruct (property_is_byte id).
    { rewrite wrap_small by (unfold in_width; lia). apply puts_u8. }
    destruct (property_is_u16 id).
    { rewrite wrap_small by (unfold in_width in *; lia). apply puts_u16. }
    destruct (property_is_u32 id); [apply puts_u32|].
    destruct Hok as [-> ?]. apply puts_varint. lia.
  - destruct Hok as [Hk Hs]. destruct id; try done; by apply puts_c_string.
  - destruct Hok as (Hk & _ & Hl & _), Hh as [-> [junk ->]]. destruct id; try done; by apply puts_binary.
  - destruct Hok as (Hk & Hs & Hs'), Hh as [H1 H2]. destruct id; try done.
    apply puts_seq; by apply puts_c_string.
Qed.

Lemma value_bytes_u8 it : iok it -> Forall u8 (value_bytes it).
Proof.
  assert (B : forall s, Forall u8 s -> Forall u8 (blob s)).
  { intros s Hs. apply Forall_app. split; [apply be_bytes_u8|done]. }
  destruct it as [id [n|s|b|k v]]; unfold item_ok, value_bytes; cbn [fst snd].
  - destruct (property_is_byte id).
    { intros. repeat constructor; lia. }
    destruct (property_is_u16 id); [intros _; apply be_bytes_u8|].
    destruct (property_is_u32 id); [intros _; apply be_bytes_u8|].
    intros [_ ?]. apply varint_bounds. lia.
  - intros (_ & ? & _). by apply B.
  - intros (_ & ? & _). by apply B.
  - intros (_ & (? & _) & ? & _). apply Forall_app. split; by apply B.
Qed.

Lemma item_bytes_u8 it : iok it -> Forall u8 (item_bytes it).
Proof.
  intros H. apply Forall_app. split; [|by apply value_bytes_u8].
  apply varint_bounds. pose proof (code_varint_ok it.1). lia.
Qed.

Lemma items_bytes_u8 its : Forall iok its -> Forall u8 (flat_map item_bytes its).
Proof.
  intros H. apply Forall_flat_map. eapply Forall_impl; [exact H|]. intros x Hx. by apply item_bytes_u8.
Qed.

(** The encoder's scratch array has room for any entry. *)
Lemma item_bytes_room it : iok it -> (length (item_bytes it) <= StrCap * 2 + BinCap + 12)%nat.
Proof.
  intros H. unfold item_bytes. rewrite length_app, varint_code.
  destruct it as [id [n|s|b|k v]]; unfold item_ok, value_bytes, text_ok, blob in *; cbn [fst snd] in *.
  - destruct (property_is_byte id); [cbn; lia|].
    destruct (property_is_u16 id); [rewrite length_be_bytes; lia|].
    destruct (property_is_u32 id); [rewrite length_be_bytes; lia|].
    pose proof (proj2 (varint_bounds n ltac:(lia))). lia.
  - rewrite length_app, length_be_bytes. lia.
  - rewrite length_app, length_be_bytes. lia.
  - rewrite !length_app, !length_be_bytes. lia.
Qed.

Lemma items_bytes_room its :
  Forall iok its -> (length (flat_map item_bytes its) <= length its * (StrCap * 2 + BinCap + 12))%nat.
Proof.
  induction 1 as [|it its H _ IH]; cbn [flat_map length]; [lia|].
  rewrite length_app. pose proof (item_bytes_room it H). lia.
Qed.

Lemma encode_loop l out cap its ps : forall before,
  Forall2 holds ps its -> Forall iok its ->
  (forall i p, ps !! i = Some p -> entries l !! (before + i)%nat = Some p) ->
  forall ds, (length ds + length (flat_map item_bytes its) <= cap)%nat -> (cap <= length out)%nat ->
  for_range before (length its) (encode_properties_body l) (wr out cap ds)
  = Done (Next (wr out cap (ds ++ flat_map item_bytes its))).
Proof.
  revert ps. induction its as [|it its IH]; intros ps before H2 Hok He ds Hd Hc;
    cbn [length for_range flat_map] in *; [by rewrite app_nil_r|].
  destruct ps as [|p ps]; [by inversion H2|]. apply Forall2_cons in H2 as [Hh H2].
  apply Forall_cons in Hok as [Hit Hok]. rewrite length_app in Hd.
  unfold encode_properties_body at 1. unfold load.
  assert (E : entries l !! before = Some p) by (rewrite <-(Nat.add_0_r before); by apply He).
  rewrite E. exec_simpl. destruct (puts_property p it Hit Hh out cap ds) as [P _]; [lia|lia|].
  rewrite P by lia. exec_simpl. change (negb (succeeded s_ok)) with false. cbv iota.
  rewrite app_assoc. eapply (IH ps (S before)); try done.
  - intros i q Hq. replace (S before + i)%nat with (before + S i)%nat by lia. by apply He.
  - rewrite length_app. lia.
Qed.

(** What [encode_properties] writes. *)
Definition block (its : list item) : list Z :=
  varint (Z.of_nat (length (flat_map item_bytes its))) ++ flat_map item_bytes its.

Lemma encode_properties_spec l its out :
  says Count StrCap BinCap l its -> Forall iok its ->
  Z.of_nat (length (flat_map item_bytes its)) <= maximum_remaining_length ->
  (4 <= length out)%nat -> (length (block its) <= length out)%nat ->
  encode_properties Count StrCap BinCap l (Some out) (length out)
  = Done (s_ok, length (block its), Some (wrote out 0 (block its))).
Proof.
  intros Hs Hok Hm H4 Ho. pose proof (says_room _ _ _ l its Hs) as Hr. destruct Hs as (He & _ & Hc & H2).
  unfold encode_properties. nat_tests.
  set (body := replicate (Count * (StrCap * 2 + BinCap + 12) + 1) 0).
  assert (Hb : length body = (Count * (StrCap * 2 + BinCap + 12) + 1)%nat) by apply length_replicate.
  pose proof (items_bytes_room its Hok) as Hroom.
  pose proof (encode_loop l body (length body) its (take (count l) (entries l)) 0 H2 Hok) as L.
  rewrite Hc. unfold writer_new. cbn [is_null andb].
  specialize (L ltac:(intros i p Hp; apply lookup_take_Some in Hp; tauto) []
                ltac:(cbn [length]; nia) ltac:(lia)).
  unfold wr at 1 in L. rewrite wrote_nil in L. cbn [length app] in L. rewrite L. cbn [wr size_ output_].
  rewrite (wrap_small 32 (Z.of_nat (length (flat_map item_bytes its)))) by (unfold in_width, maximum_remaining_length in *; lia).
  pose proof (puts_seq _ _ _ _ (puts_varint (Z.of_nat (length (flat_map item_bytes its))) ltac:(lia))
    (puts_bytes (flat_map item_bytes its) (drop (length (flat_map item_bytes its)) body)) out (length out) []) as P.
  destruct P as [P _]; [cbn; lia|lia|]. specialize (P Ho).
  unfold wr at 1 in P. rewrite wrote_nil in P. cbn [length app] in P.
  destruct (put_varint _ _) as [[st w]|] eqn:Ev; [|done]. revert P. exec_simpl. intros P.
  cbn [wr output_ size_]. rewrite wrote_0. rewrite P. exec_simpl. cbn. by fold (block its).
Qed.

(** ** Decoder *)

Lemma decode_value_spec p it pre rest post :
  iok it -> shaped StrCap BinCap p -> p_id p = it.1 -> Forall u8 rest ->
  exists p', decode_value StrCap BinCap it.1 p (rd pre (value_bytes it ++ rest) post)
             = Done (s_ok, p', rd (pre ++ value_bytes it) rest post)
    /\ shaped StrCap BinCap p' /\ holds p' it.
Proof.
  intros Hok (S1 & S2 & S3) Hid Hu. unfold decode_value.
  destruct it as [id [n|s|b|k v]]; unfold item_ok, value_bytes in *; cbn [fst snd] in *.
  - exists (set_integer n p). split; [|done].
    destruct (property_is_byte id).
    { cbn [app]. rewrite get_u8_rd. exec_simpl. change (succeeded s_ok) with true. rewrite (proj2 (Z.ltb_ge _ _)) by lia. done. }
    destruct (property_is_u16 id).
    { destruct Hok as [Hn Hz]. rewrite get_u16_rd by done. exec_simpl. change (succeeded s_ok) with true.
      destruct (Z.eqb_spec n 0) as [->|]; [|done]. destruct (Hz eq_refl).
      by rewrite !bool_decide_false. }
    destruct (property_is_u32 id); [by rewrite get_u32_rd|].
    destruct Hok as [-> Hn]. rewrite get_varint_rd by (done || lia). exec_simpl.
    change (succeeded s_ok) with true. by rewrite (proj2 (Z.eqb_neq _ _)) by lia.
  - destruct Hok as (Hk & _ & _ & Hl & Hc).
    pose proof (get_utf8_rd pre s rest post (p_string p) Hl ltac:(lia)) as G. rewrite S1 in G.
    exists (set_string (wrote (p_string p) 0 (s ++ [0])) p). split.
    + destruct id; try done; cbn -[get_utf8 blob rd app]; rewrite G; exec_simpl; done.
    + rewrite <-S1 in Hc. split; [|split; [done|cbn; rewrite wrote_0, <-app_assoc; by eexists]].
      repeat split; cbn; rewrite ?length_wrote; rewrite ?length_app; cbn; lia.
  - destruct Hok as (Hk & _ & Hl & Hc).
    pose proof (get_binary_rd pre b rest post (p_binary p) Hl ltac:(lia)) as G. rewrite S2 in G.
    exists (set_binary (wrote (p_binary p) 0 b) (length b) p). split.
    + destruct id; try done; cbn -[get_binary blob rd app]; rewrite G; exec_simpl; done.
    + rewrite <-S2 in Hc. split; [|split; [done|split; [done|cbn; rewrite wrote_0; by eexists]]].
      repeat split; cbn; rewrite ?length_wrote; lia.
  - destruct Hok as (Hk & (_ & _ & Hl & Hc) & _ & _ & Hl' & Hc').
    pose proof (get_utf8_rd pre k (blob v ++ rest) post (p_string p) Hl ltac:(lia)) as G. rewrite S1 in G.
    pose proof (get_utf8_rd (pre ++ blob k) v rest post (p_user p) Hl' ltac:(lia)) as G'. rewrite S3 in G'.
    exists (set_user (wrote (p_user p) 0 (v ++ [0])) (set_string (wrote (p_string p) 0 (k ++ [0])) p)). split.
    + destruct id; try done. rewrite <-app_assoc. cbn -[get_utf8 blob rd app]. rewrite G. exec_simpl.
      cbn -[get_utf8 blob rd app]. rewrite G'. exec_simpl. by rewrite app_assoc.
    + rewrite <-S1 in Hc. rewrite <-S3 in Hc'.
      split; [|split; [done|cbn; rewrite !wrote_0, <-!app_assoc; split; by eexists]].
      repeat split; cbn; rewrite ?length_wrote; rewrite ?length_app; cbn; lia.
Qed.

Lemma decode_loop unknown its : forall fuel pre post out before,
  says Count StrCap BinCap out before -> Forall iok its -> (length before + length its <= Count)%nat ->
  (length (flat_map item_bytes its) < fuel)%nat ->
  exists out', while_loop fuel (fun '(props, _) => Done (negb (remaining props =? 0)%nat))
      (decode_properties_body Count StrCap BinCap unknown) (rd pre (flat_map item_bytes its) post, out)
    = Done (Next (rd (pre ++ flat_map item_bytes its) [] post, out'))
    /\ says Count StrCap BinCap out' (before ++ its).
Proof.
  induction its as [|it its IH]; intros [|fuel] pre post out before Hs Hok Hc Hf; try lia;
    cbn [while_loop flat_map] in *; rewrite rd_remaining.
  { exists out. rewrite !app_nil_r. by cbn [length Nat.eqb negb]. }
  cbn [length] in Hc. apply Forall_cons in Hok as [Hit Hok].
  assert (Hb : length (item_bytes it) = S (length (value_bytes it)))
    by (unfold item_bytes; by rewrite length_app, varint_code).
  rewrite length_app, Hb. cbn [Nat.add Nat.eqb negb].
  assert (Hu : Forall u8 (flat_map item_bytes its)) by by apply items_bytes_u8.
  destruct (says_next _ _ _ out before Hs) as (Hfull & p & Hp & Hsh); [lia|].
  destruct (decode_value_spec (set_id it.1 p) it (pre ++ varint (property_code it.1)) (flat_map item_bytes its) post)
    as (p' & Hd & Hsh' & Hh'); try done.
  destruct (says_push _ _ _ out before it p' Hs ltac:(lia) Hsh' Hh') as [Hst Hs'].
  assert (B : decode_properties_body Count StrCap BinCap unknown
                (rd pre (item_bytes it ++ flat_map item_bytes its) post, out)
    = Done (Next (rd (pre ++ item_bytes it) (flat_map item_bytes its) post,
                  mk_plist (<[count out:=p']> (entries out)) (count out + 1)))).
  { unfold decode_properties_body, item_bytes at 1. rewrite <-app_assoc, get_varint_rd;
      [|apply code_varint_ok|apply Forall_app; split; [by apply value_bytes_u8|done]].
    exec_simpl. change (succeeded s_ok) with true. cbv iota. rewrite property_id_of_code, Hfull, Hp. exec_simpl.
    rewrite Hd. exec_simpl. unfold put_entry. rewrite Hst. exec_simpl.
    unfold item_bytes. by rewrite app_assoc. }
  rewrite B. rewrite length_app in Hf.
  destruct (IH fuel (pre ++ item_bytes it) post _ (before ++ [it]) Hs' Hok) as (out' & E & Hs'').
  { rewrite length_app. cbn. lia. }
  { lia. }
  exists out'. rewrite E, <-!app_assoc in *. split; [done|exact Hs''].
Qed.

Lemma decode_properties_spec unknown l its before pre rest post :
  says Count StrCap BinCap l before -> Forall iok its -> (length its <= Count)%nat ->
  Forall u8 rest -> Z.of_nat (length (flat_map item_bytes its)) <= maximum_remaining_length ->
  exists l', decode_properties Count StrCap BinCap (rd pre (block its ++ rest) post) l unknown
             = Done (s_ok, l', rd (pre ++ block its) rest post)
    /\ says Count StrCap BinCap l' its.
Proof.
  intros Hs Hok Hc Hu Hm. unfold decode_properties, block. rewrite <-app_assoc.
  rewrite get_varint_rd; [|lia|apply Forall_app; split; [by apply items_bytes_u8|done]].
  exec_simpl. change (negb (succeeded s_ok)) with false. cbv iota.
  rewrite rd_remaining, rd_current, length_app, (proj2 (Z.ltb_ge _ _)) by lia. rewrite Nat2Z.id.
  destruct (decode_loop unknown its (S (length (flat_map item_bytes its))) [] (rest ++ post) _ []
    (says_clear _ _ _ l before Hs) Hok) as (l' & E & Hs'); [cbn; lia|lia|].
  exists l'. unfold reader_new. cbn [is_null andb]. rewrite <-app_assoc.
  unfold rd at 1 in E. cbn [app length Nat.add] in E. rewrite E. split; [|exact Hs'].
  unfold skip. rewrite rd_remaining, length_app. nat_tests. cbn [rresult_ rd].
  f_equal. f_equal. rewrite (app_assoc pre). by apply rd_advance.
Qed.
End EncodeDecode.

(** ** Properties *)

(** C30.  Properties survive the wire: for every list of items MQTT 5 permits (a byte
    flag of at most one, a non-zero receive maximum, topic alias and subscription
    identifier, NUL-free texts and binary data that fit the entry's arrays), the
    builders accept them all, [encode_properties] never runs out of its scratch
    array, and [decode_properties], into a list that held anything before and
    under either policy for unknown identifiers, consumes exactly what was
    written and yields a list that says exactly those items, in order. *)
Theorem mqtt_properties_roundtrip (Count StrCap BinCap : nat) (its before : list item)
    (l : property_list) (out : list Z) (unknown : bool) :
  Forall (item_ok StrCap BinCap) its -> (length its <= Count)%nat ->
  Z.of_nat (length (flat_map item_bytes its)) <= maximum_remaining_length ->
  (4 <= length out)%nat -> (length (block its) <= length out)%nat ->
  says Count StrCap BinCap l before ->
  exists built n written l' r,
    add_items Count StrCap BinCap its (plist_new Count StrCap BinCap) = Done (s_ok, built)
    /\ encode_properties Count StrCap BinCap built (Some out) (length out) = Done (s_ok, n, written)
    /\ decode_properties Count StrCap BinCap (reader_new written n) l unknown = Done (s_ok, l', r)
    /\ says Count StrCap BinCap l' its /\ remaining r = 0%nat.
Proof.
  intros Hok Hc Hm H4 Ho Hl.
  destruct (add_items_says Count StrCap BinCap its _ [] (says_new Count StrCap BinCap) Hc Hok) as (built & Ea & Hb).
  destruct (decode_properties_spec Count StrCap BinCap unknown l its before [] [] (drop (length (block its)) out)
    Hl Hok Hc (Forall_nil_2 _) Hm) as (l' & Ed & Hs).
  exists built, (length (block its)), (Some (wrote out 0 (block its))), l', (rd (block its) [] (drop (length (block its)) out)).
  split; [done|]. split; [by apply (encode_properties_spec Count StrCap BinCap built its out)|].
  rewrite app_nil_r in Ed. unfold reader_new. cbn [is_null andb]. rewrite wrote_0.
  split; [exact Ed|]. split; [done|]. by rewrite rd_remaining.
Qed.

Definition sample_items : list item :=
  [(receive_maximum, v_int 20); (user_property, v_pair (chars "k") (chars "val"));
   (correlation_data, v_binary [0; 255])].

Lemma mqtt_properties_roundtrip_witness :
  exists built n written l' r,
    add_items 4 8 8 sample_items (plist_new 4 8 8) = Done (s_ok, built)
    /\ encode_properties 4 8 8 built (Some (replicate 64 7)) 64 = Done (s_ok, n, written)
    /\ decode_properties 4 8 8 (reader_new written n) (plist_new 4 8 8) false = Done (s_ok, l', r)
    /\ says 4 8 8 l' sample_items /\ remaining r = 0%nat.
Proof.
  apply (mqtt_properties_roundtrip 4 8 8 sample_items [] (plist_new 4 8 8) (replicate 64 7) false).
  - repeat (apply Forall_cons; split); try apply Forall_nil_2; unfold item_ok, text_ok; cbn [fst snd];
      repeat split; try (apply (bool_decide_unpack _); vm_compute; exact I); try done; cbn; lia.
  - cbn. lia.
  - vm_compute. discriminate.
  - cbn. lia.
  - vm_compute. lia.
  - apply says_new.
Defined.

(**  [property_known] converts the identifier to an 8-bit enumeration before it
    looks it up, so it answers by the low byte alone: every identifier that is
    congruent to a known one modulo 256 counts as known, and a packet carrying
    the undefined identifier 257 (bytes 0x81 0x02) is decoded as a payload format
    indicator instead of being rejected. *)
Theorem mqtt_property_id_aliasing (id : property_id) (k : Z) :
  property_id_of (property_code id + 256 * k) = Some id
  /\ property_known (property_code id + 256 * k) = true
  /\ exists l r,
       decode_properties 2 4 4 (reader_new (Some [3; 129; 2; 1]) 4) (plist_new 2 4 4) false = Done (s_ok, l, r)
       /\ says 2 4 4 l [(payload_format_indicator, v_int 1)].
Proof.
  assert (E : property_id_of (property_code id + 256 * k) = Some id).
  { unfold property_id_of. replace (to_u8 (property_code id + 256 * k)) with (to_u8 (property_code id)).
    - apply property_id_of_code.
    - unfold wrap. change (2 ^ 8) with 256. rewrite Z.mul_comm, Z.mod_add by lia. done. }
  split; [done|]. unfold property_known. rewrite E. split; [done|].
  do 2 eexists. split; [vm_compute; reflexivity|]. repeat split; repeat constructor.
Qed.
