(* ===== verification/Checksums.v ===== *)
(** * Checksums (castle_ext/checksums)

    [basic_crc] (crc_common.hpp) with the instances of crc8, crc16, crc24q, crc32
    and crc64, [basic_fletcher] (fletcher_common.hpp) with its three widths, and
    [xor_checksum] (xor.hpp).  The CRC is specified as the remainder of a
    division of polynomials over GF(2), a polynomial being the integer whose bits
    are its coefficients; the Fletcher sums are specified modulo [2^h - 1]. *)

From S2P Require Import Prelude Bytes.
Open Scope Z_scope.

(** ** The CRC engine *)

(** The template arguments; [uint_bits] is the width of [UInt]. *)
Record crc_params : Type := mk_crc {
  uint_bits : Z;
  polynomial : Z;
  initial : Z;
  final_xor : Z;
  reflect_input : bool;
  reflect_output : bool;
  crc_width : nat
}.
Abbreviation cw p := (Z.of_nat (crc_width p)).

Definition crc_mask (p : crc_params) : Z := Z.shiftr (2 ^ uint_bits p - 1) (uint_bits p - cw p).

(** The conditions the class asserts on its template arguments. *)
Definition crc_ok (p : crc_params) : Prop :=
  8 <= cw p <= uint_bits p /\ Z.land (polynomial p) (crc_mask p) = polynomial p
  /\ Z.land (initial p) (crc_mask p) = initial p /\ Z.land (final_xor p) (crc_mask p) = final_xor p.

Definition reflect_body (bits : Z) (s : Z * Z) : Z * Z :=
  (wrap bits (Z.lor (Z.shiftl s.1 1) (Z.land s.2 1)), wrap bits (Z.shiftr s.2 1)).
Definition reflect (p : crc_params) (value : Z) : Z :=
  (Nat.iter (crc_width p) (reflect_body (uint_bits p)) (0, value)).1.
Definition reflected_polynomial (p : crc_params) : Z := reflect p (polynomial p).

(** The two bodies of the loops over the bits of a byte. *)
Definition reflected_bit (p : crc_params) (crc : Z) : Z :=
  if negb (Z.land crc 1 =? 0) then wrap (uint_bits p) (Z.lxor (Z.shiftr crc 1) (reflected_polynomial p))
  else wrap (uint_bits p) (Z.shiftr crc 1).
Definition plain_bit (p : crc_params) (crc : Z) : Z :=
  if negb (Z.land crc (Z.shiftl 1 (cw p - 1)) =? 0)
  then wrap (uint_bits p) (Z.land (Z.lxor (Z.shiftl crc 1) (polynomial p)) (crc_mask p))
  else wrap (uint_bits p) (Z.land (Z.shiftl crc 1) (crc_mask p)).

Definition update_byte (p : crc_params) (crc value : Z) : Z :=
  if reflect_input p then Nat.iter 8 (reflected_bit p) (wrap (uint_bits p) (Z.lxor crc value))
  else Nat.iter 8 (plain_bit p) (wrap (uint_bits p) (Z.lxor crc (Z.shiftl value (cw p - 8)))).

Definition finalize (p : crc_params) (crc : Z) : Z :=
  let crc := if negb (Bool.eqb (reflect_input p) (reflect_output p)) then reflect p crc else crc in
  wrap (uint_bits p) (Z.lxor crc (final_xor p)).

(** [update] folds a byte step over the data; a null pointer is ignored. *)
Definition update_body {St} (step : St -> Z -> St) (data : ptr) (i : nat) (s : St) : exec (ctl unit St) :=
  b ← pload data i; Done (Next (step s b)).
Definition update {St} (step : St -> Z -> St) (data : ptr) (size : nat) (s : St) : exec St :=
  if is_null data then Done s
  else match for_range 0 size (update_body step data) s with Done (Next s) => Done s | _ => Undefined end.

Definition crc_update (p : crc_params) := update (update_byte p).
Definition crc_value (p : crc_params) (s : Z) : Z := finalize p s.
Definition crc_calculate (p : crc_params) (data : ptr) (size : nat) : exec Z :=
  s ← crc_update p data size (initial p); Done (crc_value p s).

Definition crc8 : crc_params := mk_crc 8 7 0 0 false false 8.
Definition crc16 : crc_params := mk_crc 16 4129 65535 0 false false 16.
Definition crc24q : crc_params := mk_crc 32 8801531 0 0 false false 24.
Definition crc32 : crc_params := mk_crc 32 79764919 4294967295 4294967295 true true 32.
Definition crc64 : crc_params := mk_crc 64 4823603603198064275 0 0 false false 64.

(** ** Fletcher *)

Record fletcher : Type := mk_fletcher { sum1 : Z; sum2 : Z; pending : Z; pending_size : Z }.

Section Fletcher.
(** [UInt] has [8 * bytes] bits. *)
Context (bytes : Z) (LittleEndian : bool).

Definition block_size : Z := bytes / 2.
Definition half_bits : Z := block_size * 8.
Definition modulus : Z := wrap (8 * bytes) (Z.shiftl 1 half_bits - 1).
Definition uint (z : Z) : Z := wrap (8 * bytes) z.

Definition fletcher_new : fletcher := mk_fletcher 0 0 0 0.
Definition reduce (value : Z) : Z := if modulus <=? value then uint (value - modulus) else value.
Definition accumulate (s : Z * Z) (block : Z) : Z * Z :=
  let sum1 := reduce (uint (s.1 + block)) in (sum1, reduce (uint (s.2 + sum1))).

Definition push_byte (f : fletcher) (byte : Z) : fletcher :=
  let pending :=
    if LittleEndian then uint (Z.lor (pending f) (uint (Z.shiftl byte (pending_size f * 8))))
    else uint (Z.lor (uint (Z.shiftl (pending f) 8)) byte) in
  let pending_size := pending_size f + 1 in
  if pending_size =? block_size then
    let s := accumulate (sum1 f, sum2 f) pending in mk_fletcher s.1 s.2 0 0
  else mk_fletcher (sum1 f) (sum2 f) pending pending_size.

Definition fletcher_update := update push_byte.
Definition fletcher_value (f : fletcher) : Z :=
  let s :=
    if negb (pending_size f =? 0) then
      let block := if LittleEndian then pending f
                   else uint (Z.shiftl (pending f) ((block_size - pending_size f) * 8)) in
      accumulate (sum1 f, sum2 f) block
    else (sum1 f, sum2 f) in
  uint (Z.lor (uint (Z.shiftl s.2 half_bits)) s.1).
Definition fletcher_calculate (data : ptr) (size : nat) : exec Z :=
  f ← fletcher_update data size fletcher_new; Done (fletcher_value f).
End Fletcher.

(** ** XOR *)

Definition xor_byte (s b : Z) : Z := to_u8 (Z.lxor s b).
Definition xor_update := update xor_byte.
Definition xor_calculate (data : ptr) (size : nat) (initial : Z) : exec Z := xor_update data size initial.

(** ** Updating in chunks *)

Fixpoint update_chunks {St} (step : St -> Z -> St) (chunks : list (list Z)) (s : St) : exec St :=
  match chunks with
  | [] => Done s
  | c :: cs => s ← update step (Some c) (length c) s; update_chunks step cs s
  end.

Lemma update_fold {St} (step : St -> Z -> St) bs post s :
  update step (Some (bs ++ post)) (length bs) s = Done (foldl step s bs).
Proof.
  unfold update. cbn [is_null].
  enough (forall pre, for_range (length pre) (length bs) (update_body step (Some (pre ++ bs ++ post)))
                        (foldl step s pre) = Done (Next (foldl step s (pre ++ bs)))) as L.
  { specialize (L []). cbn [length foldl app] in L. by rewrite L. }
  induction bs as [|b bs IH]; intros pre; cbn [length for_range]; [by rewrite app_nil_r|].
  unfold update_body at 1. rewrite (pload_mid pre (b :: bs) post 0 b) by (done || lia). exec_simpl.
  specialize (IH (pre ++ [b])). rewrite length_app, foldl_app, <-!app_assoc in IH.
  cbn [length app foldl] in IH. rewrite Nat.add_1_r in IH. exact IH.
Qed.

Lemma update_whole {St} (step : St -> Z -> St) bs s :
  update step (Some bs) (length bs) s = Done (foldl step s bs).
Proof. pose proof (update_fold step bs [] s) as U. by rewrite app_nil_r in U. Qed.

Lemma update_chunks_fold {St} (step : St -> Z -> St) cs : forall s,
  update_chunks step cs s = Done (foldl step s (concat cs)).
Proof.
  induction cs as [|c cs IH]; intros s; cbn [update_chunks concat]; [done|].
  rewrite update_whole. exec_simpl. by rewrite IH, foldl_app.
Qed.

(** ** Polynomials over GF(2) *)

(** The multiples of [g], by Horner's rule on the quotient's coefficients. *)
Inductive multiple (g : Z) : Z -> Prop :=
| multiple_0 : multiple g 0
| multiple_step x (b : bool) : multiple g x -> multiple g (Z.lxor (Z.shiftl x 1) (if b then g else 0)).

Lemma multiple_shift1 g x : multiple g x -> multiple g (Z.shiftl x 1).
Proof. intros H. rewrite <-(Z.lxor_0_r (Z.shiftl x 1)). by apply (multiple_step g x false). Qed.

Lemma multiple_shift g x k : 0 <= k -> multiple g x -> multiple g (Z.shiftl x k).
Proof.
  intros Hk Hx. revert k Hk. apply natlike_ind; [by rewrite Z.shiftl_0_r|].
  intros k Hk IH. replace (Z.shiftl x (Z.succ k)) with (Z.shiftl (Z.shiftl x k) 1); [by apply multiple_shift1|].
  by rewrite Z.shiftl_shiftl.
Qed.

Lemma shiftl_lxor x y k : Z.shiftl (Z.lxor x y) k = Z.lxor (Z.shiftl x k) (Z.shiftl y k).
Proof. apply Z.shiftl_lxor. Qed.

Lemma lxor_swap a b c d : Z.lxor (Z.lxor a b) (Z.lxor c d) = Z.lxor (Z.lxor a c) (Z.lxor b d).
Proof. rewrite !Z.lxor_assoc. f_equal. rewrite <-!Z.lxor_assoc. f_equal. apply Z.lxor_comm. Qed.

Lemma multiple_xor g x y : multiple g x -> multiple g y -> multiple g (Z.lxor x y).
Proof.
  intros Hx. revert y. induction Hx as [|x b Hx IH]; intros y Hy; [by rewrite Z.lxor_0_l|].
  destruct Hy as [|y b' Hy]; [rewrite Z.lxor_0_r; by constructor|].
  rewrite lxor_swap, <-shiftl_lxor.
  replace (Z.lxor (if b then g else 0) (if b' then g else 0)) with (if xorb b b' then g else 0).
  - constructor. by apply IH.
  - destruct b, b'; cbn [xorb]; by rewrite ?Z.lxor_nilpotent, ?Z.lxor_0_l, ?Z.lxor_0_r.
Qed.

Lemma multiple_self g : multiple g g.
Proof. pose proof (multiple_step g 0 true (multiple_0 g)) as M. by rewrite Z.shiftl_0_l, Z.lxor_0_l in M. Qed.

Lemma testbit_width w x i : in_width w x -> 0 <= w <= i -> Z.testbit x i = false.
Proof. intros Hx Hi. rewrite <-(Z.mod_small x (2 ^ w)) by done. apply Z.mod_pow2_bits_high. lia. Qed.

Lemma in_width_bits w x :
  0 <= w -> 0 <= x -> (forall i, w <= i -> Z.testbit x i = false) -> in_width w x.
Proof.
  intros Hw Hx H. replace x with (wrap w x); [by apply wrap_in_width|].
  apply Z.bits_inj'. intros i Hi. unfold wrap. destruct (decide (i < w)).
  - by rewrite Z.mod_pow2_bits_low by lia.
  - rewrite Z.mod_pow2_bits_high by lia. by rewrite H by lia.
Qed.

(** A polynomial of degree below the divisor's is a multiple only if it is zero. *)
Lemma multiple_small w g x :
  0 <= w -> in_width (w + 1) g -> Z.testbit g w = true -> multiple g x -> in_width w x -> x = 0.
Proof.
  intros Hw Hg Ht Hx Hs.
  enough (x = 0 \/ exists i, w <= i /\ Z.testbit x i = true) as [?|(i & Hi & E)]; [done| |].
  { by rewrite (testbit_width w) in E. }
  clear Hs. induction Hx as [|x b Hx IH]; [by left|].
  destruct IH as [->|(i & Hi & E)].
  - rewrite Z.shiftl_0_l, Z.lxor_0_l. destruct b; [right; by exists w|by left].
  - right. exists (i + 1). split; [lia|]. rewrite Z.lxor_spec, Z.shiftl_spec by lia.
    replace (i + 1 - 1) with i by lia. rewrite E. destruct b; [|by rewrite Z.bits_0].
    by rewrite (testbit_width (w + 1)) by (done || lia).
Qed.

(** Division by [x] of a multiple of a polynomial with constant term one. *)
Lemma multiple_unshift g x k :
  Z.testbit g 0 = true -> 0 <= k -> multiple g (Z.shiftl x k) -> multiple g x.
Proof.
  intros Hg Hk. revert k Hk x. apply (natlike_ind (fun k => forall x, _ -> _)); [intros x; by rewrite Z.shiftl_0_r|].
  intros k Hk IH x Hx. apply IH. remember (Z.shiftl x (Z.succ k)) as y eqn:Hy.
  replace (Z.shiftl x (Z.succ k)) with (Z.shiftl (Z.shiftl x k) 1) in Hy
    by (rewrite Z.shiftl_shiftl by lia; done).
  destruct Hx as [|y b Hx].
  - replace (Z.shiftl x k) with 0; [constructor|]. rewrite Z.shiftl_mul_pow2 in Hy by lia. lia.
  - assert (b = false) as ->.
    { destruct b; [|done]. apply (f_equal (fun z => Z.testbit z 0)) in Hy.
      rewrite Z.lxor_spec, !Z.shiftl_spec_low, Hg in Hy by lia. done. }
    rewrite Z.lxor_0_r, !(Z.shiftl_mul_pow2 _ 1) in Hy by lia. assert (y = Z.shiftl x k) as <- by lia. done.
Qed.

(** ** Bit reversal *)

(** The low [n] bits of [v] in reverse order. *)
Definition mirror (n : nat) (v : Z) : Z :=
  (Nat.iter n (fun s => (Z.lor (Z.shiftl s.1 1) (Z.land s.2 1), Z.shiftr s.2 1)) (0, v)).1.

Lemma reflect_iter n v :
  let s := Nat.iter n (fun s => (Z.lor (Z.shiftl s.1 1) (Z.land s.2 1), Z.shiftr s.2 1)) (0, v) in
  s.2 = Z.shiftr v (Z.of_nat n) /\ in_width (Z.of_nat n) s.1
  /\ forall i, 0 <= i < Z.of_nat n -> Z.testbit s.1 i = Z.testbit v (Z.of_nat n - 1 - i).
Proof.
  induction n as [|n IH]; cbv zeta in *.
  - cbn [Nat.iter fst snd]. rewrite Z.shiftr_0_r. split; [done|]. split; [by split|lia].
  - change (Nat.iter (S n) ?f ?x) with (f (Nat.iter n f x)).
    destruct (Nat.iter n _ _) as [r u]; cbn [fst snd] in *. destruct IH as (-> & Hr & Hb).
    rewrite Nat2Z.inj_succ. split; [by rewrite Z.shiftr_shiftr by lia|].
    rewrite (Z.land_ones _ 1) by lia.
    assert (Hm : 0 <= Z.shiftr v (Z.of_nat n) mod 2 ^ 1 < 2 ^ 1) by (apply Z.mod_pos_bound; lia).
    rewrite (lor_shiftl_add 1 r _ ltac:(lia) Hm). change (2 ^ 1) with 2 in *. split.
    + unfold in_width in *. rewrite Z.pow_succ_r by lia. lia.
    + intros i Hi. destruct (decide (i = 0)) as [->|Hn].
      * rewrite Z.add_comm, Z.mul_comm, <-Z.bit0_mod, Z.add_b2z_double_bit0, Z.shiftr_spec by lia.
        f_equal. lia.
      * rewrite Z.mul_comm, <-Z.bit0_mod. replace i with (Z.succ (i - 1)) at 1 by lia.
        rewrite Z.testbit_succ_r, Hb by lia. f_equal. lia.
Qed.

Lemma mirror_width n v : in_width (Z.of_nat n) (mirror n v).
Proof. apply reflect_iter. Qed.

Lemma mirror_bits n v i :
  0 <= i < Z.of_nat n -> Z.testbit (mirror n v) i = Z.testbit v (Z.of_nat n - 1 - i).
Proof. apply reflect_iter. Qed.

Lemma mirror_mirror n v : in_width (Z.of_nat n) v -> mirror n (mirror n v) = v.
Proof.
  intros Hv. apply (bits_eq (Z.of_nat n)); [apply mirror_width|done|].
  intros i Hi. rewrite !mirror_bits by lia. f_equal. lia.
Qed.

Lemma mirror_lxor n a b : mirror n (Z.lxor a b) = Z.lxor (mirror n a) (mirror n b).
Proof.
  apply Z.bits_inj'. intros i Hi. rewrite Z.lxor_spec. destruct (decide (i < Z.of_nat n)).
  - by rewrite !mirror_bits, Z.lxor_spec by lia.
  - by rewrite !(testbit_width (Z.of_nat n)) by (apply mirror_width || lia).
Qed.

(** ** One byte of the CRC *)

Section Crc.
Context (p : crc_params) (Hp : crc_ok p).
#[local] Abbreviation w := (cw p).

Lemma crc_width_pos : 8 <= w <= uint_bits p.
Proof. apply Hp. Qed.

Lemma crc_mask_ones : crc_mask p = Z.ones w.
Proof.
  pose proof crc_width_pos. unfold crc_mask.
  replace (2 ^ uint_bits p - 1) with (Z.ones (uint_bits p)) by (rewrite Z.ones_equiv; lia).
  apply Z.bits_inj'. intros i Hi. rewrite Z.shiftr_spec by lia.
  rewrite !Z.testbit_ones_nonneg by lia. cmp_cases; lia.
Qed.

Lemma masked_width z : Z.land z (crc_mask p) = z -> in_width w z.
Proof.
  intros E. rewrite <-E, crc_mask_ones, Z.land_ones by (pose proof crc_width_pos; lia).
  apply wrap_in_width. pose proof crc_width_pos. lia.
Qed.

Lemma polynomial_width : in_width w (polynomial p).
Proof. apply masked_width, Hp. Qed.
Lemma initial_width : in_width w (initial p).
Proof. apply masked_width, Hp. Qed.
Lemma final_xor_width : in_width w (final_xor p).
Proof. apply masked_width, Hp. Qed.

Lemma wrap_uint z : in_width w z -> wrap (uint_bits p) z = z.
Proof.
  intros Hz. apply wrap_small. pose proof crc_width_pos. unfold in_width in *.
  assert (2 ^ w <= 2 ^ uint_bits p) by (apply Z.pow_le_mono_r; lia). lia.
Qed.

Lemma lxor_width a b : in_width w a -> in_width w b -> in_width w (Z.lxor a b).
Proof.
  intros Ha Hb. pose proof crc_width_pos. apply in_width_bits; [lia| |].
  - apply Z.lxor_nonneg. unfold in_width in *. lia.
  - intros i Hi. rewrite Z.lxor_spec, !(testbit_width w) by (done || lia). done.
Qed.

Lemma reflect_mirror v : in_width w v -> reflect p v = mirror (crc_width p) v.
Proof.
  intros Hv. unfold reflect, mirror.
  enough (forall k, (k <= crc_width p)%nat ->
    Nat.iter k (reflect_body (uint_bits p)) (0, v)
    = Nat.iter k (fun s => (Z.lor (Z.shiftl s.1 1) (Z.land s.2 1), Z.shiftr s.2 1)) (0, v)) as E by by rewrite E.
  pose proof crc_width_pos. induction k as [|k IH]; intros Hk; [done|].
  pose proof (reflect_iter (S k) v) as (R2 & R1 & _).
  change (Nat.iter (S k) ?f ?x) with (f (Nat.iter k f x)) in *. rewrite IH by lia.
  unfold reflect_body. cbn [fst snd] in *. f_equal; apply wrap_small.
  - unfold in_width in *. assert (2 ^ Z.of_nat (S k) <= 2 ^ uint_bits p) by (apply Z.pow_le_mono_r; lia). lia.
  - rewrite R2. apply in_width_bits; [lia| |].
    + apply Z.shiftr_nonneg. unfold in_width in Hv. lia.
    + intros i Hi. rewrite Z.shiftr_spec, (testbit_width w) by (done || lia). done.
Qed.

(** The divisor: the leading term is implicit in the code. *)
Definition generator : Z := 2 ^ w + polynomial p.

Lemma generator_lxor : generator = Z.lxor (Z.shiftl 1 w) (polynomial p).
Proof.
  pose proof crc_width_pos. pose proof polynomial_width as Hw. unfold generator.
  rewrite Z.add_nocarry_lxor, Z.shiftl_1_l; [done|].
  apply Z.bits_inj'. intros i Hi. rewrite Z.land_spec, Z.bits_0.
  destruct (decide (i = w)) as [->|].
  - by rewrite (testbit_width w (polynomial p)), andb_false_r by (done || lia).
  - by rewrite Z.pow2_bits_false by lia.
Qed.

Lemma generator_width : in_width (w + 1) generator.
Proof.
  pose proof crc_width_pos. pose proof polynomial_width. unfold generator, in_width in *.
  rewrite Z.pow_add_r by lia. lia.
Qed.

Lemma generator_top : Z.testbit generator w = true.
Proof.
  pose proof crc_width_pos. pose proof polynomial_width.
  rewrite generator_lxor, Z.lxor_spec, (testbit_width w (polynomial p)), Z.shiftl_spec by (done || lia).
  by rewrite Z.sub_diag.
Qed.

Lemma land_bit x k : 0 <= k -> negb (Z.land x (Z.shiftl 1 k) =? 0) = Z.testbit x k.
Proof.
  intros Hk. rewrite Z.shiftl_1_l. destruct (Z.testbit x k) eqn:E.
  - apply negb_true_iff, Z.eqb_neq. intros H. apply (f_equal (fun z => Z.testbit z k)) in H.
    rewrite Z.land_spec, Z.pow2_bits_true, E, Z.bits_0 in H by lia. done.
  - apply negb_false_iff, Z.eqb_eq. apply Z.bits_inj'. intros i Hi. rewrite Z.land_spec, Z.bits_0.
    destruct (decide (i = k)) as [->|]; [by rewrite E|]. by rewrite Z.pow2_bits_false, andb_false_r by lia.
Qed.

Lemma plain_bit_spec c :
  in_width w c ->
  plain_bit p c = Z.lxor (Z.shiftl c 1) (if Z.testbit c (w - 1) then generator else 0)
  /\ in_width w (plain_bit p c).
Proof.
  intros Hc. pose proof crc_width_pos. pose proof polynomial_width as Hpw.
  assert (M : forall z, in_width w (Z.land z (crc_mask p))).
  { intros z. rewrite crc_mask_ones, Z.land_ones by lia. apply wrap_in_width. lia. }
  unfold plain_bit. rewrite land_bit by lia.
  destruct (Z.testbit c (w - 1)) eqn:E; rewrite wrap_uint by apply M; (split; [|apply M]);
    rewrite crc_mask_ones; apply Z.bits_inj'; intros i Hi;
    rewrite ?generator_lxor, Z.land_spec, !Z.lxor_spec, ?Z.bits_0, !Z.shiftl_spec, Z.testbit_ones_nonneg by lia;
    destruct (Z.ltb_spec i w); rewrite ?andb_true_r, ?andb_false_r.
  - rewrite (Z.testbit_neg_r 1) by lia. by rewrite xorb_false_l.
  - rewrite (testbit_width w (polynomial p)) by (done || lia). rewrite xorb_false_r.
    destruct (decide (i = w)) as [->|]; [by rewrite E, Z.sub_diag|].
    rewrite (testbit_width w c) by (done || lia). destruct (i - w) eqn:?; lia || done.
  - by rewrite xorb_false_r.
  - destruct (decide (i = w)) as [->|]; [by rewrite E|]. by rewrite (testbit_width w c) by (done || lia).
Qed.

(** Congruence modulo the generator. *)
Definition congruent (a b : Z) : Prop := multiple generator (Z.lxor a b).

Lemma congruent_refl a : congruent a a.
Proof. unfold congruent. rewrite Z.lxor_nilpotent. constructor. Qed.

Lemma congruent_trans a b c : congruent a b -> congruent b c -> congruent a c.
Proof.
  unfold congruent. intros H1 H2.
  replace (Z.lxor a c) with (Z.lxor (Z.lxor a b) (Z.lxor b c)); [by apply multiple_xor|].
  apply Z.bits_inj'. intros i _. rewrite !Z.lxor_spec.
  by destruct (Z.testbit a i), (Z.testbit b i), (Z.testbit c i).
Qed.

Lemma congruent_shift a b k : 0 <= k -> congruent a b -> congruent (Z.shiftl a k) (Z.shiftl b k).
Proof. intros Hk H. unfold congruent. rewrite <-shiftl_lxor. by apply multiple_shift. Qed.

Lemma congruent_lxor a b c : congruent a b -> congruent (Z.lxor a c) (Z.lxor b c).
Proof. intros H. unfold congruent. by rewrite lxor_swap, Z.lxor_nilpotent, Z.lxor_0_r. Qed.

(** A remainder is determined by its congruence class. *)
Lemma congruent_unique a b : in_width w a -> in_width w b -> congruent a b -> a = b.
Proof.
  intros Ha Hb H. apply Z.lxor_eq. pose proof crc_width_pos.
  apply (multiple_small w generator); try done; [lia|apply generator_width|apply generator_top|].
  by apply lxor_width.
Qed.

Lemma plain_bits_spec n c :
  in_width w c ->
  congruent (Z.shiftl c (Z.of_nat n)) (Nat.iter n (plain_bit p) c) /\ in_width w (Nat.iter n (plain_bit p) c).
Proof.
  intros Hc. induction n as [|n [IH Hw]].
  - rewrite Z.shiftl_0_r. split; [apply congruent_refl|done].
  - change (Nat.iter (S n) ?f ?x) with (f (Nat.iter n f x)). destruct (plain_bit_spec _ Hw) as [E Hw'].
    split; [|done]. rewrite E, Nat2Z.inj_succ.
    replace (Z.shiftl c (Z.succ (Z.of_nat n))) with (Z.shiftl (Z.shiftl c (Z.of_nat n)) 1)
      by (rewrite Z.shiftl_shiftl by lia; done).
    eapply congruent_trans; [apply congruent_shift; [lia|exact IH]|]. unfold congruent.
    rewrite <-Z.lxor_assoc, Z.lxor_nilpotent, Z.lxor_0_l.
    destruct (Z.testbit _ _); [apply multiple_self|constructor].
Qed.

Definition plain_byte (c v : Z) : Z :=
  Nat.iter 8 (plain_bit p) (Z.lxor c (Z.shiftl v (w - 8))).

Lemma top_byte_width v : u8 v -> in_width w (Z.shiftl v (w - 8)).
Proof.
  intros Hv. pose proof crc_width_pos. rewrite Z.shiftl_mul_pow2 by lia. unfold in_width in *.
  replace (2 ^ w) with (2 ^ 8 * 2 ^ (w - 8)) by (rewrite <-Z.pow_add_r by lia; f_equal; lia). nia.
Qed.

Lemma plain_byte_spec c v :
  in_width w c -> u8 v ->
  congruent (Z.lxor (Z.shiftl c 8) (Z.shiftl v w)) (plain_byte c v) /\ in_width w (plain_byte c v).
Proof.
  intros Hc Hv. pose proof crc_width_pos.
  destruct (plain_bits_spec 8 (Z.lxor c (Z.shiftl v (w - 8)))) as [E Hw].
  { apply lxor_width; [done|by apply top_byte_width]. }
  split; [|done]. change (Z.of_nat 8) with 8 in E. rewrite shiftl_lxor, (Z.shiftl_shiftl v) in E by lia.
  by replace (w - 8 + 8) with w in E by lia.
Qed.

(** The engine that shifts right is the mirror image of the one that shifts left. *)
Lemma reflected_bit_mirror c :
  in_width w c -> reflected_bit p (mirror (crc_width p) c) = mirror (crc_width p) (plain_bit p c).
Proof.
  intros Hc. pose proof crc_width_pos. pose proof polynomial_width as Hpw.
  destruct (plain_bit_spec c Hc) as [E Hw]. unfold reflected_bit, reflected_polynomial.
  rewrite (land_bit _ 0), mirror_bits, reflect_mirror by (done || lia).
  replace (w - 1 - 0) with (w - 1) by lia.
  assert (S : in_width w (Z.shiftr (mirror (crc_width p) c) 1)).
  { pose proof (mirror_width (crc_width p) c) as Hm. rewrite Z.shiftr_div_pow2 by lia. unfold in_width in *.
    change (2 ^ 1) with 2. Z.div_mod_to_equations. lia. }
  assert (F : forall b : bool,
    Z.lxor (Z.shiftr (mirror (crc_width p) c) 1) (if b then mirror (crc_width p) (polynomial p) else 0)
    = mirror (crc_width p) (Z.lxor (Z.shiftl c 1) (if b then generator else 0))).
  { intros b. apply (bits_eq w); [apply lxor_width; [done|destruct b; [apply mirror_width|]]|apply mirror_width|].
    { unfold in_width. lia. }
    intros i Hi. rewrite mirror_bits, !Z.lxor_spec, Z.shiftr_spec, Z.shiftl_spec by lia. f_equal.
    - destruct (decide (i = w - 1)) as [->|].
      + rewrite (testbit_width w), Z.testbit_neg_r by (apply mirror_width || lia). done.
      + rewrite mirror_bits by lia. f_equal. lia.
    - destruct b; [|by rewrite !Z.bits_0].
      rewrite mirror_bits, generator_lxor, Z.lxor_spec, Z.shiftl_spec, (Z.testbit_neg_r 1) by lia.
      by rewrite xorb_false_l. }
  rewrite E. specialize (F (Z.testbit c (w - 1))). destruct (Z.testbit c (w - 1)).
  - rewrite wrap_uint; [exact F|]. apply lxor_width; [done|apply mirror_width].
  - rewrite Z.lxor_0_r in F. by rewrite wrap_uint.
Qed.

Definition register (r : Z) : Z := if reflect_input p then mirror (crc_width p) r else r.
Definition wire_byte (v : Z) : Z := if reflect_input p then mirror 8 v else v.

Lemma wire_byte_u8 v : u8 v -> u8 (wire_byte v).
Proof. unfold wire_byte. destruct (reflect_input p); [intros; apply mirror_width|done]. Qed.

Lemma update_byte_register c v :
  in_width w c -> u8 v -> update_byte p (register c) v = register (plain_byte c (wire_byte v)).
Proof.
  intros Hc Hv. pose proof crc_width_pos. pose proof (wire_byte_u8 v Hv) as Hb.
  unfold update_byte, register, wire_byte, plain_byte in *. destruct (reflect_input p).
  - assert (X : Z.lxor (mirror (crc_width p) c) v
                = mirror (crc_width p) (Z.lxor c (Z.shiftl (mirror 8 v) (w - 8)))).
    { rewrite mirror_lxor. f_equal. apply (bits_eq w).
      - unfold in_width in *. assert (2 ^ 8 <= 2 ^ w) by (apply Z.pow_le_mono_r; lia). lia.
      - apply mirror_width.
      - intros i Hi. rewrite mirror_bits, Z.shiftl_spec by lia. destruct (decide (i < 8)).
        + rewrite mirror_bits by lia. f_equal. lia.
        + rewrite (testbit_width 8), Z.testbit_neg_r by (done || lia). done. }
    rewrite X, wrap_uint by apply mirror_width.
    assert (Hs : in_width w (Z.lxor c (Z.shiftl (mirror 8 v) (w - 8))))
      by (apply lxor_width; [done|by apply top_byte_width]).
    generalize dependent (Z.lxor c (Z.shiftl (mirror 8 v) (w - 8))). intros d _ Hs. generalize 8%nat.
    intros n. induction n as [|n IH]; [done|].
    change (Nat.iter (S n) ?f ?x) with (f (Nat.iter n f x)). rewrite IH.
    apply reflected_bit_mirror, plain_bits_spec, Hs.
  - rewrite wrap_uint; [done|]. apply lxor_width; [done|by apply top_byte_width].
Qed.

(** The message as a polynomial, first bit of the first byte on top. *)
Definition message (bs : list Z) : Z := foldl (fun a b => Z.lxor (Z.shiftl a 8) (wire_byte b)) 0 bs.
(** Its dividend: the message moved up by the width, the initial register under
    its leading bits. *)
Definition dividend (bs : list Z) : Z :=
  Z.lxor (Z.shiftl (message bs) w) (Z.shiftl (register (initial p)) (8 * Z.of_nat (length bs))).

Lemma register_involutive c : in_width w c -> register (register c) = c.
Proof. intros Hc. unfold register. destruct (reflect_input p); [by apply mirror_mirror|done]. Qed.

Lemma register_width c : in_width w c -> in_width w (register c).
Proof. intros Hc. unfold register. destruct (reflect_input p); [apply mirror_width|done]. Qed.

Lemma crc_fold bs :
  Forall u8 bs ->
  exists r, foldl (update_byte p) (initial p) bs = register r /\ in_width w r /\ congruent (dividend bs) r.
Proof.
  induction bs as [|v bs IH] using rev_ind; intros Hb; pose proof crc_width_pos.
  - exists (register (initial p)). pose proof initial_width. split; [cbn; by rewrite register_involutive|].
    split; [by apply register_width|]. unfold dividend, message. cbn [foldl length].
    rewrite Z.shiftl_0_l, Z.lxor_0_l, Z.shiftl_0_r. apply congruent_refl.
  - apply Forall_app in Hb as [Hb Hv]. apply Forall_cons in Hv as [Hv _].
    destruct (IH Hb) as (r & E & Hr & C). destruct (plain_byte_spec r (wire_byte v) Hr (wire_byte_u8 v Hv)) as [C' Hr'].
    exists (plain_byte r (wire_byte v)). rewrite foldl_app. cbn [foldl]. rewrite E, update_byte_register by done.
    split; [done|]. split; [done|]. eapply congruent_trans; [|exact C'].
    unfold dividend, message. rewrite foldl_app, length_app. cbn [foldl length].
    rewrite shiftl_lxor, Z.shiftl_shiftl, Z.add_comm by lia.
    replace (8 * Z.of_nat (length bs + 1)) with (8 * Z.of_nat (length bs) + 8) by lia.
    rewrite <-(Z.shiftl_shiftl (foldl _ _ _)), <-(Z.shiftl_shiftl (register _)) by lia.
    rewrite Z.lxor_assoc, (Z.lxor_comm (Z.shiftl (wire_byte v) w)), <-Z.lxor_assoc, <-shiftl_lxor.
    apply congruent_lxor, congruent_shift; [lia|exact C].
Qed.
End Crc.

(** ** Fletcher sums *)

Section FletcherSums.
Context (bytes : Z) (LittleEndian : bool) (Hbytes : bytes ∈ [2; 4; 8]).
#[local] Abbreviation B := (block_size bytes).
#[local] Abbreviation h := (half_bits bytes).
#[local] Abbreviation fmod := (2 ^ h - 1).

Lemma fletcher_widths : 1 <= B <= 4 /\ bytes = 2 * B /\ h = 8 * B.
Proof.
  unfold half_bits, block_size. rewrite !elem_of_cons, elem_of_nil in Hbytes.
  destruct Hbytes as [->|[->|[->|[]]]]; vm_compute; intuition discriminate.
Qed.

Lemma uint_half z : 0 <= z < 2 ^ h * 2 ^ h -> uint bytes z = z.
Proof.
  intros Hz. apply wrap_small. destruct fletcher_widths as (? & ? & ?).
  unfold in_width. rewrite <-Z.pow_add_r in Hz by lia.
  by replace (8 * bytes) with (h + h) by lia.
Qed.

Lemma half_pow : 256 <= 2 ^ h.
Proof. destruct fletcher_widths as (? & _ & ->). change 256 with (2 ^ 8). apply Z.pow_le_mono_r; lia. Qed.

Lemma modulus_val : modulus bytes = fmod.
Proof.
  pose proof half_pow. unfold modulus. fold (uint bytes (Z.shiftl 1 h - 1)).
  rewrite Z.shiftl_1_l. apply uint_half. nia.
Qed.

Lemma reduce_mod z : 0 <= z < 2 * fmod -> reduce bytes (uint bytes z) = z mod fmod.
Proof.
  intros Hz. pose proof half_pow. rewrite uint_half by nia. unfold reduce. rewrite modulus_val.
  destruct (Z.leb_spec fmod z).
  - rewrite uint_half by nia. symmetry. rewrite <-(Z.mod_add z (-1)) by lia. rewrite Z.mod_small; lia.
  - by rewrite Z.mod_small by lia.
Qed.

Lemma accumulate_mod s b :
  0 <= s.1 < fmod -> 0 <= s.2 < fmod -> 0 <= b <= fmod ->
  accumulate bytes s b = ((s.1 + b) mod fmod, (s.2 + (s.1 + b) mod fmod) mod fmod).
Proof.
  intros H1 H2 Hb. unfold accumulate. cbv zeta. rewrite reduce_mod by lia.
  assert (0 <= (s.1 + b) mod fmod < fmod) by (apply Z.mod_pos_bound; lia).
  by rewrite reduce_mod by lia.
Qed.

(** The sum of the blocks, and of its prefix sums: the first block counts as often
    as there are blocks. *)
Definition plain_sum (vs : list Z) : Z := foldr Z.add 0 vs.
Fixpoint weighted_sum (vs : list Z) : Z :=
  match vs with [] => 0 | v :: vs => Z.of_nat (S (length vs)) * v + weighted_sum vs end.

Lemma plain_sum_snoc vs v : plain_sum (vs ++ [v]) = plain_sum vs + v.
Proof. unfold plain_sum. induction vs as [|u vs IH]; cbn [app foldr]; lia. Qed.

Lemma weighted_sum_snoc vs v : weighted_sum (vs ++ [v]) = weighted_sum vs + plain_sum vs + v.
Proof.
  induction vs as [|u vs IH]; cbn [app weighted_sum plain_sum foldr length]; [lia|].
  rewrite IH, length_app. cbn [length]. unfold plain_sum. lia.
Qed.

Lemma accumulate_all vs :
  Forall (fun v => 0 <= v <= fmod) vs ->
  foldl (accumulate bytes) (0, 0) vs = (plain_sum vs mod fmod, weighted_sum vs mod fmod).
Proof.
  pose proof half_pow. induction vs as [|v vs IH] using rev_ind; intros Hv; [done|].
  apply Forall_app in Hv as [Hv Hl]. apply Forall_cons in Hl as [Hl _].
  rewrite foldl_app, IH by done. cbn [foldl]. rewrite accumulate_mod by (cbn; apply Z.mod_pos_bound || done; lia).
  cbn [fst snd]. rewrite plain_sum_snoc, weighted_sum_snoc, Z.add_mod_idemp_l by lia. f_equal.
  rewrite Z.add_mod_idemp_r, Z.add_mod_idemp_l by lia. f_equal. lia.
Qed.

(** The value of the bytes of a block, in the byte order of the class. *)
Definition block_value (g : list Z) : Z := le_val 256 (if LittleEndian then g else reverse g).

Lemma block_value_bound g :
  Forall u8 g -> 0 <= block_value g < 256 ^ Z.of_nat (length g).
Proof.
  intros Hg. unfold block_value. destruct LittleEndian; [by apply le_val_bound|].
  rewrite <-length_reverse. apply le_val_bound; [lia|]. by apply Forall_reverse.
Qed.

Lemma block_value_fits g :
  Forall u8 g -> Z.of_nat (length g) <= B -> 0 <= block_value g <= fmod.
Proof.
  intros Hg Hl. destruct fletcher_widths as (? & _ & E). pose proof (block_value_bound g Hg).
  assert (256 ^ Z.of_nat (length g) <= 2 ^ h); [|lia]. change 256 with (2 ^ 8).
  rewrite <-Z.pow_mul_r, E by lia. apply Z.pow_le_mono_r; lia.
Qed.

(** One more byte of a block. *)
Lemma block_value_snoc g v :
  block_value (g ++ [v]) = if LittleEndian then block_value g + v * 256 ^ Z.of_nat (length g)
                           else block_value g * 256 + v.
Proof.
  unfold block_value. destruct LittleEndian.
  - induction g as [|u g IH]; cbn [app le_val length]; [cbn; lia|].
    rewrite IH, Nat2Z.inj_succ, Z.pow_succ_r by lia. lia.
  - rewrite reverse_app. cbn. lia.
Qed.

Lemma push_pending g v s1 s2 :
  Forall u8 g -> u8 v -> Z.of_nat (length g) < B ->
  push_byte bytes LittleEndian (mk_fletcher s1 s2 (block_value g) (Z.of_nat (length g))) v
  = if Z.of_nat (length g) + 1 =? B
    then let s := accumulate bytes (s1, s2) (block_value (g ++ [v])) in mk_fletcher s.1 s.2 0 0
    else mk_fletcher s1 s2 (block_value (g ++ [v])) (Z.of_nat (length (g ++ [v]))).
Proof.
  intros Hg Hv Hl. destruct fletcher_widths as (? & Hbb & Eh).
  pose proof (block_value_bound g Hg) as Hb. pose proof half_pow.
  assert (Hpow : 256 ^ Z.of_nat (length g) * 256 <= 2 ^ h).
  { change 256 with (2 ^ 8).
    rewrite <-Z.pow_mul_r, <-Z.pow_add_r, Eh by lia. apply Z.pow_le_mono_r; lia. }
  assert (0 < 256 ^ Z.of_nat (length g)) by (apply Z.pow_pos_nonneg; lia).
  assert (Hp : (if LittleEndian
      then uint bytes (Z.lor (block_value g) (uint bytes (Z.shiftl v (Z.of_nat (length g) * 8))))
      else uint bytes (Z.lor (uint bytes (Z.shiftl (block_value g) 8)) v)) = block_value (g ++ [v])).
  { rewrite block_value_snoc. change u8 with (in_width 8) in Hv. unfold in_width in Hv. change (2 ^ 8) with 256 in Hv.
    destruct LittleEndian.
    - assert (E2 : 256 ^ Z.of_nat (length g) = 2 ^ (Z.of_nat (length g) * 8)).
      { change 256 with (2 ^ 8). rewrite <-Z.pow_mul_r by lia. f_equal. lia. }
      rewrite E2 in *. rewrite (uint_half (Z.shiftl _ _)) by (rewrite Z.shiftl_mul_pow2 by lia; nia).
      rewrite lor_add_shiftl by lia. apply uint_half. nia.
    - rewrite (uint_half (Z.shiftl _ _)) by (rewrite Z.shiftl_mul_pow2 by lia; change (2 ^ 8) with 256; nia).
      rewrite lor_shiftl_add by (change (2 ^ 8) with 256; lia). apply uint_half. change (2 ^ 8) with 256. nia. }
  unfold push_byte. cbn [sum1 sum2 pending pending_size]. rewrite Hp, length_app. cbn [length].
  rewrite Nat2Z.inj_add. done.
Qed.

Lemma push_partial g s1 s2 :
  Forall u8 g -> Z.of_nat (length g) < B ->
  foldl (push_byte bytes LittleEndian) (mk_fletcher s1 s2 0 0) g
  = mk_fletcher s1 s2 (block_value g) (Z.of_nat (length g)).
Proof.
  induction g as [|v g IH] using rev_ind; intros Hg Hl.
  { unfold block_value. by destruct LittleEndian. }
  apply Forall_app in Hg as [Hg Hv]. apply Forall_cons in Hv as [Hv _].
  rewrite length_app in Hl. cbn [length] in Hl. rewrite foldl_app, IH by (done || lia).
  cbn [foldl]. rewrite push_pending by (done || lia). by rewrite (proj2 (Z.eqb_neq _ _)) by lia.
Qed.

Lemma push_block g s1 s2 :
  Forall u8 g -> Z.of_nat (length g) = B ->
  foldl (push_byte bytes LittleEndian) (mk_fletcher s1 s2 0 0) g
  = let s := accumulate bytes (s1, s2) (block_value g) in mk_fletcher s.1 s.2 0 0.
Proof.
  destruct fletcher_widths as (? & _ & _).
  destruct g as [|v g _] using rev_ind; intros Hg Hl; [cbn in Hl; lia|].
  apply Forall_app in Hg as [Hg Hv]. apply Forall_cons in Hv as [Hv _].
  rewrite length_app in Hl. cbn [length] in Hl. rewrite foldl_app, push_partial by (done || lia).
  cbn [foldl]. rewrite push_pending by (done || lia). by rewrite (proj2 (Z.eqb_eq _ _)) by lia.
Qed.

Lemma push_blocks gs : forall s,
  Forall (fun g => Forall u8 g /\ Z.of_nat (length g) = B) gs ->
  foldl (push_byte bytes LittleEndian) (mk_fletcher s.1 s.2 0 0) (concat gs)
  = let s := foldl (accumulate bytes) s (map block_value gs) in mk_fletcher s.1 s.2 0 0.
Proof.
  induction gs as [|g gs IH]; intros s Hg; cbn [concat map foldl]; [done|].
  apply Forall_cons in Hg as [[Hu Hl] Hg]. rewrite foldl_app, push_block by done. cbv zeta.
  rewrite IH by done. by destruct s.
Qed.

(** A partial last block is completed with zero bytes. *)
Definition last_block (tail : list Z) : list Z :=
  match tail with
  | [] => []
  | _ => [block_value (tail ++ replicate (Z.to_nat B - length tail) 0)]
  end.

Lemma block_value_padded tail :
  Forall u8 tail -> Z.of_nat (length tail) < B ->
  (if LittleEndian then block_value tail
   else uint bytes (Z.shiftl (block_value tail) ((B - Z.of_nat (length tail)) * 8)))
  = block_value (tail ++ replicate (Z.to_nat B - length tail) 0).
Proof.
  intros Hu Hl. destruct fletcher_widths as (? & Hbb & Eh). pose proof (block_value_bound tail Hu) as Hb.
  assert (Hz : forall n g, block_value (g ++ replicate n 0)
    = if LittleEndian then block_value g else block_value g * 256 ^ Z.of_nat n).
  { intros n. induction n as [|n IH]; intros g.
    - cbn [replicate]. rewrite app_nil_r, Z.pow_0_r. by destruct LittleEndian; lia.
    - replace (g ++ replicate (S n) 0) with ((g ++ [0]) ++ replicate n 0) by (cbn; by rewrite <-app_assoc).
      rewrite IH, block_value_snoc, Nat2Z.inj_succ, Z.pow_succ_r by lia. destruct LittleEndian; lia. }
  rewrite Hz. destruct LittleEndian; [done|]. rewrite Z.shiftl_mul_pow2 by lia.
  replace (2 ^ ((B - Z.of_nat (length tail)) * 8)) with (256 ^ Z.of_nat (Z.to_nat B - length tail)).
  - apply uint_half. split; [apply Z.mul_nonneg_nonneg; [lia|apply Z.pow_nonneg; lia]|].
    pose proof half_pow. enough (block_value tail * 256 ^ Z.of_nat (Z.to_nat B - length tail) < 2 ^ h) by nia.
    rewrite Eh. replace (2 ^ (8 * B)) with (256 ^ Z.of_nat (length tail) * 256 ^ Z.of_nat (Z.to_nat B - length tail)).
    + apply Z.mul_lt_mono_pos_r; [apply Z.pow_pos_nonneg; lia|lia].
    + rewrite <-Z.pow_add_r by lia. change 256 with (2 ^ 8). rewrite <-Z.pow_mul_r by lia. f_equal. lia.
  - change 256 with (2 ^ 8). rewrite <-Z.pow_mul_r by lia. f_equal. lia.
Qed.

Lemma fletcher_value_sums gs tail :
  Forall (fun g => Forall u8 g /\ Z.of_nat (length g) = B) gs -> Forall u8 tail ->
  Z.of_nat (length tail) < B ->
  let vs := map block_value gs ++ last_block tail in
  fletcher_value bytes LittleEndian (foldl (push_byte bytes LittleEndian) fletcher_new (concat gs ++ tail))
  = (weighted_sum vs mod fmod) * 2 ^ h + plain_sum vs mod fmod.
Proof.
  intros Hg Hu Hl. cbv zeta. destruct fletcher_widths as (? & _ & _). pose proof half_pow.
  assert (Hv : Forall (fun v => 0 <= v <= fmod) (map block_value gs ++ last_block tail)).
  { apply Forall_app. split.
    - apply Forall_map. eapply Forall_impl; [exact Hg|]. intros g [Hgu Hgl]. apply block_value_fits; [done|lia].
    - unfold last_block. destruct tail as [|t tail]; [constructor|]. constructor; [|constructor].
      apply block_value_fits; [apply Forall_app; split; [done|]|].
      + apply Forall_replicate. unfold in_width. lia.
      + rewrite length_app, length_replicate. lia. }
  pose proof (push_blocks gs (0, 0) Hg) as Eb. cbn [fst snd] in Eb.
  rewrite foldl_app. unfold fletcher_new. rewrite Eb. cbv zeta. rewrite push_partial by done.
  unfold fletcher_value. cbn [sum1 sum2 pending pending_size].
  pose proof (accumulate_all _ Hv) as Ea. rewrite foldl_app in Ea.
  assert (Hs : (if negb (Z.of_nat (length tail) =? 0) then
      accumulate bytes (foldl (accumulate bytes) (0, 0) (map block_value gs))
        (if LittleEndian then block_value tail
         else uint bytes (Z.shiftl (block_value tail) ((B - Z.of_nat (length tail)) * 8)))
      else foldl (accumulate bytes) (0, 0) (map block_value gs))
    = foldl (accumulate bytes) (foldl (accumulate bytes) (0, 0) (map block_value gs)) (last_block tail)).
  { unfold last_block. destruct tail as [|t tail]; [done|]. cbn [foldl].
    rewrite <-block_value_padded by done. done. }
  rewrite <-!surjective_pairing, Hs, Ea. cbn [fst snd].
  assert (0 <= weighted_sum (map block_value gs ++ last_block tail) mod fmod < fmod) by (apply Z.mod_pos_bound; lia).
  assert (0 <= plain_sum (map block_value gs ++ last_block tail) mod fmod < fmod) by (apply Z.mod_pos_bound; lia).
  rewrite (uint_half (Z.shiftl _ _)) by (rewrite Z.shiftl_mul_pow2 by (unfold half_bits; lia); nia).
  rewrite lor_shiftl_add by (unfold half_bits in *; lia). apply uint_half. nia.
Qed.
End FletcherSums.

(** ** The CRCs that are shipped *)

Definition shipped_crcs : list crc_params := [crc8; crc16; crc24q; crc32; crc64].

Lemma shipped_crcs_ok p : p ∈ shipped_crcs -> crc_ok p /\ Z.testbit (polynomial p) 0 = true.
Proof.
  unfold shipped_crcs. rewrite !elem_of_cons, elem_of_nil.
  intros [->|[->|[->|[->|[->|[]]]]]]; (split; [split; [cbn; lia|]|]; vm_compute; auto).
Qed.

Section CrcValue.
Context (p : crc_params) (Hp : crc_ok p).

(** The register as the caller sees it. *)
Definition presented (r : Z) : Z :=
  Z.lxor (if reflect_output p then mirror (crc_width p) r else r) (final_xor p).

Lemma finalize_register r : in_width (cw p) r -> finalize p (register p r) = presented r.
Proof.
  intros Hr. unfold finalize, register, presented. pose proof (final_xor_width p Hp).
  destruct (reflect_input p), (reflect_output p); cbn [Bool.eqb negb]; cbv zeta;
    rewrite ?reflect_mirror by (done || apply mirror_width); rewrite ?mirror_mirror by done;
    apply wrap_uint; try done; apply lxor_width; try done; apply mirror_width.
Qed.

Lemma presented_inj r r' :
  in_width (cw p) r -> in_width (cw p) r' -> presented r = presented r' -> r = r'.
Proof.
  intros Hr Hr' E. unfold presented in E. apply Z.lxor_eq.
  apply (f_equal (fun z => Z.lxor z (final_xor p))) in E.
  rewrite !Z.lxor_assoc, Z.lxor_nilpotent, !Z.lxor_0_r in E.
  destruct (reflect_output p).
  - apply (f_equal (mirror (crc_width p))) in E. rewrite !mirror_mirror in E by done.
    subst. apply Z.lxor_nilpotent.
  - subst. apply Z.lxor_nilpotent.
Qed.

Lemma calculate_remainder bs :
  Forall u8 bs ->
  exists r, crc_calculate p (Some bs) (length bs) = Done (presented r) /\ in_width (cw p) r
    /\ congruent p (dividend p bs) r.
Proof.
  intros Hb. destruct (crc_fold p Hp bs Hb) as (r & E & Hr & C). exists r.
  unfold crc_calculate, crc_update. rewrite update_whole. exec_simpl. unfold crc_value.
  by rewrite E, finalize_register.
Qed.

Lemma congruent_sym a b : congruent p a b -> congruent p b a.
Proof. unfold congruent. by rewrite Z.lxor_comm. Qed.

Lemma dividend_difference a b :
  length a = length b ->
  Z.lxor (dividend p a) (dividend p b) = Z.shiftl (Z.lxor (message p a) (message p b)) (cw p).
Proof.
  intros E. unfold dividend. rewrite lxor_swap, E, Z.lxor_nilpotent, Z.lxor_0_r. by rewrite shiftl_lxor.
Qed.
End CrcValue.

(** ** Properties *)

(** C38.  The CRC engine divides polynomials: for every choice of template arguments
    the class accepts, and however the data is cut into [update] calls, the
    register ends with the remainder of the message polynomial (moved up by the
    width and combined with the initial value) modulo [x^width + Polynomial], the
    only polynomial of smaller degree in its class; bytes and register are
    mirrored for the reflected engines, and [value] presents the remainder
    mirrored or not and combined with the final xor.  One-shot [calculate] agrees
    with every chunked run. *)
Theorem crc_polynomial_remainder (p : crc_params) (chunks : list (list Z)) :
  crc_ok p -> Forall (Forall u8) chunks ->
  let bs := concat chunks in
  exists s r,
    update_chunks (update_byte p) chunks (initial p) = Done s
    /\ s = register p r /\ in_width (cw p) r
    /\ congruent p (dividend p bs) r
    /\ (forall r', in_width (cw p) r' -> congruent p (dividend p bs) r' -> r' = r)
    /\ crc_value p s = Z.lxor (if reflect_output p then mirror (crc_width p) r else r) (final_xor p)
    /\ crc_calculate p (Some bs) (length bs) = Done (crc_value p s).
Proof.
  intros Hp Hc. cbv zeta. assert (Hb : Forall u8 (concat chunks)) by by apply Forall_concat.
  destruct (crc_fold p Hp _ Hb) as (r & E & Hr & C). exists (register p r), r.
  rewrite update_chunks_fold, E. repeat split; try done; try apply Hr.
  - intros r' Hr' C'. apply (congruent_unique p Hp); [done|done|].
    eapply congruent_trans; [by apply congruent_sym|done].
  - by apply finalize_register.
  - unfold crc_calculate, crc_update. rewrite update_whole. exec_simpl. by rewrite E.
Qed.

Lemma crc_polynomial_remainder_witness :
  crc_calculate crc16 (Some (chars "123456789")) 9 = Done 10673
  /\ exists r, congruent crc16 (dividend crc16 (chars "123456789")) r
       /\ Done (Z.lxor r 0) = crc_calculate crc16 (Some (chars "123456789")) 9.
Proof.
  split; [vm_compute; reflexivity|].
  destruct (crc_polynomial_remainder crc16 [chars "1234"; chars "56789"]) as (s & r & _ & _ & _ & C & _ & V & K).
  - apply shipped_crcs_ok. unfold shipped_crcs. rewrite !elem_of_cons. auto 6.
  - repeat constructor; unfold in_width; lia.
  - exists r. split; [exact C|]. symmetry. etransitivity; [exact K|]. by f_equal.
Defined.

(**  Each of the shipped CRCs (crc8, crc16, crc24q, crc32, crc64) detects every
    burst error: if two messages of the same length differ, and all differing
    bits, in transmission order, lie within a window no longer than the CRC's
    width, their CRCs differ. *)
Theorem crc_detects_bursts (p : crc_params) (a b : list Z) (e k : Z) :
  p ∈ shipped_crcs -> Forall u8 a -> Forall u8 b -> length a = length b ->
  Z.lxor (message p a) (message p b) = Z.shiftl e k -> 0 <= k -> 0 < e < 2 ^ cw p ->
  crc_calculate p (Some a) (length a) <> crc_calculate p (Some b) (length b).
Proof.
  intros Hin Ha Hb Hl Hm Hk He. destruct (shipped_crcs_ok p Hin) as [Hp Hodd].
  pose proof (crc_width_pos p Hp).
  destruct (calculate_remainder p Hp a Ha) as (r & -> & Hr & Cr).
  destruct (calculate_remainder p Hp b Hb) as (r' & -> & Hr' & Cr').
  intros [= E]. apply presented_inj in E as ->; try done.
  assert (C : congruent p (dividend p a) (dividend p b)).
  { eapply congruent_trans; [exact Cr|by apply congruent_sym]. }
  unfold congruent in C. rewrite dividend_difference, Hm, Z.shiftl_shiftl in C by (done || lia).
  apply multiple_unshift in C; [| |lia].
  - apply (multiple_small (cw p)) in C; [lia|lia|by apply generator_width|by apply generator_top|].
    unfold in_width. lia.
  - rewrite generator_lxor, Z.lxor_spec, Z.shiftl_spec, Z.testbit_neg_r, Hodd by (done || lia). done.
Qed.

Lemma crc_detects_bursts_witness :
  crc_calculate crc32 (Some [1; 2; 3]) 3 <> crc_calculate crc32 (Some [1; 253; 252]) 3.
Proof.
  apply (crc_detects_bursts crc32 [1; 2; 3] [1; 253; 252] 65535 0).
  - unfold shipped_crcs. rewrite !elem_of_cons. auto 6.
  - repeat constructor; unfold in_width; lia.
  - repeat constructor; unfold in_width; lia.
  - reflexivity.
  - vm_compute. reflexivity.
  - lia.
  - cbn. lia.
Defined.

(**  The Fletcher checksums are exact: for the 16, 32 and 64 bit classes and both
    byte orders, the data being any number of full blocks and a shorter rest
    (completed with zero bytes), [calculate] and every chunked run return the sum
    of the blocks and, in the upper half, the sum weighted by position, both
    modulo [2^h - 1] and fully reduced: the one conditional subtraction per block
    suffices and nothing overflows. *)
Theorem fletcher_exact (bytes : Z) (LittleEndian : bool) (gs chunks : list (list Z)) (tail : list Z) :
  bytes ∈ [2; 4; 8] ->
  Forall (fun g => Forall u8 g /\ Z.of_nat (length g) = block_size bytes) gs ->
  Forall u8 tail -> Z.of_nat (length tail) < block_size bytes ->
  concat chunks = concat gs ++ tail ->
  let bs := concat chunks in
  let h := half_bits bytes in
  let vs := map (block_value LittleEndian) gs ++ last_block bytes LittleEndian tail in
  let v := (weighted_sum vs mod (2 ^ h - 1)) * 2 ^ h + plain_sum vs mod (2 ^ h - 1) in
  fletcher_calculate bytes LittleEndian (Some bs) (length bs) = Done v
  /\ exists f, update_chunks (push_byte bytes LittleEndian) chunks fletcher_new = Done f
       /\ fletcher_value bytes LittleEndian f = v.
Proof.
  intros Hb Hg Ht Hl Hc. cbv zeta. pose proof (fletcher_value_sums bytes LittleEndian Hb gs tail Hg Ht Hl) as E.
  cbv zeta in E. rewrite <-E, <-Hc. split.
  - unfold fletcher_calculate, fletcher_update. by rewrite update_whole.
  - eexists. by rewrite update_chunks_fold.
Qed.

Lemma fletcher_exact_witness :
  fletcher_calculate 4 true (Some (chars "abcde")) 5 = Done 4031760169.
Proof.
  destruct (fletcher_exact 4 true [chars "ab"; chars "cd"] [chars "a"; chars "bcde"] (chars "e")) as [E _].
  - rewrite !elem_of_cons. auto.
  - repeat constructor; unfold in_width; lia.
  - repeat constructor; unfold in_width; lia.
  - vm_compute. reflexivity.
  - reflexivity.
  - exact E.
Defined.
