(* ===== verification/DnsName.v ===== *)
(** * Domain names and queries (castle_ext/protocols/dns/message.hpp)

    The decoder of (compressed) names and the encoder of queries.  The reference is the
    wire format of RFC 1035: a name is a sequence of labels, each with its length in
    front, ended by the root or by a pointer to an earlier name. *)

From S2P Require Import Prelude Status Bytes Words.
Open Scope Z_scope.

Abbreviation c_period := 46.

Definition header_size : nat := 12.
Definition max_message_size : Z := 65535.

(** ** The code *)

(** The variables of the loop of [decode_name]. *)
Record name_state : Type := mk_name_state {
  cursor : nat; output : list Z; output_size : nat; hops : nat; expanded_wire_size : nat;
  jumped : bool; finished : bool; consumed : nat }.

(** The characters of a label, checked and copied. *)
Definition copy_label (data : list Z) (cursor length : nat) (output : list Z) (output_size : nat) : exec (ctl (list Z) (list Z * nat)) :=
  for_range 0 length (fun i '(output, output_size) =>
    c ← load data (cursor + i);
    if (c =? 0) || (127 <? c) then Done (Return output)
    else output ← store output output_size c; Done (Next (output, (output_size + 1)%nat))) (output, output_size).

(** The dot between labels: [None] when it does not fit. *)
Definition put_dot (output : list Z) (output_size capacity : nat) : exec (option (list Z * nat)) :=
  if (output_size =? 0)%nat then Done (Some (output, output_size))
  else if (capacity <=? output_size + 1)%nat then Done None
  else output ← store output output_size c_period; Done (Some (output, (output_size + 1)%nat)).

Definition name_body (data : list Z) (size capacity : nat) (st : name_state) : exec (ctl (status * list Z * nat) name_state) :=
  let stop s out := Done (Return (s, out, consumed st)) in
  if (size <=? cursor st)%nat || (128 <? hops st + 1)%nat then stop s_invalid_argument (output st)
  else
    let hops := (hops st + 1)%nat in
    length ← load data (cursor st);
    if Z.land length 0xC0 =? 0xC0 then
      if (size <=? cursor st + 1)%nat then stop s_invalid_argument (output st)
      else
        low ← load data (cursor st + 1);
        let pointer := Z.to_nat (to_u16 (Z.lor (Z.shiftl (Z.land length 0x3F) 8) low)) in
        if (size <=? pointer)%nat || (cursor st <=? pointer)%nat then stop s_invalid_argument (output st)
        else
          Done (Next (mk_name_state pointer (output st) (output_size st) hops (expanded_wire_size st) true false
                        (if jumped st then consumed st else consumed st + 2)%nat))
    else if negb (Z.land length 0xC0 =? 0) || (63 <? length) then stop s_invalid_argument (output st)
    else
      let cursor := (cursor st + 1)%nat in
      let consumed := (if jumped st then consumed st else consumed st + 1)%nat in
      let stop s out := Done (Return (s, out, consumed)) in
      if (255 <=? expanded_wire_size st)%nat then stop s_invalid_argument (output st)
      else
        let expanded := (expanded_wire_size st + 1)%nat in
        if length =? 0 then
          Done (Next (mk_name_state cursor (output st) (output_size st) hops expanded (jumped st) true consumed))
        else
          let n := Z.to_nat length in
          if (size <? cursor)%nat || (size - cursor <? n)%nat || (255 <? expanded + n)%nat then stop s_invalid_argument (output st)
          else
            d ← put_dot (output st) (output_size st) capacity;
            match d with
            | None => stop s_full (output st)
            | Some (out, out_size) =>
                if (capacity - 1 - out_size <? n)%nat then stop s_full out
                else
                  l ← copy_label data cursor n out out_size;
                  match l with
                  | Return out => stop s_invalid_argument out
                  | Next (out, out_size) =>
                      Done (Next (mk_name_state (cursor + n) out out_size hops (expanded + n) (jumped st) false
                                    (if jumped st then consumed else consumed + n)%nat))
                  end
            end.

(** [decode_name]: the status, the text buffer and [consumed].  Every pass adds a hop,
    and the 129th hop ends the loop. *)
Definition decode_name (data : ptr) (size offset : nat) (out : ptr) (capacity : nat) : exec (status * ptr * nat) :=
  match data, out with
  | Some data, Some out =>
      if (capacity =? 0)%nat || (size <=? offset)%nat then Done (s_invalid_argument, Some out, 0%nat)
      else
        '(s, out, n) ←
          after (while_loop 130 (fun st => Done (negb (finished st))) (name_body data size capacity)
                   (mk_name_state offset out 0 0 0 false false 0))
            (fun st => out ← store (output st) (output_size st) 0; Done (s_ok, out, consumed st));
        Done (s, Some out, n)
  | _, _ => Done (s_invalid_argument, out, 0%nat)
  end.

(** *** Queries *)

Definition t_a : Z := 1.
Definition t_ns : Z := 2.
Definition t_cname : Z := 5.
Definition t_mx : Z := 15.
Definition t_aaaa : Z := 28.
Definition class_internet : Z := 1.

Definition valid_query_type (type : Z) : bool :=
  (type =? t_a) || (type =? t_aaaa) || (type =? t_cname) || (type =? t_ns) || (type =? t_mx).

(** A pass of the loop that checks the labels of a name. *)
Definition check_body (name : list Z) (i : nat) (st : nat * nat) : exec (ctl status (nat * nat)) :=
  let '(begin, wire_name_size) := st in
  c ← load name i;
  if c =? c_period then
    let label_size := (i - begin)%nat in
    if (label_size =? 0)%nat || (63 <? label_size)%nat then Done (Return s_invalid_argument)
    else if (255 - (label_size + 1) <? wire_name_size)%nat then Done (Return s_out_of_range)
    else Done (Next ((i + 1)%nat, (wire_name_size + (label_size + 1))%nat))
  else if (c =? 0) || (127 <? c) then Done (Return s_invalid_argument)
  else Done (Next (begin, wire_name_size)).

(** A pass of the loop that writes them. *)
Definition write_body (name : list Z) (end_ : nat) (i : nat) (st : nat * list Z * nat) : exec (nat * list Z * nat) :=
  let '(begin, output, at_) := st in
  dot ← (if (i =? end_)%nat then Done true else c ← load name i; Done (c =? c_period));
  if dot : bool then
    output ← store output at_ (to_u8 (Z.of_nat (i - begin)));
    '(output, at_) ← for_to begin (i - begin) (fun j '(output, at_) =>
       c ← load name j; output ← store output at_ (to_u8 c); Done (output, (at_ + 1)%nat)) (output, (at_ + 1)%nat);
    Done ((i + 1)%nat, output, at_)
  else Done (begin, output, at_).

(** The name behind the header: an error, or the output and the end of the name. *)
Definition encode_name (name : list Z) (output : list Z) (capacity : nat) : exec (status + list Z * nat) :=
  let at_ := header_size in
  let end_ := length name in
  first ← load name 0;
  if (end_ =? 1)%nat && (first =? c_period) then
    if (capacity <? at_ + 1 + 4)%nat then Done (inl s_full)
    else output ← store output at_ 0; Done (inr (output, (at_ + 1)%nat))
  else
    last ← load name (end_ - 1);
    let end_ := if last =? c_period then (end_ - 1)%nat else end_ in
    if (end_ =? 0)%nat then Done (inl s_invalid_argument)
    else
      r ← for_range 0 end_ (check_body name) (0%nat, 1%nat);
      match r with
      | Return s => Done (inl s)
      | Next (begin, wire_name_size) =>
          let last_label := (end_ - begin)%nat in
          if (last_label =? 0)%nat || (63 <? last_label)%nat || (255 - (last_label + 1) <? wire_name_size)%nat
          then Done (inl s_invalid_argument)
          else
            let wire_name_size := (wire_name_size + (last_label + 1))%nat in
            if (capacity <? at_ + wire_name_size + 4)%nat then Done (inl s_full)
            else
              '(_, output, at_) ← for_to 0 (end_ + 1) (write_body name end_) (0%nat, output, at_);
              output ← store output at_ 0; Done (inr (output, (at_ + 1)%nat))
      end.

(** [encode_query]: the status, the output and [written]. *)
Definition encode_query (name : ptr) (type id : Z) (output : ptr) (capacity : nat) : exec (status * ptr * nat) :=
  match output with
  | None => Done (s_invalid_argument, output, 0%nat)
  | Some out =>
      if (capacity <? header_size)%nat then Done (s_full, output, 0%nat)
      else
        match name with
        | None => Done (s_invalid_argument, output, 0%nat)
        | Some name =>
            if negb (valid_query_type type) || (length name =? 0)%nat then Done (s_invalid_argument, output, 0%nat)
            else
              out ← write_be16 out 0 id;
              out ← store out 2 0x01; out ← store out 3 0; out ← store out 4 0; out ← store out 5 0x01;
              out ← store out 6 0; out ← store out 7 0; out ← store out 8 0; out ← store out 9 0;
              out ← store out 10 0; out ← store out 11 0;
              r ← encode_name name out capacity;
              match r with
              | inl s => Done (s, Some out, 0%nat)
              | inr (out, at_) =>
                  out ← write_be16 out at_ type; out ← write_be16 out (at_ + 2) class_internet;
                  Done (s_ok, Some out, (at_ + 4)%nat)
              end
        end
  end.

(** ** Names on the wire *)

Definition name_char (c : Z) : bool := (0 <? c) && (c <? 128).
Definition label (l : list Z) : Prop := (0 < length l <= 63)%nat /\ Forall (fun c => name_char c = true) l.

(** The name whose encoding starts at [c]: its labels, the bytes it takes there, and the
    labels and pointers met on the way to its end. *)
Inductive name_at (data : list Z) : nat -> list (list Z) -> nat -> nat -> Prop :=
| N_root c : data !! c = Some 0 -> name_at data c [] 1 1
| N_label c l ls k h :
    data !! c = Some (Z.of_nat (length l)) -> label l -> take (length l) (drop (c + 1) data) = l ->
    name_at data (c + 1 + length l) ls k h -> name_at data c (l :: ls) (1 + length l + k) (S h)
| N_pointer c p high low ls k h :
    data !! c = Some (192 + high) -> 0 <= high < 64 -> data !! (c + 1)%nat = Some low ->
    Z.of_nat p = 256 * high + low -> (p < c)%nat -> name_at data p ls k h -> name_at data c ls 2 (S h).

(** The octets of the uncompressed name, and its text. *)
Definition labels_size (ls : list (list Z)) : nat := sum_list_with (fun l => S (length l)) ls.
Fixpoint dotted (ls : list (list Z)) : list Z :=
  match ls with [] => [] | [l] => l | l :: ls => l ++ c_period :: dotted ls end.

Lemma dotted_snoc ls l : ls <> [] -> dotted (ls ++ [l]) = dotted ls ++ c_period :: l.
Proof.
  induction ls as [|x ls IH]; intros H; [done|]. destruct ls as [|y ls]; [done|].
  change ((x :: y :: ls) ++ [l]) with (x :: (y :: ls) ++ [l]). cbn [dotted]. cbn [app] in *. rewrite IH by done. by rewrite <-app_assoc.
Qed.

Lemma dotted_nil ls : Forall label ls -> length (dotted ls) = 0%nat -> ls = [].
Proof.
  destruct ls as [|l ls]; [done|]. intros [[Hl _] _]%Forall_cons. cbn. destruct ls; rewrite ?length_app; lia.
Qed.

Lemma labels_size_snoc ls l : labels_size (ls ++ [l]) = (labels_size ls + S (length l))%nat.
Proof. unfold labels_size. rewrite sum_list_with_app. cbn. lia. Qed.

Lemma dotted_size ls : Forall label ls -> (length (dotted ls) <= labels_size ls)%nat.
Proof.
  induction 1 as [|l ls Hl H IH]; [done|]. cbn [labels_size sum_list_with]. fold (labels_size ls).
  cbn [dotted]. destruct ls; [lia|]. rewrite length_app. cbn [length] in *. lia.
Qed.

(** Every property of a byte by inspection of the 256 values. *)
Lemma byte_all (P : Z -> bool) : forallb P (Z.of_nat <$> seq 0 256) = true -> forall b, byte b -> P b = true.
Proof.
  intros H b Hb. rewrite forallb_forall in H. apply H. apply list_elem_of_In, list_elem_of_fmap. exists (Z.to_nat b).
  unfold byte in Hb. split; [lia|]. apply elem_of_seq. lia.
Qed.

Lemma pointer_bits b : byte b -> (Z.land b 0xC0 =? 0xC0) = (192 <=? b) /\ (Z.land b 0xC0 =? 0) = (b <? 64) /\ Z.land b 0x3F = b mod 64.
Proof.
  intros Hb. pose proof (byte_all (fun b => eqb (Z.land b 0xC0 =? 0xC0) (192 <=? b) && eqb (Z.land b 0xC0 =? 0) (b <? 64)
    && (Z.land b 0x3F =? b mod 64)) ltac:(vm_compute; reflexivity) b Hb) as H.
  cbn beta in H. rewrite !andb_true_iff, !eqb_true_iff, Z.eqb_eq in H. tauto.
Qed.

Lemma pointer_value high low : 0 <= high < 64 -> byte low -> to_u16 (Z.lor (Z.shiftl high 8) low) = 256 * high + low.
Proof.
  intros Hh Hl. unfold byte in Hl. rewrite (lor_shiftl_add 8) by lia. rewrite wrap_small by (unfold in_width; lia). lia.
Qed.

Section Decode.
Context (data : list Z) (Hdata : Forall byte data) (capacity : nat) (buffer : list Z) (Hbuffer : length buffer = capacity).
Let size := length data.

Lemma copy_label_ok cur n pre : (cur + n <= size)%nat -> (length pre + n <= capacity)%nat ->
  exists x, copy_label data cur n (wrote buffer 0 pre) (length pre) = Done x /\
    if forallb name_char (take n (drop cur data))
    then x = Next (wrote buffer 0 (pre ++ take n (drop cur data)), (length pre + n)%nat)
    else exists out, x = Return out /\ length out = capacity.
Proof.
  revert cur pre. assert (H : forall n i cur pre, (cur + i + n <= size)%nat -> (length pre + n <= capacity)%nat ->
    exists x, for_range i n (fun i '(output, output_size) =>
        c ← load data (cur + i);
        if (c =? 0) || (127 <? c) then Done (Return output)
        else output ← store output output_size c; Done (Next (output, (output_size + 1)%nat))) (wrote buffer 0 pre, length pre) = Done x /\
      if forallb name_char (take n (drop (cur + i) data))
      then x = Next (wrote buffer 0 (pre ++ take n (drop (cur + i) data)), (length pre + n)%nat)
      else exists out, x = Return out /\ length out = capacity).
  2:{ intros cur pre H1 H2. unfold copy_label. destruct (H n 0%nat cur pre) as (x & -> & Hx); [lia|lia|]. rewrite Nat.add_0_r in Hx. by exists x. }
  clear n. induction n as [|n IH]; intros i cur pre H1 H2; cbn [for_range].
  { eexists. split; [done|]. cbn [take forallb]. by rewrite app_nil_r, Nat.add_0_r. }
  destruct (lookup_lt_is_Some_2 data (cur + i)) as [c Hc]; [subst size; lia|]. rewrite (load_Done _ _ _ Hc), bind_Done, (drop_S _ _ _ Hc).
  cbn [take forallb]. assert (Hcb : byte c) by (by eapply (Forall_lookup_1 byte)). unfold byte in Hcb.
  assert (Hnc : name_char c = negb ((c =? 0) || (127 <? c))) by (unfold name_char; lia). rewrite Hnc.
  destruct ((c =? 0) || (127 <? c)); cbn [negb andb].
  { eexists. split; [done|]. eexists. split; [done|]. rewrite length_wrote; lia. }
  rewrite store_wrote by lia. rewrite bind_Done. destruct (IH (S i) cur (pre ++ [c])) as (x & Hx & Hres); [lia|rewrite length_app; cbn; lia|].
  rewrite length_app in Hx. cbn [length] in Hx. rewrite Hx. exists x. split; [done|]. rewrite Nat.add_succ_r in Hres.
  rewrite length_app, <-app_assoc in Hres. cbn [length app] in Hres. replace (length pre + S n)%nat with (length pre + 1 + n)%nat by lia. exact Hres.
Qed.

Lemma put_dot_ok pre n : Forall label pre -> (length (dotted pre) < capacity)%nat -> (0 < n)%nat ->
  exists x, put_dot (wrote buffer 0 (dotted pre)) (length (dotted pre)) capacity = Done x /\
    match x with
    | None => (capacity <= length (dotted pre) + 1)%nat /\ pre <> []
    | Some (out, k) => let t := dotted pre ++ (if pre is [] then [] else [c_period]) in
        out = wrote buffer 0 t /\ k = length t /\ (k < capacity)%nat
    end.
Proof.
  intros Hl Hp Hn. unfold put_dot. destruct (Nat.eqb_spec (length (dotted pre)) 0) as [E|E].
  { apply dotted_nil in E as ->; [|done]. eexists. split; [done|]. done. }
  assert (Hne : pre <> []) by (by intros ->). destruct (Nat.leb_spec capacity (length (dotted pre) + 1)); [by eexists|].
  rewrite store_wrote by lia. rewrite bind_Done. eexists. split; [done|]. destruct pre; [done|]. rewrite length_app. cbn [length]. split; [done|]. lia.
Qed.

(** What stands at [c]. *)
Inductive piece : Type := P_root | P_label (l : list Z) | P_pointer (p : nat).
Definition read_piece (c : nat) : option piece :=
  match data !! c with
  | None => None
  | Some b =>
      if 192 <=? b then
        match data !! (c + 1)%nat with
        | Some low => let p := Z.to_nat (256 * (b - 192) + low) in if (p <? c)%nat then Some (P_pointer p) else None
        | None => None
        end
      else if 64 <=? b then None
      else if b =? 0 then Some P_root
      else let l := take (Z.to_nat b) (drop (c + 1) data) in
           if (length l =? Z.to_nat b)%nat && forallb name_char l then Some (P_label l) else None
  end.

Lemma read_label c l : read_piece c = Some (P_label l) <->
  data !! c = Some (Z.of_nat (length l)) /\ label l /\ take (length l) (drop (c + 1) data) = l.
Proof.
  unfold read_piece. destruct (data !! c) as [b|] eqn:Eb; [|split; [done|by intros ([=] & _)]].
  assert (Hb : byte b) by (by eapply (Forall_lookup_1 byte)). unfold byte in Hb. split.
  - destruct (Z.leb_spec 192 b); [destruct (data !! (c + 1)%nat); [case_match|]; done|]. destruct (Z.leb_spec 64 b); [done|].
    destruct (Z.eqb_spec b 0); [done|]. set (l' := take (Z.to_nat b) (drop (c + 1) data)).
    destruct (Nat.eqb_spec (length l') (Z.to_nat b)) as [El|]; [|done]. cbn [andb]. destruct (forallb name_char l') eqn:Ef; [|done]. intros [= <-].
    split; [f_equal; lia|]. split; [|by rewrite El]. split; [lia|]. rewrite Forall_forall. intros x Hx. rewrite forallb_forall in Ef. apply Ef. by apply list_elem_of_In.
  - intros ([= ->] & [Hl Hc] & Ht). rewrite (proj2 (Z.leb_gt _ _)), (proj2 (Z.leb_gt _ _)), (proj2 (Z.eqb_neq _ _)), Nat2Z.id, Ht, Nat.eqb_refl by lia. cbn [andb].
    assert (forallb name_char l = true) as ->; [|done]. apply forallb_forall. intros x Hx%list_elem_of_In. rewrite Forall_forall in Hc. by apply Hc.
Qed.

Lemma read_root c : read_piece c = Some P_root <-> data !! c = Some 0.
Proof.
  unfold read_piece. destruct (data !! c) as [b|]; [|split; done]. split; [|by intros [= ->]].
  repeat case_match; try done. match goal with H : (b =? 0) = true |- _ => apply Z.eqb_eq in H as -> end. done.
Qed.

Lemma read_pointer c p : read_piece c = Some (P_pointer p) <->
  exists high low, data !! c = Some (192 + high) /\ 0 <= high < 64 /\ data !! (c + 1)%nat = Some low /\ Z.of_nat p = 256 * high + low /\ (p < c)%nat.
Proof.
  unfold read_piece. destruct (data !! c) as [b|] eqn:Eb; [|split; [done|by intros (? & ? & [=] & _)]].
  assert (Hb : byte b) by (by eapply (Forall_lookup_1 byte)). unfold byte in Hb. split.
  - destruct (Z.leb_spec 192 b); [|repeat case_match; done]. destruct (data !! (c + 1)%nat) as [low|] eqn:El; [|done].
    assert (Hlow : byte low) by (by eapply (Forall_lookup_1 byte)). unfold byte in Hlow.
    destruct (Nat.ltb_spec (Z.to_nat (256 * (b - 192) + low)) c); [|done]. intros [= <-]. exists (b - 192), low. split; [f_equal; lia|]. split; [lia|]. split; [done|]. lia.
  - intros (high & low & [= ->] & Hh & -> & Hp & Hlt). rewrite (proj2 (Z.leb_le _ _)) by lia.
    replace (Z.to_nat (256 * (192 + high - 192) + low)) with p by lia. by rewrite (proj2 (Nat.ltb_lt _ _)).
Qed.

(** The loop reads one piece after the other. *)
Definition state_at (c : nat) (pre : list (list Z)) (h : nat) (j : bool) (k : nat) : name_state :=
  mk_name_state c (wrote buffer 0 (dotted pre)) (length (dotted pre)) h (labels_size pre) j false k.

Definition refused (x : ctl (status * list Z * nat) name_state) : Prop :=
  exists s out k, x = Return (s, out, k) /\ s <> s_ok /\ length out = capacity.

Lemma name_body_ok c pre h j k : Forall label pre -> (length (dotted pre) < capacity)%nat ->
  exists x, name_body data size capacity (state_at c pre h j k) = Done x /\
    match read_piece c with
    | None => refused x
    | Some P_root =>
        if decide (h < 128 /\ labels_size pre < 255)%nat
        then x = Next (mk_name_state (c + 1) (wrote buffer 0 (dotted pre)) (length (dotted pre)) (S h) (labels_size pre + 1) j true (if j then k else k + 1)%nat)
        else refused x
    | Some (P_label l) =>
        if decide (h < 128 /\ labels_size (pre ++ [l]) <= 255 /\ length (dotted (pre ++ [l])) < capacity)%nat
        then x = Next (state_at (c + 1 + length l) (pre ++ [l]) (S h) j (if j then k else k + 1 + length l)%nat)
        else refused x
    | Some (P_pointer p) =>
        if decide (h < 128)%nat then x = Next (state_at p pre (S h) true (if j then k else k + 2)%nat) else refused x
    end.
Proof.
  intros Hpre Hcap. unfold name_body, state_at. cbn [cursor output output_size hops expanded_wire_size jumped finished consumed].
  assert (Hw : length (wrote buffer 0 (dotted pre)) = capacity) by (rewrite length_wrote; lia).
  assert (Hstop : forall s kk, s <> s_ok -> refused (Return (s, wrote buffer 0 (dotted pre), kk))) by (intros s kk Hs; by exists s, (wrote buffer 0 (dotted pre)), kk).
  destruct (Nat.leb_spec size c) as [Hge|Hlt]; cbn [orb].
  { eexists. split; [done|]. unfold read_piece. rewrite (lookup_ge_None_2 data c) by done. by apply Hstop. }
  destruct (lookup_lt_is_Some_2 data c Hlt) as [b Hb]. assert (Hbyte : byte b) by (by eapply (Forall_lookup_1 byte)).
  destruct (Nat.ltb_spec 128 (h + 1)) as [Hh|Hh].
  { eexists. split; [done|]. destruct (read_piece c) as [[|l|p]|]; try (rewrite decide_False by lia); by apply Hstop. }
  rewrite (load_Done _ _ _ Hb), bind_Done. destruct (pointer_bits b Hbyte) as (-> & -> & ->). unfold byte in Hbyte.
  unfold read_piece. rewrite Hb. destruct (Z.leb_spec 192 b) as [H192|H192].
  - destruct (Nat.leb_spec size (c + 1)) as [Hge1|Hlt1].
    { eexists. split; [done|]. rewrite (lookup_ge_None_2 data (c + 1)) by done. by apply Hstop. }
    destruct (lookup_lt_is_Some_2 data (c + 1) Hlt1) as [low Hlow]. assert (Hlb : byte low) by (by eapply (Forall_lookup_1 byte)).
    rewrite (load_Done _ _ _ Hlow), bind_Done, Hlow. assert (Hmod : b mod 64 = b - 192) by (Z.to_euclidean_division_equations; lia).
    rewrite Hmod, pointer_value by (done || lia). set (p := Z.to_nat (256 * (b - 192) + low)).
    destruct (Nat.ltb_spec p c) as [Hpc|Hpc].
    + rewrite (proj2 (Nat.leb_gt _ _)), (proj2 (Nat.leb_gt _ _)) by lia. cbn [orb]. eexists. split; [done|]. rewrite decide_True by lia.
      by rewrite (Nat.add_1_r h).
    + rewrite (proj2 (Nat.leb_le c p)), orb_true_r by lia. eexists. split; [done|]. by apply Hstop.
  - destruct (Z.leb_spec 64 b) as [H64|H64].
    { rewrite (proj2 (Z.ltb_ge _ _)) by lia. cbn [negb orb]. eexists. split; [done|]. by apply Hstop. }
    rewrite (proj2 (Z.ltb_lt b 64)), (proj2 (Z.ltb_ge 63 b)) by lia. cbn [negb orb].
    destruct (Nat.leb_spec 255 (labels_size pre)) as [H255|H255].
    { eexists. split; [done|]. destruct (b =? 0); [rewrite decide_False by lia; by apply Hstop|].
      destruct (_ && forallb _ _); [rewrite decide_False by (rewrite labels_size_snoc; lia)|]; by apply Hstop. }
    destruct (Z.eqb_spec b 0) as [->|H0].
    { eexists. split; [done|]. rewrite decide_True by lia. by rewrite (Nat.add_1_r h). }
    set (n := Z.to_nat b). set (l := take n (drop (c + 1) data)).
    assert (Hll : length l = Nat.min n (size - (c + 1))) by (subst l; by rewrite length_take, length_drop).
    destruct (Nat.ltb_spec size (c + 1)) as [|_]; [lia|]. cbn [orb].
    destruct (Nat.ltb_spec (size - (c + 1)) n) as [Hshort|Hlong]; cbn [orb].
    { rewrite (proj2 (Nat.eqb_neq (length l) n)) by lia. eexists. split; [done|]. by apply Hstop. }
    rewrite (proj2 (Nat.eqb_eq (length l) n)) by lia. cbn [andb].
    assert (Hln : length l = n) by lia. clear Hll.
    destruct (Nat.ltb_spec 255 (labels_size pre + 1 + n)) as [Hbig|Hsmall].
    { eexists. split; [done|]. destruct (forallb name_char l); [rewrite decide_False by (rewrite labels_size_snoc; lia)|]; by apply Hstop. }
    assert (Hdot : dotted (pre ++ [l]) = (dotted pre ++ (if pre is [] then [] else [c_period])) ++ l).
    { destruct pre as [|x pre]; [done|]. rewrite dotted_snoc by done. by rewrite <-app_assoc. }
    destruct (put_dot_ok pre n Hpre Hcap) as (d & -> & Hd); [lia|]. rewrite bind_Done. destruct d as [[out oz]|].
    2:{ destruct Hd as [Hd Hne]. eexists. split; [done|]. destruct (forallb name_char l); [|by apply Hstop]. rewrite decide_False; [by apply Hstop|].
        rewrite Hdot, !length_app. destruct pre; [done|]. cbn [length] in *. lia. }
    destruct Hd as (-> & -> & Hd). set (t := dotted pre ++ (if pre is [] then [] else [c_period])) in *.
    assert (Hwt : length (wrote buffer 0 t) = capacity) by (rewrite length_wrote; lia).
    destruct (Nat.ltb_spec (capacity - 1 - length t) n) as [Hfull|Hfit].
    { eexists. split; [done|]. destruct (forallb name_char l); [rewrite decide_False by (rewrite Hdot, length_app; lia)|]; eexists _, _, _; by split_and!. }
    destruct (copy_label_ok (c + 1) n t) as (x & -> & Hx); [lia|lia|]. rewrite bind_Done. fold l in Hx.
    destruct (forallb name_char l); [subst x|destruct Hx as (out & -> & Ho); eexists; split; [done|]; eexists _, _, _; by split_and!].
    eexists. split; [done|]. rewrite decide_True by (rewrite labels_size_snoc, Hdot, length_app; lia).
    unfold state_at. rewrite Hdot, labels_size_snoc, length_app, Hln, (Nat.add_1_r h). do 2 f_equal; [lia|].
    destruct j; lia.
Qed.

Definition name_loop (fuel : nat) (st : name_state) : exec (ctl (status * list Z * nat) name_state) :=
  while_loop fuel (fun st => Done (negb (finished st))) (name_body data size capacity) st.

(** The state behind a name, and what makes it acceptable. *)
Definition read_name (pre ls : list (list Z)) (h hh : nat) (j : bool) (k n : nat) (st : name_state) : Prop :=
  output st = wrote buffer 0 (dotted (pre ++ ls)) /\ output_size st = length (dotted (pre ++ ls)) /\ consumed st = (if j then k else k + n)%nat.
Definition acceptable (all : list (list Z)) (hops : nat) : Prop :=
  (labels_size all < 255)%nat /\ (hops <= 128)%nat /\ (length (dotted all) < capacity)%nat.

Lemma name_at_labels c ls n h : name_at data c ls n h -> Forall label ls.
Proof. induction 1; [constructor|by constructor|done]. Qed.

Lemma name_loop_sound fuel c pre h j k :
  Forall label pre -> (length (dotted pre) < capacity)%nat -> (h <= 128)%nat -> (129 < h + fuel)%nat ->
  exists x, name_loop fuel (state_at c pre h j k) = Done x /\
    (refused x \/ exists st ls n hh, x = Next st /\ name_at data c ls n hh /\ acceptable (pre ++ ls) (h + hh) /\ read_name pre ls h hh j k n st).
Proof.
  revert c pre h j k. unfold name_loop. induction fuel as [|fuel IH]; intros c pre h j k Hpre Hcap Hh Hf; [lia|].
  cbn [while_loop]. unfold state_at at 1. cbn [finished negb]. destruct (name_body_ok c pre h j k Hpre Hcap) as (x & -> & Hx).
  assert (Href : refused x -> exists y, match Done x with Done (Next s') => while_loop fuel (fun st => Done (negb (finished st))) (name_body data size capacity) s' | r => r end = Done y
     /\ (refused y \/ exists st ls n hh, y = Next st /\ name_at data c ls n hh /\ acceptable (pre ++ ls) (h + hh) /\ read_name pre ls h hh j k n st)).
  { intros (s & out & kk & -> & Hs). eexists. split; [done|]. left. by eexists _, _, _. }
  destruct (read_piece c) as [[|l|p]|] eqn:Ep; [| | |by apply Href]; (case_decide as Hd; [|by apply Href]); subst x; clear Href.
  - destruct fuel as [|fuel]; [lia|]. cbn [while_loop finished negb]. eexists. split; [done|]. right. eexists _, [], 1%nat, 1%nat. rewrite app_nil_r.
    split; [done|]. split; [constructor; by apply read_root|]. unfold acceptable, read_name. rewrite app_nil_r. cbn. split; [lia|]. done.
  - apply read_label in Ep as (E1 & E2 & E3). destruct (IH (c + 1 + length l)%nat (pre ++ [l]) (S h) j (if j then k else k + 1 + length l)%nat) as (y & -> & Hy);
      [apply Forall_app_2; [done|by apply Forall_singleton]|lia|lia|lia|].
    exists y. split; [done|]. destruct Hy as [Hy|(st & ls & n & hh & -> & Hn & Ha & Hr)]; [by left|]. right.
    exists st, (l :: ls), (1 + length l + n)%nat, (S hh). split; [done|]. split; [by constructor|]. unfold acceptable, read_name in *.
    rewrite <-app_assoc in Ha, Hr. cbn [app] in Ha, Hr. split; [lia|]. destruct Hr as (Hr1 & Hr2 & Hr3). split; [done|]. split; [done|]. rewrite Hr3. destruct j; lia.
  - apply read_pointer in Ep as (high & low & E1 & E2 & E3 & E4 & E5).
    destruct (IH p pre (S h) true (if j then k else k + 2)%nat) as (y & -> & Hy); [done|done|lia|lia|].
    exists y. split; [done|]. destruct Hy as [Hy|(st & ls & n & hh & -> & Hn & Ha & Hr)]; [by left|]. right.
    exists st, ls, 2%nat, (S hh). split; [done|]. split; [by eapply N_pointer|]. unfold acceptable, read_name in *. split; [lia|]. done.
Qed.

Lemma dotted_mono a b : (length (dotted a) <= length (dotted (a ++ b)))%nat.
Proof.
  induction a as [|x a IH]; cbn [dotted app]; [cbn; lia|]. destruct a as [|y a]; cbn [app] in *.
  - destruct b; rewrite ?length_app; lia.
  - rewrite !length_app. cbn [length]. lia.
Qed.

Lemma name_loop_complete c ls n hh : name_at data c ls n hh -> forall fuel pre h j k,
  Forall label pre -> acceptable (pre ++ ls) (h + hh) -> (hh < fuel)%nat ->
  exists st, name_loop fuel (state_at c pre h j k) = Done (Next st) /\ read_name pre ls h hh j k n st.
Proof.
  unfold name_loop. induction 1 as [c E|c l ls n hh E1 E2 E3 Hn IH|c p high low ls n hh E1 E2 E3 E4 E5 Hn IH]; intros fuel pre h j k Hpre Ha Hf;
    pose proof Ha as (Ha1 & Ha2 & Ha3); (destruct fuel as [|fuel]; [lia|]); cbn [while_loop]; unfold state_at at 1; cbn [finished negb].
  - rewrite app_nil_r in *. destruct (name_body_ok c pre h j k Hpre Ha3) as (x & -> & Hx). rewrite (proj2 (read_root c) E), decide_True in Hx by lia. subst x.
    destruct fuel as [|fuel]; [lia|]. cbn [while_loop finished negb]. eexists. split; [done|]. unfold read_name. by rewrite app_nil_r.
  - assert (Hcap : (length (dotted pre) < capacity)%nat) by (pose proof (dotted_mono pre (l :: ls)); lia).
    destruct (name_body_ok c pre h j k Hpre Hcap) as (x & -> & Hx). rewrite (proj2 (read_label c l) (conj E1 (conj E2 E3))) in Hx.
    replace (pre ++ l :: ls) with ((pre ++ [l]) ++ ls) in * by (by rewrite <-app_assoc).
    rewrite decide_True in Hx.
    2:{ pose proof (dotted_mono (pre ++ [l]) ls). unfold labels_size in *. rewrite sum_list_with_app in Ha1. lia. }
    subst x. destruct (IH fuel (pre ++ [l]) (S h) j (if j then k else k + 1 + length l)%nat) as (st & -> & Hr);
      [apply Forall_app_2; [done|by apply Forall_singleton]|unfold acceptable in *; lia|lia|].
    exists st. split; [done|]. unfold read_name in *. rewrite <-app_assoc in Hr. cbn [app] in Hr. destruct Hr as (Hr1 & Hr2 & Hr3).
    split; [done|]. split; [done|]. rewrite Hr3. destruct j; lia.
  - assert (Hcap : (length (dotted pre) < capacity)%nat) by (pose proof (dotted_mono pre ls); lia).
    destruct (name_body_ok c pre h j k Hpre Hcap) as (x & -> & Hx).
    rewrite (proj2 (read_pointer c p)) in Hx by (by exists high, low). rewrite decide_True in Hx by lia. subst x.
    destruct (IH fuel pre (S h) true (if j then k else k + 2)%nat) as (st & -> & Hr); [done|unfold acceptable in *; lia|lia|].
    exists st. split; [done|]. exact Hr.
Qed.

(** The whole decoder. *)
Lemma decode_name_ok offset :
  exists s out n, decode_name (Some data) size offset (Some buffer) capacity = Done (s, Some out, n) /\ length out = capacity /\
    (s = s_ok -> exists ls hh, name_at data offset ls n hh /\ acceptable ls hh /\ out = wrote buffer 0 (dotted ls ++ [0])) /\
    (forall ls k hh, name_at data offset ls k hh -> acceptable ls hh -> s = s_ok /\ n = k /\ out = wrote buffer 0 (dotted ls ++ [0])).
Proof.
  unfold decode_name. destruct (Nat.eqb_spec capacity 0) as [Hz|Hz]; cbn [orb].
  { eexists _, _, _. split; [done|]. split; [done|]. split; [done|]. intros ls k hh _ (_ & _ & Ha). lia. }
  destruct (Nat.leb_spec size offset) as [Hge|Hlt].
  { eexists _, _, _. split; [done|]. split; [done|]. split; [done|]. intros ls k hh Hn _. exfalso.
    assert (is_Some (data !! offset)) as Hx%lookup_lt_is_Some_1 by (inversion Hn; by eexists). subst size. lia. }
  assert (Hst : mk_name_state offset buffer 0 0 0 false false 0 = state_at offset [] 0 false 0) by (unfold state_at; cbn [dotted]; by rewrite wrote_nil).
  rewrite Hst. change (while_loop 130 (fun st => Done (negb (finished st))) (name_body data size capacity)) with (name_loop 130).
  assert (Hend : forall st ls k hh, acceptable ls hh -> read_name [] ls 0 hh false 0 k st ->
    (out ← store (output st) (output_size st) 0; Done (s_ok, out, consumed st)) = Done (s_ok, wrote buffer 0 (dotted ls ++ [0]), k)).
  { intros st ls k hh (_ & _ & Ha) (-> & -> & ->). cbn [app]. rewrite store_wrote by lia. done. }
  destruct (name_loop_sound 130 offset [] 0 false 0) as (x & Hx & Hres); [constructor|cbn; lia|lia|lia|].
  rewrite Hx. destruct Hres as [(s & out & n & -> & Hs & Ho)|(st & ls & n & hh & -> & Hn & Ha & Hr)]; cbn [after].
  - rewrite bind_Done. eexists _, _, _. split; [done|]. split; [done|]. split; [done|]. intros ls k hh Hn Ha. exfalso.
    destruct (name_loop_complete offset ls k hh Hn 130 [] 0 false 0) as (st & Hst' & _); [constructor|done|destruct Ha; lia|]. congruence.
  - cbn [app Nat.add] in Ha. rewrite (Hend st ls n hh Ha Hr), bind_Done. eexists _, _, _. split; [done|].
    destruct Ha as (Ha1 & Ha2 & Ha3). split; [rewrite length_wrote; rewrite ?length_app; cbn [length]; lia|]. split; [intros _; by exists ls, hh|].
    intros ls' k' hh' Hn' Ha'. destruct (name_loop_complete offset ls' k' hh' Hn' 130 [] 0 false 0) as (st' & Hst' & Hr'); [constructor|done|destruct Ha'; lia|].
    rewrite Hx in Hst'. injection Hst' as <-. pose proof (Hend st ls' k' hh' Ha' Hr') as He. rewrite (Hend st ls n hh) in He by done. by injection He as <- <-.
Qed.
End Decode.

(** ** Queries *)

Definition label_ok (l : list Z) : bool := (0 <? length l)%nat && (length l <=? 63)%nat && forallb name_char l.

(** The parts of a text between its dots; [cur] is the part read so far. *)
Fixpoint split_dots (cur l : list Z) : list (list Z) :=
  match l with
  | [] => [cur]
  | c :: l => if c =? c_period then cur :: split_dots [] l else split_dots (cur ++ [c]) l
  end.

(** A name written out. *)
Definition wire_labels (ls : list (list Z)) : list Z := concat ((fun l => Z.of_nat (length l) :: l) <$> ls).

Lemma label_ok_iff l : label_ok l = true <-> label l.
Proof.
  unfold label_ok, label. rewrite !andb_true_iff, Nat.ltb_lt, Nat.leb_le, forallb_forall, Forall_forall.
  setoid_rewrite list_elem_of_In. tauto.
Qed.

Lemma split_dots_ne cur l : split_dots cur l <> [].
Proof. revert cur. induction l as [|c l IH]; intros cur; cbn; [done|]. by case_match. Qed.

Lemma dotted_split cur l : dotted (split_dots cur l) = cur ++ l.
Proof.
  revert cur. induction l as [|c l IH]; intros cur; cbn [split_dots]; [by rewrite app_nil_r|]. destruct (Z.eqb_spec c c_period) as [->|].
  - cbn [dotted]. destruct (split_dots [] l) eqn:E; [by apply split_dots_ne in E|]. rewrite <-E, IH. done.
  - rewrite IH. by rewrite <-app_assoc.
Qed.

Lemma length_wire_labels ls : length (wire_labels ls) = labels_size ls.
Proof. unfold wire_labels, labels_size. induction ls as [|l ls IH]; [done|]. cbn. rewrite length_app, IH. lia. Qed.

Section Encode.
Context (name : list Z) (Hname : Forall byte name) (end_ : nat) (Hend : (end_ <= length name)%nat).

(** The checks accept exactly the labels of the text. *)
Lemma check_loop_ok n i begin cur wire rest : (i + n = end_)%nat -> take n (drop i name) = rest -> (begin + length cur = i)%nat -> forallb name_char cur = true ->
  let ls := split_dots cur rest in
  exists x, for_range i n (check_body name) (begin, wire) = Done x /\
    if forallb label_ok ls && (wire + labels_size ls <=? 255)%nat
    then exists b w, x = Next (b, w) /\ (0 < end_ - b <= 63)%nat /\ (w + S (end_ - b) = wire + labels_size ls)%nat
    else match x with Return s => s <> s_ok | Next (b, w) => (end_ - b = 0 \/ 63 < end_ - b \/ 255 - (end_ - b + 1) < w)%nat end.
Proof.
  revert i begin cur wire rest. induction n as [|n IH]; intros i begin cur wire rest Hi Er Hb Hc; cbn [for_range].
  - rewrite take_0 in Er. subst rest. cbn [split_dots forallb labels_size sum_list_with]. unfold label_ok. rewrite Hc, !andb_true_r.
    eexists. split; [done|]. replace (end_ - begin)%nat with (length cur) by lia.
    destruct (Nat.ltb_spec 0 (length cur)); cbn [andb]; [|lia]. destruct (Nat.leb_spec (length cur) 63); cbn [andb]; [|lia].
    destruct (Nat.leb_spec (wire + (S (length cur) + 0)) 255); [|lia]. exists begin, wire. split; [done|]. lia.
  - destruct (lookup_lt_is_Some_2 name i) as [c Hci]; [lia|]. rewrite (drop_S _ _ _ Hci) in Er. cbn [take] in Er. subst rest.
    assert (Hcb : byte c) by (by eapply (Forall_lookup_1 byte)). unfold byte in Hcb.
    unfold check_body at 1. rewrite (load_Done _ _ _ Hci), bind_Done. cbn [split_dots]. destruct (Z.eqb_spec c c_period) as [->|Hne].
    + replace (i - begin)%nat with (length cur) by lia. cbn [forallb labels_size sum_list_with]. fold (labels_size (split_dots [] (take n (drop (S i) name)))).
      unfold label_ok at 1. rewrite Hc, andb_true_r.
      destruct (Nat.eqb_spec (length cur) 0) as [Hz|Hz]; cbn [orb].
      { rewrite Hz. cbn [Nat.ltb Nat.leb andb]. by eexists. }
      rewrite (proj2 (Nat.ltb_lt 0 _)) by lia. cbn [andb]. destruct (Nat.ltb_spec 63 (length cur)) as [Hl|Hl].
      { rewrite (proj2 (Nat.leb_gt _ _)) by lia. by eexists. }
      rewrite (proj2 (Nat.leb_le (length cur) 63)) by lia. cbn [andb].
      destruct (Nat.ltb_spec (255 - (length cur + 1)) wire) as [Hw|Hw].
      { rewrite (proj2 (Nat.leb_gt _ 255)) by lia. rewrite andb_false_r. by eexists. }
      destruct (IH (S i) (i + 1)%nat [] (wire + (length cur + 1))%nat (take n (drop (S i) name))) as (x & -> & Hx); [lia|done|cbn; lia|done|].
      exists x. split; [done|]. replace (wire + (S (length cur) + labels_size (split_dots [] (take n (drop (S i) name)))))%nat
        with (wire + (length cur + 1) + labels_size (split_dots [] (take n (drop (S i) name))))%nat by lia. exact Hx.
    + assert (Hnc : name_char c = negb ((c =? 0) || (127 <? c))) by (unfold name_char; lia).
      destruct ((c =? 0) || (127 <? c)) eqn:Eb.
      * eexists. split; [done|]. assert (forallb label_ok (split_dots (cur ++ [c]) (take n (drop (S i) name))) = false) as ->; [|done].
        assert (Hbad : forall l x, forallb name_char x = false -> forallb label_ok (split_dots x l) = false).
        { clear. induction l as [|c l IHl]; intros x Hx; cbn [split_dots forallb].
          - unfold label_ok. by rewrite Hx, !andb_false_r.
          - case_match; cbn [forallb]; [unfold label_ok at 1; by rewrite Hx, !andb_false_r|]. apply IHl. by rewrite forallb_app, Hx. }
        apply Hbad. rewrite forallb_app. cbn [forallb]. by rewrite Hnc, andb_false_r.
      * destruct (IH (S i) begin (cur ++ [c]) wire (take n (drop (S i) name))) as (x & -> & Hx);
          [lia|done|rewrite length_app; cbn; lia|rewrite forallb_app; cbn [forallb]; by rewrite Hc, Hnc|]. by exists x.
Qed.

Lemma write_label_ok buf pre begin n : (begin + n <= length name)%nat -> (length pre + n <= length buf)%nat ->
  for_to begin n (fun j '(output, at_) => c ← load name j; output ← store output at_ (to_u8 c); Done (output, (at_ + 1)%nat)) (wrote buf 0 pre, length pre)
  = Done (wrote buf 0 (pre ++ take n (drop begin name)), (length pre + n)%nat).
Proof.
  revert pre begin. induction n as [|n IH]; intros pre begin H1 H2.
  { cbn [for_to for_range take]. by rewrite app_nil_r, Nat.add_0_r. }
  rewrite for_to_S. destruct (lookup_lt_is_Some_2 name begin) as [c Hc]; [lia|]. rewrite (load_Done _ _ _ Hc), bind_Done.
  assert (Hcb : byte c) by (by eapply (Forall_lookup_1 byte)). unfold byte in Hcb. rewrite wrap_small by (unfold in_width; lia).
  rewrite store_wrote, !bind_Done by lia. specialize (IH (pre ++ [c]) (S begin)). rewrite length_app in IH. cbn [length] in IH.
  rewrite IH by lia. rewrite (drop_S _ _ _ Hc). cbn [take]. rewrite <-app_assoc. cbn [app]. do 2 f_equal. lia.
Qed.

Lemma write_loop_ok buf n i pre begin cur rest : (i + n = end_)%nat -> take n (drop i name) = rest -> (begin + length cur = i)%nat ->
  take (length cur) (drop begin name) = cur ->
  forallb label_ok (split_dots cur rest) = true -> (length pre + labels_size (split_dots cur rest) <= length buf)%nat ->
  exists b, for_to i (n + 1) (write_body name end_) (begin, wrote buf 0 pre, length pre)
    = Done (b, wrote buf 0 (pre ++ wire_labels (split_dots cur rest)), (length pre + labels_size (split_dots cur rest))%nat).
Proof.
  assert (Hstep : forall i pre begin cur, (begin + length cur = i)%nat -> (i <= length name)%nat -> take (length cur) (drop begin name) = cur ->
    label_ok cur = true -> (length pre + S (length cur) <= length buf)%nat ->
    (output ← store (wrote buf 0 pre) (length pre) (to_u8 (Z.of_nat (i - begin)));
     '(output, at_) ← for_to begin (i - begin) (fun j '(output, at_) =>
       c ← load name j; output ← store output at_ (to_u8 c); Done (output, (at_ + 1)%nat)) (output, (length pre + 1)%nat);
     Done ((i + 1)%nat, output, at_))
    = Done ((i + 1)%nat, wrote buf 0 (pre ++ Z.of_nat (length cur) :: cur), (length pre + S (length cur))%nat)).
  { intros i0 pre0 begin0 cur0 Hb Hi Hcur Hok Hroom. apply label_ok_iff in Hok as [Hl _]. replace (i0 - begin0)%nat with (length cur0) by lia.
    rewrite wrap_small by (unfold in_width; lia). rewrite store_wrote, bind_Done by lia.
    pose proof (write_label_ok buf (pre0 ++ [Z.of_nat (length cur0)]) begin0 (length cur0)) as Hw. rewrite length_app in Hw. cbn [length] in Hw.
    rewrite Hw, bind_Done, Hcur by lia. rewrite <-app_assoc. cbn [app]. do 2 f_equal. lia. }
  revert i pre begin cur rest. induction n as [|n IH]; intros i pre begin cur rest Hi Er Hb Hcur Hok Hroom.
  - rewrite take_0 in Er. subst rest. cbn [split_dots forallb labels_size sum_list_with] in *. rewrite andb_true_r in Hok. change (0 + 1)%nat with 1%nat. rewrite for_to_S.
    unfold write_body. rewrite (proj2 (Nat.eqb_eq _ _)) by lia. rewrite bind_Done, (Hstep i pre begin cur) by (done || lia). rewrite bind_Done.
    eexists. unfold wire_labels. cbn. rewrite app_nil_r. do 2 f_equal. lia.
  - destruct (lookup_lt_is_Some_2 name i) as [c Hc]; [lia|]. rewrite (drop_S _ _ _ Hc) in Er. cbn [take] in Er. subst rest. cbn [Nat.add]. rewrite for_to_S.
    unfold write_body at 2. rewrite (proj2 (Nat.eqb_neq _ _)) by lia. rewrite (load_Done _ _ _ Hc), !bind_Done. cbn [split_dots] in *.
    destruct (Z.eqb_spec c c_period) as [->|Hne].
    + cbn [forallb labels_size sum_list_with] in *. fold (labels_size (split_dots [] (take n (drop (S i) name)))) in *. apply andb_true_iff in Hok as [Hok1 Hok2].
      rewrite (Hstep i pre begin cur), bind_Done by (done || lia).
      specialize (IH (S i) (pre ++ Z.of_nat (length cur) :: cur) (i + 1)%nat [] (take n (drop (S i) name))). rewrite length_app in IH. cbn [length] in IH.
      destruct IH as (b & ->); [lia|done|lia|done|done|lia|]. exists b. unfold wire_labels. cbn [fmap list_fmap concat]. rewrite <-!app_assoc. cbn [app].
      do 2 f_equal. lia.
    + rewrite bind_Done. destruct (IH (S i) pre begin (cur ++ [c]) (take n (drop (S i) name))) as (b & ->); [lia|done|rewrite length_app; cbn; lia| |done|done|by exists b].
      rewrite length_app. cbn [length]. rewrite Nat.add_1_r.
      rewrite (take_S_r _ _ c); [by rewrite Hcur|]. rewrite lookup_drop, Hb. exact Hc.
Qed.
End Encode.

(** The labels a textual name asks for; one dot at its end is allowed. *)
Definition stem (name : list Z) : list Z :=
  if bool_decide (last name = Some c_period) then take (length name - 1) name else name.
Definition query_labels (name : list Z) : option (list (list Z)) :=
  if bool_decide (name = [c_period]) then Some []
  else let ls := split_dots [] (stem name) in if forallb label_ok ls && (labels_size ls <? 255)%nat then Some ls else None.

Definition query_header (id : Z) : list Z := be16 id ++ [1; 0; 0; 1; 0; 0; 0; 0; 0; 0].
Definition query_bytes (id type : Z) (ls : list (list Z)) : list Z :=
  query_header id ++ wire_labels ls ++ [0] ++ be16 type ++ be16 class_internet.

Lemma length_query_header id : length (query_header id) = header_size.
Proof. done. Qed.
Lemma length_query_bytes id type ls : length (query_bytes id type ls) = (17 + labels_size ls)%nat.
Proof. unfold query_bytes. rewrite !length_app, length_query_header, length_wire_labels, !length_be16. cbn [length]. unfold header_size. lia. Qed.

Lemma last_lookup_pred (l : list Z) : last l = l !! (length l - 1)%nat.
Proof. rewrite last_lookup. f_equal. lia. Qed.

Lemma encode_name_ok name buf pre : Forall byte name -> name <> [] -> length pre = header_size -> (header_size <= length buf)%nat ->
  exists r, encode_name name (wrote buf 0 pre) (length buf) = Done r /\
    match query_labels name with
    | Some ls => if decide (length pre + labels_size ls + 5 <= length buf)%nat
                 then r = inr (wrote buf 0 (pre ++ wire_labels ls ++ [0]), (length pre + labels_size ls + 1)%nat) else exists s, r = inl s /\ s <> s_ok
    | None => exists s, r = inl s /\ s <> s_ok
    end.
Proof.
  intros Hb Hne Hpre Hbuf. unfold encode_name, query_labels. destruct name as [|c0 name0] eqn:En; [done|]. rewrite <-En in *. rewrite <-Hpre.
  rewrite (load_Done name 0 c0) by (by rewrite En). rewrite bind_Done.
  destruct (decide (name = [c_period])) as [Eroot|Hroot].
  { rewrite bool_decide_eq_true_2 by done. rewrite En in Eroot. injection Eroot as -> ->. rewrite En. cbn [length Nat.eqb Z.eqb Pos.eqb andb].
    cbn [labels_size sum_list_with wire_labels fmap list_fmap concat app]. case_decide as Hd.
    - rewrite (proj2 (Nat.ltb_ge _ _)), store_wrote, bind_Done by lia. eexists. split; [done|]. do 2 f_equal. lia.
    - rewrite (proj2 (Nat.ltb_lt _ _)) by lia. eexists. split; [done|]. by eexists. }
  rewrite bool_decide_eq_false_2 by done.
  assert (Hr : ((length name =? 1)%nat && (c0 =? c_period)) = false).
  { apply andb_false_iff. destruct (Nat.eqb_spec (length name) 1) as [E1|]; [|by left]. right. apply Z.eqb_neq. intros ->. apply Hroot. rewrite En in *.
    cbn in E1. by destruct name0. }
  rewrite Hr. destruct (lookup_lt_is_Some_2 name (length name - 1)) as [lc Hlc]; [rewrite En; cbn; lia|].
  rewrite (load_Done _ _ _ Hlc), bind_Done. unfold stem. rewrite last_lookup_pred, Hlc.
  set (end_ := if lc =? c_period then (length name - 1)%nat else length name).
  assert (Hend : (0 < end_ <= length name)%nat).
  { subst end_. destruct (Z.eqb_spec lc c_period) as [->|]; [|rewrite En; cbn; lia]. split; [|lia]. apply Nat.neq_0_lt_0. intros Hz. apply Hroot.
    rewrite En in *. cbn [length] in *. destruct name0; [|cbn in Hz; lia]. cbn in Hlc. by injection Hlc as ->. }
  assert (Hstem : (if bool_decide (Some lc = Some c_period) then take (length name - 1) name else name) = take end_ (drop 0 name)).
  { subst end_. rewrite drop_0. destruct (Z.eqb_spec lc c_period) as [->|Hl]; [by rewrite bool_decide_eq_true_2|].
    rewrite bool_decide_eq_false_2 by congruence. by rewrite take_ge. }
  rewrite Hstem. clear Hstem. clearbody end_. rewrite (proj2 (Nat.eqb_neq end_ 0)) by lia.
  destruct (check_loop_ok name Hb end_ (proj2 Hend) end_ 0 0 [] 1 (take end_ (drop 0 name))) as (x & -> & Hx); [lia|done|done|done|]. rewrite bind_Done.
  set (ls := split_dots [] (take end_ (drop 0 name))) in *.
  replace (1 + labels_size ls <=? 255)%nat with (labels_size ls <? 255)%nat in Hx by done.
  destruct (forallb label_ok ls && (labels_size ls <? 255)%nat) eqn:Eok.
  - destruct Hx as (b & w & -> & Hlast & Hw). rewrite (proj2 (Nat.eqb_neq _ _)), (proj2 (Nat.ltb_ge 63 _)) by lia. cbn [orb].
    apply andb_true_iff in Eok as [Eok Esz]. apply Nat.ltb_lt in Esz. rewrite (proj2 (Nat.ltb_ge _ w)) by lia.
    case_decide as Hd.
    + rewrite (proj2 (Nat.ltb_ge _ _)) by lia.
      destruct (write_loop_ok name Hb end_ (proj2 Hend) buf end_ 0 pre 0 [] (take end_ (drop 0 name))) as (b' & Hwl); [lia|done|done|done|done|fold ls; lia|].
      fold ls in Hwl. rewrite Hwl, bind_Done. pose proof (length_wire_labels ls) as Hlw.
      rewrite store_wrote by (rewrite ?length_app; lia). rewrite bind_Done. eexists. split; [done|]. by rewrite <-app_assoc.
    + rewrite (proj2 (Nat.ltb_lt _ _)) by lia. eexists. split; [done|]. by eexists.
  - destruct x as [s|[b w]]; [eexists; split; [done|]; by exists s|].
    assert (((end_ - b =? 0) || (63 <? end_ - b) || (255 - (end_ - b + 1) <? w))%nat = true) as ->.
    { rewrite !orb_true_iff, Nat.eqb_eq, !Nat.ltb_lt. lia. }
    eexists. split; [done|]. by eexists.
Qed.

Lemma encode_query_ok name type id buf : Forall byte name -> in_width 16 id ->
  exists s out n, encode_query (Some name) type id (Some buf) (length buf) = Done (s, Some out, n) /\ length out = length buf /\
    match query_labels name with
    | Some ls => if decide (valid_query_type type = true /\ name <> [] /\ 17 + labels_size ls <= length buf)%nat
                 then s = s_ok /\ out = wrote buf 0 (query_bytes id type ls) /\ n = length (query_bytes id type ls) else s <> s_ok /\ n = 0%nat
    | None => s <> s_ok /\ n = 0%nat
    end.
Proof.
  intros Hb Hid. unfold encode_query. change (length buf <? header_size)%nat with (length buf <? 12)%nat.
  destruct (Nat.ltb_spec (length buf) 12) as [Hs|Hs].
  { eexists _, _, _. split; [done|]. split; [done|]. destruct (query_labels name); [|done]. rewrite decide_False by lia. done. }
  destruct (valid_query_type type) eqn:Et; cbn [negb orb].
  2:{ eexists _, _, _. split; [done|]. split; [done|]. destruct (query_labels name); [|done]. by rewrite decide_False by (intros [? _]; done). }
  destruct (Nat.eqb_spec (length name) 0) as [Hz|Hz].
  { eexists _, _, _. split; [done|]. split; [done|]. apply length_zero_iff_nil in Hz. destruct (query_labels name); [|done]. rewrite decide_False; [done|]. by intros (_ & ? & _). }
  assert (Hne : name <> []) by (by intros ->).
  rewrite write_be16_bytes by lia. rewrite bind_Done. fold (be16 id).
  do 10 (rewrite store_wrote by (rewrite ?length_app, ?length_be16; cbn [length]; lia); rewrite bind_Done).
  match goal with |- context [encode_name name (wrote buf 0 ?p)] => change p with (query_header id) end.
  destruct (encode_name_ok name buf (query_header id) Hb Hne (length_query_header id)) as (r & Hr & Hres); [unfold header_size; lia|].
  rewrite Hr. clear Hr. rewrite bind_Done. rewrite length_query_header in Hres. unfold header_size in Hres.
  assert (Hinl : (exists s, r = inl s /\ s <> s_ok) -> exists s out n, match r with
      | inl s => Done (s, Some (wrote buf 0 (query_header id)), 0%nat)
      | inr (out, at_) => out ← write_be16 out at_ type; out ← write_be16 out (at_ + 2) class_internet; Done (s_ok, Some out, (at_ + 4)%nat)
      end = Done (s, Some out, n) /\ length out = length buf /\ s <> s_ok /\ n = 0%nat).
  { intros (s & -> & Hs'). eexists _, _, _. split; [done|]. split; [|done]. rewrite length_wrote; [done|]. rewrite length_query_header. unfold header_size. lia. }
  destruct (query_labels name) as [ls|]; [|by apply Hinl].
  destruct (decide (12 + labels_size ls + 5 <= length buf)%nat) as [Hd|Hd].
  2:{ destruct (Hinl Hres) as (s & out & n & E & Ho & Hbad). exists s, out, n. split; [exact E|]. split; [done|]. by rewrite decide_False by lia. }
  subst r. pose proof (length_wire_labels ls) as Hlw. set (t := query_header id ++ wire_labels ls ++ [0]).
  assert (Ht : length t = (12 + labels_size ls + 1)%nat) by (subst t; rewrite !length_app, length_query_header, Hlw; cbn; unfold header_size; lia).
  rewrite write_be16_bytes by (rewrite length_wrote; lia). rewrite bind_Done. fold (be16 type). rewrite wrote_app by (rewrite ?length_be16; lia).
  rewrite write_be16_bytes by (rewrite length_wrote; rewrite ?length_app, ?length_be16; lia). rewrite bind_Done. fold (be16 class_internet).
  rewrite wrote_app by (rewrite ?length_app, ?length_be16; lia).
  assert (Eq : (t ++ be16 type) ++ be16 class_internet = query_bytes id type ls) by (subst t; unfold query_bytes; by rewrite <-!app_assoc).
  rewrite Eq. eexists _, _, _. split; [done|]. pose proof (length_query_bytes id type ls) as Hq.
  split; [rewrite length_wrote; lia|].
  rewrite decide_True by (split_and!; done || lia). split; [done|]. split; [done|]. lia.
Qed.

(** A name written out is the name at that place. *)
Lemma name_at_wire pre ls post : Forall label ls ->
  name_at (pre ++ wire_labels ls ++ 0 :: post) (length pre) ls (labels_size ls + 1) (S (length ls)).
Proof.
  intros H. revert pre. induction H as [|l ls Hl H IH]; intros pre.
  - apply N_root. by apply list_lookup_middle.
  - unfold wire_labels. cbn [fmap list_fmap concat app]. fold (wire_labels ls). cbn [labels_size sum_list_with length]. fold (labels_size ls).
    replace (S (length l) + labels_size ls + 1)%nat with (1 + length l + (labels_size ls + 1))%nat by lia.
    apply N_label; [by apply list_lookup_middle|done| |].
    + rewrite <-drop_drop, drop_app_length. cbn [drop]. rewrite drop_0, <-app_assoc. apply take_app_length.
    + specialize (IH (pre ++ Z.of_nat (length l) :: l)). rewrite length_app in IH. cbn [length] in IH.
      replace (length pre + 1 + length l)%nat with (length pre + S (length l))%nat by lia.
      rewrite <-app_assoc in IH. cbn [app] in IH. by rewrite <-app_assoc.
Qed.

Lemma labels_count ls : Forall label ls -> (2 * length ls <= labels_size ls)%nat.
Proof. induction 1 as [|l ls [Hl _] H IH]; [done|]. cbn [length labels_size sum_list_with]. fold (labels_size ls). lia. Qed.

Lemma query_labels_ok name ls : query_labels name = Some ls ->
  Forall label ls /\ (labels_size ls < 255)%nat /\ dotted ls = if bool_decide (name = [c_period]) then [] else stem name.
Proof.
  unfold query_labels. case_bool_decide; [intros [= <-]; split; [constructor|]; split; [cbn; lia|done]|].
  destruct (forallb label_ok _ && _) eqn:E; [|done]. intros [= <-]. apply andb_true_iff in E as [E1 E2]. apply Nat.ltb_lt in E2.
  split; [|split; [done|by rewrite dotted_split]]. apply Forall_forall. intros l Hl. rewrite forallb_forall in E1. apply label_ok_iff, E1.
  by apply list_elem_of_In.
Qed.

Lemma wire_labels_bytes ls : Forall label ls -> Forall byte (wire_labels ls).
Proof.
  induction 1 as [|l ls [Hl Hc] H IH]; [constructor|]. unfold wire_labels. cbn. constructor; [unfold byte; lia|]. apply Forall_app_2; [|exact IH].
  eapply Forall_impl; [exact Hc|]. intros c. unfold name_char, byte. lia.
Qed.

Lemma query_bytes_bytes id type ls : Forall label ls -> Forall byte (query_bytes id type ls).
Proof.
  intros H. assert (H16 : forall v, Forall byte (be16 v)) by (intros v; apply Forall_reverse, le_bytes_bytes).
  unfold query_bytes, query_header. repeat apply Forall_app_2; auto using wire_labels_bytes; repeat constructor; unfold byte; lia.
Qed.

(** C8. Decoding a DNS name is total and exact on every packet: the decoder ends whatever
    pointers the packet holds, never reads outside it or writes outside the text buffer, and
    succeeds exactly when the bytes at the offset are a name of RFC 1035 (labels of 1 to 63
    ASCII characters, pointers only backwards) of at most 255 octets, reached over at most 128
    labels and pointers, whose text fits; it then leaves the labels joined by dots,
    terminated, and the number of bytes the name takes in place. *)
Theorem dns_decode_name_exact data buffer offset :
  Forall byte data ->
  exists s out n, decode_name (Some data) (length data) offset (Some buffer) (length buffer) = Done (s, Some out, n) /\ length out = length buffer
    /\ (s = s_ok -> exists ls h, name_at data offset ls n h /\ acceptable (length buffer) ls h /\ out = wrote buffer 0 (dotted ls ++ [0]))
    /\ (forall ls k h, name_at data offset ls k h -> acceptable (length buffer) ls h -> s = s_ok /\ n = k /\ out = wrote buffer 0 (dotted ls ++ [0])).
Proof. intros Hd. by apply (decode_name_ok data Hd (length buffer) buffer eq_refl). Qed.

Lemma dns_decode_name_exact_witness :
  exists s out n, decode_name (Some [1; 97; 0; 1; 98; 192; 0]) 7 3 (Some [0; 0; 0; 0; 0]) 5 = Done (s, Some out, n)
    /\ s = s_ok /\ n = 4%nat /\ out = [98; 46; 97; 0; 0].
Proof.
  destruct (dns_decode_name_exact [1; 97; 0; 1; 98; 192; 0] [0; 0; 0; 0; 0] 3) as (s & out & n & E & _ & _ & Hc).
  - repeat constructor; unfold byte; lia.
  - assert (Hl : forall c, c = 97 \/ c = 98 -> label [c]).
    { intros c Hc'. split; [cbn; lia|]. constructor; [|constructor]. by destruct Hc' as [->| ->]. }
    destruct (Hc [[98]; [97]] 4%nat 4%nat) as (Hs & Hn & Ho).
    + apply (N_label _ 3 [98] [[97]] 2 3); [reflexivity|by auto|reflexivity|].
      apply (N_pointer _ 5 0 0 0 [[97]] 3 2); try reflexivity; try lia.
      apply (N_label _ 0 [97] [] 1 1); [reflexivity|by auto|reflexivity|]. apply N_root. reflexivity.
    + unfold acceptable. vm_compute. lia.
    + exists s, out, n. split; [exact E|]. split; [exact Hs|]. split; [exact Hn|]. rewrite Ho. reflexivity.
Defined.

(** C10. DNS query round trip: [encode_query] accepts exactly the names whose labels are
    1 to 63 ASCII characters and whose encoding has at most 255 octets (one dot at the end, and the
    root, included), for a supported type and a buffer with room; it then writes the header
    with one question, the name, the type and the class, and [decode_name] reads the name back
    from the packet.  Otherwise it reports an error and writes no length. *)
Theorem dns_query_roundtrip name type id buffer text :
  Forall byte name -> in_width 16 id -> length text = 256%nat ->
  exists s out n, encode_query (Some name) type id (Some buffer) (length buffer) = Done (s, Some out, n) /\ length out = length buffer /\
    match query_labels name with
    | Some ls =>
        if decide (valid_query_type type = true /\ name <> [] /\ 17 + labels_size ls <= length buffer)%nat
        then s = s_ok /\ take n out = query_bytes id type ls
             /\ decode_name (Some (take n out)) n header_size (Some text) 256
                = Done (s_ok, Some (wrote text 0 (dotted ls ++ [0])), (labels_size ls + 1)%nat)
             /\ dotted ls = (if bool_decide (name = [c_period]) then [] else stem name)
        else s <> s_ok /\ n = 0%nat
    | None => s <> s_ok /\ n = 0%nat
    end.
Proof.
  intros Hb Hid Ht. destruct (encode_query_ok name type id buffer Hb Hid) as (s & out & n & E & Hl & Hres). exists s, out, n. split; [done|]. split; [done|].
  destruct (query_labels name) as [ls|] eqn:Eq; [|done]. case_decide as Hd; [|done]. destruct Hres as (-> & -> & ->).
  destruct (query_labels_ok name ls Eq) as (Hls & Hsz & Hdot). split; [done|]. pose proof (length_query_bytes id type ls) as Hq.
  rewrite take_wrote by lia. split; [done|]. split; [|done].
  destruct (decode_name_ok (query_bytes id type ls) (query_bytes_bytes id type ls Hls) 256 text Ht header_size) as (s & out & k & -> & _ & _ & Hc).
  pose proof (name_at_wire (query_header id) ls (be16 type ++ be16 class_internet) Hls) as Hn.
  destruct (Hc ls (labels_size ls + 1)%nat (S (length ls)) Hn) as (-> & -> & ->); [|done].
  pose proof (labels_count ls Hls). pose proof (dotted_size ls Hls). unfold acceptable. lia.
Qed.

Lemma dns_query_roundtrip_witness :
  exists s out n, encode_query (Some [97; 46; 98; 46]) t_a 7 (Some (replicate 32 0)) 32 = Done (s, Some out, n) /\ length out = 32%nat /\
    s = s_ok /\ take n out = query_bytes 7 t_a [[97]; [98]]
    /\ decode_name (Some (take n out)) n header_size (Some (replicate 256 0)) 256
       = Done (s_ok, Some (wrote (replicate 256 0) 0 [97; 46; 98; 0]), 5%nat)
    /\ [97; 46; 98] = [97; 46; 98].
Proof.
  refine (dns_query_roundtrip [97; 46; 98; 46] t_a 7 (replicate 32 0) (replicate 256 0) _ _ _).
  - repeat constructor; unfold byte; lia.
  - unfold in_width. lia.
  - reflexivity.
Defined.
