(* ===== verification/DnsResponse.v ===== *)
(** * DNS responses (castle_ext/protocols/dns/message.hpp, types.hpp; castle_ext/net/endpoint.hpp)

    The parser of responses, over the names of DnsName.  The reference is the layout of
    RFC 1035: a header, one question and the resource records of three sections. *)

From S2P Require Import Prelude Status Bytes Words DnsName.
Open Scope Z_scope.

(** ** The code *)

Inductive address_family : Type := ipv4_family | ipv6_family.
Record endpoint : Type := mk_endpoint { address_ : list Z; family_ : address_family; port_ : Z; scope_id_ : Z }.
Definition endpoint_default : endpoint := mk_endpoint (replicate 16 0) ipv4_family 0 0.
Definition ipv4 (a b c d port : Z) : exec endpoint :=
  m ← store (address_ endpoint_default) 0 a; m ← store m 1 b; m ← store m 2 c; m ← store m 3 d;
  Done (mk_endpoint m ipv4_family port 0).
(** The bytes are [data + offset], not null where it is called here. *)
Definition ipv6 (data : list Z) (offset : nat) (port scope_id : Z) : exec endpoint :=
  m ← for_to 0 16 (fun i m => b ← load data (offset + i); store m i b) (address_ endpoint_default);
  Done (mk_endpoint m ipv6_family port scope_id).

Inductive section : Type := answer | authority | additional.

Record resource_record : Type := mk_record {
  type : Z; klass : Z; source_section : section; ttl : Z; address : endpoint;
  owner : list Z; target : list Z; preference : Z }.

Record response : Type := mk_response {
  transaction_id : Z; flags : Z; question_count : Z; answer_count : Z; authority_count : Z; additional_count : Z;
  question_type : Z; question_class : Z; rcode : Z;
  authoritative : bool; truncated : bool; recursion_desired : bool; recursion_available : bool;
  question_name : list Z; records : list resource_record; record_count : nat }.

Definition clear (r : response) : exec response :=
  q ← store (question_name r) 0 0;
  Done (mk_response 0 0 0 0 0 0 t_a class_internet 0 false false false false q (records r) 0).

(** [copy_text]: whether it fits, and the destination. *)
Definition copy_text (source destination : list Z) (capacity : nat) : exec (bool * list Z) :=
  after (while_loop (S (length source)) (fun '(i, _) => c ← load source i; Done (negb (c =? 0)))
           (fun '(i, destination) =>
              if (capacity <=? i + 1)%nat then Done (Return (false, destination))
              else c ← load source i; destination ← store destination i c; Done (Next ((i + 1)%nat, destination)))
           (0%nat, destination))
    (fun '(i, destination) => destination ← store destination i 0; Done (true, destination)).

Definition is_truncated_packet (data : ptr) (size : nat) : exec bool :=
  match data with
  | None => Done false
  | Some data => if (4 <=? size)%nat then f ← read_be16 data 2; Done (negb (Z.land f 0x0200 =? 0)) else Done false
  end.

Definition with_record (out : response) (i : nat) (rec : resource_record) : exec response :=
  rs ← store (records out) i rec;
  Done (mk_response (transaction_id out) (flags out) (question_count out) (answer_count out) (authority_count out) (additional_count out)
          (question_type out) (question_class out) (rcode out) (authoritative out) (truncated out) (recursion_desired out) (recursion_available out)
          (question_name out) rs (record_count out)).
Definition count_record (out : response) : response :=
  mk_response (transaction_id out) (flags out) (question_count out) (answer_count out) (authority_count out) (additional_count out)
    (question_type out) (question_class out) (rcode out) (authoritative out) (truncated out) (recursion_desired out) (recursion_available out)
    (question_name out) (records out) (record_count out + 1).

Definition with_address (r : resource_record) (a : endpoint) : resource_record :=
  mk_record (type r) (klass r) (source_section r) (ttl r) a (owner r) (target r) (preference r).
Definition with_target (r : resource_record) (t : list Z) : resource_record :=
  mk_record (type r) (klass r) (source_section r) (ttl r) (address r) (owner r) t (preference r).
Definition with_preference (r : resource_record) (p : Z) : resource_record :=
  mk_record (type r) (klass r) (source_section r) (ttl r) (address r) (owner r) (target r) p.

(** The data of a supported record: whether it is well formed, and the record. *)
Definition read_rdata (data : list Z) (size rdata rdlength : nat) (r : resource_record) : exec (bool * resource_record) :=
  if type r =? t_a then
    if negb (rdlength =? 4)%nat then Done (false, r)
    else
      a ← load data rdata; b ← load data (rdata + 1); c ← load data (rdata + 2); d ← load data (rdata + 3);
      e ← ipv4 a b c d 0; Done (true, with_address r e)
  else if type r =? t_aaaa then
    if negb (rdlength =? 16)%nat then Done (false, r)
    else e ← ipv6 data rdata 0 0; Done (true, with_address r e)
  else if type r =? t_mx then
    if (rdlength <? 3)%nat then Done (false, r)
    else
      p ← read_be16 data rdata;
      let r := with_preference r p in
      '(s, t, consumed) ← decode_name (Some data) size (rdata + 2) (Some (target r)) 256;
      let r := match t with Some t => with_target r t | None => r end in
      Done (succeeded s && (consumed + 2 =? rdlength)%nat, r)
  else
    '(s, t, consumed) ← decode_name (Some data) size rdata (Some (target r)) 256;
    let r := match t with Some t => with_target r t | None => r end in
    Done (succeeded s && (consumed =? rdlength)%nat, r).

Section Parse.
Context (MaxRecords : nat) (data : list Z) (size : nat).

(** The section of the record with this index. *)
Definition section_of (out : response) (index : nat) : section :=
  if (Z.to_nat (answer_count out + authority_count out) <=? index)%nat then additional
  else if (Z.to_nat (answer_count out) <=? index)%nat then authority else answer.

(** A pass of the loop over the records. *)
Definition record_body (index : nat) (st : nat * response) : exec (ctl (status * response) (nat * response)) :=
  let '(at_, out) := st in
  let source := section_of out index in
  '(result, name, consumed) ← decode_name (Some data) size at_ (Some (replicate 256 0)) 256;
  if negb (succeeded result) then Done (Return (result, out))
  else
    let at_ := (at_ + consumed)%nat in
    if (size <? at_)%nat || (size - at_ <? 10)%nat then Done (Return (s_invalid_argument, out))
    else
      type_value ← read_be16 data at_; class_value ← read_be16 data (at_ + 2);
      ttl_value ← read_be32 data (at_ + 4); rdlength ← read_be16 data (at_ + 8);
      let rdlength := Z.to_nat rdlength in
      let rdata := (at_ + 10)%nat in
      if (size <? rdata)%nat || (size - rdata <? rdlength)%nat then Done (Return (s_invalid_argument, out))
      else
        let at_ := (rdata + rdlength)%nat in
        if negb (class_value =? class_internet) then Done (Next (at_, out))
        else if negb (valid_query_type type_value) then Done (Next (at_, out))
        else if (MaxRecords <=? record_count out)%nat then Done (Return (s_full, out))
        else
          r ← load (records out) (record_count out);
          let r := mk_record type_value class_internet source ttl_value (address r) (owner r) (target r) (preference r) in
          '(fits, text) ← copy_text (default [] name) (owner r) 256;
          let r := mk_record (type r) (klass r) (source_section r) (ttl r) (address r) text (target r) (preference r) in
          if negb fits then out ← with_record out (record_count out) r; Done (Return (s_out_of_range, out))
          else
            '(fine, r) ← read_rdata data size rdata rdlength r;
            out ← with_record out (record_count out) r;
            if negb fine then Done (Return (s_invalid_argument, out)) else Done (Next (at_, count_record out)).

(** The header, once its identifier is the one expected. *)
Definition with_header (out : response) (id f qd an ns ar : Z) : response :=
  mk_response id f qd an ns ar (question_type out) (question_class out) (Z.land f 0x000F)
    (negb (Z.land f 0x0400 =? 0)) (negb (Z.land f 0x0200 =? 0)) (negb (Z.land f 0x0100 =? 0)) (negb (Z.land f 0x0080 =? 0))
    (question_name out) (records out) (record_count out).
Definition with_id (out : response) (id f : Z) : response :=
  mk_response id f (question_count out) (answer_count out) (authority_count out) (additional_count out) (question_type out) (question_class out)
    (rcode out) (authoritative out) (truncated out) (recursion_desired out) (recursion_available out) (question_name out) (records out) (record_count out).
Definition with_question (out : response) (q : list Z) (t c : Z) : response :=
  mk_response (transaction_id out) (flags out) (question_count out) (answer_count out) (authority_count out) (additional_count out) t c
    (rcode out) (authoritative out) (truncated out) (recursion_desired out) (recursion_available out) q (records out) (record_count out).

Definition parse_records (at_ : nat) (out : response) : exec (status * response) :=
  let total := Z.to_nat (answer_count out + authority_count out + additional_count out) in
  after (for_range 0 total record_body (at_, out))
    (fun '(at_, out) => Done (if (at_ =? size)%nat then s_ok else s_invalid_argument, out)).
End Parse.

Definition parse_response (MaxRecords : nat) (data : ptr) (size : nat) (expected_id : Z) (out : response) : exec (status * response) :=
  out ← clear out;
  match data with
  | None => Done (s_invalid_argument, out)
  | Some data =>
      if (size <? header_size)%nat || (max_message_size <? Z.of_nat size) then Done (s_invalid_argument, out)
      else
        id ← read_be16 data 0;
        let out := with_id out id (flags out) in
        if negb (id =? expected_id) then Done (s_invalid_argument, out)
        else
          f ← read_be16 data 2;
          let out := with_id out id f in
          if (Z.land f 0x8000 =? 0) || negb (Z.land f 0x7800 =? 0) || negb (Z.land f 0x0070 =? 0) then Done (s_invalid_argument, out)
          else
            qd ← read_be16 data 4; an ← read_be16 data 6; ns ← read_be16 data 8; ar ← read_be16 data 10;
            let out := with_header out id f qd an ns ar in
            if negb (qd =? 1) then Done (s_invalid_argument, out)
            else
              '(result, q, consumed) ← decode_name (Some data) size header_size (Some (question_name out)) 256;
              let out := with_question out (default [] q) (question_type out) (question_class out) in
              if negb (succeeded result) then Done (result, out)
              else
                let at_ := (header_size + consumed)%nat in
                if (size <? at_)%nat || (size - at_ <? 4)%nat then Done (s_invalid_argument, out)
                else
                  qt ← read_be16 data at_; qc ← read_be16 data (at_ + 2);
                  parse_records MaxRecords data size (at_ + 4) (with_question out (question_name out) qt qc)
  end.

(** ** Messages on the wire *)

(** A name of the accepted size, and the bytes it takes in place. *)
Definition name_here (data : list Z) (at_ : nat) (ls : list (list Z)) (k : nat) : Prop :=
  exists h, name_at data at_ ls k h /\ acceptable 256 ls h.

Inductive rdata : Type :=
| rd_a (bytes : list Z)
| rd_aaaa (bytes : list Z)
| rd_name (name : list (list Z))
| rd_mx (preference : Z) (exchange : list (list Z)).

Inductive rdata_at (data : list Z) (at_ len : nat) : Z -> rdata -> Prop :=
| RD_a : len = 4%nat -> rdata_at data at_ len t_a (rd_a (take 4 (drop at_ data)))
| RD_aaaa : len = 16%nat -> rdata_at data at_ len t_aaaa (rd_aaaa (take 16 (drop at_ data)))
| RD_mx ls k : len = (k + 2)%nat -> name_here data (at_ + 2) ls k -> rdata_at data at_ len t_mx (rd_mx (field data at_ 2) ls)
| RD_name t ls : t = t_cname \/ t = t_ns -> name_here data at_ ls len -> rdata_at data at_ len t (rd_name ls).

Record rr : Type := mk_rr { rr_type : Z; rr_section : section; rr_ttl : Z; rr_owner : list (list Z); rr_data : rdata }.

(** The layout of a record: its owner of [k] bytes, ten bytes and [len] bytes of data. *)
Definition laid_out (data : list Z) (at_ : nat) (ls : list (list Z)) (k len : nat) : Prop :=
  name_here data at_ ls k /\ len = Z.to_nat (field data (at_ + k + 8) 2) /\ (at_ + k + 10 + len <= length data)%nat.

(** Internet records of the five types are kept, the others are skipped. *)
Definition kept (data : list Z) (at_ k : nat) : bool :=
  (field data (at_ + k + 2) 2 =? class_internet) && valid_query_type (field data (at_ + k) 2).

Inductive record_at (data : list Z) (s : section) (at_ : nat) : option rr -> nat -> Prop :=
| R_skipped ls k len : laid_out data at_ ls k len -> kept data at_ k = false -> record_at data s at_ None (at_ + k + 10 + len)
| R_kept ls k len d :
    laid_out data at_ ls k len -> kept data at_ k = true -> rdata_at data (at_ + k + 10) len (field data (at_ + k) 2) d ->
    record_at data s at_ (Some (mk_rr (field data (at_ + k) 2) s (field data (at_ + k + 4) 4) ls d)) (at_ + k + 10 + len).

Inductive records_at (data : list Z) : list section -> nat -> list rr -> nat -> Prop :=
| RS_nil at_ : records_at data [] at_ [] at_
| RS_cons s ss at_ o mid xs end_ :
    record_at data s at_ o mid -> records_at data ss mid xs end_ -> records_at data (s :: ss) at_ (option_list o ++ xs) end_.

Definition sections (an ns ar : nat) : list section := replicate an answer ++ replicate ns authority ++ replicate ar additional.

Record message : Type := mk_message {
  m_question : list (list Z); m_size : nat; m_records : list rr }.

(** A response with one question: a standard query whose reserved bits are clear. *)
Definition message_at (data : list Z) (id : Z) (m : message) : Prop :=
  (12 <= length data)%nat /\ Z.of_nat (length data) <= max_message_size
  /\ field data 0 2 = id
  /\ Z.testbit (field data 2 2) 15 = true /\ (field data 2 2 / 2 ^ 11) mod 16 = 0 /\ (field data 2 2 / 2 ^ 4) mod 8 = 0
  /\ field data 4 2 = 1
  /\ name_here data 12 (m_question m) (m_size m) /\ (12 + m_size m + 4 <= length data)%nat
  /\ records_at data (sections (Z.to_nat (field data 6 2)) (Z.to_nat (field data 8 2)) (Z.to_nat (field data 10 2)))
       (12 + m_size m + 4) (m_records m) (length data).

(** What the caller finds in the response. *)
Definition holds (buffer text : list Z) : Prop := take (S (length text)) buffer = text ++ [0].

Definition carries (r : resource_record) (d : rdata) : Prop :=
  match d with
  | rd_a bs => address r = mk_endpoint (bs ++ replicate 12 0) ipv4_family 0 0
  | rd_aaaa bs => address r = mk_endpoint bs ipv6_family 0 0
  | rd_name ls => holds (target r) (dotted ls)
  | rd_mx p ls => preference r = p /\ holds (target r) (dotted ls)
  end.
Definition stored (r : resource_record) (x : rr) : Prop :=
  type r = rr_type x /\ klass r = class_internet /\ source_section r = rr_section x /\ ttl r = rr_ttl x
  /\ holds (owner r) (dotted (rr_owner x)) /\ carries r (rr_data x).

Definition decoded (data : list Z) (out : response) (m : message) : Prop :=
  let f := field data 2 2 in
  transaction_id out = field data 0 2 /\ flags out = f /\ question_count out = field data 4 2
  /\ answer_count out = field data 6 2 /\ authority_count out = field data 8 2 /\ additional_count out = field data 10 2
  /\ rcode out = f mod 16 /\ authoritative out = Z.testbit f 10 /\ truncated out = Z.testbit f 9
  /\ recursion_desired out = Z.testbit f 8 /\ recursion_available out = Z.testbit f 7
  /\ holds (question_name out) (dotted (m_question m))
  /\ question_type out = field data (12 + m_size m) 2 /\ question_class out = field data (12 + m_size m + 2) 2
  /\ record_count out = length (m_records m) /\ Forall2 stored (take (record_count out) (records out)) (m_records m).

(** The fixed sizes of the arrays. *)
Definition well_sized (r : resource_record) : Prop := length (owner r) = 256%nat /\ length (target r) = 256%nat.
Definition shaped (MaxRecords : nat) (out : response) : Prop :=
  length (question_name out) = 256%nat /\ length (records out) = MaxRecords /\ Forall well_sized (records out)
  /\ (record_count out <= MaxRecords)%nat.

(** ** Numbers, flags and texts *)

(** A mask of [n] bits from bit [k] on. *)
Lemma land_mask_zero f k n : 0 <= f -> 0 <= k -> 0 <= n -> (Z.land f (Z.shiftl (Z.ones n) k) =? 0) = ((f / 2 ^ k) mod 2 ^ n =? 0).
Proof.
  intros Hf Hk Hn. rewrite <-Z.shiftr_div_pow2, <-Z.land_ones by done.
  assert (E : Z.land f (Z.shiftl (Z.ones n) k) = Z.shiftl (Z.land (Z.shiftr f k) (Z.ones n)) k).
  { apply Z.bits_inj'. intros i Hi. rewrite Z.land_spec, !Z.shiftl_spec by done. destruct (Z.lt_ge_cases i k).
    - by rewrite !(Z.testbit_neg_r _ (i - k)), andb_false_r by lia.
    - rewrite Z.land_spec, Z.shiftr_spec by lia. by replace (i - k + k) with i by lia. }
  rewrite E, Z.shiftl_mul_pow2 by done. apply eq_true_iff_eq. rewrite !Z.eqb_eq, Z.mul_eq_0. assert (0 < 2 ^ k) by (by apply Z.pow_pos_nonneg). lia.
Qed.

Lemma land_flag f k : 0 <= f -> 0 <= k -> negb (Z.land f (2 ^ k) =? 0) = Z.testbit f k.
Proof.
  intros Hf Hk. replace (2 ^ k) with (Z.shiftl (Z.ones 1) k) by (rewrite Z.shiftl_mul_pow2 by done; change (Z.ones 1) with 1; lia).
  rewrite land_mask_zero by lia. rewrite Z.testbit_eqb by lia. change (2 ^ 1) with 2.
  pose proof (Z.mod_pos_bound (f / 2 ^ k) 2 ltac:(lia)). destruct (Z.eqb_spec ((f / 2 ^ k) mod 2) 0), (Z.eqb_spec ((f / 2 ^ k) mod 2) 1); cbn; lia.
Qed.

Lemma dotted_chars ls : Forall label ls -> Forall (fun c => name_char c = true) (dotted ls).
Proof.
  induction 1 as [|l ls [_ Hl] H IH]; [constructor|]. cbn [dotted]. destruct ls; [done|]. apply Forall_app_2; [done|]. by constructor.
Qed.

Lemma copy_text_ok source destination t capacity :
  holds source t -> Forall (fun c => name_char c = true) t -> (length t < capacity)%nat -> length destination = capacity ->
  copy_text source destination capacity = Done (true, wrote destination 0 (t ++ [0])).
Proof.
  intros Hs Ht Hc Hd. unfold copy_text.
  assert (Hat : forall i c, (t ++ [0]) !! i = Some c -> source !! i = Some c).
  { intros i c Hi. rewrite <-Hs in Hi. by apply lookup_take_Some in Hi as [? _]. }
  assert (Hlen : (length t < length source)%nat) by (apply lookup_lt_Some with 0; apply Hat; by apply list_lookup_middle).
  match goal with |- context [while_loop (S ?n) ?c ?b _] =>
    assert (H : forall k pre post, t = pre ++ post -> (length post <= k)%nat ->
      while_loop (S k) c b (length pre, wrote destination 0 pre) = Done (Next (length t, wrote destination 0 t))) end.
  { induction k as [|k IH]; intros pre post -> Hk.
    all: cbn [while_loop]; destruct post as [|c post].
    all: try (cbn in Hk; lia).
    1,2: rewrite app_nil_r in *; rewrite (load_Done _ _ 0) by (apply Hat; by apply list_lookup_middle); done.
    assert (Hsc : source !! length pre = Some c) by (apply Hat; rewrite <-app_assoc; by apply list_lookup_middle).
    rewrite (load_Done _ _ _ Hsc), !bind_Done. apply Forall_app in Ht as [_ [Hcc _]%Forall_cons].
    assert (Hz : (c =? 0) = false) by (unfold name_char in Hcc; lia). rewrite Hz. cbn [negb].
    rewrite length_app in Hc. cbn [length] in *. rewrite (proj2 (Nat.leb_gt _ _)) by lia.
    rewrite store_wrote, bind_Done by lia. specialize (IH (pre ++ [c]) post). rewrite length_app, <-app_assoc in IH. cbn [length app] in IH.
    apply IH; [done|lia]. }
  specialize (H (length source) [] t eq_refl). cbn [length] in H. rewrite wrote_nil in H. rewrite H by lia. cbn [after].
  rewrite store_wrote by lia. by rewrite bind_Done.
Qed.

Lemma holds_wrote buffer t : (length t < length buffer)%nat -> holds (wrote buffer 0 (t ++ [0])) t.
Proof.
  intros H. unfold holds. replace (S (length t)) with (length (t ++ [0])) by (rewrite length_app; cbn; lia). apply take_wrote.
  rewrite length_app. cbn. lia.
Qed.

Lemma ipv4_ok data at_ : (at_ + 4 <= length data)%nat ->
  (a ← load data at_; b ← load data (at_ + 1); c ← load data (at_ + 2); d ← load data (at_ + 3); ipv4 a b c d 0)
  = Done (mk_endpoint (take 4 (drop at_ data) ++ replicate 12 0) ipv4_family 0 0).
Proof.
  intros H. destruct (drop at_ data) as [|a [|b [|c [|d r]]]] eqn:E; apply (f_equal length) in E as El; rewrite length_drop in El; cbn [length] in El; try lia.
  assert (L : forall i x, drop at_ data !! i = Some x -> load data (at_ + i) = Done x).
  { intros i x Hx. rewrite lookup_drop in Hx. by apply load_Done. }
  rewrite E in L. rewrite <-(Nat.add_0_r at_) at 1. rewrite (L 0%nat a), (L 1%nat b), (L 2%nat c), (L 3%nat d) by done. reflexivity.
Qed.

Lemma ipv6_ok data at_ : (at_ + 16 <= length data)%nat ->
  ipv6 data at_ 0 0 = Done (mk_endpoint (take 16 (drop at_ data)) ipv6_family 0 0).
Proof.
  intros H. unfold ipv6. change (address_ endpoint_default) with (replicate 16 0).
  destruct (for_to_inv (fun i m => m = wrote (replicate 16 0) 0 (take i (drop at_ data)))
    (fun i m => b ← load data (at_ + i); store m i b) 0 16 (replicate 16 0)) as (m & -> & ->).
  - reflexivity.
  - intros i m Hi ->. destruct (lookup_lt_is_Some_2 data (at_ + i)) as [c Hc]; [lia|]. rewrite (load_Done _ _ _ Hc), bind_Done.
    rewrite <-lookup_drop in Hc. rewrite store_wrote by (rewrite ?length_take, ?length_drop, ?length_replicate; lia).
    eexists. split; [done|]. by rewrite (take_S_r _ _ _ Hc).
  - rewrite bind_Done. do 2 f_equal. rewrite wrote_0, (drop_ge (replicate 16 0)), app_nil_r; [done|].
    rewrite length_take, length_drop, length_replicate. lia.
Qed.

(** ** Records *)

Section Records.
Context (data : list Z) (Hdata : Forall byte data).

Lemma read_name at_ buffer : length buffer = 256%nat ->
  exists s out n, decode_name (Some data) (length data) at_ (Some buffer) 256 = Done (s, Some out, n) /\ length out = 256%nat /\
    ((s = s_ok /\ exists ls, name_here data at_ ls n /\ holds out (dotted ls) /\ Forall label ls)
     \/ (s <> s_ok /\ forall ls k, ~ name_here data at_ ls k)).
Proof using Hdata.
  intros Hb. destruct (decode_name_ok data Hdata 256 buffer Hb at_) as (s & out & n & E & Hl & Hok & Hall). exists s, out, n. split; [done|]. split; [done|].
  destruct (decide (s = s_ok)) as [->|Hs].
  - left. split; [done|]. destruct (Hok eq_refl) as (ls & h & Hn & Ha & ->). exists ls. split; [by exists h|]. split; [|by eapply name_at_labels].
    apply holds_wrote. unfold acceptable in Ha. lia.
  - right. split; [done|]. intros ls k (h & Hn & Ha). by destruct (Hall ls k h Hn Ha).
Qed.

Lemma name_here_size at_ ls k ls' k' : name_here data at_ ls k -> name_here data at_ ls' k' -> k = k'.
Proof using Hdata.
  intros (h & Hn & Ha) (h' & Hn' & Ha'). destruct (decode_name_ok data Hdata 256 (replicate 256 0) eq_refl at_) as (s & out & n & _ & _ & _ & Hall).
  destruct (Hall _ _ _ Hn Ha) as (_ & <- & _). by destruct (Hall _ _ _ Hn' Ha') as (_ & <- & _).
Qed.

Lemma name_here_positive at_ ls k : name_here data at_ ls k -> (0 < k)%nat.
Proof. intros (h & Hn & _). destruct Hn; lia. Qed.

(** The fields [read_rdata] leaves alone. *)
Definition same_fields (r r' : resource_record) : Prop :=
  type r' = type r /\ klass r' = klass r /\ source_section r' = source_section r /\ ttl r' = ttl r /\ owner r' = owner r.

Lemma read_rdata_ok at_ len r : well_sized r -> valid_query_type (type r) = true -> (at_ + len <= length data)%nat ->
  exists fine r', read_rdata data (length data) at_ len r = Done (fine, r') /\ well_sized r' /\ same_fields r r' /\
    if fine : bool then exists d, rdata_at data at_ len (type r) d /\ carries r' d else forall d, ~ rdata_at data at_ len (type r) d.
Proof using Hdata.
  intros [Ho Ht] Hv Hl. unfold read_rdata. assert (Hfail : forall t d, rdata_at data at_ len t d ->
    (t = t_a -> len = 4%nat) /\ (t = t_aaaa -> len = 16%nat) /\ (t = t_mx -> exists ls k, len = (k + 2)%nat /\ name_here data (at_ + 2) ls k) /\
    (t <> t_a -> t <> t_aaaa -> t <> t_mx -> exists ls, name_here data at_ ls len)).
  { intros t d H. split_and!; destruct H as [| | |t ls [-> | ->]]; try done; eauto. }
  destruct (Z.eqb_spec (type r) t_a) as [Ea|Na].
  { destruct (Nat.eqb_spec len 4) as [->|Hn]; cbn [negb].
    - pose proof (ipv4_ok data at_ Hl) as E4. destruct (load data at_) as [a|]; [|done]. destruct (load data (at_ + 1)) as [b|]; [|done].
      destruct (load data (at_ + 2)) as [c|]; [|done]. destruct (load data (at_ + 3)) as [d|]; [|done]. cbn in E4 |- *. rewrite E4, bind_Done.
      eexists _, _. split; [done|]. split; [done|]. split; [done|]. rewrite Ea. eexists. split; [by constructor|done].
    - eexists _, _. split; [done|]. split; [done|]. split; [done|]. intros d Hd. apply Hfail in Hd as (H & _). by apply Hn, H. }
  destruct (Z.eqb_spec (type r) t_aaaa) as [E6|N6].
  { destruct (Nat.eqb_spec len 16) as [->|Hn]; cbn [negb].
    - rewrite ipv6_ok by done. rewrite bind_Done. eexists _, _. split; [done|]. split; [done|]. split; [done|]. rewrite E6.
      eexists. split; [by constructor|done].
    - eexists _, _. split; [done|]. split; [done|]. split; [done|]. intros d Hd. apply Hfail in Hd as (_ & H & _). by apply Hn, H. }
  destruct (Z.eqb_spec (type r) t_mx) as [Ex|Nx].
  { destruct (Nat.ltb_spec len 3) as [Hlt|Hge].
    { eexists _, _. split; [done|]. split; [done|]. split; [done|]. intros d Hd. apply Hfail in Hd as (_ & _ & H & _).
      destruct (H Ex) as (ls & k & -> & Hk%name_here_positive). lia. }
    rewrite read_be16_field, bind_Done by (done || lia).
    destruct (read_name (at_ + 2) (target r) Ht) as (s & out & n & E & Hout & Hres). cbn [target with_preference]. rewrite E, bind_Done. cbv beta zeta.
    eexists _, _. split; [done|]. split; [done|]. split; [done|]. destruct Hres as [[-> (ls & Hn & Hh & _)]|[Hs Hno]].
    - change (succeeded s_ok) with true. cbn [andb]. destruct (Nat.eqb_spec (n + 2) len) as [<-|Hne].
      + eexists. split; [rewrite Ex; by eapply RD_mx|done].
      + intros d Hd. apply Hfail in Hd as (_ & _ & H & _). destruct (H Ex) as (ls' & k & -> & Hk). by rewrite (name_here_size _ _ _ _ _ Hn Hk) in Hne.
    - assert (succeeded s = false) as -> by (by destruct s). cbn [andb]. intros d Hd. apply Hfail in Hd as (_ & _ & H & _).
      destruct (H Ex) as (ls' & k & -> & Hk). by eapply Hno. }
  destruct (read_name at_ (target r) Ht) as (s & out & n & E & Hout & Hres). rewrite E, bind_Done. cbv beta zeta.
  eexists _, _. split; [done|]. split; [done|]. split; [done|]. destruct Hres as [[-> (ls & Hn & Hh & _)]|[Hs Hno]].
  - change (succeeded s_ok) with true. cbn [andb]. destruct (Nat.eqb_spec n len) as [<-|Hne].
    + exists (rd_name ls). split; [|exact Hh]. apply RD_name; [|done]. unfold valid_query_type in Hv. lia.
    + intros d Hd. apply Hfail in Hd as (_ & _ & _ & H). destruct (H Na N6 Nx) as (ls' & Hk). by apply Hne, (name_here_size _ _ _ _ _ Hn Hk).
  - assert (succeeded s = false) as -> by (by destruct s). cbn [andb]. intros d Hd. apply Hfail in Hd as (_ & _ & _ & H).
    destruct (H Na N6 Nx) as (ls' & Hk). by eapply Hno.
Qed.

(** The size and the fate of a record do not depend on how it is read. *)
Lemma record_at_fun s at_ o mid o' mid' : record_at data s at_ o mid -> record_at data s at_ o' mid' -> mid = mid' /\ length (option_list o) = length (option_list o').
Proof using Hdata.
  assert (Hsame : forall ls k len ls' k' len', laid_out data at_ ls k len -> laid_out data at_ ls' k' len' -> k = k' /\ len = len').
  { intros ls k len ls' k' len' (Hn & -> & _) (Hn' & -> & _). by rewrite (name_here_size _ _ _ _ _ Hn Hn'). }
  intros [ls k len Hl Hk|ls k len d Hl Hk _] [ls' k' len' Hl' Hk'|ls' k' len' d' Hl' Hk' _]; destruct (Hsame _ _ _ _ _ _ Hl Hl') as [<- <-];
    first [done|congruence].
Qed.

Context (MaxRecords : nat).

(** The header and the question of a response, without its records. *)
Definition header_of (out : response) : response :=
  mk_response (transaction_id out) (flags out) (question_count out) (answer_count out) (authority_count out) (additional_count out)
    (question_type out) (question_class out) (rcode out) (authoritative out) (truncated out) (recursion_desired out) (recursion_available out)
    (question_name out) [] 0.

(** The response holds the records read so far. *)
Definition progress (out0 out : response) (xs : list rr) : Prop :=
  header_of out = header_of out0 /\ shaped MaxRecords out /\ record_count out = length xs /\ Forall2 stored (take (length xs) (records out)) xs.

Lemma progress_store out0 out xs r : progress out0 out xs -> well_sized r -> (length xs < MaxRecords)%nat ->
  exists out', with_record out (record_count out) r = Done out' /\ progress out0 out' xs /\
    forall x, stored r x -> progress out0 (count_record out') (xs ++ [x]).
Proof.
  intros (Hh & (Hq & Hlen & Hsz & _) & Hc & Hall) Hr Hlt. unfold with_record. rewrite store_Done, bind_Done by lia. eexists. split; [done|].
  assert (Hsz' : Forall well_sized (<[record_count out := r]> (records out))) by (by apply Forall_insert).
  split.
  - unfold progress, shaped. cbn [records question_name record_count]. rewrite length_insert, take_insert_ge by lia. split_and!; try done; lia.
  - intros x Hx. unfold progress, shaped. split_and!; try done; cbn [records question_name record_count count_record]; rewrite ?length_insert, ?length_app; cbn [length]; try lia.
    rewrite Nat.add_1_r, (take_S_r _ _ r) by (rewrite Hc; apply list_lookup_insert_eq; lia).
    rewrite take_insert_ge by lia. apply Forall2_app; [done|by constructor].
Qed.

(** What a pass reports. *)
Definition pass_result (sec : section) (at_ : nat) (out0 : response) (xs : list rr) (x : ctl (status * response) (nat * response)) : Prop :=
  match x with
  | Next (at', out') => exists o, record_at data sec at_ o at' /\ progress out0 out' (xs ++ option_list o)
  | Return (s, out') => s <> s_ok /\ progress out0 out' xs /\
      forall o at', record_at data sec at_ o at' -> (MaxRecords < length (xs ++ option_list o))%nat
  end.

Lemma record_at_parts sec at_ o at' ls n : name_here data at_ ls n -> record_at data sec at_ o at' ->
  exists ls' len, laid_out data at_ ls' n len /\
    if kept data at_ n then is_Some o /\ exists d, rdata_at data (at_ + n + 10) len (field data (at_ + n) 2) d else o = None.
Proof using Hdata.
  intros Hn [ls' k len Hl Hk|ls' k len d Hl Hk Hd]; destruct Hl as (Hn' & Hlen & Hle);
    pose proof (name_here_size _ _ _ _ _ Hn Hn') as <-; exists ls', len; rewrite Hk; (split; [done|]); eauto.
Qed.

Lemma record_body_ok index at_ out0 out xs : progress out0 out xs ->
  exists x, record_body MaxRecords data (length data) index (at_, out) = Done x /\ pass_result (section_of out index) at_ out0 xs x.
Proof using Hdata.
  intros Hp. unfold record_body. destruct (read_name at_ (replicate 256 0) eq_refl) as (s & name & n & E & Hname & Hres). rewrite E, bind_Done. clear E.
  destruct Hres as [[-> (ls & Hn & Hh & Hls)]|[Hs Hno]].
  2:{ assert (succeeded s = false) as -> by (by destruct s). eexists. split; [done|]. split; [done|]. split; [done|].
      intros o at' Hr. destruct Hr as [? ? ? (Hn & _)|? ? ? ? (Hn & _)]; by apply Hno in Hn. }
  change (succeeded s_ok) with true. cbn [negb]. cbv zeta.
  assert (Hparts := fun o at' => record_at_parts (section_of out index) at_ o at' ls n Hn).
  destruct ((length data <? at_ + n)%nat || (length data - (at_ + n) <? 10)%nat) eqn:Eb.
  { eexists. split; [done|]. split; [done|]. split; [done|]. intros o at' (ls' & len & (_ & _ & Hle) & _)%Hparts. rewrite orb_true_iff, !Nat.ltb_lt in Eb. lia. }
  rewrite orb_false_iff, !Nat.ltb_ge in Eb.
  rewrite !read_be16_field, read_be32_field by (done || lia). rewrite !bind_Done. set (len := Z.to_nat (field data (at_ + n + 8) 2)).
  destruct ((length data <? at_ + n + 10)%nat || (length data - (at_ + n + 10) <? len)%nat) eqn:Ed.
  { eexists. split; [done|]. split; [done|]. split; [done|]. intros o at' (ls' & len' & (_ & -> & Hle) & _)%Hparts. fold len in Hle.
    rewrite orb_true_iff, !Nat.ltb_lt in Ed. lia. }
  rewrite orb_false_iff, !Nat.ltb_ge in Ed.
  assert (Hl : laid_out data at_ ls n len) by (split_and!; [done|done|lia]). clear Eb Ed.
  unfold kept in Hparts. pose proof (R_skipped data (section_of out index) at_ ls n len Hl) as Hskip.
  pose proof (fun d => R_kept data (section_of out index) at_ ls n len d Hl) as Hkept. unfold kept in Hskip, Hkept.
  destruct (Z.eqb_spec (field data (at_ + n + 2) 2) class_internet) as [Ec|Nc]; cbn [negb andb] in *.
  2:{ eexists. split; [done|]. exists None. split; [by apply Hskip|]. by rewrite app_nil_r. }
  destruct (valid_query_type (field data (at_ + n) 2)) eqn:Ev; cbn [negb] in *.
  2:{ eexists. split; [done|]. exists None. split; [by apply Hskip|]. by rewrite app_nil_r. }
  assert (Hpp := Hp). destruct Hpp as (_ & (_ & Hlen & Hsz & _) & Hcount & _).
  destruct (Nat.leb_spec MaxRecords (record_count out)) as [Hfull|Hroom].
  { eexists. split; [done|]. split; [done|]. split; [done|]. intros o at' (ls' & len' & _ & [x ->] & _)%Hparts. rewrite length_app. cbn. lia. }
  destruct (lookup_lt_is_Some_2 (records out) (record_count out)) as [r Hr]; [lia|]. rewrite (load_Done _ _ _ Hr), bind_Done.
  pose proof (Forall_lookup_1 _ _ _ _ Hsz Hr) as [Ho Ht]. cbv zeta. cbn [owner type klass source_section ttl target address preference].
  change (default [] (Some name)) with name.
  pose proof (dotted_size ls Hls) as Hds. destruct Hn as (h & Hn & Hacc). unfold acceptable in Hacc.
  rewrite (copy_text_ok name (owner r) (dotted ls) 256), bind_Done by (done || lia || by apply dotted_chars). cbn [negb].
  match goal with |- context [read_rdata _ _ _ _ ?rec] => set (rec0 := rec) end.
  destruct (read_rdata_ok (at_ + n + 10) len rec0) as (fine & r' & -> & Hr' & Hsame & Hfine); [|done|unfold laid_out in Hl; lia|].
  { split; cbn; [|done]. rewrite length_wrote; [done|]. rewrite length_app. cbn. lia. }
  rewrite bind_Done. destruct (progress_store out0 out xs r' Hp Hr') as (out' & -> & Hp' & Hstored); [lia|]. rewrite bind_Done.
  destruct fine; cbn [negb].
  - destruct Hfine as (d & Hd & Hcar). eexists. split; [done|]. exists (Some (mk_rr (field data (at_ + n) 2) (section_of out index) (field data (at_ + n + 4) 4) ls d)).
    split; [by apply Hkept|]. apply Hstored. destruct Hsame as (Hty & Hk & Hss & Htt & Hown). split_and!; try done. cbn [rr_owner]. rewrite Hown.
    apply holds_wrote. lia.
  - eexists. split; [done|]. split; [done|]. split; [done|]. intros o at' (ls' & len' & (_ & -> & _) & _ & d & Hd)%Hparts. by apply Hfine in Hd.
Qed.

Lemma records_at_cons s ss at_ xs e : records_at data (s :: ss) at_ xs e ->
  exists o mid ys, record_at data s at_ o mid /\ records_at data ss mid ys e /\ xs = option_list o ++ ys.
Proof. inversion 1; subst. eauto 6. Qed.

Lemma records_at_fun ss at_ xs e xs' e' : records_at data ss at_ xs e -> records_at data ss at_ xs' e' -> e = e' /\ length xs = length xs'.
Proof using Hdata.
  intros H. revert xs' e'. induction H as [at_|s ss at_ o mid xs e Hr H IH]; intros xs' e' H'; [by inversion H'|].
  apply records_at_cons in H' as (o' & mid' & ys & Hr' & H' & ->).
  destruct (record_at_fun _ _ _ _ _ _ Hr Hr') as [<- Ho]. destruct (IH _ _ H') as [-> ?]. rewrite !length_app. lia.
Qed.

Lemma section_of_header out out0 i : header_of out = header_of out0 -> section_of out i = section_of out0 i.
Proof.
  intros H. pose proof (f_equal answer_count H) as Ha. pose proof (f_equal authority_count H) as Hn. cbn in Ha, Hn. unfold section_of. by rewrite Ha, Hn.
Qed.

Lemma records_loop_ok out0 n i at_ out xs : progress out0 out xs ->
  exists x, for_range i n (record_body MaxRecords data (length data)) (at_, out) = Done x /\
    match x with
    | Next (at', out') => exists ys, records_at data (section_of out0 <$> seq i n) at_ ys at' /\ progress out0 out' (xs ++ ys)
    | Return (s, out') => s <> s_ok /\ shaped MaxRecords out' /\
        forall ys at', records_at data (section_of out0 <$> seq i n) at_ ys at' -> (MaxRecords < length (xs ++ ys))%nat
    end.
Proof using Hdata.
  revert i at_ out xs. induction n as [|n IH]; intros i at_ out xs Hp; cbn [for_range seq fmap list_fmap].
  { eexists. split; [done|]. exists []. split; [constructor|]. by rewrite app_nil_r. }
  destruct (record_body_ok i at_ out0 out xs Hp) as (x & -> & Hx). rewrite (section_of_header out out0) in Hx by apply Hp.
  destruct x as [[s out']|[at' out']].
  - destruct Hx as (Hs & Hp' & Hno). eexists. split; [done|]. split; [done|]. split; [apply Hp'|]. intros ys e (o & mid & zs & Hr & _ & ->)%records_at_cons.
    apply Hno in Hr. rewrite app_assoc, length_app. lia.
  - destruct Hx as (o & Hr & Hp'). destruct (IH (S i) at' out' _ Hp') as (x & -> & Hx). eexists. split; [done|]. destruct x as [[s out'']|[at'' out'']].
    + destruct Hx as (Hs & Hsh & Hno). split; [done|]. split; [done|]. intros ys e (o' & mid & zs & Hr' & Hz & ->)%records_at_cons.
      destruct (record_at_fun _ _ _ _ _ _ Hr Hr') as [<- Ho]. apply Hno in Hz. rewrite !length_app in *. lia.
    + destruct Hx as (ys & Hy & Hp''). exists (option_list o ++ ys). split; [by econstructor|]. by rewrite app_assoc.
Qed.

Lemma sections_of out an ns ar : answer_count out = Z.of_nat an -> authority_count out = Z.of_nat ns ->
  section_of out <$> seq 0 (an + ns + ar) = sections an ns ar.
Proof.
  intros Ha Hn. unfold sections. rewrite !seq_app, !fmap_app, <-app_assoc. cbn [Nat.add].
  assert (H : forall f k n, (forall i, (k <= i < k + n)%nat -> section_of out i = f) -> section_of out <$> seq k n = replicate n f).
  { intros f k n. revert k. induction n as [|n IH]; intros k Hf; [done|]. cbn. rewrite Hf by lia. f_equal. apply IH. intros i Hi. apply Hf. lia. }
  unfold section_of in *. rewrite Ha, Hn in *. repeat f_equal; apply H; intros i Hi.
  all: repeat match goal with |- context [(?a <=? ?b)%nat] => destruct (Nat.leb_spec a b) end; try done; lia.
Qed.

Lemma parse_records_ok at_ out an ns ar : progress out out [] ->
  answer_count out = Z.of_nat an -> authority_count out = Z.of_nat ns -> additional_count out = Z.of_nat ar ->
  exists s out', parse_records MaxRecords data (length data) at_ out = Done (s, out') /\ shaped MaxRecords out' /\
    (s = s_ok -> exists xs, records_at data (sections an ns ar) at_ xs (length data) /\ progress out out' xs) /\
    (forall xs, records_at data (sections an ns ar) at_ xs (length data) -> (length xs <= MaxRecords)%nat -> s = s_ok).
Proof using Hdata.
  intros Hp Ha Hn Hr. unfold parse_records. replace (Z.to_nat (answer_count out + authority_count out + additional_count out)) with (an + ns + ar)%nat by lia.
  destruct (records_loop_ok out (an + ns + ar) 0 at_ out [] Hp) as (x & -> & Hx). rewrite (sections_of out an ns ar) in Hx by done.
  destruct x as [[s out']|[at' out']]; cbn [after].
  - destruct Hx as (Hs & Hsh & Hno). eexists _, _. split; [done|]. split; [done|]. split; [done|]. intros xs H%Hno Hle. cbn in H. lia.
  - destruct Hx as (ys & Hy & Hp'). eexists _, _. split; [done|]. split; [apply Hp'|]. destruct (Nat.eqb_spec at' (length data)) as [->|Hne].
    + split; [|done]. intros _. by exists ys.
    + split; [done|]. intros xs H _. by destruct (records_at_fun _ _ _ _ _ _ Hy H).
Qed.
End Records.

(** ** Responses *)

Lemma header_flags f : 0 <= f ->
  ((Z.land f 0x8000 =? 0) || negb (Z.land f 0x7800 =? 0) || negb (Z.land f 0x0070 =? 0)) = false <->
  Z.testbit f 15 = true /\ (f / 2 ^ 11) mod 16 = 0 /\ (f / 2 ^ 4) mod 8 = 0.
Proof.
  intros Hf. pose proof (land_flag f 15 Hf ltac:(lia)) as H15. pose proof (land_mask_zero f 11 4 Hf ltac:(lia) ltac:(lia)) as H11.
  pose proof (land_mask_zero f 4 3 Hf ltac:(lia) ltac:(lia)) as H4. change (2 ^ 15) with 0x8000 in H15. change (Z.shiftl (Z.ones 4) 11) with 0x7800 in H11.
  change (Z.shiftl (Z.ones 3) 4) with 0x0070 in H4. change (2 ^ 4) with 16 in H11. change (2 ^ 3) with 8 in H4. rewrite <-H15, H11, H4.
  rewrite !orb_false_iff, !negb_false_iff, !Z.eqb_eq, negb_true_iff. tauto.
Qed.

Lemma response_clear_ok MaxRecords out : shaped MaxRecords out -> exists out', clear out = Done out' /\ shaped MaxRecords out' /\ record_count out' = 0%nat.
Proof.
  intros (Hq & Hl & Hsz & _). unfold clear. rewrite store_Done, bind_Done by lia. eexists. split; [done|]. split; [|done].
  split_and!; cbn [question_name records record_count]; [by rewrite length_insert|done|done|lia].
Qed.

Lemma header_bits f : 0 <= f ->
  Z.land f 0x000F = f mod 16 /\ negb (Z.land f 0x0400 =? 0) = Z.testbit f 10 /\ negb (Z.land f 0x0200 =? 0) = Z.testbit f 9
  /\ negb (Z.land f 0x0100 =? 0) = Z.testbit f 8 /\ negb (Z.land f 0x0080 =? 0) = Z.testbit f 7.
Proof.
  intros Hf. split_and!; [exact (Z.land_ones f 4 ltac:(lia))|exact (land_flag f 10 Hf ltac:(lia))|exact (land_flag f 9 Hf ltac:(lia))|
    exact (land_flag f 8 Hf ltac:(lia))|exact (land_flag f 7 Hf ltac:(lia))].
Qed.

(** The records behind the header and the question make the message. *)
Lemma decoded_progress MaxRecords data o q out' ls n xs :
  progress MaxRecords
    (with_question (with_header o (field data 0 2) (field data 2 2) (field data 4 2) (field data 6 2) (field data 8 2) (field data 10 2)) q
       (field data (12 + n) 2) (field data (12 + n + 2) 2)) out' xs ->
  holds q (dotted ls) -> 0 <= field data 2 2 -> decoded data out' (mk_message ls n xs).
Proof.
  intros (Hhead & _ & Hcnt & Hst) Hh Hf. pose proof (header_bits _ Hf) as (B1 & B2 & B3 & B4 & B5).
  match type of Hhead with _ = header_of ?o2 => assert (Hall : forall T (f : response -> T), f (header_of out') = f (header_of o2)) by (intros T f; by rewrite Hhead) end.
  unfold decoded. split_and!; cbn [m_question m_size m_records]; try (match goal with |- ?f out' = _ => etransitivity; [exact (Hall _ f)|]; by cbn end); try done.
  - unfold holds. change (question_name out') with (question_name (header_of out')). rewrite Hhead. exact Hh.
  - by rewrite Hcnt.
Qed.

(** C9. Parsing a DNS response is total and exact on every packet: [parse_response]
    never reads outside the packet or writes outside the response, whatever the
    packet claims about its counts, lengths and pointers, and succeeds exactly when the packet is a
    well-formed response to the query with the expected identifier (flags, one question, the
    records of the three sections with RDATA of their type, no byte left over) that
    has at most MaxRecords records of the supported kinds.  The response then holds the
    header, the question, and these records in order, with their sections, owners and data. *)
Theorem dns_response_exact MaxRecords data id out :
  Forall byte data -> shaped MaxRecords out ->
  exists s out', parse_response MaxRecords (Some data) (length data) id out = Done (s, out') /\ shaped MaxRecords out'
    /\ (s = s_ok -> exists m, message_at data id m /\ (length (m_records m) <= MaxRecords)%nat /\ decoded data out' m)
    /\ (forall m, message_at data id m -> (length (m_records m) <= MaxRecords)%nat -> s = s_ok).
Proof.
  intros Hd Hsh. unfold parse_response. destruct (response_clear_ok MaxRecords out Hsh) as (o1 & -> & Hs1 & Hc1). rewrite bind_Done.
  change ((length data <? header_size)%nat) with ((length data <? 12)%nat).
  destruct ((length data <? 12)%nat || (max_message_size <? Z.of_nat (length data))) eqn:Es.
  { eexists _, _. split; [done|]. split; [done|]. split; [done|]. intros m (H1 & H2 & _) _. rewrite orb_true_iff, Nat.ltb_lt in Es. lia. }
  rewrite orb_false_iff, Nat.ltb_ge in Es. destruct Es as [Hlo Hhi]. apply Z.ltb_ge in Hhi. rewrite (read_be16_field data 0), bind_Done by (done || lia).
  destruct (Z.eqb_spec (field data 0 2) id) as [Hid|Hid]; cbn [negb].
  2:{ eexists _, _. split; [done|]. split; [done|]. split; [done|]. by intros m (_ & _ & H & _). }
  rewrite (read_be16_field data 2), bind_Done by (done || lia). pose proof (field_width data 2 2 Hd) as [Hf _]. pose proof (header_flags _ Hf) as Hflags.
  destruct (_ || _ || _) eqn:Ef.
  { eexists _, _. split; [done|]. split; [done|]. split; [done|]. intros m (_ & _ & _ & H1 & H2 & H3 & _) _. discriminate (proj2 Hflags (conj H1 (conj H2 H3))). }
  pose proof (proj1 Hflags eq_refl) as Hfl. clear Ef Hflags. rewrite !read_be16_field, !bind_Done by (done || lia).
  destruct (Z.eqb_spec (field data 4 2) 1) as [Hq1|Hq1]; cbn [negb].
  2:{ eexists _, _. split; [done|]. split; [done|]. split; [done|]. by intros m (_ & _ & _ & _ & _ & _ & H & _). }
  destruct (read_name data Hd 12 (question_name o1) (proj1 Hs1)) as (s & q & n & E & Hlq & Hres). cbn [question_name with_header with_id].
  change header_size with 12%nat. rewrite E, bind_Done. clear E. change (default [] (Some q)) with q.
  assert (Hsq : forall o, header_of o = header_of o -> question_name o = q -> records o = records o1 -> record_count o = 0%nat -> shaped MaxRecords o).
  { intros o _ E1 E2 E3. unfold shaped. rewrite E1, E2, E3. unfold shaped in Hs1. split_and!; [done|apply Hs1|apply Hs1|lia]. }
  destruct Hres as [[-> (ls & Hn & Hh & _)]|[Hs Hno]].
  2:{ assert (succeeded s = false) as -> by (by destruct s). eexists _, _. split; [done|]. split; [by apply Hsq|]. split; [done|].
      intros m (_ & _ & _ & _ & _ & _ & _ & H & _). by apply Hno in H. }
  change (succeeded s_ok) with true. cbn [negb]. destruct ((length data <? 12 + n)%nat || (length data - (12 + n) <? 4)%nat) eqn:Eq.
  { eexists _, _. split; [done|]. split; [by apply Hsq|]. split; [done|]. intros m (_ & _ & _ & _ & _ & _ & _ & H & Hle & _) _.
    pose proof (name_here_size data Hd _ _ _ _ _ Hn H) as Hk. rewrite orb_true_iff, !Nat.ltb_lt in Eq. lia. }
  rewrite orb_false_iff, !Nat.ltb_ge in Eq. rewrite !read_be16_field, !bind_Done by (done || lia).
  match goal with |- context [parse_records _ _ _ _ ?o] => set (o2 := o) end.
  destruct (parse_records_ok data Hd MaxRecords (12 + n + 4) o2 (Z.to_nat (field data 6 2)) (Z.to_nat (field data 8 2)) (Z.to_nat (field data 10 2)))
    as (s & out' & -> & Hsh' & Hok & Hall).
  { split; [done|]. split; [by apply Hsq|]. split; [done|constructor]. }
  1-3: cbn; symmetry; apply Z2Nat.id, field_width, Hd.
  eexists _, _. split; [done|]. split; [done|]. split.
  - intros ->. destruct (Hok eq_refl) as (xs & Hx & Hp). exists (mk_message ls n xs). split; [|split].
    + split_and!; cbn [m_question m_size m_records]; done || lia || apply Hfl.
    + cbn [m_records]. destruct Hp as (_ & _ & <- & _). unfold shaped in Hsh'. lia.
    + eapply decoded_progress; [exact Hp|exact Hh|done].
  - intros m (_ & _ & _ & _ & _ & _ & _ & H & _ & Hr) Hle. pose proof (name_here_size data Hd _ _ _ _ _ Hn H) as Hk.
    rewrite <-Hk in Hr. by eapply Hall.
Qed.

(** A response to a query for the address of [a], and one for its mail exchange. *)
Definition fresh_record : resource_record :=
  mk_record t_a class_internet answer 0 endpoint_default (replicate 256 0) (replicate 256 0) 0.
Definition fresh_response (n : nat) : response :=
  mk_response 0 0 0 0 0 0 t_a class_internet 0 false false false false (replicate 256 0) (replicate n fresh_record) 0.
Definition sample_header : list Z := [0; 7; 0x81; 0x80; 0; 1; 0; 1; 0; 0; 0; 0; 1; 97; 0; 0; 1; 0; 1].
Definition sample_a : list Z := sample_header ++ [0xC0; 12; 0; 1; 0; 1; 0; 0; 0; 60; 0; 4; 192; 0; 2; 1].
Definition sample_mx : list Z := sample_header ++ [0xC0; 12; 0; 15; 0; 1; 0; 0; 0; 60; 0; 4; 0; 10; 0xC0; 12].

Lemma fresh_shaped n : shaped n (fresh_response n).
Proof. split_and!; [reflexivity|apply length_replicate|by apply Forall_replicate|apply Nat.le_0_l]. Qed.

Lemma dns_response_exact_witness :
  exists s out', parse_response 2 (Some sample_a) (length sample_a) 7 (fresh_response 2) = Done (s, out') /\ s = s_ok.
Proof.
  destruct (dns_response_exact 2 sample_a 7 (fresh_response 2)) as (s & out' & E & _ & _ & Hall); [repeat constructor; unfold byte; lia|apply fresh_shaped|].
  exists s, out'. split; [exact E|].
  assert (Hl : label [97]) by (split; [cbn; lia|by constructor]).
  assert (Hn : name_at sample_a 12 [[97]] 3 2) by (apply (N_label _ 12 [97] [] 1 1); [reflexivity|done|reflexivity|apply N_root; reflexivity]).
  apply (Hall (mk_message [[97]] 3 [mk_rr t_a answer 60 [[97]] (rd_a [192; 0; 2; 1])])); [|cbn; lia].
  split_and!; try reflexivity; cbn [m_question m_size m_records].
  - cbn. lia.
  - unfold max_message_size. cbn. lia.
  - exists 2%nat. split; [done|]. unfold acceptable. cbn. lia.
  - cbn. lia.
  - apply (RS_cons sample_a answer [] 19 (Some (mk_rr t_a answer 60 [[97]] (rd_a [192; 0; 2; 1]))) 35 [] 35); [|constructor].
    apply (R_kept sample_a answer 19 [[97]] 2 4 (rd_a [192; 0; 2; 1])); [split_and!|reflexivity|by apply (RD_a sample_a 31 4)].
    + exists 3%nat. split; [|unfold acceptable; cbn; lia].
      apply (N_pointer _ 19 12 0 12 [[97]] 3 2); [reflexivity|lia|reflexivity|lia|lia|exact Hn].
    + reflexivity.
    + cbn. lia.
Defined.

(** A response object that is used again keeps the preference of an earlier MX record in
    a record of another type. *)
Lemma preference_not_reset :
  match parse_response 1 (Some sample_mx) (length sample_mx) 7 (fresh_response 1) with
  | Done (_, out) =>
      match parse_response 1 (Some sample_a) (length sample_a) 7 out with
      | Done (s, out) => s = s_ok /\ option_map (fun r => (type r, preference r)) (records out !! 0%nat) = Some (t_a, 10)
      | Undefined => False
      end
  | Undefined => False
  end.
Proof. vm_compute. done. Qed.

(** A dot inside a label is accepted: two names of the wire have the same text. *)
Lemma dot_in_label_accepted :
  decode_name (Some [3; 97; 46; 98; 0]) 5 0 (Some (replicate 5 0)) 5 = Done (s_ok, Some [97; 46; 98; 0; 0], 5%nat)
  /\ decode_name (Some [1; 97; 1; 98; 0]) 5 0 (Some (replicate 5 0)) 5 = Done (s_ok, Some [97; 46; 98; 0; 0], 5%nat).
Proof. by vm_compute. Qed.
