(* ===== verification/HpackInteger.v ===== *)
(** * Integers of HPACK (castle_ext/protocols/http/hpack.hpp)

    The prefixed integers of RFC 7541, section 5.1: a value below the mask of the prefix
    fits the prefix, a larger one continues in octets of seven bits, least significant
    first.  Reading accepts at most ten of them and no value beyond 64 bits. *)

From S2P Require Import Prelude Status Bytes Words.
Open Scope Z_scope.

(** ** The code *)

Definition prefix_mask (prefix : Z) : Z := to_u8 (Z.shiftl 1 prefix - 1).

(** A pass of the loop over the continuation octets. *)
Definition read_body (input : list Z) (size : nat) (_ : nat) (st : nat * Z * Z) : exec (ctl (status * nat * Z) (nat * Z * Z)) :=
  let '(offset, value, shift) := st in
  if (size <=? offset)%nat then Done (Return (s_data_loss, offset, value))
  else
    byte ← load input offset;
    let offset := (offset + 1)%nat in
    let part := Z.land byte 0x7F in
    if Z.shiftr 0xFFFFFFFFFFFFFFFF shift <? part then Done (Return (s_out_of_range, offset, value))
    else
      let addend := to_u64 (Z.shiftl part shift) in
      if 0xFFFFFFFFFFFFFFFF - addend <? value then Done (Return (s_out_of_range, offset, value))
      else
        let value := value + addend in
        if Z.land byte 0x80 =? 0 then Done (Return (s_ok, offset, value)) else Done (Next (offset, value, shift + 7)).

(** The status and the reference parameters [offset] and [value]. *)
Definition hpack_read_integer (input : ptr) (size offset : nat) (prefix value : Z) : exec (status * nat * Z) :=
  match input with
  | None => Done (s_data_loss, offset, value)
  | Some input =>
      if (size <=? offset)%nat || (prefix =? 0) || (8 <? prefix) then Done (s_data_loss, offset, value)
      else
        let mask := prefix_mask prefix in
        b ← load input offset;
        let value := Z.land b mask in
        let offset := (offset + 1)%nat in
        if value <? mask then Done (s_ok, offset, value)
        else after (for_range 0 10 (read_body input size) (offset, value, 0)) (fun '(offset, value, _) => Done (s_out_of_range, offset, value))
  end.

(** The new offset, or [None] for the sentinel [-1], and the output. *)
Definition hpack_write_integer (output : list Z) (capacity offset : nat) (prefix high_bits value : Z) : exec (option nat * list Z) :=
  let mask := prefix_mask prefix in
  if (capacity <=? offset)%nat then Done (None, output)
  else if value <? mask then
    output ← store output offset (to_u8 (Z.lor high_bits value)); Done (Some (offset + 1)%nat, output)
  else
    output ← store output offset (to_u8 (Z.lor high_bits mask));
    after (while_loop 5 (fun '(_, _, value) => Done (128 <=? value))
             (fun '(output, offset, value) =>
                if (capacity <=? offset)%nat then Done (Return (None, output))
                else output ← store output offset (to_u8 (Z.lor (Z.land value 0x7F) 0x80));
                     Done (Next (output, (offset + 1)%nat, Z.shiftr value 7)))
             (output, (offset + 1)%nat, value - mask))
      (fun '(output, offset, value) =>
         if (capacity <=? offset)%nat then Done (None, output)
         else output ← store output offset (to_u8 value); Done (Some (offset + 1)%nat, output)).

(** ** The format *)

(** [n] octets at [at_] continue an integer by [v]. *)
Inductive octets_at (data : list Z) : nat -> Z -> nat -> Prop :=
| O_last at_ b : data !! at_ = Some b -> 0 <= b < 128 -> octets_at data at_ b 1
| O_more at_ b v n : data !! at_ = Some b -> 128 <= b < 256 -> octets_at data (at_ + 1) v n -> octets_at data at_ (b - 128 + 128 * v) (S n).

(** The integer of [n] octets at [at_], within the limits of the reader. *)
Definition int_at (data : list Z) (at_ : nat) (prefix v : Z) (n : nat) : Prop :=
  exists b, data !! at_ = Some b /\
    let low := b mod 2 ^ prefix in
    (low < 2 ^ prefix - 1 /\ v = low /\ n = 1%nat
     \/ low = 2 ^ prefix - 1 /\ exists w k, octets_at data (at_ + 1) w k /\ (k <= 10)%nat /\ v = low + w /\ v < 2 ^ 64 /\ n = S k).

(** The shortest encoding, below the bits [high] of the first octet. *)
Fixpoint octets (fuel : nat) (v : Z) : list Z :=
  match fuel with
  | O => [v]
  | S fuel => if v <? 128 then [v] else v mod 128 + 128 :: octets fuel (v / 128)
  end.
Definition int_bytes (prefix high v : Z) : list Z :=
  if v <? 2 ^ prefix - 1 then [high + v] else high + (2 ^ prefix - 1) :: octets 4 (v - (2 ^ prefix - 1)).

(** ** Reading *)

Lemma octets_nonneg data at_ v n : octets_at data at_ v n -> 0 <= v /\ (0 < n)%nat.
Proof. induction 1; lia. Qed.

Lemma octets_fun data at_ v n v' n' : octets_at data at_ v n -> octets_at data at_ v' n' -> v = v' /\ n = n'.
Proof.
  intros H. revert v' n'. induction H as [at_ b Hb Hr|at_ b v n Hb Hr H IH]; intros v' n' H'; destruct H' as [at' b' Hb' Hr'|at' b' w m Hb' Hr' H'];
    rewrite Hb in Hb'; injection Hb' as <-; try lia. destruct (IH _ _ H') as [-> ->]. done.
Qed.

Lemma int_at_fun data at_ prefix v n v' n' : int_at data at_ prefix v n -> int_at data at_ prefix v' n' -> v = v' /\ n = n'.
Proof.
  intros (b & Hb & H) (b' & Hb' & H'). rewrite Hb in Hb'. injection Hb' as <-. cbn zeta in *.
  destruct H as [(? & -> & ->)|(? & w & k & Ho & _ & -> & _ & ->)], H' as [(? & -> & ->)|(? & w' & k' & Ho' & _ & -> & _ & ->)]; try lia.
  destruct (octets_fun _ _ _ _ _ _ Ho Ho') as [-> ->]. done.
Qed.

Lemma int_at_bounds data at_ prefix v n : 0 < prefix <= 8 -> int_at data at_ prefix v n -> 0 <= v < 2 ^ 64 /\ (0 < n)%nat.
Proof.
  intros Hp (b & Hb & H). pose proof (Z.mod_pos_bound b (2 ^ prefix) ltac:(apply Z.pow_pos_nonneg; lia)).
  assert (2 ^ prefix <= 2 ^ 8) by (apply Z.pow_le_mono_r; lia).
  destruct H as [(? & -> & ->)|(? & w & k & [? ?]%octets_nonneg & _ & -> & ? & ->)]; lia.
Qed.

Lemma octets_within data at_ v n : octets_at data at_ v n -> (at_ + n <= length data)%nat.
Proof. induction 1 as [at_ b Hb%lookup_lt_Some|at_ b v n Hb Hr H IH]; lia. Qed.

Lemma int_at_within data at_ prefix v n : int_at data at_ prefix v n -> (at_ + n <= length data)%nat.
Proof. intros (b & Hb%lookup_lt_Some & [(_ & _ & ->)|(_ & w & k & H%octets_within & _ & _ & _ & ->)]); lia. Qed.

Lemma octet_bits b : byte b -> Z.land b 0x7F = b mod 128 /\ (Z.land b 0x80 =? 0) = (b <? 128).
Proof.
  intros Hb. split; [exact (Z.land_ones b 7 ltac:(lia))|].
  pose proof (all_below_spec 256 (fun b => eqb (Z.land b 0x80 =? 0) (b <? 128)) b ltac:(vm_compute; reflexivity) Hb) as H. by apply eqb_prop in H.
Qed.

Lemma octet_high b : 128 <= b < 256 -> b mod 128 = b - 128.
Proof. intros H. symmetry. apply (Z.mod_unique b 128 1); lia. Qed.

Section Read.
Context (data : list Z) (Hdata : Forall byte data).

(** One octet: refused when it or the sum exceeds 64 bits. *)
Lemma read_body_ok i at_ value shift : 0 <= value < 2 ^ 64 -> 0 <= shift < 64 ->
  exists x, read_body data (length data) i (at_, value, shift) = Done x /\
    match x with
    | Return (s, at', v) => (s = s_ok /\ exists b, data !! at_ = Some b /\ 0 <= b < 128 /\ at' = (at_ + 1)%nat /\ v = value + b * 2 ^ shift /\ v < 2 ^ 64)
        \/ (s <> s_ok /\ forall b, data !! at_ = Some b -> 2 ^ 64 <= value + b mod 128 * 2 ^ shift)
    | Next (at', v, shift') => exists b, data !! at_ = Some b /\ 128 <= b < 256 /\ at' = (at_ + 1)%nat /\ shift' = shift + 7
        /\ v = value + (b - 128) * 2 ^ shift /\ v < 2 ^ 64
    end.
Proof using Hdata.
  intros Hv Hs. unfold read_body. destruct (Nat.leb_spec (length data) at_) as [Hge|Hlt].
  { eexists. split; [done|]. right. split; [done|]. intros b Hb%lookup_lt_Some. lia. }
  destruct (lookup_lt_is_Some_2 data at_ Hlt) as [b Hb]. rewrite (load_Done _ _ _ Hb), bind_Done. cbv zeta.
  assert (Hbyte : byte b) by (by eapply (Forall_lookup_1 byte)). destruct (octet_bits b Hbyte) as [-> ->]. unfold byte in Hbyte.
  assert (Hp : 0 < 2 ^ shift) by (apply Z.pow_pos_nonneg; lia).
  rewrite Z.shiftr_div_pow2 by lia. destruct (Z.ltb_spec (0xFFFFFFFFFFFFFFFF / 2 ^ shift) (b mod 128)) as [Hbig|Hsmall].
  { eexists. split; [done|]. right. split; [done|]. intros b' Hb'. rewrite Hb in Hb'. injection Hb' as <-.
    pose proof (Z.mul_succ_div_gt 0xFFFFFFFFFFFFFFFF (2 ^ shift) Hp). nia. }
  assert (Hadd : b mod 128 * 2 ^ shift <= 0xFFFFFFFFFFFFFFFF) by (pose proof (Z.mul_div_le 0xFFFFFFFFFFFFFFFF (2 ^ shift) Hp); nia).
  pose proof (Z.mod_pos_bound b 128 ltac:(lia)) as Hm. rewrite Z.shiftl_mul_pow2, wrap_small by (unfold in_width; nia).
  destruct (Z.ltb_spec (0xFFFFFFFFFFFFFFFF - b mod 128 * 2 ^ shift) value) as [Hbig|Hfits].
  { eexists. split; [done|]. right. split; [done|]. intros b' Hb'. rewrite Hb in Hb'. injection Hb' as <-. lia. }
  destruct (Z.ltb_spec b 128) as [Hl|Hl]; (eexists; split; [done|]); cbn beta iota.
  - left. split; [done|]. exists b. rewrite Z.mod_small in * by lia. split_and!; done || lia.
  - exists b. rewrite octet_high in * by lia. split_and!; done || lia.
Qed.

Lemma integer_read_ok m i at_ value shift : 0 <= value < 2 ^ 64 -> 0 <= shift -> shift + 7 * Z.of_nat m <= 70 ->
  exists x, for_range i m (read_body data (length data)) (at_, value, shift) = Done x /\
    match x with
    | Return (s, at', v) => (s = s_ok /\ exists w k, octets_at data at_ w k /\ (k <= m)%nat /\ at' = (at_ + k)%nat /\ v = value + w * 2 ^ shift /\ v < 2 ^ 64)
        \/ (s <> s_ok /\ forall w k, octets_at data at_ w k -> (k <= m)%nat -> 2 ^ 64 <= value + w * 2 ^ shift)
    | Next _ => forall w k, octets_at data at_ w k -> (m < k)%nat
    end.
Proof using Hdata.
  revert i at_ value shift. induction m as [|m IH]; intros i at_ value shift Hv Hs Hm; cbn [for_range].
  { eexists. split; [done|]. by intros w k [_ ?]%octets_nonneg. }
  destruct (read_body_ok i at_ value shift Hv ltac:(lia)) as (x & -> & Hx). assert (Hp : 0 < 2 ^ shift) by (apply Z.pow_pos_nonneg; lia).
  destruct x as [[[s at'] v]|[[at' v] shift']].
  - eexists. split; [done|]. destruct Hx as [(-> & b & Hb & Hr & -> & -> & Hlt)|(Hs' & Hno)]; [left|right].
    + split; [done|]. exists b, 1%nat. split_and!; try done; [by constructor|lia].
    + split; [done|]. intros w k Ho Hk. destruct Ho as [at_ b Hb Hr|at_ b w n Hb Hr Ho]; specialize (Hno b Hb).
      * by rewrite Z.mod_small in Hno by lia.
      * apply octets_nonneg in Ho. rewrite octet_high in Hno by lia. nia.
  - destruct Hx as (b & Hb & Hr & -> & -> & -> & Hlt). assert (E7 : 2 ^ (shift + 7) = 128 * 2 ^ shift) by (rewrite Z.pow_add_r by lia; change (2 ^ 7) with 128; lia).
    destruct (IH (S i) (at_ + 1)%nat (value + (b - 128) * 2 ^ shift) (shift + 7)) as (x & -> & Hx); [nia|lia|lia|]. rewrite E7 in Hx.
    assert (Hinv : forall w k, octets_at data at_ w k -> exists w' k', octets_at data (at_ + 1) w' k' /\ w = b - 128 + 128 * w' /\ k = S k').
    { intros w k Ho. destruct Ho as [at_ b' Hb' Hr'|at_ b' w n Hb' Hr' Ho]; rewrite Hb in Hb'; injection Hb' as <-; [lia|eauto]. }
    eexists. split; [done|]. destruct x as [[[s at'] v]|st].
    + destruct Hx as [(-> & w & k & Ho & Hk & -> & -> & Hlt')|(Hs' & Hno)]; [left|right].
      * split; [done|]. exists (b - 128 + 128 * w), (S k). split_and!; [by constructor|lia|lia|lia|lia].
      * split; [done|]. intros w k (w' & k' & Ho & -> & ->)%Hinv Hk. specialize (Hno w' k' Ho ltac:(lia)). lia.
    + intros w k (w' & k' & Ho & -> & ->)%Hinv. specialize (Hx w' k' Ho). lia.
Qed.
End Read.

Lemma prefix_mask_value prefix : 0 < prefix <= 8 -> prefix_mask prefix = 2 ^ prefix - 1 /\ 2 <= 2 ^ prefix <= 256.
Proof.
  intros Hp. assert (H2 : 2 ^ 1 <= 2 ^ prefix) by (apply Z.pow_le_mono_r; lia). assert (H8 : 2 ^ prefix <= 2 ^ 8) by (apply Z.pow_le_mono_r; lia).
  unfold prefix_mask. rewrite Z.shiftl_1_l, wrap_small by (unfold in_width; lia). lia.
Qed.

Lemma land_prefix b prefix : 0 < prefix <= 8 -> Z.land b (prefix_mask prefix) = b mod 2 ^ prefix.
Proof. intros Hp. rewrite (proj1 (prefix_mask_value prefix Hp)). rewrite <-Z.land_ones, Z.ones_equiv by lia. f_equal. Qed.

Lemma hpack_read_integer_ok data at_ prefix v0 : Forall byte data -> 0 < prefix <= 8 ->
  exists s at' v, hpack_read_integer (Some data) (length data) at_ prefix v0 = Done (s, at', v) /\
    ((s = s_ok /\ exists n, int_at data at_ prefix v n /\ at' = (at_ + n)%nat) \/ (s <> s_ok /\ forall v n, ~ int_at data at_ prefix v n)).
Proof.
  intros Hd Hp. destruct (prefix_mask_value prefix Hp) as [Hm Hm2]. unfold hpack_read_integer.
  assert ((prefix =? 0) || (8 <? prefix) = false) as Hpb by lia. rewrite <-orb_assoc, Hpb, orb_false_r.
  destruct (Nat.leb_spec (length data) at_) as [Hge|Hlt].
  { eexists _, _, _. split; [done|]. right. split; [done|]. intros v n (b & Hb%lookup_lt_Some & _). lia. }
  destruct (lookup_lt_is_Some_2 data at_ Hlt) as [b Hb]. rewrite (load_Done _ _ _ Hb), bind_Done, land_prefix, Hm by done. cbv zeta.
  pose proof (Z.mod_pos_bound b (2 ^ prefix) ltac:(lia)) as Hlow.
  destruct (Z.ltb_spec (b mod 2 ^ prefix) (2 ^ prefix - 1)) as [Hsmall|Hbig].
  { eexists _, _, _. split; [done|]. left. split; [done|]. exists 1%nat. split; [|done]. exists b. split; [done|]. by left. }
  destruct (integer_read_ok data Hd 10 0 (at_ + 1) (b mod 2 ^ prefix) 0) as (x & -> & Hx); [lia|lia|lia|]. rewrite Z.pow_0_r in Hx.
  assert (Hinv : (forall w k, octets_at data (at_ + 1) w k -> (k <= 10)%nat -> 2 ^ 64 <= b mod 2 ^ prefix + w * 1) -> forall v n, ~ int_at data at_ prefix v n).
  { intros H v n (b' & Hb' & Hi). rewrite Hb in Hb'. injection Hb' as <-. cbn zeta in Hi.
    destruct Hi as [(? & _)|(_ & w & k & Ho & Hk & -> & ? & _)]; [lia|]. specialize (H w k Ho Hk). lia. }
  destruct x as [[[s at'] v]|[[at' v] shift]]; cbn [after]; (eexists _, _, _; split; [done|]).
  - destruct Hx as [(-> & w & k & Ho & Hk & -> & -> & Hlt')|(Hs & Hno)]; [left|right]; (split; [done|]); [|by apply Hinv].
    exists (S k). split; [|lia]. exists b. split; [done|]. right. split; [lia|]. exists w, k. split_and!; done || lia.
  - right. split; [done|]. apply Hinv. intros w k Ho Hk. apply Hx in Ho. lia.
Qed.

(** ** Writing *)

Lemma length_octets f v : (0 < length (octets f v) <= S f)%nat.
Proof. revert v. induction f as [|f IH]; intros v; cbn; [lia|]. destruct (v <? 128); cbn; [lia|]. specialize (IH (v / 128)). lia. Qed.

Lemma octets_byte f v : 0 <= v < 128 * 128 ^ Z.of_nat f -> Forall byte (octets f v).
Proof.
  revert v. induction f as [|f IH]; intros v Hv; cbn [octets].
  { repeat constructor; unfold byte; lia. }
  destruct (Z.ltb_spec v 128); [repeat constructor; unfold byte; lia|]. constructor; [pose proof (Z.mod_pos_bound v 128 ltac:(lia)); unfold byte; lia|].
  apply IH. rewrite Nat2Z.inj_succ, Z.pow_succ_r in Hv by lia. split; [apply Z.div_pos; lia|]. apply Z.div_lt_upper_bound; lia.
Qed.

(** The loop of the writer and the octet behind it. *)
Definition write_octets (capacity fuel : nat) (st : list Z * nat * Z) : exec (option nat * list Z) :=
  after (while_loop fuel (fun '(_, _, value) => Done (128 <=? value))
           (fun '(output, offset, value) =>
              if (capacity <=? offset)%nat then Done (Return (None, output))
              else output ← store output offset (to_u8 (Z.lor (Z.land value 0x7F) 0x80));
                   Done (Next (output, (offset + 1)%nat, Z.shiftr value 7))) st)
    (fun '(output, offset, value) =>
       if (capacity <=? offset)%nat then Done (None, output)
       else output ← store output offset (to_u8 value); Done (Some (offset + 1)%nat, output)).

(** What a writer leaves behind [pre]: the bytes if they fit. *)
Definition puts (buf pre bytes : list Z) (r : option nat * list Z) : Prop :=
  if decide (length pre + length bytes <= length buf)%nat
  then r = (Some (length pre + length bytes)%nat, wrote buf 0 (pre ++ bytes)) else fst r = None /\ length (snd r) = length buf.

Lemma write_octets_ok buf f pre v : 0 <= v < 128 * 128 ^ Z.of_nat f -> (length pre <= length buf)%nat ->
  exists r, write_octets (length buf) (S f) (wrote buf 0 pre, length pre, v) = Done r /\ puts buf pre (octets f v) r.
Proof.
  revert pre v. induction f as [|f IH]; intros pre v Hv Hpre; unfold write_octets, puts; cbn [while_loop octets].
  all: destruct (Z.leb_spec 128 v) as [Hbig|Hsmall].
  { change (Z.of_nat 0) with 0 in Hv. lia. }
  3: rewrite (proj2 (Z.ltb_lt v 128)) by lia.
  1,3: cbn [after]; destruct (Nat.leb_spec (length buf) (length pre)) as [Hfull|Hroom];
    [eexists; split; [done|]; rewrite decide_False by (cbn; lia); split; [done|apply length_wrote; lia]
    |rewrite store_wrote, bind_Done, wrap_small by (unfold in_width; lia); eexists; split; [done|]; rewrite decide_True by (cbn; lia); done].
  rewrite (proj2 (Z.ltb_ge v 128)) by lia. destruct (Nat.leb_spec (length buf) (length pre)) as [Hfull|Hroom].
  { eexists. split; [done|]. rewrite decide_False by (cbn; lia). split; [done|apply length_wrote; lia]. }
  assert (Hlow : to_u8 (Z.lor (Z.land v 0x7F) 0x80) = v mod 128 + 128).
  { pose proof (Z.mod_pos_bound v 128 ltac:(lia)). replace (Z.land v 0x7F) with (v mod 128) by (symmetry; exact (Z.land_ones v 7 ltac:(lia))).
    pose proof (lor_add_shiftl 7 (v mod 128) 1 ltac:(lia) ltac:(lia)) as E. change (Z.shiftl 1 7) with 128 in E. rewrite E. apply wrap_small. unfold in_width. lia. }
  rewrite Hlow, store_wrote, bind_Done by lia. rewrite Z.shiftr_div_pow2 by lia. change (2 ^ 7) with 128.
  specialize (IH (pre ++ [v mod 128 + 128]) (v / 128)). unfold write_octets, puts in IH. rewrite length_app in IH. cbn [length] in IH.
  rewrite <-app_assoc in IH. cbn [app] in IH. destruct IH as (r & Hr & Hres); [|lia|].
  { rewrite Nat2Z.inj_succ, Z.pow_succ_r in Hv by lia. split; [apply Z.div_pos; lia|]. apply Z.div_lt_upper_bound; lia. }
  exists r. split; [exact Hr|]. cbn [length]. by replace (length pre + S (length (octets f (v / 128))))%nat with (length pre + 1 + length (octets f (v / 128)))%nat by lia.
Qed.

Lemma hpack_write_integer_ok buf pre prefix high v :
  0 < prefix <= 8 -> 0 <= high < 256 -> high mod 2 ^ prefix = 0 -> in_width 32 v -> (length pre <= length buf)%nat ->
  exists r, hpack_write_integer (wrote buf 0 pre) (length buf) (length pre) prefix high v = Done r /\ puts buf pre (int_bytes prefix high v) r.
Proof.
  intros Hp Hh Hhm Hv Hpre. destruct (prefix_mask_value prefix Hp) as [Hm Hm2]. unfold in_width in Hv. unfold hpack_write_integer, int_bytes. rewrite Hm.
  assert (Hor : forall x, 0 <= x < 2 ^ prefix -> to_u8 (Z.lor high x) = high + x).
  { intros x Hx. pose proof (Z.div_mod high (2 ^ prefix) ltac:(lia)) as Hd. rewrite Hhm, Z.add_0_r in Hd.
    assert (E : Z.lor high x = high + x).
    { rewrite Hd at 1. rewrite Z.mul_comm, <-Z.shiftl_mul_pow2, lor_shiftl_add by lia. lia. }
    rewrite E. apply wrap_small. unfold in_width.
    assert (E8 : 256 = 2 ^ (8 - prefix) * 2 ^ prefix) by (rewrite <-Z.pow_add_r by lia; by replace (8 - prefix + prefix) with 8 by lia).
    assert (high / 2 ^ prefix < 2 ^ (8 - prefix)) by (apply Z.div_lt_upper_bound; lia).
    change (2 ^ 8) with 256. nia. }
  destruct (Nat.leb_spec (length buf) (length pre)) as [Hfull|Hroom].
  { eexists. split; [done|]. unfold puts. destruct (v <? 2 ^ prefix - 1); rewrite decide_False by (cbn [length]; lia); (split; [done|apply length_wrote; lia]). }
  destruct (Z.ltb_spec v (2 ^ prefix - 1)) as [Hs|Hb]; rewrite Hor, store_wrote, bind_Done by lia.
  { eexists. split; [done|]. unfold puts. cbn [length]. by rewrite decide_True by lia. }
  destruct (write_octets_ok buf 4 (pre ++ [high + (2 ^ prefix - 1)]) (v - (2 ^ prefix - 1))) as (r & Hr & Hres); [cbn; lia|rewrite length_app; cbn; lia|].
  rewrite length_app in Hr. cbn [length] in Hr. exists r. split; [exact Hr|]. unfold puts in *. rewrite length_app, <-app_assoc in Hres. cbn [length app] in *.
  by replace (length pre + S (length (octets 4 (v - (2 ^ prefix - 1)))))%nat with (length pre + 1 + length (octets 4 (v - (2 ^ prefix - 1))))%nat by lia.
Qed.

(** ** What was written is read back *)

Lemma octets_at_octets f v data at_ post : 0 <= v < 128 * 128 ^ Z.of_nat f -> drop at_ data = octets f v ++ post -> octets_at data at_ v (length (octets f v)).
Proof.
  revert v at_. induction f as [|f IH]; intros v at_ Hv Hd; cbn [octets] in *.
  all: assert (Hat : forall c rest, drop at_ data = c :: rest -> data !! at_ = Some c) by
    (intros c rest E; rewrite <-(Nat.add_0_r at_), <-lookup_drop; by rewrite E).
  { constructor; [by eapply Hat|]. change (Z.of_nat 0) with 0 in Hv. lia. }
  destruct (Z.ltb_spec v 128) as [Hs|Hb]; cbn [length].
  { constructor; [by eapply Hat|lia]. }
  cbn [app] in Hd. pose proof (Hat _ _ Hd) as Hl. pose proof (Z.div_mod v 128 ltac:(lia)) as Ediv.
  assert (Ev : v = v mod 128 + 128 - 128 + 128 * (v / 128)) by lia. rewrite Ev at 1.
  pose proof (Z.mod_pos_bound v 128 ltac:(lia)). constructor; [done|lia|]. apply IH; [|by rewrite <-drop_drop, Hd].
  rewrite Nat2Z.inj_succ, Z.pow_succ_r in Hv by lia. split; [apply Z.div_pos; lia|]. apply Z.div_lt_upper_bound; lia.
Qed.

Lemma int_at_bytes data at_ post prefix high v : 0 < prefix <= 8 -> high mod 2 ^ prefix = 0 -> in_width 32 v ->
  drop at_ data = int_bytes prefix high v ++ post -> int_at data at_ prefix v (length (int_bytes prefix high v)).
Proof.
  intros Hp Hhm Hv Hd. destruct (prefix_mask_value prefix Hp) as [_ Hm2]. unfold in_width in Hv. unfold int_bytes in *.
  assert (Hat : forall c rest, drop at_ data = c :: rest -> data !! at_ = Some c) by (intros c rest E; rewrite <-(Nat.add_0_r at_), <-lookup_drop; by rewrite E).
  assert (Hmod : forall x, 0 <= x < 2 ^ prefix -> (high + x) mod 2 ^ prefix = x).
  { intros x Hx. rewrite <-Z.add_mod_idemp_l, Hhm by lia. by apply Z.mod_small. }
  destruct (Z.ltb_spec v (2 ^ prefix - 1)) as [Hs|Hb]; cbn [app] in Hd; pose proof (Hat _ _ Hd) as Hl.
  - exists (high + v). split; [done|]. left. rewrite Hmod by lia. split_and!; done || lia.
  - exists (high + (2 ^ prefix - 1)). split; [done|]. right. rewrite Hmod by lia. split; [done|].
    eexists _, _. split; [apply (octets_at_octets 4 (v - (2 ^ prefix - 1)) data (at_ + 1) post); [cbn; lia|by rewrite <-drop_drop, Hd]|].
    pose proof (length_octets 4 (v - (2 ^ prefix - 1))). split_and!; [lia|lia|lia|]. done.
Qed.

Lemma int_bytes_byte prefix high v : 0 < prefix <= 8 -> 0 <= high -> high + 2 ^ prefix <= 256 -> in_width 32 v -> Forall byte (int_bytes prefix high v).
Proof.
  intros Hp Hh Hh' Hv. destruct (prefix_mask_value prefix Hp) as [_ Hm2]. unfold in_width in Hv. unfold int_bytes.
  destruct (Z.ltb_spec v (2 ^ prefix - 1)); [constructor; [unfold byte; lia|constructor]|].
  constructor; [unfold byte; lia|]. apply octets_byte. cbn. lia.
Qed.

(** The reader finds what stands there. *)
Lemma read_int_at data at_ prefix v0 v n : Forall byte data -> 0 < prefix <= 8 -> int_at data at_ prefix v n ->
  hpack_read_integer (Some data) (length data) at_ prefix v0 = Done (s_ok, (at_ + n)%nat, v).
Proof.
  intros Hd Hp Hi. destruct (hpack_read_integer_ok data at_ prefix v0 Hd Hp) as (s & at' & v' & -> & [(-> & n' & Hi' & ->)|(_ & Hno)]); [|by apply Hno in Hi].
  by destruct (int_at_fun _ _ _ _ _ _ _ Hi Hi') as [-> ->].
Qed.

(** HPACK integers: reading is total and memory safe on every input and accepts exactly
    the encodings of RFC 7541 of at most ten continuation octets whose value fits 64 bits,
    redundant octets included; writing a 32-bit value puts its shortest encoding behind what is
    already there if it fits the buffer, and reports that it does not otherwise; and what was
    written is read back, whatever follows. *)
Theorem hpack_integer_exact prefix : 0 < prefix <= 8 ->
  (forall data at_ v0, Forall byte data ->
     exists s at' v, hpack_read_integer (Some data) (length data) at_ prefix v0 = Done (s, at', v) /\
       ((s = s_ok /\ exists n, int_at data at_ prefix v n /\ at' = (at_ + n)%nat) \/ (s <> s_ok /\ forall v n, ~ int_at data at_ prefix v n)))
  /\ (forall buf pre high v, 0 <= high -> high + 2 ^ prefix <= 256 -> high mod 2 ^ prefix = 0 -> in_width 32 v -> (length pre <= length buf)%nat -> Forall byte pre ->
     exists r, hpack_write_integer (wrote buf 0 pre) (length buf) (length pre) prefix high v = Done r /\ puts buf pre (int_bytes prefix high v) r /\
       forall post, Forall byte post ->
         let data := pre ++ int_bytes prefix high v ++ post in
         hpack_read_integer (Some data) (length data) (length pre) prefix 0 = Done (s_ok, (length pre + length (int_bytes prefix high v))%nat, v)).
Proof.
  intros Hp. split; [intros data at_ v0 Hd; by apply hpack_read_integer_ok|].
  intros buf pre high v H0 H8 Hm Hv Hl Hb. destruct (prefix_mask_value prefix Hp) as [_ Hm2].
  destruct (hpack_write_integer_ok buf pre prefix high v) as (r & Hr & Hputs); [done|lia|done|done|done|]. exists r. split; [done|]. split; [done|].
  intros post Hpost data. apply read_int_at; [|done|].
  - by repeat apply Forall_app_2; [|apply int_bytes_byte|].
  - apply (int_at_bytes data (length pre) post); [done|done|done|]. subst data. apply drop_app_length.
Qed.

Lemma hpack_integer_exact_witness :
  (exists s at' v, hpack_read_integer (Some [31; 154; 10]) 3 0 5 0 = Done (s, at', v) /\
     ((s = s_ok /\ exists n, int_at [31; 154; 10] 0 5 v n /\ at' = (0 + n)%nat) \/ (s <> s_ok /\ forall v n, ~ int_at [31; 154; 10] 0 5 v n)))
  /\ exists r, hpack_write_integer (wrote [0; 0; 0; 0] 0 [7]) 4 1 5 32 1337 = Done r /\ puts [0; 0; 0; 0] [7] [63; 154; 10] r
     /\ hpack_read_integer (Some [7; 63; 154; 10; 9]) 5 1 5 0 = Done (s_ok, 4%nat, 1337).
Proof.
  destruct (hpack_integer_exact 5) as [Hr Hw]; [lia|]. split.
  - apply (Hr [31; 154; 10] 0%nat 0). repeat constructor; unfold byte; lia.
  - destruct (Hw [0; 0; 0; 0] [7] 32 1337) as (r & E & Hp & Hback); [lia|lia|reflexivity|unfold in_width; lia|cbn; lia|repeat constructor; unfold byte; lia|].
    exists r. split; [exact E|]. split; [exact Hp|]. apply (Hback [9]). repeat constructor; unfold byte; lia.
Defined.
