(* ===== verification/HpackHuffman.v ===== *)
(** * The Huffman code of HPACK (castle_ext/protocols/http/hpack.hpp)

    The code of RFC 7541, appendix B, as the two tables of the source, the binary tree
    built from them at compile time, and the decoder that walks it.  The properties of the
    tree that the proof needs are evaluated once over its 513 nodes and 257 code words. *)

From S2P Require Import Prelude Status Bytes Words.
Open Scope Z_scope.

(** ** The code *)

Definition hpack_huffman_codes : list Z :=
  [0x00001FF8; 0x007FFFD8; 0x0FFFFFE2; 0x0FFFFFE3; 0x0FFFFFE4; 0x0FFFFFE5; 0x0FFFFFE6; 0x0FFFFFE7; 0x0FFFFFE8; 0x00FFFFEA; 0x3FFFFFFC;
    0x0FFFFFE9; 0x0FFFFFEA; 0x3FFFFFFD; 0x0FFFFFEB; 0x0FFFFFEC; 0x0FFFFFED; 0x0FFFFFEE; 0x0FFFFFEF; 0x0FFFFFF0; 0x0FFFFFF1; 0x0FFFFFF2;
    0x3FFFFFFE; 0x0FFFFFF3; 0x0FFFFFF4; 0x0FFFFFF5; 0x0FFFFFF6; 0x0FFFFFF7; 0x0FFFFFF8; 0x0FFFFFF9; 0x0FFFFFFA; 0x0FFFFFFB; 0x00000014;
    0x000003F8; 0x000003F9; 0x00000FFA; 0x00001FF9; 0x00000015; 0x000000F8; 0x000007FA; 0x000003FA; 0x000003FB; 0x000000F9; 0x000007FB;
    0x000000FA; 0x00000016; 0x00000017; 0x00000018; 0x00000000; 0x00000001; 0x00000002; 0x00000019; 0x0000001A; 0x0000001B; 0x0000001C;
    0x0000001D; 0x0000001E; 0x0000001F; 0x0000005C; 0x000000FB; 0x00007FFC; 0x00000020; 0x00000FFB; 0x000003FC; 0x00001FFA; 0x00000021;
    0x0000005D; 0x0000005E; 0x0000005F; 0x00000060; 0x00000061; 0x00000062; 0x00000063; 0x00000064; 0x00000065; 0x00000066; 0x00000067;
    0x00000068; 0x00000069; 0x0000006A; 0x0000006B; 0x0000006C; 0x0000006D; 0x0000006E; 0x0000006F; 0x00000070; 0x00000071; 0x00000072;
    0x000000FC; 0x00000073; 0x000000FD; 0x00001FFB; 0x0007FFF0; 0x00001FFC; 0x00003FFC; 0x00000022; 0x00007FFD; 0x00000003; 0x00000023;
    0x00000004; 0x00000024; 0x00000005; 0x00000025; 0x00000026; 0x00000027; 0x00000006; 0x00000074; 0x00000075; 0x00000028; 0x00000029;
    0x0000002A; 0x00000007; 0x0000002B; 0x00000076; 0x0000002C; 0x00000008; 0x00000009; 0x0000002D; 0x00000077; 0x00000078; 0x00000079;
    0x0000007A; 0x0000007B; 0x00007FFE; 0x000007FC; 0x00003FFD; 0x00001FFD; 0x0FFFFFFC; 0x000FFFE6; 0x003FFFD2; 0x000FFFE7; 0x000FFFE8;
    0x003FFFD3; 0x003FFFD4; 0x003FFFD5; 0x007FFFD9; 0x003FFFD6; 0x007FFFDA; 0x007FFFDB; 0x007FFFDC; 0x007FFFDD; 0x007FFFDE; 0x00FFFFEB;
    0x007FFFDF; 0x00FFFFEC; 0x00FFFFED; 0x003FFFD7; 0x007FFFE0; 0x00FFFFEE; 0x007FFFE1; 0x007FFFE2; 0x007FFFE3; 0x007FFFE4; 0x001FFFDC;
    0x003FFFD8; 0x007FFFE5; 0x003FFFD9; 0x007FFFE6; 0x007FFFE7; 0x00FFFFEF; 0x003FFFDA; 0x001FFFDD; 0x000FFFE9; 0x003FFFDB; 0x003FFFDC;
    0x007FFFE8; 0x007FFFE9; 0x001FFFDE; 0x007FFFEA; 0x003FFFDD; 0x003FFFDE; 0x00FFFFF0; 0x001FFFDF; 0x003FFFDF; 0x007FFFEB; 0x007FFFEC;
    0x001FFFE0; 0x001FFFE1; 0x003FFFE0; 0x001FFFE2; 0x007FFFED; 0x003FFFE1; 0x007FFFEE; 0x007FFFEF; 0x000FFFEA; 0x003FFFE2; 0x003FFFE3;
    0x003FFFE4; 0x007FFFF0; 0x003FFFE5; 0x003FFFE6; 0x007FFFF1; 0x03FFFFE0; 0x03FFFFE1; 0x000FFFEB; 0x0007FFF1; 0x003FFFE7; 0x007FFFF2;
    0x003FFFE8; 0x01FFFFEC; 0x03FFFFE2; 0x03FFFFE3; 0x03FFFFE4; 0x07FFFFDE; 0x07FFFFDF; 0x03FFFFE5; 0x00FFFFF1; 0x01FFFFED; 0x0007FFF2;
    0x001FFFE3; 0x03FFFFE6; 0x07FFFFE0; 0x07FFFFE1; 0x03FFFFE7; 0x07FFFFE2; 0x00FFFFF2; 0x001FFFE4; 0x001FFFE5; 0x03FFFFE8; 0x03FFFFE9;
    0x0FFFFFFD; 0x07FFFFE3; 0x07FFFFE4; 0x07FFFFE5; 0x000FFFEC; 0x00FFFFF3; 0x000FFFED; 0x001FFFE6; 0x003FFFE9; 0x001FFFE7; 0x001FFFE8;
    0x007FFFF3; 0x003FFFEA; 0x003FFFEB; 0x01FFFFEE; 0x01FFFFEF; 0x00FFFFF4; 0x00FFFFF5; 0x03FFFFEA; 0x007FFFF4; 0x03FFFFEB; 0x07FFFFE6;
    0x03FFFFEC; 0x03FFFFED; 0x07FFFFE7; 0x07FFFFE8; 0x07FFFFE9; 0x07FFFFEA; 0x07FFFFEB; 0x0FFFFFFE; 0x07FFFFEC; 0x07FFFFED; 0x07FFFFEE;
    0x07FFFFEF; 0x07FFFFF0; 0x03FFFFEE; 0x3FFFFFFF].

Definition hpack_huffman_lengths : list nat :=
  [13; 23; 28; 28; 28; 28; 28; 28; 28; 24; 30; 28; 28; 30; 28; 28; 28; 28; 28; 28; 28; 28; 30; 28; 28; 28; 28; 28; 28; 28; 28; 28; 6; 10;
    10; 12; 13; 6; 8; 11; 10; 10; 8; 11; 8; 6; 6; 6; 5; 5; 5; 6; 6; 6; 6; 6; 6; 6; 7; 8; 15; 6; 12; 10; 13; 6; 7; 7; 7; 7; 7; 7; 7; 7; 7; 7;
    7; 7; 7; 7; 7; 7; 7; 7; 7; 7; 7; 7; 8; 7; 8; 13; 19; 13; 14; 6; 15; 5; 6; 5; 6; 5; 6; 6; 6; 5; 7; 7; 6; 6; 6; 5; 6; 7; 6; 5; 5; 6; 7; 7;
    7; 7; 7; 15; 11; 14; 13; 28; 20; 22; 20; 20; 22; 22; 22; 23; 22; 23; 23; 23; 23; 23; 24; 23; 24; 24; 22; 23; 24; 23; 23; 23; 23; 21; 22;
    23; 22; 23; 23; 24; 22; 21; 20; 22; 22; 23; 23; 21; 23; 22; 22; 24; 21; 22; 23; 23; 21; 21; 22; 21; 23; 22; 23; 23; 20; 22; 22; 22; 23;
    22; 22; 23; 26; 26; 20; 19; 22; 23; 22; 25; 26; 26; 26; 27; 27; 26; 24; 25; 19; 21; 26; 27; 27; 26; 27; 24; 21; 21; 26; 26; 28; 27; 27;
    27; 20; 24; 20; 21; 22; 21; 21; 23; 22; 22; 25; 25; 24; 24; 26; 23; 26; 27; 26; 26; 27; 27; 27; 27; 27; 28; 27; 27; 27; 27; 27; 26; 30]%nat.

Record huffman_node : Type := mk_huffman_node { child : list Z; symbol_ : Z }.
Definition hpack_huffman_node_capacity : nat := 2 * 257.
Record huffman_tree : Type := mk_huffman_tree { nodes : list huffman_node; count : Z }.

(** The bit of a code word taken at a node: the node reached, new if it was missing. *)
Definition build_bit (length : nat) (code : Z) (bit : nat) (st : huffman_tree * nat) : exec (huffman_tree * nat) :=
  let '(tree, node) := st in
  let direction := Z.to_nat (Z.land (Z.shiftr code (Z.of_nat (length - bit - 1))) 1) in
  n ← load (nodes tree) node;
  next ← load (child n) direction;
  if next <? 0 then
    let next := to_signed 16 (to_u16 (count tree)) in
    c ← store (child n) direction next;
    ns ← store (nodes tree) node (mk_huffman_node c (symbol_ n));
    Done (mk_huffman_tree ns (to_u16 (count tree + 1)), Z.to_nat next)
  else Done (tree, Z.to_nat next).

Definition build_symbol (symbol : nat) (tree : huffman_tree) : exec huffman_tree :=
  length ← load hpack_huffman_lengths symbol;
  code ← load hpack_huffman_codes symbol;
  '(tree, node) ← for_to 0 length (build_bit length code) (tree, 0%nat);
  n ← load (nodes tree) node;
  ns ← store (nodes tree) node (mk_huffman_node (child n) (Z.of_nat symbol));
  Done (mk_huffman_tree ns (count tree)).

Definition build_huffman_tree : exec huffman_tree :=
  for_to 0 257 build_symbol (mk_huffman_tree (replicate hpack_huffman_node_capacity (mk_huffman_node [-1; -1] (-1))) 1).

Definition hpack_huffman_tree : huffman_tree := Eval vm_compute in
  match build_huffman_tree with Done tree => tree | Undefined => mk_huffman_tree [] 0 end.

(** The variables of the decoder: the node, the bits since the last symbol and whether
    all are ones, the output and its size. *)
Record huffman_state : Type := mk_huffman_state {
  node : nat; tail_bits : Z; tail_ones : bool; h_output : list Z; output_size : nat }.

Definition decode_bit (output_capacity : nat) (direction : Z) (st : huffman_state) : exec (ctl (status * list Z * nat) huffman_state) :=
  let tail_bits := to_u8 (tail_bits st + 1) in
  let tail_ones := tail_ones st && (direction =? 1) in
  n ← load (nodes hpack_huffman_tree) (node st);
  next ← load (child n) (Z.to_nat direction);
  if next <? 0 then Done (Return (s_invalid_argument, h_output st, output_size st))
  else
    let node := Z.to_nat next in
    n ← load (nodes hpack_huffman_tree) node;
    let symbol := symbol_ n in
    if 0 <=? symbol then
      if symbol =? 256 then Done (Return (s_invalid_argument, h_output st, output_size st))
      else if (output_capacity <=? output_size st)%nat then Done (Return (s_out_of_range, h_output st, output_size st))
      else
        output ← store (h_output st) (output_size st) symbol;
        Done (Next (mk_huffman_state 0 0 true output (output_size st + 1)))
    else Done (Next (mk_huffman_state node tail_bits tail_ones (h_output st) (output_size st))).

(** The bits of an octet, from the highest down. *)
Definition decode_octet (input : list Z) (base output_capacity i : nat) (st : huffman_state) : exec (ctl (status * list Z * nat) huffman_state) :=
  for_range 0 8 (fun k st =>
    b ← load input (base + i);
    decode_bit output_capacity (Z.land (Z.shiftr b (7 - Z.of_nat k)) 1) st) st.

(** The input is [input_size] octets of a buffer, from [base] on. *)
Definition hpack_decode_huffman (input : list Z) (base input_size : nat) (output : list Z) (output_capacity : nat) : exec (status * list Z * nat) :=
  after (for_range 0 input_size (decode_octet input base output_capacity) (mk_huffman_state 0 0 true output 0))
    (fun st =>
       if negb (node st =? 0)%nat && ((7 <? tail_bits st) || negb (tail_ones st)) then Done (s_invalid_argument, h_output st, output_size st)
       else Done (s_ok, h_output st, output_size st)).

(** ** The code words *)

(** The bits of a code word and of a text. *)
Definition code_word (s : nat) : list bool :=
  let n := default 0%nat (hpack_huffman_lengths !! s) in
  (fun j => Z.testbit (default 0 (hpack_huffman_codes !! s)) (Z.of_nat (n - j - 1))) <$> seq 0 n.
Definition huffman_bits (text : list Z) : list bool := concat ((fun c => code_word (Z.to_nat c)) <$> text).

(** The bits of octets, most significant first. *)
Definition octet_bits_of (b : Z) : list bool := (fun k => Z.testbit b (7 - Z.of_nat k)) <$> seq 0 8.
Definition bits_of (octets : list Z) : list bool := concat (octet_bits_of <$> octets).

(** A Huffman text: code words, then fewer than eight ones of padding. *)
Definition huffman_text (octets text : list Z) : Prop :=
  Forall byte text /\ exists k, (k <= 7)%nat /\ bits_of octets = huffman_bits text ++ replicate k true.

(** *** The tree *)

Definition huffman_nodes : list huffman_node := nodes hpack_huffman_tree.

(** The node a bit leads to. *)
Definition huffman_step (n : nat) (d : bool) : option nat :=
  nd ← huffman_nodes !! n; c ← child nd !! (if d : bool then 1 else 0)%nat; if c <? 0 then None else Some (Z.to_nat c).
Fixpoint walk (n : nat) (p : list bool) : option nat :=
  match p with [] => Some n | d :: p => m ← huffman_step n d; walk m p end.
Definition symbol_at (n : nat) : option Z := symbol_ <$> huffman_nodes !! n.

(** The path to every node. *)
Definition paths : list (list bool) := Eval vm_compute in
  fold_left (fun acc n =>
    fold_left (fun acc d =>
      match huffman_step n d with Some m => <[m := default [] (acc !! n) ++ [d]]> acc | None => acc end) [false; true] acc)
    (seq 0 514) (replicate 514 []).

(** Children lie on longer paths, and a node with a symbol lies on its code word. *)
Definition node_ok (n : nat) : bool :=
  forallb (fun d => match huffman_step n d with Some m => bool_decide (paths !! m = (fun p => p ++ [d]) <$> paths !! n) && (m <? 514)%nat | None => true end) [false; true]
  && match symbol_at n with Some s => (s <? 0) || bool_decide (paths !! n = Some (code_word (Z.to_nat s)) /\ s <= 256) | None => false end
  && match huffman_nodes !! n with Some nd => (length (child nd) =? 2)%nat | None => false end.

(** Along a code word the symbols come at the end. *)
Definition no_symbol (p : list bool) : bool := match walk 0 p with Some n => bool_decide (symbol_at n = Some (-1)) | None => false end.
Definition word_ok (s : nat) : bool :=
  forallb (fun j => no_symbol (take j (code_word s))) (seq 0 (length (code_word s)))
  && bool_decide ((walk 0 (code_word s) ≫= symbol_at) = Some (Z.of_nat s)) && (0 <? length (code_word s))%nat.

Lemma tree_built : build_huffman_tree = Done hpack_huffman_tree.
Proof. vm_compute. reflexivity. Qed.

Lemma nodes_ok : forallb node_ok (seq 0 514) = true.
Proof. vm_compute. reflexivity. Qed.

Lemma words_ok : forallb word_ok (seq 0 257) = true.
Proof. vm_compute. reflexivity. Qed.

Lemma padding_ok : forallb (fun k => no_symbol (replicate k true)) (seq 0 8) = true.
Proof. vm_compute. reflexivity. Qed.

Lemma paths_short : forallb (fun p => (length p <=? 30)%nat) paths = true.
Proof. vm_compute. reflexivity. Qed.

Lemma node_facts n : (n < 514)%nat ->
  (forall d m, huffman_step n d = Some m -> (m < 514)%nat /\ paths !! m = (fun p => p ++ [d]) <$> paths !! n)
  /\ (exists s, symbol_at n = Some s /\ (0 <= s -> paths !! n = Some (code_word (Z.to_nat s)) /\ s <= 256))
  /\ (exists nd, huffman_nodes !! n = Some nd /\ length (child nd) = 2%nat).
Proof.
  intros Hn. pose proof nodes_ok as H. rewrite forallb_forall in H. specialize (H n ltac:(apply in_seq; lia)). unfold node_ok in H.
  rewrite !andb_true_iff in H. destruct H as [[Hd Hs] Hc]. cbn [forallb] in Hd. rewrite !andb_true_iff in Hd. destruct Hd as (Hf & Ht & _).
  split_and!.
  - intros [|] m E; [rewrite E in Ht|rewrite E in Hf; clear Ht; rename Hf into Ht]; apply andb_true_iff in Ht as [Hp Hm];
      apply bool_decide_eq_true in Hp; apply Nat.ltb_lt in Hm; done.
  - destruct (symbol_at n) as [s|]; [|done]. exists s. split; [done|]. intros H0. apply orb_true_iff in Hs as [Hs|Hs]; [lia|].
    by apply bool_decide_eq_true in Hs.
  - destruct (huffman_nodes !! n) as [nd|]; [|done]. exists nd. split; [done|]. by apply Nat.eqb_eq.
Qed.

Lemma walk_app n p q : walk n (p ++ q) = (m ← walk n p; walk m q).
Proof. revert n. induction p as [|d p IH]; intros n; [done|]. cbn [app walk]. destruct (huffman_step n d) as [m|]; [|done]. cbn. apply IH. Qed.

Lemma walk_path p n : walk 0 p = Some n -> (n < 514)%nat /\ paths !! n = Some p.
Proof.
  revert n. induction p as [|d p IH] using rev_ind; intros n H.
  { injection H as <-. split; [lia|reflexivity]. }
  rewrite walk_app in H. destruct (walk 0 p) as [m|] eqn:E; [|done]. cbn in H. destruct (huffman_step m d) as [k|] eqn:Es; [|done]. injection H as <-.
  destruct (IH m eq_refl) as [Hm Hp]. destruct (node_facts m Hm) as (Hd & _). destruct (Hd d k Es) as [Hk Hpk]. split; [done|]. by rewrite Hpk, Hp.
Qed.

Lemma walk_short p n : walk 0 p = Some n -> (length p <= 30)%nat.
Proof.
  intros [_ H]%walk_path. pose proof paths_short as Hs. rewrite forallb_forall in Hs. apply Nat.leb_le, Hs. apply list_elem_of_In. by eapply list_elem_of_lookup_2.
Qed.

Lemma word_facts s : (s <= 256)%nat ->
  (forall j, (j < length (code_word s))%nat -> no_symbol (take j (code_word s)) = true)
  /\ (walk 0 (code_word s) ≫= symbol_at) = Some (Z.of_nat s) /\ (0 < length (code_word s))%nat.
Proof.
  intros Hs. pose proof words_ok as H. rewrite forallb_forall in H. specialize (H s ltac:(apply in_seq; lia)). unfold word_ok in H.
  rewrite !andb_true_iff in H. destruct H as [[Hj Hw] Hl]. rewrite forallb_forall in Hj. split_and!.
  - intros j Hlt. apply Hj, in_seq. lia.
  - by apply bool_decide_eq_true in Hw.
  - by apply Nat.ltb_lt.
Qed.

(** ** The decoder *)

Section Decoder.
Context (capacity : nat) (buf : list Z) (Hbuf : (capacity <= length buf)%nat).

(** The text read so far, and the bits since then. *)
Definition huffman_inv (text : list Z) (p : list bool) (st : huffman_state) : Prop :=
  walk 0 p = Some (node st) /\ tail_bits st = Z.of_nat (length p) /\ tail_ones st = forallb (fun d => d) p
  /\ h_output st = wrote buf 0 text /\ output_size st = length text /\ (length text <= capacity)%nat /\ Forall byte text.

Definition refused (x : ctl (status * list Z * nat) huffman_state) : Prop :=
  exists s out k, x = Return (s, out, k) /\ s <> s_ok /\ length out = length buf /\ (k <= capacity)%nat.

Lemma decode_bit_ok text p st d : huffman_inv text p st ->
  exists x, decode_bit capacity (Z.b2z d) st = Done x /\
    match walk 0 (p ++ [d]) with
    | None => refused x
    | Some n => exists s, symbol_at n = Some s /\
        if s <? 0 then exists st', x = Next st' /\ huffman_inv text (p ++ [d]) st'
        else if (s =? 256) || (capacity <=? length text)%nat then refused x
        else exists st', x = Next st' /\ huffman_inv (text ++ [s]) [] st'
    end.
Proof using Hbuf.
  intros (Hw & Hb & Ho & Hout & Hsz & Hcap & Hbytes). rewrite walk_app, Hw. cbn [mbind option_bind walk].
  destruct (walk_path _ _ Hw) as [Hn _]. destruct (node_facts _ Hn) as (Hstep & _ & nd & Hnd & Hlen).
  assert (Hr : forall s, s <> s_ok -> refused (Return (s, h_output st, output_size st))).
  { intros s Hs. exists s, (h_output st), (output_size st). rewrite Hout, Hsz. split_and!; [done|done|apply length_wrote; lia|done]. }
  unfold decode_bit. rewrite (load_Done _ _ nd) by exact Hnd. rewrite bind_Done.
  assert (Hchild : exists c, child nd !! (if d then 1 else 0)%nat = Some c) by (apply lookup_lt_is_Some_2; destruct d; lia).
  destruct Hchild as [c Hc]. assert (Hz : Z.to_nat (Z.b2z d) = if d then 1%nat else 0%nat) by (by destruct d).
  rewrite Hz, (load_Done _ _ _ Hc), bind_Done.
  assert (Es : huffman_step (node st) d = if c <? 0 then None else Some (Z.to_nat c)) by (unfold huffman_step; rewrite Hnd; cbn; by rewrite Hc).
  rewrite Es in *. destruct (c <? 0) eqn:Ec; cbn [mbind option_bind].
  { eexists. split; [done|]. by apply Hr. }
  destruct (Hstep d _ Es) as [Hm _]. destruct (node_facts _ Hm) as (_ & (s & Hs & Hsym) & nd' & Hnd' & _).
  unfold symbol_at in Hs. rewrite Hnd' in Hs. injection Hs as <-. rewrite (load_Done _ _ nd') by exact Hnd'. rewrite bind_Done. cbv zeta.
  assert (Hw' : walk 0 (p ++ [d]) = Some (Z.to_nat c)) by (rewrite walk_app, Hw; cbn; by rewrite Es).
  destruct (Z.leb_spec 0 (symbol_ nd')) as [Hpos|Hneg].
  - assert (Hlt : (symbol_ nd' <? 0) = false) by lia.
    destruct (Z.eqb_spec (symbol_ nd') 256) as [E|NE]; [|rewrite Hsz; destruct (Nat.leb_spec capacity (length text)) as [Hfull|Hroom]].
    1,2: eexists; split; [done|]; exists (symbol_ nd'); unfold symbol_at; rewrite Hnd', Hlt; split; [done|].
    + rewrite (proj2 (Z.eqb_eq _ _) E). by apply Hr.
    + rewrite (proj2 (Z.eqb_neq _ _) NE). cbn [orb]. rewrite <-Hsz. by apply Hr.
    + rewrite Hout, store_wrote, bind_Done by lia. eexists. split; [done|]. exists (symbol_ nd'). unfold symbol_at. rewrite Hnd', Hlt. split; [done|].
      rewrite (proj2 (Z.eqb_neq _ _) NE). cbn [orb]. eexists. split; [done|].
      destruct (Hsym Hpos) as [_ H256]. unfold huffman_inv. cbn [node tail_bits tail_ones h_output output_size]. rewrite length_app. cbn [length].
      split_and!; try done; [lia|]. apply Forall_app_2; [done|]. apply Forall_singleton. unfold byte. lia.
  - eexists. split; [done|]. exists (symbol_ nd'). unfold symbol_at. rewrite Hnd', (proj2 (Z.ltb_lt _ _) Hneg). split; [done|]. eexists. split; [done|].
    pose proof (walk_short _ _ Hw') as Hsh. rewrite length_app in Hsh. cbn [length] in Hsh. unfold huffman_inv. cbn [node tail_bits tail_ones h_output output_size].
    rewrite length_app, forallb_app, Hb, Ho, Hout, Hsz. cbn [length forallb]. split_and!; try done.
    + rewrite wrap_small by (unfold in_width; lia). lia.
    + rewrite andb_true_r. by destruct d.
Qed.

(** The decoder bit by bit. *)
Fixpoint run_bits (bits : list bool) (st : huffman_state) : exec (ctl (status * list Z * nat) huffman_state) :=
  match bits with
  | [] => Done (Next st)
  | d :: bits => match decode_bit capacity (Z.b2z d) st with Done (Next st') => run_bits bits st' | r => r end
  end.

Lemma run_bits_app a b st : run_bits (a ++ b) st = match run_bits a st with Done (Next st') => run_bits b st' | r => r end.
Proof. revert st. induction a as [|d a IH]; intros st; [done|]. cbn. destruct (decode_bit _ _ st) as [[r|st']|]; [done|apply IH|done]. Qed.

(** Whatever the bits, the run is defined and what it accepts are code words. *)
Lemma run_bits_sound bits text p st : huffman_inv text p st ->
  exists x, run_bits bits st = Done x /\
    match x with
    | Return _ => refused x
    | Next st' => exists text' p', huffman_inv text' p' st' /\ huffman_bits text ++ p ++ bits = huffman_bits text' ++ p'
    end.
Proof using Hbuf.
  revert text p st. induction bits as [|d bits IH]; intros text p st Hinv; cbn [run_bits].
  { eexists. split; [done|]. exists text, p. split; [done|]. by rewrite app_nil_r. }
  destruct (decode_bit_ok text p st d Hinv) as (x & -> & Hx).
  assert (Hno : refused x -> exists y, match x with Return r => Done (Return r) | Next st' => run_bits bits st' end = Done y /\
    match y with Return _ => refused y | Next st' => exists text' p', huffman_inv text' p' st' /\ huffman_bits text ++ p ++ d :: bits = huffman_bits text' ++ p' end).
  { intros H. pose proof H as (s & out & k & -> & _). eexists. split; [done|]. exact H. }
  destruct (walk 0 (p ++ [d])) as [n|] eqn:Ew; [|by destruct x; apply Hno in Hx].
  destruct Hx as (s & Hs & Hx). destruct (Z.ltb_spec s 0) as [Hneg|Hpos].
  { destruct Hx as (st' & -> & Hinv'). destruct (IH _ _ _ Hinv') as (y & -> & Hy). eexists. split; [done|]. destruct y; [done|].
    destruct Hy as (t' & p' & Hi & Ht). exists t', p'. split; [done|]. by rewrite <-Ht, <-app_assoc. }
  destruct ((s =? 256) || (capacity <=? length text)%nat) eqn:Eb; [by destruct x; apply Hno in Hx|].
  destruct Hx as (st' & -> & Hinv'). destruct (IH _ _ _ Hinv') as (y & -> & Hy). eexists. split; [done|]. destruct y; [done|].
  destruct Hy as (t' & p' & Hi & Ht). exists t', p'. split; [done|]. rewrite <-Ht. destruct (walk_path _ _ Ew) as [Hn Hp].
  destruct (node_facts n Hn) as (_ & (s' & Hs' & Hcode) & _). rewrite Hs in Hs'. injection Hs' as <-. destruct (Hcode Hpos) as [Hc _]. rewrite Hp in Hc. injection Hc as Hc.
  unfold huffman_bits. rewrite fmap_app, concat_app. cbn [fmap list_fmap concat app]. rewrite <-Hc, app_nil_r, <-!app_assoc. done.
Qed.

(** Bits along which no symbol is complete. *)
Lemma run_bits_pending q text p st : huffman_inv text p st -> (forall j, (j <= length q)%nat -> no_symbol (p ++ take j q) = true) ->
  exists st', run_bits q st = Done (Next st') /\ huffman_inv text (p ++ q) st'.
Proof using Hbuf.
  revert p st. induction q as [|d q IH]; intros p st Hinv Hno; cbn [run_bits].
  { exists st. split; [done|]. by rewrite app_nil_r. }
  destruct (decode_bit_ok text p st d Hinv) as (x & -> & Hx). pose proof (Hno 1%nat ltac:(cbn; lia)) as H1. change (take 1 (d :: q)) with [d] in H1. unfold no_symbol in H1.
  destruct (walk 0 (p ++ [d])) as [n|]; [|done]. apply bool_decide_eq_true in H1. destruct Hx as (s & Hs & Hx). rewrite H1 in Hs. injection Hs as <-.
  destruct Hx as (st' & -> & Hinv'). destruct (IH (p ++ [d]) st' Hinv') as (st'' & Hr & Hi).
  { intros j Hj. rewrite <-app_assoc. apply (Hno (S j)). cbn. lia. }
  exists st''. split; [done|]. by rewrite <-app_assoc in Hi.
Qed.

Lemma run_bits_word c text st : huffman_inv text [] st -> byte c -> (length text < capacity)%nat ->
  exists st', run_bits (code_word (Z.to_nat c)) st = Done (Next st') /\ huffman_inv (text ++ [c]) [] st'.
Proof using Hbuf.
  intros Hinv Hc Hcap. unfold byte in Hc. destruct (word_facts (Z.to_nat c) ltac:(lia)) as (Hj & Hsym & Hlen).
  destruct (code_word (Z.to_nat c)) as [|d q _] eqn:E using rev_ind; [cbn in Hlen; lia|]. rewrite run_bits_app.
  destruct (run_bits_pending q text [] st Hinv) as (st1 & -> & Hi).
  { intros j Hle. specialize (Hj j). rewrite length_app in Hj. cbn [length] in Hj. rewrite take_app_le in Hj by lia. apply Hj. lia. }
  cbn [run_bits app] in *. destruct (decode_bit_ok text q st1 d Hi) as (x & -> & Hx). destruct (walk 0 (q ++ [d])) as [n|]; cbn in Hsym; [|done].
  destruct Hx as (s & Hs & Hx). rewrite Hsym in Hs. injection Hs as <-. rewrite Z2Nat.id in Hx by lia.
  rewrite (proj2 (Z.ltb_ge c 0)), (proj2 (Z.eqb_neq c 256)), (proj2 (Nat.leb_gt _ _) Hcap) in Hx by lia. destruct Hx as (st' & -> & Hinv'). by exists st'.
Qed.

Lemma run_bits_text text' text st : huffman_inv text [] st -> Forall byte text' -> (length text + length text' <= capacity)%nat ->
  exists st', run_bits (huffman_bits text') st = Done (Next st') /\ huffman_inv (text ++ text') [] st'.
Proof using Hbuf.
  intros Hinv H. revert text st Hinv. induction H as [|c text' Hc H IH]; intros text st Hinv Hle.
  { exists st. split; [done|]. by rewrite app_nil_r. }
  unfold huffman_bits. cbn [fmap list_fmap concat]. fold (huffman_bits text'). rewrite run_bits_app. cbn [length] in Hle.
  destruct (run_bits_word c text st Hinv Hc) as (st1 & -> & H1); [lia|]. destruct (IH (text ++ [c]) st1 H1) as (st2 & -> & H2); [rewrite length_app; cbn; lia|].
  exists st2. split; [done|]. by rewrite <-app_assoc in H2.
Qed.

Lemma shifted_bit b n : 0 <= n -> Z.land (Z.shiftr b n) 1 = Z.b2z (Z.testbit b n).
Proof. intros H. rewrite Z.testbit_spec', <-Z.shiftr_div_pow2 by done. exact (Z.land_ones (Z.shiftr b n) 1 ltac:(lia)). Qed.

Lemma octet_loop b i n st : (i + n <= 8)%nat ->
  for_range i n (fun k st => decode_bit capacity (Z.land (Z.shiftr b (7 - Z.of_nat k)) 1) st) st
  = run_bits ((fun k => Z.testbit b (7 - Z.of_nat k)) <$> seq i n) st.
Proof.
  revert i st. induction n as [|n IH]; intros i st H; [done|]. cbn [for_range seq fmap list_fmap run_bits]. rewrite shifted_bit by lia.
  destruct (decode_bit _ _ st) as [[r|st']|]; [done| |done]. apply IH. lia.
Qed.

Lemma input_loop input base i n st : (base + i + n <= length input)%nat ->
  for_range i n (decode_octet input base capacity) st = run_bits (bits_of (take n (drop (base + i) input))) st.
Proof.
  revert i st. induction n as [|n IH]; intros i st H; [done|]. cbn [for_range]. unfold decode_octet at 1.
  destruct (lookup_lt_is_Some_2 input (base + i)) as [b Hb]; [lia|]. rewrite (drop_S _ _ _ Hb). cbn [take firstn]. unfold bits_of. cbn [fmap list_fmap concat].
  fold (bits_of (take n (drop (S (base + i)) input))). rewrite run_bits_app.
  assert (E : for_range 0 8 (fun k st => b ← load input (base + i); decode_bit capacity (Z.land (Z.shiftr b (7 - Z.of_nat k)) 1) st) st
    = run_bits (octet_bits_of b) st).
  { rewrite (load_Done _ _ _ Hb). exact (octet_loop b 0 8 st ltac:(lia)). }
  rewrite E. destruct (run_bits (octet_bits_of b) st) as [[r|st']|]; [done| |done]. rewrite IH by lia. by rewrite Nat.add_succ_r.
Qed.

Lemma hpack_decode_huffman_ok input base n : (base + n <= length input)%nat ->
  exists s out k, hpack_decode_huffman input base n buf capacity = Done (s, out, k) /\ length out = length buf /\ (k <= capacity)%nat /\
    (s = s_ok -> exists text, huffman_text (take n (drop base input)) text /\ k = length text /\ out = wrote buf 0 text) /\
    (forall text, huffman_text (take n (drop base input)) text -> (length text <= capacity)%nat -> s = s_ok /\ k = length text /\ out = wrote buf 0 text).
Proof using Hbuf.
  intros Hl. unfold hpack_decode_huffman. rewrite input_loop, Nat.add_0_r by lia. set (octets := take n (drop base input)).
  set (st0 := mk_huffman_state 0 0 true buf 0).
  assert (H0 : huffman_inv [] [] st0) by (unfold huffman_inv; cbn; rewrite wrote_nil; split_and!; try done; lia).
  assert (Hcomplete : forall text, huffman_text octets text -> (length text <= capacity)%nat ->
    exists st' k, run_bits (bits_of octets) st0 = Done (Next st') /\ huffman_inv text (replicate k true) st' /\ (k <= 7)%nat).
  { intros text (Hb & k & Hk & ->) Hcap. rewrite run_bits_app. destruct (run_bits_text text [] st0 H0 Hb Hcap) as (st1 & -> & H1).
    destruct (run_bits_pending (replicate k true) text [] st1 H1) as (st2 & H2 & Hi); [|by exists st2, k].
    intros j Hj. rewrite length_replicate in Hj. cbn [app]. rewrite take_replicate, Nat.min_l by done. pose proof padding_ok as Hp. rewrite forallb_forall in Hp.
    apply Hp, in_seq. lia. }
  assert (Hend : forall text k st', huffman_inv text (replicate k true) st' -> (k <= 7)%nat ->
    (if negb (node st' =? 0)%nat && ((7 <? tail_bits st') || negb (tail_ones st')) then Done (s_invalid_argument, h_output st', output_size st')
     else Done (s_ok, h_output st', output_size st')) = Done (s_ok, wrote buf 0 text, length text)).
  { intros text k st' (_ & Hb & Ho & Hout & Hsz & _) Hk. rewrite Hb, Ho, length_replicate, Hout, Hsz.
    assert (forallb (fun d => d) (replicate k true) = true) as -> by (apply forallb_forall; intros d Hd; by apply list_elem_of_In, elem_of_replicate in Hd as [-> _]).
    rewrite (proj2 (Z.ltb_ge _ _)) by lia. by rewrite andb_false_r. }
  destruct (run_bits_sound (bits_of octets) [] [] st0 H0) as (x & Hx & Hres). rewrite Hx in Hcomplete |- *. destruct x as [[[s out] k]|st']; cbn [after].
  - destruct Hres as (s' & out' & k' & [= -> -> ->] & Hs & Ho & Hk). eexists _, _, _. split; [done|]. split; [done|]. split; [done|]. split; [done|].
    intros text Ht Hcap. by destruct (Hcomplete text Ht Hcap) as (? & ? & ? & _).
  - destruct Hres as (text & p & Hi & Hbits). cbn [huffman_bits fmap list_fmap concat app] in Hbits. assert (Hii := Hi).
    destruct Hii as (Hw & Hb & Ho & Hout & Hsz & Hcap & Hbytes).
    set (r := if negb (node st' =? 0)%nat && ((7 <? tail_bits st') || negb (tail_ones st')) then Done (s_invalid_argument, h_output st', output_size st')
     else Done (s_ok, h_output st', output_size st')).
    assert (Hr : exists s, r = Done (s, wrote buf 0 text, length text) /\ (s = s_ok -> huffman_text octets text)).
    { subst r. rewrite Hout, Hsz. destruct (_ && _) eqn:E; (eexists; split; [done|]); [done|]. intros _. split; [done|].
      assert (Hp : (length p <= 7)%nat /\ forallb (fun d => d) p = true).
      { destruct (Nat.eqb_spec (node st') 0) as [E0|NE]; cbn [negb andb] in E.
        - rewrite E0 in Hw. apply walk_path in Hw as [_ Hw]. injection Hw as <-. split; [cbn; lia|done].
        - apply orb_false_iff in E as [E1 E2]. rewrite Hb in E1. rewrite Ho, negb_false_iff in E2. split; [lia|done]. }
      exists (length p). split; [apply Hp|]. change (huffman_bits []) with (@nil bool) in Hbits. cbn in Hbits. rewrite Hbits. f_equal. apply list_eq. intros j.
      destruct Hp as [_ Hp]. rewrite forallb_forall in Hp. destruct (p !! j) as [d|] eqn:Ej.
      - rewrite (lookup_replicate_2 (length p) true j) by (by apply lookup_lt_Some in Ej). f_equal. apply Hp, list_elem_of_In. by eapply list_elem_of_lookup_2.
      - symmetry. apply lookup_replicate_None. by apply lookup_ge_None. }
    destruct Hr as (s & Er & Hs). fold r. rewrite Er. eexists _, _, _. split; [done|]. split; [apply length_wrote; lia|]. split; [done|]. split.
    + intros ->. exists text. by auto.
    + intros text' Ht Hle. destruct (Hcomplete text' Ht Hle) as (st2 & k & [= <-] & Hi2 & Hk). specialize (Hend text' k st' Hi2 Hk). fold r in Hend. rewrite Er in Hend.
      injection Hend as -> Ho2 Hl2. done.
Qed.
End Decoder.

(** C15. Decoding a Huffman string of HPACK is total, memory safe and exact on every input:
    the decoder succeeds exactly when the octets are the code words of a text of
    bytes (no end-of-string symbol), followed by at most seven ones, and the text fits the
    output; it then leaves the text there.  In particular no two texts share an encoding, and
    the walk over the tree built at compile time never leaves it. *)
Theorem hpack_huffman_exact input base n buf capacity :
  (capacity <= length buf)%nat -> (base + n <= length input)%nat ->
  build_huffman_tree = Done hpack_huffman_tree /\
  exists s out k, hpack_decode_huffman input base n buf capacity = Done (s, out, k) /\ length out = length buf /\ (k <= capacity)%nat /\
    (s = s_ok -> exists text, huffman_text (take n (drop base input)) text /\ k = length text /\ out = wrote buf 0 text) /\
    (forall text, huffman_text (take n (drop base input)) text -> (length text <= capacity)%nat -> s = s_ok /\ k = length text /\ out = wrote buf 0 text).
Proof. intros Hb Hl. split; [exact tree_built|]. by apply hpack_decode_huffman_ok. Qed.

Lemma hpack_huffman_exact_witness :
  exists s out k, hpack_decode_huffman [0xA8; 0xEB; 0x10; 0x64; 0x9C; 0xBF] 0 6 (replicate 9 0) 8 = Done (s, out, k) /\ s = s_ok /\ k = 8%nat
    /\ out = wrote (replicate 9 0) 0 (chars "no-cache").
Proof.
  destruct (hpack_huffman_exact [0xA8; 0xEB; 0x10; 0x64; 0x9C; 0xBF] 0 6 (replicate 9 0) 8) as (_ & s & out & k & E & _ & _ & _ & Hall); [cbn; lia|cbn; lia|].
  exists s, out, k. split; [exact E|]. apply (Hall (chars "no-cache")); [|cbn; lia].
  split; [repeat constructor; unfold byte; lia|]. exists 5%nat. split; [lia|reflexivity].
Defined.
