(* ===== verification/HttpHeaders.v ===== *)
(** * HTTP header fields (castle_ext/protocols/http/headers.hpp, types.hpp)

    A bounded list of fields, each a name and a value in arrays of their own.  Names are
    compared without regard to the case of ASCII letters.  Views passed as arguments are
    characters elsewhere in memory. *)

From S2P Require Import Prelude Status Bytes Words.
Open Scope Z_scope.

(** ** The code *)

(** A character of a view; [char] is the byte, and every comparison of the source is
    with ASCII characters. *)
Definition token_char (c : Z) : bool :=
  ((48 <=? c) && (c <=? 57)) || ((65 <=? c) && (c <=? 90)) || ((97 <=? c) && (c <=? 122)) ||
  bool_decide (c ∈ chars "!#$%&'*+-.^_`|~").

Definition fold_case (c : Z) : Z := if (65 <=? c) && (c <=? 90) then c + 32 else c.
Definition ascii_iequal (lhs rhs : list Z) : exec bool :=
  if negb (length lhs =? length rhs)%nat then Done false
  else after (for_range 0 (length lhs) (fun i _ =>
          a ← load lhs i; b ← load rhs i;
          if negb (fold_case a =? fold_case b) then Done (Return false) else Done (Next tt)) tt) (fun _ => Done true).

Definition valid_name (name : list Z) : exec bool :=
  if (length name =? 0)%nat then Done false
  else
    c0 ← load name 0;
    if (c0 =? 58) && (length name =? 1)%nat then Done false
    else
      let first := if c0 =? 58 then 1%nat else 0%nat in
      after (for_range first (length name - first) (fun i _ =>
          c ← load name i; if negb (token_char c) then Done (Return false) else Done (Next tt)) tt) (fun _ => Done true).

Definition valid_value (value : list Z) : exec bool :=
  after (for_range 0 (length value) (fun i _ =>
      c ← load value i;
      if (c =? 0) || (c =? 13) || (c =? 10) || ((c <? 32) && negb (c =? 9)) || (c =? 127) then Done (Return false) else Done (Next tt)) tt)
    (fun _ => Done true).

(** The characters of a view, then a null. *)
Definition copy_view (out view : list Z) : exec (list Z) :=
  out ← for_to 0 (length view) (fun i out => c ← load view i; store out i c) out;
  store out (length view) 0.

Record field : Type := mk_field { f_name : list Z; f_value : list Z; name_size : nat; value_size : nat }.
Record basic_headers : Type := mk_headers { fields_ : list field; size_ : nat }.

Definition copy (out : field) (name value : list Z) : exec field :=
  n ← copy_view (f_name out) name; v ← copy_view (f_value out) value;
  Done (mk_field n v (length name) (length value)).
Definition view_name (f : field) : list Z := take (name_size f) (f_name f).
Definition view_value (f : field) : list Z := take (value_size f) (f_value f).

Section Headers.
Context (MaxHeaders MaxNameSize MaxValueSize : nat).

Definition headers_new : basic_headers :=
  mk_headers (replicate MaxHeaders (mk_field (replicate (MaxNameSize + 1) 0) (replicate (MaxValueSize + 1) 0) 0 0)) 0.

Definition clear (h : basic_headers) : basic_headers := mk_headers (fields_ h) 0.
Definition size (h : basic_headers) : nat := size_ h.
Definition empty (h : basic_headers) : bool := (size_ h =? 0)%nat.
Definition full (h : basic_headers) : bool := (size_ h =? MaxHeaders)%nat.

Definition add (h : basic_headers) (name value : list Z) : exec (status * basic_headers) :=
  n ← valid_name name; v ← valid_value value;
  if negb n || negb v then Done (s_invalid_argument, h)
  else if (size_ h =? MaxHeaders)%nat then Done (s_full, h)
  else if (MaxNameSize <? length name)%nat || (MaxValueSize <? length value)%nat then Done (s_out_of_range, h)
  else
    f ← load (fields_ h) (size_ h); f ← copy f name value; fs ← store (fields_ h) (size_ h) f;
    Done (s_ok, mk_headers fs (size_ h + 1)).

(** The loop over the fields that stops at the first one with the name. *)
Definition find_first {R} (h : basic_headers) (name : list Z) (found : nat -> exec R) : exec (ctl R unit) :=
  for_range 0 (size_ h) (fun i _ =>
    f ← load (fields_ h) i; e ← ascii_iequal (view_name f) name;
    if e : bool then r ← found i; Done (Return r) else Done (Next tt)) tt.

Definition set (h : basic_headers) (name value : list Z) : exec (status * basic_headers) :=
  n ← valid_name name; v ← valid_value value;
  if negb n || negb v then Done (s_invalid_argument, h)
  else if (MaxNameSize <? length name)%nat || (MaxValueSize <? length value)%nat then Done (s_out_of_range, h)
  else
    after (find_first h name (fun i => f ← load (fields_ h) i; f ← copy f name value; fs ← store (fields_ h) i f; Done (s_ok, mk_headers fs (size_ h))))
      (fun _ => add h name value).

Definition remove (h : basic_headers) (name : list Z) : exec (bool * basic_headers) :=
  after (find_first h name (fun i =>
      fs ← for_to (i + 1) (size_ h - (i + 1)) (fun j fs => f ← load fs j; store fs (j - 1) f) (fields_ h);
      Done (true, mk_headers fs (size_ h - 1))))
    (fun _ => Done (false, h)).

(** [operator[]]: the name and the value, empty beyond the end. *)
Definition at_ (h : basic_headers) (index : nat) : exec (list Z * list Z) :=
  if (size_ h <=? index)%nat then Done ([], []) else f ← load (fields_ h) index; Done (view_name f, view_value f).
Definition get (h : basic_headers) (name : list Z) : exec (list Z) :=
  after (find_first h name (fun i => f ← load (fields_ h) i; Done (view_value f))) (fun _ => Done []).
Definition contains (h : basic_headers) (name : list Z) : exec bool :=
  after (find_first h name (fun _ => Done true)) (fun _ => Done false).

(** ** Lists of fields *)

Definition same_text (a b : list Z) : bool := bool_decide (fold_case <$> a = fold_case <$> b).
Definition name_ok (name : list Z) : bool :=
  match name with
  | [] => false
  | c :: rest => if c =? 58 then negb (length rest =? 0)%nat && forallb token_char rest else forallb token_char name
  end.
Definition value_char (c : Z) : bool := ((32 <=? c) || (c =? 9)) && negb (c =? 127).
Definition value_ok (value : list Z) : bool := forallb value_char value.

Definition fits (f : list Z * list Z) : bool := (length f.1 <=? MaxNameSize)%nat && (length f.2 <=? MaxValueSize)%nat.
Definition well_formed (f : list Z * list Z) : bool := name_ok f.1 && value_ok f.2.

Definition spec_add (l : list (list Z * list Z)) (f : list Z * list Z) : status * list (list Z * list Z) :=
  if negb (well_formed f) then (s_invalid_argument, l)
  else if decide (length l = MaxHeaders) then (s_full, l)
  else if fits f then (s_ok, l ++ [f]) else (s_out_of_range, l).

Definition first_named (l : list (list Z * list Z)) (name : list Z) : option nat :=
  fst <$> list_find (fun f => same_text f.1 name = true) l.

Definition spec_set (l : list (list Z * list Z)) (f : list Z * list Z) : status * list (list Z * list Z) :=
  if negb (well_formed f) then (s_invalid_argument, l)
  else if negb (fits f) then (s_out_of_range, l)
  else match first_named l f.1 with Some i => (s_ok, <[i := f]> l) | None => spec_add l f end.
Definition spec_remove (l : list (list Z * list Z)) (name : list Z) : bool * list (list Z * list Z) :=
  match first_named l name with Some i => (true, delete i l) | None => (false, l) end.
Definition spec_get (l : list (list Z * list Z)) (name : list Z) : list Z :=
  match first_named l name with Some i => default [] (snd <$> l !! i) | None => [] end.

(** ** The arrays hold the list *)

Definition sized (f : field) : Prop := length (f_name f) = (MaxNameSize + 1)%nat /\ length (f_value f) = (MaxValueSize + 1)%nat.
Definition field_holds (f : field) (x : list Z * list Z) : Prop := view_name f = x.1 /\ view_value f = x.2.
Definition headers_hold (h : basic_headers) (l : list (list Z * list Z)) : Prop :=
  length (fields_ h) = MaxHeaders /\ Forall sized (fields_ h) /\ size_ h = length l /\ (length l <= MaxHeaders)%nat
  /\ Forall2 field_holds (take (length l) (fields_ h)) l.

Lemma copy_view_ok out view : (length view < length out)%nat -> copy_view out view = Done (wrote out 0 (view ++ [0])).
Proof.
  intros H. unfold copy_view.
  destruct (for_to_inv (fun i o => o = wrote out 0 (take i view)) (fun i out => c ← load view i; store out i c) 0 (length view) out) as (o & -> & ->).
  - reflexivity.
  - intros i o Hi ->. destruct (lookup_lt_is_Some_2 view i) as [c Hc]; [lia|]. rewrite (load_Done _ _ _ Hc), bind_Done.
    rewrite store_wrote by (rewrite ?length_take; lia). eexists. split; [done|]. by rewrite (take_S_r _ _ _ Hc).
  - rewrite bind_Done. cbn [Nat.add]. rewrite (take_ge view) by lia. by apply store_wrote.
Qed.

Lemma view_wrote out v n : n = length v -> (length v < length out)%nat -> take n (wrote out 0 (v ++ [0])) = v.
Proof. intros -> H. rewrite wrote_0, <-app_assoc. apply take_app_length. Qed.

Lemma copy_ok out name value : sized out -> (length name <= MaxNameSize)%nat -> (length value <= MaxValueSize)%nat ->
  exists f, copy out name value = Done f /\ sized f /\ field_holds f (name, value).
Proof.
  intros [Hn Hv] H1 H2. unfold copy. rewrite !copy_view_ok, !bind_Done by lia. eexists. split; [done|].
  unfold sized, field_holds, view_name, view_value. cbn [f_name f_value name_size value_size fst snd].
  rewrite !length_wrote by (rewrite length_app; cbn; lia). rewrite !view_wrote by (done || lia). done.
Qed.

(** *** Characters *)

(** A loop that tests every character of a view. *)
Lemma test_loop (bad good : Z -> bool) view i n :
  Forall (fun c => bad c = negb (good c)) view -> (i + n <= length view)%nat ->
  for_range i n (fun i _ => c ← load view i; if bad c then Done (Return false) else Done (Next tt)) tt
  = Done (if forallb good (take n (drop i view)) then Next tt else Return false).
Proof.
  intros Hg. revert i. induction n as [|n IH]; intros i H; [done|]. cbn [for_range]. destruct (lookup_lt_is_Some_2 view i) as [c Hc]; [lia|].
  rewrite (load_Done _ _ _ Hc), bind_Done, (drop_S _ _ _ Hc). cbn [take firstn forallb]. rewrite (Forall_lookup_1 _ _ _ _ Hg Hc).
  destruct (good c); [|done]. cbn [negb andb]. apply IH. lia.
Qed.

Lemma valid_name_ok name : valid_name name = Done (name_ok name).
Proof.
  unfold valid_name. destruct name as [|c rest]; [done|]. cbn [length Nat.eqb]. change (load (c :: rest) 0) with (Done c). rewrite bind_Done. unfold name_ok.
  assert (Hall : forall l, Forall (fun c => negb (token_char c) = negb (token_char c)) l) by (intros l; by apply Forall_true).
  destruct (c =? 58) eqn:E; cbn [andb].
  - destruct (Nat.eqb_spec (length rest) 0) as [Hz|Hnz]; [done|]. cbn [negb andb]. rewrite (test_loop _ token_char) by (done || cbn; lia).
    change (drop 1 (c :: rest)) with rest. rewrite (take_ge rest) by (cbn; lia). by destruct (forallb token_char rest).
  - rewrite (test_loop _ token_char) by (done || cbn; lia). rewrite drop_0, (take_ge (c :: rest)) by (cbn; lia). by destruct (forallb token_char (c :: rest)).
Qed.

Lemma valid_value_ok value : Forall byte value -> valid_value value = Done (value_ok value).
Proof.
  intros Hb. unfold valid_value. rewrite (test_loop _ value_char); [|eapply Forall_impl; [exact Hb|]; intros c Hc; unfold value_char; unfold byte in Hc; lia|lia].
  rewrite drop_0, (take_ge value) by lia. unfold value_ok. by destruct (forallb value_char value).
Qed.

Lemma ascii_iequal_ok a b : ascii_iequal a b = Done (same_text a b).
Proof.
  unfold ascii_iequal, same_text. destruct (Nat.eqb_spec (length a) (length b)) as [El|Nl]; cbn [negb].
  2:{ rewrite bool_decide_eq_false_2; [done|]. intros H%(f_equal length). by rewrite !length_fmap in H. }
  assert (H : forall n i, (i + n = length a)%nat -> for_range i n (fun i _ =>
      x ← load a i; y ← load b i; if negb (fold_case x =? fold_case y) then Done (Return false) else Done (Next tt)) tt
    = Done (if bool_decide (fold_case <$> drop i a = fold_case <$> drop i b) then Next tt else Return false)).
  { induction n as [|n IH]; intros i Hi; cbn [for_range].
    - rewrite !drop_ge by lia. by rewrite bool_decide_eq_true_2.
    - destruct (lookup_lt_is_Some_2 a i) as [x Hx]; [lia|]. destruct (lookup_lt_is_Some_2 b i) as [y Hy]; [lia|].
      rewrite (load_Done _ _ _ Hx), (load_Done _ _ _ Hy), !bind_Done, (drop_S _ _ _ Hx), (drop_S _ _ _ Hy). cbn [fmap list_fmap].
      destruct (Z.eqb_spec (fold_case x) (fold_case y)) as [E|NE]; cbn [negb].
      + rewrite IH by lia. rewrite E. repeat case_bool_decide; congruence.
      + rewrite bool_decide_eq_false_2 by congruence. done. }
  rewrite (H (length a) 0%nat) by done. rewrite !drop_0. by case_bool_decide.
Qed.

(** *** Operations *)

Lemma hold_lookup h l i x : headers_hold h l -> l !! i = Some x -> exists f, fields_ h !! i = Some f /\ sized f /\ field_holds f x.
Proof.
  intros (_ & Hsz & _ & _ & Hall) Hx. destruct (Forall2_lookup_r _ _ _ _ _ Hall Hx) as (f & Hf & Hh). apply lookup_take_Some in Hf as [Hf _].
  exists f. split; [done|]. split; [by eapply (Forall_lookup_1 sized)|done].
Qed.

Lemma find_first_ok {R} h l name (found : nat -> exec R) : headers_hold h l ->
  find_first h name found = match first_named l name with Some i => r ← found i; Done (Return r) | None => Done (Next tt) end.
Proof.
  intros Hh. unfold find_first, first_named.
  assert (H : forall n i, (i + n = length l)%nat -> for_range i n (fun i _ =>
      f ← load (fields_ h) i; e ← ascii_iequal (view_name f) name; if e : bool then r ← found i; Done (Return r) else Done (Next tt)) tt
    = match fst <$> list_find (fun f => same_text f.1 name = true) (drop i l) with Some j => r ← found (i + j)%nat; Done (Return r) | None => Done (Next tt) end).
  { induction n as [|n IH]; intros i Hi; cbn [for_range].
    - by rewrite drop_ge by lia.
    - destruct (lookup_lt_is_Some_2 l i) as [x Hx]; [lia|]. destruct (hold_lookup h l i x Hh Hx) as (f & Hf & _ & Hn & _).
      rewrite (load_Done _ _ _ Hf), bind_Done, Hn, ascii_iequal_ok, bind_Done, (drop_S _ _ _ Hx). cbn [list_find].
      destruct (same_text x.1 name) eqn:E.
      + rewrite decide_True by done. cbn [fmap option_fmap option_map fst]. rewrite Nat.add_0_r. by destruct (found i).
      + rewrite decide_False by congruence. rewrite IH by lia. destruct (list_find _ (drop (S i) l)) as [[j y]|]; [|done].
        cbn [fmap option_fmap option_map fst prod_map]. by rewrite Nat.add_succ_r. }
  assert (Hsize : size_ h = length l) by apply Hh. rewrite Hsize, (H (length l) 0%nat) by done. by rewrite drop_0.
Qed.

Lemma first_named_lt l name i : first_named l name = Some i -> exists x, l !! i = Some x.
Proof. unfold first_named. intros ((j, x) & (Hx & _)%list_find_Some & ->)%fmap_Some. by exists x. Qed.

Lemma store_hold h l i f x : headers_hold h l -> (i < length l)%nat -> sized f -> field_holds f x ->
  exists fs, store (fields_ h) i f = Done fs /\ headers_hold (mk_headers fs (size_ h)) (<[i := x]> l).
Proof.
  intros (Hl & Hsz & Hc & Hle & Hall) Hi Hf Hx. rewrite store_Done by lia. eexists. split; [done|]. unfold headers_hold. cbn [fields_ size_].
  rewrite !length_insert. split_and!; [done|by apply Forall_insert|done|done|]. rewrite take_insert_lt by done. by apply Forall2_insert.
Qed.

Lemma add_ok h l name value : headers_hold h l -> Forall byte value ->
  exists h', add h name value = Done ((spec_add l (name, value)).1, h') /\ headers_hold h' (spec_add l (name, value)).2.
Proof.
  intros Hh Hb. unfold add, spec_add, well_formed, fits. rewrite valid_name_ok, valid_value_ok, !bind_Done by done. cbn [fst snd]. rewrite negb_andb.
  destruct (negb (name_ok name) || negb (value_ok value)); [by exists h|]. assert (Hh' := Hh). destruct Hh as (Hl & Hsz & Hc & Hle & Hall). rewrite Hc.
  destruct (Nat.eqb_spec (length l) MaxHeaders) as [Hfull|Hroom]; [rewrite decide_True by done; by exists h|]. rewrite decide_False by done.
  rewrite !Nat.ltb_antisym, <-negb_andb. destruct ((length name <=? MaxNameSize) && (length value <=? MaxValueSize))%nat eqn:E; cbn [negb]; [|by exists h].
  apply andb_true_iff in E as [E1%Nat.leb_le E2%Nat.leb_le]. destruct (lookup_lt_is_Some_2 (fields_ h) (length l)) as [f Hf]; [lia|].
  rewrite (load_Done _ _ _ Hf), bind_Done. destruct (copy_ok f name value) as (f' & -> & Hf' & Hx); [by eapply (Forall_lookup_1 sized)|done|done|].
  rewrite bind_Done, store_Done, bind_Done by lia. eexists. split; [done|]. unfold headers_hold. cbn [fields_ size_ snd].
  rewrite length_insert, length_app. cbn [length]. split_and!; [done|by apply Forall_insert|done|lia|].
  rewrite Nat.add_1_r, (take_S_r _ _ f') by (apply list_lookup_insert_eq; lia). rewrite take_insert_ge by lia. apply Forall2_app; [done|by constructor].
Qed.

Lemma set_ok h l name value : headers_hold h l -> Forall byte value ->
  exists h', set h name value = Done ((spec_set l (name, value)).1, h') /\ headers_hold h' (spec_set l (name, value)).2.
Proof.
  intros Hh Hb. unfold set, spec_set. pose proof (add_ok h l name value Hh Hb) as Hadd. unfold well_formed, fits. rewrite valid_name_ok, valid_value_ok, !bind_Done by done. cbn [fst snd]. rewrite negb_andb.
  destruct (negb (name_ok name) || negb (value_ok value)); [by exists h|].
  rewrite !Nat.ltb_antisym, <-negb_andb. destruct ((length name <=? MaxNameSize) && (length value <=? MaxValueSize))%nat eqn:E; cbn [negb]; [|by exists h].
  apply andb_true_iff in E as [E1%Nat.leb_le E2%Nat.leb_le]. rewrite (find_first_ok h l) by done.
  destruct (first_named l name) as [i|] eqn:Ef; [|exact Hadd]. destruct (first_named_lt _ _ _ Ef) as [x Hx]. destruct (hold_lookup h l i x Hh Hx) as (f & Hf & Hsz & _).
  rewrite (load_Done _ _ _ Hf), bind_Done. destruct (copy_ok f name value) as (f' & -> & Hf' & Hh'); [done|done|done|]. rewrite bind_Done.
  destruct (store_hold h l i f' (name, value)) as (fs & -> & Hfs); [done|by apply lookup_lt_Some in Hx|done|done|]. by eexists.
Qed.

(** The fields behind a removed one move down. *)
Lemma shift_down_ok (fs : list field) i n : (i + n < length fs)%nat ->
  exists tl, for_to (i + 1) n (fun j fs => f ← load fs j; store fs (j - 1) f) fs = Done (take i fs ++ take n (drop (i + 1) fs) ++ tl)
    /\ tl = drop (i + n) fs.
Proof.
  intros H. eexists. split; [|reflexivity].
  destruct (for_to_inv (fun j st => st = take i fs ++ take (j - (i + 1)) (drop (i + 1) fs) ++ drop (j - 1) fs)
    (fun j fs => f ← load fs j; store fs (j - 1) f) (i + 1) n fs) as (st & -> & ->).
  - by rewrite Nat.sub_diag, Nat.add_sub, take_0, app_nil_l, take_drop.
  - intros j st Hj ->. destruct (lookup_lt_is_Some_2 fs j) as [f Hf]; [lia|].
    set (a := take i fs ++ take (j - (i + 1)) (drop (i + 1) fs)). assert (Ha : length a = (j - 1)%nat) by (subst a; rewrite length_app, !length_take, length_drop; lia).
    rewrite app_assoc. fold a. assert (Hd : drop (j - 1) fs !! 1%nat = Some f) by (rewrite lookup_drop; by replace (j - 1 + 1)%nat with j by lia).
    rewrite (load_Done _ j f) by (rewrite lookup_app_r, Ha by lia; by replace (j - (j - 1))%nat with 1%nat by lia). rewrite bind_Done.
    rewrite store_Done by (rewrite length_app, length_drop; lia). eexists. split; [done|]. rewrite insert_app_r_alt, Ha, Nat.sub_diag by lia.
    destruct (drop (j - 1) fs) as [|g rest] eqn:Eg; [done|]. cbn [insert list_insert]. replace (S j - 1)%nat with (S (j - 1)) by lia.
    replace (S j - (i + 1))%nat with (S (j - (i + 1))) by lia. rewrite (take_S_r _ _ f) by (rewrite lookup_drop; by replace (i + 1 + (j - (i + 1)))%nat with j by lia).
    assert (Er : drop (S (j - 1)) fs = rest) by (rewrite <-Nat.add_1_r, <-drop_drop, Eg; done). rewrite Er. subst a. by rewrite <-!app_assoc.
  - replace (i + 1 + n - (i + 1))%nat with n by lia. by replace (i + 1 + n - 1)%nat with (i + n)%nat by lia.
Qed.

Lemma headers_remove_ok h l name : headers_hold h l ->
  exists h', remove h name = Done ((spec_remove l name).1, h') /\ headers_hold h' (spec_remove l name).2.
Proof.
  intros Hh. unfold remove, spec_remove. rewrite (find_first_ok h l) by done. destruct (first_named l name) as [i|] eqn:Ef; [|by exists h].
  destruct (first_named_lt _ _ _ Ef) as [x Hx]. apply lookup_lt_Some in Hx. destruct Hh as (Hl & Hsz & Hc & Hle & Hall). rewrite Hc.
  destruct (shift_down_ok (fields_ h) i (length l - (i + 1))) as (tl & -> & ->); [lia|]. rewrite bind_Done. cbn [after]. eexists. split; [done|].
  unfold headers_hold. cbn [fields_ size_ snd]. rewrite !length_app, !length_take, !length_drop, length_delete by (apply lookup_lt_is_Some_2; lia).
  split_and!; [lia| |lia|lia|].
  - repeat apply Forall_app_2; auto using Forall_take, Forall_drop.
  - rewrite delete_take_drop. rewrite app_assoc, take_app_le by (rewrite length_app, !length_take, length_drop; lia).
    rewrite take_ge by (rewrite length_app, !length_take, length_drop; lia). apply Forall2_app.
    + rewrite <-(Nat.min_l i (length l)) at 1 by lia. rewrite <-take_take. by apply Forall2_take.
    + replace (take (length l - (i + 1)) (drop (i + 1) (fields_ h))) with (drop (i + 1) (take (length l) (fields_ h))) by (by rewrite skipn_firstn_comm).
      rewrite Nat.add_1_r. by apply Forall2_drop.
Qed.

(** ** Sequences of operations *)

Inductive header_op : Type :=
| H_add (name value : list Z) | H_set (name value : list Z) | H_remove (name : list Z) | H_clear.
Inductive header_result : Type := R_status (s : status) | R_removed (b : bool) | R_none.

Definition run_op (h : basic_headers) (op : header_op) : exec (header_result * basic_headers) :=
  match op with
  | H_add n v => '(s, h) ← add h n v; Done (R_status s, h)
  | H_set n v => '(s, h) ← set h n v; Done (R_status s, h)
  | H_remove n => '(b, h) ← remove h n; Done (R_removed b, h)
  | H_clear => Done (R_none, clear h)
  end.
Definition spec_op (l : list (list Z * list Z)) (op : header_op) : header_result * list (list Z * list Z) :=
  match op with
  | H_add n v => let '(s, l) := spec_add l (n, v) in (R_status s, l)
  | H_set n v => let '(s, l) := spec_set l (n, v) in (R_status s, l)
  | H_remove n => let '(b, l) := spec_remove l n in (R_removed b, l)
  | H_clear => (R_none, [])
  end.

Fixpoint run_header_ops (h : basic_headers) (ops : list header_op) : exec (list header_result * basic_headers) :=
  match ops with
  | [] => Done ([], h)
  | op :: ops => '(r, h) ← run_op h op; '(rs, h) ← run_header_ops h ops; Done (r :: rs, h)
  end.
Fixpoint spec_header_ops (l : list (list Z * list Z)) (ops : list header_op) : list header_result * list (list Z * list Z) :=
  match ops with
  | [] => ([], l)
  | op :: ops => let '(r, l) := spec_op l op in let '(rs, l) := spec_header_ops l ops in (r :: rs, l)
  end.
Definition op_bytes (op : header_op) : Prop := match op with H_add _ v | H_set _ v => Forall byte v | _ => True end.

Lemma headers_run_op_ok h l op : headers_hold h l -> op_bytes op ->
  exists h', run_op h op = Done ((spec_op l op).1, h') /\ headers_hold h' (spec_op l op).2.
Proof.
  intros Hh Hb. destruct op as [n v|n v|n|]; cbn [run_op spec_op].
  - destruct (add_ok h l n v Hh Hb) as (h' & -> & Hh'). rewrite bind_Done. destruct (spec_add l (n, v)). by exists h'.
  - destruct (set_ok h l n v Hh Hb) as (h' & -> & Hh'). rewrite bind_Done. destruct (spec_set l (n, v)). by exists h'.
  - destruct (headers_remove_ok h l n Hh) as (h' & -> & Hh'). rewrite bind_Done. destruct (spec_remove l n). by exists h'.
  - exists (clear h). split; [done|]. destruct Hh as (Hl & Hsz & _). split_and!; [done|done|done|apply Nat.le_0_l|constructor].
Qed.

Lemma run_ops_ok h l ops : headers_hold h l -> Forall op_bytes ops ->
  exists h', run_header_ops h ops = Done ((spec_header_ops l ops).1, h') /\ headers_hold h' (spec_header_ops l ops).2.
Proof.
  intros Hh H. revert h l Hh. induction H as [|op ops Hop H IH]; intros h l Hh; [by exists h|]. cbn [run_header_ops spec_header_ops].
  destruct (headers_run_op_ok h l op Hh Hop) as (h1 & -> & H1). rewrite bind_Done. destruct (spec_op l op) as [r l1]. cbn [fst snd] in *.
  destruct (IH h1 l1 H1) as (h2 & -> & H2). rewrite bind_Done. destruct (spec_header_ops l1 ops) as [rs l2]. by exists h2.
Qed.

Lemma headers_new_hold : headers_hold headers_new [].
Proof.
  split_and!; [apply length_replicate| |done|apply Nat.le_0_l|constructor]. apply Forall_replicate. split; apply length_replicate.
Qed.

Lemma observers_ok h l : headers_hold h l ->
  size h = length l /\ empty h = bool_decide (l = []) /\ full h = (length l =? MaxHeaders)%nat
  /\ (forall i, at_ h i = Done (default ([], []) (l !! i)))
  /\ (forall n, get h n = Done (spec_get l n)) /\ (forall n, contains h n = Done (bool_decide (is_Some (first_named l n)))).
Proof.
  intros Hh. pose proof Hh as (_ & _ & Hc & _). unfold size, empty, full. rewrite Hc. split_and!; [done|by destruct l|done| | |].
  - intros i. unfold at_. rewrite Hc. destruct (Nat.leb_spec (length l) i) as [Hge|Hlt]; [by rewrite lookup_ge_None_2|].
    destruct (lookup_lt_is_Some_2 l i Hlt) as [x Hx]. destruct (hold_lookup h l i x Hh Hx) as (f & Hf & _ & Hn & Hv).
    rewrite (load_Done _ _ _ Hf), bind_Done, Hn, Hv, Hx. by destruct x.
  - intros n. unfold get, spec_get. rewrite (find_first_ok h l) by done. destruct (first_named l n) as [i|] eqn:E; [|done].
    destruct (first_named_lt _ _ _ E) as [x Hx]. destruct (hold_lookup h l i x Hh Hx) as (f & Hf & _ & _ & Hv).
    rewrite (load_Done _ _ _ Hf), bind_Done, Hx, Hv. done.
  - intros n. unfold contains. rewrite (find_first_ok h l) by done. by destruct (first_named l n).
Qed.

(** HTTP headers refine a bounded list of fields: after any sequence of operations every
    result is that of the list, the arrays hold it, and every observer agrees with it;
    a field is refused exactly when its name is not a token (a pseudo-header included), its value
    has a control character, it does not fit or the list is full, and names are found without
    regard to case, the first one first.  No operation leaves its arrays. *)
Theorem http_headers_refine_list ops :
  Forall op_bytes ops ->
  exists h, run_header_ops headers_new ops = Done ((spec_header_ops [] ops).1, h) /\
    let l := (spec_header_ops [] ops).2 in
    headers_hold h l /\ (length l <= MaxHeaders)%nat
    /\ size h = length l /\ empty h = bool_decide (l = []) /\ full h = (length l =? MaxHeaders)%nat
    /\ (forall i, at_ h i = Done (default ([], []) (l !! i)))
    /\ (forall n, get h n = Done (spec_get l n)) /\ (forall n, contains h n = Done (bool_decide (is_Some (first_named l n)))).
Proof.
  intros Hb. destruct (run_ops_ok headers_new [] ops headers_new_hold Hb) as (h & Hr & Hh). exists h. split; [done|]. cbv zeta.
  split; [done|]. split; [apply Hh|]. by apply observers_ok.
Qed.
End Headers.

Lemma http_headers_refine_list_witness :
  exists h, run_header_ops 2 4 4 (headers_new 2 4 4) [H_add (chars "Ab") (chars "x"); H_set (chars "aB") (chars "yz"); H_add (chars "a b") [];
      H_add (chars ":p") []; H_add (chars "q") []; H_remove (chars "AB")]
    = Done ([R_status s_ok; R_status s_ok; R_status s_invalid_argument; R_status s_ok; R_status s_full; R_removed true], h)
    /\ at_ h 0 = Done (chars ":p", []).
Proof.
  destruct (http_headers_refine_list 2 4 4 [H_add (chars "Ab") (chars "x"); H_set (chars "aB") (chars "yz"); H_add (chars "a b") [];
      H_add (chars ":p") []; H_add (chars "q") []; H_remove (chars "AB")]) as (h & Hr & _ & _ & _ & _ & _ & Hat & _).
  - repeat constructor; unfold byte; lia.
  - exists h. split; [exact Hr|]. exact (Hat 0%nat).
Defined.
