(* ===== verification/Hpack.v ===== *)
(** * HPACK (castle_ext/protocols/http/hpack.hpp)

    Header compression of HTTP/2 (RFC 7541): strings, the static table, the decoder with its
    dynamic table and the encoder.  The decoder hands its fields to a header list, whose interface is
    the class [HeaderSink]; the headers of HttpHeaders are an instance.  The reference is the
    format as relations on the octets and the table as a list of fields with a limit. *)

From S2P Require Import Prelude Status Bytes Words HpackInteger HpackHuffman HttpHeaders.
Open Scope Z_scope.

(** What the decoder needs of a header list. *)
Class HeaderSink (H : Type) : Type := {
  sink_add : H -> list Z -> list Z -> exec (status * H);
  sink_inv : H -> Prop;
  sink_add_ok h name value : sink_inv h -> Forall byte value -> exists s h', sink_add h name value = Done (s, h') /\ sink_inv h' }.

(** ** The code *)

Definition hpack_static_table : list (list Z * list Z) :=
  (fun '(n, v) => (chars n, chars v)) <$>
  [(":authority", EmptyString); (":method", "GET"); (":method", "POST"); (":path", "/"); (":path", "/index.html"); (":scheme", "http");
   (":scheme", "https"); (":status", "200"); (":status", "204"); (":status", "206"); (":status", "304"); (":status", "400");
   (":status", "404"); (":status", "500"); ("accept-charset", EmptyString); ("accept-encoding", "gzip, deflate"); ("accept-language", EmptyString);
   ("accept-ranges", EmptyString); ("accept", EmptyString); ("access-control-allow-origin", EmptyString); ("age", EmptyString); ("allow", EmptyString); ("authorization", EmptyString);
   ("cache-control", EmptyString); ("content-disposition", EmptyString); ("content-encoding", EmptyString); ("content-language", EmptyString); ("content-length", EmptyString);
   ("content-location", EmptyString); ("content-range", EmptyString); ("content-type", EmptyString); ("cookie", EmptyString); ("date", EmptyString); ("etag", EmptyString);
   ("expect", EmptyString); ("expires", EmptyString); ("from", EmptyString); ("host", EmptyString); ("if-match", EmptyString); ("if-modified-since", EmptyString); ("if-none-match", EmptyString);
   ("if-range", EmptyString); ("if-unmodified-since", EmptyString); ("last-modified", EmptyString); ("link", EmptyString); ("location", EmptyString); ("max-forwards", EmptyString);
   ("proxy-authenticate", EmptyString); ("proxy-authorization", EmptyString); ("range", EmptyString); ("referer", EmptyString); ("refresh", EmptyString); ("retry-after", EmptyString);
   ("server", EmptyString); ("set-cookie", EmptyString); ("strict-transport-security", EmptyString); ("transfer-encoding", EmptyString); ("user-agent", EmptyString);
   ("vary", EmptyString); ("via", EmptyString); ("www-authenticate", EmptyString)].

Definition find_static_body (name value : list Z) (i name_index : nat) : exec (ctl (nat * bool) nat) :=
  f ← load hpack_static_table i;
  if negb (bool_decide (f.1 = name)) then Done (Next name_index)
  else
    let name_index := if (name_index =? 0)%nat then (i + 1)%nat else name_index in
    if bool_decide (f.2 = value) then Done (Return ((i + 1)%nat, true)) else Done (Next name_index).

(** The index, zero if there is none, and whether the value matches too. *)
Definition hpack_find_static (name value : list Z) : exec (nat * bool) :=
  after (for_range 0 61 (find_static_body name value) 0%nat)
    (fun name_index => Done (name_index, false)).

Record dynamic_entry : Type := mk_entry { e_name : list Z; e_value : list Z; e_name_size : nat; e_value_size : nat; e_bytes : nat }.
Record hpack_decoder : Type := mk_decoder {
  entries_ : list dynamic_entry; entry_count_ : nat; table_bytes_ : nat; allowed_table_bytes_ : nat }.

Section Hpack.
Context (MaxDynamicTableBytes MaxStringSize MaxDynamicEntries : nat).

Definition entry_new : dynamic_entry := mk_entry (replicate (MaxStringSize + 1) 0) (replicate (MaxStringSize + 1) 0) 0 0 0.
Definition decoder_new : hpack_decoder := mk_decoder (replicate MaxDynamicEntries entry_new) 0 0 MaxDynamicTableBytes.

Definition dynamic_table_size (d : hpack_decoder) : nat := table_bytes_ d.
Definition dynamic_entry_count (d : hpack_decoder) : nat := entry_count_ d.
Definition maximum_table_size (d : hpack_decoder) : nat := allowed_table_bytes_ d.

Definition evict_all (d : hpack_decoder) : hpack_decoder := mk_decoder (entries_ d) 0 0 (allowed_table_bytes_ d).
Definition clear_dynamic_table (d : hpack_decoder) : hpack_decoder := mk_decoder (entries_ d) 0 0 MaxDynamicTableBytes.

(** The oldest entry goes. *)
Definition drop_oldest (d : hpack_decoder) : exec hpack_decoder :=
  e ← load (entries_ d) (entry_count_ d - 1);
  Done (mk_decoder (entries_ d) (entry_count_ d - 1) (table_bytes_ d - e_bytes e) (allowed_table_bytes_ d)).

(** [while (condition) drop the oldest]; a pass removes an entry. *)
Definition evict_while (condition : hpack_decoder -> bool) (d : hpack_decoder) : exec hpack_decoder :=
  match while_loop (R := Empty_set) (S (entry_count_ d)) (fun d => Done (condition d)) (fun d => d ← drop_oldest d; Done (Next d)) d with
  | Done (Next d) => Done d
  | Done (Return r) => match r with end
  | Undefined => Undefined
  end.

Definition evict_to_limit (d : hpack_decoder) : exec hpack_decoder :=
  evict_while (fun d => negb (entry_count_ d =? 0)%nat && (allowed_table_bytes_ d <? table_bytes_ d)%nat) d.

Definition insert (d : hpack_decoder) (name value : list Z) : exec hpack_decoder :=
  let bytes := (32 + length name + length value)%nat in
  if (allowed_table_bytes_ d <? bytes)%nat then Done (evict_all d)
  else
    d ← evict_while (fun d => negb (entry_count_ d =? 0)%nat &&
          ((allowed_table_bytes_ d - bytes <? table_bytes_ d)%nat || (entry_count_ d =? MaxDynamicEntries)%nat)) d;
    es ← for_to 0 (entry_count_ d) (fun k es => let i := (entry_count_ d - k)%nat in e ← load es (i - 1); store es i e) (entries_ d);
    entry ← load es 0;
    n ← copy_view (e_name entry) name; v ← copy_view (e_value entry) value;
    es ← store es 0 (mk_entry n v (length name) (length value) bytes);
    Done (mk_decoder es (entry_count_ d + 1) (table_bytes_ d + bytes) (allowed_table_bytes_ d)).

(** The views of a field, if the index has one; it is not zero. *)
Definition lookup_field (d : hpack_decoder) (index : Z) : exec (option (list Z * list Z)) :=
  if index <=? 61 then f ← load hpack_static_table (Z.to_nat (to_u64 (index - 1))); Done (Some f)
  else
    let dynamic_index := index - 62 in
    if Z.of_nat (entry_count_ d) <=? dynamic_index then Done None
    else e ← load (entries_ d) (Z.to_nat dynamic_index); Done (Some (take (e_name_size e) (e_name e), take (e_value_size e) (e_value e))).

(** The status, the offset, the output and [output_size]. *)
Definition read_string (input : list Z) (size offset : nat) (output : list Z) (output_size : nat) : exec (status * nat * list Z * nat) :=
  if (size <=? offset)%nat then Done (s_data_loss, offset, output, output_size)
  else
    b ← load input offset;
    let huffman := negb (Z.land b 0x80 =? 0) in
    '(result, offset, encoded_size) ← hpack_read_integer (Some input) size offset 7 0;
    if negb (succeeded result) || (Z.of_nat (size - offset) <? encoded_size) then Done (s_data_loss, offset, output, output_size)
    else
      let n := Z.to_nat encoded_size in
      if huffman then
        '(result, output, output_size) ← hpack_decode_huffman input offset n output MaxStringSize;
        output ← store output output_size 0; Done (result, (offset + n)%nat, output, output_size)
      else if (MaxStringSize <? n)%nat then Done (s_out_of_range, offset, output, output_size)
      else
        output ← for_to 0 n (fun i output => c ← load input (offset + i); store output i c) output;
        output ← store output n 0; Done (s_ok, (offset + n)%nat, output, n).

Section Decode.
Context {H : Type} `{!HeaderSink H}.

(** The variables of [decode_block]. *)
Record block_state : Type := mk_block { offset : nat; saw_field : bool; name_ : list Z; value_ : list Z; decoder_ : hpack_decoder; output_ : H }.

(** The name of a literal field: an error, or the buffer and its size. *)
Definition read_name (input : list Z) (size offset : nat) (d : hpack_decoder) (name_index : Z) (name : list Z) : exec (status + nat * list Z * nat) :=
  if negb (name_index =? 0) then
    f ← lookup_field d name_index;
    match f with
    | None => Done (inl s_invalid_argument)
    | Some (n, _) =>
        if (MaxStringSize <? length n)%nat then Done (inl s_out_of_range)
        else name ← copy_view name n; Done (inr (offset, name, length n))
    end
  else
    '(result, offset, name, name_size) ← read_string input size offset name 0;
    if succeeded result then Done (inr (offset, name, name_size)) else Done (inl result).

(** A pass of the loop over the representations. *)
Definition block_body (input : list Z) (size : nat) (st : block_state) : exec (ctl (status * hpack_decoder * H) block_state) :=
  let stop s h := Done (Return (s, decoder_ st, h)) in
  first ← load input (offset st);
  if negb (Z.land first 0x80 =? 0) then
    '(result, offset, index) ← hpack_read_integer (Some input) size (offset st) 7 0;
    if negb (succeeded result) || (index =? 0) then stop s_invalid_argument (output_ st)
    else
      f ← lookup_field (decoder_ st) index;
      match f with
      | None => stop s_invalid_argument (output_ st)
      | Some (n, v) =>
          '(result, h) ← sink_add (output_ st) n v;
          if succeeded result then Done (Next (mk_block offset true (name_ st) (value_ st) (decoder_ st) h)) else stop result h
      end
  else if Z.land first 0xE0 =? 0x20 then
    if saw_field st then stop s_invalid_argument (output_ st)
    else
      '(result, offset, table_size) ← hpack_read_integer (Some input) size (offset st) 5 0;
      if negb (succeeded result) || (Z.of_nat MaxDynamicTableBytes <? table_size) then stop s_invalid_argument (output_ st)
      else
        d ← evict_to_limit (mk_decoder (entries_ (decoder_ st)) (entry_count_ (decoder_ st)) (table_bytes_ (decoder_ st)) (Z.to_nat table_size));
        Done (Next (mk_block offset (saw_field st) (name_ st) (value_ st) d (output_ st)))
  else
    let incremental := Z.land first 0xC0 =? 0x40 in
    let prefix := if incremental then 6 else 4 in
    '(result, offset, name_index) ← hpack_read_integer (Some input) size (offset st) prefix 0;
    if negb (succeeded result) then stop result (output_ st)
    else
      r ← read_name input size offset (decoder_ st) name_index (name_ st);
      match r with
      | inl s => stop s (output_ st)
      | inr (offset, name, name_size) =>
          '(result, offset, value, value_size) ← read_string input size offset (value_ st) 0;
          if negb (succeeded result) then stop result (output_ st)
          else if (name_size =? 0)%nat then stop s_invalid_argument (output_ st)
          else
            '(result, h) ← sink_add (output_ st) (take name_size name) (take value_size value);
            if negb (succeeded result) then stop result h
            else
              d ← (if incremental then insert (decoder_ st) (take name_size name) (take value_size value) else Done (decoder_ st));
              Done (Next (mk_block offset true name value d h))
      end.

(** [decode_block]: the status, the decoder and the header list.  Every pass consumes an octet. *)
Definition decode_block (d : hpack_decoder) (input : ptr) (size : nat) (output : H) : exec (status * hpack_decoder * H) :=
  match input with
  | None => if negb (size =? 0)%nat then Done (s_invalid_argument, d, output) else Done (s_ok, d, output)
  | Some input =>
      let zeros := replicate (MaxStringSize + 1) 0 in
      after (while_loop (S size) (fun st => Done (offset st <? size)%nat) (block_body input size) (mk_block 0 false zeros zeros d output))
        (fun st => Done (s_ok, decoder_ st, output_ st))
  end.
End Decode.
End Hpack.

(** *** The encoder *)

Definition encode_string (value output : list Z) (capacity offset : nat) : exec (option nat * list Z) :=
  '(next, output) ← hpack_write_integer output capacity offset 7 0 (to_u32 (Z.of_nat (length value)));
  match next with
  | None => Done (None, output)
  | Some next =>
      if (capacity - next <? length value)%nat then Done (None, output)
      else
        '(output, next) ← for_to 0 (length value) (fun i '(output, next) => c ← load value i; output ← store output next (to_u8 c); Done (output, (next + 1)%nat)) (output, next);
        Done (Some next, output)
  end.

(** The status, the output and [used]. *)
Definition encode_with_name_index (name_index : nat) (name value : list Z) (output : ptr) (capacity : nat) : exec (status * ptr * nat) :=
  match output with
  | None => Done (s_invalid_argument, output, 0%nat)
  | Some out =>
      if (length name =? 0)%nat then Done (s_invalid_argument, output, 0%nat)
      else if (0xFFFFFFFF <? Z.of_nat (length name)) || (0xFFFFFFFF <? Z.of_nat (length value)) then Done (s_out_of_range, output, 0%nat)
      else
        '(offset, out) ← hpack_write_integer out capacity 0 4 0x00 (to_u32 (Z.of_nat name_index));
        '(offset, out) ← (match offset with
                          | Some o => if (name_index =? 0)%nat then encode_string name out capacity o else Done (offset, out)
                          | None => Done (offset, out)
                          end);
        '(offset, out) ← (match offset with Some o => encode_string value out capacity o | None => Done (offset, out) end);
        Done (match offset with None => (s_full, Some out, 0%nat) | Some o => (s_ok, Some out, o) end)
  end.

Definition encode_literal (name value : list Z) (output : ptr) (capacity : nat) : exec (status * ptr * nat) :=
  encode_with_name_index 0 name value output capacity.

Definition encode_field (name value : list Z) (output : ptr) (capacity : nat) : exec (status * ptr * nat) :=
  match output with
  | None => Done (s_invalid_argument, output, 0%nat)
  | Some out =>
      if (length name =? 0)%nat then Done (s_invalid_argument, output, 0%nat)
      else
        '(index, exact) ← hpack_find_static name value;
        if negb exact then encode_with_name_index index name value output capacity
        else
          '(offset, out) ← hpack_write_integer out capacity 0 7 0x80 (to_u32 (Z.of_nat index));
          Done (match offset with None => (s_full, Some out, 0%nat) | Some o => (s_ok, Some out, o) end)
  end.

(** ** The dynamic table as a list *)

Abbreviation header := (list Z * list Z)%type.
Definition entry_size (f : header) : nat := (32 + length f.1 + length f.2)%nat.
Definition table_size (T : list header) : nat := sum_list_with entry_size T.

(** The newest entries within a size and a count. *)
Fixpoint keep (limit n : nat) (T : list header) : list header :=
  match T, n with
  | f :: T, S n => if (entry_size f <=? limit)%nat then f :: keep (limit - entry_size f) n T else []
  | _, _ => []
  end.

Lemma keep_all limit n T : (table_size T <= limit)%nat -> (length T <= n)%nat -> keep limit n T = T.
Proof.
  revert limit n. induction T as [|f T IH]; intros limit n Hs Hn; [by destruct n|]. destruct n as [|n]; [cbn in Hn; lia|].
  cbn [table_size sum_list_with length] in *. fold (table_size T) in Hs. cbn [keep]. rewrite (proj2 (Nat.leb_le _ _)) by lia. f_equal. apply IH; lia.
Qed.

Lemma keep_drop_last limit n T f : (limit < table_size (T ++ [f]) \/ n < length (T ++ [f]))%nat -> keep limit n (T ++ [f]) = keep limit n T.
Proof.
  revert limit n. induction T as [|g T IH]; intros limit n H.
  { destruct n as [|n]; [done|]. cbn [app keep]. destruct (Nat.leb_spec (entry_size f) limit); [|done]. unfold table_size in H. cbn [app sum_list_with length] in H. lia. }
  destruct n as [|n]; [done|]. cbn [app keep]. destruct (Nat.leb_spec (entry_size g) limit); [|done]. f_equal. apply IH.
  cbn [app table_size sum_list_with length] in H. fold (table_size (T ++ [f])) in H. lia.
Qed.

Lemma keep_bounds limit n T : (table_size (keep limit n T) <= limit)%nat /\ (length (keep limit n T) <= n)%nat.
Proof.
  revert limit n. induction T as [|f T IH]; intros limit n; [cbn; destruct n; cbn; lia|]. destruct n as [|n]; [cbn; lia|]. cbn [keep].
  destruct (Nat.leb_spec (entry_size f) limit); [|cbn; lia]. cbn [table_size sum_list_with length]. fold (table_size (keep (limit - entry_size f) n T)).
  destruct (IH (limit - entry_size f)%nat n). lia.
Qed.

Lemma table_size_snoc T f : table_size (T ++ [f]) = (table_size T + entry_size f)%nat.
Proof. unfold table_size. rewrite sum_list_with_app. cbn. lia. Qed.

Section Table.
Context (MaxDynamicTableBytes MaxStringSize MaxDynamicEntries : nat).

(** RFC 7541, section 4.4: entries leave from the end until the new one fits; one larger
    than the limit empties the table. *)
Definition table_add (limit : nat) (f : header) (T : list header) : list header :=
  if (limit <? entry_size f)%nat then [] else f :: keep (limit - entry_size f) (MaxDynamicEntries - 1) T.
Definition table_resize (limit : nat) (T : list header) : list header := keep limit (length T) T.

Definition entry_sized (e : dynamic_entry) : Prop := length (e_name e) = (MaxStringSize + 1)%nat /\ length (e_value e) = (MaxStringSize + 1)%nat.
Definition entry_holds (e : dynamic_entry) (f : header) : Prop :=
  take (e_name_size e) (e_name e) = f.1 /\ take (e_value_size e) (e_value e) = f.2 /\ e_bytes e = entry_size f /\ Forall byte f.2.

(** The arrays of the decoder hold the table. *)
Definition holds_entries (d : hpack_decoder) (T : list header) : Prop :=
  length (entries_ d) = MaxDynamicEntries /\ Forall entry_sized (entries_ d) /\ entry_count_ d = length T /\ (length T <= MaxDynamicEntries)%nat
  /\ Forall2 entry_holds (take (length T) (entries_ d)) T /\ table_bytes_ d = table_size T.
Definition table_repr (d : hpack_decoder) (T : list header) (limit : nat) : Prop :=
  holds_entries d T /\ allowed_table_bytes_ d = limit /\ (table_size T <= limit)%nat /\ (limit <= MaxDynamicTableBytes)%nat.

Lemma decoder_new_repr : table_repr (decoder_new MaxDynamicTableBytes MaxStringSize MaxDynamicEntries) [] MaxDynamicTableBytes.
Proof.
  split; [|cbn; lia]. split_and!; [apply length_replicate| |done|apply Nat.le_0_l|constructor|done].
  apply Forall_replicate. split; apply length_replicate.
Qed.

Lemma entry_lookup d T i f : holds_entries d T -> T !! i = Some f -> exists e, entries_ d !! i = Some e /\ entry_sized e /\ entry_holds e f.
Proof.
  intros (_ & Hsz & _ & _ & Hall & _) Hf. destruct (Forall2_lookup_r _ _ _ _ _ Hall Hf) as (e & He & Hh). apply lookup_take_Some in He as [He _].
  exists e. split; [done|]. split; [by eapply (Forall_lookup_1 entry_sized)|done].
Qed.

Lemma drop_oldest_ok d T f : holds_entries d (T ++ [f]) ->
  exists d', drop_oldest d = Done d' /\ holds_entries d' T /\ allowed_table_bytes_ d' = allowed_table_bytes_ d.
Proof.
  intros Hh. destruct (entry_lookup d (T ++ [f]) (length T) f Hh) as (e & He & _ & _ & _ & Hb & _); [by apply list_lookup_middle|].
  destruct Hh as (Hl & Hsz & Hc & Hle & Hall & Hbytes). rewrite length_app in *. cbn [length] in *. unfold drop_oldest.
  rewrite Hc, Nat.add_sub, (load_Done _ _ _ He), bind_Done. eexists. split; [done|]. split; [|done].
  unfold holds_entries. cbn [entries_ entry_count_ table_bytes_]. rewrite Hbytes, table_size_snoc, Hb, Nat.add_sub. split_and!; [done|done|done|lia| |done].
  apply (Forall2_app_inv_r _ _ T [f]) in Hall as (l1 & l2 & H1 & _ & E). assert (Hl1 : length l1 = length T) by (by eapply Forall2_length).
  assert (E1 : take (length T) (entries_ d) = l1).
  { apply (f_equal (take (length T))) in E. rewrite take_take, Nat.min_l in E by lia. rewrite E. rewrite <-Hl1. apply take_app_length. }
  by rewrite E1.
Qed.

(** Dropping entries while the table is too large or too long. *)
Lemma evict_while_ok (condition : hpack_decoder -> bool) limit n d T :
  (forall d' T', holds_entries d' T' -> allowed_table_bytes_ d' = allowed_table_bytes_ d -> (length T' <= length T)%nat ->
     condition d' = negb (length T' =? 0)%nat && ((limit <? table_size T')%nat || (n <? length T')%nat)) ->
  holds_entries d T ->
  exists d', evict_while condition d = Done d' /\ holds_entries d' (keep limit n T) /\ allowed_table_bytes_ d' = allowed_table_bytes_ d.
Proof.
  intros Hcond Hh. assert (Hcount : entry_count_ d = length T) by apply Hh. unfold evict_while. rewrite Hcount. clear Hcount.
  assert (H : forall fuel d1 T1, (length T1 < fuel)%nat -> (length T1 <= length T)%nat -> holds_entries d1 T1 -> allowed_table_bytes_ d1 = allowed_table_bytes_ d ->
    exists d', while_loop (R := Empty_set) fuel (fun d => Done (condition d)) (fun d => d ← drop_oldest d; Done (Next d)) d1 = Done (Next d')
      /\ holds_entries d' (keep limit n T1) /\ allowed_table_bytes_ d' = allowed_table_bytes_ d).
  { induction fuel as [|fuel IH]; intros d1 T1 Hlt Hle H1 Ha; [lia|]. cbn [while_loop]. rewrite (Hcond d1 T1 H1 Ha Hle).
    destruct T1 as [|f T1 _] using rev_ind.
    { exists d1. split; [done|]. by rewrite keep_all by (cbn; lia). }
    destruct ((limit <? table_size (T1 ++ [f]))%nat || (n <? length (T1 ++ [f]))%nat) eqn:E.
    - assert (negb (length (T1 ++ [f]) =? 0)%nat = true) as -> by (rewrite length_app; cbn; by rewrite Nat.add_comm). cbn [andb].
      destruct (drop_oldest_ok d1 T1 f H1) as (d2 & -> & H2 & Ha2). rewrite bind_Done.
      rewrite keep_drop_last by (rewrite orb_true_iff, !Nat.ltb_lt in E; done). rewrite length_app in Hlt, Hle. cbn [length] in Hlt, Hle.
      apply IH; [lia|lia|done|congruence].
    - rewrite andb_false_r. exists d1. split; [done|]. rewrite orb_false_iff, !Nat.ltb_ge in E. by rewrite keep_all by lia. }
  destruct (H (S (length T)) d T) as (d' & -> & Hd'); [lia|lia|done|done|]. by exists d'.
Qed.

Lemma table_resize_ok d T limit new : table_repr d T limit -> (new <= MaxDynamicTableBytes)%nat ->
  exists d', evict_to_limit (mk_decoder (entries_ d) (entry_count_ d) (table_bytes_ d) new) = Done d' /\ table_repr d' (table_resize new T) new.
Proof.
  intros (Hh & _ & _ & _) Hnew. unfold evict_to_limit.
  destruct (evict_while_ok (fun d => negb (entry_count_ d =? 0)%nat && (allowed_table_bytes_ d <? table_bytes_ d)%nat) new (length T)
    (mk_decoder (entries_ d) (entry_count_ d) (table_bytes_ d) new) T) as (d' & Hr & Hd' & Ha); [|done|].
  { intros d' T' (_ & _ & Hc & _ & _ & Hb) Ha Hle. cbn [allowed_table_bytes_] in Ha. rewrite Hc, Hb, Ha.
    rewrite (proj2 (Nat.ltb_ge (length T) (length T'))) by lia. by rewrite orb_false_r. }
  exists d'. split; [done|]. split; [done|]. split; [done|]. split; [apply keep_bounds|done].
Qed.

Lemma entries_shift_ok {A} (es : list A) n : (n < length es)%nat ->
  for_to 0 n (fun k es => let i := (n - k)%nat in e ← load es (i - 1); store es i e) es = Done (take 1 es ++ take n es ++ drop (n + 1) es).
Proof.
  intros H. destruct (for_to_inv (fun k st => st = take (n - k + 1) es ++ take k (drop (n - k) es) ++ drop (n + 1) es)
    (fun k es => let i := (n - k)%nat in e ← load es (i - 1); store es i e) 0 n es) as (st & -> & ->).
  - rewrite Nat.sub_0_r, take_0, app_nil_l. by rewrite take_drop.
  - intros k st Hk ->. cbv zeta. destruct (lookup_lt_is_Some_2 es (n - k - 1)) as [e He]; [lia|].
    rewrite (load_Done _ _ e) by (rewrite lookup_app_l by (rewrite length_take; lia); by rewrite lookup_take_lt by lia). rewrite bind_Done.
    destruct (lookup_lt_is_Some_2 es (n - k)) as [g Hg]; [lia|].
    rewrite store_Done by (rewrite length_app, length_take; lia). eexists. split; [done|].
    rewrite insert_app_l by (rewrite length_take; lia). replace (n - k + 1)%nat with (S (n - k)) by lia. rewrite (take_S_r _ _ _ Hg).
    rewrite insert_app_r_alt by (rewrite length_take; lia). rewrite length_take, Nat.min_l, Nat.sub_diag by lia. cbn [list_insert insert].
    replace (n - S k)%nat with (n - k - 1)%nat by lia. replace (n - k - 1 + 1)%nat with (n - k)%nat by lia.
    rewrite (drop_S es e (n - k - 1)) by done. cbn [take firstn]. replace (S (n - k - 1)) with (n - k)%nat by lia. by rewrite <-app_assoc.
  - cbn [Nat.add]. by rewrite Nat.sub_diag, drop_0.
Qed.

Lemma table_insert_ok d T limit name value : table_repr d T limit -> (0 < MaxDynamicEntries)%nat ->
  (length name <= MaxStringSize)%nat -> (length value <= MaxStringSize)%nat -> Forall byte value ->
  exists d', insert MaxDynamicEntries d name value = Done d' /\ table_repr d' (table_add limit (name, value) T) limit.
Proof.
  intros (Hh & Ha & Hs & Hl) Hm Hn Hv Hb. unfold insert, table_add. rewrite Ha. change (entry_size (name, value)) with (32 + length name + length value)%nat.
  set (bytes := (32 + length name + length value)%nat). destruct (Nat.ltb_spec limit bytes) as [Hbig|Hfits].
  { eexists. split; [done|]. destruct Hh as (H1 & H2 & _). split; [|cbn; lia]. split_and!; [done|done|done|apply Nat.le_0_l|constructor|done]. }
  destruct (evict_while_ok (fun d => negb (entry_count_ d =? 0)%nat && ((allowed_table_bytes_ d - bytes <? table_bytes_ d)%nat || (entry_count_ d =? MaxDynamicEntries)%nat))
    (limit - bytes) (MaxDynamicEntries - 1) d T) as (d1 & -> & Hh1 & Ha1); [|done|].
  { intros d' T' (_ & _ & Hc & Hle & _ & Hby) Ha' _. rewrite Hc, Hby, Ha', Ha. do 2 f_equal.
    destruct (Nat.eqb_spec (length T') MaxDynamicEntries), (Nat.ltb_spec (MaxDynamicEntries - 1) (length T')); done || lia. }
  rewrite bind_Done. destruct (keep_bounds (limit - bytes) (MaxDynamicEntries - 1) T) as [Hk1 Hk2]. set (K := keep (limit - bytes) (MaxDynamicEntries - 1) T) in *.
  destruct Hh1 as (L1 & L2 & L3 & L4 & L5 & L6). rewrite L3, entries_shift_ok, bind_Done by lia.
  destruct (entries_ d1) as [|e es] eqn:Ees; [cbn in L1; lia|]. change (take 1 (e :: es)) with [e]. cbn [app]. change (load (e :: ?x) 0) with (Done e).
  assert (He : entry_sized e) by (by apply Forall_inv in L2). destruct He as [He1 He2].
  change (load (e :: take (length K) (e :: es) ++ drop (length K + 1) (e :: es)) 0) with (Done e). rewrite bind_Done.
  rewrite !copy_view_ok, !bind_Done by lia. rewrite store_Done, bind_Done by (cbn; lia).
  match goal with |- context [<[0%nat := ?x]> (e :: ?l)] => change (<[0%nat := x]> (e :: l)) with (x :: l) end. eexists. split; [done|].
  assert (Hlen : length (take (length K) (e :: es) ++ drop (length K + 1) (e :: es)) = length es).
  { rewrite length_app, length_take, length_drop. cbn [length] in *. lia. }
  unfold table_repr, holds_entries. cbn [entries_ entry_count_ table_bytes_ allowed_table_bytes_ length table_size sum_list_with].
  change (entry_size (name, value)) with bytes. fold (table_size K). rewrite Hlen, L6, Ha1. cbn [length] in L1. split_and!; try done; try lia.
  - apply Forall_cons in L2 as [_ L2]. constructor.
    + unfold entry_sized. cbn [e_name e_value]. rewrite !length_wrote by (rewrite length_app; cbn; lia). done.
    + apply Forall_app_2; [apply Forall_take|apply Forall_drop]; by constructor.
  - cbn [take firstn]. constructor.
    + unfold entry_holds. cbn [e_name e_value e_name_size e_value_size e_bytes fst snd]. rewrite !view_wrote by (done || lia). done.
    + rewrite take_app_le by (rewrite length_take; cbn [length]; lia). rewrite take_take, Nat.min_id. done.
Qed.
End Table.

(** ** The format of a block *)

(** A string of [n] octets at [at_]. *)
Inductive str_at (data : list Z) (at_ : nat) : list Z -> nat -> Prop :=
| S_raw b len k :
    data !! at_ = Some b -> b < 128 -> int_at data at_ 7 (Z.of_nat len) k -> (at_ + k + len <= length data)%nat ->
    str_at data at_ (take len (drop (at_ + k) data)) (k + len)
| S_huffman b len k text :
    data !! at_ = Some b -> 128 <= b -> int_at data at_ 7 (Z.of_nat len) k -> (at_ + k + len <= length data)%nat ->
    huffman_text (take len (drop (at_ + k) data)) text -> str_at data at_ text (k + len).

(** The representations: an indexed field, a literal one (with an indexed name or one of its
    own) that enters the table or not, and a new size of the table. *)
Inductive rep : Type :=
| R_indexed (index : Z)
| R_literal (incremental : bool) (name : Z + list Z) (value : list Z)
| R_resize (size : Z).

(** The name of a literal, given the index in front. *)
Inductive name_at (data : list Z) (at_ : nat) : Z -> Z + list Z -> nat -> Prop :=
| L_index i : i <> 0 -> name_at data at_ i (inl i) 0
| L_text text n : str_at data at_ text n -> name_at data at_ 0 (inr text) n.

Inductive rep_at (data : list Z) (at_ : nat) : rep -> nat -> Prop :=
| P_indexed b i n : data !! at_ = Some b -> 128 <= b -> int_at data at_ 7 i n -> rep_at data at_ (R_indexed i) n
| P_resize b s n : data !! at_ = Some b -> 32 <= b < 64 -> int_at data at_ 5 s n -> rep_at data at_ (R_resize s) n
| P_literal b (incremental : bool) i name value k n m :
    data !! at_ = Some b -> (if incremental then 64 <= b < 128 else b < 32) ->
    int_at data at_ (if incremental then 6 else 4) i k -> name_at data (at_ + k) i name n -> str_at data (at_ + k + n) value m ->
    rep_at data at_ (R_literal incremental name value) (k + n + m).

Lemma high_bit b : byte b -> negb (Z.land b 0x80 =? 0) = (128 <=? b).
Proof. intros Hb. rewrite (proj2 (octet_bits b Hb)). lia. Qed.

Lemma rep_bits b : byte b -> b < 128 -> (Z.land b 0xE0 =? 0x20) = ((32 <=? b) && (b <? 64)) /\ (Z.land b 0xC0 =? 0x40) = (64 <=? b).
Proof.
  intros Hb H. unfold byte in Hb. pose proof (all_below_spec 128 (fun b => eqb (Z.land b 0xE0 =? 0x20) ((32 <=? b) && (b <? 64)) && eqb (Z.land b 0xC0 =? 0x40) (64 <=? b)) b
    ltac:(vm_compute; reflexivity) ltac:(lia)) as E. cbv beta in E. rewrite andb_true_iff, !eqb_true_iff in E. exact E.
Qed.

Lemma huffman_text_fun octets t t' : huffman_text octets t -> huffman_text octets t' -> t = t'.
Proof.
  intros H H'. set (c := (length t + length t')%nat).
  destruct (hpack_decode_huffman_ok c (replicate c 0) ltac:(by rewrite length_replicate) octets 0 (length octets) ltac:(lia)) as (s & out & k & _ & _ & _ & _ & Hall).
  rewrite drop_0, take_ge in Hall by lia. destruct (Hall t H) as (_ & Hk & Ho); [lia|]. destruct (Hall t' H') as (_ & Hk' & Ho'); [lia|].
  rewrite <-(take_wrote (replicate c 0) t), <-(take_wrote (replicate c 0) t') by (rewrite length_replicate; lia). by rewrite <-Ho, <-Ho', <-Hk, <-Hk'.
Qed.

Lemma str_at_fun data at_ t n t' n' : str_at data at_ t n -> str_at data at_ t' n' -> t = t' /\ n = n'.
Proof.
  intros H H'. destruct H as [b len k Hb Hr Hi Hle|b len k t Hb Hr Hi Hle Ht], H' as [b' len' k' Hb' Hr' Hi' Hle'|b' len' k' t' Hb' Hr' Hi' Hle' Ht'];
    rewrite Hb in Hb'; injection Hb' as <-; try lia; destruct (int_at_fun _ _ _ _ _ _ _ Hi Hi') as [->%Nat2Z.inj ->]; [done|].
  split; [by eapply huffman_text_fun|done].
Qed.

Lemma name_at_fun data at_ i x n x' n' : name_at data at_ i x n -> name_at data at_ i x' n' -> x = x' /\ n = n'.
Proof.
  intros H H'. destruct H as [i Hi|t n Ht]; inversion H' as [i' Hi' E1|t' m Ht' E1]; subst; try done.
  by destruct (str_at_fun _ _ _ _ _ _ Ht Ht') as [-> ->].
Qed.

Lemma rep_at_fun data at_ r n r' n' : rep_at data at_ r n -> rep_at data at_ r' n' -> r = r' /\ n = n'.
Proof.
  intros H H'.
  destruct H as [b i n Hb Hr Hi|b s n Hb Hr Hi|b inc i nm v k n m Hb Hr Hi Hn Hv], H' as [b' i' n' Hb' Hr' Hi'|b' s' n' Hb' Hr' Hi'|b' inc' i' nm' v' k' n' m' Hb' Hr' Hi' Hn' Hv'];
    rewrite Hb in Hb'; injection Hb' as <-; try destruct inc; try destruct inc'; try lia;
    destruct (int_at_fun _ _ _ _ _ _ _ Hi Hi') as [-> ->]; try done;
    destruct (name_at_fun _ _ _ _ _ _ _ Hn Hn') as [-> ->]; by destruct (str_at_fun _ _ _ _ _ _ Hv Hv') as [-> ->].
Qed.

(** ** Strings *)

Section Strings.
Context (MaxStringSize : nat) (data : list Z) (Hdata : Forall byte data).

Lemma copy_slice at_ n out : (at_ + n <= length data)%nat -> (n <= length out)%nat ->
  for_to 0 n (fun i output => c ← load data (at_ + i); store output i c) out = Done (wrote out 0 (take n (drop at_ data))).
Proof.
  intros Hl Ho. destruct (for_to_inv (fun i o => o = wrote out 0 (take i (drop at_ data))) (fun i output => c ← load data (at_ + i); store output i c) 0 n out)
    as (o & -> & ->).
  - reflexivity.
  - intros i o Hi ->. destruct (lookup_lt_is_Some_2 data (at_ + i)) as [c Hc]; [lia|]. rewrite (load_Done _ _ _ Hc), bind_Done. rewrite <-lookup_drop in Hc.
    rewrite store_wrote by (rewrite ?length_take, ?length_drop; lia). eexists. split; [done|]. by rewrite (take_S_r _ _ _ Hc).
  - done.
Qed.

Lemma str_at_bytes at_ text n : str_at data at_ text n -> Forall byte text /\ (0 < n)%nat /\ (at_ + n <= length data)%nat.
Proof using Hdata.
  intros [b len k _ _ [_ Hk]%int_at_bounds Hle|b len k t _ _ [_ Hk]%int_at_bounds Hle [Hb _]]; try lia; split; try done; try lia.
  by apply Forall_take, Forall_drop.
Qed.

Lemma read_string_ok at_ output k0 : length output = (MaxStringSize + 1)%nat ->
  exists s at' out k, read_string MaxStringSize data (length data) at_ output k0 = Done (s, at', out, k) /\ length out = (MaxStringSize + 1)%nat /\
    ((s = s_ok /\ exists text n, str_at data at_ text n /\ (length text <= MaxStringSize)%nat /\ at' = (at_ + n)%nat /\ k = length text /\ take k out = text)
     \/ (s <> s_ok /\ forall text n, str_at data at_ text n -> (MaxStringSize < length text)%nat)).
Proof using Hdata.
  intros Ho. unfold read_string. destruct (Nat.leb_spec (length data) at_) as [Hge|Hlt].
  { eexists _, _, _, _. split; [done|]. split; [done|]. right. split; [done|]. intros t n Hs. apply str_at_bytes in Hs. lia. }
  destruct (lookup_lt_is_Some_2 data at_ Hlt) as [b Hb]. rewrite (load_Done _ _ _ Hb), bind_Done. cbv zeta.
  rewrite high_bit by (by eapply (Forall_lookup_1 byte)).
  destruct (hpack_read_integer_ok data at_ 7 0 Hdata ltac:(lia)) as (s & at' & v & -> & Hres). rewrite bind_Done. cbv beta iota.
  assert (Hstr : forall text n, str_at data at_ text n -> exists len k, int_at data at_ 7 (Z.of_nat len) k /\ n = (k + len)%nat /\ (at_ + k + len <= length data)%nat
      /\ if 128 <=? b then huffman_text (take len (drop (at_ + k) data)) text else text = take len (drop (at_ + k) data)).
  { intros text n [b' len k Hb' Hr Hi Hle|b' len k t Hb' Hr Hi Hle Ht]; rewrite Hb in Hb'; injection Hb' as <-; exists len, k.
    - by rewrite (proj2 (Z.leb_gt _ _) Hr).
    - by rewrite (proj2 (Z.leb_le _ _) Hr). }
  destruct Hres as [(-> & n & Hi & ->)|(Hs & Hno)].
  2:{ assert (succeeded s = false) as -> by (by destruct s). cbn [negb orb]. eexists _, _, _, _. split; [done|]. split; [done|]. right. split; [done|].
      intros text n (len & k & Hi & _)%Hstr. by apply Hno in Hi. }
  change (succeeded s_ok) with true. cbn [negb orb]. destruct (int_at_bounds data at_ 7 v n ltac:(lia) Hi) as [[Hv0 _] Hn0].
  destruct (Z.ltb_spec (Z.of_nat (length data - (at_ + n))) v) as [Hbig|Hfits].
  { eexists _, _, _, _. split; [done|]. split; [done|]. right. split; [done|]. intros text m (len & k & Hi' & -> & Hle & _)%Hstr.
    destruct (int_at_fun _ _ _ _ _ _ _ Hi Hi') as [-> ->]. lia. }
  pose proof (int_at_within _ _ _ _ _ Hi) as Hoff.
  set (len := Z.to_nat v). assert (Hv : v = Z.of_nat len) by lia. rewrite Hv in Hi.
  assert (Hstr' : forall text m, str_at data at_ text m -> m = (n + len)%nat /\ if 128 <=? b then huffman_text (take len (drop (at_ + n) data)) text else text = take len (drop (at_ + n) data)).
  { intros text m (len' & k & Hi' & -> & _ & Ht)%Hstr. by destruct (int_at_fun _ _ _ _ _ _ _ Hi Hi') as [<-%Nat2Z.inj <-]. }
  destruct (Z.leb_spec 128 b) as [Hhigh|Hlow].
  - destruct (hpack_decode_huffman_ok MaxStringSize output ltac:(lia) data (at_ + n) len ltac:(lia)) as (s & out & k & -> & Hlo & Hk & Hok & Hall). rewrite bind_Done.
    cbv beta iota. rewrite store_Done, bind_Done by lia. eexists _, _, _, _. split; [done|]. split; [by rewrite length_insert, Hlo|].
    destruct (decide (s = s_ok)) as [->|Hs]; [left|right]; (split; [done|]).
    + destruct (Hok eq_refl) as (text & Ht & -> & ->). exists text, (n + len)%nat. split; [by eapply S_huffman; [done| |done|lia|]|].
      split; [done|]. split; [lia|]. split; [done|]. rewrite take_insert_ge by lia. apply take_wrote. lia.
    + intros text m [-> Ht]%Hstr'. destruct (Nat.le_gt_cases (length text) MaxStringSize) as [Hle|]; [|done]. by destruct (Hall text Ht Hle).
  - assert (Htl : length (take len (drop (at_ + n) data)) = len) by (rewrite length_take, length_drop; lia).
    destruct (Nat.ltb_spec MaxStringSize len) as [Hbig|Hsmall].
    { eexists _, _, _, _. split; [done|]. split; [done|]. right. split; [done|]. intros text m [-> ->]%Hstr'. lia. }
    rewrite copy_slice, bind_Done by lia. rewrite store_Done, bind_Done by (rewrite length_wrote; lia). eexists _, _, _, _. split; [done|].
    split; [rewrite length_insert, length_wrote; lia|]. left. split; [done|]. exists (take len (drop (at_ + n) data)), (n + len)%nat. rewrite Htl.
    split; [eapply S_raw; [done|done|done|lia]|]. split_and!; [done|lia|done|]. rewrite take_insert_ge by lia. rewrite <-Htl at 1. apply take_wrote. lia.
Qed.
End Strings.

(** ** Blocks *)

(** Index 1 is the first field of the static table, 62 the newest one of the dynamic table. *)
Definition nth_field (T : list header) (index : Z) : option header :=
  if index <=? 0 then None else if index <=? 61 then hpack_static_table !! Z.to_nat (index - 1) else T !! Z.to_nat (index - 62).

Lemma static_bytes : forallb (fun f => forallb (fun c => (0 <=? c) && (c <? 256)) f.2 && negb (length f.1 =? 0)%nat) hpack_static_table = true /\ length hpack_static_table = 61%nat.
Proof. split; vm_compute; reflexivity. Qed.

Lemma static_lookup index : 0 < index <= 61 -> exists f, hpack_static_table !! Z.to_nat (index - 1) = Some f /\ Forall byte f.2.
Proof.
  intros H. destruct static_bytes as [E L]. destruct (lookup_lt_is_Some_2 hpack_static_table (Z.to_nat (index - 1))) as [f Hf]; [rewrite L; lia|].
  exists f. split; [done|]. rewrite forallb_forall in E. apply list_elem_of_lookup_2, list_elem_of_In, E, andb_true_iff, proj1 in Hf.
  rewrite forallb_forall in Hf. apply Forall_forall. intros c Hc%list_elem_of_In%Hf. unfold byte. lia.
Qed.

Section Blocks.
Context (MaxDynamicTableBytes MaxStringSize MaxDynamicEntries : nat) (Hentries : (0 < MaxDynamicEntries)%nat).

(** The state of a block: the table, its limit and whether a field has been seen. *)
Record block_spec : Type := mk_spec { b_table : list header; b_limit : nat; b_seen : bool }.

(** The fields a representation adds, and the state behind it, if it is allowed there. *)
Definition perform (st : block_spec) (r : rep) : option (list header * block_spec) :=
  match r with
  | R_indexed i => f ← nth_field (b_table st) i; Some ([f], mk_spec (b_table st) (b_limit st) true)
  | R_resize n =>
      if b_seen st || (Z.of_nat MaxDynamicTableBytes <? n) then None
      else Some ([], mk_spec (table_resize (Z.to_nat n) (b_table st)) (Z.to_nat n) false)
  | R_literal incremental name value =>
      name ← (match name with inl i => fst <$> nth_field (b_table st) i | inr t => Some t end);
      if (length name =? 0)%nat || (MaxStringSize <? length name)%nat || (MaxStringSize <? length value)%nat then None
      else
        Some ([(name, value)],
              mk_spec (if incremental then table_add MaxDynamicEntries (b_limit st) (name, value) (b_table st) else b_table st) (b_limit st) true)
  end.

(** The fields of the block from [at_] on. *)
Inductive block_at (data : list Z) : nat -> block_spec -> list header -> block_spec -> Prop :=
| B_end st : block_at data (length data) st [] st
| B_rep at_ st r n fs st1 gs st2 :
    rep_at data at_ r n -> perform st r = Some (fs, st1) -> block_at data (at_ + n) st1 gs st2 -> block_at data at_ st (fs ++ gs) st2.

Context {H : Type} `{!HeaderSink H}.

(** Handing fields to the header list until one is refused. *)
Fixpoint add_all (h : H) (fields : list header) : exec (status * H) :=
  match fields with
  | [] => Done (s_ok, h)
  | (n, v) :: fields => '(s, h) ← sink_add h n v; if succeeded s then add_all h fields else Done (s, h)
  end.

Lemma add_all_app h fs gs : add_all h (fs ++ gs) = ('(s, h) ← add_all h fs; if succeeded s then add_all h gs else Done (s, h)).
Proof.
  revert h. induction fs as [|[n v] fs IH]; intros h; [done|]. cbn [app add_all]. destruct (sink_add h n v) as [[s h1]|]; [|done].
  rewrite !bind_Done. destruct (succeeded s) eqn:E; [apply IH|]. by rewrite bind_Done, E.
Qed.

Definition spec_repr (d : hpack_decoder) (st : block_spec) : Prop := table_repr MaxDynamicTableBytes MaxStringSize MaxDynamicEntries d (b_table st) (b_limit st).

Lemma lookup_field_ok d T limit index : table_repr MaxDynamicTableBytes MaxStringSize MaxDynamicEntries d T limit -> 0 < index < 2 ^ 64 ->
  lookup_field d index = Done (nth_field T index) /\ (forall f, nth_field T index = Some f -> Forall byte f.2).
Proof.
  intros (Hh & _) Hi. unfold lookup_field, nth_field. rewrite (proj2 (Z.leb_gt index 0)) by lia. destruct (Z.leb_spec index 61) as [Hs|Hd].
  - rewrite wrap_small by (unfold in_width; lia). destruct (static_lookup index) as (f & Hf & Hb); [lia|]. rewrite (load_Done _ _ _ Hf), bind_Done, Hf. split; [done|]. by intros ? [= <-].
  - assert (Hcount : entry_count_ d = length T) by apply Hh. rewrite Hcount. destruct (Z.leb_spec (Z.of_nat (length T)) (index - 62)) as [Hge|Hlt].
    { rewrite lookup_ge_None_2 by lia. done. }
    destruct (lookup_lt_is_Some_2 T (Z.to_nat (index - 62))) as [f Hf]; [lia|].
    destruct (entry_lookup MaxStringSize MaxDynamicEntries d T _ f Hh Hf) as (e & He & _ & Hn & Hv & _ & Hb). rewrite (load_Done _ _ _ He), bind_Done, Hn, Hv, Hf.
    split; [by destruct f|]. by intros ? [= <-].
Qed.

Context (data : list Z) (Hdata : Forall byte data).

Definition block_inv (st : block_state) (sp : block_spec) : Prop :=
  spec_repr (decoder_ st) sp /\ saw_field st = b_seen sp /\ length (name_ st) = (MaxStringSize + 1)%nat /\ length (value_ st) = (MaxStringSize + 1)%nat
  /\ sink_inv (output_ st).

(** What a pass reports: it performed the representation at its offset, or there is none
    that is allowed there, or the header list refused its field. *)
Definition pass_result (st : block_state) (sp : block_spec) (x : ctl (status * hpack_decoder * H) block_state) : Prop :=
  match x with
  | Next st' => exists r n fs sp', rep_at data (offset st) r n /\ perform sp r = Some (fs, sp') /\ add_all (output_ st) fs = Done (s_ok, output_ st')
      /\ offset st' = (offset st + n)%nat /\ (0 < n)%nat /\ block_inv st' sp'
  | Return (s, d, h) => s <> s_ok /\ d = decoder_ st /\ sink_inv h /\
      forall r n fs sp', rep_at data (offset st) r n -> perform sp r = Some (fs, sp') -> add_all (output_ st) fs = Done (s, h)
  end.

(** Handing over a single field. *)
Lemma add_one h f : sink_inv h -> Forall byte f.2 ->
  exists s h', sink_add h f.1 f.2 = Done (s, h') /\ sink_inv h' /\ add_all h [f] = Done (s, h').
Proof.
  intros Hh Hb. destruct (sink_add_ok h f.1 f.2 Hh Hb) as (s & h' & E & Hh'). exists s, h'. split; [done|]. split; [done|].
  destruct f as [n v]. cbn [add_all fst snd] in *. rewrite E, bind_Done. destruct (decide (s = s_ok)) as [->|Hs]; [done|].
  assert (succeeded s = false) as -> by (by destruct s). done.
Qed.

Lemma failed s : s <> s_ok -> succeeded s = false.
Proof. by destruct s. Qed.

Lemma read_int_cases at_ prefix : 0 < prefix <= 8 ->
  exists s at' v, hpack_read_integer (Some data) (length data) at_ prefix 0 = Done (s, at', v) /\
    ((s = s_ok /\ 0 <= v < 2 ^ 64 /\ exists n, int_at data at_ prefix v n /\ at' = (at_ + n)%nat /\ (0 < n)%nat)
     \/ (s <> s_ok /\ forall v n, ~ int_at data at_ prefix v n)).
Proof using Hdata Hentries.
  intros Hp. destruct (hpack_read_integer_ok data at_ prefix 0 Hdata Hp) as (s & at' & v & E & Hres). exists s, at', v. split; [done|].
  destruct Hres as [(-> & n & Hi & ->)|Hno]; [left|by right]. destruct (int_at_bounds _ _ _ _ _ Hp Hi) as [Hv Hn]. split; [done|]. split; [done|]. by exists n.
Qed.

Lemma indexed_ok st sp b : block_inv st sp -> data !! offset st = Some b -> 128 <= b ->
  exists x, block_body MaxDynamicTableBytes MaxStringSize MaxDynamicEntries data (length data) st = Done x /\ pass_result st sp x.
Proof using Hdata Hentries.
  intros (Hrep & Hseen & Hn & Hv & Hh) Hb Hr. unfold block_body. rewrite (load_Done _ _ _ Hb), bind_Done. cbv zeta.
  rewrite high_bit, (proj2 (Z.leb_le _ _) Hr) by (by eapply (Forall_lookup_1 byte)).
  assert (Hinv : forall r n, rep_at data (offset st) r n -> exists i, r = R_indexed i /\ int_at data (offset st) 7 i n).
  { intros r n Hrep'. destruct Hrep' as [b' i n Hb' _ Hi|b' s n Hb' Hr' _|b' inc i nm v k n m Hb' Hr' _ _ _]; rewrite Hb in Hb'; injection Hb' as <-; [by exists i|lia|destruct inc; lia]. }
  destruct (read_int_cases (offset st) 7 ltac:(lia)) as (s & at' & i & -> & Hres). rewrite bind_Done. cbv beta iota.
  destruct Hres as [(-> & Hi64 & n & Hi & -> & Hn0)|(Hs & Hno)].
  2:{ rewrite (failed s Hs). cbn [negb orb]. eexists. split; [done|]. split; [done|]. split; [done|]. split; [done|]. intros r n fs sp' (i' & -> & Hi)%Hinv. by apply Hno in Hi. }
  change (succeeded s_ok) with true. cbn [negb orb].
  assert (Hperf : forall r m fs sp', rep_at data (offset st) r m -> perform sp r = Some (fs, sp') -> exists f, nth_field (b_table sp) i = Some f /\ fs = [f]).
  { intros r m fs sp' (i' & -> & Hi')%Hinv Hp. destruct (int_at_fun _ _ _ _ _ _ _ Hi Hi') as [<- _]. cbn in Hp.
    destruct (nth_field (b_table sp) i) as [f|]; [|done]. injection Hp as <- _. by exists f. }
  destruct (Z.eqb_spec i 0) as [->|Hi0].
  { eexists. split; [done|]. split; [done|]. split; [done|]. split; [done|]. by intros r m fs sp' H1 (f & ? & _)%(Hperf _ _ _ _ H1). }
  destruct (lookup_field_ok (decoder_ st) (b_table sp) (b_limit sp) i Hrep ltac:(lia)) as [-> Hbytes]. rewrite bind_Done.
  destruct (nth_field (b_table sp) i) as [[nm v]|] eqn:Ef.
  2:{ eexists. split; [done|]. split; [done|]. split; [done|]. split; [done|]. by intros r m fs sp' H1 (f & ? & _)%(Hperf _ _ _ _ H1). }
  destruct (add_one (output_ st) (nm, v) Hh (Hbytes _ eq_refl)) as (s & h & Eadd & Hh' & Hall). cbn [fst snd] in Eadd. rewrite Eadd, bind_Done. cbv beta iota.
  destruct (decide (s = s_ok)) as [->|Hs].
  - change (succeeded s_ok) with true. eexists. split; [done|]. exists (R_indexed i), n, [(nm, v)], (mk_spec (b_table sp) (b_limit sp) true).
    split; [by eapply P_indexed|]. split; [cbn; by rewrite Ef|]. split; [done|]. split; [done|]. split; [done|]. split_and!; done.
  - rewrite (failed s Hs). eexists. split; [done|]. split; [done|]. split; [done|]. split; [done|].
    intros r m fs sp' H1 H2. by destruct (Hperf r m fs sp' H1 H2) as (f & [= <-] & ->).
Qed.

Lemma resized_ok st sp b : block_inv st sp -> data !! offset st = Some b -> 32 <= b < 64 ->
  exists x, block_body MaxDynamicTableBytes MaxStringSize MaxDynamicEntries data (length data) st = Done x /\ pass_result st sp x.
Proof using Hdata Hentries.
  intros (Hrep & Hseen & Hn & Hv & Hh) Hb Hr. unfold block_body. rewrite (load_Done _ _ _ Hb), bind_Done. cbv zeta.
  assert (Hbyte : byte b) by (by eapply (Forall_lookup_1 byte)). destruct (rep_bits b Hbyte ltac:(lia)) as [-> _].
  rewrite (high_bit b Hbyte), (proj2 (Z.leb_gt 128 b)) by lia. assert ((32 <=? b) && (b <? 64) = true) as -> by lia.
  assert (Hinv : forall r n, rep_at data (offset st) r n -> exists i, r = R_resize i /\ int_at data (offset st) 5 i n).
  { intros r n Hrep'. destruct Hrep' as [b' i n Hb' Hr' _|b' s n Hb' _ Hi|b' inc i nm v k n m Hb' Hr' _ _ _]; rewrite Hb in Hb'; injection Hb' as <-; [lia|by exists s|destruct inc; lia]. }
  rewrite Hseen. destruct (b_seen sp) eqn:Eseen.
  { eexists. split; [done|]. split; [done|]. split; [done|]. split; [done|]. intros r n fs sp' (i & -> & _)%Hinv. cbn. by rewrite Eseen. }
  destruct (read_int_cases (offset st) 5 ltac:(lia)) as (s & at' & i & -> & Hres). rewrite bind_Done. cbv beta iota.
  destruct Hres as [(-> & Hi64 & n & Hi & -> & Hn0)|(Hs & Hno)].
  2:{ rewrite (failed s Hs). cbn [negb orb]. eexists. split; [done|]. split; [done|]. split; [done|]. split; [done|]. intros r n fs sp' (i' & -> & Hi)%Hinv. by apply Hno in Hi. }
  change (succeeded s_ok) with true. cbn [negb orb]. destruct (Z.ltb_spec (Z.of_nat MaxDynamicTableBytes) i) as [Hbig|Hfits].
  { eexists. split; [done|]. split; [done|]. split; [done|]. split; [done|]. intros r m fs sp' (i' & -> & Hi')%Hinv. destruct (int_at_fun _ _ _ _ _ _ _ Hi Hi') as [<- _].
    cbn. by rewrite Eseen, (proj2 (Z.ltb_lt _ _) Hbig). }
  destruct (table_resize_ok MaxDynamicTableBytes MaxStringSize MaxDynamicEntries (decoder_ st) (b_table sp) (b_limit sp) (Z.to_nat i) Hrep ltac:(lia)) as (d & -> & Hd).
  rewrite bind_Done. eexists. split; [done|]. exists (R_resize i), n, [], (mk_spec (table_resize (Z.to_nat i) (b_table sp)) (Z.to_nat i) false).
  split; [by eapply P_resize|]. split; [cbn; by rewrite Eseen, (proj2 (Z.ltb_ge _ _) Hfits)|]. split; [done|]. split; [done|]. split; [done|].
  split_and!; cbn; done || congruence.
Qed.

(** The text of a name. *)
Definition resolve (T : list header) (name : Z + list Z) : option (list Z) :=
  match name with inl i => fst <$> nth_field T i | inr t => Some t end.

Lemma read_name_ok at_ d T limit i buffer : table_repr MaxDynamicTableBytes MaxStringSize MaxDynamicEntries d T limit -> 0 <= i < 2 ^ 64 ->
  length buffer = (MaxStringSize + 1)%nat ->
  exists r, read_name MaxStringSize data (length data) at_ d i buffer = Done r /\
    match r with
    | inr (at', buffer', k) => length buffer' = (MaxStringSize + 1)%nat /\
        exists name n text, name_at data at_ i name n /\ resolve T name = Some text /\ (length text <= MaxStringSize)%nat /\ at' = (at_ + n)%nat
          /\ k = length text /\ take k buffer' = text
    | inl s => s <> s_ok /\ forall name n text, name_at data at_ i name n -> resolve T name = Some text -> (MaxStringSize < length text)%nat
    end.
Proof using Hdata Hentries.
  intros Hrep Hi Hbuf. unfold read_name. destruct (Z.eqb_spec i 0) as [->|Hi0]; cbn [negb].
  - destruct (read_string_ok MaxStringSize data Hdata at_ buffer 0 Hbuf) as (s & at' & out & k & -> & Hlo & Hres). rewrite bind_Done. cbv beta iota.
    destruct Hres as [(-> & text & n & Hs & Hle & -> & -> & Ht)|(Hs & Hno)].
    + change (succeeded s_ok) with true. eexists. split; [done|]. cbv beta iota. split; [done|]. exists (inr text), n, text. split_and!; done || by constructor.
    + rewrite (failed s Hs). eexists. split; [done|]. cbv beta iota. split; [done|]. intros name n text Hn Ht. inversion Hn; subst; [done|]. injection Ht as ->. by eapply Hno.
  - destruct (lookup_field_ok d T limit i Hrep ltac:(lia)) as [-> _]. rewrite bind_Done.
    assert (Hinv : forall name n text, name_at data at_ i name n -> resolve T name = Some text -> exists f, nth_field T i = Some f /\ text = f.1).
    { intros name n text Hn Ht. inversion Hn; subst; [|done]. cbn in Ht. apply fmap_Some in Ht as (f & Hf & ->). by exists f. }
    destruct (nth_field T i) as [[nm v]|] eqn:Ef.
    2:{ eexists. split; [done|]. cbv beta iota. split; [done|]. by intros name n text Hn (f & ? & _)%(Hinv _ _ _ Hn). }
    destruct (Nat.ltb_spec MaxStringSize (length nm)) as [Hbig|Hfits].
    { eexists. split; [done|]. cbv beta iota. split; [done|]. by intros name n text Hn (f & [= <-] & ->)%(Hinv _ _ _ Hn). }
    rewrite copy_view_ok, bind_Done by lia. eexists. split; [done|]. cbv beta iota. split; [rewrite length_wrote; [done|rewrite length_app; cbn; lia]|].
    exists (inl i), 0%nat, nm. split; [by constructor|]. split; [cbn; by rewrite Ef|]. split; [done|]. split; [lia|]. split; [done|]. apply view_wrote; [done|lia].
Qed.

(** What a representation behind a literal's first octet amounts to. *)
Lemma literal_reps at_ sp b (inc : bool) i k r n fs sp' :
  data !! at_ = Some b -> (if inc then 64 <= b < 128 else b < 32) -> int_at data at_ (if inc then 6 else 4) i k ->
  rep_at data at_ r n -> perform sp r = Some (fs, sp') ->
  exists name text value m l, name_at data (at_ + k) i name m /\ str_at data (at_ + k + m) value l /\ resolve (b_table sp) name = Some text
    /\ (0 < length text <= MaxStringSize)%nat /\ (length value <= MaxStringSize)%nat /\ fs = [(text, value)].
Proof.
  intros Hb Hinc Hi Hr Hp. destruct Hr as [b' i' n Hb' Hr' _|b' s n Hb' Hr' _|b' inc' i' nm v k' n m Hb' Hr' Hi' Hnm Hs]; rewrite Hb in Hb'; injection Hb' as <-.
  1,2: destruct inc; lia.
  assert (inc' = inc) as -> by (destruct inc', inc; done || lia). destruct (int_at_fun _ _ _ _ _ _ _ Hi Hi') as [<- <-].
  cbn [perform] in Hp. fold (resolve (b_table sp) nm) in Hp. destruct (resolve (b_table sp) nm) as [text|] eqn:Et; [|done]. cbn [mbind option_bind] in Hp.
  destruct ((length text =? 0)%nat || (MaxStringSize <? length text)%nat || (MaxStringSize <? length v)%nat) eqn:E; [done|].
  rewrite !orb_false_iff, Nat.eqb_neq, !Nat.ltb_ge in E. injection Hp as <- _. exists nm, text, v, n, m. split_and!; done || lia.
Qed.

Lemma no_literal at_ sp b (inc : bool) r n fs sp' : data !! at_ = Some b -> (if inc then 64 <= b < 128 else b < 32) ->
  (forall i k, ~ int_at data at_ (if inc then 6 else 4) i k) -> rep_at data at_ r n -> perform sp r = Some (fs, sp') -> False.
Proof.
  intros Hb Hinc Hno Hr _. destruct Hr as [b' i' n Hb' Hr' _|b' s n Hb' Hr' _|b' inc' i' nm v k' n m Hb' Hr' Hi' Hnm Hs]; rewrite Hb in Hb'; injection Hb' as <-.
  1,2: destruct inc; lia.
  assert (inc' = inc) as -> by (destruct inc', inc; done || lia). by apply Hno in Hi'.
Qed.

Lemma literal_table st sp (inc : bool) text value : block_inv st sp -> (length text <= MaxStringSize)%nat -> (length value <= MaxStringSize)%nat -> Forall byte value ->
  exists d, (if inc then insert MaxDynamicEntries (decoder_ st) text value else Done (decoder_ st)) = Done d /\
    table_repr MaxDynamicTableBytes MaxStringSize MaxDynamicEntries d (if inc then table_add MaxDynamicEntries (b_limit sp) (text, value) (b_table sp) else b_table sp) (b_limit sp).
Proof using Hentries. intros (Hrep & _) Ht Hv Hb. destruct inc; [|by exists (decoder_ st)]. by apply table_insert_ok. Qed.

Lemma literal_ok st sp b : block_inv st sp -> data !! offset st = Some b -> (b < 32 \/ 64 <= b < 128) ->
  exists x, block_body MaxDynamicTableBytes MaxStringSize MaxDynamicEntries data (length data) st = Done x /\ pass_result st sp x.
Proof using Hdata Hentries.
  intros Hst Hb Hr. pose proof Hst as (Hrep & Hseen & Hn & Hv & Hh). unfold block_body. rewrite (load_Done _ _ _ Hb), bind_Done. cbv zeta.
  assert (Hbyte : byte b) by (by eapply (Forall_lookup_1 byte)). destruct (rep_bits b Hbyte ltac:(lia)) as [-> ->].
  rewrite (high_bit b Hbyte), (proj2 (Z.leb_gt 128 b)) by lia. assert ((32 <=? b) && (b <? 64) = false) as -> by lia.
  set (inc := 64 <=? b). assert (Hinc : if inc : bool then 64 <= b < 128 else b < 32) by (subst inc; destruct (Z.leb_spec 64 b); lia).
  clearbody inc. destruct (read_int_cases (offset st) (if inc then 6 else 4) ltac:(destruct inc; lia)) as (s & at' & i & -> & Hres). rewrite bind_Done. cbv beta iota.
  destruct Hres as [(-> & Hi64 & k & Hi & -> & Hk0)|(Hs & Hno)].
  2:{ rewrite (failed s Hs). cbn [negb]. eexists. split; [done|]. split; [done|]. split; [done|]. split; [done|]. intros r n fs sp' H1 H2. by destruct (no_literal _ _ _ _ _ _ _ _ Hb Hinc Hno H1 H2). }
  change (succeeded s_ok) with true. cbn [negb].
  pose proof (fun r n fs sp' => literal_reps (offset st) sp b inc i k r n fs sp' Hb Hinc Hi) as Hperf.
  destruct (read_name_ok (offset st + k) (decoder_ st) (b_table sp) (b_limit sp) i (name_ st) Hrep Hi64 Hn) as (r & -> & Hr'). rewrite bind_Done.
  destruct r as [s|[[at' nbuf] ksz]].
  { destruct Hr' as [Hs Hno]. eexists. split; [done|]. split; [done|]. split; [done|]. split; [done|].
    intros r n fs sp' H1 H2. destruct (Hperf r n fs sp' H1 H2) as (name & text & value & m & l & Hnm & _ & Ht & Hlen & _). specialize (Hno _ _ _ Hnm Ht). lia. }
  destruct Hr' as (Hnb & name & m & text & Hnm & Htext & Hle & -> & -> & Htake).
  destruct (read_string_ok MaxStringSize data Hdata (offset st + k + m) (value_ st) 0 Hv) as (s & at' & vbuf & vsz & -> & Hvb & Hres). rewrite bind_Done. cbv beta iota.
  destruct Hres as [(-> & value & l & Hs & Hvle & -> & -> & Hvt)|(Hs & Hno)].
  2:{ rewrite (failed s Hs). cbn [negb]. eexists. split; [done|]. split; [done|]. split; [done|]. split; [done|].
      intros r n fs sp' H1 H2. destruct (Hperf r n fs sp' H1 H2) as (name' & text' & value' & m' & l' & Hnm' & Hs' & _ & _ & Hlen & _).
      destruct (name_at_fun _ _ _ _ _ _ _ Hnm Hnm') as [_ <-]. specialize (Hno _ _ Hs'). lia. }
  change (succeeded s_ok) with true. cbn [negb]. rewrite Htake, Hvt.
  assert (Hperf' : forall r n fs sp', rep_at data (offset st) r n -> perform sp r = Some (fs, sp') -> (0 < length text)%nat /\ fs = [(text, value)]).
  { intros r n fs sp' H1 H2. destruct (Hperf r n fs sp' H1 H2) as (name' & text' & value' & m' & l' & Hnm' & Hs' & Ht' & Hlen & _ & ->).
    destruct (name_at_fun _ _ _ _ _ _ _ Hnm Hnm') as [<- <-]. destruct (str_at_fun _ _ _ _ _ _ Hs Hs') as [<- _]. rewrite Htext in Ht'. injection Ht' as <-. split; [lia|done]. }
  destruct (Nat.eqb_spec (length text) 0) as [Hz|Hnz].
  { eexists. split; [done|]. split; [done|]. split; [done|]. split; [done|]. intros r n fs sp' H1 H2. destruct (Hperf' r n fs sp' H1 H2). lia. }
  destruct (str_at_bytes data Hdata _ _ _ Hs) as (Hvbytes & _ & _).
  destruct (add_one (output_ st) (text, value) Hh Hvbytes) as (s & h & Eadd & Hh' & Hall). cbn [fst snd] in Eadd. rewrite Eadd, bind_Done. cbv beta iota.
  destruct (decide (s = s_ok)) as [->|Hsok].
  2:{ rewrite (failed s Hsok). cbn [negb]. eexists. split; [done|]. split; [done|]. split; [done|]. split; [done|].
      intros r n fs sp' H1 H2. by destruct (Hperf' r n fs sp' H1 H2) as [_ ->]. }
  change (succeeded s_ok) with true. cbn [negb].
  pose proof (literal_table st sp inc text value Hst Hle Hvle Hvbytes) as Hd.
  destruct Hd as (d & -> & Hd). rewrite bind_Done. eexists. split; [done|].
  exists (R_literal inc name value), (k + m + l)%nat, [(text, value)], (mk_spec (if inc then table_add MaxDynamicEntries (b_limit sp) (text, value) (b_table sp) else b_table sp) (b_limit sp) true).
  split; [by eapply P_literal|]. split.
  { cbn [perform]. fold (resolve (b_table sp) name). rewrite Htext. cbn [mbind option_bind].
    rewrite (proj2 (Nat.eqb_neq _ _) Hnz), (proj2 (Nat.ltb_ge _ _) Hle), (proj2 (Nat.ltb_ge _ _) Hvle). done. }
  split; [done|]. split; [cbn; lia|]. split; [lia|]. split_and!; done.
Qed.

Lemma str_at_within at_ text n : str_at data at_ text n -> (at_ + n <= length data)%nat.
Proof. intros H'. destruct H'; lia. Qed.

Lemma rep_at_within at_ r n : rep_at data at_ r n -> (at_ < length data)%nat /\ (at_ + n <= length data)%nat.
Proof.
  intros Hr. assert (Hlt : (at_ < length data)%nat) by (by destruct Hr; eapply lookup_lt_Some). split; [done|]. destruct Hr as [b i n _ _ Hi|b s n _ _ Hi|b inc i nm v k n m _ _ _ _ Hs].
  - by eapply int_at_within.
  - by eapply int_at_within.
  - apply str_at_within in Hs. lia.
Qed.

Lemma block_at_end sp fs sp' : block_at data (length data) sp fs sp' -> fs = [] /\ sp' = sp.
Proof. intros H'. inversion H' as [|at_ st r n gs st1 hs st2 Hr]; subst; [done|]. apply rep_at_within in Hr. lia. Qed.

Lemma block_at_step at_ sp r n fs sp1 gs sp2 : rep_at data at_ r n -> perform sp r = Some (fs, sp1) -> block_at data at_ sp gs sp2 ->
  exists hs, gs = fs ++ hs /\ block_at data (at_ + n) sp1 hs sp2.
Proof.
  intros Hr Hp H'. inversion H' as [st|at' st r' n' fs' st1 hs st2 Hr' Hp' Hb]; subst.
  - apply rep_at_within in Hr. lia.
  - destruct (rep_at_fun _ _ _ _ _ _ Hr Hr') as [<- <-]. rewrite Hp in Hp'. injection Hp' as <- <-. by exists hs.
Qed.

Lemma block_at_fun at_ sp fs sp1 fs' sp1' : block_at data at_ sp fs sp1 -> block_at data at_ sp fs' sp1' -> fs = fs' /\ sp1 = sp1'.
Proof.
  intros H1. revert fs' sp1'. induction H1 as [st|at_ st r n fs st1 gs st2 Hr Hp Hb IH]; intros fs' sp1' H2.
  - by apply block_at_end in H2 as [-> ->].
  - destruct (block_at_step _ _ _ _ _ _ _ _ Hr Hp H2) as (hs & -> & Hb'). by destruct (IH _ _ Hb') as [-> ->].
Qed.

Lemma pass_ok st sp : block_inv st sp -> (offset st < length data)%nat ->
  exists x, block_body MaxDynamicTableBytes MaxStringSize MaxDynamicEntries data (length data) st = Done x /\ pass_result st sp x.
Proof using Hdata Hentries.
  intros Hinv Hlt. destruct (lookup_lt_is_Some_2 data (offset st) Hlt) as [b Hb].
  destruct (Z.le_gt_cases 128 b); [by eapply indexed_ok|]. destruct (Z.le_gt_cases 64 b); [eapply literal_ok; [done|done|lia]|].
  destruct (Z.le_gt_cases 32 b); [by eapply resized_ok|]. eapply literal_ok; [done|done|lia].
Qed.

Lemma block_loop fuel st sp : block_inv st sp -> (offset st <= length data)%nat -> (length data - offset st < fuel)%nat ->
  exists x, while_loop fuel (fun st => Done (offset st <? length data)%nat)
      (block_body MaxDynamicTableBytes MaxStringSize MaxDynamicEntries data (length data)) st = Done x /\
    match x with
    | Next st' => exists fs sp', block_at data (offset st) sp fs sp' /\ add_all (output_ st) fs = Done (s_ok, output_ st') /\ block_inv st' sp'
    | Return (s, d, h) => s <> s_ok /\ (exists sp', spec_repr d sp') /\ sink_inv h /\
        forall fs sp', block_at data (offset st) sp fs sp' -> add_all (output_ st) fs = Done (s, h)
    end.
Proof using Hdata Hentries.
  revert st sp. induction fuel as [|fuel IH]; intros st sp Hinv Hle Hf; [lia|]. cbn [while_loop].
  destruct (Nat.ltb_spec (offset st) (length data)) as [Hlt|Hge].
  2:{ eexists. split; [done|]. exists [], sp. split; [|done]. replace (offset st) with (length data) by lia. constructor. }
  destruct (pass_ok st sp Hinv Hlt) as (x & -> & Hx). destruct x as [[[s d] h]|st1].
  - destruct Hx as (Hs & -> & Hh & Hno). eexists. split; [done|]. split; [done|]. split; [exists sp; apply Hinv|]. split; [done|].
    intros fs sp' Hb. inversion Hb as [st0 E|at' st0 r n gs st1 hs st2 Hr Hp Hb']; subst; [lia|].
    rewrite add_all_app, (Hno _ _ _ _ Hr Hp), bind_Done. by rewrite (failed s Hs).
  - destruct Hx as (r & n & fs & sp1 & Hr & Hp & Hadd & Hoff & Hn & Hinv1). pose proof (rep_at_within _ _ _ Hr) as [_ Hw].
    destruct (IH st1 sp1 Hinv1) as (x & -> & Hx); [lia|lia|]. eexists. split; [done|]. rewrite Hoff in Hx. destruct x as [[[s d] h]|st2].
    + destruct Hx as (Hs & Hsp & Hh & Hno). split; [done|]. split; [done|]. split; [done|]. intros gs sp' Hb.
      destruct (block_at_step _ _ _ _ _ _ _ _ Hr Hp Hb) as (hs & -> & Hb'). rewrite add_all_app, Hadd, bind_Done. by apply (Hno hs sp').
    + destruct Hx as (gs & sp2 & Hb & Hadd2 & Hinv2). exists (fs ++ gs), sp2. split; [by econstructor|]. split; [|done].
      rewrite add_all_app, Hadd, bind_Done. exact Hadd2.
Qed.

Lemma decode_block_ok d T limit h : table_repr MaxDynamicTableBytes MaxStringSize MaxDynamicEntries d T limit -> sink_inv h ->
  exists s d' h', decode_block MaxDynamicTableBytes MaxStringSize MaxDynamicEntries d (Some data) (length data) h = Done (s, d', h') /\ sink_inv h' /\
    (exists T' limit', table_repr MaxDynamicTableBytes MaxStringSize MaxDynamicEntries d' T' limit') /\
    (s = s_ok -> exists fields sp, block_at data 0 (mk_spec T limit false) fields sp /\ add_all h fields = Done (s_ok, h') /\ spec_repr d' sp) /\
    (forall fields sp, block_at data 0 (mk_spec T limit false) fields sp -> add_all h fields = Done (s, h') /\ (s = s_ok -> spec_repr d' sp)).
Proof using Hdata Hentries.
  intros Hrep Hh. unfold decode_block. set (zeros := replicate (MaxStringSize + 1) 0). assert (Hz : length zeros = (MaxStringSize + 1)%nat) by apply length_replicate.
  destruct (block_loop (S (length data)) (mk_block 0 false zeros zeros d h) (mk_spec T limit false)) as (x & -> & Hx); [by split_and!|cbn; lia|cbn; lia|].
  cbn [offset output_] in Hx. destruct x as [[[s d'] h']|st']; cbn [after]; (eexists _, _, _; split; [done|]).
  - destruct Hx as (Hs & (sp' & Hsp) & Hh' & Hall). split; [done|]. split; [by eexists _, _|]. split; [done|].
    intros fields sp Hb. split; [by eapply Hall|done].
  - destruct Hx as (fs & sp' & Hb & Hadd & Hr' & _ & _ & _ & Hh'). split; [done|]. split; [by eexists _, _|]. split; [intros _; by exists fs, sp'|].
    intros fields sp Hb'. destruct (block_at_fun _ _ _ _ _ _ Hb Hb') as [<- <-]. by split.
Qed.
End Blocks.

(** The headers of HttpHeaders receive the fields. *)
#[export] Program Instance basic_headers_sink (MaxHeaders MaxNameSize MaxValueSize : nat) : HeaderSink basic_headers := {|
  sink_add h n v := add MaxHeaders MaxNameSize MaxValueSize h n v;
  sink_inv h := exists l, headers_hold MaxHeaders MaxNameSize MaxValueSize h l |}.
Next Obligation.
  intros MaxHeaders MaxNameSize MaxValueSize h name value [l Hl] Hb.
  destruct (add_ok MaxHeaders MaxNameSize MaxValueSize h l name value Hl Hb) as (h' & E & Hh'). eexists _, h'. split; [exact E|]. by eexists.
Qed.

(** ** The encoder *)

Definition str_bytes (text : list Z) : list Z := int_bytes 7 0 (Z.of_nat (length text)) ++ text.

Lemma find_static_ok name value : exists i exact, hpack_find_static name value = Done (i, exact) /\ (i <= 61)%nat /\
  if exact : bool then (0 < i)%nat /\ hpack_static_table !! (i - 1)%nat = Some (name, value)
  else i = 0%nat \/ (0 < i)%nat /\ exists v, hpack_static_table !! (i - 1)%nat = Some (name, v).
Proof.
  unfold hpack_find_static. destruct static_bytes as [_ Hlen].
  set (good := fun i => i = 0%nat \/ (0 < i)%nat /\ exists v, hpack_static_table !! (i - 1)%nat = Some (name, v)).
  assert (H : forall n k idx, (k + n = 61)%nat -> good idx -> (idx <= k)%nat -> exists x, for_range k n (find_static_body name value) idx = Done x /\
    match x with
    | Return (i, e) => e = true /\ (0 < i <= 61)%nat /\ hpack_static_table !! (i - 1)%nat = Some (name, value)
    | Next i => good i /\ (i <= 61)%nat
    end).
  { induction n as [|n IH]; intros k idx Hk Hg Hle; cbn [for_range].
    { eexists. split; [done|]. cbv beta iota. split; [done|lia]. }
    destruct (lookup_lt_is_Some_2 hpack_static_table k) as [[fn fv] Hf]; [lia|]. unfold find_static_body at 1. rewrite (load_Done _ _ _ Hf), bind_Done. cbn [fst snd].
    case_bool_decide as E1; cbn [negb]; [|apply IH; [lia|done|lia]]. subst fn. cbv zeta. case_bool_decide as E2.
    { eexists. split; [done|]. cbv beta iota. subst fv. split; [done|]. split; [lia|]. by rewrite Nat.add_sub. }
    apply IH; [lia| |destruct (Nat.eqb_spec idx 0); lia]. destruct (Nat.eqb_spec idx 0); [|done]. right. split; [lia|]. exists fv. by rewrite Nat.add_sub. }
  destruct (H 61%nat 0%nat 0%nat) as (x & -> & Hx); [done|by left|lia|]. destruct x as [[i e]|i]; cbn [after].
  - destruct Hx as (-> & Hi & Hl). exists i, true. split_and!; done || lia.
  - exists i, false. split; [done|]. split; [lia|]. apply Hx.
Qed.

Lemma puts_none (buf pre bytes bytes' out : list Z) : (length buf < length pre + length bytes')%nat -> (length bytes' <= length bytes)%nat -> length out = length buf -> puts buf pre bytes (None, out).
Proof. intros H1 H2 H3. unfold puts. by rewrite decide_False by lia. Qed.

Lemma encode_string_ok buf pre text : Forall byte text -> Z.of_nat (length text) < 2 ^ 32 -> (length pre <= length buf)%nat ->
  exists r, encode_string text (wrote buf 0 pre) (length buf) (length pre) = Done r /\ puts buf pre (str_bytes text) r.
Proof.
  intros Hb Hl Hpre. unfold encode_string, str_bytes. rewrite wrap_small by (unfold in_width; lia). set (bs := int_bytes 7 0 (Z.of_nat (length text))).
  destruct (hpack_write_integer_ok buf pre 7 0 (Z.of_nat (length text))) as (r & -> & Hp); [lia|lia|done|unfold in_width; lia|done|]. fold bs in Hp.
  rewrite bind_Done. unfold puts in Hp. case_decide as Hd.
  2:{ destruct r as [[o|] out]; destruct Hp as [? Hlo]; [done|]. eexists. split; [done|]. apply (puts_none _ _ _ bs); [lia|rewrite length_app; lia|done]. }
  subst r. cbv beta iota. destruct (Nat.ltb_spec (length buf - (length pre + length bs)) (length text)) as [Hbig|Hfits].
  { eexists. split; [done|]. apply (puts_none _ _ _ (bs ++ text)); [rewrite length_app; lia|done|]. apply length_wrote. rewrite length_app. lia. }
  destruct (for_to_inv (fun i st => st = (wrote buf 0 ((pre ++ bs) ++ take i text), (length pre + length bs + i)%nat))
    (fun i '(output, next) => c ← load text i; output ← store output next (to_u8 c); Done (output, (next + 1)%nat)) 0 (length text)
    (wrote buf 0 (pre ++ bs), (length pre + length bs)%nat)) as (st & -> & ->).
  - by rewrite take_0, app_nil_r, Nat.add_0_r.
  - intros i st Hi ->. destruct (lookup_lt_is_Some_2 text i) as [c Hc]; [lia|]. rewrite (load_Done _ _ _ Hc), bind_Done.
    assert (Hcb : byte c) by (by eapply (Forall_lookup_1 byte)). rewrite wrap_small by done.
    rewrite store_wrote, bind_Done by (rewrite ?length_app, ?length_take; lia). eexists. split; [done|]. rewrite (take_S_r _ _ _ Hc), <-app_assoc.
    f_equal. lia.
  - rewrite bind_Done. cbv beta iota. eexists. split; [done|]. unfold puts. rewrite length_app, decide_True by lia. cbn [Nat.add].
    rewrite (take_ge text), <-app_assoc by lia. do 2 f_equal. lia.
Qed.

(** The octets of a field. *)
Definition literal_bytes (name_index : nat) (name value : list Z) : list Z :=
  int_bytes 4 0 (Z.of_nat name_index) ++ (if (name_index =? 0)%nat then str_bytes name else []) ++ str_bytes value.

(** What an encoder leaves: the octets, or that they do not fit. *)
Definition encodes (buf bytes : list Z) (s : status) (out : list Z) (used : nat) : Prop :=
  length out = length buf /\
  if decide (length bytes <= length buf)%nat then s = s_ok /\ used = length bytes /\ out = wrote buf 0 bytes else s = s_full /\ used = 0%nat.

Definition text_ok (t : list Z) : Prop := Forall byte t /\ Z.of_nat (length t) < 2 ^ 32.

(** One encoder behind another. *)
Lemma puts_bind buf pre a b r (f : nat -> list Z -> exec (option nat * list Z)) :
  puts buf pre a r -> ((length pre + length a <= length buf)%nat -> exists r', f (length (pre ++ a)) (wrote buf 0 (pre ++ a)) = Done r' /\ puts buf (pre ++ a) b r') ->
  exists r', (let '(o, out) := r in match o with Some o => f o out | None => Done (o, out) end) = Done r' /\ puts buf pre (a ++ b) r'.
Proof.
  intros Hp Hf. unfold puts in Hp. case_decide as Hd.
  - subst r. destruct (Hf Hd) as (r' & E & Hp'). rewrite length_app in E. exists r'. split; [exact E|]. unfold puts in *. rewrite !length_app, <-app_assoc in Hp'.
    rewrite length_app. by rewrite Nat.add_assoc.
  - destruct r as [[o|] out]; destruct Hp as [? Hlo]; [done|]. eexists. split; [done|]. apply (puts_none _ _ _ a); [lia|rewrite length_app; lia|done].
Qed.

Lemma encode_with_name_index_ok idx name value buf : (idx <= 61)%nat -> name <> [] -> text_ok name -> text_ok value ->
  exists s out n, encode_with_name_index idx name value (Some buf) (length buf) = Done (s, Some out, n) /\ encodes buf (literal_bytes idx name value) s out n.
Proof.
  intros Hi Hne [Hnb Hnl] [Hvb Hvl]. unfold encode_with_name_index, literal_bytes. destruct (Nat.eqb_spec (length name) 0) as [Hz|Hnz]; [by destruct name|].
  rewrite !(proj2 (Z.ltb_ge 0xFFFFFFFF _)) by lia. cbn [orb]. rewrite (wrap_small 32) by (unfold in_width; lia).
  destruct (hpack_write_integer_ok buf [] 4 0 (Z.of_nat idx)) as (r1 & E1 & Hp1); [lia|lia|done|unfold in_width; lia|cbn; lia|].
  rewrite wrote_nil in E1. cbn [length] in E1. rewrite E1, bind_Done.
  set (b1 := int_bytes 4 0 (Z.of_nat idx)) in *. set (b2 := if (idx =? 0)%nat then str_bytes name else []).
  destruct (puts_bind buf [] b1 b2 r1 (fun o out => if (idx =? 0)%nat then encode_string name out (length buf) o else Done (Some o, out)) Hp1) as (r2 & E2 & Hp2).
  { intros Hl. subst b2. destruct (idx =? 0)%nat; [by apply encode_string_ok|]. eexists. split; [done|]. unfold puts. cbn [length app Nat.add] in *.
    rewrite app_nil_r, decide_True by lia. by rewrite Nat.add_0_r. }
  destruct r1 as [o1 out1].
  assert (E2' : match o1 with Some o => if (idx =? 0)%nat then encode_string name out1 (length buf) o else Done (o1, out1) | None => Done (o1, out1) end = Done r2) by (by destruct o1).
  rewrite E2', bind_Done. clear E2 E2'.
  destruct (puts_bind buf [] (b1 ++ b2) (str_bytes value) r2 (fun o out => encode_string value out (length buf) o) Hp2) as (r3 & E3 & Hp3).
  { intros Hl. by apply encode_string_ok. }
  destruct r2 as [o2 out2]. rewrite E3, bind_Done. rewrite <-app_assoc in Hp3. unfold puts in Hp3. cbn [length app Nat.add] in Hp3. destruct r3 as [o3 out3].
  unfold encodes. destruct (decide (length (b1 ++ b2 ++ str_bytes value) <= length buf)%nat) as [Hd|Hd].
  - injection Hp3 as -> ->. eexists _, _, _. split; [done|]. split; [by apply length_wrote|done].
  - cbn [fst snd] in Hp3. destruct Hp3 as [-> Hlo]. by eexists _, _, _.
Qed.

(** ** What was encoded is decoded *)

Lemma int_bytes_head prefix high v : 0 < prefix <= 8 -> 0 <= v -> exists x rest, int_bytes prefix high v = high + x :: rest /\ 0 <= x < 2 ^ prefix.
Proof.
  intros Hp Hv. destruct (prefix_mask_value prefix Hp) as [_ Hm]. unfold int_bytes. destruct (Z.ltb_spec v (2 ^ prefix - 1)); eexists _, _; (split; [done|lia]).
Qed.

Lemma drop_head {A} (l : list A) at_ x rest : drop at_ l = x :: rest -> l !! at_ = Some x.
Proof. intros E. rewrite <-(Nat.add_0_r at_), <-lookup_drop. by rewrite E. Qed.

Lemma drop_behind {A} (l : list A) at_ a b : drop at_ l = a ++ b -> drop (at_ + length a) l = b.
Proof. intros E. rewrite <-drop_drop, E. apply drop_app_length. Qed.

Lemma drop_within {A} (l : list A) at_ a b : drop at_ l = a ++ b -> a <> [] -> (at_ + length a <= length l)%nat.
Proof.
  intros E Ha. apply (f_equal length) in E. rewrite length_drop, length_app in E. destruct a as [|x a]; [done|]. cbn [length] in *. lia.
Qed.

Lemma str_bytes_str_at data at_ text post : text_ok text -> drop at_ data = str_bytes text ++ post -> str_at data at_ text (length (str_bytes text)).
Proof.
  intros [Hb Hl] Hd. unfold str_bytes in *. rewrite <-app_assoc in Hd. set (n := Z.of_nat (length text)) in *. assert (Hn : in_width 32 n) by (unfold in_width; subst n; lia).
  destruct (int_bytes_head 7 0 n) as (x & rest & Ex & Hx); [lia|lia|]. pose proof Hd as Hd'. rewrite Ex in Hd'. cbn [app] in Hd'. apply drop_head in Hd'.
  pose proof (int_at_bytes data at_ (text ++ post) 7 0 n ltac:(lia) ltac:(done) Hn Hd) as Hi. pose proof (drop_behind _ _ _ _ Hd) as Ht.
  assert (Htext : take (length text) (drop (at_ + length (int_bytes 7 0 n)) data) = text) by (rewrite Ht; apply take_app_length).
  rewrite length_app. rewrite <-Htext at 1. eapply S_raw; [exact Hd'|lia|exact Hi|].
  rewrite app_assoc in Hd. apply drop_within in Hd; [|by rewrite Ex]. rewrite length_app in Hd. lia.
Qed.

Lemma str_bytes_bytes text : text_ok text -> Forall byte (str_bytes text).
Proof. intros [Hb Hl]. apply Forall_app_2; [|done]. apply int_bytes_byte; [lia|lia|lia|]. unfold in_width. lia. Qed.

Section Roundtrip.
Context (MaxDynamicTableBytes MaxStringSize MaxDynamicEntries : nat) (Hentries : (0 < MaxDynamicEntries)%nat).

(** Octets that represent a field without touching the dynamic table. *)
Definition represents (bytes : list Z) (f : header) : Prop :=
  Forall byte bytes /\ forall data at_ post, drop at_ data = bytes ++ post ->
    exists r, rep_at data at_ r (length bytes) /\
      forall sp, perform MaxDynamicTableBytes MaxStringSize MaxDynamicEntries sp r = Some ([f], mk_spec (b_table sp) (b_limit sp) true).

Definition field_ok (f : header) : Prop :=
  f.1 <> [] /\ text_ok f.1 /\ text_ok f.2 /\ (length f.1 <= MaxStringSize)%nat /\ (length f.2 <= MaxStringSize)%nat.

Lemma literal_represents idx name value :
  (idx <= 61)%nat -> (idx = 0%nat \/ (0 < idx)%nat /\ exists v, hpack_static_table !! (idx - 1)%nat = Some (name, v)) ->
  field_ok (name, value) -> represents (literal_bytes idx name value) (name, value).
Proof.
  intros Hi Hidx (Hne & Hn & Hv & Hnl & Hvl). cbn [fst snd] in *. unfold literal_bytes. assert (Hw : in_width 32 (Z.of_nat idx)) by (unfold in_width; lia). split.
  { apply Forall_app_2; [apply int_bytes_byte; [lia|lia|lia|done]|]. apply Forall_app_2; [|by apply str_bytes_bytes].
    destruct (idx =? 0)%nat; [by apply str_bytes_bytes|constructor]. }
  intros data at_ post Hd. set (ib := int_bytes 4 0 (Z.of_nat idx)) in *. set (nb := if (idx =? 0)%nat then str_bytes name else []) in *.
  destruct (int_bytes_head 4 0 (Z.of_nat idx)) as (x & rest & Ex & Hx); [lia|lia|]. fold ib in Ex. pose proof Hd as Hd'. rewrite Ex in Hd'. cbn [app] in Hd'. apply drop_head in Hd'.
  rewrite <-!app_assoc in Hd. pose proof (int_at_bytes data at_ _ 4 0 _ ltac:(lia) ltac:(done) Hw Hd) as Hint. fold ib in Hint. pose proof (drop_behind _ _ _ _ Hd) as Hd1.
  pose proof (drop_behind _ _ _ _ Hd1) as Hd2. pose proof (str_bytes_str_at _ _ _ _ Hv Hd2) as Hs.
  assert (Hlen : length (ib ++ nb ++ str_bytes value) = (length ib + length nb + length (str_bytes value))%nat) by (rewrite !length_app; lia). rewrite Hlen.
  assert (Hnz : (length name =? 0)%nat = false) by (by destruct name).
  assert (Hp : forall nm sp, resolve (b_table sp) nm = Some name ->
    perform MaxDynamicTableBytes MaxStringSize MaxDynamicEntries sp (R_literal false nm value) = Some ([(name, value)], mk_spec (b_table sp) (b_limit sp) true)).
  { intros nm sp Hres. cbn [perform]. fold (resolve (b_table sp) nm). rewrite Hres. cbn [mbind option_bind]. rewrite Hnz.
    rewrite (proj2 (Nat.ltb_ge _ _) Hnl), (proj2 (Nat.ltb_ge _ _) Hvl). done. }
  destruct Hidx as [->|(Hpos & v & Hl)].
  - exists (R_literal false (inr name) value). split; [|intros sp; by apply Hp]. eapply P_literal; [exact Hd'|cbn; lia|exact Hint| |exact Hs].
    constructor. subst nb. cbn [Nat.eqb] in *. by eapply str_bytes_str_at.
  - exists (R_literal false (inl (Z.of_nat idx)) value). split.
    + eapply P_literal; [exact Hd'|cbn; lia|exact Hint| |exact Hs]. subst nb. rewrite (proj2 (Nat.eqb_neq idx 0)) by lia. constructor. lia.
    + intros sp. apply Hp. cbn [resolve]. unfold nth_field. rewrite (proj2 (Z.leb_gt (Z.of_nat idx) 0)), (proj2 (Z.leb_le (Z.of_nat idx) 61)) by lia.
      replace (Z.to_nat (Z.of_nat idx - 1)) with (idx - 1)%nat by lia. by rewrite Hl.
Qed.

Lemma indexed_represents i f : (0 < i <= 61)%nat -> hpack_static_table !! (i - 1)%nat = Some f -> represents (int_bytes 7 0x80 (Z.of_nat i)) f.
Proof.
  intros Hi Hl. assert (Hw : in_width 32 (Z.of_nat i)) by (unfold in_width; lia). split; [apply int_bytes_byte; [lia|lia|lia|done]|]. intros data at_ post Hd.
  destruct (int_bytes_head 7 0x80 (Z.of_nat i)) as (x & rest & Ex & Hx); [lia|lia|]. pose proof Hd as Hd'. rewrite Ex in Hd'. cbn [app] in Hd'. apply drop_head in Hd'.
  pose proof (int_at_bytes data at_ _ 7 0x80 _ ltac:(lia) ltac:(done) Hw Hd) as Hint. exists (R_indexed (Z.of_nat i)). split; [eapply P_indexed; [exact Hd'|lia|exact Hint]|].
  intros sp. cbn [perform]. unfold nth_field. rewrite (proj2 (Z.leb_gt (Z.of_nat i) 0)), (proj2 (Z.leb_le (Z.of_nat i) 61)) by lia.
  replace (Z.to_nat (Z.of_nat i - 1)) with (i - 1)%nat by lia. by rewrite Hl.
Qed.

(** Encoding a field: the octets depend on the field alone. *)
Lemma encode_field_ok f : field_ok f -> exists bytes, represents bytes f /\
  forall buf, exists s out n, encode_field f.1 f.2 (Some buf) (length buf) = Done (s, Some out, n) /\ encodes buf bytes s out n.
Proof.
  destruct f as [name value]. intros Hf. pose proof Hf as (Hne & Hn & Hv & _ & _). cbn [fst snd] in *.
  destruct (find_static_ok name value) as (i & exact_ & Efind & Hi & Hres). assert (Hnz : (length name =? 0)%nat = false) by (by destruct name).
  destruct exact_.
  - destruct Hres as [Hpos Hl]. exists (int_bytes 7 0x80 (Z.of_nat i)). split; [by apply indexed_represents|]. intros buf. unfold encode_field.
    rewrite Hnz, Efind, bind_Done. cbv beta iota. cbn [negb]. rewrite wrap_small by (unfold in_width; lia).
    destruct (hpack_write_integer_ok buf [] 7 0x80 (Z.of_nat i)) as ([o out] & E & Hp); [lia|lia|done|unfold in_width; lia|cbn; lia|].
    rewrite wrote_nil in E. cbn [length] in E. rewrite E, bind_Done. unfold puts in Hp. cbn [length app Nat.add] in Hp. unfold encodes. case_decide as Hd.
    + injection Hp as -> ->. eexists _, _, _. split; [done|]. split; [by apply length_wrote|done].
    + cbn [fst snd] in Hp. destruct Hp as [-> Hlo]. by eexists _, _, _.
  - exists (literal_bytes i name value). split; [by apply literal_represents|]. intros buf. unfold encode_field. rewrite Hnz, Efind, bind_Done. cbv beta iota. cbn [negb].
    by apply encode_with_name_index_ok.
Qed.

(** The representations of a list of fields make a block. *)
Lemma block_of_fields fields blocks pre sp : Forall2 represents blocks fields ->
  exists seen, block_at MaxDynamicTableBytes MaxStringSize MaxDynamicEntries (pre ++ concat blocks) (length pre) sp fields (mk_spec (b_table sp) (b_limit sp) seen).
Proof.
  intros Hall. revert pre sp. induction Hall as [|b f blocks fields [_ Hb] Hall IH]; intros pre sp.
  - exists (b_seen sp). cbn [concat]. rewrite app_nil_r. destruct sp. constructor.
  - destruct (Hb (pre ++ concat (b :: blocks)) (length pre) (concat blocks)) as (r & Hr & Hp); [by rewrite drop_app_length|].
    destruct (IH (pre ++ b) (mk_spec (b_table sp) (b_limit sp) true)) as (seen & Hblock). exists seen. rewrite <-app_assoc, length_app in Hblock.
    change (f :: fields) with ([f] ++ fields). by eapply B_rep.
Qed.
End Roundtrip.

(** C13. The HPACK decoder implements RFC 7541: for any header list and any octets, decoding
    a block is total and memory safe and keeps the dynamic table a table (sizes within the
    negotiated limit, as many entries as fit); it succeeds exactly when the octets are a sequence of
    representations each of which is allowed where it stands (an index that exists, a
    table size first and within the maximum, a name, strings that fit) and the header list takes
    their fields, which it gets in order; and the table is then what the insertions and evictions
    of the specification make of it. *)
Theorem hpack_decode_exact (MaxDynamicTableBytes MaxStringSize MaxDynamicEntries : nat) {H : Type} `{!HeaderSink H} :
  (0 < MaxDynamicEntries)%nat ->
  let repr := table_repr MaxDynamicTableBytes MaxStringSize MaxDynamicEntries in
  let block := block_at MaxDynamicTableBytes MaxStringSize MaxDynamicEntries in
  repr (decoder_new MaxDynamicTableBytes MaxStringSize MaxDynamicEntries) [] MaxDynamicTableBytes
  /\ forall d T limit, repr d T limit ->
     repr (clear_dynamic_table MaxDynamicTableBytes d) [] MaxDynamicTableBytes
     /\ dynamic_table_size d = table_size T /\ (table_size T <= limit)%nat /\ dynamic_entry_count d = length T /\ maximum_table_size d = limit
     /\ forall h data, Forall byte data -> sink_inv h ->
        exists s d' h', decode_block MaxDynamicTableBytes MaxStringSize MaxDynamicEntries d (Some data) (length data) h = Done (s, d', h') /\ sink_inv h'
          /\ (exists T' limit', repr d' T' limit')
          /\ (s = s_ok -> exists fields st, block data 0%nat (mk_spec T limit false) fields st /\ add_all h fields = Done (s_ok, h') /\ repr d' (b_table st) (b_limit st))
          /\ (forall fields st, block data 0%nat (mk_spec T limit false) fields st ->
                add_all h fields = Done (s, h') /\ (s = s_ok -> repr d' (b_table st) (b_limit st))).
Proof.
  intros He repr block. split; [apply decoder_new_repr|]. intros d T limit Hrep. pose proof Hrep as ((H1 & H2 & Hc & _ & _ & Hb) & Ha & Hs & Hl).
  split. { split; [|cbn; lia]. split_and!; [done|done|done|apply Nat.le_0_l|constructor|done]. }
  split_and!; [done|done|done|done|]. intros h data Hd Hh. by apply decode_block_ok.
Qed.

Lemma hpack_decode_exact_witness :
  let data := 0x40 :: 4 :: chars "name" ++ 5 :: chars "value" in
  exists s d' h', decode_block 64 8 2 (HeaderSink0 := basic_headers_sink 2 8 8) (decoder_new 64 8 2) (Some data) (length data) (headers_new 2 8 8) = Done (s, d', h') /\ s = s_ok
    /\ table_repr 64 8 2 d' [(chars "name", chars "value")] 64.
Proof.
  intros data. assert (Hd : Forall byte data) by (repeat constructor; unfold byte; lia).
  destruct (hpack_decode_exact 64 8 2 (HeaderSink0 := basic_headers_sink 2 8 8)) as [Hnew Hstep]; [lia|].
  destruct (Hstep _ _ _ Hnew) as (_ & _ & _ & _ & _ & Hdec).
  destruct (Hdec (headers_new 2 8 8) data Hd) as (s & d' & h' & E & _ & _ & _ & Hall); [exists []; apply headers_new_hold|].
  exists s, d', h'. split; [exact E|].
  destruct (Hall [(chars "name", chars "value")] (mk_spec [(chars "name", chars "value")] 64 true)) as [Ha Ht].
  - apply (B_rep 64 8 2 data 0 _ (R_literal true (inr (chars "name")) (chars "value")) 12 [(chars "name", chars "value")] (mk_spec [(chars "name", chars "value")] 64 true) []);
      [|reflexivity|exact (B_end 64 8 2 data _)].
    apply (P_literal data 0 0x40 true 0 (inr (chars "name")) (chars "value") 1 5 6); [reflexivity|lia| | |].
    + exists 0x40. split; [reflexivity|]. left. split_and!; reflexivity.
    + constructor. apply (S_raw data 1 4 4 1); [reflexivity|lia| |cbn; lia]. exists 4. split; [reflexivity|]. left. split_and!; reflexivity.
    + apply (S_raw data 6 5 5 1); [reflexivity|lia| |cbn; lia]. exists 5. split; [reflexivity|]. left. split_and!; reflexivity.
  - assert (Es : s = s_ok) by (vm_compute in Ha; congruence). split; [exact Es|]. by apply Ht.
Defined.

(** C14. HPACK round trip: every field of a name and a value of octets within the string size is
    encoded to octets that depend on the field alone, written to any buffer that has room for
    them (otherwise the status is full and no length is reported); and a block made of the encodings of
    any number of fields is decoded, by a decoder in any state, to exactly these
    fields, in order, without a change of the dynamic table. *)
Theorem hpack_roundtrip (MaxDynamicTableBytes MaxStringSize MaxDynamicEntries : nat) {H : Type} `{!HeaderSink H} d T limit h fields :
  (0 < MaxDynamicEntries)%nat -> table_repr MaxDynamicTableBytes MaxStringSize MaxDynamicEntries d T limit -> sink_inv h -> Forall (field_ok MaxStringSize) fields ->
  exists blocks,
    Forall2 (fun bytes f => forall buf, exists s out n, encode_field f.1 f.2 (Some buf) (length buf) = Done (s, Some out, n) /\ encodes buf bytes s out n) blocks fields
    /\ let data := concat blocks in
       exists s d' h', decode_block MaxDynamicTableBytes MaxStringSize MaxDynamicEntries d (Some data) (length data) h = Done (s, d', h')
         /\ add_all h fields = Done (s, h') /\ (s = s_ok -> table_repr MaxDynamicTableBytes MaxStringSize MaxDynamicEntries d' T limit).
Proof.
  intros He Hrep Hh Hf.
  assert (Hblocks : exists blocks, Forall2 (represents MaxDynamicTableBytes MaxStringSize MaxDynamicEntries) blocks fields /\ Forall2 (fun bytes f => forall buf, exists s out n,
    encode_field f.1 f.2 (Some buf) (length buf) = Done (s, Some out, n) /\ encodes buf bytes s out n) blocks fields).
  { induction Hf as [|f fields Hf _ (blocks & Hr & Hb)]; [exists []; by split|].
    destruct (encode_field_ok MaxDynamicTableBytes MaxStringSize MaxDynamicEntries He f Hf) as (bytes & Hrep' & Henc). exists (bytes :: blocks). by split; constructor. }
  destruct Hblocks as (blocks & Hr & Hb). exists blocks. split; [done|]. intros data.
  assert (Hd : Forall byte data) by (subst data; clear -Hr; induction Hr as [|b f blocks fields [Hb _] _ IH]; [constructor|]; by apply Forall_app_2).
  destruct (decode_block_ok MaxDynamicTableBytes MaxStringSize MaxDynamicEntries He data Hd d T limit h Hrep Hh) as (s & d' & h' & E & _ & _ & _ & Hall).
  destruct (block_of_fields MaxDynamicTableBytes MaxStringSize MaxDynamicEntries fields blocks [] (mk_spec T limit false) Hr) as (seen & Hblock).
  destruct (Hall _ _ Hblock) as [Ha Ht]. exists s, d', h'. split; [done|]. split; [done|]. exact Ht.
Qed.

Lemma hpack_roundtrip_witness :
  exists blocks,
    Forall2 (fun bytes f => forall buf, exists s out n, encode_field f.1 f.2 (Some buf) (length buf) = Done (s, Some out, n) /\ encodes buf bytes s out n) blocks
      [(chars ":method", chars "GET"); (chars "age", chars "7")]
    /\ let data := concat blocks in
       exists s d' h', decode_block 64 8 2 (HeaderSink0 := basic_headers_sink 2 8 8) (decoder_new 64 8 2) (Some data) (length data) (headers_new 2 8 8) = Done (s, d', h')
         /\ add_all (HeaderSink0 := basic_headers_sink 2 8 8) (headers_new 2 8 8) [(chars ":method", chars "GET"); (chars "age", chars "7")] = Done (s, h')
         /\ (s = s_ok -> table_repr 64 8 2 d' [] 64).
Proof.
  refine (hpack_roundtrip 64 8 2 (HeaderSink0 := basic_headers_sink 2 8 8) (decoder_new 64 8 2) [] 64 (headers_new 2 8 8) _ _ _ _ _).
  - lia.
  - apply decoder_new_repr.
  - exists []. apply headers_new_hold.
  - repeat constructor; cbn; try lia; try done; unfold byte; lia.
Defined.
