(* ===== verification/CoapMessage.v ===== *)
(** * CoAP messages (castle_ext/protocols/coap/types.hpp)

    A message in arrays of fixed sizes.  Its options are kept in ascending order of their
    numbers, options of the same number in the order of their insertion. *)

From Stdlib Require Import Sorted.
From S2P Require Import Prelude Status Bytes Words.
Open Scope Z_scope.

(** ** The code *)

Definition protocol_version : Z := 1.
Definition maximum_token_length : nat := 8.

(** [enum class message_type : uint8_t]; a variable of the type may hold any octet. *)
Definition confirmable : Z := 0.
Definition non_confirmable : Z := 1.
Definition acknowledgement : Z := 2.
Definition reset : Z := 3.

Definition code_empty : Z := 0x00.
Definition code_get : Z := 0x01.
Definition code_delete : Z := 0x04.

Definition opt_uri_path : Z := 11.
Definition opt_uri_query : Z := 15.

Definition is_request_code (value : Z) : bool := (code_get <=? value) && (value <=? code_delete).
Definition is_response_code (value : Z) : bool :=
  let klass := to_u8 (Z.shiftr value 5) in (2 <=? klass) && (klass <=? 5).
Definition is_critical_option (number : Z) : bool := negb (Z.land number 0x01 =? 0).
Definition is_unsafe_option (number : Z) : bool := negb (Z.land number 0x02 =? 0).
Definition is_no_cache_key_option (number : Z) : bool := Z.land number 0x1E =? 0x1C.
Definition is_supported_option (number : Z) : bool :=
  bool_decide (number ∈ [1; 3; 4; 5; 6; 7; 8; 11; 12; 14; 15; 17; 20; 23; 27; 28; 35; 39; 60]).

Record coap_option : Type := mk_option { number : Z; length_ : nat; value : list Z }.
Record message : Type := mk_message {
  version : Z; type : Z; code_value : Z; message_id : Z; token : list Z; token_length : nat;
  options : list coap_option; option_count : nat; payload : list Z; payload_size : nat }.

Definition clear (m : message) : message :=
  mk_message protocol_version confirmable code_empty 0 (token m) 0 (options m) 0 (payload m) 0.

Definition with_token (m : message) (t : list Z) (n : nat) : message :=
  mk_message (version m) (type m) (code_value m) (message_id m) t n (options m) (option_count m) (payload m) (payload_size m).
Definition with_options (m : message) (os : list coap_option) (n : nat) : message :=
  mk_message (version m) (type m) (code_value m) (message_id m) (token m) (token_length m) os n (payload m) (payload_size m).
Definition with_payload (m : message) (p : list Z) (n : nat) : message :=
  mk_message (version m) (type m) (code_value m) (message_id m) (token m) (token_length m) (options m) (option_count m) p n.

(** [count] octets from a pointer into an array; a pointer is the memory from there on. *)
Definition copy_octets (bytes : ptr) (count : nat) (out : list Z) : exec (list Z) :=
  for_to 0 count (fun i out => b ← pload bytes i; store out i b) out.

Definition set_token (m : message) (bytes : ptr) (count : nat) : exec (status * message) :=
  if (is_null bytes && negb (count =? 0)%nat) || (maximum_token_length <? count)%nat then Done (s_invalid_argument, m)
  else t ← copy_octets bytes count (token m); Done (s_ok, with_token m t count).

Section Message.
Context (MaxOptions OptionValueCapacity PayloadCapacity : nat).

Definition message_new : message :=
  mk_message protocol_version confirmable code_empty 0 (replicate maximum_token_length 0) 0
    (replicate MaxOptions (mk_option 0 0 (replicate OptionValueCapacity 0))) 0 (replicate PayloadCapacity 0) 0.

Definition set_payload (m : message) (bytes : ptr) (count : nat) : exec (status * message) :=
  if is_null bytes && negb (count =? 0)%nat then Done (s_invalid_argument, m)
  else if (PayloadCapacity <? count)%nat then Done (s_full, m)
  else p ← copy_octets bytes count (payload m); Done (s_ok, with_payload m p count).

(** [while (position > 0 && options[position - 1].number > number)]: the options behind
    the place of a new one move up. *)
Definition make_room (os : list coap_option) (count : nat) (num : Z) : exec (list coap_option * nat) :=
  settled (while_loop (S count)
    (fun '(os, position) => if (0 <? position)%nat then o ← load os (position - 1); Done (num <? number o) else Done false)
    (fun '(os, position) => o ← load os (position - 1); os ← store os position o; Done (Next (os, (position - 1)%nat)))
    (os, count)).

Definition append_option (m : message) (num : Z) (bytes : ptr) (count : nat) : exec (status * message) :=
  if (num =? 0) || (is_null bytes && negb (count =? 0)%nat) then Done (s_invalid_argument, m)
  else if (OptionValueCapacity <? count)%nat then Done (s_out_of_range, m)
  else if (MaxOptions <=? option_count m)%nat then Done (s_full, m)
  else
    '(os, position) ← make_room (options m) (option_count m) num;
    o ← load os position;
    v ← copy_octets bytes count (value o);
    os ← store os position (mk_option num count v);
    Done (s_ok, with_options m os (option_count m + 1)).

(** The octets of a number from the last of four places up. *)
Definition append_uint_option (m : message) (num : Z) (v : Z) : exec (status * message) :=
  let encoded := replicate 4 0 in
  '(encoded, _, count) ← settled (while_loop 5
        (fun '(_, remaining, count) => Done (negb (remaining =? 0) && (count <? 4)%nat))
        (fun '(encoded, remaining, count) =>
           encoded ← store encoded (3 - count) (to_u8 remaining); Done (Next (encoded, Z.shiftr remaining 8, (count + 1)%nat)))
        (encoded, v, 0%nat));
  append_option m num (if (count =? 0)%nat then None else Some (drop (4 - count) encoded)) count.

Definition append_string_option (m : message) (num : Z) (text : ptr) : exec (status * message) :=
  match text with
  | None => Done (s_invalid_argument, m)
  | Some t =>
      count ← settled (while_loop (OptionValueCapacity + 2)
            (fun count => c ← load t count; Done (negb (c =? 0) && (count <=? OptionValueCapacity)%nat))
            (fun count => Done (Next (count + 1)%nat)) 0%nat);
      if (OptionValueCapacity <? count)%nat then Done (s_out_of_range, m) else append_option m num (Some t) count
  end.

(** The option with a number, at its index. *)
Definition find_option (m : message) (num : Z) : exec (option nat) :=
  after (for_range 0 (option_count m) (fun i _ =>
      o ← load (options m) i;
      if number o =? num then Done (Return (Some i))
      else if num <? number o then Done (Return None) else Done (Next tt)) tt)
    (fun _ => Done None).

(** [while (test(text[index])) ++index]. *)
Definition scan_while (test : Z -> bool) (text : list Z) (index : nat) : exec nat :=
  settled (while_loop (S (length text)) (fun i => c ← load text i; Done (test c)) (fun i => Done (Next (i + 1)%nat)) index).
Definition is_slash (c : Z) : bool := c =? 47.
Definition in_segment (c : Z) : bool := negb (c =? 0) && negb (c =? 47).

Definition append_uri_path (m : message) (path : ptr) : exec (status * message) :=
  match path with
  | None => Done (s_invalid_argument, m)
  | Some path =>
      index ← scan_while is_slash path 0;
      after (while_loop (S (length path))
          (fun '(index, _) => c ← load path index; Done (negb (c =? 0)))
          (fun '(start, m) =>
             index ← scan_while in_segment path start;
             if negb (index =? start)%nat then
               '(result, m) ← append_option m opt_uri_path (Some (drop start path)) (index - start);
               if negb (succeeded result) then Done (Return (result, m))
               else index ← scan_while is_slash path index; Done (Next (index, m))
             else index ← scan_while is_slash path index; Done (Next (index, m)))
          (index, m))
        (fun '(_, m) => Done (s_ok, m))
  end.

Definition append_uri_query (m : message) (query : ptr) : exec (status * message) :=
  match query with
  | None => Done (s_invalid_argument, m)
  | Some query =>
      after (while_loop (S (length query)) (fun _ => Done true)
          (fun '(start, i, m) =>
             c ← load query i;
             if (c =? 38) || (c =? 0) then
               '(result, m) ← (if negb (i =? start)%nat then append_option m opt_uri_query (Some (drop start query)) (i - start)
                               else Done (s_ok, m));
               if negb (succeeded result) then Done (Return (result, m))
               else if c =? 0 then Done (Return (s_ok, m))
               else Done (Next ((i + 1)%nat, (i + 1)%nat, m))
             else Done (Next (start, (i + 1)%nat, m)))
          (0%nat, 0%nat, m))
        (fun '(_, _, m) => Done (s_ok, m))
  end.
End Message.

(** A pass over an option of the request. *)
Definition match_body (request : message) (path : list Z) (i : nat) (st : nat * nat) : exec (ctl bool (nat * nat)) :=
  let '(p, option_index) := st in
  o ← load (options request) i;
  if negb (number o =? opt_uri_path) then Done (Next (p, option_index))
  else
    p ← scan_while is_slash path p;
    end_ ← scan_while in_segment path p;
    if negb (end_ - p =? length_ o)%nat then Done (Return false)
    else
      same ← for_range 0 (end_ - p) (fun j _ =>
               c ← load path (p + j); v ← load (value o) j;
               if negb (c =? v) then Done (Return false) else Done (Next tt)) tt;
      match same with
      | Return r => Done (Return r)
      | Next _ => Done (Next (end_, (option_index + 1)%nat))
      end.

Definition uri_path_matches (request : message) (path : ptr) : exec bool :=
  match path with
  | None => Done false
  | Some path =>
      p ← scan_while is_slash path 0;
      after (for_range 0 (option_count request) (match_body request path) (p, 0%nat))
        (fun '(p, option_index) =>
           p ← scan_while is_slash path p;
           c ← load path p; Done ((c =? 0) && negb (option_index =? 0)%nat))
  end.

(** ** The contents of a message *)

Record coap : Type := mk_coap {
  c_version : Z; c_type : Z; c_code : Z; c_id : Z; c_token : list Z; c_options : list (Z * list Z); c_payload : list Z }.

Definition coap_new : coap := mk_coap protocol_version confirmable code_empty 0 [] [] [].
Definition set_options (a : coap) (os : list (Z * list Z)) : coap :=
  mk_coap (c_version a) (c_type a) (c_code a) (c_id a) (c_token a) os (c_payload a).

(** A new option behind those whose number is not above its own. *)
Definition place_option (x : Z * list Z) (l : list (Z * list Z)) : list (Z * list Z) :=
  filter (fun y => y.1 <= x.1) l ++ x :: filter (fun y => x.1 < y.1) l.

Abbreviation ascending := (StronglySorted (fun x y : Z * list Z => x.1 <= y.1)).

(** The parts of a text between separators that are not empty; [cur] is the part read so far. *)
Definition part (cur : list Z) : list (list Z) := match cur with [] => [] | _ => [cur] end.
Fixpoint pieces (sep : Z) (cur l : list Z) : list (list Z) :=
  match l with
  | [] => part cur
  | c :: l => if c =? sep then part cur ++ pieces sep [] l else pieces sep (cur ++ [c]) l
  end.

(** The text of a C string. *)
Fixpoint c_text (t : list Z) : list Z :=
  match t with [] => [] | c :: t => if c =? 0 then [] else c :: c_text t end.

(** The digits of a number in base 256, none for zero, the least significant first. *)
Fixpoint digits256 (fuel : nat) (v : Z) : list Z :=
  match fuel with O => [] | S fuel => if v =? 0 then [] else v mod 256 :: digits256 fuel (v / 256) end.
Definition uint_octets (v : Z) : list Z := reverse (digits256 4 v).

Definition path_values (a : coap) : list (list Z) := snd <$> filter (fun x => x.1 = opt_uri_path) (c_options a).

Section Spec.
Context (MaxOptions OptionValueCapacity PayloadCapacity : nat).

Definition spec_append (a : coap) (num : Z) (v : list Z) : status * coap :=
  if num =? 0 then (s_invalid_argument, a)
  else if (OptionValueCapacity <? length v)%nat then (s_out_of_range, a)
  else if (MaxOptions <=? length (c_options a))%nat then (s_full, a)
  else (s_ok, set_options a (place_option (num, v) (c_options a))).

(** Several options of one number, up to the first that fails. *)
Fixpoint spec_append_all (a : coap) (num : Z) (vs : list (list Z)) : status * coap :=
  match vs with
  | [] => (s_ok, a)
  | v :: vs => match spec_append a num v with (s_ok, a) => spec_append_all a num vs | r => r end
  end.

Inductive message_op : Type :=
| M_clear
| M_token (bytes : ptr) (count : nat)
| M_payload (bytes : ptr) (count : nat)
| M_option (num : Z) (bytes : ptr) (count : nat)
| M_uint (num v : Z)
| M_string (num : Z) (text : ptr)
| M_path (path : ptr)
| M_query (query : ptr).

Definition run_message_op (m : message) (op : message_op) : exec (status * message) :=
  match op with
  | M_clear => Done (s_ok, clear m)
  | M_token bytes count => set_token m bytes count
  | M_payload bytes count => set_payload PayloadCapacity m bytes count
  | M_option num bytes count => append_option MaxOptions OptionValueCapacity m num bytes count
  | M_uint num v => append_uint_option MaxOptions OptionValueCapacity m num v
  | M_string num text => append_string_option MaxOptions OptionValueCapacity m num text
  | M_path path => append_uri_path MaxOptions OptionValueCapacity m path
  | M_query query => append_uri_query MaxOptions OptionValueCapacity m query
  end.

(** A null pointer has no octets. *)
Definition octets_of (bytes : ptr) (count : nat) : option (list Z) :=
  match bytes with Some m => Some (take count m) | None => if (count =? 0)%nat then Some [] else None end.

Definition spec_message_op (a : coap) (op : message_op) : status * coap :=
  match op with
  | M_clear => (s_ok, coap_new)
  | M_token bytes count =>
      match octets_of bytes count with
      | Some t => if (maximum_token_length <? length t)%nat then (s_invalid_argument, a)
                  else (s_ok, mk_coap (c_version a) (c_type a) (c_code a) (c_id a) t (c_options a) (c_payload a))
      | None => (s_invalid_argument, a)
      end
  | M_payload bytes count =>
      match octets_of bytes count with
      | Some p => if (PayloadCapacity <? length p)%nat then (s_full, a)
                  else (s_ok, mk_coap (c_version a) (c_type a) (c_code a) (c_id a) (c_token a) (c_options a) p)
      | None => (s_invalid_argument, a)
      end
  | M_option num bytes count => match octets_of bytes count with Some v => spec_append a num v | None => (s_invalid_argument, a) end
  | M_uint num v => spec_append a num (uint_octets v)
  | M_string num text =>
      match text with
      | Some t => if (OptionValueCapacity <? length (c_text t))%nat then (s_out_of_range, a) else spec_append a num (c_text t)
      | None => (s_invalid_argument, a)
      end
  | M_path path => match path with Some t => spec_append_all a opt_uri_path (pieces 47 [] (c_text t)) | None => (s_invalid_argument, a) end
  | M_query query => match query with Some t => spec_append_all a opt_uri_query (pieces 38 [] (c_text t)) | None => (s_invalid_argument, a) end
  end.

(** Pointers are valid: the octets are there, and a text is terminated. *)
Definition terminated (text : ptr) : Prop := match text with Some t => 0 ∈ t | None => True end.
Definition readable (bytes : ptr) (count : nat) : Prop := match bytes with Some m => (count <= length m)%nat | None => True end.
Definition op_valid (op : message_op) : Prop :=
  match op with
  | M_clear => True
  | M_token bytes count | M_payload bytes count | M_option _ bytes count => readable bytes count
  | M_uint _ v => u32 v
  | M_string _ text | M_path text | M_query text => terminated text
  end.

(** The representation. *)
Definition opt_sized (o : coap_option) : Prop := length (value o) = OptionValueCapacity.
Definition opt_is (o : coap_option) (x : Z * list Z) : Prop :=
  number o = x.1 /\ length_ o = length x.2 /\ take (length x.2) (value o) = x.2.
Definition shaped (m : message) : Prop :=
  length (token m) = maximum_token_length /\ length (options m) = MaxOptions /\ Forall opt_sized (options m) /\ length (payload m) = PayloadCapacity.
Definition held (n : nat) (buffer text : list Z) : Prop := n = length text /\ (length text <= length buffer)%nat /\ take (length text) buffer = text.
Definition holds (m : message) (a : coap) : Prop :=
  shaped m /\ version m = c_version a /\ type m = c_type a /\ code_value m = c_code a /\ message_id m = c_id a
  /\ held (token_length m) (token m) (c_token a) /\ held (payload_size m) (payload m) (c_payload a)
  /\ option_count m = length (c_options a) /\ (length (c_options a) <= MaxOptions)%nat
  /\ Forall2 opt_is (take (length (c_options a)) (options m)) (c_options a).
End Spec.

(** ** Octets, texts and their parts *)

Lemma copy_octets_ok bytes count bs out : octets_of bytes count = Some bs -> readable bytes count -> (length bs <= length out)%nat ->
  copy_octets bytes count out = Done (wrote out 0 bs).
Proof.
  intros Hb Hr Hl. destruct bytes as [m|]; cbn in Hb, Hr.
  - injection Hb as <-. unfold copy_octets.
    destruct (for_to_inv (fun i o => o = wrote out 0 (take i m)) (fun i out => b ← pload (Some m) i; store out i b) 0 count out) as (o & -> & ->); [done| |done].
    intros i o Hi ->. destruct (lookup_lt_is_Some_2 m i) as [c Hc]; [lia|]. rewrite length_take in Hl. cbn [pload].
    rewrite (load_Done _ _ _ Hc), bind_Done, store_wrote by (rewrite ?length_take; lia). eexists. split; [done|]. by rewrite (take_S_r _ _ _ Hc).
  - destruct (Nat.eqb_spec count 0) as [->|]; [|done]. injection Hb as <-. unfold copy_octets. rewrite for_to_0. by rewrite wrote_nil.
Qed.

Lemma octets_length bytes count bs : octets_of bytes count = Some bs -> readable bytes count -> length bs = count.
Proof.
  destruct bytes; cbn; [intros [= <-] H; rewrite length_take; lia|]. destruct (Nat.eqb_spec count 0) as [->|]; [|done]. by intros [= <-].
Qed.

Lemma octets_null bytes count : is_null bytes && negb (count =? 0)%nat = bool_decide (octets_of bytes count = None).
Proof. destruct bytes; cbn; [done|]. by destruct (count =? 0)%nat. Qed.

Lemma held_wrote buffer bs : (length bs <= length buffer)%nat -> held (length bs) (wrote buffer 0 bs) bs.
Proof. intros H. unfold held. rewrite length_wrote by lia. split_and!; [done|done|by apply take_wrote]. Qed.

Lemma c_text_split t : 0 ∈ t -> exists post, t = c_text t ++ 0 :: post /\ Forall (fun c => c <> 0) (c_text t).
Proof.
  induction t as [|c t IH]; intros H; [by apply not_elem_of_nil in H|]. cbn [c_text]. destruct (Z.eqb_spec c 0) as [->|Hne].
  - exists t. by split; [|constructor].
  - apply elem_of_cons in H as [?|H]; [congruence|]. destruct (IH H) as (post & E & Hall). exists post. split; [by rewrite E at 1|]. by constructor.
Qed.

(** A scan stops at the first character that fails its test. *)
Lemma scan_while_ok test text pre run c post : text = pre ++ run ++ c :: post -> Forall (fun c => test c = true) run -> test c = false ->
  scan_while test text (length pre) = Done (length pre + length run)%nat.
Proof.
  intros -> Hrun Hc. unfold scan_while.
  match goal with |- context [while_loop ?n ?c ?b _] =>
    assert (H : forall fuel done_ todo, run = done_ ++ todo -> (length todo < fuel)%nat ->
      while_loop (R := Empty_set) fuel c b (length pre + length done_)%nat = Done (Next (length pre + length run)%nat)) end.
  { induction fuel as [|fuel IH]; intros done_ todo E Hf; [lia|]. cbn [while_loop].
    destruct todo as [|x todo].
    - rewrite app_nil_r in E. subst done_. rewrite (load_Done _ _ c); [rewrite bind_Done, Hc; done|].
      rewrite lookup_app_r, Nat.add_sub' by lia. by apply list_lookup_middle.
    - assert (Hx : run !! length done_ = Some x) by (rewrite E; by apply list_lookup_middle).
      rewrite (load_mid pre run (c :: post) (length done_) x) by done. rewrite bind_Done, (Forall_lookup_1 _ _ _ _ Hrun Hx).
      replace (length pre + length done_ + 1)%nat with (length pre + length (done_ ++ [x]))%nat by (rewrite length_app; cbn; lia).
      apply (IH (done_ ++ [x]) todo); [by rewrite <-app_assoc|cbn in Hf; lia]. }
  rewrite <-(Nat.add_0_r (length pre)) at 1. change 0%nat with (length (@nil Z)) at 1. rewrite (H _ [] run); [done|done|]. rewrite !length_app. cbn. lia.
Qed.

Lemma pieces_run sep cur r l : Forall (fun c => c <> sep) r -> pieces sep cur (r ++ l) = pieces sep (cur ++ r) l.
Proof.
  intros H. revert cur. induction H as [|c r Hc _ IH]; intros cur; [by rewrite app_nil_r|]. cbn [app pieces].
  rewrite (proj2 (Z.eqb_neq c sep)) by done. rewrite IH. by rewrite <-app_assoc.
Qed.

Lemma pieces_seps sep ss l : Forall (fun c => c = sep) ss -> pieces sep [] (ss ++ l) = pieces sep [] l.
Proof. induction 1 as [|c ss -> _ IH]; [done|]. cbn [app pieces]. by rewrite Z.eqb_refl. Qed.

(** The first part of a text, behind the separators before it. *)
Lemma first_run (test : Z -> bool) l : exists run rest, l = run ++ rest /\ Forall (fun c => test c = true) run /\ (forall c post, rest = c :: post -> test c = false).
Proof.
  induction l as [|c l (run & rest & -> & Hr & Hs)]; [by exists [], []|]. destruct (test c) eqn:E.
  - exists (c :: run), rest. split; [done|]. split; [by constructor|done].
  - exists [], (c :: run ++ rest). split; [done|]. split; [constructor|]. by intros ? ? [= <- _].
Qed.

Definition at_end_or (test : Z -> bool) (rest : list Z) : Prop := forall c post, rest = c :: post -> test c = true.

Lemma first_part l : Forall (fun c => c <> 0) l -> exists seg rest, l = seg ++ rest /\ Forall (fun c => in_segment c = true) seg /\ at_end_or is_slash rest
  /\ pieces 47 [] l = part seg ++ pieces 47 [] rest.
Proof.
  intros H0. destruct (first_run in_segment l) as (seg & rest & -> & Hseg & Hstop). exists seg, rest. split; [done|]. split; [done|].
  apply Forall_app in H0 as [_ H0]. assert (Hs : at_end_or is_slash rest).
  { intros c post ->. pose proof (Hstop c post eq_refl) as Hc. apply Forall_cons in H0 as [Hz _]. unfold in_segment, is_slash in *. destruct (Z.eqb_spec c 0), (Z.eqb_spec c 47); done. }
  split; [done|]. rewrite pieces_run. 2:{ eapply Forall_impl; [exact Hseg|]. cbn. intros c Hc. unfold in_segment in Hc. lia. }
  cbn [app]. destruct rest as [|c post]; [cbn; by rewrite app_nil_r|]. pose proof (Hs c post eq_refl) as Hc. unfold is_slash in Hc. cbn [pieces]. rewrite Hc. done.
Qed.

Lemma skip_slashes l : Forall (fun c => c <> 0) l -> exists ss rest, l = ss ++ rest /\ Forall (fun c => is_slash c = true) ss /\ at_end_or in_segment rest
  /\ pieces 47 [] l = pieces 47 [] rest.
Proof.
  intros H0. destruct (first_run is_slash l) as (ss & rest & -> & Hss & Hstop). exists ss, rest. split; [done|]. split; [done|].
  apply Forall_app in H0 as [_ H0]. split.
  - intros c post ->. pose proof (Hstop c post eq_refl) as Hc. apply Forall_cons in H0 as [Hz _]. unfold in_segment, is_slash in *. lia.
  - apply pieces_seps. eapply Forall_impl; [exact Hss|]. cbn. unfold is_slash. lia.
Qed.

(** Scans over a terminated text. *)
Lemma scan_text test text pre run rest post : text = (pre ++ run ++ rest) ++ 0 :: post -> Forall (fun c => test c = true) run ->
  (forall c p, rest = c :: p -> test c = false) -> test 0 = false -> scan_while test text (length pre) = Done (length pre + length run)%nat.
Proof.
  intros -> Hrun Hrest H0. rewrite <-!app_assoc. destruct rest as [|c p].
  - by apply (scan_while_ok test _ pre run 0 post).
  - apply (scan_while_ok test _ pre run c (p ++ 0 :: post)); [done|done|]. by eapply Hrest.
Qed.

(** ** Options in order *)

Lemma filter_nothing {A} (P : A -> Prop) `{!forall x, Decision (P x)} l : Forall (fun x => ~ P x) l -> filter P l = [].
Proof. induction 1; [done|]. by rewrite filter_cons_False. Qed.

Lemma filter_everything {A} (P : A -> Prop) `{!forall x, Decision (P x)} l : Forall P l -> filter P l = l.
Proof. induction 1 as [|x l Hx _ IH]; [done|]. by rewrite filter_cons_True, IH. Qed.

Lemma ascending_split n l : ascending l -> l = filter (fun y => y.1 <= n) l ++ filter (fun y => n < y.1) l.
Proof.
  induction 1 as [|x l Hl IH Hx]; [done|]. destruct (decide (x.1 <= n)) as [H|H].
  - rewrite filter_cons_True by done. rewrite (filter_cons_False (fun y => n < y.1)) by (cbn; lia). cbn [app]. by rewrite <-IH.
  - assert (Hall : Forall (fun y : Z * list Z => n < y.1) l) by (eapply Forall_impl; [exact Hx|]; cbn; lia).
    rewrite filter_cons_False by done. rewrite (filter_cons_True (fun y => n < y.1)) by (cbn; lia).
    assert (E : filter (fun y : Z * list Z => y.1 <= n) l = []).
    { apply filter_nothing. eapply Forall_impl; [exact Hall|]. cbn. lia. }
    rewrite E in IH |- *. cbn [app] in *. by rewrite <-IH.
Qed.

Lemma ascending_app a b : ascending a -> ascending b -> (forall x y, x ∈ a -> y ∈ b -> x.1 <= y.1) -> ascending (a ++ b).
Proof.
  induction 1 as [|x a Ha IH Hx]; intros Hb Hab; [done|]. cbn [app]. constructor.
  - apply IH; [done|]. intros y z Hy Hz. apply Hab; [by right|done].
  - apply Forall_app_2; [done|]. apply Forall_forall. intros y Hy. apply Hab; [by left|done].
Qed.

Lemma ascending_filter (P : Z * list Z -> Prop) `{!forall x, Decision (P x)} l : ascending l -> ascending (filter P l).
Proof.
  induction 1 as [|x l Hl IH Hx]; [constructor|]. destruct (decide (P x)).
  - rewrite filter_cons_True by done. constructor; [done|]. apply Forall_forall. intros y [_ Hy]%list_elem_of_filter. rewrite Forall_forall in Hx. by apply Hx.
  - by rewrite filter_cons_False.
Qed.

Lemma place_option_ascending x l : ascending l -> ascending (place_option x l).
Proof.
  intros Hl. unfold place_option. apply ascending_app; [by apply ascending_filter| |].
  - constructor; [by apply ascending_filter|]. apply Forall_forall. intros y [Hy _]%list_elem_of_filter. lia.
  - intros y z [Hy _]%list_elem_of_filter. rewrite elem_of_cons, list_elem_of_filter. intros [->|[Hz _]]; cbn in *; lia.
Qed.

Lemma length_place_option x l : ascending l -> length (place_option x l) = S (length l).
Proof.
  intros Hl. rewrite (ascending_split x.1 l Hl) at 2. unfold place_option. rewrite !length_app. cbn [length]. lia.
Qed.

Section Refine.
Context (MaxOptions OptionValueCapacity PayloadCapacity : nat).
Local Abbreviation holds := (holds MaxOptions OptionValueCapacity PayloadCapacity).
Local Abbreviation opt_sized := (opt_sized OptionValueCapacity).

Lemma make_room_ok os xs ys num tail : Forall2 opt_is os (xs ++ ys) -> Forall (fun y => num < y.1) ys -> (forall x, last xs = Some x -> x.1 <= num) -> tail <> [] ->
  Forall opt_sized (os ++ tail) ->
  exists hole, opt_sized hole /\ make_room (os ++ tail) (length os) num = Done (take (length xs) os ++ hole :: drop (length xs) os ++ drop 1 tail, length xs).
Proof.
  intros Hall Hys Hxs Htail Hsz. apply Forall2_app_inv_r in Hall as (oa & ob & Ha & Hb & ->).
  pose proof (Forall2_length _ _ _ Ha) as La. pose proof (Forall2_length _ _ _ Hb) as Lb.
  rewrite <-La, take_app_length, drop_app_length. destruct tail as [|t tail]; [done|]. change (drop 1 (t :: tail)) with tail. clear Htail.
  unfold make_room.
  match goal with |- context [while_loop _ ?c ?b _] =>
    assert (H : forall b1 fuel b2 hole, ob = b1 ++ b2 -> (length b1 < fuel)%nat -> opt_sized hole ->
      exists hole', opt_sized hole' /\ while_loop (R := Empty_set) fuel c b (oa ++ b1 ++ hole :: b2 ++ tail, (length oa + length b1)%nat)
        = Done (Next (oa ++ hole' :: ob ++ tail, length oa))) end.
  { induction b1 as [|o b1 IH] using rev_ind; intros fuel b2 hole E Hf Hh; (destruct fuel as [|fuel]; [lia|]); cbn [while_loop].
    - cbn [app length] in *. subst b2. rewrite Nat.add_0_r. exists hole. split; [done|]. destruct (Nat.ltb_spec 0 (length oa)) as [Hpos|Hz]; [|done].
      destruct (last_is_Some oa) as [_ [o Ho]]; [intros ->; cbn in Hpos; lia|]. pose proof Ho as Hl. rewrite last_lookup in Ho. replace (pred (length oa)) with (length oa - 1)%nat in Ho by lia.
      rewrite (load_Done _ _ o) by (by apply lookup_app_l_Some). rewrite bind_Done.
      destruct (Forall2_lookup_l _ _ _ _ _ Ha Ho) as (x & Hx & Hox). assert (Hlx : last xs = Some x) by (rewrite last_lookup, <-La; by replace (pred (length oa)) with (length oa - 1)%nat by lia).
      destruct Hox as [-> _]. pose proof (Hxs x Hlx) as Hle. rewrite (proj2 (Z.ltb_ge _ _)) by done. done.
    - rewrite length_app in *. cbn [length] in *. rewrite (proj2 (Nat.ltb_lt _ _)) by lia.
      replace (length oa + (length b1 + 1) - 1)%nat with (length oa + length b1)%nat by lia.
      rewrite <-!app_assoc. cbn [app].
      assert (Hload : load (oa ++ b1 ++ o :: hole :: b2 ++ tail) (length oa + length b1) = Done o).
      { apply load_Done. rewrite app_assoc. rewrite lookup_app_r by (rewrite length_app; lia). rewrite length_app, Nat.sub_diag. done. }
      rewrite Hload, !bind_Done. subst ob.
      assert (Ho : exists y, opt_is o y /\ num < y.1).
      { rewrite <-app_assoc in Hb. apply Forall2_app_inv_l in Hb as (y1 & y2 & _ & Hy & ->). cbn [app] in Hy. inversion Hy as [|? y ? ? Hoy]; subst. exists y. split; [done|].
        apply Forall_app in Hys as [_ Hy2]. by apply Forall_cons in Hy2 as [? _]. }
      destruct Ho as (y & [-> _] & Hlt). rewrite (proj2 (Z.ltb_lt _ _)) by done. rewrite ?Hload, ?bind_Done.
      rewrite store_Done by (rewrite !length_app; cbn; lia). rewrite bind_Done.
      assert (Hso : opt_sized o). { apply Forall_app in Hsz as [Hsz _]. apply Forall_app in Hsz as [_ Hsz]. apply Forall_app in Hsz as [Hsz _]. apply Forall_app in Hsz as [_ Hsz]. by apply Forall_cons in Hsz as [? _]. }
      destruct (IH fuel (o :: b2) o) as (hole' & Hh' & E'); [by rewrite <-app_assoc|lia|done|]. exists hole'. split; [done|]. etransitivity; [|exact E']. do 2 f_equal.
      rewrite app_assoc, insert_app_r_alt by (rewrite length_app; lia). rewrite length_app. replace (length oa + (length b1 + 1) - (length oa + length b1))%nat with 1%nat by lia.
      cbn [insert list_insert]. by rewrite <-app_assoc. }
  destruct (H ob (S (length (oa ++ ob))) [] t) as (hole & Hh & E); [by rewrite app_nil_r|rewrite length_app; lia| |].
  { apply Forall_app in Hsz as [_ Hsz]. by apply Forall_cons in Hsz as [? _]. }
  exists hole. split; [done|]. rewrite <-app_assoc, length_app. cbn [app] in E |- *. rewrite length_app in E. rewrite E. done.
Qed.

Lemma opt_is_wrote num v buffer : (length v <= length buffer)%nat -> opt_is (mk_option num (length v) (wrote buffer 0 v)) (num, v).
Proof. intros H. unfold opt_is. cbn [number length_ value fst snd]. split_and!; [done|done|by apply take_wrote]. Qed.

Lemma append_option_ok m a num bytes count v : holds m a -> ascending (c_options a) -> octets_of bytes count = Some v -> readable bytes count ->
  exists m', append_option MaxOptions OptionValueCapacity m num bytes count = Done ((spec_append MaxOptions OptionValueCapacity a num v).1, m')
    /\ holds m' (spec_append MaxOptions OptionValueCapacity a num v).2.
Proof.
  intros Hm Hasc Hv Hr. unfold append_option, spec_append. rewrite octets_null, Hv. rewrite bool_decide_eq_false_2 by done. rewrite orb_false_r.
  pose proof (octets_length _ _ _ Hv Hr) as El. subst count. destruct (num =? 0); [by exists m|]. destruct (Nat.ltb_spec OptionValueCapacity (length v)) as [|Hcap]; [by exists m|].
  destruct Hm as ((Ht & Ho & Hsz & Hp) & E1 & E2 & E3 & E4 & Htok & Hpay & Hc & Hle & Hall). rewrite Hc.
  destruct (Nat.leb_spec MaxOptions (length (c_options a))) as [|Hroom].
  { exists m. split; [done|]. unfold CoapMessage.holds, shaped. rewrite Hc. auto 20. }
  set (n := length (c_options a)) in *. rewrite <-(take_drop n (options m)) in Hsz |- *.
  assert (Hn : length (take n (options m)) = n) by (rewrite length_take; lia).
  pose proof (ascending_split num (c_options a) Hasc) as Esplit. rewrite Esplit in Hall.
  set (xs := filter (fun y => y.1 <= num) (c_options a)) in *. set (ys := filter (fun y => num < y.1) (c_options a)) in *.
  destruct (make_room_ok (take n (options m)) xs ys num (drop n (options m))) as (hole & Hh & E).
  - done.
  - apply Forall_forall. by intros y [? _]%list_elem_of_filter.
  - intros x Hx%last_Some_elem_of. by apply list_elem_of_filter in Hx as [? _].
  - intros E%(f_equal length). rewrite length_drop in E. cbn in E. lia.
  - done.
  - rewrite Hn in E. rewrite E, bind_Done.
    assert (Hx : (length xs <= n)%nat) by (subst n; rewrite Esplit, length_app; lia).
    set (pre := take (length xs) (take n (options m))) in *. set (post := drop (length xs) (take n (options m))) in *.
    assert (Lp : length pre = length xs) by (subst pre; rewrite length_take; lia).
    rewrite (load_Done _ _ hole) by (rewrite lookup_app_r by lia; by rewrite Lp, Nat.sub_diag). rewrite bind_Done.
    rewrite (copy_octets_ok _ _ v) by (done || (unfold CoapMessage.opt_sized in Hh; lia)). rewrite bind_Done.
    rewrite store_Done by (rewrite length_app, Lp; cbn; lia). rewrite bind_Done. eexists. split; [done|].
    rewrite insert_app_r_alt, Lp, Nat.sub_diag by lia. cbn [insert list_insert snd].
    unfold CoapMessage.holds, shaped. cbn [options option_count with_options set_options c_options version type code_value message_id token token_length payload payload_size c_version c_type c_code c_id c_token c_payload].
    rewrite length_place_option by done. fold n.
    assert (Hw : opt_is (mk_option num (length v) (wrote (value hole) 0 v)) (num, v)) by (apply opt_is_wrote; unfold CoapMessage.opt_sized in Hh; lia).
    assert (Lpost : length post = (n - length xs)%nat) by (subst post; rewrite length_drop, Hn; done).
    split_and!; [done| | |done|done|done|done|done|done|done|lia|lia|].
    + rewrite length_app. cbn [length]. rewrite length_app, Lp, Lpost, !length_drop. lia.
    + apply Forall_app in Hsz as [Hs1 Hs2]. apply Forall_app_2; [by apply Forall_take|]. constructor.
      * unfold CoapMessage.opt_sized. cbn [value]. rewrite length_wrote; unfold CoapMessage.opt_sized in Hh; lia.
      * apply Forall_app_2; by apply Forall_drop.
    + unfold place_option. cbn [fst]. fold xs ys. assert (Hpre : Forall2 opt_is pre xs /\ Forall2 opt_is post ys).
      { split; [rewrite <-(take_app_length xs ys)|rewrite <-(drop_app_length xs ys)]; [by apply Forall2_take|by apply Forall2_drop]. }
      rewrite take_app_ge by lia. replace (S n - length pre)%nat with (S (length post)) by lia. cbn [take firstn]. rewrite take_app_length.
      destruct Hpre. apply Forall2_app; [done|by constructor].
Qed.

(** A message in order, and what an operation with its status leaves of it. *)
Definition good (m : message) (a : coap) : Prop := holds m a /\ ascending (c_options a).
Definition leaves (x : exec (status * message)) (r : status * coap) : Prop := exists m', x = Done (r.1, m') /\ good m' r.2.

Lemma append_option_good m a num bytes count v : good m a -> octets_of bytes count = Some v -> readable bytes count ->
  leaves (append_option MaxOptions OptionValueCapacity m num bytes count) (spec_append MaxOptions OptionValueCapacity a num v).
Proof.
  intros [Hm Ha] Hv Hr. destruct (append_option_ok m a num bytes count v Hm Ha Hv Hr) as (m' & E & Hm'). exists m'. split; [done|]. split; [done|].
  unfold spec_append. repeat case_match; try done. cbn. by apply place_option_ascending.
Qed.

Lemma append_uint_option_ok m a num v : good m a -> u32 v ->
  leaves (append_uint_option MaxOptions OptionValueCapacity m num v) (spec_append MaxOptions OptionValueCapacity a num (uint_octets v)).
Proof.
  intros Hg Hv. unfold append_uint_option.
  match goal with |- context [while_loop 5 ?c ?b _] =>
    assert (H : forall fuel k ds r, (4 - k < fuel)%nat -> (k <= 4)%nat -> length ds = k -> 0 <= r -> 256 ^ Z.of_nat k * r < 2 ^ 32 ->
      exists k' r', (k' <= 4)%nat /\ length (ds ++ digits256 (4 - k) r) = k' /\
        while_loop (R := Empty_set) fuel c b (replicate (4 - k) 0 ++ reverse ds, r, k)
        = Done (Next (replicate (4 - k') 0 ++ reverse (ds ++ digits256 (4 - k) r), r', k'))) end.
  { induction fuel as [|fuel IH]; intros k ds r Hf Hk Hl Hr Hb; [lia|]. cbn [while_loop].
    destruct (Z.eqb_spec r 0) as [->|Hne]; cbn [negb andb].
    - exists k, 0. assert (E : digits256 (4 - k) 0 = []) by (by destruct (4 - k)%nat). rewrite E, app_nil_r. done.
    - destruct (Nat.ltb_spec k 4) as [Hlt|Hge].
      + rewrite store_Done by (rewrite length_app, length_replicate; lia). rewrite bind_Done.
        destruct (IH (S k) (ds ++ [r mod 256]) (Z.shiftr r 8)) as (k' & r' & Hk' & Hl' & E).
        { lia. } { lia. } { rewrite length_app. cbn. lia. } { by apply Z.shiftr_nonneg. }
        { rewrite Z.shiftr_div_pow2 by lia. rewrite Nat2Z.inj_succ, Z.pow_succ_r by lia. change (2 ^ 8) with 256. pose proof (Z.mul_div_le r 256 ltac:(lia)).
          assert (0 < 256 ^ Z.of_nat k) by (apply Z.pow_pos_nonneg; lia). nia. }
        exists k', r'. split; [done|]. assert (Ed : digits256 (4 - k) r = r mod 256 :: digits256 (4 - S k) (Z.shiftr r 8)).
        { replace (4 - k)%nat with (S (4 - S k)) by lia. cbn [digits256]. rewrite (proj2 (Z.eqb_neq r 0)) by done. by rewrite Z.shiftr_div_pow2 by lia. }
        rewrite Ed. change (r mod 256 :: digits256 (4 - S k) (Z.shiftr r 8)) with ([r mod 256] ++ digits256 (4 - S k) (Z.shiftr r 8)). rewrite app_assoc. split; [done|].
        etransitivity; [|exact E]. rewrite Nat.add_1_r. do 3 f_equal.
        replace (4 - k)%nat with (S (4 - S k)) by lia. rewrite replicate_S_end, <-app_assoc. replace (3 - k)%nat with (4 - S k)%nat by lia.
        rewrite insert_app_r_alt by (rewrite length_replicate; lia). rewrite length_replicate, Nat.sub_diag. cbn [app insert list_insert]. by rewrite reverse_app.
      + exists k, r. assert (k = 4)%nat as -> by lia. cbn [Nat.sub digits256]. rewrite app_nil_r. done. }
  destruct (H 5%nat 0%nat [] v) as (k & r & Hk & Hl & E); [lia|lia|done|apply Hv|rewrite Z.mul_1_l; apply Hv|].
  cbn [Nat.sub app] in E, Hl. change (replicate 4 0 ++ reverse []) with (replicate 4 0) in E. rewrite E. cbn [settled]. rewrite bind_Done.
  fold (uint_octets v). rewrite <-(length_replicate (4 - k) 0) at 1. rewrite drop_app_length.
  assert (Hu : length (uint_octets v) = k) by (unfold uint_octets; by rewrite length_reverse).
  apply append_option_good; [done| |destruct (k =? 0)%nat; cbn [readable]; [done|by rewrite Hu]].
  destruct (Nat.eqb_spec k 0) as [->|Hne].
  - cbn [octets_of Nat.eqb]. f_equal. symmetry. by apply nil_length_inv.
  - cbn [octets_of]. by rewrite <-Hu, firstn_all.
Qed.

Lemma append_string_option_ok m a num t : good m a -> 0 ∈ t ->
  leaves (append_string_option MaxOptions OptionValueCapacity m num (Some t)) (spec_message_op MaxOptions OptionValueCapacity PayloadCapacity a (M_string num (Some t))).
Proof.
  intros Hg (post & Et & H0)%c_text_split. unfold append_string_option, spec_message_op. set (s := c_text t) in *.
  match goal with |- context [while_loop _ ?c ?b _] =>
    assert (H : forall fuel k, (OptionValueCapacity + 1 - k < fuel)%nat -> (k <= length s)%nat -> (k <= OptionValueCapacity + 1)%nat ->
      while_loop (R := Empty_set) fuel c b k = Done (Next (Nat.min (length s) (OptionValueCapacity + 1)))) end.
  { induction fuel as [|fuel IH]; intros k Hf Hk Hc; [lia|]. cbn [while_loop]. destruct (decide (k = length s)) as [->|Hne].
    - rewrite (load_Done t _ 0) by (rewrite Et; by apply list_lookup_middle). rewrite bind_Done. cbn. do 2 f_equal. lia.
    - destruct (lookup_lt_is_Some_2 s k) as [c Hx]; [lia|]. rewrite (load_Done t _ c) by (rewrite Et; by apply lookup_app_l_Some). rewrite bind_Done.
      rewrite (proj2 (Z.eqb_neq c 0)) by (by apply (Forall_lookup_1 _ _ _ _ H0 Hx)). cbn [negb andb]. destruct (Nat.leb_spec k OptionValueCapacity).
      + apply IH; lia.
      + do 2 f_equal. lia. }
  rewrite H by lia. cbn [settled]. rewrite bind_Done. clear H.
  destruct (Nat.ltb_spec OptionValueCapacity (length s)) as [Hlt|Hge].
  - rewrite (proj2 (Nat.ltb_lt _ _)) by lia. by exists m.
  - rewrite (proj2 (Nat.ltb_ge _ _)) by lia. rewrite Nat.min_l by lia. apply append_option_good; [done| |]; cbn.
    + by rewrite Et, take_app_length.
    + rewrite Et, length_app. lia.
Qed.

Lemma slash_no_segment c : is_slash c = true -> in_segment c = false.
Proof. unfold is_slash, in_segment. lia. Qed.

Lemma segment_no_slash c : in_segment c = true -> is_slash c = false.
Proof. unfold is_slash, in_segment. lia. Qed.

Lemma c_text_slice t post pre v rest : t = (pre ++ v ++ rest) ++ 0 :: post -> octets_of (Some (drop (length pre) t)) (length v) = Some v /\ readable (Some (drop (length pre) t)) (length v).
Proof.
  intros ->. rewrite <-!app_assoc, drop_app_length. cbn [octets_of readable]. rewrite take_app_length. split; [done|]. rewrite length_app. lia.
Qed.

Lemma spec_append_cases a num v : let r := spec_append MaxOptions OptionValueCapacity a num v in r.1 = s_ok \/ succeeded r.1 = false /\ r.2 = a.
Proof. unfold spec_append. repeat case_match; cbn; auto. Qed.

Lemma append_uri_path_ok m a t : good m a -> 0 ∈ t ->
  leaves (append_uri_path MaxOptions OptionValueCapacity m (Some t)) (spec_append_all MaxOptions OptionValueCapacity a opt_uri_path (pieces 47 [] (c_text t))).
Proof.
  intros Hg (post & Et & H0)%c_text_split. unfold append_uri_path. set (s := c_text t) in *.
  match goal with |- context [while_loop _ ?c ?b _] =>
    assert (H : forall fuel pre rest m a, s = pre ++ rest -> (length rest < fuel)%nat -> good m a -> at_end_or in_segment rest ->
      leaves (after (while_loop fuel c b (length pre, m)) (fun '(_, m) => Done (s_ok, m))) (spec_append_all MaxOptions OptionValueCapacity a opt_uri_path (pieces 47 [] rest))) end.
  { clear m a Hg. induction fuel as [|fuel IH]; intros pre rest m a E Hf Hg Hst; [lia|]. cbn [while_loop]. destruct rest as [|x rest].
    - rewrite app_nil_r in E. subst pre. rewrite (load_Done t _ 0) by (rewrite Et; by apply list_lookup_middle). rewrite bind_Done. cbn. exists m. split; [done|exact Hg].
    - assert (Hx : s !! length pre = Some x) by (rewrite E; by apply list_lookup_middle).
      rewrite (load_Done t _ x) by (rewrite Et; by apply lookup_app_l_Some). rewrite bind_Done, (proj2 (Z.eqb_neq x 0)) by (by apply (Forall_lookup_1 _ _ _ _ H0 Hx)). cbn [negb].
      pose proof H0 as Hrest. rewrite E in Hrest. apply Forall_app in Hrest as [_ Hrest].
      destruct (first_part (x :: rest) Hrest) as (seg & rest3 & Er & Hseg & Hs3 & Hp).
      assert (Hne : seg <> []). { intros ->. cbn [app] in Er. pose proof (Hst x rest eq_refl) as H1. pose proof (Hs3 x rest (eq_sym Er)) as H2. apply slash_no_segment in H2. congruence. }
      rewrite Er in E, Hrest, Hf |- *. rewrite Er in Hp. rewrite Hp. clear Er. apply Forall_app in Hrest as [_ H3].
      rewrite (scan_text in_segment t pre seg rest3 post) by (first [done|by rewrite Et, E|intros c p Hc; by apply slash_no_segment, (Hs3 c p)]). rewrite bind_Done.
      assert (Hl : (0 < length seg)%nat) by (destruct seg; [done|cbn; lia]).
      rewrite (proj2 (Nat.eqb_neq _ _)) by lia. cbn [negb]. rewrite Nat.add_sub'.
      destruct (c_text_slice t post pre seg rest3) as [Hv Hr]; [by rewrite Et, E|].
      destruct (append_option_good m a opt_uri_path _ _ seg Hg Hv Hr) as (m1 & -> & Hg1). rewrite bind_Done.
      destruct seg as [|y seg]; [done|]. cbn [part app spec_append_all]. set (v := y :: seg) in *.
      destruct (spec_append_cases a opt_uri_path v) as [Hok|[Hbad _]].
      + destruct (spec_append _ _ a opt_uri_path v) as [st a1]. cbn [fst snd] in *. subst st. cbn [succeeded bool_decide]. change (succeeded s_ok) with true. cbn [negb].
        destruct (skip_slashes rest3 H3) as (ss & rest4 & -> & Hss & Hs4 & Hp4). rewrite Hp4.
        rewrite <-length_app, (scan_text is_slash t (pre ++ v) ss rest4 post) by (first [done|by rewrite Et, E, <-!app_assoc|intros c p Hc; by apply segment_no_slash, (Hs4 c p)]).
        rewrite bind_Done, <-length_app. apply IH; [by rewrite E, <-!app_assoc| |done|done]. rewrite !length_app in *. lia.
      + destruct (spec_append _ _ a opt_uri_path v) as [st a1]. cbn [fst snd] in *. rewrite Hbad. cbn [negb after]. destruct st; try done; by exists m1. }
  destruct (skip_slashes s H0) as (ss & rest & E & Hss & Hs & Hp). rewrite Hp.
  change 0%nat with (length (@nil Z)). rewrite (scan_text is_slash t [] ss rest post) by (first [done|by rewrite Et, E|intros c p Hc; by apply segment_no_slash, (Hs c p)]).
  rewrite bind_Done. cbn [length Nat.add]. apply H; [done| |done|done]. rewrite Et, E, !length_app. cbn. lia.
Qed.

Lemma append_uri_query_ok m a t : good m a -> 0 ∈ t ->
  leaves (append_uri_query MaxOptions OptionValueCapacity m (Some t)) (spec_append_all MaxOptions OptionValueCapacity a opt_uri_query (pieces 38 [] (c_text t))).
Proof.
  intros Hg (post & Et & H0)%c_text_split. unfold append_uri_query. set (s := c_text t) in *.
  match goal with |- context [while_loop _ ?c ?b _] =>
    assert (H : forall fuel pre cur rest m a, s = pre ++ cur ++ rest -> (length rest < fuel)%nat -> good m a ->
      leaves (after (while_loop fuel c b (length pre, (length pre + length cur)%nat, m)) (fun '(_, _, m) => Done (s_ok, m)))
        (spec_append_all MaxOptions OptionValueCapacity a opt_uri_query (pieces 38 cur rest))) end.
  { clear m a Hg. induction fuel as [|fuel IH]; intros pre cur rest m a E Hf Hg; [lia|]. cbn [while_loop].
    set (c := match rest with [] => 0 | c :: _ => c end).
    assert (Hload : load t (length pre + length cur) = Done c).
    { apply load_Done. rewrite Et, E, <-!app_assoc, app_assoc, <-length_app. destruct rest; by apply list_lookup_middle. }
    rewrite Hload, bind_Done. clear Hload.
    assert (Hflush : leaves (if negb (length pre + length cur =? length pre)%nat then append_option MaxOptions OptionValueCapacity m opt_uri_query (Some (drop (length pre) t)) (length pre + length cur - length pre)
        else Done (s_ok, m)) (spec_append_all MaxOptions OptionValueCapacity a opt_uri_query (part cur))).
    { destruct cur as [|y cur]; cbn [part spec_append_all].
      - rewrite Nat.add_0_r, Nat.eqb_refl. cbn. by exists m.
      - rewrite (proj2 (Nat.eqb_neq _ _)) by (cbn; lia). cbn [negb]. rewrite Nat.add_sub'. destruct (c_text_slice t post pre (y :: cur) rest) as [Hv Hr]; [by rewrite Et, E|].
        pose proof (append_option_good m a opt_uri_query _ _ (y :: cur) Hg Hv Hr) as Hl. destruct (spec_append _ _ a opt_uri_query (y :: cur)) as [[] a1]; exact Hl. }
    assert (Hdone : forall ps, spec_append_all MaxOptions OptionValueCapacity a opt_uri_query (part cur ++ ps)
        = let r := spec_append_all MaxOptions OptionValueCapacity a opt_uri_query (part cur) in if succeeded r.1 then spec_append_all MaxOptions OptionValueCapacity r.2 opt_uri_query ps else r).
    { intros ps. destruct cur as [|y cur]; cbn [part app spec_append_all]; [done|]. by destruct (spec_append _ _ a opt_uri_query (y :: cur)) as [[] a1]. }
    destruct rest as [|x rest]; subst c; cbn [pieces].
    - cbn [Z.eqb orb]. destruct Hflush as (m1 & -> & Hg1). rewrite bind_Done. clear Hdone.
      destruct (spec_append_all _ _ a opt_uri_query (part cur)) as [st a1]. destruct st; by exists m1.
    - assert (Hx : x <> 0). { rewrite E in H0. apply Forall_app in H0 as [_ H0]. apply Forall_app in H0 as [_ H0]. by apply Forall_cons in H0 as [? _]. }
      rewrite (proj2 (Z.eqb_neq x 0)), orb_false_r by done. destruct (x =? 38) eqn:Ex.
      + destruct Hflush as (m1 & -> & Hg1). rewrite bind_Done, Hdone. cbv zeta. destruct (succeeded _) eqn:Es; cbn [negb]; [|by exists m1].
        replace (length pre + length cur + 1)%nat with (length (pre ++ cur ++ [x])) by (rewrite !length_app; cbn; lia).
        pose proof (IH (pre ++ cur ++ [x]) [] rest m1 _ ltac:(by rewrite E, <-!app_assoc) ltac:(cbn in Hf; lia) Hg1) as Hi. cbn [length] in Hi. rewrite Nat.add_0_r in Hi. exact Hi.
      + replace (length pre + length cur + 1)%nat with (length pre + length (cur ++ [x]))%nat by (rewrite !length_app; cbn; lia).
        apply (IH pre (cur ++ [x]) rest m a); [by rewrite E, <-!app_assoc|cbn in Hf; lia|done]. }
  change (0%nat, 0%nat, m) with (length (@nil Z), (length (@nil Z) + length (@nil Z))%nat, m). apply (H _ [] [] s); [done| |done]. rewrite Et, length_app. cbn. lia.
Qed.

Lemma option_lookup m a i x : holds m a -> c_options a !! i = Some x -> exists o, options m !! i = Some o /\ opt_is o x.
Proof.
  intros (_ & _ & _ & _ & _ & _ & _ & _ & _ & Hall) Hx. destruct (Forall2_lookup_r _ _ _ _ _ Hall Hx) as (o & Ho & Hox).
  apply lookup_take_Some in Ho as [Ho _]. by exists o.
Qed.

Lemma find_option_ok m a num : good m a -> find_option m num = Done (fst <$> list_find (fun x => x.1 = num) (c_options a)).
Proof.
  intros [Hm Ha]. unfold find_option.
  assert (H : forall n i, (i + n = length (c_options a))%nat -> Forall (fun x => x.1 <> num) (take i (c_options a)) ->
    after (for_range i n (fun i _ => o ← load (options m) i; if number o =? num then Done (Return (Some i)) else if num <? number o then Done (Return None) else Done (Next tt)) tt) (fun _ => Done None)
    = Done (fst <$> list_find (fun x => x.1 = num) (c_options a))).
  { induction n as [|n IH]; intros i Hi Hpre; cbn [for_range after].
    - rewrite take_ge in Hpre by lia. symmetry. rewrite (proj2 (list_find_None _ _)); done.
    - destruct (lookup_lt_is_Some_2 (c_options a) i) as [x Hx]; [lia|]. destruct (option_lookup m a i x Hm Hx) as (o & Ho & Hn & _).
      rewrite (load_Done _ _ _ Ho), bind_Done, Hn. destruct (Z.eqb_spec x.1 num) as [E|NE].
      + cbn [after]. rewrite (proj2 (list_find_Some _ _ i x)); [done|]. split_and!; [done|done|]. intros j y Hj Hji. rewrite Forall_lookup in Hpre. apply (Hpre j). by rewrite lookup_take_lt.
      + destruct (Z.ltb_spec num x.1) as [Hlt|Hge].
        * cbn [after]. rewrite (proj2 (list_find_None _ _)); [done|]. rewrite <-(take_drop i (c_options a)). apply Forall_app_2; [done|].
          rewrite <-(take_drop i (c_options a)) in Ha. rewrite (drop_S _ _ _ Hx) in Ha |- *. constructor; [done|].
          assert (Hs : ascending (x :: drop (S i) (c_options a))). { clear -Ha. induction (take i (c_options a)) as [|y l IH]; [done|]. apply IH. by inversion Ha. }
          inversion Hs as [|? ? _ Hall]; subst. eapply Forall_impl; [exact Hall|]. cbn. lia.
        * apply IH; [lia|]. rewrite (take_S_r _ _ _ Hx). apply Forall_app_2; [done|by constructor]. }
  assert (Hc : option_count m = length (c_options a)) by apply Hm. rewrite Hc. by apply H.
Qed.

(** Do the segments agree with the values of the options?  Behind the end of the path an
    empty value agrees. *)
Fixpoint agree (segs vals : list (list Z)) : bool :=
  match vals, segs with
  | [], [] => true
  | [], _ :: _ => false
  | v :: vals, [] => bool_decide (v = []) && agree [] vals
  | v :: vals, s :: segs => bool_decide (v = s) && agree segs vals
  end.

Lemma agree_iff segs vals : agree segs vals = true <-> exists k, vals = segs ++ replicate k [].
Proof.
  revert segs. induction vals as [|v vals IH]; intros [|s segs]; cbn [agree].
  - split; [by exists 0%nat|done].
  - split; [done|]. by intros [k E].
  - rewrite andb_true_iff, bool_decide_eq_true, IH. split; [intros [-> [k ->]]; by exists (S k)|]. intros [[|k] E]; [done|]. injection E as -> ->. split; [done|by exists k].
  - rewrite andb_true_iff, bool_decide_eq_true, IH. split; [intros [-> [k ->]]; by exists k|]. intros [k E]. injection E as -> ->. split; [done|by exists k].
Qed.

(** The comparison of a segment with a value of its length. *)
Lemma compare_ok text pre seg rest val buffer : text = pre ++ seg ++ rest -> length seg = length val -> take (length val) buffer = val ->
  for_range 0 (length seg) (fun j _ => c ← load text (length pre + j); v ← load buffer j; if negb (c =? v) then Done (Return false) else Done (Next tt)) tt
  = Done (if bool_decide (seg = val) then Next tt else Return false).
Proof.
  intros Et Hl Hb.
  assert (H : forall n i, (i + n = length seg)%nat -> for_range i n (fun j _ => c ← load text (length pre + j); v ← load buffer j; if negb (c =? v) then Done (Return false) else Done (Next tt)) tt
    = Done (if bool_decide (drop i seg = drop i val) then Next tt else @Return bool unit false)).
  { induction n as [|n IH]; intros i Hi; cbn [for_range]; [rewrite !drop_ge by lia; by rewrite bool_decide_eq_true_2|].
    destruct (lookup_lt_is_Some_2 seg i) as [x Hx]; [lia|]. destruct (lookup_lt_is_Some_2 val i) as [y Hy]; [lia|].
    rewrite (load_Done text _ x) by (rewrite Et, lookup_app_r, Nat.add_sub' by lia; by apply lookup_app_l_Some). rewrite bind_Done.
    rewrite (load_Done buffer i y) by (rewrite <-Hb in Hy; by apply lookup_take_Some in Hy as [? _]). rewrite bind_Done, (drop_S _ _ _ Hx), (drop_S _ _ _ Hy).
    destruct (Z.eqb_spec x y) as [->|NE]; cbn [negb].
    - rewrite IH by lia. repeat case_bool_decide; congruence.
    - rewrite bool_decide_eq_false_2 by congruence. done. }
  rewrite (H (length seg) 0%nat) by done. rewrite !drop_0. by case_bool_decide.
Qed.

Lemma uri_path_matches_ok m a t : holds m a -> 0 ∈ t ->
  uri_path_matches m (Some t) = Done (agree (pieces 47 [] (c_text t)) (path_values a) && negb (bool_decide (path_values a = []))).
Proof.
  intros Hm (post & Et & H0)%c_text_split. unfold uri_path_matches. set (s := c_text t) in *.
  assert (Hskip : forall pre rest, s = pre ++ rest -> exists ss rest', rest = ss ++ rest' /\ scan_while is_slash t (length pre) = Done (length (pre ++ ss))
    /\ at_end_or in_segment rest' /\ pieces 47 [] rest = pieces 47 [] rest').
  { intros pre rest E. pose proof H0 as Hr. rewrite E in Hr. apply Forall_app in Hr as [_ Hr]. destruct (skip_slashes rest Hr) as (ss & rest' & -> & Hss & Hst & Hp).
    exists ss, rest'. split; [done|]. split; [|done]. rewrite length_app. apply (scan_text is_slash t pre ss rest' post); [by rewrite Et, E|done| |done].
    intros c p Hc. by apply segment_no_slash, (Hst c p). }
  assert (H : forall n i pre rest idx, (i + n = length (c_options a))%nat -> s = pre ++ rest ->
    after (for_range i n (match_body m t) (length pre, idx)) (fun '(p, option_index) => p ← scan_while is_slash t p; c ← load t p; Done ((c =? 0) && negb (option_index =? 0)%nat))
    = let vals := snd <$> filter (fun x => x.1 = opt_uri_path) (drop i (c_options a)) in
      Done (agree (pieces 47 [] rest) vals && negb ((idx =? 0)%nat && bool_decide (vals = [])))).
  { induction n as [|n IH]; intros i pre rest idx Hi E; cbn [for_range after].
    - destruct (Hskip pre rest E) as (ss & rest' & -> & -> & Hst & ->). rewrite bind_Done, drop_ge by lia. cbn [filter list_filter fmap list_fmap].
      destruct rest' as [|c p].
      + rewrite app_nil_r in E. rewrite (load_Done t _ 0) by (rewrite Et, E; by apply list_lookup_middle). rewrite bind_Done. cbn. by rewrite andb_true_r.
      + assert (Hc : c <> 0). { rewrite E in H0. apply Forall_app in H0 as [_ H0]. apply Forall_app in H0 as [_ H0]. by apply Forall_cons in H0 as [? _]. }
        rewrite (load_Done t _ c) by (rewrite Et, E, app_assoc; apply lookup_app_l_Some; by apply list_lookup_middle). rewrite bind_Done, (proj2 (Z.eqb_neq c 0)) by done.
        pose proof (Hst c p eq_refl) as Hseg. destruct (first_part (c :: p)) as (seg & rest & Er & _ & Hs & Hp).
        { rewrite E in H0. apply Forall_app in H0 as [_ H0]. by apply Forall_app in H0 as [_ H0]. }
        assert (Hne : seg <> []). { intros ->. cbn [app] in Er. pose proof (Hs c p (eq_sym Er)) as H2. apply slash_no_segment in H2. congruence. }
        rewrite Hp. by destruct seg.
    - destruct (lookup_lt_is_Some_2 (c_options a) i) as [x Hx]; [lia|]. destruct (option_lookup m a i x Hm Hx) as (o & Ho & Hn & Hlen & Hval).
      unfold match_body at 1. rewrite (load_Done _ _ _ Ho), bind_Done, Hn, (drop_S _ _ _ Hx). destruct (Z.eqb_spec x.1 opt_uri_path) as [Ex|Nx]; cbn [negb].
      2:{ rewrite filter_cons_False by done. apply (IH (S i) pre rest); [lia|done]. }
      rewrite filter_cons_True by done. cbn [fmap list_fmap].
      destruct (Hskip pre rest E) as (ss & rest' & -> & -> & Hst & ->). rewrite bind_Done.
      assert (Hr : Forall (fun c => c <> 0) rest'). { rewrite E in H0. apply Forall_app in H0 as [_ H0]. by apply Forall_app in H0 as [_ H0]. }
      destruct (first_part rest' Hr) as (seg & rest3 & -> & Hseg & Hs3 & Hp).
      rewrite app_assoc in E. rewrite (scan_text in_segment t (pre ++ ss) seg rest3 post) by (first [done|by rewrite Et, E|intros c p Hc; by apply slash_no_segment, (Hs3 c p)]).
      rewrite bind_Done, Nat.add_sub', Hlen. rewrite Hp.
      assert (Hshape : part seg ++ pieces 47 [] rest3 = [] /\ seg = [] \/ part seg ++ pieces 47 [] rest3 = seg :: pieces 47 [] rest3).
      { destruct seg as [|y seg]; [|by right]. left. split; [|done]. cbn [part app]. destruct rest3 as [|c p]; [done|]. pose proof (Hst c p eq_refl) as H1. pose proof (Hs3 c p eq_refl) as H2.
        apply slash_no_segment in H2. cbn in H1. congruence. }
      assert (Hagree : forall vals, agree (part seg ++ pieces 47 [] rest3) (x.2 :: vals) = bool_decide (x.2 = seg) && agree (pieces 47 [] rest3) vals).
      { intros vals. destruct Hshape as [[E1 ->]|E1]; rewrite E1; [|done]. cbn [agree]. cbn [part app] in E1. rewrite E1. by repeat case_bool_decide. }
      rewrite Hagree.
      destruct (Nat.eqb_spec (length seg) (length x.2)) as [El|Nl]; cbn [negb].
      2:{ rewrite bool_decide_eq_false_2; [done|]. intros Heq. by rewrite Heq in Nl. }
      rewrite (compare_ok t (pre ++ ss) seg (rest3 ++ 0 :: post) x.2) by (first [done|rewrite Et, E; by rewrite <-!app_assoc]). rewrite bind_Done.
      destruct (decide (seg = x.2)) as [Es|Ns].
      + rewrite (bool_decide_eq_true_2 (seg = x.2)), (bool_decide_eq_true_2 (x.2 = seg)) by congruence. rewrite <-length_app, (IH (S i) ((pre ++ ss) ++ seg) rest3) by (first [lia|rewrite E; by rewrite <-!app_assoc]).
        rewrite Nat.add_1_r. cbn [Nat.eqb andb negb]. rewrite !andb_true_r, (bool_decide_eq_false_2 (_ :: _ = [])) by done. rewrite andb_false_r. cbn. by rewrite !andb_true_r.
      + rewrite (bool_decide_eq_false_2 (seg = x.2)), (bool_decide_eq_false_2 (x.2 = seg)) by congruence. done. }
  destruct (Hskip [] s eq_refl) as (ss & rest & E & E1 & _ & Hp). cbn [length] in E1. rewrite E1, bind_Done.
  assert (Hc : option_count m = length (c_options a)) by apply Hm. rewrite Hc, (H _ 0%nat ([] ++ ss) rest) by (done || by rewrite E). cbv zeta. rewrite drop_0, <-Hp. done.
Qed.
End Refine.

(** ** Sequences of operations *)

Section Run.
Context (MaxOptions OptionValueCapacity PayloadCapacity : nat).
Local Abbreviation good := (good MaxOptions OptionValueCapacity PayloadCapacity).

Fixpoint run_message_ops (m : message) (ops : list message_op) : exec (list status * message) :=
  match ops with
  | [] => Done ([], m)
  | op :: ops =>
      '(s, m) ← run_message_op MaxOptions OptionValueCapacity PayloadCapacity m op; '(ss, m) ← run_message_ops m ops; Done (s :: ss, m)
  end.
Fixpoint spec_message_ops (a : coap) (ops : list message_op) : list status * coap :=
  match ops with
  | [] => ([], a)
  | op :: ops =>
      let '(s, a) := spec_message_op MaxOptions OptionValueCapacity PayloadCapacity a op in
      let '(ss, a) := spec_message_ops a ops in (s :: ss, a)
  end.

Lemma message_new_good : good (message_new MaxOptions OptionValueCapacity PayloadCapacity) coap_new.
Proof.
  split; [|constructor]. unfold CoapMessage.holds, shaped, held. cbn [message_new options option_count token token_length payload payload_size c_options c_token c_payload coap_new length take firstn].
  rewrite !length_replicate. split_and!; try done; try lia.
  apply Forall_replicate. unfold opt_sized. cbn [value]. apply length_replicate.
Qed.

Lemma good_clear m : shaped MaxOptions OptionValueCapacity PayloadCapacity m -> good (clear m) coap_new.
Proof. intros (Ht & Ho & Hsz & Hp). split; [|constructor]. unfold CoapMessage.holds, shaped, held, clear. cbn. split_and!; try done; lia. Qed.

Lemma run_message_op_ok m a op : good m a -> op_valid op ->
  leaves MaxOptions OptionValueCapacity PayloadCapacity (run_message_op MaxOptions OptionValueCapacity PayloadCapacity m op) (spec_message_op MaxOptions OptionValueCapacity PayloadCapacity a op).
Proof.
  intros Hg Hv. assert (Hkeep : forall s, leaves MaxOptions OptionValueCapacity PayloadCapacity (Done (s, m)) (s, a)) by (intros s; by exists m).
  destruct op as [|bytes count|bytes count|num bytes count|num v|num [t|]|[t|]|[t|]]; cbn [run_message_op spec_message_op op_valid terminated] in *; try apply Hkeep.
  - exists (clear m). split; [done|]. apply good_clear, Hg.
  - unfold set_token. rewrite octets_null. destruct (octets_of bytes count) as [bs|] eqn:Eb; [|rewrite bool_decide_eq_true_2 by done; apply Hkeep].
    rewrite bool_decide_eq_false_2 by done. cbn [orb]. pose proof (octets_length _ _ _ Eb Hv) as El. subst count.
    destruct (Nat.ltb_spec maximum_token_length (length bs)); [apply Hkeep|]. destruct Hg as [((Ht & Ho & Hsz & Hp) & E1 & E2 & E3 & E4 & Htok & Hpay & Hc & Hle & Hall) Ha].
    rewrite (copy_octets_ok _ _ bs) by (done || lia). rewrite bind_Done. eexists. split; [done|]. split; [|done]. unfold CoapMessage.holds, shaped. cbn.
    rewrite length_wrote by lia. split_and!; try done. apply held_wrote. lia.
  - unfold set_payload. rewrite octets_null. destruct (octets_of bytes count) as [bs|] eqn:Eb; [|rewrite bool_decide_eq_true_2 by done; apply Hkeep].
    rewrite bool_decide_eq_false_2 by done. pose proof (octets_length _ _ _ Eb Hv) as El. subst count.
    destruct (Nat.ltb_spec PayloadCapacity (length bs)); [apply Hkeep|]. destruct Hg as [((Ht & Ho & Hsz & Hp) & E1 & E2 & E3 & E4 & Htok & Hpay & Hc & Hle & Hall) Ha].
    rewrite (copy_octets_ok _ _ bs) by (done || lia). rewrite bind_Done. eexists. split; [done|]. split; [|done]. unfold CoapMessage.holds, shaped. cbn.
    rewrite length_wrote by lia. split_and!; try done. apply held_wrote. lia.
  - destruct (octets_of bytes count) as [bs|] eqn:Eb; [by apply append_option_good|]. unfold append_option. rewrite octets_null, Eb, bool_decide_eq_true_2, orb_true_r by done. apply Hkeep.
  - by apply append_uint_option_ok.
  - by apply append_string_option_ok.
  - by apply append_uri_path_ok.
  - by apply append_uri_query_ok.
Qed.

Lemma run_message_ops_ok ops m a : good m a -> Forall op_valid ops ->
  exists m', run_message_ops m ops = Done ((spec_message_ops a ops).1, m') /\ good m' (spec_message_ops a ops).2.
Proof.
  intros Hg Hv. revert m a Hg. induction Hv as [|op ops Hop _ IH]; intros m a Hg; cbn [run_message_ops spec_message_ops]; [by exists m|].
  destruct (run_message_op_ok m a op Hg Hop) as (m1 & -> & Hg1). rewrite bind_Done. destruct (spec_message_op _ _ _ a op) as [s a1]. cbn [fst snd] in *.
  destruct (IH m1 a1 Hg1) as (m2 & -> & Hg2). rewrite bind_Done. destruct (spec_message_ops a1 ops) as [ss a2]. by exists m2.
Qed.

(** *** Paths *)

Lemma pieces_ne sep cur l : Forall (fun p => p <> []) (pieces sep cur l).
Proof.
  revert cur. induction l as [|c l IH]; intros cur; cbn [pieces]; [destruct cur; by repeat constructor|].
  destruct (c =? sep); [|done]. apply Forall_app_2; [|done]. destruct cur; by repeat constructor.
Qed.

Lemma path_values_place a v : path_values (set_options a (place_option (opt_uri_path, v) (c_options a))) = path_values a ++ [v].
Proof.
  unfold path_values, place_option. cbn [set_options c_options fst]. rewrite filter_app, filter_cons_True by done.
  rewrite (filter_nothing _ (filter (fun y => opt_uri_path < y.1) (c_options a))).
  2:{ apply Forall_forall. intros x [Hx _]%list_elem_of_filter. lia. }
  rewrite (list_filter_filter_l (fun x : Z * list Z => x.1 = opt_uri_path)) by (intros x ->; lia). by rewrite fmap_app.
Qed.

Lemma spec_append_all_path vs a : (spec_append_all MaxOptions OptionValueCapacity a opt_uri_path vs).1 = s_ok ->
  path_values (spec_append_all MaxOptions OptionValueCapacity a opt_uri_path vs).2 = path_values a ++ vs.
Proof.
  revert a. induction vs as [|v vs IH]; intros a H; cbn [spec_append_all] in *; [by rewrite app_nil_r|].
  destruct (spec_append MaxOptions OptionValueCapacity a opt_uri_path v) as [s a1] eqn:E. destruct s; try discriminate H.
  rewrite IH by done. unfold spec_append in E. change (opt_uri_path =? 0) with false in E. repeat case_match; try discriminate E.
  injection E as <-. rewrite path_values_place. by rewrite <-app_assoc.
Qed.
End Run.

(** C18. A CoAP message refines its contents: after any sequence of operations with valid pointers
    every status is the specified one and the message holds the specified token, payload and options, no
    index leaves an array, the options are in ascending order and in the order of insertion
    within a number and find_option finds the first of a number.  Comparing a path is total and in bounds, and
    a message with Uri-Path options the last of which is not empty matches exactly the paths whose segments are the
    values of these options.  (For empty ones at the end, see [CoapCodec.trailing_empty_segment_matches].) *)
Theorem coap_message_refines_contents (MaxOptions OptionValueCapacity PayloadCapacity : nat) ops :
  Forall op_valid ops ->
  let a := (spec_message_ops MaxOptions OptionValueCapacity PayloadCapacity coap_new ops).2 in
  exists m, run_message_ops MaxOptions OptionValueCapacity PayloadCapacity (message_new MaxOptions OptionValueCapacity PayloadCapacity) ops
      = Done ((spec_message_ops MaxOptions OptionValueCapacity PayloadCapacity coap_new ops).1, m)
    /\ holds MaxOptions OptionValueCapacity PayloadCapacity m a /\ ascending (c_options a)
    /\ (forall num, find_option m num = Done (fst <$> list_find (fun x => x.1 = num) (c_options a)))
    /\ (forall t, 0 ∈ t -> exists b, uri_path_matches m (Some t) = Done b
          /\ (path_values a <> [] -> last (path_values a) <> Some [] -> b = true <-> path_values a = pieces 47 [] (c_text t))).
Proof.
  intros Hv a. destruct (run_message_ops_ok MaxOptions OptionValueCapacity PayloadCapacity ops _ _ (message_new_good _ _ _) Hv) as (m & E & Hg).
  exists m. split; [done|]. split; [apply Hg|]. split; [apply Hg|]. split; [intros num; by eapply find_option_ok|].
  intros t Ht. eexists. split; [eapply uri_path_matches_ok; [apply Hg|done]|].
  intros Hne Hlast. rewrite andb_true_iff, agree_iff, negb_true_iff, bool_decide_eq_false. split.
  - intros [[k Hk] _]. fold a in Hk. destruct k as [|k]; [by rewrite app_nil_r in Hk|]. rewrite Hk, replicate_S_end, app_assoc, last_snoc in Hlast. done.
  - intros Hp. split; [exists 0%nat; by rewrite app_nil_r|done].
Qed.

Lemma coap_message_refines_contents_witness :
  let ops := [M_uint 12 50; M_path (Some (chars "/a//b/" ++ [0])); M_token (Some [7; 8]) 2; M_query (Some (chars "x&y" ++ [0])); M_option 5 None 0; M_payload None 3] in
  exists m, run_message_ops 5 8 16 (message_new 5 8 16) ops = Done ([s_ok; s_ok; s_ok; s_ok; s_full; s_invalid_argument], m)
    /\ holds 5 8 16 m (mk_coap 1 0 0 0 [7; 8] [(11, chars "a"); (11, chars "b"); (12, [50]); (15, chars "x"); (15, chars "y")] [])
    /\ uri_path_matches m (Some (chars "a/b" ++ [0])) = Done true.
Proof.
  intros ops. assert (H0 : forall s, 0 ∈ s ++ [0]) by (intros s; apply elem_of_app; right; by left).
  destruct (coap_message_refines_contents 5 8 16 ops) as (m & E & Hm & _ & _ & Hp).
  - subst ops. repeat (apply Forall_cons; split; [cbn [op_valid terminated readable length]; first [apply H0|lia|done|unfold in_width; lia]|]). apply Forall_nil, I.
  - exists m. split; [exact E|]. split; [exact Hm|]. destruct (Hp (chars "a/b" ++ [0]) (H0 _)) as (b & -> & Hb).
      f_equal. apply Hb; [discriminate|discriminate|]. vm_compute. reflexivity.
Defined.

(** Paths round trip: a path that is added to a message without a path is matched by exactly the
    texts with the same segments, however many slashes separate them. *)
Theorem coap_uri_path_roundtrip (MaxOptions OptionValueCapacity PayloadCapacity : nat) m a p :
  holds MaxOptions OptionValueCapacity PayloadCapacity m a -> ascending (c_options a) -> path_values a = [] -> 0 ∈ p ->
  exists s m', append_uri_path MaxOptions OptionValueCapacity m (Some p) = Done (s, m')
    /\ (s = s_ok -> forall q, 0 ∈ q -> exists b, uri_path_matches m' (Some q) = Done b
          /\ (b = true <-> pieces 47 [] (c_text p) <> [] /\ pieces 47 [] (c_text q) = pieces 47 [] (c_text p))).
Proof.
  intros Hm Ha Hnone Hp. destruct (append_uri_path_ok MaxOptions OptionValueCapacity PayloadCapacity m a p) as (m' & E & Hg); [by split|done|].
  eexists _, m'. split; [exact E|]. intros Hs q Hq. apply spec_append_all_path in Hs. rewrite Hnone in Hs. cbn [app] in Hs.
  eexists. split; [eapply uri_path_matches_ok; [apply Hg|done]|]. rewrite Hs, andb_true_iff, agree_iff, negb_true_iff, bool_decide_eq_false.
  split; [|intros [? ->]; split; [exists 0%nat; by rewrite app_nil_r|done]]. intros [[k Hk] Hne]. split; [done|]. destruct k as [|k]; [by rewrite app_nil_r in Hk|].
  pose proof (pieces_ne 47 [] (c_text p)) as H. rewrite Hk in H. apply Forall_app in H as [_ H]. cbn in H. by apply Forall_cons in H as [? _].
Qed.

Lemma coap_uri_path_roundtrip_witness :
  exists s m', append_uri_path 4 8 (message_new 4 8 16) (Some (chars "sensors/temp" ++ [0])) = Done (s, m')
    /\ (s = s_ok -> forall q, 0 ∈ q -> exists b, uri_path_matches m' (Some q) = Done b
          /\ (b = true <-> pieces 47 [] (c_text (chars "sensors/temp" ++ [0])) <> [] /\ pieces 47 [] (c_text q) = pieces 47 [] (c_text (chars "sensors/temp" ++ [0])))).
Proof.
  apply (coap_uri_path_roundtrip 4 8 16 (message_new 4 8 16) coap_new).
  - apply message_new_good.
  - constructor.
  - reflexivity.
  - apply elem_of_app. right. by left.
Defined.
