(* ===== verification/CoapCodec.v ===== *)
(** * The CoAP codec (castle_ext/protocols/coap/codec.hpp)

    Datagrams of RFC 7252 from and into the messages of CoapMessage.  Options are coded by
    the difference of their numbers; unknown elective options are skipped, critical ones
    refused. *)

From Stdlib Require Import Sorted.
From S2P Require Import Prelude Status Bytes Words CoapMessage.
Open Scope Z_scope.

(** ** The code *)

Inductive decode_error : Type :=
| none
| malformed_header
| unsupported_version
| invalid_token_length
| malformed_option
| unknown_critical_option
| capacity_exceeded.

(** The status, the output and [used]. *)
Definition write_byte (output : list Z) (capacity used : nat) (value : Z) : exec (status * list Z * nat) :=
  if (capacity <=? used)%nat then Done (s_full, output, used)
  else output ← store output used value; Done (s_ok, output, (used + 1)%nat).

Definition write_extended (output : list Z) (capacity used : nat) (nibble value : Z) : exec (status * list Z * nat) :=
  if nibble <? 13 then Done (s_ok, output, used)
  else if nibble =? 13 then write_byte output capacity used (to_u8 (value - 13))
  else if nibble =? 14 then
    if (capacity - used <? 2)%nat then Done (s_full, output, used)
    else output ← write_be16 output used (to_u16 (value - 269)); Done (s_ok, output, (used + 2)%nat)
  else Done (s_invalid_argument, output, used).

(** The status, [used] and [value], which the callers set to zero; [used] is within the input. *)
Definition decode_nibble (nibble : Z) (input : list Z) (size used : nat) : exec (status * nat * Z) :=
  if nibble <? 13 then Done (s_ok, used, nibble)
  else if nibble =? 13 then
    if (size <=? used)%nat then Done (s_invalid_argument, used, 0)
    else b ← load input used; Done (s_ok, (used + 1)%nat, 13 + b)
  else if nibble =? 14 then
    if (size - used <? 2)%nat then Done (s_invalid_argument, used, 0)
    else v ← read_be16 input used; Done (s_ok, (used + 2)%nat, 269 + v)
  else Done (s_invalid_argument, used, 0).

Definition encode_nibble (value : Z) : Z := if value <? 13 then to_u8 value else if value <? 269 then 13 else 14.

Definition valid_option_length (number : Z) (length : nat) : bool :=
  let l := Z.of_nat length in
  match number with
  | 1 => l <=? 8
  | 3 => (1 <=? l) && (l <=? 255)
  | 4 => (1 <=? l) && (l <=? 8)
  | 5 => l =? 0
  | 6 => l <=? 3
  | 7 => l <=? 2
  | 8 | 11 | 15 | 20 => l <=? 255
  | 12 | 17 => l <=? 2
  | 14 => l <=? 4
  | 23 | 27 => l <=? 3
  | 28 | 60 => l <=? 4
  | 35 => (1 <=? l) && (l <=? 1034)
  | 39 => (1 <=? l) && (l <=? 255)
  | _ => false
  end.

Definition is_repeatable_option (number : Z) : bool :=
  (number =? 1) || (number =? 8) || (number =? 11) || (number =? 15) || (number =? 20).

Section Code.
Context (MaxOptions OptionValueCapacity PayloadCapacity : nat).

(** A pass over the options of the message to send. *)
Definition encode_option (m : message) (capacity i : nat) (st : list Z * nat * Z) : exec (ctl (status * list Z * nat) (list Z * nat * Z)) :=
  let '(output, written, previous) := st in
  o ← load (options m) i;
  if (number o =? 0) || (number o <? previous) || (65804 <? to_u32 (number o - previous)) ||
     (OptionValueCapacity <? length_ o)%nat ||
     (is_supported_option (number o) && negb (valid_option_length (number o) (length_ o))) then
    Done (Return (s_invalid_argument, output, 0%nat))
  else
    let delta := to_u32 (number o - previous) in
    let length := to_u32 (Z.of_nat (length_ o)) in
    if 65804 <? length then Done (Return (s_invalid_argument, output, 0%nat))
    else
      let delta_nibble := encode_nibble delta in
      let length_nibble := encode_nibble length in
      '(result, output, written) ← write_byte output capacity written (to_u8 (Z.lor (Z.shiftl delta_nibble 4) length_nibble));
      '(result, output, written) ← (if succeeded result then write_extended output capacity written delta_nibble delta else Done (result, output, written));
      '(result, output, written) ← (if succeeded result then write_extended output capacity written length_nibble length else Done (result, output, written));
      if negb (succeeded result) || (Z.of_nat (capacity - written) <? length) then Done (Return (s_full, output, 0%nat))
      else
        '(output, written) ← for_to 0 (length_ o) (fun j '(output, written) => v ← load (value o) j; output ← store output written v; Done (output, (written + 1)%nat)) (output, written);
        Done (Next (output, written, number o)).

(** The messages that are refused at once. *)
Definition invalid_message (m : message) : bool :=
  let empty_code := code_value m =? code_empty in
  negb (version m =? protocol_version) || (maximum_token_length <? token_length m)%nat ||
  (MaxOptions <? option_count m)%nat || (PayloadCapacity <? payload_size m)%nat || (reset <? type m) ||
  (empty_code && (negb (token_length m =? 0)%nat || negb (option_count m =? 0)%nat || negb (payload_size m =? 0)%nat ||
                  (negb (type m =? acknowledgement) && negb (type m =? reset)))) ||
  ((type m =? reset) && negb empty_code) ||
  ((type m =? acknowledgement) && (Z.shiftr (code_value m) 5 =? 0) && negb empty_code).

(** The status, the output and [written]. *)
Definition encode_message (m : message) (output : ptr) (capacity : nat) : exec (status * ptr * nat) :=
  match output with
  | None => Done (s_invalid_argument, output, 0%nat)
  | Some out =>
      if invalid_message m then Done (s_invalid_argument, output, 0%nat)
      else if (capacity <? 4 + token_length m)%nat then Done (s_full, output, 0%nat)
      else
        out ← store out 0 (to_u8 (Z.lor (Z.lor (Z.shiftl protocol_version 6) (Z.shiftl (type m) 4)) (to_u8 (Z.of_nat (token_length m)))));
        out ← store out 1 (code_value m);
        out ← write_be16 out 2 (message_id m);
        '(out, written) ← for_to 0 (token_length m) (fun i '(out, written) => v ← load (token m) i; out ← store out written v; Done (out, (written + 1)%nat)) (out, 4%nat);
        '(result, out, written) ← after (for_range 0 (option_count m) (encode_option m capacity) (out, written, 0))
          (fun '(out, written, _) =>
             if negb (payload_size m =? 0)%nat then
               if (capacity - written <? payload_size m + 1)%nat then Done (s_full, out, 0%nat)
               else
                 out ← store out written 0xFF;
                 '(out, written) ← for_to 0 (payload_size m) (fun i '(out, written) => v ← load (payload m) i; out ← store out written v; Done (out, (written + 1)%nat)) (out, (written + 1)%nat);
                 Done (s_ok, out, written)
             else Done (s_ok, out, written));
        Done (result, Some out, written)
  end.

Definition with_header (m : message) (ver t c id : Z) (tok : list Z) (n : nat) : message :=
  mk_message ver t c id tok n (options m) (option_count m) (payload m) (payload_size m).

(** A pass of the loop over the options: the position, the option number and the message. *)
Definition decode_body (input : list Z) (size : nat) (st : nat * Z * message) : exec (ctl (status * decode_error * message) (nat * Z * message)) :=
  let '(position, option_number_value, output) := st in
  header ← load input position;
  let position := (position + 1)%nat in
  if header =? 0xFF then
    if (position =? size)%nat then Done (Return (s_invalid_argument, malformed_option, output))
    else
      let payload_size := (size - position)%nat in
      '(copied, output) ← set_payload PayloadCapacity output (Some (drop position input)) payload_size;
      if negb (succeeded copied) then Done (Return (copied, capacity_exceeded, output))
      else Done (Return (s_ok, none, output))
  else
    let delta_nibble := Z.shiftr header 4 in
    let length_nibble := Z.land header 0x0F in
    if (delta_nibble =? 15) || (length_nibble =? 15) then Done (Return (s_invalid_argument, malformed_option, output))
    else
      '(result, position, delta) ← decode_nibble delta_nibble input size position;
      '(result, position, length) ← (if succeeded result then decode_nibble length_nibble input size position else Done (result, position, 0));
      if negb (succeeded result) || (65535 - option_number_value <? delta) || (Z.of_nat (size - position) <? length) then
        Done (Return (s_invalid_argument, malformed_option, output))
      else
        let option_number_value := option_number_value + delta in
        let length := Z.to_nat length in
        if option_number_value =? 0 then Done (Return (s_invalid_argument, malformed_option, output))
        else
          let current_option := to_u16 option_number_value in
          let recognized := is_supported_option current_option && valid_option_length current_option length in
          recognized ← (if recognized && negb (is_repeatable_option current_option) then
                          found ← find_option output current_option; Done (bool_decide (found = None))
                        else Done recognized);
          if negb recognized then
            if is_critical_option current_option then Done (Return (s_not_configured, unknown_critical_option, output))
            else Done (Next ((position + length)%nat, option_number_value, output))
          else
            '(result, output) ← append_option MaxOptions OptionValueCapacity output current_option
                                  (if (length =? 0)%nat then None else Some (drop position input)) length;
            if negb (succeeded result) then Done (Return (result, capacity_exceeded, output))
            else Done (Next ((position + length)%nat, option_number_value, output)).

(** The status, [*error] and the message. *)
Definition decode_message (input : ptr) (size : nat) (output : message) : exec (status * decode_error * message) :=
  let output := clear output in
  match input with
  | None => Done (s_invalid_argument, malformed_header, output)
  | Some input =>
      if (size <? 4)%nat then Done (s_invalid_argument, malformed_header, output)
      else
        first ← load input 0;
        let version := to_u8 (Z.shiftr first 6) in
        let token_length := Z.to_nat (to_u8 (Z.land first 0x0F)) in
        if negb (version =? protocol_version) then Done (s_invalid_argument, unsupported_version, output)
        else if (maximum_token_length <? token_length)%nat || (size <? 4 + token_length)%nat then
          Done (s_invalid_argument, invalid_token_length, output)
        else
          let type := Z.land (Z.shiftr first 4) 0x03 in
          code ← load input 1;
          id ← read_be16 input 2;
          tok ← for_to 0 token_length (fun i tok => b ← load input (4 + i); store tok i b) (token output);
          let output := with_header output version type code id tok token_length in
          if code =? 0 then
            if negb (token_length =? 0)%nat || negb (size =? 4)%nat || (negb (type =? acknowledgement) && negb (type =? reset)) then
              Done (s_invalid_argument, malformed_header, output)
            else Done (s_ok, none, output)
          else if (type =? reset) || ((type =? acknowledgement) && (Z.shiftr code 5 =? 0)) then
            Done (s_invalid_argument, malformed_header, output)
          else
            after (while_loop (S size) (fun '(position, _, _) => Done (position <? size)%nat) (decode_body input size)
                     ((4 + token_length)%nat, 0, output))
              (fun '(_, _, output) => Done (s_ok, none, output))
  end.
End Code.

(** A number of up to four octets. *)
Definition decode_uint_option (value : ptr) (length : nat) : exec (status * Z) :=
  if (4 <? length)%nat || (is_null value && negb (length =? 0)%nat) then Done (s_invalid_argument, 0)
  else
    output ← for_to 0 length (fun i output => b ← pload value i; Done (Z.lor (to_u32 (Z.shiftl output 8)) b)) 0;
    Done (s_ok, output).

(** ** Datagrams *)

(** The value a nibble and the [k] octets from [at_] on stand for. *)
Inductive ext_at (data : list Z) (at_ : nat) : Z -> Z -> nat -> Prop :=
| X_nibble n : 0 <= n < 13 -> ext_at data at_ n n 0
| X_octet b : data !! at_ = Some b -> ext_at data at_ 13 (13 + b) 1
| X_word : (at_ + 2 <= length data)%nat -> ext_at data at_ 14 (269 + field data at_ 2) 2.

(** An option of [len] octets at [at_], behind one with the number [prev]. *)
Definition option_at (data : list Z) (at_ : nat) (prev n : Z) (v : list Z) (len : nat) : Prop :=
  exists h d kd l kl, data !! at_ = Some h /\ h <> 0xFF
    /\ ext_at data (at_ + 1) (h / 16) d kd /\ ext_at data (at_ + 1 + kd) (h mod 16) l kl
    /\ n = prev + d /\ 0 < n <= 65535
    /\ len = (1 + kd + kl + Z.to_nat l)%nat /\ (at_ + len <= length data)%nat
    /\ v = take (Z.to_nat l) (drop (at_ + 1 + kd + kl) data).

(** The defect of the header of a datagram, if it has one. *)
Definition header_error (data : list Z) : option decode_error :=
  match data with
  | b0 :: code :: _ :: _ :: _ =>
      let tkl := Z.to_nat (b0 mod 16) in let type := (b0 / 16) mod 4 in
      if negb (b0 / 64 =? protocol_version) then Some unsupported_version
      else if (maximum_token_length <? tkl)%nat || (length data <? 4 + tkl)%nat then Some invalid_token_length
      else if code =? 0 then
        if (tkl =? 0)%nat && (length data =? 4)%nat && ((type =? acknowledgement) || (type =? reset)) then None else Some malformed_header
      else if (type =? reset) || ((type =? acknowledgement) && (code / 32 =? 0)) then Some malformed_header else None
  | _ => Some malformed_header
  end.

Section Judgement.
Context (MaxOptions OptionValueCapacity : nat).

(** What becomes of an option: it is refused, skipped or kept. *)
Definition known (kept : list (Z * list Z)) (x : Z * list Z) : bool :=
  is_supported_option x.1 && valid_option_length x.1 (length x.2) && (is_repeatable_option x.1 || bool_decide (Forall (fun y => y.1 <> x.1) kept)).
Definition judge (kept : list (Z * list Z)) (x : Z * list Z) : (status * decode_error) + list (Z * list Z) :=
  if known kept x then
    if (OptionValueCapacity <? length x.2)%nat then inl (s_out_of_range, capacity_exceeded)
    else if (MaxOptions <=? length kept)%nat then inl (s_full, capacity_exceeded)
    else inr (kept ++ [x])
  else if is_critical_option x.1 then inl (s_not_configured, unknown_critical_option)
  else inr kept.
(** The documented judgement: a known option of an invalid length is refused, too. *)
Definition verdict (kept : list (Z * list Z)) (x : Z * list Z) : (status * decode_error) + list (Z * list Z) :=
  if is_supported_option x.1 && negb (valid_option_length x.1 (length x.2)) then inl (s_not_configured, unknown_critical_option) else judge kept x.
End Judgement.

Section Datagram.
Context (judge : list (Z * list Z) -> Z * list Z -> (status * decode_error) + list (Z * list Z)) (PayloadCapacity : nat).

(** [rest_at data at_ prev kept s e opts pl]: the options and the payload from [at_] on,
    behind the options [kept], make up [opts] and [pl], or fail with [s] and [e]. *)
Inductive rest_at (data : list Z) : nat -> Z -> list (Z * list Z) -> status -> decode_error -> list (Z * list Z) -> list Z -> Prop :=
| RA_end prev kept : rest_at data (length data) prev kept s_ok none kept []
| RA_payload at_ prev kept : data !! at_ = Some 0xFF -> (at_ + 1 < length data)%nat -> (length data - (at_ + 1) <= PayloadCapacity)%nat ->
    rest_at data at_ prev kept s_ok none kept (drop (at_ + 1) data)
| RA_large at_ prev kept : data !! at_ = Some 0xFF -> (PayloadCapacity < length data - (at_ + 1))%nat ->
    rest_at data at_ prev kept s_full capacity_exceeded kept []
| RA_no_payload at_ prev kept : data !! at_ = Some 0xFF -> (at_ + 1 = length data)%nat ->
    rest_at data at_ prev kept s_invalid_argument malformed_option kept []
| RA_malformed at_ h prev kept : data !! at_ = Some h -> h <> 0xFF -> (forall n v len, ~ option_at data at_ prev n v len) ->
    rest_at data at_ prev kept s_invalid_argument malformed_option kept []
| RA_refused at_ prev kept n v len s e : option_at data at_ prev n v len -> judge kept (n, v) = inl (s, e) ->
    rest_at data at_ prev kept s e kept []
| RA_option at_ prev kept n v len kept' s e opts pl : option_at data at_ prev n v len -> judge kept (n, v) = inr kept' ->
    rest_at data (at_ + len) n kept' s e opts pl -> rest_at data at_ prev kept s e opts pl.

(** The outcome for a datagram with a sound header. *)
Definition datagram (data : list Z) (s : status) (e : decode_error) (a : coap) : Prop :=
  exists b0 opts pl,
    let tkl := Z.to_nat (b0 mod 16) in
    data !! 0%nat = Some b0 /\ data !! 1%nat = Some (c_code a)
    /\ a = mk_coap (b0 / 64) ((b0 / 16) mod 4) (c_code a) (field data 2 2) (take tkl (drop 4 data)) opts pl
    /\ if c_code a =? 0 then s = s_ok /\ e = none /\ opts = [] /\ pl = [] else rest_at data (4 + tkl) 0 [] s e opts pl.
End Datagram.

(** [reached data at_ prev]: an option of the datagram, or its end, is at [at_], behind one
    with the number [prev]. *)
Inductive reached (data : list Z) : nat -> Z -> Prop :=
| reached_first b0 : data !! 0%nat = Some b0 -> reached data (4 + Z.to_nat (b0 mod 16)) 0
| reached_next at_ prev n v len : reached data at_ prev -> option_at data at_ prev n v len -> reached data (at_ + len) n.

(** The elective options of the datagram that the decoder knows have valid lengths. *)
Definition elective_lengths (data : list Z) : Prop :=
  forall at_ prev n v len, reached data at_ prev -> option_at data at_ prev n v len ->
    is_supported_option n = true -> is_critical_option n = false -> valid_option_length n (length v) = true.

(** ** Decoding *)

Lemma ext_at_fun data at_ n v k v' k' : ext_at data at_ n v k -> ext_at data at_ n v' k' -> v = v' /\ k = k'.
Proof. intros H H'. inversion H; subst; inversion H'; subst; try lia; try done. split; [|done]. congruence. Qed.

Lemma option_at_fun data at_ prev n v len n' v' len' : option_at data at_ prev n v len -> option_at data at_ prev n' v' len' -> n = n' /\ v = v' /\ len = len'.
Proof.
  intros (h & d & kd & l & kl & Hh & _ & H1 & H2 & -> & _ & -> & _ & ->) (h' & d' & kd' & l' & kl' & Hh' & _ & H1' & H2' & -> & _ & -> & _ & ->).
  rewrite Hh in Hh'. injection Hh' as <-. destruct (ext_at_fun _ _ _ _ _ _ _ H1 H1') as [-> ->]. destruct (ext_at_fun _ _ _ _ _ _ _ H2 H2') as [-> ->]. done.
Qed.

Lemma option_at_head data at_ prev n v len : option_at data at_ prev n v len -> (0 < len)%nat /\ (at_ + len <= length data)%nat /\ exists h, data !! at_ = Some h /\ h <> 0xFF.
Proof. intros (h & d & kd & l & kl & Hh & Hne & _ & _ & _ & _ & -> & Hle & _). split; [lia|]. split; [done|]. by exists h. Qed.

Lemma rest_at_fun J PayloadCapacity data at_ prev kept s e opts pl s' e' opts' pl' :
  rest_at J PayloadCapacity data at_ prev kept s e opts pl -> rest_at J PayloadCapacity data at_ prev kept s' e' opts' pl' ->
  s = s' /\ e = e' /\ opts = opts' /\ pl = pl'.
Proof.
  assert (Hend : forall x, data !! length data = Some x -> False) by (intros x Hx%lookup_lt_Some; lia).
  intros H. revert s' e' opts' pl'.
  induction H as [prev kept|at_ prev kept H1 H2 H3|at_ prev kept H1 H2|at_ prev kept H1 H2|at_ h prev kept H1 Hne H2|at_ prev kept n v len s e H1 H2|at_ prev kept n v len kept' s e opts pl H1 H2 _ IH];
    intros s' e' opts' pl' H'; inversion H'; subst;
    repeat match goal with Ho : option_at _ _ _ _ _ _ |- _ => let P := fresh in pose proof (option_at_head _ _ _ _ _ _ Ho) as P; revert Ho; destruct P as (? & ? & ? & ? & ?) end; intros;
    try (exfalso; by eapply Hend); try congruence; try (split_and!; congruence); try lia.
  all: try (exfalso; match goal with G : forall n v len, ~ option_at _ _ _ _ _ _ |- _ => by eapply G end).
  all: match goal with G : option_at _ ?a ?p ?n ?v ?l, G' : option_at _ ?a ?p ?n' ?v' ?l' |- _ => destruct (option_at_fun _ _ _ _ _ _ _ _ _ G G') as (-> & -> & ->) end.
  all: try (split_and!; congruence).
  rewrite H2 in *. match goal with G : inr _ = inr _ |- _ => injection G as <- end. by apply IH.
Qed.

Lemma decode_nibble_ok data used n : Forall byte data -> (used <= length data)%nat -> 0 <= n < 15 ->
  (exists v k, decode_nibble n data (length data) used = Done (s_ok, (used + k)%nat, v) /\ ext_at data used n v k /\ (used + k <= length data)%nat /\ 0 <= v < 65805)
  \/ decode_nibble n data (length data) used = Done (s_invalid_argument, used, 0) /\ forall v k, ~ ext_at data used n v k.
Proof.
  intros Hb Hu Hn. unfold decode_nibble. destruct (Z.ltb_spec n 13) as [Hlt|Hge].
  - left. exists n, 0%nat. rewrite Nat.add_0_r. split; [done|]. split; [constructor; lia|]. split; [done|lia].
  - destruct (Z.eqb_spec n 13) as [->|Hne].
    + destruct (Nat.leb_spec (length data) used) as [Hle|Hlt].
      * right. split; [done|]. intros v k H. inversion H as [| ? Hb'|]; subst; [lia|]. apply lookup_lt_Some in Hb'. lia.
      * destruct (load_in _ _ _ Hb Hlt) as (b & Hl & Hbb). rewrite Hl, bind_Done. left. exists (13 + b), 1%nat. split; [done|]. unfold byte in Hbb.
        split; [constructor; by apply load_inv|]. lia.
    + assert (n = 14) as -> by lia. rewrite Z.eqb_refl. destruct (Nat.ltb_spec (length data - used) 2) as [Hlt|Hle].
      * right. split; [done|]. intros v k H. inversion H; subst; lia.
      * rewrite read_be16_field, bind_Done by (done || lia). left. eexists _, 2%nat. split; [done|]. pose proof (field_width data used 2 Hb) as Hw. change (256 ^ Z.of_nat 2) with 65536 in Hw.
        split; [apply X_word; lia|]. lia.
Qed.

Definition with_rest (a : coap) (opts : list (Z * list Z)) (pl : list Z) : coap :=
  mk_coap (c_version a) (c_type a) (c_code a) (c_id a) (c_token a) opts pl.

Lemma nibbles b : byte b -> Z.shiftr b 4 = b / 16 /\ Z.land b 0x0F = b mod 16 /\ 0 <= b / 16 < 16 /\ 0 <= b mod 16 < 16.
Proof.
  intros Hb. unfold byte in Hb. split; [by rewrite Z.shiftr_div_pow2 by lia|]. split; [by apply (Z.land_ones b 4)|].
  split; [|apply Z.mod_pos_bound; lia]. split; [apply Z.div_pos; lia|]. apply Z.div_lt_upper_bound; lia.
Qed.

Lemma place_option_last n v l : Forall (fun y => y.1 <= n) l -> place_option (n, v) l = l ++ [(n, v)].
Proof.
  intros H. unfold place_option. cbn [fst]. rewrite filter_everything by done. rewrite (filter_nothing (fun y : Z * list Z => n < y.1)); [done|].
  eapply Forall_impl; [exact H|]. cbn. lia.
Qed.

Section Decode.
Context (MaxOptions OptionValueCapacity PayloadCapacity : nat) (data : list Z) (Hdata : Forall byte data) (a0 : coap).
Local Abbreviation good := (good MaxOptions OptionValueCapacity PayloadCapacity).
Local Abbreviation rest_at := (rest_at (judge MaxOptions OptionValueCapacity) PayloadCapacity data).
Local Abbreviation judge := (judge MaxOptions OptionValueCapacity).
Local Abbreviation body := (decode_body MaxOptions OptionValueCapacity PayloadCapacity data (length data)).

Definition body_inv (num : Z) (m : message) (kept : list (Z * list Z)) : Prop :=
  good m (with_rest a0 kept []) /\ Forall (fun y => y.1 <= num) kept /\ 0 <= num <= 65535.

Definition body_returns (pos : nat) (num : Z) (kept : list (Z * list Z)) (x : exec (ctl (status * decode_error * message) (nat * Z * message))) : Prop :=
  exists s e m' opts pl, x = Done (Return (s, e, m')) /\ rest_at pos num kept s e opts pl /\ good m' (with_rest a0 opts pl).

Definition body_proceeds (pos : nat) (num : Z) (kept : list (Z * list Z)) (x : exec (ctl (status * decode_error * message) (nat * Z * message))) : Prop :=
  exists n v len kept' m', x = Done (Next ((pos + len)%nat, n, m')) /\ option_at data pos num n v len /\ judge kept (n, v) = inr kept' /\ body_inv n m' kept'.

(** The payload marker. *)
Lemma payload_pass pos num m kept : body_inv num m kept -> data !! pos = Some 0xFF -> body_returns pos num kept (body (pos, num, m)).
Proof using Hdata.
  intros (Hg & _ & _) Hx. pose proof (lookup_lt_Some _ _ _ Hx) as Hlt. unfold decode_body. rewrite (load_Done _ _ _ Hx), bind_Done, Z.eqb_refl.
  destruct (Nat.eqb_spec (pos + 1) (length data)) as [E|NE].
  { eexists _, _, m, kept, []. split; [done|]. split; [by constructor|done]. }
  pose proof (run_message_op_ok MaxOptions OptionValueCapacity PayloadCapacity m _ (M_payload (Some (drop (pos + 1) data)) (length data - (pos + 1))) Hg) as (m' & Em & Hm').
  { cbn [op_valid readable]. rewrite length_drop. lia. }
  cbn [run_message_op spec_message_op octets_of] in Em, Hm'. rewrite (take_ge (drop (pos + 1) data)) in Em, Hm' by (rewrite length_drop; lia). rewrite length_drop in Em, Hm'.
  rewrite Em, bind_Done. destruct (Nat.ltb_spec PayloadCapacity (length data - (pos + 1))) as [Hlarge|Hfits]; cbn [fst snd] in *.
  - eexists _, _, m', kept, []. split; [done|]. split; [by constructor|done].
  - eexists _, _, m', kept, _. split; [done|]. split; [apply RA_payload; [done|lia|done]|done].
Qed.

(** An option that does not make a number or does not fit. *)
Lemma malformed_pass pos num m kept h : body_inv num m kept -> data !! pos = Some h -> h <> 0xFF -> (forall n v len, ~ option_at data pos num n v len) ->
  body_returns pos num kept (Done (Return (s_invalid_argument, malformed_option, m))).
Proof. intros (Hg & _ & _) Hx Hne H. eexists _, _, m, kept, []. split; [done|]. split; [by eapply RA_malformed|done]. Qed.

(** The end of a pass, once the option is read. *)
Lemma judged_pass pos num m kept n v len vpos : body_inv num m kept -> option_at data pos num n v len -> num <= n <= 65535 -> 0 < n ->
  v = take (length v) (drop vpos data) -> (vpos + length v = pos + len)%nat ->
  let x :=
    (recognized ← (let recognized := is_supported_option (to_u16 n) && valid_option_length (to_u16 n) (length v) in
                   if recognized && negb (is_repeatable_option (to_u16 n)) then
                     found ← find_option m (to_u16 n); Done (bool_decide (found = None))
                   else Done recognized);
     if negb recognized then
       if is_critical_option (to_u16 n) then Done (Return (s_not_configured, unknown_critical_option, m))
       else Done (Next ((vpos + length v)%nat, n, m))
     else
       '(result, output) ← append_option MaxOptions OptionValueCapacity m (to_u16 n) (if (length v =? 0)%nat then None else Some (drop vpos data)) (length v);
       if negb (succeeded result) then Done (Return (result, capacity_exceeded, output))
       else Done (Next ((vpos + length v)%nat, n, output))) in
  body_returns pos num kept x \/ body_proceeds pos num kept x.
Proof using Hdata.
  intros (Hg & Hk & Hn) Ho Hnn Hpos Hv Hend. cbv zeta. rewrite (wrap_small 16 n) by (unfold in_width; lia).
  assert (Hkn : Forall (fun y => y.1 <= n) kept) by (eapply Forall_impl; [exact Hk|]; cbn; lia).
  match goal with |- body_returns _ _ _ (?r ≫= _) \/ _ => assert (Hr : r = Done (known kept (n, v))) end.
  { unfold known. cbn [fst snd]. destruct (is_supported_option n && valid_option_length n (length v)); [|done]. cbn [andb].
    destruct (is_repeatable_option n); [done|]. cbn [negb orb]. rewrite (find_option_ok MaxOptions OptionValueCapacity PayloadCapacity m _ n Hg), bind_Done. f_equal.
    cbn [with_rest c_options]. apply bool_decide_ext. rewrite fmap_None. apply list_find_None. }
  rewrite Hr, bind_Done. clear Hr. destruct (known kept (n, v)) eqn:Ek; cbn [negb].
  - assert (Hoct : octets_of (if (length v =? 0)%nat then None else Some (drop vpos data)) (length v) = Some v).
    { destruct (Nat.eqb_spec (length v) 0) as [E0|N0]; cbn [octets_of].
      - rewrite E0. cbn. f_equal. symmetry. by apply nil_length_inv.
      - by rewrite <-Hv. }
    destruct (append_option_good MaxOptions OptionValueCapacity PayloadCapacity m _ n _ _ v Hg Hoct) as (m' & Ea & Hg').
    { destruct (length v =? 0)%nat; [done|]. cbn [readable]. destruct (option_at_head _ _ _ _ _ _ Ho) as (_ & Hle & _). rewrite length_drop. lia. }
    rewrite Ea, bind_Done. assert (Hj : judge kept (n, v) = if (OptionValueCapacity <? length v)%nat then inl (s_out_of_range, capacity_exceeded)
      else if (MaxOptions <=? length kept)%nat then inl (s_full, capacity_exceeded) else inr (kept ++ [(n, v)])) by (unfold CoapCodec.judge; by rewrite Ek).
    revert Hg'. unfold spec_append. rewrite (proj2 (Z.eqb_neq n 0)) by lia. cbn [with_rest c_options set_options].
    destruct (OptionValueCapacity <? length v)%nat; cbn [fst snd negb].
    { intros Hg'. left. eexists _, _, m', kept, []. split; [done|]. split; [by eapply RA_refused|done]. }
    destruct (MaxOptions <=? length kept)%nat; cbn [fst snd negb].
    { intros Hg'. left. eexists _, _, m', kept, []. split; [done|]. split; [by eapply RA_refused|done]. }
    intros Hg'. right. change (succeeded s_ok) with true. cbn [negb]. rewrite place_option_last in Hg' by done. exists n, v, len, (kept ++ [(n, v)]), m'. rewrite <-Hend. split; [done|]. split; [done|]. split; [done|].
    split; [exact Hg'|]. split; [|lia]. apply Forall_app_2; [done|]. by constructor.
  - destruct (is_critical_option n) eqn:Ec.
    + left. eexists _, _, m, kept, []. split; [done|]. split; [|done]. eapply RA_refused; [done|]. unfold CoapCodec.judge. cbn [fst]. by rewrite Ek, Ec.
    + right. exists n, v, len, kept, m. rewrite <-Hend. split; [done|]. split; [done|]. split; [unfold CoapCodec.judge; cbn [fst]; by rewrite Ek, Ec|]. split; [done|]. split; [done|lia].
Qed.

Lemma option_pass pos num m kept h : body_inv num m kept -> data !! pos = Some h -> h <> 0xFF ->
  body_returns pos num kept (body (pos, num, m)) \/ body_proceeds pos num kept (body (pos, num, m)).
Proof using Hdata.
  intros Hinv Hx Hne. pose proof (lookup_lt_Some _ _ _ Hx) as Hlt. assert (Hh : byte h) by (by apply (Forall_lookup_1 _ _ _ _ Hdata Hx)).
  pose proof (malformed_pass pos num m kept h Hinv Hx Hne) as Hbad. destruct (nibbles h Hh) as (E1 & E2 & R1 & R2). assert (Hnum : 0 <= num <= 65535) by apply Hinv.
  unfold decode_body. rewrite (load_Done _ _ _ Hx), bind_Done, (proj2 (Z.eqb_neq h 255)), E1, E2 by done.
  assert (Hread : forall n v len, option_at data pos num n v len -> exists d kd l kl, ext_at data (pos + 1) (h / 16) d kd /\ ext_at data (pos + 1 + kd) (h mod 16) l kl
     /\ n = num + d /\ 0 < n <= 65535 /\ (pos + 1 + kd + kl + Z.to_nat l <= length data)%nat).
  { intros n v len (h' & d & kd & l & kl & Hh' & _ & H1 & H2 & -> & Hn & -> & Hle & _). rewrite Hx in Hh'. injection Hh' as <-. exists d, kd, l, kl. split_and!; try done; lia. }
  assert (H15 : forall v k at_, ~ ext_at data at_ 15 v k) by (intros v k at_ H; inversion H; lia).
  destruct ((h / 16 =? 15) || (h mod 16 =? 15)) eqn:E15.
  { left. apply Hbad. intros n v len (d & kd & l & kl & H1 & H2 & _)%Hread. apply orb_true_iff in E15 as [E%Z.eqb_eq|E%Z.eqb_eq]; rewrite E in *; by eapply H15. }
  apply orb_false_iff in E15 as [N1%Z.eqb_neq N2%Z.eqb_neq].
  destruct (decode_nibble_ok data (pos + 1) (h / 16) Hdata) as [(d & kd & -> & H1 & Hle1 & Hd)|[-> H1]]; [lia|lia| |].
  2:{ rewrite bind_Done. change (succeeded s_invalid_argument) with false. cbv iota. rewrite bind_Done. change (succeeded s_invalid_argument) with false. cbn [negb orb]. left. apply Hbad. intros n v len (d & kd & l & kl & H & _)%Hread. by eapply H1. }
  rewrite bind_Done. change (succeeded s_ok) with true. cbv iota.
  destruct (decode_nibble_ok data (pos + 1 + kd) (h mod 16) Hdata) as [(l & kl & -> & H2 & Hle2 & Hl)|[-> H2]]; [lia|lia| |].
  2:{ rewrite bind_Done. change (succeeded s_invalid_argument) with false. cbn [negb orb]. left. apply Hbad. intros n v len (d' & kd' & l & kl & Hd' & Hl' & _)%Hread.
      destruct (ext_at_fun _ _ _ _ _ _ _ H1 Hd') as [<- <-]. by eapply H2. }
  rewrite bind_Done. change (succeeded s_ok) with true. cbn [negb orb].
  assert (Hsame : forall n v len, option_at data pos num n v len -> n = num + d /\ 0 < n <= 65535 /\ (pos + 1 + kd + kl + Z.to_nat l <= length data)%nat).
  { intros n v len (d' & kd' & l' & kl' & Hd' & Hl' & -> & Hn & Hle)%Hread. destruct (ext_at_fun _ _ _ _ _ _ _ H1 Hd') as [<- <-]. destruct (ext_at_fun _ _ _ _ _ _ _ H2 Hl') as [<- <-]. done. }
  destruct (Z.ltb_spec (65535 - num) d) as [Hbig|Hsmall]; cbn [orb].
  { left. apply Hbad. intros n v len (-> & ? & _)%Hsame. lia. }
  destruct (Z.ltb_spec (Z.of_nat (length data - (pos + 1 + kd + kl))) l) as [Hlong|Hfits].
  { left. apply Hbad. intros n v len (-> & _ & Hle)%Hsame. lia. }
  cbv zeta. destruct (Z.eqb_spec (num + d) 0) as [E0|N0].
  { left. apply Hbad. intros n v len (-> & ? & _)%Hsame. lia. }
  set (v := take (Z.to_nat l) (drop (pos + 1 + kd + kl) data)).
  assert (Hv : length v = Z.to_nat l) by (subst v; rewrite length_take, length_drop; lia).
  pose proof (judged_pass pos num m kept (num + d) v (1 + kd + kl + Z.to_nat l)%nat (pos + 1 + kd + kl)%nat Hinv) as Hj. rewrite Hv in Hj.
  apply Hj; [|lia|lia|reflexivity|lia].
  exists h, d, kd, l, kl. split_and!; try done; lia.
Qed.

Lemma options_loop fuel pos num m kept : body_inv num m kept -> (pos <= length data)%nat -> (length data - pos < fuel)%nat ->
  exists s e m' opts pl, after (while_loop fuel (fun '(position, _, _) => Done (position <? length data)%nat) body (pos, num, m)) (fun '(_, _, output) => Done (s_ok, none, output)) = Done (s, e, m')
    /\ rest_at pos num kept s e opts pl /\ good m' (with_rest a0 opts pl).
Proof using Hdata.
  revert pos num m kept. induction fuel as [|fuel IH]; intros pos num m kept Hinv Hpos Hf; [lia|]. cbn [while_loop].
  destruct (Nat.ltb_spec pos (length data)) as [Hlt|Hge].
  - destruct (lookup_lt_is_Some_2 data pos) as [h Hx]; [done|].
    assert (Hpass : body_returns pos num kept (body (pos, num, m)) \/ body_proceeds pos num kept (body (pos, num, m))).
    { destruct (decide (h = 0xFF)) as [->|Hne]; [left; by apply payload_pass|by eapply option_pass]. }
    destruct Hpass as [(s & e & m' & opts & pl & -> & Hr & Hg)|(n & v & len & kept' & m' & -> & Ho & Hj & Hinv')].
    + exists s, e, m', opts, pl. done.
    + destruct (option_at_head _ _ _ _ _ _ Ho) as (H0 & Hle & _).
      destruct (IH (pos + len)%nat n m' kept' Hinv') as (s & e & m2 & opts & pl & E & Hr & Hg); [lia|lia|].
      exists s, e, m2, opts, pl. split; [exact E|]. split; [by eapply RA_option|done].
  - assert (pos = length data) as -> by lia. cbn [after]. eexists _, _, m, kept, []. split; [done|]. split; [constructor|apply Hinv].
Qed.
End Decode.

Section DecodeMessage.
Context (MaxOptions OptionValueCapacity PayloadCapacity : nat) (data : list Z) (Hdata : Forall byte data).
Local Abbreviation good := (good MaxOptions OptionValueCapacity PayloadCapacity).
Local Abbreviation shaped := (shaped MaxOptions OptionValueCapacity PayloadCapacity).

Lemma with_header_good m a ver t c id tok buffer : good m a -> c_options a = [] -> c_payload a = [] -> length buffer = maximum_token_length -> held (length tok) buffer tok ->
  good (with_header m ver t c id buffer (length tok)) (mk_coap ver t c id tok [] []).
Proof.
  intros [((Ht & Ho & Hsz & Hp) & _ & _ & _ & _ & _ & Hpay & Hc & Hle & _) _] Eo Ep Hb Hh. split; [|constructor].
  rewrite Eo in Hc. rewrite Ep in Hpay. unfold CoapMessage.holds, CoapMessage.shaped. cbn. split_and!; try done; lia.
Qed.

Lemma read_token m n : length (token m) = maximum_token_length -> (n <= maximum_token_length)%nat -> (4 + n <= length data)%nat ->
  for_to 0 n (fun i tok => b ← load data (4 + i); store tok i b) (token m) = Done (wrote (token m) 0 (take n (drop 4 data))).
Proof.
  intros Hm Hn Hd. destruct (for_to_inv (fun i o => o = wrote (token m) 0 (take i (drop 4 data))) (fun i tok => b ← load data (4 + i); store tok i b) 0 n (token m)) as (o & -> & ->); [done| |done].
  intros i o Hi ->. destruct (lookup_lt_is_Some_2 data (4 + i)) as [c Hc]; [lia|]. rewrite (load_Done _ _ _ Hc), bind_Done.
  rewrite store_wrote by (rewrite ?length_take, ?length_drop; lia). eexists. split; [done|]. rewrite (take_S_r _ _ c); [done|]. by rewrite lookup_drop.
Qed.

Lemma decode_message_ok m : shaped m -> exists s e m', decode_message MaxOptions OptionValueCapacity PayloadCapacity (Some data) (length data) m = Done (s, e, m')
  /\ match header_error data with
     | Some err => s = s_invalid_argument /\ e = err /\ shaped m'
     | None => exists a, datagram (judge MaxOptions OptionValueCapacity) PayloadCapacity data s e a /\ good m' a
     end.
Proof using Hdata.
  intros Hm. pose proof (good_clear MaxOptions OptionValueCapacity PayloadCapacity m Hm) as Hc. assert (Hcs : shaped (clear m)) by apply Hc.
  unfold decode_message. destruct (Nat.ltb_spec (length data) 4) as [Hshort|Hlen].
  { eexists _, _, _. split; [done|]. unfold header_error. destruct data as [|? [|? [|? [|]]]]; cbn in Hshort; try lia; done. }
  destruct data as [|b0 [|code [|i1 [|i2 rest]]]] eqn:Ed; try (cbn in Hlen; lia). rewrite <-Ed in Hdata, Hlen |- *.
  assert (L0 : data !! 0%nat = Some b0) by by rewrite Ed. assert (L1 : data !! 1%nat = Some code) by by rewrite Ed.
  assert (Hb0 : byte b0) by (by apply (Forall_lookup_1 _ _ _ _ Hdata L0)). assert (Hbc : byte code) by (by apply (Forall_lookup_1 _ _ _ _ Hdata L1)).
  assert (Hhe : header_error data = let tkl := Z.to_nat (b0 mod 16) in let type := (b0 / 16) mod 4 in
      if negb (b0 / 64 =? protocol_version) then Some unsupported_version
      else if (maximum_token_length <? tkl)%nat || (length data <? 4 + tkl)%nat then Some invalid_token_length
      else if code =? 0 then
        if (tkl =? 0)%nat && (length data =? 4)%nat && ((type =? acknowledgement) || (type =? reset)) then None else Some malformed_header
      else if (type =? reset) || ((type =? acknowledgement) && (code / 32 =? 0)) then Some malformed_header else None) by by rewrite Ed.
  rewrite Hhe. clear Hhe. rewrite (load_Done _ _ _ L0), bind_Done. destruct (nibbles b0 Hb0) as (E4 & E15 & _ & R15).
  unfold byte in Hb0, Hbc.
  assert (Ev : to_u8 (Z.shiftr b0 6) = b0 / 64). { rewrite Z.shiftr_div_pow2 by lia. change (2 ^ 6) with 64. apply wrap_small. unfold in_width. divlia. }
  assert (Et : to_u8 (Z.land b0 0x0F) = b0 mod 16). { rewrite E15. apply wrap_small. unfold in_width. lia. }
  assert (Ety : Z.land (Z.shiftr b0 4) 0x03 = (b0 / 16) mod 4) by (rewrite E4; by apply (Z.land_ones _ 2)).
  rewrite Ev, Et, Ety. set (tkl := Z.to_nat (b0 mod 16)). cbv zeta. set (ty := (b0 / 16) mod 4).
  destruct (negb (b0 / 64 =? protocol_version)); [by eexists _, _, _|].
  destruct ((maximum_token_length <? tkl)%nat || (length data <? 4 + tkl)%nat) eqn:Etk; [by eexists _, _, _|].
  apply orb_false_iff in Etk as [H8%Nat.ltb_ge Hd%Nat.ltb_ge].
  rewrite (load_Done _ _ _ L1), bind_Done, read_be16_field, bind_Done by (done || lia).
  rewrite (read_token (clear m)) by (done || apply Hcs). rewrite bind_Done.
  set (tok := take tkl (drop 4 data)). assert (Hlt : length tok = tkl) by (subst tok; rewrite length_take, length_drop; lia). rewrite <-Hlt.
  assert (Hg : good (with_header (clear m) (b0 / 64) ty code (field data 2 2) (wrote (token (clear m)) 0 tok) (length tok)) (mk_coap (b0 / 64) ty code (field data 2 2) tok [] [])).
  { assert (length (token (clear m)) = maximum_token_length) by apply Hcs. apply (with_header_good _ coap_new); try done; [rewrite length_wrote; lia|]. apply held_wrote. lia. }
  assert (E5 : Z.shiftr code 5 = code / 32) by (by rewrite Z.shiftr_div_pow2 by lia). rewrite E5.
  set (m1 := with_header _ _ _ _ _ _ _) in *.
  assert (Hs1 : shaped m1) by apply Hg.
  assert (Hdg : forall s e opts pl, (if code =? 0 then s = s_ok /\ e = none /\ opts = [] /\ pl = [] else rest_at (judge MaxOptions OptionValueCapacity) PayloadCapacity data (4 + tkl) 0 [] s e opts pl) ->
     datagram (judge MaxOptions OptionValueCapacity) PayloadCapacity data s e (mk_coap (b0 / 64) ty code (field data 2 2) tok opts pl)).
  { intros s e opts pl H. exists b0, opts, pl. cbv zeta. cbn [c_code]. fold tkl. done. }
  destruct (Z.eqb_spec code 0) as [Ez|Nz].
  - assert (Eh : (length tok =? 0)%nat && (length data =? 4)%nat && ((ty =? acknowledgement) || (ty =? reset))
        = negb (negb (length tok =? 0)%nat || negb (length data =? 4)%nat || (negb (ty =? acknowledgement) && negb (ty =? reset))))
      by (by destruct (length tok =? 0)%nat, (length data =? 4)%nat, (ty =? acknowledgement), (ty =? reset)).
    rewrite Eh. clear Eh.
    destruct (negb (length tok =? 0)%nat || negb (length data =? 4)%nat || (negb (ty =? acknowledgement) && negb (ty =? reset))); cbn [negb]; [by eexists _, _, _|].
    eexists _, _, _. split; [done|]. eexists. split; [by apply Hdg|done].
  - destruct ((ty =? reset) || ((ty =? acknowledgement) && (code / 32 =? 0))); [by eexists _, _, _|].
    destruct (options_loop MaxOptions OptionValueCapacity PayloadCapacity data Hdata (mk_coap (b0 / 64) ty code (field data 2 2) tok [] []) (S (length data)) (4 + length tok) 0 m1 []) as (s & e & m' & opts & pl & E & Hr & Hg').
    + split; [exact Hg|]. split; [constructor|lia].
    + lia.
    + lia.
    + exists s, e, m'. split; [exact E|]. eexists. split; [|exact Hg']. apply Hdg. by rewrite Hlt in Hr.
Qed.
End DecodeMessage.

(** ** Encoding *)

Definition nib (v : Z) : Z := if v <? 13 then v else if v <? 269 then 13 else 14.
Definition ext_bytes (v : Z) : list Z := if v <? 13 then [] else if v <? 269 then [v - 13] else be16 (v - 269).
Definition option_bytes (prev : Z) (x : Z * list Z) : list Z :=
  let delta := x.1 - prev in let len := Z.of_nat (length x.2) in
  (16 * nib delta + nib len) :: ext_bytes delta ++ ext_bytes len ++ x.2.
Fixpoint options_bytes (prev : Z) (l : list (Z * list Z)) : list Z :=
  match l with [] => [] | x :: l => option_bytes prev x ++ options_bytes x.1 l end.
Definition payload_bytes (pl : list Z) : list Z := match pl with [] => [] | _ => 0xFF :: pl end.
Definition head_bytes (a : coap) : list Z :=
  [64 + 16 * c_type a + Z.of_nat (length (c_token a)); c_code a] ++ be16 (c_id a) ++ c_token a.
Definition message_bytes (a : coap) : list Z := head_bytes a ++ options_bytes 0 (c_options a) ++ payload_bytes (c_payload a).

(** What may be sent: the types and codes that go together, and options in order whose
    lengths are those of their numbers. *)
Definition option_ok (prev : Z) (x : Z * list Z) : bool :=
  (0 <? x.1) && (prev <=? x.1) && (Z.of_nat (length x.2) <=? 65804) && (negb (is_supported_option x.1) || valid_option_length x.1 (length x.2)).
Fixpoint options_ok (prev : Z) (l : list (Z * list Z)) : bool :=
  match l with [] => true | x :: l => option_ok prev x && options_ok x.1 l end.
Definition head_ok (a : coap) : bool :=
  (c_version a =? protocol_version) && (c_type a <=? reset) &&
  (if c_code a =? code_empty then
     bool_decide (c_token a = []) && bool_decide (c_options a = []) && bool_decide (c_payload a = []) && ((c_type a =? acknowledgement) || (c_type a =? reset))
   else negb (c_type a =? reset) && negb ((c_type a =? acknowledgement) && (c_code a / 32 =? 0))).
Definition sendable (a : coap) : bool := head_ok a && options_ok 0 (c_options a).

(** The fields have the widths of their types. *)
Definition in_fields (a : coap) : Prop :=
  byte (c_version a) /\ byte (c_type a) /\ byte (c_code a) /\ in_width 16 (c_id a) /\ Forall byte (c_token a) /\ Forall byte (c_payload a)
  /\ Forall (fun x => in_width 16 x.1 /\ Forall byte x.2) (c_options a).

(** [bytes] behind what is written, if there is room. *)
Definition put (out pre bytes : list Z) (r : exec (status * list Z * nat)) : Prop :=
  (length pre + length bytes <= length out)%nat /\ r = Done (s_ok, wrote out 0 (pre ++ bytes), (length pre + length bytes)%nat)
  \/ (length out < length pre + length bytes)%nat /\ exists o u, r = Done (s_full, o, u) /\ length o = length out.

Lemma put_bind out pre a b r (f : list Z -> nat -> exec (status * list Z * nat)) :
  put out pre a r -> ((length pre + length a <= length out)%nat -> put out (pre ++ a) b (f (wrote out 0 (pre ++ a)) (length pre + length a)%nat)) ->
  put out pre (a ++ b) ('(result, o, u) ← r; if succeeded result then f o u else Done (result, o, u)).
Proof.
  intros [[Hle ->]|(Hgt & o & u & -> & Ho)] Hf; rewrite bind_Done.
  - change (succeeded s_ok) with true. cbv iota. unfold put. rewrite (length_app a b). destruct (Hf Hle) as [[Hle' ->]|(Hgt & o & u & -> & Ho)]; rewrite length_app in *.
    + left. split; [lia|]. rewrite <-app_assoc. do 2 f_equal. lia.
    + right. split; [lia|]. by exists o, u.
  - unfold put. rewrite (length_app a b). right. split; [lia|]. by exists o, u.
Qed.

Lemma write_byte_ok out pre v : (length pre <= length out)%nat -> put out pre [v] (write_byte (wrote out 0 pre) (length out) (length pre) v).
Proof.
  intros H. unfold write_byte. destruct (Nat.leb_spec (length out) (length pre)) as [Hle|Hlt].
  - right. cbn [length]. split; [lia|]. eexists _, _. split; [done|]. rewrite length_wrote; lia.
  - left. cbn [length]. split; [lia|]. rewrite store_wrote by lia. done.
Qed.

Lemma write_extended_ok out pre v : (length pre <= length out)%nat -> 0 <= v <= 65804 ->
  put out pre (ext_bytes v) (write_extended (wrote out 0 pre) (length out) (length pre) (nib v) v).
Proof.
  intros H Hv. unfold write_extended, nib, ext_bytes. destruct (Z.ltb_spec v 13) as [H1|H1].
  { rewrite (proj2 (Z.ltb_lt v 13)) by done. left. cbn [length]. rewrite Nat.add_0_r, app_nil_r. split; [lia|done]. }
  destruct (Z.ltb_spec v 269) as [H2|H2].
  { cbn [Z.ltb Z.eqb Z.compare Pos.compare Pos.compare_cont Pos.eqb]. rewrite wrap_small by (unfold in_width; lia). by apply write_byte_ok. }
  cbn [Z.ltb Z.eqb Z.compare Pos.compare Pos.compare_cont Pos.eqb]. rewrite wrap_small by (unfold in_width; lia).
  unfold put. rewrite length_be16. destruct (Nat.ltb_spec (length out - length pre) 2) as [Hlt|Hge].
  - right. split; [lia|]. eexists _, _. split; [done|]. rewrite length_wrote; lia.
  - left. split; [lia|]. rewrite write_be16_bytes by (rewrite length_wrote; lia). rewrite bind_Done. fold (be16 (v - 269)).
    rewrite wrote_app by (rewrite ?length_be16; lia). done.
Qed.

Lemma copy_out (out pre src : list Z) n : (n <= length src)%nat -> (length pre + n <= length out)%nat ->
  for_to 0 n (fun j '(output, written) => v ← load src j; output ← store output written v; Done (output, (written + 1)%nat)) (wrote out 0 pre, length pre)
  = Done (wrote out 0 (pre ++ take n src), (length pre + n)%nat).
Proof.
  intros Hs Ho. destruct (for_to_inv (fun i st => st = (wrote out 0 (pre ++ take i src), (length pre + i)%nat))
    (fun j '(output, written) => v ← load src j; output ← store output written v; Done (output, (written + 1)%nat)) 0 n (wrote out 0 pre, length pre)) as (st & -> & ->).
  - by rewrite app_nil_r, Nat.add_0_r.
  - intros i st Hi ->. destruct (lookup_lt_is_Some_2 src i) as [c Hc]; [lia|]. rewrite (load_Done _ _ _ Hc), bind_Done.
    rewrite store_wrote by (rewrite ?length_app, ?length_take; lia). rewrite bind_Done. eexists. split; [done|]. rewrite (take_S_r _ _ _ Hc), <-app_assoc. f_equal. lia.
  - done.
Qed.

Section Encode.
Context (MaxOptions OptionValueCapacity PayloadCapacity : nat) (Hcap : Z.of_nat OptionValueCapacity < 2 ^ 32).
Context (m : message) (a : coap) (Hm : holds MaxOptions OptionValueCapacity PayloadCapacity m a) (Ha : in_fields a) (out : list Z).

Lemma value_length x : x ∈ c_options a -> (length x.2 <= OptionValueCapacity)%nat.
Proof using Hm.
  intros [i Hi]%list_elem_of_lookup. destruct (option_lookup MaxOptions OptionValueCapacity PayloadCapacity m a i x Hm Hi) as (o & Ho & _ & _ & Hv).
  assert (Hs : opt_sized OptionValueCapacity o). { destruct Hm as ((_ & _ & Hsz & _) & _). by apply (Forall_lookup_1 _ _ _ _ Hsz Ho). }
  unfold opt_sized in Hs. apply (f_equal length) in Hv. rewrite length_take in Hv. lia.
Qed.

Lemma encode_option_ok i x pre prev : c_options a !! i = Some x -> (length pre <= length out)%nat -> 0 <= prev ->
  let r := encode_option OptionValueCapacity m (length out) i (wrote out 0 pre, length pre, prev) in
  if option_ok prev x then
    (length pre + length (option_bytes prev x) <= length out)%nat /\ r = Done (Next (wrote out 0 (pre ++ option_bytes prev x), (length pre + length (option_bytes prev x))%nat, x.1))
    \/ (length out < length pre + length (option_bytes prev x))%nat /\ exists o, r = Done (Return (s_full, o, 0%nat)) /\ length o = length out
  else exists o, r = Done (Return (s_invalid_argument, o, 0%nat)) /\ length o = length out.
Proof using Hcap Hm Ha.
  intros Hx Hpre Hprev r. subst r. destruct (option_lookup MaxOptions OptionValueCapacity PayloadCapacity m a i x Hm Hx) as (o & Ho & Hn & Hl & Hv).
  pose proof (value_length x (list_elem_of_lookup_2 _ _ _ Hx)) as Hlen.
  assert (Hx16 : in_width 16 x.1). { destruct Ha as (_ & _ & _ & _ & _ & _ & Hall). by apply (Forall_lookup_1 _ _ _ _ Hall Hx). } unfold in_width in Hx16. change (2 ^ 16) with 65536 in Hx16.
  unfold encode_option, option_ok. rewrite (load_Done _ _ _ Ho), bind_Done, Hn, Hl. rewrite (proj2 (Nat.ltb_ge _ _) Hlen), orb_false_r.
  rewrite (wrap_small 32 (Z.of_nat (length x.2))) by (unfold in_width; lia).
  assert (Hw : length (wrote out 0 pre) = length out) by (rewrite length_wrote; lia).
  destruct (Z.eqb_spec x.1 0) as [E0|N0]; cbn [orb].
  { rewrite (proj2 (Z.ltb_ge 0 x.1)) by lia. cbn [andb]. by eexists. }
  rewrite (proj2 (Z.ltb_lt 0 x.1)) by lia. cbn [andb].
  destruct (Z.ltb_spec x.1 prev) as [Hlt|Hge]; cbn [orb].
  { rewrite (proj2 (Z.leb_gt prev x.1)) by lia. cbn [andb]. by eexists. }
  rewrite (proj2 (Z.leb_le prev x.1)) by lia. cbn [andb].
  rewrite (wrap_small 32 (x.1 - prev)) by (unfold in_width; lia). rewrite (proj2 (Z.ltb_ge 65804 (x.1 - prev))) by lia. cbn [orb].
  rewrite <-(negb_involutive (negb (is_supported_option x.1) || _)), negb_orb, negb_involutive.
  destruct (is_supported_option x.1 && negb (valid_option_length x.1 (length x.2))); cbn [negb]; [rewrite andb_false_r; by eexists|]. rewrite andb_true_r.
  rewrite (Z.leb_antisym 65804 (Z.of_nat (length x.2))).
  destruct (Z.ltb_spec 65804 (Z.of_nat (length x.2))) as [Hbig|Hsmall]; cbn [negb]; [by eexists|].
  set (delta := x.1 - prev) in *. set (len := Z.of_nat (length x.2)) in *. cbv zeta.
  assert (Hnib : forall v, 0 <= v -> encode_nibble v = nib v /\ 0 <= nib v <= 14).
  { intros v H0. unfold encode_nibble, nib. cmp_cases; try lia. rewrite wrap_small by (unfold in_width; lia). lia. }
  destruct (Hnib delta) as [-> Hnd]; [lia|]. destruct (Hnib len) as [-> Hnl]; [lia|].
  rewrite lor_shiftl_add by lia. rewrite (wrap_small 8) by (unfold in_width; change (2 ^ 4) with 16; change (2 ^ 8) with 256; lia). change (2 ^ 4) with 16.
  replace (nib delta * 16 + nib len) with (16 * nib delta + nib len) by lia. set (h := 16 * nib delta + nib len).
  assert (Eb : option_bytes prev x = (([h] ++ ext_bytes delta) ++ ext_bytes len) ++ x.2) by (unfold option_bytes; fold delta len h; cbn [app]; by rewrite <-app_assoc).
  rewrite Eb. clear Eb.
  pose proof (write_byte_ok out pre h Hpre) as P1.
  pose proof (put_bind out pre [h] (ext_bytes delta) _ (fun o u => write_extended o (length out) u (nib delta) delta) P1) as P2.
  lapply P2; [clear P2; intros P2|intros H; rewrite <-length_app; apply write_extended_ok; [rewrite length_app; done|lia]].
  pose proof (put_bind out pre _ (ext_bytes len) _ (fun o u => write_extended o (length out) u (nib len) len) P2) as P3.
  lapply P3; [clear P3; intros P3|intros H; rewrite <-length_app; apply write_extended_ok; [rewrite length_app; done|lia]].
  set (hd := ([h] ++ ext_bytes delta) ++ ext_bytes len) in *. clear P1 P2.
  match type of P3 with put _ _ _ (?r ≫= ?k) => match goal with |- context [write_byte ?o ?c ?u h ≫= ?k1] =>
    assert (Ebind : forall f : status * list Z * nat -> exec (ctl (status * list Z * nat) (list Z * nat * Z)),
      (write_byte o c u h ≫= (fun '(result, output, written) =>
         (if succeeded result then write_extended output (length out) written (nib delta) delta else Done (result, output, written)) ≫= (fun '(result, output, written) =>
         (if succeeded result then write_extended output (length out) written (nib len) len else Done (result, output, written)) ≫= f))) = ((r ≫= k) ≫= f)) end end.
  { intros f. destruct (write_byte _ _ _ h) as [[[? ?] ?]|]; [|done]. rewrite !bind_Done. destruct (if succeeded s then _ else _) as [[[? ?] ?]|]; [|done]. by rewrite !bind_Done. }
  rewrite Ebind. clear Ebind.
  destruct P3 as [[Hle ->]|(Hgt & o' & u & -> & Ho')]; rewrite bind_Done.
  - change (succeeded s_ok) with true. cbn [negb orb]. rewrite (length_app hd). destruct (Z.ltb_spec (Z.of_nat (length out - (length pre + length hd))) len) as [Hno|Hyes].
    + right. split; [lia|]. eexists. split; [done|]. rewrite length_wrote; rewrite ?length_app; lia.
    + left. split; [lia|]. rewrite <-length_app. assert (Hval : (length x.2 <= length (value o))%nat) by (apply (f_equal length) in Hv; rewrite length_take in Hv; lia).
      rewrite copy_out by (rewrite ?length_app; lia). rewrite bind_Done, Hv, length_app, <-app_assoc. do 4 f_equal. lia.
  - change (succeeded s_full) with false. cbn [negb orb]. right. rewrite length_app. split; [lia|]. by exists o'.
Qed.

Lemma encode_options_ok n i pre prev : (i + n = length (c_options a))%nat -> (length pre <= length out)%nat -> 0 <= prev ->
  let l := drop i (c_options a) in
  (exists last, options_ok prev l = true /\ (length pre + length (options_bytes prev l) <= length out)%nat
     /\ for_range i n (encode_option OptionValueCapacity m (length out)) (wrote out 0 pre, length pre, prev)
        = Done (Next (wrote out 0 (pre ++ options_bytes prev l), (length pre + length (options_bytes prev l))%nat, last)))
  \/ exists s o, for_range i n (encode_option OptionValueCapacity m (length out)) (wrote out 0 pre, length pre, prev) = Done (Return (s, o, 0%nat)) /\ length o = length out
     /\ (s = s_full /\ (length out < length pre + length (options_bytes prev l))%nat \/ s = s_invalid_argument /\ options_ok prev l = false).
Proof using Hcap Hm Ha.
  revert i pre prev. induction n as [|n IH]; intros i pre prev Hi Hpre Hprev l; subst l; cbn [for_range].
  - rewrite drop_ge by lia. cbn [options_ok options_bytes length]. rewrite app_nil_r, Nat.add_0_r. left. by exists prev.
  - destruct (lookup_lt_is_Some_2 (c_options a) i) as [x Hx]; [lia|]. rewrite (drop_S _ _ _ Hx). cbn [options_ok options_bytes]. rewrite length_app.
    pose proof (encode_option_ok i x pre prev Hx Hpre Hprev) as H. cbv zeta in H. destruct (option_ok prev x) eqn:Eok.
    + assert (Hx0 : 0 <= x.1) by (unfold option_ok in Eok; lia).
      destruct H as [[Hle ->]|(Hgt & o & -> & Ho)].
      * rewrite <-(length_app pre (option_bytes prev x)). destruct (IH (S i) (pre ++ option_bytes prev x) x.1) as [(last & H1 & H2 & E)|(s & o & E & Ho & Hs)]; [lia|rewrite length_app; lia|done| |]; cbn [andb]; rewrite E; clear E IH.
        -- rewrite length_app in H2 |- *. left. exists last. split; [done|]. split; [lia|]. rewrite <-app_assoc. do 4 f_equal. lia.
        -- rewrite length_app in Hs. right. exists s, o. split; [done|]. split; [done|]. destruct Hs as [[-> ?]|[-> ?]]; [left; split; [done|lia]|by right].
      * right. exists s_full, o. split; [done|]. split; [done|]. left. split; [done|]. lia.
    + destruct H as (o & -> & Ho). right. exists s_invalid_argument, o. split; [done|]. split; [done|]. by right.
Qed.

Lemma holds_invalid : invalid_message MaxOptions PayloadCapacity m = negb (head_ok a).
Proof using Hm Ha.
  pose proof Hm as ((Htok & _ & _ & Hpl) & Ev & Et & Ec & _ & (Etl & Hlt & _) & (Epl & Hlp & _) & Eoc & Hle & _). unfold invalid_message, head_ok.
  rewrite Ev, Et, Ec, Etl, Epl, Eoc.
  rewrite (proj2 (Nat.ltb_ge maximum_token_length _)) by lia. rewrite (proj2 (Nat.ltb_ge MaxOptions _)) by lia. rewrite (proj2 (Nat.ltb_ge PayloadCapacity _)) by lia. rewrite !orb_false_r.
  assert (Hnil : forall A (l : list A) `{!Decision (l = [])}, bool_decide (l = []) = (length l =? 0)%nat).
  { intros A l Hd. destruct l; [by rewrite bool_decide_eq_true_2|by rewrite bool_decide_eq_false_2]. }
  rewrite !Hnil. destruct Ha as (_ & _ & Hc & _). unfold byte in Hc. rewrite Z.shiftr_div_pow2 by lia. change (2 ^ 5) with 32.
  rewrite (Z.leb_antisym reset (c_type a)).
  destruct (c_version a =? protocol_version), (reset <? c_type a), (c_code a =? code_empty), (length (c_token a) =? 0)%nat, (length (c_options a) =? 0)%nat, (length (c_payload a) =? 0)%nat,
    (c_type a =? acknowledgement), (c_type a =? reset), (c_code a / 32 =? 0); done.
Qed.

Lemma length_message_bytes : length (message_bytes a) = (4 + length (c_token a) + length (options_bytes 0 (c_options a)) + length (payload_bytes (c_payload a)))%nat.
Proof using. clear. unfold message_bytes, head_bytes. rewrite !length_app, length_be16. cbn [length]. lia. Qed.

Lemma encode_message_ok : exists s o n, encode_message MaxOptions OptionValueCapacity PayloadCapacity m (Some out) (length out) = Done (s, Some o, n) /\ length o = length out
  /\ (s = s_ok /\ sendable a = true /\ (length (message_bytes a) <= length out)%nat /\ o = wrote out 0 (message_bytes a) /\ n = length (message_bytes a)
      \/ s = s_full /\ n = 0%nat /\ (length out < length (message_bytes a))%nat
      \/ s = s_invalid_argument /\ n = 0%nat /\ sendable a = false).
Proof using Hcap Hm Ha.
  unfold encode_message. rewrite holds_invalid. destruct (head_ok a) eqn:Eh; cbn [negb].
  2:{ eexists _, _, _. split; [done|]. split; [done|]. right. right. unfold sendable. by rewrite Eh. }
  pose proof Hm as ((Htok & _ & _ & Hpl) & _ & Et & Ec & Eid & (Etl & Hlt & Htk) & (Epl & Hlp & Hpk) & Eoc & Hle & _). rewrite Htok in Hlt. rewrite Etl, Et, Ec, Eid, Epl, Eoc.
  destruct Ha as (_ & Hbt & Hbc & Hid & _). unfold byte in Hbt, Hbc. unfold maximum_token_length in Hlt.
  destruct (Nat.ltb_spec (length out) (4 + length (c_token a))) as [Hshort|Hroom].
  { eexists _, _, _. split; [done|]. split; [done|]. right. left. rewrite length_message_bytes. split; [done|]. split; [done|]. lia. }
  assert (Hty : c_type a <= 3) by (unfold head_ok, reset in Eh; lia).
  assert (E0 : to_u8 (Z.lor (Z.lor (Z.shiftl protocol_version 6) (Z.shiftl (c_type a) 4)) (to_u8 (Z.of_nat (length (c_token a))))) = 64 + 16 * c_type a + Z.of_nat (length (c_token a))).
  { unfold protocol_version. rewrite (wrap_small 8 (Z.of_nat _)) by (unfold in_width; lia). rewrite (lor_shiftl_add 6 1) by (rewrite ?Z.shiftl_mul_pow2 by lia; change (2 ^ 4) with 16; change (2 ^ 6) with 64; lia).
    rewrite Z.shiftl_mul_pow2 by lia. change (2 ^ 4) with 16. change (2 ^ 6) with 64. replace (1 * 64 + c_type a * 16) with (Z.shiftl (4 + c_type a) 4) by (rewrite Z.shiftl_mul_pow2 by lia; change (2 ^ 4) with 16; lia).
    rewrite lor_shiftl_add by (change (2 ^ 4) with 16; lia). change (2 ^ 4) with 16. rewrite wrap_small by (unfold in_width; lia). lia. }
  rewrite E0. set (b0 := 64 + 16 * c_type a + Z.of_nat (length (c_token a))).
  change (store out 0 b0) with (store (wrote out 0 []) 0 b0). rewrite store_wrote by (cbn [length]; lia). rewrite bind_Done.
  rewrite store_wrote by (cbn [length app]; lia). rewrite bind_Done. cbn [app].
  rewrite write_be16_bytes by (rewrite length_wrote; cbn [length]; lia). rewrite bind_Done. fold (be16 (c_id a)). rewrite wrote_app by (rewrite ?length_be16; cbn [length]; lia).
  assert (L4 : length ([b0; c_code a] ++ be16 (c_id a)) = 4%nat) by done. pose proof (copy_out out ([b0; c_code a] ++ be16 (c_id a)) (token m) (length (c_token a))) as Hcopy. rewrite L4 in Hcopy. rewrite Hcopy by (rewrite ?Htok; unfold maximum_token_length; lia). clear Hcopy. rewrite bind_Done, Htk.
  assert (Ehd : ([b0; c_code a] ++ be16 (c_id a)) ++ c_token a = head_bytes a) by (unfold head_bytes; fold b0; by rewrite <-app_assoc). rewrite Ehd. clear Ehd.
  assert (Lh : length (head_bytes a) = (4 + length (c_token a))%nat) by done. rewrite <-Lh.
  destruct (encode_options_ok (length (c_options a)) 0 (head_bytes a) 0) as [(last & Hok & Hfit & ->)|(s & o & -> & Ho & Hs)]; [done|lia|lia| |]; cbn [after].
  - rewrite drop_0 in *. set (pre := head_bytes a ++ options_bytes 0 (c_options a)). assert (Lp : length pre = (length (head_bytes a) + length (options_bytes 0 (c_options a)))%nat) by (subst pre; apply length_app).
    rewrite <-Lp. assert (Hsend : sendable a = true) by (unfold sendable; by rewrite Eh, Hok).
    assert (Emsg : message_bytes a = pre ++ payload_bytes (c_payload a)) by (subst pre; unfold message_bytes; by rewrite <-app_assoc).
    destruct (c_payload a) as [|p0 pl] eqn:Ep.
    + cbn [length Nat.eqb negb]. rewrite bind_Done. eexists _, _, _. split; [done|]. split; [rewrite length_wrote; lia|]. left. rewrite Emsg. cbn [payload_bytes]. rewrite app_nil_r. split_and!; try done. lia.
    + rewrite (proj2 (Nat.eqb_neq _ 0)) by done. cbn [negb]. rewrite <-Ep in *. assert (Epay : payload_bytes (c_payload a) = 0xFF :: c_payload a) by (by rewrite Ep). rewrite Epay in Emsg.
      destruct (Nat.ltb_spec (length out - length pre) (length (c_payload a) + 1)) as [Hno|Hyes].
      * rewrite bind_Done. eexists _, _, _. split; [done|]. split; [rewrite length_wrote; lia|]. right. left. rewrite Emsg, length_app. cbn [length]. split_and!; try done. lia.
      * rewrite store_wrote by lia. rewrite bind_Done. replace (length pre + 1)%nat with (length (pre ++ [0xFF])) by (rewrite length_app; done).
        rewrite copy_out by (rewrite ?length_app; cbn [length]; lia). rewrite !bind_Done, Hpk. eexists _, _, _. split; [done|].
        rewrite Emsg, <-app_assoc. cbn [app]. split; [rewrite length_wrote; rewrite ?length_app; cbn [length]; lia|]. left. rewrite !length_app. cbn [length]. split_and!; try done; lia.
  - rewrite bind_Done. eexists _, _, _. split; [done|]. split; [done|]. rewrite drop_0 in Hs. destruct Hs as [[-> Hgt]|[-> Hno]].
    + right. left. rewrite length_message_bytes. split_and!; try done. lia.
    + right. right. unfold sendable. by rewrite Eh, Hno.
Qed.
End Encode.

(** ** What is encoded, decoded *)

(** The fate of a list of options. *)
Fixpoint judge_all (MaxOptions OptionValueCapacity : nat) (kept l : list (Z * list Z)) : (status * decode_error) + list (Z * list Z) :=
  match l with
  | [] => inr kept
  | x :: l => match judge MaxOptions OptionValueCapacity kept x with inr kept => judge_all MaxOptions OptionValueCapacity kept l | r => r end
  end.

Lemma ext_bytes_at data at_ v rest : 0 <= v <= 65804 -> drop at_ data = ext_bytes v ++ rest -> ext_at data at_ (nib v) v (length (ext_bytes v)).
Proof.
  intros Hv E. unfold nib, ext_bytes in *. destruct (Z.ltb_spec v 13); [by constructor; lia|]. destruct (Z.ltb_spec v 269).
  - replace v with (13 + (v - 13)) at 1 by lia. constructor. apply (f_equal (fun l => l !! 0%nat)) in E. rewrite lookup_drop, Nat.add_0_r in E. exact E.
  - assert (Hl : (at_ + 2 <= length data)%nat). { apply (f_equal length) in E. rewrite length_drop, length_app, length_be16 in E. lia. }
    rewrite length_be16. replace v with (269 + field data at_ 2) at 1; [by constructor|]. rewrite (field_be16 data at_ (v - 269) rest); [lia| |done]. unfold in_width. lia.
Qed.

Lemma option_bytes_at data at_ prev x rest : option_ok prev x = true -> 0 <= prev -> in_width 16 x.1 -> drop at_ data = option_bytes prev x ++ rest ->
  option_at data at_ prev x.1 x.2 (length (option_bytes prev x)).
Proof.
  intros Hok Hp Hx E. unfold option_ok in Hok. unfold in_width in Hx. set (delta := x.1 - prev). set (len := Z.of_nat (length x.2)) in *.
  assert (Hn : forall v, 0 <= v -> 0 <= nib v <= 14) by (intros v Hv; unfold nib; cmp_cases; lia).
  pose proof (Hn delta ltac:(lia)) as Hd. pose proof (Hn len ltac:(lia)) as Hl.
  unfold option_bytes in *. fold delta len in E |- *. cbn [app] in E. rewrite <-!app_assoc in E.
  assert (Hb : forall a b, drop at_ data = a ++ b -> drop (at_ + length a) data = b) by (intros a b Eab; by rewrite <-drop_drop, Eab, drop_app_length).
  pose proof (Hb [16 * nib delta + nib len] _ E) as E1. pose proof (Hb (_ :: ext_bytes delta) _ E) as E2.
  assert (E3 : drop (at_ + 1 + length (ext_bytes delta) + length (ext_bytes len)) data = x.2 ++ rest).
  { rewrite <-drop_drop. cbn [length] in E2. rewrite <-Nat.add_assoc. change (1 + length (ext_bytes delta))%nat with (S (length (ext_bytes delta))). rewrite E2. apply drop_app_length. }
  assert (Hend : (at_ + (1 + length (ext_bytes delta) + length (ext_bytes len)) + length (x.2 ++ rest) <= length data)%nat).
  { rewrite <-E3, length_drop. apply (f_equal length) in E. rewrite length_drop in E. cbn [length] in E. rewrite !length_app in E. lia. }
  rewrite length_app in Hend.
  exists (16 * nib delta + nib len), delta, (length (ext_bytes delta)), len, (length (ext_bytes len)).
  assert (Ed : (16 * nib delta + nib len) / 16 = nib delta) by (rewrite (Z.mul_comm 16), Z.div_add_l, Z.div_small; lia).
  assert (Em : (16 * nib delta + nib len) mod 16 = nib len) by (rewrite Z.add_comm, Z.mul_comm, Z.mod_add, Z.mod_small; lia).
  rewrite Ed, Em. split_and!.
  - apply (f_equal (fun l => l !! 0%nat)) in E. rewrite lookup_drop, Nat.add_0_r in E. exact E.
  - lia.
  - eapply ext_bytes_at; [lia|exact E1].
  - eapply ext_bytes_at; [lia|]. replace (at_ + 1 + length (ext_bytes delta))%nat with (at_ + S (length (ext_bytes delta)))%nat by lia. exact E2.
  - lia.
  - lia.
  - lia.
  - cbn [length]. rewrite !length_app. lia.
  - cbn [length]. rewrite !length_app. lia.
  - rewrite E3. subst len. by rewrite Nat2Z.id, take_app_length.
Qed.

Section Wire.
Context (MaxOptions OptionValueCapacity PayloadCapacity : nat).

Lemma options_bytes_at data pl l at_ prev kept : options_ok prev l = true -> 0 <= prev -> Forall (fun x => in_width 16 x.1 /\ Forall byte x.2) l -> (length pl <= PayloadCapacity)%nat ->
  (at_ <= length data)%nat -> drop at_ data = options_bytes prev l ++ payload_bytes pl ->
  match judge_all MaxOptions OptionValueCapacity kept l with
  | inr kept' => rest_at (judge MaxOptions OptionValueCapacity) PayloadCapacity data at_ prev kept s_ok none kept' pl
  | inl (s, e) => exists opts, rest_at (judge MaxOptions OptionValueCapacity) PayloadCapacity data at_ prev kept s e opts []
  end.
Proof.
  revert at_ prev kept. induction l as [|x l IH]; intros at_ prev kept Hok Hp Hl Hpl Hat E; cbn [judge_all].
  - cbn [options_bytes app] in E. destruct pl as [|p pl]; cbn [payload_bytes] in E.
    + assert (at_ = length data) as -> by (apply (f_equal length) in E; rewrite length_drop in E; cbn in E; lia). constructor.
    + assert (Hx : data !! at_ = Some 0xFF) by (apply (f_equal (fun l => l !! 0%nat)) in E; rewrite lookup_drop, Nat.add_0_r in E; exact E).
      assert (Ed : drop (at_ + 1) data = p :: pl) by (by rewrite <-drop_drop, E). rewrite <-Ed. assert (Hlen := f_equal length Ed). rewrite length_drop in Hlen. cbn [length] in *.
      constructor; [done|lia|lia].
  - cbn [options_ok] in Hok. apply andb_true_iff in Hok as [Hx Hok]. apply Forall_cons in Hl as [[Hw Hb] Hl]. cbn [options_bytes] in E. rewrite <-app_assoc in E.
    pose proof (option_bytes_at data at_ prev x _ Hx Hp Hw E) as Ho. destruct x as [n v]. cbn [fst snd] in *.
    destruct (judge MaxOptions OptionValueCapacity kept (n, v)) as [[s e]|kept'] eqn:Ej.
    + exists kept. by eapply RA_refused.
    + specialize (IH (at_ + length (option_bytes prev (n, v)))%nat n kept' Hok ltac:(unfold in_width in Hw; lia) Hl Hpl).
      assert (Hin : (at_ + length (option_bytes prev (n, v)) <= length data)%nat) by apply (option_at_head _ _ _ _ _ _ Ho).
      specialize (IH Hin). rewrite <-drop_drop, E, drop_app_length in IH. specialize (IH eq_refl).
      destruct (judge_all _ _ kept' l) as [[s e]|kept'']; [destruct IH as [opts IH]; exists opts|]; by eapply RA_option.
Qed.

Lemma option_bytes_bytes prev x : option_ok prev x = true -> 0 <= prev -> in_width 16 x.1 -> Forall byte x.2 -> Forall byte (option_bytes prev x).
Proof.
  intros Hok Hp Hx Hb. unfold option_ok in Hok. unfold in_width in Hx. assert (Hn : forall v, 0 <= v -> 0 <= nib v <= 14) by (intros v Hv; unfold nib; cmp_cases; lia).
  pose proof (Hn (x.1 - prev) ltac:(lia)) as Hd. pose proof (Hn (Z.of_nat (length x.2)) ltac:(lia)) as Hl.
  assert (He : forall v, 0 <= v -> Forall byte (ext_bytes v)).
  { intros v Hv. unfold ext_bytes. cmp_cases; [constructor| |apply be16_bytes]. constructor; [unfold byte; lia|constructor]. }
  unfold option_bytes. constructor; [unfold byte; lia|]. repeat apply Forall_app_2; [apply He; lia|apply He; lia|done].
Qed.

Lemma options_bytes_bytes prev l : options_ok prev l = true -> 0 <= prev -> Forall (fun x => in_width 16 x.1 /\ Forall byte x.2) l -> Forall byte (options_bytes prev l).
Proof.
  intros Hok Hp H. revert prev Hok Hp. induction H as [|x l [Hx Hb] _ IH]; intros prev Hok Hp; cbn [options_ok options_bytes] in *; [constructor|].
  apply andb_true_iff in Hok as [H1 H2]. apply Forall_app_2; [by apply option_bytes_bytes|]. apply IH; [done|]. unfold in_width in Hx. lia.
Qed.

Lemma message_bytes_datagram a : sendable a = true -> in_fields a -> (length (c_token a) <= maximum_token_length)%nat -> (length (c_payload a) <= PayloadCapacity)%nat ->
  let data := message_bytes a in Forall byte data /\ header_error data = None /\
  match judge_all MaxOptions OptionValueCapacity [] (c_options a) with
  | inr kept => datagram (judge MaxOptions OptionValueCapacity) PayloadCapacity data s_ok none (with_rest a kept (c_payload a))
  | inl (s, e) => exists opts, datagram (judge MaxOptions OptionValueCapacity) PayloadCapacity data s e (with_rest a opts [])
  end.
Proof.
  intros Hs (Hv & Ht & Hc & Hid & Htok & Hpay & Hopts) Htl Hpl. cbv zeta. apply andb_true_iff in Hs as [Hhead Hok]. unfold maximum_token_length in Htl.
  unfold byte in Ht. assert (Hty : 0 <= c_type a <= 3) by (unfold head_ok, reset in Hhead; lia).
  set (b0 := 64 + 16 * c_type a + Z.of_nat (length (c_token a))).
  assert (Edata : message_bytes a = b0 :: c_code a :: be16 (c_id a) ++ c_token a ++ options_bytes 0 (c_options a) ++ payload_bytes (c_payload a)).
  { unfold message_bytes, head_bytes. fold b0. cbn [app]. by rewrite <-app_assoc. }
  set (data := message_bytes a) in *.
  assert (Hbytes : Forall byte data).
  { rewrite Edata. constructor; [unfold byte; lia|]. constructor; [done|]. repeat apply Forall_app_2; [apply be16_bytes|done|by apply options_bytes_bytes|]. destruct (c_payload a); [constructor|]. constructor; [unfold byte; lia|done]. }
  split; [done|].
  assert (E1 : b0 / 64 = 1) by (unfold b0; divlia). assert (E2 : (b0 / 16) mod 4 = c_type a) by (unfold b0; divlia). assert (E3 : Z.to_nat (b0 mod 16) = length (c_token a)) by (unfold b0; divlia).
  assert (Hver : c_version a = 1) by (unfold head_ok, protocol_version in Hhead; lia).
  assert (Hlen : length data = (4 + length (c_token a) + length (options_bytes 0 (c_options a)) + length (payload_bytes (c_payload a)))%nat) by apply length_message_bytes.
  split.
  { unfold header_error. rewrite Edata. cbn [app be16]. change (be16 (c_id a)) with [(c_id a / 256) mod 256; c_id a mod 256] in *. cbn [app] in Edata |- *. rewrite <-Edata.
    cbv zeta. rewrite E1, E2, E3. change (1 =? protocol_version) with true. cbn [negb]. rewrite (proj2 (Nat.ltb_ge maximum_token_length _)) by (unfold maximum_token_length; lia).
    rewrite (proj2 (Nat.ltb_ge (length data) _)) by lia. cbn [orb]. unfold head_ok in Hhead. unfold code_empty in Hhead. destruct (Z.eqb_spec (c_code a) 0) as [Ez|Nz].
    - apply andb_true_iff in Hhead as [_ Hhead]. rewrite !andb_true_iff, !bool_decide_eq_true in Hhead. destruct Hhead as [[[Et Eo] Ep] ->]. rewrite Hlen, Et, Eo, Ep. done.
    - apply andb_true_iff in Hhead as [_ Hhead]. apply andb_true_iff in Hhead as [H1 H2]. rewrite negb_true_iff in H1, H2. by rewrite H1, H2. }
  assert (Hdg : forall s e opts pl, (if c_code a =? 0 then s = s_ok /\ e = none /\ opts = [] /\ pl = [] else rest_at (judge MaxOptions OptionValueCapacity) PayloadCapacity data (4 + length (c_token a)) 0 [] s e opts pl) ->
     datagram (judge MaxOptions OptionValueCapacity) PayloadCapacity data s e (with_rest a opts pl)).
  { intros s e opts pl H. exists b0, opts, pl. cbv zeta. rewrite E1, E2, E3. split; [by rewrite Edata|]. split; [by rewrite Edata|]. split; [|exact H].
    unfold with_rest. cbn [c_code]. rewrite Hver. assert (Ef : field data 2 2 = c_id a) by (eapply field_be16; [exact Hid|]; rewrite Edata; reflexivity). rewrite Ef. f_equal.
    assert (Ed : drop 4 data = c_token a ++ options_bytes 0 (c_options a) ++ payload_bytes (c_payload a)) by (by rewrite Edata). rewrite Ed. symmetry. apply take_app_length. }
  destruct (Z.eqb_spec (c_code a) 0) as [Ez|Nz].
  - unfold head_ok, code_empty in Hhead. rewrite (proj2 (Z.eqb_eq _ _) Ez) in Hhead. apply andb_true_iff in Hhead as [_ Hhead]. rewrite !andb_true_iff, !bool_decide_eq_true in Hhead.
    destruct Hhead as [[[_ Eo] Ep] _]. rewrite Eo, Ep. cbn [judge_all]. by apply Hdg.
  - pose proof (options_bytes_at data (c_payload a) (c_options a) (4 + length (c_token a)) 0 [] Hok ltac:(lia) Hopts Hpl) as H.
    assert (Ed : drop (4 + length (c_token a)) data = options_bytes 0 (c_options a) ++ payload_bytes (c_payload a)).
    { rewrite <-drop_drop. assert (E4 : drop 4 data = c_token a ++ options_bytes 0 (c_options a) ++ payload_bytes (c_payload a)) by (by rewrite Edata). rewrite E4. apply drop_app_length. }
    specialize (H ltac:(lia) Ed).
    destruct (judge_all _ _ [] (c_options a)) as [[s e]|kept]; [destruct H as [opts H]; exists opts; by apply Hdg|by apply Hdg].
Qed.
End Wire.

Lemma coap_datagram_fun J PayloadCapacity data s e a s' e' a' :
  datagram J PayloadCapacity data s e a -> datagram J PayloadCapacity data s' e' a' -> s = s' /\ e = e' /\ a = a'.
Proof.
  intros (b0 & opts & pl & L0 & L1 & Ea & Hc) (b0' & opts' & pl' & L0' & L1' & Ea' & Hc'). rewrite L0 in L0'. injection L0' as <-.
  rewrite L1 in L1'. injection L1' as Ecode. rewrite <-Ecode in Hc', Ea'. rewrite Ea', Ea. destruct (c_code a =? 0) eqn:Ez.
  - destruct Hc as (-> & -> & -> & ->), Hc' as (-> & -> & -> & ->). done.
  - destruct (rest_at_fun _ _ _ _ _ _ _ _ _ _ _ _ _ _ Hc Hc') as (-> & -> & -> & ->). done.
Qed.

(** The decoder's judgement and the documented one differ for elective options alone. *)
Lemma judge_verdict MaxOptions OptionValueCapacity kept x :
  (is_supported_option x.1 = true -> is_critical_option x.1 = false -> valid_option_length x.1 (length x.2) = true) ->
  judge MaxOptions OptionValueCapacity kept x = verdict MaxOptions OptionValueCapacity kept x.
Proof.
  intros H. unfold verdict, judge, known. destruct (is_supported_option x.1); [|done]. destruct (valid_option_length x.1 (length x.2)); [done|]. cbn [negb andb].
  destruct (is_critical_option x.1); [done|]. by specialize (H eq_refl eq_refl).
Qed.

Lemma rest_at_verdict MaxOptions OptionValueCapacity PayloadCapacity data at_ prev kept s e opts pl : elective_lengths data -> reached data at_ prev ->
  rest_at (judge MaxOptions OptionValueCapacity) PayloadCapacity data at_ prev kept s e opts pl -> rest_at (verdict MaxOptions OptionValueCapacity) PayloadCapacity data at_ prev kept s e opts pl.
Proof.
  intros He Hr H. induction H as [| | | | |at_ prev kept n v len s e Ho Hj|at_ prev kept n v len kept' s e opts pl Ho Hj _ IH]; try (by econstructor).
  all: rewrite judge_verdict in Hj by (cbn; intros; by eapply He).
  - by eapply RA_refused.
  - eapply RA_option; [done|done|]. apply IH. by eapply reached_next.
Qed.

Lemma datagram_verdict MaxOptions OptionValueCapacity PayloadCapacity data s e a : elective_lengths data ->
  datagram (judge MaxOptions OptionValueCapacity) PayloadCapacity data s e a -> datagram (verdict MaxOptions OptionValueCapacity) PayloadCapacity data s e a.
Proof.
  intros He (b0 & opts & pl & L0 & L1 & Ea & Hc). exists b0, opts, pl. split; [done|]. split; [done|]. split; [done|].
  destruct (c_code a =? 0); [done|]. apply rest_at_verdict; [done| |done]. by apply reached_first.
Qed.

(** The elective options from [at_] on that the decoder knows have valid lengths. *)
Inductive lengths_from (data : list Z) : nat -> Z -> Prop :=
| lengths_end at_ prev : (forall n v len, ~ option_at data at_ prev n v len) -> lengths_from data at_ prev
| lengths_option at_ prev n v len : option_at data at_ prev n v len -> negb (is_supported_option n) || is_critical_option n || valid_option_length n (length v) = true ->
    lengths_from data (at_ + len) n -> lengths_from data at_ prev.

Lemma lengths_from_elective data b0 : data !! 0%nat = Some b0 -> lengths_from data (4 + Z.to_nat (b0 mod 16)) 0 -> elective_lengths data.
Proof.
  intros H0 H. assert (Hall : forall at_ prev, reached data at_ prev -> lengths_from data at_ prev).
  { induction 1 as [b0' H0'|at_ prev n v len Hr IH Ho]; [rewrite H0 in H0'; by injection H0' as <-|].
    inversion IH as [? ? Hno|? ? n' v' len' Ho' _ Hl']; subst; [by destruct (Hno n v len)|]. by destruct (option_at_fun _ _ _ _ _ _ _ _ _ Ho Ho') as (-> & -> & ->). }
  intros at_ prev n v len Hr Ho Hs Hc. specialize (Hall _ _ Hr). inversion Hall as [? ? Hno|? ? n' v' len' Ho' Hv' _]; subst; [by destruct (Hno n v len)|].
  destruct (option_at_fun _ _ _ _ _ _ _ _ _ Ho Ho') as (-> & -> & ->). by rewrite Hs, Hc in Hv'.
Qed.

(** *** Numbers *)

Lemma decode_uint_ok bs : Forall byte bs -> (length bs <= 4)%nat -> decode_uint_option (Some bs) (length bs) = Done (s_ok, le_val 256 (reverse bs)).
Proof.
  intros Hb Hl. unfold decode_uint_option. rewrite (proj2 (Nat.ltb_ge 4 _)) by lia. cbn [orb is_null andb].
  destruct (for_to_inv (fun i v => v = le_val 256 (reverse (take i bs))) (fun i output => b ← pload (Some bs) i; Done (Z.lor (to_u32 (Z.shiftl output 8)) b)) 0 (length bs) 0) as (v & -> & ->); [done| |].
  - intros i v Hi ->. destruct (lookup_lt_is_Some_2 bs i) as [c Hc]; [lia|]. cbn [pload]. rewrite (load_Done _ _ _ Hc), bind_Done. eexists. split; [done|].
    assert (Hcb : byte c) by (by apply (Forall_lookup_1 _ _ _ _ Hb Hc)). unfold byte in Hcb.
    rewrite (take_S_r _ _ _ Hc), reverse_app. cbn [reverse rev_append app le_val]. change (reverse [c] ++ reverse (take i bs)) with (c :: reverse (take i bs)). cbn [le_val].
    pose proof (le_val_bound 256 (reverse (take i bs)) ltac:(lia)) as Hv. lapply Hv; [clear Hv; intros Hv|by apply Forall_reverse, Forall_take].
    rewrite length_reverse, length_take, Nat.min_l in Hv by lia.
    assert (Hp : 256 ^ Z.of_nat i <= 256 ^ 3) by (apply Z.pow_le_mono_r; lia). change (256 ^ 3) with 16777216 in Hp.
    rewrite wrap_small by (rewrite Z.shiftl_mul_pow2 by lia; unfold in_width; lia). rewrite lor_shiftl_add by lia. change (2 ^ 8) with 256. lia.
  - rewrite bind_Done. cbn [Nat.add]. by rewrite firstn_all.
Qed.

Lemma digits256_val n v : 0 <= v < 256 ^ Z.of_nat n -> le_val 256 (digits256 n v) = v /\ Forall byte (digits256 n v) /\ (length (digits256 n v) <= n)%nat.
Proof.
  revert v. induction n as [|n IH]; intros v Hv; cbn [digits256]; [cbn in *; split; [lia|by split]|]. destruct (Z.eqb_spec v 0) as [->|Hne]; [split; [done|split; [constructor|cbn; lia]]|].
  rewrite Nat2Z.inj_succ, Z.pow_succ_r in Hv by lia.
  destruct (IH (v / 256)) as (H1 & H2 & H3); [split; [apply Z.div_pos; lia|apply Z.div_lt_upper_bound; lia]|]. cbn [le_val length]. rewrite H1.
  pose proof (Z.mod_pos_bound v 256 ltac:(lia)). split; [rewrite Z.add_comm; symmetry; apply Z_div_mod_eq_full|]. split; [by constructor|lia].
Qed.

(** The octets of a number are read back. *)
Lemma uint_option_roundtrip v : u32 v -> decode_uint_option (Some (uint_octets v)) (length (uint_octets v)) = Done (s_ok, v).
Proof.
  intros Hv. destruct (digits256_val 4 v) as (H1 & H2 & H3); [exact Hv|]. unfold uint_octets. rewrite decode_uint_ok; [by rewrite reverse_involutive, H1|by apply Forall_reverse|by rewrite length_reverse].
Qed.

(** ** The codec *)

(** C16. Decoding a CoAP datagram is total and memory safe on every octet string, whatever the
    message object held before, and a defective header is reported as such. Otherwise, where
    the elective options the decoder knows have valid lengths, it is exact: the outcome is the one the layout of RFC 7252 and
    the documentation determine (which is unique): options are kept, refused (unknown critical ones, known ones of an
    invalid length, those beyond the capacities) or skipped in turn, and the message holds the header, the options kept and the
    payload, in ascending order.  (For an elective option of an invalid length, see
    [invalid_length_skipped].) *)
Theorem coap_decode_exact (MaxOptions OptionValueCapacity PayloadCapacity : nat) m data :
  shaped MaxOptions OptionValueCapacity PayloadCapacity m -> Forall byte data ->
  exists s e m', decode_message MaxOptions OptionValueCapacity PayloadCapacity (Some data) (length data) m = Done (s, e, m')
    /\ shaped MaxOptions OptionValueCapacity PayloadCapacity m' /\ (s = s_ok <-> e = none)
    /\ match header_error data with
       | Some err => s = s_invalid_argument /\ e = err
       | None => elective_lengths data -> exists a, datagram (verdict MaxOptions OptionValueCapacity) PayloadCapacity data s e a
           /\ holds MaxOptions OptionValueCapacity PayloadCapacity m' a /\ ascending (c_options a)
           /\ forall s' e' a', datagram (verdict MaxOptions OptionValueCapacity) PayloadCapacity data s' e' a' -> s' = s /\ e' = e /\ a' = a
       end.
Proof.
  intros Hm Hd. destruct (decode_message_ok MaxOptions OptionValueCapacity PayloadCapacity data Hd m Hm) as (s & e & m' & E & H). exists s, e, m'. split; [done|].
  assert (Hrest : forall at_ prev kept s e opts pl, rest_at (judge MaxOptions OptionValueCapacity) PayloadCapacity data at_ prev kept s e opts pl -> s = s_ok <-> e = none).
  { induction 1 as [| | | | |at_ prev kept n v len s' e' _ Hj|]; try done. unfold judge in Hj. repeat case_match; by simplify_eq. }
  unfold header_error in *. destruct (match data with [] => _ | _ => _ end) as [err|] eqn:Eh.
  - destruct H as (-> & -> & Hs). split; [done|]. split; [|done]. split; [done|]. intros ->. exfalso. clear -Eh. repeat case_match; discriminate.
  - destruct H as (a & Ha & [Hh Hasc]). split; [apply Hh|]. destruct Ha as (b0 & opts & pl & Ha). pose proof Ha as (L0 & L1 & Ea & Hc). split.
    + destruct (c_code a =? 0) eqn:Ez; [|by eapply Hrest]. by destruct Hc as (-> & -> & _).
    + intros He. exists a. assert (Hv : datagram (verdict MaxOptions OptionValueCapacity) PayloadCapacity data s e a) by (apply datagram_verdict; [done|by exists b0, opts, pl]).
      split; [done|]. split; [done|]. split; [done|]. intros s' e' a' Ha'. by eapply coap_datagram_fun.
Qed.

Lemma coap_decode_exact_witness :
  let data := [0x41; 1; 0; 7; 0xAA; 0xB1; 97; 0x01; 98; 0x51; 9; 0xFF; 5] in
  exists s e m', decode_message 2 8 16 (Some data) (length data) (message_new 2 8 16) = Done (s, e, m') /\ s = s_ok /\ e = none
    /\ holds 2 8 16 m' (mk_coap 1 0 1 7 [0xAA] [(11, [97]); (11, [98])] [5]).
Proof.
  intros data. assert (Hd : Forall byte data) by (repeat constructor; unfold byte; lia).
  assert (Hn : shaped 2 8 16 (message_new 2 8 16)) by apply message_new_good.
  destruct (coap_decode_exact 2 8 16 (message_new 2 8 16) data Hn Hd) as (s & e & m' & E & _ & _ & H). exists s, e, m'. split; [exact E|].
  assert (O1 : option_at data 5 0 11 [97] 2) by (exists 0xB1, 11, 0%nat, 1, 0%nat; split_and!; try reflexivity; try lia; try (apply (X_nibble data); lia); cbn; lia).
  assert (O2 : option_at data 7 11 11 [98] 2) by (exists 0x01, 0, 0%nat, 1, 0%nat; split_and!; try reflexivity; try lia; try (apply (X_nibble data); lia); cbn; lia).
  assert (O3 : option_at data 9 11 16 [9] 2) by (exists 0x51, 5, 0%nat, 1, 0%nat; split_and!; try reflexivity; try lia; try (apply (X_nibble data); lia); cbn; lia).
  change (header_error data) with (@None decode_error) in H. destruct H as (a & _ & Hh & _ & Hfun).
  { apply (lengths_from_elective data 0x41); [reflexivity|]. change (4 + Z.to_nat (0x41 mod 16))%nat with 5%nat.
    apply (lengths_option data 5 0 11 [97] 2); [exact O1|reflexivity|]. apply (lengths_option data 7 11 11 [98] 2); [exact O2|reflexivity|]. apply (lengths_option data 9 11 16 [9] 2); [exact O3|reflexivity|].
    apply lengths_end. intros n v len Ho. destruct (option_at_head _ _ _ _ _ _ Ho) as (_ & _ & h & Hx & Hne). injection Hx as <-. by apply Hne. }
  assert (Hdat : datagram (verdict 2 8) 16 data s_ok none (mk_coap 1 0 1 7 [0xAA] [(11, [97]); (11, [98])] [5])); [|by destruct (Hfun _ _ _ Hdat) as (<- & <- & <-)].
  exists 0x41, [(11, [97]); (11, [98])], [5]. cbv zeta. split; [reflexivity|]. split; [reflexivity|]. split; [reflexivity|]. cbn [c_code]. change (1 =? 0) with false. cbv iota.
  apply (RA_option (verdict 2 8) 16 data 5 0 [] 11 [97] 2 [(11, [97])]); [exact O1|reflexivity|].
  apply (RA_option (verdict 2 8) 16 data 7 11 [(11, [97])] 11 [98] 2 [(11, [97]); (11, [98])]); [exact O2|reflexivity|].
  apply (RA_option (verdict 2 8) 16 data 9 11 [(11, [97]); (11, [98])] 16 [9] 2 [(11, [97]); (11, [98])]); [exact O3|reflexivity|].
  apply (RA_payload (verdict 2 8) 16 data 11); [reflexivity|cbn; lia|cbn; lia].
Defined.

(** Options the decoder knows, each number once unless it may be repeated. *)
Definition tidy (l : list (Z * list Z)) : Prop :=
  Forall (fun x => is_supported_option x.1 = true) l /\ NoDup (filter (fun n => is_repeatable_option n = false) (fst <$> l)).

Lemma tidy_judged MaxOptions OptionValueCapacity l kept prev : tidy (kept ++ l) -> options_ok prev l = true -> Forall (fun x => (length x.2 <= OptionValueCapacity)%nat) l ->
  (length (kept ++ l) <= MaxOptions)%nat -> judge_all MaxOptions OptionValueCapacity kept l = inr (kept ++ l).
Proof.
  revert kept prev. induction l as [|x l IH]; intros kept prev Ht Hok Hlen Hc; cbn [judge_all options_ok] in *; [by rewrite app_nil_r|].
  apply andb_true_iff in Hok as [Hx Hok]. apply Forall_cons in Hlen as [Hlx Hlen].
  assert (Hk : known kept x = true).
  { destruct Ht as [Hs Hn]. apply Forall_app in Hs as [_ Hs]. apply Forall_cons in Hs as [Hs _]. unfold option_ok in Hx. unfold known. rewrite Hs in *. cbn [negb orb andb] in *.
    apply andb_true_iff in Hx as [_ ->]. cbn [andb]. destruct (is_repeatable_option x.1) eqn:Er; [done|]. cbn [orb]. apply bool_decide_eq_true_2. apply Forall_forall. intros y Hy E.
    rewrite fmap_app, filter_app in Hn. apply NoDup_app in Hn as (_ & Hn & _). apply (Hn x.1).
    - apply list_elem_of_filter. split; [done|]. apply list_elem_of_fmap. by exists y.
    - cbn [fmap list_fmap]. rewrite filter_cons_True by done. by left. }
  unfold judge. rewrite Hk. rewrite (proj2 (Nat.ltb_ge _ _)) by done. rewrite length_app in Hc. cbn [length] in Hc. rewrite (proj2 (Nat.leb_gt _ _)) by lia.
  rewrite (IH (kept ++ [x]) x.1); rewrite <-?app_assoc; try done. rewrite length_app. cbn [app length]. lia.
Qed.

(** C17. CoAP round trip: encoding is total and memory safe, succeeds exactly for the messages that may be sent
    and a buffer that has room, writes their datagram, and reports no length otherwise.
    Decoding the datagram, into any message object, either reports the error for the first option the decoder refuses
    (a critical one that is unknown or repeated against the rules, or one beyond the capacities), or
    gives the same header, token and payload, with the options the decoder keeps: elective options that are
    unknown, or repeated against the rules, are dropped in silence.  A message whose options are all known and not repeated
    against the rules comes back as it was. *)
Theorem coap_roundtrip (MaxOptions OptionValueCapacity PayloadCapacity : nat) m a out :
  Z.of_nat OptionValueCapacity < 2 ^ 32 -> holds MaxOptions OptionValueCapacity PayloadCapacity m a -> in_fields a ->
  (exists s o n, encode_message MaxOptions OptionValueCapacity PayloadCapacity m (Some out) (length out) = Done (s, Some o, n) /\ length o = length out
     /\ (s = s_ok <-> sendable a = true /\ (length (message_bytes a) <= length out)%nat)
     /\ (s = s_ok -> take n o = message_bytes a /\ n = length (message_bytes a)) /\ (s <> s_ok -> n = 0%nat)
     /\ (sendable a = true -> s = s_ok \/ s = s_full))
  /\ (sendable a = true -> forall m0, shaped MaxOptions OptionValueCapacity PayloadCapacity m0 ->
       let data := message_bytes a in
       exists s e m', decode_message MaxOptions OptionValueCapacity PayloadCapacity (Some data) (length data) m0 = Done (s, e, m')
         /\ match judge_all MaxOptions OptionValueCapacity [] (c_options a) with
            | inr kept => s = s_ok /\ holds MaxOptions OptionValueCapacity PayloadCapacity m' (with_rest a kept (c_payload a))
            | inl r => (s, e) = r
            end
         /\ (tidy (c_options a) -> s = s_ok /\ holds MaxOptions OptionValueCapacity PayloadCapacity m' a)).
Proof.
  intros Hcap Hm Hf. split.
  - destruct (encode_message_ok MaxOptions OptionValueCapacity PayloadCapacity Hcap m a Hm Hf out) as (s & o & n & E & Ho & H). exists s, o, n. split; [done|]. split; [done|].
    destruct H as [(-> & Hs & Hl & -> & ->)|[(-> & -> & Hl)|(-> & -> & Hs)]].
    + split; [by split|]. split; [intros _; split; [by apply take_wrote|done]|]. split; [done|]. intros _. by left.
    + split; [split; [done|lia]|]. split; [done|]. split; [done|]. intros _. by right.
    + rewrite Hs. split; [split; [done|by intros [? _]]|]. done.
  - intros Hs m0 Hm0. cbv zeta. pose proof Hm as (_ & _ & _ & _ & _ & (_ & Htl & _) & (_ & Hpl & _) & _ & Hle & _).
    assert (Htok : (length (c_token a) <= maximum_token_length)%nat) by (destruct Hm as ((Ht & _) & _); lia). assert (Hpay : (length (c_payload a) <= PayloadCapacity)%nat) by (destruct Hm as ((_ & _ & _ & Hp) & _); lia).
    destruct (message_bytes_datagram MaxOptions OptionValueCapacity PayloadCapacity a Hs Hf Htok Hpay) as (Hb & Hhe & Hd).
    destruct (decode_message_ok MaxOptions OptionValueCapacity PayloadCapacity (message_bytes a) Hb m0 Hm0) as (s & e & m' & E & H). rewrite Hhe in H. destruct H as (a' & Hda & [Hh _]).
    exists s, e, m'. split; [done|].
    assert (Hfun : forall s0 e0 a0, datagram (judge MaxOptions OptionValueCapacity) PayloadCapacity (message_bytes a) s0 e0 a0 -> s0 = s /\ e0 = e /\ a0 = a').
    { intros s0 e0 a0 Hd0. destruct (coap_datagram_fun (judge MaxOptions OptionValueCapacity) PayloadCapacity (message_bytes a) s0 e0 a0 s e a') as (-> & -> & ->); done. }
    assert (Hjudge : match judge_all MaxOptions OptionValueCapacity [] (c_options a) with
      | inr kept => s = s_ok /\ holds MaxOptions OptionValueCapacity PayloadCapacity m' (with_rest a kept (c_payload a)) | inl r => (s, e) = r end).
    { destruct (judge_all _ _ [] _) as [[s0 e0]|kept]; [destruct Hd as [opts Hd]; by destruct (Hfun _ _ _ Hd) as (-> & -> & _)|]. by destruct (Hfun _ _ _ Hd) as (<- & _ & ->). }
    split; [exact Hjudge|]. intros Ht. rewrite (tidy_judged _ _ (c_options a) [] 0) in Hjudge; [|done|by apply andb_true_iff in Hs as [_ ?]| |done].
    + destruct a. exact Hjudge.
    + apply Forall_forall. intros x Hx. exact (value_length MaxOptions OptionValueCapacity PayloadCapacity m a Hm x Hx).
Qed.

Lemma coap_roundtrip_witness :
  exists m, append_option 2 8 (message_new 2 8 16) 11 (Some [97]) 1 = Done (s_ok, m)
    /\ let m := mk_message (version m) (type m) 1 (message_id m) (token m) (token_length m) (options m) (option_count m) (payload m) (payload_size m) in
       exists o n, encode_message 2 8 16 m (Some (replicate 8 0)) 8 = Done (s_ok, Some o, n) /\ take n o = [0x40; 1; 0; 0; 0xB1; 97]
       /\ exists e m', decode_message 2 8 16 (Some (take n o)) n (message_new 2 8 16) = Done (s_ok, e, m') /\ holds 2 8 16 m' (mk_coap 1 0 1 0 [] [(11, [97])] []).
Proof.
  assert (Hnew : shaped 2 8 16 (message_new 2 8 16)) by apply message_new_good.
  destruct (append_option 2 8 (message_new 2 8 16) 11 (Some [97]) 1) as [[[] m]|] eqn:Em; try (vm_compute in Em; discriminate Em).
  exists m. split; [reflexivity|]. cbv zeta. injection Em as <-.
  match goal with |- context [encode_message 2 8 16 ?x] => set (m1 := x) end.
  assert (Hm : holds 2 8 16 m1 (mk_coap 1 0 1 0 [] [(11, [97])] [])).
  { subst m1. unfold holds, shaped, held. cbn. split_and!; try done; try lia; repeat constructor. }
  assert (Hf : in_fields (mk_coap 1 0 1 0 [] [(11, [97])] [])) by (unfold in_fields, byte, in_width; cbn; split_and!; try lia; repeat constructor; unfold in_width; cbn; lia).
  destruct (coap_roundtrip 2 8 16 m1 (mk_coap 1 0 1 0 [] [(11, [97])] []) (replicate 8 0)) as [(s & o & n & E & _ & Hok & Hbytes & _) Hdec]; [cbn; lia|exact Hm|exact Hf|].
  assert (Es : s = s_ok) by (apply Hok; split; [reflexivity|apply Nat.leb_le; vm_compute; reflexivity]). subst s. destruct (Hbytes eq_refl) as [Hb Hn]. exists o, n. split; [exact E|]. rewrite Hb. split; [reflexivity|].
  destruct (Hdec eq_refl (message_new 2 8 16) Hnew) as (s & e & m' & E' & Hj & _). rewrite Hn.
  vm_compute judge_all in Hj. destruct Hj as [-> Hh]. exists e, m'. split; [exact E'|exact Hh].
Defined.

(** *** Peculiarities *)

(** A message with an option twice that may not be repeated is sent, but not read. *)
Lemma repeated_option_not_decoded :
  let a := mk_coap 1 0 1 0 [] [(3, chars "a"); (3, chars "b")] [] in
  sendable a = true /\ judge_all 4 8 [] (c_options a) = inl (s_not_configured, unknown_critical_option).
Proof. by vm_compute. Qed.

(** A known elective option of a wrong length is skipped in silence. *)
Lemma invalid_length_skipped : is_supported_option 14 = true /\ valid_option_length 14 5 = false /\ judge 4 8 [] (14, [1; 2; 3; 4; 5]) = inr [].
Proof. by vm_compute. Qed.

(** A path also matches with empty segments behind it. *)
Lemma trailing_empty_segment_matches : agree (pieces 47 [] (chars "a")) [chars "a"; []] = true.
Proof. done. Qed.
