(* ===== verification/Bits.v ===== *)
(** * Bit operations (castle/bit)

    The templates of bit_core, bit_count, bit_mask, bit_math, bit_reverse, bit_rotate and
    bit_utils at an integer type of [w] bits (8, 16, 32 or 64), signed or not.  A value of
    the type is a [Z]; [uns] is the cast to the unsigned type of the width, [cast] the
    cast back.  Types narrower than [int] are promoted: a shift is undefined from the promoted width
    on, or if its result is no 32-bit pattern.  Bitwise operations, sums and
    differences commute with the casts and are computed on [Z]. *)

From S2P Require Import Prelude Words.
Open Scope Z_scope.

Definition width_ok (w : Z) : Prop := w = 8 \/ w = 16 \/ w = 32 \/ w = 64.
Definition in_type (w : Z) (sgn : bool) (v : Z) : Prop := if sgn then - 2 ^ (w - 1) <= v < 2 ^ (w - 1) else 0 <= v < 2 ^ w.

(** ** The code *)

(** [a << s] and [a >> s] for an [a] of the unsigned type. *)
Definition shl (w a s : Z) : exec Z :=
  if Z.max w 32 <=? s then Undefined
  else if w <? 32 then if 2 ^ 32 <=? a * 2 ^ s then Undefined else Done (a * 2 ^ s)
  else Done (wrap w (a * 2 ^ s)).
Definition shr (w a s : Z) : exec Z := if Z.max w 32 <=? s then Undefined else Done (Z.shiftr a s).

(** *** bit_reverse.hpp *)

(** [n = ((n & hi) >> s) | ((n & lo) << s)] on [w] bits. *)
Definition swap_groups (w hi lo s n : Z) : Z := wrap w (Z.lor (Z.shiftr (Z.land n hi) s) (Z.shiftl (Z.land n lo) s)).

Definition reverse_bits8 (n : Z) : Z :=
  let n := swap_groups 8 0xF0 0x0F 4 n in
  let n := swap_groups 8 0xCC 0x33 2 n in
  swap_groups 8 0xAA 0x55 1 n.
Definition reverse_bits16 (n : Z) : Z :=
  let n := swap_groups 16 0xFF00 0x00FF 8 n in
  let n := swap_groups 16 0xF0F0 0x0F0F 4 n in
  let n := swap_groups 16 0xCCCC 0x3333 2 n in
  swap_groups 16 0xAAAA 0x5555 1 n.
Definition reverse_bits32 (n : Z) : Z :=
  let n := swap_groups 32 0xFFFF0000 0x0000FFFF 16 n in
  let n := swap_groups 32 0xFF00FF00 0x00FF00FF 8 n in
  let n := swap_groups 32 0xF0F0F0F0 0x0F0F0F0F 4 n in
  let n := swap_groups 32 0xCCCCCCCC 0x33333333 2 n in
  swap_groups 32 0xAAAAAAAA 0x55555555 1 n.
Definition reverse_bits64 (n : Z) : Z :=
  let n := swap_groups 64 0xFFFFFFFF00000000 0x00000000FFFFFFFF 32 n in
  let n := swap_groups 64 0xFFFF0000FFFF0000 0x0000FFFF0000FFFF 16 n in
  let n := swap_groups 64 0xFF00FF00FF00FF00 0x00FF00FF00FF00FF 8 n in
  let n := swap_groups 64 0xF0F0F0F0F0F0F0F0 0x0F0F0F0F0F0F0F0F 4 n in
  let n := swap_groups 64 0xCCCCCCCCCCCCCCCC 0x3333333333333333 2 n in
  swap_groups 64 0xAAAAAAAAAAAAAAAA 0x5555555555555555 1 n.

Definition byte_swap8 (v : Z) : Z := v.
Definition byte_swap16 (v : Z) : Z := swap_groups 16 0xFF00 0x00FF 8 v.
Definition byte_swap32 (v : Z) : Z :=
  let v := swap_groups 32 0xFF00FF00 0x00FF00FF 8 v in
  swap_groups 32 0xFFFF0000 0x0000FFFF 16 v.
Definition byte_swap64 (v : Z) : Z :=
  let v := swap_groups 64 0xFF00FF00FF00FF00 0x00FF00FF00FF00FF 8 v in
  let v := swap_groups 64 0xFFFF0000FFFF0000 0x0000FFFF0000FFFF 16 v in
  swap_groups 64 0xFFFFFFFF00000000 0x00000000FFFFFFFF 32 v.

(** The overloads for the unsigned types. *)
Definition reverse_unsigned (w : Z) : Z -> Z := if w =? 8 then reverse_bits8 else if w =? 16 then reverse_bits16 else if w =? 32 then reverse_bits32 else reverse_bits64.
Definition swap_unsigned (w : Z) : Z -> Z := if w =? 8 then byte_swap8 else if w =? 16 then byte_swap16 else if w =? 32 then byte_swap32 else byte_swap64.

(** *** bit_count.hpp *)

Definition popcount64 (value : Z) : Z :=
  let x := value in
  let x := to_u64 (x - Z.land (Z.shiftr x 1) 0x5555555555555555) in
  let x := to_u64 (Z.land x 0x3333333333333333 + Z.land (Z.shiftr x 2) 0x3333333333333333) in
  let x := Z.land (to_u64 (x + Z.shiftr x 4)) 0x0F0F0F0F0F0F0F0F in
  to_u32 (Z.shiftr (to_u64 (x * 0x0101010101010101)) 56).

Section Bits.
Context (w : Z) (sgn : bool).

Definition uns (v : Z) : Z := wrap w v.
Definition cast (u : Z) : Z := if sgn then to_signed w (wrap w u) else wrap w u.
Definition all_ones : Z := wrap w (Z.lnot 0).

Definition reverse_bits (value : Z) : Z := cast (reverse_unsigned w (uns value)).
Definition byte_swap (value : Z) : Z := cast (swap_unsigned w (uns value)).
Definition reverse_bytes (value : Z) : Z := byte_swap value.

Definition popcount (value : Z) : Z := popcount64 (uns value).
Definition count_ones (value : Z) : Z := popcount value.
Definition count_zeros (value : Z) : Z := to_u32 (w - popcount value).

(** [for (i = w >> 1; i > 0; i >>= 1)]: seven tests are enough for 64 bits. *)
Definition count_leading_zeros (value : Z) : exec Z :=
  let uval := uns value in
  if uval =? 0 then Done w
  else
    '(_, count, _) ← settled (while_loop 7 (fun '(_, _, i) => Done (0 <? i))
       (fun '(uval, count, i) =>
          high ← shr w uval i;
          Done (Next (if high =? 0 then (uval, count + i, Z.shiftr i 1) else (high, count, Z.shiftr i 1))))
       (uval, 0, Z.shiftr w 1));
    Done count.

Definition count_trailing_zeros (value : Z) : exec Z :=
  let uval := uns value in
  if uval =? 0 then Done w
  else
    '(_, count, _) ← settled (while_loop 7 (fun '(_, _, i) => Done (0 <? i))
       (fun '(uval, count, i) =>
          one ← shl w 1 i;
          if Z.land uval (one - 1) =? 0 then
            uval ← shr w uval i; Done (Next (uval, count + i, Z.shiftr i 1))
          else Done (Next (uval, count, Z.shiftr i 1)))
       (uval, 0, Z.shiftr w 1));
    Done count.

(** The casts of an unsigned argument are the identity. *)
Definition bit_width (value : Z) : exec Z :=
  let uval := uns value in if uval =? 0 then Done 0 else n ← count_leading_zeros uval; Done (to_u32 (w - n)).
Definition log2_floor (value : Z) : exec Z :=
  let uval := uns value in if uval =? 0 then Done 0 else n ← bit_width uval; Done (n - 1).
Definition parity (value : Z) : Z := Z.land (popcount value) 1.

(** *** bit_core.hpp *)

Definition test (value bit_index : Z) : exec bool :=
  if w <=? bit_index then Done false
  else x ← shr w (uns value) bit_index; Done (negb (Z.land x 1 =? 0)).
Definition set (value bit_index : Z) : exec Z :=
  if w <=? bit_index then Done value
  else b ← shl w 1 bit_index; Done (cast (Z.lor (uns value) b)).
Definition clear (value bit_index : Z) : exec Z :=
  if w <=? bit_index then Done value
  else b ← shl w 1 bit_index; Done (cast (Z.land (uns value) (uns (Z.lnot b)))).
Definition toggle (value bit_index : Z) : exec Z :=
  if w <=? bit_index then Done value
  else b ← shl w 1 bit_index; Done (cast (Z.lxor (uns value) b)).

(** *** bit_mask.hpp *)

Definition all_bits_mask : Z := cast (Z.lnot 0).
Definition single_bit_mask (bit_index : Z) : exec Z := b ← shl w 1 bit_index; Done (cast (uns b)).
Definition low_unsigned (bit_count : Z) : exec Z :=
  if w <=? bit_count then Done all_ones else b ← shl w 1 bit_count; Done (uns (uns b - 1)).
Definition low_bits_mask (bit_count : Z) : exec Z := m ← low_unsigned bit_count; Done (cast m).
Definition high_bits_mask (bit_count : Z) : exec Z :=
  if bit_count =? 0 then Done (cast 0)
  else if w <=? bit_count then Done (cast all_ones)
  else m ← shl w all_ones (w - bit_count); Done (cast (uns m)).
Definition range_mask (start_bit_index bit_count : Z) : exec Z :=
  m ← low_unsigned bit_count; m ← shl w m start_bit_index; Done (cast (uns m)).

(** *** bit_math.hpp *)

Definition is_even (v : Z) : bool := Z.land v 1 =? 0.
Definition is_odd (v : Z) : bool := negb (Z.land v 1 =? 0).
Definition is_power_of_two (v : Z) : bool :=
  if v <? 0 then false else let uval := uns v in negb (uval =? 0) && (Z.land uval (uval - 1) =? 0).

(** [for (i = 1; i < w; i *= 2) uval |= uval >> i]. *)
Definition smear (uval : Z) : exec Z :=
  '(uval, _) ← settled (while_loop 7 (fun '(_, i) => Done (i <? w))
     (fun '(uval, i) => x ← shr w uval i; Done (Next (Z.lor uval x, i * 2))) (uval, 1));
  Done uval.

Definition next_power_of_two (v : Z) : exec Z :=
  if v =? 0 then Done 1 else uval ← smear (uns (uns v - 1)); Done (cast (uval + 1)).
Definition previous_power_of_two (v : Z) : exec Z :=
  if v =? 0 then Done 0 else uval ← smear (uns v); Done (cast (uval - Z.shiftr uval 1)).
Definition align_up (value alignment : Z) : Z :=
  let mask := uns (uns alignment - 1) in cast (Z.land (uns value + mask) (Z.lnot mask)).
Definition align_down (value alignment : Z) : Z :=
  let mask := uns (uns alignment - 1) in cast (Z.land (uns value) (Z.lnot mask)).
Definition is_aligned (value alignment : Z) : bool :=
  let mask := uns (uns alignment - 1) in Z.land (uns value) mask =? 0.
Definition sign (v : Z) : Z := (if 0 <? v then 1 else 0) - (if v <? 0 then 1 else 0).

(** *** bit_rotate.hpp *)

Definition rotate_left (value shift : Z) : exec Z :=
  let uval := uns value in
  let shift := shift mod w in
  if shift =? 0 then Done value
  else a ← shl w uval shift; b ← shr w uval (w - shift); Done (cast (Z.lor a b)).
Definition rotate_right (value shift : Z) : exec Z :=
  let uval := uns value in
  let shift := shift mod w in
  if shift =? 0 then Done value
  else a ← shr w uval shift; b ← shl w uval (w - shift); Done (cast (Z.lor a b)).

(** *** bit_utils.hpp *)

Definition extract_lowest_set_bit (value : Z) : Z := let uval := uns value in cast (Z.land uval (- uval)).
Definition extract_highest_set_bit (value : Z) : exec Z :=
  let uval := uns value in
  if uval =? 0 then Done 0 else uval ← smear uval; Done (cast (uval - Z.shiftr uval 1)).
Definition extract_field (value start_bit width : Z) : exec Z :=
  let uval := uns value in
  if (width =? 0) || (w <=? start_bit) then Done (cast 0)
  else if w <=? width then x ← shr w uval start_bit; Done (cast x)
  else b ← shl w 1 width; x ← shr w uval start_bit; Done (cast (Z.land x (uns (b - 1)))).
Definition insert_field (dest field_val start_bit width : Z) : exec Z :=
  let udest := uns dest in
  let ufield := uns field_val in
  if (width =? 0) || (w <=? start_bit) then Done dest
  else
    mask ← (if w <=? width then Done all_ones else b ← shl w 1 width; Done (uns (b - 1)));
    let ufield := Z.land ufield mask in
    m ← shl w mask start_bit;
    let udest := Z.land udest (Z.lnot m) in
    f ← shl w ufield start_bit;
    Done (cast (Z.lor udest f)).
End Bits.

(** ** Casts and shifts *)

Lemma width_pos w : width_ok w -> 0 < w <= 64 /\ w = 8 * (w / 8).
Proof. intros [-> |[-> |[-> | ->]]]; done. Qed.

Section Casts.
Context (w : Z) (sgn : bool) (Hw : width_ok w).

Lemma uns_range v : 0 <= uns w v < 2 ^ w.
Proof using Hw. apply wrap_in_width. destruct (width_pos w Hw). lia. Qed.

Lemma uns_bits v i : 0 <= i -> Z.testbit (uns w v) i = (i <? w) && Z.testbit v i.
Proof using Hw. intros Hi. apply wrap_bits; [destruct (width_pos w Hw); lia|done]. Qed.

Lemma uns_small v : 0 <= v < 2 ^ w -> uns w v = v.
Proof. apply Z.mod_small. Qed.

Lemma uns_idem v : uns w (uns w v) = uns w v.
Proof using Hw. apply uns_small, uns_range. Qed.

Lemma uns_to_signed u : uns w (to_signed w u) = uns w u.
Proof using Hw.
  unfold to_signed, uns, wrap. destruct (u <? 2 ^ (w - 1)); [done|]. destruct (width_pos w Hw).
  replace (u - 2 ^ w) with (u + (-1) * 2 ^ w) by lia. apply Z.mod_add. apply Z.pow_nonzero; lia.
Qed.

Lemma uns_cast u : uns w (cast w sgn u) = uns w u.
Proof using Hw. unfold cast. destruct sgn; [rewrite uns_to_signed|]; apply uns_idem. Qed.

Lemma cast_uns v : in_type w sgn v -> cast w sgn (uns w v) = v.
Proof using Hw.
  unfold in_type, cast. fold (uns w (uns w v)). rewrite uns_idem. destruct (width_pos w Hw). destruct sgn; intros Hv; [apply to_signed_wrap; lia|by apply uns_small].
Qed.

Lemma cast_ext u u' : uns w u = uns w u' -> cast w sgn u = cast w sgn u'.
Proof. unfold cast, uns. by intros ->. Qed.

(** Values of the type are determined by their bits. *)
Lemma type_bits_inj v v' : in_type w sgn v -> in_type w sgn v' -> (forall i, 0 <= i < w -> Z.testbit (uns w v) i = Z.testbit (uns w v') i) -> v = v'.
Proof using Hw.
  intros Hv Hv' H. rewrite <-(cast_uns v Hv), <-(cast_uns v' Hv'). f_equal. apply Z.bits_inj'. intros i Hi. destruct (Z.lt_ge_cases i w); [by apply H|].
  by rewrite !uns_bits, (proj2 (Z.ltb_ge i w)) by lia.
Qed.

Lemma cast_in_type u : in_type w sgn (cast w sgn u).
Proof using Hw.
  pose proof (uns_range u) as H. unfold cast, in_type. fold (uns w u). destruct sgn; [|done]. destruct (width_pos w Hw). unfold to_signed.
  assert (E : 2 ^ w = 2 * 2 ^ (w - 1)) by (rewrite <-Z.pow_succ_r by lia; f_equal; lia). destruct (Z.ltb_spec (uns w u) (2 ^ (w - 1))); lia.
Qed.

Lemma shl_ok a s : 0 <= a < 2 ^ w -> 0 <= s < w -> exists x, shl w a s = Done x /\ 0 <= x /\ (forall i, 0 <= i < w -> Z.testbit x i = Z.testbit a (i - s)) /\ (a * 2 ^ s < 2 ^ w -> x = a * 2 ^ s).
Proof using Hw.
  intros Ha Hs. unfold shl. destruct (width_pos w Hw). rewrite (proj2 (Z.leb_gt (Z.max w 32) s)) by lia.
  assert (H2s : 0 < 2 ^ s) by (apply Z.pow_pos_nonneg; lia).
  destruct (Z.ltb_spec w 32) as [Hn|Hn].
  - assert (Hlt : a * 2 ^ s < 2 ^ 32).
    { apply Z.lt_le_trans with (2 ^ w * 2 ^ s); [nia|]. rewrite <-Z.pow_add_r by lia. apply Z.pow_le_mono_r; [lia|]. destruct Hw as [-> |[-> |[-> | ->]]]; lia. }
    rewrite (proj2 (Z.leb_gt (2 ^ 32) _)) by done. eexists. split; [done|]. split; [nia|]. split; [|done]. intros i Hi.
    rewrite <-Z.shiftl_mul_pow2 by lia. rewrite Z.shiftl_spec by lia. done.
  - eexists. split; [done|]. split; [apply (uns_range (a * 2 ^ s))|]. split.
    + intros i Hi. fold (uns w (a * 2 ^ s)). rewrite uns_bits, (proj2 (Z.ltb_lt i w)), <-Z.shiftl_mul_pow2, Z.shiftl_spec by lia. done.
    + intros Hlt. apply wrap_small. unfold in_width. nia.
Qed.

Lemma shl_one s : 0 <= s < w -> shl w 1 s = Done (2 ^ s).
Proof using Hw.
  intros Hs. destruct (width_pos w Hw) as [Hp _]. assert (H1 : 2 ^ s < 2 ^ w) by (apply Z.pow_lt_mono_r; lia).
  destruct (shl_ok 1 s) as (x & E & _ & _ & Hx); [|done|rewrite E, Hx; f_equal; lia].
  split; [lia|]. apply Z.le_lt_trans with (2 ^ s); [|done]. assert (0 < 2 ^ s) by (apply Z.pow_pos_nonneg; lia). lia.
Qed.

Lemma shr_ok a s : s < w -> shr w a s = Done (Z.shiftr a s).
Proof. intros Hs. unfold shr. by rewrite (proj2 (Z.leb_gt (Z.max w 32) s)) by lia. Qed.
End Casts.

(** ** Counting *)

(** The number of the low [n] bits that are set. *)
Fixpoint ones (n : nat) (u : Z) : Z := match n with O => 0 | S n => Z.b2z (Z.testbit u (Z.of_nat n)) + ones n u end.

Lemma ones_ext n u u' : (forall i, 0 <= i < Z.of_nat n -> Z.testbit u i = Z.testbit u' i) -> ones n u = ones n u'.
Proof. induction n as [|n IH]; intros H; [done|]. cbn [ones]. rewrite (H (Z.of_nat n)) by lia. rewrite IH; [done|]. intros i Hi. apply H. lia. Qed.

Lemma ones_bounds n u : 0 <= ones n u <= Z.of_nat n.
Proof. induction n as [|n IH]; cbn [ones]; [lia|]. destruct (Z.testbit u (Z.of_nat n)); cbn; lia. Qed.

Lemma ones_split n m u : ones (m + n) u = ones m (Z.shiftr u (Z.of_nat n)) + ones n u.
Proof.
  induction m as [|m IH]; [done|]. cbn [Nat.add ones]. rewrite IH, Z.shiftr_spec by lia. replace (Z.of_nat m + Z.of_nat n) with (Z.of_nat (m + n)) by lia. lia.
Qed.

(** Digits in base 16 of words: a digit and the digits above it have the bits of the sum. *)
Lemma hex_digit_bits d X i : 0 <= d < 16 -> 0 <= i -> Z.testbit (d + 16 * X) i = if i <? 4 then Z.testbit d i else Z.testbit X (i - 4).
Proof.
  intros Hd Hi. replace (d + 16 * X) with (d + X * 2 ^ 4) by lia. rewrite <-lor_add_shiftl, Z.lor_spec, Z.shiftl_spec by lia.
  destruct (Z.ltb_spec i 4); [by rewrite (Z.testbit_neg_r X), orb_false_r by lia|].
  rewrite <-(Z.mod_small d (2 ^ 4)), Z.mod_pow2_bits_high by lia. done.
Qed.

Abbreviation nibbles_ok := (Forall (fun d => 0 <= d < 16)).

(** A mask of the same nibble throughout cuts the shifted word nibble by nibble. *)
Lemma land_nibbles s m ds : 0 <= s -> 0 <= m < 2 ^ (4 - s) -> s <= 4 -> nibbles_ok ds ->
  Z.land (Z.shiftr (le_val 16 ds) s) (le_val 16 (replicate (length ds) m)) = le_val 16 ((fun d => Z.land (Z.shiftr d s) m) <$> ds).
Proof.
  intros Hs Hm Hs4 H. assert (Hm16 : m < 16) by (apply Z.lt_le_trans with (2 ^ (4 - s)); [lia|]; change 16 with (2 ^ 4); apply Z.pow_le_mono_r; lia).
  induction H as [|d ds Hd H IH]; cbn [length replicate fmap list_fmap le_val]; [apply Z.land_0_r|].
  apply Z.bits_inj'. intros i Hi. rewrite Z.land_spec, Z.shiftr_spec, !hex_digit_bits by lia.
  assert (Hl : 0 <= Z.land (Z.shiftr d s) m < 16).
  { change (in_width 4 (Z.land (Z.shiftr d s) m)). apply land_in_width; [lia|by apply shiftr_width|unfold in_width; lia]. }
  rewrite (hex_digit_bits _ _ i Hl Hi), <-IH. destruct (Z.ltb_spec i 4) as [Hi4|Hi4].
  - rewrite Z.land_spec, Z.shiftr_spec by lia. destruct (Z.ltb_spec (i + s) 4); [done|].
    assert (E : Z.testbit m i = false) by (rewrite <-(Z.mod_small m (2 ^ (4 - s))), Z.mod_pow2_bits_high by lia; done). by rewrite E, !andb_false_r.
  - rewrite (proj2 (Z.ltb_ge (i + s) 4)) by lia. rewrite Z.land_spec, Z.shiftr_spec by lia. by replace (i + s - 4) with (i - 4 + s) by lia.
Qed.

Lemma le_val_fmap_add (f g : Z -> Z) ds : le_val 16 (f <$> ds) + le_val 16 (g <$> ds) = le_val 16 ((fun d => f d + g d) <$> ds).
Proof. induction ds as [|d ds IH]; [done|]. cbn [fmap list_fmap le_val]. rewrite <-IH. lia. Qed.

Lemma le_val_fmap_sub (f g : Z -> Z) ds : le_val 16 (f <$> ds) - le_val 16 (g <$> ds) = le_val 16 ((fun d => f d - g d) <$> ds).
Proof. induction ds as [|d ds IH]; [done|]. cbn [fmap list_fmap le_val]. rewrite <-IH. lia. Qed.

Lemma nibble_word ds : nibbles_ok ds -> length ds = 16%nat -> to_u64 (le_val 16 ds) = le_val 16 ds.
Proof. intros H Hl. apply wrap_small. pose proof (le_val_bound 16 ds ltac:(lia) H) as Hb. rewrite Hl in Hb. exact Hb. Qed.

(** The first two steps count the bits of every nibble. *)
Definition nibble_step1 (d : Z) : Z := d - Z.land (Z.shiftr d 1) 5.
Definition nibble_step2 (d : Z) : Z := Z.land (Z.shiftr d 0) 3 + Z.land (Z.shiftr d 2) 3.

Lemma nibble_steps d : 0 <= d < 16 -> 0 <= nibble_step1 d < 16 /\ nibble_step2 (nibble_step1 d) = ones 4 d.
Proof.
  intros Hd. pose proof (all_below_spec 16 (fun d => (0 <=? nibble_step1 d) && (nibble_step1 d <? 16) && (nibble_step2 (nibble_step1 d) =? ones 4 d)) d eq_refl Hd) as H. cbn beta in H. lia.
Qed.

Lemma fmap_nibbles (f : Z -> Z) ds : (forall d, 0 <= d < 16 -> 0 <= f d < 16) -> nibbles_ok ds -> nibbles_ok (f <$> ds).
Proof. intros Hf H. apply Forall_fmap. eapply Forall_impl; [exact H|]. exact Hf. Qed.

Lemma nibble_counts ds : nibbles_ok ds -> length ds = 16%nat ->
  to_u64 (Z.land (to_u64 (le_val 16 ds - Z.land (Z.shiftr (le_val 16 ds) 1) 0x5555555555555555)) 0x3333333333333333
        + Z.land (Z.shiftr (to_u64 (le_val 16 ds - Z.land (Z.shiftr (le_val 16 ds) 1) 0x5555555555555555)) 2) 0x3333333333333333) = le_val 16 (ones 4 <$> ds).
Proof.
  intros H Hl.
  assert (E1 : le_val 16 ds - Z.land (Z.shiftr (le_val 16 ds) 1) 0x5555555555555555 = le_val 16 (nibble_step1 <$> ds)).
  { pose proof (land_nibbles 1 5 ds ltac:(lia) ltac:(lia) ltac:(lia) H) as E. rewrite Hl in E. change (le_val 16 (replicate 16 5)) with 0x5555555555555555 in E. rewrite E.
    rewrite <-(list_fmap_id ds) at 1. apply (le_val_fmap_sub id). }
  rewrite E1. assert (H1 : nibbles_ok (nibble_step1 <$> ds)) by (apply fmap_nibbles; [intros d Hd; by apply nibble_steps|done]).
  rewrite nibble_word by (rewrite ?length_fmap; done).
  pose proof (land_nibbles 0 3 (nibble_step1 <$> ds) ltac:(lia) ltac:(lia) ltac:(lia) H1) as E0. pose proof (land_nibbles 2 3 (nibble_step1 <$> ds) ltac:(lia) ltac:(lia) ltac:(lia) H1) as E2.
  rewrite length_fmap, Hl in E0, E2. change (le_val 16 (replicate 16 3)) with 0x3333333333333333 in E0, E2. rewrite Z.shiftr_0_r in E0. rewrite E0, E2, le_val_fmap_add, <-list_fmap_compose.
  assert (E : (fun d => Z.land (Z.shiftr d 0) 3 + Z.land (Z.shiftr d 2) 3) ∘ nibble_step1 <$> ds = ones 4 <$> ds).
  { apply Forall_fmap_ext. eapply Forall_impl; [exact H|]. intros d Hd. cbn beta. by apply nibble_steps. }
  rewrite E. apply nibble_word; [|by rewrite length_fmap]. apply fmap_nibbles; [|done]. intros d _. pose proof (ones_bounds 4 d). lia.
Qed.

Lemma land_zip ds ms : nibbles_ok ds -> nibbles_ok ms -> length ds = length ms -> Z.land (le_val 16 ds) (le_val 16 ms) = le_val 16 (zip_with Z.land ds ms).
Proof.
  intros H. revert ms. induction H as [|d ds Hd H IH]; intros ms Hm Hl; destruct ms as [|m ms]; try discriminate Hl; [done|]. apply Forall_cons in Hm as [Hm Hms].
  cbn [zip_with le_val]. apply Z.bits_inj'. intros i Hi. rewrite Z.land_spec, !hex_digit_bits by lia.
  assert (Hl' : 0 <= Z.land d m < 16) by (change (in_width 4 (Z.land d m)); by apply land_in_width).
  rewrite (hex_digit_bits _ _ i Hl' Hi), <-IH by (done || by injection Hl). destruct (Z.ltb_spec i 4); by rewrite Z.land_spec.
Qed.

Lemma nibble_pairs a b : 0 <= a <= 4 -> 0 <= b <= 4 -> Z.land (a + b) 15 = a + b /\ 0 <= a + b < 16.
Proof. intros Ha Hb. split; [|lia]. change 15 with (Z.ones 4). rewrite Z.land_ones by lia. apply Z.mod_small. lia. Qed.

(** The third step adds the nibbles of every byte. *)
Lemma byte_counts a0 a1 a2 a3 a4 a5 a6 a7 a8 a9 a10 a11 a12 a13 a14 a15 :
  let ns := [a0; a1; a2; a3; a4; a5; a6; a7; a8; a9; a10; a11; a12; a13; a14; a15] in
  Forall (fun d => 0 <= d <= 4) ns ->
  Z.land (to_u64 (le_val 16 ns + Z.shiftr (le_val 16 ns) 4)) 0x0F0F0F0F0F0F0F0F
  = le_val 16 [a0 + a1; 0; a2 + a3; 0; a4 + a5; 0; a6 + a7; 0; a8 + a9; 0; a10 + a11; 0; a12 + a13; 0; a14 + a15; 0].
Proof.
  intros ns H. subst ns. repeat apply Forall_cons in H as [? H]. clear H.
  set (sums := [a0 + a1; a1 + a2; a2 + a3; a3 + a4; a4 + a5; a5 + a6; a6 + a7; a7 + a8; a8 + a9; a9 + a10; a10 + a11; a11 + a12; a12 + a13; a13 + a14; a14 + a15; a15]).
  assert (Hs : nibbles_ok sums) by (subst sums; repeat constructor; lia).
  assert (Esh : Z.shiftr (le_val 16 [a0; a1; a2; a3; a4; a5; a6; a7; a8; a9; a10; a11; a12; a13; a14; a15]) 4 = le_val 16 [a1; a2; a3; a4; a5; a6; a7; a8; a9; a10; a11; a12; a13; a14; a15]).
  { rewrite Z.shiftr_div_pow2 by lia. change (2 ^ 4) with 16. cbn [le_val]. rewrite Z.add_comm, Z.mul_comm, Z.div_add_l, Z.div_small by lia. lia. }
  assert (E : le_val 16 [a0; a1; a2; a3; a4; a5; a6; a7; a8; a9; a10; a11; a12; a13; a14; a15] + Z.shiftr (le_val 16 [a0; a1; a2; a3; a4; a5; a6; a7; a8; a9; a10; a11; a12; a13; a14; a15]) 4 = le_val 16 sums).
  { rewrite Esh. subst sums. cbn [le_val]. lia. }
  rewrite E, nibble_word by done. change 0x0F0F0F0F0F0F0F0F with (le_val 16 [15; 0; 15; 0; 15; 0; 15; 0; 15; 0; 15; 0; 15; 0; 15; 0]).
  rewrite land_zip by (done || (repeat constructor; lia)). subst sums. cbn [zip_with]. rewrite !Z.land_0_r.
  rewrite !(fun a b Ha Hb => proj1 (nibble_pairs a b Ha Hb)) by done. done.
Qed.

(** The product gathers the bytes at the top. *)
Lemma gather_bytes s0 s1 s2 s3 s4 s5 s6 s7 :
  Forall (fun s => 0 <= s <= 8) [s0; s1; s2; s3; s4; s5; s6; s7] ->
  to_u32 (Z.shiftr (to_u64 (le_val 16 [s0; 0; s1; 0; s2; 0; s3; 0; s4; 0; s5; 0; s6; 0; s7; 0] * 0x0101010101010101)) 56) = s0 + s1 + s2 + s3 + s4 + s5 + s6 + s7.
Proof.
  intros H. repeat apply Forall_cons in H as [? H]. clear H. cbn [le_val]. unfold wrap at 2.
  match goal with |- context [(?p mod 2 ^ 64)] => assert (E : p mod 2 ^ 64 = 2 ^ 56 * (s0 + s1 + s2 + s3 + s4 + s5 + s6 + s7)
    + (s0 + 2 ^ 8 * (s0 + s1) + 2 ^ 16 * (s0 + s1 + s2) + 2 ^ 24 * (s0 + s1 + s2 + s3) + 2 ^ 32 * (s0 + s1 + s2 + s3 + s4) + 2 ^ 40 * (s0 + s1 + s2 + s3 + s4 + s5) + 2 ^ 48 * (s0 + s1 + s2 + s3 + s4 + s5 + s6))) end.
  { symmetry. apply Z.mod_unique_pos with (s1 + s2 + s3 + s4 + s5 + s6 + s7 + 2 ^ 8 * (s2 + s3 + s4 + s5 + s6 + s7) + 2 ^ 16 * (s3 + s4 + s5 + s6 + s7) + 2 ^ 24 * (s4 + s5 + s6 + s7) + 2 ^ 32 * (s5 + s6 + s7) + 2 ^ 40 * (s6 + s7) + 2 ^ 48 * s7); lia. }
  rewrite E, Z.shiftr_div_pow2 by lia. rewrite Z.mul_comm, Z.div_add_l, Z.div_small by lia. rewrite Z.add_0_r. apply wrap_small. unfold in_width. lia.
Qed.

Lemma ones_digits k u : 0 <= u -> ones (4 * k) u = fold_right Z.add 0 (ones 4 <$> le_digits 16 k u).
Proof.
  revert u. induction k as [|k IH]; intros u Hu; [done|]. cbn [le_digits fmap list_fmap fold_right].
  replace (4 * S k)%nat with (4 * k + 4)%nat by lia. rewrite ones_split, Z.shiftr_div_pow2 by lia. change (2 ^ Z.of_nat 4) with 16. rewrite IH by (by apply Z.div_pos).
  rewrite (ones_ext 4 u (u mod 16)); [lia|]. intros i Hi. change 16 with (2 ^ 4). by rewrite Z.mod_pow2_bits_low by lia.
Qed.

Lemma popcount64_ok u : u64 u -> popcount64 u = ones 64 u.
Proof.
  intros Hu. unfold popcount64. set (ds := le_digits 16 16 u). assert (Hd : nibbles_ok ds) by (apply le_digits_range; lia). assert (Hl : length ds = 16%nat) by apply length_le_digits.
  assert (E : u = le_val 16 ds) by (symmetry; apply le_val_digits; [lia|exact Hu]). cbv zeta. rewrite E, nibble_counts by done. rewrite <-E.
  change 64%nat with (4 * 16)%nat. rewrite ones_digits by (unfold in_width in Hu; lia). fold ds.
  assert (Hc : Forall (fun d => 0 <= d <= 4) (ones 4 <$> ds)) by (apply Forall_fmap, Forall_true; intros d; exact (ones_bounds 4 d)).
  assert (Hlc : length (ones 4 <$> ds) = 16%nat) by (by rewrite length_fmap). destruct (ones 4 <$> ds) as [|a0 [|a1 [|a2 [|a3 [|a4 [|a5 [|a6 [|a7 [|a8 [|a9 [|a10 [|a11 [|a12 [|a13 [|a14 [|a15 [|]]]]]]]]]]]]]]]]]; try discriminate Hlc.
  rewrite byte_counts by done. repeat apply Forall_cons in Hc as [? Hc]. rewrite gather_bytes by (repeat constructor; lia). cbn [fold_right]. lia.
Qed.

(** *** Leading and trailing zeros *)

Lemma shiftr_log2 u i : 0 < Z.shiftr u i -> 0 <= i -> Z.log2 (Z.shiftr u i) = Z.log2 u - i.
Proof.
  intros Hp Hi. assert (Hu : 0 < u).
  { destruct (Z.lt_trichotomy u 0) as [Hn|[->|]]; [apply (Z.shiftr_neg u i) in Hn; lia|rewrite Z.shiftr_0_l in Hp; lia|done]. }
  rewrite Z.log2_shiftr by done. assert (i <= Z.log2 u); [|lia].
  destruct (Z.lt_ge_cases (Z.log2 u) i) as [Hlt|]; [|done]. rewrite Z.shiftr_eq_0 in Hp by lia. lia.
Qed.

(** The index of the last [k] passes of a loop that halves it. *)
Definition half (k : nat) : Z := match k with O => 0 | S k => 2 ^ Z.of_nat k end.

Lemma half_next k : Z.shiftr (half (S k)) 1 = half k.
Proof.
  rewrite Z.shiftr_div_pow2 by lia. change (2 ^ 1) with 2. destruct k as [|k]; [done|]. cbn [half]. rewrite Nat2Z.inj_succ, Z.pow_succ_r by lia. rewrite Z.mul_comm. by apply Z.div_mul.
Qed.

Lemma width_half w : width_ok w -> exists k, (k <= 6)%nat /\ w = 2 ^ Z.of_nat k /\ Z.shiftr w 1 = half k /\ half k < w.
Proof. intros [-> |[-> |[-> | ->]]]; [exists 3%nat|exists 4%nat|exists 5%nat|exists 6%nat]; (split; [lia|done]). Qed.

Lemma half_lt k j : (k <= j)%nat -> half k <= half j.
Proof.
  intros H. destruct k as [|k]; cbn [half]; [destruct j; cbn [half]; [lia|apply Z.pow_nonneg; lia]|]. destruct j as [|j]; [lia|]. cbn [half]. apply Z.pow_le_mono_r; lia.
Qed.

Section Zeros.
Context (w : Z) (Hw : width_ok w).

Lemma clz_loop k fuel u c : (k < fuel)%nat -> half k < w -> 0 < u < 2 ^ 2 ^ Z.of_nat k ->
  exists u', while_loop (R := Empty_set) fuel (fun '(_, _, i) => Done (0 <? i))
       (fun '(uval, count, i) =>
          high ← shr w uval i;
          Done (Next (if high =? 0 then (uval, count + i, Z.shiftr i 1) else (high, count, Z.shiftr i 1)))) (u, c, half k)
    = Done (Next (u', c + (2 ^ Z.of_nat k - 1 - Z.log2 u), 0)).
Proof.
  revert fuel u c. induction k as [|k IH]; intros fuel u c Hf Hk Hu; (destruct fuel as [|fuel]; [lia|]); cbn [while_loop].
  - exists u. change (2 ^ 2 ^ Z.of_nat 0) with 2 in Hu. assert (u = 1) as -> by lia. cbn. by rewrite Z.add_0_r.
  - set (i := half (S k)). assert (Hi : 0 < i) by (apply Z.pow_pos_nonneg; lia). rewrite (proj2 (Z.ltb_lt 0 i)) by done.
    rewrite shr_ok by done. rewrite bind_Done. subst i. rewrite half_next. set (i := half (S k)) in *. assert (Hwin : 2 ^ Z.of_nat (S k) = i + 2 ^ Z.of_nat k) by (subst i; cbn [half]; rewrite Nat2Z.inj_succ, Z.pow_succ_r by lia; lia).
    assert (Hi' : i = 2 ^ Z.of_nat k) by done. assert (Hkw : half k < w) by (subst i; pose proof (half_lt k (S k) ltac:(lia)); lia).
    destruct (Z.eqb_spec (Z.shiftr u i) 0) as [E|N].
    + destruct (IH fuel u (c + i)) as (u' & E'); [lia|done| |].
      * split; [lia|]. rewrite <-Hi'. apply Z.log2_lt_pow2; [lia|]. destruct (Z.lt_ge_cases (Z.log2 u) i) as [|Hge]; [done|].
        rewrite Z.shiftr_div_pow2, Z.div_small_iff in E by (try apply Z.pow_nonzero; lia). apply Z.log2_le_pow2 in Hge; lia.
      * exists u'. rewrite E', Hwin. by replace (c + i + (2 ^ Z.of_nat k - 1 - Z.log2 u)) with (c + (i + 2 ^ Z.of_nat k - 1 - Z.log2 u)) by lia.
    + assert (Hp : 0 < Z.shiftr u i) by (assert (0 <= Z.shiftr u i) by (apply Z.shiftr_nonneg; lia); lia).
      destruct (IH fuel (Z.shiftr u i) c) as (u' & E'); [lia|done| |].
      * split; [done|]. rewrite Z.shiftr_div_pow2 by lia. apply Z.div_lt_upper_bound; [apply Z.pow_pos_nonneg; lia|]. rewrite <-Z.pow_add_r, <-Hwin by lia. apply Hu.
      * exists u'. rewrite E', Hwin, shiftr_log2 by lia. by replace (2 ^ Z.of_nat k - 1 - (Z.log2 u - i)) with (i + 2 ^ Z.of_nat k - 1 - Z.log2 u) by lia.
Qed.

Lemma clz_unsigned u : 0 < u < 2 ^ w -> count_leading_zeros w u = Done (w - 1 - Z.log2 u).
Proof using Hw.
  intros Hu. unfold count_leading_zeros. rewrite uns_small, (proj2 (Z.eqb_neq u 0)) by lia. destruct (width_half w Hw) as (k & Hk & Ew & Eh & Hlt).
  rewrite Eh. destruct (clz_loop k 7 u 0) as (u' & E); [lia|done|rewrite <-Ew; lia|]. rewrite E. cbn [settled]. rewrite bind_Done, <-Ew. by rewrite Z.add_0_l.
Qed.

(** [c] trailing zeros: bit [c] is the lowest that is set. *)
Definition trailing (u c : Z) : Prop := 0 <= c /\ Z.testbit u c = true /\ forall j, 0 <= j < c -> Z.testbit u j = false.

Lemma land_mask_bits u i : 0 <= i -> Z.land u (2 ^ i - 1) = u mod 2 ^ i.
Proof. intros Hi. rewrite <-Z.land_ones by done. by rewrite Z.ones_equiv, Z.sub_1_r. Qed.

Lemma low_zero u i j : 0 <= j < i -> u mod 2 ^ i = 0 -> Z.testbit u j = false.
Proof. intros Hj E. rewrite <-(Z.mod_pow2_bits_low u i) by lia. rewrite E. apply Z.testbit_0_l. Qed.

Lemma ctz_loop k fuel u c : (k < fuel)%nat -> half k < w -> (exists j, 0 <= j < 2 ^ Z.of_nat k /\ Z.testbit u j = true) ->
  exists u' t, while_loop (R := Empty_set) fuel (fun '(_, _, i) => Done (0 <? i))
       (fun '(uval, count, i) =>
          one ← shl w 1 i;
          if Z.land uval (one - 1) =? 0 then
            uval ← shr w uval i; Done (Next (uval, count + i, Z.shiftr i 1))
          else Done (Next (uval, count, Z.shiftr i 1))) (u, c, half k)
    = Done (Next (u', c + t, 0)) /\ trailing u t.
Proof using Hw.
  revert fuel u c. induction k as [|k IH]; intros fuel u c Hf Hk (j & Hj & Hb); (destruct fuel as [|fuel]; [lia|]); cbn [while_loop].
  - exists u, 0. change (2 ^ Z.of_nat 0) with 1 in Hj. assert (j = 0) as -> by lia. cbn. rewrite Z.add_0_r. split; [done|]. split; [lia|]. split; [done|lia].
  - set (i := half (S k)). assert (Hi : 0 < i) by (apply Z.pow_pos_nonneg; lia). rewrite (proj2 (Z.ltb_lt 0 i)) by done.
    rewrite shl_one by (done || lia). rewrite bind_Done, land_mask_bits by lia. subst i. rewrite half_next. set (i := half (S k)) in *.
    assert (Hwin : 2 ^ Z.of_nat (S k) = i + 2 ^ Z.of_nat k) by (subst i; cbn [half]; rewrite Nat2Z.inj_succ, Z.pow_succ_r by lia; lia).
    assert (Hi' : i = 2 ^ Z.of_nat k) by done. assert (Hkw : half k < w) by (subst i; pose proof (half_lt k (S k) ltac:(lia)); lia).
    destruct (Z.eqb_spec (u mod 2 ^ i) 0) as [E|N].
    + rewrite shr_ok by done. rewrite bind_Done. assert (Hij : i <= j) by (destruct (Z.lt_ge_cases j i); [rewrite (low_zero u i j) in Hb by (done || lia); done|done]).
      destruct (IH fuel (Z.shiftr u i) (c + i)) as (u' & t & E' & Ht & Hbt & Hlow); [lia|done| |].
      * exists (j - i). split; [lia|]. rewrite Z.shiftr_spec by lia. by replace (j - i + i) with j by lia.
      * exists u', (i + t). rewrite E'. split; [by rewrite Z.add_assoc|]. rewrite Z.shiftr_spec in Hbt by lia. split; [lia|]. split; [by rewrite Z.add_comm|].
        intros x Hx. destruct (Z.lt_ge_cases x i); [apply (low_zero u i); [lia|done]|]. specialize (Hlow (x - i)). rewrite Z.shiftr_spec in Hlow by lia. replace (x - i + i) with x in Hlow by lia. apply Hlow. lia.
    + destruct (IH fuel u c) as (u' & t & E' & Ht); [lia|done| |by exists u', t].
      assert (Hp : 0 <= u mod 2 ^ i < 2 ^ i) by (apply Z.mod_pos_bound, Z.pow_pos_nonneg; lia).
      set (r := u mod 2 ^ i) in *. assert (Er : forall x, x < i -> Z.testbit r x = Z.testbit u x) by (intros x Hx; by apply Z.mod_pow2_bits_low). clearbody r. clearbody i.
      assert (Hlog : 0 <= Z.log2 r < i) by (split; [apply Z.log2_nonneg|apply Z.log2_lt_pow2; lia]). exists (Z.log2 r). split; [lia|]. rewrite <-Er by lia. apply Z.bit_log2. lia.
Qed.
End Zeros.

Lemma ones_0 n : ones n 0 = 0.
Proof. induction n as [|n IH]; [done|]. cbn [ones]. by rewrite Z.testbit_0_l, IH. Qed.

Section Counts.
Context (w : Z) (Hw : width_ok w).

Lemma popcount_ones v : popcount w v = ones (Z.to_nat w) (uns w v).
Proof using Hw.
  pose proof (uns_range w Hw v) as Hu. destruct (width_pos w Hw) as [Hp _]. unfold popcount. rewrite popcount64_ok.
  - replace 64%nat with ((64 - Z.to_nat w) + Z.to_nat w)%nat by lia. rewrite ones_split, Z2Nat.id, Z.shiftr_div_pow2, Z.div_small by lia. by rewrite ones_0.
  - unfold in_width. pose proof (Z.pow_le_mono_r 2 w 64). lia.
Qed.

Lemma popcount_range v : 0 <= popcount w v <= w.
Proof using Hw. rewrite popcount_ones. pose proof (ones_bounds (Z.to_nat w) (uns w v)). destruct (width_pos w Hw). lia. Qed.

Lemma clz_ok v : count_leading_zeros w v = Done (if uns w v =? 0 then w else w - 1 - Z.log2 (uns w v)).
Proof using Hw.
  pose proof (uns_range w Hw v) as Hu. destruct (Z.eqb_spec (uns w v) 0) as [E|N]; [unfold count_leading_zeros; by rewrite E|].
  rewrite <-(clz_unsigned w Hw (uns w v)) by lia. unfold count_leading_zeros. by rewrite uns_idem.
Qed.

Lemma ctz_ok v : exists c, count_trailing_zeros w v = Done c /\ (if uns w v =? 0 then c = w else trailing (uns w v) c).
Proof using Hw.
  pose proof (uns_range w Hw v) as Hu. unfold count_trailing_zeros. destruct (Z.eqb_spec (uns w v) 0) as [E|N]; [by exists w|].
  destruct (width_half w Hw) as (k & Hk & Ew & Eh & Hlt). rewrite Eh. destruct (ctz_loop w Hw k 7 (uns w v) 0) as (u' & t & E & Ht); [lia|done| |].
  - exists (Z.log2 (uns w v)). rewrite <-Ew. split; [|apply Z.bit_log2; lia]. split; [apply Z.log2_nonneg|apply Z.log2_lt_pow2; lia].
  - exists t. rewrite E. cbn [settled]. rewrite bind_Done, Z.add_0_l. done.
Qed.

Lemma bit_width_ok v : bit_width w v = Done (if uns w v =? 0 then 0 else Z.log2 (uns w v) + 1).
Proof using Hw.
  pose proof (uns_range w Hw v) as Hu. destruct (width_pos w Hw) as [Hp _]. unfold bit_width. destruct (Z.eqb_spec (uns w v) 0) as [E|N]; [done|].
  rewrite clz_unsigned by (done || lia). rewrite bind_Done. f_equal. assert (0 <= Z.log2 (uns w v) < w) by (split; [apply Z.log2_nonneg|apply Z.log2_lt_pow2; lia]).
  replace (w - (w - 1 - Z.log2 (uns w v))) with (Z.log2 (uns w v) + 1) by lia. apply wrap_small. unfold in_width. lia.
Qed.

Lemma log2_floor_ok v : log2_floor w v = Done (Z.log2 (uns w v)).
Proof using Hw.
  unfold log2_floor. destruct (Z.eqb_spec (uns w v) 0) as [E|N]; [by rewrite E|]. rewrite bit_width_ok, (uns_idem w Hw), (proj2 (Z.eqb_neq _ _) N), bind_Done. f_equal. lia.
Qed.
End Counts.

(** C33.  The counting functions at every integer type: [popcount] and [count_ones] count the
    set bits of the value's pattern, [count_zeros] the clear ones, [parity] is their number
    modulo two; the bisections of the zero counts and the logarithm terminate and return the
    exact index of the highest and lowest set bit, the width for zero. *)
Theorem bit_counts_exact w v (Hw : width_ok w) :
  let u := uns w v in
  popcount w v = ones (Z.to_nat w) u
  /\ count_ones w v = popcount w v
  /\ count_zeros w v = w - popcount w v
  /\ parity w v = popcount w v mod 2
  /\ count_leading_zeros w v = Done (if u =? 0 then w else w - 1 - Z.log2 u)
  /\ (exists c, count_trailing_zeros w v = Done c /\ (if u =? 0 then c = w else trailing u c))
  /\ bit_width w v = Done (if u =? 0 then 0 else Z.log2 u + 1)
  /\ log2_floor w v = Done (Z.log2 u).
Proof.
  pose proof (popcount_range w Hw v) as Hr. destruct (width_pos w Hw) as [Hp _]. cbv zeta.
  split; [by apply popcount_ones|]. split; [done|]. split; [apply wrap_small; unfold in_width; lia|]. split; [apply (Z.land_ones _ 1); lia|].
  split; [by apply clz_ok|]. split; [by apply ctz_ok|]. split; [by apply bit_width_ok|by apply log2_floor_ok].
Qed.

Lemma bit_counts_exact_witness : width_ok 32 /\ popcount 32 (-256) = 24 /\ log2_floor 32 1000 = Done 9.
Proof.
  assert (Hw : width_ok 32) by (right; right; left; reflexivity). split; [exact Hw|].
  split; [rewrite (proj1 (bit_counts_exact 32 (-256) Hw)); reflexivity|]. destruct (bit_counts_exact 32 1000 Hw) as (_ & _ & _ & _ & _ & _ & _ & H). exact H.
Defined.

(** ** Permutations of the bits *)

(** The place a bit of [swap_groups] comes from, and the masks for which that is all of it. *)
Definition origin (st : Z * Z * Z) (i : Z) : Z := let '(hi, lo, s) := st in if Z.testbit hi (i + s) then i + s else i - s.
Definition stage_ok (w : Z) (st : Z * Z * Z) (i : Z) : bool :=
  let '(hi, lo, s) := st in
  (0 <=? s) && (0 <=? origin st i) && (origin st i <? w) && xorb (Z.testbit hi (i + s)) (Z.testbit lo (i - s)).

Lemma swap_groups_bits w hi lo s n i : 0 <= i < w -> stage_ok w (hi, lo, s) i = true ->
  Z.testbit (swap_groups w hi lo s n) i = Z.testbit n (origin (hi, lo, s) i).
Proof.
  intros Hi H. unfold stage_ok in H. rewrite !andb_true_iff in H. destruct H as [[[Hs Hlo] Hhi] Hx]. apply Z.leb_le in Hs. unfold swap_groups.
  rewrite wrap_bits, (proj2 (Z.ltb_lt i w)), Z.lor_spec, Z.shiftr_spec, Z.shiftl_spec, !Z.land_spec by lia. unfold origin.
  destruct (Z.testbit hi (i + s)), (Z.testbit lo (i - s)); try discriminate Hx; by rewrite ?andb_true_r, ?andb_false_r, ?orb_false_r.
Qed.

Definition run_stages (w : Z) (sts : list (Z * Z * Z)) (n : Z) : Z := foldl (fun n '(hi, lo, s) => swap_groups w hi lo s n) n sts.
Definition origins (sts : list (Z * Z * Z)) (i : Z) : Z := foldr origin i sts.
(** [to i] is the place bit [i] of the result of all the stages comes from. *)
Definition stages_give (w : Z) (sts : list (Z * Z * Z)) (to : Z -> Z) : bool :=
  forallb (fun st => all_below (Z.to_nat w) (stage_ok w st)) sts && all_below (Z.to_nat w) (fun i => origins sts i =? to i).

Lemma run_stages_bits w sts n i : forallb (fun st => all_below (Z.to_nat w) (stage_ok w st)) sts = true -> 0 <= i < w ->
  Z.testbit (run_stages w sts n) i = Z.testbit n (origins sts i) /\ 0 <= origins sts i < w.
Proof.
  unfold run_stages, origins. revert i. induction sts as [|[[hi lo] s] sts IH] using rev_ind; intros i H Hi; [done|].
  rewrite forallb_app, andb_true_iff in H. destruct H as [H Hst]. cbn [forallb] in Hst. rewrite andb_true_r in Hst. rewrite foldl_app, foldr_app. cbn [foldl foldr].
  pose proof (all_below_spec _ _ i Hst ltac:(lia)) as Hs. rewrite swap_groups_bits by done. apply IH; [done|]. unfold stage_ok in Hs. lia.
Qed.

Lemma run_stages_to w sts to n i : stages_give w sts to = true -> 0 <= i < w -> Z.testbit (run_stages w sts n) i = Z.testbit n (to i).
Proof.
  unfold stages_give. rewrite andb_true_iff. intros [H Ho] Hi. rewrite (proj1 (run_stages_bits w sts n i H Hi)).
  pose proof (all_below_spec _ _ i Ho ltac:(lia)) as E. cbn beta in E. by apply Z.eqb_eq in E as ->.
Qed.

Lemma run_stages_range w sts n : 0 <= w -> 0 <= n < 2 ^ w -> 0 <= run_stages w sts n < 2 ^ w.
Proof.
  intros Hw. revert n. induction sts as [|[[hi lo] s] sts IH]; intros n Hn; [done|]. apply IH. by apply wrap_in_width.
Qed.

Definition reversal (w i : Z) : Z := w - 1 - i.
(** Bit [i mod 8] of byte [i / 8] counted from the other end. *)
Definition byte_reversal (w i : Z) : Z := w - 8 - 8 * (i / 8) + i mod 8.

#[local] Ltac stages := intros n; unfold run_stages, reverse_unsigned, swap_unsigned; cbn [foldl Z.eqb Pos.eqb]; reflexivity.

Lemma byte_reversal_involutive w i : w = 8 * (w / 8) -> byte_reversal w (byte_reversal w i) = i.
Proof.
  intros E. unfold byte_reversal. set (q := w / 8) in *. pose proof (Z.mod_pos_bound i 8 ltac:(lia)) as Hm. pose proof (Z.div_mod i 8 ltac:(lia)) as Hi.
  replace (w - 8 - 8 * (i / 8) + i mod 8) with ((q - 1 - i / 8) * 8 + i mod 8) by lia.
  rewrite Z.div_add_l, (Z.div_small (i mod 8)), Z.add_comm, Z.add_mod, Z.mod_mul, Z.add_0_l, !Z.mod_mod by lia. lia.
Qed.

Lemma byte_reversal_range w i : w = 8 * (w / 8) -> 0 <= i < w -> 0 <= byte_reversal w i < w.
Proof.
  intros E Hi. unfold byte_reversal. set (q := w / 8) in *. clearbody q. subst w. pose proof (Z.mod_pos_bound i 8 ltac:(lia)) as Hm.
  assert (Hd : 0 <= i / 8 < q) by (split; [apply Z.div_pos; lia|apply Z.div_lt_upper_bound; lia]). lia.
Qed.

Lemma reverse_unsigned_stages w : width_ok w -> exists sts, (forall n, reverse_unsigned w n = run_stages w sts n) /\ stages_give w sts (reversal w) = true.
Proof.
  intros [-> |[-> |[-> | ->]]].
  - exists [(0xF0, 0x0F, 4); (0xCC, 0x33, 2); (0xAA, 0x55, 1)]. split; [by stages|by vm_compute].
  - exists [(0xFF00, 0x00FF, 8); (0xF0F0, 0x0F0F, 4); (0xCCCC, 0x3333, 2); (0xAAAA, 0x5555, 1)]. split; [by stages|by vm_compute].
  - exists [(0xFFFF0000, 0x0000FFFF, 16); (0xFF00FF00, 0x00FF00FF, 8); (0xF0F0F0F0, 0x0F0F0F0F, 4); (0xCCCCCCCC, 0x33333333, 2); (0xAAAAAAAA, 0x55555555, 1)].
    split; [by stages|by vm_compute].
  - exists [(0xFFFFFFFF00000000, 0x00000000FFFFFFFF, 32); (0xFFFF0000FFFF0000, 0x0000FFFF0000FFFF, 16); (0xFF00FF00FF00FF00, 0x00FF00FF00FF00FF, 8);
      (0xF0F0F0F0F0F0F0F0, 0x0F0F0F0F0F0F0F0F, 4); (0xCCCCCCCCCCCCCCCC, 0x3333333333333333, 2); (0xAAAAAAAAAAAAAAAA, 0x5555555555555555, 1)].
    split; [by stages|by vm_compute].
Qed.

Lemma swap_unsigned_stages w : width_ok w -> exists sts, (forall n, swap_unsigned w n = run_stages w sts n) /\ stages_give w sts (byte_reversal w) = true.
Proof.
  intros [-> |[-> |[-> | ->]]].
  - exists []. split; [by stages|by vm_compute].
  - exists [(0xFF00, 0x00FF, 8)]. split; [by stages|by vm_compute].
  - exists [(0xFF00FF00, 0x00FF00FF, 8); (0xFFFF0000, 0x0000FFFF, 16)]. split; [by stages|by vm_compute].
  - exists [(0xFF00FF00FF00FF00, 0x00FF00FF00FF00FF, 8); (0xFFFF0000FFFF0000, 0x0000FFFF0000FFFF, 16); (0xFFFFFFFF00000000, 0x00000000FFFFFFFF, 32)].
    split; [by stages|by vm_compute].
Qed.

Section Permutations.
Context (w : Z) (sgn : bool) (Hw : width_ok w).

Lemma uns_cast_bits u i : 0 <= i < w -> Z.testbit (uns w (cast w sgn u)) i = Z.testbit u i.
Proof using Hw. intros Hi. rewrite uns_cast, uns_bits, (proj2 (Z.ltb_lt i w)) by (done || lia). done. Qed.

Lemma reverse_bits_bits v i : 0 <= i < w -> Z.testbit (uns w (reverse_bits w sgn v)) i = Z.testbit (uns w v) (w - 1 - i).
Proof using Hw.
  intros Hi. destruct (reverse_unsigned_stages w Hw) as (sts & E & H). unfold reverse_bits. rewrite uns_cast_bits, E by done. by rewrite (run_stages_to w sts (reversal w)).
Qed.

Lemma byte_swap_bits v i : 0 <= i < w -> Z.testbit (uns w (byte_swap w sgn v)) i = Z.testbit (uns w v) (byte_reversal w i).
Proof using Hw.
  intros Hi. destruct (swap_unsigned_stages w Hw) as (sts & E & H). unfold byte_swap. rewrite uns_cast_bits, E by done. by rewrite (run_stages_to w sts (byte_reversal w)).
Qed.

Lemma above_width u i : 0 <= u < 2 ^ w -> w <= i -> Z.testbit u i = false.
Proof using Hw.
  intros Hu Hi. rewrite <-(Z.mod_small u (2 ^ w)) by done. apply Z.mod_pow2_bits_high. destruct (width_pos w Hw). lia.
Qed.

(** Or of the two shifts of a rotation by [s], in either order. *)
Lemma rotation_parts u s : 0 <= u < 2 ^ w -> 0 < s < w -> exists a, shl w u s = Done a /\ shr w u (w - s) = Done (Z.shiftr u (w - s)) /\
  forall i, 0 <= i < w -> Z.testbit (Z.lor a (Z.shiftr u (w - s))) i = Z.testbit u ((i - s) mod w).
Proof using Hw.
  intros Hu Hs. destruct (shl_ok w Hw u s Hu ltac:(lia)) as (a & E & _ & Ha & _). exists a. split; [done|]. split; [apply shr_ok; lia|].
  intros i Hi. rewrite Z.lor_spec, Z.shiftr_spec, Ha by lia. destruct (Z.lt_ge_cases i s).
  - rewrite (Z.testbit_neg_r u (i - s)) by lia. cbn [orb]. f_equal. apply Z.mod_unique_pos with (-1); lia.
  - rewrite (above_width u (i + (w - s))) by lia. rewrite orb_false_r, Z.mod_small by lia. done.
Qed.

Lemma rotate_left_bits v s : 0 <= s -> exists l, rotate_left w sgn v s = Done l /\ forall i, 0 <= i < w -> Z.testbit (uns w l) i = Z.testbit (uns w v) ((i - s) mod w).
Proof using Hw.
  intros Hs0. destruct (width_pos w Hw) as [Hp _]. unfold rotate_left. pose proof (Z.mod_pos_bound s w ltac:(lia)) as Hs.
  assert (Em : forall i, (i - s) mod w = (i - s mod w) mod w) by (intros i; by rewrite Zminus_mod_idemp_r).
  destruct (Z.eqb_spec (s mod w) 0) as [E|N].
  - exists v. split; [done|]. intros i Hi. rewrite Em, E, Z.sub_0_r, Z.mod_small by lia. done.
  - destruct (rotation_parts (uns w v) (s mod w) (uns_range w Hw v) ltac:(lia)) as (a & E & E' & H). rewrite E, E'. rewrite !bind_Done.
    eexists. split; [done|]. intros i Hi. by rewrite uns_cast_bits, H, Em.
Qed.

Lemma rotate_right_bits v s : 0 <= s -> exists r, rotate_right w sgn v s = Done r /\ forall i, 0 <= i < w -> Z.testbit (uns w r) i = Z.testbit (uns w v) ((i + s) mod w).
Proof using Hw.
  intros Hs0. destruct (width_pos w Hw) as [Hp _]. unfold rotate_right. pose proof (Z.mod_pos_bound s w ltac:(lia)) as Hs.
  assert (Em : forall i, (i + s) mod w = (i - (w - s mod w)) mod w).
  { intros i. rewrite <-Zplus_mod_idemp_r. replace (i - (w - s mod w)) with (i + s mod w + (-1) * w) by lia. by rewrite Z.mod_add by lia. }
  destruct (Z.eqb_spec (s mod w) 0) as [E|N].
  - exists v. split; [done|]. intros i Hi. rewrite <-Zplus_mod_idemp_r, E, Z.add_0_r, Z.mod_small by lia. done.
  - destruct (rotation_parts (uns w v) (w - s mod w) (uns_range w Hw v) ltac:(lia)) as (a & E & E' & H). replace (w - (w - s mod w)) with (s mod w) in * by lia. rewrite E, E'. rewrite !bind_Done.
    eexists. split; [done|]. intros i Hi. by rewrite uns_cast_bits, Z.lor_comm, H, Em.
Qed.
Lemma rotate_left_in_type v s l : in_type w sgn v -> rotate_left w sgn v s = Done l -> in_type w sgn l.
Proof using Hw.
  intros Hv. unfold rotate_left. destruct (s mod w =? 0); [by intros [= <-]|]. destruct (shl w (uns w v) (s mod w)) as [a|]; [|done].
  destruct (shr w (uns w v) (w - s mod w)) as [b|]; [|done]. intros [= <-]. by apply cast_in_type.
Qed.

Lemma rotate_right_in_type v s r : in_type w sgn v -> rotate_right w sgn v s = Done r -> in_type w sgn r.
Proof using Hw.
  intros Hv. unfold rotate_right. destruct (s mod w =? 0); [by intros [= <-]|]. destruct (shr w (uns w v) (s mod w)) as [a|]; [|done].
  destruct (shl w (uns w v) (w - s mod w)) as [b|]; [|done]. intros [= <-]. by apply cast_in_type.
Qed.
End Permutations.

(**  The reversals, byte swaps and rotations permute the bits of every value of every
    integer type, at any shift count: bit [i] of the reversal is bit [w - 1 - i] of the
    value, of the byte swap the same bit of the mirrored byte, of a rotation the bit [s] places round;
    reversal and byte swap are their own inverses and the rotations each other's. *)
Theorem bit_permutations w sgn v s (Hw : width_ok w) (Hv : in_type w sgn v) (Hs : 0 <= s < 2 ^ 32) :
  let bit x := Z.testbit (uns w x) in
  (forall i, 0 <= i < w -> bit (reverse_bits w sgn v) i = bit v (w - 1 - i))
  /\ reverse_bits w sgn (reverse_bits w sgn v) = v
  /\ (forall i, 0 <= i < w -> bit (byte_swap w sgn v) i = bit v (w - 8 - 8 * (i / 8) + i mod 8))
  /\ byte_swap w sgn (byte_swap w sgn v) = v
  /\ exists l r, rotate_left w sgn v s = Done l /\ rotate_right w sgn v s = Done r
     /\ (forall i, 0 <= i < w -> bit l i = bit v ((i - s) mod w) /\ bit r i = bit v ((i + s) mod w))
     /\ rotate_right w sgn l s = Done v /\ rotate_left w sgn r s = Done v.
Proof.
  destruct (width_pos w Hw) as [Hp H8]. cbv zeta. split; [intros i Hi; by apply reverse_bits_bits|]. split.
  { apply (type_bits_inj w sgn Hw); [by apply cast_in_type|done|]. intros i Hi. rewrite !reverse_bits_bits by (done || lia). f_equal. lia. }
  split; [intros i Hi; by apply byte_swap_bits|]. split.
  { apply (type_bits_inj w sgn Hw); [by apply cast_in_type|done|]. intros i Hi. assert (Hi8 : 0 <= byte_reversal w i < w) by by apply byte_reversal_range.
    rewrite !byte_swap_bits by done. f_equal. by apply byte_reversal_involutive. }
  destruct (rotate_left_bits w sgn Hw v s) as (l & El & Hl); [lia|]. destruct (rotate_right_bits w sgn Hw v s) as (r & Er & Hr); [lia|].
  assert (Hin : in_type w sgn l /\ in_type w sgn r) by exact (conj (rotate_left_in_type w sgn Hw v s l Hv El) (rotate_right_in_type w sgn Hw v s r Hv Er)).
  exists l, r. split; [done|]. split; [done|]. split; [intros i Hi; split; [by apply Hl|by apply Hr]|]. split.
  - destruct (rotate_right_bits w sgn Hw l s) as (v' & E & H); [lia|]. rewrite E. f_equal.
    apply (type_bits_inj w sgn Hw); [apply (rotate_right_in_type w sgn Hw l s); [apply Hin|done]|done|]. intros i Hi. rewrite H, Hl by first [exact Hi|apply Z.mod_pos_bound; lia].
    f_equal. rewrite Zminus_mod_idemp_l. replace (i + s - s) with i by lia. apply Z.mod_small. lia.
  - destruct (rotate_left_bits w sgn Hw r s) as (v' & E & H); [lia|]. rewrite E. f_equal.
    apply (type_bits_inj w sgn Hw); [apply (rotate_left_in_type w sgn Hw r s); [apply Hin|done]|done|]. intros i Hi. rewrite H, Hr by first [exact Hi|apply Z.mod_pos_bound; lia].
    f_equal. rewrite Zplus_mod_idemp_l. replace (i - s + s) with i by lia. apply Z.mod_small. lia.
Qed.

Lemma bit_permutations_witness :
  width_ok 16 /\ in_type 16 true (-2) /\ 0 <= 5 < 2 ^ 32 /\ reverse_bits 16 true (reverse_bits 16 true (-2)) = -2 /\ reverse_bits 16 true (-2) = 32767.
Proof.
  assert (Hw : width_ok 16) by (right; left; reflexivity). assert (Hv : in_type 16 true (-2)) by (unfold in_type; lia). assert (Hs : 0 <= 5 < 2 ^ 32) by lia.
  split; [exact Hw|]. split; [exact Hv|]. split; [exact Hs|]. split; [exact (proj1 (proj2 (bit_permutations 16 true (-2) 5 Hw Hv Hs)))|reflexivity].
Defined.

(** ** Powers of two and alignment *)

(** [x] has bit [j] exactly if one of the [2 ^ k] bits of [u] from [j] on is set. *)
Definition covers (u k x : Z) : Prop := forall j, 0 <= j -> Z.testbit x j = true <-> exists d, 0 <= d < 2 ^ k /\ Z.testbit u (j + d) = true.

Lemma covers_step u k x : 0 <= k -> covers u k x -> covers u (k + 1) (Z.lor x (Z.shiftr x (2 ^ k))).
Proof.
  intros Hk H j Hj. assert (Hp : 0 < 2 ^ k) by (apply Z.pow_pos_nonneg; lia). rewrite Z.lor_spec, Z.shiftr_spec, orb_true_iff, (H j), (H (j + 2 ^ k)), Z.pow_add_r by lia.
  split.
  - intros [(d & Hd & E)|(d & Hd & E)]; [exists d|exists (2 ^ k + d)]; (split; [lia|]); [done|by rewrite Z.add_assoc].
  - intros (d & Hd & E). destruct (Z.lt_ge_cases d (2 ^ k)); [left; exists d; split; [lia|done]|right; exists (d - 2 ^ k)].
    split; [lia|]. by replace (j + 2 ^ k + (d - 2 ^ k)) with (j + d) by lia.
Qed.

Lemma covers_all u k x : 0 <= u < 2 ^ 2 ^ k -> 0 <= x -> covers u k x -> x = if u =? 0 then 0 else Z.ones (Z.log2 u + 1).
Proof.
  intros Hu Hx H. apply Z.bits_inj'. intros j Hj. specialize (H j Hj). destruct (Z.eqb_spec u 0) as [E|N].
  - rewrite Z.testbit_0_l. apply not_true_is_false. rewrite H. intros (d & _ & Hb). by rewrite E, Z.testbit_0_l in Hb.
  - assert (Hlog : 0 <= Z.log2 u < 2 ^ k) by (split; [apply Z.log2_nonneg|apply (Z.log2_lt_pow2 u); lia]). rewrite Z.testbit_ones_nonneg by lia. apply eq_true_iff_eq. rewrite H, Z.ltb_lt. split.
    + intros (d & Hd & Hb). destruct (Z.lt_ge_cases (Z.log2 u) (j + d)) as [Hlt|]; [|lia]. rewrite Z.bits_above_log2 in Hb by lia. done.
    + intros Hj'. exists (Z.log2 u - j). split; [lia|]. replace (j + (Z.log2 u - j)) with (Z.log2 u) by lia. apply Z.bit_log2. lia.
Qed.

Section Powers.
Context (w : Z) (Hw : width_ok w).

Lemma smear_loop u K m fuel k x : w = 2 ^ K -> (m < fuel)%nat -> 0 <= k -> k + Z.of_nat m = K -> 0 <= x -> covers u k x ->
  exists x', while_loop (R := Empty_set) fuel (fun '(_, i) => Done (i <? w))
     (fun '(uval, i) => x ← shr w uval i; Done (Next (Z.lor uval x, i * 2))) (x, 2 ^ k) = Done (Next (x', w)) /\ 0 <= x' /\ covers u K x'.
Proof.
  intros Ew. revert fuel k x. induction m as [|m IH]; intros fuel k x Hf Hk Hm Hx Hc; (destruct fuel as [|fuel]; [lia|]); cbn [while_loop].
  - assert (k = K) as -> by lia. rewrite <-Ew, Z.ltb_irrefl. by exists x.
  - assert (Hlt : 2 ^ k < w) by (rewrite Ew; apply Z.pow_lt_mono_r; lia). rewrite (proj2 (Z.ltb_lt _ _) Hlt), shr_ok by done. rewrite bind_Done.
    replace (2 ^ k * 2) with (2 ^ (k + 1)) by (rewrite Z.pow_add_r; lia). apply IH; [lia|lia|lia| |by apply covers_step].
    apply Z.lor_nonneg. split; [done|]. by apply Z.shiftr_nonneg.
Qed.

Lemma smear_ok u : 0 <= u < 2 ^ w -> smear w u = Done (if u =? 0 then 0 else Z.ones (Z.log2 u + 1)).
Proof using Hw.
  intros Hu. destruct (width_half w Hw) as (k & Hk & Ew & _). unfold smear. change (u, 1) with (u, 2 ^ 0).
  destruct (smear_loop u (Z.of_nat k) k 7 0 u Ew) as (x & E & Hx & Hc); [lia|lia|lia|lia| |].
  - intros j Hj. split; [intros E; exists 0; split; [lia|by rewrite Z.add_0_r]|]. intros (d & Hd & E). change (2 ^ 0) with 1 in Hd. replace (j + d) with j in E by lia. done.
  - rewrite E. cbn [settled]. rewrite bind_Done. f_equal. apply (covers_all u (Z.of_nat k)); [by rewrite <-Ew|done..].
Qed.

Lemma ones_halved n : 0 <= n -> Z.ones (n + 1) - Z.shiftr (Z.ones (n + 1)) 1 = 2 ^ n.
Proof.
  intros Hn. rewrite Z.shiftr_div_pow2, !Z.ones_equiv, Z.pow_add_r, <-!Z.sub_1_r by lia. change (2 ^ 1) with 2.
  replace (2 ^ n * 2 - 1) with ((2 ^ n - 1) * 2 + 1) by lia. rewrite Z.div_add_l, (Z.div_small 1) by lia. lia.
Qed.

Lemma highest_smear u : 0 < u < 2 ^ w -> (x ← smear w u; Done (x - Z.shiftr x 1)) = Done (2 ^ Z.log2 u).
Proof using Hw.
  intros Hu. rewrite smear_ok, (proj2 (Z.eqb_neq u 0)), bind_Done by lia. rewrite ones_halved by apply Z.log2_nonneg. done.
Qed.

Lemma uns_zero sgn v : in_type w sgn v -> uns w v = 0 -> v = 0.
Proof using Hw. intros Hv E. rewrite <-(cast_uns w sgn Hw v Hv), E. unfold cast. destruct sgn; destruct Hw as [-> |[-> |[-> | ->]]]; reflexivity. Qed.

Lemma cast_fits sgn p : in_type w sgn p -> cast w sgn p = p.
Proof using Hw. intros H. rewrite <-(cast_uns w sgn Hw p H) at 2. apply cast_ext. by rewrite uns_idem. Qed.

Lemma power_test u : 0 < u -> Z.land u (u - 1) = 0 <-> u = 2 ^ Z.log2 u.
Proof.
  intros Hu. split.
  - intros H. destruct (Z.log2_spec u Hu) as [Hlo Hhi]. destruct (Z.eq_dec u (2 ^ Z.log2 u)) as [|N]; [done|]. exfalso.
    assert (E : Z.log2 (u - 1) = Z.log2 u) by (apply Z.log2_unique; [apply Z.log2_nonneg|lia]).
    assert (Hb : Z.testbit (Z.land u (u - 1)) (Z.log2 u) = true); [|by rewrite H, Z.testbit_0_l in Hb].
    assert (0 < 2 ^ Z.log2 u) by (apply Z.pow_pos_nonneg; [lia|apply Z.log2_nonneg]).
    rewrite Z.land_spec, (Z.bit_log2 u) by done. rewrite <-E. apply Z.bit_log2. lia.
  - intros ->. pose proof (Z.log2_nonneg u). rewrite land_mask_bits by lia. apply Z.mod_same. apply Z.pow_nonzero; lia.
Qed.

(** *** Alignment to [2 ^ k] *)

Lemma align_mask k : 0 <= k < w -> uns w (2 ^ k - 1) = Z.ones k.
Proof using Hw.
  intros Hk. assert (0 < 2 ^ k < 2 ^ w) by (split; [apply Z.pow_pos_nonneg; lia|apply Z.pow_lt_mono_r; lia]). rewrite uns_small by lia. by rewrite Z.ones_equiv, Z.sub_1_r.
Qed.

Lemma ldiff_ones k x : 0 <= k -> Z.land x (Z.lnot (Z.ones k)) = 2 ^ k * (x / 2 ^ k).
Proof. intros Hk. rewrite <-Z.ldiff_land, Z.ldiff_ones_r, Z.shiftl_mul_pow2, Z.shiftr_div_pow2 by done. lia. Qed.

(** Rounding a representative rounds the number, modulo the width. *)
Lemma uns_round k x x' : 0 <= k < w -> uns w x = uns w x' -> uns w (Z.land x (Z.lnot (Z.ones k))) = uns w (2 ^ k * (x' / 2 ^ k)).
Proof using Hw.
  intros Hk E. rewrite <-ldiff_ones by lia. apply Z.bits_inj'. intros i Hi. rewrite !uns_bits, !Z.land_spec by done. destruct (Z.ltb_spec i w) as [Hlt|]; [|done].
  cbn [andb]. f_equal. assert (Ei : Z.testbit (uns w x) i = Z.testbit (uns w x') i) by (by rewrite E). by rewrite !uns_bits, (proj2 (Z.ltb_lt i w)) in Ei by done.
Qed.
End Powers.

Section Rounding.
Context (w : Z) (sgn : bool) (Hw : width_ok w).

Lemma type_uns v : in_type w sgn v -> 0 <= v -> uns w v = v.
Proof using Hw.
  intros Hv Hp. apply uns_small. destruct (width_pos w Hw) as [Hpos _]. unfold in_type in Hv. destruct sgn; [|done]. pose proof (Z.pow_le_mono_r 2 (w - 1) w). lia.
Qed.

Lemma power_in_type v k : in_type w sgn v -> 0 <= k -> 2 ^ k <= v -> in_type w sgn (2 ^ k).
Proof. intros Hv Hk H. assert (0 < 2 ^ k) by (apply Z.pow_pos_nonneg; lia). unfold in_type in *. destruct sgn; lia. Qed.

Lemma is_power_of_two_ok v : in_type w sgn v -> is_power_of_two w v = true <-> exists k, 0 <= k /\ v = 2 ^ k.
Proof using Hw.
  intros Hv. unfold is_power_of_two. destruct (Z.ltb_spec v 0) as [Hn|Hp].
  - split; [done|]. intros (k & Hk & E). assert (0 < 2 ^ k) by (apply Z.pow_pos_nonneg; lia). lia.
  - rewrite (type_uns v Hv Hp), andb_true_iff, negb_true_iff, Z.eqb_neq, Z.eqb_eq. split.
    + intros [N H]. exists (Z.log2 v). split; [apply Z.log2_nonneg|]. apply power_test; [lia|done].
    + intros (k & Hk & ->). assert (0 < 2 ^ k) by (apply Z.pow_pos_nonneg; lia). split; [lia|]. apply power_test; [done|]. by rewrite Z.log2_pow2.
Qed.

Lemma next_power_ok v : in_type w sgn v -> next_power_of_two w sgn v = Done (cast w sgn (2 ^ Z.log2_up (uns w v))).
Proof using Hw.
  intros Hv. unfold next_power_of_two. pose proof (uns_range w Hw v) as Hu. destruct (Z.eqb_spec v 0) as [-> |N].
  - unfold cast. destruct sgn; destruct Hw as [-> |[-> |[-> | ->]]]; reflexivity.
  - assert (Hnz : uns w v <> 0) by (intros E; by apply N, (uns_zero w Hw sgn)). rewrite (uns_small w (uns w v - 1)), smear_ok by (done || lia). rewrite bind_Done. f_equal. f_equal.
    destruct (Z.eqb_spec (uns w v - 1) 0) as [E|N1]; [by replace (uns w v) with 1 by lia|].
    rewrite Z.ones_equiv, Z.log2_up_eqn by lia. rewrite <-!Z.sub_1_r, <-Z.add_1_r. lia.
Qed.

Lemma highest_ok v : in_type w sgn v -> v <> 0 ->
  previous_power_of_two w sgn v = Done (cast w sgn (2 ^ Z.log2 (uns w v))) /\ extract_highest_set_bit w sgn v = Done (cast w sgn (2 ^ Z.log2 (uns w v))).
Proof using Hw.
  intros Hv N. pose proof (uns_range w Hw v) as Hu. assert (Hnz : uns w v <> 0) by (intros E; by apply N, (uns_zero w Hw sgn)).
  unfold previous_power_of_two, extract_highest_set_bit. rewrite (proj2 (Z.eqb_neq v 0) N), (proj2 (Z.eqb_neq (uns w v) 0) Hnz).
  rewrite smear_ok, (proj2 (Z.eqb_neq (uns w v) 0) Hnz), bind_Done by done. by rewrite ones_halved by apply Z.log2_nonneg.
Qed.

Lemma lowest_ok v c : trailing (uns w v) c -> extract_lowest_set_bit w sgn v = cast w sgn (2 ^ c).
Proof.
  intros (Hc & Hb & Hlow). unfold extract_lowest_set_bit. f_equal. set (u := uns w v) in *. clearbody u.
  assert (E : u = 2 ^ c * (2 * Z.shiftr u (c + 1) + 1)).
  { apply Z.bits_inj'. intros i Hi. rewrite Z.mul_comm, <-Z.shiftl_mul_pow2, Z.shiftl_spec by lia. destruct (Z.lt_ge_cases i c) as [Hlt|Hge].
    - rewrite (Z.testbit_neg_r _ (i - c)) by lia. apply Hlow. lia.
    - destruct (Z.eq_dec i c) as [-> |N]; [by rewrite Z.sub_diag, Z.testbit_odd_0|].
      replace (i - c) with (Z.succ (i - c - 1)) by lia. rewrite Z.testbit_odd_succ, Z.shiftr_spec by lia. f_equal. lia. }
  set (q := Z.shiftr u (c + 1)) in *. clearbody q. subst u. replace (- (2 ^ c * (2 * q + 1))) with (2 ^ c * (2 * Z.lnot q + 1)) by (unfold Z.lnot; lia).
  rewrite !(Z.mul_comm (2 ^ c)), <-!Z.shiftl_mul_pow2, <-Z.shiftl_land by done. rewrite <-(Z.shiftl_1_l c). f_equal.
  apply Z.bits_inj'. intros i Hi. rewrite Z.land_spec. destruct (Z.eq_dec i 0) as [-> |N]; [by rewrite !Z.testbit_odd_0|].
  rewrite (Z.bits_above_log2 1 i) by (cbn; lia). replace i with (Z.succ (i - 1)) by lia. rewrite !Z.testbit_odd_succ, Z.lnot_spec by lia.
  by destruct (Z.testbit q (i - 1)).
Qed.
End Rounding.

(**  Rounding to powers of two, at every integer type and value: [is_power_of_two]
    recognises exactly the powers; for a positive value [next_power_of_two] is the least power not
    below it whenever that fits the type (its pattern wrapped otherwise), [previous_power_of_two] the greatest not above it, and the bit
    extractions isolate the highest and lowest set bit. *)
Theorem power_of_two_rounding w sgn v (Hw : width_ok w) (Hv : in_type w sgn v) :
  (is_power_of_two w v = true <-> exists k, 0 <= k /\ v = 2 ^ k)
  /\ next_power_of_two w sgn v = Done (cast w sgn (2 ^ Z.log2_up (uns w v)))
  /\ (0 < v -> in_type w sgn (2 ^ Z.log2_up v) -> exists p, next_power_of_two w sgn v = Done p /\ is_power_of_two w p = true /\ v <= p < 2 * v)
  /\ previous_power_of_two w sgn v = extract_highest_set_bit w sgn v
  /\ (v <> 0 -> extract_highest_set_bit w sgn v = Done (cast w sgn (2 ^ Z.log2 (uns w v))))
  /\ (0 < v -> exists p, previous_power_of_two w sgn v = Done p /\ is_power_of_two w p = true /\ p <= v < 2 * p)
  /\ forall c, trailing (uns w v) c -> extract_lowest_set_bit w sgn v = cast w sgn (2 ^ c).
Proof.
  split; [by apply (is_power_of_two_ok w sgn Hw)|]. split; [by apply next_power_ok|]. split.
  { intros Hp Hf. exists (2 ^ Z.log2_up v). rewrite (next_power_ok w sgn Hw v Hv), (type_uns w sgn Hw v Hv), (cast_fits w Hw sgn _ Hf) by lia.
    split; [done|]. split; [apply (is_power_of_two_ok w sgn Hw); [done|]; exists (Z.log2_up v); split; [apply Z.log2_up_nonneg|done]|].
    destruct (Z.eq_dec v 1) as [-> |N]; [done|]. pose proof (Z.log2_up_spec v ltac:(lia)) as [Hlo Hhi]. split; [done|]. pose proof (Z.log2_up_pos v ltac:(lia)).
    replace (Z.log2_up v) with (Z.pred (Z.log2_up v) + 1) by lia. rewrite Z.pow_add_r by lia. lia. }
  destruct (Z.eq_dec v 0) as [-> |N].
  - split; [unfold extract_highest_set_bit; cbn; unfold uns, wrap; by rewrite Z.mod_0_l by (apply Z.pow_nonzero; destruct (width_pos w Hw); lia)|].
    split; [done|]. split; [lia|]. intros c. apply lowest_ok.
  - destruct (highest_ok w sgn Hw v Hv N) as [Ep Eh]. split; [by rewrite Ep, Eh|]. split; [done|]. split; [|intros c; apply lowest_ok].
    intros Hp. pose proof (Z.log2_nonneg v). pose proof (Z.log2_spec v Hp) as [Hlo Hhi]. rewrite Z.pow_succ_r in Hhi by done.
    exists (2 ^ Z.log2 v). assert (Hf : in_type w sgn (2 ^ Z.log2 v)) by (by apply (power_in_type w sgn v)).
    rewrite Ep, (type_uns w sgn Hw v Hv), (cast_fits w Hw sgn _ Hf) by lia. split; [done|]. split; [apply (is_power_of_two_ok w sgn Hw); [done|by exists (Z.log2 v)]|lia].
Qed.

Lemma power_of_two_rounding_witness :
  width_ok 32 /\ in_type 32 true 1000 /\ next_power_of_two 32 true 1000 = Done 1024 /\ exists p, previous_power_of_two 32 true 1000 = Done p /\ is_power_of_two 32 p = true /\ p <= 1000 < 2 * p.
Proof.
  assert (Hw : width_ok 32) by (right; right; left; reflexivity). assert (Hv : in_type 32 true 1000) by (unfold in_type; lia). split; [exact Hw|]. split; [exact Hv|].
  destruct (power_of_two_rounding 32 true 1000 Hw Hv) as (_ & E & _ & _ & _ & H & _). split; [exact E|]. apply H. lia.
Defined.

Lemma parity_and_sign v : is_even v = Z.even v /\ is_odd v = Z.odd v /\ sign v = Z.sgn v.
Proof.
  unfold is_even, is_odd, sign. assert (E : Z.land v 1 = v mod 2) by (apply (Z.land_ones v 1); lia). rewrite E. split; [symmetry; apply Zeven_mod|]. split; [rewrite Zodd_mod; pose proof (Z.mod_pos_bound v 2); lia|].
  destruct (Z.ltb_spec 0 v), (Z.ltb_spec v 0); lia.
Qed.

(**  Alignment to a power of two, at every integer type and value, negative ones included:
    [align_down] is the greatest multiple of the alignment not above the value, [align_up] the
    least not below it when that fits the type (the wrapped multiple otherwise), and [is_aligned] decides divisibility;
    parity and sign are those of the number. *)
Theorem alignment_exact w sgn v a k (Hw : width_ok w) (Hv : in_type w sgn v) (Hk : 0 <= k < w) (Ha : uns w a = 2 ^ k) :
  align_down w sgn v a = 2 ^ k * (v / 2 ^ k)
  /\ align_up w sgn v a = cast w sgn (2 ^ k * ((v + 2 ^ k - 1) / 2 ^ k))
  /\ (in_type w sgn (2 ^ k * ((v + 2 ^ k - 1) / 2 ^ k)) -> align_up w sgn v a = 2 ^ k * ((v + 2 ^ k - 1) / 2 ^ k) /\ v <= align_up w sgn v a < v + 2 ^ k)
  /\ is_aligned w v a = (v mod 2 ^ k =? 0)
  /\ is_even v = Z.even v /\ is_odd v = Z.odd v /\ sign v = Z.sgn v.
Proof.
  destruct (width_pos w Hw) as [Hpos _]. assert (Hp : 0 < 2 ^ k) by (apply Z.pow_pos_nonneg; lia).
  unfold align_down, align_up, is_aligned. rewrite Ha, align_mask by done.
  assert (Eup : cast w sgn (Z.land (uns w v + Z.ones k) (Z.lnot (Z.ones k))) = cast w sgn (2 ^ k * ((v + 2 ^ k - 1) / 2 ^ k))).
  { apply cast_ext, uns_round; [done..|]. rewrite Z.ones_equiv, <-Z.sub_1_r, Z.add_sub_assoc. unfold uns, wrap. by rewrite <-(Zminus_mod_idemp_l (_ + _)), Zplus_mod_idemp_l, Zminus_mod_idemp_l. }
  split; [|split; [done|split; [|split; [|apply parity_and_sign]]]].
  - rewrite (cast_ext w sgn _ (2 ^ k * (v / 2 ^ k))) by (apply uns_round; [done..|by rewrite uns_idem]). apply cast_fits; [done|].
    pose proof (Z.mul_div_le v (2 ^ k) Hp) as Hle. unfold in_type in *. destruct sgn.
    + split; [|lia]. replace (- 2 ^ (w - 1)) with (2 ^ k * (- 2 ^ (w - 1 - k))) by (rewrite Z.mul_opp_r, <-Z.pow_add_r by lia; do 2 f_equal; lia).
      apply Z.mul_le_mono_nonneg_l; [lia|]. apply Z.div_le_lower_bound; [done|]. rewrite Z.mul_opp_r, <-Z.pow_add_r by lia. replace (k + (w - 1 - k)) with (w - 1) by lia. lia.
    + split; [|lia]. apply Z.mul_nonneg_nonneg; [lia|]. apply Z.div_pos; lia.
  - intros Hf. rewrite Eup, (cast_fits w Hw sgn _ Hf). split; [done|]. pose proof (Z.div_mod (v + 2 ^ k - 1) (2 ^ k) ltac:(lia)). pose proof (Z.mod_pos_bound (v + 2 ^ k - 1) (2 ^ k) Hp). lia.
  - rewrite Z.land_ones by lia. unfold uns, wrap. replace (2 ^ w) with (2 ^ k * 2 ^ (w - k)) by (rewrite <-Z.pow_add_r by lia; f_equal; lia).
    rewrite Z.rem_mul_r by (try apply Z.pow_nonzero; lia). rewrite Z.mul_comm, Z.mod_add, Z.mod_mod by lia. done.
Qed.

Lemma alignment_exact_witness : width_ok 8 /\ in_type 8 true (-5) /\ 0 <= 2 < 8 /\ uns 8 4 = 2 ^ 2 /\ align_down 8 true (-5) 4 = -8 /\ align_up 8 true (-5) 4 = -4.
Proof.
  assert (Hw : width_ok 8) by (left; reflexivity). assert (Hv : in_type 8 true (-5)) by (unfold in_type; lia). assert (Hk : 0 <= 2 < 8) by lia. assert (Ha : uns 8 4 = 2 ^ 2) by reflexivity.
  split; [exact Hw|]. split; [exact Hv|]. split; [exact Hk|]. split; [exact Ha|]. destruct (alignment_exact 8 true (-5) 4 2 Hw Hv Hk Ha) as (E1 & E2 & _). split; [exact E1|exact E2].
Defined.

(** ** Single bits, masks and fields *)

Section Fields.
Context (w : Z) (sgn : bool) (Hw : width_ok w).

(** [r] is computed, of the type, and its bits are those of [f]. *)
Definition has_bits (r : exec Z) (f : Z -> bool) : Prop := exists x, r = Done x /\ in_type w sgn x /\ forall j, 0 <= j < w -> Z.testbit (uns w x) j = f j.

Lemma has_bits_cast u f : (forall j, 0 <= j < w -> Z.testbit u j = f j) -> has_bits (Done (cast w sgn u)) f.
Proof using Hw. intros H. eexists. split; [done|]. split; [by apply cast_in_type|]. intros j Hj. by rewrite uns_cast_bits, H. Qed.

Lemma has_bits_self v f : in_type w sgn v -> (forall j, 0 <= j < w -> Z.testbit (uns w v) j = f j) -> has_bits (Done v) f.
Proof. intros Hv H. by exists v. Qed.

Lemma has_bits_unique r f v : has_bits r f -> in_type w sgn v -> (forall j, 0 <= j < w -> Z.testbit (uns w v) j = f j) -> r = Done v.
Proof using Hw. intros (x & -> & Hx & H) Hv Hf. f_equal. apply (type_bits_inj w sgn Hw); [done..|]. intros j Hj. by rewrite H, Hf. Qed.

Lemma power_bit i j : 0 <= i -> Z.testbit (2 ^ i) j = (j =? i).
Proof. intros Hi. rewrite Z.pow2_bits_eqb by done. apply Z.eqb_sym. Qed.

Lemma ones_bit n j : 0 <= n -> 0 <= j -> Z.testbit (Z.ones n) j = (j <? n).
Proof. intros Hn Hj. by rewrite Z.testbit_ones_nonneg. Qed.

Lemma all_ones_bit j : 0 <= j < w -> Z.testbit (all_ones w) j = true.
Proof using Hw. intros Hj. unfold all_ones. fold (uns w (Z.lnot 0)). rewrite uns_bits, (proj2 (Z.ltb_lt j w)), Z.lnot_spec, Z.testbit_0_l by (done || lia). done. Qed.

Lemma test_ok v i : 0 <= i -> test w v i = Done (Z.testbit (uns w v) i).
Proof using Hw.
  intros Hi. unfold test. destruct (Z.leb_spec w i) as [Hge|Hlt]; [rewrite (above_width w Hw); [done|apply (uns_range w Hw)|done]|]. rewrite shr_ok, bind_Done by done. f_equal.
  rewrite (Z.land_ones _ 1), <-Z.bit0_mod, Z.shiftr_spec by lia. rewrite Z.add_0_l. by destruct (Z.testbit (uns w v) i).
Qed.

Lemma set_bits v i : in_type w sgn v -> 0 <= i -> has_bits (set w sgn v i) (fun j => (j =? i) || Z.testbit (uns w v) j).
Proof using Hw.
  intros Hv Hi. unfold set. destruct (Z.leb_spec w i) as [Hge|Hlt].
  - apply has_bits_self; [done|]. intros j Hj. by rewrite (proj2 (Z.eqb_neq j i)) by lia.
  - rewrite (shl_one w Hw), bind_Done by lia. apply has_bits_cast. intros j Hj. by rewrite Z.lor_spec, power_bit, orb_comm.
Qed.

Lemma clear_bits v i : in_type w sgn v -> 0 <= i -> has_bits (clear w sgn v i) (fun j => negb (j =? i) && Z.testbit (uns w v) j).
Proof using Hw.
  intros Hv Hi. unfold clear. destruct (Z.leb_spec w i) as [Hge|Hlt].
  - apply has_bits_self; [done|]. intros j Hj. by rewrite (proj2 (Z.eqb_neq j i)) by lia.
  - rewrite (shl_one w Hw), bind_Done by lia. apply has_bits_cast. intros j Hj.
    rewrite Z.land_spec, (uns_bits w Hw (Z.lnot _)), (proj2 (Z.ltb_lt j w)), Z.lnot_spec, power_bit by lia. cbn [andb]. apply andb_comm.
Qed.

Lemma toggle_bits v i : in_type w sgn v -> 0 <= i -> has_bits (toggle w sgn v i) (fun j => xorb (j =? i) (Z.testbit (uns w v) j)).
Proof using Hw.
  intros Hv Hi. unfold toggle. destruct (Z.leb_spec w i) as [Hge|Hlt].
  - apply has_bits_self; [done|]. intros j Hj. by rewrite (proj2 (Z.eqb_neq j i)), xorb_false_l by lia.
  - rewrite (shl_one w Hw), bind_Done by lia. apply has_bits_cast. intros j Hj. by rewrite Z.lxor_spec, power_bit, xorb_comm.
Qed.

(** The mask of the low [n] bits, as [low_unsigned] and [insert_field] compute it. *)
Lemma low_unsigned_ok n : 0 <= n -> exists m, low_unsigned w n = Done m /\ (if w <=? n then Done (all_ones w) else b ← shl w 1 n; Done (uns w (b - 1))) = Done m
  /\ 0 <= m < 2 ^ w /\ forall j, 0 <= j < w -> Z.testbit m j = (j <? n).
Proof using Hw.
  intros Hn. unfold low_unsigned. destruct (Z.leb_spec w n) as [Hge|Hlt].
  - exists (all_ones w). do 2 (split; [done|]). split; [apply (uns_range w Hw)|]. intros j Hj. by rewrite all_ones_bit, (proj2 (Z.ltb_lt j n)) by lia.
  - exists (Z.ones n). assert (E : uns w (2 ^ n) = 2 ^ n) by (apply uns_small; split; [apply Z.pow_nonneg; lia|apply Z.pow_lt_mono_r; lia]).
    rewrite (shl_one w Hw) by lia. rewrite !bind_Done, E, (align_mask w Hw) by lia.
    do 2 (split; [done|]). split; [|intros j Hj; apply ones_bit; lia]. rewrite <-(align_mask w Hw n) by lia. by apply uns_range.
Qed.

Lemma low_bits_mask_bits n : 0 <= n -> has_bits (low_bits_mask w sgn n) (fun j => j <? n).
Proof using Hw. intros Hn. unfold low_bits_mask. destruct (low_unsigned_ok n Hn) as (m & -> & _ & _ & Hm). rewrite bind_Done. by apply has_bits_cast. Qed.

Lemma high_bits_mask_bits n : 0 <= n -> has_bits (high_bits_mask w sgn n) (fun j => w - n <=? j).
Proof using Hw.
  intros Hn. unfold high_bits_mask. destruct (Z.eqb_spec n 0) as [-> |N]; [|destruct (Z.leb_spec w n) as [Hge|Hlt]].
  - apply has_bits_cast. intros j Hj. rewrite Z.testbit_0_l. symmetry. apply Z.leb_gt. lia.
  - apply has_bits_cast. intros j Hj. rewrite all_ones_bit by done. symmetry. apply Z.leb_le. lia.
  - destruct (shl_ok w Hw (all_ones w) (w - n) (uns_range w Hw _) ltac:(lia)) as (m & -> & _ & Hm & _). rewrite bind_Done. apply has_bits_cast. intros j Hj.
    rewrite uns_bits, (proj2 (Z.ltb_lt j w)), Hm by (done || lia). cbn [andb]. destruct (Z.leb_spec (w - n) j); [apply all_ones_bit; lia|apply Z.testbit_neg_r; lia].
Qed.

Lemma range_mask_bits s n : 0 <= s < w -> 0 <= n -> has_bits (range_mask w sgn s n) (fun j => (s <=? j) && (j <? s + n)).
Proof using Hw.
  intros Hs Hn. unfold range_mask. destruct (low_unsigned_ok n Hn) as (m & -> & _ & Hr & Hm). rewrite bind_Done. destruct (shl_ok w Hw m s Hr Hs) as (x & -> & _ & Hx & _). rewrite bind_Done.
  apply has_bits_cast. intros j Hj. rewrite uns_bits, (proj2 (Z.ltb_lt j w)), Hx by (done || lia). cbn [andb].
  destruct (Z.leb_spec s j); [rewrite Hm by lia; cbn [andb]|by apply Z.testbit_neg_r; lia]. destruct (Z.ltb_spec (j - s) n), (Z.ltb_spec j (s + n)); (done || lia).
Qed.

Lemma extract_field_bits v s n : 0 <= s -> 0 <= n -> has_bits (extract_field w sgn v s n) (fun j => (j <? n) && Z.testbit (uns w v) (s + j)).
Proof using Hw.
  intros Hs Hn. pose proof (uns_range w Hw v) as Hu. unfold extract_field. destruct (Z.eqb_spec n 0) as [-> |N]; [|destruct (Z.leb_spec w s) as [Hsw|Hsw]]; cbn [orb].
  - apply has_bits_cast. intros j Hj. by rewrite Z.testbit_0_l, (proj2 (Z.ltb_ge j 0)) by lia.
  - apply has_bits_cast. intros j Hj. by rewrite Z.testbit_0_l, (above_width w Hw _ (s + j)), andb_false_r by (done || lia).
  - rewrite shr_ok by done. destruct (Z.leb_spec w n) as [Hge|Hlt].
    + rewrite bind_Done. apply has_bits_cast. intros j Hj. by rewrite Z.shiftr_spec, (proj2 (Z.ltb_lt j n)), Z.add_comm by lia.
    + rewrite (shl_one w Hw), !bind_Done, align_mask by (done || lia). apply has_bits_cast. intros j Hj. by rewrite Z.land_spec, Z.shiftr_spec, ones_bit, andb_comm, Z.add_comm by lia.
Qed.

Lemma insert_field_bits d f s n : in_type w sgn d -> 0 <= s -> 0 <= n ->
  has_bits (insert_field w sgn d f s n) (fun j => if (s <=? j) && (j <? s + n) then Z.testbit (uns w f) (j - s) else Z.testbit (uns w d) j).
Proof using Hw.
  intros Hd Hs Hn. pose proof (uns_range w Hw f) as Hf. unfold insert_field. destruct (Z.eqb_spec n 0) as [-> |N]; [|destruct (Z.leb_spec w s) as [Hsw|Hsw]]; cbn [orb].
  - apply has_bits_self; [done|]. intros j Hj. by replace ((s <=? j) && (j <? s + 0)) with false by lia.
  - apply has_bits_self; [done|]. intros j Hj. by replace ((s <=? j) && (j <? s + n)) with false by lia.
  - destruct (low_unsigned_ok n Hn) as (m & _ & -> & Hr & Hm). rewrite bind_Done. destruct (shl_ok w Hw m s Hr ltac:(lia)) as (x & -> & _ & Hx & _). rewrite bind_Done.
    assert (Hr' : 0 <= Z.land (uns w f) m < 2 ^ w) by (change (in_width w (Z.land (uns w f) m)); apply land_in_width; [lia|done|done]).
    destruct (shl_ok w Hw _ s Hr' ltac:(lia)) as (y & -> & _ & Hy & _). rewrite bind_Done. apply has_bits_cast. intros j Hj.
    rewrite Z.lor_spec, Z.land_spec, Z.lnot_spec, Hx, Hy, Z.land_spec by lia. destruct (Z.leb_spec s j); cbn [andb].
    + rewrite Hm by lia. replace (j <? s + n) with (j - s <? n) by lia. destruct (j - s <? n); by rewrite ?andb_false_r, ?andb_true_r, ?orb_false_r.
    + rewrite !(fun a => Z.testbit_neg_r a (j - s)) by lia. by rewrite andb_true_r, orb_false_r.
Qed.
End Fields.

(**  Single bits, masks and fields at every integer type: [test], [set], [clear] and
    [toggle] read and change exactly the indexed bit (indices past the width change
    nothing), the masks hold exactly the bits they name, a field is read and written in
    place without touching the other bits, and what was inserted into a field that fits is what is extracted. *)
Theorem bit_fields_exact w sgn v f s n (Hw : width_ok w) (Hv : in_type w sgn v) (Hs : 0 <= s < 2 ^ 32) (Hn : 0 <= n < 2 ^ 32) :
  test w v s = Done (Z.testbit (uns w v) s)
  /\ has_bits w sgn (set w sgn v s) (fun j => (j =? s) || Z.testbit (uns w v) j)
  /\ has_bits w sgn (clear w sgn v s) (fun j => negb (j =? s) && Z.testbit (uns w v) j)
  /\ has_bits w sgn (toggle w sgn v s) (fun j => xorb (j =? s) (Z.testbit (uns w v) j))
  /\ (s < w -> has_bits w sgn (single_bit_mask w sgn s) (fun j => j =? s))
  /\ has_bits w sgn (low_bits_mask w sgn n) (fun j => j <? n)
  /\ has_bits w sgn (high_bits_mask w sgn n) (fun j => w - n <=? j)
  /\ (s < w -> has_bits w sgn (range_mask w sgn s n) (fun j => (s <=? j) && (j <? s + n)))
  /\ has_bits w sgn (extract_field w sgn v s n) (fun j => (j <? n) && Z.testbit (uns w v) (s + j))
  /\ exists r, insert_field w sgn v f s n = Done r
     /\ has_bits w sgn (Done r) (fun j => if (s <=? j) && (j <? s + n) then Z.testbit (uns w f) (j - s) else Z.testbit (uns w v) j)
     /\ (s + n <= w -> extract_field w sgn r s n = extract_field w sgn f 0 n).
Proof.
  split; [apply test_ok; [done|lia]|]. split; [apply set_bits; [done|done|lia]|]. split; [apply clear_bits; [done|done|lia]|]. split; [apply toggle_bits; [done|done|lia]|].
  split. { intros Hlt. unfold single_bit_mask. rewrite (shl_one w Hw), bind_Done by lia. apply has_bits_cast; [done|]. intros j Hj. rewrite uns_bits, (proj2 (Z.ltb_lt j w)), power_bit by (done || lia). done. }
  split; [apply low_bits_mask_bits; [done|lia]|]. split; [apply high_bits_mask_bits; [done|lia]|]. split; [intros Hlt; apply range_mask_bits; [done|lia|lia]|].
  split; [apply extract_field_bits; [done|lia|lia]|].
  destruct (insert_field_bits w sgn Hw v f s n Hv ltac:(lia) ltac:(lia)) as (r & E & Hr & H). exists r. split; [done|]. split; [by exists r|]. intros Hfit.
  destruct (extract_field_bits w sgn Hw f 0 n ltac:(lia) ltac:(lia)) as (x & -> & Hx & Hxb). apply (has_bits_unique w sgn Hw _ _ _ (extract_field_bits w sgn Hw r s n ltac:(lia) ltac:(lia)) Hx).
  intros j Hj. rewrite Hxb by done. destruct (Z.ltb_spec j n); [|done]. cbn [andb]. rewrite H by lia.
  replace ((s <=? s + j) && (s + j <? s + n)) with true by lia. by replace (s + j - s) with (0 + j) by lia.
Qed.

Lemma bit_fields_exact_witness :
  width_ok 16 /\ in_type 16 false 43981 /\ 0 <= 4 < 2 ^ 32 /\ test 16 43981 4 = Done false /\ insert_field 16 false 43981 7 4 4 = Done 43901.
Proof.
  assert (Hw : width_ok 16) by (right; left; reflexivity). assert (Hv : in_type 16 false 43981) by (unfold in_type; lia). assert (Hs : 0 <= 4 < 2 ^ 32) by lia.
  split; [exact Hw|]. split; [exact Hv|]. split; [exact Hs|]. split; [exact (proj1 (bit_fields_exact 16 false 43981 7 4 4 Hw Hv Hs Hs))|reflexivity].
Defined.

(** The result is computed, without an undefined shift, and of the type. *)
Definition yields (w : Z) (sgn : bool) (r : exec Z) : Prop := exists x, r = Done x /\ in_type w sgn x.

Lemma highest_yields w sgn v : width_ok w -> in_type w sgn v -> yields w sgn (previous_power_of_two w sgn v) /\ yields w sgn (extract_highest_set_bit w sgn v).
Proof.
  intros Hw Hv. destruct (Z.eq_dec v 0) as [-> |N].
  - assert (H : yields w sgn (Done 0)) by (exists 0; split; [done|]; unfold in_type; destruct sgn; destruct Hw as [-> |[-> |[-> | ->]]]; lia).
    split; [exact H|]. unfold extract_highest_set_bit. by rewrite (uns_small w 0) by (split; [lia|apply Z.pow_pos_nonneg; [lia|destruct (width_pos w Hw); lia]]).
  - destruct (highest_ok w sgn Hw v Hv N) as [-> ->]. split; eexists; (split; [done|by apply cast_in_type]).
Qed.

Lemma counts_typed w v : width_ok w ->
  Forall (yields 32 false) [count_leading_zeros w v; count_trailing_zeros w v; bit_width w v; log2_floor w v] /\ Forall (in_type 32 false) [popcount w v; count_ones w v; count_zeros w v; parity w v].
Proof.
  intros Hw. destruct (width_pos w Hw) as [Hp _]. pose proof (uns_range w Hw v) as Hu. pose proof (popcount_range w Hw v) as Hpop.
  assert (Hlog : 0 <= Z.log2 (uns w v) < w).
  { split; [apply Z.log2_nonneg|]. destruct (Z.eq_dec (uns w v) 0) as [-> |]; [cbn; lia|]. apply Z.log2_lt_pow2; lia. }
  assert (Y : forall n, 0 <= n <= 64 -> yields 32 false (Done n)) by (intros n Hn; exists n; split; [done|unfold in_type; lia]). destruct (ctz_ok w Hw v) as (c & Ec & Hc).
  rewrite (clz_ok w Hw), Ec, (bit_width_ok w Hw), (log2_floor_ok w Hw). split; repeat constructor; unfold in_type.
  - apply Y. destruct (uns w v =? 0); lia.
  - apply Y. destruct (uns w v =? 0); [lia|]. destruct Hc as (Hc & Hb & _). destruct (Z.lt_ge_cases c w); [lia|]. by rewrite (above_width w Hw _ c) in Hb by done.
  - apply Y. destruct (uns w v =? 0); lia.
  - apply Y. lia.
  - lia.
  - lia.
  - unfold count_ones. lia.
  - unfold count_ones. lia.
  - apply Z.mod_pos_bound; lia.
  - apply Z.mod_pos_bound; lia.
  - apply Z.land_nonneg; lia.
  - unfold parity. rewrite (Z.land_ones _ 1) by lia. pose proof (Z.mod_pos_bound (popcount w v) (2 ^ 1)). lia.
Qed.

(** C32.  Type safety of the bit library at every width and signedness: on arguments of their
    types, which for [single_bit_mask] and [range_mask] includes the documented condition that the (first) bit lies within the
    width, no operation reaches an undefined shift, every loop ends, and every result is a
    value of the type, or of the [uint32_t] the counts are declared with. *)
Theorem bit_operations_typed w sgn v f a s n (Hw : width_ok w) (Hv : in_type w sgn v) (Hf : in_type w sgn f) (Hs : 0 <= s < 2 ^ 32) (Hn : 0 <= n < 2 ^ 32) :
  Forall (yields w sgn) [set w sgn v s; clear w sgn v s; toggle w sgn v s; low_bits_mask w sgn n; high_bits_mask w sgn n; extract_field w sgn v s n; insert_field w sgn v f s n]
  /\ (s < w -> Forall (yields w sgn) [single_bit_mask w sgn s; range_mask w sgn s n])
  /\ Forall (yields w sgn) [rotate_left w sgn v s; rotate_right w sgn v s; next_power_of_two w sgn v; previous_power_of_two w sgn v; extract_highest_set_bit w sgn v]
  /\ Forall (in_type w sgn) [all_bits_mask w sgn; reverse_bits w sgn v; byte_swap w sgn v; reverse_bytes w sgn v; align_up w sgn v a; align_down w sgn v a; extract_lowest_set_bit w sgn v]
  /\ Forall (yields 32 false) [count_leading_zeros w v; count_trailing_zeros w v; bit_width w v; log2_floor w v]
  /\ Forall (in_type 32 false) [popcount w v; count_ones w v; count_zeros w v; parity w v].
Proof.
  assert (Y : forall r g, has_bits w sgn r g -> yields w sgn r) by (intros r g (x & E & Hx & _); by exists x).
  destruct (rotate_left_bits w sgn Hw v s ltac:(lia)) as (l & El & _). destruct (rotate_right_bits w sgn Hw v s ltac:(lia)) as (r & Er & _).
  split; [|split; [|split; [|split; [|split]]]].
  - repeat constructor; eapply Y; [apply set_bits|apply clear_bits|apply toggle_bits|apply low_bits_mask_bits|apply high_bits_mask_bits|apply extract_field_bits|apply insert_field_bits]; (done || lia).
  - intros Hlt. repeat constructor; [|eapply Y; apply range_mask_bits; (done || lia)]. unfold single_bit_mask. rewrite (shl_one w Hw), bind_Done by lia. eexists. split; [done|by apply cast_in_type].
  - repeat constructor; [exists l; split; [done|by apply (rotate_left_in_type w sgn Hw v s)]|exists r; split; [done|by apply (rotate_right_in_type w sgn Hw v s)]|..].
    + rewrite (next_power_ok w sgn Hw v Hv). eexists. split; [done|by apply cast_in_type].
    + by apply (proj1 (highest_yields w sgn v Hw Hv)).
    + by apply (proj2 (highest_yields w sgn v Hw Hv)).
  - repeat constructor; by apply cast_in_type.
  - by apply counts_typed.
  - by apply counts_typed.
Qed.

Lemma bit_operations_typed_witness : width_ok 8 /\ in_type 8 true (-128) /\ in_type 8 true 3 /\ 0 <= 31 < 2 ^ 32 /\ 0 <= 40 < 2 ^ 32 /\ yields 32 false (count_leading_zeros 8 (-128)).
Proof.
  assert (Hw : width_ok 8) by (left; reflexivity). assert (Hv : in_type 8 true (-128)) by (unfold in_type; lia). assert (Hf : in_type 8 true 3) by (unfold in_type; lia).
  assert (Hs : 0 <= 31 < 2 ^ 32) by lia. assert (Hn : 0 <= 40 < 2 ^ 32) by lia. do 5 (split; [assumption|]).
  destruct (bit_operations_typed 8 true (-128) 3 4 31 40 Hw Hv Hf Hs Hn) as (_ & _ & _ & _ & H & _). inversion H; assumption.
Defined.
