(* ===== verification/Flags.v ===== *)
(** * Flag sets (castle/bit/flags.hpp)

    [flags<T, MASK>] over an unsigned type of [w] bits: the state is the word [data_], the
    operations those of the class, and the specification the set of flags it stands for,
    a set of indices within the mask. *)

From S2P Require Import Prelude Bits.
Open Scope Z_scope.

Section Flags.
Context (w MASK : Z).

(** ** The code *)

Definition ALL_SET : Z := Z.land (uns w (Z.lnot 0)) MASK.
Definition ALL_CLEAR : Z := 0.
Definition NBITS : Z := w.

Definition flags_new : Z := ALL_CLEAR.
Definition flags_of (pattern : Z) : Z := uns w (Z.land pattern MASK).
Definition test_pattern (data_ pattern : Z) : bool := negb (Z.land data_ pattern =? ALL_CLEAR).
Definition set_pattern (data_ pattern : Z) : Z := uns w (Z.lor data_ (Z.land pattern MASK)).
Definition set_to (data_ pattern : Z) (value : bool) : Z :=
  if value then uns w (Z.lor data_ (Z.land pattern MASK)) else uns w (Z.land data_ (uns w (Z.land (Z.lnot pattern) MASK))).
Definition clear_all (data_ : Z) : Z := ALL_CLEAR.
Definition reset (data_ pattern : Z) : Z := uns w (Z.land data_ (uns w (Z.lnot pattern))).
Definition flip_all (data_ : Z) : Z := uns w (Z.land (Z.lnot data_) MASK).
Definition flip (data_ pattern : Z) : Z := uns w (Z.lxor data_ (Z.land pattern MASK)).
Definition all (data_ : Z) : bool := data_ =? ALL_SET.
Definition all_of (data_ pattern : Z) : bool := let masked_pattern := uns w (Z.land pattern MASK) in Z.land data_ masked_pattern =? masked_pattern.
Definition none (data_ : Z) : bool := data_ =? ALL_CLEAR.
Definition any (data_ : Z) : bool := negb (data_ =? ALL_CLEAR).
Definition any_of (data_ pattern : Z) : bool := negb (Z.land data_ (uns w (Z.land pattern MASK)) =? ALL_CLEAR).
Definition none_of (data_ pattern : Z) : bool := negb (any_of data_ pattern).
Definition assign_value (data_ pattern : Z) : Z := uns w (Z.land pattern MASK).
Definition and_assign (data_ pattern : Z) : Z := uns w (Z.land data_ pattern).
Definition or_assign (data_ pattern : Z) : Z := uns w (Z.lor data_ (Z.land pattern MASK)).
Definition xor_assign (data_ pattern : Z) : Z := uns w (Z.lxor data_ (Z.land pattern MASK)).
Definition flags_swap (data_ other : Z) : Z * Z := let temporary := data_ in let data_ := other in let other := temporary in (data_, other).
Definition flags_eq (lhs rhs : Z) : bool := lhs =? rhs.

(** ** Operations and their specification *)

Inductive op : Type :=
| Set_ (pattern : Z) (value : bool) | SetOn (pattern : Z) | Clear | Reset_ (pattern : Z) | FlipAll | Flip (pattern : Z)
| Assign (pattern : Z) | And (pattern : Z) | Or (pattern : Z) | Xor (pattern : Z).

Definition run (data_ : Z) (o : op) : Z :=
  match o with
  | Set_ p v => set_to data_ p v | SetOn p => set_pattern data_ p | Clear => clear_all data_ | Reset_ p => reset data_ p
  | FlipAll => flip_all data_ | Flip p => flip data_ p | Assign p => assign_value data_ p
  | And p => and_assign data_ p | Or p => or_assign data_ p | Xor p => xor_assign data_ p
  end.

(** Whether flag [i], one of the mask, is in the set after an operation, by whether it was in
    the set [s] and whether the pattern names it. *)
Definition effect (o : op) (s : Z -> bool) (i : Z) : bool :=
  let named p := Z.testbit p i in
  match o with
  | Set_ p v => if named p then v else s i
  | SetOn p | Or p => s i || named p
  | Clear => false
  | Reset_ p => s i && negb (named p)
  | FlipAll => negb (s i)
  | Flip p | Xor p => xorb (s i) (named p)
  | Assign p => named p
  | And p => s i && named p
  end.

Definition effects (ops : list op) (s : Z -> bool) : Z -> bool := foldl (fun s o => effect o s) s ops.

(** The word holds the flags of [s] and none outside the mask. *)
Definition holds (data_ : Z) (s : Z -> bool) : Prop :=
  0 <= data_ < 2 ^ w /\ forall i, 0 <= i -> Z.testbit data_ i = Z.testbit MASK i && s i.

Hypothesis Hw : width_ok w.
Hypothesis Hmask : 0 <= MASK < 2 ^ w.

Lemma mask_bit i : 0 <= i -> (i <? w) && Z.testbit MASK i = Z.testbit MASK i.
Proof using Hw Hmask.
  intros Hi. destruct (Z.ltb_spec i w); [done|]. by rewrite (above_width w Hw MASK i Hmask).
Qed.

Lemma run_holds data_ s o : holds data_ s -> holds (run data_ o) (effect o s).
Proof using Hw Hmask.
  intros [Hr Hb]. split; [destruct o as [p []|p| |p| |p|p|p|p|p]; first [apply (uns_range w Hw)|exact (conj (Z.le_refl 0) (Z.pow_pos_nonneg 2 w eq_refl ltac:(destruct (width_pos w Hw); lia)))]|].
  intros i Hi. pose proof (mask_bit i Hi) as Hm. assert (Hlt : Z.testbit data_ i = (i <? w) && Z.testbit data_ i).
  { rewrite Hb by done. by rewrite andb_assoc, Hm. }
  destruct o as [p []|p| |p| |p|p|p|p|p]; cbn [run effect];
    unfold set_to, set_pattern, clear_all, reset, flip_all, flip, assign_value, and_assign, or_assign, xor_assign, ALL_CLEAR;
    rewrite ?(uns_bits w Hw), ?Z.lor_spec, ?Z.land_spec, ?Z.lxor_spec, ?(uns_bits w Hw), ?Z.land_spec, ?Z.lnot_spec, ?Z.testbit_0_l, ?Hb by done;
    destruct (Z.testbit MASK i), (i <? w), (s i); try discriminate Hm; first [reflexivity|match goal with |- context [Z.testbit ?p i] => by destruct (Z.testbit p i) end].
Qed.

Lemma run_all_holds ops : forall data_ s, holds data_ s -> holds (foldl run data_ ops) (effects ops s).
Proof using Hw Hmask. induction ops as [|o ops IH]; intros data_ s H; [done|]. apply IH. by apply run_holds. Qed.

Lemma flags_of_holds pattern : holds (flags_of pattern) (Z.testbit pattern).
Proof using Hw Hmask.
  split; [apply (uns_range w Hw)|]. intros i Hi. unfold flags_of. rewrite (uns_bits w Hw), Z.land_spec by done.
  pose proof (mask_bit i Hi) as Hm. destruct (i <? w), (Z.testbit MASK i), (Z.testbit pattern i); done || discriminate Hm.
Qed.

Lemma zero_bits u : 0 <= u -> u = 0 <-> forall i, 0 <= i -> Z.testbit u i = false.
Proof. intros Hu. split; [intros -> i Hi; apply Z.testbit_0_l|]. intros H. apply Z.bits_inj'. intros i Hi. by rewrite H, Z.testbit_0_l. Qed.

(** A word is not zero exactly if a bit is set. *)
Lemma some_bit u : 0 <= u -> negb (u =? 0) = true <-> exists i, 0 <= i /\ Z.testbit u i = true.
Proof.
  intros Hu. rewrite negb_true_iff, Z.eqb_neq. split.
  - intros N. exists (Z.log2 u). split; [apply Z.log2_nonneg|]. apply Z.bit_log2. lia.
  - intros (i & Hi & Hb) ->. by rewrite Z.testbit_0_l in Hb.
Qed.

Lemma masked_bit pattern i : 0 <= i -> Z.testbit (uns w (Z.land pattern MASK)) i = Z.testbit MASK i && Z.testbit pattern i.
Proof using Hw Hmask. apply flags_of_holds. Qed.

Lemma any_of_holds data_ s pattern : holds data_ s -> any_of data_ pattern = true <-> exists i, 0 <= i /\ Z.testbit MASK i = true /\ Z.testbit pattern i = true /\ s i = true.
Proof using Hw Hmask.
  intros [Hr Hb]. unfold any_of. rewrite some_bit by (apply Z.land_nonneg; lia). split; intros (i & Hi & H); exists i; (split; [done|]).
  - rewrite Z.land_spec, Hb, masked_bit in H by done. by destruct (Z.testbit MASK i), (Z.testbit pattern i), (s i).
  - rewrite Z.land_spec, Hb, masked_bit by done. by destruct H as (-> & -> & ->).
Qed.

Lemma any_holds data_ s : holds data_ s -> any data_ = true <-> exists i, 0 <= i /\ Z.testbit MASK i = true /\ s i = true.
Proof using Hw Hmask.
  intros [Hr Hb]. unfold any. rewrite some_bit by lia. split; intros (i & Hi & H); exists i; (split; [done|]).
  - rewrite Hb in H by done. by apply andb_true_iff.
  - rewrite Hb by done. by apply andb_true_iff.
Qed.

Lemma test_holds data_ s pattern : holds data_ s -> test_pattern data_ pattern = any_of data_ pattern.
Proof using Hw Hmask.
  intros [Hr Hb]. unfold test_pattern, any_of. do 2 f_equal. apply Z.bits_inj'. intros i Hi. rewrite !Z.land_spec, masked_bit, Hb by done.
  by destruct (Z.testbit MASK i), (s i).
Qed.

Lemma all_of_holds data_ s pattern : holds data_ s -> all_of data_ pattern = true <-> forall i, 0 <= i -> Z.testbit MASK i = true -> Z.testbit pattern i = true -> s i = true.
Proof using Hw Hmask.
  intros [Hr Hb]. unfold all_of. rewrite Z.eqb_eq. split.
  - intros E i Hi Hm Hp. apply (f_equal (fun u => Z.testbit u i)) in E. rewrite Z.land_spec, Hb, masked_bit, Hm, Hp in E by done. by destruct (s i).
  - intros H. apply Z.bits_inj'. intros i Hi. specialize (H i Hi). rewrite Z.land_spec, Hb, masked_bit by done.
    destruct (Z.testbit MASK i), (Z.testbit pattern i), (s i); try done; by specialize (H eq_refl eq_refl).
Qed.

Lemma all_holds data_ s : holds data_ s -> all data_ = true <-> forall i, 0 <= i -> Z.testbit MASK i = true -> s i = true.
Proof using Hw Hmask.
  intros [Hr Hb]. unfold all, ALL_SET. rewrite Z.eqb_eq.
  assert (Ef : forall i, 0 <= i -> Z.testbit (Z.land (uns w (Z.lnot 0)) MASK) i = Z.testbit MASK i).
  { intros i Hi. rewrite Z.land_spec, (uns_bits w Hw), Z.lnot_spec, Z.testbit_0_l by done. cbn [negb]. by rewrite andb_true_r, mask_bit. }
  split.
  - intros E i Hi Hm. apply (f_equal (fun u => Z.testbit u i)) in E. rewrite Hb, Ef, Hm in E by done. done.
  - intros H. apply Z.bits_inj'. intros i Hi. specialize (H i Hi). rewrite Hb, Ef by done. destruct (Z.testbit MASK i); [by rewrite H|done].
Qed.
End Flags.

(**  After any sequence of operations on flags built from any pattern, at every width and
    mask: the word holds exactly the flags that the operations on the set leave, none of
    them outside the mask, and the observers decide whether all, some or none of the
    flags of the mask or of a pattern are in the set; two objects are equal exactly if they
    hold the same flags. *)
Theorem flags_refine_sets w MASK pattern ops (Hw : width_ok w) (Hmask : 0 <= MASK < 2 ^ w) :
  let data_ := foldl (run w MASK) (flags_of w MASK pattern) ops in
  let s := effects ops (Z.testbit pattern) in
  let flag i := 0 <= i /\ Z.testbit MASK i = true in
  holds w MASK data_ s
  /\ (all w MASK data_ = true <-> forall i, flag i -> s i = true)
  /\ (any data_ = true <-> exists i, flag i /\ s i = true)
  /\ none data_ = negb (any data_)
  /\ (forall p, (all_of w MASK data_ p = true <-> forall i, flag i -> Z.testbit p i = true -> s i = true)
       /\ (any_of w MASK data_ p = true <-> exists i, flag i /\ Z.testbit p i = true /\ s i = true)
       /\ none_of w MASK data_ p = negb (any_of w MASK data_ p)
       /\ test_pattern data_ p = any_of w MASK data_ p)
  /\ forall data_' s', holds w MASK data_' s' -> flags_eq data_ data_' = true <-> forall i, flag i -> s i = s' i.
Proof.
  cbv zeta. pose proof (run_all_holds w MASK Hw Hmask ops _ _ (flags_of_holds w MASK Hw Hmask pattern)) as H. revert H.
  generalize (foldl (run w MASK) (flags_of w MASK pattern) ops) (effects ops (Z.testbit pattern)). intros data_ s H.
  split; [done|]. split; [rewrite (all_holds w MASK Hw Hmask data_ s H); naive_solver|]. split; [rewrite (any_holds w MASK Hw Hmask data_ s H); naive_solver|].
  split; [unfold none, any; by rewrite negb_involutive|]. split.
  - intros p. split; [rewrite (all_of_holds w MASK Hw Hmask data_ s p H); naive_solver|]. split; [rewrite (any_of_holds w MASK Hw Hmask data_ s p H); naive_solver|].
    split; [done|]. by apply (test_holds w MASK Hw Hmask data_ s).
  - destruct H as [Hr Hb]. intros data_' s' [Hr' Hb']. unfold flags_eq. rewrite Z.eqb_eq. split.
    + intros E i [Hi Hm]. apply (f_equal (fun u => Z.testbit u i)) in E. by rewrite Hb, Hb', Hm in E by done.
    + intros E. apply Z.bits_inj'. intros i Hi. rewrite Hb, Hb' by done. destruct (Z.testbit MASK i) eqn:Hm; [by rewrite E|done].
Qed.

Lemma flags_refine_sets_witness : width_ok 8 /\ 0 <= 0x3F < 2 ^ 8
  /\ holds 8 0x3F (foldl (run 8 0x3F) (flags_of 8 0x3F 0xC5) [Set_ 0x0A true; FlipAll; Reset_ 0x10]) (effects [Set_ 0x0A true; FlipAll; Reset_ 0x10] (Z.testbit 0xC5))
  /\ foldl (run 8 0x3F) (flags_of 8 0x3F 0xC5) [Set_ 0x0A true; FlipAll; Reset_ 0x10] = 0x20.
Proof.
  assert (Hw : width_ok 8) by (left; reflexivity). assert (Hm : 0 <= 0x3F < 2 ^ 8) by lia. split; [exact Hw|]. split; [exact Hm|].
  split; [|reflexivity]. exact (proj1 (flags_refine_sets 8 0x3F 0xC5 [Set_ 0x0A true; FlipAll; Reset_ 0x10] Hw Hm)).
Defined.
