(* ===== verification/IntMath.v ===== *)
(** * Integer mathematics (castle/math)

    The integer templates of abs, ceil_div, floor_div, mod, clamp, sign, square,
    is_power_of_two, saturating, isqrt, sqrt, gcd, lcm, ratio, powi, factorial, fib and
    invert at a type of [w] bits, signed or not.  [arith] is the result of an arithmetic
    operation on operands of the type, by its exact value: narrow types are computed in
    [int], signed overflow is undefined, unsigned results wrap.  Assertions are dropped,
    as in builds without checks: what they demand are hypotheses.  Floating-point instances
    are not modelled. *)

From S2P Require Import Prelude Words Bits.
Open Scope Z_scope.

#[local] Ltac Zify.zify_post_hook ::= Z.to_euclidean_division_equations.

(** ** The code *)

Definition type_min (w : Z) (sgn : bool) : Z := if sgn then - 2 ^ (w - 1) else 0.
Definition type_max (w : Z) (sgn : bool) : Z := if sgn then 2 ^ (w - 1) - 1 else 2 ^ w - 1.
Definition representable (w : Z) (sgn : bool) (z : Z) : bool := (type_min w sgn <=? z) && (z <=? type_max w sgn).

Definition arith (w : Z) (sgn : bool) (z : Z) : exec Z :=
  if w <? 32 then if representable 32 true z then Done z else Undefined
  else if sgn then if representable w true z then Done z else Undefined
  else Done (wrap w z).

Section IntMath.
Context (w : Z) (sgn : bool).

(** [a / b] and [a % b]: undefined for a zero divisor or a quotient that does not fit. *)
Definition divide (a b : Z) : exec Z := if b =? 0 then Undefined else arith w sgn (Z.quot a b).
Definition modulo (a b : Z) : exec Z := if b =? 0 then Undefined else _ ← arith w sgn (Z.quot a b); Done (Z.rem a b).

(** *** abs.hpp, sign.hpp, clamp.hpp, square.hpp, is_power_of_two.hpp *)

(** The signed overload; at the least value an assertion fails and zero is returned. *)
Definition abs (value : Z) : exec Z :=
  if value =? type_min w sgn then Done 0
  else if value <? 0 then x ← arith w sgn (- value); Done (cast w sgn x) else Done value.
Definition uabs (value : Z) : exec Z :=
  if value =? type_min w sgn then h ← arith w false (type_max w false / 2 + 1); Done (uns w h)
  else if value <? 0 then x ← arith w sgn (- value); Done (uns w x) else Done (uns w value).
Definition sign (value : Z) : Z := if 0 <? value then 1 else if value <? 0 then -1 else 0.
Definition clamp (value low high : Z) : Z := if value <? low then low else if high <? value then high else value.
Definition square (value : Z) : exec Z := x ← arith w sgn (value * value); Done (cast w sgn x).
Definition is_power_of_two (value : Z) : exec bool :=
  if value =? 0 then Done false else x ← arith w sgn (value - 1); Done (Z.land value (cast w sgn x) =? 0).

(** *** ceil_div.hpp, floor_div.hpp, mod.hpp *)

Definition ceil_div (numerator denominator : Z) : exec Z :=
  quotient ← divide numerator denominator;
  let quotient := cast w sgn quotient in
  remainder ← modulo numerator denominator;
  let remainder := cast w sgn remainder in
  if negb (remainder =? 0) && (0 <? numerator) then x ← arith w sgn (quotient + 1); Done (cast w sgn x) else Done quotient.
Definition floor_div (numerator denominator : Z) : exec Z :=
  quotient ← divide numerator denominator;
  let quotient := cast w sgn quotient in
  remainder ← modulo numerator denominator;
  let remainder := cast w sgn remainder in
  if negb (remainder =? 0) && (numerator <? 0) then x ← arith w sgn (quotient - 1); Done (cast w sgn x) else Done quotient.
Definition positive_mod (value modulus : Z) : exec Z :=
  result ← modulo value modulus;
  let result := cast w sgn result in
  if result <? 0 then x ← arith w sgn (result + modulus); Done (cast w sgn x) else Done result.

(** *** saturating.hpp *)

Definition saturating_add (a b : Z) : exec Z :=
  let maximum := type_max w sgn in
  let minimum := type_min w sgn in
  if sgn then
    over ← (if 0 <? b then x ← arith w sgn (maximum - b); Done (cast w sgn x <? a) else Done false);
    if over : bool then Done maximum
    else
      under ← (if b <? 0 then x ← arith w sgn (minimum - b); Done (a <? cast w sgn x) else Done false);
      if under : bool then Done minimum else x ← arith w sgn (a + b); Done (cast w sgn x)
  else
    x ← arith w sgn (maximum - a);
    if cast w sgn x <? b then Done maximum else x ← arith w sgn (a + b); Done (cast w sgn x).
Definition saturating_sub (a b : Z) : exec Z :=
  let maximum := type_max w sgn in
  let minimum := type_min w sgn in
  if sgn then
    under ← (if 0 <? b then x ← arith w sgn (minimum + b); Done (a <? cast w sgn x) else Done false);
    if under : bool then Done minimum
    else
      over ← (if b <? 0 then x ← arith w sgn (maximum + b); Done (cast w sgn x <? a) else Done false);
      if over : bool then Done maximum else x ← arith w sgn (a - b); Done (cast w sgn x)
  else if a <? b then Done 0 else x ← arith w sgn (a - b); Done (cast w sgn x).

(** *** powi.hpp, invert.hpp *)

(** The exponent is an [unsigned] of 32 bits: 33 tests are enough. *)
Definition powi (base exponent : Z) : exec Z :=
  '(result, _, _) ← settled (while_loop 33 (fun '(_, _, remaining) => Done (negb (remaining =? 0)))
     (fun '(result, factor, remaining) =>
        result ← (if negb (Z.land remaining 1 =? 0) then x ← arith w sgn (result * factor); Done (cast w sgn x) else Done result);
        let remaining := Z.shiftr remaining 1 in
        factor ← (if negb (remaining =? 0) then x ← arith w sgn (factor * factor); Done (cast w sgn x) else Done factor);
        Done (Next (result, factor, remaining)))
     (1, base, exponent));
  Done result.

Record invert := mk_invert { offset_ : Z; minuend_ : Z }.
Definition invert_new : invert := mk_invert 0 (if sgn then 0 else type_max w sgn).
Definition invert_of (offset minuend : Z) : invert := mk_invert offset minuend.
Definition invert_call (o : invert) (value : Z) : exec Z :=
  d ← arith w sgn (value - offset_ o); r ← arith w sgn (minuend_ o - cast w sgn d); Done (cast w sgn r).
End IntMath.

(** [wrap] computes in 64 bits for the types of at most 32. *)
Definition range_wrap (w : Z) (sgn : bool) (value low high : Z) : exec Z :=
  let cw := if w <=? 32 then 64 else w in
  shifted ← arith cw sgn (value - low);
  period ← arith cw sgn (high - low);
  wrapped ← positive_mod cw sgn shifted period;
  x ← arith cw sgn (low + wrapped);
  Done (cast w sgn x).

(** *** isqrt.hpp, sqrt.hpp *)

(** The overload for unsigned types; the interval is halved, so [w + 1] tests are enough. *)
Definition isqrt_unsigned (w value : Z) : exec Z :=
  if value <? 2 then Done value
  else
    high ← arith w false (value / 2 + 1);
    '(_, high) ← settled (while_loop (Z.to_nat (w + 1)) (fun '(low, high) => Done (low <=? high))
       (fun '(low, high) =>
          d ← arith w false (high - low);
          middle ← arith w false (low + d / 2);
          let middle := uns w middle in
          q ← divide w false value middle;
          if middle <=? q then x ← arith w false (middle + 1); Done (Next (uns w x, high))
          else x ← arith w false (middle - 1); Done (Next (low, uns w x)))
       (1, uns w high));
    Done high.
Definition isqrt (w : Z) (sgn : bool) (value : Z) : exec Z :=
  if sgn then x ← isqrt_unsigned w (uns w value); Done (cast w sgn x) else isqrt_unsigned w value.

(** At [size_type], as the class template [sqrt] uses it; the interval has at most [2 ^ 64] numbers. *)
Definition sqrt_floor (value low high : Z) : exec Z :=
  '(result, _, _) ← settled (while_loop 66 (fun '(_, low, high) => Done (low <=? high))
     (fun '(result, low, high) =>
        let mid := to_u64 (low + to_u64 (high - low) / 2) in
        fits ← (if mid =? 0 then Done true else q ← divide 64 false value mid; Done (mid <=? q));
        if fits : bool then Done (Next (mid, to_u64 (mid + 1), high)) else Done (Next (result, low, to_u64 (mid - 1))))
     (0, low, high));
  Done result.
Definition sqrt (value : Z) (root : Z) : exec Z := sqrt_floor value root value.

(** *** gcd.hpp, lcm.hpp, ratio.hpp, at [intmax_t] *)

(** Two calls halve the second argument: 129 are enough for 64 bits. *)
Fixpoint gcd_loop (fuel : nat) (lhs rhs : Z) : exec Z :=
  match fuel with O => Undefined | S n => if rhs =? 0 then Done lhs else gcd_loop n rhs (lhs mod rhs) end.
Definition gcd_value (lhs rhs : Z) : exec Z := gcd_loop 129 lhs rhs.
Definition gcd (A B : Z) : exec Z := a ← uabs 64 true A; b ← uabs 64 true B; g ← gcd_value a b; Done (to_signed 64 (wrap 64 g)).

Definition lcm (A B : Z) : exec Z :=
  divisor ← gcd A B;
  if (A =? 0) || (B =? 0) then Done 0
  else q ← divide 64 true A divisor; p ← arith 64 true (q * B); if p <? 0 then arith 64 true (- p) else Done p.

Record ratio := mk_ratio { num : Z; den : Z }.
(** [Undefined] stands for an instantiation that is ill-formed: its constants overflow. *)
Definition make_ratio (Numerator Denominator : Z) : exec ratio :=
  if Denominator =? 0 then Undefined
  else
    abs_num ← (if Numerator <? 0 then arith 64 true (- Numerator) else Done Numerator);
    abs_den ← (if Denominator <? 0 then arith 64 true (- Denominator) else Done Denominator);
    divisor ← gcd abs_num abs_den;
    let sign := if Denominator <? 0 then -1 else 1 in
    q ← divide 64 true Numerator divisor;
    n ← arith 64 true (sign * q);
    d ← divide 64 true abs_den divisor;
    Done (mk_ratio n d).
Definition mul64 (a b : Z) : exec Z := arith 64 true (a * b).
Definition ratio_add (r1 r2 : ratio) : exec ratio :=
  a ← mul64 (num r1) (den r2); b ← mul64 (num r2) (den r1); n ← arith 64 true (a + b); d ← mul64 (den r1) (den r2); make_ratio n d.
Definition ratio_subtract (r1 r2 : ratio) : exec ratio :=
  a ← mul64 (num r1) (den r2); b ← mul64 (num r2) (den r1); n ← arith 64 true (a - b); d ← mul64 (den r1) (den r2); make_ratio n d.
Definition ratio_multiply (r1 r2 : ratio) : exec ratio := n ← mul64 (num r1) (num r2); d ← mul64 (den r1) (den r2); make_ratio n d.
Definition ratio_divide (r1 r2 : ratio) : exec ratio := n ← mul64 (num r1) (den r2); d ← mul64 (den r1) (num r2); make_ratio n d.
Definition ratio_equal (r1 r2 : ratio) : bool := (num r1 =? num r2) && (den r1 =? den r2).
Definition ratio_less (r1 r2 : ratio) : exec bool := a ← mul64 (num r1) (den r2); b ← mul64 (num r2) (den r1); Done (a <? b).
Definition ratio_less_equal (r1 r2 : ratio) : exec bool := x ← ratio_less r2 r1; Done (negb x).
Definition ratio_greater (r1 r2 : ratio) : exec bool := ratio_less r2 r1.
Definition ratio_greater_equal (r1 r2 : ratio) : exec bool := x ← ratio_less r1 r2; Done (negb x).

(** *** factorial.hpp, fib.hpp *)

Definition factorial_loop (fuel : nat) (n : Z) : exec Z :=
  '(result, _) ← settled (while_loop fuel (fun '(_, i) => Done (i <=? n))
     (fun '(result, i) => Done (Next (to_u64 (result * i), to_u64 (i + 1)))) (1, 2));
  Done result.
Definition factorial_v (n : Z) : exec Z := factorial_loop (S (Z.to_nat n)) n.

Definition fib_loop (fuel : nat) (n : Z) : exec Z :=
  if n =? 0 then Done 0
  else if n =? 1 then Done 1
  else
    '(_, b, _) ← settled (while_loop fuel (fun '(_, _, i) => Done (i <=? n))
       (fun '(a, b, i) => let next := to_u64 (a + b) in Done (Next (b, next, to_u64 (i + 1)))) (0, 1, 2));
    Done b.
Definition fib (n : Z) : exec Z := fib_loop (S (Z.to_nat n)) n.

(** ** Arithmetic that fits *)

Lemma in_type_bounds w sgn z : width_ok w -> in_type w sgn z <-> type_min w sgn <= z <= type_max w sgn.
Proof. unfold in_type, type_min, type_max. destruct sgn; lia. Qed.

Lemma representable_iff w sgn z : representable w sgn z = true <-> type_min w sgn <= z <= type_max w sgn.
Proof. unfold representable. lia. Qed.

Lemma zero_in_type w sgn : width_ok w -> in_type w sgn 0.
Proof. intros [-> |[-> |[-> | ->]]]; unfold in_type; destruct sgn; lia. Qed.

Lemma arith_ok w sgn z : width_ok w -> in_type w sgn z -> arith w sgn z = Done z.
Proof.
  intros Hw Hz. unfold arith. destruct (Z.ltb_spec w 32) as [Hn|Hn].
  - assert (E : representable 32 true z = true) by (apply representable_iff; unfold type_min, type_max, in_type in *; destruct Hw as [-> |[-> |[-> | ->]]]; try lia; destruct sgn; lia). by rewrite E.
  - destruct sgn; [|f_equal; by apply wrap_small]. by rewrite (proj2 (representable_iff w true z) (proj1 (in_type_bounds w true z Hw) Hz)).
Qed.

Lemma arith_between w sgn z lo hi : width_ok w -> in_type w sgn lo -> in_type w sgn hi -> lo <= z <= hi -> arith w sgn z = Done z /\ cast w sgn z = z.
Proof.
  intros Hw Hlo Hhi Hz. assert (H : in_type w sgn z) by (unfold in_type in *; destruct sgn; lia). split; [by apply arith_ok|by apply cast_fits].
Qed.

Lemma arith_cast w sgn z : width_ok w -> in_type w sgn z -> (x ← arith w sgn z; Done (cast w sgn x)) = Done z.
Proof. intros Hw Hz. by rewrite arith_ok, bind_Done, cast_fits by done. Qed.

(** ** Division *)

Lemma quot_rem_spec n d : 0 < d -> n = d * Z.quot n d + Z.rem n d /\ (0 <= n -> 0 <= Z.rem n d < d /\ 0 <= Z.quot n d <= n) /\ (n <= 0 -> - d < Z.rem n d <= 0 /\ n <= Z.quot n d <= 0).
Proof.
  intros Hd. assert (E : n = d * Z.quot n d + Z.rem n d) by (apply Z.quot_rem; lia). split; [done|]. split; intros Hn.
  - assert (Hr : 0 <= Z.rem n d < d) by (by apply Z.rem_bound_pos). split; [done|]. nia.
  - assert (Hr : - d < Z.rem n d <= 0) by (pose proof (Z.rem_bound_abs n d ltac:(lia)); pose proof (Z.rem_nonpos n d ltac:(lia) Hn); lia). split; [done|]. nia.
Qed.

Section Division.
Context (w : Z) (sgn : bool) (Hw : width_ok w).

Lemma quot_rem_in_type n d : in_type w sgn n -> in_type w sgn d -> 0 < d -> in_type w sgn (Z.quot n d) /\ in_type w sgn (Z.rem n d).
Proof using Hw.
  intros Hn Hd Hp. destruct (quot_rem_spec n d Hp) as (_ & H1 & H2). pose proof (zero_in_type w sgn Hw) as H0. unfold in_type in *. destruct (Z.le_ge_cases 0 n) as [H|H]; [destruct (H1 H)|destruct (H2 H)]; destruct sgn; lia.
Qed.

Lemma divide_ok n d : in_type w sgn n -> in_type w sgn d -> 0 < d -> divide w sgn n d = Done (Z.quot n d) /\ modulo w sgn n d = Done (Z.rem n d).
Proof using Hw.
  intros Hn Hd Hp. unfold divide, modulo. rewrite (proj2 (Z.eqb_neq d 0)), arith_ok by (done || lia || by apply quot_rem_in_type). done.
Qed.

Lemma floor_div_ok n d : in_type w sgn n -> in_type w sgn d -> 0 < d -> floor_div w sgn n d = Done (n / d).
Proof using Hw.
  intros Hn Hd Hp. unfold floor_div. destruct (divide_ok n d Hn Hd Hp) as [-> ->]. destruct (quot_rem_in_type n d Hn Hd Hp) as [Hq Hr]. rewrite !bind_Done, !cast_fits by done.
  destruct (quot_rem_spec n d Hp) as (E & H1 & H2). destruct (Z.eqb_spec (Z.rem n d) 0) as [E0|N]; cbn [negb andb].
  - f_equal. apply Z.div_unique with 0; lia.
  - destruct (Z.ltb_spec n 0) as [Hneg|Hpos].
    + destruct (H2 ltac:(lia)) as [Hb Hqb]. assert (Eq : Z.quot n d - 1 = n / d) by (apply Z.div_unique with (Z.rem n d + d); lia).
      rewrite arith_cast; [by rewrite Eq|done|]. unfold in_type in *. destruct sgn; [nia|lia].
    + f_equal. apply Z.div_unique with (Z.rem n d); [left; by apply H1|done].
Qed.

Lemma ceil_div_ok n d : in_type w sgn n -> in_type w sgn d -> 0 < d -> ceil_div w sgn n d = Done (- (- n / d)).
Proof using Hw.
  intros Hn Hd Hp. unfold ceil_div. destruct (divide_ok n d Hn Hd Hp) as [-> ->]. destruct (quot_rem_in_type n d Hn Hd Hp) as [Hq Hr]. rewrite !bind_Done, !cast_fits by done.
  destruct (quot_rem_spec n d Hp) as (E & H1 & H2). destruct (Z.eqb_spec (Z.rem n d) 0) as [E0|N]; cbn [negb andb].
  - f_equal. assert (E' : - n / d = - Z.quot n d) by (symmetry; apply Z.div_unique with 0; lia). lia.
  - destruct (Z.ltb_spec 0 n) as [Hpos|Hneg].
    + destruct (H1 ltac:(lia)) as [Hb Hqb]. assert (E' : - n / d = - (Z.quot n d + 1)) by (symmetry; apply Z.div_unique with (d - Z.rem n d); lia). rewrite E', Z.opp_involutive.
      apply arith_cast; [done|]. unfold in_type in *. destruct sgn; nia.
    + f_equal. assert (E' : - n / d = - Z.quot n d) by (symmetry; apply Z.div_unique with (- Z.rem n d); [left; destruct (H2 ltac:(lia)); lia|lia]). lia.
Qed.

Lemma positive_mod_ok n d : in_type w sgn n -> in_type w sgn d -> 0 < d -> positive_mod w sgn n d = Done (n mod d).
Proof using Hw.
  intros Hn Hd Hp. unfold positive_mod. destruct (divide_ok n d Hn Hd Hp) as [_ ->]. destruct (quot_rem_in_type n d Hn Hd Hp) as [_ Hr]. rewrite bind_Done, cast_fits by done.
  destruct (quot_rem_spec n d Hp) as (E & H1 & H2). destruct (Z.ltb_spec (Z.rem n d) 0) as [Hneg|Hpos].
  - destruct (Z.le_ge_cases 0 n) as [H|H]; [destruct (H1 H); lia|]. destruct (H2 H) as [Hb _].
    assert (Em : Z.rem n d + d = n mod d) by (apply Z.mod_unique with (Z.quot n d - 1); lia). rewrite arith_cast; [by rewrite Em|done|]. unfold in_type in *. destruct sgn; lia.
  - f_equal. destruct (Z.le_ge_cases 0 n) as [H|H]; [destruct (H1 H) as [Hb _]|destruct (H2 H) as [Hb _]]; apply Z.mod_unique with (Z.quot n d); lia.
Qed.

(** A comparison with a difference that is computed only under its guard. *)
Lemma guarded (c : bool) z (P : Z -> bool) : (c = true -> in_type w sgn z) -> (if c then x ← arith w sgn z; Done (P (cast w sgn x)) else Done false) = Done (c && P z).
Proof using Hw. intros H. destruct c; [|done]. by rewrite arith_ok, bind_Done, cast_fits by (done || by apply H). Qed.

Lemma clamp_fits a z : (type_min w sgn <= z <= type_max w sgn -> a = Done z) -> (z < type_min w sgn -> a = Done (type_min w sgn)) -> (type_max w sgn < z -> a = Done (type_max w sgn)) ->
  a = Done (clamp z (type_min w sgn) (type_max w sgn)).
Proof. intros H1 H2 H3. unfold clamp. destruct (Z.ltb_spec z (type_min w sgn)); [by apply H2|]. destruct (Z.ltb_spec (type_max w sgn) z); [by apply H3|]. apply H1. lia. Qed.

Lemma sum_cast z : type_min w sgn <= z <= type_max w sgn -> (x ← arith w sgn z; Done (cast w sgn x)) = Done z.
Proof using Hw. intros H. apply arith_cast; [done|]. by apply in_type_bounds. Qed.
End Division.

Lemma type_range w sgn : width_ok w -> type_min w sgn <= 0 < type_max w sgn /\ (sgn = true -> type_min w sgn = - type_max w sgn - 1) /\ (sgn = false -> type_min w sgn = 0).
Proof. intros [-> |[-> |[-> | ->]]]; unfold type_min, type_max; destruct sgn; lia. Qed.

Lemma saturating_add_ok w sgn a b : width_ok w -> in_type w sgn a -> in_type w sgn b -> saturating_add w sgn a b = Done (clamp (a + b) (type_min w sgn) (type_max w sgn)).
Proof.
  intros Hw Ha Hb. apply in_type_bounds in Ha, Hb; [|done..]. destruct (type_range w sgn Hw) as (H0 & Hs & Hu).
  assert (In : forall z, type_min w sgn <= z <= type_max w sgn -> in_type w sgn z) by (intros z; by apply in_type_bounds).
  unfold saturating_add. destruct sgn.
  - specialize (Hs eq_refl). rewrite (guarded w true Hw (0 <? b) _ (fun x => x <? a)), (guarded w true Hw (b <? 0) _ (fun x => a <? x)) by (intros Hc; apply In; lia). rewrite !bind_Done.
    apply clamp_fits; intros Hz; (destruct ((0 <? b) && (type_max w true - b <? a)) eqn:E1; [f_equal; lia|]; destruct ((b <? 0) && (a <? type_min w true - b)) eqn:E2; [f_equal; lia|]); (lia || by apply sum_cast).
  - specialize (Hu eq_refl). rewrite (arith_ok w false (type_max w false - a)), bind_Done, cast_fits by (done || apply In; lia).
    apply clamp_fits; intros Hz; (destruct (type_max w false - a <? b) eqn:E; [f_equal; lia|]); (lia || by apply sum_cast).
Qed.

Lemma saturating_sub_ok w sgn a b : width_ok w -> in_type w sgn a -> in_type w sgn b -> saturating_sub w sgn a b = Done (clamp (a - b) (type_min w sgn) (type_max w sgn)).
Proof.
  intros Hw Ha Hb. apply in_type_bounds in Ha, Hb; [|done..]. destruct (type_range w sgn Hw) as (H0 & Hs & Hu).
  assert (In : forall z, type_min w sgn <= z <= type_max w sgn -> in_type w sgn z) by (intros z; by apply in_type_bounds).
  unfold saturating_sub. destruct sgn.
  - specialize (Hs eq_refl). rewrite (guarded w true Hw (0 <? b) _ (fun x => a <? x)), (guarded w true Hw (b <? 0) _ (fun x => x <? a)) by (intros Hc; apply In; lia). rewrite !bind_Done.
    apply clamp_fits; intros Hz; (destruct ((0 <? b) && (a <? type_min w true + b)) eqn:E1; [f_equal; lia|]; destruct ((b <? 0) && (type_max w true + b <? a)) eqn:E2; [f_equal; lia|]); (lia || by apply sum_cast).
  - specialize (Hu eq_refl). apply clamp_fits; intros Hz; (destruct (a <? b) eqn:E; [f_equal; lia|]); (lia || by apply sum_cast).
Qed.

(** The width [wrap] computes in. *)
Definition calc_width (w : Z) : Z := if w <=? 32 then 64 else w.

Lemma calc_width_ok w : width_ok w -> width_ok (calc_width w) /\ w <= calc_width w /\ (w <= 32 -> calc_width w = 64).
Proof. unfold width_ok, calc_width. intros [-> |[-> |[-> | ->]]]; cbn; lia. Qed.

Lemma in_type_mono w cw sgn z : 0 < w <= cw -> in_type w sgn z -> in_type cw sgn z.
Proof.
  intros H. pose proof (Z.pow_le_mono_r 2 (w - 1) (cw - 1)). pose proof (Z.pow_le_mono_r 2 w cw). unfold in_type. destruct sgn; lia.
Qed.

(** The differences of two values fit the wider type: always for a signed type of at most 32 bits. *)
Lemma signed_difference_fits w a b : width_ok w -> w <= 32 -> in_type w true a -> in_type w true b -> in_type (calc_width w) true (a - b).
Proof.
  intros Hw Hn Ha Hb. destruct (calc_width_ok w Hw) as (_ & _ & E). rewrite E by done. destruct (width_pos w Hw). pose proof (Z.pow_le_mono_r 2 (w - 1) 31). unfold in_type in *. lia.
Qed.

Lemma range_wrap_ok w sgn value low high : width_ok w -> in_type w sgn value -> in_type w sgn low -> in_type w sgn high -> low < high ->
  in_type (calc_width w) sgn (value - low) -> in_type (calc_width w) sgn (high - low) ->
  range_wrap w sgn value low high = Done (low + (value - low) mod (high - low)).
Proof.
  intros Hw Hv Hl Hh Hlt H1 H2. destruct (calc_width_ok w Hw) as (Hcw & Hle & _). destruct (width_pos w Hw) as [Hp _]. unfold range_wrap. fold (calc_width w).
  rewrite !arith_ok, !bind_Done by done. rewrite positive_mod_ok by (done || lia). rewrite bind_Done. pose proof (Z.mod_pos_bound (value - low) (high - low) ltac:(lia)) as Hb.
  destruct (arith_between w sgn (low + (value - low) mod (high - low)) low high Hw Hl Hh ltac:(lia)) as [_ Ec].
  rewrite arith_ok, bind_Done, Ec by (done || (apply (in_type_mono w); [lia|]; unfold in_type in *; destruct sgn; lia)). done.
Qed.

Lemma uabs_ok w v : width_ok w -> in_type w true v -> uabs w true v = Done (Z.abs v).
Proof.
  intros Hw Hv. destruct (type_range w true Hw) as (H0 & Hs & _). specialize (Hs eq_refl). apply in_type_bounds in Hv; [|done]. unfold uabs.
  assert (Hmax : 2 ^ w = 2 * (type_max w true + 1)) by (unfold type_max; destruct Hw as [-> |[-> |[-> | ->]]]; lia).
  destruct (Z.eqb_spec v (type_min w true)) as [-> |N].
  - assert (E : type_max w false / 2 + 1 = Z.abs (type_min w true)) by (change (type_max w false) with (2 ^ w - 1); lia). rewrite E, (arith_ok w false), bind_Done by (done || (unfold in_type; lia)). f_equal. apply uns_small. lia.
  - destruct (Z.ltb_spec v 0); [rewrite (arith_ok w true), bind_Done by (done || (apply in_type_bounds; [done|lia]))|]; f_equal; rewrite uns_small; lia.
Qed.

Lemma abs_ok w v : width_ok w -> in_type w true v -> v <> type_min w true -> abs w true v = Done (Z.abs v).
Proof.
  intros Hw Hv N. destruct (type_range w true Hw) as (H0 & Hs & _). specialize (Hs eq_refl). apply in_type_bounds in Hv; [|done]. unfold abs. rewrite (proj2 (Z.eqb_neq _ _) N).
  destruct (Z.ltb_spec v 0); [|f_equal; lia]. rewrite arith_cast; [f_equal; lia|done|]. apply in_type_bounds; [done|lia].
Qed.

(** Differences of unsigned values wrap at every width. *)
Lemma difference_wraps w a b : width_ok w -> in_type w false a -> in_type w false b -> (x ← arith w false (a - b); Done (cast w false x)) = Done (uns w (a - b)).
Proof.
  intros Hw Ha Hb. unfold in_type in *. unfold arith. destruct (Z.ltb_spec w 32) as [Hn|Hn].
  - assert (Hlt : 2 ^ w <= 2 ^ 16) by (apply Z.pow_le_mono_r; [lia|]; destruct Hw as [-> |[-> |[-> | ->]]]; lia). by rewrite (proj2 (representable_iff 32 true (a - b))) by (unfold type_min, type_max; lia).
  - rewrite bind_Done. f_equal. apply (uns_idem w Hw).
Qed.

Lemma invert_ok w o v : width_ok w -> in_type w false (offset_ o) -> in_type w false (minuend_ o) -> in_type w false v -> invert_call w false o v = Done (uns w (minuend_ o - (v - offset_ o))).
Proof.
  intros Hw Ho Hm Hv. unfold invert_call. assert (E : forall (r : exec Z) (f : Z -> exec Z), (d ← r; f (cast w false d)) = (d ← (d ← r; Done (cast w false d)); f d)) by (by intros [] f).
  rewrite (E _ (fun d => r ← arith w false (minuend_ o - d); Done (cast w false r))), difference_wraps, bind_Done, difference_wraps by (done || apply (uns_range w Hw)).
  f_equal. unfold uns, wrap. apply Zminus_mod_idemp_r.
Qed.

Lemma invert_fits w sgn o v : width_ok w -> in_type w sgn (v - offset_ o) -> in_type w sgn (minuend_ o - (v - offset_ o)) -> invert_call w sgn o v = Done (minuend_ o - (v - offset_ o)).
Proof. intros Hw H1 H2. unfold invert_call. by rewrite arith_ok, bind_Done, cast_fits, arith_ok, bind_Done, cast_fits by (done || by rewrite ?(cast_fits w Hw sgn)). Qed.

(** C34.  Division, remainder, wrapping and saturation of the integer mathematics, at every
    integer type: for the divisors and ranges the code documents, [floor_div], [ceil_div] and
    [positive_mod] round as their names say, [wrap] maps into the half-open range by whole
    periods whenever its differences fit the type it computes in (always for the signed
    types up to 32 bits), the saturating operations clamp the exact result, the magnitudes are
    exact ([abs] but at the least value), and [invert] is its own inverse, the unsigned one always and
    the signed one where its differences fit the type; none of them overflows.  (For ranges of [wrap] whose
    differences do not fit, see [wrap_unsigned_below].) *)
Theorem int_arithmetic_exact w sgn a b c (Hw : width_ok w) (Ha : in_type w sgn a) (Hb : in_type w sgn b) (Hc : in_type w sgn c) :
  (0 < b -> floor_div w sgn a b = Done (a / b) /\ ceil_div w sgn a b = Done (- (- a / b)) /\ positive_mod w sgn a b = Done (a mod b))
  /\ (b < c -> (sgn = true /\ w <= 32) \/ (in_type (calc_width w) sgn (a - b) /\ in_type (calc_width w) sgn (c - b)) ->
       exists r, range_wrap w sgn a b c = Done r /\ b <= r < c /\ (r - a) mod (c - b) = 0)
  /\ saturating_add w sgn a b = Done (clamp (a + b) (type_min w sgn) (type_max w sgn))
  /\ saturating_sub w sgn a b = Done (clamp (a - b) (type_min w sgn) (type_max w sgn))
  /\ (sgn = true -> uabs w true a = Done (Z.abs a) /\ (a <> type_min w true -> abs w true a = Done (Z.abs a)))
  /\ (sgn = false -> exists r, invert_call w false (invert_of b c) a = Done r /\ invert_call w false (invert_of b c) r = Done a)
  /\ (in_type w sgn (a - b) -> in_type w sgn (c - (a - b)) -> invert_call w sgn (invert_of b c) a = Done (c - (a - b))
        /\ (in_type w sgn (c - a) -> invert_call w sgn (invert_of b c) (c - (a - b)) = Done a)).
Proof.
  split; [intros Hp; split; [by apply floor_div_ok|split; [by apply ceil_div_ok|by apply positive_mod_ok]]|]. split; [|split; [by apply saturating_add_ok|split; [by apply saturating_sub_ok|split; [intros ->; split; [by apply uabs_ok|by apply abs_ok]|split]]]].
  3: { intros H1 H2. split; [by apply invert_fits|]. intros H3. rewrite invert_fits; cbn [offset_ minuend_ invert_of]; [f_equal; lia|done|by replace (c - (a - b) - b) with (c - a) by lia|by replace (c - (c - (a - b) - b)) with a by lia]. }
  2: { intros ->. eexists. split; [by apply invert_ok|]. rewrite invert_ok by (done || apply (uns_range w Hw)). f_equal. cbn [offset_ minuend_ invert_of].
    unfold uns, wrap. rewrite <-Zminus_mod_idemp_r, Zminus_mod_idemp_l, Zminus_mod_idemp_r. replace (c - (c - (a - b) - b)) with a by lia. by apply Z.mod_small. }
  intros Hlt H. exists (b + (a - b) mod (c - b)). split; [|split].
  - apply range_wrap_ok; try done; destruct H as [[-> Hn]|[H1 H2]]; done || by apply signed_difference_fits.
  - pose proof (Z.mod_pos_bound (a - b) (c - b)). lia.
  - replace (b + (a - b) mod (c - b) - a) with ((a - b) mod (c - b) - (a - b)) by lia. rewrite Zminus_mod_idemp_l, Z.sub_diag. apply Z.mod_0_l. lia.
Qed.

Lemma int_arithmetic_exact_witness :
  width_ok 8 /\ in_type 8 true (-128) /\ in_type 8 true 100 /\ in_type 8 true 127 /\ floor_div 8 true (-128) 100 = Done (-2) /\ saturating_add 8 true (-128) 100 = Done (-28).
Proof.
  assert (Hw : width_ok 8) by (left; reflexivity). assert (Ha : in_type 8 true (-128)) by (unfold in_type; lia). assert (Hb : in_type 8 true 100) by (unfold in_type; lia). assert (Hc : in_type 8 true 127) by (unfold in_type; lia).
  do 4 (split; [assumption|]). destruct (int_arithmetic_exact 8 true (-128) 100 127 Hw Ha Hb Hc) as (H & _ & E & _). split; [apply (proj1 (H eq_refl))|exact E].
Defined.

(** For the unsigned types a value below the range wraps around the computing type first, whose
    size is no multiple of the period: 0 should go to 3 in [[1, 4)]. *)
Lemma wrap_unsigned_below : range_wrap 32 false 0 1 4 = Done 1 /\ 1 + (0 - 1) mod (4 - 1) = 3.
Proof. split; reflexivity. Qed.

(** Narrow operands are multiplied as [int]: the square of the greatest [uint16_t] overflows it. *)
Lemma square_u16_undefined : square 16 false 65535 = Undefined /\ powi 16 false 65535 2 = Undefined.
Proof. split; reflexivity. Qed.

(** ** Square roots *)

Lemma bisect low high k : 0 <= k -> low <= high -> high - low + 1 < 2 ^ (k + 1) ->
  let middle := low + (high - low) / 2 in low <= middle <= high /\ high - middle < 2 ^ k /\ middle - low < 2 ^ k.
Proof. intros Hk Hle Hs. cbv zeta. rewrite Z.pow_add_r in Hs by lia. change (2 ^ 1) with 2 in Hs. lia. Qed.

Lemma square_test v m : 0 < m -> 0 <= v -> m <= v / m <-> m * m <= v.
Proof.
  intros Hm Hv. split; intros H.
  - pose proof (Z.mul_div_le v m Hm). nia.
  - apply Z.div_le_lower_bound; lia.
Qed.

Section Sqrt.
Context (w v : Z) (Hw : width_ok w) (Hv : 0 <= v < 2 ^ w).

Lemma divide_unsigned b : 0 < b < 2 ^ w -> divide w false v b = Done (v / b).
Proof using Hw Hv.
  intros Hb. rewrite (proj1 (divide_ok w false Hw v b Hv (conj (Z.lt_le_incl _ _ (proj1 Hb)) (proj2 Hb)) (proj1 Hb))). f_equal. apply Z.quot_div_nonneg; lia.
Qed.

Lemma isqrt_loop k fuel low high : (k < fuel)%nat -> high - low + 1 < 2 ^ Z.of_nat k -> 1 <= low <= high + 1 -> high <= 2 ^ (w - 1) -> (low - 1) * (low - 1) <= v < (high + 1) * (high + 1) ->
  exists low', while_loop (R := Empty_set) fuel (fun '(low, high) => Done (low <=? high))
     (fun '(low, high) =>
        d ← arith w false (high - low);
        middle ← arith w false (low + d / 2);
        let middle := uns w middle in
        q ← divide w false v middle;
        if middle <=? q then x ← arith w false (middle + 1); Done (Next (uns w x, high))
        else x ← arith w false (middle - 1); Done (Next (low, uns w x))) (low, high) = Done (Next (low', Z.sqrt v)).
Proof using Hw Hv.
  assert (E2 : 2 ^ w = 2 * 2 ^ (w - 1)) by (rewrite <-Z.pow_succ_r by (destruct (width_pos w Hw); lia); f_equal; lia). assert (Hbig : 2 <= 2 ^ (w - 1)) by (destruct Hw as [-> |[-> |[-> | ->]]]; lia).
  revert fuel low high. induction k as [|k IH]; intros fuel low high Hf Hs Hlow Hhigh Hsq; (destruct fuel as [|fuel]; [lia|]); cbn [while_loop].
  - change (2 ^ Z.of_nat 0) with 1 in Hs. assert (high = low - 1) as -> by lia. rewrite (proj2 (Z.leb_gt low (low - 1))) by lia. exists low. do 3 f_equal. symmetry. apply Z.sqrt_unique. lia.
  - destruct (Z.leb_spec low high) as [Hle|Hgt]; [|assert (high = low - 1) as -> by lia; exists low; do 3 f_equal; symmetry; apply Z.sqrt_unique; lia].
    destruct (bisect low high (Z.of_nat k)) as (Hm & Hs1 & Hs2); [lia|lia|replace (Z.of_nat k + 1) with (Z.of_nat (S k)) by lia; done|]. revert Hm Hs1 Hs2.
    set (m := low + (high - low) / 2). intros Hm Hs1 Hs2.
    rewrite (arith_ok w false (high - low)), bind_Done by (done || (unfold in_type; lia)). fold m. rewrite (arith_ok w false m), bind_Done by (done || (unfold in_type; lia)). cbv zeta.
    rewrite (uns_small w m), divide_unsigned, bind_Done by lia. clearbody m. destruct (Z.leb_spec m (v / m)) as [Hq|Hq].
    + apply square_test in Hq; [|lia|lia]. rewrite (arith_ok w false), bind_Done, uns_small by (done || (unfold in_type; lia) || lia). apply IH; lia || nia.
    + assert (Hq' : v < m * m) by (destruct (Z.lt_ge_cases v (m * m)) as [|Hge]; [done|apply square_test in Hge; lia]).
      rewrite (arith_ok w false), bind_Done, uns_small by (done || (unfold in_type; lia) || lia). apply IH; lia.
Qed.

Lemma isqrt_unsigned_ok : isqrt_unsigned w v = Done (Z.sqrt v).
Proof using Hw Hv.
  unfold isqrt_unsigned. destruct (Z.ltb_spec v 2) as [Hlt|Hge]; [assert (v = 0 \/ v = 1) as [-> | ->] by lia; done|].
  assert (E2 : 2 ^ w = 2 * 2 ^ (w - 1)) by (rewrite <-Z.pow_succ_r by (destruct (width_pos w Hw); lia); f_equal; lia). assert (Hbig : 2 < 2 ^ (w - 1)) by (destruct Hw as [-> |[-> |[-> | ->]]]; lia).
  assert (Hh : v / 2 + 1 <= 2 ^ (w - 1)) by lia. assert (Hh0 : 1 <= v / 2) by lia. rewrite (arith_ok w false), bind_Done, uns_small by (done || (unfold in_type; lia) || lia).
  destruct (width_pos w Hw) as [Hp _]. destruct (isqrt_loop (Z.to_nat w) (Z.to_nat (w + 1)) 1 (v / 2 + 1)) as (l & E); [lia|rewrite Z2Nat.id by lia; lia|lia|lia| |].
  - split; [lia|]. assert (v <= 2 * (v / 2) + 1) by lia. nia.
  - cbv zeta in E |- *. rewrite E. done.
Qed.
End Sqrt.

Section SqrtFloor.
Context (v root : Z) (Hv : u64 v) (Hroot : u64 root).

(** What the bisection knows of the result: nothing found yet, or the greatest root so far. *)
Definition found (result low : Z) : Prop := (low = root /\ result = 0) \/ (root < low /\ result = low - 1 /\ result * result <= v).

Lemma found_result result low high : found result low -> low = high + 1 -> v < (high + 1) * (high + 1) -> result = if root <=? Z.sqrt v then Z.sqrt v else 0.
Proof using Hv Hroot.
  unfold in_width in *. intros [[E ->]|(Hlt & -> & Hsq)] Eh Hv'; pose proof (Z.sqrt_spec v ltac:(lia)) as [Hs1 Hs2]; pose proof (Z.sqrt_nonneg v).
  - rewrite (proj2 (Z.leb_gt root (Z.sqrt v))); [done|]. nia.
  - assert (E : Z.sqrt v = low - 1) by (apply Z.sqrt_unique; nia). rewrite E, (proj2 (Z.leb_le root (low - 1))) by lia. done.
Qed.

Lemma sqrt_floor_loop k fuel result low high : (k < fuel)%nat -> high - low + 1 < 2 ^ Z.of_nat k -> root <= low <= high + 1 -> high <= v -> v < (high + 1) * (high + 1) -> found result low ->
  exists low' high', while_loop (R := Empty_set) fuel (fun '(_, low, high) => Done (low <=? high))
     (fun '(result, low, high) =>
        let mid := to_u64 (low + to_u64 (high - low) / 2) in
        fits ← (if mid =? 0 then Done true else q ← divide 64 false v mid; Done (mid <=? q));
        if fits : bool then Done (Next (mid, to_u64 (mid + 1), high)) else Done (Next (result, low, to_u64 (mid - 1)))) (result, low, high)
  = Done (Next (if root <=? Z.sqrt v then Z.sqrt v else 0, low', high')).
Proof using Hv Hroot.
  assert (H64 : width_ok 64) by (do 3 right; reflexivity). unfold in_width in *.
  revert fuel result low high. induction k as [|k IH]; intros fuel result low high Hf Hs Hlow Hhigh Hsq Hfound; (destruct fuel as [|fuel]; [lia|]); cbn [while_loop].
  - change (2 ^ Z.of_nat 0) with 1 in Hs. rewrite (proj2 (Z.leb_gt low high)) by lia. exists low, high. do 4 f_equal. apply (found_result result low high); [done|lia|lia].
  - destruct (Z.leb_spec low high) as [Hle|Hgt]; [|exists low, high; do 4 f_equal; apply (found_result result low high); [done|lia|lia]].
    destruct (bisect low high (Z.of_nat k)) as (Hm & Hs1 & Hs2); [lia|lia|replace (Z.of_nat k + 1) with (Z.of_nat (S k)) by lia; done|].
    rewrite (wrap_small 64 (high - low)) by (unfold in_width; lia). revert Hm Hs1 Hs2. set (m := low + (high - low) / 2). intros Hm Hs1 Hs2. rewrite (wrap_small 64 m) by (unfold in_width; lia). cbv zeta. clearbody m.
    assert (Ht : exists b, (if m =? 0 then Done true else q ← divide 64 false v m; Done (m <=? q)) = Done b /\ (b = true <-> m * m <= v)).
    { destruct (Z.eqb_spec m 0) as [-> |N]; [exists true; split; [done|]; split; [lia|done]|]. exists (m <=? v / m). rewrite (divide_unsigned 64 v H64) by lia. split; [done|]. rewrite Z.leb_le. apply square_test; lia. }
    destruct Ht as (b & -> & Hb). rewrite bind_Done. destruct b.
    + pose proof (proj1 Hb eq_refl) as Hm2. assert (Hsmall : m < 2 ^ 32) by nia. rewrite (wrap_small 64 (m + 1)) by (unfold in_width; lia). apply IH; try lia. right. split; [lia|]. split; [lia|]. lia.
    + assert (Hm2 : v < m * m) by (destruct (Z.lt_ge_cases v (m * m)) as [|Hge]; [done|pose proof (proj2 Hb ltac:(lia)); done]). assert (1 <= m) by nia.
      rewrite (wrap_small 64 (m - 1)) by (unfold in_width; lia). apply IH; lia || done.
Qed.

Lemma sqrt_ok : sqrt v root = Done (if root <=? Z.sqrt v then Z.sqrt v else 0).
Proof using Hv Hroot.
  pose proof Hv as Hv'. pose proof Hroot as Hr'. unfold in_width in Hv', Hr'. pose proof (Z.sqrt_spec v ltac:(lia)) as [Hs1 Hs2]. pose proof (Z.sqrt_nonneg v). unfold sqrt, sqrt_floor.
  destruct (Z.le_gt_cases root (v + 1)) as [Hle|Hgt].
  - destruct (sqrt_floor_loop 65 66 0 root v) as (l & h & E); [lia|lia|lia|lia|nia|by left|]. cbv zeta in E |- *. rewrite E. done.
  - change 66%nat with (S 65). cbn [while_loop]. rewrite (proj2 (Z.leb_gt root v)), (proj2 (Z.leb_gt root (Z.sqrt v))) by nia. done.
Qed.
End SqrtFloor.

(** C35.  The square roots: at every integer type and every value that is not negative [isqrt] ends
    and returns the greatest integer whose square is not above the value; the compile-time
    [sqrt] does the same from any first candidate up to the root, and returns zero beyond it. *)
Theorem int_sqrt_exact w sgn v root (Hw : width_ok w) (Hv : in_type w sgn v) (Hpos : 0 <= v) (Hroot : u64 root) :
  (exists r, isqrt w sgn v = Done r /\ in_type w sgn r /\ 0 <= r /\ r * r <= v < (r + 1) * (r + 1))
  /\ (root * root <= v -> exists r, sqrt v root = Done r /\ 0 <= r /\ r * r <= v < (r + 1) * (r + 1))
  /\ (v < root * root -> sqrt v root = Done 0).
Proof.
  destruct (width_pos w Hw) as [Hp _]. pose proof (Z.sqrt_spec v Hpos) as [Hs1 Hs2]. pose proof (Z.sqrt_nonneg v) as Hs0. pose proof (type_uns w sgn Hw v Hv Hpos) as Eu.
  pose proof (uns_range w Hw v) as Hu. rewrite Eu in Hu. assert (Hv64 : u64 v) by (unfold in_width; pose proof (Z.pow_le_mono_r 2 w 64); lia). pose proof Hroot as Hr. unfold in_width in Hr.
  assert (Hin : in_type w sgn (Z.sqrt v)) by (unfold in_type in *; destruct sgn; nia). unfold Z.succ in Hs2. split; [|split].
  - exists (Z.sqrt v). split; [|done]. unfold isqrt. rewrite Eu, isqrt_unsigned_ok by done. destruct sgn; [|done]. by rewrite bind_Done, cast_fits.
  - intros H. exists (Z.sqrt v). rewrite sqrt_ok, (proj2 (Z.leb_le root (Z.sqrt v))) by (done || nia). done.
  - intros H. rewrite sqrt_ok, (proj2 (Z.leb_gt root (Z.sqrt v))) by (done || nia). done.
Qed.

Lemma int_sqrt_exact_witness : width_ok 64 /\ in_type 64 false 18446744073709551615 /\ u64 1 /\ exists r, isqrt 64 false 18446744073709551615 = Done r /\ r = 4294967295.
Proof.
  assert (Hw : width_ok 64) by (do 3 right; reflexivity). assert (Hv : in_type 64 false 18446744073709551615) by (unfold in_type; lia). assert (H1 : u64 1) by (unfold in_width; lia).
  split; [exact Hw|]. split; [exact Hv|]. split; [exact H1|]. destruct (int_sqrt_exact 64 false 18446744073709551615 1 Hw Hv ltac:(lia) H1) as [(r & E & _ & Hr0 & Hr) _]. exists r. split; [exact E|nia].
Defined.

(** ** Greatest common divisors and ratios *)

Lemma gcd_loop_ok k fuel a b : (2 * k < fuel)%nat -> 0 <= a -> 0 <= b < 2 ^ Z.of_nat k -> gcd_loop fuel a b = Done (Z.gcd a b).
Proof.
  revert fuel a b. induction k as [|k IH]; intros fuel a b Hf Ha Hb; (destruct fuel as [|fuel]; [lia|]); cbn [gcd_loop].
  - change (2 ^ Z.of_nat 0) with 1 in Hb. assert (b = 0) as -> by lia. cbn. by rewrite Z.gcd_0_r_nonneg.
  - destruct (Z.eqb_spec b 0) as [-> |N]; [by rewrite Z.gcd_0_r_nonneg|]. destruct fuel as [|fuel]; [lia|]. cbn [gcd_loop].
    pose proof (Z.mod_pos_bound a b ltac:(lia)) as Hm. assert (Eg : Z.gcd b (a mod b) = Z.gcd a b) by (rewrite Z.gcd_comm, Z.gcd_mod by done; apply Z.gcd_comm).
    destruct (Z.eqb_spec (a mod b) 0) as [E0|N']; [by rewrite <-Eg, E0, Z.gcd_0_r_nonneg by lia|]. set (r := a mod b) in *. clearbody r.
    pose proof (Z.mod_pos_bound b r ltac:(lia)) as Hm'. rewrite IH; [f_equal; rewrite Z.gcd_comm, Z.gcd_mod by lia; rewrite <-Eg; apply Z.gcd_comm|lia|lia|].
    rewrite Nat2Z.inj_succ, Z.pow_succ_r in Hb by lia. split; [lia|]. assert (Hd : 1 <= b / r) by (apply Z.div_le_lower_bound; lia). pose proof (Z.div_mod b r ltac:(lia)). nia.
Qed.

Definition i64 (z : Z) : Prop := in_type 64 true z.

Lemma width64 : width_ok 64.
Proof. by do 3 right. Qed.

Lemma gcd_ok A B : i64 A -> i64 B -> gcd A B = Done (to_signed 64 (wrap 64 (Z.gcd A B))).
Proof.
  intros HA HB. unfold gcd. rewrite !(uabs_ok 64) by (done || apply width64). rewrite !bind_Done. unfold gcd_value. rewrite (gcd_loop_ok 64) by (lia || (unfold i64, in_type in *; lia)).
  by rewrite bind_Done, Z.gcd_abs_l, Z.gcd_abs_r.
Qed.

Lemma gcd_small A B : i64 A -> i64 B -> Z.gcd A B < 2 ^ 63 -> gcd A B = Done (Z.gcd A B).
Proof.
  intros HA HB H. rewrite gcd_ok by done. pose proof (Z.gcd_nonneg A B). rewrite to_signed_wrap by lia. done.
Qed.

(** Division is exact by a divisor. *)
Lemma divide_exact a b q : 0 < b -> i64 a -> i64 b -> a = b * q -> divide 64 true a b = Done q.
Proof.
  intros Hb Ha Hbi E. rewrite (proj1 (divide_ok 64 true width64 a b Ha Hbi Hb)). f_equal. rewrite E, Z.mul_comm. apply Z.quot_mul. lia.
Qed.

Lemma arith64 z : i64 z -> arith 64 true z = Done z.
Proof. apply arith_ok, width64. Qed.

Lemma lcm_ok A B : i64 A -> i64 B -> Z.gcd A B < 2 ^ 63 -> Z.lcm A B < 2 ^ 63 -> lcm A B = Done (Z.lcm A B).
Proof.
  intros HA HB Hg Hl. unfold lcm. rewrite gcd_small, bind_Done by done. destruct (Z.eqb_spec A 0) as [-> |NA]; [by rewrite Z.lcm_0_l|]. destruct (Z.eqb_spec B 0) as [-> |NB]; [by rewrite Z.lcm_0_r|]. cbn [orb].
  destruct (Z.gcd_divide_l A B) as [q Eq]. destruct (Z.gcd_divide_r A B) as [q' Eq']. pose proof (Z.gcd_nonneg A B) as Hg0. assert (Hgp : 0 < Z.gcd A B) by (assert (Z.gcd A B <> 0) by (intros E; by apply Z.gcd_eq_0_l in E); lia).
  assert (El : Z.lcm A B = Z.abs (q * B)).
  { unfold Z.lcm. f_equal. set (g := Z.gcd A B) in *. clearbody g. assert (E : B / g = q') by (rewrite Eq'; apply Z.div_mul; lia). rewrite E. nia. }
  rewrite (divide_exact A (Z.gcd A B) q) by (done || (unfold i64, in_type in *; lia)).
  rewrite bind_Done. rewrite El in Hl |- *. rewrite arith64 by (unfold i64, in_type; lia). rewrite bind_Done. destruct (Z.ltb_spec (q * B) 0); [rewrite arith64 by (unfold i64, in_type; lia)|]; f_equal; lia.
Qed.

Definition normal (r : ratio) : Prop := 0 < den r /\ Z.gcd (num r) (den r) = 1 /\ i64 (num r) /\ i64 (den r).

Lemma gcd_positive a b : b <> 0 -> 0 < Z.gcd a b.
Proof. intros N. pose proof (Z.gcd_nonneg a b). assert (Z.gcd a b <> 0) by (intros E; by apply Z.gcd_eq_0_r in E). lia. Qed.

Lemma gcd_bound a b : b <> 0 -> Z.gcd a b <= Z.abs b.
Proof. intros N. apply Z.divide_pos_le; [lia|]. apply Z.divide_abs_r, Z.gcd_divide_r. Qed.

(** What is left of two numbers after division by their divisor is coprime. *)
Lemma cofactors a b : b <> 0 -> exists q q', a = q * Z.gcd a b /\ b = q' * Z.gcd a b /\ Z.gcd q q' = 1.
Proof.
  intros N. pose proof (gcd_positive a b N) as Hg. destruct (Z.gcd_divide_l a b) as [q Eq]. destruct (Z.gcd_divide_r a b) as [q' Eq']. exists q, q'. split; [done|]. split; [done|].
  pose proof (Z.gcd_mul_mono_r_nonneg q q' (Z.gcd a b) ltac:(lia)) as E. rewrite <-Eq, <-Eq' in E. pose proof (Z.gcd_nonneg q q'). nia.
Qed.

Lemma make_ratio_ok N D : i64 N -> i64 D -> N <> - 2 ^ 63 -> D <> - 2 ^ 63 -> D <> 0 -> exists r, make_ratio N D = Done r /\ normal r /\ num r * D = N * den r.
Proof.
  intros HN HD HN' HD' N0. unfold make_ratio. rewrite (proj2 (Z.eqb_neq D 0) N0).
  assert (Eabs : forall z, i64 z -> z <> - 2 ^ 63 -> (if z <? 0 then arith 64 true (- z) else Done z) = Done (Z.abs z) /\ i64 (Z.abs z)).
  { intros z Hz Hz'. assert (Hi : i64 (Z.abs z)) by (unfold i64, in_type in *; lia). split; [|done]. destruct (Z.ltb_spec z 0); [rewrite arith64 by (unfold i64, in_type in *; lia)|]; f_equal; lia. }
  destruct (Eabs N HN HN') as [-> HaN]. destruct (Eabs D HD HD') as [-> HaD]. rewrite !bind_Done. pose proof (gcd_positive N D N0) as Hg. pose proof (gcd_bound N D N0) as Hgb.
  rewrite gcd_small by (done || rewrite ?Z.gcd_abs_l, ?Z.gcd_abs_r; unfold i64, in_type in *; lia). rewrite bind_Done, Z.gcd_abs_l, Z.gcd_abs_r.
  destruct (cofactors N D N0) as (q & q' & Eq & Eq' & Hco). revert Eq Eq' Hg Hgb. generalize (Z.gcd N D). intros g Eq Eq' Hg Hgb. clear Eabs.
  assert (Hgi : i64 g) by (unfold i64, in_type in *; lia). assert (Hq' : q' <> 0) by lia. assert (Hqb : Z.abs q <= Z.abs N) by nia. assert (Hqb' : Z.abs q' <= Z.abs D) by nia.
  rewrite (divide_exact N g q) by (done || lia). rewrite bind_Done. set (s := if D <? 0 then -1 else 1). assert (Hs : s * q' = Z.abs q' /\ (s = 1 \/ s = -1)) by (subst s; destruct (Z.ltb_spec D 0); nia). clearbody s.
  rewrite arith64, bind_Done by (unfold i64, in_type in *; nia). rewrite (divide_exact (Z.abs D) g (Z.abs q')) by (done || nia). rewrite bind_Done.
  eexists. split; [done|]. cbn [num den]. split; [|rewrite Eq, Eq'; nia]. repeat split; cbn [num den]; try (unfold i64, in_type in *; nia).
  destruct Hs as [_ [-> | ->]]; [rewrite Z.mul_1_l|replace (-1 * q) with (- q) by lia; rewrite Z.gcd_opp_l]; by rewrite Z.gcd_abs_r.
Qed.

(** Ratios of the same value in normal form are the same. *)
Lemma normal_unique r1 r2 : normal r1 -> normal r2 -> num r1 * den r2 = num r2 * den r1 -> r1 = r2.
Proof.
  intros (H1 & G1 & _) (H2 & G2 & _) E. assert (D1 : (den r1 | den r2)).
  { apply (Z.gauss _ (num r1)); [exists (num r2); lia|by rewrite Z.gcd_comm]. }
  assert (D2 : (den r2 | den r1)) by (apply (Z.gauss _ (num r2)); [exists (num r1); lia|by rewrite Z.gcd_comm]).
  assert (Ed : den r1 = den r2) by (apply Z.divide_antisym_nonneg; (done || lia)). assert (En : num r1 = num r2) by (rewrite Ed in E; nia). destruct r1, r2. cbn in *. by subst.
Qed.

(** The value of [r] is [n / d]. *)
Definition denotes (r : ratio) (n d : Z) : Prop := normal r /\ num r * d = n * den r.

Definition within (z : Z) : Prop := - 2 ^ 63 < z < 2 ^ 63.

Lemma within_i64 z : within z -> i64 z.
Proof. unfold within, i64, in_type. change (64 - 1) with 63. lia. Qed.

Lemma mul64_ok a b : within (a * b) -> mul64 a b = Done (a * b).
Proof. intros H. by apply arith64, within_i64. Qed.

Lemma make_ratio_denotes N D : within N -> within D -> D <> 0 -> exists r, make_ratio N D = Done r /\ denotes r N D.
Proof.
  intros HN HD N0. destruct (make_ratio_ok N D (within_i64 N HN) (within_i64 D HD)) as (r & E & Hr & Eq); [destruct HN; lia|destruct HD; lia|done|]. by exists r.
Qed.

Lemma gcd_within a b : within a -> within b -> Z.gcd a b < 2 ^ 63.
Proof.
  unfold within. intros Ha Hb. destruct (Z.eq_dec b 0) as [-> |N]; [rewrite Z.gcd_0_r; lia|]. pose proof (gcd_bound a b N). lia.
Qed.

(**  The compile-time [gcd], [lcm] and ratios: the recursion of the divisor ends, and divisor and
    multiple are exact where they fit; a ratio of any two constants whose magnitudes fit is reduced
    to lowest terms with a positive denominator, so that equal ratios are the same; and whenever the
    cross products fit [intmax_t] the sum, difference, product and quotient denote the exact rational
    results, reduced, and the comparisons decide the order of the rationals. *)
Theorem ratio_exact r1 r2 N D (H1 : normal r1) (H2 : normal r2) :
  let p1 := num r1 * den r2 in
  let p2 := num r2 * den r1 in
  let d := den r1 * den r2 in
  (within N -> within D -> gcd N D = Done (Z.gcd N D) /\ (Z.lcm N D < 2 ^ 63 -> lcm N D = Done (Z.lcm N D)))
  /\ (within N -> within D -> D <> 0 -> exists r, make_ratio N D = Done r /\ denotes r N D)
  /\ (within p1 -> within p2 -> within d ->
        (within (p1 + p2) -> exists r, ratio_add r1 r2 = Done r /\ denotes r (p1 + p2) d)
        /\ (within (p1 - p2) -> exists r, ratio_subtract r1 r2 = Done r /\ denotes r (p1 - p2) d))
  /\ (within (num r1 * num r2) -> within d -> exists r, ratio_multiply r1 r2 = Done r /\ denotes r (num r1 * num r2) d)
  /\ (within p1 -> within (den r1 * num r2) -> num r2 <> 0 -> exists r, ratio_divide r1 r2 = Done r /\ denotes r p1 (den r1 * num r2))
  /\ (ratio_equal r1 r2 = true <-> p1 = p2)
  /\ (within p1 -> within p2 -> ratio_less r1 r2 = Done (p1 <? p2) /\ ratio_less_equal r1 r2 = Done (p1 <=? p2)
        /\ ratio_greater r1 r2 = Done (p2 <? p1) /\ ratio_greater_equal r1 r2 = Done (p2 <=? p1)).
Proof.
  cbv zeta. assert (Hd : den r1 * den r2 <> 0) by (destruct H1 as [? _], H2 as [? _]; apply Z.neq_mul_0; lia).
  split. { intros HN HD. pose proof (gcd_within N D HN HD). split; [apply gcd_small; [by apply within_i64..|done]|]. intros Hl. apply lcm_ok; [by apply within_i64..|done|done]. }
  split; [intros; by apply make_ratio_denotes|]. split; [|split; [|split; [|split]]].
  - intros Hp1 Hp2 Hdd. unfold ratio_add, ratio_subtract. rewrite !mul64_ok, !bind_Done by done. split; intros Hs; rewrite arith64, bind_Done by (by apply within_i64); by apply make_ratio_denotes.
  - intros Hn Hdd. unfold ratio_multiply. rewrite !mul64_ok, !bind_Done by done. by apply make_ratio_denotes.
  - intros Hn Hdd N2. unfold ratio_divide. rewrite !mul64_ok, !bind_Done by done. apply make_ratio_denotes; [done|done|]. apply Z.neq_mul_0. destruct H1 as [? _]. lia.
  - unfold ratio_equal. rewrite andb_true_iff, !Z.eqb_eq. split; [intros [-> ->]; done|]. intros E. by rewrite (normal_unique r1 r2 H1 H2 E).
  - intros Hp1 Hp2. unfold ratio_less_equal, ratio_greater, ratio_greater_equal, ratio_less. rewrite !mul64_ok, !bind_Done by done. repeat split; f_equal; by rewrite <-?Z.leb_antisym.
Qed.

Lemma ratio_exact_witness : normal (mk_ratio 1 1000) /\ normal (mk_ratio 60 1) /\ exists r, make_ratio 6 (-4) = Done r /\ denotes r 6 (-4).
Proof.
  assert (H1 : normal (mk_ratio 1 1000)) by (repeat split; unfold i64, in_type; cbn; lia). assert (H2 : normal (mk_ratio 60 1)) by (repeat split; unfold i64, in_type; cbn; lia).
  split; [exact H1|]. split; [exact H2|]. apply (proj1 (proj2 (ratio_exact (mk_ratio 1 1000) (mk_ratio 60 1) 6 (-4) H1 H2))); unfold within; lia.
Defined.

(** ** Powers, factorials and Fibonacci numbers *)

Section Powi.
Context (w : Z) (sgn : bool) (Inv : Z -> Z -> Z -> Prop).
Definition times (a b : Z) : exec Z := x ← arith w sgn (a * b); Done (cast w sgn x).
Hypothesis odd_step : forall r f n, 0 <= n -> Z.even n = true -> Inv r f (n + 1) -> exists r', times r f = Done r' /\ Inv r' f n.
Hypothesis even_step : forall r f n, 0 < n -> Inv r f (2 * n) -> exists f', times f f = Done f' /\ Inv r f' n.

Lemma powi_loop k fuel r f n : (k < fuel)%nat -> 0 <= n < 2 ^ Z.of_nat k -> Inv r f n ->
  exists r' f', while_loop (R := Empty_set) fuel (fun '(_, _, remaining) => Done (negb (remaining =? 0)))
     (fun '(result, factor, remaining) =>
        result ← (if negb (Z.land remaining 1 =? 0) then x ← arith w sgn (result * factor); Done (cast w sgn x) else Done result);
        let remaining := Z.shiftr remaining 1 in
        factor ← (if negb (remaining =? 0) then x ← arith w sgn (factor * factor); Done (cast w sgn x) else Done factor);
        Done (Next (result, factor, remaining))) (r, f, n) = Done (Next (r', f', 0)) /\ Inv r' f' 0.
Proof using odd_step even_step.
  revert fuel r f n. induction k as [|k IH]; intros fuel r f n Hf Hn HI; (destruct fuel as [|fuel]; [lia|]); cbn [while_loop].
  - change (2 ^ Z.of_nat 0) with 1 in Hn. assert (n = 0) as -> by lia. by exists r, f.
  - destruct (Z.eqb_spec n 0) as [-> |N]; [by exists r, f|]. cbn [negb].
    assert (El : Z.land n 1 = n mod 2) by (apply (Z.land_ones n 1); lia). assert (Es : Z.shiftr n 1 = n / 2) by (by rewrite Z.shiftr_div_pow2). rewrite Nat2Z.inj_succ, Z.pow_succ_r in Hn by lia.
    assert (H1 : exists r', (if negb (Z.land n 1 =? 0) then times r f else Done r) = Done r' /\ Inv r' f (2 * (n / 2))).
    { rewrite El. destruct (Z.eqb_spec (n mod 2) 0) as [E|E]; cbn [negb]; [exists r; split; [done|]; by replace (2 * (n / 2)) with n by lia|].
      apply odd_step; [lia|by rewrite Z.even_mul|]. by replace (2 * (n / 2) + 1) with n by lia. }
    destruct H1 as (r' & E1 & H1). fold (times r f) (times f f). rewrite E1, bind_Done, Es. cbv zeta. destruct (Z.eqb_spec (n / 2) 0) as [E0|N2]; cbn [negb].
    + rewrite bind_Done, E0. rewrite E0 in H1. apply IH; [lia|lia|done].
    + destruct (even_step r' f (n / 2)) as (f' & E2 & H2); [lia|done|]. rewrite E2, bind_Done. apply IH; [lia|lia|done].
Qed.

Lemma powi_from base e : 0 <= e < 2 ^ 32 -> Inv 1 base e -> exists r f, powi w sgn base e = Done r /\ Inv r f 0.
Proof using odd_step even_step.
  intros He HI. destruct (powi_loop 32 33 1 base e ltac:(lia) He HI) as (r & f & E & H). exists r, f. split; [|done]. unfold powi. cbv zeta in E |- *. rewrite E. done.
Qed.
End Powi.

(** Products of the type: exact where they fit, and modulo the width for the unsigned types whose products fit [int] or that are not promoted. *)
Lemma times_exact w sgn a b : width_ok w -> in_type w sgn (a * b) -> times w sgn a b = Done (a * b).
Proof. intros Hw H. by apply arith_cast. Qed.

Lemma times_wraps w a b : width_ok w -> w <> 16 -> 0 <= a < 2 ^ w -> 0 <= b < 2 ^ w -> times w false a b = Done ((a * b) mod 2 ^ w).
Proof.
  intros Hw N Ha Hb. unfold times, arith. destruct (Z.ltb_spec w 32) as [Hn|Hn].
  - assert (w = 8) as -> by (destruct Hw as [-> |[-> |[-> | ->]]]; lia). rewrite (proj2 (representable_iff 32 true (a * b))), bind_Done by (unfold type_min, type_max; nia). done.
  - rewrite bind_Done. f_equal. apply (uns_idem w Hw).
Qed.

Lemma powi_wraps w base e : width_ok w -> w <> 16 -> 0 <= base < 2 ^ w -> 0 <= e < 2 ^ 32 -> powi w false base e = Done (base ^ e mod 2 ^ w).
Proof.
  intros Hw N Hb He. assert (Hp : 0 < 2 ^ w) by lia. assert (Hp1 : 1 < 2 ^ w) by (destruct Hw as [-> |[-> |[-> | ->]]]; lia).
  destruct (powi_from w false (fun r f n => 0 <= n /\ 0 <= r < 2 ^ w /\ 0 <= f < 2 ^ w /\ (r * f ^ n) mod 2 ^ w = base ^ e mod 2 ^ w)) with (base := base) (e := e) as (r & f & E & _ & Hr & _ & Em).
  - intros r f n Hn _ (_ & Hr & Hf & Em). exists ((r * f) mod 2 ^ w). split; [by apply times_wraps|]. split; [done|]. split; [by apply Z.mod_pos_bound|]. split; [done|].
    rewrite <-Em, Z.mul_mod_idemp_l, Z.pow_add_r, Z.pow_1_r by lia. f_equal. lia.
  - intros r f n Hn (_ & Hr & Hf & Em). exists ((f * f) mod 2 ^ w). split; [by apply times_wraps|]. split; [lia|]. split; [done|]. split; [by apply Z.mod_pos_bound|].
    rewrite <-Em, Z.pow_mul_r, Z.pow_2_r by lia. rewrite <-Z.mul_mod_idemp_r by lia. rewrite <-(Z.mul_mod_idemp_r r ((f * f) ^ n)) by lia. do 2 f_equal. by rewrite Z.mod_pow_l.
  - done.
  - split; [lia|]. split; [lia|]. split; [done|]. by rewrite Z.mul_1_l.
  - rewrite E. f_equal. rewrite <-Em, Z.pow_0_r, Z.mul_1_r. symmetry. by apply Z.mod_small.
Qed.

Lemma powi_exact w sgn base e : width_ok w -> in_type w sgn base -> 0 <= e < 2 ^ 32 -> Z.abs base ^ e <= type_max w sgn -> powi w sgn base e = Done (base ^ e).
Proof.
  intros Hw Hb He Hfit. destruct (type_range w sgn Hw) as (H0 & Hs & Hu).
  assert (In : forall z, Z.abs z <= type_max w sgn -> (sgn = false -> 0 <= z) -> in_type w sgn z).
  { intros z Hz Hz'. apply in_type_bounds; [done|]. destruct sgn; [specialize (Hs eq_refl)|specialize (Hu eq_refl); specialize (Hz' eq_refl)]; lia. }
  destruct (powi_from w sgn (fun r f n => 0 <= n /\ (sgn = false -> 0 <= r /\ 0 <= f) /\ (f <> 0 -> r <> 0) /\ r * f ^ n = base ^ e /\ Z.abs r * Z.abs f ^ n <= type_max w sgn)) with (base := base) (e := e) as (r & f & E & _ & _ & _ & Em & _).
  - intros r f n Hn _ (_ & Hpos & Hnz & Em & Hm). exists (r * f). rewrite Z.pow_add_r, Z.pow_1_r in Em, Hm by lia. split.
    + apply times_exact; [done|]. apply In; [|intros Es; destruct (Hpos Es); nia]. destruct (Z.eq_dec f 0) as [-> |Nf]; [lia|]. assert (1 <= Z.abs f ^ n) by (assert (0 < Z.abs f ^ n) by (apply Z.pow_pos_nonneg; lia); lia). rewrite Z.abs_mul. nia.
    + split; [done|]. split; [intros Es; destruct (Hpos Es); nia|]. split; [intros Nf; specialize (Hnz Nf); nia|]. split; [lia|]. rewrite Z.abs_mul. lia.
  - intros r f n Hn (_ & Hpos & Hnz & Em & Hm). exists (f * f). rewrite Z.pow_mul_r, Z.pow_2_r in Em, Hm by lia. split.
    + apply times_exact; [done|]. apply In; [|nia]. destruct (Z.eq_dec f 0) as [-> |Nf]; [lia|]. specialize (Hnz Nf).
      assert (Z.abs f * Z.abs f <= (Z.abs f * Z.abs f) ^ n) by (rewrite <-(Z.pow_1_r (Z.abs f * Z.abs f)) at 1; apply Z.pow_le_mono_r; nia). rewrite Z.abs_mul. nia.
    + split; [lia|]. split; [intros Es; destruct (Hpos Es); nia|]. split; [intros Nf; apply Hnz; nia|]. split; [done|]. by rewrite Z.abs_mul.
  - done.
  - split; [lia|]. split; [intros ->; unfold in_type in Hb; lia|]. split; [lia|]. split; [lia|]. by rewrite Z.mul_1_l.
  - rewrite E. f_equal. by rewrite <-Em, Z.pow_0_r, Z.mul_1_r.
Qed.

(** The loops from 2 to [n]: [g j] is the state after the pass with index [j]. *)
Lemma upto_loop {S} (cond : S * Z -> exec bool) (body : S * Z -> exec (ctl Empty_set (S * Z))) (g : Z -> S) n fuel i :
  (forall s j, cond (s, j) = Done (j <=? n)) -> (forall j, 2 <= j <= n -> body (g (j - 1), j) = Done (Next (g j, to_u64 (j + 1)))) ->
  2 <= i <= n + 1 -> n < 2 ^ 64 - 1 -> (Z.to_nat (n + 1 - i) < fuel)%nat -> while_loop fuel cond body (g (i - 1), i) = Done (Next (g n, n + 1)).
Proof.
  intros Hc Hg Hi Hn Hf. remember (Z.to_nat (n + 1 - i)) as m eqn:Em. revert fuel i Hi Hf Em. induction m as [|m IH]; intros fuel i Hi Hf Em; (destruct fuel as [|fuel]; [lia|]); cbn [while_loop]; rewrite Hc.
  - assert (i = n + 1) as -> by lia. rewrite (proj2 (Z.leb_gt (n + 1) n)) by lia. by replace (n + 1 - 1) with n by lia.
  - rewrite (proj2 (Z.leb_le i n)), Hg by lia. rewrite (wrap_small 64 (i + 1)) by (unfold in_width; lia). replace (g i) with (g (i + 1 - 1)) by (f_equal; lia). apply IH; lia.
Qed.

Fixpoint fact_spec (n : nat) : Z := match n with O => 1 | S m => Z.of_nat n * fact_spec m end.
Fixpoint fib_spec (n : nat) : Z := match n with O => 0 | S m => match m with O => 1 | S k => fib_spec m + fib_spec k end end.

Lemma factorial_ok n : 0 <= n < 2 ^ 64 - 1 -> factorial_v n = Done (to_u64 (fact_spec (Z.to_nat n))).
Proof.
  intros Hn. unfold factorial_v, factorial_loop. destruct (Z.le_gt_cases n 0) as [H0|H0]; [assert (n = 0) as -> by lia; done|].
  pose proof (fun c b => upto_loop c b (fun i => to_u64 (fact_spec (Z.to_nat i))) n (S (Z.to_nat n)) 2) as E. change (to_u64 (fact_spec (Z.to_nat (2 - 1)))) with 1 in E.
  rewrite E; [done|done| |lia|lia|lia]. intros j Hj. cbn beta iota. do 3 f_equal. unfold wrap. rewrite Z.mul_mod_idemp_l by done.
  replace (Z.to_nat j) with (S (Z.to_nat (j - 1))) by lia. cbn [fact_spec]. f_equal. rewrite Z.mul_comm. f_equal. lia.
Qed.

Lemma fib_ok n : 0 <= n < 2 ^ 64 - 1 -> fib n = Done (to_u64 (fib_spec (Z.to_nat n))).
Proof.
  intros Hn. unfold fib, fib_loop. destruct (Z.eqb_spec n 0) as [-> |N0]; [done|]. destruct (Z.eqb_spec n 1) as [-> |N1]; [done|].
  pose proof (fun c b => upto_loop c b (fun i => (to_u64 (fib_spec (Z.to_nat (i - 1))), to_u64 (fib_spec (Z.to_nat i)))) n (S (Z.to_nat n)) 2) as E.
  change (to_u64 (fib_spec (Z.to_nat (2 - 1 - 1))), to_u64 (fib_spec (Z.to_nat (2 - 1)))) with (0, 1) in E.
  rewrite E; [done|by intros [? ?]| |lia|lia|lia]. intros j Hj. cbn beta iota zeta. do 2 f_equal. f_equal. f_equal. unfold wrap. rewrite <-Z.add_mod by done.
  replace (Z.to_nat j) with (S (S (Z.to_nat (j - 1 - 1)))) by lia. replace (Z.to_nat (j - 1)) with (S (Z.to_nat (j - 1 - 1))) by lia. cbn [fib_spec]. f_equal. lia.
Qed.

(** For the greatest [size_type] the index wraps before it passes the bound, and the loops never end. *)
Lemma upto_max_diverges {S} (cond : S * Z -> exec bool) (body : S * Z -> exec (ctl Empty_set (S * Z))) fuel s i :
  (forall s j, cond (s, j) = Done (j <=? 2 ^ 64 - 1)) -> (forall s j, exists s', body (s, j) = Done (Next (s', to_u64 (j + 1)))) -> i <= 2 ^ 64 - 1 -> while_loop fuel cond body (s, i) = Undefined.
Proof.
  intros Hc Hb. revert s i. induction fuel as [|fuel IH]; intros s i Hi; [done|]. cbn [while_loop]. rewrite Hc, (proj2 (Z.leb_le i _) Hi). destruct (Hb s i) as (s' & ->).
  apply IH. unfold wrap. pose proof (Z.mod_pos_bound (i + 1) (2 ^ 64)). lia.
Qed.

(**  [powi], [factorial_v] and [fib]: repeated squaring ends and gives the power, exactly
    where it fits the type and modulo its size at the unsigned types whose products are not computed in a
    signed type that they overflow; the factorial and the Fibonacci number are exact modulo [2 ^ 64] for every argument but the greatest, at
    which neither loop ever ends, however many passes it is given. *)
Theorem int_powers_exact w sgn base e n (Hw : width_ok w) (Hb : in_type w sgn base) (He : 0 <= e < 2 ^ 32) (Hn : 0 <= n < 2 ^ 64 - 1) :
  (Z.abs base ^ e <= type_max w sgn -> powi w sgn base e = Done (base ^ e))
  /\ (sgn = false -> w <> 16 -> powi w sgn base e = Done (base ^ e mod 2 ^ w))
  /\ factorial_v n = Done (to_u64 (fact_spec (Z.to_nat n)))
  /\ fib n = Done (to_u64 (fib_spec (Z.to_nat n)))
  /\ forall fuel, factorial_loop fuel (2 ^ 64 - 1) = Undefined /\ fib_loop fuel (2 ^ 64 - 1) = Undefined.
Proof.
  split; [by apply powi_exact|]. split; [intros -> N; by apply powi_wraps|]. split; [by apply factorial_ok|]. split; [by apply fib_ok|]. intros fuel. split.
  - unfold factorial_loop. rewrite upto_max_diverges; [done|done| |lia]. intros s j. by eexists.
  - unfold fib_loop. rewrite (proj2 (Z.eqb_neq (2 ^ 64 - 1) 0)), (proj2 (Z.eqb_neq (2 ^ 64 - 1) 1)) by lia. rewrite upto_max_diverges; [done|by intros [? ?]| |lia]. intros [a b] j. by eexists.
Qed.

Lemma int_powers_exact_witness : width_ok 32 /\ in_type 32 true (-3) /\ 0 <= 5 < 2 ^ 32 /\ 0 <= 20 < 2 ^ 64 - 1 /\ powi 32 true (-3) 5 = Done (-243) /\ fib 20 = Done 6765.
Proof.
  assert (Hw : width_ok 32) by (right; right; left; reflexivity). assert (Hb : in_type 32 true (-3)) by (unfold in_type; lia). assert (He : 0 <= 5 < 2 ^ 32) by lia. assert (Hn : 0 <= 20 < 2 ^ 64 - 1) by lia.
  do 4 (split; [assumption|]). destruct (int_powers_exact 32 true (-3) 5 20 Hw Hb He Hn) as (E & _ & _ & F & _). split; [apply E; vm_compute; discriminate|exact F].
Defined.
