(* ===== verification/StringView.v ===== *)
(** * String views (castle/container/string_view.hpp)

    A view of single-byte characters is the list of its characters; the memory it points to is
    that of its owner.  [memchr] and [memcmp] of the standard library are specified by their
    results ([memcmp] by the sign of its result), and every access of the code is a [load]. *)

From S2P Require Import Prelude Bytes Words.
Open Scope Z_scope.

(** ** The code *)

(** [memchr(p + from, value, count)] as an index into the view. *)
Definition memchr (v : list Z) (from count : nat) (value : Z) : option nat :=
  (fun p => (from + p.1)%nat) <$> list_find (fun c => c = value) (take count (drop from v)).
(** The sign of [memcmp] of two byte strings of one length: the first difference decides. *)
Fixpoint memcmp (a b : list Z) : Z :=
  match a, b with
  | x :: a, y :: b => if x =? y then memcmp a b else if x <? y then -1 else 1
  | _, _ => 0
  end.

(** [npos] is [None], as an index and as a count. *)
Definition substr (v : list Z) (offset : nat) (count : option nat) : list Z :=
  if (length v <? offset)%nat then []
  else
    let available := (length v - offset)%nat in
    let count := match count with Some c => if (available <? c)%nat then available else c | None => available end in
    take count (drop offset v).

Definition find (v : list Z) (value : Z) (offset : nat) : option nat :=
  if (length v <=? offset)%nat then None else memchr v offset (length v - offset) value.

Definition find_view (v value : list Z) (offset : nat) : exec (option nat) :=
  if (length value =? 0)%nat then Done (if (offset <=? length v)%nat then Some offset else None)
  else if (length v <? length value)%nat || (length v - length value <? offset)%nat then Done None
  else
    let last_start := (length v - length value)%nat in
    after (while_loop (S (S (last_start - offset))) (fun i => Done (i <=? last_start)%nat)
      (fun i =>
         first ← load value 0;
         match memchr v i (last_start - i + 1) first with
         | None => Done (Return None)
         | Some i => if memcmp (take (length value) (drop i v)) value =? 0 then Done (Return (Some i)) else Done (Next (i + 1)%nat)
         end) offset)
      (fun _ => Done None).

Definition compare (v other : list Z) : Z :=
  let common := if (length v <? length other)%nat then length v else length other in
  let result := memcmp (take common v) (take common other) in
  if negb (result =? 0) then result
  else if (length v <? length other)%nat then -1
  else if (length other <? length v)%nat then 1
  else 0.
Definition starts_with (v prefix : list Z) : bool := (length prefix <=? length v)%nat && (compare (substr v 0 (Some (length prefix))) prefix =? 0).
Definition ends_with (v suffix : list Z) : bool := (length suffix <=? length v)%nat && (compare (substr v (length v - length suffix) (Some (length suffix))) suffix =? 0).
Definition view_eq (lhs rhs : list Z) : bool := compare lhs rhs =? 0.
Definition view_lt (lhs rhs : list Z) : bool := compare lhs rhs <? 0.

(** ** What they compute *)

Lemma substr_ok v offset count : substr v offset count = match count with Some c => take c (drop offset v) | None => drop offset v end.
Proof.
  unfold substr. destruct (Nat.ltb_spec (length v) offset) as [Hgt|Hle].
  - rewrite drop_ge by lia. by destruct count; rewrite ?take_nil.
  - destruct count as [c|]; [|by rewrite take_ge by (rewrite length_drop; lia)].
    destruct (Nat.ltb_spec (length v - offset) c); [|done]. rewrite !take_ge by (rewrite length_drop; lia). done.
Qed.

(** [find] is the first place from the offset on. *)
Definition first_index (P : nat -> Prop) (from : nat) (r : option nat) : Prop :=
  match r with
  | Some i => (from <= i)%nat /\ P i /\ forall j, (from <= j < i)%nat -> ~ P j
  | None => forall j, (from <= j)%nat -> ~ P j
  end.

Lemma memchr_first v from count value : first_index (fun i => v !! i = Some value /\ (i < from + count)%nat) from (memchr v from count value).
Proof.
  unfold memchr. destruct (list_find _ _) as [[i x]|] eqn:E; cbn [fmap option_fmap option_map first_index fst].
  - apply list_find_Some in E as (Hi & -> & Hfirst). apply lookup_take_Some in Hi as [Hi Hlt]. rewrite lookup_drop in Hi. split; [lia|]. split; [split; [done|lia]|].
    intros j Hj [Hx _]. destruct (Hfirst (j - from)%nat value) as []; [|lia|done]. rewrite lookup_take_lt, lookup_drop by lia. by replace (from + (j - from))%nat with j by lia.
  - apply list_find_None in E. intros j Hj [Hx Hlt]. rewrite Forall_lookup in E. apply (E (j - from)%nat value); [|done].
    rewrite lookup_take_lt, lookup_drop by lia. by replace (from + (j - from))%nat with j by lia.
Qed.

Lemma find_first_index v value offset : first_index (fun i => v !! i = Some value) offset (find v value offset).
Proof.
  unfold find. destruct (Nat.leb_spec (length v) offset) as [Hle|Hgt].
  - intros j Hj H. apply lookup_lt_Some in H. lia.
  - pose proof (memchr_first v offset (length v - offset) value) as H. destruct (memchr v offset _ value) as [i|]; cbn [first_index] in *.
    + destruct H as (H1 & [H2 H3] & H4). split; [done|]. split; [done|]. intros j Hj Hx. apply (H4 j Hj). split; [done|lia].
    + intros j Hj Hx. apply (H j Hj). split; [done|]. apply lookup_lt_Some in Hx. lia.
Qed.

(** *** Splitting at a separator *)

(** [find] splits the rest of a text at the first separator. *)
Lemma find_split l sep i : match find l sep i with Some e => (i <= e)%nat /\ drop i l = take (e - i) (drop i l) ++ sep :: drop (e + 1) l /\ sep ∉ take (e - i) (drop i l) | None => sep ∉ drop i l end.
Proof.
  pose proof (find_first_index l sep i) as H. destruct (find l sep i) as [e|]; cbn [first_index] in H.
  - destruct H as (Hle & He & Hbefore). split; [done|]. split.
    + rewrite <-(take_drop (e - i) (drop i l)) at 1. f_equal. rewrite drop_drop. replace (i + (e - i))%nat with e by lia. by rewrite (drop_S _ _ _ He), Nat.add_1_r.
    + intros (j & Hj)%list_elem_of_lookup. apply lookup_take_Some in Hj as [Hj Hlt]. rewrite lookup_drop in Hj. by apply (Hbefore (i + j)%nat); [lia|].
  - intros (j & Hj)%list_elem_of_lookup. rewrite lookup_drop in Hj. apply (H (i + j)%nat); [lia|done].
Qed.

Lemma app_sep_inj (a b r s : list Z) sep : sep ∉ a -> sep ∉ b -> a ++ sep :: r = b ++ sep :: s -> a = b /\ r = s.
Proof.
  revert b. induction a as [|x a IH]; intros [|y b] Ha Hb E; cbn in E.
  - by injection E as ->.
  - injection E as -> _. exfalso. apply Hb. left.
  - injection E as -> _. exfalso. apply Ha. left.
  - injection E as -> E. apply not_elem_of_cons in Ha as [_ Ha]. apply not_elem_of_cons in Hb as [_ Hb]. destruct (IH b Ha Hb E) as [-> ->]. done.
Qed.

(** The pieces of a text between separators. *)
Fixpoint pieces (sep : Z) (l : list Z) : list (list Z) :=
  match l with
  | [] => [[]]
  | c :: r => if c =? sep then [] :: pieces sep r else match pieces sep r with p :: ps => (c :: p) :: ps | [] => [[c]] end
  end.

Lemma pieces_split sep a r : sep ∉ a -> pieces sep (a ++ sep :: r) = a :: pieces sep r.
Proof.
  induction a as [|c a IH]; intros H; cbn [app pieces]; [by rewrite Z.eqb_refl|]. apply not_elem_of_cons in H as [N H]. rewrite (proj2 (Z.eqb_neq c sep)) by done. by rewrite IH.
Qed.

Lemma pieces_last sep a : sep ∉ a -> pieces sep a = [a].
Proof.
  induction a as [|c a IH]; intros H; [done|]. apply not_elem_of_cons in H as [N H]. cbn [pieces]. rewrite (proj2 (Z.eqb_neq c sep)) by done. by rewrite IH.
Qed.

(** *** Comparing *)

Lemma view_memcmp_0 a b : length a = length b -> memcmp a b = 0 <-> a = b.
Proof.
  revert b. induction a as [|x a IH]; intros [|y b] Hl; try discriminate Hl; [done|]. cbn [memcmp]. injection Hl as Hl. destruct (Z.eqb_spec x y) as [-> |N].
  - rewrite IH by done. split; [by intros ->|by intros [= ->]].
  - destruct (x <? y); split; congruence.
Qed.

Lemma memcmp_sign a b : memcmp a b = -1 \/ memcmp a b = 0 \/ memcmp a b = 1.
Proof. revert b. induction a as [|x a IH]; intros [|y b]; cbn [memcmp]; auto. destruct (x =? y); [apply IH|]. destruct (x <? y); auto. Qed.

(** The lexicographic order of the characters. *)
Inductive lex : list Z -> list Z -> Prop :=
| lex_nil y b : lex [] (y :: b)
| lex_head x y a b : x < y -> lex (x :: a) (y :: b)
| lex_tail x a b : lex a b -> lex (x :: a) (x :: b).

Lemma lex_asym a b : lex a b -> ~ lex b a.
Proof. induction 1; intros H'; inversion H'; subst; (lia || contradiction). Qed.

Lemma compare_cons x y a b : compare (x :: a) (y :: b) = if x =? y then compare a b else if x <? y then -1 else 1.
Proof.
  unfold compare. cbn [length]. change (S (length a) <? S (length b))%nat with (length a <? length b)%nat. change (S (length b) <? S (length a))%nat with (length b <? length a)%nat.
  assert (E : (if (length a <? length b)%nat then S (length a) else S (length b)) = S (if (length a <? length b)%nat then length a else length b)) by (by destruct (length a <? length b)%nat).
  rewrite E. cbn [take firstn memcmp]. destruct (x =? y); [done|]. by destruct (x <? y).
Qed.

Lemma view_compare_ok a b : compare a b = if decide (a = b) then 0 else if (compare a b <? 0) then -1 else 1.
Proof.
  revert b. induction a as [|x a IH]; intros [|y b]; [done|done|done|]. rewrite compare_cons. destruct (Z.eqb_spec x y) as [-> |N].
  - rewrite IH. destruct (decide (a = b)) as [-> |Nab]; [by rewrite decide_True|]. rewrite decide_False by congruence. by destruct (compare a b <? 0).
  - rewrite decide_False by congruence. by destruct (x <? y).
Qed.

Lemma compare_lex a b : compare a b < 0 <-> lex a b.
Proof.
  revert b. induction a as [|x a IH]; intros [|y b].
  - split; [done|inversion 1].
  - split; [constructor|done].
  - split; [done|inversion 1].
  - rewrite compare_cons. destruct (Z.eqb_spec x y) as [-> |N]; [rewrite IH; split; [by constructor|inversion 1; subst; (lia || done)]|].
    destruct (Z.ltb_spec x y); split; try done; [by intros _; constructor|inversion 1; subst; lia].
Qed.

Lemma view_eq_ok a b : view_eq a b = bool_decide (a = b).
Proof.
  unfold view_eq. rewrite view_compare_ok. destruct (decide (a = b)) as [-> |N]; [by rewrite bool_decide_eq_true_2|]. rewrite bool_decide_eq_false_2 by done. by destruct (compare a b <? 0).
Qed.

(** The matches of a text that is not empty. *)
Definition occurs (v value : list Z) (i : nat) : Prop := take (length value) (drop i v) = value.

Lemma occurs_head v c value i : occurs v (c :: value) i -> v !! i = Some c /\ (i <= length v - length (c :: value))%nat.
Proof.
  unfold occurs. intros H. pose proof (f_equal length H) as Hl. rewrite length_take, length_drop in Hl. cbn [length] in *. split; [|lia].
  apply (f_equal (fun l => l !! 0%nat)) in H. rewrite lookup_take_lt, lookup_drop, Nat.add_0_r in H by lia. done.
Qed.

Lemma find_view_loop v c value offset last fuel i : (last + length (c :: value) = length v)%nat -> (last + 1 < i + fuel)%nat -> (0 < fuel)%nat -> (offset <= i)%nat ->
  (forall j, (offset <= j < i)%nat -> ~ occurs v (c :: value) j) ->
  exists r, after (while_loop fuel (fun i => Done (i <=? last)%nat)
      (fun i =>
         first ← load (c :: value) 0;
         match memchr v i (last - i + 1) first with
         | None => Done (Return None)
         | Some i => if memcmp (take (length (c :: value)) (drop i v)) (c :: value) =? 0 then Done (Return (Some i)) else Done (Next (i + 1)%nat)
         end) i) (fun _ => Done None) = Done r /\ first_index (fun i => (i <= length v)%nat /\ occurs v (c :: value) i) offset r.
Proof.
  intros Hlast. revert i. induction fuel as [|fuel IH]; intros i Hf Hf0 Hi Hno; [lia|]. cbn [while_loop].
  assert (Hup : forall j, occurs v (c :: value) j -> v !! j = Some c /\ (j <= last)%nat) by (intros j H; apply occurs_head in H as [? ?]; split; [done|cbn [length] in *; lia]).
  destruct (Nat.leb_spec i last) as [Hle|Hgt].
  2:{ exists None. split; [done|]. intros j Hj [_ Ho]. destruct (Hup j Ho). destruct (Nat.lt_ge_cases j i); [by apply (Hno j)|lia]. }
  change (load (c :: value) 0) with (Done c). rewrite bind_Done. pose proof (memchr_first v i (last - i + 1) c) as Hm. destruct (memchr v i _ c) as [k|]; cbn [first_index] in Hm.
  2:{ exists None. split; [done|]. intros j Hj [_ Ho]. destruct (Hup j Ho). destruct (Nat.lt_ge_cases j i); [by apply (Hno j)|]. apply (Hm j); [done|]. split; [done|lia]. }
  destruct Hm as (Hik & [Hk Hkl] & Hbefore). assert (Hl : length (take (length (c :: value)) (drop k v)) = length (c :: value)) by (rewrite length_take, length_drop; lia).
  assert (Hno' : forall j, (offset <= j < k)%nat -> ~ occurs v (c :: value) j).
  { intros j Hj Ho. destruct (Nat.lt_ge_cases j i); [apply (Hno j); [lia|done]|]. destruct (Hup j Ho). apply (Hbefore j); [lia|]. split; [done|lia]. }
  destruct (Z.eqb_spec (memcmp (take (length (c :: value)) (drop k v)) (c :: value)) 0) as [E|N].
  - apply view_memcmp_0 in E; [|done]. exists (Some k). split; [done|]. split; [lia|]. split; [split; [lia|done]|]. intros j Hj [_ Ho]. by apply (Hno' j).
  - apply IH; [lia|lia|lia|]. intros j Hj Ho. destruct (decide (j = k)) as [-> |]; [|by apply (Hno' j); [lia|]].
    apply N, view_memcmp_0; [done|exact Ho].
Qed.

Lemma find_view_ok v value offset : exists r, find_view v value offset = Done r /\ first_index (fun i => (i <= length v)%nat /\ occurs v value i) offset r.
Proof.
  unfold find_view. destruct value as [|c value].
  { cbn [Nat.eqb length]. eexists. split; [done|]. destruct (Nat.leb_spec offset (length v)); cbn [first_index]; [split; [lia|]; split; [done|]; lia|]. intros j Hj [Hv _]. lia. }
  change (length (c :: value) =? 0)%nat with false. cbv iota. destruct ((length v <? length (c :: value))%nat || (length v - length (c :: value) <? offset)%nat) eqn:Eg.
  { eexists. split; [done|]. intros j Hj [_ Ho]. unfold occurs in Ho. apply (f_equal length) in Ho. rewrite length_take, length_drop in Ho. assert (0 < length (c :: value))%nat by (cbn; lia).
    revert Ho Eg H. generalize (length (c :: value)). intros len Ho Eg H. apply orb_true_iff in Eg as [E%Nat.ltb_lt|E%Nat.ltb_lt]; lia. }
  apply orb_false_iff in Eg as [E1%Nat.ltb_ge E2%Nat.ltb_ge]. apply find_view_loop; lia.
Qed.

Lemma substr_compare v n t : (n + length t <= length v)%nat -> (compare (substr v n (Some (length t))) t =? 0) = bool_decide (take (length t) (drop n v) = t).
Proof. intros H. rewrite substr_ok. apply view_eq_ok. Qed.

(**  The operations of a view, for every text and every argument: [substr] is the part of the
    text within the bounds, [find] the first place of a character or of a text from the offset on ([npos] if
    there is none, and the search ends), [compare] the lexicographic order of the
    characters with equality exactly for equal texts, and the prefix and suffix tests what they say. *)
Theorem string_view_exact v other value offset count :
  substr v offset count = match count with Some c => take c (drop offset v) | None => drop offset v end
  /\ first_index (fun i => v !! i = Some value) offset (find v value offset)
  /\ (exists r, find_view v other offset = Done r /\ first_index (fun i => (i <= length v)%nat /\ occurs v other i) offset r)
  /\ (view_eq v other = true <-> v = other)
  /\ (view_lt v other = true <-> lex v other)
  /\ (starts_with v other = true <-> exists rest, v = other ++ rest)
  /\ (ends_with v other = true <-> exists first, v = first ++ other).
Proof.
  split; [apply substr_ok|]. split; [apply find_first_index|]. split; [apply find_view_ok|]. split; [rewrite view_eq_ok; apply bool_decide_eq_true|].
  split; [unfold view_lt; rewrite Z.ltb_lt; apply compare_lex|]. split.
  - unfold starts_with. rewrite andb_true_iff, Nat.leb_le. split.
    + intros [Hl H]. rewrite substr_compare, bool_decide_eq_true, drop_0 in H by lia. exists (drop (length other) v). by rewrite <-H at 1; rewrite take_drop.
    + intros [rest ->]. rewrite length_app. split; [lia|]. rewrite substr_compare, drop_0, take_app_length by (rewrite length_app; lia). by apply bool_decide_eq_true.
  - unfold ends_with. rewrite andb_true_iff, Nat.leb_le. split.
    + intros [Hl H]. rewrite substr_compare, bool_decide_eq_true in H by lia. exists (take (length v - length other) v). rewrite take_ge in H by (rewrite length_drop; lia). by rewrite <-H at 2; rewrite take_drop.
    + intros [first ->]. rewrite length_app. split; [lia|]. rewrite substr_compare by (rewrite length_app; lia). rewrite Nat.add_sub, drop_app_length, take_ge by lia. by apply bool_decide_eq_true.
Qed.
