(* ===== verification/Http1Text.v ===== *)
(** * Text helpers of HTTP/1 (castle_ext/protocols/http/http1.hpp, types.hpp)

    Trimming, field lines, numbers, comma-separated lists and tokens, with their meaning on
    lists of characters. *)

From S2P Require Import Prelude Status Bytes Words StringView HttpHeaders.
Open Scope Z_scope.

(** ** The code *)

Definition is_ows (c : Z) : bool := (c =? 32) || (c =? 9).

Definition trim_ows (value : list Z) : exec (list Z) :=
  first ← settled (while_loop (S (length value)) (fun first => if (first <? length value)%nat then c ← load value first; Done (is_ows c) else Done false) (fun first => Done (Next (first + 1)%nat)) 0%nat);
  last ← settled (while_loop (S (length value)) (fun last => if (first <? last)%nat then c ← load value (last - 1); Done (is_ows c) else Done false) (fun last => Done (Next (last - 1)%nat)) (length value));
  Done (substr value first (Some (last - first)%nat)).

Definition is_token (value : list Z) : exec bool :=
  if (length value =? 0)%nat then Done false
  else after (for_range 0 (length value) (fun i _ => c ← load value i; if negb (token_char c) then Done (Return false) else Done (Next tt)) tt) (fun _ => Done true).
Definition is_visible_text (value : list Z) : exec bool :=
  if (length value =? 0)%nat then Done false
  else after (for_range 0 (length value) (fun i _ => c ← load value i; if (c <=? 32) || (c =? 127) then Done (Return false) else Done (Next tt)) tt) (fun _ => Done true).

Definition split_field (line : list Z) : exec (option (list Z * list Z)) :=
  match find line 58 0 with
  | None => Done None
  | Some colon =>
      t ← is_token (substr line 0 (Some colon));
      if negb t then Done None
      else value ← trim_ows (substr line (colon + 1) None); Done (Some (substr line 0 (Some colon), value))
  end.

Definition hex_digit (c : Z) : Z :=
  if (48 <=? c) && (c <=? 57) then c - 48 else if (97 <=? c) && (c <=? 102) then c - 97 + 10 else if (65 <=? c) && (c <=? 70) then c - 65 + 10 else 255.
(** [None]: the function returns false and leaves its result argument alone. *)
Definition parse_hex (value : list Z) : exec (option Z) :=
  if (length value =? 0)%nat then Done None
  else after (for_range 0 (length value) (fun i result =>
         c ← load value i;
         let digit := hex_digit c in
         if (15 <? digit) || ((2 ^ 64 - 1 - digit) / 16 <? result) then Done (Return None) else Done (Next (to_u64 (result * 16 + digit)))) 0)
       (fun result => Done (Some result)).
Definition parse_decimal (value : list Z) : exec (option Z) :=
  if (length value =? 0)%nat then Done None
  else after (for_range 0 (length value) (fun i result =>
         c ← load value i;
         if (c <? 48) || (57 <? c) then Done (Return None)
         else
           let digit := c - 48 in
           if (2 ^ 64 - 1 - digit) / 10 <? result then Done (Return None) else Done (Next (to_u64 (result * 10 + digit)))) 0)
       (fun result => Done (Some result)).

Definition contains_token (list token : list Z) : exec bool :=
  after (while_loop (S (length list)) (fun offset => Done (offset <? length list)%nat)
    (fun offset =>
       let end_ := match find list 44 offset with Some e => e | None => length list end in
       t ← trim_ows (substr list offset (Some (end_ - offset)%nat));
       e ← ascii_iequal t token;
       if e : bool then Done (Return true) else Done (Next (end_ + 1)%nat)) 0%nat)
    (fun _ => Done false).

(** ** What they mean *)

Fixpoint lstrip (l : list Z) : list Z := match l with c :: r => if is_ows c then lstrip r else l | [] => [] end.
Definition strip (l : list Z) : list Z := reverse (lstrip (reverse (lstrip l))).

Definition token (l : list Z) : bool := negb (length l =? 0)%nat && forallb token_char l.
Definition visible_char (c : Z) : bool := (33 <=? c) && negb (c =? 127).
Definition visible (l : list Z) : bool := negb (length l =? 0)%nat && forallb visible_char l.

(** The number that digits denote, below the limit of 64 bits. *)
Definition digits_value (base : Z) (dv : Z -> Z) (l : list Z) : Z := fold_left (fun acc c => acc * base + dv c) l 0.
Definition number (base : Z) (dv : Z -> Z) (l : list Z) : option Z :=
  if negb (length l =? 0)%nat && forallb (fun c => (0 <=? dv c) && (dv c <? base)) l && (digits_value base dv l <? 2 ^ 64) then Some (digits_value base dv l) else None.
Definition decimal : list Z -> option Z := number 10 (fun c => c - 48).
Definition hexadecimal : list Z -> option Z := number 16 hex_digit.

Definition lists_token (l token : list Z) : bool := existsb (fun p => same_text (strip p) token) (pieces 44 l).

(** The name before the first colon, the value behind it without surrounding blanks. *)
Definition field_line (l : list Z) (f : list Z * list Z) : Prop :=
  exists rest, l = f.1 ++ 58 :: rest /\ 58 ∉ f.1 /\ token f.1 = true /\ f.2 = strip rest.

(** *** Proofs *)

Lemma front_loop_ok value fuel i : (i <= length value)%nat -> (length value - i < fuel)%nat ->
  exists n, while_loop (R := Empty_set) fuel (fun first => if (first <? length value)%nat then c ← load value first; Done (is_ows c) else Done false) (fun first => Done (Next (first + 1)%nat)) i
    = Done (Next n) /\ (i <= n <= length value)%nat /\ drop n value = lstrip (drop i value).
Proof.
  revert i. induction fuel as [|fuel IH]; intros i Hi Hf; [lia|]. cbn [while_loop]. destruct (Nat.ltb_spec i (length value)) as [Hlt|Hge].
  2:{ exists i. split; [done|]. split; [lia|]. by rewrite drop_ge by lia. }
  destruct (lookup_lt_is_Some_2 value i Hlt) as [c Hc]. rewrite (load_Done _ _ _ Hc), bind_Done. rewrite (drop_S _ _ _ Hc). cbn [lstrip]. destruct (is_ows c).
  - destruct (IH (i + 1)%nat) as (n & E & Hn & Hd); [lia|lia|]. exists n. split; [done|]. split; [lia|]. by rewrite Hd, Nat.add_1_r.
  - exists i. split; [done|]. split; [lia|]. by rewrite (drop_S _ _ _ Hc).
Qed.

Definition rstrip (l : list Z) : list Z := reverse (lstrip (reverse l)).

Lemma rstrip_snoc l c : rstrip (l ++ [c]) = if is_ows c then rstrip l else l ++ [c].
Proof. unfold rstrip. rewrite reverse_snoc. cbn [lstrip]. destruct (is_ows c); [done|]. by rewrite reverse_cons, reverse_involutive. Qed.

Lemma back_loop_ok value first fuel last : (first <= last <= length value)%nat -> (last - first < fuel)%nat ->
  exists m, while_loop (R := Empty_set) fuel (fun last => if (first <? last)%nat then c ← load value (last - 1); Done (is_ows c) else Done false) (fun last => Done (Next (last - 1)%nat)) last
    = Done (Next m) /\ (first <= m <= last)%nat /\ take (m - first) (drop first value) = rstrip (take (last - first) (drop first value)).
Proof.
  revert last. induction fuel as [|fuel IH]; intros last Hl Hf; [lia|]. cbn [while_loop]. destruct (Nat.ltb_spec first last) as [Hlt|Hge].
  2:{ exists last. split; [done|]. split; [lia|]. by replace (last - first)%nat with 0%nat by lia. }
  destruct (lookup_lt_is_Some_2 value (last - 1)) as [c Hc]; [lia|]. rewrite (load_Done _ _ _ Hc), bind_Done.
  assert (Et : take (last - first) (drop first value) = take (last - 1 - first) (drop first value) ++ [c]).
  { replace (last - first)%nat with (S (last - 1 - first)) by lia. apply take_S_r. rewrite lookup_drop. by replace (first + (last - 1 - first))%nat with (last - 1)%nat by lia. }
  rewrite Et, rstrip_snoc. destruct (is_ows c).
  - destruct (IH (last - 1)%nat) as (m & E & Hm & Ht); [lia|lia|]. exists m. split; [done|]. split; [lia|done].
  - exists last. split; [done|]. split; [lia|done].
Qed.

Lemma trim_ows_ok value : trim_ows value = Done (strip value).
Proof.
  unfold trim_ows. destruct (front_loop_ok value (S (length value)) 0) as (n & -> & Hn & Hd); [lia|lia|]. cbn [settled]. rewrite bind_Done.
  destruct (back_loop_ok value n (S (length value)) (length value)) as (m & -> & Hm & Ht); [lia|lia|]. cbn [settled]. rewrite bind_Done, substr_ok, Ht. f_equal.
  rewrite take_ge by (rewrite length_drop; lia). by rewrite Hd, drop_0.
Qed.

Lemma is_token_ok value : is_token value = Done (token value).
Proof.
  unfold is_token, token. destruct (length value =? 0)%nat; [done|]. rewrite (test_loop _ token_char) by (done || by apply Forall_true). rewrite drop_0, take_ge by lia. by destruct (forallb token_char value).
Qed.

Lemma is_visible_text_ok value : Forall byte value -> is_visible_text value = Done (visible value).
Proof.
  intros Hb. unfold is_visible_text, visible. destruct (length value =? 0)%nat; [done|]. rewrite (test_loop _ visible_char); [|eapply Forall_impl; [exact Hb|]; intros c Hc; unfold visible_char; lia|lia].
  rewrite drop_0, take_ge by lia. by destruct (forallb visible_char value).
Qed.

Definition split_line (line : list Z) : option (list Z * list Z) :=
  match find line 58 0 with
  | None => None
  | Some e => if token (take e line) then Some (take e line, strip (drop (e + 1) line)) else None
  end.

Lemma split_field_ok line : split_field line = Done (split_line line).
Proof.
  unfold split_field, split_line. destruct (find line 58 0) as [e|]; [|done]. rewrite !substr_ok, drop_0, is_token_ok, bind_Done. destruct (token (take e line)); [|done]. cbn [negb]. by rewrite trim_ows_ok, bind_Done.
Qed.

Lemma split_line_field line f : split_line line = Some f <-> field_line line f.
Proof.
  unfold split_line. pose proof (find_split line 58 0) as H. destruct (find line 58 0) as [e|].
  - destruct H as (_ & El & Hno). rewrite drop_0, Nat.sub_0_r in El, Hno.
    assert (Huniq : forall f, field_line line f -> f.1 = take e line /\ f.2 = strip (drop (e + 1) line)).
    { intros g (rest & Eg & Hng & _ & Hv). rewrite Eg in El at 1. apply app_sep_inj in El as [E1 E2]; [|done|done]. by rewrite E1, Hv, E2. }
    destruct (token (take e line)) eqn:Et.
    + split; [intros [= <-]; by exists (drop (e + 1) line)|]. intros Hf. destruct (Huniq _ Hf) as [E1 E2]. destruct f. cbn [fst snd] in E1, E2. by subst.
    + split; [done|]. intros Hf. destruct (Huniq _ Hf) as [E _]. destruct Hf as (? & _ & _ & Ht & _). congruence.
  - split; [done|]. intros (rest & El & _). exfalso. apply H. rewrite drop_0, El. apply elem_of_app. right. left.
Qed.

(** *** Numbers *)

Lemma for_range_ext_body {R S} (f g : nat -> S -> exec (ctl R S)) i n s : (forall i s, f i s = g i s) -> for_range i n f s = for_range i n g s.
Proof. intros H. revert i s. induction n as [|n IH]; intros i s; [done|]. cbn [for_range]. rewrite H. destruct (g i s) as [[r|s']|]; [done|apply IH|done]. Qed.

Lemma fold_digits_mono base (dv : Z -> Z) (l : list Z) acc : 1 <= base -> 0 <= acc -> forallb (fun c => (0 <=? dv c) && (dv c <? base)) l = true -> acc <= fold_left (fun acc c => acc * base + dv c) l acc.
Proof.
  intros Hb. revert acc. induction l as [|c l IH]; intros acc Ha Hl; [done|]. cbn [forallb fold_left] in *. apply andb_true_iff in Hl as [Hc Hl].
  transitivity (acc * base + dv c); [nia|]. apply IH; [nia|done].
Qed.

Lemma digits_loop_ok base (dv : Z -> Z) (bad : Z -> bool) l i n acc :
  2 <= base -> (i + n <= length l)%nat -> 0 <= acc < 2 ^ 64 ->
  (forall c, bad c = negb ((0 <=? dv c) && (dv c <? base))) ->
  for_range i n (fun i result =>
       c ← load l i;
       if bad c || ((2 ^ 64 - 1 - dv c) / base <? result) then Done (Return None) else Done (Next (to_u64 (result * base + dv c)))) acc
  = Done (if forallb (fun c => (0 <=? dv c) && (dv c <? base)) (take n (drop i l)) && (fold_left (fun acc c => acc * base + dv c) (take n (drop i l)) acc <? 2 ^ 64)
          then Next (fold_left (fun acc c => acc * base + dv c) (take n (drop i l)) acc) else Return (@None Z)).
Proof.
  intros Hbase. revert i acc. induction n as [|n IH]; intros i acc Hn Hacc Hbad; cbn [for_range].
  - rewrite take_0. cbn [forallb fold_left andb]. by rewrite (proj2 (Z.ltb_lt acc (2 ^ 64))) by lia.
  - destruct (lookup_lt_is_Some_2 l i) as [c Hc]; [lia|]. rewrite (load_Done _ _ _ Hc), bind_Done, (drop_S _ _ _ Hc). cbn [take firstn forallb fold_left]. rewrite Hbad.
    destruct ((0 <=? dv c) && (dv c <? base)) eqn:Ed; cbn [negb orb andb]; [|done]. assert (Hd : 0 <= dv c < base) by lia.
    destruct (Z.ltb_spec ((2 ^ 64 - 1 - dv c) / base) acc) as [Hov|Hfit].
    + assert (Hbig : 2 ^ 64 <= acc * base + dv c).
      { assert (Hq : (2 ^ 64 - 1 - dv c) / base + 1 <= acc) by lia. pose proof (Z.mul_succ_div_gt (2 ^ 64 - 1 - dv c) base ltac:(lia)). nia. }
      destruct (forallb _ (take n (drop (S i) l))) eqn:Eall; [|done]. pose proof (fold_digits_mono base dv (take n (drop (S i) l)) (acc * base + dv c) ltac:(lia) ltac:(nia) Eall) as Hm.
      by rewrite (proj2 (Z.ltb_ge _ (2 ^ 64))) by lia.
    + assert (Hsmall : acc * base + dv c < 2 ^ 64) by (pose proof (Z.mul_div_le (2 ^ 64 - 1 - dv c) base ltac:(lia)); nia).
      rewrite (wrap_small 64) by (unfold in_width; nia). rewrite IH by (done || lia || nia). done.
Qed.

Lemma hex_digit_bad c : (15 <? hex_digit c) = negb ((0 <=? hex_digit c) && (hex_digit c <? 16)).
Proof. unfold hex_digit. destruct ((48 <=? c) && (c <=? 57)) eqn:E1; [lia|]. destruct ((97 <=? c) && (c <=? 102)) eqn:E2; [lia|]. destruct ((65 <=? c) && (c <=? 70)) eqn:E3; lia. Qed.

Lemma parse_hex_ok l : parse_hex l = Done (hexadecimal l).
Proof.
  unfold parse_hex, hexadecimal, number, digits_value. destruct (length l =? 0)%nat; [done|]. cbn [negb andb].
  rewrite (digits_loop_ok 16 hex_digit (fun c => 15 <? hex_digit c)) by (lia || apply hex_digit_bad).
  rewrite drop_0, take_ge by lia. by destruct (forallb _ l && _).
Qed.

Lemma parse_decimal_ok l : parse_decimal l = Done (decimal l).
Proof.
  unfold parse_decimal, decimal, number, digits_value. destruct (length l =? 0)%nat; [done|]. cbn [negb andb].
  pose proof (digits_loop_ok 10 (fun c => c - 48) (fun c => (c <? 48) || (57 <? c)) l 0 (length l) 0 ltac:(lia) ltac:(lia) ltac:(lia)) as H.
  rewrite drop_0, take_ge in H by lia. erewrite for_range_ext_body; [rewrite H by (intros c; lia)|].
  - by destruct (forallb _ l && _).
  - intros i st. cbn beta. destruct (load l i) as [c|]; [|done]. rewrite !bind_Done. by destruct ((c <? 48) || (57 <? c)).
Qed.

(** *** Comma-separated lists *)

Lemma contains_token_ok l t : t <> [] -> contains_token l t = Done (lists_token l t).
Proof.
  intros Nt. unfold contains_token, lists_token.
  assert (H : forall fuel i, (length l - i < fuel)%nat -> after (while_loop fuel (fun offset => Done (offset <? length l)%nat)
    (fun offset =>
       let end_ := match find l 44 offset with Some e => e | None => length l end in
       t' ← trim_ows (substr l offset (Some (end_ - offset)%nat));
       e ← ascii_iequal t' t;
       if e : bool then Done (Return true) else Done (Next (end_ + 1)%nat)) i) (fun _ => Done false) = Done (existsb (fun p => same_text (strip p) t) (pieces 44 (drop i l)))).
  { assert (Hnil : existsb (fun p => same_text (strip p) t) (pieces 44 []) = false) by (cbn; rewrite orb_false_r; unfold same_text; apply bool_decide_eq_false_2; by destruct t).
    induction fuel as [|fuel IH]; intros i Hf; [lia|]. cbn [while_loop]. destruct (Nat.ltb_spec i (length l)) as [Hlt|Hge]; [|by rewrite drop_ge, Hnil by lia].
    pose proof (find_split l 44 i) as Hs. cbv zeta. rewrite trim_ows_ok, bind_Done, ascii_iequal_ok, bind_Done, substr_ok. destruct (find l 44 i) as [e|].
    - destruct Hs as (Hie & El & Hno). rewrite El, pieces_split by done. rewrite <-El. cbn [existsb]. destruct (same_text (strip (take (e - i) (drop i l))) t); [done|]. cbn [orb]. apply IH. lia.
    - rewrite pieces_last, take_ge by (done || rewrite length_drop; lia). cbn [existsb]. destruct (same_text (strip (drop i l)) t); [done|]. cbn [orb]. rewrite IH by lia. by rewrite drop_ge, Hnil by lia. }
  rewrite H by lia. by rewrite drop_0.
Qed.
