(* ===== verification/Http1Request.v ===== *)
(** * HTTP/1.1 requests (castle_ext/protocols/http/http1.hpp, [http1_request]; types.hpp)

    The serializer of requests into a buffer of fixed capacity, over the header object of
    HttpHeaders.v, and the text it writes. *)

From S2P Require Import Prelude Status Bytes Words StringView JsonText JsonInteger HttpHeaders Http1Text.
Open Scope Z_scope.

(** ** The code *)

Inductive method : Type := get | post | put | delete_ | head | options | patch | custom.
#[export] Instance method_eq_dec : EqDecision method.
Proof. solve_decision. Defined.

Definition method_token (value : method) : list Z :=
  match value with
  | get => chars "GET" | post => chars "POST" | put => chars "PUT" | delete_ => chars "DELETE"
  | head => chars "HEAD" | options => chars "OPTIONS" | patch => chars "PATCH" | custom => []
  end.

Record http1_request : Type := mk_request { buffer_ : list Z; rsize_ : nat }.
Definition data (r : http1_request) : list Z := take (rsize_ r) (buffer_ r).

Section Request.
Context (Capacity : nat).

Definition request_new : http1_request := mk_request (replicate Capacity 0) 0.

Definition append (value : list Z) (r : http1_request) : exec (bool * http1_request) :=
  if (Capacity - rsize_ r <? length value)%nat then Done (false, r)
  else r ← for_to 0 (length value) (fun i r => c ← load value i; b ← store (buffer_ r) (rsize_ r) c; Done (mk_request b (rsize_ r + 1))) r; Done (true, r).

(** The digits of a 64-bit number, the last one first: 20 at most. *)
Definition append_decimal (value : Z) (r : http1_request) : exec (bool * http1_request) :=
  '(digits, count) ← after (while_loop (R := list Z * nat) 21 (fun '(_, _, more) => Done more)
      (fun '(value, (digits, count), _) =>
         digits ← store digits count (48 + value mod 10);
         Done (Next (value / 10, (digits, (count + 1)%nat), negb (value / 10 =? 0))))
      (value, (replicate 25 0, 0%nat), true)) (fun '(_, d, _) => Done d);
  if (Capacity - rsize_ r <? count)%nat then Done (false, r)
  else
    '(r, _) ← for_to 0 count (fun _ '(r, count) => d ← load digits (count - 1); b ← store (buffer_ r) (rsize_ r) d; Done (mk_request b (rsize_ r + 1), (count - 1)%nat)) (r, count);
    Done (true, r).

(** [a && b] of two appends. *)
Definition both (f g : http1_request -> exec (bool * http1_request)) (r : http1_request) : exec (bool * http1_request) :=
  '(ok, r) ← f r; if ok : bool then g r else Done (false, r).

Definition crlf : list Z := [13; 10].

(** One pass of the loop over the headers: [(has_host, has_length, has_connection)]. *)
Definition header_body (h : basic_headers) (body : list Z) (i : nat) (st : http1_request * (bool * bool * bool)) : exec (ctl (status * http1_request) (http1_request * (bool * bool * bool))) :=
  let '(r, (has_host, has_length, has_connection)) := st in
  '(name, value) ← at_ h i;
  c ← load name 0;
  te ← (if c =? 58 then Done true else ascii_iequal name (chars "transfer-encoding"));
  if te : bool then Done (Return (s_invalid_argument, r))
  else
    is_host ← ascii_iequal name (chars "host");
    let has_host := if is_host : bool then true else has_host in
    is_connection ← ascii_iequal name (chars "connection");
    let has_connection := if is_connection : bool then true else has_connection in
    is_length ← ascii_iequal name (chars "content-length");
    good ← (if is_length : bool then n ← parse_decimal value; Done (match n with Some n => n =? Z.of_nat (length body) | None => false end) else Done true);
    if negb good then Done (Return (s_invalid_argument, r))
    else
      let has_length := if is_length : bool then true else has_length in
      '(ok, r) ← both (append name) (both (append (chars ": ")) (both (append value) (append crlf))) r;
      Done (if ok : bool then Next (r, (has_host, has_length, has_connection)) else Return (s_full, r)).

Definition build (r : http1_request) (verb : method) (path authority : list Z) (h : basic_headers) (body custom_method : list Z) (keep_alive : bool) : exec (status * http1_request) :=
  let r := mk_request (buffer_ r) 0 in
  let token := if decide (verb = custom) then custom_method else method_token verb in
  valid ← (t ← is_token token; if negb t then Done false else p ← is_visible_text path; if negb p then Done false else is_visible_text authority);
  if negb valid then Done (s_invalid_argument, r)
  else
    '(ok, r) ← both (append token) (both (append (chars " ")) (both (append path) (append (chars " HTTP/1.1" ++ crlf)))) r;
    if negb ok then Done (s_full, r)
    else
      after (for_range 0 (size h) (header_body h body) (r, (false, false, false))) (fun '(r, (has_host, has_length, has_connection)) =>
        '(ok, r) ← (if negb has_host then both (append (chars "Host: ")) (both (append authority) (append crlf)) r else Done (true, r));
        if negb ok then Done (s_full, r)
        else
          '(ok, r) ← (if negb has_length && (negb (length body =? 0)%nat || bool_decide (verb = post) || bool_decide (verb = put) || bool_decide (verb = patch))
                      then both (append (chars "Content-Length: ")) (both (append_decimal (Z.of_nat (length body))) (append crlf)) r else Done (true, r));
          if negb ok then Done (s_full, r)
          else
            '(ok, r) ← (if negb has_connection then append (if keep_alive then chars "Connection: keep-alive" ++ crlf else chars "Connection: close" ++ crlf) r else Done (true, r));
            if negb ok then Done (s_full, r)
            else
              '(ok, r) ← both (append crlf) (append body) r;
              Done (if ok : bool then s_ok else s_full, r)).

(** ** The text of a request *)

Definition named (name : string) (f : list Z * list Z) : bool := same_text f.1 (chars name).
Definition decimal_text (n : Z) : list Z := rev (units_first 20 n).
Definition header_text (f : list Z * list Z) : list Z := f.1 ++ chars ": " ++ f.2 ++ crlf.

Definition header_fits (body : list Z) (f : list Z * list Z) : bool :=
  negb (bool_decide (f.1 !! 0%nat = Some 58)) && negb (named "transfer-encoding" f) &&
  (negb (named "content-length" f) || bool_decide (Http1Text.decimal f.2 = Some (Z.of_nat (length body)))).

Definition request_token (verb : method) (custom_method : list Z) : list Z := if decide (verb = custom) then custom_method else method_token verb.
Definition request_text (verb : method) (path authority : list Z) (l : list (list Z * list Z)) (body custom_method : list Z) (keep_alive : bool) : list Z :=
  (request_token verb custom_method ++ chars " " ++ path ++ chars " HTTP/1.1" ++ crlf)
  ++ concat (header_text <$> l)
  ++ (if existsb (named "host") l then [] else header_text (chars "Host", authority))
  ++ (if negb (existsb (named "content-length") l) && (negb (length body =? 0)%nat || existsb (fun m => bool_decide (verb = m)) [post; put; patch])
      then header_text (chars "Content-Length", decimal_text (Z.of_nat (length body))) else [])
  ++ (if existsb (named "connection") l then [] else header_text (chars "Connection", if keep_alive then chars "keep-alive" else chars "close"))
  ++ crlf ++ body.

(** *** Appending *)

(** The buffer starts with the text [t]. *)
Definition written (r : http1_request) (t : list Z) : Prop := length (buffer_ r) = Capacity /\ rsize_ r = length t /\ (length t <= Capacity)%nat /\ data r = t.

(** [f] appends [t] if it fits, and otherwise reports that it does not. *)
Definition emits (f : http1_request -> exec (bool * http1_request)) (t : list Z) : Prop := forall r acc, written r acc ->
  exists r', f r = Done ((length acc + length t <=? Capacity)%nat, r') /\ length (buffer_ r') = Capacity /\ ((length acc + length t <= Capacity)%nat -> written r' (acc ++ t)).

Lemma written_push r acc c : written r acc -> (length acc < Capacity)%nat ->
  exists b, store (buffer_ r) (rsize_ r) c = Done b /\ written (mk_request b (rsize_ r + 1)) (acc ++ [c]).
Proof.
  intros (Hl & Hs & Hc & Hd) Hlt. eexists. split; [apply store_Done; lia|]. unfold written, data in *. cbn [buffer_ rsize_]. rewrite length_insert, length_app. cbn [length]. split; [done|]. split; [lia|]. split; [lia|].
  rewrite Nat.add_1_r, (take_S_r _ _ c) by (apply list_lookup_insert_eq; lia). by rewrite take_insert_ge, Hd by lia.
Qed.

Lemma append_emits t : emits (append t) t.
Proof.
  intros r acc Hw. pose proof Hw as (Hl & Hs & Hc & Hd). unfold append. rewrite Hs. destruct (Nat.ltb_spec (Capacity - length acc) (length t)) as [Hno|Hfit].
  - exists r. rewrite (proj2 (Nat.leb_gt _ _)) by lia. split; [done|]. split; [done|]. lia.
  - rewrite (proj2 (Nat.leb_le _ _)) by lia.
    destruct (for_to_inv (fun i r => written r (acc ++ take i t)) (fun i r => c ← load t i; b ← store (buffer_ r) (rsize_ r) c; Done (mk_request b (rsize_ r + 1))) 0 (length t) r) as (r' & -> & Hr').
    + by rewrite take_0, app_nil_r.
    + intros i st Hi Hst. destruct (lookup_lt_is_Some_2 t i) as [c Hx]; [lia|]. rewrite (load_Done _ _ _ Hx), bind_Done.
      destruct (written_push st _ c Hst) as (b & -> & Hb); [rewrite length_app, length_take; lia|]. rewrite bind_Done. eexists. split; [done|]. by rewrite (take_S_r _ _ _ Hx), app_assoc.
    + rewrite bind_Done. exists r'. split; [done|]. rewrite Nat.add_0_l, take_ge in Hr' by lia. split; [apply Hr'|done].
Qed.

Lemma units_first_length n : 0 <= n < 2 ^ 64 -> (0 < length (units_first 20 n) <= 20)%nat.
Proof.
  intros Hn. destruct (units_first_ok 20 n) as (_ & _ & Hl); [change (10 ^ Z.of_nat 20) with 100000000000000000000; lia|done|]. split; [|done]. cbn [units_first length]. lia.
Qed.

Lemma append_decimal_emits n : 0 <= n < 2 ^ 64 -> emits (append_decimal n) (decimal_text n).
Proof.
  intros Hn r acc Hw. pose proof Hw as (Hl & Hs & Hc & Hd). unfold append_decimal, decimal_text. pose proof (units_first_length n Hn) as Hlen.
  destruct (format_digits_ok 20 21 n (replicate 25 0) 0) as (digits & E & Ht); [change (10 ^ Z.of_nat 20) with 100000000000000000000; lia|done|lia|rewrite length_replicate; lia|].
  change c_0 with 48 in E. rewrite E. cbn [after]. rewrite bind_Done. rewrite Nat.add_0_l in *. set (ds := units_first 20 n) in *. cbn [take app] in Ht. rewrite take_0 in Ht. cbn [app] in Ht.
  rewrite Hs, length_rev. destruct (Nat.ltb_spec (Capacity - length acc) (length ds)) as [Hno|Hfit].
  - exists r. rewrite (proj2 (Nat.leb_gt _ _)) by lia. split; [done|]. split; [done|]. lia.
  - rewrite (proj2 (Nat.leb_le _ _)) by lia.
    destruct (for_to_inv (fun i '(r, count) => written r (acc ++ take i (rev ds)) /\ count = (length ds - i)%nat)
      (fun _ '(r, count) => d ← load digits (count - 1); b ← store (buffer_ r) (rsize_ r) d; Done (mk_request b (rsize_ r + 1), (count - 1)%nat)) 0 (length ds) (r, length ds)) as ([r' c'] & -> & Hr' & _).
    + split; [by rewrite take_0, app_nil_r|lia].
    + intros i [st count] Hi [Hst ->]. destruct (lookup_lt_is_Some_2 (rev ds) i) as [c Hx]; [rewrite length_rev; lia|].
      assert (Hdig : digits !! (length ds - i - 1)%nat = Some c).
      { rewrite (rev_alt ds) in Hx. change (rev_append ds []) with (reverse ds) in Hx. rewrite reverse_lookup in Hx by lia. 
        assert (Hy : take (length ds) digits !! (length ds - S i)%nat = Some c) by (by rewrite Ht). apply lookup_take_Some in Hy as [Hy _].
        by replace (length ds - i - 1)%nat with (length ds - S i)%nat by lia. }
      rewrite (load_Done _ _ _ Hdig), bind_Done. destruct (written_push st _ c Hst) as (b & -> & Hb); [rewrite length_app, length_take, length_rev; lia|]. rewrite bind_Done.
      eexists. split; [done|]. rewrite (take_S_r _ _ _ Hx), app_assoc. split; [done|lia].
    + rewrite bind_Done. exists r'. split; [done|]. rewrite Nat.add_0_l, take_ge in Hr' by (rewrite length_rev; lia). split; [apply Hr'|done].
Qed.

Lemma both_emits f g t u : emits f t -> emits g u -> emits (both f g) (t ++ u).
Proof.
  intros Hf Hg r acc Hw. unfold both. destruct (Hf r acc Hw) as (r1 & -> & Hl1 & H1). rewrite bind_Done. rewrite length_app. destruct (Nat.leb_spec (length acc + length t) Capacity) as [Hfit|Hno].
  - destruct (Hg r1 _ (H1 Hfit)) as (r2 & -> & Hl2 & H2). exists r2. rewrite length_app in *. rewrite <-Nat.add_assoc in *. split; [done|]. split; [done|]. intros H. rewrite app_assoc. by apply H2.
  - exists r1. rewrite (proj2 (Nat.leb_gt _ _)) by lia. split; [done|]. split; [done|]. lia.
Qed.
Lemma emits_when (b : bool) f t : emits f t -> emits (fun r => if b then f r else Done (true, r)) (if b then t else []).
Proof.
  intros H. destruct b; [done|]. intros r acc Hw. exists r. pose proof Hw as (Hl & Hs & Hc & _). rewrite Nat.add_0_r, (proj2 (Nat.leb_le _ _)) by lia. split; [done|]. split; [done|]. by rewrite app_nil_r.
Qed.

Lemma field_emits name value : emits (both (append name) (both (append (chars ": ")) (both (append value) (append crlf)))) (header_text (name, value)).
Proof. unfold header_text. repeat apply both_emits; apply append_emits. Qed.

(** *** The headers *)

Definition flags (l : list (list Z * list Z)) (st : bool * bool * bool) : bool * bool * bool :=
  (st.1.1 || existsb (named "host") l, st.1.2 || existsb (named "content-length") l, st.2 || existsb (named "connection") l).

Lemma header_body_ok h body i r hs name value acc : at_ h i = Done (name, value) -> name <> [] -> written r acc ->
  exists r', length (buffer_ r') = Capacity /\
    header_body h body i (r, hs) = Done (
      if negb (header_fits body (name, value)) then Return (s_invalid_argument, r')
      else if (length acc + length (header_text (name, value)) <=? Capacity)%nat then Next (r', flags [(name, value)] hs) else Return (s_full, r'))
    /\ (header_fits body (name, value) = true -> (length acc + length (header_text (name, value)) <= Capacity)%nat -> written r' (acc ++ header_text (name, value))).
Proof.
  intros Ha Hn Hw. destruct hs as [[h1 h2] h3]. unfold header_body. rewrite Ha, bind_Done. destruct name as [|c name]; [done|]. change (load (c :: name) 0) with (Done c). rewrite bind_Done.
  set (f := (c :: name, value)). unfold header_fits. change (bool_decide (f.1 !! 0%nat = Some 58)) with (bool_decide (Some c = Some 58)).
  assert (E1 : (if c =? 58 then Done true else ascii_iequal (c :: name) (chars "transfer-encoding")) = Done (bool_decide (Some c = Some 58) || named "transfer-encoding" f)).
  { rewrite ascii_iequal_ok. destruct (Z.eqb_spec c 58) as [-> |N]; [done|]. by rewrite (bool_decide_eq_false_2 (Some c = Some 58)) by congruence. }
  rewrite E1, bind_Done. rewrite <-negb_orb. destruct (bool_decide (Some c = Some 58) || named "transfer-encoding" f); cbn [negb andb].
  { exists r. split; [apply Hw|]. done. }
  rewrite !ascii_iequal_ok, !bind_Done. change (same_text (c :: name) (chars "host")) with (named "host" f). change (same_text (c :: name) (chars "connection")) with (named "connection" f). change (same_text (c :: name) (chars "content-length")) with (named "content-length" f).
  assert (E2 : (if named "content-length" f then n ← parse_decimal value; Done (match n with Some n => n =? Z.of_nat (length body) | None => false end) else Done true)
    = Done (negb (named "content-length" f) || bool_decide (Http1Text.decimal f.2 = Some (Z.of_nat (length body))))).
  { destruct (named "content-length" f); [|done]. rewrite parse_decimal_ok, bind_Done. cbn [negb orb]. f_equal. change f.2 with value. destruct (Http1Text.decimal value) as [n|]; [|by rewrite bool_decide_eq_false_2].
    destruct (Z.eqb_spec n (Z.of_nat (length body))) as [-> |N]; [by rewrite bool_decide_eq_true_2|]. by rewrite bool_decide_eq_false_2 by congruence. }
  rewrite E2, bind_Done. destruct (negb (named "content-length" f) || bool_decide (Http1Text.decimal f.2 = Some (Z.of_nat (length body)))); cbn [negb].
  2:{ exists r. split; [apply Hw|]. done. }
  destruct (field_emits (c :: name) value r acc Hw) as (r' & -> & Hl & H). rewrite bind_Done. exists r'. split; [done|]. split; [|intros _; exact H]. f_equal.
  fold f. destruct (length acc + length (header_text f) <=? Capacity)%nat; [|done]. unfold flags. cbn [existsb fst snd]. rewrite !orb_false_r.
  by destruct (named "host" f), (named "content-length" f), (named "connection" f), h1, h2, h3.
Qed.

Lemma header_loop_ok h body l : forall i r hs acc, (forall j f, l !! j = Some f -> at_ h (i + j) = Done f /\ f.1 <> []) -> written r acc ->
  exists r', length (buffer_ r') = Capacity /\
    ((for_range i (length l) (header_body h body) (r, hs) = Done (Next (r', flags l hs)) /\ forallb (header_fits body) l = true
        /\ written r' (acc ++ concat (header_text <$> l)))
     \/ (for_range i (length l) (header_body h body) (r, hs) = Done (Return (s_invalid_argument, r')) /\ forallb (header_fits body) l = false)
     \/ (for_range i (length l) (header_body h body) (r, hs) = Done (Return (s_full, r')) /\ (Capacity < length acc + length (concat (header_text <$> l)))%nat)).
Proof.
  induction l as [|[n v] l IH]; intros i r hs acc Hat Hw.
  - exists r. split; [apply Hw|]. left. cbn [length for_range forallb fmap list_fmap concat]. rewrite app_nil_r. split; [|done]. unfold flags. cbn [existsb]. rewrite !orb_false_r. by destruct hs as [[? ?] ?].
  - destruct (Hat 0%nat (n, v) eq_refl) as [Ha Hn]. rewrite Nat.add_0_r in Ha. destruct (header_body_ok h body i r hs n v acc Ha Hn Hw) as (r1 & Hl1 & E1 & H1). cbn [length for_range]. rewrite E1. cbn [forallb fmap list_fmap concat].
    destruct (header_fits body (n, v)) eqn:Ef; cbn [negb andb]; [|exists r1; split; [done|]; right; left; done].
    destruct (Nat.leb_spec (length acc + length (header_text (n, v))) Capacity) as [Hfit|Hno]; [|exists r1; split; [done|]; right; right; split; [done|rewrite length_app; lia]].
    destruct (IH (S i) r1 (flags [(n, v)] hs) (acc ++ header_text (n, v))) as (r2 & Hl2 & H2); [|by apply H1|].
    { intros j f Hj. destruct (Hat (S j) f Hj) as [Hf Hf']. split; [|done]. by replace (S i + j)%nat with (i + S j)%nat by lia. }
    exists r2. split; [done|]. assert (Efl : flags l (flags [(n, v)] hs) = flags ((n, v) :: l) hs) by (unfold flags; cbn [existsb fst snd]; by rewrite !orb_false_r, !orb_assoc).
    rewrite Efl, <-app_assoc in H2. rewrite length_app, Nat.add_assoc. rewrite length_app in H2. exact H2.
Qed.
(** *** The whole request *)

Definition arguments_ok (verb : method) (path authority custom_method : list Z) : bool := token (request_token verb custom_method) && visible path && visible authority.

Lemma request_head_emits verb path custom_method :
  emits (both (append (request_token verb custom_method)) (both (append (chars " ")) (both (append path) (append (chars " HTTP/1.1" ++ crlf)))))
    (request_token verb custom_method ++ chars " " ++ path ++ chars " HTTP/1.1" ++ crlf).
Proof. repeat apply both_emits; apply append_emits. Qed.

(** What follows the header fields, by the flags of their loop. *)
Definition trailer (has_host has_length has_connection : bool) (verb : method) (authority body : list Z) (keep_alive : bool) : list Z :=
  (if negb has_host then header_text (chars "Host", authority) else [])
  ++ (if negb has_length && (negb (length body =? 0)%nat || bool_decide (verb = post) || bool_decide (verb = put) || bool_decide (verb = patch)) then header_text (chars "Content-Length", decimal_text (Z.of_nat (length body))) else [])
  ++ (if negb has_connection then header_text (chars "Connection", if keep_alive then chars "keep-alive" else chars "close") else [])
  ++ crlf ++ body.

Definition host_step (has_host : bool) (authority : list Z) (r : http1_request) : exec (bool * http1_request) :=
  if negb has_host then both (append (chars "Host: ")) (both (append authority) (append crlf)) r else Done (true, r).
Definition length_step (has_length : bool) (verb : method) (body : list Z) (r : http1_request) : exec (bool * http1_request) :=
  if negb has_length && (negb (length body =? 0)%nat || bool_decide (verb = post) || bool_decide (verb = put) || bool_decide (verb = patch))
  then both (append (chars "Content-Length: ")) (both (append_decimal (Z.of_nat (length body))) (append crlf)) r else Done (true, r).
Definition connection_step (has_connection keep_alive : bool) (r : http1_request) : exec (bool * http1_request) :=
  if negb has_connection then append (if keep_alive then chars "Connection: keep-alive" ++ crlf else chars "Connection: close" ++ crlf) r else Done (true, r).
Definition finish (has_host has_length has_connection : bool) (verb : method) (authority body : list Z) (keep_alive : bool) (r : http1_request) : exec (status * http1_request) :=
  '(ok, r) ← both (host_step has_host authority) (both (length_step has_length verb body) (both (connection_step has_connection keep_alive) (both (append crlf) (append body)))) r;
  Done (if ok : bool then s_ok else s_full, r).

Lemma finish_ok hh hl hc verb authority body keep r acc : Z.of_nat (length body) < 2 ^ 64 -> written r acc ->
  exists r', finish hh hl hc verb authority body keep r = Done (if (length acc + length (trailer hh hl hc verb authority body keep) <=? Capacity)%nat then s_ok else s_full, r')
    /\ length (buffer_ r') = Capacity /\ ((length acc + length (trailer hh hl hc verb authority body keep) <= Capacity)%nat -> written r' (acc ++ trailer hh hl hc verb authority body keep)).
Proof.
  intros Hb Hw. unfold finish.
  assert (He : emits (both (host_step hh authority) (both (length_step hl verb body) (both (connection_step hc keep) (both (append crlf) (append body))))) (trailer hh hl hc verb authority body keep)).
  { unfold trailer. apply both_emits; [|apply both_emits; [|apply both_emits; [|apply both_emits; apply append_emits]]]; apply emits_when.
    - change (header_text (chars "Host", authority)) with (chars "Host: " ++ authority ++ crlf). repeat apply both_emits; apply append_emits.
    - change (header_text (chars "Content-Length", decimal_text (Z.of_nat (length body)))) with (chars "Content-Length: " ++ decimal_text (Z.of_nat (length body)) ++ crlf).
      apply both_emits; [apply append_emits|]. apply both_emits; [apply append_decimal_emits; lia|apply append_emits].
    - change (header_text (chars "Connection", if keep then chars "keep-alive" else chars "close")) with (chars "Connection: " ++ (if keep then chars "keep-alive" else chars "close") ++ crlf).
      destruct keep; apply append_emits. }
  destruct (He r acc Hw) as (r' & -> & Hl & H). rewrite bind_Done. exists r'. split; [done|]. split; [done|exact H].
Qed.

Lemma four_appends (f1 f2 f3 f4 : http1_request -> exec (bool * http1_request)) r :
  ('(ok, r) ← f1 r; if negb ok then Done (s_full, r) else '(ok, r) ← f2 r; if negb ok then Done (s_full, r) else '(ok, r) ← f3 r; if negb ok then Done (s_full, r)
    else '(ok, r) ← f4 r; Done (if ok : bool then s_ok else s_full, r))
  = ('(ok, r) ← both f1 (both f2 (both f3 f4)) r; Done (if ok : bool then s_ok else s_full, r)).
Proof.
  unfold both. destruct (f1 r) as [[[] r1]|]; [|done|done]. rewrite !bind_Done. cbn [negb]. destruct (f2 r1) as [[[] r2]|]; [|done|done]. rewrite !bind_Done. cbn [negb].
  destruct (f3 r2) as [[[] r3]|]; [|done|done]. by rewrite !bind_Done.
Qed.

Lemma finish_unfold (hh hl hc : bool) verb authority body (keep : bool) r :
  ('(ok, r) ← (if negb hh then both (append (chars "Host: ")) (both (append authority) (append crlf)) r else Done (true, r));
        if negb ok then Done (s_full, r)
        else
          '(ok, r) ← (if negb hl && (negb (length body =? 0)%nat || bool_decide (verb = post) || bool_decide (verb = put) || bool_decide (verb = patch))
                      then both (append (chars "Content-Length: ")) (both (append_decimal (Z.of_nat (length body))) (append crlf)) r else Done (true, r));
          if negb ok then Done (s_full, r)
          else
            '(ok, r) ← (if negb hc then append (if keep then chars "Connection: keep-alive" ++ crlf else chars "Connection: close" ++ crlf) r else Done (true, r));
            if negb ok then Done (s_full, r)
            else
              '(ok, r) ← both (append crlf) (append body) r;
              Done (if ok : bool then s_ok else s_full, r) : exec (status * http1_request)) = finish hh hl hc verb authority body keep r.
Proof. exact (four_appends (host_step hh authority) (length_step hl verb body) (connection_step hc keep) (both (append crlf) (append body)) r). Qed.

Lemma request_text_parts verb path authority l body custom_method keep :
  request_text verb path authority l body custom_method keep = (request_token verb custom_method ++ chars " " ++ path ++ chars " HTTP/1.1" ++ crlf)
    ++ concat (header_text <$> l) ++ trailer (existsb (named "host") l) (existsb (named "content-length") l) (existsb (named "connection") l) verb authority body keep.
Proof.
  unfold request_text, trailer. do 2 f_equal. f_equal; [by destruct (existsb (named "host") l)|]. f_equal; [by destruct verb, (length body =? 0)%nat, (existsb (named "content-length") l)|]. f_equal. by destruct (existsb (named "connection") l).
Qed.
End Request.

(** C12.  [build] is total and within its buffer for every request over any well-formed header
    object, and exact: it writes the request line, the header fields, the Host, Content-Length and
    Connection fields that are missing, the blank line and the body, and succeeds exactly if
    the method is a token, target and authority are visible text, no field is a pseudo-header or a transfer
    coding, every Content-Length states the length of the body, and the text fits; an
    error names a fault the request has. *)
Theorem http1_request_exact Capacity MaxHeaders MaxNameSize MaxValueSize r verb path authority h l body custom_method keep_alive
    (Hr : length (buffer_ r) = Capacity) (Hh : headers_hold MaxHeaders MaxNameSize MaxValueSize h l) (Hwf : Forall (fun f => well_formed f = true) l)
    (Hpath : Forall byte path) (Hauth : Forall byte authority) (Hbody : Z.of_nat (length body) < 2 ^ 64) :
  let text := request_text verb path authority l body custom_method keep_alive in
  let valid := arguments_ok verb path authority custom_method && forallb (header_fits body) l in
  exists s r', build Capacity r verb path authority h body custom_method keep_alive = Done (s, r') /\ length (buffer_ r') = Capacity /\
    ((s = s_ok /\ valid = true /\ (length text <= Capacity)%nat /\ data r' = text)
     \/ (s = s_invalid_argument /\ valid = false)
     \/ (s = s_full /\ arguments_ok verb path authority custom_method = true /\ (Capacity < length text)%nat)).
Proof.
  cbv zeta. unfold build, arguments_ok. fold (request_token verb custom_method). set (r0 := mk_request (buffer_ r) 0). assert (Hw0 : written Capacity r0 []) by (split; [done|]; split; [done|]; split; [cbn; lia|done]).
  assert (Ev : (t ← is_token (request_token verb custom_method); if negb t then Done false else p ← is_visible_text path; if negb p then Done false else is_visible_text authority)
    = Done (token (request_token verb custom_method) && visible path && visible authority)).
  { rewrite is_token_ok, bind_Done. destruct (token _); [|done]. cbn [negb andb]. rewrite (is_visible_text_ok path), bind_Done by done. destruct (visible path); [|done]. cbn [negb andb]. by apply is_visible_text_ok. }
  rewrite Ev, bind_Done. destruct (token (request_token verb custom_method) && visible path && visible authority); cbn [negb andb]; [|exists s_invalid_argument, r0; split; [done|]; split; [done|]; right; left; done].
  rewrite request_text_parts, length_app. destruct (request_head_emits Capacity verb path custom_method r0 [] Hw0) as (r1 & E1 & Hl1 & H1). cbv zeta. rewrite E1, bind_Done. cbn [length Nat.add app] in *.
  set (head := request_token verb custom_method ++ chars " " ++ path ++ chars " HTTP/1.1" ++ crlf) in *. rewrite length_app. destruct (Nat.leb_spec (length head) Capacity) as [Hfit|Hno]; cbn [negb].
  2:{ exists s_full, r1. split; [done|]. split; [done|]. right; right. split; [done|]. split; [done|lia]. }
  destruct (observers_ok _ _ _ h l Hh) as (Hsize & _ & _ & Hat & _). rewrite Hsize.
  destruct (header_loop_ok Capacity h body l 0 r1 (false, false, false) head) as (r2 & Hl2 & H2); [|by apply H1|].
  { intros j f Hj. split; [rewrite Hat; change (0 + j)%nat with j; by rewrite Hj|]. apply (Forall_lookup_1 _ _ _ _ Hwf) in Hj. unfold well_formed, name_ok in Hj. by destruct f.1. }
  destruct H2 as [(-> & -> & Hw2)|[(-> & ->)|(-> & Hov)]]; cbn [after].
  - unfold flags. cbn [fst snd orb]. rewrite finish_unfold. destruct (finish_ok Capacity (existsb (named "host") l) (existsb (named "content-length") l) (existsb (named "connection") l) verb authority body keep_alive r2 _ Hbody Hw2) as (r3 & -> & Hl3 & H3).
    rewrite length_app in H3 |- *. destruct (Nat.leb_spec (length head + length (concat (header_text <$> l)) + length (trailer (existsb (named "host") l) (existsb (named "content-length") l) (existsb (named "connection") l) verb authority body keep_alive)) Capacity) as [Hf|Hf].
    + exists s_ok, r3. split; [done|]. split; [done|]. left. split; [done|]. split; [done|]. split; [lia|]. rewrite app_assoc. by apply H3.
    + exists s_full, r3. split; [done|]. split; [done|]. right; right. split; [done|]. split; [done|lia].
  - exists s_invalid_argument, r2. split; [done|]. split; [done|]. right; left. done.
  - exists s_full, r2. split; [done|]. split; [done|]. right; right. split; [done|]. split; [done|lia].
Qed.

Lemma http1_request_exact_witness :
  length (buffer_ (request_new 128)) = 128%nat /\ headers_hold 2 8 8 (headers_new 2 8 8) [] /\ Forall byte (chars "/x") /\ Forall byte (chars "h")
  /\ exists r', build 128 (request_new 128) post (chars "/x") (chars "h") (headers_new 2 8 8) (chars "hi") [] true = Done (s_ok, r')
     /\ data r' = chars "POST /x HTTP/1.1" ++ crlf ++ chars "Host: h" ++ crlf ++ chars "Content-Length: 2" ++ crlf ++ chars "Connection: keep-alive" ++ crlf ++ crlf ++ chars "hi".
Proof.
  assert (Hr : length (buffer_ (request_new 128)) = 128%nat) by reflexivity. pose proof (headers_new_hold 2 8 8) as Hh.
  assert (Hp : Forall byte (chars "/x")) by (repeat constructor; unfold byte; lia). assert (Ha : Forall byte (chars "h")) by (repeat constructor; unfold byte; lia).
  split; [exact Hr|]. split; [exact Hh|]. split; [exact Hp|]. split; [exact Ha|].
  destruct (http1_request_exact 128 2 8 8 (request_new 128) post (chars "/x") (chars "h") (headers_new 2 8 8) [] (chars "hi") [] true Hr Hh (Forall_nil_2 _) Hp Ha ltac:(cbn; lia)) as (s & r' & E & _ & H).
  destruct H as [(-> & _ & _ & Hd)|[(_ & Hv)|(_ & _ & Hlt)]].
  - exists r'. split; [exact E|]. rewrite Hd. reflexivity.
  - exfalso. vm_compute in Hv. discriminate Hv.
  - exfalso. apply Nat.ltb_lt in Hlt. vm_compute in Hlt. discriminate Hlt.
Defined.
