(* ===== verification/Http1Machine.v ===== *)
(** * The HTTP/1.1 response machine

    What the incremental parser of http1.hpp computes, a byte at a time, on lists instead of
    buffers, and the responses of RFC 9112 as inductive relations on the octets; a run of the
    machine completes exactly on the responses within its limits.  Http1Parser.v proves that the code is the machine. *)

From S2P Require Import Prelude Status Bytes Words StringView HttpHeaders Http1Text.
Open Scope Z_scope.

Inductive version : Type := http_1_0 | http_1_1 | http_2.
#[export] Instance version_eq_dec : EqDecision version.
Proof. solve_decision. Defined.

Inductive error_code : Type :=
| e_ok | malformed_message | malformed_status_line | invalid_header | header_limit | header_line_limit | body_limit
| chunked_not_supported | invalid_chunk | invalid_frame | frame_size_limit | compression_error | dynamic_table_limit
| stream_limit | stream_closed | flow_control_error | protocol_error | connection_closed | output_full
| request_in_progress | unsupported_feature | goaway_received | stream_reset.

Definition to_status (value : error_code) : status :=
  match value with
  | e_ok => s_ok
  | header_limit | header_line_limit | body_limit | frame_size_limit | dynamic_table_limit | stream_limit | output_full => s_out_of_range
  | connection_closed => s_data_loss
  | request_in_progress => s_invalid_config
  | unsupported_feature | chunked_not_supported => s_invalid_config
  | goaway_received | stream_reset | stream_closed => s_data_loss
  | _ => s_invalid_argument
  end.

Inductive parser_state : Type :=
| status_line | header_line | fixed_body | close_body | chunk_size | chunk_data | chunk_data_cr | chunk_data_lf | trailer_line | complete | failed.
#[export] Instance parser_state_eq_dec : EqDecision parser_state.
Proof. solve_decision. Defined.

(** ** Lines *)

Definition digit (c : Z) : bool := (48 <=? c) && (c <=? 57).

(** Three digits, then nothing or a blank and a reason. *)
Definition code_of (t : list Z) : option Z :=
  match t with
  | a :: b :: c :: rest =>
      let code := (a - 48) * 100 + (b - 48) * 10 + (c - 48) in
      if digit a && digit b && digit c && match rest with [] => true | d :: _ => d =? 32 end && (100 <=? code) && (code <=? 599) then Some code else None
  | _ => None
  end.
(** [HTTP/1.0] or [HTTP/1.1], a blank and a code. *)
Definition version_of (line : list Z) : option version :=
  if bool_decide (take 9 line = chars "HTTP/1.0 ") then Some http_1_0 else if bool_decide (take 9 line = chars "HTTP/1.1 ") then Some http_1_1 else None.
Definition status_of (line : list Z) : option (version * Z) := v ← version_of line; code ← code_of (drop 9 line); Some (v, code).

(** A line without its CRLF. *)
Definition strip_crlf (l : list Z) : option (list Z) :=
  if (length l <? 2)%nat then None else if bool_decide (l !! (length l - 2)%nat = Some 13) then Some (take (length l - 2) l) else None.

Definition is_named (name : string) (f : list Z * list Z) : bool := same_text f.1 (chars name).
Definition forbidden_trailer (f : list Z * list Z) : bool :=
  is_named "content-length" f || is_named "transfer-encoding" f || is_named "host" f || is_named "connection" f || is_named "trailer" f.

(** The template arguments with their static assertions, and whether a body callback is installed. *)
Class config : Type := {
  MaxBodySize : nat; MaxHeaders : nat; MaxNameSize : nat; MaxValueSize : nat; MaxLineSize : nat; EnableChunked : bool; callback : bool;
  body_room : (0 < MaxBodySize)%nat; line_room : (16 <= MaxLineSize)%nat }.

Section Machine.
Context {C : config}.

(** ** The machine *)

Record machine : Type := mk_machine {
  m_state : parser_state; m_line : list Z; m_fields : list (list Z * list Z);
  m_length : option Z; m_chunked : bool; m_close : bool; m_keep : bool; m_code : Z; m_version : version;
  m_head : bool; m_body : list Z; m_left : Z }.

Definition to_state (s : parser_state) (m : machine) : machine :=
  mk_machine s (m_line m) (m_fields m) (m_length m) (m_chunked m) (m_close m) (m_keep m) (m_code m) (m_version m) (m_head m) (m_body m) (m_left m).
Definition with_line (l : list Z) (m : machine) : machine :=
  mk_machine (m_state m) l (m_fields m) (m_length m) (m_chunked m) (m_close m) (m_keep m) (m_code m) (m_version m) (m_head m) (m_body m) (m_left m).
Definition with_fields (fs : list (list Z * list Z)) (m : machine) : machine :=
  mk_machine (m_state m) (m_line m) fs (m_length m) (m_chunked m) (m_close m) (m_keep m) (m_code m) (m_version m) (m_head m) (m_body m) (m_left m).
Definition with_framing (len : option Z) (chunked close keep : bool) (m : machine) : machine :=
  mk_machine (m_state m) (m_line m) (m_fields m) len chunked close keep (m_code m) (m_version m) (m_head m) (m_body m) (m_left m).
Definition with_keep (keep : bool) (m : machine) : machine := with_framing (m_length m) (m_chunked m) (m_close m) keep m.
Definition with_body (b : list Z) (left : Z) (m : machine) : machine :=
  mk_machine (m_state m) (m_line m) (m_fields m) (m_length m) (m_chunked m) (m_close m) (m_keep m) (m_code m) (m_version m) (m_head m) b left.

(** A machine that awaits a status line. *)
Definition start (head : bool) : machine := mk_machine status_line [] [] None false false true 0 http_1_1 head [] 0.

Definition outcome : Type := error_code + machine.

(** What a header field says about the message. *)
Definition on_field (m : machine) (f : list Z * list Z) : outcome :=
  if is_named "content-length" f then
    match decimal f.2 with
    | None => inl malformed_message
    | Some n => if match m_length m with Some n' => n' =? n | None => true end then inr (with_framing (Some n) (m_chunked m) (m_close m) (m_keep m) m) else inl malformed_message
    end
  else if is_named "transfer-encoding" f then
    if same_text (strip f.2) (chars "chunked") then if EnableChunked then inr (with_framing (m_length m) true (m_close m) (m_keep m) m) else inl chunked_not_supported
    else inl unsupported_feature
  else if is_named "connection" f then
    if lists_token f.2 (chars "close") then inr (with_framing (m_length m) (m_chunked m) true false m)
    else if negb (m_close m) && lists_token f.2 (chars "keep-alive") then inr (with_keep true m)
    else inr m
  else inr m.

(** The field of a line joins the others. *)
Definition add_field (m : machine) (bad : error_code) (line : list Z) (next : machine -> list Z * list Z -> outcome) : outcome :=
  match split_line line with
  | None => inl bad
  | Some f =>
      match spec_add MaxHeaders MaxNameSize MaxValueSize (m_fields m) f with
      | (s_ok, fs) => next (with_fields fs m) f
      | (s_full, _) | (s_out_of_range, _) => inl header_limit
      | _ => inl bad
      end
  end.

Definition on_headers_done (m : machine) : outcome :=
  if match m_length m with Some _ => true | None => false end && m_chunked m then inl malformed_message
  else if (100 <=? m_code m) && (m_code m <? 200) && negb (m_code m =? 101) then inr (start (m_head m))
  else if m_code m =? 101 then inl unsupported_feature
  else if m_head m || (m_code m =? 204) || (m_code m =? 304) then inr (to_state complete m)
  else if m_chunked m then inr (to_state chunk_size m)
  else match m_length m with
  | Some n => if (Z.of_nat MaxBodySize <? n) && negb callback then inl body_limit else if n =? 0 then inr (to_state complete m) else inr (to_state fixed_body m)
  | None => inr (to_state close_body (with_keep false m))
  end.

Definition on_line (m : machine) (line : list Z) : outcome :=
  match m_state m with
  | status_line =>
      match status_of line with
      | None => inl malformed_status_line
      | Some (v, code) => inr (mk_machine header_line (m_line m) (m_fields m) (m_length m) (m_chunked m) false (bool_decide (v = http_1_1)) code v (m_head m) (m_body m) (m_left m))
      end
  | header_line => match line with [] => on_headers_done m | _ => add_field m invalid_header line on_field end
  | chunk_size =>
      match hexadecimal (substr line 0 (find line 59 0)) with
      | None => inl invalid_chunk
      | Some n => inr (to_state (if n =? 0 then trailer_line else chunk_data) (with_body (m_body m) n m))
      end
  | trailer_line =>
      match line with
      | [] => inr (to_state complete m)
      | _ => match split_line line with
             | Some f => if forbidden_trailer f then inl invalid_chunk else add_field m invalid_chunk line (fun m _ => inr m)
             | None => inl invalid_chunk
             end
      end
  | _ => inl malformed_message
  end.

Definition on_byte (m : machine) (c : Z) : outcome :=
  match m_state m with
  | status_line | header_line | chunk_size | trailer_line =>
      if (MaxLineSize <=? length (m_line m))%nat then inl header_line_limit
      else
        let l := m_line m ++ [c] in
        if c =? 10 then match strip_crlf l with Some line => on_line (with_line [] m) line | None => inl malformed_message end
        else inr (with_line l m)
  | fixed_body | close_body | chunk_data =>
      if negb callback && (MaxBodySize <=? length (m_body m))%nat then inl body_limit
      else
        let b := m_body m ++ [c] in
        match m_state m with
        | fixed_body => inr (if bool_decide (m_length m = Some (Z.of_nat (length b))) then to_state complete (with_body b (m_left m) m) else with_body b (m_left m) m)
        | chunk_data => inr (if m_left m =? 1 then to_state chunk_data_cr (with_body b 0 m) else with_body b (m_left m - 1) m)
        | _ => inr (with_body b (m_left m) m)
        end
  | chunk_data_cr => if c =? 13 then inr (to_state chunk_data_lf m) else inl invalid_chunk
  | _ => if c =? 10 then inr (to_state chunk_size m) else inl invalid_chunk
  end.

(** The bytes are used up, a response is complete with bytes left, or there is an error. *)
Inductive result : Type := More (m : machine) | Finished (m : machine) (rest : list Z) | Failed (e : error_code).

Fixpoint run (m : machine) (bs : list Z) : result :=
  match bs with
  | [] => More m
  | c :: bs =>
      match on_byte m c with
      | inl e => Failed e
      | inr m' => if decide (m_state m' = complete) then Finished m' bs else run m' bs
      end
  end.

(** A run does not depend on how its bytes are divided. *)
Lemma run_app m a b : run m (a ++ b) = match run m a with More m' => run m' b | Finished m' rest => Finished m' (rest ++ b) | Failed e => Failed e end.
Proof.
  revert m. induction a as [|c a IH]; intros m; [done|]. cbn [app run]. destruct (on_byte m c) as [e|m']; [done|]. destruct (decide (m_state m' = complete)); [done|]. apply IH.
Qed.

(** ** Runs over lines *)

Definition crlf : list Z := [13; 10].
(** A line that fits the buffer with its CRLF. *)
Definition good_line (l : list Z) : Prop := 10 ∉ l /\ (length l + 2 <= MaxLineSize)%nat.
Definition in_lines (m : machine) : Prop := m_state m = status_line \/ m_state m = header_line \/ m_state m = chunk_size \/ m_state m = trailer_line.
(** A machine at the start of a line. *)
Definition at_line (m : machine) : Prop := in_lines m /\ m_line m = [].

Definition continue (o : outcome) (bs : list Z) : result :=
  match o with inl e => Failed e | inr m => if decide (m_state m = complete) then Finished m bs else run m bs end.

Lemma run_cons m c bs : run m (c :: bs) = continue (on_byte m c) bs.
Proof. cbn [run]. unfold continue. by destruct (on_byte m c). Qed.

Lemma on_byte_in_lines m c : in_lines m -> on_byte m c =
  if (MaxLineSize <=? length (m_line m))%nat then inl header_line_limit
  else if c =? 10 then match strip_crlf (m_line m ++ [c]) with Some line => on_line (with_line [] m) line | None => inl malformed_message end
  else inr (with_line (m_line m ++ [c]) m).
Proof. unfold on_byte. intros [-> |[-> |[-> | ->]]]; reflexivity. Qed.

Lemma in_lines_not_complete m : in_lines m -> m_state m <> complete.
Proof. intros [-> |[-> |[-> | ->]]]; done. Qed.

Lemma with_line_same m : with_line (m_line m) m = m.
Proof. by destruct m. Qed.

(** Bytes other than line feeds collect in the line. *)
Lemma run_collect m bs : in_lines m -> 10 ∉ bs -> (length (m_line m) + length bs <= MaxLineSize)%nat -> run m bs = More (with_line (m_line m ++ bs) m).
Proof.
  revert m. induction bs as [|c bs IH]; intros m Hm Hno Hl; [by rewrite app_nil_r, with_line_same|]. apply not_elem_of_cons in Hno as [N Hno]. cbn [length] in Hl.
  rewrite run_cons, on_byte_in_lines, (proj2 (Nat.leb_gt _ _)), (proj2 (Z.eqb_neq c 10)) by (done || lia). cbn [continue].
  rewrite decide_False by (by apply in_lines_not_complete). rewrite IH by (done || (cbn [m_line with_line]; rewrite length_app; cbn [length]; lia)). cbn [m_line with_line]. by rewrite <-app_assoc.
Qed.

Lemma strip_crlf_line l : strip_crlf (l ++ crlf) = Some l.
Proof.
  unfold strip_crlf. rewrite length_app. cbn [length crlf]. rewrite (proj2 (Nat.ltb_ge _ _)), Nat.add_sub by lia. rewrite lookup_app_r, Nat.sub_diag by lia. rewrite bool_decide_eq_true_2 by done. f_equal. apply take_app_length.
Qed.

Lemma strip_crlf_inv a l : strip_crlf (a ++ [10]) = Some l -> a = l ++ [13].
Proof.
  unfold strip_crlf. rewrite length_app. cbn [length]. destruct (Nat.ltb_spec (length a + 1) 2) as [|Hl]; [done|]. case_bool_decide as H; [|done]. intros [= <-].
  replace (length a + 1 - 2)%nat with (length a - 1)%nat in * by lia. rewrite lookup_app_l in H by lia. rewrite take_app_le by lia. rewrite <-(take_drop (length a - 1) a) at 1. f_equal.
  rewrite (drop_S _ _ _ H). f_equal. apply drop_ge. lia.
Qed.

Lemma run_line m l bs : at_line m -> good_line l -> run m (l ++ crlf ++ bs) = continue (on_line m l) bs.
Proof.
  intros [Hm El] [Hno Hl]. change (l ++ crlf ++ bs) with (l ++ [13] ++ 10 :: bs). rewrite app_assoc, run_app, run_collect by (done || (rewrite El, length_app; cbn; lia) || (rewrite not_elem_of_app, list_elem_of_singleton; done)).
  rewrite El, app_nil_l, run_cons, on_byte_in_lines by done. cbn [m_line with_line]. rewrite (proj2 (Nat.leb_gt _ _)) by (rewrite length_app; cbn; lia). rewrite Z.eqb_refl, <-app_assoc. change ([13] ++ [10]) with crlf. rewrite strip_crlf_line.
  f_equal. f_equal. rewrite <-El. by destruct m.
Qed.

(** A run that ends or leaves the line has read a whole line. *)
Lemma run_line_inv m bs : at_line m -> (exists l rest, bs = l ++ crlf ++ rest /\ good_line l) \/ (exists m', run m bs = More m' /\ in_lines m') \/ (exists e, run m bs = Failed e).
Proof.
  intros [Hm El]. assert (H : (exists a r, bs = a ++ 10 :: r /\ 10 ∉ a) \/ 10 ∉ bs).
  { destruct (decide (10 ∈ bs)) as [(a & r & -> & Ha)%list_elem_of_split_l|Hno]; [left; by exists a, r|by right]. }
  assert (Hlong : forall a r, bs = a ++ r -> 10 ∉ a -> (MaxLineSize < length a)%nat -> exists e, run m bs = Failed e).
  { intros a r -> Ha Hlt. assert (Hlk : is_Some (a !! MaxLineSize)) by (apply lookup_lt_is_Some_2; lia). destruct Hlk as [c Hc]. rewrite <-(take_drop_middle a MaxLineSize c Hc), <-app_assoc, run_app.
    assert (Ht : length (take MaxLineSize a) = MaxLineSize) by (rewrite length_take; lia). rewrite run_collect.
    - cbn [app]. rewrite run_cons, on_byte_in_lines by done. cbn [m_line with_line]. rewrite El, app_nil_l, Ht, Nat.leb_refl. by eexists.
    - done.
    - intros Hin. apply Ha. apply elem_of_take in Hin as (? & Hx & _). by apply list_elem_of_lookup_2 in Hx.
    - rewrite El, Ht. cbn. lia. }
  destruct H as [(a & r & -> & Ha)|Hno].
  - destruct (Nat.lt_ge_cases MaxLineSize (length a)) as [Hlt|Hle]; [right; right; by eapply Hlong|]. rewrite run_app, run_collect by (done || (rewrite El; cbn; lia)). rewrite El, app_nil_l, run_cons, on_byte_in_lines by done. cbn [m_line with_line].
    destruct (Nat.leb_spec MaxLineSize (length a)); [right; right; by eexists|]. rewrite Z.eqb_refl. destruct (strip_crlf (a ++ [10])) as [l|] eqn:Es; [|right; right; by eexists].
    apply strip_crlf_inv in Es as ->. left. exists l, r. rewrite <-app_assoc. split; [done|]. rewrite not_elem_of_app, length_app in *. cbn [length] in *. split; [apply Ha|lia].
  - destruct (Nat.lt_ge_cases MaxLineSize (length bs)) as [Hlt|Hle]; [right; right; apply (Hlong bs []); [by rewrite app_nil_r|done|done]|].
    right; left. rewrite run_collect by (done || (rewrite El; cbn; lia)). by eexists.
Qed.

(** ** Header fields and trailers *)

(** Lines of fields, each with its CRLF. *)
Inductive fields_bytes : list Z -> list (list Z * list Z) -> Prop :=
| fields_nil : fields_bytes [] []
| fields_cons line f bs l : good_line line -> field_line line f -> fields_bytes bs l -> fields_bytes (line ++ crlf ++ bs) (f :: l).

(** The machine takes the field [f]. *)
Definition takes (m : machine) (f : list Z * list Z) (m' : machine) : Prop := exists fs,
  spec_add MaxHeaders MaxNameSize MaxValueSize (m_fields m) f = (s_ok, fs) /\
  if decide (m_state m = header_line) then on_field (with_fields fs m) f = inr m' else forbidden_trailer f = false /\ m' = with_fields fs m.
Inductive takes_all : machine -> list (list Z * list Z) -> machine -> Prop :=
| takes_nil m : takes_all m [] m
| takes_cons m f l m1 m2 : takes m f m1 -> takes_all m1 l m2 -> takes_all m (f :: l) m2.

Definition in_fields (m : machine) : Prop := (m_state m = header_line \/ m_state m = trailer_line) /\ m_line m = [].

Lemma in_fields_at_line m : in_fields m -> at_line m.
Proof. intros [[H|H] El]; (split; [|done]); unfold in_lines; auto. Qed.

Lemma field_line_not_empty l f : field_line l f -> l <> [].
Proof. intros (rest & -> & _) H. destruct f.1; discriminate H. Qed.

Lemma on_line_field m line m' : in_fields m -> line <> [] -> on_line m line = inr m' <-> exists f, field_line line f /\ takes m f m'.
Proof.
  intros [Hm _] Hne. assert (E : on_line m line = inr m' <-> exists f, split_line line = Some f /\ takes m f m').
  { unfold on_line, takes. destruct line as [|c line]; [done|]. destruct Hm as [Em|Em]; rewrite Em; unfold add_field;
      (destruct (split_line (c :: line)) as [f|]; [|split; [done|by intros (f & [=] & _)]]).
    - destruct (spec_add _ _ _ (m_fields m) f) as [st fs] eqn:Ea. split.
      + intros H. exists f. split; [done|]. exists fs. rewrite decide_True by done. destruct st; try discriminate H. done.
      + intros (g & [= <-] & fs' & Ea' & H). rewrite Ea in Ea'. injection Ea' as -> ->. by rewrite decide_True in H.
    - split.
      + intros H. exists f. split; [done|]. destruct (forbidden_trailer f) eqn:Ef; [discriminate H|]. destruct (spec_add _ _ _ (m_fields m) f) as [st fs] eqn:Ea. exists fs. rewrite decide_False by done. destruct st; try discriminate H. by injection H as <-.
      + intros (g & [= <-] & fs' & Ea & H). rewrite decide_False in H by done. destruct H as [Ef ->]. by rewrite Ef, Ea. }
  rewrite E. split; intros (f & H & Ht); exists f; (split; [by apply split_line_field|done]).
Qed.

Lemma on_field_framing m f m' : on_field m f = inr m' -> exists len ch cl kp, m' = with_framing len ch cl kp m.
Proof.
  unfold on_field, with_keep. intros H. assert (Hm : m = with_framing (m_length m) (m_chunked m) (m_close m) (m_keep m) m) by (by destruct m).
  repeat match type of H with context [if ?b then _ else _] => destruct b | context [match ?o with Some _ => _ | None => _ end] => destruct o end; try discriminate H; injection H as <-; eauto.
Qed.

Lemma takes_in_fields m f m' : in_fields m -> takes m f m' -> in_fields m' /\ m_state m' = m_state m.
Proof.
  intros [Hm El] (fs & _ & H). case_decide.
  - apply on_field_framing in H as (len & ch & cl & kp & ->). done.
  - destruct H as [_ ->]. done.
Qed.

Lemma takes_not_complete m f m' : in_fields m -> takes m f m' -> m_state m' <> complete.
Proof. intros Hm Ht. destruct (takes_in_fields m f m' Hm Ht) as [[[-> | ->] _] _]; done. Qed.

(** A run has left the lines: it is complete, or waits for the end of the stream. *)
Definition ends (r : result) : Prop := match r with Failed _ => False | More m => m_state m = close_body | Finished _ _ => True end.

Lemma empty_line_good : good_line [].
Proof. split; [apply not_elem_of_nil|pose proof line_room; cbn; lia]. Qed.

Lemma run_fields m bs l m' rest : in_fields m -> fields_bytes bs l -> takes_all m l m' -> run m (bs ++ crlf ++ rest) = continue (on_line m' []) rest.
Proof.
  intros Hm Hb Ht. revert m Hm Ht. induction Hb as [|line f bs l Hl Hf Hb IH]; intros m Hm Ht; inversion Ht as [|? ? ? m1 ? H1 H2]; subst.
  - apply (run_line m' [] rest); [by apply in_fields_at_line|by apply empty_line_good].
  - rewrite <-!app_assoc, run_line by (done || by apply in_fields_at_line). assert (E : on_line m line = inr m1) by (apply on_line_field; [done|by eapply field_line_not_empty|by exists f]).
    rewrite E. cbn [continue]. rewrite decide_False by (by eapply takes_not_complete). apply IH; [by eapply takes_in_fields|done].
Qed.

Lemma run_at_line m bs : at_line m -> ends (run m bs) -> exists l rest, bs = l ++ crlf ++ rest /\ good_line l /\ run m bs = continue (on_line m l) rest.
Proof.
  intros Hm He. destruct (run_line_inv m bs Hm) as [(l & rest & -> & Hl)|[(m' & E & Hm')|(e & E)]].
  - exists l, rest. split; [done|]. split; [done|]. by apply run_line.
  - rewrite E in He. cbn in He. unfold in_lines in Hm'. rewrite He in Hm'. by destruct Hm' as [?|[?|[?|?]]].
  - by rewrite E in He.
Qed.

Lemma run_fields_inv m bs : in_fields m -> ends (run m bs) ->
  exists fs l m' rest, bs = fs ++ crlf ++ rest /\ fields_bytes fs l /\ takes_all m l m' /\ run m bs = continue (on_line m' []) rest.
Proof.
  remember (length bs) as n eqn:En. revert m bs En. induction (lt_wf n) as [n _ IH]. intros m bs -> Hm He.
  destruct (run_at_line m bs (in_fields_at_line m Hm) He) as (line & rest & -> & Hl & E). destruct line as [|c line].
  - exists [], [], m, rest. split; [done|]. split; [constructor|]. split; [constructor|done].
  - rewrite E in He. destruct (on_line m (c :: line)) as [e|m1] eqn:Eo; [done|]. apply on_line_field in Eo as (f & Hf & Ht); [|done|done].
    cbn [continue] in E, He. rewrite decide_False in E, He by (by eapply takes_not_complete).
    destruct (IH (length rest)) with (m := m1) (bs := rest) as (fs & l & m' & rest' & -> & Hb & Hts & E'); [rewrite !length_app; cbn; lia|done|by eapply takes_in_fields|done|].
    exists ((c :: line) ++ crlf ++ fs), (f :: l), m', rest'. split; [by rewrite <-!app_assoc|]. split; [by constructor|]. split; [by econstructor|]. by rewrite E.
Qed.
(** ** What the fields say *)

Definition names_length (f : list Z * list Z) : bool := is_named "content-length" f.
Definition names_coding (f : list Z * list Z) : bool := negb (names_length f) && is_named "transfer-encoding" f.
Definition names_connection (f : list Z * list Z) : bool := negb (names_length f) && negb (is_named "transfer-encoding" f) && is_named "connection" f.
Definition closes (f : list Z * list Z) : bool := names_connection f && lists_token f.2 (chars "close").
Definition keeps (f : list Z * list Z) : bool := names_connection f && lists_token f.2 (chars "keep-alive").

Definition first_length (l : list (list Z * list Z)) : option Z := match filter names_length l with f :: _ => decimal f.2 | [] => None end.
(** The field fits the block, states the length [n] if it states one, and the only coding is [chunked]. *)
Definition field_ok (n : option Z) (f : list Z * list Z) : Prop :=
  well_formed f = true /\ fits MaxNameSize MaxValueSize f = true /\ (names_length f = true -> is_Some n /\ decimal f.2 = n) /\
  (names_coding f = true -> same_text (strip f.2) (chars "chunked") = true /\ EnableChunked = true).
Definition fields_ok (n : option Z) (l : list (list Z * list Z)) : Prop := Forall (field_ok n) l.

(** The machine after the fields [l]. *)
Definition after_fields (m : machine) (l : list (list Z * list Z)) : machine :=
  with_framing (match m_length m with Some n => Some n | None => first_length l end) (m_chunked m || existsb names_coding l)
    (m_close m || existsb closes l) (if existsb closes l then false else m_keep m || negb (m_close m) && existsb keeps l) (with_fields (m_fields m ++ l) m).

(** The length the message states, after the fields [l]. *)
Definition length_after (m : machine) (l : list (list Z * list Z)) : option Z := match m_length m with Some n => Some n | None => first_length l end.

Lemma with_fields_framing m fs : with_framing (m_length m) (m_chunked m) (m_close m) (m_keep m) (with_fields fs m) = with_fields fs m.
Proof. by destruct m. Qed.

Lemma first_length_cons f l : first_length (f :: l) = if names_length f then decimal f.2 else first_length l.
Proof. unfold first_length. rewrite filter_cons. destruct (names_length f); [by rewrite decide_True|by rewrite decide_False by (intros [])]. Qed.

Lemma spec_add_ok fs f fs' : (length fs <= MaxHeaders)%nat ->
  spec_add MaxHeaders MaxNameSize MaxValueSize fs f = (s_ok, fs') <-> well_formed f = true /\ fits MaxNameSize MaxValueSize f = true /\ (length fs + 1 <= MaxHeaders)%nat /\ fs' = fs ++ [f].
Proof.
  intros Hl. unfold spec_add. destruct (well_formed f); cbn [negb]; [|split; [done|by intros ([=] & _)]]. destruct (decide (length fs = MaxHeaders)).
  - split; [done|]. intros (_ & _ & H & _). lia.
  - destruct (fits _ _ f); [|split; [done|by intros (_ & [=] & _)]]. split; [intros [= <-]; repeat split; lia|by intros (_ & _ & _ & ->)].
Qed.

Lemma on_field_ok m f m' : on_field m f = inr m' <->
  (names_length f = true -> is_Some (length_after m [f]) /\ decimal f.2 = length_after m [f]) /\
  (names_coding f = true -> same_text (strip f.2) (chars "chunked") = true /\ EnableChunked = true) /\
  m' = with_framing (length_after m [f]) (m_chunked m || names_coding f) (m_close m || closes f) (if closes f then false else m_keep m || negb (m_close m) && keeps f) m.
Proof.
  unfold on_field, length_after, closes, keeps, names_coding, names_connection, with_keep. rewrite first_length_cons. fold (names_length f). destruct (names_length f); cbn [negb andb orb].
  - rewrite !orb_false_r. cbn [andb]. rewrite !andb_false_r, orb_false_r. split.
    + intros H. destruct (decimal f.2) as [n|]; [|discriminate H]. destruct (m_length m) as [k|].
      * destruct (k =? n) eqn:Ek; [|discriminate H]. apply Z.eqb_eq in Ek. subst k. injection H as <-. repeat split; eauto; done.
      * injection H as <-. repeat split; eauto; done.
    + intros (H1 & _ & ->). destruct (H1 eq_refl) as [[n Hn] Hd]. rewrite Hd, Hn. destruct (m_length m) as [n'|]; [injection Hn as ->; by rewrite Z.eqb_refl|done].
  - change (first_length []) with (@None Z). assert (El : match m_length m with Some n => Some n | None => None end = m_length m) by (by destruct (m_length m)). rewrite El. clear El.
    destruct (is_named "transfer-encoding" f); cbn [negb andb orb].
    + rewrite !orb_false_r, andb_false_r, orb_false_r, orb_true_r. destruct (same_text (strip f.2) (chars "chunked")).
      * destruct EnableChunked; split; [intros [= <-]; repeat split; done|by intros (_ & _ & ->)|done|intros (_ & H & _); by destruct (H eq_refl)].
      * split; [done|]. intros (_ & H & _). by destruct (H eq_refl).
    + rewrite !orb_false_r. destruct (is_named "connection" f); cbn [andb]; [|rewrite orb_false_r, andb_false_r, orb_false_r; destruct m; cbn; split; [intros [= <-]; done|by intros (_ & _ & ->)]].
      destruct (lists_token f.2 (chars "close")); [rewrite orb_true_r; split; [intros [= <-]; done|by intros (_ & _ & ->)]|]. rewrite orb_false_r.
      destruct (m_close m) eqn:Ec, (lists_token f.2 (chars "keep-alive")); cbn [negb andb]; rewrite ?orb_false_r, ?orb_true_r; (split; [intros [= <-]; repeat split; try done; by destruct m; cbn in *; subst|intros (_ & _ & ->); try done; f_equal; by destruct m; cbn in *; subst]).
Qed.

Lemma after_fields_nil m : after_fields m [] = m.
Proof. unfold after_fields. cbn [existsb]. rewrite app_nil_r, andb_false_r, !orb_false_r. destruct m as [? ? ? [n|]]; done. Qed.

Lemma after_fields_cons m f l : (names_length f = true -> is_Some (length_after m [f])) -> after_fields (after_fields m [f]) l = after_fields m (f :: l).
Proof.
  intros Hs. unfold after_fields. cbn [existsb m_length m_chunked m_close m_keep m_fields with_framing with_fields]. rewrite (first_length_cons f l), (first_length_cons f []), !orb_false_r, <-!app_assoc. cbn [app].
  unfold length_after in Hs. rewrite first_length_cons in Hs. unfold with_framing, with_fields. cbn. f_equal.
  - destruct (m_length m); [done|]. destruct (names_length f); [|done]. destruct (Hs eq_refl) as [n Hn]. by rewrite Hn.
  - by rewrite orb_assoc.
  - by rewrite orb_assoc.
  - destruct (closes f), (existsb closes l), (m_keep m), (m_close m), (keeps f), (existsb keeps l); done.
Qed.

Lemma length_after_cons m f l : (names_length f = true -> is_Some (length_after m [f])) -> length_after (after_fields m [f]) l = length_after m (f :: l).
Proof. intros Hs. by apply (f_equal m_length (after_fields_cons m f l Hs)). Qed.

Lemma takes_header m f m' : m_state m = header_line -> (length (m_fields m) <= MaxHeaders)%nat ->
  takes m f m' <-> field_ok (length_after m [f]) f /\ (length (m_fields m) + 1 <= MaxHeaders)%nat /\ m' = after_fields m [f].
Proof.
  intros Hm Hl. unfold takes, field_ok. split.
  - intros (fs & Ha & Hf). rewrite decide_True in Hf by done. apply spec_add_ok in Ha as (Hw & Hfit & Hroom & ->); [|done]. apply on_field_ok in Hf as (H1 & H2 & ->). split; [done|]. split; [done|].
    unfold after_fields. cbn [existsb]. by rewrite !orb_false_r.
  - intros ((Hw & Hfit & H1 & H2) & Hroom & ->). exists (m_fields m ++ [f]). split; [by apply spec_add_ok|]. rewrite decide_True by done. apply on_field_ok. split; [done|]. split; [done|].
    unfold after_fields. cbn [existsb]. by rewrite !orb_false_r.
Qed.

Lemma field_ok_after m f l : (names_length f = true -> is_Some (length_after m [f])) -> field_ok (length_after m [f]) f <-> field_ok (length_after m (f :: l)) f.
Proof.
  intros Hs. unfold field_ok. destruct (names_length f) eqn:En.
  - assert (E : length_after m (f :: l) = length_after m [f]). { destruct (Hs eq_refl) as [n Hn]. revert Hn. unfold length_after. rewrite !first_length_cons, En. by destruct (m_length m). } by rewrite E.
  - split; intros (? & ? & _ & ?); (split; [done|]); (split; [done|]); (split; [done|done]).
Qed.

Lemma length_after_named m f l : names_length f = true -> decimal f.2 = length_after m (f :: l) -> is_Some (length_after m (f :: l)) -> is_Some (length_after m [f]).
Proof. unfold length_after. rewrite !first_length_cons. by intros ->. Qed.

Lemma takes_all_header l m m' : m_state m = header_line -> (length (m_fields m) <= MaxHeaders)%nat ->
  takes_all m l m' <-> fields_ok (length_after m l) l /\ (length (m_fields m) + length l <= MaxHeaders)%nat /\ m' = after_fields m l.
Proof.
  revert m. induction l as [|f l IH]; intros m Hm Hl.
  - rewrite after_fields_nil. split; [intros H; inversion H; subst; repeat split; [constructor|cbn; lia]|intros (_ & _ & ->); constructor].
  - split.
    + intros H. inversion H as [|? ? ? m1 ? H1 H2]; subst. apply takes_header in H1 as (Hf & Hroom & ->); [|done|done]. assert (Hs : names_length f = true -> is_Some (length_after m [f])) by (intros En; apply Hf, En).
      apply IH in H2 as (Hfs & Hr & ->); [|done|cbn; rewrite length_app; cbn; lia]. rewrite length_after_cons in Hfs by done. cbn in Hr. rewrite length_app in Hr. cbn in Hr. split; [constructor; [by apply field_ok_after|done]|].
      split; [cbn; lia|]. by apply after_fields_cons.
    + intros (Hfs & Hr & ->). apply Forall_cons in Hfs as [Hf Hfs]. cbn in Hr. assert (Hs : names_length f = true -> is_Some (length_after m [f])).
      { intros En. destruct Hf as (_ & _ & Hn & _). destruct (Hn En). by eapply length_after_named. }
      econstructor; [apply takes_header; [done|done|]; split; [by apply (field_ok_after m f l)|split; [lia|done]]|]. apply IH; [done|cbn; rewrite length_app; cbn; lia|].
      rewrite length_after_cons by done. split; [done|]. split; [cbn; rewrite length_app; cbn; lia|]. symmetry. by apply after_fields_cons.
Qed.

(** Trailers only join the fields. *)
Definition trailers_ok (l : list (list Z * list Z)) : Prop := Forall (fun f => well_formed f = true /\ fits MaxNameSize MaxValueSize f = true /\ forbidden_trailer f = false) l.

Lemma takes_all_trailer l m m' : m_state m = trailer_line -> (length (m_fields m) <= MaxHeaders)%nat ->
  takes_all m l m' <-> trailers_ok l /\ (length (m_fields m) + length l <= MaxHeaders)%nat /\ m' = with_fields (m_fields m ++ l) m.
Proof.
  revert m. induction l as [|f l IH]; intros m Hm Hl.
  - assert (E : with_fields (m_fields m ++ []) m = m) by (rewrite app_nil_r; by destruct m). rewrite E. split; [intros H; inversion H; subst; repeat split; [constructor|cbn; lia]|intros (_ & _ & ->); constructor].
  - split.
    + intros H. inversion H as [|? ? ? m1 ? (fs & Ha & H1) H2]; subst. rewrite decide_False in H1 by (by rewrite Hm). destruct H1 as [Hb ->]. apply spec_add_ok in Ha as (Hw & Hfit & Hroom & ->); [|done].
      apply IH in H2 as (Hfs & Hr & ->); [|done|cbn; rewrite length_app; cbn; lia]. cbn in Hr. rewrite length_app in Hr. cbn in Hr. split; [by constructor|]. split; [cbn; lia|]. cbn [m_fields with_fields]. by rewrite <-app_assoc.
    + intros (Hfs & Hr & ->). apply Forall_cons in Hfs as [(Hw & Hfit & Hb) Hfs]. cbn in Hr. apply (takes_cons m f l (with_fields (m_fields m ++ [f]) m)).
      * exists (m_fields m ++ [f]). split; [apply spec_add_ok; [done|]; repeat split; (done || lia)|]. by rewrite decide_False by (by rewrite Hm).
      * apply IH; [done|cbn; rewrite length_app; cbn; lia|]. split; [done|]. split; [cbn; rewrite length_app; cbn; lia|]. cbn [m_fields with_fields]. by rewrite <-app_assoc.
Qed.

End Machine.
