(* ===== verification/Http1Response.v ===== *)
(** * HTTP/1.1 responses (castle_ext/protocols/http/http1.hpp)

    The responses of RFC 9112 as inductive relations on the octets: head blocks, the four ways
    to frame a body, interim responses; the machine of Http1Machine.v completes exactly on the
    responses within the limits. *)

From S2P Require Import Prelude Status Bytes Words StringView HttpHeaders Http1Text Http1Machine.
Open Scope Z_scope.

(** ** Responses *)

Record view : Type := mk_view { v_code : Z; v_version : version; v_fields : list (list Z * list Z); v_body : list Z; v_keep : bool }.

Section Response.
Context {C : config}.

Definition chunk_length (line : list Z) : option Z := hexadecimal (substr line 0 (find line 59 0)).

Inductive chunks : list Z -> list Z -> Prop :=
| chunks_nil : chunks [] []
| chunks_cons line data bs body :
    good_line line -> data <> [] -> chunk_length line = Some (Z.of_nat (length data)) -> chunks bs body ->
    chunks (line ++ crlf ++ data ++ crlf ++ bs) (data ++ body).

(** A body fits the buffer, unless a callback takes it. *)
Definition room (body : list Z) : Prop := callback = true \/ (length body <= MaxBodySize)%nat.

Definition bodiless (head : bool) (code : Z) : bool := head || (code =? 204) || (code =? 304).

(** The octets of the body behind a head with fields [l], the body, the trailers; [closed]: the end of the stream ends it. *)
Inductive body_of (head : bool) (code : Z) (l : list (list Z * list Z)) : bool -> list Z -> list Z -> list (list Z * list Z) -> Prop :=
| body_none : bodiless head code = true -> body_of head code l false [] [] []
| body_chunked bs data line ts tl :
    bodiless head code = false -> existsb names_coding l = true -> chunks bs data -> room data ->
    good_line line -> chunk_length line = Some 0 -> fields_bytes ts tl -> trailers_ok tl -> (length l + length tl <= MaxHeaders)%nat ->
    body_of head code l false (bs ++ line ++ crlf ++ ts ++ crlf) data tl
| body_fixed data :
    bodiless head code = false -> existsb names_coding l = false -> first_length l = Some (Z.of_nat (length data)) -> room data ->
    body_of head code l false data data []
| body_close data :
    bodiless head code = false -> existsb names_coding l = false -> first_length l = None -> room data ->
    body_of head code l true data data [].

(** A status line, fields and an empty line. *)
Inductive head_block : list Z -> version -> Z -> list (list Z * list Z) -> Prop :=
| head_block_intro line v code hs l :
    good_line line -> status_of line = Some (v, code) -> fields_bytes hs l -> (length l <= MaxHeaders)%nat ->
    fields_ok (first_length l) l -> (is_Some (first_length l) -> existsb names_coding l = false) ->
    head_block (line ++ crlf ++ hs ++ crlf) v code l.

Inductive response (head : bool) : bool -> list Z -> view -> Prop :=
| response_interim bs v code l closed rest w :
    head_block bs v code l -> code < 200 -> code <> 101 -> response head closed rest w -> response head closed (bs ++ rest) w
| response_final bs v code l closed body data tl :
    head_block bs v code l -> 200 <= code -> body_of head code l closed body data tl ->
    response head closed (bs ++ body)
      (mk_view code v (l ++ tl) data (if existsb closes l then false else negb closed && (bool_decide (v = http_1_1) || existsb keeps l))).

Definition view_of (m : machine) : view := mk_view (m_code m) (m_version m) (m_fields m) (m_body m) (m_keep m).

(** ** Heads *)

(** The machine behind a status line. *)
Definition headed (head : bool) (v : version) (code : Z) : machine :=
  mk_machine header_line [] [] None false false (bool_decide (v = http_1_1)) code v head [] 0.

Lemma start_at_line head : at_line (start head).
Proof. split; [by left|done]. Qed.

Lemma headed_in_fields head v code : in_fields (headed head v code).
Proof. split; [by left|done]. Qed.

Lemma run_head head bs v code l rest : head_block bs v code l -> run (start head) (bs ++ rest) = continue (on_headers_done (after_fields (headed head v code) l)) rest.
Proof.
  intros H. destruct H as [line v code hs l Hl Hs Hb Hlen Hok Hone]. rewrite <-!app_assoc, run_line by (done || apply start_at_line). unfold on_line at 1. cbn [m_state start]. rewrite Hs. cbn [continue m_state]. rewrite decide_False by done.
  change (mk_machine header_line _ _ _ _ _ _ _ _ _ _ _) with (headed head v code). rewrite (run_fields _ _ l (after_fields (headed head v code) l)).
  - done.
  - apply headed_in_fields.
  - done.
  - apply takes_all_header; [done|cbn; lia|]. split; [done|]. split; [cbn; lia|done].
Qed.

(** *** Bodies *)

Lemma on_byte_body m c : m_state m = fixed_body \/ m_state m = close_body \/ m_state m = chunk_data ->
  on_byte m c = if negb callback && (MaxBodySize <=? length (m_body m))%nat then inl body_limit
    else match m_state m with
        | fixed_body => inr (if bool_decide (m_length m = Some (Z.of_nat (length (m_body m ++ [c])))) then to_state complete (with_body (m_body m ++ [c]) (m_left m) m) else with_body (m_body m ++ [c]) (m_left m) m)
        | chunk_data => inr (if m_left m =? 1 then to_state chunk_data_cr (with_body (m_body m ++ [c]) 0 m) else with_body (m_body m ++ [c]) (m_left m - 1) m)
        | _ => inr (with_body (m_body m ++ [c]) (m_left m) m)
        end.
Proof. unfold on_byte. intros [E|[E|E]]; rewrite E; reflexivity. Qed.

Lemma room_test (b : list Z) c : negb callback && (MaxBodySize <=? length b)%nat = false <-> room (b ++ [c]).
Proof.
  unfold room. rewrite length_app. cbn. destruct callback; cbn [negb andb]; [split; auto|]. rewrite Nat.leb_gt. split; [intros; right; lia|intros [[=]|]; lia].
Qed.

Lemma room_prefix a b : room (a ++ b) -> room a.
Proof. unfold room. rewrite length_app. intros [H|H]; [by left|right; lia]. Qed.

Lemma with_body_same m : with_body (m_body m) (m_left m) m = m.
Proof. by destruct m. Qed.

Lemma run_fixed m n bs : m_state m = fixed_body -> m_length m = Some (Z.of_nat (length (m_body m) + n)) -> (0 < n)%nat ->
  (callback = true \/ length (m_body m) + n <= MaxBodySize)%nat ->
  run m bs = if decide (length bs < n)%nat then More (with_body (m_body m ++ bs) (m_left m) m)
    else Finished (to_state complete (with_body (m_body m ++ take n bs) (m_left m) m)) (drop n bs).
Proof.
  revert m n. induction bs as [|c bs IH]; intros m n Hm Hl Hn Hr.
  - rewrite decide_True by done. by rewrite app_nil_r, with_body_same.
  - rewrite run_cons, on_byte_body, (proj2 (room_test (m_body m) c)), Hm by (auto || (unfold room; rewrite length_app; cbn; destruct Hr; [by left|right; lia])).
    rewrite Hl. destruct n as [|[|n]]; [lia| |].
    + rewrite bool_decide_eq_true_2 by (rewrite length_app; done). cbn [continue m_state to_state]. rewrite decide_True, decide_False by (done || (cbn; lia)). done.
    + rewrite bool_decide_eq_false_2 by (rewrite length_app; cbn [length]; intros [=]; lia). cbn [continue m_state with_body]. rewrite Hm, decide_False by done.
      rewrite (IH _ (S n)); cbn [m_state m_length m_body m_left with_body].
      * cbn [length take drop]. destruct (decide (length bs < S n)%nat), (decide (S (length bs) < S (S n))%nat); try lia; cbn [app]; rewrite <-app_assoc; done.
      * done.
      * rewrite Hl, length_app. cbn [length]. do 2 f_equal. lia.
      * lia.
      * rewrite length_app. cbn [length]. destruct Hr; [by left|right; lia].
Qed.

Lemma run_close m bs : m_state m = close_body ->
  run m bs = if decide (room (m_body m ++ bs) \/ bs = []) then More (with_body (m_body m ++ bs) (m_left m) m) else Failed body_limit.
Proof.
  revert m. induction bs as [|c bs IH]; intros m Hm.
  - rewrite decide_True by auto. by rewrite app_nil_r, with_body_same.
  - rewrite run_cons, on_byte_body, Hm by auto. change (c :: bs) with ([c] ++ bs). rewrite app_assoc. destruct (negb callback && _) eqn:Et.
    + rewrite decide_False; [done|]. intros [H|[=]]. apply room_prefix, room_test in H. by rewrite H in Et.
    + apply (room_test _ c) in Et. cbn [continue m_state with_body]. rewrite Hm, decide_False, IH by done. cbn [m_body m_left with_body].
      destruct (decide (room ((m_body m ++ [c]) ++ bs) \/ bs = [])) as [Hd|Hd], (decide (room ((m_body m ++ [c]) ++ bs) \/ [c] ++ bs = [])) as [Hd'|Hd']; try done.
      * destruct Hd as [Hd|Hd]; [destruct Hd'; by left|]. subst bs. destruct Hd'. left. by rewrite app_nil_r.
      * destruct Hd' as [Hd'|[=]]. destruct Hd. by left.
Qed.

(** Chunk data: [n] bytes and a CRLF, or the run does not end. *)
Lemma run_data m n bs : m_state m = chunk_data -> m_left m = Z.of_nat n -> (0 < n)%nat ->
  ((n <= length bs)%nat /\ room (m_body m ++ take n bs) /\ run m bs = run (to_state chunk_data_cr (with_body (m_body m ++ take n bs) 0 m)) (drop n bs))
  \/ (~ (n <= length bs /\ room (m_body m ++ take n bs))%nat /\ ~ ends (run m bs)).
Proof.
  revert m n. induction bs as [|c bs IH]; intros m n Hm Hl Hn.
  - right. split; [cbn; lia|]. cbn. by rewrite Hm.
  - destruct n as [|n]; [lia|]. cbn [take drop]. rewrite run_cons, on_byte_body, Hm, Hl by auto. assert (E : m_body m ++ c :: take n bs = (m_body m ++ [c]) ++ take n bs) by by rewrite <-app_assoc.
    destruct (negb callback && _) eqn:Et.
    + right. split; [|by intros []]. intros [_ H]. rewrite E in H. apply room_prefix, room_test in H. by rewrite H in Et.
    + apply (room_test _ c) in Et. destruct n as [|n].
      * left. split; [cbn; lia|]. split; [done|]. done.
      * rewrite (proj2 (Z.eqb_neq _ _)) by lia. cbn [continue m_state with_body]. rewrite Hm, decide_False by done.
        destruct (IH (with_body (m_body m ++ [c]) (Z.of_nat (S (S n)) - 1) m) (S n)) as [(H1 & H2 & H3)|[H1 H2]]; cbn [m_left with_body]; [done|lia|lia| |].
        -- left. split; [cbn in *; lia|]. rewrite E. split; [done|]. rewrite H3. done.
        -- right. split; [|done]. rewrite E. intros [H3 H4]. apply H1. split; [cbn in *; lia|done].
Qed.

Lemma run_data_crlf m rest : m_state m = chunk_data_cr -> run m (crlf ++ rest) = run (to_state chunk_size m) rest.
Proof.
  intros Hm. unfold crlf. cbn [app]. rewrite run_cons. unfold on_byte. rewrite Hm. cbn [Z.eqb Pos.eqb continue]. rewrite decide_False by done.
  rewrite run_cons. unfold on_byte. cbn [m_state to_state Z.eqb Pos.eqb continue]. by rewrite decide_False.
Qed.

Lemma run_data_crlf_inv m bs : m_state m = chunk_data_cr -> ends (run m bs) -> exists rest, bs = crlf ++ rest.
Proof.
  intros Hm. destruct bs as [|c bs]; [cbn; by rewrite Hm|]. rewrite run_cons. unfold on_byte. rewrite Hm. destruct (Z.eqb_spec c 13) as [->|]; [|done]. cbn [continue]. rewrite decide_False by done.
  destruct bs as [|d bs]; [done|]. rewrite run_cons. unfold on_byte. cbn [m_state to_state]. destruct (Z.eqb_spec d 10) as [->|]; [|done]. intros _. by exists bs.
Qed.

Definition at_size (m : machine) : Prop := m_state m = chunk_size /\ m_line m = [].

Lemma at_size_line m : at_size m -> at_line m.
Proof. intros [H1 H2]. split; [unfold in_lines; auto|done]. Qed.

Lemma digits_value_nonneg base (dv : Z -> Z) (l : list Z) acc : 0 <= base -> 0 <= acc -> forallb (fun c => (0 <=? dv c) && (dv c <? base)) l = true -> 0 <= fold_left (fun acc c => acc * base + dv c) l acc.
Proof.
  revert acc. induction l as [|c l IH]; intros acc Hb Ha H; [done|]. cbn in *. apply andb_true_iff in H as [[H1 _]%andb_true_iff H]. apply Z.leb_le in H1. apply IH; [done|nia|done].
Qed.

Lemma chunk_length_nonneg line n : chunk_length line = Some n -> 0 <= n.
Proof. unfold chunk_length, hexadecimal, number. destruct (_ && _) eqn:E; [|done]. intros [= <-]. apply andb_true_iff in E as [[_ E]%andb_true_iff _]. by apply digits_value_nonneg. Qed.

Lemma on_line_size m line : m_state m = chunk_size -> on_line m line = match chunk_length line with
  | None => inl invalid_chunk | Some n => inr (to_state (if n =? 0 then trailer_line else chunk_data) (with_body (m_body m) n m)) end.
Proof. unfold on_line. by intros ->. Qed.

Lemma run_chunk m line data rest : at_size m -> good_line line -> data <> [] -> chunk_length line = Some (Z.of_nat (length data)) -> room (m_body m ++ data) ->
  run m (line ++ crlf ++ data ++ crlf ++ rest) = run (with_body (m_body m ++ data) 0 m) rest.
Proof.
  intros Hm Hl Hne Hn Hr. rewrite run_line by (done || by apply at_size_line). destruct Hm as [Hs El]. rewrite on_line_size, Hn by done. assert (Hpos : (0 < length data)%nat) by (destruct data; [done|cbn; lia]).
  rewrite (proj2 (Z.eqb_neq _ _)) by lia. cbn [continue]. rewrite decide_False by done.
  destruct (run_data (to_state chunk_data (with_body (m_body m) (Z.of_nat (length data)) m)) (length data) (data ++ crlf ++ rest)) as [(_ & _ & ->)|[H _]]; [done|done|done| |].
  - rewrite take_app_length, drop_app_length, run_data_crlf by done. f_equal. destruct m; cbn in *; subst. done.
  - destruct H. rewrite take_app_length, length_app. split; [lia|done].
Qed.

Lemma run_chunks m bs body rest : at_size m -> chunks bs body -> room (m_body m ++ body) -> exists k, run m (bs ++ rest) = run (with_body (m_body m ++ body) k m) rest.
Proof.
  intros Hm H. revert m Hm. induction H as [|line data bs body Hl Hne Hn H IH]; intros m Hm Hr.
  - exists (m_left m). by rewrite app_nil_r, with_body_same.
  - rewrite app_assoc in Hr. destruct (IH (with_body (m_body m ++ data) 0 m)) as [k E]; [by destruct Hm|done|]. exists k. rewrite <-!app_assoc, run_chunk by (done || by eapply room_prefix). rewrite E. cbn [m_body with_body]. by rewrite <-app_assoc.
Qed.

Lemma run_chunks_inv m bs : at_size m -> room (m_body m) -> ends (run m bs) ->
  exists cs body k line rest, bs = cs ++ line ++ crlf ++ rest /\ chunks cs body /\ room (m_body m ++ body) /\ good_line line /\ chunk_length line = Some 0 /\
    run m bs = run (to_state trailer_line (with_body (m_body m ++ body) k m)) rest.
Proof.
  remember (length bs) as n eqn:En. revert m bs En. induction (lt_wf n) as [n _ IH]. intros m bs -> Hm Hr He.
  destruct (run_at_line m bs (at_size_line m Hm) He) as (line & rest & -> & Hl & E). rewrite E in He. pose proof Hm as [Hs El]. rewrite on_line_size in E, He by done.
  destruct (chunk_length line) as [n|] eqn:Ec; [|done]. pose proof (chunk_length_nonneg _ _ Ec) as Hn. destruct (Z.eqb_spec n 0) as [->|Hnz].
  - cbn [continue] in E. rewrite decide_False in E by done. exists [], [], 0, line, rest. rewrite app_nil_r. repeat (split; [done || constructor|]). by rewrite E.
  - cbn [continue] in E, He. rewrite decide_False in E, He by done.
    destruct (run_data (to_state chunk_data (with_body (m_body m) n m)) (Z.to_nat n) rest) as [(H1 & H2 & H3)|[_ H]]; [done|cbn; lia|lia| |done].
    cbn [m_body to_state with_body] in H2, H3. rewrite H3 in E, He. destruct (run_data_crlf_inv _ _ (eq_refl : m_state (to_state chunk_data_cr _) = _) He) as [rest' Er]. rewrite Er, run_data_crlf in E, He by done.
    set (data := take (Z.to_nat n) rest) in *. assert (Hd : length data = Z.to_nat n) by (unfold data; rewrite length_take; lia). assert (Hrest : rest = data ++ crlf ++ rest') by (rewrite <-Er; unfold data; by rewrite take_drop). clearbody data.
    cbn in E, He. destruct m as [st ln fs len ch cl kp code v hd bd lf]; cbn in Hs, El, Hr, H2, E, He; subst st ln.
    match type of E with _ = run ?m' _ => destruct (IH (length rest')) with (m := m') (bs := rest') as (cs & body & k & line' & rest'' & H4 & H5 & H6 & H7 & H8 & H9) end.
    + rewrite Hrest. rewrite !length_app. cbn. lia.
    + done.
    + done.
    + done.
    + done.
    + exists (line ++ crlf ++ data ++ crlf ++ cs), (data ++ body), k, line', rest''. cbn [m_body to_state with_body] in H6, H9. rewrite Hrest, H4 at 1. rewrite <-!app_assoc. split; [done|]. split.
      { constructor; [done| |rewrite Hd, Z2Nat.id; done|done]. intros Hnil. rewrite Hnil in Hd. cbn in Hd. lia. }
      cbn [m_body]. split; [by rewrite app_assoc|]. split; [done|]. split; [done|]. etransitivity; [exact E|]. etransitivity; [exact H9|]. by rewrite <-app_assoc.
Qed.

(** ** The machine and the responses *)

(** The machine behind a head. *)
Definition decided (head : bool) (v : version) (code : Z) (l : list (list Z * list Z)) : machine := after_fields (headed head v code) l.
Definition shown (v : version) (code : Z) (l tl : list (list Z * list Z)) (closed : bool) (data : list Z) : view :=
  mk_view code v (l ++ tl) data (if existsb closes l then false else negb closed && (bool_decide (v = http_1_1) || existsb keeps l)).

(** The run completes with [rest] left over, or, [closed], waits for the end of the stream, and shows [w]. *)
Definition yields (closed : bool) (r : result) (rest : list Z) (w : view) : Prop :=
  exists m, view_of m = w /\ if closed then rest = [] /\ m_state m = close_body /\ r = More m else r = Finished m rest.

Lemma yields_ends closed r rest w : yields closed r rest w -> ends r.
Proof. intros (m & _ & H). destruct closed; [destruct H as (_ & H & ->)|subst r]; done. Qed.

(** What the fields of a head permit. *)
Definition coherent (l : list (list Z * list Z)) : Prop := is_Some (first_length l) -> existsb names_coding l = false.

Lemma headers_final head v code l : coherent l -> 200 <= code -> on_headers_done (decided head v code l) =
  if bodiless head code then inr (to_state complete (decided head v code l))
  else if existsb names_coding l then inr (to_state chunk_size (decided head v code l))
  else match first_length l with
  | Some n => if (Z.of_nat MaxBodySize <? n) && negb callback then inl body_limit else if n =? 0 then inr (to_state complete (decided head v code l)) else inr (to_state fixed_body (decided head v code l))
  | None => inr (to_state close_body (with_keep false (decided head v code l)))
  end.
Proof.
  intros Hc Hcode. unfold on_headers_done. change (m_length (decided head v code l)) with (first_length l). change (m_chunked (decided head v code l)) with (existsb names_coding l).
  change (m_code (decided head v code l)) with code. change (m_head (decided head v code l)) with head. rewrite (proj2 (Z.ltb_ge code 200)), andb_false_r, (proj2 (Z.eqb_neq code 101)) by lia.
  replace (_ && existsb names_coding l) with false; [done|]. unfold coherent in Hc. destruct (first_length l); [by rewrite Hc|done].
Qed.

Lemma view_decided head v code l : view_of (decided head v code l) = shown v code l [] false [].
Proof. unfold shown. rewrite app_nil_r. done. Qed.

Lemma decided_length head v code l : m_length (decided head v code l) = first_length l.
Proof. done. Qed.

Lemma decimal_nonneg l n : decimal l = Some n -> 0 <= n.
Proof. unfold decimal, number. destruct (_ && _) eqn:E; [|done]. intros [= <-]. apply andb_true_iff in E as [[_ E]%andb_true_iff _]. by apply digits_value_nonneg. Qed.

Lemma first_length_nonneg l n : first_length l = Some n -> 0 <= n.
Proof. unfold first_length. destruct (filter _ _); [done|]. apply decimal_nonneg. Qed.

Lemma room_length data : room data <-> (Z.of_nat MaxBodySize <? Z.of_nat (length data)) && negb callback = false.
Proof. unfold room. destruct callback; cbn [negb]; [rewrite andb_false_r; split; auto|]. rewrite andb_true_r, Z.ltb_ge. split; [intros [[=]|]; lia|intros; right; lia]. Qed.

Lemma run_trailers m ts tl rest : m_state m = trailer_line -> m_line m = [] -> fields_bytes ts tl -> trailers_ok tl -> (length (m_fields m) + length tl <= MaxHeaders)%nat ->
  run m (ts ++ crlf ++ rest) = Finished (to_state complete (with_fields (m_fields m ++ tl) m)) rest.
Proof.
  intros Hm El Hb Ht Hl. rewrite (run_fields m ts tl (with_fields (m_fields m ++ tl) m)).
  - unfold on_line. cbn [m_state with_fields]. rewrite Hm. done.
  - split; [auto|done].
  - done.
  - apply takes_all_trailer; [done|lia|]. done.
Qed.

Lemma body_run head v code l closed body data tl rest : coherent l -> 200 <= code -> body_of head code l closed body data tl -> (closed = true -> rest = []) ->
  yields closed (continue (on_headers_done (decided head v code l)) (body ++ rest)) rest (shown v code l tl closed data).
Proof.
  intros Hc Hcode H Hrest. rewrite headers_final by done. destruct H as [Hb|bs data line ts tl Hb Hco Hch Hr Hl Hz Hts Htl Hlen|data Hb Hco Hfl Hr|data Hb Hco Hfl Hr]; rewrite Hb.
  - exists (to_state complete (decided head v code l)). split; [apply view_decided|cbn [continue]; by rewrite decide_True].
  - rewrite Hco. cbn [continue]. rewrite decide_False by done. rewrite <-!app_assoc. destruct (run_chunks (to_state chunk_size (decided head v code l)) bs data (line ++ crlf ++ ts ++ crlf ++ rest)) as [k E]; [done|done|done|].
    rewrite E. eexists. split; [|rewrite run_line by (done || (split; [by right; right; left|done])); rewrite on_line_size, Hz by done; cbn [continue Z.eqb]; rewrite decide_False by done; apply run_trailers; done]. done.
  - rewrite Hco, Hfl, (proj1 (room_length data) Hr). destruct (Z.eqb_spec (Z.of_nat (length data)) 0) as [H0|H0].
    + destruct data; [|done]. exists (to_state complete (decided head v code l)). split; [apply view_decided|cbn [continue]; by rewrite decide_True].
    + cbn [continue]. rewrite decide_False by done. rewrite (run_fixed _ (length data)); [|done|exact Hfl|lia|by destruct Hr; [left|right]].
      rewrite decide_False by (rewrite length_app; lia). rewrite take_app_length, drop_app_length. eexists. split; [|done]. unfold view_of, shown. cbn. by rewrite app_nil_r.
  - rewrite Hco, Hfl. cbn [continue]. rewrite decide_False by done. rewrite run_close by done. assert (rest = []) as -> by (by apply Hrest). rewrite app_nil_r. rewrite decide_True by (left; exact Hr). exists (with_body data 0 (to_state close_body (with_keep false (decided head v code l)))). split; [|done]. unfold view_of, shown. cbn. rewrite app_nil_r. by destruct (existsb closes l).
Qed.

Lemma body_run_inv head v code l closed bs rest w : (length l <= MaxHeaders)%nat -> coherent l -> 200 <= code -> yields closed (continue (on_headers_done (decided head v code l)) bs) rest w ->
  exists body data tl, bs = body ++ rest /\ body_of head code l closed body data tl /\ w = shown v code l tl closed data.
Proof.
  intros Hlen Hc Hcode H. pose proof (yields_ends _ _ _ _ H) as He. destruct H as (m & <- & H). rewrite headers_final in H, He by done. destruct (bodiless head code) eqn:Eb; [|destruct (existsb names_coding l) eqn:Eco].
  - cbn [continue m_state to_state] in H. rewrite decide_True in H by done. destruct closed; [destruct H as (_ & _ & [=])|]. injection H as <- ->. exists [], [], []. split; [done|]. split; [by constructor|]. apply view_decided.
  - cbn [continue m_state to_state] in H, He. rewrite decide_False in H, He by done.
    destruct (run_chunks_inv (to_state chunk_size (decided head v code l)) bs) as (cs & data & k & line & rest' & -> & Hch & Hr & Hl & Hz & E); [done|right; cbn; lia|done|]. cbn [m_body to_state decided app] in Hr. rewrite E in H, He.
    match type of He with ends (run ?m' _) => destruct (run_fields_inv m' rest') as (ts & tl & m1 & rest'' & -> & Hb & Ht & E') end; [split; [by right|done]|done|].
    apply takes_all_trailer in Ht as (Hok & Hlt & ->); [|done|done]. rewrite E' in H. cbn [on_line m_state with_fields to_state continue] in H. rewrite decide_True in H by done.
    destruct closed; [destruct H as (_ & _ & [=])|]. injection H as <- ->. exists (cs ++ line ++ crlf ++ ts ++ crlf), data, tl. split; [by rewrite <-!app_assoc|]. split; [by constructor|]. done.
  - destruct (first_length l) as [n|] eqn:Ef.
    + pose proof (first_length_nonneg _ _ Ef) as Hn. destruct (_ && negb callback) eqn:Er; [done|]. destruct (Z.eqb_spec n 0) as [->|Hnz].
      * cbn [continue m_state to_state] in H. rewrite decide_True in H by done. destruct closed; [destruct H as (_ & _ & [=])|]. injection H as <- ->. exists [], [], []. split; [done|]. split; [|apply view_decided]. apply body_fixed; [done..|right; cbn; lia].
      * cbn [continue m_state to_state] in H. rewrite decide_False in H by done. assert (Hroom : callback = true \/ (Z.to_nat n <= MaxBodySize)%nat).
        { destruct callback; [by left|]. rewrite andb_true_r, Z.ltb_ge in Er. right. lia. }
        rewrite (run_fixed _ (Z.to_nat n)) in H; [|done|rewrite decided_length || idtac; change (first_length l = Some (Z.of_nat (Z.to_nat n))); by rewrite Z2Nat.id|lia|done].
        case_decide as Hd; [destruct closed; [destruct H as (_ & H1 & [= <-]); discriminate H1|discriminate H]|]. destruct closed; [destruct H as (_ & _ & [=])|]. injection H as <- <-.
        assert (Ht : length (take (Z.to_nat n) bs) = Z.to_nat n) by (rewrite length_take; lia). exists (take (Z.to_nat n) bs), (take (Z.to_nat n) bs), []. split; [by rewrite take_drop|]. split.
        -- apply body_fixed; [done|done|by rewrite Ht, Z2Nat.id|unfold room; by rewrite Ht].
        -- unfold view_of, shown. cbn. by rewrite app_nil_r.
    + cbn [continue m_state to_state] in H. rewrite decide_False, run_close in H by done. case_decide as Hd; [|destruct closed; [destruct H as (_ & _ & [=])|discriminate H]].
      destruct closed; [|discriminate H]. destruct H as (-> & _ & [= <-]). exists bs, bs, []. split; [by rewrite app_nil_r|]. split.
      * apply body_close; [done..|]. destruct Hd as [Hd| ->]; [done|right; cbn; lia].
      * unfold view_of, shown. cbn. rewrite app_nil_r. by destruct (existsb closes l).
Qed.

(** *** Heads, read back *)

Lemma status_of_range line v code : status_of line = Some (v, code) -> 100 <= code <= 599.
Proof.
  unfold status_of. destruct (version_of line); [|done]. destruct (drop 9 line) as [|a [|b [|c rest]]]; [done..|]. cbn. destruct (_ && (_ <=? 599)) eqn:E; [|done]. intros [= _ <-].
  apply andb_true_iff in E as [[_ E1]%andb_true_iff E2]. apply Z.leb_le in E1, E2. lia.
Qed.

Lemma headers_interim head v code l : coherent l -> 100 <= code < 200 -> code <> 101 -> on_headers_done (decided head v code l) = inr (start head).
Proof.
  intros Hc Hcode Hne. unfold on_headers_done. change (m_length (decided head v code l)) with (first_length l). change (m_chunked (decided head v code l)) with (existsb names_coding l).
  change (m_code (decided head v code l)) with code. change (m_head (decided head v code l)) with head. rewrite (proj2 (Z.leb_le 100 code)), (proj2 (Z.ltb_lt code 200)), (proj2 (Z.eqb_neq code 101)) by lia.
  replace (_ && existsb names_coding l) with false; [done|]. unfold coherent in Hc. destruct (first_length l); [by rewrite Hc|done].
Qed.

Lemma run_head_inv head bs : ends (run (start head) bs) ->
  exists b v code l rest, bs = b ++ rest /\ head_block b v code l /\ code <> 101 /\ run (start head) bs = continue (on_headers_done (decided head v code l)) rest.
Proof.
  intros He. destruct (run_at_line _ _ (start_at_line head) He) as (line & r1 & -> & Hl & E). unfold on_line in E. cbn [m_state start] in E. destruct (status_of line) as [[v code]|] eqn:Es; [|rewrite E in He; done].
  cbn [continue m_state] in E. rewrite decide_False in E by done. change (mk_machine header_line _ _ _ _ _ _ _ _ _ _ _) with (headed head v code) in E. rewrite E in He.
  destruct (run_fields_inv _ r1 (headed_in_fields head v code) He) as (hs & l & m' & rest & -> & Hb & Ht & E'). apply takes_all_header in Ht as (Hok & Hlen & ->); [|done|cbn; lia]. rewrite E' in E, He.
  assert (Hc : (is_Some (first_length l) -> existsb names_coding l = false) /\ code <> 101).
  { change (on_line _ []) with (on_headers_done (decided head v code l)) in He. unfold on_headers_done in He. change (m_length (decided head v code l)) with (first_length l) in He. change (m_chunked (decided head v code l)) with (existsb names_coding l) in He.
    change (m_code (decided head v code l)) with code in He. split.
    - intros [n Hn]. rewrite Hn in He. by destruct (existsb names_coding l).
    - intros ->. by destruct (_ && existsb names_coding l). }
  exists (line ++ crlf ++ hs ++ crlf), v, code, l, rest. split; [by rewrite <-!app_assoc|]. split; [constructor; try done; apply Hc|]. split; [apply Hc|]. exact E.
Qed.

Lemma head_block_facts b v code l : head_block b v code l -> (length l <= MaxHeaders)%nat /\ coherent l /\ 100 <= code <= 599 /\ (0 < length b)%nat.
Proof. intros [line v' code' hs l' Hl Hs Hb Hlen Hok Hc]. split; [done|]. split; [done|]. split; [by eapply status_of_range|]. rewrite !length_app. cbn. lia. Qed.

(** A run of the machine from the start completes with [rest] left over and shows [w] exactly when the bytes are a response,
    interim responses first, that shows [w], then [rest]; and it waits for the end of the stream exactly when all the bytes are a response that it ends. *)
Lemma yields_response head closed bs rest w :
  yields closed (run (start head) bs) rest w <-> exists pre, bs = pre ++ rest /\ (closed = true -> rest = []) /\ response head closed pre w.
Proof.
  split.
  - remember (length bs) as n eqn:En. revert bs En. induction (lt_wf n) as [n _ IH]. intros bs -> H. pose proof (yields_ends _ _ _ _ H) as He. assert (Hr : closed = true -> rest = []) by (intros ->; by destruct H as (m & _ & H & _)).
    destruct (run_head_inv head bs He) as (b & v & code & l & rest' & -> & Hb & Hne & E). rewrite E in H. destruct (head_block_facts b v code l Hb) as (Hlen & Hc & Hcode & Hpos). destruct (Z.lt_ge_cases code 200) as [Hlt|Hge].
    + rewrite headers_interim in H by (done || lia). cbn [continue] in H. rewrite decide_False in H by done. destruct (IH (length rest')) with (bs := rest') as (pre & -> & _ & Hresp); [rewrite length_app; lia|done|done|].
      exists (b ++ pre). split; [by rewrite app_assoc|]. split; [done|]. by eapply response_interim.
    + apply body_run_inv in H as (body & data & tl & -> & Hbody & ->); [|done..]. exists (b ++ body). split; [by rewrite app_assoc|]. split; [done|]. by apply response_final.
  - intros (pre & -> & Hrest & H). induction H as [b v code l closed pre w Hb Hlt Hne _ IH|b v code l closed body data tl Hb Hge Hbody]; destruct (head_block_facts b v code l Hb) as (Hlen & Hc & Hcode & Hpos); rewrite <-app_assoc, (run_head head b v code l) by done.
    + fold (decided head v code l). rewrite headers_interim by (done || lia). cbn [continue]. rewrite decide_False by done. by apply IH.
    + by apply body_run.
Qed.
End Response.
