(* ===== verification/Http1Parser.v ===== *)
(** * The HTTP/1.1 response parser (castle_ext/protocols/http/http1.hpp, [http1_response_parser])

    The parser with its arrays and counters, fed with segments of the stream; it computes the
    machine of Http1Machine.v, so that the responses it completes are those of Http1Response.v. *)

From S2P Require Import Prelude Status Bytes Words StringView HttpHeaders Http1Text Http1Machine Http1Response.
Open Scope Z_scope.

(** ** The code *)

Record line_buffer : Type := mk_line { line_ : list Z; line_size_ : nat }.
Record body_buffer : Type := mk_body { body_ : list Z; body_size_ : nat; body_received_ : Z; chunk_remaining_ : Z; streamed_ : bool }.
Record framing : Type := mk_framing {
  content_length_ : Z; content_length_seen_ : bool; chunked_seen_ : bool; connection_close_seen_ : bool; keep_alive_ : bool;
  status_code_ : Z; response_version_ : version }.
(** A view of a stored field: its slot with the sizes of its name and value, or no field. *)
Definition header_view : Type := option (nat * nat * nat).
Record field_store : Type := mk_store { headers_ : basic_headers; views_ : list header_view; header_count_ : nat }.
(** [calls]: what the body callback was called with. *)
Record parser : Type := mk_parser {
  state_ : parser_state; error_ : error_code; head_response_ : bool; line_buf : line_buffer; body_buf : body_buffer; frame : framing; store_ : field_store;
  body_callback_ : bool; calls : list (list Z) }.

Definition set_state (s : parser_state) (p : parser) : parser :=
  mk_parser s (error_ p) (head_response_ p) (line_buf p) (body_buf p) (frame p) (store_ p) (body_callback_ p) (calls p).
Definition set_line (l : line_buffer) (p : parser) : parser :=
  mk_parser (state_ p) (error_ p) (head_response_ p) l (body_buf p) (frame p) (store_ p) (body_callback_ p) (calls p).
Definition set_body (b : body_buffer) (p : parser) : parser :=
  mk_parser (state_ p) (error_ p) (head_response_ p) (line_buf p) b (frame p) (store_ p) (body_callback_ p) (calls p).
Definition set_frame (f : framing) (p : parser) : parser :=
  mk_parser (state_ p) (error_ p) (head_response_ p) (line_buf p) (body_buf p) f (store_ p) (body_callback_ p) (calls p).
Definition set_store (s : field_store) (p : parser) : parser :=
  mk_parser (state_ p) (error_ p) (head_response_ p) (line_buf p) (body_buf p) (frame p) s (body_callback_ p) (calls p).
Definition set_callback (installed : bool) (p : parser) : parser :=
  mk_parser (state_ p) (error_ p) (head_response_ p) (line_buf p) (body_buf p) (frame p) (store_ p) installed (calls p).
Definition called (data : list Z) (p : parser) : parser :=
  mk_parser (state_ p) (error_ p) (head_response_ p) (line_buf p) (body_buf p) (frame p) (store_ p) (body_callback_ p) (calls p ++ [data]).

Definition set_body_callback (valid : bool) (p : parser) : status * parser := if valid then (s_ok, set_callback true p) else (s_invalid_callback, p).
Definition clear_body_callback (p : parser) : parser := set_callback false p.

Definition fail (e : error_code) (p : parser) : status * parser :=
  (to_status e, mk_parser failed e (head_response_ p) (line_buf p) (body_buf p) (frame p) (store_ p) (body_callback_ p) (calls p)).
Definition mark_complete (p : parser) : parser := set_state complete p.

(** [headers_[i]]. *)
Definition view_at (h : basic_headers) (i : nat) : exec header_view :=
  if (size h <=? i)%nat then Done None else f ← load (fields_ h) i; Done (Some (i, name_size f, value_size f)).
Definition view_text (h : basic_headers) (v : header_view) : exec (list Z * list Z) :=
  match v with
  | None => Done ([], [])
  | Some (i, n, k) => f ← load (fields_ h) i; Done (take n (f_name f), take k (f_value f))
  end.

Section Parser.
Context {C : config}.

Definition parser_new : parser :=
  mk_parser status_line e_ok false (mk_line (replicate MaxLineSize 0) 0) (mk_body (replicate MaxBodySize 0) 0 0 0 false)
    (mk_framing 0 false false false true 0 http_1_1) (mk_store (headers_new MaxHeaders MaxNameSize MaxValueSize) (replicate MaxHeaders None) 0) false [].

Definition reset (head_response : bool) (p : parser) : parser :=
  mk_parser status_line e_ok head_response (mk_line (line_ (line_buf p)) 0) (mk_body (body_ (body_buf p)) 0 0 0 false)
    (mk_framing 0 false false false true 0 http_1_1) (mk_store (clear (headers_ (store_ p))) (views_ (store_ p)) 0) (body_callback_ p) (calls p).

Definition complete_ (p : parser) : bool := bool_decide (state_ p = complete).
Definition failed_ (p : parser) : bool := bool_decide (state_ p = failed).
Definition last_error (p : parser) : error_code := error_ p.
Definition body_received (p : parser) : Z := body_received_ (body_buf p).

(** [response_view]: the headers are [views_] up to [header_count_]. *)
Record response_view : Type := mk_response { r_code : Z; r_protocol : version; r_headers : list (list Z * list Z); r_body : list Z; r_keep_alive : bool; r_streamed : bool }.
Definition response (p : parser) : exec response_view :=
  hs ← for_to 0 (header_count_ (store_ p)) (fun i hs => v ← load (views_ (store_ p)) i; f ← view_text (headers_ (store_ p)) v; Done (hs ++ [f])) [];
  Done (mk_response (status_code_ (frame p)) (response_version_ (frame p)) hs (take (body_size_ (body_buf p)) (body_ (body_buf p))) (keep_alive_ (frame p)) (streamed_ (body_buf p))).

Definition parse_status (line : list Z) (p : parser) : exec (status * parser) :=
  let is_http_10 := (9 <=? length line)%nat && view_eq (substr line 0 (Some 9%nat)) (chars "HTTP/1.0 ") in
  let is_http_11 := (9 <=? length line)%nat && view_eq (substr line 0 (Some 9%nat)) (chars "HTTP/1.1 ") in
  if (length line <? 12)%nat || (negb is_http_10 && negb is_http_11) then Done (fail malformed_status_line p)
  else
    a ← load line 9; b ← load line 10; c ← load line 11;
    d ← (if (12 <? length line)%nat then load line 12 else Done 32);
    if (a <? 48) || (57 <? a) || (b <? 48) || (57 <? b) || (c <? 48) || (57 <? c) || negb (d =? 32) then Done (fail malformed_status_line p)
    else
      let f := frame p in
      let code := to_u16 ((a - 48) * 100 + (b - 48) * 10 + (c - 48)) in
      let p := set_frame (mk_framing (content_length_ f) (content_length_seen_ f) (chunked_seen_ f) false (negb is_http_10) code (if is_http_10 then http_1_0 else http_1_1)) p in
      if (code <? 100) || (599 <? code) then Done (fail malformed_status_line p)
      else Done (s_ok, set_state header_line p).

Definition headers_done (p : parser) : exec (status * parser) :=
  let f := frame p in
  if content_length_seen_ f && chunked_seen_ f then Done (fail malformed_message p)
  else
    let h := headers_ (store_ p) in
    let count := size h in
    vs ← for_to 0 count (fun i vs => v ← view_at h i; store vs i v) (views_ (store_ p));
    let p := set_store (mk_store h vs count) p in
    let code := status_code_ f in
    if (100 <=? code) && (code <? 200) && negb (code =? 101) then
      Done (s_ok, set_state status_line (set_frame (mk_framing 0 false false false true 0 http_1_1) (set_store (mk_store (clear h) vs 0) p)))
    else if code =? 101 then Done (fail unsupported_feature p)
    else if head_response_ p || (code =? 204) || (code =? 304) then Done (s_ok, mark_complete p)
    else if chunked_seen_ f then Done (s_ok, set_state chunk_size p)
    else if content_length_seen_ f then
      if 2 ^ 64 - 1 <? content_length_ f then Done (fail body_limit p)
      else if (Z.of_nat MaxBodySize <? content_length_ f) && negb (body_callback_ p) then Done (fail body_limit p)
      else if content_length_ f =? 0 then Done (s_ok, mark_complete p)
      else Done (s_ok, set_state fixed_body p)
    else
      Done (s_ok, set_frame (mk_framing (content_length_ f) (content_length_seen_ f) (chunked_seen_ f) (connection_close_seen_ f) false (status_code_ f) (response_version_ f))
                    (set_state close_body p)).

(** What a header field says about the message. *)
Definition consume_field (name value : list Z) (p : parser) : exec (status * parser) :=
  let f := frame p in
  is_length ← ascii_iequal name (chars "content-length");
  if is_length : bool then
    parsed ← parse_decimal value;
    match parsed with
    | None => Done (fail malformed_message p)
    | Some n =>
        if content_length_seen_ f && negb (n =? content_length_ f) then Done (fail malformed_message p)
        else Done (s_ok, set_frame (mk_framing n true (chunked_seen_ f) (connection_close_seen_ f) (keep_alive_ f) (status_code_ f) (response_version_ f)) p)
    end
  else
    is_coding ← ascii_iequal name (chars "transfer-encoding");
    if is_coding : bool then
      t ← trim_ows value;
      is_chunked ← ascii_iequal t (chars "chunked");
      if is_chunked : bool then
        let p := set_frame (mk_framing (content_length_ f) (content_length_seen_ f) true (connection_close_seen_ f) (keep_alive_ f) (status_code_ f) (response_version_ f)) p in
        if negb EnableChunked then Done (fail chunked_not_supported p) else Done (s_ok, p)
      else Done (fail unsupported_feature p)
    else
      is_connection ← ascii_iequal name (chars "connection");
      if is_connection : bool then
        is_close ← contains_token value (chars "close");
        if is_close : bool then
          Done (s_ok, set_frame (mk_framing (content_length_ f) (content_length_seen_ f) (chunked_seen_ f) true false (status_code_ f) (response_version_ f)) p)
        else
          keep ← (if connection_close_seen_ f then Done false else contains_token value (chars "keep-alive"));
          if keep : bool then
            Done (s_ok, set_frame (mk_framing (content_length_ f) (content_length_seen_ f) (chunked_seen_ f) (connection_close_seen_ f) true (status_code_ f) (response_version_ f)) p)
          else Done (s_ok, p)
      else Done (s_ok, p).

(** [headers_.add] and the error that answers its status. *)
Definition add_header (bad : error_code) (name value : list Z) (p : parser) : exec (status * parser) :=
  '(added, h) ← add MaxHeaders MaxNameSize MaxValueSize (headers_ (store_ p)) name value;
  let p := set_store (mk_store h (views_ (store_ p)) (header_count_ (store_ p))) p in
  if negb (succeeded added) then Done (fail (if bool_decide (added = s_full) || bool_decide (added = s_out_of_range) then header_limit else bad) p)
  else Done (s_ok, p).

(** Any of the names a trailer may not have. *)
Fixpoint named_one_of (name : list Z) (names : list string) : exec bool :=
  match names with
  | [] => Done false
  | n :: names => e ← ascii_iequal name (chars n); if e : bool then Done true else named_one_of name names
  end.

Definition consume_line (current : parser_state) (line : list Z) (p : parser) : exec (status * parser) :=
  match current with
  | status_line => parse_status line p
  | header_line =>
      if (length line =? 0)%nat then headers_done p
      else
        field ← split_field line;
        match field with
        | None => Done (fail invalid_header p)
        | Some (name, value) =>
            '(added, p) ← add_header invalid_header name value p;
            if negb (succeeded added) then Done (added, p) else consume_field name value p
        end
  | chunk_size =>
      let digits := substr line 0 (find line 59 0) in
      chunk ← parse_hex digits;
      match chunk with
      | None => Done (fail invalid_chunk p)
      | Some chunk =>
          if 2 ^ 64 - 1 <? chunk then Done (fail invalid_chunk p)
          else
            let b := body_buf p in
            let p := set_body (mk_body (body_ b) (body_size_ b) (body_received_ b) (to_u64 chunk) (streamed_ b)) p in
            Done (s_ok, set_state (if to_u64 chunk =? 0 then trailer_line else chunk_data) p)
      end
  | trailer_line =>
      if (length line =? 0)%nat then Done (s_ok, mark_complete p)
      else
        field ← split_field line;
        match field with
        | None => Done (fail invalid_chunk p)
        | Some (name, value) =>
            forbidden ← named_one_of name ["content-length"; "transfer-encoding"; "host"; "connection"; "trailer"]%string;
            if forbidden : bool then Done (fail invalid_chunk p)
            else
              '(added, p) ← add_header invalid_chunk name value p;
              if negb (succeeded added) then Done (added, p)
              else
                let h := headers_ (store_ p) in
                v ← view_at h (size h - 1);
                vs ← store (views_ (store_ p)) (size h - 1) v;
                Done (s_ok, set_store (mk_store h vs (size h)) p)
        end
  | _ => Done (fail malformed_message p)
  end.

Definition append_body (data : list Z) (p : parser) : exec (status * parser) :=
  let p := if body_callback_ p then called data p else p in
  let b := body_buf p in
  let room := (MaxBodySize - body_size_ b)%nat in
  let keep := Nat.min room (length data) in
  '(bytes, size) ← for_to 0 keep (fun i '(bytes, size) => c ← load data i; bytes ← store bytes size c; Done (bytes, (size + 1)%nat)) (body_ b, body_size_ b);
  let stored := fun streamed => set_body (mk_body bytes size (body_received_ b) (chunk_remaining_ b) streamed) p in
  if negb (keep =? length data)%nat && negb (body_callback_ p) then Done (fail body_limit (stored (streamed_ b)))
  else
    let streamed := if negb (keep =? length data)%nat then true else streamed_ b in
    Done (s_ok, set_body (mk_body bytes size (to_u64 (body_received_ b + Z.of_nat (length data)))
                            (if decide (state_ p = chunk_data) then to_u64 (chunk_remaining_ b - Z.of_nat (length data)) else chunk_remaining_ b) streamed) p).

Definition line_state (s : parser_state) : bool := bool_decide (s ∈ [status_line; header_line; chunk_size; trailer_line]).
Definition body_state (s : parser_state) : bool := bool_decide (s ∈ [fixed_body; close_body; chunk_data]).

(** One pass of the loop over the bytes; a failure returns from the function. *)
Definition feed_step (bytes : list Z) (size : nat) (st : parser * nat) : exec (ctl (status * parser * nat) (parser * nat)) :=
  let '(p, offset) := st in
  if line_state (state_ p) then
    c ← load bytes offset;
    let offset := (offset + 1)%nat in
    let l := line_buf p in
    if (MaxLineSize <=? line_size_ l)%nat then Done (Return (fail header_line_limit p, offset))
    else
      text ← store (line_ l) (line_size_ l) c;
      let length_ := (line_size_ l + 1)%nat in
      if c =? 10 then
        cr ← (if (length_ <? 2)%nat then Done false else d ← load text (length_ - 2); Done (d =? 13));
        if negb cr then Done (Return (fail malformed_message (set_line (mk_line text length_) p), offset))
        else
          '(result, p) ← consume_line (state_ p) (take (length_ - 2) text) (set_line (mk_line text 0) p);
          Done (if negb (succeeded result) then Return (result, p, offset) else Next (p, offset))
      else Done (Next (set_line (mk_line text length_) p, offset))
  else if body_state (state_ p) then
    let take_ := (size - offset)%nat in
    let take_ := if decide (state_ p = fixed_body) then Nat.min take_ (Z.to_nat (to_u64 (content_length_ (frame p) - body_received_ (body_buf p)))) else take_ in
    let take_ := if decide (state_ p = chunk_data) then Nat.min take_ (Z.to_nat (chunk_remaining_ (body_buf p))) else take_ in
    if (take_ =? 0)%nat then Done (Return (fail malformed_message p, offset))
    else
      '(result, p) ← append_body (take take_ (drop offset bytes)) p;
      if negb (succeeded result) then Done (Return (result, p, offset))
      else
        let offset := (offset + take_)%nat in
        Done (Next (if decide (state_ p = fixed_body /\ body_received_ (body_buf p) = content_length_ (frame p)) then mark_complete p
                    else if decide (state_ p = chunk_data /\ chunk_remaining_ (body_buf p) = 0) then set_state chunk_data_cr p else p, offset))
  else
    c ← load bytes offset;
    let offset := (offset + 1)%nat in
    if decide (state_ p = chunk_data_cr) then
      Done (if negb (c =? 13) then Return (fail invalid_chunk p, offset) else Next (set_state chunk_data_lf p, offset))
    else Done (if negb (c =? 10) then Return (fail invalid_chunk p, offset) else Next (set_state chunk_size p, offset)).

(** The data is [None] for a null pointer. *)
Definition feed_bytes (data : option (list Z)) (size : nat) (peer_closed : bool) (p : parser) : exec (status * parser * nat) :=
  if decide (state_ p = failed) then Done (to_status (error_ p), p, 0%nat)
  else if decide (state_ p = complete) then Done (if (size =? 0)%nat then s_ok else s_invalid_config, p, 0%nat)
  else if bool_decide (data = None) && negb (size =? 0)%nat then Done (s_invalid_argument, p, 0%nat)
  else
    let bytes := default [] data in
    after (while_loop (S size) (fun '(p, offset) => Done ((offset <? size)%nat && negb (bool_decide (state_ p = complete)))) (feed_step bytes size) (p, 0%nat))
      (fun '(p, offset) =>
         Done (if peer_closed && negb (bool_decide (state_ p = complete)) then
                 if decide (state_ p = close_body) then (s_ok, mark_complete p, offset) else (fail connection_closed p, offset)
               else (s_ok, p, offset))).
Definition feed := feed_bytes.

(** *** The parser holds a machine *)

(** The buffer holds the start of a body, and the counters count all of it. *)
Definition body_holds (b : body_buffer) (body : list Z) : Prop :=
  length (body_ b) = MaxBodySize /\ body_size_ b = Nat.min MaxBodySize (length body) /\ take (body_size_ b) (body_ b) = take MaxBodySize body
  /\ body_received_ b = Z.of_nat (length body) /\ streamed_ b = (MaxBodySize <? length body)%nat.

Definition room_b (body : list Z) : bool := callback || (length body <=? MaxBodySize)%nat.
Lemma room_bool body : room body <-> room_b body = true.
Proof. unfold room, room_b. rewrite orb_true_iff, Nat.leb_le. done. Qed.

Lemma fill_body (data bytes body : list Z) n : length bytes = MaxBodySize -> (length body <= MaxBodySize)%nat -> take (length body) bytes = body -> n = Nat.min (MaxBodySize - length body) (length data) ->
  exists bytes', for_to 0 n (fun i '(bytes, size) => c ← load data i; bytes ← store bytes size c; Done (bytes, (size + 1)%nat)) (bytes, length body) = Done (bytes', (length body + n)%nat)
    /\ length bytes' = MaxBodySize /\ take (length body + n) bytes' = body ++ take n data.
Proof.
  intros Hl Hb Ht Hn.
  destruct (for_to_inv (fun i (st : list Z * nat) => length st.1 = MaxBodySize /\ st.2 = (length body + i)%nat /\ take (length body + i) st.1 = body ++ take i data)
     (fun i '(bytes, size) => c ← load data i; bytes ← store bytes size c; Done (bytes, (size + 1)%nat)) 0 n (bytes, length body)) as ([bytes' s'] & -> & H1 & H2 & H3).
  - rewrite Nat.add_0_r, app_nil_r. done.
  - intros i [st s] Hi (H1 & H2 & H3). cbn [fst snd] in H1, H2, H3. destruct (lookup_lt_is_Some_2 data i) as [c Hc]; [lia|]. rewrite (load_Done _ _ _ Hc), bind_Done, store_Done, bind_Done by lia.
    eexists. split; [done|]. cbn [fst snd]. rewrite length_insert. split; [done|]. split; [lia|].
    replace (length body + S i)%nat with (S (length body + i)) by lia. rewrite (take_S_r _ _ c) by (rewrite H2; apply list_lookup_insert_eq; lia). rewrite H2, take_insert_ge, H3, <-app_assoc by lia. f_equal. symmetry. by apply take_S_r.
  - cbn [fst snd] in *. exists bytes'. rewrite H2. done.
Qed.

Lemma append_body_ok p body data : body_holds (body_buf p) body -> body_callback_ p = callback -> room body -> Z.of_nat (length body + length data) < 2 ^ 64 ->
  exists b', append_body data p = Done (if decide (room (body ++ data)) then (s_ok, set_body b' (if callback then called data p else p)) else fail body_limit (set_body b' (if callback then called data p else p)))
    /\ (room (body ++ data) -> body_holds b' (body ++ data) /\ chunk_remaining_ b' = if decide (state_ p = chunk_data) then to_u64 (chunk_remaining_ (body_buf p) - Z.of_nat (length data)) else chunk_remaining_ (body_buf p)).
Proof.
  intros (Hlen & Hsz & Ht & Hrec & Hstr) Hcb Hr Hlt. unfold append_body. rewrite Hcb. assert (Hbody : body_buf (if callback then called data p else p) = body_buf p) by (by destruct callback). assert (Hst : state_ (if callback then called data p else p) = state_ p) by (by destruct callback).
  assert (Hcb' : body_callback_ (if callback then called data p else p) = callback) by (destruct callback; exact Hcb). rewrite Hbody, Hst, Hcb'. cbv zeta.
  assert (Hlb : length (take MaxBodySize body) = body_size_ (body_buf p)) by (rewrite length_take; lia). set (keep := Nat.min (MaxBodySize - body_size_ (body_buf p)) (length data)).
  destruct (fill_body data (body_ (body_buf p)) (take MaxBodySize body) keep Hlen) as (bytes' & E & H1 & H2); [lia|by rewrite Hlb|by rewrite Hlb|]. rewrite Hlb in E, H2. rewrite E, bind_Done. clear E.
  assert (Htest : negb (keep =? length data)%nat && negb callback = false <-> room (body ++ data)).
  { unfold room in *. rewrite length_app. destruct callback; cbn [negb]; [rewrite andb_false_r; split; auto|]. rewrite andb_true_r, negb_false_iff, Nat.eqb_eq. destruct Hr as [[=]|Hr]. split; [intros; right; lia|intros [[=]|]; lia]. }
  destruct (decide (room (body ++ data))) as [Hd|Hd].
  2:{ destruct (negb (keep =? length data)%nat && negb callback); [|destruct Hd; by apply Htest]. eexists. split; [reflexivity|]. intros Hd'. by destruct Hd. }
  rewrite (proj2 Htest Hd). eexists. split; [reflexivity|]. intros _.
  split; [|done]. unfold body_holds. cbn [body_ body_size_ body_received_ streamed_]. split; [done|]. rewrite length_app. split; [lia|]. split.
  - rewrite H2. destruct (Nat.le_gt_cases MaxBodySize (length body)) as [Hge|Hlt'].
    + rewrite (take_app_le body) by done. assert (Ek : keep = 0%nat) by lia. by rewrite Ek, app_nil_r.
    + rewrite (take_ge body) by lia. rewrite take_app, (take_ge body) by lia. f_equal. destruct (Nat.le_gt_cases (length data) (MaxBodySize - length body)) as [Hle|Hgt].
      * rewrite !take_ge by lia. done.
      * f_equal. lia.
  - split; [rewrite Hrec, wrap_small by (unfold in_width; lia); lia|]. rewrite Hstr. destruct (Nat.eqb_spec keep (length data)) as [Ek|Ek]; cbn [negb].
    + destruct (Nat.ltb_spec MaxBodySize (length body)), (Nat.ltb_spec MaxBodySize (length body + length data)); (done || lia).
    + symmetry. apply Nat.ltb_lt. lia.
Qed.

(** What holds of every machine the parser reaches. *)
Definition machine_wf (m : machine) : Prop :=
  room (m_body m) /\ 0 <= m_left m < 2 ^ 64 /\
  match m_state m with
  | status_line => m = with_line (m_line m) (start (m_head m))
  | header_line => m_body m = [] /\ m_left m = 0
  | fixed_body => exists n, m_length m = Some n /\ Z.of_nat (length (m_body m)) < n /\ (callback = true \/ n <= Z.of_nat MaxBodySize)
  | chunk_data => 0 < m_left m
  | failed => False
  | _ => True
  end.

Definition frame_holds (f : framing) (m : machine) : Prop :=
  content_length_seen_ f = bool_decide (is_Some (m_length m)) /\ (forall n, m_length m = Some n -> content_length_ f = n /\ 0 <= n < 2 ^ 64)
  /\ chunked_seen_ f = m_chunked m /\ connection_close_seen_ f = m_close m /\ keep_alive_ f = m_keep m /\ status_code_ f = m_code m /\ response_version_ f = m_version m.

Definition line_holds (b : line_buffer) (l : list Z) : Prop :=
  length (line_ b) = MaxLineSize /\ line_size_ b = length l /\ take (length l) (line_ b) = l /\ Forall byte l.

(** The views are those of the stored fields. *)
Definition views_current (s : field_store) : Prop :=
  header_count_ s = size (headers_ s) /\ forall i, (i < header_count_ s)%nat -> exists v, view_at (headers_ s) i = Done v /\ views_ s !! i = Some v.
Definition past_headers (s : parser_state) : bool := negb (bool_decide (s ∈ [status_line; header_line])).
Definition store_holds (s : field_store) (m : machine) : Prop :=
  headers_hold MaxHeaders MaxNameSize MaxValueSize (headers_ s) (m_fields m) /\ length (views_ s) = MaxHeaders /\ (past_headers (m_state m) = true -> views_current s).

(** The parser holds the machine; the callback has been passed [prior] and the body. *)
Record sim (prior : list Z) (p : parser) (m : machine) : Prop := mk_sim {
  sim_state : state_ p = m_state m;
  sim_head : head_response_ p = m_head m;
  sim_line : line_holds (line_buf p) (m_line m);
  sim_body : body_holds (body_buf p) (m_body m);
  sim_left : chunk_remaining_ (body_buf p) = m_left m;
  sim_frame : frame_holds (frame p) m;
  sim_store : store_holds (store_ p) m;
  sim_installed : body_callback_ p = callback;
  sim_calls : mjoin (calls p) = prior ++ (if callback then m_body m else []);
  sim_wf : machine_wf m }.

(** A call answers the machine's outcome. *)
Definition answers (prior : list Z) (r : exec (status * parser)) (o : outcome) : Prop := exists st p', r = Done (st, p') /\
  match o with
  | inl e => st = to_status e /\ succeeded st = false /\ state_ p' = failed /\ error_ p' = e
  | inr m' => st = s_ok /\ sim prior p' m'
  end.

Lemma answers_fail prior e p : e <> e_ok -> answers prior (Done (fail e p)) (inl e).
Proof. intros He. eexists _, _. split; [reflexivity|]. split; [done|]. split; [|done]. by destruct e. Qed.

(** The state after a status line that reads as [v] and [code]. *)
Definition status_read (v : version) (code : Z) (m : machine) : machine :=
  mk_machine header_line (m_line m) (m_fields m) (m_length m) (m_chunked m) false (bool_decide (v = http_1_1)) code v (m_head m) (m_body m) (m_left m).

Lemma sim_status prior p m v code : sim prior p m -> m_state m = status_line ->
  sim prior (set_state header_line (set_frame (mk_framing (content_length_ (frame p)) (content_length_seen_ (frame p)) (chunked_seen_ (frame p)) false (bool_decide (v = http_1_1)) code v) p)) (status_read v code m).
Proof.
  intros [H1 H2 H3 H4 H5 H6 H7 H8 H9 H10] Hm. destruct H6 as (F1 & F2 & F3 & F4 & F5 & F6 & F7). destruct H7 as (S1 & S2 & S3).
  constructor; cbn [state_ head_response_ line_buf body_buf frame store_ body_callback_ calls set_state set_frame m_state m_line m_fields m_length m_chunked m_close m_keep m_code m_version m_head m_body m_left status_read]; try done.
  destruct H10 as (W1 & W2 & W3). rewrite Hm in W3. split; [done|]. split; [done|]. cbn [m_state status_read m_body m_left]. by rewrite W3.
Qed.

Lemma digit_test c : (c <? 48) || (57 <? c) = negb (digit c).
Proof. unfold digit. by rewrite negb_andb, !Z.ltb_antisym. Qed.

Lemma code_of_short t : (length t < 3)%nat -> code_of t = None.
Proof. destruct t as [|a [|b [|c t]]]; [done..|]. cbn [length]. lia. Qed.

Lemma parse_status_ok prior p m line : sim prior p m -> m_state m = status_line -> answers prior (parse_status line p) (match status_of line with None => inl malformed_status_line | Some (v, code) => inr (status_read v code m) end).
Proof.
  intros Hs Hm. unfold parse_status, status_of, version_of. rewrite !view_eq_ok, !substr_ok, drop_0. cbv zeta. destruct (Nat.ltb_spec (length line) 12) as [Hlt|Hge].
  { rewrite (code_of_short (drop 9 line)) by (rewrite length_drop; lia). cbn [orb]. destruct (bool_decide _); [|destruct (bool_decide _)]; by apply answers_fail. }
  rewrite (proj2 (Nat.leb_le 9 (length line))) by lia. cbn [andb orb]. pose proof (length_drop line 9) as Hl. destruct (drop 9 line) as [|a [|b [|c rest]]] eqn:Ed; try (cbn [length] in Hl; lia).
  assert (Hat : forall i, line !! (9 + i)%nat = (a :: b :: c :: rest) !! i) by (intros i; by rewrite <-Ed, lookup_drop).
  rewrite (load_Done line 9 a), (load_Done line 10 b), (load_Done line 11 c) by (apply (Hat 0%nat) || apply (Hat 1%nat) || apply (Hat 2%nat)). rewrite !bind_Done.
  assert (Hd : (if (12 <? length line)%nat then load line 12 else Done 32) = Done (match rest with d :: _ => d | [] => 32 end)).
  { destruct (Nat.ltb_spec 12 (length line)) as [Hlt|Hle]; (destruct rest as [|d rest]; cbn [length] in Hl; try lia); [|done]. apply load_Done. apply (Hat 3%nat). }
  rewrite Hd, bind_Done. set (code := (a - 48) * 100 + (b - 48) * 10 + (c - 48)).
  assert (Ht : (a <? 48) || (57 <? a) || (b <? 48) || (57 <? b) || (c <? 48) || (57 <? c) || negb (match rest with d :: _ => d | [] => 32 end =? 32)
    = negb (digit a && digit b && digit c && match rest with [] => true | d :: _ => d =? 32 end)).
  { rewrite !negb_andb, <-!digit_test, !orb_assoc. do 2 f_equal. by destruct rest. }
  rewrite Ht. clear Ht Hd Hat. unfold code_of. fold code. destruct (digit a && digit b && digit c && _) eqn:Eg.
  2:{ cbn [negb andb]. destruct (bool_decide _); [|destruct (bool_decide _)]; by apply answers_fail. }
  apply andb_true_iff in Eg as [[[Ea Eb]%andb_true_iff Ec]%andb_true_iff _]. unfold digit in Ea, Eb, Ec. apply andb_true_iff in Ea as [Ea1%Z.leb_le Ea2%Z.leb_le], Eb as [Eb1%Z.leb_le Eb2%Z.leb_le], Ec as [Ec1%Z.leb_le Ec2%Z.leb_le].
  rewrite (wrap_small 16 code) by (unfold in_width, code; lia). cbn [negb andb].
  assert (Hr : (code <? 100) || (599 <? code) = negb ((100 <=? code) && (code <=? 599))) by (by rewrite negb_andb, !Z.ltb_antisym).
  destruct (bool_decide (take 9 line = chars "HTTP/1.0 ")); [|destruct (bool_decide (take 9 line = chars "HTTP/1.1 "))]; cbn [negb andb]; rewrite ?Hr; try by apply answers_fail.
  all: destruct ((100 <=? code) && (code <=? 599)); cbn [negb]; [|by apply answers_fail].
  - eexists _, _. split; [reflexivity|]. split; [done|]. by apply (sim_status prior p m http_1_0 code).
  - eexists _, _. split; [reflexivity|]. split; [done|]. by apply (sim_status prior p m http_1_1 code).
Qed.

(** *** The end of the headers *)

Lemma view_at_ok h l i x : headers_hold MaxHeaders MaxNameSize MaxValueSize h l -> l !! i = Some x -> exists v, view_at h i = Done v /\ view_text h v = Done x.
Proof.
  intros Hh Hx. destruct (hold_lookup _ _ _ h l i x Hh Hx) as (f & Hf & _ & Hn & Hv). destruct Hh as (_ & _ & Hc & _). pose proof (lookup_lt_Some _ _ _ Hx) as Hlt.
  unfold view_at, size. rewrite Hc, (proj2 (Nat.leb_gt _ _)), (load_Done _ _ _ Hf), bind_Done by lia. eexists. split; [done|]. cbn [view_text]. rewrite (load_Done _ _ _ Hf), bind_Done. unfold view_name, view_value in Hn, Hv. rewrite Hn, Hv. by destruct x.
Qed.

Lemma views_loop h l vs : headers_hold MaxHeaders MaxNameSize MaxValueSize h l -> length vs = MaxHeaders ->
  exists vs', for_to 0 (size h) (fun i vs => v ← view_at h i; store vs i v) vs = Done vs' /\ length vs' = MaxHeaders /\ views_current (mk_store h vs' (size h)).
Proof.
  intros Hh Hl. pose proof Hh as (_ & _ & Hc & Hle & _). unfold size. rewrite Hc.
  destruct (for_to_inv (fun k vs => length vs = MaxHeaders /\ forall i, (i < k)%nat -> exists v, view_at h i = Done v /\ vs !! i = Some v) (fun i vs => v ← view_at h i; store vs i v) 0 (length l) vs) as (vs' & -> & H1 & H2).
  - split; [done|]. lia.
  - intros k st Hk [H1 H2]. destruct (lookup_lt_is_Some_2 l k) as [x Hx]; [lia|]. destruct (view_at_ok h l k x Hh Hx) as (v & Ev & _). rewrite Ev, bind_Done, store_Done by lia. eexists. split; [done|].
    rewrite length_insert. split; [done|]. intros i Hi. destruct (decide (i = k)) as [->|Hne]; [exists v; split; [done|]; apply list_lookup_insert_eq; lia|]. rewrite list_lookup_insert_ne by done. apply H2. lia.
  - exists vs'. split; [done|]. split; [done|]. split; [symmetry; exact Hc|]. exact H2.
Qed.

Lemma clear_hold h l : headers_hold MaxHeaders MaxNameSize MaxValueSize h l -> headers_hold MaxHeaders MaxNameSize MaxValueSize (clear h) [].
Proof. intros (H1 & H2 & _). split; [done|]. split; [done|]. split; [done|]. split; [apply Nat.le_0_l|constructor]. Qed.

(** The parser moves to a state past the headers. *)
Lemma sim_to_state prior p m s : sim prior p m -> s <> status_line -> s <> header_line -> views_current (store_ p) -> machine_wf (to_state s m) -> sim prior (set_state s p) (to_state s m).
Proof.
  intros [H1 H2 H3 H4 H5 H6 H7 H8 H9 H10] Hs1 Hs2 Hv Hw. destruct H7 as (S1 & S2 & _). constructor; try done.
Qed.

Lemma sim_views prior p m vs count : sim prior p m -> length vs = MaxHeaders -> past_headers (m_state m) = false -> sim prior (set_store (mk_store (headers_ (store_ p)) vs count) p) m.
Proof. intros [H1 H2 H3 H4 H5 H6 H7 H8 H9 H10] Hl Hp. destruct H7 as (S1 & _ & _). constructor; try done. split; [done|]. split; [done|]. by rewrite Hp. Qed.

Lemma sim_keep prior p m : sim prior p m -> m_state m <> status_line ->
  sim prior (set_frame (mk_framing (content_length_ (frame p)) (content_length_seen_ (frame p)) (chunked_seen_ (frame p)) (connection_close_seen_ (frame p)) false (status_code_ (frame p)) (response_version_ (frame p))) p) (with_keep false m).
Proof.
  intros [H1 H2 H3 H4 H5 H6 H7 H8 H9 H10] Hm. destruct H6 as (F1 & F2 & F3 & F4 & F5 & F6 & F7). constructor; try done.
  destruct H10 as (W1 & W2 & W3). split; [done|]. split; [done|]. cbn. by destruct (m_state m).
Qed.

Lemma headers_done_ok prior p m : sim prior p m -> m_state m = header_line -> m_line m = [] -> answers prior (headers_done p) (on_headers_done m).
Proof.
  intros Hs Hm El. unfold headers_done, on_headers_done. pose proof Hs as [H1 H2 H3 H4 H5 H6 H7 H8 H9 H10]. destruct H6 as (F1 & F2 & F3 & F4 & F5 & F6 & F7). destruct H7 as (S1 & S2 & S3). destruct H10 as (W1 & W2 & W3). rewrite Hm in W3. destruct W3 as [W3 W4].
  assert (Eseen : content_length_seen_ (frame p) = match m_length m with Some _ => true | None => false end) by (rewrite F1; by destruct (m_length m)). rewrite Eseen, F3. destruct (_ && m_chunked m); [by apply answers_fail|].
  destruct (views_loop (headers_ (store_ p)) (m_fields m) (views_ (store_ p)) S1 S2) as (vs & Ev & Hlv & Hcur). rewrite Ev, bind_Done, F6. cbv zeta.
  assert (Hs' : sim prior (set_store (mk_store (headers_ (store_ p)) vs (size (headers_ (store_ p)))) p) m) by (apply sim_views; [done|done|by rewrite Hm]). set (p' := set_store _ p) in *.
  assert (Hgo : forall s, s <> status_line -> s <> header_line -> s <> fixed_body -> s <> chunk_data -> s <> failed -> sim prior (set_state s p') (to_state s m)).
  { intros s G1 G2 G3 G4 G5. apply sim_to_state; [done|done|done|exact Hcur|]. split; [done|]. split; [done|]. by destruct s. }
  destruct (_ && _ && negb _).
  - eexists _, _. split; [reflexivity|]. split; [done|]. rewrite El in H3. rewrite W3 in H4, H9. rewrite W4 in H5. constructor; try done.
    + split; [by apply clear_hold with (l := m_fields m)|]. done.
    + split; [right; cbn; lia|]. cbn. split; [lia|done].
  - destruct (m_code m =? 101); [by apply answers_fail|]. change (head_response_ p') with (head_response_ p). rewrite H2. destruct (m_head m || _ || _); [eexists _, _; split; [reflexivity|]; split; [done|]; by apply Hgo|].
    destruct (m_chunked m); [eexists _, _; split; [reflexivity|]; split; [done|]; by apply Hgo|]. destruct (m_length m) as [n|] eqn:En.
    + destruct (F2 n eq_refl) as [Ec Hn]. rewrite Ec, (proj2 (Z.ltb_ge _ _)) by lia. change (body_callback_ p') with (body_callback_ p). rewrite H8. destruct (_ && negb callback) eqn:Er; [by apply answers_fail|].
      destruct (Z.eqb_spec n 0) as [->|Hnz]; [eexists _, _; split; [reflexivity|]; split; [done|]; by apply Hgo|]. eexists _, _. split; [reflexivity|]. split; [done|]. apply sim_to_state; [done|done|done|exact Hcur|].
      split; [done|]. split; [done|]. cbn [m_state to_state]. exists n. cbn [m_length m_body to_state]. rewrite W3. split; [done|]. split; [cbn; lia|]. destruct callback; [by left|right]. rewrite andb_true_r, Z.ltb_ge in Er. done.
    + eexists _, _. split; [reflexivity|]. split; [done|]. pose proof (sim_keep prior (set_state close_body p') (to_state close_body m) (Hgo close_body ltac:(done) ltac:(done) ltac:(done) ltac:(done) ltac:(done)) ltac:(done)) as Hk.
      change (frame (set_state close_body p')) with (frame p) in Hk. rewrite Eseen, F3, F6 in Hk. exact Hk.
Qed.

(** *** Fields *)

Lemma decimal_range l n : decimal l = Some n -> 0 <= n < 2 ^ 64.
Proof. intros H. split; [by eapply decimal_nonneg|]. revert H. unfold decimal, number. destruct (_ && _) eqn:E; [|done]. intros [= <-]. apply andb_true_iff in E as [_ E]. by apply Z.ltb_lt. Qed.

Lemma Forall_lstrip (P : Z -> Prop) l : Forall P l -> Forall P (lstrip l).
Proof. induction 1 as [|c l Hc Hl IH]; [constructor|]. cbn. destruct (is_ows c); [done|by constructor]. Qed.
Lemma Forall_strip (P : Z -> Prop) l : Forall P l -> Forall P (strip l).
Proof. intros H. unfold strip. apply Forall_reverse, Forall_lstrip, Forall_reverse, Forall_lstrip, H. Qed.

Lemma split_line_bytes line f : Forall byte line -> split_line line = Some f -> Forall byte f.2.
Proof. intros Hb H. apply split_line_field in H as (rest & -> & _ & _ & ->). apply Forall_app in Hb as [_ Hb]. inversion Hb; subst. by apply Forall_strip. Qed.

(** Header fields change the framing only. *)
Lemma sim_framing prior p m f len ch cl kp : sim prior p m -> m_state m = header_line ->
  frame_holds f (with_framing len ch cl kp m) -> sim prior (set_frame f p) (with_framing len ch cl kp m).
Proof.
  intros [H1 H2 H3 H4 H5 H6 H7 H8 H9 H10] Hm Hf. constructor; try done. destruct H10 as (W1 & W2 & W3). split; [done|]. split; [done|]. cbn. by rewrite Hm in W3 |- *.
Qed.

Lemma consume_field_ok prior p m name value : sim prior p m -> m_state m = header_line -> answers prior (consume_field name value p) (on_field m (name, value)).
Proof.
  intros Hs Hm. unfold consume_field, on_field, is_named. cbn [fst snd]. rewrite !ascii_iequal_ok, trim_ows_ok, !parse_decimal_ok, !contains_token_ok, !bind_Done by done.
  pose proof (sim_frame _ _ _ Hs) as (F1 & F2 & F3 & F4 & F5 & F6 & F7).
  assert (Hset : forall len ch cl kp cn, (forall n, len = Some n -> cn = n /\ 0 <= n < 2 ^ 64) ->
    sim prior (set_frame (mk_framing cn (bool_decide (is_Some len)) ch cl kp (status_code_ (frame p)) (response_version_ (frame p))) p) (with_framing len ch cl kp m)).
  { intros len ch cl kp cn Hn. apply sim_framing; [done|done|]. split_and!; done. }
  destruct (same_text name (chars "content-length")).
  - destruct (decimal value) as [n|] eqn:En; [|by apply answers_fail]. pose proof (decimal_range _ _ En) as Hn. assert (Et : content_length_seen_ (frame p) && negb (n =? content_length_ (frame p)) = negb (match m_length m with Some n' => n' =? n | None => true end)).
    { rewrite F1. destruct (m_length m) as [n'|]; [|done]. destruct (F2 n' eq_refl) as [-> _]. cbn. by rewrite Z.eqb_sym. }
    rewrite Et. destruct (match m_length m with Some n' => n' =? n | None => true end); [|by apply answers_fail]. eexists _, _. split; [reflexivity|]. split; [done|].
    rewrite F3, F4, F5. apply (Hset (Some n)). by intros ? [= <-].
  - destruct (same_text name (chars "transfer-encoding")).
    + rewrite ascii_iequal_ok, bind_Done. destruct (same_text _ _); [|by apply answers_fail]. destruct EnableChunked; [|by apply answers_fail]. eexists _, _. split; [reflexivity|]. split; [done|]. rewrite F1, F4, F5. by apply Hset.
    + destruct (same_text name (chars "connection")); [|eexists _, _; split; [reflexivity|]; by split]. destruct (lists_token value (chars "close")).
      * eexists _, _. split; [reflexivity|]. split; [done|]. rewrite F1, F3. by apply Hset.
      * assert (Ek : (if connection_close_seen_ (frame p) then Done false else Done (lists_token value (chars "keep-alive"))) = Done (negb (m_close m) && lists_token value (chars "keep-alive"))) by (rewrite F4; by destruct (m_close m)).
        rewrite Ek, bind_Done. destruct (negb (m_close m) && _); [|eexists _, _; split; [reflexivity|]; by split]. eexists _, _. split; [reflexivity|]. split; [done|]. rewrite F1, F3, F4. by apply Hset.
Qed.

Lemma add_keeps h name value h' i : add MaxHeaders MaxNameSize MaxValueSize h name value = Done (s_ok, h') -> (i < size_ h)%nat -> fields_ h' !! i = fields_ h !! i.
Proof.
  unfold add. intros H Hi. destruct (valid_name name); [|discriminate H]. rewrite bind_Done in H. destruct (valid_value value); [|discriminate H]. rewrite bind_Done in H.
  destruct (_ || _); [discriminate H|]. destruct (_ =? _)%nat; [discriminate H|]. destruct (_ || _); [discriminate H|]. destruct (load (fields_ h) (size_ h)); [|discriminate H]. rewrite bind_Done in H.
  destruct (copy _ _ _); [|discriminate H]. rewrite bind_Done in H. destruct (store _ _ _) as [fs|] eqn:Es; [|discriminate H]. injection H as <-. cbn [fields_]. revert Es. unfold store. case_decide; [|done]. intros [= <-]. apply list_lookup_insert_ne. lia.
Qed.

(** What [add_header] leaves. *)
Lemma add_header_ok prior p m bad name value : sim prior p m -> bad <> e_ok -> Forall byte value -> exists h',
  add_header bad name value p = Done (let p' := set_store (mk_store h' (views_ (store_ p)) (header_count_ (store_ p))) p in
    match spec_add MaxHeaders MaxNameSize MaxValueSize (m_fields m) (name, value) with (s_ok, _) => (s_ok, p') | (s_full, _) | (s_out_of_range, _) => fail header_limit p' | _ => fail bad p' end) /\
  headers_hold MaxHeaders MaxNameSize MaxValueSize h' (spec_add MaxHeaders MaxNameSize MaxValueSize (m_fields m) (name, value)).2 /\
  ((spec_add MaxHeaders MaxNameSize MaxValueSize (m_fields m) (name, value)).1 = s_ok -> forall i, (i < length (m_fields m))%nat -> fields_ h' !! i = fields_ (headers_ (store_ p)) !! i).
Proof.
  intros Hs Hbad Hb. destruct (sim_store _ _ _ Hs) as (S1 & S2 & S3). destruct (add_ok _ _ _ _ _ name value S1 Hb) as (h' & Ea & Hh). exists h'. unfold add_header. rewrite Ea, bind_Done. split.
  - destruct (spec_add _ _ _ _ _) as [st fs]. cbn [fst]. by destruct st.
  - split; [done|]. intros Hok i Hi. apply (add_keeps _ name value); [by rewrite Ea, Hok|]. destruct S1 as (_ & _ & -> & _). done.
Qed.

(** *** Lines *)

Lemma named_one_of_ok name names : named_one_of name names = Done (existsb (fun n => same_text name (chars n)) names).
Proof. induction names as [|n names IH]; [done|]. cbn [named_one_of existsb]. rewrite ascii_iequal_ok, bind_Done. by destruct (same_text name (chars n)). Qed.

Lemma hexadecimal_range l n : hexadecimal l = Some n -> 0 <= n < 2 ^ 64.
Proof. unfold hexadecimal, number. destruct (_ && _) eqn:E; [|done]. intros [= <-]. apply andb_true_iff in E as [[_ E1]%andb_true_iff E2]. split; [by apply digits_value_nonneg|]. by apply Z.ltb_lt. Qed.

Lemma sim_fields prior p m h' fs : sim prior p m -> m_state m = header_line -> headers_hold MaxHeaders MaxNameSize MaxValueSize h' fs ->
  sim prior (set_store (mk_store h' (views_ (store_ p)) (header_count_ (store_ p))) p) (with_fields fs m).
Proof.
  intros [H1 H2 H3 H4 H5 H6 H7 H8 H9 H10] Hm Hh. destruct H7 as (S1 & S2 & S3). constructor; try done.
  - split; [done|]. split; [done|]. cbn. by rewrite Hm.
  - destruct H10 as (W1 & W2 & W3). split; [done|]. split; [done|]. cbn. by rewrite Hm in W3 |- *.
Qed.

Lemma header_line_ok prior p m line : sim prior p m -> m_state m = header_line -> m_line m = [] -> Forall byte line -> answers prior (consume_line header_line line p) (on_line m line).
Proof.
  intros Hs Hm El Hb. unfold on_line. rewrite Hm. destruct line as [|c line]; [by apply headers_done_ok|]. unfold consume_line. cbn [length Nat.eqb]. rewrite split_field_ok, bind_Done.
  unfold add_field. destruct (split_line (c :: line)) as [[name value]|] eqn:Ef; [|by apply answers_fail].
  destruct (add_header_ok prior p m invalid_header name value Hs ltac:(done) (split_line_bytes _ _ Hb Ef)) as (h' & Ea & Hh & _). rewrite Ea, bind_Done. cbv zeta. destruct (spec_add _ _ _ _ _) as [st fs]. cbn [fst snd] in *.
  destruct st; try by apply answers_fail. cbn. apply consume_field_ok; [by apply sim_fields|done].
Qed.

Lemma trailer_step prior p m h' fs x : sim prior p m -> m_state m = trailer_line -> headers_hold MaxHeaders MaxNameSize MaxValueSize h' fs -> fs = m_fields m ++ [x] ->
  (forall i, (i < length (m_fields m))%nat -> fields_ h' !! i = fields_ (headers_ (store_ p)) !! i) ->
  exists v vs, view_at h' (size h' - 1) = Done v /\ store (views_ (store_ p)) (size h' - 1) v = Done vs /\ sim prior (set_store (mk_store h' vs (size h')) p) (with_fields fs m).
Proof.
  intros Hs Hm Hh Ex Hold. pose proof Hs as [H1 H2 H3 H4 H5 H6 H7 H8 H9 H10]. destruct H7 as (S1 & S2 & S3). rewrite Hm in S3. specialize (S3 eq_refl). destruct S3 as [V1 V2].
  assert (Ec : size h' = (length (m_fields m) + 1)%nat) by (destruct Hh as (_ & _ & Hc & _); unfold size; rewrite Hc, Ex, length_app; done). assert (Ec0 : size (headers_ (store_ p)) = length (m_fields m)) by (by destruct S1 as (_ & _ & Hc & _)).
  assert (Hroom : (length (m_fields m) < MaxHeaders)%nat) by (destruct Hh as (_ & _ & _ & Hc & _); rewrite Ex, length_app in Hc; cbn in Hc; lia).
  destruct (view_at_ok h' fs (length (m_fields m)) x Hh) as (v & Ev & _); [rewrite Ex; by apply list_lookup_middle|]. rewrite Ec, Nat.add_sub. exists v. eexists. split; [done|]. split; [apply store_Done; lia|].
  constructor; try done; [split; [done|]; split; [cbn [views_ store_ set_store]; by rewrite length_insert|]|destruct H10 as (W1 & W2 & W3); split; [done|]; split; [done|]; cbn; by rewrite Hm].
  intros _. split; [cbn; lia|]. cbn [header_count_ headers_ views_ store_ set_store]. intros i Hi. destruct (decide (i = length (m_fields m))) as [->|Hne].
  - exists v. split; [done|]. apply list_lookup_insert_eq. lia.
  - rewrite list_lookup_insert_ne by done. destruct (V2 i) as (w & Ew & Hw); [lia|]. exists w. split; [|done]. rewrite <-Ew. unfold view_at. rewrite Ec, Ec0. rewrite !(proj2 (Nat.leb_gt _ _)) by lia. unfold load. by rewrite Hold by lia.
Qed.

Lemma trailer_line_ok prior p m line : sim prior p m -> m_state m = trailer_line -> m_line m = [] -> Forall byte line -> answers prior (consume_line trailer_line line p) (on_line m line).
Proof.
  intros Hs Hm El Hb. unfold on_line. rewrite Hm. destruct line as [|c line].
  - eexists _, _. split; [reflexivity|]. split; [done|]. destruct (sim_store _ _ _ Hs) as (_ & _ & Hv). rewrite Hm in Hv. apply sim_to_state; [done|done|done|by apply Hv|]. destruct (sim_wf _ _ _ Hs) as (W1 & W2 & W3). split; [done|]. done.
  - unfold consume_line. cbn [length Nat.eqb]. rewrite split_field_ok, bind_Done. unfold add_field. destruct (split_line (c :: line)) as [[name value]|] eqn:Ef; [|by apply answers_fail].
    rewrite named_one_of_ok, bind_Done. assert (Eb : existsb (fun n => same_text name (chars n)) ["content-length"; "transfer-encoding"; "host"; "connection"; "trailer"]%string = forbidden_trailer (name, value)).
    { unfold forbidden_trailer, is_named. cbn [existsb fst]. by rewrite orb_false_r, !orb_assoc. }
    rewrite Eb. destruct (forbidden_trailer _); [by apply answers_fail|].
    destruct (add_header_ok prior p m invalid_chunk name value Hs ltac:(done) (split_line_bytes _ _ Hb Ef)) as (h' & Ea & Hh & Hold). rewrite Ea, bind_Done. cbv zeta. pose proof (spec_add_ok (m_fields m) (name, value)) as Hspec.
    destruct (spec_add _ _ _ _ _) as [st fs]. cbn [fst snd] in *. destruct st; try by apply answers_fail. cbn [negb succeeded]. change (negb (bool_decide (s_ok = s_ok))) with false. cbn beta iota.
    destruct (Hspec fs) as [Hsp _]; [by destruct (sim_store _ _ _ Hs) as ((_ & _ & _ & Hle & _) & _)|]. destruct (Hsp eq_refl) as (_ & _ & _ & Efs). destruct (trailer_step prior p m h' fs (name, value) Hs Hm Hh Efs (Hold eq_refl)) as (v & vs & Ev & Es & Hsim).
    cbn [store_ headers_ views_ set_store]. rewrite Ev, bind_Done, Es, bind_Done. eexists _, _. split; [reflexivity|]. by split.
Qed.

Lemma chunk_line_ok prior p m line : sim prior p m -> m_state m = chunk_size -> m_line m = [] -> answers prior (consume_line chunk_size line p) (on_line m line).
Proof.
  intros Hs Hm El. unfold on_line, consume_line. rewrite Hm. cbv zeta. rewrite parse_hex_ok, bind_Done. destruct (hexadecimal _) as [n|] eqn:En; [|by apply answers_fail]. pose proof (hexadecimal_range _ _ En) as Hn.
  rewrite (proj2 (Z.ltb_ge _ _)), wrap_small by (unfold in_width; lia). eexists _, _. split; [reflexivity|]. split; [done|]. pose proof Hs as [H1 H2 H3 H4 H5 H6 H7 H8 H9 H10]. destruct H7 as (S1 & S2 & S3). rewrite Hm in S3. destruct H10 as (W1 & W2 & W3).
  constructor; try done.
  - split; [done|]. split; [done|]. intros _. by apply S3.
  - split; [done|]. split; [done|]. cbn [m_state to_state]. destruct (Z.eqb_spec n 0); [done|]. cbn. lia.
Qed.

Lemma consume_line_ok prior p m line : sim prior p m -> in_lines m -> m_line m = [] -> Forall byte line -> answers prior (consume_line (state_ p) line p) (on_line m line).
Proof.
  intros Hs Hin El Hb. rewrite (sim_state _ _ _ Hs). destruct Hin as [Hm|[Hm|[Hm|Hm]]]; rewrite Hm.
  - unfold on_line. rewrite Hm. by apply parse_status_ok.
  - by apply header_line_ok.
  - by apply chunk_line_ok.
  - by apply trailer_line_ok.
Qed.

(** *** The loop over the bytes *)

Lemma on_line_body m line m' : on_line m line = inr m' -> (length (m_body m') <= length (m_body m))%nat.
Proof.
  intros H. assert (Hf : forall f m1, on_field m1 f = inr m' -> m_body m' = m_body m1) by (intros f m1 E; apply on_field_framing in E as (? & ? & ? & ? & ->); done).
  assert (Ha : forall bad next, add_field m bad line next = inr m' -> (forall m1 f, next m1 f = inr m' -> m_body m' = m_body m1) -> m_body m' = m_body m).
  { intros bad next E Hn. unfold add_field in E. destruct (split_line line) as [f|]; [|discriminate E]. destruct (spec_add _ _ _ _ _) as [st fs]. destruct st; try discriminate E. by apply Hn in E. }
  unfold on_line in H. destruct (m_state m); try discriminate H.
  - destruct (status_of line) as [[v code]|]; [|discriminate H]. by injection H as <-.
  - destruct line as [|c line]; [|erewrite Ha; [done|exact H|intros m1 f E; by eapply Hf]]. unfold on_headers_done, with_keep in H.
    repeat match type of H with context [if ?b then _ else _] => destruct b | context [match ?o with Some _ => _ | None => _ end] => destruct o end; try discriminate H; injection H as <-; cbn; lia.
  - destruct (hexadecimal _); [|discriminate H]. by injection H as <-.
  - destruct line as [|c line]; [by injection H as <-|]. destruct (split_line (c :: line)); [|discriminate H]. destruct (forbidden_trailer _); [discriminate H|]. erewrite Ha; [done|exact H|]. intros m1 f [= <-]. done.
Qed.

(** One pass takes [k] of the bytes to a new machine, or fails as the machine does. *)
Definition steps (prior : list Z) (r : exec (ctl (status * parser * nat) (parser * nat))) (m : machine) (bs : list Z) (offset : nat) : Prop :=
  match r with
  | Undefined => False
  | Done (Return (st, p', _)) => exists e, run m bs = Failed e /\ st = to_status e /\ succeeded st = false /\ state_ p' = failed /\ error_ p' = e
  | Done (Next (p', o)) => exists k m', (1 <= k <= length bs)%nat /\ o = (offset + k)%nat /\ sim prior p' m' /\ run m bs = continue (inr m') (drop k bs) /\ (length (m_body m') <= length (m_body m) + k)%nat
  end.

Lemma steps_fail prior m bs offset e p o : run m bs = Failed e -> e <> e_ok -> steps prior (Done (Return (fail e p, o))) m bs offset.
Proof. intros Hr He. exists e. split; [done|]. split; [done|]. split; [by destruct e|done]. Qed.

Lemma sim_set_line prior p m l b : sim prior p m -> line_holds b l -> sim prior (set_line b p) (with_line l m).
Proof.
  intros [H1 H2 H3 H4 H5 H6 H7 H8 H9 H10] Hl. constructor; try done. destruct H10 as (W1 & W2 & W3). split; [done|]. split; [done|]. cbn. destruct (m_state m) eqn:E; try done. rewrite W3. by destruct m.
Qed.

Lemma line_holds_push b l c : line_holds b l -> byte c -> (length l < MaxLineSize)%nat ->
  exists t, store (line_ b) (line_size_ b) c = Done t /\ length t = MaxLineSize /\ take (length (l ++ [c])) t = l ++ [c] /\ line_size_ b = length l.
Proof.
  intros (H1 & H2 & H3 & H4) Hc Hl. eexists. split; [apply store_Done; lia|]. rewrite length_insert. split; [done|]. split; [|done]. rewrite length_app. cbn [length]. rewrite H2, Nat.add_1_r, (take_S_r _ _ c) by (apply list_lookup_insert_eq; lia). by rewrite take_insert_ge, H3 by lia.
Qed.

Lemma feed_line_ok prior p m bytes size c bs offset : sim prior p m -> in_lines m -> drop offset bytes = c :: bs -> Forall byte (c :: bs) ->
  steps prior (feed_step bytes size (p, offset)) m (c :: bs) offset.
Proof.
  intros Hs Hin Hd Hb. apply Forall_cons in Hb as [Hc Hb]. unfold feed_step. rewrite (sim_state _ _ _ Hs). assert (El : line_state (m_state m) = true) by (destruct Hin as [-> |[-> |[-> | ->]]]; done). rewrite El.
  assert (Hat : bytes !! offset = Some c) by (pose proof (lookup_drop bytes offset 0) as H; rewrite Hd, Nat.add_0_r in H; by rewrite <-H). rewrite (load_Done _ _ _ Hat), bind_Done. cbv zeta. pose proof (sim_line _ _ _ Hs) as Hl. pose proof Hl as (L1 & L2 & L3 & L4). rewrite L2.
  assert (Erun : run m (c :: bs) = continue (on_byte m c) bs) by apply run_cons. rewrite on_byte_in_lines in Erun by done.
  destruct (Nat.leb_spec MaxLineSize (length (m_line m))) as [Hge|Hlt]; [by apply steps_fail|]. destruct (line_holds_push _ _ _ Hl Hc Hlt) as (t & Et & T1 & T2 & _). rewrite L2 in Et. rewrite Et, bind_Done. rewrite length_app in T2. cbn [length] in T2.
  assert (Hbytes : Forall byte (m_line m ++ [c])) by (apply Forall_app; by split; [|constructor]).
  destruct (c =? 10).
  - assert (Ecr : (if (length (m_line m) + 1 <? 2)%nat then Done false else d ← load t (length (m_line m) + 1 - 2); Done (d =? 13)) = Done (match strip_crlf (m_line m ++ [c]) with Some _ => true | None => false end)
        /\ (forall line, strip_crlf (m_line m ++ [c]) = Some line -> take (length (m_line m) + 1 - 2) t = line /\ Forall byte line)).
    { unfold strip_crlf. rewrite length_app. cbn [length]. destruct (Nat.ltb_spec (length (m_line m) + 1) 2) as [|H2]; [by split|].
      assert (Elk : t !! (length (m_line m) + 1 - 2)%nat = (m_line m ++ [c]) !! (length (m_line m) + 1 - 2)%nat) by (rewrite <-T2, lookup_take_lt by lia; done).
      destruct (lookup_lt_is_Some_2 t (length (m_line m) + 1 - 2)) as [d Hdd]; [pose proof line_room; lia|]. rewrite (load_Done _ _ _ Hdd), bind_Done, <-Elk, Hdd. split.
      - destruct (Z.eqb_spec d 13) as [->|N]; [by rewrite bool_decide_eq_true_2|rewrite bool_decide_eq_false_2; [done|congruence]].
      - intros line. case_bool_decide; [|done]. intros [= <-]. split; [by rewrite <-T2, take_take, Nat.min_l by lia|by apply Forall_take]. }
    destruct Ecr as [-> Hline]. rewrite bind_Done. destruct (strip_crlf (m_line m ++ [c])) as [line|] eqn:Estrip; cbn [negb]; [|by apply steps_fail]. destruct (Hline line eq_refl) as [-> Hlb].
    assert (Hs1 : sim prior (set_line (mk_line t 0) p) (with_line [] m)) by (apply sim_set_line; [done|split_and!; done]).
    assert (Hin1 : in_lines (with_line [] m)) by exact Hin. pose proof (consume_line_ok _ _ _ line Hs1 Hin1 eq_refl Hlb) as (st & p' & Er & Hr). change (state_ (set_line (mk_line t 0) p)) with (state_ p) in Er. rewrite (sim_state _ _ _ Hs) in Er. rewrite Er, bind_Done.
    destruct (on_line (with_line [] m) line) as [e|m'] eqn:Eo.
    + destruct Hr as (-> & Hns & R1 & R2). rewrite Hns. cbn [negb]. exists e. rewrite Erun. split; [done|]. by split_and!.
    + destruct Hr as [-> Hs']. cbn [succeeded negb]. change (negb (bool_decide (s_ok = s_ok))) with false. cbn beta iota. exists 1%nat, m'. cbn [length drop]. split; [lia|]. split; [done|]. split; [done|]. split; [done|]. apply on_line_body in Eo. cbn in Eo. lia.
  - exists 1%nat, (with_line (m_line m ++ [c]) m). cbn [length drop]. split; [lia|]. split; [done|]. split; [|split; [done|cbn; lia]]. apply sim_set_line; [done|]. split; [done|]. cbn [line_size_]. rewrite length_app. by split_and!.
Qed.

(** *** Bodies *)

Lemma sim_body_step prior p m s b data left : sim prior p m -> past_headers (m_state m) = true -> body_holds b (m_body m ++ data) -> chunk_remaining_ b = left ->
  machine_wf (to_state s (with_body (m_body m ++ data) left m)) -> sim prior (set_state s (set_body b (if callback then called data p else p))) (to_state s (with_body (m_body m ++ data) left m)).
Proof.
  intros [H1 H2 H3 H4 H5 H6 H7 H8 H9 H10] Hp Hb Hleft Hw. destruct H7 as (S1 & S2 & S3). specialize (S3 Hp). destruct callback eqn:Ec; constructor; try done.
  - by rewrite Ec.
  - cbn [calls set_state set_body called m_body to_state with_body]. rewrite Ec in *. rewrite join_app, H9. cbn [mjoin list_join]. by rewrite app_nil_r, <-app_assoc.
  - by rewrite Ec.
  - cbn [calls set_state set_body m_body to_state with_body]. rewrite Ec in *. by rewrite H9.
Qed.
Lemma set_state_same p : set_state (state_ p) p = p.
Proof. by destruct p. Qed.
Lemma to_state_same m : to_state (m_state m) m = m.
Proof. by destruct m. Qed.

Lemma run_data_slice m n bs : m_state m = chunk_data -> m_left m = Z.of_nat n -> (0 < length bs <= n)%nat ->
  run m bs = if decide (room (m_body m ++ bs)) then More (if decide (length bs = n) then to_state chunk_data_cr (with_body (m_body m ++ bs) 0 m) else with_body (m_body m ++ bs) (m_left m - Z.of_nat (length bs)) m) else Failed body_limit.
Proof.
  revert m n. induction bs as [|c bs IH]; intros m n Hm Hl Hn; [cbn in Hn; lia|]. cbn [length] in Hn. rewrite run_cons, on_byte_body, Hm, Hl by auto. assert (E : m_body m ++ c :: bs = (m_body m ++ [c]) ++ bs) by by rewrite <-app_assoc.
  destruct (negb callback && _) eqn:Et.
  - cbn [continue]. rewrite decide_False; [done|]. intros H. rewrite E in H. apply room_prefix, room_test in H. by rewrite H in Et.
  - apply (room_test _ c) in Et. destruct bs as [|d bs].
    + rewrite decide_True by done. cbn [length] in *. destruct (Z.eqb_spec (Z.of_nat n) 1) as [E1|E1]; cbn [continue m_state to_state with_body]; rewrite ?Hm, decide_False by done.
      * rewrite decide_True by lia. done.
      * rewrite decide_False by lia. cbn [run]. done.
    + rewrite (proj2 (Z.eqb_neq _ _)) by (cbn [length] in Hn; lia). cbn [continue m_state with_body]. rewrite Hm, decide_False by done. rewrite (IH _ (n - 1)%nat); [|done|cbn; lia|cbn [length] in *; lia].
      cbn [m_body m_left with_body]. rewrite E. destruct (decide (room ((m_body m ++ [c]) ++ d :: bs))); [|done]. f_equal. cbn [length] in *.
      destruct (decide (S (length bs) = (n - 1)%nat)), (decide (S (S (length bs)) = n)); try lia; [done|]. unfold with_body. cbn. f_equal. lia.
Qed.

Lemma called_same data p : state_ (if callback then called data p else p) = state_ p /\ frame (if callback then called data p else p) = frame p.
Proof. by destruct callback. Qed.

(** What [append_body] leaves of a parser that holds a machine. *)
Lemma append_sim prior p m data : sim prior p m -> past_headers (m_state m) = true -> Z.of_nat (length (m_body m) + length data) < 2 ^ 64 ->
  exists p1, append_body data p = Done (if decide (room (m_body m ++ data)) then (s_ok, p1) else fail body_limit p1) /\ state_ p1 = m_state m /\ frame p1 = frame p /\
    (room (m_body m ++ data) -> let left := if decide (m_state m = chunk_data) then to_u64 (m_left m - Z.of_nat (length data)) else m_left m in
      body_received_ (body_buf p1) = Z.of_nat (length (m_body m ++ data)) /\ chunk_remaining_ (body_buf p1) = left /\
      (machine_wf (with_body (m_body m ++ data) left m) -> sim prior p1 (with_body (m_body m ++ data) left m)) /\
      forall s, machine_wf (to_state s (with_body (m_body m ++ data) left m)) -> sim prior (set_state s p1) (to_state s (with_body (m_body m ++ data) left m))).
Proof.
  intros Hs Hp Hlt. destruct (append_body_ok p (m_body m) data (sim_body _ _ _ Hs) (sim_installed _ _ _ Hs) (proj1 (sim_wf _ _ _ Hs)) Hlt) as (b & Ea & Hb). rewrite (sim_state _ _ _ Hs), (sim_left _ _ _ Hs) in Hb. destruct (called_same data p) as [Es Ef].
  exists (set_body b (if callback then called data p else p)). split; [done|]. split; [cbn [state_ set_body]; rewrite Es; apply (sim_state _ _ _ Hs)|]. split; [exact Ef|]. intros Hr. cbv zeta. destruct (Hb Hr) as [Hb1 Hb2]. cbn [body_buf set_body].
  split; [by destruct Hb1 as (_ & _ & _ & ? & _)|]. split; [done|].
  assert (Hall : forall s, machine_wf (to_state s (with_body (m_body m ++ data) (chunk_remaining_ b) m)) -> sim prior (set_state s (set_body b (if callback then called data p else p))) (to_state s (with_body (m_body m ++ data) (chunk_remaining_ b) m))) by (intros s Hw; by apply sim_body_step).
  rewrite Hb2 in Hall. split; [|done]. specialize (Hall (m_state m)). replace (set_state (m_state m) _) with (set_body b (if callback then called data p else p)) in Hall; [exact Hall|]. rewrite <-(sim_state _ _ _ Hs), <-Es. symmetry. exact (set_state_same (set_body b (if callback then called data p else p))).
Qed.

(** The bytes a pass of the loop over a body sees. *)
Lemma drop_pass (bytes bs : list Z) size offset : drop offset bytes = bs -> bs <> [] -> length bytes = size -> (size - offset)%nat = length bs /\ (0 < length bs)%nat.
Proof. intros Hd Hne Hs. split; [by rewrite <-Hd, length_drop, Hs|]. destruct bs; [done|cbn; lia]. Qed.

Lemma feed_fixed_ok prior p m bytes size bs offset : sim prior p m -> m_state m = fixed_body -> drop offset bytes = bs -> bs <> [] -> length bytes = size ->
  Z.of_nat (length (m_body m) + length bs) < 2 ^ 64 -> steps prior (feed_step bytes size (p, offset)) m bs offset.
Proof.
  intros Hs Hm Hd Hne Hsize Hlt. destruct (drop_pass _ _ _ _ Hd Hne Hsize) as [Hlen Hpos]. unfold feed_step. rewrite (sim_state _ _ _ Hs), Hm. change (line_state fixed_body) with false. change (body_state fixed_body) with true. cbn beta iota. rewrite Hlen, Hd. cbv zeta.
  assert (Erec : body_received_ (body_buf p) = Z.of_nat (length (m_body m))) by (by destruct (sim_body _ _ _ Hs) as (_ & _ & _ & ? & _)).
  pose proof (sim_wf _ _ _ Hs) as (W1 & W2 & W3). rewrite Hm in W3. destruct W3 as (n & En & Hn & Hroom). destruct (sim_frame _ _ _ Hs) as (_ & F2 & _). destruct (F2 n En) as [Ec Hn64].
  rewrite Erec, Ec, wrap_small by (unfold in_width; lia). rewrite decide_False, decide_True by done. set (r := Z.to_nat (n - Z.of_nat (length (m_body m)))). set (k := Nat.min (length bs) r). rewrite (proj2 (Nat.eqb_neq k 0)) by lia.
  destruct (append_sim prior p m (take k bs) Hs) as (p1 & Ea & P1 & P2 & P3); [by rewrite Hm|rewrite length_take; lia|].
  assert (Hr : room (m_body m ++ take k bs)) by (unfold room; rewrite length_app, length_take; destruct Hroom; [by left|right; lia]).
  rewrite Ea, decide_True, bind_Done by done. destruct (P3 Hr) as (Q1 & Q2 & Q3 & Q4). clear P3. change (negb (succeeded s_ok)) with false. cbn beta iota. rewrite P1, P2, Q1, Ec, Hm. rewrite decide_False in Q3, Q4 by (by rewrite Hm).
  assert (Hrun := run_fixed m r bs Hm). rewrite En in Hrun. specialize (Hrun ltac:(f_equal; lia) ltac:(lia) ltac:(destruct Hroom; [by left|right; lia])).
  assert (Hk : length (take k bs) = k) by (rewrite length_take; lia). exists k. rewrite length_app, Hk. destruct (decide (length bs < r)%nat) as [Hlt'|Hge].
  - rewrite decide_False by (intros [_ H]; lia). rewrite decide_False by (by intros [[=] _]). assert (Ek : k = length bs) by lia. rewrite Ek, firstn_all in *. rewrite drop_all. exists (with_body (m_body m ++ bs) (m_left m) m).
    split; [lia|]. split; [done|]. split; [|split].
    + apply Q3. split; [done|]. split; [done|]. cbn [m_state with_body]. rewrite Hm. exists n. cbn [m_length m_body with_body]. rewrite length_app. split; [done|]. split; [lia|done].
    + rewrite Hrun. cbn [continue m_state with_body run]. by rewrite Hm, decide_False.
    + cbn [m_body with_body]. rewrite length_app. lia.
  - assert (Ek : k = r) by lia. rewrite decide_True by (split; [done|lia]). rewrite Ek in *. exists (to_state complete (with_body (m_body m ++ take r bs) (m_left m) m)). split; [lia|]. split; [done|]. split; [|split].
    + by apply Q4.
    + rewrite Hrun. cbn [continue m_state to_state]. by rewrite decide_True.
    + cbn [m_body with_body to_state]. rewrite length_app. lia.
Qed.

Lemma feed_close_ok prior p m bytes size bs offset : sim prior p m -> m_state m = close_body -> drop offset bytes = bs -> bs <> [] -> length bytes = size ->
  Z.of_nat (length (m_body m) + length bs) < 2 ^ 64 -> steps prior (feed_step bytes size (p, offset)) m bs offset.
Proof.
  intros Hs Hm Hd Hne Hsize Hlt. destruct (drop_pass _ _ _ _ Hd Hne Hsize) as [Hlen Hpos]. unfold feed_step. rewrite (sim_state _ _ _ Hs), Hm. change (line_state close_body) with false. change (body_state close_body) with true. cbn beta iota. rewrite Hlen, Hd. cbv zeta.
  rewrite !decide_False by done. rewrite (proj2 (Nat.eqb_neq (length bs) 0)), firstn_all by lia. destruct (append_sim prior p m bs Hs) as (p1 & Ea & P1 & P2 & P3); [by rewrite Hm|done|]. assert (Hrun := run_close m bs Hm).
  destruct (decide (room (m_body m ++ bs))) as [Hr|Hr]; rewrite Ea, bind_Done.
  - destruct (P3 Hr) as (Q1 & Q2 & Q3 & Q4). clear P3. change (negb (succeeded s_ok)) with false. cbn beta iota. rewrite P1, Hm, !decide_False by (by intros [[=] _]). rewrite decide_False in Q3 by (by rewrite Hm).
    rewrite decide_True in Hrun by (by left). exists (length bs), (with_body (m_body m ++ bs) (m_left m) m). rewrite drop_all. split; [lia|]. split; [done|]. split; [|split].
    + pose proof (sim_wf _ _ _ Hs) as (W1 & W2 & _). apply Q3. split; [done|]. split; [done|]. cbn [m_state with_body]. by rewrite Hm.
    + rewrite Hrun. cbn [continue m_state with_body run]. by rewrite Hm, decide_False.
    + cbn [m_body with_body]. rewrite length_app. lia.
  - rewrite decide_False in Hrun by (by intros [|]). by apply steps_fail.
Qed.

Lemma feed_chunk_ok prior p m bytes size bs offset : sim prior p m -> m_state m = chunk_data -> drop offset bytes = bs -> bs <> [] -> length bytes = size ->
  Z.of_nat (length (m_body m) + length bs) < 2 ^ 64 -> steps prior (feed_step bytes size (p, offset)) m bs offset.
Proof.
  intros Hs Hm Hd Hne Hsize Hlt. destruct (drop_pass _ _ _ _ Hd Hne Hsize) as [Hlen Hpos]. unfold feed_step. rewrite (sim_state _ _ _ Hs), Hm. change (line_state chunk_data) with false. change (body_state chunk_data) with true. cbn beta iota. rewrite Hlen, Hd. cbv zeta.
  pose proof (sim_wf _ _ _ Hs) as (W1 & W2 & W3). rewrite Hm in W3. rewrite decide_True, decide_False by done. rewrite (sim_left _ _ _ Hs). set (r := Z.to_nat (m_left m)). set (k := Nat.min (length bs) r). rewrite (proj2 (Nat.eqb_neq k 0)) by lia.
  destruct (append_sim prior p m (take k bs) Hs) as (p1 & Ea & P1 & P2 & P3); [by rewrite Hm|rewrite length_take; lia|]. assert (Hk : length (take k bs) = k) by (rewrite length_take; lia).
  assert (Hrun := run_data_slice m r (take k bs) Hm ltac:(lia) ltac:(lia)). rewrite Hk in Hrun. assert (Hsplit : run m bs = match run m (take k bs) with More m' => run m' (drop k bs) | Finished m' rest => Finished m' (rest ++ drop k bs) | Failed e => Failed e end) by (by rewrite <-run_app, take_drop). rewrite Hrun in Hsplit. clear Hrun.
  destruct (decide (room (m_body m ++ take k bs))) as [Hr|Hr]; rewrite Ea, bind_Done; [|by apply steps_fail].
  destruct (P3 Hr) as (Q1 & Q2 & Q3 & Q4). clear P3. change (negb (succeeded s_ok)) with false. cbn beta iota. rewrite decide_True, Hk, wrap_small in Q2, Q3, Q4 by (done || (unfold in_width; lia)). rewrite P1, Q2, Hm, (decide_False (P := chunk_data = fixed_body /\ _)) by (by intros [[=] _]).
  exists k. destruct (decide (k = r)) as [Ek|Ek].
  - rewrite decide_True by (split; [done|lia]). exists (to_state chunk_data_cr (with_body (m_body m ++ take k bs) 0 m)). split; [lia|]. split; [done|]. replace (m_left m - Z.of_nat k) with 0 in Q4 by lia. split; [|split].
    + apply Q4. split; [done|]. by split.
    + rewrite Hsplit. cbn [continue m_state to_state]. by rewrite decide_False.
    + cbn [m_body with_body to_state]. rewrite length_app. lia.
  - rewrite decide_False by (intros [_ H]; lia). exists (with_body (m_body m ++ take k bs) (m_left m - Z.of_nat k) m). split; [lia|]. split; [done|]. split; [|split].
    + apply Q3. split; [done|]. cbn [m_left m_state with_body]. rewrite Hm. split; lia.
    + rewrite Hsplit. cbn [continue m_state with_body]. by rewrite Hm, decide_False.
    + cbn [m_body with_body]. rewrite length_app. lia.
Qed.

Lemma feed_crlf_ok prior p m bytes size c bs offset : sim prior p m -> m_state m = chunk_data_cr \/ m_state m = chunk_data_lf -> drop offset bytes = c :: bs ->
  steps prior (feed_step bytes size (p, offset)) m (c :: bs) offset.
Proof.
  intros Hs Hm Hd. unfold feed_step. rewrite (sim_state _ _ _ Hs). assert (Hat : bytes !! offset = Some c) by (pose proof (lookup_drop bytes offset 0) as H; rewrite Hd, Nat.add_0_r in H; by rewrite <-H). 
  pose proof (sim_wf _ _ _ Hs) as (W1 & W2 & _). destruct (sim_store _ _ _ Hs) as (_ & _ & Hv). assert (Erun : run m (c :: bs) = continue (on_byte m c) bs) by apply run_cons. unfold on_byte in Erun. destruct Hm as [Hm|Hm]; rewrite Hm in *; [change (line_state chunk_data_cr) with false; change (body_state chunk_data_cr) with false|change (line_state chunk_data_lf) with false; change (body_state chunk_data_lf) with false]; cbn beta iota; rewrite (load_Done _ _ _ Hat), bind_Done; cbv zeta.
  - rewrite decide_True by done. destruct (c =? 13); cbn [negb]; [|by apply steps_fail]. exists 1%nat, (to_state chunk_data_lf m). cbn [length drop]. split; [lia|]. split; [done|]. split; [|split; [done|cbn; lia]]. apply sim_to_state; [done|done|done|by apply Hv|]. by split.
  - rewrite decide_False by done. destruct (c =? 10); cbn [negb]; [|by apply steps_fail]. exists 1%nat, (to_state chunk_size m). cbn [length drop]. split; [lia|]. split; [done|]. split; [|split; [done|cbn; lia]]. apply sim_to_state; [done|done|done|by apply Hv|]. by split.
Qed.

(** *** Feeding *)

Lemma feed_step_ok prior p m bytes size bs offset : sim prior p m -> m_state m <> complete -> drop offset bytes = bs -> bs <> [] -> Forall byte bs -> length bytes = size ->
  Z.of_nat (length (m_body m) + length bs) < 2 ^ 64 -> steps prior (feed_step bytes size (p, offset)) m bs offset.
Proof.
  intros Hs Hm Hd Hne Hb Hsize Hlt. pose proof (sim_wf _ _ _ Hs) as (_ & _ & W). destruct bs as [|c bs]; [done|]. destruct (m_state m) eqn:E; try done.
  1,2: apply feed_line_ok; [done|unfold in_lines; auto|done|done].
  1: by apply feed_fixed_ok.
  1: by apply feed_close_ok.
  1: apply feed_line_ok; [done|unfold in_lines; auto|done|done].
  1: by apply feed_chunk_ok.
  1,2: apply feed_crlf_ok; auto.
  apply feed_line_ok; [done|unfold in_lines; auto|done|done].
Qed.

(** The loop reaches what the machine's run reaches. *)
Definition reaches (prior : list Z) (size : nat) (r : ctl (status * parser * nat) (parser * nat)) (o : result) : Prop :=
  match o with
  | Failed e => exists p' n, r = Return (to_status e, p', n) /\ succeeded (to_status e) = false /\ state_ p' = failed /\ error_ p' = e
  | Finished m' rest => exists p', r = Next (p', (size - length rest)%nat) /\ sim prior p' m' /\ m_state m' = complete
  | More m' => exists p', r = Next (p', size) /\ sim prior p' m' /\ m_state m' <> complete
  end.

Lemma feed_loop_ok prior bytes size fuel p m offset : length bytes = size -> Forall byte bytes -> sim prior p m -> (offset <= size)%nat -> (size - offset < fuel)%nat ->
  Z.of_nat (length (m_body m) + (size - offset)) < 2 ^ 64 ->
  exists r, while_loop fuel (fun '(p, offset) => Done ((offset <? size)%nat && negb (bool_decide (state_ p = complete)))) (feed_step bytes size) (p, offset) = Done r
    /\ reaches prior size r (continue (inr m) (drop offset bytes)).
Proof.
  intros Hsize Hb. revert p m offset. induction fuel as [|fuel IH]; intros p m offset Hs Ho Hf Hlt; [lia|]. cbn [while_loop]. rewrite (sim_state _ _ _ Hs). unfold continue. destruct (decide (m_state m = complete)) as [Hc|Hc].
  - rewrite bool_decide_eq_true_2, andb_false_r by done. eexists. split; [done|]. exists p. rewrite length_drop. split; [|done]. do 2 f_equal. lia.
  - rewrite bool_decide_eq_false_2, andb_true_r by done. destruct (Nat.ltb_spec offset size) as [Hlt'|Hge].
    2:{ eexists. split; [done|]. rewrite drop_ge by lia. cbn [run]. exists p. split; [|done]. do 2 f_equal. lia. }
    assert (Hstep := feed_step_ok prior p m bytes size (drop offset bytes) offset Hs Hc eq_refl). unfold steps in Hstep. destruct (feed_step bytes size (p, offset)) as [[[[st p'] o]|[p' o]]|].
    + destruct Hstep as (e & E & -> & Hns & H1 & H2); [intros E; apply (f_equal length) in E; rewrite length_drop in E; cbn in E; lia|by apply Forall_drop|done|rewrite length_drop; lia|]. eexists. split; [done|]. rewrite E. eexists _, _. by split_and!.
    + destruct Hstep as (k & m' & Hk & -> & Hs' & E & Hbody); [intros E; apply (f_equal length) in E; rewrite length_drop in E; cbn in E; lia|by apply Forall_drop|done|rewrite length_drop; lia|]. rewrite length_drop in Hk.
      destruct (IH p' m' (offset + k)%nat Hs') as (r & Er & Hr); [lia|lia|lia|]. exists r. split; [done|]. rewrite E, drop_drop. exact Hr.
    + destruct Hstep; [intros E; apply (f_equal length) in E; rewrite length_drop in E; cbn in E; lia|by apply Forall_drop|done|rewrite length_drop; lia].
Qed.

(** The answer to a feed whose bytes take the machine to [o]. *)
Definition fed (prior : list Z) (peer_closed : bool) (total : nat) (o : result) (st : status) (p' : parser) (n : nat) : Prop :=
  match o with
  | Failed e => st = to_status e /\ succeeded st = false /\ state_ p' = failed /\ error_ p' = e
  | Finished m' rest => st = s_ok /\ sim prior p' m' /\ m_state m' = complete /\ n = (total - length rest)%nat
  | More m' =>
      if peer_closed then
        if decide (m_state m' = close_body) then st = s_ok /\ sim prior p' (to_state complete m') /\ n = total
        else st = to_status connection_closed /\ succeeded st = false /\ state_ p' = failed /\ error_ p' = connection_closed
      else st = s_ok /\ sim prior p' m' /\ m_state m' <> complete /\ n = total
  end.

Lemma feed_ok prior p m bs peer_closed : Forall byte bs -> sim prior p m -> m_state m <> complete -> Z.of_nat (length (m_body m) + length bs) < 2 ^ 64 ->
  exists st p' n, feed (Some bs) (length bs) peer_closed p = Done (st, p', n) /\ fed prior peer_closed (length bs) (run m bs) st p' n.
Proof.
  intros Hb Hs Hm Hlt. unfold feed, feed_bytes. rewrite (sim_state _ _ _ Hs). pose proof (sim_wf _ _ _ Hs) as (W1 & W2 & W3). rewrite decide_False by (intros E; by rewrite E in W3). rewrite decide_False by done. rewrite bool_decide_eq_false_2 by done. cbn [andb].
  destruct (feed_loop_ok prior bs (length bs) (S (length bs)) p m 0 eq_refl Hb Hs) as (r & Er & Hr); [lia|lia|by rewrite Nat.sub_0_r|]. cbv zeta. change (default [] (Some bs)) with bs. rewrite Er. rewrite drop_0 in Hr. unfold continue in Hr. rewrite decide_False in Hr by done. unfold fed, reaches in *. destruct (run m bs) as [m'|m' rest|e].
  - destruct Hr as (p' & -> & Hs' & Hne). cbn [after]. rewrite (sim_state _ _ _ Hs'). rewrite bool_decide_eq_false_2, andb_true_r by done. destruct peer_closed.
    + destruct (decide (m_state m' = close_body)) as [Hcl|Hcl]; [|eexists _, _, _; by split].
      eexists _, _, _. split; [done|]. split; [done|]. split; [|done]. destruct (sim_store _ _ _ Hs') as (_ & _ & Hv). rewrite Hcl in Hv. apply sim_to_state; [done|done|done|by apply Hv|]. destruct (sim_wf _ _ _ Hs') as (X1 & X2 & _). split; [done|]. by split.
    + eexists _, _, _. split; [done|]. by split_and!.
  - destruct Hr as (p' & -> & Hs' & Hc). cbn [after]. rewrite (sim_state _ _ _ Hs'). rewrite bool_decide_eq_true_2, andb_false_r by done. eexists _, _, _. split; [done|]. by split_and!.
  - destruct Hr as (p' & n & -> & Hns & R1 & R2). cbn [after]. eexists _, _, _. split; [done|]. by split_and!.
Qed.

(** The segments of the stream one after the other, then the state of the peer; a call that fails or completes the response ends it. *)
Fixpoint feed_all (segments : list (list Z)) (peer_closed : bool) (p : parser) : exec (status * parser * nat) :=
  match segments with
  | [] => feed (Some []) 0 peer_closed p
  | s :: segments =>
      '(st, p, n) ← feed (Some s) (length s) false p;
      if negb (succeeded st) || complete_ p then Done (st, p, n)
      else '(st, p, k) ← feed_all segments peer_closed p; Done (st, p, (n + k)%nat)
  end.

Lemma run_body_le m bs : (length (m_body (match run m bs with More m' => m' | _ => m end)) <= length (m_body m) + length bs)%nat.
Proof.
  revert m. induction bs as [|c bs IH]; intros m; [cbn; lia|]. rewrite run_cons. destruct (on_byte m c) as [e|m'] eqn:E; [cbn; lia|]. cbn [continue]. destruct (decide (m_state m' = complete)); [cbn; lia|].
  assert (Hb : (length (m_body m') <= length (m_body m) + 1)%nat).
  { unfold on_byte in E. assert (Hline : forall line, on_line (with_line [] m) line = inr m' -> (length (m_body m') <= length (m_body m) + 1)%nat) by (intros line H; apply on_line_body in H; cbn in H; lia).
    destruct (m_state m); try (destruct (MaxLineSize <=? _)%nat; [discriminate E|]; destruct (c =? 10); [destruct (strip_crlf _); [by eapply Hline|discriminate E]|injection E as <-; cbn; lia]).
    1-3: destruct (_ && _); [discriminate E|]; injection E as <-; repeat (case_bool_decide || destruct (_ =? _)); cbn; rewrite length_app; cbn; lia.
    all: match type of E with context [if ?b then _ else _] => destruct b end; [|discriminate E]; injection E as <-; cbn; lia. }
  specialize (IH m'). destruct (run m' bs); cbn [length]; lia.
Qed.

Lemma run_rest_le m bs m' rest : run m bs = Finished m' rest -> (length rest <= length bs)%nat.
Proof.
  revert m. induction bs as [|c bs IH]; intros m; [done|]. rewrite run_cons. destruct (on_byte m c) as [e|m1]; [done|]. cbn [continue length]. destruct (decide (m_state m1 = complete)); [intros [= _ <-]; lia|]. intros H. apply IH in H. lia.
Qed.

Lemma feed_all_ok prior segments peer_closed p m : Forall (Forall byte) segments -> sim prior p m -> m_state m <> complete -> Z.of_nat (length (m_body m) + length (concat segments)) < 2 ^ 64 ->
  exists st p' n, feed_all segments peer_closed p = Done (st, p', n) /\ fed prior peer_closed (length (concat segments)) (run m (concat segments)) st p' n.
Proof.
  revert p m. induction segments as [|s segments IH]; intros p m Hb Hs Hm Hlt.
  - apply (feed_ok prior p m [] peer_closed); done.
  - apply Forall_cons in Hb as [Hb Hbs]. cbn [concat feed_all] in *. rewrite length_app in *. destruct (feed_ok prior p m s false Hb Hs Hm) as (st & p1 & n & Ef & Hf); [lia|]. rewrite Ef, bind_Done, run_app. pose proof (run_body_le m s) as Hle. unfold fed in Hf. destruct (run m s) as [m'|m' rest|e].
    + destruct Hf as (-> & Hs' & Hne & ->). change (negb (succeeded s_ok)) with false. unfold complete_. rewrite (sim_state _ _ _ Hs'), bool_decide_eq_false_2 by done. cbn [orb].
      destruct (IH p1 m' Hbs Hs' Hne) as (st & p2 & k & Er & Hr); [lia|]. rewrite Er, bind_Done. eexists _, _, _. split; [done|]. unfold fed in *. destruct (run m' (concat segments)) as [m2|m2 rest|e] eqn:E2.
      * destruct peer_closed; [destruct (decide (m_state m2 = close_body))|]; [destruct Hr as (? & ? & ->)|done|destruct Hr as (? & ? & ? & ->)]; by split_and!.
      * destruct Hr as (? & ? & ? & ->). split_and!; try done. assert (Hle2 : (length rest <= length (concat segments))%nat) by (by eapply run_rest_le). lia.
      * done.
    + destruct Hf as (-> & Hs' & Hc & ->). unfold complete_. rewrite (sim_state _ _ _ Hs'), bool_decide_eq_true_2, orb_true_r by done. eexists _, _, _. split; [done|]. unfold fed. split_and!; try done. rewrite length_app. lia.
    + destruct Hf as (-> & Hns & R1 & R2). rewrite Hns. cbn [negb orb]. eexists _, _, _. split; [done|]. by split_and!.
Qed.

(** ** The responses the parser completes *)

(** The arrays have the sizes of the template arguments. *)
Definition well_sized (p : parser) : Prop :=
  length (line_ (line_buf p)) = MaxLineSize /\ length (body_ (body_buf p)) = MaxBodySize /\ length (views_ (store_ p)) = MaxHeaders /\
  length (fields_ (headers_ (store_ p))) = MaxHeaders /\ Forall (sized MaxNameSize MaxValueSize) (fields_ (headers_ (store_ p))).

Lemma parser_new_sized : well_sized parser_new.
Proof. split_and!; try apply length_replicate. apply Forall_replicate. split; apply length_replicate. Qed.

Lemma sim_sized prior p m : sim prior p m -> well_sized p.
Proof. intros Hs. destruct (sim_line _ _ _ Hs) as (? & _), (sim_body _ _ _ Hs) as (? & _), (sim_store _ _ _ Hs) as ((? & ? & _) & ? & _). by split_and!. Qed.

Lemma reset_sim head p : well_sized p -> body_callback_ p = callback -> sim (mjoin (calls p)) (reset head p) (start head).
Proof.
  intros (H1 & H2 & H3 & H4 & H5) Hcb. constructor; try done.
  - split_and!; [done|cbn; lia|cbn; by rewrite take_nil|done|symmetry; apply Nat.ltb_ge; cbn; lia].
  - split; [|done]. split; [done|]. split; [done|]. split; [done|]. split; [apply Nat.le_0_l|constructor].
  - cbn. destruct callback; by rewrite app_nil_r.
  - split; [right; cbn; lia|]. by split.
Qed.

(** The response object shows [w]: the start of its body that fits, and the callback has been passed all of it. *)
Definition shows (prior : list Z) (p : parser) (w : view) : Prop :=
  response p = Done (mk_response (v_code w) (v_version w) (v_fields w) (take MaxBodySize (v_body w)) (v_keep w) (MaxBodySize <? length (v_body w))%nat)
  /\ body_received p = Z.of_nat (length (v_body w)) /\ mjoin (calls p) = prior ++ (if callback then v_body w else []).

Lemma response_ok prior p m : sim prior p m -> past_headers (m_state m) = true -> shows prior p (view_of m).
Proof.
  intros Hs Hp. destruct (sim_store _ _ _ Hs) as (S1 & S2 & S3). destruct (S3 Hp) as [V1 V2]. destruct (sim_body _ _ _ Hs) as (B1 & B2 & B3 & B4 & B5). destruct (sim_frame _ _ _ Hs) as (_ & _ & _ & _ & F5 & F6 & F7).
  assert (Ec : header_count_ (store_ p) = length (m_fields m)) by (by destruct S1 as (_ & _ & Hc & _); rewrite V1).
  split; [|split; [exact B4|apply (sim_calls _ _ _ Hs)]]. unfold response.
  destruct (for_to_inv (fun i hs => hs = take i (m_fields m)) (fun i hs => v ← load (views_ (store_ p)) i; f ← view_text (headers_ (store_ p)) v; Done (hs ++ [f])) 0 (header_count_ (store_ p)) []) as (hs & -> & ->).
  - by rewrite take_0.
  - intros i hs Hi ->. destruct (V2 i) as (v & Ev & Hv); [lia|]. rewrite (load_Done _ _ _ Hv), bind_Done. destruct (lookup_lt_is_Some_2 (m_fields m) i) as [x Hx]; [lia|]. destruct (view_at_ok _ _ _ _ S1 Hx) as (v' & Ev' & Ht). rewrite Ev in Ev'. injection Ev' as <-. rewrite Ht, bind_Done.
    eexists. split; [done|]. symmetry. by apply take_S_r.
  - rewrite bind_Done. cbn [Nat.add]. rewrite Ec, firstn_all, F5, F6, F7, B3, B5. done.
Qed.

Lemma fed_complete prior peer_closed head bs st p' n : fed prior peer_closed (length bs) (run (start head) bs) st p' n -> state_ p' = complete ->
  st = s_ok /\ exists closed pre rest w, bs = pre ++ rest /\ (closed = true -> rest = [] /\ peer_closed = true) /\ Http1Response.response head closed pre w /\ n = length pre /\ shows prior p' w.
Proof.
  intros Hf Hc. unfold fed in Hf. destruct (run (start head) bs) as [m|m rest|e] eqn:Er.
  - destruct peer_closed; [destruct (decide (m_state m = close_body)) as [Hcl|]|].
    + destruct Hf as (-> & Hs & ->). split; [done|]. destruct (proj1 (yields_response head true bs [] (view_of m))) as (pre & E & Hr & Hresp); [exists m; by rewrite Er|]. rewrite app_nil_r in E. subst pre.
      exists true, bs, [], (view_of m). rewrite app_nil_r. split_and!; try done. by apply (response_ok prior p' (to_state complete m)).
    + destruct Hf as (_ & _ & H & _). congruence.
    + destruct Hf as (_ & Hs & Hne & _). by rewrite (sim_state _ _ _ Hs) in Hc.
  - destruct Hf as (-> & Hs & Hcm & ->). split; [done|]. destruct (proj1 (yields_response head false bs rest (view_of m))) as (pre & -> & _ & Hresp); [exists m; by rewrite Er|].
    exists false, pre, rest, (view_of m). rewrite length_app, Nat.add_sub. split_and!; try done; apply (response_ok prior p' m Hs); by rewrite Hcm.
  - destruct Hf as (_ & _ & H & _). congruence.
Qed.

Lemma fed_response prior peer_closed head bs st p' n closed pre rest w : fed prior peer_closed (length bs) (run (start head) bs) st p' n ->
  bs = pre ++ rest -> (closed = true -> rest = [] /\ peer_closed = true) -> Http1Response.response head closed pre w -> st = s_ok /\ state_ p' = complete /\ n = length pre /\ shows prior p' w.
Proof.
  intros Hf E Hclosed Hresp. destruct (proj2 (yields_response head closed bs rest w)) as (m & <- & Hm); [exists pre; split; [done|]; split; [|done]; intros H; by apply Hclosed|]. unfold fed in Hf. destruct closed.
  - destruct Hm as (-> & Hm & Er), (Hclosed eq_refl) as [_ ->]. rewrite Er, decide_True in Hf by done. destruct Hf as (-> & Hs & ->). rewrite app_nil_r in E. subst bs. split; [done|]. split; [apply (sim_state _ _ _ Hs)|]. split; [done|]. by apply (response_ok prior p' (to_state complete m)).
  - rewrite Hm in Hf. destruct Hf as (-> & Hs & Hc & ->). split; [done|]. split; [by rewrite (sim_state _ _ _ Hs)|]. rewrite E, length_app, Nat.add_sub. split; [done|]. apply response_ok; [done|]. by rewrite Hc.
Qed.

Lemma fed_sound prior peer_closed total o st p' n : fed prior peer_closed total o st p' n ->
  st = s_ok /\ well_sized p' /\ body_callback_ p' = callback \/ st <> s_ok /\ state_ p' = failed /\ st = to_status (error_ p').
Proof.
  assert (Hsim : forall m, sim prior p' m -> well_sized p' /\ body_callback_ p' = callback) by (intros m H; split; [by eapply sim_sized|apply (sim_installed _ _ _ H)]).
  assert (Hfail : forall e, st = to_status e /\ succeeded st = false /\ state_ p' = failed /\ error_ p' = e -> st <> s_ok /\ state_ p' = failed /\ st = to_status (error_ p')) by (intros e (-> & H & ? & ->); split; [by intros E; rewrite E in H|done]).
  unfold fed. destruct o as [m|m rest|e]; [destruct peer_closed; [destruct (decide _)|]| |]; intros H; try (right; by eapply Hfail); destruct H as (-> & Hs & _); left; split; [done|by eapply Hsim|done|by eapply Hsim|done|by eapply Hsim].
Qed.

(** C11. The parser, reset for the answer to any request and fed any division of a byte stream into segments, completes exactly when the stream starts with an HTTP/1.1 response within the limits of its template arguments (interim responses, then a head block, then a body framed by a length, by chunks, by the end of the stream or by nothing), consumes exactly its octets, and shows exactly its status, version, fields, trailers, body and persistence, the body callback having been passed all of the body; every other stream leaves it waiting or failed with the status of its error, and no run leaves its arrays. *)
Theorem http1_parser_exact p head segments peer_closed :
  well_sized p -> body_callback_ p = callback -> Forall (Forall byte) segments -> Z.of_nat (length (concat segments)) < 2 ^ 64 ->
  exists st p' n, feed_all segments peer_closed (reset head p) = Done (st, p', n) /\
    (state_ p' = complete -> st = s_ok /\ exists closed pre rest w,
       concat segments = pre ++ rest /\ (closed = true -> rest = [] /\ peer_closed = true) /\ Http1Response.response head closed pre w /\ n = length pre /\ shows (mjoin (calls p)) p' w) /\
    (forall closed pre rest w, concat segments = pre ++ rest -> (closed = true -> rest = [] /\ peer_closed = true) -> Http1Response.response head closed pre w ->
       st = s_ok /\ state_ p' = complete /\ n = length pre /\ shows (mjoin (calls p)) p' w) /\
    (st = s_ok /\ well_sized p' /\ body_callback_ p' = callback \/ st <> s_ok /\ state_ p' = failed /\ st = to_status (error_ p')).
Proof.
  intros Hw Hcb Hb Hlt. pose proof (reset_sim head p Hw Hcb) as Hs. destruct (feed_all_ok _ segments peer_closed _ _ Hb Hs) as (st & p' & n & E & Hf); [done|done|]. exists st, p', n. split; [done|].
  split; [by apply fed_complete|]. split; [|by eapply fed_sound]. intros closed pre rest w. by apply fed_response.
Qed.
End Parser.

(** Small buffers, chunks enabled, no callback. *)
Definition small : config.
Proof. refine {| MaxBodySize := 8; MaxHeaders := 2; MaxNameSize := 20; MaxValueSize := 10; MaxLineSize := 32; EnableChunked := true; callback := false |}; apply Nat.leb_le; reflexivity. Defined.

(** An interim response, then a body of three bytes, in two segments. *)
Definition sample : list (list Z) :=
  [chars "HTTP/1.1 100 Continue" ++ crlf ++ crlf ++ chars "HTTP/1.0 200"; crlf ++ chars "Content-Length:  3 " ++ crlf ++ crlf ++ chars "abcX"].

Lemma http1_parser_exact_witness :
  (exists st p' n, feed_all (C := small) sample false (reset false (parser_new (C := small))) = Done (st, p', n) /\
    (state_ p' = complete -> st = s_ok /\ exists closed pre rest w, concat sample = pre ++ rest /\ (closed = true -> rest = [] /\ false = true) /\ Http1Response.response (C := small) false closed pre w /\ n = length pre /\ shows (C := small) [] p' w))
  /\ match feed_all (C := small) sample false (reset false (parser_new (C := small))) with
     | Done (st, p', n) => (st, state_ p', n, response p') = (s_ok, complete, 65%nat, Done (mk_response 200 http_1_0 [(chars "Content-Length", chars "3")] (chars "abc") false false))
     | Undefined => False
     end.
Proof.
  split; [|vm_compute; reflexivity].
  destruct (http1_parser_exact (C := small) (parser_new (C := small)) false sample false (parser_new_sized (C := small)) eq_refl) as (st & p' & n & E & H & _).
  - apply Forall_forall. intros s Hs. repeat (apply elem_of_cons in Hs as [->|Hs]; [apply (bool_decide_unpack _); vm_compute; exact I|]). by apply not_elem_of_nil in Hs.
  - reflexivity.
  - exists st, p', n. split; [exact E|exact H].
Defined.
