(* ===== verification/NmeaSentence.v ===== *)
(** * NMEA 0183 sentences (castle_ext/protocols/nmea/nmea.hpp)

    The checksum, the fields of a sentence, decoding a line and encoding a sentence, with the
    text of a sentence they agree on.  A [char] is the byte; the hexadecimal digits, which alone
    are converted, are below 128. *)

From S2P Require Import Prelude Status Bytes Words StringView.
Open Scope Z_scope.

(** ** The code *)

Definition NMEA_START_CHAR : Z := 36.
Definition NMEA_CHECKSUM_CHAR : Z := 42.
Definition NMEA_FIELD_SEP : Z := 44.
Definition NMEA_CR : Z := 13.
Definition NMEA_LF : Z := 10.

(** The views alias the buffer of the producer; [fields] are those stored. *)
Record message_view : Type := mk_message { talker : list Z; type_ : list Z; fields : list (list Z); checksum : Z; checksum_present : bool }.
Definition no_message : message_view := mk_message [] [] [] 0 false.
Definition field (m : message_view) (index : nat) : exec (list Z) := if (index <? length (fields m))%nat then load (fields m) index else Done [].
Definition has_field (m : message_view) (index : nat) : exec bool :=
  if (index <? length (fields m))%nat then f ← load (fields m) index; Done (negb (length f =? 0)%nat) else Done false.
Definition field_count (m : message_view) : nat := length (fields m).
Definition is_type (m : message_view) (type_value : list Z) : bool := view_eq (type_ m) type_value.
Definition is_talker (m : message_view) (talker_value : list Z) : bool := view_eq (talker m) talker_value.

(** [checksum_accumulator]: [reset], [update]. *)
Definition sum_reset : Z := 0.
Definition sum_update (value_ value : Z) : Z := to_u8 (Z.lxor value_ (to_u8 value)).

Definition is_hex_digit (c : Z) : bool := ((48 <=? c) && (c <=? 57)) || ((65 <=? c) && (c <=? 70)) || ((97 <=? c) && (c <=? 102)).
Definition hex_nibble (c : Z) : Z := if c <=? 57 then to_u8 (c - 48) else to_u8 ((if 97 <=? c then c - 97 else c - 65) + 10).
(** [None]: the function returns false. *)
Definition parse_hex_byte (hi lo : Z) : option Z :=
  if negb (is_hex_digit hi) || negb (is_hex_digit lo) then None else Some (to_u8 (Z.lor (Z.shiftl (hex_nibble hi) 4) (hex_nibble lo))).
Definition write_hex_byte (value : Z) (out : list Z) (at_ : nat) : exec (list Z) :=
  let digits := chars "0123456789ABCDEF" in
  d ← load digits (Z.to_nat (Z.land (Z.shiftr value 4) 15)); out ← store out at_ d;
  d ← load digits (Z.to_nat (Z.land value 15)); store out (at_ + 1) d.

Definition compute_checksum (data : list Z) : exec Z := for_to 0 (length data) (fun index sum => c ← load data index; Done (sum_update sum c)) sum_reset.

(** The talker and the type. *)
Definition split_identifier (id : list Z) : exec (list Z * list Z) :=
  if (length id =? 0)%nat then Done ([], [])
  else
    c ← load id 0;
    if c =? 80 then Done (substr id 0 (Some 1%nat), substr id 1 None)
    else if (5 <=? length id)%nat then Done (substr id 0 (Some 2%nat), substr id 2 None)
    else Done ([], id).

(** The field storage ([None]: a null pointer) with the fields, their number, the talker and the type. *)
Definition tokenize_fields (content : list Z) (field_storage : option (list (list Z))) (field_capacity : nat) : exec (option (list (list Z)) * nat * list Z * list Z) :=
  if (length content =? 0)%nat then Done (field_storage, 0%nat, [], [])
  else
    match find content NMEA_FIELD_SEP 0 with
    | None => '(t, ty) ← split_identifier content; Done (field_storage, 0%nat, t, ty)
    | Some comma =>
        '(t, ty) ← split_identifier (substr content 0 (Some comma));
        match field_storage with
        | None => Done (None, 0%nat, t, ty)
        | Some storage =>
            if (field_capacity =? 0)%nat then Done (Some storage, 0%nat, t, ty)
            else
              let remaining := substr content (comma + 1) None in
              let rlen := length remaining in
              '(storage, count, _) ← settled (while_loop (S (S rlen)) (fun '(_, count, start) => Done ((start <=? rlen)%nat && (count <? field_capacity)%nat))
                (fun '(storage, count, start) =>
                   let end_ := match find remaining NMEA_FIELD_SEP start with Some e => e | None => rlen end in
                   storage ← store storage count (substr remaining start (Some (end_ - start)%nat));
                   Done (Next (storage, (count + 1)%nat, (end_ + 1)%nat))) (storage, 0%nat, 0%nat));
              Done (Some storage, count, t, ty)
        end
    end.

Definition decode_sentence (line : list Z) (field_storage : option (list (list Z))) (field_capacity : nat) : exec (bool * message_view * option (list (list Z))) :=
  first ← (if (length line =? 0)%nat then Done 0 else load line 0);
  let line := if negb (length line =? 0)%nat && (first =? NMEA_START_CHAR) then substr line 1 None else line in
  line ← settled (while_loop (S (length line))
    (fun line => if (length line =? 0)%nat then Done false else c ← load line (length line - 1); Done ((c =? NMEA_CR) || (c =? NMEA_LF)))
    (fun line => Done (Next (substr line 0 (Some (length line - 1)%nat)))) line);
  part ← (match find line NMEA_CHECKSUM_CHAR 0 with
          | None => Done (Some (line, false, 0))
          | Some star =>
              let cs_field := substr line (star + 1) None in
              if (length cs_field <? 2)%nat then Done None
              else hi ← load cs_field 0; lo ← load cs_field 1;
                   Done (match parse_hex_byte hi lo with None => None | Some sum => Some (substr line 0 (Some star), true, sum) end)
          end);
  match part with
  | None => Done (false, no_message, field_storage)
  | Some (content, present, received) =>
      '(storage, count, t, ty) ← tokenize_fields content field_storage field_capacity;
      let output := mk_message t ty (take count (default [] storage)) received present in
      if (length ty =? 0)%nat then Done (false, output, storage)
      else
        sum ← (if present : bool then compute_checksum content else Done received);
        Done (sum =? received, output, storage)
  end.

(** [output[pos++] = text[index]] for every index. *)
Definition put (text : list Z) (st : list Z * nat) : exec (list Z * nat) :=
  for_to 0 (length text) (fun index '(output, pos) => c ← load text index; output ← store output pos c; Done (output, (pos + 1)%nat)) st.
Definition put_char (c : Z) (st : list Z * nat) : exec (list Z * nat) := output ← store st.1 st.2 c; Done (output, (st.2 + 1)%nat).

(** The status, the output and [bytes_written]; the output is [None] for a null pointer. *)
Definition encode_sentence (talker type_ : list Z) (fields : list (list Z)) (output : option (list Z)) (output_capacity : nat) : exec (status * option (list Z) * nat) :=
  match output with
  | None => Done (s_invalid_argument, None, 0%nat)
  | Some out =>
      if (length type_ =? 0)%nat then Done (s_invalid_argument, Some out, 0%nat)
      else
        content_length ← for_to 0 (length fields) (fun index n => f ← load fields index; Done (n + (1 + length f))%nat) (length talker + length type_)%nat;
        let required := (1 + content_length + 1 + 2 + 2)%nat in
        if (output_capacity <? required)%nat then Done (s_full, Some out, 0%nat)
        else
          st ← put_char NMEA_START_CHAR (out, 0%nat);
          st ← put talker st; st ← put type_ st;
          '(out, pos) ← for_to 0 (length fields) (fun index st => st ← put_char NMEA_FIELD_SEP st; f ← load fields index; put f st) st;
          check ← compute_checksum (take content_length (drop 1 out));
          '(out, pos) ← put_char NMEA_CHECKSUM_CHAR (out, pos);
          out ← write_hex_byte check out pos;
          '(out, pos) ← put_char NMEA_CR (out, (pos + 2)%nat);
          '(out, pos) ← put_char NMEA_LF (out, pos);
          Done (s_ok, Some out, pos)
  end.

(** ** The text of a sentence *)

(** The exclusive or of the octets. *)
Definition xor_sum (l : list Z) : Z := fold_left Z.lxor l 0.
Definition hex_char (d : Z) : Z := if d <? 10 then 48 + d else 55 + d.
Definition hex_text (v : Z) : list Z := [hex_char (v / 16); hex_char (v mod 16)].

(** An identifier is a talker and a type. *)
Definition identifier (id : list Z) : list Z * list Z :=
  match id with
  | [] => ([], [])
  | c :: r => if c =? 80 then ([80], r) else if (5 <=? length id)%nat then (take 2 id, drop 2 id) else ([], id)
  end.
(** The identifier before the first comma, and the fields behind it. *)
Definition parts (content : list Z) : (list Z * list Z) * list (list Z) :=
  match pieces 44 content with id :: fs => (identifier id, fs) | [] => (([], []), []) end.

Definition content_text (t ty : list Z) (fs : list (list Z)) : list Z := t ++ ty ++ concat (cons 44 <$> fs).
Definition sentence_text (content : list Z) : list Z := 36 :: content ++ 42 :: hex_text (xor_sum content) ++ [13; 10].

(** *** Checksums *)

Lemma xor_sum_byte l : Forall byte l -> byte (xor_sum l).
Proof.
  unfold xor_sum. assert (H : forall acc, byte acc -> Forall byte l -> byte (fold_left Z.lxor l acc)); [|by apply H].
  induction l as [|c l IH]; intros acc Ha Hl; [done|]. inversion Hl; subst. cbn. apply IH; [|done]. unfold byte in *. by apply (lxor_in_width 8).
Qed.

Lemma sum_update_snoc l c : Forall byte l -> byte c -> sum_update (xor_sum l) c = xor_sum (l ++ [c]).
Proof.
  intros Hl Hb. unfold sum_update. rewrite (wrap_small 8 c) by exact Hb. unfold xor_sum at 2. rewrite fold_left_app. apply wrap_small. apply (lxor_in_width 8); [lia| |exact Hb]. by apply xor_sum_byte.
Qed.

Lemma compute_checksum_ok l : Forall byte l -> compute_checksum l = Done (xor_sum l).
Proof.
  intros Hl. unfold compute_checksum.
  destruct (for_to_inv (fun i sum => sum = xor_sum (take i l)) (fun index sum => c ← load l index; Done (sum_update sum c)) 0 (length l) sum_reset) as (s & -> & ->).
  - by rewrite take_0.
  - intros i s Hi ->. destruct (lookup_lt_is_Some_2 l i) as [c Hc]; [lia|]. rewrite (load_Done _ _ _ Hc), bind_Done. eexists. split; [done|]. rewrite (take_S_r _ _ _ Hc). apply sum_update_snoc; [by apply Forall_take|]. by eapply (Forall_lookup_1 byte).
  - cbn [Nat.add]. by rewrite firstn_all.
Qed.

Lemma hex_round : forallb (fun v => match parse_hex_byte (hex_char (Z.of_nat v / 16)) (hex_char (Z.of_nat v mod 16)) with Some w => w =? Z.of_nat v | None => false end) (seq 0 256) = true.
Proof. vm_compute. reflexivity. Qed.

Lemma parse_hex_text v : byte v -> parse_hex_byte (hex_char (v / 16)) (hex_char (v mod 16)) = Some v.
Proof.
  intros Hv. unfold byte in Hv. pose proof (proj1 (forallb_forall _ _) hex_round (Z.to_nat v)) as H. cbv beta in H. rewrite Z2Nat.id in H by lia. specialize (H ltac:(apply in_seq; lia)).
  destruct (parse_hex_byte _ _) as [w|]; [|done]. apply Z.eqb_eq in H. by subst.
Qed.

Lemma hex_chars : forallb (fun v => match chars "0123456789ABCDEF" !! v with Some c => c =? hex_char (Z.of_nat v) | None => false end) (seq 0 16) = true.
Proof. vm_compute. reflexivity. Qed.

Lemma hex_char_lookup d : 0 <= d < 16 -> chars "0123456789ABCDEF" !! Z.to_nat d = Some (hex_char d).
Proof.
  intros Hd. pose proof (proj1 (forallb_forall _ _) hex_chars (Z.to_nat d)) as H. cbv beta in H. rewrite Z2Nat.id in H by lia. specialize (H ltac:(apply in_seq; lia)). destruct (_ !! _) as [c|]; [|done]. apply Z.eqb_eq in H. by subst.
Qed.

Lemma write_hex_byte_ok v m bs : byte v -> (length bs + 2 <= length m)%nat -> write_hex_byte v (wrote m 0 bs) (length bs) = Done (wrote m 0 (bs ++ hex_text v)).
Proof.
  intros Hv Hl. unfold byte in Hv. unfold write_hex_byte. cbv zeta. assert (E1 : Z.land (Z.shiftr v 4) 15 = v / 16).
  { rewrite Z.shiftr_div_pow2 by lia. change 15 with (Z.ones 4). rewrite Z.land_ones by lia. apply Z.mod_small. split; [apply Z.div_pos; lia|]. apply Z.div_lt_upper_bound; lia. }
  assert (E2 : Z.land v 15 = v mod 16) by (change 15 with (Z.ones 4); by rewrite Z.land_ones by lia). rewrite E1, E2.
  rewrite (load_Done _ _ _ (hex_char_lookup (v / 16) ltac:(split; [apply Z.div_pos; lia|apply Z.div_lt_upper_bound; lia]))), bind_Done, store_wrote, bind_Done by lia.
  rewrite (load_Done _ _ _ (hex_char_lookup (v mod 16) ltac:(apply Z.mod_pos_bound; lia))), bind_Done, store_wrote by (rewrite ?length_app; cbn; lia). by rewrite <-app_assoc.
Qed.

(** *** Fields *)

Lemma split_identifier_ok id : split_identifier id = Done (identifier id).
Proof.
  unfold split_identifier. destruct id as [|c r]; [done|]. cbn [length Nat.eqb]. rewrite (load_Done _ _ c), bind_Done by done. rewrite !substr_ok. cbn [identifier]. destruct (Z.eqb_spec c 80) as [->|]; [by rewrite drop_0|]. cbn [length].
  destruct (5 <=? S (length r))%nat; by rewrite ?drop_0.
Qed.

Lemma pieces_cons sep l : exists p ps, pieces sep l = p :: ps.
Proof. destruct l as [|c l]; cbn; [eauto|]. destruct (c =? sep); [eauto|]. destruct (pieces sep l); eauto. Qed.

(** What a search for the separator says of the pieces. *)
Lemma pieces_find sep l i : pieces sep (drop i l) = match find l sep i with Some e => take (e - i) (drop i l) :: pieces sep (drop (e + 1) l) | None => [drop i l] end.
Proof.
  pose proof (find_split l sep i) as H. destruct (find l sep i) as [e|].
  - destruct H as (_ & E & Hno). rewrite E at 1. by apply pieces_split.
  - by apply pieces_last.
Qed.

Lemma token_loop remaining storage cap all fuel start count : all = pieces 44 remaining -> (cap <= length storage)%nat -> (count <= length all)%nat -> (count <= cap)%nat ->
  ((start <= length remaining)%nat /\ drop count all = pieces 44 (drop start remaining) \/ (start = length remaining + 1)%nat /\ count = length all) -> (length remaining + 1 - start < fuel)%nat ->
  exists start', while_loop (R := Empty_set) fuel (fun '(_, count, start) => Done ((start <=? length remaining)%nat && (count <? cap)%nat))
    (fun '(storage, count, start) =>
       let end_ := match find remaining 44 start with Some e => e | None => length remaining end in
       storage ← store storage count (substr remaining start (Some (end_ - start)%nat));
       Done (Next (storage, (count + 1)%nat, (end_ + 1)%nat))) (wrote storage 0 (take count all), count, start)
    = Done (Next (wrote storage 0 (take cap all), length (take cap all), start')).
Proof.
  intros Eall Hcap. revert start count. induction fuel as [|fuel IH]; intros start count Hc Hcc Hst Hf; [lia|]. cbn [while_loop]. assert (Hlen : length (take count all) = count) by (rewrite length_take; lia).
  destruct (Nat.ltb_spec count cap) as [Hlt|Hge].
  2:{ rewrite andb_false_r. assert (count = cap) as -> by lia. exists start. by rewrite Hlen. }
  rewrite andb_true_r. destruct (Nat.leb_spec start (length remaining)) as [Hle|Hgt].
  2:{ destruct Hst as [[? _]|[_ ->]]; [lia|]. exists start. rewrite !take_ge by lia. done. }
  destruct Hst as [[_ Hd]|[? _]]; [|lia]. rewrite pieces_find in Hd. set (e := match find remaining 44 start with Some e => e | None => length remaining end). cbv zeta. rewrite substr_ok.
  assert (Hfirst : all !! count = Some (take (e - start) (drop start remaining))).
  { rewrite <-(Nat.add_0_r count), <-lookup_drop, Hd. unfold e. destruct (find remaining 44 start); [done|]. cbn. f_equal. symmetry. apply take_ge. rewrite length_drop. lia. }
  pose proof (lookup_lt_Some _ _ _ Hfirst) as Hlc. rewrite store_wrote, bind_Done by (rewrite ?Hlen; lia). rewrite <-(take_S_r _ _ _ Hfirst), Nat.add_1_r. apply IH; [lia|lia| |].
  - assert (Hd' : drop (S count) all = match find remaining 44 start with Some e => pieces 44 (drop (e + 1) remaining) | None => [] end).
    { replace (S count) with (count + 1)%nat by lia. rewrite <-drop_drop, Hd. by destruct (find remaining 44 start). }
    unfold e. pose proof (find_first_index remaining 44 start) as Hfi. destruct (find remaining 44 start) as [x|]; cbn [first_index] in Hfi.
    + destruct Hfi as (_ & Hx & _). apply lookup_lt_Some in Hx. left. split; [lia|done].
    + right. split; [lia|]. apply (f_equal length) in Hd'. rewrite length_drop in Hd'. cbn in Hd'. lia.
  - unfold e. pose proof (find_first_index remaining 44 start) as Hfi. destruct (find remaining 44 start) as [x|]; cbn [first_index] in Hfi; [|lia]. destruct Hfi as (Hx & Hx' & _). apply lookup_lt_Some in Hx'. lia.
Qed.

Lemma tokenize_ok content storage cap : (cap <= length storage)%nat ->
  tokenize_fields content (Some storage) cap = Done (Some (wrote storage 0 (take cap (parts content).2)), length (take cap (parts content).2), (parts content).1.1, (parts content).1.2).
Proof.
  intros Hcap. unfold tokenize_fields, parts. destruct (Nat.eqb_spec (length content) 0) as [E|E]; [destruct content; [|done]; cbn; by rewrite take_nil, wrote_nil|].
  unfold NMEA_FIELD_SEP. pose proof (pieces_find 44 content 0) as Hp. rewrite drop_0 in Hp. destruct (find content 44 0) as [comma|].
  - rewrite Nat.sub_0_r in Hp. rewrite Hp, (substr_ok content 0), drop_0, split_identifier_ok, bind_Done. destruct (identifier (take comma content)) as [t ty]. cbn [fst snd]. destruct (Nat.eqb_spec cap 0) as [->|Hc]; [by rewrite take_0, wrote_nil|].
    cbv zeta. rewrite substr_ok. set (remaining := drop (comma + 1) content).
    destruct (token_loop remaining storage cap (pieces 44 remaining) (S (S (length remaining))) 0 0) as [s' E']; [done|done|lia|lia|left; by rewrite drop_0; split; [lia|]|lia|]. rewrite take_0, wrote_nil in E'. cbv zeta in E'. rewrite E'. done.
  - rewrite Hp, split_identifier_ok, bind_Done. destruct (identifier content) as [t ty]. cbn [fst snd]. by rewrite take_nil, wrote_nil.
Qed.

(** ** Lines *)

Definition eol (c : Z) : bool := (c =? 13) || (c =? 10).
Fixpoint trim_eol (l : list Z) : list Z :=
  match l with
  | [] => []
  | c :: r => match trim_eol r with [] => if eol c then [] else [c] | r' => c :: r' end
  end.
(** A line without its dollar sign and its line end. *)
Definition line_body (line : list Z) : list Z := trim_eol (match line with c :: r => if c =? 36 then r else line | [] => [] end).

(** The content of a line, and the checksum it states behind its first star. *)
Inductive line_content : list Z -> list Z -> option Z -> Prop :=
| content_plain content : 42 ∉ content -> line_content content content None
| content_summed content hi lo rest v : 42 ∉ content -> parse_hex_byte hi lo = Some v -> line_content (content ++ 42 :: hi :: lo :: rest) content (Some v).

Definition view (cap : nat) (content : list Z) (sum : option Z) : message_view :=
  mk_message (parts content).1.1 (parts content).1.2 (take cap (parts content).2) (default 0 sum) (match sum with Some _ => true | None => false end).
(** A type, and the right checksum if one is stated. *)
Definition acceptable (content : list Z) (sum : option Z) : Prop := (parts content).1.2 <> [] /\ forall v, sum = Some v -> v = xor_sum content.

Lemma trim_eol_snoc l c : trim_eol (l ++ [c]) = if eol c then trim_eol l else l ++ [c].
Proof.
  induction l as [|d l IH]; cbn; [by destruct (eol c)|]. rewrite IH. destruct (eol c); [done|]. by destruct l.
Qed.

Lemma trim_loop_ok line fuel : (length line < fuel)%nat ->
  while_loop (R := Empty_set) fuel (fun line => if (length line =? 0)%nat then Done false else c ← load line (length line - 1); Done ((c =? NMEA_CR) || (c =? NMEA_LF)))
    (fun line => Done (Next (substr line 0 (Some (length line - 1)%nat)))) line = Done (Next (trim_eol line)).
Proof.
  revert fuel. induction line as [|c l IH] using rev_ind; intros fuel Hf; (destruct fuel as [|fuel]; [lia|]); [done|]. rewrite length_app in Hf. cbn [length] in Hf. cbn [while_loop]. rewrite length_app. cbn [length].
  rewrite (proj2 (Nat.eqb_neq _ _)), Nat.add_sub by lia. rewrite (load_Done _ _ c) by (by apply list_lookup_middle). rewrite bind_Done, trim_eol_snoc. unfold eol, NMEA_CR, NMEA_LF in *. destruct (_ || _); [|done].
  rewrite substr_ok, drop_0, take_app_length. apply IH. lia.
Qed.

Lemma line_content_inj l c s c' s' : line_content l c s -> line_content l c' s' -> c = c' /\ s = s'.
Proof.
  intros H1 H2. inversion H1 as [? Hn|? hi lo rest v Hn Hv]; subst; inversion H2 as [? Hn' |? hi' lo' rest' v' Hn' Hv']; subst; try done.
  - exfalso. apply Hn. apply elem_of_app. right. left.
  - exfalso. apply Hn'. apply elem_of_app. right. left.
  - match goal with E : _ = _ ++ _ |- _ => apply app_sep_inj in E as [-> E]; [|done|done] end. match goal with E : _ :: _ = _ |- _ => injection E as -> -> -> end. split; congruence.
Qed.

Lemma trim_eol_prefix l : exists r, l = trim_eol l ++ r.
Proof.
  induction l as [|c l [r IH]]; [by exists []|]. cbn. destruct (trim_eol l) as [|d l'] eqn:E; [destruct (eol c); [by exists (c :: l)|exists l; done]|]. exists r. cbn in *. by f_equal.
Qed.

Lemma line_body_bytes line : Forall byte line -> Forall byte (line_body line).
Proof.
  intros H. unfold line_body. assert (Hb : forall l, Forall byte l -> Forall byte (trim_eol l)) by (intros l Hl; destruct (trim_eol_prefix l) as [r E]; rewrite E in Hl; apply Forall_app in Hl; apply Hl).
  apply Hb. destruct line as [|c r]; [constructor|]. destruct (c =? 36); [by inversion H|done].
Qed.

(** The end of [decode_sentence]. *)
Lemma decode_tail content sum storage cap : Forall byte content -> (cap <= length storage)%nat ->
  exists b st, ('(storage, count, t, ty) ← tokenize_fields content (Some storage) cap;
      let output := mk_message t ty (take count (default [] storage)) (default 0 sum) (match sum with Some _ => true | None => false end) in
      if (length ty =? 0)%nat then Done (false, output, storage)
      else s ← (if match sum with Some _ => true | None => false end then compute_checksum content else Done (default 0 sum)); Done (s =? default 0 sum, output, storage))
    = Done (b, view cap content sum, Some st) /\ length st = length storage /\ (b = true <-> acceptable content sum).
Proof.
  intros Hb Hcap. rewrite tokenize_ok, bind_Done by done. unfold acceptable, view. destruct (parts content) as [[t ty] fs]. cbn [fst snd].
  assert (Hst : length (wrote storage 0 (take cap fs)) = length storage) by (apply length_wrote; rewrite length_take; lia). change (default [] (Some (wrote storage 0 (take cap fs)))) with (wrote storage 0 (take cap fs)). rewrite take_wrote by (rewrite length_take; lia). cbv zeta.
  destruct (Nat.eqb_spec (length ty) 0) as [E|E].
  - exists false. eexists. split; [done|]. split; [done|]. split; [done|]. intros [H _]. by destruct ty.
  - assert (Hty : ty <> []) by (by destruct ty). destruct sum as [v|].
    + rewrite compute_checksum_ok, bind_Done by done. eexists _, _. split; [done|]. split; [done|]. change (default 0 (Some v)) with v. rewrite Z.eqb_eq. split; [intros <-; split; [done|by intros ? [= <-]]|intros [_ H]; symmetry; by apply H].
    + rewrite bind_Done. eexists _, _. split; [done|]. split; [done|]. rewrite Z.eqb_refl. done.
Qed.

Lemma decode_line_ok line storage cap : Forall byte line -> (cap <= length storage)%nat ->
  exists b m st, decode_sentence line (Some storage) cap = Done (b, m, Some st) /\ length st = length storage /\
    (b = true <-> exists content sum, line_content (line_body line) content sum /\ acceptable content sum) /\
    (forall content sum, line_content (line_body line) content sum -> m = view cap content sum).
Proof.
  intros Hb Hcap. unfold decode_sentence.
  assert (E : exists first, (if (length line =? 0)%nat then Done 0 else load line 0) = Done first /\ (if negb (length line =? 0)%nat && (first =? NMEA_START_CHAR) then substr line 1 None else line) = match line with c :: r => if c =? 36 then r else line | [] => [] end).
  { destruct line as [|c r]; [by exists 0|]. exists c. split; [done|]. cbn [length Nat.eqb negb andb]. unfold NMEA_START_CHAR. destruct (c =? 36); [|done]. by rewrite substr_ok. }
  destruct E as (first & -> & E). rewrite bind_Done, E. rewrite trim_loop_ok by lia. cbn [settled]. rewrite bind_Done. fold (line_body line). pose proof (line_body_bytes line Hb) as Hbody. set (body := line_body line) in *. clearbody body.
  unfold NMEA_CHECKSUM_CHAR. pose proof (find_split body 42 0) as Hf. rewrite drop_0 in Hf. destruct (find body 42 0) as [star|].
  - destruct Hf as (_ & Ebody & Hno). rewrite Nat.sub_0_r in Ebody, Hno. cbv zeta. rewrite !substr_ok, drop_0. assert (Hcontent : Forall byte (take star body)) by (by apply Forall_take). set (cs := drop (star + 1) body) in *. set (content := take star body) in *. clearbody cs content.
    assert (Hnone : (forall hi lo rest v, cs = hi :: lo :: rest -> parse_hex_byte hi lo <> Some v) -> forall c s, ~ line_content body c s).
    { intros Hbad c s H. rewrite Ebody in H. inversion H as [? Hn|? hi lo rest v Hn Hv]; subst; [apply Hn; apply elem_of_app; right; left|]. match goal with E : _ = _ ++ _ |- _ => apply app_sep_inj in E as [_ E]; [|done|done]; symmetry in E; by apply (Hbad _ _ _ _ E Hv) || by eapply Hbad end. }
    destruct cs as [|hi [|lo rest]].
    1,2: cbn [length Nat.ltb Nat.leb]; rewrite bind_Done; eexists _, _, _; split; [done|]; split; [done|]; (assert (Hn : forall c s, ~ line_content body c s) by (apply Hnone; by intros ? ? ? ? [=])); split; [split; [done|intros (c & s & H & _); by destruct (Hn c s)]|intros c s H; by destruct (Hn c s)].
    cbn [length Nat.ltb Nat.leb]. rewrite (load_Done (hi :: lo :: rest) 0 hi), (load_Done (hi :: lo :: rest) 1 lo) by done. rewrite !bind_Done. destruct (parse_hex_byte hi lo) as [v|] eqn:Ev.
    + assert (Hlc : line_content body content (Some v)) by (rewrite Ebody; by constructor).
      destruct (decode_tail content (Some v) storage cap) as (b & st & Ed & Hl & Hb'); [done|done|]. change (default 0 (Some v)) with v in Ed. cbv zeta in Ed |- *. rewrite Ed. exists b, (view cap content (Some v)), st. split; [done|]. split; [done|]. split.
      * rewrite Hb'. split; [by exists content, (Some v)|]. intros (c & s & H & Ha). by destruct (line_content_inj _ _ _ _ _ Hlc H) as [-> ->].
      * intros c s H. by destruct (line_content_inj _ _ _ _ _ Hlc H) as [-> ->].
    + eexists _, _, _. split; [done|]. split; [done|]. assert (Hn : forall c s, ~ line_content body c s) by (apply Hnone; intros ? ? ? ? [= <- <- <-]; by rewrite Ev). split; [split; [done|intros (c & s & H & _); by destruct (Hn c s)]|intros c s H; by destruct (Hn c s)].
  - rewrite bind_Done. assert (Hlc : line_content body body None) by (by constructor). destruct (decode_tail body None storage cap Hbody Hcap) as (b & st & Ed & Hl & Hb'). change (default 0 None) with 0 in Ed. cbv zeta in Ed |- *. rewrite Ed. exists b, (view cap body None), st. split; [done|]. split; [done|]. split.
    + rewrite Hb'. split; [by exists body, None|]. intros (c & s & H & Ha). by destruct (line_content_inj _ _ _ _ _ Hlc H) as [-> ->].
    + intros c s H. by destruct (line_content_inj _ _ _ _ _ Hlc H) as [-> ->].
Qed.

(** ** Encoding *)

Lemma put_char_ok c m bs : (length bs < length m)%nat -> put_char c (wrote m 0 bs, length bs) = Done (wrote m 0 (bs ++ [c]), length (bs ++ [c])).
Proof. intros H. unfold put_char. cbn [fst snd]. rewrite store_wrote, bind_Done, length_app by lia. done. Qed.

Lemma put_ok text m bs : (length bs + length text <= length m)%nat -> put text (wrote m 0 bs, length bs) = Done (wrote m 0 (bs ++ text), length (bs ++ text)).
Proof.
  intros H. unfold put.
  destruct (for_to_inv (fun i st => st = (wrote m 0 (bs ++ take i text), length (bs ++ take i text))) (fun index '(output, pos) => c ← load text index; output ← store output pos c; Done (output, (pos + 1)%nat)) 0 (length text) (wrote m 0 bs, length bs)) as (st & -> & ->).
  - by rewrite take_0, app_nil_r.
  - intros i st Hi ->. destruct (lookup_lt_is_Some_2 text i) as [c Hc]; [lia|]. rewrite (load_Done _ _ _ Hc), bind_Done, store_wrote, bind_Done by (rewrite ?length_app, ?length_take; lia). eexists. split; [done|].
    rewrite (take_S_r _ _ _ Hc), app_assoc. f_equal. rewrite !length_app. cbn [length]. lia.
  - cbn [Nat.add]. by rewrite firstn_all.
Qed.

Definition fields_text (fs : list (list Z)) : list Z := concat (cons 44 <$> fs).

Lemma put_fields_ok fs m bs : (length bs + length (fields_text fs) <= length m)%nat ->
  for_to 0 (length fs) (fun index st => st ← put_char NMEA_FIELD_SEP st; f ← load fs index; put f st) (wrote m 0 bs, length bs) = Done (wrote m 0 (bs ++ fields_text fs), length (bs ++ fields_text fs)).
Proof.
  intros H. destruct (for_to_inv (fun i st => st = (wrote m 0 (bs ++ fields_text (take i fs)), length (bs ++ fields_text (take i fs)))) (fun index st => st ← put_char NMEA_FIELD_SEP st; f ← load fs index; put f st) 0 (length fs) (wrote m 0 bs, length bs)) as (st & -> & ->).
  - rewrite take_0. cbn. by rewrite app_nil_r.
  - intros i st Hi ->. destruct (lookup_lt_is_Some_2 fs i) as [f Hf]; [lia|]. assert (E : fields_text (take (S i) fs) = fields_text (take i fs) ++ 44 :: f) by (unfold fields_text; rewrite (take_S_r _ _ _ Hf), fmap_app, concat_app; cbn; by rewrite app_nil_r).
    assert (Hle : (length (fields_text (take (S i) fs)) <= length (fields_text fs))%nat) by (unfold fields_text; rewrite <-(take_drop (S i) fs) at 2; rewrite fmap_app, concat_app, length_app; lia).
    rewrite E, length_app in Hle. cbn [length] in Hle. rewrite put_char_ok, bind_Done, (load_Done _ _ _ Hf), bind_Done, put_ok by (rewrite ?length_app; cbn [length]; lia). eexists. split; [done|]. rewrite E, <-!app_assoc. done.
  - cbn [Nat.add]. by rewrite firstn_all.
Qed.

Lemma content_length_ok fs n : for_to 0 (length fs) (fun index n => f ← load fs index; Done (n + (1 + length f))%nat) n = Done (n + length (fields_text fs))%nat.
Proof.
  destruct (for_to_inv (fun i k => k = (n + length (fields_text (take i fs)))%nat) (fun index n => f ← load fs index; Done (n + (1 + length f))%nat) 0 (length fs) n) as (st & -> & ->).
  - rewrite take_0. cbn. lia.
  - intros i st Hi ->. destruct (lookup_lt_is_Some_2 fs i) as [f Hf]; [lia|]. rewrite (load_Done _ _ _ Hf), bind_Done. eexists. split; [done|]. unfold fields_text. rewrite (take_S_r _ _ _ Hf), fmap_app, concat_app, length_app. cbn. rewrite app_nil_r. lia.
  - cbn [Nat.add]. by rewrite firstn_all.
Qed.

Lemma encode_ok t ty fs out capacity : Forall byte (content_text t ty fs) -> (capacity <= length out)%nat ->
  encode_sentence t ty fs (Some out) capacity = Done (
    if (length ty =? 0)%nat then (s_invalid_argument, Some out, 0%nat)
    else if (capacity <? length (sentence_text (content_text t ty fs)))%nat then (s_full, Some out, 0%nat)
    else (s_ok, Some (wrote out 0 (sentence_text (content_text t ty fs))), length (sentence_text (content_text t ty fs)))).
Proof.
  intros Hb Hcap. unfold encode_sentence. destruct (length ty =? 0)%nat; [done|]. rewrite content_length_ok, bind_Done. cbv zeta.
  assert (Hlen : length (sentence_text (content_text t ty fs)) = (1 + (length t + length ty + length (fields_text fs)) + 1 + 2 + 2)%nat) by (unfold sentence_text, content_text, hex_text; cbn [length]; rewrite !length_app; cbn [length app]; fold (fields_text fs); lia).
  rewrite Hlen. destruct (Nat.ltb_spec capacity (1 + (length t + length ty + length (fields_text fs)) + 1 + 2 + 2)) as [|Hfit]; [done|].
  set (content := content_text t ty fs) in *. assert (Ec : content = t ++ ty ++ fields_text fs) by done.
  replace (put_char NMEA_START_CHAR (out, 0%nat)) with (put_char 36 (wrote out 0 [], length (@nil Z))) by (by rewrite wrote_nil).
  rewrite put_char_ok, bind_Done, put_ok, bind_Done, put_ok, bind_Done, put_fields_ok, bind_Done by (rewrite ?length_app; cbn [length app]; rewrite ?length_app; cbn [length]; lia).
  replace (((([] ++ [36]) ++ t) ++ ty) ++ fields_text fs) with (36 :: content) by (rewrite Ec; cbn; by rewrite <-!app_assoc).
  assert (Hc : length content = (length t + length ty + length (fields_text fs))%nat) by (rewrite Ec, !length_app; lia). rewrite <-Hc in *.
  rewrite wrote_0. change (drop 1 ((36 :: content) ++ drop (length (36 :: content)) out)) with (content ++ drop (length (36 :: content)) out). rewrite take_app_length, compute_checksum_ok, bind_Done by done. rewrite <-wrote_0.
  unfold NMEA_CHECKSUM_CHAR, NMEA_CR, NMEA_LF. rewrite put_char_ok, bind_Done by (cbn [length]; lia). rewrite write_hex_byte_ok, bind_Done by (by apply xor_sum_byte || (rewrite length_app; cbn [length]; lia)).
  set (bs := ((36 :: content) ++ [42]) ++ hex_text (xor_sum content)). replace (length ((36%Z :: content) ++ [42%Z]) + 2)%nat with (length bs) by (unfold bs; by rewrite (length_app _ (hex_text _))).
  assert (Hbs : length bs = (1 + length content + 1 + 2)%nat) by (unfold bs; rewrite !length_app; cbn [length hex_text]; lia). rewrite put_char_ok, bind_Done, put_char_ok, bind_Done by (rewrite ?length_app; cbn [length]; lia). rewrite !length_app, Hbs. cbn [length].
  assert (Et : (bs ++ [13]) ++ [10] = sentence_text content) by (unfold bs, sentence_text; rewrite <-!app_assoc; done). rewrite Et. do 2 f_equal. lia.
Qed.

(** ** The round trip *)

(** A talker, a type and fields that the text of a sentence tells apart. *)
Definition plain (l : list Z) : Prop := 42 ∉ l /\ 44 ∉ l.
Definition encodable (t ty : list Z) (fs : list (list Z)) : Prop := ty <> [] /\ identifier (t ++ ty) = (t, ty) /\ plain (t ++ ty) /\ Forall plain fs.

Lemma pieces_fields id fs : 44 ∉ id -> Forall plain fs -> pieces 44 (id ++ fields_text fs) = id :: fs.
Proof.
  intros Hid Hfs. revert id Hid. induction Hfs as [|f fs [_ Hf] Hfs IH]; intros id Hid; [cbn; rewrite app_nil_r; by apply pieces_last|]. unfold fields_text. cbn [fmap list_fmap concat]. cbn [app]. rewrite pieces_split by done. f_equal. by apply IH.
Qed.

Lemma parts_content t ty fs : encodable t ty fs -> parts (content_text t ty fs) = ((t, ty), fs).
Proof. intros (_ & Hid & [_ Hc] & Hfs). unfold parts, content_text. fold (fields_text fs). rewrite app_assoc, pieces_fields by done. by rewrite Hid. Qed.

Lemma content_no_star t ty fs : encodable t ty fs -> 42 ∉ content_text t ty fs.
Proof.
  intros (_ & _ & [Hs _] & Hfs). unfold content_text. rewrite app_assoc, not_elem_of_app. split; [done|]. clear Hs. induction Hfs as [|f fs [Hf _] Hfs IH]; [apply not_elem_of_nil|]. cbn. rewrite not_elem_of_cons, not_elem_of_app. done.
Qed.

Lemma hex_char_not_eol d : 0 <= d < 16 -> eol (hex_char d) = false.
Proof. intros H. unfold eol, hex_char. destruct (Z.ltb_spec d 10); rewrite !(proj2 (Z.eqb_neq _ _)) by lia; done. Qed.

Lemma line_body_sentence content : Forall byte content -> line_body (sentence_text content) = content ++ 42 :: hex_text (xor_sum content).
Proof.
  intros Hb. pose proof (xor_sum_byte _ Hb) as Hx. unfold byte in Hx. unfold line_body, sentence_text. rewrite Z.eqb_refl.
  change (content ++ 42 :: hex_text (xor_sum content) ++ [13; 10]) with (content ++ (42 :: [hex_char (xor_sum content / 16)]) ++ [hex_char (xor_sum content mod 16)] ++ [13] ++ [10]).
  rewrite !app_assoc, !trim_eol_snoc, hex_char_not_eol by (apply Z.mod_pos_bound; lia). cbn [eol Z.eqb Pos.eqb orb]. by rewrite <-!app_assoc.
Qed.

Lemma sentence_bytes content : Forall byte content -> Forall byte (sentence_text content).
Proof.
  intros Hb. pose proof (xor_sum_byte _ Hb) as Hx. assert (Hd : forall d, 0 <= d < 16 -> byte (hex_char d)) by (intros d Hd; unfold byte, hex_char; destruct (Z.ltb_spec d 10); lia). unfold byte in Hx. constructor; [unfold byte; lia|]. apply Forall_app. split; [done|].
  constructor; [unfold byte; lia|]. constructor; [apply Hd; split; [apply Z.div_pos; lia|apply Z.div_lt_upper_bound; lia]|]. constructor; [apply Hd, Z.mod_pos_bound; lia|]. repeat constructor; unfold byte; lia.
Qed.

(** C27. [encode_sentence] is total and within its buffer: it refuses a sentence without a type, reports a buffer that is too small, and otherwise writes the dollar sign, the content, the star, the checksum and the line end; and what it writes of a talker, a type and fields without stars and commas is decoded, to the same message, whenever the identifier is one that splits where it was joined. *)
Theorem nmea_sentence_roundtrip t ty fs out capacity storage cap :
  Forall byte (content_text t ty fs) -> (capacity <= length out)%nat -> (cap <= length storage)%nat ->
  encode_sentence t ty fs (Some out) capacity = Done (
    if (length ty =? 0)%nat then (s_invalid_argument, Some out, 0%nat)
    else if (capacity <? length (sentence_text (content_text t ty fs)))%nat then (s_full, Some out, 0%nat)
    else (s_ok, Some (wrote out 0 (sentence_text (content_text t ty fs))), length (sentence_text (content_text t ty fs)))) /\
  (encodable t ty fs -> exists st, decode_sentence (sentence_text (content_text t ty fs)) (Some storage) cap
     = Done (true, mk_message t ty (take cap fs) (xor_sum (content_text t ty fs)) true, Some st)).
Proof.
  intros Hb Hcap Hst. split; [by apply encode_ok|]. intros He. set (content := content_text t ty fs) in *. pose proof (xor_sum_byte _ Hb) as Hx.
  assert (Hlc : line_content (line_body (sentence_text content)) content (Some (xor_sum content))) by (rewrite line_body_sentence by done; apply content_summed; [by apply content_no_star|by apply parse_hex_text]).
  pose proof (sentence_bytes _ Hb) as Hsb.
  destruct (decode_line_ok (sentence_text content) storage cap Hsb Hst) as (b & m & st & E & _ & Hb' & Hm). exists st. rewrite E, (Hm _ _ Hlc). destruct b.
  - unfold view, content. by rewrite parts_content.
  - assert (Hacc : acceptable content (Some (xor_sum content))) by (split; [unfold content; rewrite parts_content by done; apply He|by intros ? [= <-]]). assert (false = true) by (apply Hb'; eauto). done.
Qed.

Lemma nmea_sentence_roundtrip_witness :
  encode_sentence (chars "GP") (chars "GLL") [chars "1"; []] (Some (replicate 20 0)) 20 = Done (s_ok, Some (wrote (replicate 20 0) 0 (sentence_text (chars "GPGLL,1,"))), 14%nat)
  /\ exists st, decode_sentence (sentence_text (chars "GPGLL,1,")) (Some [[]; []; []]) 2 = Done (true, mk_message (chars "GP") (chars "GLL") [chars "1"; []] 97 true, Some st).
Proof.
  assert (Hb : Forall byte (content_text (chars "GP") (chars "GLL") [chars "1"; []])) by (repeat constructor; unfold byte; lia).
  destruct (nmea_sentence_roundtrip (chars "GP") (chars "GLL") [chars "1"; []] (replicate 20 0) 20 [[]; []; []] 2 Hb ltac:(cbn; lia) ltac:(cbn; lia)) as [H1 H2]. split; [exact H1|]. apply H2.
  split; [done|]. split; [reflexivity|]. unfold plain. split; apply (bool_decide_unpack _); vm_compute; exact I.
Defined.

(** [decode_sentence] is total on every line and within the field storage, and accepts a line exactly when, without its dollar sign and line end, it has a type and, if it has a star, two hexadecimal digits behind the first one that are the exclusive or of the content; the message has the talker, the type, as many fields as fit the storage and the checksum of that content. *)
Theorem nmea_decode_exact line storage cap : Forall byte line -> (cap <= length storage)%nat ->
  exists b m st, decode_sentence line (Some storage) cap = Done (b, m, Some st) /\ length st = length storage /\
    (b = true <-> exists content sum, line_content (line_body line) content sum /\ acceptable content sum) /\
    (forall content sum, line_content (line_body line) content sum -> m = view cap content sum).
Proof. apply decode_line_ok. Qed.

Lemma nmea_decode_exact_witness :
  exists b m st, decode_sentence (chars "$P,X*7B") (Some [[]]) 1 = Done (b, m, Some st) /\ length st = 1%nat /\
    (b = true <-> exists content sum, line_content (line_body (chars "$P,X*7B")) content sum /\ acceptable content sum) /\
    (forall content sum, line_content (line_body (chars "$P,X*7B")) content sum -> m = view 1 content sum).
Proof. apply (nmea_decode_exact (chars "$P,X*7B") [[]] 1); [repeat constructor; unfold byte; lia|cbn; lia]. Defined.
