(* ===== verification/NmeaParser.v ===== *)
(** * The streaming NMEA parser (castle_ext/parsers/nmea_parser/nmea_parser.hpp)

    The parser with its buffer and field table, a byte at a time, and the streams it reads as a
    grammar: noise, sentences, truncated and oversized ones, with the events each gives rise to. *)

From S2P Require Import Prelude Status Bytes Words StringView NmeaSentence.
Open Scope Z_scope.

(** ** The code *)

Inductive parse_state : Type := wait_dollar | accumulate | wait_checksum_hi | wait_checksum_lo | wait_lf.
Inductive parser_error_code : Type := none | checksum_mismatch | sentence_too_long | unexpected_start_in_sentence | invalid_argument.
(** [parse_error]. *)
Record parse_error : Type := mk_error { code : parser_error_code; e_talker : list Z; e_type : list Z }.
(** What the callbacks are called with. *)
Inductive event : Type := Message (m : message_view) | Error (e : parse_error).

Record nmea_parser : Type := mk_parser {
  state_ : parse_state; buffer_ : list Z; buffer_len_ : nat; checksum_ : Z; checksum_present_ : bool; received_checksum_ : Z; checksum_hi_ : Z;
  field_storage_ : list (list Z); messages_decoded_ : Z; messages_discarded_ : Z; message_callback_ : bool; error_callback_ : bool; calls : list event }.

Section Parser.
Context (MaxSentenceLen MaxFields : nat).

Definition parser_new : nmea_parser := mk_parser wait_dollar (replicate MaxSentenceLen 0) 0 0 false 0 0 (replicate MaxFields []) 0 0 false false [].

Definition set_message_callback (installed : bool) (p : nmea_parser) : nmea_parser :=
  mk_parser (state_ p) (buffer_ p) (buffer_len_ p) (checksum_ p) (checksum_present_ p) (received_checksum_ p) (checksum_hi_ p) (field_storage_ p) (messages_decoded_ p) (messages_discarded_ p) installed (error_callback_ p) (calls p).
Definition set_error_callback (installed : bool) (p : nmea_parser) : nmea_parser :=
  mk_parser (state_ p) (buffer_ p) (buffer_len_ p) (checksum_ p) (checksum_present_ p) (received_checksum_ p) (checksum_hi_ p) (field_storage_ p) (messages_decoded_ p) (messages_discarded_ p) (message_callback_ p) installed (calls p).
Definition clear_message_callback : nmea_parser -> nmea_parser := set_message_callback false.
Definition clear_error_callback : nmea_parser -> nmea_parser := set_error_callback false.

Definition reset (p : nmea_parser) : nmea_parser :=
  mk_parser wait_dollar (buffer_ p) 0 sum_reset false 0 0 (field_storage_ p) 0 0 (message_callback_ p) (error_callback_ p) (calls p).

(** The bookkeeping of the state machine. *)
Definition enter (s : parse_state) (p : nmea_parser) : nmea_parser :=
  mk_parser s (buffer_ p) 0 sum_reset false (received_checksum_ p) (checksum_hi_ p) (field_storage_ p) (messages_decoded_ p) (messages_discarded_ p) (message_callback_ p) (error_callback_ p) (calls p).
Definition go (s : parse_state) (present : bool) (p : nmea_parser) : nmea_parser :=
  mk_parser s (buffer_ p) (buffer_len_ p) (checksum_ p) present (received_checksum_ p) (checksum_hi_ p) (field_storage_ p) (messages_decoded_ p) (messages_discarded_ p) (message_callback_ p) (error_callback_ p) (calls p).
Definition start_sentence : nmea_parser -> nmea_parser := enter accumulate.
Definition called (e : event) (p : nmea_parser) : nmea_parser :=
  mk_parser (state_ p) (buffer_ p) (buffer_len_ p) (checksum_ p) (checksum_present_ p) (received_checksum_ p) (checksum_hi_ p) (field_storage_ p) (messages_decoded_ p) (messages_discarded_ p) (message_callback_ p) (error_callback_ p) (calls p ++ [e]).

Definition emit_error (c : parser_error_code) (talker type_ : list Z) (p : nmea_parser) : nmea_parser :=
  let p := enter wait_dollar (mk_parser (state_ p) (buffer_ p) (buffer_len_ p) (checksum_ p) (checksum_present_ p) (received_checksum_ p) (checksum_hi_ p) (field_storage_ p)
             (messages_decoded_ p) (to_u64 (messages_discarded_ p + 1)) (message_callback_ p) (error_callback_ p) (calls p)) in
  if error_callback_ p then called (Error (mk_error c talker type_)) p else p.

Definition on_sentence_complete (p : nmea_parser) : exec nmea_parser :=
  let content := take (buffer_len_ p) (buffer_ p) in
  '(storage, field_count, talker, type_) ← tokenize_fields content (Some (field_storage_ p)) MaxFields;
  let storage := default [] storage in
  let p := mk_parser (state_ p) (buffer_ p) (buffer_len_ p) (checksum_ p) (checksum_present_ p) (received_checksum_ p) (checksum_hi_ p) storage (messages_decoded_ p) (messages_discarded_ p) (message_callback_ p) (error_callback_ p) (calls p) in
  if checksum_present_ p && negb (checksum_ p =? received_checksum_ p) then Done (emit_error checksum_mismatch talker type_ p)
  else
    let message := mk_message talker type_ (take field_count storage) (received_checksum_ p) (checksum_present_ p) in
    let p := enter wait_dollar (mk_parser (state_ p) (buffer_ p) (buffer_len_ p) (checksum_ p) (checksum_present_ p) (received_checksum_ p) (checksum_hi_ p) storage
               (to_u64 (messages_decoded_ p + 1)) (messages_discarded_ p) (message_callback_ p) (error_callback_ p) (calls p)) in
    Done (if message_callback_ p then called (Message message) p else p).

Definition process_byte (byte : Z) (p : nmea_parser) : exec nmea_parser :=
  match state_ p with
  | wait_dollar => Done (if byte =? NMEA_START_CHAR then start_sentence p else p)
  | accumulate =>
      if byte =? NMEA_START_CHAR then Done (start_sentence (emit_error unexpected_start_in_sentence [] [] p))
      else if byte =? NMEA_CHECKSUM_CHAR then Done (go wait_checksum_hi true p)
      else if byte =? NMEA_CR then Done (go wait_lf false p)
      else if byte =? NMEA_LF then on_sentence_complete (go accumulate false p)
      else if (MaxSentenceLen <=? buffer_len_ p)%nat then Done (emit_error sentence_too_long [] [] p)
      else
        b ← store (buffer_ p) (buffer_len_ p) byte;
        Done (mk_parser (state_ p) b (buffer_len_ p + 1) (sum_update (checksum_ p) byte) (checksum_present_ p) (received_checksum_ p) (checksum_hi_ p) (field_storage_ p)
                (messages_decoded_ p) (messages_discarded_ p) (message_callback_ p) (error_callback_ p) (calls p))
  | wait_checksum_hi =>
      Done (mk_parser wait_checksum_lo (buffer_ p) (buffer_len_ p) (checksum_ p) (checksum_present_ p) (received_checksum_ p) byte (field_storage_ p)
              (messages_decoded_ p) (messages_discarded_ p) (message_callback_ p) (error_callback_ p) (calls p))
  | wait_checksum_lo =>
      match parse_hex_byte (checksum_hi_ p) byte with
      | None => Done (emit_error checksum_mismatch [] [] p)
      | Some parsed =>
          Done (mk_parser wait_lf (buffer_ p) (buffer_len_ p) (checksum_ p) (checksum_present_ p) parsed (checksum_hi_ p) (field_storage_ p)
                  (messages_decoded_ p) (messages_discarded_ p) (message_callback_ p) (error_callback_ p) (calls p))
      end
  | wait_lf =>
      if byte =? NMEA_CR then Done p
      else if byte =? NMEA_LF then on_sentence_complete p
      else if byte =? NMEA_START_CHAR then Done (start_sentence (emit_error unexpected_start_in_sentence [] [] p))
      else Done p
  end.

(** The data is [None] for a null pointer. *)
Definition feed (data : option (list Z)) (size : nat) (p : nmea_parser) : exec nmea_parser :=
  if bool_decide (data = None) && negb (size =? 0)%nat then Done (emit_error invalid_argument [] [] p)
  else for_to 0 size (fun index p => c ← load (default [] data) index; process_byte c p) p.

(** ** The streams *)

(** Text of a sentence between the dollar sign and the star or the line end. *)
Definition clean (l : list Z) : Prop := Forall (fun c => c ∉ [36; 42; 13; 10]) l /\ (length l <= MaxSentenceLen)%nat.
(** Stray bytes between the checksum and the line feed. *)
Definition stray (l : list Z) : Prop := Forall (fun c => c ∉ [36; 10]) l.

(** The event of a whole sentence. *)
Definition outcome (content : list Z) (present : bool) (r : Z) : event :=
  let '((t, ty), fs) := parts content in
  if present && negb (xor_sum content =? r) then Error (mk_error checksum_mismatch t ty) else Message (mk_message t ty (take MaxFields fs) r present).
Definition failure (c : parser_error_code) : event := Error (mk_error c [] []).

(** The grammar of streams, as it is documented: a line feed, a carriage return or both end a sentence without
    checksum, a line feed one with a checksum, and a dollar sign before that truncates a sentence and starts another.
    [idle r bs es r']: outside a sentence the bytes give rise to the events; [inside]: behind a dollar sign;
    [r] and [r'] are the last checksum received before and after. *)
Inductive idle : Z -> list Z -> list event -> Z -> Prop :=
| idle_end r : idle r [] [] r
| idle_noise r c bs es r' : c <> 36 -> idle r bs es r' -> idle r (c :: bs) es r'
| idle_start r bs es r' : inside r bs es r' -> idle r (36 :: bs) es r'
with inside : Z -> list Z -> list event -> Z -> Prop :=
| inside_line r content bs es r' : clean content -> idle r bs es r' -> inside r (content ++ 10 :: bs) (outcome content false r :: es) r'
| inside_crlf r content bs es r' : clean content -> idle r bs es r' -> inside r (content ++ 13 :: 10 :: bs) (outcome content false r :: es) r'
| inside_cr r content bs es r' : clean content -> head bs <> Some 10 -> idle r bs es r' -> inside r (content ++ 13 :: bs) (outcome content false r :: es) r'
| inside_summed r content hi lo v l bs es r' : clean content -> parse_hex_byte hi lo = Some v -> stray l -> idle v bs es r' -> inside r (content ++ 42 :: hi :: lo :: l ++ 10 :: bs) (outcome content true v :: es) r'
| inside_digits r content hi lo bs es r' : clean content -> hi <> 36 -> lo <> 36 -> parse_hex_byte hi lo = None -> idle r bs es r' -> inside r (content ++ 42 :: hi :: lo :: bs) (failure checksum_mismatch :: es) r'
| inside_long r content c bs es r' : clean content -> length content = MaxSentenceLen -> c ∉ [36; 42; 13; 10] -> idle r bs es r' -> inside r (content ++ c :: bs) (failure sentence_too_long :: es) r'
| inside_dollar r content bs es r' : clean content -> inside r bs es r' -> inside r (content ++ 36 :: bs) (failure unexpected_start_in_sentence :: es) r'
| inside_star_dollar r content bs es r' : clean content -> inside r bs es r' -> inside r (content ++ 42 :: 36 :: bs) (failure unexpected_start_in_sentence :: es) r'
| inside_digit_dollar r content hi bs es r' : clean content -> hi <> 36 -> inside r bs es r' -> inside r (content ++ 42 :: hi :: 36 :: bs) (failure unexpected_start_in_sentence :: es) r'
| inside_summed_dollar r content hi lo v l bs es r' : clean content -> parse_hex_byte hi lo = Some v -> stray l -> inside v bs es r' -> inside r (content ++ 42 :: hi :: lo :: l ++ 36 :: bs) (failure unexpected_start_in_sentence :: es) r'
| inside_open r content : clean content -> inside r content [] r
| inside_open_star r content : clean content -> inside r (content ++ [42]) [] r
| inside_open_digit r content hi : clean content -> hi <> 36 -> inside r (content ++ [42; hi]) [] r
| inside_open_summed r content hi lo v l : clean content -> parse_hex_byte hi lo = Some v -> stray l -> inside r (content ++ 42 :: hi :: lo :: l) [] v.

(** Streams in which a line feed follows every carriage return, and no dollar sign is among the two
    bytes behind a star. *)
Fixpoint regular (bs : list Z) : Prop :=
  match bs with [] => True | c :: bs => (c = 13 -> head bs = Some 10) /\ (c = 42 -> 36 ∉ take 2 bs) /\ regular bs end.

#[export] Instance regular_dec bs : Decision (regular bs).
Proof. induction bs as [|c bs IH]; cbn [regular]; apply _. Defined.

(** *** The machine on lists *)

(** Where the parser is in a sentence, with the content read so far. *)
Inductive phase : Type := Idle | Content (l : list Z) | Star (l : list Z) | Digit (l : list Z) (hi : Z) | Closing (l : list Z) (present : bool).

Definition step (r : Z) (ph : phase) (c : Z) : Z * phase * list event :=
  match ph with
  | Idle => (r, if c =? 36 then Content [] else Idle, [])
  | Content l =>
      if c =? 36 then (r, Content [], [failure unexpected_start_in_sentence])
      else if c =? 42 then (r, Star l, [])
      else if c =? 13 then (r, Closing l false, [])
      else if c =? 10 then (r, Idle, [outcome l false r])
      else if (MaxSentenceLen <=? length l)%nat then (r, Idle, [failure sentence_too_long])
      else (r, Content (l ++ [c]), [])
  | Star l => (r, Digit l c, [])
  | Digit l hi => match parse_hex_byte hi c with None => (r, Idle, [failure checksum_mismatch]) | Some v => (v, Closing l true, []) end
  | Closing l present =>
      if c =? 13 then (r, Closing l present, [])
      else if c =? 10 then (r, Idle, [outcome l present r])
      else if c =? 36 then (r, Content [], [failure unexpected_start_in_sentence])
      else (r, Closing l present, [])
  end.

Fixpoint run (r : Z) (ph : phase) (bs : list Z) : Z * phase * list event :=
  match bs with
  | [] => (r, ph, [])
  | c :: bs => let '(r1, ph1, es1) := step r ph c in let '(r2, ph2, es2) := run r1 ph1 bs in (r2, ph2, es1 ++ es2)
  end.

Lemma nmea_run_app r ph a b : run r ph (a ++ b) = let '(r1, ph1, es1) := run r ph a in let '(r2, ph2, es2) := run r1 ph1 b in (r2, ph2, es1 ++ es2).
Proof.
  revert r ph. induction a as [|c a IH]; intros r ph; cbn [app run]; [by destruct (run r ph b) as [[? ?] ?]|]. destruct (step r ph c) as [[r1 ph1] es1]. rewrite IH. destruct (run r1 ph1 a) as [[r2 ph2] es2]. destruct (run r2 ph2 b) as [[r3 ph3] es3]. by rewrite app_assoc.
Qed.

(** *** The parser holds the machine *)

Definition visible (p : nmea_parser) (e : event) : bool := match e with Message _ => message_callback_ p | Error _ => error_callback_ p end.
Definition is_message (e : event) : bool := match e with Message _ => true | Error _ => false end.
Definition count (f : event -> bool) (es : list event) : Z := Z.of_nat (length (List.filter f es)).

(** The callbacks have been called with the events, and the counters count them. *)
Definition advanced (p p' : nmea_parser) (es : list event) : Prop :=
  calls p' = calls p ++ List.filter (visible p) es /\ message_callback_ p' = message_callback_ p /\ error_callback_ p' = error_callback_ p /\
  messages_decoded_ p' = to_u64 (messages_decoded_ p + count is_message es) /\ messages_discarded_ p' = to_u64 (messages_discarded_ p + count (fun e => negb (is_message e)) es).

Definition sized (p : nmea_parser) : Prop := length (buffer_ p) = MaxSentenceLen /\ length (field_storage_ p) = MaxFields /\ u64 (messages_decoded_ p) /\ u64 (messages_discarded_ p).
(** The buffer holds the content, the accumulator its checksum. *)
Definition content_holds (p : nmea_parser) (l : list Z) : Prop :=
  buffer_len_ p = length l /\ (length l <= MaxSentenceLen)%nat /\ take (length l) (buffer_ p) = l /\ checksum_ p = xor_sum l /\ Forall byte l.
Definition holds (p : nmea_parser) (r : Z) (ph : phase) : Prop :=
  sized p /\ received_checksum_ p = r /\
  match ph with
  | Idle => state_ p = wait_dollar
  | Content l => state_ p = accumulate /\ content_holds p l
  | Star l => state_ p = wait_checksum_hi /\ content_holds p l /\ checksum_present_ p = true
  | Digit l hi => state_ p = wait_checksum_lo /\ content_holds p l /\ checksum_present_ p = true /\ checksum_hi_ p = hi
  | Closing l present => state_ p = wait_lf /\ content_holds p l /\ checksum_present_ p = present
  end.

Lemma advanced_nil p : sized p -> advanced p p [].
Proof. intros (_ & _ & H1 & H2). split; [by rewrite app_nil_r|]. split; [done|]. split; [done|]. unfold count. cbn. by rewrite !Z.add_0_r, !wrap_small. Qed.

Lemma advanced_trans p p1 p2 es1 es2 : advanced p p1 es1 -> advanced p1 p2 es2 -> advanced p p2 (es1 ++ es2).
Proof.
  intros (A1 & A2 & A3 & A4 & A5) (B1 & B2 & B3 & B4 & B5). assert (Ev : forall e, visible p1 e = visible p e) by (intros []; done).
  split; [rewrite B1, A1, List.filter_app, <-app_assoc; do 2 f_equal; by apply List.filter_ext|]. split; [congruence|]. split; [congruence|]. rewrite B4, B5, A4, A5. unfold count. rewrite !List.filter_app, !length_app, !Nat2Z.inj_add. unfold wrap. rewrite !Zplus_mod_idemp_l. split; f_equal; lia.
Qed.

(** Functions that change the bookkeeping alone keep the rest. *)
Lemma nmea_error_ok c t ty p r : sized p -> received_checksum_ p = r -> holds (emit_error c t ty p) r Idle /\ advanced p (emit_error c t ty p) [Error (mk_error c t ty)].
Proof.
  intros (S1 & S2 & S3 & S4) Hr. unfold emit_error. split.
  - cbn [error_callback_ enter]. destruct (error_callback_ p); (split; [|done]); (split; [done|]); (split; [done|]); (split; [done|]); apply wrap_in_width; lia.
  - cbn [error_callback_ enter]. unfold advanced, count, visible. cbn [List.filter is_message negb]. destruct (error_callback_ p) eqn:E; cbn; rewrite ?E, ?Z.add_0_r; (split; [by rewrite ?app_nil_r|]); (split; [done|]); (split; [done|]); by rewrite (wrap_small 64 (messages_decoded_ p)).
Qed.

Lemma start_sentence_ok p r : sized p -> received_checksum_ p = r -> holds (start_sentence p) r (Content []) /\ advanced p (start_sentence p) [].
Proof.
  intros Hs Hr. split; [|exact (advanced_nil p Hs)]. split; [done|]. split; [done|]. split; [done|]. split; [done|]. split; [cbn; lia|]. split; [done|]. by split; [|constructor].
Qed.

Lemma on_sentence_complete_ok p r l present : sized p -> received_checksum_ p = r -> content_holds p l -> checksum_present_ p = present ->
  exists p', on_sentence_complete p = Done p' /\ holds p' r Idle /\ advanced p p' [outcome l present r].
Proof.
  intros (S1 & S2 & S3 & S4) Hr (C1 & C2 & C3 & C4 & C5) Hp. unfold on_sentence_complete. rewrite C1, C3, tokenize_ok, bind_Done by lia. unfold outcome. destruct (parts l) as [[t ty] fs]. cbn [fst snd].
  set (st := wrote (field_storage_ p) 0 (take MaxFields fs)). change (default [] (Some st)) with st. assert (Hst : length st = MaxFields) by (unfold st; rewrite length_wrote; [done|rewrite length_take; lia]).
  assert (Et : take (length (take MaxFields fs)) st = take MaxFields fs) by (apply take_wrote; rewrite length_take; lia). rewrite Et. cbv zeta. cbn [checksum_present_ checksum_ received_checksum_]. rewrite Hp, C4, Hr. destruct (present && negb (xor_sum l =? r)).
  - eexists. split; [done|]. match goal with |- holds (emit_error _ _ _ ?q) _ _ /\ _ => destruct (nmea_error_ok checksum_mismatch t ty q r) as [H1 H2]; [by split_and!|done|] end. split; [exact H1|]. exact H2.
  - eexists. split; [done|]. cbn [message_callback_]. split.
    + destruct (message_callback_ p); (split; [|done]); (split; [done|]); (split; [done|]); (split; [|done]); apply wrap_in_width; lia.
    + unfold advanced, count, visible. cbn [List.filter is_message negb enter message_callback_]. destruct (message_callback_ p) eqn:E; cbn; rewrite ?E, ?Z.add_0_r; (split; [by rewrite ?app_nil_r|]); (split; [done|]); (split; [done|]); by rewrite (wrap_small 64 (messages_discarded_ p)).
Qed.

Lemma holds_sized p r ph : holds p r ph -> sized p /\ received_checksum_ p = r.
Proof. intros (H1 & H2 & _). done. Qed.

Lemma restart_ok p r : sized p -> received_checksum_ p = r ->
  holds (start_sentence (emit_error unexpected_start_in_sentence [] [] p)) r (Content []) /\ advanced p (start_sentence (emit_error unexpected_start_in_sentence [] [] p)) [failure unexpected_start_in_sentence].
Proof.
  intros Hs Hr. destruct (nmea_error_ok unexpected_start_in_sentence [] [] p r Hs Hr) as [H1 H2]. destruct (holds_sized _ _ _ H1) as [Hs1 Hr1]. destruct (start_sentence_ok _ r Hs1 Hr1) as [H3 H4]. split; [done|]. exact (advanced_trans _ _ _ _ _ H2 H4).
Qed.

Lemma process_byte_ok p r ph c : holds p r ph -> byte c ->
  exists p', process_byte c p = Done p' /\ holds p' (step r ph c).1.1 (step r ph c).1.2 /\ advanced p p' (step r ph c).2.
Proof.
  intros (Hs & Hr & Hp) Hc. pose proof (advanced_nil p Hs) as Hnil. unfold process_byte, step, NMEA_START_CHAR, NMEA_CHECKSUM_CHAR, NMEA_CR, NMEA_LF. destruct ph as [|l|l|l hi|l present].
  - rewrite Hp. cbn [fst snd]. destruct (c =? 36); eexists; (split; [done|]); [by apply start_sentence_ok|]. done.
  - destruct Hp as [Est Hl]. rewrite Est. destruct (c =? 36); [eexists; split; [done|]; by apply restart_ok|]. destruct (c =? 42); [eexists; split; [done|]; split; [done|exact Hnil]|]. destruct (c =? 13); [eexists; split; [done|]; split; [done|exact Hnil]|].
    destruct (c =? 10); [apply (on_sentence_complete_ok (go accumulate false p) r l false); done|]. pose proof Hl as (C1 & C2 & C3 & C4 & C5). rewrite C1. destruct (Nat.leb_spec MaxSentenceLen (length l)) as [Hge|Hlt]; [eexists; split; [done|]; by apply nmea_error_ok|].
    pose proof Hs as (S1 & S2 & S3 & S4). rewrite store_Done, bind_Done by lia. eexists. split; [done|]. split; [|exact Hnil]. cbn [fst snd]. split; [by split_and!; [cbn; rewrite length_insert|..]|]. split; [done|]. split; [done|].
    split; [cbn; rewrite length_app; cbn; lia|]. split; [rewrite length_app; cbn; lia|]. cbn [buffer_ checksum_]. split; [|split; [rewrite C4; by apply sum_update_snoc|apply Forall_app; by split; [|constructor]]].
    rewrite length_app. cbn [length]. rewrite Nat.add_1_r, (take_S_r _ _ c) by (apply list_lookup_insert_eq; lia). by rewrite take_insert_ge, C3 by lia.
  - destruct Hp as (Est & Hl & Hpr). rewrite Est. eexists. split; [done|]. split; [|exact Hnil]. by split_and!.
  - destruct Hp as (Est & Hl & Hpr & Hhi). rewrite Est, Hhi. destruct (parse_hex_byte hi c) as [v|]; eexists; (split; [done|]); [split; [|exact Hnil]; by split_and!|by apply nmea_error_ok].
  - destruct Hp as (Est & Hl & Hpr). rewrite Est. destruct (c =? 13); [eexists; split; [done|]; split; [by split_and!|exact Hnil]|]. destruct (c =? 10); [by apply on_sentence_complete_ok|]. destruct (c =? 36); [eexists; split; [done|]; by apply restart_ok|]. eexists. split; [done|]. split; [by split_and!|exact Hnil].
Qed.

Lemma nmea_feed_ok p r ph bs : holds p r ph -> Forall byte bs ->
  exists p', feed (Some bs) (length bs) p = Done p' /\ holds p' (run r ph bs).1.1 (run r ph bs).1.2 /\ advanced p p' (run r ph bs).2.
Proof.
  intros Hp Hb. unfold feed. rewrite bool_decide_eq_false_2 by done. cbn [andb]. change (default [] (Some bs)) with bs.
  destruct (for_to_inv (fun i q => holds q (run r ph (take i bs)).1.1 (run r ph (take i bs)).1.2 /\ advanced p q (run r ph (take i bs)).2) (fun index p => c ← load bs index; process_byte c p) 0 (length bs) p) as (p' & -> & Hr).
  - rewrite take_0. split; [done|]. apply advanced_nil, (holds_sized _ _ _ Hp).
  - intros i q Hi [H1 H2]. destruct (lookup_lt_is_Some_2 bs i) as [c Hc]; [lia|]. rewrite (load_Done _ _ _ Hc), bind_Done. destruct (process_byte_ok q _ _ c H1) as (q' & -> & H3 & H4); [by eapply (Forall_lookup_1 byte)|]. eexists. split; [done|].
    rewrite (take_S_r _ _ _ Hc), nmea_run_app. destruct (run r ph (take i bs)) as [[r1 ph1] es1]. cbn [fst snd run] in *. destruct (step r1 ph1 c) as [[r2 ph2] es2]. cbn [fst snd] in *. rewrite app_nil_r. split; [done|]. by eapply advanced_trans.
  - cbn [Nat.add] in Hr. rewrite firstn_all in Hr. by exists p'.
Qed.

(** *** The machine reads the grammar *)

Lemma special_tests c : c ∉ [36; 42; 13; 10] -> (c =? 36) = false /\ (c =? 42) = false /\ (c =? 13) = false /\ (c =? 10) = false.
Proof. rewrite !not_elem_of_cons. intros (H1 & H2 & H3 & H4 & _). by rewrite !(proj2 (Z.eqb_neq _ _)). Qed.

Lemma run_clean r l content bs : Forall (fun c => c ∉ [36; 42; 13; 10]) content -> (length l + length content <= MaxSentenceLen)%nat -> run r (Content l) (content ++ bs) = run r (Content (l ++ content)) bs.
Proof.
  revert l. induction content as [|c content IH]; intros l Hc Hl; [by rewrite app_nil_r|]. apply Forall_cons in Hc as [Hc Hcs]. cbn [length] in Hl. destruct (special_tests c Hc) as (E1 & E2 & E3 & E4). cbn [app run step]. rewrite E1, E2, E3, E4, (proj2 (Nat.leb_gt _ _)) by lia.
  rewrite IH by (done || (rewrite length_app; cbn; lia)). rewrite <-app_assoc. by destruct (run r _ bs) as [[? ?] ?].
Qed.

Lemma run_stray r l present s bs : stray s -> run r (Closing l present) (s ++ bs) = run r (Closing l present) bs.
Proof.
  induction 1 as [|c s Hc Hs IH]; [done|]. rewrite !not_elem_of_cons in Hc. destruct Hc as (H1 & H2 & _). cbn [app run step]. rewrite (proj2 (Z.eqb_neq c 10)), (proj2 (Z.eqb_neq c 36)) by done. destruct (c =? 13); rewrite IH; by destruct (run r _ bs) as [[? ?] ?].
Qed.

Lemma run_summed r l hi lo v s bs : parse_hex_byte hi lo = Some v -> stray s -> run r (Content l) (42 :: hi :: lo :: s ++ bs) = run v (Closing l true) bs.
Proof. intros Hv Hs. cbn [run step Z.eqb Pos.eqb]. rewrite Hv, run_stray by done. by destruct (run _ _ bs) as [[? ?] ?]. Qed.

Lemma run_content r content bs : clean content -> run r (Content []) (content ++ bs) = run r (Content content) bs.
Proof. intros [H1 H2]. by rewrite run_clean. Qed.

Scheme idle_ind2 := Induction for idle Sort Prop with inside_ind2 := Induction for inside Sort Prop.

Lemma regular_app a b : regular (a ++ b) -> regular b.
Proof. induction a as [|c a IH]; [done|]. intros (_ & _ & H). by apply IH. Qed.

Lemma regular_star a hi lo b : regular (a ++ 42 :: hi :: lo :: b) -> hi <> 36 /\ lo <> 36 /\ regular b.
Proof.
  intros (_ & H & _ & _ & _ & _ & Hb)%regular_app. specialize (H eq_refl). cbn [take] in H. rewrite take_0, !not_elem_of_cons in H. destruct H as (H1 & H2 & _). by split_and!.
Qed.

Lemma idle_run r bs es r' : idle r bs es r' -> regular bs -> exists ph, run r Idle bs = (r', ph, es).
Proof.
  revert r bs es r'. apply (idle_ind2 (fun r bs es r' _ => regular bs -> exists ph, run r Idle bs = (r', ph, es)) (fun r bs es r' _ => regular bs -> exists ph, run r (Content []) bs = (r', ph, es))).
  - intros r _. by exists Idle.
  - intros r c bs es r' Hc _ IH Hr. destruct IH as [ph E]; [apply Hr|]. exists ph. cbn [run step]. by rewrite (proj2 (Z.eqb_neq _ _)), E.
  - intros r bs es r' _ IH Hr. destruct IH as [ph E]; [apply Hr|]. exists ph. cbn [run step Z.eqb Pos.eqb]. by rewrite E.
  - intros r content bs es r' Hc _ IH Hr%regular_app. destruct IH as [ph E]; [apply Hr|]. exists ph. rewrite run_content by done. cbn [run step Z.eqb Pos.eqb]. by rewrite E.
  - intros r content bs es r' Hc _ IH Hr%regular_app. destruct IH as [ph E]; [apply Hr|]. exists ph. rewrite run_content by done. cbn [run step Z.eqb Pos.eqb]. by rewrite E.
  - intros r content bs es r' _ Hh _ _ Hr%regular_app. by destruct Hh, Hr as [-> _].
  - intros r content hi lo v l bs es r' Hc Hv Hl _ IH (_ & _ & Hr)%regular_star. destruct IH as [ph E]; [by apply regular_app in Hr as (_ & _ & Hr)|]. exists ph. rewrite run_content, (run_summed r content hi lo v) by done. cbn [run step Z.eqb Pos.eqb]. by rewrite E.
  - intros r content hi lo bs es r' Hc _ _ Hv _ IH (_ & _ & Hr)%regular_star. destruct IH as [ph E]; [done|]. exists ph. rewrite run_content by done. cbn [run step Z.eqb Pos.eqb]. by rewrite Hv, E.
  - intros r content c bs es r' Hc Hl Hs _ IH Hr%regular_app. destruct IH as [ph E]; [apply Hr|]. exists ph. rewrite run_content by done. destruct (special_tests c Hs) as (E1 & E2 & E3 & E4). cbn [run step]. by rewrite E1, E2, E3, E4, Hl, Nat.leb_refl, E.
  - intros r content bs es r' Hc _ IH Hr%regular_app. destruct IH as [ph E]; [apply Hr|]. exists ph. rewrite run_content by done. cbn [run step Z.eqb Pos.eqb]. by rewrite E.
  - intros r content bs es r' _ _ _ (_ & H & _)%regular_app. specialize (H eq_refl). cbn [take] in H. by apply not_elem_of_cons in H as [? _].
  - intros r content hi bs es r' _ _ _ _ (_ & H & _)%regular_star. done.
  - intros r content hi lo v l bs es r' Hc Hv Hl _ IH (_ & _ & Hr)%regular_star. destruct IH as [ph E]; [by apply regular_app in Hr as (_ & _ & Hr)|]. exists ph. rewrite run_content, (run_summed r content hi lo v) by done. cbn [run step Z.eqb Pos.eqb]. by rewrite E.
  - intros r content Hc _. exists (Content content). rewrite <-(app_nil_r content) at 1. by rewrite run_content.
  - intros r content Hc _. exists (Star content). by rewrite run_content.
  - intros r content hi Hc _ _. exists (Digit content hi). by rewrite run_content.
  - intros r content hi lo v l Hc Hv Hl _. exists (Closing content true). rewrite run_content by done. rewrite <-(app_nil_r l). by rewrite (run_summed r content hi lo v).
Qed.

Lemma stray_snoc l c : stray l -> c ∉ [36; 10] -> stray (l ++ [c]).
Proof. intros Hl Hc. apply Forall_app. by split; [|constructor]. Qed.

Lemma run_reads bs : regular bs ->
  (forall r, idle r bs (run r Idle bs).2 (run r Idle bs).1.1) /\
  (forall r l, clean l -> inside r (l ++ bs) (run r (Content l) bs).2 (run r (Content l) bs).1.1) /\
  (forall r l, clean l -> 36 ∉ take 2 bs -> inside r (l ++ 42 :: bs) (run r (Star l) bs).2 (run r (Star l) bs).1.1) /\
  (forall r l hi, clean l -> hi <> 36 -> 36 ∉ take 1 bs -> inside r (l ++ 42 :: hi :: bs) (run r (Digit l hi) bs).2 (run r (Digit l hi) bs).1.1) /\
  (forall r l, clean l -> head bs = Some 10 -> inside r (l ++ 13 :: bs) (run r (Closing l false) bs).2 (run r (Closing l false) bs).1.1) /\
  (forall r l hi lo v s, clean l -> parse_hex_byte hi lo = Some v -> stray s -> inside r (l ++ 42 :: hi :: lo :: s ++ bs) (run v (Closing l true) bs).2 (run v (Closing l true) bs).1.1).
Proof.
  induction bs as [|c bs IH]; intros Hreg.
  { split; [constructor|]. split; [intros; rewrite app_nil_r; by constructor|]. split; [by constructor|]. split; [by constructor|]. split; [done|]. intros. rewrite app_nil_r. by eapply inside_open_summed. }
  destruct Hreg as (Hcr & Hstar & Hreg). destruct (IH Hreg) as (I1 & I2 & I3 & I4 & I5 & I6). clear IH. assert (Hnil : clean []) by (split; [constructor|cbn; lia]).
  assert (Hrun : forall r ph, (run r ph (c :: bs)).2 = (step r ph c).2 ++ (run (step r ph c).1.1 (step r ph c).1.2 bs).2 /\ (run r ph (c :: bs)).1.1 = (run (step r ph c).1.1 (step r ph c).1.2 bs).1.1).
  { intros r ph. cbn [run]. destruct (step r ph c) as [[r1 ph1] es1]. cbn [fst snd]. by destruct (run r1 ph1 bs) as [[r2 ph2] es2]. }
  split_and!.
  - intros r. destruct (Hrun r Idle) as [-> ->]. cbn [step fst snd app]. destruct (Z.eqb_spec c 36) as [->|Hc]; [by apply idle_start, (I2 r [])|by apply idle_noise].
  - intros r l Hl. destruct (Hrun r (Content l)) as [-> ->]. cbn [step]. destruct (Z.eqb_spec c 36) as [->|N1]; [cbn [fst snd app]; apply inside_dollar; [done|]; by apply (I2 r [])|].
    destruct (Z.eqb_spec c 42) as [->|N2]; [cbn [fst snd app]; apply I3; [done|by apply Hstar]|]. destruct (Z.eqb_spec c 13) as [->|N3]; [cbn [fst snd app]; apply I5; [done|by apply Hcr]|].
    destruct (Z.eqb_spec c 10) as [->|N4]; [cbn [fst snd app]; by apply inside_line|]. assert (Hs : c ∉ [36; 42; 13; 10]) by (rewrite !not_elem_of_cons; split_and!; try done; apply not_elem_of_nil). pose proof Hl as [Hl1 Hl2].
    destruct (Nat.leb_spec MaxSentenceLen (length l)) as [Hge|Hlt]; cbn [fst snd app]; [apply inside_long; [done|lia|done|done]|].
    change (l ++ c :: bs) with (l ++ [c] ++ bs). rewrite app_assoc. apply I2. split; [apply Forall_app; by split; [|constructor]|rewrite length_app; cbn; lia].
  - intros r l Hl H36. destruct (Hrun r (Star l)) as [-> ->]. cbn [step fst snd app]. cbn [take] in H36. apply not_elem_of_cons in H36 as [Hc H36]. by apply I4.
  - intros r l hi Hl Hhi H36. destruct (Hrun r (Digit l hi)) as [-> ->]. cbn [step]. cbn [take] in H36. apply not_elem_of_cons in H36 as [Hc _].
    destruct (parse_hex_byte hi c) as [v|] eqn:Ev; cbn [fst snd app]; [apply (I6 r l hi c v []); [done|done|constructor]|by apply inside_digits].
  - intros r l Hl [= ->]. destruct (Hrun r (Closing l false)) as [-> ->]. cbn [step Z.eqb Pos.eqb fst snd app]. by apply inside_crlf.
  - intros r l hi lo v s Hl Hv Hs. destruct (Hrun v (Closing l true)) as [-> ->]. cbn [step].
    assert (Hgo : c ∉ [36; 10] -> inside r (l ++ 42 :: hi :: lo :: s ++ c :: bs) (run v (Closing l true) bs).2 (run v (Closing l true) bs).1.1).
    { intros Hc. change (c :: bs) with ([c] ++ bs). rewrite (app_assoc s). apply I6; [done|done|]. by apply stray_snoc. }
    destruct (Z.eqb_spec c 13) as [->|N1]; [cbn [fst snd app]; apply Hgo; rewrite !not_elem_of_cons; split_and!; try done; apply not_elem_of_nil|]. destruct (Z.eqb_spec c 10) as [->|N2]; [cbn [fst snd app]; by apply inside_summed|].
    destruct (Z.eqb_spec c 36) as [->|N3]; cbn [fst snd app]; [eapply inside_summed_dollar; [done|done|done|]; by apply (I2 v [])|]. apply Hgo. rewrite !not_elem_of_cons. split_and!; try done. apply not_elem_of_nil.
Qed.

(** ** What the parser reports *)

Fixpoint feed_all (segments : list (list Z)) (p : nmea_parser) : exec nmea_parser :=
  match segments with [] => Done p | s :: segments => p ← feed (Some s) (length s) p; feed_all segments p end.

Lemma nmea_feed_all_ok segments p r ph : holds p r ph -> Forall (Forall byte) segments ->
  exists p', feed_all segments p = Done p' /\ holds p' (run r ph (concat segments)).1.1 (run r ph (concat segments)).1.2 /\ advanced p p' (run r ph (concat segments)).2.
Proof.
  revert p r ph. induction segments as [|s segments IH]; intros p r ph Hp Hb; [exists p; split; [done|]; split; [done|]; apply advanced_nil, (holds_sized _ _ _ Hp)|].
  apply Forall_cons in Hb as [Hb Hbs]. cbn [feed_all concat]. destruct (nmea_feed_ok p r ph s Hp Hb) as (p1 & -> & H1 & H2). rewrite bind_Done, nmea_run_app. destruct (run r ph s) as [[r1 ph1] es1]. cbn [fst snd] in *.
  destruct (IH p1 r1 ph1 H1 Hbs) as (p2 & -> & H3 & H4). exists p2. split; [done|]. destruct (run r1 ph1 (concat segments)) as [[r2 ph2] es2]. cbn [fst snd] in *. split; [done|]. by eapply advanced_trans.
Qed.

(** C25. Fed any division of any byte stream between two sentences, the parser is total and within its buffer and field table, calls the callbacks with a sequence of events, in order, each to the callback installed for it, and counts the messages and the errors.
    Where a line feed follows every carriage return and no dollar sign stands in the place of a checksum digit, these are exactly the events the documented grammar gives the stream, and it gives no others.
    (For other streams, see [lone_cr_ends_nothing] and [dollar_digit_swallowed].) *)
Theorem nmea_parser_exact p segments : sized p -> state_ p = wait_dollar -> Forall (Forall byte) segments ->
  exists p' es, feed_all segments p = Done p' /\ advanced p p' es /\ sized p' /\
    (regular (concat segments) -> idle (received_checksum_ p) (concat segments) es (received_checksum_ p') /\
       forall es' r', idle (received_checksum_ p) (concat segments) es' r' -> es' = es /\ r' = received_checksum_ p').
Proof.
  intros Hs Hst Hb. destruct (nmea_feed_all_ok segments p (received_checksum_ p) Idle) as (p' & E & Hp & Ha); [by split_and!|done|]. destruct (holds_sized _ _ _ Hp) as [Hs' Hr]. exists p'. eexists. split; [exact E|]. split; [exact Ha|]. split; [done|].
  rewrite Hr. intros Hreg. split; [by apply run_reads|]. intros es' r' Hi. destruct (idle_run _ _ _ _ Hi Hreg) as [ph ->]. done.
Qed.

(** A sentence on the line: noise without a dollar sign, then what [encode_sentence] writes. *)
Record item : Type := mk_item { noise : list Z; i_talker : list Z; i_type : list Z; i_fields : list (list Z) }.
Definition item_content (i : item) : list Z := content_text (i_talker i) (i_type i) (i_fields i).
Definition item_ok (i : item) : Prop := 36 ∉ noise i /\ encodable (i_talker i) (i_type i) (i_fields i) /\ clean (item_content i) /\ Forall byte (noise i ++ item_content i).
Definition item_text (i : item) : list Z := noise i ++ sentence_text (item_content i).
Definition item_message (i : item) : message_view := mk_message (i_talker i) (i_type i) (take MaxFields (i_fields i)) (xor_sum (item_content i)) true.

Lemma run_noise r l bs : 36 ∉ l -> run r Idle (l ++ bs) = run r Idle bs.
Proof.
  induction l as [|c l IH]; intros Hn; [done|]. apply not_elem_of_cons in Hn as [Hc Hn]. cbn [app run step]. rewrite (proj2 (Z.eqb_neq c 36)), IH by done. by destruct (run r Idle bs) as [[? ?] ?].
Qed.

Lemma run_items items r : Forall item_ok items -> exists r', run r Idle (concat (item_text <$> items)) = (r', Idle, Message <$> (item_message <$> items)).
Proof.
  intros H. revert r. induction H as [|i items (Hn & He & Hc & Hb) _ IH]; intros r; [by exists r|]. destruct (IH (xor_sum (item_content i))) as [r' Hr]. exists r'. cbn [fmap list_fmap concat]. unfold item_text at 1. rewrite <-app_assoc, run_noise by done.
  apply Forall_app in Hb as [_ Hb]. pose proof (xor_sum_byte _ Hb) as Hx.
  assert (Ho : Message (item_message i) = outcome (item_content i) true (xor_sum (item_content i))) by (unfold outcome; replace (parts (item_content i)) with ((i_talker i, i_type i), i_fields i) by (symmetry; by apply parts_content); by rewrite Z.eqb_refl). rewrite Ho.
  set (s := item_content i) in *. assert (Et : sentence_text s ++ concat (item_text <$> items) = 36 :: s ++ 42 :: hex_char (xor_sum s / 16) :: hex_char (xor_sum s mod 16) :: [13] ++ 10 :: concat (item_text <$> items)).
  { unfold sentence_text. cbn [app]. by rewrite <-app_assoc. }
  rewrite Et. cbn [run step Z.eqb Pos.eqb]. rewrite run_content, (run_summed r s _ _ (xor_sum s)); [|by apply parse_hex_text| |done].
  - cbn [run step Z.eqb Pos.eqb]. change (run (xor_sum s) Idle (concat (item_text <$> items)) = (r', Idle, Message <$> (item_message <$> items))) in Hr. by rewrite Hr.
  - repeat constructor; rewrite !not_elem_of_cons; split_and!; try done; apply not_elem_of_nil.
Qed.

Lemma byte_items items : Forall item_ok items -> Forall byte (concat (item_text <$> items)).
Proof.
  induction 1 as [|i items (_ & _ & _ & Hb) _ IH]; [constructor|]. cbn [fmap list_fmap concat]. apply Forall_app. split; [|done]. apply Forall_app in Hb as [Hn Hb]. unfold item_text. apply Forall_app. split; [done|]. by apply sentence_bytes.
Qed.

(** C26. The parser reports exactly what was encoded: from between two sentences, whatever noise without dollar signs lies between them, the message callback is called with the talker, type, fields (as many as the table has room for) and checksum of every sentence [encode_sentence] wrote that fits the buffer, in order, and nothing else is reported. *)
Theorem nmea_encoded_reported p segments items : sized p -> state_ p = wait_dollar -> message_callback_ p = true -> Forall item_ok items -> Forall (Forall byte) segments -> concat segments = concat (item_text <$> items) ->
  exists p', feed_all segments p = Done p' /\ calls p' = calls p ++ (Message <$> (item_message <$> items)) /\
    messages_decoded_ p' = to_u64 (messages_decoded_ p + Z.of_nat (length items)) /\ messages_discarded_ p' = messages_discarded_ p.
Proof.
  intros Hs Hst Hcb Hi Hb Ec. destruct (nmea_feed_all_ok segments p (received_checksum_ p) Idle) as (p' & E & Hp & A1 & _ & _ & A4 & A5); [by split_and!|done|]. exists p'. split; [done|]. destruct (run_items items (received_checksum_ p) Hi) as [r' Er]. rewrite <-Ec in Er. rewrite Er in A1, A4, A5. cbn [snd] in *.
  assert (Hall : forall f (ms : list message_view), (forall m, f (Message m) = true) -> List.filter f (Message <$> ms) = Message <$> ms) by (intros f ms Hf; induction ms as [|m ms IH]; [done|]; cbn; by rewrite Hf, IH).
  assert (Hnone : forall (ms : list message_view), List.filter (fun e => negb (is_message e)) (Message <$> ms) = []) by (intros ms; induction ms as [|m ms IH]; [done|]; cbn; apply IH).
  unfold count in *. rewrite Hall in A1, A4 by done. rewrite Hnone in A5. rewrite !length_fmap in A4. split; [done|]. split; [done|]. rewrite A5. cbn. rewrite Z.add_0_r. apply wrap_small. apply Hs.
Qed.
End Parser.

(** A parser with both callbacks installed. *)
Definition listening (MaxSentenceLen MaxFields : nat) : nmea_parser := set_error_callback true (set_message_callback true (parser_new MaxSentenceLen MaxFields)).
Definition heard (p : nmea_parser) (bs : list Z) : exec (list event) := p ← feed_all 16 4 [bs] p; Done (calls p).

Lemma listening_sized : sized 16 4 (listening 16 4).
Proof. split; [done|]. split; [done|]. split; split; cbn; lia. Qed.

Lemma nmea_parser_exact_witness :
  (exists p' es, feed_all 16 4 [chars "x$P,X*2"; chars "4" ++ [13; 10; 36]] (listening 16 4) = Done p' /\ idle 16 4 0 (chars "x$P,X*24" ++ [13; 10; 36]) es (received_checksum_ p') /\ advanced (listening 16 4) p' es)
  /\ (p ← feed_all 16 4 [chars "x$P,X*2"; chars "4" ++ [13; 10; 36]] (listening 16 4); Done (calls p, state_ p)) = Done ([Message (mk_message (chars "P") [] [chars "X"] 36 true)], accumulate).
Proof.
  split; [|vm_compute; reflexivity].
  destruct (nmea_parser_exact 16 4 (listening 16 4) [chars "x$P,X*2"; chars "4" ++ [13; 10; 36]] listening_sized eq_refl) as (p' & es & H1 & H2 & _ & H3); [repeat constructor; unfold byte; lia|]. exists p', es. split; [exact H1|]. split; [|exact H2].
  apply H3. apply (bool_decide_unpack _). vm_compute. exact I.
Defined.

Lemma nmea_encoded_reported_witness :
  exists p', feed_all 16 4 [chars "#$GPGLL,1,*61" ++ [13]; [10]] (listening 16 4) = Done p' /\ calls p' = [] ++ [Message (mk_message (chars "GP") (chars "GLL") [chars "1"; []] 97 true)] /\
    messages_decoded_ p' = to_u64 (0 + Z.of_nat 1) /\ messages_discarded_ p' = 0.
Proof.
  apply (nmea_encoded_reported 16 4 (listening 16 4) [chars "#$GPGLL,1,*61" ++ [13]; [10]] [mk_item (chars "#") (chars "GP") (chars "GLL") [chars "1"; []]] listening_sized eq_refl eq_refl).
  - constructor; [|constructor]. split; [apply (bool_decide_unpack _); vm_compute; exact I|]. split.
    + split; [done|]. split; [reflexivity|]. unfold plain. split; apply (bool_decide_unpack _); vm_compute; exact I.
    + split; [split; [apply (bool_decide_unpack _); vm_compute; exact I|cbn; lia]|]. repeat constructor; unfold byte; lia.
  - repeat constructor; unfold byte; lia.
  - reflexivity.
Defined.

(** ** Where the documentation and the code differ *)

(** A dollar sign in the place of a checksum digit does not start a sentence. *)
Example dollar_digit_swallowed : heard (listening 16 4) (chars "$A*$B" ++ [13; 10]) = Done [Error (mk_error checksum_mismatch [] [])].
Proof. vm_compute. reflexivity. Qed.
(** A carriage return alone does not end a sentence. *)
Example lone_cr_ends_nothing : heard (listening 16 4) (chars "$A" ++ [13] ++ chars "$B" ++ [13; 10]) = Done [Error (mk_error unexpected_start_in_sentence [] []); Message (mk_message [] (chars "B") [] 0 false)].
Proof. vm_compute. reflexivity. Qed.
(** A sentence without a checksum shows that of an earlier one, which has no meaning then. *)
Example stale_checksum_shown : heard (listening 16 4) (chars "$A*41" ++ [10] ++ chars "$B" ++ [10]) = Done [Message (mk_message [] (chars "A") [] 65 true); Message (mk_message [] (chars "B") [] 65 false)].
Proof. vm_compute. reflexivity. Qed.
