(* ===== verification/AvlTree.v ===== *)
(** * The fixed-capacity AVL tree (castle/container/avl_tree.hpp)

    Nodes live in the pool [nodes_[N]] and are linked by pointers: to the
    children, to the parent, and, for unused nodes, to the next free node.  The
    pool is a finite map from node numbers to nodes, a pointer an optional node
    number, and dereferencing goes through [deref]; a node's storage holds an
    object only between construction and destruction. *)

From stdpp Require Import gmap.
From S2P Require Import Prelude Status.

Abbreviation nptr := (option nat).

Record node (K V : Type) : Type := mk_node {
  left : nptr;
  right : nptr;
  parent : nptr;
  height_ : Z;
  used : bool;
  storage : option (K * V)
}.
Arguments mk_node {K V}.
Arguments left {K V}.
Arguments right {K V}.
Arguments parent {K V}.
Arguments height_ {K V}.
Arguments used {K V}.
Arguments storage {K V}.

Record avl_tree (K V : Type) : Type := mk_avl {
  nodes_ : gmap nat (node K V);
  root_ : nptr;
  free_head_ : nptr;
  size_ : nat
}.
Arguments mk_avl {K V}.
Arguments nodes_ {K V}.
Arguments root_ {K V}.
Arguments free_head_ {K V}.
Arguments size_ {K V}.

Section Model.
Context {K V : Type} (compare_ : K -> K -> bool) (N : nat).
#[local] Abbreviation tree := (avl_tree K V).
#[local] Abbreviation cell := (node K V).

(** ** Memory *)

Definition deref (s : tree) (p : nptr) : exec cell :=
  match p with
  | Some i => match nodes_ s !! i with Some n => Done n | None => Undefined end
  | None => Undefined
  end.
Definition modify (s : tree) (p : nptr) (f : cell -> cell) : exec tree :=
  match p with
  | Some i => match nodes_ s !! i with
              | Some n => Done (mk_avl (<[i := f n]> (nodes_ s)) (root_ s) (free_head_ s) (size_ s))
              | None => Undefined
              end
  | None => Undefined
  end.
Definition with_left (v : nptr) (n : cell) : cell :=
  mk_node v (right n) (parent n) (height_ n) (used n) (storage n).
Definition with_right (v : nptr) (n : cell) : cell :=
  mk_node (left n) v (parent n) (height_ n) (used n) (storage n).
Definition with_parent (v : nptr) (n : cell) : cell :=
  mk_node (left n) (right n) v (height_ n) (used n) (storage n).
Definition with_height (v : Z) (n : cell) : cell :=
  mk_node (left n) (right n) (parent n) v (used n) (storage n).
Definition set_left (s : tree) (p v : nptr) : exec tree := modify s p (with_left v).
Definition set_right (s : tree) (p v : nptr) : exec tree := modify s p (with_right v).
Definition set_parent (s : tree) (p v : nptr) : exec tree := modify s p (with_parent v).
Definition set_root (s : tree) (v : nptr) : tree :=
  mk_avl (nodes_ s) v (free_head_ s) (size_ s).

(** [value(item)]: the object in the node. *)
Definition value (s : tree) (p : nptr) : exec (K * V) :=
  n ← deref s p; match storage n with Some kv => Done kv | None => Undefined end.

(** ** The node pool *)

Definition pool_node (old : cell) (next : nptr) : cell := mk_node next None None 0 false (storage old).
Definition pool_body (i : nat) (s : tree) : exec (ctl unit tree) :=
  let k := N - 1 - i in
  s ← modify s (Some k) (fun n => pool_node n (free_head_ s));
  Done (Next (mk_avl (nodes_ s) (root_ s) (Some k) (size_ s))).
Definition initialise_pool (s : tree) : exec tree :=
  match for_range 0 N pool_body (mk_avl (nodes_ s) (root_ s) None (size_ s)) with
  | Done (Next s) => Done s
  | _ => Undefined
  end.

Definition node_new : cell := mk_node None None None 1 false None.
Definition avl_new : exec tree :=
  initialise_pool (mk_avl (gset_to_gmap node_new (set_seq 0 N)) None None 0).

Definition allocate_node (s : tree) : exec (nptr * tree) :=
  match free_head_ s with
  | None => Done (None, s)
  | Some r =>
      n ← deref s (Some r);
      let s := mk_avl (nodes_ s) (root_ s) (left n) (size_ s) in
      s ← modify s (Some r) (fun n => mk_node None None None 1 true (storage n));
      Done (Some r, s)
  end.

(** [memory::construct_at] and [memory::destroy_at] on a node's storage; an object
    may be destroyed only while it is alive. *)
Definition construct_value (s : tree) (p : nptr) (kv : K * V) : exec tree :=
  modify s p (fun n => mk_node (left n) (right n) (parent n) (height_ n) (used n) (Some kv)).
Definition destroy_value (s : tree) (p : nptr) : exec tree :=
  n ← deref s p;
  match storage n with
  | Some _ => modify s p (fun n => mk_node (left n) (right n) (parent n) (height_ n) (used n) None)
  | None => Undefined
  end.

Definition release_node (s : tree) (item : nptr) : exec tree :=
  s ← destroy_value s item;
  s ← modify s item (fun n => mk_node (free_head_ s) None None 0 false (storage n));
  Done (mk_avl (nodes_ s) (root_ s) item (if (0 <? size_ s)%nat then size_ s - 1 else size_ s)).

(** ** Search *)

(** A loop that follows one pointer; [N + 1] steps cover any path. *)
Definition fuel : nat := S N.

Definition find_body (s : tree) (key : K) (current : nptr) : exec (ctl nptr nptr) :=
  kv ← value s current;
  n ← deref s current;
  if compare_ key kv.1 then Done (Next (left n))
  else if compare_ kv.1 key then Done (Next (right n))
  else Done (Return current).
Definition find_node (s : tree) (key : K) : exec nptr :=
  after (while_loop fuel (fun c => Done (bool_decide (c <> None))) (find_body s key) (root_ s))
    (fun _ => Done None).
Definition contains (s : tree) (key : K) : exec bool :=
  p ← find_node s key; Done (bool_decide (p <> None)).
Definition mapped (s : tree) (key : K) : exec (option V) :=
  p ← find_node s key;
  match p with None => Done None | Some _ => kv ← value s p; Done (Some kv.2) end.

Definition bound_body (goes_right : K -> bool) (s : tree) (st : nptr * nptr)
    : exec (ctl nptr (nptr * nptr)) :=
  let '(current, result) := st in
  kv ← value s current;
  n ← deref s current;
  if goes_right kv.1 then Done (Next (right n, result)) else Done (Next (left n, current)).
Definition bound (goes_right : K -> bool) (s : tree) : exec nptr :=
  after (while_loop fuel (fun st => Done (bool_decide (st.1 <> None))) (bound_body goes_right s) (root_ s, None))
    (fun st => Done st.2).
Definition lower_bound (s : tree) (key : K) : exec nptr := bound (fun k => compare_ k key) s.
Definition upper_bound (s : tree) (key : K) : exec nptr := bound (fun k => negb (compare_ key k)) s.

(** [while (item->left != nullptr) item = item->left;] and its mirror image. *)
Definition descend (child : cell -> nptr) (s : tree) (item : nptr) : exec nptr :=
  after (while_loop fuel
           (fun p => n ← deref s p; Done (bool_decide (child n <> None)))
           (fun p => n ← deref s p; Done (Next (child n))) item)
    (fun p => Done p).
Definition minimum (s : tree) (item : nptr) : exec nptr :=
  match item with None => Done None | Some _ => descend left s item end.

(** Climb while [item] is the [child] of its parent. *)
Definition climb (child : cell -> nptr) (s : tree) (item : nptr) : exec nptr :=
  n ← deref s item;
  after (while_loop fuel
           (fun '(it, par) => match par with
                              | None => Done false
                              | Some _ => n ← deref s par; Done (bool_decide (it = child n))
                              end)
           (fun '(_, par) => n ← deref s par; Done (Next (par, parent n)))
           (item, parent n))
    (fun st => Done st.2).
Definition successor (s : tree) (item : nptr) : exec nptr :=
  match item with
  | None => Done None
  | Some _ =>
      n ← deref s item;
      if bool_decide (right n <> None) then descend left s (right n) else climb right s item
  end.
Definition predecessor (s : tree) (item : nptr) : exec nptr :=
  match item with
  | None => Done None
  | Some _ =>
      n ← deref s item;
      if bool_decide (left n <> None) then descend right s (left n) else climb left s item
  end.

(** ** Balance *)

Definition height (s : tree) (item : nptr) : exec Z :=
  match item with None => Done 0%Z | Some _ => n ← deref s item; Done (height_ n) end.
Definition balance_factor (s : tree) (item : nptr) : exec Z :=
  n ← deref s item; l ← height s (left n); r ← height s (right n); Done (l - r)%Z.
Definition update_height (s : tree) (item : nptr) : exec tree :=
  n ← deref s item;
  l ← height s (left n); r ← height s (right n);
  modify s item (with_height (to_u8 ((if (r <? l)%Z then l else r) + 1))).

(** [node] is replaced by [child] below its parent [p], or as the root. *)
Definition replace_child (s : tree) (p node child : nptr) : exec tree :=
  match p with
  | None => Done (set_root s child)
  | Some _ =>
      pn ← deref s p;
      if bool_decide (node = left pn) then set_left s p child else set_right s p child
  end.
Definition transplant (s : tree) (old_node new_node : nptr) : exec tree :=
  o ← deref s old_node;
  s ← replace_child s (parent o) old_node new_node;
  match new_node with
  | None => Done s
  | Some _ => o ← deref s old_node; set_parent s new_node (parent o)
  end.

Definition rotate_left (s : tree) (pivot : nptr) : exec tree :=
  n ← deref s pivot;
  let child := right n in
  c ← deref s child;
  s ← set_right s pivot (left c);
  s ← (match left c with None => Done s | Some _ => set_parent s (left c) pivot end);
  s ← set_parent s child (parent n);
  s ← replace_child s (parent n) pivot child;
  s ← set_left s child pivot;
  s ← set_parent s pivot child;
  s ← update_height s pivot;
  update_height s child.
Definition rotate_right (s : tree) (pivot : nptr) : exec tree :=
  n ← deref s pivot;
  let child := left n in
  c ← deref s child;
  s ← set_left s pivot (right c);
  s ← (match right c with None => Done s | Some _ => set_parent s (right c) pivot end);
  s ← set_parent s child (parent n);
  s ← replace_child s (parent n) pivot child;
  s ← set_right s child pivot;
  s ← set_parent s pivot child;
  s ← update_height s pivot;
  update_height s child.

Definition rebalance_body (st : tree * nptr) : exec (ctl unit (tree * nptr)) :=
  let '(s, current) := st in
  s ← update_height s current;
  balance ← balance_factor s current;
  s ← (if (1 <? balance)%Z then
         n ← deref s current;
         b ← balance_factor s (left n);
         s ← (if (b <? 0)%Z then rotate_left s (left n) else Done s);
         rotate_right s current
       else if (balance <? -1)%Z then
         n ← deref s current;
         b ← balance_factor s (right n);
         s ← (if (0 <? b)%Z then rotate_right s (right n) else Done s);
         rotate_left s current
       else Done s);
  n ← deref s current;
  Done (Next (s, parent n)).
(** A level of the tree costs at most two iterations: after a rotation [current] is
    a child of the new subtree root, which is visited next. *)
Definition rebalance (s : tree) (current : nptr) : exec tree :=
  match while_loop (S (fuel + fuel)) (fun st => Done (bool_decide (st.2 <> None))) rebalance_body (s, current) with
  | Done (Next st) => Done st.1
  | _ => Undefined
  end.

(** ** Modifiers *)

Definition emplace_body (s : tree) (key : K) (st : nptr * nptr * bool)
    : exec (ctl status (nptr * nptr * bool)) :=
  let '(current, _, _) := st in
  kv ← value s current;
  n ← deref s current;
  if compare_ key kv.1 then Done (Next (left n, current, true))
  else if compare_ kv.1 key then Done (Next (right n, current, false))
  else Done (Return s_already_exists).
Definition emplace_value (s : tree) (key : K) (mapped_value : V) : exec (status * tree) :=
  match while_loop fuel (fun st => Done (bool_decide (st.1.1 <> None))) (emplace_body s key)
          (root_ s, None, false) with
  | Done (Return e) => Done (e, s)
  | Done (Next (_, par, insert_left)) =>
      a ← allocate_node s;
      match a.1 with
      | None => Done (s_full, a.2)
      | Some _ =>
          let item := a.1 in
          s ← construct_value a.2 item (key, mapped_value);
          s ← set_parent s item par;
          s ← (match par with
               | None => Done (set_root s item)
               | Some _ => if (insert_left : bool) then set_left s par item else set_right s par item
               end);
          s ← rebalance (mk_avl (nodes_ s) (root_ s) (free_head_ s) (size_ s + 1)) par;
          Done (s_ok, s)
      end
  | Undefined => Undefined
  end.
Definition insert (s : tree) (key : K) (v : V) : exec (status * tree) := emplace_value s key v.

Definition emplace (s : tree) (key : K) (v : V) : exec (status * tree) :=
  p ← find_node s key;
  if bool_decide (p <> None) then Done (s_already_exists, s) else emplace_value s key v.

(** The two steps that put the successor in the place of an erased node with two
    children: take it out of the right subtree, and link it above both subtrees. *)
Definition unlink_successor (s : tree) (item successor_node : nptr) : exec (tree * nptr) :=
  sn ← deref s successor_node;
  let successor_parent := parent sn in
  if bool_decide (successor_parent <> item) then
    s ← transplant s successor_node (right sn);
    n ← deref s item;
    s ← set_right s successor_node (right n);
    sn ← deref s successor_node;
    s ← set_parent s (right sn) successor_node;
    Done (s, successor_parent)
  else Done (s, successor_node).
Definition take_place (s : tree) (item successor_node : nptr) : exec tree :=
  s ← transplant s item successor_node;
  n ← deref s item;
  s ← set_left s successor_node (left n);
  sn ← deref s successor_node;
  s ← set_parent s (left sn) successor_node;
  update_height s successor_node.

Definition erase_node (s : tree) (item : nptr) : exec tree :=
  n ← deref s item;
  let rebalance_from := parent n in
  if bool_decide (left n = None) || bool_decide (right n = None) then
    let child := if bool_decide (left n <> None) then left n else right n in
    s ← transplant s item child;
    s ← release_node s item;
    rebalance s (if bool_decide (rebalance_from <> None) then rebalance_from else child)
  else
    successor_node ← minimum s (right n);
    r ← unlink_successor s item successor_node;
    s ← take_place r.1 item successor_node;
    s ← release_node s item;
    rebalance s r.2.

Definition erase (s : tree) (key : K) : exec (status * tree) :=
  item ← find_node s key;
  match item with
  | None => Done (s_not_found, s)
  | Some _ => s ← erase_node s item; Done (s_ok, s)
  end.
(** [erase(iterator)]; the result is the iterator behind the erased element. *)
Definition erase_at (s : tree) (position : nptr) : exec (nptr * tree) :=
  match position with
  | None => Done (None, s)
  | Some _ =>
      next ← successor s position;
      s ← erase_node s position;
      Done (next, s)
  end.

Definition clear_body (st : tree * nptr) : exec (ctl unit (tree * nptr)) :=
  let '(s, current) := st in
  next ← successor s current;
  s ← release_node s current;
  Done (Next (s, next)).
Definition clear (s : tree) : exec tree :=
  first ← minimum s (root_ s);
  match while_loop fuel (fun st => Done (bool_decide (st.2 <> None))) clear_body (s, first) with
  | Done (Next (s, _)) => initialise_pool (mk_avl (nodes_ s) None (free_head_ s) 0)
  | _ => Undefined
  end.
End Model.
