(* ===== verification/AvlShape.v ===== *)
(** * The shape of the AVL tree

    What the linked nodes of [avl_tree] spell: binary trees whose nodes carry
    their pool number, their entry and the height the code stores, and the
    contexts a loop leaves behind on its way down.  The rotations and the
    rebalancing pass are restated on these trees, where their correctness is a
    matter of heights and of the order of the entries. *)

From S2P Require Import Prelude.

Section Shape.
Context {K V : Type}.

Inductive btree : Type :=
| Leaf
| Node (l : btree) (i : nat) (kv : K * V) (h : Z) (r : btree).

Definition ptr_of (t : btree) : option nat :=
  match t with Leaf => None | Node _ i _ _ _ => Some i end.
Definition stored (t : btree) : Z := match t with Leaf => 0%Z | Node _ _ _ h _ => h end.
Fixpoint depth (t : btree) : Z :=
  match t with Leaf => 0%Z | Node l _ _ _ r => (1 + Z.max (depth l) (depth r))%Z end.
Fixpoint items (t : btree) : list (nat * (K * V)) :=
  match t with Leaf => [] | Node l i kv _ r => items l ++ (i, kv) :: items r end.

(** A node with the height the code computes for it. *)
Definition mk (l : btree) (i : nat) (kv : K * V) (r : btree) : btree :=
  Node l i kv (to_u8 ((if (stored r <? stored l)%Z then stored l else stored r) + 1)) r.
Definition bal (t : btree) : Z :=
  match t with Leaf => 0%Z | Node l _ _ _ r => (stored l - stored r)%Z end.

Definition rot_left (t : btree) : btree :=
  match t with
  | Node a i x _ (Node b j y _ c) => mk (mk a i x b) j y c
  | t => t
  end.
Definition rot_right (t : btree) : btree :=
  match t with
  | Node (Node a j y _ b) i x _ c => mk a j y (mk b i x c)
  | t => t
  end.

(** One iteration of the rebalancing pass; [true] when it rotates. *)
Definition rebal (l : btree) (i : nat) (kv : K * V) (r : btree) : bool * btree :=
  if (1 <? stored l - stored r)%Z then
    (true, rot_right (mk (if (bal l <? 0)%Z then rot_left l else l) i kv r))
  else if (stored l - stored r <? -1)%Z then
    (true, rot_left (mk l i kv (if (0 <? bal r)%Z then rot_right r else r)))
  else (false, mk l i kv r).

(** ** Contexts *)

Inductive frame : Type :=
| Lft (i : nat) (kv : K * V) (h : Z) (r : btree)
| Rgt (l : btree) (i : nat) (kv : K * V) (h : Z).

Definition frame_ptr (f : frame) : nat := match f with Lft i _ _ _ | Rgt _ i _ _ => i end.
Definition ctx_ptr (c : list frame) : option nat := frame_ptr <$> head c.
Definition fill (f : frame) (t : btree) : btree :=
  match f with Lft i kv h r => Node t i kv h r | Rgt l i kv h => Node l i kv h t end.
Fixpoint plug (c : list frame) (t : btree) : btree :=
  match c with [] => t | f :: c => plug c (fill f t) end.
Definition rebal_frame (f : frame) (t : btree) : btree :=
  match f with Lft i kv _ r => (rebal t i kv r).2 | Rgt l i kv _ => (rebal l i kv t).2 end.
Fixpoint fixup (c : list frame) (t : btree) : btree :=
  match c with [] => t | f :: c => fixup c (rebal_frame f t) end.

Definition frame_before (f : frame) : list (nat * (K * V)) :=
  match f with Lft _ _ _ _ => [] | Rgt l i kv _ => items l ++ [(i, kv)] end.
Definition frame_after (f : frame) : list (nat * (K * V)) :=
  match f with Lft i kv _ r => (i, kv) :: items r | Rgt _ _ _ _ => [] end.
Fixpoint before (c : list frame) : list (nat * (K * V)) :=
  match c with [] => [] | f :: c => before c ++ frame_before f end.
Fixpoint following (c : list frame) : list (nat * (K * V)) :=
  match c with [] => [] | f :: c => frame_after f ++ following c end.

Lemma items_fill f t : items (fill f t) = frame_before f ++ items t ++ frame_after f.
Proof. destruct f; cbn [fill items frame_before frame_after app]; [done|]. by rewrite app_nil_r, <-app_assoc. Qed.

Lemma items_plug c : forall t, items (plug c t) = before c ++ items t ++ following c.
Proof.
  induction c as [|f c IH]; intros t; cbn [plug before following app]; [by rewrite app_nil_r|].
  rewrite IH, items_fill, <-!app_assoc. done.
Qed.

Lemma plug_app c c' t : plug (c ++ c') t = plug c' (plug c t).
Proof. revert t. induction c as [|f c IH]; intros t; cbn; [done|apply IH]. Qed.

(** ** Balance *)

Fixpoint avl (t : btree) : Prop :=
  match t with
  | Leaf => True
  | Node l _ _ h r => avl l /\ avl r /\ (-1 <= depth l - depth r <= 1)%Z /\ h = depth t
  end.

Lemma depth_nonneg t : (0 <= depth t)%Z.
Proof. induction t; cbn [depth]; lia. Qed.

Lemma depth_items t : (depth t <= Z.of_nat (length (items t)))%Z.
Proof. induction t as [|l IHl i kv h r IHr]; cbn [depth items]; [cbn; lia|]. rewrite length_app. cbn [length]. lia. Qed.

Lemma avl_stored t : avl t -> stored t = depth t.
Proof. destruct t; cbn [avl stored]; [done|]. intros (_ & _ & _ & ->). done. Qed.

(** An AVL tree of depth [2k] has at least [2^k - 1] nodes. *)
Lemma avl_size k : (0 <= k)%Z -> forall t, avl t -> (2 * k <= depth t)%Z ->
  (2 ^ k <= Z.of_nat (length (items t)) + 1)%Z.
Proof.
  revert k. apply (natlike_ind (fun k => forall t, avl t -> _ -> _)); [intros; cbn; lia|].
  intros k Hk IH t Ht Hd. destruct t as [|l i kv h r]; [cbn in Hd; lia|].
  destruct Ht as (Hl & Hr & Hb & _). cbn [depth items] in *.
  specialize (IH l Hl ltac:(lia)) as Il. specialize (IH r Hr ltac:(lia)) as Ir.
  rewrite Z.pow_succ_r, length_app by lia. cbn [length]. lia.
Qed.

Lemma avl_shallow t : avl t -> (Z.of_nat (length (items t)) < 2 ^ 64)%Z -> (depth t < 130)%Z.
Proof.
  intros Ht Hs. destruct (Z.lt_ge_cases (depth t) 130) as [|Hd]; [done|].
  pose proof (avl_size 65 ltac:(lia) t Ht ltac:(lia)). lia.
Qed.

Lemma mk_avl_node l i kv r :
  avl l -> avl r -> (depth l < 200)%Z -> (depth r < 200)%Z -> (-1 <= depth l - depth r <= 1)%Z ->
  avl (mk l i kv r).
Proof.
  intros Hl Hr Bl Br Hb. pose proof (depth_nonneg l). pose proof (depth_nonneg r).
  unfold mk. cbn [avl depth]. rewrite !avl_stored by done. repeat split; try done; try lia.
  rewrite wrap_small; cmp_cases; unfold in_width; lia.
Qed.

Lemma mk_depth l i kv r : depth (mk l i kv r) = (1 + Z.max (depth l) (depth r))%Z.
Proof. done. Qed.

Lemma items_mk l i kv r : items (mk l i kv r) = items l ++ (i, kv) :: items r.
Proof. done. Qed.

Ltac avl_nodes :=
  match goal with
  | |- avl (mk _ _ _ _) => apply mk_avl_node; avl_nodes
  | |- avl _ => assumption
  | |- _ => rewrite ?mk_depth; lia
  end.

(** The pass on one node: children whose depths differ by at most two give an AVL
    tree with the same entries, at most one level deeper than the deeper child. *)
Lemma rebal_spec l i kv r :
  avl l -> avl r -> (depth l < 180)%Z -> (depth r < 180)%Z -> (-2 <= depth l - depth r <= 2)%Z ->
  let t := (rebal l i kv r).2 in
  avl t /\ items t = items l ++ (i, kv) :: items r
  /\ (Z.max (depth l) (depth r) <= depth t <= 1 + Z.max (depth l) (depth r))%Z
  /\ ((-1 <= depth l - depth r <= 1)%Z -> depth t = (1 + Z.max (depth l) (depth r))%Z).
Proof.
  intros Hl Hr Bl Br Hb. cbv zeta. unfold rebal. rewrite !avl_stored by done.
  pose proof (depth_nonneg l). pose proof (depth_nonneg r).
  destruct (Z.ltb_spec 1 (depth l - depth r)).
  - destruct l as [|a j y hj b]; [cbn in *; lia|]. destruct Hl as (Ha & Hb' & Hab & _).
    cbn [depth bal] in *. rewrite !avl_stored by done. pose proof (depth_nonneg a). pose proof (depth_nonneg b).
    destruct (Z.ltb_spec (depth a - depth b) 0).
    + destruct b as [|b1 k z hk b2]; [cbn in *; lia|]. destruct Hb' as (Hb1 & Hb2 & H12 & _). cbn [depth] in *.
      pose proof (depth_nonneg b1). pose proof (depth_nonneg b2).
      change ((true, rot_right ?x).2) with (mk (mk a j y b1) k z (mk b2 i kv r)).
      rewrite !items_mk, !mk_depth. cbn [items]. rewrite <-!app_assoc. cbn [app]. rewrite <-app_assoc.
      split; [avl_nodes|]; split; [done|]; lia.
    + change ((true, rot_right ?x).2) with (mk a j y (mk b i kv r)). rewrite !items_mk, !mk_depth. cbn [items].
      rewrite <-!app_assoc. cbn [app].
      split; [avl_nodes|]; split; [done|]; lia.
  - destruct (Z.ltb_spec (depth l - depth r) (-1)).
    + destruct r as [|b j y hj a]; [cbn in *; lia|]. destruct Hr as (Hb' & Ha & Hab & _).
      cbn [depth bal] in *. rewrite !avl_stored by done. pose proof (depth_nonneg a). pose proof (depth_nonneg b).
      destruct (Z.ltb_spec 0 (depth b - depth a)).
      * destruct b as [|b1 k z hk b2]; [cbn in *; lia|]. destruct Hb' as (Hb1 & Hb2 & H12 & _). cbn [depth] in *.
        pose proof (depth_nonneg b1). pose proof (depth_nonneg b2).
        change ((true, rot_left ?x).2) with (mk (mk l i kv b1) k z (mk b2 j y a)).
        rewrite !items_mk, !mk_depth. cbn [items]. rewrite <-!app_assoc. cbn [app].
        split; [avl_nodes|]; split; [done|]; lia.
      * change ((true, rot_left ?x).2) with (mk (mk l i kv b) j y a). rewrite !items_mk, !mk_depth. cbn [items].
        rewrite <-!app_assoc. cbn [app].
        split; [avl_nodes|]; split; [done|]; lia.
    + cbn [snd]. rewrite mk_depth. repeat split; try done; try lia. apply mk_avl_node; done || lia.
Qed.

(** On an AVL tree the pass does nothing. *)
Lemma rebal_avl l i kv h r :
  avl (Node l i kv h r) -> (depth (Node l i kv h r) < 200)%Z -> rebal l i kv r = (false, Node l i kv h r).
Proof.
  intros (Hl & Hr & Hb & ->) Hd. cbn [depth] in Hd. pose proof (depth_nonneg l). pose proof (depth_nonneg r).
  unfold rebal. rewrite !avl_stored by done.
  rewrite (proj2 (Z.ltb_ge _ _)), (proj2 (Z.ltb_ge _ _)) by lia. unfold mk. rewrite !avl_stored by done.
  do 2 f_equal. cbn [depth]. rewrite wrap_small; cmp_cases; unfold in_width; lia.
Qed.

(** Contexts that make an AVL tree out of one of depth [n]. *)
Fixpoint ctx_avl (c : list frame) (n : Z) : Prop :=
  match c with
  | [] => True
  | Lft _ _ _ o :: c | Rgt o _ _ _ :: c =>
      avl o /\ (-1 <= n - depth o <= 1)%Z /\ ctx_avl c (1 + Z.max n (depth o))
  end.

Lemma avl_plug c : forall t, avl (plug c t) -> avl t /\ ctx_avl c (depth t).
Proof.
  induction c as [|f c IH]; intros t H; cbn [plug ctx_avl] in *; [done|].
  apply IH in H as [H Hc]. destruct f; cbn [fill avl depth] in *; destruct H as (H1 & H2 & H3 & _);
    (split; [done|split; [done|split; [lia|]]]); [done|by rewrite Z.max_comm].
Qed.

Lemma ctx_avl_app c c' n :
  ctx_avl (c ++ c') n <-> ctx_avl c n /\ ctx_avl c' (foldl (fun m f => 1 + Z.max m (depth (match f with Lft _ _ _ o | Rgt o _ _ _ => o end)))%Z n c).
Proof.
  revert n. induction c as [|[i kv h o|o i kv h] c IH]; intros n; cbn [app ctx_avl foldl]; [tauto| |];
    rewrite IH; tauto.
Qed.

Lemma frame_size f t : length (items (fill f t)) = (length (frame_before f) + length (items t) + length (frame_after f))%nat.
Proof. rewrite items_fill, !length_app. lia. Qed.

Lemma items_plug_length c t :
  length (items (plug c t)) = (length (before c) + length (items t) + length (following c))%nat.
Proof. rewrite items_plug, !length_app. lia. Qed.

(** One step of the pass up a context whose hole changed depth by at most one. *)
Lemma rebal_frame_spec f c t n :
  avl t -> ctx_avl (f :: c) n -> (-1 <= depth t - n <= 1)%Z ->
  (Z.of_nat (length (items (fill f t))) < 2 ^ 64)%Z ->
  avl (rebal_frame f t) /\ items (rebal_frame f t) = items (fill f t)
  /\ exists m, ctx_avl c m /\ (-1 <= depth (rebal_frame f t) - m <= 1)%Z.
Proof.
  intros Ht Hc Hn Hs. rewrite frame_size in Hs.
  assert (Hd : (depth t < 130)%Z) by (apply avl_shallow; [done|lia]).
  destruct f as [i kv h o|o i kv h]; cbn [ctx_avl rebal_frame frame_before frame_after length] in *;
    destruct Hc as (Ho & Hno & Hc);
    (assert (depth o < 130)%Z by (apply avl_shallow; [done|rewrite ?length_app in Hs; lia])).
  - destruct (rebal_spec t i kv o) as (A & I & D & D'); try done; try lia.
    split; [done|]. split; [done|]. exists (1 + Z.max n (depth o))%Z. split; [done|lia].
  - destruct (rebal_spec o i kv t) as (A & I & D & D'); try done; try lia.
    split; [done|]. split; [done|]. exists (1 + Z.max n (depth o))%Z. split; [done|lia].
Qed.

(** The whole pass. *)
Lemma fixup_spec c : forall t n,
  avl t -> ctx_avl c n -> (-1 <= depth t - n <= 1)%Z ->
  (Z.of_nat (length (items (plug c t))) < 2 ^ 64)%Z ->
  avl (fixup c t) /\ items (fixup c t) = items (plug c t).
Proof.
  induction c as [|f c IH]; intros t n Ht Hc Hn Hs; cbn [fixup plug] in *; [done|].
  rewrite items_plug_length in Hs.
  destruct (rebal_frame_spec f c t n Ht Hc Hn) as (A & I & m & Hm & Hmd); [lia|].
  destruct (IH _ m A Hm Hmd) as [A' I'].
  - rewrite items_plug_length, I. lia.
  - split; [done|]. by rewrite I', !items_plug, I.
Qed.
End Shape.
Arguments btree : clear implicits.
Arguments frame : clear implicits.
