(* ===== verification/AvlLinks.v ===== *)
(** * The links of the AVL tree

    When the nodes of [avl_tree] spell a tree in a context, and what the pointer
    manipulations of the code do to what they spell: each is matched with its
    counterpart on trees. *)

From stdpp Require Import gmap.
From S2P Require Import Prelude AvlTree AvlShape.

(** ** Separation of node numbers *)

Definition disj (A B : list nat) : Prop := forall x, x ∈ A -> x ∈ B -> False.

Lemma disj_app_l A B C : disj (A ++ B) C <-> disj A C /\ disj B C.
Proof. unfold disj. setoid_rewrite elem_of_app. firstorder. Qed.
Lemma disj_cons_l i B C : disj (i :: B) C <-> i ∉ C /\ disj B C.
Proof. unfold disj. setoid_rewrite elem_of_cons. firstorder (subst; eauto). Qed.
Lemma disj_sym A B : disj A B <-> disj B A.
Proof. unfold disj. firstorder. Qed.
Lemma disj_app_r A B C : disj A (B ++ C) <-> disj A B /\ disj A C.
Proof. by rewrite disj_sym, disj_app_l, !(disj_sym A). Qed.
Lemma disj_cons_r i A B : disj A (i :: B) <-> i ∉ A /\ disj A B.
Proof. by rewrite disj_sym, disj_cons_l, (disj_sym A). Qed.
Lemma NoDup_app_disj A B : NoDup (A ++ B) <-> NoDup A /\ disj A B /\ NoDup B.
Proof. rewrite NoDup_app. unfold disj. firstorder. Qed.

(** Break the hypotheses into facts about single numbers and single trees. *)
Ltac sep_hyps :=
  repeat match goal with
  | H : NoDup (_ :: _) |- _ => apply NoDup_cons in H; destruct H
  | H : NoDup (_ ++ _) |- _ => apply NoDup_app_disj in H; destruct H as (? & ? & ?)
  | H : disj (_ ++ _) _ |- _ => apply disj_app_l in H; destruct H
  | H : disj (_ :: _) _ |- _ => apply disj_cons_l in H; destruct H
  | H : disj _ (_ ++ _) |- _ => apply disj_app_r in H; destruct H
  | H : disj _ (_ :: _) |- _ => apply disj_cons_r in H; destruct H
  | H : _ ∉ _ ++ _ |- _ => apply not_elem_of_app in H; destruct H
  | H : _ ∉ _ :: _ |- _ => apply not_elem_of_cons in H; destruct H
  end.
Ltac sep_atom :=
  first
    [ assumption
    | apply not_elem_of_nil
    | apply NoDup_nil_2
    | congruence
    | match goal with
      | |- ?x <> ?y => intros ->; contradiction
      | H : ?x ∈ ?A, D : disj ?A ?B |- ?x ∉ ?B => intros ?; exact (D x H ltac:(assumption))
      | H : ?x ∈ ?B, D : disj ?A ?B |- ?x ∉ ?A => intros ?; exact (D x ltac:(assumption) H)
      | D : disj ?B ?A |- disj ?A ?B => apply disj_sym; exact D
      | |- ?x ∉ _ => intros ?; subst; contradiction
      end ].
(** Prove that numbers are distinct or not in a tree, from facts so broken up. *)
Ltac sep :=
  repeat match goal with
  | |- _ /\ _ => split
  | |- NoDup (_ :: _) => apply NoDup_cons
  | |- NoDup (_ ++ _) => apply NoDup_app_disj
  | |- disj (_ ++ _) _ => apply disj_app_l
  | |- disj (_ :: _) _ => apply disj_cons_l
  | |- disj _ (_ ++ _) => apply disj_app_r
  | |- disj _ (_ :: _) => apply disj_cons_r
  | |- _ ∉ _ ++ _ => apply not_elem_of_app
  | |- _ ∉ _ :: _ => apply not_elem_of_cons
  end; sep_atom.
Ltac elem_cases :=
  repeat match goal with
  | H : _ ∈ _ :: _ |- _ => apply elem_of_cons in H; destruct H as [->|H]
  | H : _ ∈ _ ++ _ |- _ => apply elem_of_app in H; destruct H as [H|H]
  | H : _ ∈ [] |- _ => apply not_elem_of_nil in H; destruct H
  end.

Section Links.
Context {K V : Type}.
#[local] Abbreviation tree := (btree K V).
#[local] Abbreviation cell := (node K V).
#[local] Abbreviation pool := (gmap nat (node K V)).
#[local] Abbreviation state := (avl_tree K V).

(** [m] holds the nodes of [t], whose root has parent [p]. *)
Fixpoint rep (m : pool) (p : nptr) (t : tree) : Prop :=
  match t with
  | Leaf => True
  | Node l i kv h r =>
      m !! i = Some (mk_node (ptr_of l) (ptr_of r) p h true (Some kv)) /\ rep m (Some i) l /\ rep m (Some i) r
  end.

(** [m] holds the nodes of the context, whose hole holds the pointer [hole]. *)
Fixpoint crep (m : pool) (root : nptr) (c : list (frame K V)) (hole : nptr) : Prop :=
  match c with
  | [] => root = hole
  | Lft i kv h r :: c =>
      m !! i = Some (mk_node hole (ptr_of r) (ctx_ptr c) h true (Some kv))
      /\ rep m (Some i) r /\ crep m root c (Some i)
  | Rgt l i kv h :: c =>
      m !! i = Some (mk_node (ptr_of l) hole (ctx_ptr c) h true (Some kv))
      /\ rep m (Some i) l /\ crep m root c (Some i)
  end.

Fixpoint ids (t : tree) : list nat :=
  match t with Leaf => [] | Node l i _ _ r => i :: ids l ++ ids r end.
Fixpoint cids (c : list (frame K V)) : list nat :=
  match c with
  | [] => []
  | Lft i _ _ o :: c | Rgt o i _ _ :: c => i :: ids o ++ cids c
  end.

(** The state spells [t] in [c]. *)
Definition spells (s : state) (c : list (frame K V)) (t : tree) : Prop :=
  rep (nodes_ s) (ctx_ptr c) t /\ crep (nodes_ s) (root_ s) c (ptr_of t) /\ NoDup (ids t ++ cids c).

(** Two states that agree outside [xs] and on everything but links. *)
Definition touches (xs : list nat) (s s' : state) : Prop :=
  free_head_ s' = free_head_ s /\ size_ s' = size_ s
  /\ (forall k, k ∉ xs -> nodes_ s' !! k = nodes_ s !! k).

Lemma touches_refl xs s : touches xs s s.
Proof. done. Qed.

Lemma touches_trans xs s1 s2 s3 : touches xs s1 s2 -> touches xs s2 s3 -> touches xs s1 s3.
Proof.
  intros (F & S & M) (F' & S' & M'). split; [congruence|]. split; [congruence|].
  intros k Hk. by rewrite M', M.
Qed.

Lemma touches_sub xs ys s s' : xs ⊆ ys -> touches xs s s' -> touches ys s s'.
Proof. intros Hs (F & S & M). split; [done|]. split; [done|]. intros k Hk. apply M. set_solver. Qed.

(** ** Frames *)

Lemma rep_ext m m' t : forall p, (forall k, k ∈ ids t -> m' !! k = m !! k) -> rep m p t -> rep m' p t.
Proof.
  induction t as [|l IHl i kv h r IHr]; intros p E H; cbn [rep ids] in *; [done|].
  destruct H as (Hi & Hl & Hr). split; [rewrite E by set_solver; done|].
  split; [apply IHl|apply IHr]; try done; intros k Hk; apply E; set_solver.
Qed.

Lemma crep_ext m m' root c : forall hole,
  (forall k, k ∈ cids c -> m' !! k = m !! k) -> crep m root c hole -> crep m' root c hole.
Proof.
  induction c as [|[i kv h o|o i kv h] c IH]; intros hole E H; cbn [crep cids] in *; [done| |];
    destruct H as (Hi & Ho & Hc); (split; [rewrite E by set_solver; done|]);
    (split; [eapply rep_ext; [|done]|eapply IH; [|done]]; intros k Hk; apply E; set_solver).
Qed.

Lemma rep_insert m i n p t : i ∉ ids t -> rep m p t -> rep (<[i := n]> m) p t.
Proof. intros Hi. apply rep_ext. intros k Hk. apply lookup_insert_ne. congruence. Qed.

Lemma crep_insert m i n root c hole : i ∉ cids c -> crep m root c hole -> crep (<[i := n]> m) root c hole.
Proof. intros Hi. apply crep_ext. intros k Hk. apply lookup_insert_ne. congruence. Qed.

(** Giving the root of a tree another parent. *)
Definition reparent (p : nptr) (t : tree) (m : pool) : pool :=
  match t with
  | Leaf => m
  | Node l i kv h r => <[i := mk_node (ptr_of l) (ptr_of r) p h true (Some kv)]> m
  end.

Lemma rep_reparent m p p' t : NoDup (ids t) -> rep m p t -> rep (reparent p' t m) p' t.
Proof.
  destruct t as [|l i kv h r]; cbn [ids rep reparent]; [done|].
  rewrite NoDup_cons, elem_of_app. intros [Hi _] (_ & Hl & Hr). split; [apply lookup_insert_eq|].
  split; apply rep_insert; tauto.
Qed.

Lemma reparent_ne p t m k : k ∉ ids t -> reparent p t m !! k = m !! k.
Proof. destruct t; cbn [ids reparent]; [done|]. intros Hk. apply lookup_insert_ne. set_solver. Qed.

Lemma set_parent_rep s p p' t :
  rep (nodes_ s) p t ->
  match ptr_of t with None => Done s | Some _ => set_parent s (ptr_of t) p' end
  = Done (mk_avl (reparent p' t (nodes_ s)) (root_ s) (free_head_ s) (size_ s)).
Proof.
  destruct t as [|l i kv h r]; cbn [rep ptr_of reparent]; [by destruct s|].
  intros (Hi & _). unfold set_parent, modify. by rewrite Hi.
Qed.

(** Assignments to the fields of a node whose contents are known. *)
Lemma set_left_eq (s : state) (i : nat) (v : nptr) (n : cell) :
  nodes_ s !! i = Some n ->
  set_left s (Some i) v = Done (mk_avl (<[i := with_left v n]> (nodes_ s)) (root_ s) (free_head_ s) (size_ s)).
Proof. intros E. unfold set_left, modify. by rewrite E. Qed.
Lemma set_right_eq (s : state) (i : nat) (v : nptr) (n : cell) :
  nodes_ s !! i = Some n ->
  set_right s (Some i) v = Done (mk_avl (<[i := with_right v n]> (nodes_ s)) (root_ s) (free_head_ s) (size_ s)).
Proof. intros E. unfold set_right, modify. by rewrite E. Qed.
Lemma set_parent_eq (s : state) (i : nat) (v : nptr) (n : cell) :
  nodes_ s !! i = Some n ->
  set_parent s (Some i) v = Done (mk_avl (<[i := with_parent v n]> (nodes_ s)) (root_ s) (free_head_ s) (size_ s)).
Proof. intros E. unfold set_parent, modify. by rewrite E. Qed.

(** ** Replacing a child *)

Lemma replace_child_spec s c i new :
  crep (nodes_ s) (root_ s) c (Some i) -> NoDup (i :: cids c) ->
  exists s', replace_child s (ctx_ptr c) (Some i) new = Done s'
    /\ crep (nodes_ s') (root_ s') c new /\ touches (cids c) s s'.
Proof.
  intros Hc Hn. unfold replace_child. destruct c as [|[j kv h o|o j kv h] c]; cbn [ctx_ptr head fmap option_fmap option_map frame_ptr crep cids] in *.
  - eexists. split; [done|]. split; [done|]. by split.
  - destruct Hc as (Hj & Ho & Hc). unfold set_left, modify, deref. rewrite Hj. exec_simpl. cbn [left].
    rewrite bool_decide_true by done. eexists. split; [done|]. cbn [nodes_ root_].
    apply NoDup_cons in Hn as [Hi Hn]. apply NoDup_cons in Hn as [Hj' Hn]. split.
    + split; [apply lookup_insert_eq|]. split; [apply rep_insert|apply crep_insert]; try done; set_solver.
    + split; [done|]. split; [done|]. intros k Hk. apply lookup_insert_ne. set_solver.
  - destruct Hc as (Hj & Ho & Hc). unfold set_right, set_left, modify, deref. rewrite Hj. exec_simpl. cbn [left].
    apply NoDup_cons in Hn as [Hi Hn]. apply NoDup_cons in Hn as [Hj' Hn].
    rewrite bool_decide_false by (destruct o; cbn [ptr_of ids] in *; set_solver).
    eexists. split; [done|]. cbn [nodes_ root_]. split.
    + split; [apply lookup_insert_eq|]. split; [apply rep_insert|apply crep_insert]; try done; set_solver.
    + split; [done|]. split; [done|]. intros k Hk. apply lookup_insert_ne. set_solver.
Qed.

(** ** Heights *)

Lemma height_rep s p t : rep (nodes_ s) p t -> height s (ptr_of t) = Done (stored t).
Proof.
  destruct t as [|l i kv h r]; cbn [rep ptr_of]; [done|]. intros (Hi & _).
  unfold height, deref. by rewrite Hi.
Qed.

Lemma balance_factor_rep s p t :
  rep (nodes_ s) p t -> t <> Leaf -> balance_factor s (ptr_of t) = Done (bal t).
Proof.
  destruct t as [|l i kv h r]; [done|]. cbn [rep ptr_of bal]. intros (Hi & Hl & Hr) _.
  unfold balance_factor, deref. rewrite Hi. exec_simpl. cbn [left right].
  rewrite (height_rep s (Some i) l), (height_rep s (Some i) r) by done. done.
Qed.

Lemma update_height_rep s p l i kv h r :
  rep (nodes_ s) p (Node l i kv h r) -> NoDup (ids (Node l i kv h r)) ->
  exists s', update_height s (Some i) = Done s' /\ rep (nodes_ s') p (mk l i kv r)
    /\ root_ s' = root_ s /\ touches [i] s s'.
Proof.
  cbn [rep ids]. intros (Hi & Hl & Hr) Hn. apply NoDup_cons in Hn as [Hi' _]. rewrite elem_of_app in Hi'.
  unfold update_height, deref, modify. rewrite Hi. exec_simpl. cbn [left right].
  rewrite (height_rep s (Some i) l), (height_rep s (Some i) r) by done. exec_simpl.
  eexists. split; [done|]. cbn [nodes_ root_]. split; [|split; [done|]].
  - unfold mk. cbn [rep]. split; [apply lookup_insert_eq|]. split; apply rep_insert; tauto.
  - split; [done|]. split; [done|]. intros k Hk. apply lookup_insert_ne. set_solver.
Qed.

(** ** Rotations *)

(** The common end of both rotations: the new root [j] is in place above [i], the
    heights are recomputed. *)
Lemma rotation_heights_left s c a i x h b j y h' d :
  spells s c (Node (Node a i x h b) j y h' d) ->
  exists s', (s1 ← update_height s (Some i); update_height s1 (Some j)) = Done s'
    /\ spells s' c (mk (mk a i x b) j y d) /\ touches [i; j] s s'.
Proof.
  intros (Hr & Hc & Hn). cbn [ids] in Hn. sep_hyps. destruct Hr as (Hj' & Hi' & Hd').
  destruct (update_height_rep s (Some j) a i x h b Hi') as (s1 & E1 & R1 & Q1 & F1 & S1 & M1); [cbn [ids]; sep|].
  rewrite E1. exec_simpl.
  assert (R1' : rep (nodes_ s1) (ctx_ptr c) (Node (mk a i x b) j y h' d)).
  { split; [rewrite M1 by sep; exact Hj'|]. split; [done|].
    eapply rep_ext; [|exact Hd']. intros k Hk. apply M1. sep. }
  destruct (update_height_rep s1 (ctx_ptr c) (mk a i x b) j y h' d R1') as (s2 & E2 & R2 & Q2 & F2 & S2 & M2);
    [cbn [ids mk]; sep|].
  rewrite E2. exists s2. split; [done|]. split.
  - split; [exact R2|]. split; [|cbn [ids mk]; sep].
    rewrite Q2, Q1. cbn [ptr_of mk]. eapply crep_ext; [|exact Hc].
    intros k Hk. rewrite M2, M1; [done|sep|sep].
  - split; [congruence|]. split; [congruence|]. intros k Hk. sep_hyps. rewrite M2, M1; [done|sep|sep].
Qed.

Lemma rotation_heights_right s c a i x h b j y h' d :
  spells s c (Node a j y h' (Node b i x h d)) ->
  exists s', (s1 ← update_height s (Some i); update_height s1 (Some j)) = Done s'
    /\ spells s' c (mk a j y (mk b i x d)) /\ touches [i; j] s s'.
Proof.
  intros (Hr & Hc & Hn). cbn [ids] in Hn. sep_hyps. destruct Hr as (Hj' & Hd' & Hi').
  destruct (update_height_rep s (Some j) b i x h d Hi') as (s1 & E1 & R1 & Q1 & F1 & S1 & M1); [cbn [ids]; sep|].
  rewrite E1. exec_simpl.
  assert (R1' : rep (nodes_ s1) (ctx_ptr c) (Node a j y h' (mk b i x d))).
  { split; [rewrite M1 by sep; exact Hj'|]. split; [|done].
    eapply rep_ext; [|exact Hd']. intros k Hk. apply M1. sep. }
  destruct (update_height_rep s1 (ctx_ptr c) a j y h' (mk b i x d) R1') as (s2 & E2 & R2 & Q2 & F2 & S2 & M2);
    [cbn [ids mk]; sep|].
  rewrite E2. exists s2. split; [done|]. split.
  - split; [exact R2|]. split; [|cbn [ids mk]; sep].
    rewrite Q2, Q1. cbn [ptr_of mk]. eapply crep_ext; [|exact Hc].
    intros k Hk. rewrite M2, M1; [done|sep|sep].
  - split; [congruence|]. split; [congruence|]. intros k Hk. sep_hyps. rewrite M2, M1; [done|sep|sep].
Qed.

Lemma rotate_left_rep s c a i x h b j y h' d :
  spells s c (Node a i x h (Node b j y h' d)) ->
  exists s', rotate_left s (Some i) = Done s' /\ spells s' c (mk (mk a i x b) j y d)
    /\ touches (i :: j :: ids b ++ cids c) s s'.
Proof.
  intros (Hr & Hc & Hn). cbn [ids] in Hn. sep_hyps.
  destruct Hr as (Hi & Ha & Hj & Hb & Hd).
  unfold rotate_left, deref. cbn [ptr_of] in *. rewrite Hi. exec_simpl. cbn [right parent]. rewrite Hj. exec_simpl.
  cbn [left parent]. rewrite (set_right_eq s i _ _ Hi). exec_simpl. unfold with_right.
  cbn [left right parent height_ used storage].
  set (s1 := mk_avl (<[i := _]> (nodes_ s)) _ _ _).
  assert (Hb1 : rep (nodes_ s1) (Some j) b) by (apply rep_insert; [sep|done]).
  rewrite (set_parent_rep s1 (Some j) (Some i) b Hb1). exec_simpl.
  set (s2 := mk_avl (reparent (Some i) b (nodes_ s1)) _ _ _).
  assert (E2 : forall k, k <> i -> k ∉ ids b -> nodes_ s2 !! k = nodes_ s !! k).
  { intros k ? ?. cbn [nodes_ s2]. rewrite reparent_ne by done. by apply lookup_insert_ne. }
  rewrite (set_parent_eq s2 j _ _ (eq_trans (E2 j ltac:(sep) ltac:(sep)) Hj)). exec_simpl.
  set (s3 := mk_avl (<[j := _]> (nodes_ s2)) _ _ _).
  assert (E3 : forall k, k <> i -> k <> j -> k ∉ ids b -> nodes_ s3 !! k = nodes_ s !! k).
  { intros k ? ? ?. cbn [nodes_ s3]. rewrite lookup_insert_ne by done. by apply E2. }
  assert (Hc3 : crep (nodes_ s3) (root_ s3) c (Some i)).
  { eapply crep_ext; [|exact Hc]. intros k Hk. apply E3; sep. }
  destruct (replace_child_spec s3 c i (Some j) Hc3) as (s4 & -> & Hc4 & F4 & S4 & M4); [sep|]. exec_simpl.
  assert (Hj4 : nodes_ s4 !! j = Some (mk_node (ptr_of b) (ptr_of d) (ctx_ptr c) h' true (Some y))).
  { rewrite M4 by sep. apply lookup_insert_eq. }
  assert (Hi4 : nodes_ s4 !! i = Some (mk_node (ptr_of a) (ptr_of b) (ctx_ptr c) h true (Some x))).
  { rewrite M4 by sep. cbn [nodes_ s3 s2]. rewrite lookup_insert_ne, reparent_ne by sep. apply lookup_insert_eq. }
  rewrite (set_left_eq s4 j _ _ Hj4). exec_simpl. set (s5 := mk_avl (<[j := _]> (nodes_ s4)) _ _ _).
  assert (Hi5 : nodes_ s5 !! i = nodes_ s4 !! i) by (apply lookup_insert_ne; sep).
  rewrite (set_parent_eq s5 i _ _ (eq_trans Hi5 Hi4)). exec_simpl.
  set (s6 := mk_avl (<[i := _]> (nodes_ s5)) _ _ _).
  assert (S6 : spells s6 c (Node (Node a i x h b) j y h' d)).
  { split; [|split].
    - cbn [rep nodes_ s6 s5 ptr_of]. split; [rewrite lookup_insert_ne by sep; apply lookup_insert_eq|].
      split; [split; [apply lookup_insert_eq|split]|].
      + do 2 (apply rep_insert; [sep|]). eapply rep_ext; [|exact Ha]. intros k Hk. rewrite M4 by sep. apply E3; sep.
      + do 2 (apply rep_insert; [sep|]). eapply rep_ext; [|exact (rep_reparent _ (Some j) (Some i) b ltac:(sep) Hb1)].
        intros k Hk. rewrite M4 by sep. cbn [nodes_ s3]. by rewrite lookup_insert_ne by sep.
      + do 2 (apply rep_insert; [sep|]). eapply rep_ext; [|exact Hd]. intros k Hk. rewrite M4 by sep. apply E3; sep.
    - cbn [nodes_ root_ s6 s5 ptr_of]. do 2 (apply crep_insert; [sep|]). exact Hc4.
    - cbn [ids]. sep. }
  destruct (rotation_heights_left s6 c a i x h b j y h' d S6) as (s8 & E8 & S8 & F8 & Z8 & M8).
  exists s8. split; [exact E8|]. split; [exact S8|]. split; [by rewrite F8|]. split; [by rewrite Z8|].
  intros k Hk. sep_hyps. rewrite M8 by sep. cbn [nodes_ s6 s5]. rewrite !lookup_insert_ne, M4 by sep. by apply E3.
Qed.

Lemma rotate_right_rep s c a i x h b j y h' d :
  spells s c (Node (Node a j y h' b) i x h d) ->
  exists s', rotate_right s (Some i) = Done s' /\ spells s' c (mk a j y (mk b i x d))
    /\ touches (i :: j :: ids b ++ cids c) s s'.
Proof.
  intros (Hr & Hc & Hn). cbn [ids] in Hn. sep_hyps.
  destruct Hr as (Hi & (Hj & Ha & Hb) & Hd).
  unfold rotate_right, deref. cbn [ptr_of] in *. rewrite Hi. exec_simpl. cbn [left parent]. rewrite Hj. exec_simpl.
  cbn [right parent]. rewrite (set_left_eq s i _ _ Hi). exec_simpl. unfold with_left.
  cbn [left right parent height_ used storage].
  set (s1 := mk_avl (<[i := _]> (nodes_ s)) _ _ _).
  assert (Hb1 : rep (nodes_ s1) (Some j) b) by (apply rep_insert; [sep|done]).
  rewrite (set_parent_rep s1 (Some j) (Some i) b Hb1). exec_simpl.
  set (s2 := mk_avl (reparent (Some i) b (nodes_ s1)) _ _ _).
  assert (E2 : forall k, k <> i -> k ∉ ids b -> nodes_ s2 !! k = nodes_ s !! k).
  { intros k ? ?. cbn [nodes_ s2]. rewrite reparent_ne by done. by apply lookup_insert_ne. }
  rewrite (set_parent_eq s2 j _ _ (eq_trans (E2 j ltac:(sep) ltac:(sep)) Hj)). exec_simpl.
  set (s3 := mk_avl (<[j := _]> (nodes_ s2)) _ _ _).
  assert (E3 : forall k, k <> i -> k <> j -> k ∉ ids b -> nodes_ s3 !! k = nodes_ s !! k).
  { intros k ? ? ?. cbn [nodes_ s3]. rewrite lookup_insert_ne by done. by apply E2. }
  assert (Hc3 : crep (nodes_ s3) (root_ s3) c (Some i)).
  { eapply crep_ext; [|exact Hc]. intros k Hk. apply E3; sep. }
  destruct (replace_child_spec s3 c i (Some j) Hc3) as (s4 & -> & Hc4 & F4 & S4 & M4); [sep|]. exec_simpl.
  assert (Hj4 : nodes_ s4 !! j = Some (mk_node (ptr_of a) (ptr_of b) (ctx_ptr c) h' true (Some y))).
  { rewrite M4 by sep. apply lookup_insert_eq. }
  assert (Hi4 : nodes_ s4 !! i = Some (mk_node (ptr_of b) (ptr_of d) (ctx_ptr c) h true (Some x))).
  { rewrite M4 by sep. cbn [nodes_ s3 s2]. rewrite lookup_insert_ne, reparent_ne by sep. apply lookup_insert_eq. }
  rewrite (set_right_eq s4 j _ _ Hj4). exec_simpl. set (s5 := mk_avl (<[j := _]> (nodes_ s4)) _ _ _).
  assert (Hi5 : nodes_ s5 !! i = nodes_ s4 !! i) by (apply lookup_insert_ne; sep).
  rewrite (set_parent_eq s5 i _ _ (eq_trans Hi5 Hi4)). exec_simpl.
  set (s6 := mk_avl (<[i := _]> (nodes_ s5)) _ _ _).
  assert (S6 : spells s6 c (Node a j y h' (Node b i x h d))).
  { split; [|split].
    - cbn [rep nodes_ s6 s5 ptr_of]. split; [rewrite lookup_insert_ne by sep; apply lookup_insert_eq|].
      split; [|split; [apply lookup_insert_eq|split]].
      + do 2 (apply rep_insert; [sep|]). eapply rep_ext; [|exact Ha]. intros k Hk. rewrite M4 by sep. apply E3; sep.
      + do 2 (apply rep_insert; [sep|]). eapply rep_ext; [|exact (rep_reparent _ (Some j) (Some i) b ltac:(sep) Hb1)].
        intros k Hk. rewrite M4 by sep. cbn [nodes_ s3]. by rewrite lookup_insert_ne by sep.
      + do 2 (apply rep_insert; [sep|]). eapply rep_ext; [|exact Hd]. intros k Hk. rewrite M4 by sep. apply E3; sep.
    - cbn [nodes_ root_ s6 s5 ptr_of]. do 2 (apply crep_insert; [sep|]). exact Hc4.
    - cbn [ids]. sep. }
  destruct (rotation_heights_right s6 c a i x h b j y h' d S6) as (s8 & E8 & S8 & F8 & Z8 & M8).
  exists s8. split; [exact E8|]. split; [exact S8|]. split; [by rewrite F8|]. split; [by rewrite Z8|].
  intros k Hk. sep_hyps. rewrite M8 by sep. cbn [nodes_ s6 s5]. rewrite !lookup_insert_ne, M4 by sep. by apply E3.
Qed.

(** ** Moving the focus *)

Lemma spells_left s c l i kv h r : spells s c (Node l i kv h r) <-> spells s (Lft i kv h r :: c) l.
Proof.
  unfold spells. cbn [rep crep ids cids ctx_ptr head fmap option_fmap option_map frame_ptr ptr_of].
  split; intros (H1 & H2 & Hn); sep_hyps; (split; [tauto|split; [tauto|sep]]).
Qed.

Lemma spells_right s c l i kv h r : spells s c (Node l i kv h r) <-> spells s (Rgt l i kv h :: c) r.
Proof.
  unfold spells. cbn [rep crep ids cids ctx_ptr head fmap option_fmap option_map frame_ptr ptr_of].
  split; intros (H1 & H2 & Hn); sep_hyps; (split; [tauto|split; [tauto|sep]]).
Qed.

Lemma spells_fill s f c t : spells s (f :: c) t <-> spells s c (fill f t).
Proof. destruct f; cbn [fill]; [by rewrite spells_left|by rewrite spells_right]. Qed.

Lemma spells_plug s c t : spells s c t <-> spells s [] (plug c t).
Proof. revert t. induction c as [|f c IH]; intros t; cbn [plug]; [done|]. by rewrite spells_fill, IH. Qed.

(** The numbers in a tree and a context. *)
Lemma ids_items t k : k ∈ ids t <-> k ∈ (items t).*1.
Proof.
  induction t as [|l IHl i kv h r IHr]; cbn [ids items]; [done|].
  rewrite fmap_app, elem_of_cons, !elem_of_app, IHl, IHr. cbn [fmap list_fmap fst]. rewrite elem_of_cons. tauto.
Qed.

Lemma cids_items c k : k ∈ cids c <-> k ∈ (before c).*1 ++ (following c).*1.
Proof.
  induction c as [|f c IH]; cbn [cids before following]; [done|].
  rewrite !fmap_app, !elem_of_app. rewrite elem_of_app in IH.
  destruct f; cbn [frame_before frame_after fmap list_fmap fst cids];
    rewrite ?fmap_app, !elem_of_cons, !elem_of_app, !ids_items, IH; cbn [fmap list_fmap fst];
    rewrite ?elem_of_cons, ?elem_of_nil; tauto.
Qed.

(** ** Rebalancing *)

Lemma update_height_spells s c l i kv h r :
  spells s c (Node l i kv h r) ->
  exists s', update_height s (Some i) = Done s' /\ spells s' c (mk l i kv r) /\ touches [i] s s'.
Proof.
  intros (Hr & Hc & Hn). cbn [ids] in Hn. sep_hyps.
  destruct (update_height_rep s (ctx_ptr c) l i kv h r Hr) as (s' & E & R & Q & F & S & M); [cbn [ids]; sep|].
  exists s'. split; [done|]. split; [|done]. split; [done|]. split; [|cbn [ids mk]; sep].
  rewrite Q. eapply crep_ext; [|exact Hc]. intros k Hk. apply M. sep.
Qed.

(** One rotation or two, as the balance of the heavy child asks. *)
Lemma heavy_left_rep s c l i kv h r :
  spells s c (Node l i kv h r) -> avl l -> avl r -> (1 < depth l - depth r)%Z ->
  exists s', (b ← balance_factor s (ptr_of l);
              s ← (if (b <? 0)%Z then rotate_left s (ptr_of l) else Done s);
              rotate_right s (Some i)) = Done s'
    /\ spells s' c (rot_right (mk (if (bal l <? 0)%Z then rot_left l else l) i kv r))
    /\ touches (ids (Node l i kv h r) ++ cids c) s s'
    /\ exists n, nodes_ s' !! i = Some n
         /\ parent n = ptr_of (rot_right (mk (if (bal l <? 0)%Z then rot_left l else l) i kv r)).
Proof.
  intros Hs Hl Hr Hd. pose proof (depth_nonneg r).
  destruct l as [|a j y hj b]; [cbn in Hd; lia|].
  pose proof Hs as (R & _ & _). rewrite (balance_factor_rep s (Some i) (Node a j y hj b)) by (done || apply R).
  exec_simpl. destruct (Z.ltb_spec (bal (Node a j y hj b)) 0) as [Hb|Hb].
  - destruct Hl as (Ha & Hb' & _). cbn [bal] in Hb. rewrite !avl_stored in Hb by done. pose proof (depth_nonneg a).
    destruct b as [|b1 k z hk b2]; [cbn in Hb; lia|]. cbn [ptr_of].
    destruct (rotate_left_rep s (Lft i kv h r :: c) a j y hj b1 k z hk b2) as (s1 & -> & S1 & T1);
      [by rewrite <-spells_left|]. exec_simpl. rewrite <-spells_left in S1.
    destruct (rotate_right_rep s1 c (mk a j y b1) i kv h b2 k z _ r S1) as (s2 & -> & S2 & T2).
    exists s2. split; [done|]. split; [exact S2|]. split.
    + eapply touches_trans; eapply touches_sub; [|exact T1| |exact T2]; intros n Hn; cbn [ids cids mk app] in *;
        rewrite ?elem_of_cons, ?elem_of_app in *; cbn [ids] in *; rewrite ?elem_of_cons, ?elem_of_app in *; tauto.
    + destruct S2 as ((_ & _ & Hi & _) & _). eexists. split; [exact Hi|done].
  - exec_simpl. destruct (rotate_right_rep s c a i kv h b j y hj r Hs) as (s2 & -> & S2 & T2).
    exists s2. split; [done|]. split; [exact S2|]. split.
    + eapply touches_sub; [|exact T2]. intros n Hn. cbn [ids cids app] in *.
      rewrite ?elem_of_cons, ?elem_of_app in *. cbn [ids] in *. rewrite ?elem_of_cons, ?elem_of_app in *. tauto.
    + destruct S2 as ((_ & _ & Hi & _) & _). eexists. split; [exact Hi|done].
Qed.

Lemma heavy_right_rep s c l i kv h r :
  spells s c (Node l i kv h r) -> avl l -> avl r -> (depth l - depth r < -1)%Z ->
  exists s', (b ← balance_factor s (ptr_of r);
              s ← (if (0 <? b)%Z then rotate_right s (ptr_of r) else Done s);
              rotate_left s (Some i)) = Done s'
    /\ spells s' c (rot_left (mk l i kv (if (0 <? bal r)%Z then rot_right r else r)))
    /\ touches (ids (Node l i kv h r) ++ cids c) s s'
    /\ exists n, nodes_ s' !! i = Some n
         /\ parent n = ptr_of (rot_left (mk l i kv (if (0 <? bal r)%Z then rot_right r else r))).
Proof.
  intros Hs Hl Hr Hd. pose proof (depth_nonneg l).
  destruct r as [|b j y hj a]; [cbn in Hd; lia|].
  pose proof Hs as (R & _ & _). rewrite (balance_factor_rep s (Some i) (Node b j y hj a)) by (done || apply R).
  exec_simpl. destruct (Z.ltb_spec 0 (bal (Node b j y hj a))) as [Hb|Hb].
  - destruct Hr as (Hb' & Ha & _). cbn [bal] in Hb. rewrite !avl_stored in Hb by done. pose proof (depth_nonneg a).
    destruct b as [|b1 k z hk b2]; [cbn in Hb; lia|]. cbn [ptr_of].
    destruct (rotate_right_rep s (Rgt l i kv h :: c) b1 j y hj b2 k z hk a) as (s1 & -> & S1 & T1);
      [by rewrite <-spells_right|]. exec_simpl. rewrite <-spells_right in S1.
    destruct (rotate_left_rep s1 c l i kv h b1 k z _ (mk b2 j y a) S1) as (s2 & -> & S2 & T2).
    exists s2. split; [done|]. split; [exact S2|]. split.
    + eapply touches_trans; eapply touches_sub; [|exact T1| |exact T2]; intros n Hn; cbn [ids cids mk app] in *;
        rewrite ?elem_of_cons, ?elem_of_app in *; cbn [ids] in *; rewrite ?elem_of_cons, ?elem_of_app in *; tauto.
    + destruct S2 as ((_ & Hi & _) & _). destruct Hi as (Hi & _). eexists. split; [exact Hi|done].
  - exec_simpl. destruct (rotate_left_rep s c l i kv h b j y hj a Hs) as (s2 & -> & S2 & T2).
    exists s2. split; [done|]. split; [exact S2|]. split.
    + eapply touches_sub; [|exact T2]. intros n Hn. cbn [ids cids app] in *.
      rewrite ?elem_of_cons, ?elem_of_app in *. cbn [ids] in *. rewrite ?elem_of_cons, ?elem_of_app in *. tauto.
    + destruct S2 as ((_ & Hi & _) & _). destruct Hi as (Hi & _). eexists. split; [exact Hi|done].
Qed.

Lemma rebalance_body_rep s c l i kv h r :
  spells s c (Node l i kv h r) -> avl l -> avl r ->
  exists s', rebalance_body (s, Some i)
      = Done (Next (s', if (rebal l i kv r).1 then ptr_of (rebal l i kv r).2 else ctx_ptr c))
    /\ spells s' c (rebal l i kv r).2 /\ touches (ids (Node l i kv h r) ++ cids c) s s'.
Proof.
  intros Hs Hl Hr. unfold rebalance_body.
  destruct (update_height_spells s c l i kv h r Hs) as (s1 & -> & S1 & T1). exec_simpl.
  assert (T1' : touches (ids (Node l i kv h r) ++ cids c) s s1).
  { eapply touches_sub; [|exact T1]. intros n Hn. apply list_elem_of_singleton in Hn as ->. cbn. left. }
  pose proof S1 as (R1 & _ & _). pose proof (balance_factor_rep s1 _ _ R1 ltac:(done)) as B1.
  cbn [ptr_of mk bal] in B1. rewrite B1. exec_simpl. unfold rebal. unfold mk in R1. cbn [rep] in R1.
  destruct R1 as (Hi & Rl & Rr). rewrite !avl_stored by done.
  destruct (Z.ltb_spec 1 (depth l - depth r)) as [H1|H1]; [|destruct (Z.ltb_spec (depth l - depth r) (-1)) as [H2|H2]].
  - destruct (heavy_left_rep s1 c l i kv _ r S1 Hl Hr H1) as (s2 & E2 & S2 & T2 & n & Hn & Hp).
    unfold deref at 2. rewrite Hi. exec_simpl. cbn [left]. rewrite E2. exec_simpl. unfold deref. rewrite Hn. exec_simpl.
    exists s2. cbn [fst snd]. rewrite Hp. split; [done|]. split; [done|]. eapply touches_trans; [exact T1'|exact T2].
  - destruct (heavy_right_rep s1 c l i kv _ r S1 Hl Hr H2) as (s2 & E2 & S2 & T2 & n & Hn & Hp).
    unfold deref at 2. rewrite Hi. exec_simpl. cbn [right]. rewrite E2. exec_simpl. unfold deref. rewrite Hn. exec_simpl.
    exists s2. cbn [fst snd]. rewrite Hp. split; [done|]. split; [done|]. eapply touches_trans; [exact T1'|exact T2].
  - exec_simpl. unfold deref. rewrite Hi. exec_simpl. exists s1. done.
Qed.

Lemma ids_same_items (t t' : tree) : items t = items t' -> forall k, k ∈ ids t <-> k ∈ ids t'.
Proof. intros E k. by rewrite !ids_items, E. Qed.

Lemma rebalance_frame_rep s f c t n :
  spells s (f :: c) t -> avl t -> ctx_avl (f :: c) n ->
  exists b s', rebalance_body (s, ctx_ptr (f :: c))
      = Done (Next (s', if (b : bool) then ptr_of (rebal_frame f t) else ctx_ptr c))
    /\ spells s' c (rebal_frame f t) /\ touches (ids t ++ cids (f :: c)) s s'.
Proof.
  intros Hs Ht Hc. apply spells_fill in Hs.
  destruct f as [i kv h o|o i kv h]; destruct Hc as (Ho & _);
    cbn [fill rebal_frame ctx_ptr head fmap option_fmap option_map frame_ptr] in *.
  - destruct (rebalance_body_rep s c t i kv h o Hs Ht Ho) as (s' & E & S & T).
    eexists _, s'. split; [exact E|]. split; [done|]. eapply touches_sub; [|exact T].
    intros k. cbn [ids cids app]. rewrite !elem_of_cons, !elem_of_app, !elem_of_cons, !elem_of_app. tauto.
  - destruct (rebalance_body_rep s c o i kv h t Hs Ho Ht) as (s' & E & S & T).
    eexists _, s'. split; [exact E|]. split; [done|]. eapply touches_sub; [|exact T].
    intros k. cbn [ids cids app]. rewrite !elem_of_cons, !elem_of_app, !elem_of_cons, !elem_of_app. tauto.
Qed.

(** The pass up a context rebalances what hangs in it. *)
Lemma rebalance_loop_rep c : forall s t n fuel,
  spells s c t -> avl t -> ctx_avl c n -> (-1 <= depth t - n <= 1)%Z ->
  (Z.of_nat (length (items (plug c t))) < 2 ^ 64)%Z -> (2 * length c < fuel)%nat ->
  exists s', while_loop fuel (fun st => Done (bool_decide (st.2 <> None))) rebalance_body (s, ctx_ptr c)
      = Done (Next (s', None))
    /\ spells s' [] (fixup c t) /\ touches (ids t ++ cids c) s s'.
Proof.
  induction c as [|f c IH]; intros s t n [|fuel] Hs Ht Hc Hn Hz Hf; try (cbn in Hf; lia).
  { exists s. by split. }
  cbn [length] in Hf. cbn [plug] in Hz. rewrite items_plug_length in Hz.
  destruct (rebal_frame_spec f c t n Ht Hc Hn) as (A & I & m & Hm & Hmd); [lia|].
  destruct (rebalance_frame_rep s f c t n Hs Ht Hc) as (b & s1 & E1 & S1 & T1).
  assert (Hz' : (Z.of_nat (length (items (plug c (rebal_frame f t)))) < 2 ^ 64)%Z)
    by (rewrite items_plug_length, I; lia).
  assert (Hsub : ids (rebal_frame f t) ++ cids c ⊆ ids t ++ cids (f :: c)).
  { intros k. rewrite elem_of_app, (ids_same_items _ _ I). destruct f; cbn [fill ids cids];
      rewrite !elem_of_cons, !elem_of_app, !elem_of_cons, !elem_of_app; tauto. }
  cbn [while_loop fst snd fixup]. rewrite (bool_decide_true (ctx_ptr (f :: c) <> None)) by done. rewrite E1.
  assert (D : exists fuel' s2, (2 * length c < fuel')%nat
    /\ while_loop fuel (fun st => Done (bool_decide (st.2 <> None))) rebalance_body
         (s1, if b then ptr_of (rebal_frame f t) else ctx_ptr c)
       = while_loop fuel' (fun st => Done (bool_decide (st.2 <> None))) rebalance_body (s2, ctx_ptr c)
    /\ spells s2 c (rebal_frame f t) /\ touches (ids (rebal_frame f t) ++ cids c) s1 s2).
  { destruct b; [|exists fuel, s1; split; [lia|]; done].
    destruct (rebal_frame f t) as [|l i kv h r] eqn:Et.
    - destruct f; cbn [fill items] in I; [|by destruct (items l)]. by destruct (items t).
    - destruct fuel as [|fuel]; [lia|].
      destruct (rebalance_body_rep s1 c l i kv h r S1) as (s2 & E2 & S2 & T2); [apply A|apply A|].
      assert (Hd : (depth (Node l i kv h r) < 130)%Z)
        by (apply avl_shallow; [done|rewrite items_plug_length in Hz'; lia]).
      rewrite (rebal_avl l i kv h r A ltac:(lia)) in E2, S2.
      exists fuel, s2. split; [lia|]. split; [|by split].
      cbn [while_loop ptr_of snd]. rewrite bool_decide_true by done. by rewrite E2. }
  destruct D as (fuel' & s2 & Hf' & -> & S2 & T2).
  destruct (IH s2 (rebal_frame f t) m fuel' S2 A Hm Hmd Hz' Hf') as (s3 & E3 & S3 & T3).
  exists s3. split; [exact E3|]. split; [done|].
  eapply touches_trans; [exact T1|]. eapply touches_trans; eapply touches_sub; [exact Hsub|exact T2|exact Hsub|exact T3].
Qed.
End Links.
