(* ===== verification/AvlSearch.v ===== *)
(** * Searching the AVL tree

    The read-only operations of [avl_tree]: [find_node], the bounds, [minimum]
    and the iterator steps, on any state that spells a tree. *)

From Stdlib Require Import Sorted.
From stdpp Require Import gmap.
From S2P Require Import Prelude AvlTree AvlShape AvlLinks.

(** What the containers ask of [Compare]: a strict weak order. *)
Class StrictWeak {K : Type} (lt : K -> K -> bool) : Prop := {
  lt_irrefl : forall x, lt x x = false;
  lt_trans : forall x y z, lt x y = true -> lt y z = true -> lt x z = true;
  lt_cotrans : forall x y z, lt x y = true -> lt x z = true \/ lt z y = true
}.

#[export] Instance nat_ltb_strict : StrictWeak Nat.ltb.
Proof. split; intros *; rewrite ?Nat.ltb_irrefl, ?Nat.ltb_lt; try done; lia. Qed.

(** The sequence of an in-order walk is its first element, and so on. *)
Definition first_of {A} (l : list (nat * A)) : option nat := fst <$> head l.
Definition last_of {A} (l : list (nat * A)) : option nat := fst <$> list.last l.

Section Search.
Context {K V : Type} (compare_ : K -> K -> bool) `{!StrictWeak compare_} (N : nat).
#[local] Abbreviation tree := (btree K V).
#[local] Abbreviation entry := (nat * (K * V))%type.
#[local] Abbreviation state := (avl_tree K V).

Definition below (k : K) (e : entry) : Prop := compare_ e.2.1 k = true.
Definition above (k : K) (e : entry) : Prop := compare_ k e.2.1 = true.
(** Keys neither of which is less than the other. *)
Definition matches (k : K) (e : entry) : bool := negb (compare_ k e.2.1) && negb (compare_ e.2.1 k).

Definition in_order (l : list entry) : Prop :=
  StronglySorted (fun a b : entry => compare_ a.2.1 b.2.1 = true) l.

(** The entry of a key in an ordered sequence. *)
Definition lookup_entry (k : K) (l : list entry) : option entry := snd <$> list_find (fun e => matches k e = true) l.

Lemma in_order_app l1 l2 :
  in_order (l1 ++ l2) <-> in_order l1 /\ in_order l2
    /\ (forall a b, a ∈ l1 -> b ∈ l2 -> compare_ a.2.1 b.2.1 = true).
Proof.
  unfold in_order. induction l1 as [|x l1 IH]; cbn [app].
  - split; [|tauto]. intros H. split; [constructor|]. split; [done|]. intros a b Ha. by apply not_elem_of_nil in Ha.
  - split.
    + intros H. inversion_clear H as [|? ? Hs Hf]. apply IH in Hs as (H1 & H2 & H3).
      apply Forall_app in Hf as [Hf1 Hf2]. split; [by constructor|]. split; [done|].
      intros a b [->|Ha]%elem_of_cons Hb; [|by apply H3]. rewrite Forall_forall in Hf2. by apply Hf2.
    + intros (H1 & H2 & H3). inversion_clear H1 as [|? ? Hs Hf]. constructor.
      * apply IH. split; [done|]. split; [done|]. intros a b Ha Hb. apply H3; [by right|done].
      * apply Forall_app. split; [done|]. apply Forall_forall. intros b Hb. apply H3; [left|done].
Qed.

Lemma in_order_cons x l : in_order (x :: l) <-> Forall (above x.2.1) l /\ in_order l.
Proof.
  split; [intros H; by inversion_clear H|]. intros [Hf Hl]. by constructor.
Qed.

Lemma below_trans k k' l : compare_ k k' = true -> Forall (below k) l -> Forall (below k') l.
Proof. intros H Hl. eapply Forall_impl; [exact Hl|]. intros e He. by eapply lt_trans. Qed.
Lemma above_trans k k' l : compare_ k' k = true -> Forall (above k) l -> Forall (above k') l.
Proof. intros H Hl. eapply Forall_impl; [exact Hl|]. intros e He. by eapply lt_trans. Qed.

Lemma matches_below k e : below k e -> matches k e = false.
Proof. unfold below, matches. intros ->. apply andb_false_r. Qed.
Lemma matches_above k e : above k e -> matches k e = false.
Proof. unfold above, matches. by intros ->. Qed.

Lemma lookup_entry_none k l :
  Forall (fun e => matches k e = false) l -> lookup_entry k l = None.
Proof.
  intros H. unfold lookup_entry. destruct (list_find _ l) as [[n e]|] eqn:E; [|done].
  apply list_find_Some in E as (E1 & E2 & _). rewrite Forall_lookup in H. rewrite (H n e) in E2 by done. done.
Qed.

Lemma lookup_entry_app k l1 l2 :
  lookup_entry k (l1 ++ l2) = match lookup_entry k l1 with Some x => Some x | None => lookup_entry k l2 end.
Proof.
  unfold lookup_entry. induction l1 as [|y l1 IH]; cbn [app list_find]; [done|].
  destruct (decide (matches k y = true)); [done|]. revert IH.
  by destruct (list_find _ (l1 ++ l2)) as [[]|], (list_find _ l1) as [[]|].
Qed.

Lemma lookup_entry_mid k l1 x l2 :
  Forall (fun e => matches k e = false) l1 ->
  lookup_entry k (l1 ++ x :: l2) = if matches k x then Some x else lookup_entry k l2.
Proof.
  intros H. rewrite lookup_entry_app, lookup_entry_none by done. unfold lookup_entry. cbn [list_find].
  destruct (matches k x) eqn:E; [by rewrite decide_True|]. rewrite decide_False by congruence.
  by destruct (list_find _ l2) as [[]|].
Qed.

(** Keys around an entry: what is before it is below any key not below it. *)
Lemma order_around l1 x l2 k :
  in_order (l1 ++ x :: l2) ->
  (compare_ k x.2.1 = true -> Forall (above k) (x :: l2))
  /\ (compare_ x.2.1 k = true -> Forall (below k) (l1 ++ [x]))
  /\ (compare_ k x.2.1 = false -> Forall (below k) l1)
  /\ (compare_ x.2.1 k = false -> Forall (above k) l2).
Proof.
  intros H. apply in_order_app in H as (H1 & H2 & H3). apply in_order_cons in H2 as [H2 H4].
  assert (Hx : Forall (below x.2.1) l1).
  { apply Forall_forall. intros a Ha. apply H3; [done|left]. }
  split_and!.
  - intros E. constructor; [done|]. by eapply above_trans.
  - intros E. apply Forall_app. split; [by eapply below_trans|]. by repeat constructor.
  - intros E. eapply Forall_impl; [exact Hx|]. intros a Ha. unfold below in *.
    destruct (lt_cotrans _ _ k Ha) as [?|?]; [done|congruence].
  - intros E. eapply Forall_impl; [exact H2|]. intros a Ha. unfold above in *.
    destruct (lt_cotrans _ _ k Ha) as [?|?]; [congruence|done].
Qed.

(** ** Reading nodes *)

Lemma spells_deref (s : state) c (l : tree) i kv h r :
  spells s c (Node l i kv h r) ->
  deref s (Some i) = Done (mk_node (ptr_of l) (ptr_of r) (ctx_ptr c) h true (Some kv))
  /\ value s (Some i) = Done kv.
Proof. intros ((Hi & _) & _). unfold value, deref. rewrite Hi. done. Qed.

(** ** [find_node] and the way down of [emplace_value] *)

Fixpoint search (k : K) (t : tree) : option nat :=
  match t with
  | Leaf => None
  | Node l i kv _ r =>
      if compare_ k kv.1 then search k l else if compare_ kv.1 k then search k r else Some i
  end.

Lemma search_lookup k t :
  in_order (items t) -> search k t = fst <$> lookup_entry k (items t).
Proof.
  induction t as [|l IHl i kv h r IHr]; intros Ho; cbn [search items] in *; [done|].
  destruct (order_around _ _ _ k Ho) as (O1 & O2 & O3 & O4). cbn [snd] in *.
  apply in_order_app in Ho as (Hl & Hr & _). apply in_order_cons in Hr as [_ Hr].
  assert (M : forall l', Forall (below k) l' -> Forall (fun e => matches k e = false) l').
  { intros l' Hl'. eapply Forall_impl; [exact Hl'|]. apply matches_below. }
  assert (M' : forall l', Forall (above k) l' -> Forall (fun e => matches k e = false) l').
  { intros l' Hl'. eapply Forall_impl; [exact Hl'|]. apply matches_above. }
  destruct (compare_ k kv.1) eqn:E1; [|destruct (compare_ kv.1 k) eqn:E2].
  - rewrite IHl, lookup_entry_app by done. f_equal.
    rewrite (lookup_entry_none k ((i, kv) :: items r)) by (by apply M', O1).
    by destruct (lookup_entry k (items l)).
  - rewrite IHr by done. rewrite lookup_entry_mid.
    + replace (matches k (i, kv)) with false; [done|]. unfold matches. cbn [snd]. by rewrite E1, E2.
    + apply M, O3. done.
  - rewrite lookup_entry_mid by (apply M, O3; done).
    replace (matches k (i, kv)) with true; [done|]. unfold matches. cbn [snd]. by rewrite E1, E2.
Qed.

Lemma find_loop k (s : state) (t : tree) : forall c fuel,
  spells s c t -> (depth t < Z.of_nat fuel)%Z ->
  while_loop fuel (fun p => Done (bool_decide (p <> None))) (find_body compare_ s k) (ptr_of t)
  = match search k t with Some i => Done (Return (Some i)) | None => Done (Next None) end.
Proof.
  induction t as [|l IHl i kv h r IHr]; intros c [|fuel] Hs Hf; try (cbn [depth] in Hf; pose proof (depth_nonneg l); lia); [by cbn in Hf|done|].
  cbn [while_loop ptr_of search]. rewrite bool_decide_true by done. unfold find_body at 1.
  destruct (spells_deref _ _ _ _ _ _ _ Hs) as [-> ->]. exec_simpl. cbn [left right].
  cbn [depth] in Hf. destruct (compare_ k kv.1); [|destruct (compare_ kv.1 k); [|done]].
  - apply (IHl (Lft i kv h r :: c)); [by rewrite <-spells_left|lia].
  - apply (IHr (Rgt l i kv h :: c)); [by rewrite <-spells_right|lia].
Qed.

Lemma find_node_spec k (s : state) (t : tree) :
  spells s [] t -> in_order (items t) -> (length (items t) <= N)%nat ->
  find_node compare_ N s k = Done (fst <$> lookup_entry k (items t)).
Proof.
  intros Hs Ho Hn. unfold find_node. pose proof Hs as (_ & Hr & _). cbn [crep] in Hr. rewrite Hr.
  pose proof (depth_items t). rewrite (find_loop k s t []) by (done || unfold fuel; lia). rewrite <-search_lookup by done.
  by destruct (search k t).
Qed.

(** The context of the leaf a descent ends in that turns left at the keys [gl]
    holds of. *)
Fixpoint locate (gl : K -> bool) (t : tree) (c : list (frame K V)) : list (frame K V) :=
  match t with
  | Leaf => c
  | Node l i kv h r =>
      if gl kv.1 then locate gl l (Lft i kv h r :: c) else locate gl r (Rgt l i kv h :: c)
  end.
Definition at_left (c : list (frame K V)) : bool :=
  match c with Lft _ _ _ _ :: _ => true | _ => false end.

Lemma locate_plug gl t : forall c, plug (locate gl t c) Leaf = plug c t.
Proof.
  induction t as [|l IHl i kv h r IHr]; intros c; cbn [locate]; [done|].
  destruct (gl kv.1); [rewrite IHl|rewrite IHr]; done.
Qed.

(** A descent that turns left at all keys from some point on splits the entries
    there. *)
Lemma locate_order gl t : forall c,
  (forall a b, compare_ a b = true -> gl a = true -> gl b = true) ->
  in_order (items (plug c t)) ->
  Forall (fun e => gl e.2.1 = false) (before c) -> Forall (fun e => gl e.2.1 = true) (following c) ->
  Forall (fun e => gl e.2.1 = false) (before (locate gl t c))
  /\ Forall (fun e => gl e.2.1 = true) (following (locate gl t c)).
Proof.
  induction t as [|l IHl i kv h r IHr]; intros c Hg Ho Hb Ha; cbn [locate] in *; [done|].
  assert (Ot : in_order (items l ++ (i, kv) :: items r)).
  { rewrite items_plug in Ho. apply in_order_app in Ho as (_ & O & _). by apply in_order_app in O as (O & _). }
  apply in_order_app in Ot as (_ & Ot & Ol). apply in_order_cons in Ot as [Or _]. cbn [snd] in *.
  destruct (gl kv.1) eqn:E.
  - apply IHl; cbn [plug fill before following frame_before frame_after]; try done.
    + by rewrite app_nil_r.
    + apply Forall_app. split; [|done]. constructor; [done|]. eapply Forall_impl; [exact Or|].
      intros e He. by apply (Hg kv.1).
  - apply IHr; cbn [plug fill before following frame_before frame_after]; try done.
    apply Forall_app. split; [done|]. apply Forall_app. split; [|by repeat constructor].
    apply Forall_forall. intros e He. destruct (gl e.2.1) eqn:E'; [|done].
    rewrite <-E. symmetry. apply (Hg e.2.1); [|done]. apply (Ol e (i, kv)); [done|left].
Qed.

(** Where [emplace_value] puts a key that is not there. *)
Lemma locate_key k t :
  in_order (items t) -> lookup_entry k (items t) = None ->
  let c := locate (compare_ k) t [] in
  items t = before c ++ following c /\ Forall (below k) (before c) /\ Forall (above k) (following c).
Proof.
  intros Ho Hk. cbv zeta. set (c := locate (compare_ k) t []).
  destruct (locate_order (compare_ k) t []) as [Hb Ha];
    [intros a b Hab Ha; by eapply lt_trans|done|constructor|constructor|].
  assert (E : items t = before c ++ following c).
  { change t with (plug [] t). rewrite <-(locate_plug (compare_ k) t []), items_plug. done. }
  split; [done|]. split; [|exact Ha]. apply Forall_forall. intros e He. rewrite Forall_forall in Hb.
  unfold lookup_entry in Hk. destruct (list_find _ _) as [[]|] eqn:F; [done|]. apply list_find_None in F.
  rewrite Forall_forall in F. specialize (F e). rewrite E, elem_of_app in F. specialize (F (or_introl He)).
  unfold matches in F. rewrite (Hb e He) in F. unfold below. by destruct (compare_ e.2.1 k).
Qed.

Lemma emplace_loop k (s : state) (t : tree) : forall c b fuel,
  spells s c t -> (length (items t) < fuel)%nat ->
  while_loop fuel (fun st => Done (bool_decide (st.1.1 <> None))) (emplace_body compare_ s k) (ptr_of t, ctx_ptr c, b)
  = match search k t with
    | Some _ => Done (Return Status.s_already_exists)
    | None => Done (Next (None, ctx_ptr (locate (compare_ k) t c),
                          match t with Leaf => b | _ => at_left (locate (compare_ k) t c) end))
    end.
Proof.
  induction t as [|l IHl i kv h r IHr]; intros c b [|fuel] Hs Hf; try lia; [done|].
  cbn [while_loop ptr_of search locate fst]. rewrite bool_decide_true by done. unfold emplace_body at 1.
  destruct (spells_deref _ _ _ _ _ _ _ Hs) as [-> ->]. exec_simpl. cbn [left right].
  cbn [items] in Hf. rewrite length_app in Hf. cbn [length] in Hf.
  destruct (compare_ k kv.1); [|destruct (compare_ kv.1 k); [|done]].
  - change (Some i) with (ctx_ptr (Lft i kv h r :: c)). rewrite IHl; [|by rewrite <-spells_left|lia].
    destruct (search k l); [done|]. by destruct l.
  - change (Some i) with (ctx_ptr (Rgt l i kv h :: c)). rewrite IHr; [|by rewrite <-spells_right|lia].
    destruct (search k r); [done|]. by destruct r.
Qed.

(** ** [lower_bound] and [upper_bound] *)

Lemma bound_loop g (s : state) t : forall c fuel,
  spells s c t -> (length (items t) < fuel)%nat ->
  while_loop fuel (fun st => Done (bool_decide (st.1 <> None))) (bound_body g s) (ptr_of t, first_of (following c))
  = Done (Next (None, first_of (following (locate (fun k => negb (g k)) t c)))).
Proof.
  induction t as [|l IHl i kv h r IHr]; intros c [|fuel] Hs Hf; try lia; [done|].
  cbn [while_loop ptr_of locate fst]. rewrite bool_decide_true by done. unfold bound_body at 1.
  destruct (spells_deref _ _ _ _ _ _ _ Hs) as [-> ->]. exec_simpl. cbn [left right].
  cbn [items] in Hf. rewrite length_app in Hf. cbn [length] in Hf.
  destruct (g kv.1); cbn [negb].
  - change (first_of (following c)) with (first_of (following (Rgt l i kv h :: c))).
    apply IHr; [by rewrite <-spells_right|lia].
  - change (Some i) with (first_of (following (Lft i kv h r :: c))).
    apply IHl; [by rewrite <-spells_left|lia].
Qed.

Lemma bound_spec g (s : state) t :
  spells s [] t -> in_order (items t) -> (length (items t) <= N)%nat ->
  (forall a b, compare_ a b = true -> g b = true -> g a = true) ->
  bound N g s = Done (fst ∘ snd <$> list_find (fun e : entry => g e.2.1 = false) (items t)).
Proof.
  intros Hs Ho Hn Hg. unfold bound. pose proof Hs as (_ & Hr & _). cbn [crep] in Hr. rewrite Hr.
  pose proof (bound_loop g s t [] (fuel N) Hs) as L. change (first_of (following [])) with (@None nat) in L.
  rewrite L by (unfold fuel; lia). cbn [after snd]. f_equal.
  set (c := locate _ t []).
  destruct (locate_order (fun k => negb (g k)) t []) as [Hb Ha]; [|done|constructor|constructor|].
  { intros a b Hab. rewrite !negb_true_iff. intros Ha. destruct (g b) eqn:E; [|done]. by rewrite (Hg a b) in Ha. }
  assert (E : items t = before c ++ following c).
  { change t with (plug [] t). rewrite <-(locate_plug (fun k => negb (g k)) t []), items_plug. done. }
  rewrite E. fold c in Hb, Ha. revert Hb Ha. generalize (before c), (following c). intros l1 l2 H1 H2.
  induction H1 as [|x l1 Hx _ IH]; cbn [app list_find].
  - destruct l2 as [|y l2]; [done|]. cbn [list_find]. apply Forall_cons in H2 as [Hy _].
    by rewrite decide_True by (by destruct (g y.2.1)).
  - rewrite decide_False by (by destruct (g x.2.1)). rewrite IH. by destruct (list_find _ (l1 ++ l2)) as [[]|].
Qed.

(** ** Iterators *)

(** Every entry of a tree sits in a context. *)
Lemma item_context i (kv : K * V) t : (i, kv) ∈ items t ->
  exists c l h r, t = plug c (Node l i kv h r).
Proof.
  induction t as [|l IHl j x h r IHr]; cbn [items]; [by intros ?%not_elem_of_nil|].
  rewrite elem_of_app, elem_of_cons. intros [H|[[= -> ->]|H]].
  - destruct (IHl H) as (c & l' & h' & r' & ->). exists (c ++ [Lft j x h r]), l', h', r'. by rewrite plug_app.
  - by exists [], l, h, r.
  - destruct (IHr H) as (c & l' & h' & r' & ->). exists (c ++ [Rgt l j x h]), l', h', r'. by rewrite plug_app.
Qed.

(** The leftmost node: all frames above it turn left. *)
Lemma leftmost (t : tree) : t <> Leaf ->
  exists c j y h r, t = plug c (Node Leaf j y h r) /\ before c = []
    /\ Forall (fun f => exists i kv h o, f = Lft i kv h o) c.
Proof.
  induction t as [|l IHl j x h r _]; [done|]. intros _. destruct l as [|a b d e f].
  - by exists [], j, x, h, r.
  - destruct IHl as (c & j' & y & h' & r' & E & B & F); [done|].
    exists (c ++ [Lft j x h r]), j', y, h', r'. split; [|split].
    + rewrite plug_app, <-E. done.
    + clear -B. assert (forall c' : list (frame K V), before (c ++ c') = before c' ++ before c) as ->.
      { induction c as [|f c IH]; intros c'; cbn [app before]; [by rewrite app_nil_r|].
        cbn [before] in B. apply app_eq_nil in B as [B _]. by rewrite (IH B), app_assoc. }
      by rewrite B.
    + apply Forall_app. split; [done|]. repeat constructor. by repeat eexists.
Qed.

Lemma descend_left_spec (s : state) t : forall c f,
  spells s c t -> t <> Leaf -> (length (items t) <= f)%nat ->
  after (while_loop (S f) (fun p => n ← deref s p; Done (bool_decide (left n <> None)))
           (fun p => n ← deref s p; Done (Next (left n))) (ptr_of t)) (fun p => Done p)
  = Done (first_of (items t)).
Proof.
  induction t as [|l IHl i kv h r _]; intros c f Hs Hne Hf; [done|].
  cbn [while_loop ptr_of items]. destruct (spells_deref _ _ _ _ _ _ _ Hs) as [E _]. rewrite !E. exec_simpl. cbn [left].
  cbn [items] in Hf. rewrite length_app in Hf. cbn [length] in Hf.
  destruct l as [|a j y hj b]; cbn [ptr_of];
    [by rewrite bool_decide_false by (intros H; by apply H)|]. rewrite bool_decide_true by done.
  destruct f as [|f]; [lia|]. change (Some j) with (ptr_of (Node a j y hj b)).
  rewrite (IHl (Lft i kv h r :: c)); [|by rewrite <-spells_left|done|lia].
  unfold first_of. destruct (items (Node a j y hj b)) as [|e es] eqn:E'; [|done].
  cbn [items] in E'. by destruct (items a).
Qed.

Lemma minimum_spec (s : state) c t :
  spells s c t -> (length (items t) <= N)%nat -> minimum N s (ptr_of t) = Done (first_of (items t)).
Proof.
  intros Hs Hn. unfold minimum, descend. destruct t as [|l i kv h r] eqn:Et; [done|].
  cbn [ptr_of]. change (Some i) with (ptr_of (Node l i kv h r)). unfold fuel. by eapply descend_left_spec.
Qed.

Lemma descend_right_spec (s : state) t : forall c f,
  spells s c t -> t <> Leaf -> (length (items t) <= f)%nat ->
  after (while_loop (S f) (fun p => n ← deref s p; Done (bool_decide (right n <> None)))
           (fun p => n ← deref s p; Done (Next (right n))) (ptr_of t)) (fun p => Done p)
  = Done (last_of (items t)).
Proof.
  induction t as [|l _ i kv h r IHr]; intros c f Hs Hne Hf; [done|].
  cbn [while_loop ptr_of items]. destruct (spells_deref _ _ _ _ _ _ _ Hs) as [E _]. rewrite !E. exec_simpl. cbn [right].
  cbn [items] in Hf. rewrite length_app in Hf. cbn [length] in Hf.
  destruct r as [|a j y hj b]; cbn [ptr_of].
  { rewrite bool_decide_false by (intros H; by apply H). unfold last_of. cbn [after items]. by rewrite last_snoc. }
  rewrite bool_decide_true by done.
  destruct f as [|f]; [lia|]. change (Some j) with (ptr_of (Node a j y hj b)).
  rewrite (IHr (Rgt l i kv h :: c)); [|by rewrite <-spells_right|done|lia].
  unfold last_of. rewrite last_app_cons, (last_cons (i, kv)).
  cbn [items]. by rewrite last_app_cons, last_cons; destruct (list.last (items b)).
Qed.

Lemma context_length (c : list (frame K V)) : (length c <= length (before c) + length (following c))%nat.
Proof.
  induction c as [|f c IH]; cbn [length before following]; [lia|]. rewrite !length_app.
  destruct f; cbn [frame_before frame_after length]; rewrite ?length_app; cbn [length]; lia.
Qed.

(** Climbing stops at the first ancestor entered from the other side. *)
Lemma climb_right_spec (s : state) c : forall t f,
  spells s c t -> t <> Leaf -> (length c < f)%nat ->
  after (while_loop f
    (fun '(it, par) => match par with
                       | None => Done false
                       | Some _ => n ← deref s par; Done (bool_decide (it = right n))
                       end)
    (fun '(_, par) => n ← deref s par; Done (Next (par, parent n)))
    (ptr_of t, ctx_ptr c)) (fun st => Done st.2) = Done (first_of (following c)).
Proof.
  induction c as [|fr c IH]; intros t [|f] Hs Ht Hf; try (cbn in Hf; lia); [done|].
  cbn [length] in Hf. pose proof Hs as Hs'. apply spells_fill in Hs. pose proof Hs' as (_ & _ & Hn).
  destruct fr as [i kv h o|l i kv h]; cbn [fill cids] in Hs, Hn; destruct (spells_deref _ _ _ _ _ _ _ Hs) as [E _];
    cbn [while_loop ctx_ptr head fmap option_fmap option_map frame_ptr]; rewrite !E; exec_simpl; cbn [right parent].
  - rewrite bool_decide_false; [done|]. destruct t as [|a j y hj b]; [done|]. destruct o as [|a' j' y' hj' b']; [done|].
    cbn [ptr_of]. cbn [ids] in Hn. sep_hyps. congruence.
  - rewrite bool_decide_true by done. change (Some i) with (ptr_of (Node l i kv h t)). rewrite IH; [done|done|done|lia].
Qed.

Lemma climb_left_spec (s : state) c : forall t f,
  spells s c t -> t <> Leaf -> (length c < f)%nat ->
  after (while_loop f
    (fun '(it, par) => match par with
                       | None => Done false
                       | Some _ => n ← deref s par; Done (bool_decide (it = left n))
                       end)
    (fun '(_, par) => n ← deref s par; Done (Next (par, parent n)))
    (ptr_of t, ctx_ptr c)) (fun st => Done st.2) = Done (last_of (before c)).
Proof.
  induction c as [|fr c IH]; intros t [|f] Hs Ht Hf; try (cbn in Hf; lia); [done|].
  cbn [length] in Hf. pose proof Hs as Hs'. apply spells_fill in Hs. pose proof Hs' as (_ & _ & Hn).
  destruct fr as [i kv h o|l i kv h]; cbn [fill cids] in Hs, Hn; destruct (spells_deref _ _ _ _ _ _ _ Hs) as [E _];
    cbn [while_loop ctx_ptr head fmap option_fmap option_map frame_ptr]; rewrite !E; exec_simpl; cbn [left parent].
  - rewrite bool_decide_true by done. change (Some i) with (ptr_of (Node t i kv h o)). rewrite IH; [|done|done|lia].
    cbn [before frame_before]. by rewrite app_nil_r.
  - rewrite bool_decide_false.
    + cbn [before frame_before after snd]. unfold last_of. by rewrite app_assoc, last_snoc.
    + destruct t as [|a j y hj b]; [done|]. destruct l as [|a' j' y' hj' b']; [done|].
      cbn [ptr_of]. cbn [ids] in Hn. sep_hyps. congruence.
Qed.

(** Splitting at an entry is unambiguous: node numbers are distinct. *)
Lemma split_unique (l1 l2 l1' l2' : list entry) e :
  NoDup ((l1 ++ e :: l2).*1) -> l1 ++ e :: l2 = l1' ++ e :: l2' -> l1 = l1' /\ l2 = l2'.
Proof.
  revert l1'. induction l1 as [|x l1 IH]; intros [|x' l1'] Hn E; cbn [app fmap list_fmap] in *.
  - by injection E.
  - injection E as <- E. apply NoDup_cons in Hn as [Hn _]. destruct Hn. rewrite E, fmap_app, elem_of_app. right. left.
  - injection E as -> E. apply NoDup_cons in Hn as [Hn _]. destruct Hn. rewrite fmap_app, elem_of_app. right. left.
  - injection E as <- E. apply NoDup_cons in Hn as [_ Hn]. destruct (IH l1' Hn E) as [-> ->]. done.
Qed.

Lemma spells_distinct (s : state) t : spells s [] t -> NoDup ((items t).*1).
Proof.
  intros (_ & _ & Hn). rewrite app_nil_r in Hn. eapply NoDup_Permutation_proper; [|exact Hn].
  clear. induction t as [|l IHl i kv h r IHr]; cbn [ids items]; [done|].
  rewrite fmap_app. cbn [fmap list_fmap fst]. change (list_fmap _ _ fst (items r)) with ((items r).*1).
  rewrite IHl, IHr. by rewrite Permutation_middle.
Qed.

Lemma successor_spec (s : state) t l1 i kv l2 :
  spells s [] t -> (length (items t) <= N)%nat -> items t = l1 ++ (i, kv) :: l2 ->
  successor N s (Some i) = Done (first_of l2) /\ predecessor N s (Some i) = Done (last_of l1).
Proof.
  intros Hs Hn E. assert (Hin : (i, kv) ∈ items t) by (rewrite E, elem_of_app; right; left).
  destruct (item_context i kv t Hin) as (c & l & h & r & Et).
  assert (E' : items t = (before c ++ items l) ++ (i, kv) :: (items r ++ following c)).
  { rewrite Et, items_plug. cbn [items]. by rewrite <-!app_assoc. }
  pose proof (spells_distinct s t Hs) as Hd. rewrite E in Hd.
  destruct (split_unique l1 l2 (before c ++ items l) (items r ++ following c) (i, kv) Hd) as [-> ->]; [by rewrite <-E|].
  rewrite E', !length_app in Hn. cbn [length] in Hn. rewrite length_app in Hn.
  rewrite Et, <-spells_plug in Hs. destruct (spells_deref _ _ _ _ _ _ _ Hs) as [D _].
  pose proof (context_length c). unfold successor, predecessor. rewrite !D. exec_simpl. cbn [left right]. split.
  - destruct r as [|a j y hj b].
    + rewrite bool_decide_false by (intros H'; by apply H'). unfold climb. rewrite D. exec_simpl. cbn [parent].
      change (Some i) with (ptr_of (Node l i kv h Leaf)). apply climb_right_spec; [done|done|unfold fuel; lia].
    + rewrite bool_decide_true by done. unfold descend, fuel.
      rewrite (descend_left_spec s (Node a j y hj b) (Rgt l i kv h :: c)); [|by rewrite <-spells_right|done|lia].
      unfold first_of. cbn [items]. by destruct (items a).
  - destruct l as [|a j y hj b].
    + rewrite bool_decide_false by (intros H'; by apply H'). unfold climb. rewrite D. exec_simpl. cbn [parent items].
      rewrite app_nil_r. change (Some i) with (ptr_of (Node Leaf i kv h r)).
      apply climb_left_spec; [done|done|unfold fuel; lia].
    + rewrite bool_decide_true by done. unfold descend, fuel.
      rewrite (descend_right_spec s (Node a j y hj b) (Lft i kv h r :: c)); [|by rewrite <-spells_left|done|lia].
      unfold last_of. cbn [items]. by rewrite app_assoc, !last_app_cons.
Qed.
End Search.
