(* ===== verification/AvlMap.v ===== *)
(** * The AVL tree as an ordered map

    The representation invariant of [avl_tree], its preservation by the
    modifiers, and the correctness theorems of the container.  The abstract value
    is the sequence of (node, entry) pairs in key order: that insertions and
    erasures leave the other pairs alone also says that iterators to other
    elements stay valid. *)

From Stdlib Require Import Sorted.
From stdpp Require Import gmap.
From S2P Require Import Prelude Status AvlTree AvlShape AvlLinks AvlSearch.

Section Invariant.
Context {K V : Type} (compare_ : K -> K -> bool) `{!StrictWeak compare_} (N : nat).
Context (HN : (Z.of_nat N < 2 ^ 64)%Z).
#[local] Abbreviation tree := (btree K V).
#[local] Abbreviation entry := (nat * (K * V))%type.
#[local] Abbreviation state := (avl_tree K V).
#[local] Abbreviation pool := (gmap nat (node K V)).

(** The free list. *)
Fixpoint frep (m : pool) (p : nptr) (fl : list nat) : Prop :=
  match fl with
  | [] => p = None
  | i :: fl => p = Some i /\ exists next, m !! i = Some (mk_node next None None 0 false None) /\ frep m next fl
  end.

Lemma frep_ext m m' fl : forall p, (forall k, k ∈ fl -> m' !! k = m !! k) -> frep m p fl -> frep m' p fl.
Proof.
  induction fl as [|i fl IH]; intros p E; cbn [frep]; [done|]. intros (-> & next & Hi & Hf).
  split; [done|]. exists next. split; [by rewrite E by left|]. apply IH; [|done]. intros k Hk. apply E. by right.
Qed.

(** Every node of the pool is in the tree or in the free list, and in one place. *)
Definition valid (s : state) (t : tree) (fl : list nat) : Prop :=
  spells s [] t /\ avl t /\ frep (nodes_ s) (free_head_ s) fl /\ NoDup (ids t ++ fl)
  /\ (length (items t) + length fl = N)%nat /\ size_ s = length (items t).

(** The container holds exactly the entries [l], in this order. *)
Definition represents (s : state) (l : list entry) : Prop :=
  exists t fl, valid s t fl /\ items t = l /\ in_order compare_ l.

(** ** Construction *)

Lemma pool_loop : exists s, initialise_pool N (mk_avl (gset_to_gmap (node_new (K:=K) (V:=V)) (set_seq 0 N)) None None 0) = Done s
  /\ frep (nodes_ s) (free_head_ s) (seq 0 N) /\ root_ s = None /\ size_ s = 0%nat.
Proof.
  unfold initialise_pool. cbn [nodes_ root_ size_].
  destruct (for_range_inv (R := unit) (fun i (s : state) =>
    frep (nodes_ s) (free_head_ s) (seq (N - i) i) /\ root_ s = None /\ size_ s = 0%nat
    /\ forall k, (k < N)%nat -> exists n, nodes_ s !! k = Some n /\ storage n = None)
    (pool_body N) 0 N (mk_avl (gset_to_gmap node_new (set_seq 0 N)) None None 0)) as (s & -> & Hf & Hr & Hs & _).
  - cbn [seq frep nodes_ free_head_ root_ size_]. split_and!; try done.
    intros k Hk. exists node_new. split; [|done]. apply lookup_gset_to_gmap_Some. split; [|done].
    apply elem_of_set_seq. lia.
  - intros i s Hi (Hf & Hr & Hs & Hk). destruct (Hk (N - 1 - i)%nat) as (n & Hn & Hst); [lia|].
    unfold pool_body, modify. rewrite Hn. exec_simpl. eexists. split; [done|]. cbn [nodes_ free_head_ root_ size_].
    replace (seq (N - S i) (S i)) with ((N - 1 - i)%nat :: seq (N - i) i).
    2: { cbn [seq]. replace (N - S i)%nat with (N - 1 - i)%nat by lia. f_equal. f_equal. lia. }
    split_and!; try done.
    + split; [done|]. exists (free_head_ s). unfold pool_node. rewrite Hst. split; [apply lookup_insert_eq|].
      eapply frep_ext; [|exact Hf]. intros k [? ?]%elem_of_seq. apply lookup_insert_ne. lia.
    + intros k Hlt. destruct (decide (k = N - 1 - i)%nat) as [->|Hne].
      * rewrite lookup_insert_eq. eexists. split; [done|]. cbn. done.
      * rewrite lookup_insert_ne by done. by apply Hk.
  - exists s. split; [done|]. rewrite Nat.add_0_l, Nat.sub_diag in Hf. done.
Qed.

Lemma represents_new : exists s, avl_new N = Done s /\ represents s [].
Proof.
  destruct pool_loop as (s & E & Hf & Hr & Hs). exists s. split; [exact E|]. exists Leaf, (seq 0 N).
  split; [|by split; [|constructor]]. split; [|split_and!; try done].
  - split; [done|]. split; [by rewrite Hr|constructor].
  - apply NoDup_seq.
  - cbn. by rewrite length_seq.
Qed.

(** ** Insertion *)

Lemma link_hole (s : state) c new :
  crep (nodes_ s) (root_ s) c None -> NoDup (cids c) ->
  exists s', (match ctx_ptr c with
              | None => Done (set_root s new)
              | Some _ => if at_left c then set_left s (ctx_ptr c) new else set_right s (ctx_ptr c) new
              end) = Done s'
    /\ crep (nodes_ s') (root_ s') c new /\ touches (cids c) s s'.
Proof.
  intros Hc Hn. destruct c as [|[j kv h o|o j kv h] c];
    cbn [ctx_ptr head fmap option_fmap option_map frame_ptr crep cids at_left] in *.
  - eexists. split; [done|]. split; [done|]. by split.
  - destruct Hc as (Hj & Ho & Hc). sep_hyps. rewrite (set_left_eq s j _ _ Hj). eexists. split; [done|].
    cbn [nodes_ root_]. split.
    + split; [apply lookup_insert_eq|]. split; [apply rep_insert|apply crep_insert]; done || sep.
    + split; [done|]. split; [done|]. intros k Hk. sep_hyps. apply lookup_insert_ne. sep.
  - destruct Hc as (Hj & Ho & Hc). sep_hyps. rewrite (set_right_eq s j _ _ Hj). eexists. split; [done|].
    cbn [nodes_ root_]. split.
    + split; [apply lookup_insert_eq|]. split; [apply rep_insert|apply crep_insert]; done || sep.
    + split; [done|]. split; [done|]. intros k Hk. sep_hyps. apply lookup_insert_ne. sep.
Qed.

Lemma allocate_spec (s : state) i fl :
  frep (nodes_ s) (free_head_ s) (i :: fl) -> NoDup (i :: fl) ->
  exists s', allocate_node s = Done (Some i, s')
    /\ nodes_ s' = <[i := mk_node None None None 1 true None]> (nodes_ s)
    /\ root_ s' = root_ s /\ size_ s' = size_ s /\ frep (nodes_ s') (free_head_ s') fl.
Proof.
  intros (E & next & Hi & Hf) Hn. unfold allocate_node, deref, modify. rewrite E, Hi. exec_simpl. cbn [nodes_]. rewrite Hi.
  exec_simpl. eexists. split; [done|]. cbn [nodes_ root_ size_ free_head_ left storage]. split_and!; try done.
  eapply frep_ext; [|exact Hf]. intros k Hk. apply NoDup_cons in Hn as [Hn _]. apply lookup_insert_ne. congruence.
Qed.

Lemma ids_length (t : tree) : length (ids t) = length (items t).
Proof. induction t as [|l IHl i kv h r IHr]; cbn [ids items length]; [done|]. rewrite !length_app. cbn [length]. lia. Qed.

Lemma ids_plug c : forall t : tree, ids (plug c t) ≡ₚ ids t ++ cids c.
Proof.
  induction c as [|f c IH]; intros t; cbn [plug cids]; [by rewrite app_nil_r|].
  rewrite IH. destruct f as [i kv h o|o i kv h]; cbn [fill ids]; solve_Permutation.
Qed.

Lemma cids_app (c c' : list (frame K V)) : cids (c ++ c') = cids c ++ cids c'.
Proof.
  induction c as [|[i kv h o|o i kv h] c IH]; cbn [app cids]; [done| |]; by rewrite IH, <-app_assoc.
Qed.

(** The rebalancing pass re-establishes the invariant. *)
Lemma rebalance_valid (s : state) c (t : tree) n fl :
  spells s c t -> avl t -> ctx_avl c n -> (-1 <= depth t - n <= 1)%Z ->
  frep (nodes_ s) (free_head_ s) fl -> NoDup ((ids t ++ cids c) ++ fl) ->
  (length (items (plug c t)) + length fl = N)%nat -> size_ s = length (items (plug c t)) ->
  exists s' t', rebalance N s (ctx_ptr c) = Done s' /\ valid s' t' fl /\ items t' = items (plug c t).
Proof.
  intros Hs Ht Hc Hd Hf Hn Hl Hz. assert (Hz64 : (Z.of_nat (length (items (plug c t))) < 2 ^ 64)%Z) by lia.
  pose proof (context_length c). pose proof (items_plug_length c t).
  destruct (rebalance_loop_rep c s t n (S (fuel N + fuel N)) Hs Ht Hc Hd Hz64) as (s' & E & S' & F & Z & M);
    [unfold fuel; lia|].
  destruct (fixup_spec c t n Ht Hc Hd Hz64) as [A I].
  exists s', (fixup c t). unfold rebalance. rewrite E. split; [done|]. split; [|done].
  split; [done|]. split; [done|]. split.
  { rewrite F. eapply frep_ext; [|exact Hf]. intros k Hk. apply M. intros Hin.
    apply NoDup_app_disj in Hn as (_ & D & _). exact (D k Hin Hk). }
  split; [|rewrite I, Z; done].
  pose proof S' as (_ & _ & N'). rewrite app_nil_r in N'. apply NoDup_app_disj in Hn as (_ & D & Nf).
  apply NoDup_app_disj. split; [done|]. split; [|done]. intros k Hk. apply D.
  rewrite (ids_same_items _ _ I), ids_plug in Hk. done.
Qed.

Lemma avl_leaf_node i kv : avl (Node Leaf i kv 1 Leaf : tree).
Proof. repeat split; cbn; lia. Qed.

(** Putting a new node in the hole a descent ended in. *)
Lemma insert_at (s : state) c k v i fl :
  spells s c (Leaf : tree) -> ctx_avl c 0 -> frep (nodes_ s) (free_head_ s) (i :: fl) ->
  NoDup (cids c ++ i :: fl) -> (length (before c) + length (following c) + S (length fl) = N)%nat ->
  size_ s = (length (before c) + length (following c))%nat ->
  exists s' t',
    (a ← allocate_node s;
     match a.1 with
     | None => Done (s_full, a.2)
     | Some _ =>
         s ← construct_value a.2 a.1 (k, v);
         s ← set_parent s a.1 (ctx_ptr c);
         s ← (match ctx_ptr c with
              | None => Done (set_root s a.1)
              | Some _ => if at_left c then set_left s (ctx_ptr c) a.1 else set_right s (ctx_ptr c) a.1
              end);
         s ← rebalance N (mk_avl (nodes_ s) (root_ s) (free_head_ s) (size_ s + 1)) (ctx_ptr c);
         Done (s_ok, s)
     end) = Done (s_ok, s')
    /\ valid s' t' fl /\ items t' = before c ++ (i, (k, v)) :: following c.
Proof.
  intros (_ & Hc & _) Ha Hf Hn Hl Hz. sep_hyps.
  destruct (allocate_spec s i fl Hf) as (s1 & -> & M1 & R1 & Z1 & F1); [by constructor|]. exec_simpl. cbn [fst snd].
  unfold construct_value, modify. rewrite M1, lookup_insert_eq. exec_simpl. cbn [left right parent height_ used].
  set (s2 := mk_avl (<[i := _]> _) _ _ _).
  rewrite (set_parent_eq s2 i (ctx_ptr c) _ (lookup_insert_eq _ i _)). exec_simpl.
  set (s3 := mk_avl (<[i := _]> _) _ _ _). unfold with_parent in s3. cbn [left right height_ used storage] in s3.
  assert (E3 : forall k', k' <> i -> nodes_ s3 !! k' = nodes_ s !! k').
  { intros k' Hk. cbn [nodes_ s3 s2]. by rewrite !lookup_insert_ne by done. }
  assert (Hc3 : crep (nodes_ s3) (root_ s3) c None).
  { cbn [root_ s3 s2]. rewrite R1. eapply crep_ext; [|exact Hc]. intros k' Hk. apply E3. sep. }
  destruct (link_hole s3 c (Some i) Hc3) as (s4 & -> & Hc4 & F4 & Z4 & M4); [sep|]. exec_simpl.
  set (s5 := mk_avl (nodes_ s4) _ _ _).
  assert (Hit : items (plug c (Node Leaf i (k, v) 1 Leaf)) = before c ++ (i, (k, v)) :: following c)
    by (rewrite items_plug; done).
  destruct (rebalance_valid s5 c (Node Leaf i (k, v) 1 Leaf) 0 fl) as (s' & t' & -> & Hv & I).
  - split; [|split; [exact Hc4|cbn [ids app]; sep]]. cbn [rep nodes_ s5]. split; [|done].
    rewrite M4 by sep. apply lookup_insert_eq.
  - apply avl_leaf_node.
  - done.
  - cbn. lia.
  - cbn [nodes_ free_head_ s5]. rewrite F4. eapply frep_ext; [|exact F1].
    intros k' Hk. assert (k' <> i) by sep. rewrite M4, E3, M1, lookup_insert_ne by (done || sep). done.
  - cbn [ids app]. sep.
  - rewrite Hit, length_app. cbn [length]. lia.
  - rewrite Hit, length_app. cbn [size_ s5 length]. rewrite Z4. cbn [size_ s3 s2]. lia.
  - exec_simpl. exists s', t'. split; [done|]. split; [exact Hv|]. by rewrite I.
Qed.

(** [emplace_value] on every branch. *)
Lemma emplace_value_spec (s : state) l k v :
  represents s l ->
  match lookup_entry compare_ k l with
  | Some _ => emplace_value compare_ N s k v = Done (s_already_exists, s)
  | None =>
      if decide (length l < N)%nat then
        exists s' l1 l2 i, emplace_value compare_ N s k v = Done (s_ok, s')
          /\ l = l1 ++ l2 /\ represents s' (l1 ++ (i, (k, v)) :: l2) /\ i ∉ l.*1
      else emplace_value compare_ N s k v = Done (s_full, s)
  end.
Proof.
  intros (t & fl & (Hs & Ha & Hf & Hn & Hl & Hz) & <- & Ho). unfold emplace_value.
  pose proof Hs as (_ & Hroot & _). cbn [crep] in Hroot. rewrite Hroot.
  pose proof (emplace_loop compare_ k s t [] false (fuel N) Hs) as L.
  change (ctx_ptr []) with (@None nat) in L at 1. rewrite L by (unfold fuel; lia).
  pose proof (search_lookup compare_ k t Ho) as Hsl.
  destruct (lookup_entry compare_ k (items t)) as [e|] eqn:Ek; cbn [fmap option_fmap option_map] in Hsl; rewrite Hsl; [done|].
  destruct (locate_key compare_ k t Ho Ek) as (Ei & Hb & Haf). set (c := locate (compare_ k) t []) in *.
  assert (Hat : (match t with Leaf => false | _ => at_left c end) = at_left c) by (by destruct t).
  rewrite Hat. pose proof (locate_plug (compare_ k) t [] : plug c Leaf = t) as Hp.
  assert (Hsc : spells s c Leaf) by (by rewrite spells_plug, Hp).
  assert (Hca : ctx_avl c 0). { rewrite <-Hp in Ha. by apply avl_plug in Ha as [_ Ha]. }
  pose proof (f_equal length Ei) as El. rewrite length_app in El.
  destruct fl as [|i fl].
  - rewrite decide_False by (cbn [length] in Hl; lia). unfold allocate_node. cbn [frep] in Hf. rewrite Hf. done.
  - cbn [length] in Hl. rewrite decide_True by lia.
    assert (Hn' : NoDup (cids c ++ i :: fl)).
    { rewrite <-Hp in Hn. rewrite ids_plug in Hn. exact Hn. }
    destruct (insert_at s c k v i fl Hsc Hca Hf Hn') as (s' & t' & E & Hv & I); [lia|lia|].
    exists s', (before c), (following c), i. split; [exact E|]. split; [done|]. split.
    + exists t', fl. split; [done|]. split; [done|]. rewrite Ei in Ho. apply in_order_app in Ho as (O1 & O2 & O3).
      apply in_order_app. split; [done|]. split; [by apply in_order_cons|].
      intros a b Hain [->|Hbin]%elem_of_cons; [|by apply O3]. rewrite Forall_forall in Hb. by apply Hb.
    + rewrite <-ids_items. intros Hin. apply NoDup_app_disj in Hn as (_ & D & _). apply (D i Hin). left.
Qed.

(** ** Erasure *)

Lemma transplant_spec (s : state) c i n (t0 : tree) p :
  nodes_ s !! i = Some n -> parent n = ctx_ptr c -> crep (nodes_ s) (root_ s) c (Some i) ->
  rep (nodes_ s) p t0 -> NoDup (i :: ids t0 ++ cids c) ->
  exists s', transplant s (Some i) (ptr_of t0) = Done s'
    /\ crep (nodes_ s') (root_ s') c (ptr_of t0) /\ rep (nodes_ s') (ctx_ptr c) t0
    /\ nodes_ s' !! i = Some n /\ touches (ids t0 ++ cids c) s s'.
Proof.
  intros Hi Hp Hc Ht Hn. sep_hyps. unfold transplant, deref. rewrite Hi. exec_simpl. rewrite Hp.
  destruct (replace_child_spec s c i (ptr_of t0) Hc) as (s1 & -> & Hc1 & F1 & Z1 & M1); [sep|]. exec_simpl.
  assert (Ht1 : rep (nodes_ s1) p t0) by (eapply rep_ext; [|exact Ht]; intros k Hk; apply M1; sep).
  assert (E : (match ptr_of t0 with
               | None => Done s1
               | Some _ => o ← (match nodes_ s1 !! i with Some n => Done n | None => Undefined end);
                           set_parent s1 (ptr_of t0) (parent o)
               end) = match ptr_of t0 with None => Done s1 | Some _ => set_parent s1 (ptr_of t0) (ctx_ptr c) end).
  { rewrite M1, Hi by sep. exec_simpl. by rewrite Hp. }
  rewrite E, (set_parent_rep s1 p (ctx_ptr c) t0 Ht1). eexists. split; [done|]. cbn [nodes_ root_].
  split_and!.
  - eapply crep_ext; [|exact Hc1]. intros k Hk. apply reparent_ne. sep.
  - by apply (rep_reparent _ p).
  - rewrite reparent_ne, M1 by sep. done.
  - split; [done|]. split; [done|]. intros k Hk. sep_hyps. cbn [nodes_]. rewrite reparent_ne, M1 by sep. done.
Qed.

Lemma release_spec (s : state) i l r p h u kv :
  nodes_ s !! i = Some (mk_node l r p h u (Some kv)) ->
  exists s', release_node s (Some i) = Done s'
    /\ nodes_ s' = <[i := mk_node (free_head_ s) None None 0 false None]> (nodes_ s)
    /\ root_ s' = root_ s /\ free_head_ s' = Some i /\ size_ s' = (size_ s - 1)%nat.
Proof.
  intros Hi. unfold release_node, destroy_value, deref, modify. rewrite Hi. exec_simpl. cbn [storage].
  exec_simpl. cbn [nodes_]. rewrite lookup_insert_eq. exec_simpl. eexists. split; [done|].
  cbn [nodes_ root_ free_head_ size_ storage]. rewrite insert_insert_eq. split; [done|]. split; [done|]. split; [done|].
  destruct (Nat.ltb_spec 0 (size_ s)); lia.
Qed.

(** A tree from which the node [i] has been unlinked, after its release. *)
Lemma released_valid (s : state) c (t : tree) i fl n :
  spells s c t -> avl t -> ctx_avl c n -> (-1 <= depth t - n <= 1)%Z ->
  (exists l r p h u kv, nodes_ s !! i = Some (mk_node l r p h u (Some kv))) ->
  frep (nodes_ s) (free_head_ s) fl -> NoDup ((ids t ++ cids c) ++ i :: fl) ->
  (S (length (items (plug c t))) + length fl = N)%nat -> size_ s = S (length (items (plug c t))) ->
  exists s1 s' t', release_node s (Some i) = Done s1 /\ rebalance N s1 (ctx_ptr c) = Done s'
    /\ spells s1 c t /\ valid s' t' (i :: fl) /\ items t' = items (plug c t).
Proof.
  intros (Hr & Hc & Hn') Ht Hca Hd (l & r & p & h & u & kv & Hi) Hf Hn Hl Hz.
  destruct (release_spec s i _ _ _ _ _ _ Hi) as (s1 & E1 & M1 & R1 & F1 & Z1). exists s1. sep_hyps.
  assert (S1 : spells s1 c t).
  { split; [rewrite M1; apply rep_insert; [sep|done]|]. split; [rewrite M1, R1; apply crep_insert; [sep|done]|sep]. }
  destruct (rebalance_valid s1 c t n (i :: fl)) as (s' & t' & E & Hv & I); try done.
  - rewrite F1, M1. cbn [frep]. split; [done|]. exists (free_head_ s). split; [apply lookup_insert_eq|].
    eapply frep_ext; [|exact Hf]. intros k Hk. apply lookup_insert_ne. sep.
  - sep.
  - cbn [length]. lia.
  - lia.
  - exists s', t'. done.
Qed.

Lemma spells_plug_app (s : state) c c' (t : tree) : spells s (c ++ c') t <-> spells s c' (plug c t).
Proof. revert t. induction c as [|f c IH]; intros t; cbn [app plug]; [done|]. by rewrite spells_fill, IH. Qed.

Lemma deref_eq (s : state) i n : nodes_ s !! i = Some n -> deref s (Some i) = Done n.
Proof. intros E. unfold deref. by rewrite E. Qed.

Lemma set_parent_tree (s : state) p p' (t : tree) :
  t <> Leaf -> rep (nodes_ s) p t ->
  set_parent s (ptr_of t) p' = Done (mk_avl (reparent p' t (nodes_ s)) (root_ s) (free_head_ s) (size_ s)).
Proof. intros Ht Hr. pose proof (set_parent_rep s p p' t Hr) as E. by destruct t. Qed.

(** The successor [j], unlinked, takes the place of [i]. *)
Lemma take_place_spec (s : state) c l i kv h j y p' h' (r : tree) pl pr :
  l <> Leaf ->
  nodes_ s !! i = Some (mk_node (ptr_of l) pr (ctx_ptr c) h true (Some kv)) ->
  nodes_ s !! j = Some (mk_node pl (ptr_of r) p' h' true (Some y)) ->
  crep (nodes_ s) (root_ s) c (Some i) -> rep (nodes_ s) (Some i) l -> rep (nodes_ s) (Some j) r ->
  NoDup (i :: j :: ids l ++ ids r ++ cids c) ->
  exists s', take_place s (Some i) (Some j) = Done s' /\ spells s' c (mk l j y r)
    /\ (exists l r p h u kv, nodes_ s' !! i = Some (mk_node l r p h u (Some kv)))
    /\ touches (j :: ids l ++ cids c) s s'.
Proof.
  intros Hne Hi Hj Hc Hl Hr Hn. sep_hyps. unfold take_place, transplant. rewrite (deref_eq s i _ Hi). exec_simpl. cbn [parent].
  destruct (replace_child_spec s c i (Some j) Hc) as (s1 & -> & Hc1 & F1 & Z1 & M1); [sep|]. exec_simpl.
  assert (Hi1 : nodes_ s1 !! i = nodes_ s !! i) by (apply M1; sep).
  assert (Hj1 : nodes_ s1 !! j = nodes_ s !! j) by (apply M1; sep).
  rewrite (deref_eq s1 i _ (eq_trans Hi1 Hi)). exec_simpl. cbn [parent]. rewrite (set_parent_eq s1 j _ _ (eq_trans Hj1 Hj)). exec_simpl.
  set (s2 := mk_avl (<[j := _]> (nodes_ s1)) _ _ _). unfold with_parent in s2. cbn [left right height_ used storage] in s2.
  assert (Hi2 : nodes_ s2 !! i = Some (mk_node (ptr_of l) pr (ctx_ptr c) h true (Some kv))).
  { cbn [nodes_ s2]. rewrite lookup_insert_ne, Hi1 by sep. done. }
  rewrite (deref_eq s2 i _ Hi2). exec_simpl. cbn [left]. rewrite (set_left_eq s2 j _ _ (lookup_insert_eq _ j _)). exec_simpl.
  set (s3 := mk_avl (<[j := _]> (nodes_ s2)) _ _ _). unfold with_left in s3. cbn [right parent height_ used storage] in s3.
  rewrite (deref_eq s3 j _ (lookup_insert_eq _ j _)). exec_simpl. cbn [left].
  assert (E3 : forall k, k <> j -> k ∉ cids c -> nodes_ s3 !! k = nodes_ s !! k).
  { intros k ? ?. cbn [nodes_ s3 s2]. rewrite !lookup_insert_ne, M1 by done. done. }
  assert (Hl3 : rep (nodes_ s3) (Some i) l).
  { eapply rep_ext; [|exact Hl]. intros k Hk. apply E3; sep. }
  rewrite (set_parent_tree s3 (Some i) (Some j) l Hne Hl3). exec_simpl. set (s4 := mk_avl (reparent (Some j) l (nodes_ s3)) _ _ _).
  assert (E4 : forall k, k ∉ ids l -> nodes_ s4 !! k = nodes_ s3 !! k) by (intros; by apply reparent_ne).
  assert (S4 : spells s4 c (Node l j y h' r)).
  { split; [|split].
    - cbn [rep]. split; [rewrite E4 by sep; apply lookup_insert_eq|]. split.
      + apply (rep_reparent _ (Some i)); [sep|done].
      + eapply rep_ext; [|exact Hr]. intros k Hk. rewrite E4, E3 by sep. done.
    - eapply crep_ext; [|exact Hc1]. intros k Hk. rewrite E4 by sep. cbn [nodes_ s3 s2].
      by rewrite !lookup_insert_ne by sep.
    - cbn [ids]. sep. }
  destruct (update_height_spells s4 c l j y h' r S4) as (s5 & E5 & S5 & F5 & Z5 & M5). exists s5.
  split; [exact E5|]. split; [exact S5|]. split.
  - do 6 eexists. rewrite M5, E4, E3 by sep. exact Hi.
  - split; [by rewrite F5|]. split; [by rewrite Z5|]. intros k Hk. sep_hyps. rewrite M5, E4, E3 by sep. done.
Qed.

(** Taking the leftmost node [j] of the right subtree out of the tree. *)
Lemma unlink_successor_spec (s : state) c l i kv h cl j y hj (rr : tree) :
  spells s c (Node l i kv h (plug cl (Node Leaf j y hj rr))) ->
  Forall (fun f => exists i kv h o, f = Lft i kv h o) cl ->
  exists s' p', unlink_successor s (Some i) (Some j)
      = Done (s', ctx_ptr (cl ++ Rgt l j y hj :: c))
    /\ nodes_ s' !! i = Some (mk_node (ptr_of l) (match cl with [] => Some j | _ => ptr_of (plug cl rr) end) (ctx_ptr c) h true (Some kv))
    /\ nodes_ s' !! j = Some (mk_node None (ptr_of (plug cl rr)) p' hj true (Some y))
    /\ crep (nodes_ s') (root_ s') c (Some i) /\ rep (nodes_ s') (Some i) l /\ rep (nodes_ s') (Some j) (plug cl rr)
    /\ NoDup (i :: j :: ids l ++ ids (plug cl rr) ++ cids c)
    /\ touches (j :: ids (plug cl rr) ++ i :: ids l ++ cids c) s s'.
Proof.
  intros Hs Hcl. set (C := cl ++ Rgt l i kv h :: c).
  assert (HsC : spells s C (Node Leaf j y hj rr)) by (unfold C; by rewrite spells_plug_app, <-spells_right).
  assert (Hnd : NoDup (i :: j :: ids l ++ ids (plug cl rr) ++ cids c)).
  { destruct Hs as (_ & _ & Hn). cbn [ids] in Hn. rewrite ids_plug in Hn. rewrite ids_plug. cbn [ids app] in Hn.
    eapply NoDup_Permutation_proper; [|exact Hn]. solve_Permutation. }
  destruct (spells_deref _ _ _ _ _ _ _ HsC) as [Dj _]. unfold unlink_successor. rewrite Dj. exec_simpl. cbn [parent right].
  destruct cl as [|f cl].
  - rewrite bool_decide_false by (intros H; by apply H). cbn [app plug] in *.
    destruct Hs as ((Hi & Hl & Hj & _ & Hr) & Hc & _). exists s, (Some i). split_and!; done.
  - apply Forall_cons in Hcl as [(fi & fkv & fh & fo & ->) Hcl].
    pose proof HsC as (RC & HC & HnC). cbn [C app ctx_ptr head fmap option_fmap option_map frame_ptr].
    assert (HidC : cids C = (fi :: ids fo ++ cids cl) ++ i :: ids l ++ cids c).
    { unfold C. rewrite cids_app. done. }
    rewrite HidC in HnC. cbn [ids] in HnC. sep_hyps. rewrite bool_decide_true by congruence.
    set (r' := plug (Lft fi fkv fh fo :: cl) rr) in *.
    assert (Hr' : r' <> Leaf).
    { intros E. apply (f_equal ids) in E. cbn [r' plug ids] in E. apply (f_equal length) in E.
      rewrite (Permutation_length (ids_plug cl _)), length_app in E. cbn in E. lia. }
    destruct RC as (Hj & _ & Hrr).
    destruct (transplant_spec s C j _ rr (Some j) Hj eq_refl HC Hrr) as (s1 & -> & HC1 & Hrr1 & Hj1 & F1 & Z1 & M1).
    { rewrite HidC. sep. }
    exec_simpl.
    assert (S1 : spells s1 c (Node l i kv h r')).
    { rewrite spells_right. unfold r'. rewrite <-spells_plug_app. split; [exact Hrr1|]. split; [exact HC1|].
      change (NoDup (ids rr ++ cids C)). rewrite HidC. sep. }
    pose proof S1 as ((Hi1 & Hl1 & Hr1) & Hc1 & _). rewrite (deref_eq s1 i _ Hi1). exec_simpl. cbn [right].
    rewrite (set_right_eq s1 j _ _ Hj1). exec_simpl. set (s2 := mk_avl (<[j := _]> (nodes_ s1)) _ _ _).
    unfold with_right in s2. cbn [left parent height_ used storage ptr_of] in s2.
    rewrite (deref_eq s2 j _ (lookup_insert_eq _ j _)). exec_simpl. cbn [right].
    sep_hyps. assert (Hr2 : rep (nodes_ s2) (Some i) r') by (apply rep_insert; [sep|done]).
    rewrite (set_parent_tree s2 (Some i) (Some j) r' Hr' Hr2). exec_simpl.
    set (s3 := mk_avl (reparent (Some j) r' (nodes_ s2)) _ _ _).
    assert (E3 : forall k, k <> j -> k ∉ ids r' -> nodes_ s3 !! k = nodes_ s1 !! k).
    { intros k ? ?. cbn [nodes_ s3]. rewrite reparent_ne by done. by apply lookup_insert_ne. }
    exists s3, (ctx_ptr C). split; [done|]. split_and!.
    + rewrite E3 by sep. exact Hi1.
    + cbn [nodes_ s3]. rewrite reparent_ne by sep. apply lookup_insert_eq.
    + eapply crep_ext; [|exact Hc1]. intros k Hk. apply E3; sep.
    + eapply rep_ext; [|exact Hl1]. intros k Hk. apply E3; sep.
    + apply (rep_reparent _ (Some i)); [sep|done].
    + sep.
    + split; [done|]. split; [done|]. intros k Hk. sep_hyps. rewrite E3 by sep. apply M1. rewrite HidC.
      assert (Hk' : k ∉ ids r') by done. unfold r' in Hk'. rewrite ids_plug in Hk'. cbn [cids] in Hk'. sep_hyps. sep.
Qed.

Lemma ptr_of_None (t : tree) : ptr_of t = None <-> t = Leaf.
Proof. by destruct t. Qed.

(** The only child of an erased node takes its place. *)
Lemma erase_single_spec (s : state) t fl c l i kv h r t0 :
  valid s t fl -> t = plug c (Node l i kv h r) ->
  (l = Leaf /\ t0 = r \/ r = Leaf /\ t0 = l) ->
  exists s1 s2 s' t', transplant s (Some i) (ptr_of t0) = Done s1 /\ release_node s1 (Some i) = Done s2
    /\ rebalance N s2 (if bool_decide (ctx_ptr c <> None) then ctx_ptr c else ptr_of t0) = Done s'
    /\ valid s' t' (i :: fl) /\ items t' = before c ++ items t0 ++ following c.
Proof.
  intros (Hs & Ha & Hf & Hn & Hl & Hz) -> H0. rewrite <-spells_plug in Hs.
  apply avl_plug in Ha as [(Hal & Har & Hab & _) Hca]. rewrite items_plug_length in Hl, Hz. cbn [items] in Hl, Hz.
  rewrite length_app in Hl, Hz. cbn [length] in Hl, Hz.
  assert (Ht0 : rep (nodes_ s) (Some i) t0 /\ avl t0 /\ length (items t0) = (length (items l) + length (items r))%nat
    /\ depth (Node l i kv h r) = (1 + depth t0)%Z /\ (forall k, k ∈ ids t0 -> k ∈ ids (Node l i kv h r))
    /\ (forall L, NoDup (ids (Node l i kv h r) ++ L) -> NoDup (i :: ids t0 ++ L))).
  { destruct Hs as ((_ & Rl & Rr) & _). pose proof (depth_nonneg t0).
    destruct H0 as [[-> ->]|[-> ->]]; cbn [items length depth ids app] in *;
      rewrite ?app_nil_r; split_and!; try done; try lia; intros k Hk; rewrite ?elem_of_cons; tauto. }
  destruct Ht0 as (Rt & At & Lt & Dt & _ & Nt).
  pose proof Hs as ((Hi & _) & Hc & HnC). apply Nt in HnC.
  rewrite (ids_plug c), <-app_assoc in Hn. apply Nt in Hn. rewrite app_assoc in Hn.
  destruct (transplant_spec s c i _ t0 (Some i) Hi eq_refl Hc Rt HnC) as (s1 & E1 & C1 & R1 & I1 & F1 & Z1 & M1).
  assert (S1 : spells s1 c t0) by (split; [done|split; [done|by apply NoDup_cons in HnC as [_ HnC]]]).
  assert (Hfr : frep (nodes_ s1) (free_head_ s1) fl).
  { rewrite F1. eapply frep_ext; [|exact Hf]. intros k Hk. apply M1. sep_hyps. sep. }
  assert (Hn1 : NoDup ((ids t0 ++ cids c) ++ i :: fl)) by (sep_hyps; sep).
  exists s1.
  assert (Hfin : forall c' t1 n, ctx_avl c' n -> (-1 <= depth t1 - n <= 1)%Z -> avl t1 ->
    plug c' t1 = plug c t0 -> spells s1 c' t1 -> NoDup ((ids t1 ++ cids c') ++ i :: fl) ->
    exists s2 s' t', transplant s (Some i) (ptr_of t0) = Done s1 /\ release_node s1 (Some i) = Done s2
      /\ rebalance N s2 (ctx_ptr c') = Done s' /\ valid s' t' (i :: fl) /\ items t' = before c ++ items t0 ++ following c).
  { intros c' t1 n Hca' Hd' Ht1 Ep Hs1 Hn1'.
    destruct (released_valid s1 c' t1 i fl n Hs1 Ht1 Hca' Hd') as (s2 & s' & t' & E2 & E3 & _ & Hv & I); try done.
    - by do 6 eexists.
    - rewrite Ep, items_plug_length. lia.
    - rewrite Ep, items_plug_length. lia.
    - exists s2, s', t'. split_and!; try done. by rewrite I, Ep, items_plug. }
  destruct (ctx_ptr c) as [k|] eqn:Ec.
  - rewrite bool_decide_true by done. rewrite <-Ec. apply (Hfin c t0 (depth (Node l i kv h r))); try done. lia.
  - rewrite bool_decide_false by (intros H; by apply H). destruct c as [|f c]; [|done].
    destruct t0 as [|a k x hk b].
    + apply (Hfin [] Leaf 0%Z); done.
    + destruct At as (Aa & Ab & Aab & _). change (ptr_of (Node a k x hk b)) with (ctx_ptr [Lft k x hk b]).
      apply (Hfin [Lft k x hk b] a (depth a)); try done; try lia.
      * by rewrite <-spells_left.
      * cbn [cids ids] in *. rewrite app_nil_r in *. sep_hyps. sep.
Qed.

(** The successor takes the place of an erased node with two children. *)
Lemma erase_double_spec (s : state) t fl c l i kv h r :
  valid s t fl -> t = plug c (Node l i kv h r) -> l <> Leaf -> r <> Leaf ->
  exists s' t', (successor_node ← minimum N s (ptr_of r);
                 u ← unlink_successor s (Some i) successor_node;
                 s ← take_place u.1 (Some i) successor_node;
                 s ← release_node s (Some i);
                 rebalance N s u.2) = Done s'
    /\ valid s' t' (i :: fl) /\ items t' = before c ++ items l ++ items r ++ following c.
Proof.
  intros (Hs & Ha & Hf & Hn & Hl & Hz) -> Hlne Hrne. rewrite <-spells_plug in Hs.
  destruct (leftmost r Hrne) as (cl & j & y & hj & rr & -> & Hbl & Hcl).
  assert (Hir : items (plug cl (Node Leaf j y hj rr)) = (j, y) :: items rr ++ following cl).
  { rewrite items_plug, Hbl. done. }
  assert (Hir' : items (plug cl rr) = items rr ++ following cl) by (by rewrite items_plug, Hbl).
  rewrite items_plug_length in Hl, Hz. cbn [items] in Hl, Hz. rewrite Hir, length_app in Hl, Hz.
  cbn [length] in Hl, Hz. rewrite length_app in Hl, Hz.
  rewrite (minimum_spec N s (Rgt l i kv h :: c) _) by (by rewrite <-spells_right || (rewrite Hir; cbn [length]; rewrite length_app; lia)).
  rewrite Hir. exec_simpl. cbn [first_of head fmap option_fmap option_map fst].
  destruct (unlink_successor_spec s c l i kv h cl j y hj rr Hs Hcl) as (s1 & p' & E1 & I1 & J1 & C1 & L1 & R1 & N1 & F1 & Z1 & M1).
  change (option_map fst (Some (j, y))) with (Some j) in *. rewrite E1. exec_simpl. cbn [fst snd].
  destruct (take_place_spec s1 c l i kv h j y p' hj (plug cl rr) _ _ Hlne I1 J1 C1 L1 R1 N1) as (s2 & -> & S2 & A2 & F2 & Z2 & M2).
  exec_simpl. unfold mk in S2. set (h2 := to_u8 _) in S2. rewrite spells_right, <-spells_plug_app in S2.
  set (C' := cl ++ Rgt l j y h2 :: c) in *.
  replace (ctx_ptr (cl ++ Rgt l j y hj :: c)) with (ctx_ptr C') by (unfold C'; by destruct cl).
  assert (HidC : cids C' = cids cl ++ j :: ids l ++ cids c) by (unfold C'; by rewrite cids_app).
  assert (Hn' : NoDup ((ids rr ++ cids C') ++ i :: fl)).
  { rewrite HidC. eapply NoDup_Permutation_proper; [|exact Hn]. rewrite (ids_plug c). cbn [ids].
    rewrite (ids_plug cl). cbn [ids]. solve_Permutation. }
  assert (Ha' : avl (plug (cl ++ Rgt l i kv h :: c) (Node Leaf j y hj rr))) by (rewrite plug_app; exact Ha).
  apply avl_plug in Ha' as [Aj Hca]. destruct Aj as (_ & Arr & Aab & _).
  assert (Hca' : ctx_avl C' (depth (Node Leaf j y hj rr))).
  { unfold C'. rewrite ctx_avl_app in Hca |- *. exact Hca. }
  assert (Hit : items (plug C' rr) = before c ++ items l ++ (j, y) :: (items rr ++ following cl) ++ following c).
  { unfold C'. rewrite plug_app. cbn [plug fill]. rewrite items_plug. cbn [items]. rewrite Hir', <-!app_assoc. cbn [app]. by rewrite <-!app_assoc. }
  destruct (released_valid s2 C' rr i fl (depth (Node Leaf j y hj rr)) S2 Arr Hca') as (s3 & s' & t' & -> & E4 & _ & Hv & I).
  - cbn [depth]. pose proof (depth_nonneg rr). lia.
  - exact A2.
  - rewrite F2, F1. eapply frep_ext; [|exact Hf]. intros k Hk.
    assert (Hk1 : k ∉ j :: ids (plug cl rr) ++ i :: ids l ++ cids c).
    { rewrite (ids_plug cl). rewrite HidC in Hn'. sep_hyps. sep. }
    rewrite M2, M1; [done|done|]. clear -Hk1. sep_hyps. sep.
  - exact Hn'.
  - rewrite Hit, !length_app. cbn [length]. rewrite !length_app. lia.
  - rewrite Z2, Z1, Hit, !length_app. cbn [length]. rewrite !length_app. lia.
  - exec_simpl. exists s', t'. split; [exact E4|]. split; [done|]. rewrite I, Hit. done.
Qed.

Lemma erase_node_spec (s : state) l1 i kv l2 :
  represents s (l1 ++ (i, kv) :: l2) ->
  exists s', erase_node N s (Some i) = Done s' /\ represents s' (l1 ++ l2).
Proof.
  intros (t & fl & Hv & Hit & Ho). pose proof Hv as (Hs & _).
  assert (Hin : (i, kv) ∈ items t) by (rewrite Hit, elem_of_app; right; left).
  destruct (item_context i kv t Hin) as (c & l & h & r & Et).
  assert (E' : items t = (before c ++ items l) ++ (i, kv) :: (items r ++ following c)).
  { rewrite Et, items_plug. cbn [items]. by rewrite <-!app_assoc. }
  pose proof (spells_distinct s t Hs) as Hd. rewrite Hit in Hd.
  destruct (split_unique l1 l2 (before c ++ items l) (items r ++ following c) (i, kv) Hd) as [-> ->]; [by rewrite <-Hit|].
  assert (Hord : in_order compare_ ((before c ++ items l) ++ items r ++ following c)).
  { apply in_order_app in Ho as (O1 & O2 & O3). apply in_order_cons in O2 as [_ O2].
    apply in_order_app. split; [done|]. split; [done|]. intros a b Ha Hb. apply O3; [done|by right]. }
  rewrite Et, <-spells_plug in Hs. destruct (spells_deref _ _ _ _ _ _ _ Hs) as [D _].
  unfold erase_node. rewrite D. exec_simpl. cbn [left right parent].
  assert (Hfin : forall s' t', valid s' t' (i :: fl) -> items t' = before c ++ items l ++ items r ++ following c ->
    represents s' ((before c ++ items l) ++ items r ++ following c)).
  { intros s' t' Hv' I. exists t', (i :: fl). split; [done|]. split; [by rewrite I, <-app_assoc|done]. }
  assert (Hleaf : forall t : tree, t = Leaf \/ t <> Leaf) by (intros []; [by left|by right]).
  destruct (Hleaf l) as [->|Hl]; [|destruct (Hleaf r) as [->|Hr]].
  - cbn [ptr_of]. rewrite (bool_decide_true (None = None)), (bool_decide_false (None <> None)) by tauto. cbn [orb].
    destruct (erase_single_spec s t fl c Leaf i kv h r r Hv Et) as (s1 & s2 & s' & t' & E1 & E2 & E3 & Hv' & I); [by left|].
    rewrite E1. exec_simpl. rewrite E2. exec_simpl. exists s'. split; [exact E3|]. by eapply Hfin.
  - assert (Hp : ptr_of l <> None) by (by rewrite ptr_of_None).
    cbn [ptr_of]. rewrite (bool_decide_true (None = None)), orb_true_r, (bool_decide_true (ptr_of l <> None)) by done.
    destruct (erase_single_spec s t fl c l i kv h Leaf l Hv Et) as (s1 & s2 & s' & t' & E1 & E2 & E3 & Hv' & I); [by right|].
    rewrite E1. exec_simpl. rewrite E2. exec_simpl. exists s'. split; [exact E3|]. by eapply Hfin.
  - rewrite !bool_decide_false by (by rewrite ptr_of_None). cbn [orb].
    destruct (erase_double_spec s t fl c l i kv h r Hv Et Hl Hr) as (s' & t' & E & Hv' & I).
    exists s'. split; [exact E|]. by eapply Hfin.
Qed.

Lemma lookup_entry_Some k (l : list entry) e :
  lookup_entry compare_ k l = Some e ->
  exists l1 l2, l = l1 ++ e :: l2 /\ matches compare_ k e = true.
Proof.
  unfold lookup_entry. destruct (list_find _ l) as [[n e']|] eqn:E; [|done]. intros [= ->].
  apply list_find_Some in E as (E1 & E2 & _). apply list_elem_of_split_length in E1 as (l1 & l2 & -> & _).
  by exists l1, l2.
Qed.

Lemma represents_tree (s : state) l :
  represents s l -> exists t, spells s [] t /\ items t = l /\ avl t /\ in_order compare_ l
    /\ (length l <= N)%nat /\ size_ s = length l.
Proof.
  intros (t & fl & (Hs & Ha & _ & _ & Hl & Hz) & <- & Ho). exists t. split_and!; try done. lia.
Qed.

Lemma find_represents (s : state) l k :
  represents s l -> find_node compare_ N s k = Done (fst <$> lookup_entry compare_ k l).
Proof. intros (t & Hs & <- & _ & Ho & Hn & _)%represents_tree. by apply find_node_spec. Qed.

Lemma erase_spec (s : state) l k :
  represents s l ->
  match lookup_entry compare_ k l with
  | Some e => exists s' l1 l2, l = l1 ++ e :: l2 /\ matches compare_ k e = true
      /\ erase compare_ N s k = Done (s_ok, s') /\ represents s' (l1 ++ l2)
  | None => erase compare_ N s k = Done (s_not_found, s)
  end.
Proof.
  intros Hr. unfold erase. rewrite (find_represents s l k Hr). exec_simpl.
  destruct (lookup_entry compare_ k l) as [[i kv]|] eqn:E; [|done].
  apply lookup_entry_Some in E as (l1 & l2 & -> & Hm). cbn [fmap option_fmap option_map fst].
  destruct (erase_node_spec s l1 i kv l2 Hr) as (s' & -> & Hr'). exec_simpl. by exists s', l1, l2.
Qed.
End Invariant.

(** ** The abstract map *)

Section Refinement.
Context {K V : Type} (compare_ : K -> K -> bool) `{!StrictWeak compare_} (N : nat).
Context (HN : (Z.of_nat N < 2 ^ 64)%Z).
#[local] Abbreviation entry := (nat * (K * V))%type.
#[local] Abbreviation state := (avl_tree K V).

Inductive op : Type := op_insert (k : K) (v : V) | op_erase (k : K).

(** A sequence of entries without equivalent keys, kept in order. *)
Definition equivalent (a b : K) : bool := negb (compare_ a b) && negb (compare_ b a).
Definition spec_step (o : op) (m : list (K * V)) : status * list (K * V) :=
  match o with
  | op_insert k v =>
      if existsb (fun e => equivalent k e.1) m then (s_already_exists, m)
      else if (length m <? N)%nat then
        (s_ok, List.filter (fun e => compare_ e.1 k) m ++ (k, v) :: List.filter (fun e => negb (compare_ e.1 k)) m)
      else (s_full, m)
  | op_erase k =>
      if existsb (fun e => equivalent k e.1) m
      then (s_ok, List.filter (fun e => negb (equivalent k e.1)) m)
      else (s_not_found, m)
  end.
Fixpoint spec_run (os : list op) (m : list (K * V)) : list status * list (K * V) :=
  match os with
  | [] => ([], m)
  | o :: os => let '(r, m) := spec_step o m in let '(rs, m) := spec_run os m in (r :: rs, m)
  end.

Definition step (o : op) (s : state) : exec (status * state) :=
  match o with op_insert k v => insert compare_ N s k v | op_erase k => erase compare_ N s k end.
Fixpoint run (os : list op) (s : state) : exec (list status * state) :=
  match os with
  | [] => Done ([], s)
  | o :: os => r ← step o s; rs ← run os r.2; Done (r.1 :: rs.1, rs.2)
  end.

Lemma filter_all {A} (f : A -> bool) (l : list A) : Forall (fun x => f x = true) l -> List.filter f l = l.
Proof. induction 1 as [|x l Hx _ IH]; cbn [List.filter]; [done|]. by rewrite Hx, IH. Qed.
Lemma filter_none {A} (f : A -> bool) (l : list A) : Forall (fun x => f x = false) l -> List.filter f l = [].
Proof. induction 1 as [|x l Hx _ IH]; cbn [List.filter]; [done|]. by rewrite Hx, IH. Qed.

Lemma lookup_exists k (l : list entry) :
  existsb (fun e => equivalent k e.1) (l.*2) = match lookup_entry compare_ k l with Some _ => true | None => false end.
Proof.
  unfold lookup_entry. induction l as [|e l IH]; cbn [fmap list_fmap existsb list_find]; [done|].
  change (equivalent k e.2.1) with (matches compare_ k e). destruct (matches compare_ k e) eqn:E.
  - by rewrite decide_True.
  - rewrite decide_False by congruence. cbn [orb]. change (list_fmap _ _ snd l) with (l.*2). rewrite IH.
    by destruct (list_find _ l) as [[]|].
Qed.

Lemma find_lookup k (l : list entry) :
  List.find (fun e => equivalent k e.1) (l.*2) = snd <$> lookup_entry compare_ k l.
Proof.
  unfold lookup_entry. induction l as [|e l IH]; cbn [fmap list_fmap List.find list_find]; [done|].
  change (equivalent k e.2.1) with (matches compare_ k e). destruct (matches compare_ k e) eqn:E.
  - by rewrite decide_True.
  - rewrite decide_False by congruence. change (list_fmap _ _ snd l) with (l.*2). rewrite IH.
    by destruct (list_find _ l) as [[]|].
Qed.

Lemma Forall_snd (P : K * V -> Prop) (l : list entry) : Forall (fun e => P e.2) l -> Forall P (l.*2).
Proof. intros H. by apply Forall_fmap. Qed.

Lemma split_filters k v (l1 l2 : list entry) i :
  in_order compare_ (l1 ++ (i, (k, v)) :: l2) ->
  List.filter (fun e => compare_ e.1 k) ((l1 ++ l2).*2) = l1.*2
  /\ List.filter (fun e => negb (compare_ e.1 k)) ((l1 ++ l2).*2) = l2.*2.
Proof.
  intros Ho. destruct (order_around compare_ _ _ _ k Ho) as (_ & _ & O3 & O4). cbn [snd fst] in *.
  specialize (O3 (lt_irrefl k)). specialize (O4 (lt_irrefl k)).
  assert (O4' : Forall (fun e : entry => compare_ e.2.1 k = false) l2).
  { eapply Forall_impl; [exact O4|]. intros e He. unfold above in He. destruct (compare_ e.2.1 k) eqn:E; [|done].
    pose proof (lt_trans _ _ _ He E) as F. by rewrite lt_irrefl in F. }
  rewrite fmap_app, !List.filter_app. split.
  - rewrite (filter_all _ (l1.*2)), (filter_none _ (l2.*2)); [by rewrite app_nil_r|by apply Forall_snd|by apply Forall_snd].
  - rewrite (filter_none _ (l1.*2)), (filter_all _ (l2.*2)); [done| |].
    + apply Forall_snd. eapply Forall_impl; [exact O4'|]. intros e He. cbv beta. by rewrite He.
    + apply Forall_snd. eapply Forall_impl; [exact O3|]. intros e He. cbv beta. unfold below in He. by rewrite He.
Qed.

Lemma erase_filter k (l1 l2 : list entry) e :
  in_order compare_ (l1 ++ e :: l2) -> matches compare_ k e = true ->
  List.filter (fun x => negb (equivalent k x.1)) ((l1 ++ e :: l2).*2) = (l1 ++ l2).*2.
Proof.
  intros Ho Hm. destruct (order_around compare_ _ _ _ k Ho) as (_ & _ & O3 & O4).
  pose proof Hm as Hm'. unfold matches in Hm'. apply andb_true_iff in Hm' as [E1 E2]. rewrite negb_true_iff in E1, E2.
  rewrite !fmap_app, List.filter_app. cbn [fmap list_fmap List.filter].
  change (equivalent k e.2.1) with (matches compare_ k e). rewrite Hm. cbn [negb].
  change (list_fmap _ _ snd l2) with (l2.*2). f_equal; apply filter_all, Forall_snd.
  - eapply Forall_impl; [exact (O3 E1)|]. intros x Hx. by rewrite (matches_below compare_ k x Hx : equivalent k x.2.1 = false).
  - eapply Forall_impl; [exact (O4 E2)|]. intros x Hx. by rewrite (matches_above compare_ k x Hx : equivalent k x.2.1 = false).
Qed.

Lemma step_refines o (s : state) l :
  represents compare_ N s l ->
  exists s' l', step o s = Done ((spec_step o (l.*2)).1, s')
    /\ represents compare_ N s' l' /\ l'.*2 = (spec_step o (l.*2)).2.
Proof.
  intros Hr. destruct o as [k v|k]; cbn [step spec_step]; rewrite lookup_exists.
  - pose proof (emplace_value_spec compare_ N HN s l k v Hr) as E. unfold insert.
    destruct (lookup_entry compare_ k l); [by exists s, l|]. rewrite length_fmap.
    destruct (decide (length l < N)%nat) as [Hlt|Hge]; nat_tests; [|by exists s, l].
    destruct E as (s' & l1 & l2 & i & E & -> & Hr' & _). exists s', (l1 ++ (i, (k, v)) :: l2).
    split; [exact E|]. split; [done|]. destruct Hr' as (_ & _ & _ & _ & Ho).
    destruct (split_filters k v l1 l2 i Ho) as [F1 F2]. cbn [snd]. rewrite F1, F2, fmap_app. done.
  - pose proof (erase_spec compare_ N HN s l k Hr) as E.
    destruct (lookup_entry compare_ k l) as [e|]; [|by exists s, l].
    destruct E as (s' & l1 & l2 & -> & Hm & E & Hr'). exists s', (l1 ++ l2). split; [exact E|]. split; [done|].
    destruct Hr as (_ & _ & _ & _ & Ho). cbn [snd]. by rewrite erase_filter.
Qed.

Lemma run_refines os : forall (s : state) l,
  represents compare_ N s l ->
  exists s' l', run os s = Done ((spec_run os (l.*2)).1, s')
    /\ represents compare_ N s' l' /\ l'.*2 = (spec_run os (l.*2)).2.
Proof.
  induction os as [|o os IH]; intros s l Hr; cbn [run spec_run]; [by exists s, l|].
  destruct (step_refines o s l Hr) as (s1 & l1 & -> & Hr1 & E1). exec_simpl. cbn [fst snd].
  destruct (spec_step o (l.*2)) as [r m]. cbn [fst snd] in *. subst m.
  destruct (IH s1 l1 Hr1) as (s2 & l2 & -> & Hr2 & E2). exec_simpl. exists s2, l2.
  destruct (spec_run os (l1.*2)). done.
Qed.
End Refinement.

(** ** Properties *)

(** C2.  The tree is an ordered map of at most [N] entries: for any strict weak order
    on the keys and any sequence of insertions and erasures on a new tree, every
    call returns the status of the abstract map (a duplicate key is refused before
    the capacity is looked at), no access leaves the pool or touches a node without
    an object, and the tree ends up holding exactly the entries of the abstract
    map, in key order, as [size], [contains] and [mapped] report. *)
Theorem avl_refines_ordered_map {K V : Type} (compare_ : K -> K -> bool) (N : nat) (os : list (op (K:=K) (V:=V))) :
  StrictWeak compare_ -> (Z.of_nat N < 2 ^ 64)%Z ->
  let '(statuses, m) := spec_run compare_ N os [] in
  exists s0 s l,
    avl_new N = Done s0 /\ run compare_ N os s0 = Done (statuses, s)
    /\ represents compare_ N s l /\ l.*2 = m /\ size_ s = length m
    /\ forall k, contains compare_ N s k = Done (existsb (fun e => equivalent compare_ k e.1) m)
         /\ mapped compare_ N s k = Done (snd <$> List.find (fun e => equivalent compare_ k e.1) m).
Proof.
  intros HW HN. destruct (represents_new compare_ N (V:=V)) as (s0 & E0 & R0).
  destruct (run_refines compare_ N HN os s0 [] R0) as (s & l & E & R & El). cbn [fmap list_fmap] in *.
  destruct (spec_run compare_ N os []) as [statuses m]. cbn [fst snd] in *. subst m.
  exists s0, s, l. split; [done|]. split; [done|]. split; [done|]. split; [done|].
  pose proof R as (t & Hs & Hit & _ & Ho & Hn & Hz)%represents_tree. split; [by rewrite length_fmap|].
  intros k. unfold contains, mapped. rewrite (find_represents compare_ N s l k R). exec_simpl.
  rewrite lookup_exists. pose proof (find_lookup compare_ k l) as F. rewrite F.
  destruct (lookup_entry compare_ k l) as [[i kv]|] eqn:Ek; [|done].
  apply lookup_entry_Some in Ek as (l1 & l2 & -> & _). split; [done|]. cbn [fmap option_fmap option_map fst snd].
  assert (Hin : (i, kv) ∈ items t) by (rewrite Hit, elem_of_app; right; left).
  destruct (item_context i kv t Hin) as (c & l & h & r & ->). rewrite <-spells_plug in Hs.
  destruct (spells_deref _ _ _ _ _ _ _ Hs) as [_ ->]. done.
Qed.

Definition sample_ops : list (op (K:=nat) (V:=nat)) :=
  [op_insert 5 50; op_insert 2 20; op_insert 8 80; op_insert 2 21; op_insert 9 90; op_erase 5; op_erase 5].

Lemma avl_refines_ordered_map_witness :
  exists s0 s,
    avl_new 3 = Done s0
    /\ run Nat.ltb 3 sample_ops s0
       = Done ([s_ok; s_ok; s_ok; s_already_exists; s_full; s_ok; s_not_found], s)
    /\ mapped Nat.ltb 3 s 8 = Done (Some 80).
Proof.
  destruct (avl_refines_ordered_map Nat.ltb 3 sample_ops nat_ltb_strict ltac:(lia))
    as (s0 & s & l & E0 & E & _ & _ & _ & F).
  exists s0, s. split; [exact E0|]. split; [exact E|]. apply (F 8).
Defined.

(** C3.  Iteration follows the key order: in a tree that holds the entries [l],
    [begin] is the node of the first entry, [++] and [--] on the node of an entry
    yield the nodes of its neighbours (and the end beyond the ends), [lower_bound]
    the node of the first entry whose key is not below the argument,
    [upper_bound] of the first one above it, and [erase] at an iterator removes
    exactly that entry, leaves every other entry in its node and returns the
    iterator behind it. *)
Theorem avl_iteration_in_order {K V : Type} (compare_ : K -> K -> bool) (N : nat)
    (s : avl_tree K V) (l : list (nat * (K * V))) :
  StrictWeak compare_ -> (Z.of_nat N < 2 ^ 64)%Z -> represents compare_ N s l ->
  minimum N s (root_ s) = Done (first_of l)
  /\ (forall l1 i kv l2, l = l1 ++ (i, kv) :: l2 ->
        successor N s (Some i) = Done (first_of l2) /\ predecessor N s (Some i) = Done (last_of l1)
        /\ exists s', erase_at N s (Some i) = Done (first_of l2, s') /\ represents compare_ N s' (l1 ++ l2))
  /\ (forall k, lower_bound compare_ N s k
        = Done (fst ∘ snd <$> list_find (fun e : nat * (K * V) => compare_ e.2.1 k = false) l))
  /\ (forall k, upper_bound compare_ N s k
        = Done (fst ∘ snd <$> list_find (fun e : nat * (K * V) => compare_ k e.2.1 = true) l)).
Proof.
  intros HW HN R. pose proof R as (t & Hs & Hit & _ & Ho & Hn & _)%represents_tree. split_and!.
  - pose proof Hs as (_ & Hr & _). cbn [crep] in Hr. rewrite Hr, <-Hit. apply (minimum_spec N s []); [done|by rewrite Hit].
  - intros l1 i kv l2 ->. destruct (successor_spec N s t l1 i kv l2 Hs) as [E1 E2]; [by rewrite Hit|done|].
    split; [done|]. split; [done|]. destruct (erase_node_spec compare_ N HN s l1 i kv l2 R) as (s' & E & R').
    exists s'. unfold erase_at. rewrite E1. exec_simpl. rewrite E. done.
  - intros k. unfold lower_bound. rewrite <-Hit in Ho, Hn. rewrite <-Hit.
    apply (bound_spec compare_ N (fun a => compare_ a k) s t Hs Ho Hn). intros a b Hab Hb. by eapply lt_trans.
  - intros k. unfold upper_bound. rewrite (bound_spec compare_ N _ s t); try done.
    + rewrite Hit. f_equal. f_equal. clear. induction l as [|e l IH]; cbn [list_find]; [done|].
      destruct (compare_ k e.2.1); cbn [negb]; [by rewrite !decide_True|].
      rewrite !decide_False by done. rewrite IH. done.
    + by rewrite Hit.
    + by rewrite Hit.
    + intros a b Hab. rewrite !negb_true_iff. intros Hb. destruct (compare_ k a) eqn:E; [|done].
      rewrite <-Hb. symmetry. by eapply lt_trans.
Qed.

Lemma avl_iteration_in_order_witness :
  exists s l, represents Nat.ltb 4 s l /\ l.*2 = [(2, 20); (5, 50)] /\ minimum 4 s (root_ s) = Done (first_of l).
Proof.
  destruct (represents_new Nat.ltb 4 (V:=nat)) as (s0 & _ & R0).
  destruct (run_refines Nat.ltb 4 ltac:(lia) [op_insert 5 50; op_insert 2 20] s0 [] R0) as (s & l & _ & R & El).
  destruct (avl_iteration_in_order Nat.ltb 4 s l nat_ltb_strict ltac:(lia) R) as (M & _).
  exists s, l. split; [exact R|]. split; [exact El|exact M].
Defined.

(** C4.  The tree stays balanced, so that searches are logarithmic: on a tree with
    [n] entries the loop of [find_node] ends within [2 log2 (n + 1) + 2] iterations
    with the answer, and no stored height ever reaches the limit of its 8 bits. *)
Theorem avl_search_logarithmic {K V : Type} (compare_ : K -> K -> bool) (N : nat)
    (s : avl_tree K V) (l : list (nat * (K * V))) (k : K) :
  StrictWeak compare_ -> (Z.of_nat N < 2 ^ 64)%Z -> represents compare_ N s l ->
  after (while_loop (Z.to_nat (2 * Z.log2 (Z.of_nat (length l) + 1) + 2))
           (fun c => Done (bool_decide (c <> None))) (find_body compare_ s k) (root_ s))
    (fun _ => Done None) = find_node compare_ N s k
  /\ forall e, e ∈ l -> exists n, nodes_ s !! e.1 = Some n /\ storage n = Some e.2 /\ (1 <= height_ n < 130)%Z.
Proof.
  intros HW HN R. pose proof R as (t & Hs & Hit & Ha & Ho & Hn & _)%represents_tree. split.
  - rewrite (find_represents compare_ N s l k R). pose proof Hs as (_ & Hr & _). cbn [crep] in Hr. rewrite Hr.
    pose proof (Z.log2_nonneg (Z.of_nat (length l) + 1)).
    rewrite (find_loop compare_ k s t []); [|done|].
    + rewrite <-Hit in Ho. rewrite <-Hit, <-(search_lookup compare_ k t Ho). by destruct (search compare_ k t).
    + destruct (Z.lt_ge_cases (depth t) (2 * Z.log2 (Z.of_nat (length l) + 1) + 2)) as [|Hd]; [lia|].
      pose proof (avl_size (Z.log2 (Z.of_nat (length l) + 1) + 1) ltac:(lia) t Ha ltac:(lia)) as Hsz.
      pose proof (Z.log2_spec (Z.of_nat (length l) + 1) ltac:(lia)) as [_ Hlog].
      rewrite Z.add_1_r in Hsz. rewrite Hit in Hsz. lia.
  - intros [i kv] Hin. rewrite <-Hit in Hin. destruct (item_context i kv t Hin) as (c & a & h & r & ->).
    rewrite <-spells_plug in Hs. destruct Hs as ((Hi & _) & _). apply avl_plug in Ha as [Ha _].
    eexists. split; [exact Hi|]. split; [done|]. cbn [height_].
    assert (Hd : (depth (Node a i kv h r) < 130)%Z).
    { apply avl_shallow; [done|]. rewrite <-Hit, items_plug_length in Hn. lia. }
    destruct Ha as (_ & _ & _ & ->). pose proof (depth_nonneg a). cbn [depth] in *. lia.
Qed.

Lemma avl_search_logarithmic_witness :
  exists (s : avl_tree nat nat) l, represents Nat.ltb 4 s l
    /\ after (while_loop (Z.to_nat (2 * Z.log2 (Z.of_nat (length l) + 1) + 2))
         (fun c => Done (bool_decide (c <> None))) (find_body Nat.ltb s 7) (root_ s))
         (fun _ => Done None) = find_node Nat.ltb 4 s 7.
Proof.
  destruct (represents_new Nat.ltb 4 (V:=nat)) as (s & _ & R). exists s, []. split; [exact R|].
  apply (avl_search_logarithmic Nat.ltb 4 s [] 7 nat_ltb_strict); [lia|exact R].
Defined.

(** A tree of three entries is a root with two leaf children. *)
Lemma three_entries {K V : Type} (t : btree K V) :
  avl t -> length (items t) = 3%nat ->
  exists a x ha p y hp b z hb, t = Node (Node Leaf a x ha Leaf) p y hp (Node Leaf b z hb Leaf).
Proof.
  assert (One : forall u : btree K V, length (items u) = 1%nat -> exists i kv h, u = Node Leaf i kv h Leaf).
  { intros [|l i kv h r]; [done|]. cbn [items]. rewrite length_app. cbn [length]. intros E.
    destruct l as [|l1 i1 kv1 h1 r1]; [|cbn [items] in E; rewrite length_app in E; cbn [length] in E; lia].
    destruct r as [|l2 i2 kv2 h2 r2]; [|cbn [items] in E; rewrite !length_app in E; cbn [length] in E; lia].
    by exists i, kv, h. }
  assert (Zero : forall u : btree K V, length (items u) = 0%nat -> depth u = 0%Z).
  { intros [|l i kv h r]; [done|]. cbn [items]. rewrite length_app. cbn [length]. lia. }
  assert (Two : forall u : btree K V, length (items u) = 2%nat -> (2 <= depth u)%Z).
  { intros [|l i kv h r]; [done|]. cbn [items depth]. rewrite length_app. cbn [length]. intros E.
    pose proof (depth_nonneg l). pose proof (depth_nonneg r).
    assert (length (items l) = 1%nat \/ length (items r) = 1%nat) as [H1|H1] by lia;
      destruct (One _ H1) as (? & ? & ? & ->); cbn [depth]; lia. }
  destruct t as [|l p y hp r]; [done|]. intros (_ & _ & Hb & _). cbn [items]. rewrite length_app. cbn [length]. intros E.
  assert (length (items l) = 1%nat /\ length (items r) = 1%nat) as [Hl Hr].
  { assert (length (items l) = 0%nat -> False).
    { intros H0. pose proof (Zero _ H0). pose proof (Two r ltac:(lia)). lia. }
    assert (length (items r) = 0%nat -> False).
    { intros H0. pose proof (Zero _ H0). pose proof (Two l ltac:(lia)). lia. }
    lia. }
  destruct (One l Hl) as (a & x & ha & ->), (One r Hr) as (b & z & hb & ->). by repeat eexists.
Qed.

(** Run code on a pool of which three nodes are known. *)
Ltac crunch Hp Ha Hb :=
  repeat first
    [ progress cbn [while_loop after mbind exec_bind deref modify nodes_ root_ free_head_ size_ left right parent
                    height_ used storage fst snd successor climb descend fuel release_node destroy_value]
    | progress unfold descend, climb, fuel
    | rewrite Hp | rewrite Ha | rewrite Hb
    | rewrite lookup_insert_eq | rewrite lookup_insert_ne by congruence
    | rewrite bool_decide_true by congruence | rewrite bool_decide_false by congruence
    | rewrite bool_decide_false by (let H := fresh in intros H; by apply H) ].

(**  [clear] destroys an element twice: it asks for the successor of a node whose
    parent it has already released.  On every tree of three elements it visits the
    left child, the root and the right child, and then the root again, whose
    object it destroys a second time (the destructor of the tree does the same). *)
Theorem avl_clear_destroys_twice {K V : Type} (compare_ : K -> K -> bool) (N : nat)
    (s : avl_tree K V) (l : list (nat * (K * V))) :
  represents compare_ N s l -> length l = 3%nat -> clear N s = Undefined.
Proof.
  intros R H3. pose proof R as (t & Hs & Hit & Ha & _ & Hn & Hz)%represents_tree. rewrite <-Hit in H3.
  destruct (three_entries t Ha H3) as (a & x & ha & p & y & hp & b & z & hb & ->).
  destruct Hs as ((Hp & (Hla & _) & (Hlb & _)) & Hr & Hd). cbn [crep ptr_of ids app ctx_ptr head fmap option_fmap option_map] in *.
  sep_hyps. destruct N as [|[|[|N]]]; try (rewrite <-Hit in Hn; cbn in Hn; lia).
  unfold clear. rewrite Hr. cbn [minimum]. unfold descend, fuel.
  crunch Hp Hla Hlb. unfold clear_body. crunch Hp Hla Hlb. done.
Qed.

Lemma avl_clear_destroys_twice_witness :
  exists s : avl_tree nat nat, clear 3 s = Undefined.
Proof.
  destruct (represents_new Nat.ltb 3 (V:=nat)) as (s0 & _ & R0).
  destruct (run_refines Nat.ltb 3 ltac:(lia) [op_insert 5 50; op_insert 2 20; op_insert 8 80] s0 [] R0)
    as (s & l & _ & R & El).
  exists s. apply (avl_clear_destroys_twice Nat.ltb 3 s l R).
  rewrite <-(length_fmap snd), El. reflexivity.
Defined.
