(* ===== verification/Sync.v ===== *)
(** * Synchronisation primitives (castle/sync)

    [shared_mutex] and [semaphore] as state machines: every thread runs the code
    of the primitive one atomic [__sync] operation at a time, and an execution is
    any interleaving of the threads.  Threads obey the locking protocol: they
    unlock what they hold.  [WaitPolicy::wait] has no effect on the state. *)

From stdpp Require Import relations.
From S2P Require Import Prelude.
Open Scope Z_scope.

(** ** Interleavings *)

Section Interleaving.
Context {S P C : Type} (next : C -> P -> S -> P * S).

(** One thread takes one step; [c] is what it does next when it is free to choose. *)
Inductive cstep : S * list P -> S * list P -> Prop :=
| cstep_at c i p s ps :
    ps !! i = Some p -> cstep (s, ps) ((next c p s).2, <[i := (next c p s).1]> ps).

Lemma cstep_invariant (I : S * list P -> Prop) x y :
  (forall c i p s ps, I (s, ps) -> ps !! i = Some p -> I ((next c p s).2, <[i := (next c p s).1]> ps)) ->
  I x -> rtc cstep x y -> I y.
Proof. intros Hs Hx H. induction H as [|x y z Hxy _ IH]; [done|]. apply IH. destruct Hxy. by apply Hs. Qed.

(** One thread running alone. *)
Definition solo (c : C) (i : nat) (x : S * list P) : S * list P :=
  match x.2 !! i with
  | Some p => ((next c p x.1).2, <[i := (next c p x.1).1]> x.2)
  | None => x
  end.
End Interleaving.

(** How many threads are in a given situation. *)
Definition count {P} (f : P -> bool) (ps : list P) : Z := Z.of_nat (length (List.filter f ps)).

Lemma count_nonneg {P} (f : P -> bool) ps : 0 <= count f ps.
Proof. unfold count. lia. Qed.

Lemma count_insert {P} (f : P -> bool) ps i p p' :
  ps !! i = Some p -> count f (<[i := p']> ps) = count f ps - Z.b2z (f p) + Z.b2z (f p').
Proof.
  unfold count. revert i. induction ps as [|q ps IH]; intros [|i] Hi; cbn in Hi; try done.
  - injection Hi as ->. change (<[0%nat := p']> (p :: ps)) with (p' :: ps). cbn [List.filter].
    destruct (f p), (f p'); cbn [length]; unfold Z.b2z; lia.
  - change (<[S i := p']> (q :: ps)) with (q :: <[i := p']> ps). cbn [List.filter]. specialize (IH i Hi). destruct (f q); cbn [length]; lia.
Qed.

Lemma count_member {P} (f : P -> bool) ps i p : ps !! i = Some p -> f p = true -> 1 <= count f ps.
Proof.
  unfold count. intros Hi Hf. apply list_elem_of_lookup_2 in Hi.
  assert (In p (List.filter f ps)) as H by (apply filter_In; split; [by apply list_elem_of_In|done]).
  destruct (List.filter f ps); [done|cbn; lia].
Qed.

Lemma count_length {P} (f : P -> bool) ps : count f ps <= Z.of_nat (length ps).
Proof. unfold count. induction ps as [|p ps IH]; cbn [List.filter length]; [lia|]. destruct (f p); cbn [length]; lia. Qed.

Lemma count_none {P} (f : P -> bool) ps : Forall (fun p => f p = false) ps -> count f ps = 0.
Proof. unfold count. induction 1 as [|p ps Hp _ IH]; cbn [List.filter]; [done|]. by rewrite Hp. Qed.

Lemma count_two {P} (f : P -> bool) ps i j p q :
  ps !! i = Some p -> ps !! j = Some q -> f p = true -> f q = true -> i <> j -> 2 <= count f ps.
Proof.
  revert i j. induction ps as [|r ps IH]; intros [|i] [|j] Hi Hj Hp Hq Hij; cbn in Hi, Hj; try done.
  - injection Hi as ->. pose proof (count_member f ps j q Hj Hq). unfold count in *. cbn [List.filter]. rewrite Hp. cbn [length]. lia.
  - injection Hj as ->. pose proof (count_member f ps i p Hi Hp). unfold count in *. cbn [List.filter]. rewrite Hq. cbn [length]. lia.
  - specialize (IH i j Hi Hj Hp Hq ltac:(congruence)). unfold count in *. cbn [List.filter]. destruct (f r); cbn [length]; lia.
Qed.

(** A thread on its own, its steps followed one by one. *)
Lemma solo_at {S P C} (next : C -> P -> S -> P * S) c i s ps p :
  ps !! i = Some p ->
  solo next c i (s, ps) = ((next c p s).2, <[i := (next c p s).1]> ps)
  /\ (solo next c i (s, ps)).2 !! i = Some (next c p s).1.
Proof.
  intros Hi. unfold solo. cbn [fst snd]. rewrite Hi. split; [done|]. cbn [snd].
  apply list_lookup_insert_eq. by eapply lookup_lt_Some.
Qed.

(** ** [shared_mutex] *)

Module SharedMutex.
Section SharedMutex.
Context (MaxReaders : Z).

Record shared : Type := mk_shared { state_ : Z; waiting_writers_ : Z }.

Definition writer_bit_ : Z := 2147483648.
Definition reader_mask_ : Z := 2147483647.

(** The atomic operations, on 32-bit words. *)
Definition fetch_state (s : shared) : Z := state_ s.
Definition cas_state (s : shared) (old new : Z) : bool * shared :=
  if state_ s =? old then (true, mk_shared (to_u32 new) (waiting_writers_ s)) else (false, s).
Definition add_waiting (s : shared) (d : Z) : shared := mk_shared (state_ s) (to_u32 (waiting_writers_ s + d)).

(** Where a thread is: outside, in [lock_read] or [try_lock_read] (before the test
    of the waiting writers, before the load of the state, before the exchange),
    holding a read lock, in [lock_write] (before announcing itself, before the
    load, before the exchange, before withdrawing the announcement), in
    [try_lock_write], or holding the write lock. *)
Inductive pc : Type :=
| Idle
| R_check (try_ : bool)
| R_load (try_ : bool)
| R_cas (try_ : bool) (state : Z)
| Reading
| W_announce
| W_load
| W_cas
| W_done
| TW_announce
| TW_cas
| TW_done (acquired : bool)
| Writing.
Inductive call : Type := c_lock_read | c_try_lock_read | c_lock_write | c_try_lock_write.

(** A failed attempt: [lock_read] starts over, [try_lock_read] returns. *)
Definition retry (try_ : bool) : pc := if try_ then Idle else R_check false.

Definition next (c : call) (p : pc) (s : shared) : pc * shared :=
  match p with
  | Idle =>
      (match c with
       | c_lock_read => R_check false
       | c_try_lock_read => R_check true
       | c_lock_write => W_announce
       | c_try_lock_write => TW_announce
       end, s)
  | R_check t => (if negb (waiting_writers_ s =? 0) then retry t else R_load t, s)
  | R_load t =>
      let state := fetch_state s in
      (if negb (Z.land state writer_bit_ =? 0) then retry t
       else if MaxReaders <=? Z.land state reader_mask_ then retry t
       else R_cas t state, s)
  | R_cas t state =>
      let '(ok, s) := cas_state s state (state + 1) in (if ok then Reading else retry t, s)
  | Reading => (Idle, mk_shared (to_u32 (state_ s - 1)) (waiting_writers_ s))
  | W_announce => (W_load, add_waiting s 1)
  | W_load => (if negb (fetch_state s =? 0) then W_load else W_cas, s)
  | W_cas => let '(ok, s) := cas_state s 0 writer_bit_ in (if ok then W_done else W_load, s)
  | W_done => (Writing, add_waiting s (-1))
  | TW_announce => (TW_cas, add_waiting s 1)
  | TW_cas => let '(ok, s) := cas_state s 0 writer_bit_ in (TW_done ok, s)
  | TW_done acquired => (if acquired then Writing else Idle, add_waiting s (-1))
  | Writing => (Idle, mk_shared 0 (waiting_writers_ s))
  end.

Definition init : shared := mk_shared 0 0.

(** Threads that own the lock, and threads that have announced themselves. *)
Definition reads (p : pc) : bool := match p with Reading => true | _ => false end.
Definition writes (p : pc) : bool :=
  match p with W_done | Writing | TW_done true => true | _ => false end.
Definition waits (p : pc) : bool :=
  match p with W_load | W_cas | W_done | TW_cas | TW_done _ => true | _ => false end.

(** What a thread about to exchange remembers. *)
Definition pc_ok (p : pc) : Prop :=
  match p with R_cas _ st => 0 <= st < MaxReaders | _ => True end.

Definition inv (x : shared * list pc) : Prop :=
  state_ x.1 = count reads x.2 + writer_bit_ * count writes x.2
  /\ waiting_writers_ x.1 = count waits x.2
  /\ count writes x.2 <= 1 /\ (count writes x.2 = 1 -> count reads x.2 = 0)
  /\ count reads x.2 <= Z.max 0 MaxReaders /\ Forall pc_ok x.2.

Lemma inv_step (Hmax : MaxReaders <= 31) c i p s ps :
  Z.of_nat (length ps) < 2 ^ 32 ->
  inv (s, ps) -> ps !! i = Some p -> inv ((next c p s).2, <[i := (next c p s).1]> ps).
Proof.
  intros Hlen (Hst & Hw & H1 & H2 & H3 & Hok) Hi. cbn [fst snd] in *.
  pose proof (count_nonneg reads ps) as Nr. pose proof (count_nonneg writes ps) as Nw.
  pose proof (count_nonneg waits ps) as Nq. pose proof (count_length waits ps) as Lq.
  assert (Wb : writer_bit_ = 2147483648) by done.
  assert (Hbit : forall x, 0 <= x <= 31 -> Z.land x reader_mask_ = x).
  { intros x Hx. change reader_mask_ with (Z.ones 31). rewrite Z.land_ones by lia. apply Z.mod_small. lia. }
  assert (Hsplit : count writes ps = 0 \/ count writes ps = 1) by lia.
  pose proof (Forall_lookup_1 _ _ _ _ Hok Hi) as Hp.
  assert (Hins : forall q, pc_ok q -> Forall pc_ok (<[i := q]> ps)) by (intros; by apply Forall_insert).
  assert (M : (reads p = true -> 1 <= count reads ps) /\ (writes p = true -> 1 <= count writes ps)
              /\ (waits p = true -> 1 <= count waits ps))
    by (split_and!; intros; by eapply count_member).
  destruct M as (Mr & Mw & Mq).
  pose proof (count_length waits (<[i := W_load]> ps)) as Lq'.
  rewrite length_insert, (count_insert _ _ _ _ _ Hi) in Lq'. cbn [waits Z.b2z] in Lq'.
  unfold inv. cbn [fst snd]. rewrite !(count_insert _ _ _ _ _ Hi).
  assert (Hload : Z.land (state_ s) writer_bit_ = 0 -> Z.land (state_ s) reader_mask_ < MaxReaders ->
                  0 <= state_ s < MaxReaders).
  { intros Hb Hm. destruct Hsplit as [E|E].
    - rewrite Hst, E, Z.mul_0_r, Z.add_0_r in *. rewrite Hbit in Hm by lia. lia.
    - rewrite Hst, E, (H2 E) in Hb. vm_compute in Hb. done. }
  destruct p as [|t|t|t st| | | | | | | |acq|]; unfold next, cas_state, add_waiting, fetch_state, retry;
    cbn [reads writes waits pc_ok fst snd] in *;
    [destruct c|destruct (waiting_writers_ s =? 0), t
    |destruct (Z.eqb_spec (Z.land (state_ s) writer_bit_) 0);
       [destruct (Z.leb_spec MaxReaders (Z.land (state_ s) reader_mask_))|]; destruct t
    |destruct (Z.eqb_spec (state_ s) st), t
    | | |destruct (state_ s =? 0)|destruct (Z.eqb_spec (state_ s) 0)| | |destruct (Z.eqb_spec (state_ s) 0)|destruct acq|].
  all: cbn [negb Z.b2z reads writes waits state_ waiting_writers_ fst snd] in *.
  all: rewrite ?wrap_small by (unfold in_width; lia).
  all: split_and!; lia || (apply Hins; cbn [pc_ok]; auto) || (intros; lia).
Qed.

Lemma inv_init n : inv (init, replicate n Idle).
Proof.
  assert (C : forall f : pc -> bool, f Idle = false -> count f (replicate n Idle) = 0).
  { intros f Hf. apply count_none. by apply Forall_replicate. }
  unfold inv. cbn [fst snd]. rewrite (C reads), (C writes), (C waits) by done. cbn. split_and!; try lia. by apply Forall_replicate.
Qed.

Lemma inv_reachable n x :
  MaxReaders <= 31 -> Z.of_nat n < 2 ^ 32 -> rtc (cstep next) (init, replicate n Idle) x ->
  inv x /\ length x.2 = n.
Proof.
  intros Hm Hn. apply (cstep_invariant next (fun x => inv x /\ length x.2 = n)).
  - intros c i p s ps [Hi Hl] Hp. split; [|cbn [snd] in *; by rewrite length_insert].
    apply inv_step; try done. cbn [snd] in Hl. lia.
  - split; [apply inv_init|]. apply length_replicate.
Qed.

(** An available lock is taken in three steps of its own. *)
Lemma writer_enters c i s ps :
  state_ s = 0 -> ps !! i = Some W_load ->
  (solo next c i (solo next c i (solo next c i (s, ps)))).2 !! i = Some Writing.
Proof.
  intros Hs Hi.
  assert (N1 : next c W_load s = (W_cas, s)) by (cbn [next]; unfold fetch_state; by rewrite Hs).
  assert (N2 : next c W_cas s = (W_done, mk_shared writer_bit_ (waiting_writers_ s)))
    by (cbn [next]; unfold cas_state; by rewrite Hs).
  destruct (solo_at next c i s ps _ Hi) as [E1 L1]. rewrite E1 in L1 |- *. rewrite N1 in L1 |- *. cbn [fst snd] in *.
  destruct (solo_at next c i s _ _ L1) as [E2 L2]. rewrite E2 in L2 |- *. rewrite N2 in L2 |- *. cbn [fst snd] in *.
  by destruct (solo_at next c i (mk_shared writer_bit_ (waiting_writers_ s)) _ _ L2) as [_ L3].
Qed.

Lemma reader_enters c i s ps :
  waiting_writers_ s = 0 -> Z.land (state_ s) writer_bit_ = 0 -> Z.land (state_ s) reader_mask_ < MaxReaders ->
  ps !! i = Some (R_check false) ->
  (solo next c i (solo next c i (solo next c i (s, ps)))).2 !! i = Some Reading.
Proof.
  intros Hw Hb Hm Hi.
  assert (N1 : next c (R_check false) s = (R_load false, s)) by (cbn [next]; by rewrite Hw).
  assert (N2 : next c (R_load false) s = (R_cas false (state_ s), s)).
  { cbn [next]. unfold fetch_state. rewrite Hb, (proj2 (Z.leb_gt _ _)) by done. done. }
  destruct (solo_at next c i s ps _ Hi) as [E1 L1]. rewrite E1 in L1 |- *. rewrite N1 in L1 |- *. cbn [fst snd] in *.
  destruct (solo_at next c i s _ _ L1) as [E2 L2]. rewrite E2 in L2 |- *. rewrite N2 in L2 |- *. cbn [fst snd] in *.
  destruct (solo_at next c i s _ _ L2) as [_ L3]. cbn [next] in L3. unfold cas_state in L3. by rewrite Z.eqb_refl in L3.
Qed.
End SharedMutex.

(** C20.  [shared_mutex] excludes: in every interleaving of any number of threads (fewer
    than 2^32) using the four locking functions and unlocking what they hold, at
    most one thread holds the write lock, no thread reads while one writes, at
    most [MaxReaders] read at once, and the two words count exactly the holders
    and the announced writers, so that neither wraps around.  Nor is the lock ever
    stuck: whenever nobody holds it a writer that runs on its own enters in three
    steps, and so does a reader unless a writer has announced itself. *)
Theorem shared_mutex_exclusion (MaxReaders : Z) (n : nat) (s : shared) (ps : list pc) :
  0 < MaxReaders <= 31 -> Z.of_nat n < 2 ^ 32 ->
  rtc (cstep (next MaxReaders)) (init, replicate n Idle) (s, ps) ->
  (forall i j q, ps !! i = Some Writing -> ps !! j = Some q -> i <> j -> q <> Writing /\ q <> Reading)
  /\ count reads ps <= MaxReaders
  /\ state_ s = count reads ps + writer_bit_ * count writes ps
  /\ waiting_writers_ s = count waits ps
  /\ (count reads ps = 0 -> count writes ps = 0 ->
       (forall c i, ps !! i = Some W_load ->
          (solo (next MaxReaders) c i (solo (next MaxReaders) c i (solo (next MaxReaders) c i (s, ps)))).2 !! i = Some Writing)
       /\ (forall c i, waiting_writers_ s = 0 -> ps !! i = Some (R_check false) ->
          (solo (next MaxReaders) c i (solo (next MaxReaders) c i (solo (next MaxReaders) c i (s, ps)))).2 !! i = Some Reading)).
Proof.
  intros Hm Hn Hr. destruct (inv_reachable MaxReaders n (s, ps) ltac:(lia) Hn Hr) as [(Hst & Hw & H1 & H2 & H3 & _) _].
  cbn [fst snd] in *. split_and!; try done; try lia.
  - intros i j q Hi Hj Hij. pose proof (count_member writes ps i _ Hi eq_refl). split; intros ->.
    + pose proof (count_two writes ps i j _ _ Hi Hj eq_refl eq_refl Hij). lia.
    + pose proof (count_member reads ps j _ Hj eq_refl). lia.
  - intros E1 E2. rewrite E1, E2 in Hst. change (state_ s = 0) in Hst. split; intros c i.
    + intros Hi. by apply writer_enters.
    + intros Hq Hi. apply reader_enters; rewrite ?Hst, ?Z.land_0_l; done || lia.
Qed.

Lemma shared_mutex_exclusion_witness :
  exists s ps, rtc (cstep (next 2)) (init, replicate 2 Idle) (s, ps) /\ count reads ps <= 2
    /\ ps !! 0%nat = Some Writing.
Proof.
  exists (mk_shared writer_bit_ 0), [Writing; Idle].
  assert (R : rtc (cstep (next 2)) (init, replicate 2 Idle) (mk_shared writer_bit_ 0, [Writing; Idle])).
  { do 5 (eapply rtc_l; [apply (cstep_at (next 2) c_lock_write 0); reflexivity|]). apply rtc_refl. }
  split; [exact R|]. split; [|reflexivity].
  apply (shared_mutex_exclusion 2 2 (mk_shared writer_bit_ 0) [Writing; Idle]); [lia|lia|exact R].
Defined.
End SharedMutex.

(** ** [semaphore] *)

Module Semaphore.
Section Semaphore.
Context (MaxCount : Z).

(** The word, and two history variables: the permits taken and given back so far. *)
Record shared : Type := mk_shared { count_ : Z; taken : Z; given : Z }.

Inductive pc : Type :=
| Idle (result : option bool)
| A_load (try_ : bool)
| A_cas (try_ : bool) (current : Z)
| R_load (update : Z)
| R_cas (update current : Z).
Inductive call : Type := c_acquire | c_try_acquire | c_release (update : Z).

(** [acquire] starts over, [try_acquire] returns false. *)
Definition retry (try_ : bool) : pc := if try_ then Idle (Some false) else A_load false.

Definition next (c : call) (p : pc) (s : shared) : pc * shared :=
  match p with
  | Idle _ =>
      (match c with
       | c_acquire => A_load false
       | c_try_acquire => A_load true
       | c_release update => R_load (to_u32 update)
       end, s)
  | A_load t => (if count_ s =? 0 then retry t else A_cas t (count_ s), s)
  | A_cas t current =>
      if count_ s =? current
      then (Idle (Some true), mk_shared (to_u32 (current - 1)) (taken s + 1) (given s))
      else (retry t, s)
  | R_load update =>
      (if to_u32 (MaxCount - count_ s) <? update then Idle (Some false) else R_cas update (count_ s), s)
  | R_cas update current =>
      if count_ s =? current
      then (Idle (Some true), mk_shared (to_u32 (current + update)) (taken s) (given s + update))
      else (R_load update, s)
  end.

Definition init (initial_count : Z) : shared :=
  mk_shared (if MaxCount <? initial_count then MaxCount else initial_count) 0 0.

Definition pc_ok (p : pc) : Prop :=
  match p with
  | A_cas _ current => 0 < current <= MaxCount
  | R_load update => u32 update
  | R_cas update current => u32 update /\ 0 <= current /\ current + update <= MaxCount
  | _ => True
  end.

Definition inv (start : Z) (x : shared * list pc) : Prop :=
  0 <= count_ x.1 <= MaxCount /\ count_ x.1 = start + given x.1 - taken x.1 /\ Forall pc_ok x.2.

Lemma permits_step start c i p s ps :
  u32 MaxCount -> inv start (s, ps) -> ps !! i = Some p ->
  inv start ((next c p s).2, <[i := (next c p s).1]> ps).
Proof.
  intros Hmax (Hc & Hh & Hok) Hi. cbn [fst snd] in *. unfold in_width in Hmax.
  pose proof (Forall_lookup_1 _ _ _ _ Hok Hi) as Hp.
  assert (Hins : forall q, pc_ok q -> Forall pc_ok (<[i := q]> ps)) by (intros; by apply Forall_insert).
  unfold inv. destruct p as [r|t|t cur|u|u cur]; cbn [next pc_ok fst snd] in *; unfold retry.
  - cbn [fst snd]. destruct c; (split_and!; [lia|lia|done|]); apply Hins; cbn [fst pc_ok]; [done|done|apply wrap_in_width; lia].
  - destruct (Z.eqb_spec (count_ s) 0); (split_and!; [lia|lia|done|]); apply Hins; [by destruct t|]. cbn [fst pc_ok]. lia.
  - destruct (Z.eqb_spec (count_ s) cur); cbn [fst snd count_ taken given]; [|split_and!; try done; try lia; apply Hins; by destruct t].
    rewrite wrap_small by (unfold in_width; lia). split_and!; try lia. by apply Hins.
  - rewrite wrap_small by (unfold in_width; lia).
    destruct (Z.ltb_spec (MaxCount - count_ s) u); (split_and!; [lia|lia|done|]); apply Hins; [done|].
    cbn [fst pc_ok]. split; [done|]. lia.
  - destruct Hp as (Hu & Hcur & Hle). unfold in_width in Hu.
    destruct (Z.eqb_spec (count_ s) cur); cbn [fst snd count_ taken given]; [|split_and!; try done; try lia; apply Hins; done].
    rewrite wrap_small by (unfold in_width; lia). split_and!; try lia. by apply Hins.
Qed.

(** A lone [acquire] takes an available permit in two steps. *)
Lemma acquire_enters c i s ps :
  count_ s <> 0 -> ps !! i = Some (A_load false) ->
  let x := solo next c i (solo next c i (s, ps)) in
  x.2 !! i = Some (Idle (Some true)) /\ taken x.1 = taken s + 1.
Proof.
  intros Hs Hi. assert (N1 : next c (A_load false) s = (A_cas false (count_ s), s)).
  { cbn [next]. by rewrite (proj2 (Z.eqb_neq _ _)). }
  destruct (solo_at next c i s ps _ Hi) as [E1 L1]. cbv zeta. rewrite E1 in L1 |- *. rewrite N1 in L1 |- *.
  cbn [fst snd] in *. destruct (solo_at next c i s _ _ L1) as [E2 L2]. rewrite L2, E2. cbn [next]. by rewrite Z.eqb_refl.
Qed.
End Semaphore.

(**  [semaphore] neither loses nor invents permits: in every interleaving of any
    threads calling [acquire], [try_acquire] and [release], the count stays
    between zero and [MaxCount] (so that the subtraction in [release] does not
    wrap around) and equals the initial count, clamped to [MaxCount], plus the
    permits given back minus those taken; and whenever a permit is available a
    thread in [acquire] that runs on its own gets one in two steps. *)
Theorem semaphore_conserves_permits (MaxCount initial_count : Z) (n : nat) (s : shared) (ps : list pc) :
  u32 MaxCount -> u32 initial_count ->
  rtc (cstep (next MaxCount)) (init MaxCount initial_count, replicate n (Idle None)) (s, ps) ->
  0 <= count_ s <= MaxCount
  /\ count_ s = Z.min initial_count MaxCount + given s - taken s
  /\ (count_ s <> 0 -> forall c i, ps !! i = Some (A_load false) ->
        let x := solo (next MaxCount) c i (solo (next MaxCount) c i (s, ps)) in
        x.2 !! i = Some (Idle (Some true)) /\ taken x.1 = taken s + 1).
Proof.
  intros Hm Hi Hr.
  assert (H0 : inv MaxCount (Z.min initial_count MaxCount) (init MaxCount initial_count, replicate n (Idle None))).
  { unfold inv, init, in_width in *. cbn [fst snd count_ taken given]. split_and!.
    - destruct (Z.ltb_spec MaxCount initial_count); lia.
    - destruct (Z.ltb_spec MaxCount initial_count); lia.
    - destruct (Z.ltb_spec MaxCount initial_count); lia.
    - by apply Forall_replicate. }
  destruct (cstep_invariant (next MaxCount) (inv MaxCount (Z.min initial_count MaxCount)) _ (s, ps)
    ltac:(intros c i p s' ps'; by apply permits_step) H0 Hr) as (Hc & Hh & _).
  split; [exact Hc|]. split; [exact Hh|]. intros Hne c i Hp. by apply acquire_enters.
Qed.

Lemma semaphore_conserves_permits_witness :
  exists s ps, rtc (cstep (next 3)) (init 3 9, replicate 2 (Idle None)) (s, ps)
    /\ count_ s = 2 /\ count_ s = Z.min 9 3 + given s - taken s.
Proof.
  exists (mk_shared 2 1 0), [Idle (Some true); Idle None].
  assert (R : rtc (cstep (next 3)) (init 3 9, replicate 2 (Idle None)) (mk_shared 2 1 0, [Idle (Some true); Idle None])).
  { do 3 (eapply rtc_l; [apply (cstep_at (next 3) c_acquire 0); reflexivity|]). apply rtc_refl. }
  split; [exact R|]. split; [reflexivity|].
  apply (semaphore_conserves_permits 3 9 2 (mk_shared 2 1 0) [Idle (Some true); Idle None]);
    [unfold in_width; lia|unfold in_width; lia|exact R].
Defined.
End Semaphore.
