(* ===== verification/TickTimer.v ===== *)
(** * The tick-driven timer (castle/events/tick_timer.hpp)

    The whole timer, with the callback registry seen from outside: [registry_.invoke()]
    runs the callbacks, which may call back into the timer; what they do to it is
    the parameter [invoke].  [fired] counts the invocations. *)

From S2P Require Import Prelude Status.
Open Scope Z_scope.

Inductive mode : Type := one_shot | periodic | n_repeat.
#[export] Instance mode_eq_dec : EqDecision mode.
Proof. solve_decision. Defined.

Record tick_timer : Type := mk_timer {
  period_ : Z;
  counter_ : Z;
  repeat_remaining_ : Z;
  mode_ : mode;
  running_ : bool;
  fired : nat
}.

Definition timer_new : tick_timer := mk_timer 0 0 0 periodic false 0.

Definition set_period (ticks : Z) (t : tick_timer) : status * tick_timer :=
  if ticks =? 0 then (s_invalid_config, t)
  else (s_ok, mk_timer ticks (counter_ t) (repeat_remaining_ t) (mode_ t) (running_ t) (fired t)).

Definition start (run_mode : mode) (repeat_count : Z) (t : tick_timer) : status * tick_timer :=
  if period_ t =? 0 then (s_not_configured, t)
  else if bool_decide (run_mode = n_repeat) && (repeat_count =? 0) then (s_invalid_config, t)
  else (s_ok, mk_timer (period_ t) 0 (if bool_decide (run_mode = n_repeat) then repeat_count else 0)
                run_mode true (fired t)).

Definition stop (t : tick_timer) : tick_timer :=
  mk_timer (period_ t) 0 0 (mode_ t) false (fired t).
Definition pause (t : tick_timer) : tick_timer :=
  mk_timer (period_ t) (counter_ t) (repeat_remaining_ t) (mode_ t) false (fired t).
Definition resume (t : tick_timer) : status * tick_timer :=
  if period_ t =? 0 then (s_not_configured, t)
  else (s_ok, mk_timer (period_ t) (counter_ t) (repeat_remaining_ t) (mode_ t) true (fired t)).
Definition reset (t : tick_timer) : tick_timer :=
  mk_timer (period_ t) 0 (repeat_remaining_ t) (mode_ t) (running_ t) (fired t).

(** [running_ = false; counter_ = 0;] *)
Definition halt (t : tick_timer) : tick_timer :=
  mk_timer (period_ t) 0 (repeat_remaining_ t) (mode_ t) false (fired t).

Section OnTick.
Context (invoke : tick_timer -> tick_timer).

Definition tick_body (t : tick_timer) : exec (ctl unit tick_timer) :=
  let t := mk_timer (period_ t) (to_u32 (counter_ t - period_ t)) (repeat_remaining_ t) (mode_ t) (running_ t) (S (fired t)) in
  let t := invoke t in
  Done (Next (match mode_ t with
              | one_shot => halt t
              | n_repeat =>
                  let left := if 0 <? repeat_remaining_ t then repeat_remaining_ t - 1 else repeat_remaining_ t in
                  let t := mk_timer (period_ t) (counter_ t) left (mode_ t) (running_ t) (fired t) in
                  if left =? 0 then halt t else t
              | periodic => t
              end)).

(** Every iteration takes at least one tick off the counter as long as the callbacks
    leave the timer alone, so the value of the counter is fuel enough. *)
Definition on_tick (elapsed : Z) (t : tick_timer) : exec tick_timer :=
  if negb (running_ t) || (period_ t =? 0) then Done t
  else
    let t := mk_timer (period_ t) (to_u32 (counter_ t + elapsed)) (repeat_remaining_ t) (mode_ t) (running_ t) (fired t) in
    match while_loop (S (Z.to_nat (counter_ t))) (fun t => Done (running_ t && (period_ t <=? counter_ t))) tick_body t with
    | Done (Next t) => Done t
    | _ => Undefined
    end.

Fixpoint on_ticks (es : list Z) (t : tick_timer) : exec tick_timer :=
  match es with [] => Done t | e :: es => t ← on_tick e t; on_ticks es t end.
End OnTick.

Definition remaining (t : tick_timer) : Z :=
  if negb (running_ t) || (period_ t =? 0) then 0
  else if period_ t <=? counter_ t then 0 else to_u32 (period_ t - counter_ t).
Definition repeats_remaining (t : tick_timer) : Z :=
  if bool_decide (mode_ t = n_repeat) then repeat_remaining_ t else 0.

(** ** The loop, when the callbacks leave the timer alone *)

Abbreviation tick_loop fuel st :=
  (while_loop fuel (fun t => Done (running_ t && (period_ t <=? counter_ t))) (tick_body id) st).

(** One period less on the counter. *)
Lemma period_off p c : 0 < p <= c -> c / p = (c - p) / p + 1 /\ c mod p = (c - p) mod p.
Proof.
  intros Hp. replace c with (c - p + 1 * p) at 1 3 by lia.
  split; [rewrite Z.div_add by lia; done|rewrite Z.mod_add by lia; done].
Qed.

Lemma loop_rest fuel p c r md f :
  c < p -> tick_loop (S fuel) (mk_timer p c r md true f) = Done (Next (mk_timer p c r md true f)).
Proof. intros H. cbn [while_loop running_ period_ counter_ andb]. by rewrite (proj2 (Z.leb_gt _ _)). Qed.

Lemma loop_stopped fuel p c r md f :
  tick_loop (S fuel) (mk_timer p c r md false f) = Done (Next (mk_timer p c r md false f)).
Proof. done. Qed.

Lemma periodic_loop p r : 0 < p -> forall fuel c f,
  0 <= c < 2 ^ 32 -> (Z.to_nat c < fuel)%nat ->
  tick_loop fuel (mk_timer p c r periodic true f)
  = Done (Next (mk_timer p (c mod p) r periodic true (f + Z.to_nat (c / p)))).
Proof.
  intros Hp. induction fuel as [|fuel IH]; intros c f Hc Hf; [lia|]. destruct (Z.lt_ge_cases c p).
  - rewrite loop_rest by done. by rewrite Z.mod_small, Z.div_small, Nat.add_0_r by lia.
  - cbn [while_loop running_ period_ counter_ andb]. rewrite (proj2 (Z.leb_le _ _)) by lia.
    unfold tick_body at 1. cbn [period_ counter_ repeat_remaining_ mode_ running_ fired id].
    rewrite wrap_small by (unfold in_width; lia). rewrite IH by lia.
    destruct (period_off p c) as [-> ->]; [lia|]. do 2 f_equal. f_equal.
    assert (0 <= (c - p) / p) by (apply Z.div_pos; lia). lia.
Qed.

Lemma one_shot_loop p r c f fuel :
  0 < p -> 0 <= c < 2 ^ 32 -> (Z.to_nat c < fuel)%nat ->
  tick_loop fuel (mk_timer p c r one_shot true f)
  = Done (Next (if c <? p then mk_timer p c r one_shot true f else mk_timer p 0 r one_shot false (S f))).
Proof.
  intros Hp Hc Hf. destruct fuel as [|fuel]; [lia|]. destruct (Z.ltb_spec c p); [by apply loop_rest|].
  cbn [while_loop running_ period_ counter_ andb]. rewrite (proj2 (Z.leb_le _ _)) by lia.
  unfold tick_body at 1. cbn [period_ counter_ repeat_remaining_ mode_ running_ fired id halt].
  destruct fuel as [|fuel]; [lia|]. apply loop_stopped.
Qed.

Lemma repeat_loop p : 0 < p -> forall fuel c r f,
  0 <= c < 2 ^ 32 -> (Z.to_nat c < fuel)%nat -> 0 < r ->
  tick_loop fuel (mk_timer p c r n_repeat true f)
  = Done (Next (if c / p <? r then mk_timer p (c mod p) (r - c / p) n_repeat true (f + Z.to_nat (c / p))
                else mk_timer p 0 0 n_repeat false (f + Z.to_nat r))).
Proof.
  intros Hp. induction fuel as [|fuel IH]; intros c r f Hc Hf Hr; [lia|]. destruct (Z.lt_ge_cases c p).
  - rewrite loop_rest by done. rewrite Z.mod_small, Z.div_small by lia.
    rewrite (proj2 (Z.ltb_lt _ _)) by done. by rewrite Z.sub_0_r, Nat.add_0_r.
  - destruct (period_off p c) as [Ed Em]; [lia|]. assert (0 <= (c - p) / p) by (apply Z.div_pos; lia).
    cbn [while_loop running_ period_ counter_ andb]. rewrite (proj2 (Z.leb_le _ _)) by lia.
    unfold tick_body at 1. cbn [period_ counter_ repeat_remaining_ mode_ running_ fired id].
    rewrite wrap_small by (unfold in_width; lia). rewrite (proj2 (Z.ltb_lt 0 r)) by done.
    destruct (Z.eqb_spec (r - 1) 0).
    + unfold halt. cbn [period_ counter_ repeat_remaining_ mode_ running_ fired]. destruct fuel as [|fuel]; [lia|].
      rewrite loop_stopped. assert (r = 1) as -> by lia. rewrite (proj2 (Z.ltb_ge _ _)) by lia.
      do 2 f_equal. f_equal. lia.
    + rewrite IH by lia. rewrite Ed, Em.
      destruct (Z.ltb_spec ((c - p) / p) (r - 1)), (Z.ltb_spec ((c - p) / p + 1) r); try lia; do 2 f_equal; f_equal; lia.
Qed.

(** ** Any sequence of ticks *)

(** The timer of period [p], started in mode [md] for [n] repetitions, after [total]
    ticks. *)
Definition timer_after (p : Z) (md : mode) (n total : Z) (f : nat) : tick_timer :=
  let k := total / p in
  match md with
  | periodic => mk_timer p (total mod p) 0 periodic true (f + Z.to_nat k)
  | one_shot => if total <? p then mk_timer p total 0 one_shot true f else mk_timer p 0 0 one_shot false (S f)
  | n_repeat =>
      if k <? n then mk_timer p (total mod p) (n - k) n_repeat true (f + Z.to_nat k)
      else mk_timer p 0 0 n_repeat false (f + Z.to_nat n)
  end.

Lemma on_tick_after p md n total e f :
  0 < p < 2 ^ 32 -> (md = n_repeat -> 0 < n) -> 0 <= total -> 0 <= e -> p - 1 + e < 2 ^ 32 ->
  on_tick id e (timer_after p md n total f) = Done (timer_after p md n (total + e) f).
Proof.
  intros Hp Hn Ht He Hov. pose proof (Z.mod_pos_bound total p ltac:(lia)) as Hm.
  assert (Hd : 0 <= total / p) by (apply Z.div_pos; lia).
  assert (Hde : 0 <= (total mod p + e) / p) by (apply Z.div_pos; lia).
  pose proof (Z.div_mod total p ltac:(lia)) as Hdm.
  assert (Ek : (total + e) / p = total / p + (total mod p + e) / p).
  { replace (total + e) with (total mod p + e + total / p * p) by lia. rewrite Z.div_add by lia. lia. }
  assert (Em : (total + e) mod p = (total mod p + e) mod p).
  { replace (total + e) with (total mod p + e + total / p * p) by lia. by rewrite Z.mod_add by lia. }
  destruct md; cbn [timer_after].
  - destruct (Z.ltb_spec total p); unfold on_tick; cbn [running_ period_ counter_ negb orb].
    + rewrite (proj2 (Z.eqb_neq p 0)) by lia. rewrite wrap_small by (unfold in_width; lia).
      cbn [period_ counter_ repeat_remaining_ mode_ running_ fired]. rewrite one_shot_loop by lia. done.
    + by rewrite (proj2 (Z.ltb_ge _ _)) by lia.
  - unfold on_tick. cbn [running_ period_ counter_ negb orb]. rewrite (proj2 (Z.eqb_neq p 0)) by lia.
    rewrite wrap_small by (unfold in_width; lia). cbn [period_ counter_ repeat_remaining_ mode_ running_ fired].
    rewrite periodic_loop by lia. rewrite Ek, Em. do 2 f_equal. lia.
  - specialize (Hn eq_refl). rewrite Ek, Em.
    destruct (Z.ltb_spec (total / p) n); unfold on_tick; cbn [running_ period_ counter_ negb orb].
    + rewrite (proj2 (Z.eqb_neq p 0)) by lia. rewrite wrap_small by (unfold in_width; lia).
      cbn [period_ counter_ repeat_remaining_ mode_ running_ fired]. rewrite repeat_loop by lia.
      destruct (Z.ltb_spec ((total mod p + e) / p) (n - total / p)), (Z.ltb_spec (total / p + (total mod p + e) / p) n);
        try lia; do 2 f_equal; lia.
    + by rewrite (proj2 (Z.ltb_ge _ _)) by lia.
Qed.

(**  The timer catches up exactly: a timer configured with period [p] and started,
    given any sequence of tick counts (each small enough that the 32-bit counter
    does not wrap around) with callbacks that do not touch the timer, has invoked
    its callbacks once per elapsed period: [total / p] times when periodic, at
    most once when one-shot and at most [n] times in n-repeat mode, after which it
    has stopped; what it keeps is the remainder of the division, however the ticks
    were batched. *)
Theorem timer_fires_once_per_period (p : Z) (md : mode) (n : Z) (es : list Z) :
  0 < p < 2 ^ 32 -> (md = n_repeat -> 0 < n) -> Forall (fun e => 0 <= e /\ p - 1 + e < 2 ^ 32) es ->
  exists t, start md n (set_period p timer_new).2 = (s_ok, t)
    /\ on_ticks id es t = Done (timer_after p md n (foldr Z.add 0 es) 0).
Proof.
  intros Hp Hn Hes. exists (timer_after p md n 0 0). split.
  - unfold start, set_period. rewrite (proj2 (Z.eqb_neq p 0)) by lia. cbn [snd period_ fired].
    rewrite (proj2 (Z.eqb_neq p 0)) by lia.
    destruct md; cbn [timer_after]; rewrite ?Z.div_0_l, ?Z.mod_0_l by lia.
    + by rewrite (proj2 (Z.ltb_lt _ _)) by lia.
    + done.
    + specialize (Hn eq_refl). rewrite bool_decide_true, (proj2 (Z.eqb_neq n 0)), (proj2 (Z.ltb_lt 0 n)) by (done || lia).
      by rewrite Z.sub_0_r.
  - assert (G : forall total, 0 <= total -> on_ticks id es (timer_after p md n total 0)
                = Done (timer_after p md n (total + foldr Z.add 0 es) 0)).
    { induction Hes as [|e es [He Hov] _ IH]; intros total Ht; cbn [on_ticks foldr]; [by rewrite Z.add_0_r|].
      rewrite on_tick_after by done. exec_simpl. rewrite IH by lia. by rewrite Z.add_assoc. }
    by rewrite (G 0).
Qed.

Lemma timer_fires_once_per_period_witness :
  exists t, start n_repeat 3 (set_period 10 timer_new).2 = (s_ok, t)
    /\ on_ticks id [7; 18; 2] t = Done (mk_timer 10 7 1 n_repeat true 2).
Proof.
  destruct (timer_fires_once_per_period 10 n_repeat 3 [7; 18; 2]) as (t & S & T).
  - lia.
  - intros _. lia.
  - repeat constructor; lia.
  - exists t. split; [exact S|exact T].
Defined.

(** A large batch can wrap the counter around: with one tick on the counter, a batch
    of [2^32 - 1] ticks fires no callback although it spans many periods. *)
Example timer_batch_wraps :
  on_tick id (2 ^ 32 - 1) (mk_timer 10 1 0 periodic true 0) = Done (mk_timer 10 0 0 periodic true 0).
Proof. reflexivity. Qed.
